(* ===== verification/_CoqProject ===== *)
-Q . S2P
Prelude.v
Cstring.v
Util.v
Intset.v
ListpackEnc.v
Listpack.v
ListpackTheory.v
ListpackValidate.v
ListpackSpec.v
ListpackCount.v
Dict.v
DictTheory.v
DictSpec.v
DictScan.v
Glob.v
GlobSpec.v
Sds.v
SdsTheory.v
SdsSpec.v
SdsSplit.v
Networking.v
NetworkingTheory.v
NetworkingSim.v
Aof.v
NetworkingSpec.v
Kvstore.v
KvstoreTheory.v
KvstoreSpec.v
Lzf.v
LzfSpec.v
Rio.v
Rdb.v
RdbSpec.v
Crc.v
CrcTheory.v
CrcSpec.v
Zskiplist.v
ZskiplistOrder.v
ZskiplistTheory.v
ZskiplistLink.v
ZskiplistOps.v
ZskiplistQuery.v
Zset.v
ZsetTheory.v
ZsetRange.v
ZsetSpec.v
Convert.v
ConvertSpec.v
Dump.v
DumpSpec.v
Dll.v
Adlist.v
AdlistTheory.v
AdlistSpec.v
Quicklist.v
QuicklistNode.v
QuicklistLink.v
QuicklistValues.v
QuicklistOps.v
QuicklistEdit.v
QuicklistIter.v
QuicklistRange.v
QuicklistMerge.v
QuicklistInsert.v
QuicklistReplace.v
QuicklistScan.v
QuicklistSpec.v
TList.v
TListCmd.v
TListTheory.v
TListIter.v
TListLoops.v
TListSpec.v
TListKeys.v
TListEdge.v
