(* ===== verification/Prelude.v ===== *)
(** * A verification of the data structures and the protocol core of Redis 7.4.2

    The C program of this repository is the Redis server of
    [src/.local/redis/redis-7.4.2/src].  This library translates its storage
    and protocol core into executable definitions and proves what makes these
    parts correct: that they implement their abstract data types, that they
    stay inside their allocations and return on every input, and that what is
    written can be read back.

    ** The program and its parts

    A client's bytes are read by networking.c into a query buffer (an sds
    string) and parsed into commands.  A command works on values kept in the
    key space (kvstore.c, an array of hash tables of dict.c, one per cluster
    slot) and encoded as strings, integer sets (intset.c), listpacks
    (listpack.c), quicklists of listpacks (quicklist.c), lists that change
    between these two (t_list.c), sorted sets (t_zset.c, a skip list beside a
    dict) and larger containers; the server keeps its own records in linked
    lists (adlist.c).  Every change is appended to the
    append only file in the protocol's own format (aof.c); values are also
    written as RDB encodings (rdb.c, through the streams of rio.c, compressed
    by lzf_c.c and guarded by the checksum of crc64.c), by DUMP and RESTORE
    among others (cluster.c).  The helpers of util.c and sds.c are below all of
    them.

    ** The files

    - [Prelude] (this file): results with faults, buffers, machine integers,
      shared lemmas, the hint database [redis] and the tactics.
    - [Cstring]: the functions of string.h and ctype.h the sources call.
    - [Util]: util.c, integers to and from decimal text ([ll2string],
      [string2ll], [string2ul], ...), hexadecimal digits, byte searches.
    - [Intset]: intset.c, all of it, on the bytes of the blob.
    - [ListpackEnc], [Listpack], [ListpackTheory], [ListpackValidate],
      [ListpackSpec], [ListpackCount]: listpack.c.  The entry format; the
      operations on the buffer; lemmas; the integrity check of untrusted bytes;
      the refinement to lists and the results; that an untrusted listpack stays
      valid when its count is stored in the header.
    - [Dict], [DictTheory], [DictSpec], [DictScan]: dict.c.  Two chained tables
      with incremental rehashing and automatic resizing; the refinement to
      finite maps; the stateless scan.
    - [Kvstore], [KvstoreTheory], [KvstoreSpec]: kvstore.c.  The array of dicts
      with the binary indexed tree of its key counts.
    - [Glob], [GlobSpec]: stringmatchlen of util.c.
    - [Sds], [SdsTheory], [SdsSpec], [SdsSplit]: sds.c and sds.h.  The string
      with its header bytes; the refinement to byte lists; sdssplitargs and
      its round trip with sdscatrepr.
    - [Networking], [NetworkingTheory], [NetworkingSim], [NetworkingSpec]: the
      reading side of networking.c.  Query buffer, inline and RESP requests,
      protocol errors, master links, hand-over between I/O threads and the main
      thread.
    - [Aof]: catAppendOnlyGenericCommand of aof.c.
    - [Lzf], [LzfSpec]: lzf_c.c and lzf_d.c in the configuration of lzfP.h.
    - [Rio]: rio.c and rio.h, streams over a device.
    - [Rdb], [RdbSpec]: lengths, integers and strings of rdb.c, loaded under any
      of the six RDB_LOAD flags; for hash fields the allocation by mstr.c.
    - [Crc], [CrcTheory], [CrcSpec]: crc64.c, crcspeed.c, crc16.c and
      keyHashSlot of cluster.h.
    - [Zskiplist], [ZskiplistOrder], [ZskiplistTheory], [ZskiplistLink],
      [ZskiplistOps], [ZskiplistQuery]: the skip list of t_zset.c.  Nodes on a
      heap with levels, spans and backward pointers; the order of scores and
      elements; levels as sublists; insertion, deletion, ranks and ranges.
    - [Zset], [ZsetTheory], [ZsetRange], [ZsetSpec]: sorted sets in the skip list
      encoding, the dict and the skip list kept together.
    - [Convert], [ConvertSpec]: the conversions of t_set.c, t_zset.c and t_hash.c
      that loading asks for, from integer sets and listpacks to dicts and skip
      lists, on untrusted bytes as well.
    - [Dump], [DumpSpec]: createDumpPayload and verifyDumpPayload of cluster.c
      with the branches of rdbSaveObject and rdbLoadObject for strings, integer
      sets and listpacks, and the conversion of what exceeds the limit of its
      encoding.
    - [Dll]: doubly linked nodes on a heap, shared by the next two.
    - [Adlist], [AdlistTheory], [AdlistSpec]: adlist.c.
    - [Quicklist], [QuicklistNode], [QuicklistLink], [QuicklistValues],
      [QuicklistOps], [QuicklistEdit], [QuicklistIter], [QuicklistRange],
      [QuicklistMerge], [QuicklistInsert], [QuicklistReplace], [QuicklistScan],
      [QuicklistSpec]: quicklist.c.  The translation; nodes in their two
      encodings; linking and the compress depth; the values of a node; the
      invariant and adding at the ends; taking and releasing; iterators; ranges;
      merging; inserting; replacing; comparing and whole listpacks; the
      refinement to lists.
    - [TList], [TListCmd], [TListTheory], [TListIter], [TListLoops],
      [TListSpec], [TListKeys], [TListEdge]: t_list.c.  The list type in its two
      encodings; the commands, from their arguments to replies, keyspace
      notifications and counted changes; objects, iterators and loops; the
      commands on one key; a database of several keys; the inputs beyond the
      bounds of these results.

    A file with the plain name of a component holds the translation, one
    definition per C function with the function's name; [...Theory] its
    lemmas; [...Spec] the abstract specification and the results.  Loops that
    are not structural run on fuel, computed from the length of the data they
    work on; every theorem that concludes [Ok] shows that this fuel was
    enough.

    ** The interfaces

    What the components take from code outside the library, or from each
    other, is stated as a class with instances that show it can be met:
    - [Dict.dictType] with [DictTypeOk]: the callbacks of a dict, of which the
      hash function is arbitrary and the key comparison decides equality;
    - [Allocator] (below): the usable size the allocator reports is at least the
      size asked for;
    - [Networking.Server]: the commands, authentication and limits as the
      parser sees them;
    - [Rio.RioDevice] and [Rio.Stream]: the functions of a stream's device and
      what readers and writers rely on; the byte buffer is an instance;
    - [Quicklist.Environment] and [TList.ListConfig]: the test threshold, the
      uninitialised hash table of the compressor and the configured limits of
      lists;
    - [Convert.runtime]: the hash function of dicts, strtod, the random draws for
      levels and uninitialised memory, of which only [ConvertSpec.runtime_ok] is
      assumed (hashes are 64 bit numbers, a draw ends the choice of a level).

    ** What is proved

    - Refinement: sequences of operations on the concrete state answer as the
      abstract type does (finite maps, arrays of maps, lists, sets, byte
      strings), and the invariant of the concrete state is kept.  Resizing
      policy, rehashing steps, encodings, allocation slack and initial memory
      contents are arbitrary, so they are proved to be invisible.
    - Scans: a full scan of a dict or of a kvstore reports every key that stays
      in it, across all changes of the tables between the calls, and ends.
    - Safety on untrusted bytes: requests, dump payloads, listpack and intset
      blobs, compressed data.  No access outside the buffers, always a result,
      and what is accepted is safe to use.  For dump payloads two assertions of
      the code can also fail, both characterised: a length field near 2^64, and
      a sorted set over the limit with a score that is not a number.
    - Lists: the commands act as on a map from keys to lists of strings, with
      equal replies, notifications and counts, for every limit and depth; no
      empty list and no node is left behind.
    - Round trips: numbers and text, AOF and parser, DUMP and RESTORE, RDB
      strings, LZF, quoting and splitting.
    - Independence: the effect of a connection does not depend on how the
      network cuts the stream or on whether an I/O thread parses it.
    - Checksums: the table-driven routines are the bit-by-bit definitions, and
      detect every error burst of at most 64 bits.
    - Errors: the results of malformed input, and the inputs on which the code
      stops or reads outside its buffers, each stated as a theorem.

    - Sorted sets: nodes are well typed (a forward pointer leads to a node that
      has that level), ranks and spans agree, and freeing leaves no node.
    - Quicklists: compression never changes the values, the assertions of the
      code on the nodes at the ends hold, and nothing within the compress depth
      stays compressed, for every fill factor and depth.

    ** Bounds

    A 64 bit little-endian host is modelled (checksums: both byte orders).
    Numbers are unbounded [Z] with every conversion of the source to a C type
    written out.  The theorems assume what an address space gives: dicts of at
    most 2^58 entries ([max_entries]) in tables of at most 2^60 buckets,
    kvstores of at most 2^16 dicts (the code allows no more), sds strings below
    2^62 bytes, LZF inputs below 2^63 bytes, connections of at most 2^60 bytes
    with proto-max-bulk-len at most 2^61, RDB strings below 2^62 bytes, keys
    below 2^31 bytes for slots, RESTORE with single allocations of at most 2^32
    bytes, linked lists below 2^61 nodes, quicklists whose values take less than
    2 GB, with 16 bytes added for each, list commands that push at most 2^15
    values at once, with LSET indexes that are values of an int and LMPOP with at
    most LONG_MAX - 2 keys ([TListKeys.db_calls_ok]), integer sets of at most
    2^29 - 2 elements ([Intset.max_len]: beyond, the 32 bit byte count of
    intsetMoveTail is not exact, although t_set.c allows 2^30 entries).  Glob
    patterns and strings have lengths that are values of an int.  Values are
    fetched and replaced only in dicts whose type has values, since dictGetVal
    asserts it.  Sorted sets hold at most 2^58 elements,
    offsets of ranges are below 2^62 in absolute value, removal by rank is below
    2^32 elements, and ranges of elements are those of one score.  Scores are
    IEEE doubles; the level of a node comes from any random draws of which one
    ends the loop.  Listpacks are below 4 GB and glob patterns nest 1000 levels because
    the code says so.

    ** Not modelled

    The event loop, sockets and files (operating system calls; what they
    deliver is an argument of the models); out of memory results of the
    allocator; floating-point parsing and printing; random sampling;
    statistics, logging and latency monitoring; the iterators of dicts and
    kvstores, defragmentation and the rehashing lists kept by callbacks; the
    commands of the data types other than lists, with their replies, and of lists
    the blocking ones and the expiry of keys; radix trees and streams; the
    listpack encoding of sorted sets, the conversions back to listpacks and the
    set operations; file loading loops of aof.c and rdb.c; replication, cluster bus,
    sentinel, scripting, modules, access control; the command line tools and the
    bundled libraries.  Candidates for extension, in this order: the remaining
    encodings of rdbSaveObject and rdbLoadObject, listpack encoded sorted sets,
    the loading loop of aof.c, radix trees (rax.c), dict iterators.

    ** This file

    The memory, integer and error model every component is written in:

    - [res A]: the result of running C code.  [Ok a] is a normal return,
      [Fault f] is what the C standard leaves undefined or what stops the
      process: a read or write outside an allocation ([OutOfBounds]), a failed
      [assert] ([AssertFailed]), and a loop whose fuel is spent ([OutOfFuel]).
      A theorem that concludes [f x = Ok r] is therefore also a memory-safety
      and termination theorem.
    - a buffer is a [list Z] of byte values, a pointer into it is a [Z]
      offset from its start; [rd], [wr], [rdn], [wrn], [memmove] are the
      accesses, each checked against the length of the allocation.
    - [u8] ... [u64] and [i16] ... [i64] are the conversions to the C integer
      types, with their wrap-around written out.
    - [le_val], [le_bytes]: little-endian integers, as a little-endian host
      stores them (the configuration in which [intrev32ifbe] and friends of
      endianconv.h are the identity).

    The second half holds the lemmas on these that the components share, the
    hint database [redis] and the tactics [res_step] and [simplify_res]. *)

From stdpp Require Export base list list_numbers numbers option tactics.
From Stdlib Require Export ZArith Lia.
From Stdlib Require Ascii String.
Export String.StringSyntax.
#[global] Open Scope Z_scope.

(** ** Results *)

Inductive fault : Type :=
| OutOfBounds
| AssertFailed
| OutOfFuel.

Inductive res (A : Type) : Type :=
| Ok (a : A)
| Fault (f : fault).
Arguments Ok {A} a.
Arguments Fault {A} f.

#[export] Instance res_ret : MRet res := fun _ a => Ok a.
#[export] Instance res_bind : MBind res := fun _ _ f r =>
  match r with Ok a => f a | Fault e => Fault e end.

Definition cassert (b : bool) : res unit :=
  if b then Ok tt else Fault AssertFailed.

Definition is_ok {A} (r : res A) : Prop := exists a, r = Ok a.

(** [r] returns a result for which [Q] holds. *)
Definition yields {A} (r : res A) (Q : A -> Prop) : Prop := exists a, r = Ok a /\ Q a.

(** ** Integers of fixed width *)

Definition wrapu (w x : Z) : Z := x mod 2 ^ w.
Definition wraps (w x : Z) : Z := (x + 2 ^ (w - 1)) mod 2 ^ w - 2 ^ (w - 1).

Abbreviation u8 := (wrapu 8).
Abbreviation u16 := (wrapu 16).
Abbreviation u32 := (wrapu 32).
Abbreviation u64 := (wrapu 64).
Abbreviation i16 := (wraps 16).
Abbreviation i32 := (wraps 32).
Abbreviation i64 := (wraps 64).

Definition UINT16_MAX : Z := 2 ^ 16 - 1.
Definition UINT32_MAX : Z := 2 ^ 32 - 1.
Definition UINT64_MAX : Z := 2 ^ 64 - 1.
Definition INT16_MIN : Z := - 2 ^ 15.
Definition INT16_MAX : Z := 2 ^ 15 - 1.
Definition INT32_MIN : Z := - 2 ^ 31.
Definition INT32_MAX : Z := 2 ^ 31 - 1.
Definition INT64_MIN : Z := - 2 ^ 63.
Definition INT64_MAX : Z := 2 ^ 63 - 1.

Definition is_i64 (x : Z) : Prop := INT64_MIN <= x <= INT64_MAX.
Definition is_u64 (x : Z) : Prop := 0 <= x <= UINT64_MAX.

(** ** Buffers *)

Abbreviation bytes := (list Z).

Definition is_byte (x : Z) : Prop := 0 <= x < 256.
Definition wf_bytes (b : bytes) : Prop := Forall is_byte b.

Definition zlen {A} (l : list A) : Z := Z.of_nat (length l).

(** [p[i]] as an rvalue. *)
Definition rd (b : bytes) (i : Z) : res Z :=
  if 0 <=? i then
    match b !! Z.to_nat i with Some x => Ok x | None => Fault OutOfBounds end
  else Fault OutOfBounds.

(** [p[i] = v]; the store to an [unsigned char] keeps the low 8 bits. *)
Definition wr (b : bytes) (i v : Z) : res bytes :=
  if (0 <=? i) && (i <? zlen b) then Ok (<[Z.to_nat i := u8 v]> b)
  else Fault OutOfBounds.

(** The source half of [memcpy]: read [n] bytes starting at offset [i]. *)
Definition rdn (b : bytes) (i n : Z) : res bytes :=
  if (0 <=? i) && (0 <=? n) && (i + n <=? zlen b)
  then Ok (take (Z.to_nat n) (drop (Z.to_nat i) b))
  else Fault OutOfBounds.

(** The destination half of [memcpy]: store the bytes [s] at offset [i]. *)
Definition wrn (b : bytes) (i : Z) (s : bytes) : res bytes :=
  if (0 <=? i) && (i + zlen s <=? zlen b)
  then Ok (take (Z.to_nat i) b ++ s ++ drop (Z.to_nat i + length s) b)
  else Fault OutOfBounds.

(** [memmove(b+dst, b+src, n)] inside one allocation. *)
Definition memmove (b : bytes) (dst src n : Z) : res bytes :=
  s ← rdn b src n; wrn b dst s.

(** [realloc] to [n] bytes: the common prefix is kept, and what is gained
    holds the indeterminate bytes [junk]. *)
Definition realloc (junk : nat -> Z) (b : bytes) (n : Z) : bytes :=
  let k := Z.to_nat n in
  take k b ++ (junk <$> seq (length b) (k - length b)).

(** What the listpack and string code relies on from the allocator: an
    allocation of [n] bytes has [usable n >= n] usable ones (zmalloc.h,
    [zmalloc_usable_size]), with indeterminate contents; a failed allocation
    ends the process ([zmalloc_oom_handler]), so there is no NULL case. *)
Class Allocator : Type := {
  junk : nat -> Z;
  usable : Z -> Z;
  junk_byte i : is_byte (junk i);
  usable_ge n : n <= usable n
}.

Definition zmalloc `{Allocator} (n : Z) : bytes := realloc junk [] (usable n).
Definition zrealloc `{Allocator} (b : bytes) (n : Z) : bytes := realloc junk b (usable n).

(** An uninitialised array. *)
Definition uninit `{Allocator} (n : Z) : bytes := junk <$> seq 0 (Z.to_nat n).

(** An allocator that rounds up to 8 bytes and returns zeroed memory. *)
Lemma round8_ge n : n <= (n + 7) / 8 * 8.
Proof. Z.div_mod_to_equations; lia. Qed.

Lemma zero_byte : is_byte 0.
Proof. unfold is_byte. lia. Qed.

Definition calloc8 : Allocator := {|
  junk := fun _ => 0;
  usable := fun n => (n + 7) / 8 * 8;
  junk_byte := fun _ => zero_byte;
  usable_ge := round8_ge
|}.

(** The bytes of a C string literal, without its terminator. *)
Definition bytes_of_string (s : String.string) : bytes :=
  (fun a => Z.of_N (Ascii.N_of_ascii a)) <$> String.list_ascii_of_string s.
Arguments bytes_of_string s%_string_scope.

(** ** Little-endian integers *)

Fixpoint le_val (b : bytes) : Z :=
  match b with
  | [] => 0
  | x :: r => x + 256 * le_val r
  end.

Fixpoint le_bytes (n : nat) (x : Z) : bytes :=
  match n with
  | O => []
  | S n' => x mod 256 :: le_bytes n' (x / 256)
  end.

(** * Lemmas *)

Create HintDb redis.
Create Rewrite HintDb zlen.

(** ** Results *)

Lemma bind_ok {A B} (r : res A) (f : A -> res B) b :
  r ≫= f = Ok b <-> exists a, r = Ok a /\ f a = Ok b.
Proof.
  destruct r as [a|e]; cbn; split.
  - by exists a.
  - by intros (? & [= <-] & ?).
  - done.
  - by intros (? & ? & ?).
Qed.

Lemma ret_ok {A} (a : A) : mret a = Ok a.
Proof. done. Qed.

Lemma cassert_ok b : cassert b = Ok tt <-> b = true.
Proof. destruct b; cbn; naive_solver. Qed.

Lemma is_ok_Ok {A} (a : A) : is_ok (Ok a).
Proof. by exists a. Qed.
#[export] Hint Resolve is_ok_Ok : redis.

(** Run one [bind] whose left-hand side a hypothesis or lemma evaluates. *)
Ltac res_step H := rewrite H; cbn [mbind res_bind mret res_ret].

(** Well-formedness of a buffer written as an explicit list. *)
Ltac solve_wf :=
  unfold wf_bytes in *;
  repeat first [apply Forall_nil_2 | apply Forall_cons_2 | apply Forall_app_2]; auto with redis.

(** Decompose hypotheses [(x ← c; k) = Ok r]. *)
Ltac simplify_res :=
  repeat match goal with
  | H : (_ ≫= _) = Ok _ |- _ => apply bind_ok in H as (? & ? & H)
  | H : cassert _ = Ok _ |- _ => apply cassert_ok in H
  | H : Ok _ = Ok _ |- _ => injection H as H
  | H : Fault _ = Ok _ |- _ => discriminate H
  | H : mret _ = Ok _ |- _ => rewrite ret_ok in H
  end.

(** ** Integers *)

Lemma wrapu_small w x : 0 <= x < 2 ^ w -> wrapu w x = x.
Proof. intros ?. apply Z.mod_small. done. Qed.

Lemma wrapu_range w x : 0 <= w -> 0 <= wrapu w x < 2 ^ w.
Proof. intros ?. apply Z.mod_pos_bound, Z.pow_pos_nonneg; lia. Qed.

Lemma wraps_small w x :
  0 < w -> - 2 ^ (w - 1) <= x < 2 ^ (w - 1) -> wraps w x = x.
Proof.
  intros Hw Hx. unfold wraps.
  assert (2 ^ w = 2 * 2 ^ (w - 1)) as Hp
    by (rewrite <- Z.pow_succ_r by lia; f_equal; lia).
  rewrite Z.mod_small; lia.
Qed.

Lemma wraps_range w x :
  0 < w -> - 2 ^ (w - 1) <= wraps w x < 2 ^ (w - 1).
Proof.
  intros Hw. unfold wraps.
  assert (2 ^ w = 2 * 2 ^ (w - 1)) as Hp
    by (rewrite <- Z.pow_succ_r by lia; f_equal; lia).
  pose proof (Z.mod_pos_bound (x + 2 ^ (w - 1)) (2 ^ w)). lia.
Qed.

(** Signed conversion undoes unsigned conversion of a value in range. *)
Lemma wraps_wrapu w x :
  0 < w -> - 2 ^ (w - 1) <= x < 2 ^ (w - 1) -> wraps w (wrapu w x) = x.
Proof.
  intros Hw Hx. unfold wraps, wrapu.
  rewrite Z.add_mod_idemp_l by lia. by apply wraps_small.
Qed.

Lemma u8_byte x : is_byte (u8 x).
Proof. apply (wrapu_range 8). lia. Qed.
#[export] Hint Resolve u8_byte : redis.

Lemma u8_small x : is_byte x -> u8 x = x.
Proof. apply (wrapu_small 8). Qed.

(** Disjoint bit fields: [a << n | b] is [a * 2^n + b]. *)
Lemma land_shiftl_low a b n :
  0 <= n -> 0 <= b < 2 ^ n -> Z.land (Z.shiftl a n) b = 0.
Proof.
  intros Hn Hb. apply Z.bits_inj'. intros i Hi. rewrite Z.land_spec, Z.bits_0.
  destruct (decide (i < n)) as [Hlt|Hge].
  - by rewrite Z.shiftl_spec_low.
  - assert (2 ^ n <= 2 ^ i) by (apply Z.pow_le_mono_r; lia).
    rewrite (proj2 (Z.testbit_false b i Hi)); [apply andb_false_r|].
    rewrite Z.div_small; [done|lia].
Qed.

Lemma lor_shiftl_add a b n :
  0 <= n -> 0 <= b < 2 ^ n -> Z.lor (Z.shiftl a n) b = a * 2 ^ n + b.
Proof.
  intros Hn Hb. pose proof (land_shiftl_low a b n Hn Hb) as Hland.
  rewrite <- Z.lxor_lor, <- Z.add_nocarry_lxor by done.
  by rewrite Z.shiftl_mul_pow2.
Qed.

Lemma lor_add_shiftl a b n :
  0 <= n -> 0 <= b < 2 ^ n -> Z.lor b (Z.shiftl a n) = b + a * 2 ^ n.
Proof. intros. rewrite Z.lor_comm, lor_shiftl_add by done. lia. Qed.

(** [x & (2^n - 1)] is [x mod 2^n]. *)
Lemma land_ones_mod x n : 0 <= n -> Z.land x (2 ^ n - 1) = x mod 2 ^ n.
Proof.
  intros Hn. rewrite <- Z.land_ones by done. f_equal.
  rewrite Z.ones_equiv. lia.
Qed.

(** ** Composing results *)

Lemma yields_ok {A} (a : A) (Q : A -> Prop) : Q a -> yields (Ok a) Q.
Proof. intros HQ. by exists a. Qed.

Lemma yields_bind {A B} (r : res A) (k : A -> res B) (Q : A -> Prop) (R : B -> Prop) :
  yields r Q -> (forall a, Q a -> yields (k a) R) -> yields (a ← r; k a) R.
Proof. intros (a & -> & Ha) Hk. by apply Hk. Qed.

Lemma yields_mono {A} (r : res A) (Q R : A -> Prop) : yields r Q -> (forall a, Q a -> R a) -> yields r R.
Proof. intros (a & -> & Ha) HR. exists a. eauto. Qed.

(** ** Lengths *)

Lemma zlen_nonneg {A} (l : list A) : 0 <= zlen l.
Proof. unfold zlen. lia. Qed.
#[export] Hint Resolve zlen_nonneg : redis.

Lemma zlen_app {A} (l k : list A) : zlen (l ++ k) = zlen l + zlen k.
Proof. unfold zlen. rewrite length_app. lia. Qed.

Lemma zlen_fmap {A B} (f : A -> B) (l : list A) : zlen (f <$> l) = zlen l.
Proof. unfold zlen. by rewrite length_fmap. Qed.

Lemma zlen_cons {A} (x : A) l : zlen (x :: l) = 1 + zlen l.
Proof. unfold zlen. cbn. lia. Qed.

Lemma zlen_nil {A} : zlen (@nil A) = 0.
Proof. done. Qed.

Lemma zlen_nil_inv {A} (l : list A) : zlen l = 0 -> l = [].
Proof. destruct l; [done|]. unfold zlen. cbn. lia. Qed.

Lemma zlen_insert {A} (l : list A) i x : zlen (<[i := x]> l) = zlen l.
Proof. unfold zlen. by rewrite length_insert. Qed.

#[export] Hint Rewrite @zlen_app @zlen_cons @zlen_nil @zlen_insert : zlen.
Ltac zlen_simpl := autorewrite with zlen in *.

Lemma snoc_app {A} (l : list A) e r : (l ++ [e]) ++ r = l ++ e :: r.
Proof. by rewrite <- app_assoc. Qed.

Lemma to_nat_zlen {A} (l : list A) : Z.to_nat (zlen l) = length l.
Proof. unfold zlen. lia. Qed.

(** ** Buffers *)

Lemma rd_lookup b i x :
  0 <= i -> b !! Z.to_nat i = Some x -> rd b i = Ok x.
Proof. intros Hi Hx. unfold rd. rewrite (proj2 (Z.leb_le 0 i) Hi), Hx. done. Qed.

Lemma rd_Ok_inv b i x :
  rd b i = Ok x -> 0 <= i < zlen b /\ b !! Z.to_nat i = Some x.
Proof.
  unfold rd, zlen. destruct (Z.leb_spec 0 i); [|done].
  destruct (b !! Z.to_nat i) eqn:E; [|done]. intros [= <-].
  apply lookup_lt_Some in E as ?. split; [lia|done].
Qed.

Lemma rd_in_range b i : 0 <= i < zlen b -> exists x, rd b i = Ok x.
Proof.
  intros Hi. destruct (lookup_lt_is_Some_2 b (Z.to_nat i)) as [x Hx].
  { unfold zlen in Hi. lia. }
  exists x. apply rd_lookup; [lia|done].
Qed.

Lemma rd_byte b i x : wf_bytes b -> rd b i = Ok x -> is_byte x.
Proof.
  intros Hb [_ Hx]%rd_Ok_inv. eapply Forall_lookup_1 in Hx; eauto.
Qed.

Lemma rd_app_l b c i : 0 <= i < zlen b -> rd (b ++ c) i = rd b i.
Proof.
  intros Hi. unfold rd. destruct (0 <=? i); [|done].
  rewrite lookup_app_l; [done|]. unfold zlen in Hi. lia.
Qed.

Lemma rd_app_r b c i : zlen b <= i -> rd (b ++ c) i = rd c (i - zlen b).
Proof.
  intros Hi. unfold rd, zlen in *.
  destruct (Z.leb_spec 0 i), (Z.leb_spec 0 (i - Z.of_nat (length b))); try lia.
  rewrite lookup_app_r by lia.
  by replace (Z.to_nat (i - Z.of_nat (length b))) with (Z.to_nat i - length b)%nat by lia.
Qed.

(** The byte under a cursor placed after the prefix [b]. *)
Lemma rd_here b x c : rd (b ++ x :: c) (zlen b) = Ok x.
Proof. rewrite rd_app_r by lia. by rewrite Z.sub_diag. Qed.

Lemma rd_app_off b c i : 0 <= i -> rd (b ++ c) (zlen b + i) = rd c i.
Proof. intros. rewrite rd_app_r by lia. f_equal. lia. Qed.

Lemma rdn_app b s c : rdn (b ++ s ++ c) (zlen b) (zlen s) = Ok s.
Proof.
  unfold rdn. pose proof (zlen_nonneg b). pose proof (zlen_nonneg s).
  pose proof (zlen_nonneg c).
  rewrite (proj2 (Z.leb_le _ _)) by done.
  rewrite (proj2 (Z.leb_le _ _)) by done.
  rewrite (proj2 (Z.leb_le _ _)) by (zlen_simpl; lia). cbn.
  rewrite !to_nat_zlen, drop_app_length, take_app_length. done.
Qed.

Lemma wrn_app b s s' c :
  length s = length s' -> wrn (b ++ s ++ c) (zlen b) s' = Ok (b ++ s' ++ c).
Proof.
  intros Hl. unfold wrn. pose proof (zlen_nonneg b). pose proof (zlen_nonneg c).
  rewrite (proj2 (Z.leb_le _ _)) by done.
  rewrite (proj2 (Z.leb_le _ _)) by (zlen_simpl; unfold zlen in *; lia). cbn.
  rewrite to_nat_zlen, take_app_length, <- Hl, <- drop_drop.
  by rewrite !drop_app_length.
Qed.

Lemma wr_app b x v c : wr (b ++ x :: c) (zlen b) v = Ok (b ++ u8 v :: c).
Proof.
  unfold wr. pose proof (zlen_nonneg b). pose proof (zlen_nonneg c).
  rewrite (proj2 (Z.leb_le _ _)) by done.
  rewrite (proj2 (Z.ltb_lt _ _)) by (zlen_simpl; lia). cbn.
  rewrite to_nat_zlen. by rewrite insert_app_r_alt, Nat.sub_diag by lia.
Qed.

(** Stores at an offset past a prefix, and past the first byte. *)
Lemma wr_app_off b c i v :
  0 <= i -> wr (b ++ c) (zlen b + i) v = (c' ← wr c i v; Ok (b ++ c')).
Proof.
  intros Hi. unfold wr. pose proof (zlen_nonneg b). rewrite zlen_app.
  rewrite (proj2 (Z.leb_le 0 (zlen b + i))), (proj2 (Z.leb_le 0 i)) by lia. cbn [andb].
  destruct (Z.ltb_spec (zlen b + i) (zlen b + zlen c)), (Z.ltb_spec i (zlen c)); try lia; [|done].
  cbn [mbind res_bind]. unfold zlen in *. rewrite insert_app_r_alt by lia. do 3 f_equal. lia.
Qed.

Lemma wr_cons x c i v : 0 < i -> wr (x :: c) i v = (c' ← wr c (i - 1) v; Ok (x :: c')).
Proof.
  intros Hi. pose proof (wr_app_off [x] c (i - 1) v ltac:(lia)) as H.
  change (zlen [x]) with 1 in H. replace (1 + (i - 1)) with i in H by lia. done.
Qed.

Lemma wr_0 x c v : wr (x :: c) 0 v = Ok (u8 v :: c).
Proof. apply (wr_app [] x v c). Qed.

Lemma wrn_app_off b c i s :
  0 <= i -> wrn (b ++ c) (zlen b + i) s = (c' ← wrn c i s; Ok (b ++ c')).
Proof.
  intros Hi. unfold wrn. pose proof (zlen_nonneg b). rewrite zlen_app.
  rewrite (proj2 (Z.leb_le 0 (zlen b + i))), (proj2 (Z.leb_le 0 i)) by lia. cbn [andb].
  destruct (Z.leb_spec (zlen b + i + zlen s) (zlen b + zlen c)),
    (Z.leb_spec (i + zlen s) (zlen c)); try lia; [|done].
  cbn [mbind res_bind]. unfold zlen in *.
  rewrite take_app_ge, drop_app_ge, <- app_assoc by lia. do 4 f_equal; [f_equal; lia|].
  f_equal. lia.
Qed.

Lemma wrn_cons x c i s :
  0 < i -> wrn (x :: c) i s = (c' ← wrn c (i - 1) s; Ok (x :: c')).
Proof.
  intros Hi. pose proof (wrn_app_off [x] c (i - 1) s ltac:(lia)) as H.
  change (zlen [x]) with 1 in H. replace (1 + (i - 1)) with i in H by lia. done.
Qed.

Lemma wrn_0 s s' c : length s = length s' -> wrn (s ++ c) 0 s' = Ok (s' ++ c).
Proof. apply (wrn_app [] s s' c). Qed.

Lemma rdn_all s : rdn s 0 (zlen s) = Ok s.
Proof. pose proof (rdn_app [] s []) as H. cbn [app] in H. by rewrite app_nil_r in H. Qed.

Lemma wrn_length b i s b' : wrn b i s = Ok b' -> length b' = length b.
Proof.
  unfold wrn, zlen. intros H. case_match eqn:E; [|done]. injection H as <-.
  apply andb_true_iff in E as [?%Z.leb_le ?%Z.leb_le].
  rewrite !length_app, length_take, length_drop. lia.
Qed.

(** [memmove] of [y] to the right over [j], and to the left over [j]. *)
Lemma memmove_right x y j z :
  memmove (x ++ (y ++ j) ++ z) (zlen x + zlen j) (zlen x) (zlen y)
  = Ok (x ++ take (length j) (y ++ j) ++ y ++ z).
Proof.
  unfold memmove. rewrite <- (app_assoc y j z), rdn_app. cbn [mbind res_bind].
  rewrite (app_assoc y j z).
  rewrite <- (take_drop (length j) (y ++ j)) at 1.
  rewrite <- (app_assoc (take _ _)), (app_assoc x).
  replace (zlen x + zlen j) with (zlen (x ++ take (length j) (y ++ j)))
    by (zlen_simpl; unfold zlen; rewrite length_take, length_app; lia).
  rewrite wrn_app by (rewrite length_drop, length_app; lia).
  by rewrite <- app_assoc.
Qed.

Lemma memmove_left x j y z :
  memmove (x ++ (j ++ y) ++ z) (zlen x) (zlen x + zlen j) (zlen y)
  = Ok (x ++ y ++ drop (length y) (j ++ y) ++ z).
Proof.
  unfold memmove.
  replace (x ++ (j ++ y) ++ z) with ((x ++ j) ++ y ++ z) at 1
    by (rewrite <- !app_assoc; done).
  rewrite <- zlen_app, rdn_app. cbn [mbind res_bind].
  rewrite <- (take_drop (length y) (j ++ y)) at 1. rewrite <- (app_assoc (take _ _)).
  apply wrn_app. rewrite length_take, length_app. lia.
Qed.

Lemma realloc_length junk b n : 0 <= n -> zlen (realloc junk b n) = n.
Proof.
  intros. unfold zlen, realloc.
  rewrite length_app, length_fmap, length_seq, length_take. lia.
Qed.

(** Growing keeps everything, shrinking keeps the prefix. *)
Lemma realloc_grow junk b n :
  zlen b <= n -> exists s, realloc junk b n = b ++ s /\ zlen s = n - zlen b.
Proof.
  intros. unfold realloc, zlen in *. eexists. rewrite take_ge by lia.
  split; [done|]. rewrite length_fmap, length_seq. lia.
Qed.

Lemma realloc_shrink junk b c : realloc junk (b ++ c) (zlen b) = b.
Proof.
  unfold realloc. rewrite to_nat_zlen, take_app_length, length_app.
  replace (length b - _)%nat with 0%nat by lia. apply app_nil_r.
Qed.

Lemma realloc_prefix jk b c n :
  zlen b <= n -> exists s, realloc jk (b ++ c) n = b ++ s.
Proof.
  intros Hn. unfold realloc, zlen in *. eexists.
  rewrite take_app_ge by lia. by rewrite <- app_assoc.
Qed.

Lemma zrealloc_prefix `{Allocator} b c n :
  zlen b <= n -> exists s, zrealloc (b ++ c) n = b ++ s.
Proof. intros. apply realloc_prefix. pose proof (usable_ge n). lia. Qed.

Lemma zlen_zrealloc `{Allocator} b n : 0 <= n -> n <= zlen (zrealloc b n).
Proof. intros. pose proof (usable_ge n). unfold zrealloc. rewrite realloc_length; lia. Qed.

Lemma zlen_zmalloc `{Allocator} n : 0 <= n -> n <= zlen (zmalloc n).
Proof. apply (zlen_zrealloc []). Qed.

Lemma wf_uninit `{Allocator} n : wf_bytes (uninit n).
Proof. unfold uninit. apply Forall_fmap, Forall_true. intros. apply junk_byte. Qed.

Lemma zlen_uninit `{Allocator} n : 0 <= n -> zlen (uninit n) = n.
Proof. intros Hn. unfold uninit, zlen. rewrite length_fmap, length_seq. lia. Qed.

Lemma wrn_in_range b i s :
  0 <= i -> i + zlen s <= zlen b ->
  wrn b i s = Ok (take (Z.to_nat i) b ++ s ++ drop (Z.to_nat i + length s) b).
Proof.
  intros. unfold wrn. rewrite (proj2 (Z.leb_le 0 i)) by done.
  by rewrite (proj2 (Z.leb_le (i + zlen s) (zlen b))).
Qed.

Lemma zlen_take {A} (l : list A) k : 0 <= k <= zlen l -> zlen (take (Z.to_nat k) l) = k.
Proof. unfold zlen. intros. rewrite length_take. lia. Qed.

Lemma zlen_length {A B} (l : list A) (k : list B) : zlen l = zlen k -> length l = length k.
Proof. unfold zlen. lia. Qed.

Lemma split_room {A} (room : list A) n m :
  0 <= n -> 0 <= m -> zlen room = n + m ->
  exists r1 r2, room = r1 ++ r2 /\ zlen r1 = n /\ zlen r2 = m.
Proof.
  intros Hn Hm Hr. exists (take (Z.to_nat n) room), (drop (Z.to_nat n) room).
  rewrite take_drop. unfold zlen in *. rewrite length_take, length_drop. split; [done|lia].
Qed.

(** [memmove] of the tail [t] of [a ++ r ++ t ++ s] to leave a gap of [k]
    bytes after [a] in place of [r]. *)
Lemma memmove_gap (a r t s : bytes) k :
  0 <= k -> k + zlen t <= zlen (r ++ t ++ s) -> exists g s',
  memmove (a ++ r ++ t ++ s) (zlen a + k) (zlen a + zlen r) (zlen t) = Ok (a ++ g ++ t ++ s') /\
  zlen g = k.
Proof.
  intros Hk Hl. unfold memmove. rewrite <- zlen_app, (app_assoc a r), rdn_app, <- app_assoc.
  cbn [mbind res_bind]. rewrite wrn_app_off, wrn_in_range by (done || lia).
  eexists (take (Z.to_nat k) (r ++ t ++ s)), _. split; [done|].
  apply zlen_take. pose proof (zlen_nonneg t). lia.
Qed.

(** ** Little-endian integers *)

Lemma length_le_bytes n x : length (le_bytes n x) = n.
Proof. revert x. induction n; intros; cbn; auto. Qed.

Lemma zlen_le_bytes_nat n x : zlen (le_bytes n x) = Z.of_nat n.
Proof. unfold zlen. by rewrite length_le_bytes. Qed.

Lemma wf_le_bytes n x : wf_bytes (le_bytes n x).
Proof.
  revert x. induction n; intros; cbn; constructor; [|apply IHn].
  unfold is_byte. apply Z.mod_pos_bound. lia.
Qed.
#[export] Hint Resolve wf_le_bytes : redis.

Lemma le_val_range b : wf_bytes b -> 0 <= le_val b < 2 ^ (8 * zlen b).
Proof.
  induction 1 as [|x b Hx Hb IH]; cbn [le_val].
  - change (0 <= 0 < 1). lia.
  - rewrite zlen_cons. replace (8 * (1 + zlen b)) with (8 * zlen b + 8) by lia.
    rewrite Z.pow_add_r by (pose proof (zlen_nonneg b); lia).
    change (2 ^ 8) with 256. unfold is_byte in Hx. lia.
Qed.

Lemma le_val_bytes n x : le_val (le_bytes n x) = x mod 2 ^ (8 * Z.of_nat n).
Proof.
  revert x. induction n as [|n IH]; intros x; cbn [le_val le_bytes].
  - by rewrite Z.mod_1_r.
  - rewrite IH. replace (8 * Z.of_nat (S n)) with (8 + 8 * Z.of_nat n) by lia.
    rewrite Z.pow_add_r by lia. change (2 ^ 8) with 256.
    rewrite Z.rem_mul_r by lia. lia.
Qed.

Lemma le_bytes_val b : wf_bytes b -> le_bytes (length b) (le_val b) = b.
Proof.
  induction 1 as [|x b Hx Hb IH]; cbn [le_val le_bytes length]; [done|].
  unfold is_byte in Hx. f_equal.
  - rewrite Z.mul_comm, Z.mod_add by lia. apply Z.mod_small. lia.
  - rewrite Z.mul_comm, Z.div_add by lia. rewrite Z.div_small by lia. apply IH.
Qed.

(** ** Bytes by exhaustion and by bit fields *)

(** A fact about one byte is a computation over the 256 of them. *)
Lemma byte_forall (P : Z -> bool) :
  forallb P (Z.of_nat <$> seq 0 256) = true -> forall b, is_byte b -> P b = true.
Proof.
  intros H b Hb. rewrite forallb_forall in H. apply H.
  apply list_elem_of_In, list_elem_of_fmap. exists (Z.to_nat b).
  unfold is_byte in Hb. split; [lia|]. apply elem_of_seq. lia.
Qed.

(** The byte of [v] at bit [k], in the three forms the C code writes it. *)
Lemma byte_at_land v k : 0 <= k -> u8 (Z.land (Z.shiftr v k) 0xff) = (v / 2 ^ k) mod 256.
Proof.
  intros Hk. change 0xff with (2 ^ 8 - 1). rewrite land_ones_mod by lia.
  rewrite Z.shiftr_div_pow2 by done. unfold wrapu. apply Z.mod_mod. lia.
Qed.

Lemma byte_at_shiftr v k : 0 <= k -> u8 (Z.shiftr v k) = (v / 2 ^ k) mod 256.
Proof. intros Hk. by rewrite Z.shiftr_div_pow2. Qed.

Lemma byte_at_0 v : u8 (Z.land v 0xff) = v mod 256.
Proof.
  change 0xff with (2 ^ 8 - 1). rewrite land_ones_mod by lia.
  unfold wrapu. apply Z.mod_mod. lia.
Qed.

(** [b1 | b2<<8 | ...] is the little-endian value. *)
Lemma le_lor (b : bytes) x k acc :
  wf_bytes b -> is_byte x -> k = 8 * zlen b -> acc = le_val b ->
  Z.lor acc (Z.shiftl x k) = le_val (b ++ [x]).
Proof.
  intros Hb Hx -> ->. rewrite lor_add_shiftl; [|pose proof (zlen_nonneg b); lia|by apply le_val_range].
  clear Hx. induction Hb as [|y b Hy Hb IH]; [change (0 + x * 1 = x + 256 * 0); lia|].
  cbn [app le_val]. rewrite <- IH. zlen_simpl. pose proof (zlen_nonneg b).
  replace (8 * (1 + zlen b)) with (8 + 8 * zlen b) by lia.
  rewrite Z.pow_add_r by lia. change (2 ^ 8) with 256. lia.
Qed.
