(* ===== verification/Cstring.v ===== *)
(** * The C string functions the components call.

    [strlen], [strchr], [memcmp] and the classification of characters of
    ctype.h in the C locale.  A buffer that is searched for its terminating
    zero and has none is read past its end: a fault. *)

From S2P Require Import Prelude.
#[local] Open Scope Z_scope.

Module Cstring.

(** [tolower] and [toupper] of the C locale, on an [int]. *)
Definition tolower (c : Z) : Z := if (65 <=? c) && (c <=? 90) then c + 32 else c.
Definition toupper (c : Z) : Z := if (97 <=? c) && (c <=? 122) then c - 32 else c.

(** [isspace] and [isprint] of the C locale, on the value of a byte: no
    character above 127 is either, whether a [char] is signed or not. *)
Definition isspace (c : Z) : bool := ((9 <=? c) && (c <=? 13)) || (c =? 32).
Definition isprint (c : Z) : bool := (32 <=? c) && (c <=? 126).

(** [strlen] of a buffer with a terminating zero. *)
Fixpoint strlen (b : bytes) : res Z :=
  match b with
  | [] => Fault OutOfBounds
  | c :: b => if c =? 0 then Ok 0 else n ← strlen b; Ok (n + 1)
  end.

(** [strchr]: the offset of the first [x], the terminator included. *)
Fixpoint strchr (b : bytes) (x : Z) : res (option Z) :=
  match b with
  | [] => Fault OutOfBounds
  | c :: b =>
    if c =? x then Ok (Some 0) else
    if c =? 0 then Ok None else
    r ← strchr b x; Ok (option_map (Z.add 1) r)
  end.

(** [strchr(b + i, x)], as an offset into [b]. *)
Definition strchr_from (b : bytes) (i x : Z) : res (option Z) :=
  if (0 <=? i) && (i <=? zlen b) then r ← strchr (drop (Z.to_nat i) b) x; Ok (option_map (Z.add i) r)
  else Fault OutOfBounds.

(** [memcmp]: a value with the sign of the first difference. *)
Fixpoint memcmp (a b : bytes) : Z :=
  match a, b with
  | x :: a, y :: b => if x =? y then memcmp a b else x - y
  | _, _ => 0
  end.

Lemma strlen_app a b : Forall (fun c => c <> 0) a -> strlen (a ++ 0 :: b) = Ok (zlen a).
Proof.
  induction 1 as [|c a Hc Ha IH]; [done|]. cbn [app strlen].
  rewrite (proj2 (Z.eqb_neq c 0)) by done. rewrite IH. cbn [mbind res_bind]. zlen_simpl. f_equal. lia.
Qed.

(** The search stops at the first [x] before any zero, or at a zero. *)
Lemma strchr_found a b x :
  Forall (fun c => c <> x /\ c <> 0) a -> strchr (a ++ x :: b) x = Ok (Some (zlen a)).
Proof.
  induction 1 as [|c a [Hx H0] Ha IH]; cbn [app strchr]; [by rewrite Z.eqb_refl|].
  rewrite (proj2 (Z.eqb_neq c x)), (proj2 (Z.eqb_neq c 0)) by done. rewrite IH.
  cbn [mbind res_bind]. zlen_simpl. done.
Qed.

Lemma strchr_missing a b x :
  x <> 0 -> Forall (fun c => c <> x /\ c <> 0) a -> strchr (a ++ 0 :: b) x = Ok None.
Proof.
  intros Hn. induction 1 as [|c a [Hx H0] Ha IH]; cbn [app strchr].
  { by rewrite (proj2 (Z.eqb_neq 0 x)) by done. }
  rewrite (proj2 (Z.eqb_neq c x)), (proj2 (Z.eqb_neq c 0)) by done. by rewrite IH.
Qed.

(** On a terminated string the search returns, and says where it stopped. *)
Lemma strchr_cases l b x :
  x <> 0 ->
  (exists p q, l = p ++ x :: q /\ Forall (fun c => c <> x /\ c <> 0) p /\
     strchr (l ++ 0 :: b) x = Ok (Some (zlen p))) \/
  (strchr (l ++ 0 :: b) x = Ok None /\
     forall p q, l = p ++ x :: q -> ~ Forall (fun c => c <> x /\ c <> 0) p).
Proof.
  intros Hn. induction l as [|c l IH].
  { right. split; [by apply (strchr_missing [])|by intros [] q]. }
  destruct (decide (c = x)) as [->|Hx].
  { left. exists [], l. split; [done|]. split; [constructor|]. by apply (strchr_found []). }
  destruct (decide (c = 0)) as [->|H0].
  { right. split; [by apply (strchr_missing [])|].
    intros [|y p] q; [cbn; congruence|]. intros [= <- _] Hall. apply Forall_cons_1 in Hall as [[_ ?] ?]. done. }
  cbn [app strchr]. rewrite (proj2 (Z.eqb_neq c x)), (proj2 (Z.eqb_neq c 0)) by done.
  destruct IH as [(p & q & -> & Hp & ->)|[-> Hno]].
  - left. exists (c :: p), q. split; [done|]. split; [by constructor|]. by rewrite zlen_cons.
  - right. split; [done|]. intros [|y p] q; [cbn; congruence|].
    intros [= <- Heq] Hall. apply Forall_cons_1 in Hall as [_ ?]. by apply (Hno p q).
Qed.

Lemma memcmp_refl a : memcmp a a = 0.
Proof. induction a; cbn; [done|]. by rewrite Z.eqb_refl. Qed.

Lemma memcmp_eq a b : length a = length b -> memcmp a b = 0 -> a = b.
Proof.
  revert b. induction a as [|x a IH]; intros [|y b]; cbn; try done.
  intros [= Hl]. destruct (Z.eqb_spec x y) as [->|]; [|lia]. intros H. f_equal. by apply IH.
Qed.

End Cstring.
