(* ===== verification/Util.v ===== *)
(** * Number and string conversions (util.c).

    [digits10], [sdigits10], [ull2string], [ll2string], [string2ll],
    [string2l], [string2ul_base16_async_signal_safe], [mempbrk] and
    [memmapchars] of src/.local/redis/redis-7.4.2/src/util.c, on buffers
    checked for every access.  The
    reference printer [decimal] says what the canonical decimal form of an
    integer is; [ll2string] writes it and [string2ll] accepts it and nothing
    else. *)

From S2P Require Import Prelude.

Module Util.

(** ** Decimal length *)

(** [digits10]: the recursive call divides by 10^12, so two rounds are enough
    for a 64 bit argument (three are allowed). *)
Fixpoint digits10_loop (fuel : nat) (v : Z) : Z :=
  match fuel with
  | O => 0
  | S fuel =>
    if v <? 10 then 1 else
    if v <? 100 then 2 else
    if v <? 1000 then 3 else
    if v <? 1000000000000 then
      if v <? 100000000 then
        if v <? 1000000 then
          if v <? 10000 then 4 else 5 + Z.b2z (100000 <=? v)
        else 7 + Z.b2z (10000000 <=? v)
      else if v <? 10000000000 then 9 + Z.b2z (1000000000 <=? v)
      else 11 + Z.b2z (100000000000 <=? v)
    else 12 + digits10_loop fuel (v / 1000000000000)
  end.

Definition digits10 (v : Z) : Z := digits10_loop 3 v.

Definition sdigits10 (v : Z) : Z :=
  if v <? 0 then
    let uv := if negb (v =? INT64_MIN) then u64 (- v) else u64 (INT64_MAX + 1) in
    digits10 uv + 1
  else digits10 v.

(** ** Printing *)

Definition digits : bytes := Eval vm_compute in bytes_of_string
  "00010203040506070809101112131415161718192021222324252627282930313233343536373839404142434445464748495051525354555657585960616263646566676869707172737475767778798081828384858687888990919293949596979899".

(** The loop and the last one or two digits of [ull2string]; [dst] is the
    offset of the output inside the buffer [b]. *)
Fixpoint ull2string_loop (fuel : nat) (b : bytes) (dst next value : Z) : res bytes :=
  match fuel with
  | O => Fault OutOfFuel
  | S fuel =>
    if 100 <=? value then
      let i := (value mod 100) * 2 in
      let value := value / 100 in
      d1 ← rd digits (i + 1);
      b ← wr b (dst + next) d1;
      d0 ← rd digits i;
      b ← wr b (dst + u32 (next - 1)) d0;
      ull2string_loop fuel b dst (u32 (next - 2)) value
    else if value <? 10 then
      wr b (dst + next) (48 + u32 value)
    else
      let i := u32 value * 2 in
      d1 ← rd digits (i + 1);
      b ← wr b (dst + next) d1;
      d0 ← rd digits i;
      wr b (dst + u32 (next - 1)) d0
  end.

Definition ull2string (b : bytes) (dst dstlen value : Z) : res (bytes * Z) :=
  let length := digits10 value in
  if dstlen <=? length then
    if 0 <? dstlen then b ← wr b dst 0; Ok (b, 0) else Ok (b, 0)
  else
    let next := u32 (length - 1) in
    b ← wr b (dst + u32 (next + 1)) 0;
    b ← ull2string_loop 20 b dst next value;
    Ok (b, length).

Definition ll2string (b : bytes) (dst dstlen svalue : Z) : res (bytes * Z) :=
  if svalue <? 0 then
    let value := if negb (svalue =? INT64_MIN) then u64 (- svalue)
                 else u64 (INT64_MAX + 1) in
    if dstlen <? 2 then
      if 0 <? dstlen then b ← wr b dst 0; Ok (b, 0) else Ok (b, 0)
    else
      b ← wr b dst 45 (* '-' *);
      r ← ull2string b (dst + 1) (dstlen - 1) value;
      let '(b, length) := r in
      if length =? 0 then Ok (b, 0) else Ok (b, length + 1)
  else
    r ← ull2string b dst dstlen (u64 svalue);
    let '(b, length) := r in
    if length =? 0 then Ok (b, 0) else Ok (b, length + 0).

(** ** Parsing *)

Definition LONG_STR_SIZE : Z := 21.

Definition is_digit (c : Z) : bool := (48 <=? c) && (c <=? 57).

(** The digit loop of [string2ll]: [None] is a [return 0] on overflow. *)
Fixpoint string2ll_loop (fuel : nat) (s : bytes) (slen plen v : Z)
  : res (option (Z * Z)) :=
  match fuel with
  | O => Fault OutOfFuel
  | S fuel =>
    if plen <? slen then
      c ← rd s plen;
      if is_digit c then
        if UINT64_MAX / 10 <? v then Ok None else
        let v := u64 (v * 10) in
        if UINT64_MAX - (c - 48) <? v then Ok None else
        let v := u64 (v + (c - 48)) in
        string2ll_loop fuel s slen (plen + 1) v
      else Ok (Some (plen, v))
    else Ok (Some (plen, v))
  end.

(** What follows the sign: the first digit, the loop, and the conversion of
    the unsigned value. *)
Definition string2ll_body (s : bytes) (slen plen : Z) (negative : bool)
  : res (option Z) :=
  c ← rd s plen;
  if (49 <=? c) && (c <=? 57) then
    r ← string2ll_loop (Z.to_nat slen + 1) s slen (plen + 1) (c - 48);
    match r with
    | None => Ok None
    | Some (plen, v) =>
      if plen <? slen then Ok None else
      if negative then
        if u64 (- (INT64_MIN + 1)) + 1 <? v then Ok None
        else Ok (Some (i64 (u64 (- v))))
      else
        if INT64_MAX <? v then Ok None else Ok (Some (i64 v))
    end
  else Ok None.

Definition string2ll (s : bytes) (slen : Z) : res (option Z) :=
  if (0 =? slen) || (LONG_STR_SIZE <=? slen) then Ok None else
  c0 ← rd s 0;
  if (slen =? 1) && (c0 =? 48) then Ok (Some 0) else
  if c0 =? 45 (* '-' *) then
    if 1 =? slen then Ok None else string2ll_body s slen 1 true
  else string2ll_body s slen 0 false.

(** [long] and [long long] are both 64 bits wide (LP64). *)
Definition string2l (s : bytes) (slen : Z) : res (option Z) :=
  r ← string2ll s slen;
  match r with
  | None => Ok None
  | Some llval =>
    if (llval <? INT64_MIN) || (INT64_MAX <? llval) then Ok None
    else Ok (Some (i64 llval))
  end.

(** ** Hexadecimal input *)

Definition safe_is_c_in_range (c start end_ : Z) : bool :=
  (start <=? c) && (c <=? end_).

Definition base_16_char_type (c : Z) : Z :=
  if safe_is_c_in_range c 48 57 then 0 else
  if safe_is_c_in_range c 97 102 then 1 else
  if safe_is_c_in_range c 65 70 then 2 else -1.

(** [ascii_to_dec]: ['0'], ['a' - 10], ['A' - 10]. *)
Definition ascii_to_dec (char_type : Z) : Z :=
  if char_type =? 0 then 48 else if char_type =? 1 then 87 else 55.

(** Result: [None] when the C function returns -1 (overflow), otherwise the
    value stored through [result_output]. *)
Fixpoint string2ul_base16_loop (fuel : nat) (src : bytes) (slen idx result : Z)
  : res (option Z) :=
  match fuel with
  | O => Fault OutOfFuel
  | S fuel =>
    c ← rd src idx;
    let char_type := base_16_char_type c in
    if negb (-1 =? char_type) && (idx <? slen) then
      let curr_val := c - ascii_to_dec char_type in
      if (UINT64_MAX / 16 <? result) || ((UINT64_MAX - curr_val) / 16 <? result)
      then Ok None
      else string2ul_base16_loop fuel src slen (idx + 1) (u64 (result * 16 + curr_val))
    else Ok (Some result)
  end.

Definition string2ul_base16_async_signal_safe (src : bytes) (slen : Z) : res (option Z) :=
  string2ul_base16_loop (Z.to_nat slen + 1) src slen 0 0.

(** ** Byte searches *)

(** [mempbrk]: the offset of the first byte of [s] that is one of [chars]. *)
Fixpoint mempbrk_inner (fuel : nat) (c : Z) (chars : bytes) (n charslen : Z) : res bool :=
  match fuel with
  | O => Fault OutOfFuel
  | S fuel =>
    if n <? charslen then
      x ← rd chars n;
      if c =? x then Ok true else mempbrk_inner fuel c chars (n + 1) charslen
    else Ok false
  end.

Fixpoint mempbrk_loop (fuel : nat) (s : bytes) (j len : Z) (chars : bytes) (charslen : Z)
  : res (option Z) :=
  match fuel with
  | O => Fault OutOfFuel
  | S fuel =>
    if j <? len then
      c ← rd s j;
      hit ← mempbrk_inner (Z.to_nat charslen + 1) c chars 0 charslen;
      if (hit : bool) then Ok (Some j)
      else mempbrk_loop fuel s (j + 1) len chars charslen
    else Ok None
  end.

Definition mempbrk (s : bytes) (len : Z) (chars : bytes) (charslen : Z) : res (option Z) :=
  mempbrk_loop (Z.to_nat len + 1) s 0 len chars charslen.

(** [memmapchars]: replace, in place, each byte found in [from] by the byte of
    [to] at the same (first) position. *)
Fixpoint memmapchars_inner (fuel : nat) (s : bytes) (j : Z) (from to : bytes) (i setlen : Z)
  : res bytes :=
  match fuel with
  | O => Fault OutOfFuel
  | S fuel =>
    if i <? setlen then
      c ← rd s j;
      x ← rd from i;
      if c =? x then y ← rd to i; wr s j y
      else memmapchars_inner fuel s j from to (i + 1) setlen
    else Ok s
  end.

Fixpoint memmapchars_loop (fuel : nat) (s : bytes) (j len : Z) (from to : bytes) (setlen : Z)
  : res bytes :=
  match fuel with
  | O => Fault OutOfFuel
  | S fuel =>
    if j <? len then
      s ← memmapchars_inner (Z.to_nat setlen + 1) s j from to 0 setlen;
      memmapchars_loop fuel s (j + 1) len from to setlen
    else Ok s
  end.

Definition memmapchars (s : bytes) (len : Z) (from to : bytes) (setlen : Z) : res bytes :=
  memmapchars_loop (Z.to_nat len + 1) s 0 len from to setlen.

(** * Reference definitions *)

(** The canonical decimal form: no leading zero, a sign only when negative. *)
Fixpoint decimal_aux (fuel : nat) (n : Z) : bytes :=
  match fuel with
  | O => []
  | S fuel =>
    if n <? 10 then [48 + n] else decimal_aux fuel (n / 10) ++ [48 + n mod 10]
  end.

Definition udecimal (n : Z) : bytes := decimal_aux 20 n.

Definition decimal (v : Z) : bytes :=
  if v <? 0 then 45 :: udecimal (- v) else udecimal v.

(** The value of a string of digits, read left to right from [acc]. *)
Definition dval (acc : Z) (ds : bytes) : Z :=
  foldl (fun a c => a * 10 + (c - 48)) acc ds.

(** Exactly [k] digits of [n]. *)
Fixpoint decs (k : nat) (n : Z) : bytes :=
  match k with
  | O => []
  | S k => decs k (n / 10) ++ [48 + n mod 10]
  end.

(** * Theory *)

(** [k] is the number of decimal digits of [n]. *)
Definition ndigits (k : nat) (n : Z) : Prop :=
  (1 <= k)%nat /\ 0 <= n < 10 ^ Z.of_nat k /\
  (k = 1%nat \/ 10 ^ (Z.of_nat k - 1) <= n).

Lemma digits10_small v :
  0 <= v < 10 ^ 12 -> forall f,
  ndigits (Z.to_nat (digits10_loop (S f) v)) v /\ digits10_loop (S f) v <= 12.
Proof.
  intros Hv f. cbn [digits10_loop].
  repeat match goal with
  | |- context [?a <? ?b] => destruct (Z.ltb_spec a b)
  | |- context [?a <=? ?b] => destruct (Z.leb_spec a b)
  end; cbn [Z.b2z]; try lia; unfold ndigits;
  repeat match goal with
  | |- context [Z.to_nat ?z] =>
    let n := eval vm_compute in (Z.to_nat z) in change (Z.to_nat z) with n
  | |- context [10 ^ ?e] =>
    let r := eval vm_compute in (10 ^ e) in change (10 ^ e) with r
  end; lia.
Qed.

Lemma digits10_ndigits v :
  0 <= v < 2 ^ 64 -> ndigits (Z.to_nat (digits10 v)) v /\ 1 <= digits10 v <= 20.
Proof.
  intros Hv. unfold digits10. destruct (decide (v < 10 ^ 12)) as [Hs|Hl].
  - pose proof (digits10_small v ltac:(lia) 2) as [H1 H2].
    split; [done|]. destruct H1 as [H1 _]. lia.
  - cbn [digits10_loop].
    repeat (rewrite (proj2 (Z.ltb_ge v _)) by lia).
    fold (digits10_loop 2 (v / 1000000000000)).
    set (q := v / 1000000000000).
    assert (Hq : q * 10 ^ 12 <= v < (q + 1) * 10 ^ 12).
    { unfold q. pose proof (Z.div_mod v 1000000000000 ltac:(lia)).
      pose proof (Z.mod_pos_bound v 1000000000000 ltac:(lia)). lia. }
    pose proof (digits10_small q ltac:(lia) 1) as [(H1 & H2 & H3) H4].
    set (d := digits10_loop 2 q) in *.
    assert (0 < d) by lia.
    assert (Hd8 : d <= 8).
    { destruct H3 as [H3|H3]; [lia|]. apply Z.nlt_ge. intros Hd.
      assert (10 ^ 8 <= 10 ^ (Z.of_nat (Z.to_nat d) - 1))
        by (apply Z.pow_le_mono_r; lia). lia. }
    rewrite Z2Nat.id in * by lia.
    split; [|lia]. unfold ndigits. rewrite Z2Nat.id by lia.
    rewrite (Z.pow_add_r 10 12 d) by lia.
    replace (12 + d - 1) with (12 + (d - 1)) by lia.
    rewrite Z.pow_add_r by lia.
    split; [lia|]. split; [lia|]. right.
    destruct H3 as [H3|H3].
    + replace d with 1 by lia. cbn. lia.
    + lia.
Qed.

Lemma length_decs k n : length (decs k n) = k.
Proof. revert n. induction k; intros; cbn; [done|]. rewrite length_app, IHk. cbn. lia. Qed.

Lemma ndigits_div k n : ndigits (S (S k)) n -> ndigits (S k) (n / 10).
Proof.
  intros (_ & H1 & [H2|H2]); [lia|]. split; [lia|].
  rewrite Nat2Z.inj_succ, Z.pow_succ_r in H1 by lia.
  replace (Z.of_nat (S (S k)) - 1) with (Z.succ (Z.of_nat k)) in H2 by lia.
  rewrite Z.pow_succ_r in H2 by lia. split.
  - split; [apply Z.div_pos; lia|]. apply Z.div_lt_upper_bound; lia.
  - right. replace (Z.of_nat (S k) - 1) with (Z.of_nat k) by lia.
    apply Z.div_le_lower_bound; lia.
Qed.

Lemma ndigits_1 n : ndigits 1 n <-> 0 <= n < 10.
Proof. unfold ndigits. change (10 ^ Z.of_nat 1) with 10. intuition lia. Qed.

Lemma ndigits_ge10 k n : ndigits (S (S k)) n -> 10 <= n.
Proof.
  intros (_ & _ & [H|H]); [lia|].
  assert (10 ^ 1 <= 10 ^ (Z.of_nat (S (S k)) - 1)) by (apply Z.pow_le_mono_r; lia).
  lia.
Qed.

Lemma decimal_aux_decs k f n :
  (k <= f)%nat -> ndigits k n -> decimal_aux f n = decs k n.
Proof.
  revert f n. induction k as [|k IH]; intros f n Hf Hn.
  { destruct Hn; lia. }
  destruct f as [|f]; [lia|]. cbn [decimal_aux decs].
  destruct k as [|k].
  - apply ndigits_1 in Hn. rewrite (proj2 (Z.ltb_lt _ _)) by lia. cbn.
    rewrite Z.mod_small by lia. done.
  - pose proof (ndigits_ge10 _ _ Hn). rewrite (proj2 (Z.ltb_ge _ _)) by lia.
    f_equal. apply IH; [lia|]. by apply ndigits_div.
Qed.

Lemma udecimal_decs v :
  0 <= v < 2 ^ 64 -> udecimal v = decs (Z.to_nat (digits10 v)) v.
Proof.
  intros Hv. destruct (digits10_ndigits v Hv) as [H1 H2].
  apply decimal_aux_decs; [lia|done].
Qed.

Lemma digits10_length v : 0 <= v < 2 ^ 64 -> digits10 v = zlen (udecimal v).
Proof.
  intros Hv. rewrite udecimal_decs by done. unfold zlen. rewrite length_decs.
  destruct (digits10_ndigits v Hv). lia.
Qed.

(** The digit table holds the two digits of every number below 100. *)
Lemma digits_table i :
  0 <= i < 100 -> rd digits (i * 2 + 1) = Ok (48 + i mod 10) /\
                  rd digits (i * 2) = Ok (48 + i / 10).
Proof.
  intros Hi.
  assert (H : forallb (fun k => let i := Z.of_nat k in
      match rd digits (i * 2 + 1), rd digits (i * 2) with
      | Ok a, Ok b => (a =? 48 + i mod 10) && (b =? 48 + i / 10)
      | _, _ => false end) (seq 0 100) = true) by (vm_compute; reflexivity).
  rewrite forallb_forall in H. specialize (H (Z.to_nat i)). cbv zeta in H.
  rewrite Z2Nat.id in H by lia. ospecialize (H _); [apply in_seq; lia|].
  destruct (rd digits (i * 2 + 1)), (rd digits (i * 2)); try done.
  apply andb_true_iff in H as [->%Z.eqb_eq ->%Z.eqb_eq]. done.
Qed.

(** A buffer seen as: [dst] bytes, then the output field, then the rest. *)
Lemma split_last2 (r : bytes) k :
  length r = S (S k) -> exists r' x y, r = r' ++ [x; y] /\ length r' = k.
Proof.
  intros Hr. exists (take k r).
  assert (Hd : length (drop k r) = 2%nat) by (rewrite length_drop; lia).
  destruct (drop k r) as [|x [|y [|]]] eqn:E; try (cbn in Hd; lia).
  exists x, y. rewrite <- E, take_drop, length_take. split; [done|lia].
Qed.

(** Storing the two digits at the end of the field. *)
Lemma wr2 pre r x y suf a c dst next :
  zlen pre = dst -> zlen r = next - 1 -> 1 <= next < 2 ^ 32 -> is_byte a -> is_byte c ->
  (b ← wr (pre ++ (r ++ [x; y]) ++ suf) (dst + next) a; wr b (dst + u32 (next - 1)) c)
  = Ok (pre ++ r ++ [c; a] ++ suf).
Proof.
  intros Hp Hr Hn Ha Hc.
  replace (pre ++ (r ++ [x; y]) ++ suf) with ((pre ++ r ++ [x]) ++ y :: suf)
    by (rewrite <- !app_assoc; done).
  replace (dst + next) with (zlen (pre ++ r ++ [x])) by (zlen_simpl; lia).
  rewrite wr_app. cbn [mbind res_bind]. rewrite (wrapu_small 32) by lia.
  replace ((pre ++ r ++ [x]) ++ u8 a :: suf) with ((pre ++ r) ++ x :: u8 a :: suf)
    by (rewrite <- !app_assoc; done).
  replace (dst + (next - 1)) with (zlen (pre ++ r)) by (zlen_simpl; lia).
  rewrite wr_app, !u8_small by done. rewrite <- app_assoc. done.
Qed.

Lemma wr1 pre x suf a dst :
  zlen pre = dst -> is_byte a -> wr (pre ++ x :: suf) dst a = Ok (pre ++ a :: suf).
Proof. intros <- Ha. rewrite wr_app, u8_small by done. done. Qed.

Lemma digit_byte x : 0 <= x < 10 -> is_byte (48 + x).
Proof. unfold is_byte. lia. Qed.

Lemma decs_2 k n : decs (S (S k)) n = decs k (n / 100) ++ [48 + n / 10 mod 10; 48 + n mod 10].
Proof. cbn. rewrite Z.div_div by lia. rewrite <- app_assoc. done. Qed.

(** Both two-digit stores of [ull2string], from the table to the buffer. *)
Lemma ull2string_two pre r x y suf dst next m :
  zlen pre = dst -> zlen r = next - 1 -> 1 <= next < 2 ^ 32 -> 0 <= m < 100 ->
  (d1 ← rd digits (m * 2 + 1);
   b ← wr (pre ++ (r ++ [x; y]) ++ suf) (dst + next) d1;
   d0 ← rd digits (m * 2);
   wr b (dst + u32 (next - 1)) d0)
  = Ok (pre ++ r ++ [48 + m / 10; 48 + m mod 10] ++ suf).
Proof.
  intros Hp Hr Hn Hm. destruct (digits_table m Hm) as [-> ->].
  cbn [mbind res_bind].
  pose proof (Z.mod_pos_bound m 10 ltac:(lia)).
  assert (0 <= m / 10 < 10) by (split; [apply Z.div_pos|apply Z.div_lt_upper_bound]; lia).
  apply wr2; auto using digit_byte.
Qed.

(** The loop fills a field of [k] bytes with the [k] digits of [value]. *)
Lemma ull2string_loop_spec fuel :
  forall k pre r suf dst next value,
  (k <= 2 * fuel)%nat -> (k <= 20)%nat -> zlen pre = dst -> length r = k ->
  next = Z.of_nat k - 1 -> ndigits k value ->
  ull2string_loop fuel (pre ++ r ++ suf) dst next value = Ok (pre ++ decs k value ++ suf).
Proof.
  induction fuel as [|fuel IH]; intros k pre r suf dst next value Hf Hk Hp Hr Hn Hd.
  { destruct Hd; lia. }
  cbn [ull2string_loop]. destruct (Z.leb_spec 100 value) as [H100|H100].
  - (* two digits and another round *)
    destruct k as [|[|[|k]]].
    1, 2, 3: destruct Hd as (? & [_ Hd] & _); cbn in Hd; lia.
    destruct (split_last2 r (S k) Hr) as (r' & x & y & -> & Hr').
    pose proof (Z.mod_pos_bound value 100 ltac:(lia)) as Hm.
    pose proof (ull2string_two pre r' x y suf dst next (value mod 100)) as Hw.
    unfold zlen in Hw. ospecialize (Hw _ _ _ _); [done|lia..|].
    apply bind_ok in Hw as (d1 & -> & Hw). cbn [mbind res_bind].
    apply bind_ok in Hw as (b1 & -> & Hw). cbn [mbind res_bind].
    apply bind_ok in Hw as (d0 & -> & Hw). cbn [mbind res_bind].
    rewrite Hw. cbn [mbind res_bind].
    rewrite (wrapu_small 32) by lia.
    rewrite (IH (S k) pre r' _ dst (next - 2) (value / 100)); try done; try lia.
    + rewrite decs_2, <- !app_assoc. cbn [app].
      replace (value mod 100 / 10) with (value / 10 mod 10) by (Z.div_mod_to_equations; lia).
      replace (value mod 100 mod 10) with (value mod 10) by (Z.div_mod_to_equations; lia).
      done.
    + change 100 with (10 * 10). rewrite <- Z.div_div by lia.
      by apply ndigits_div, ndigits_div.
  - destruct (Z.ltb_spec value 10) as [H10|H10].
    + destruct k as [|[|k]].
      1: destruct Hd; lia.
      2: apply ndigits_ge10 in Hd; lia.
      destruct r as [|x [|]]; try (cbn in Hr; lia). cbn [app decs].
      destruct Hd as (_ & Hd & _). rewrite (wrapu_small 32) by lia.
      rewrite wr1; [by rewrite Z.mod_small by lia|lia|apply digit_byte; lia].
    + destruct k as [|[|[|k]]].
      1: destruct Hd; lia.
      1: apply ndigits_1 in Hd; lia.
      2: { apply ndigits_div, ndigits_ge10 in Hd.
           assert (value / 10 < 10) by (apply Z.div_lt_upper_bound; lia). lia. }
      destruct (split_last2 r 0 Hr) as (r' & x & y & -> & Hr').
      destruct r'; [|done]. rewrite (wrapu_small 32 value) by lia.
      rewrite (ull2string_two pre [] x y suf dst next value)
        by (first [done | unfold zlen; cbn; lia]).
      cbn. do 2 f_equal. rewrite (Z.mod_small (value / 10)); [done|].
      split; [apply Z.div_pos|apply Z.div_lt_upper_bound]; lia.
Qed.

Lemma ull2string_spec pre r suf dstlen value :
  0 <= value < 2 ^ 64 -> digits10 value < dstlen -> zlen r = digits10 value + 1 ->
  ull2string (pre ++ r ++ suf) (zlen pre) dstlen value
  = Ok (pre ++ udecimal value ++ [0] ++ suf, digits10 value).
Proof.
  intros Hv Hd Hr. unfold ull2string.
  rewrite (proj2 (Z.leb_gt _ _)) by done.
  destruct (digits10_ndigits value Hv) as [Hn Hb].
  rewrite !(wrapu_small 32) by lia.
  destruct r as [|x r _] using rev_ind; [change (0 = digits10 value + 1) in Hr; lia|].
  zlen_simpl. set (k := Z.to_nat (digits10 value)) in *.
  replace (pre ++ (r ++ [x]) ++ suf) with ((pre ++ r) ++ x :: suf)
    by (rewrite <- !app_assoc; done).
  rewrite wr1 by (first [by unfold is_byte | zlen_simpl; lia]).
  cbn [mbind res_bind]. rewrite <- app_assoc.
  rewrite (ull2string_loop_spec 20 k); try done; try (unfold zlen in *; lia).
  cbn [mbind res_bind]. unfold k. rewrite <- udecimal_decs by done. done.
Qed.

Lemma decimal_length v : is_i64 v -> 1 <= zlen (decimal v) <= 20.
Proof.
  unfold is_i64, INT64_MIN, INT64_MAX, decimal. intros Hv.
  destruct (Z.ltb_spec v 0); zlen_simpl; rewrite <- digits10_length by lia.
  - destruct (digits10_ndigits (- v) ltac:(lia)) as [(_ & _ & [?|Hn]) ?]; [lia|].
    assert (digits10 (- v) < 20); [|lia]. apply Z.nle_gt. intros ?.
    pose proof (Z.pow_le_mono_r 10 19 (Z.of_nat (Z.to_nat (digits10 (- v))) - 1)).
    lia.
  - destruct (digits10_ndigits v ltac:(lia)). lia.
Qed.

(** C: [ll2string] writes the canonical decimal form and a terminator. *)
Lemma ll2string_spec pre r suf dstlen v :
  is_i64 v -> zlen (decimal v) < dstlen -> zlen r = zlen (decimal v) + 1 ->
  ll2string (pre ++ r ++ suf) (zlen pre) dstlen v
  = Ok (pre ++ decimal v ++ [0] ++ suf, zlen (decimal v)).
Proof.
  intros Hv Hl Hr. pose proof (decimal_length v Hv) as Hlen.
  unfold ll2string, decimal, is_i64, INT64_MIN, INT64_MAX in *.
  destruct (Z.ltb_spec v 0).
  - zlen_simpl. rewrite <- digits10_length in * by lia.
    pose proof (digits10_ndigits (- v) ltac:(lia)) as [_ Hd].
    rewrite (proj2 (Z.ltb_ge dstlen 2)) by lia.
    destruct r as [|x r]; [zlen_simpl; lia|]. zlen_simpl. cbn [app].
    rewrite wr1 by done. cbn [mbind res_bind].
    replace (if negb _ then _ else _) with (- v).
    2: { destruct (Z.eqb_spec v (- 2 ^ 63)); cbn [negb]; rewrite wrapu_small; lia. }
    replace (pre ++ 45 :: r ++ suf) with ((pre ++ [45]) ++ r ++ suf)
      by (rewrite <- app_assoc; done).
    replace (zlen pre + 1) with (zlen (pre ++ [45])) by (zlen_simpl; lia).
    rewrite ull2string_spec by lia. cbn [mbind res_bind].
    rewrite (proj2 (Z.eqb_neq _ _)) by lia.
    rewrite <- app_assoc, Z.add_comm. done.
  - rewrite <- digits10_length in * by lia. rewrite wrapu_small by lia.
    rewrite ull2string_spec by lia. cbn [mbind res_bind].
    rewrite (proj2 (Z.eqb_neq _ _)) by lia. by rewrite Z.add_0_r.
Qed.

(** ** Parsing *)

Lemma is_digit_spec c : is_digit c = true <-> 48 <= c <= 57.
Proof. unfold is_digit. rewrite andb_true_iff, !Z.leb_le. done. Qed.

Lemma dval_app v a b : dval v (a ++ b) = dval (dval v a) b.
Proof. apply foldl_app. Qed.

Lemma dval_ge v ds : 0 <= v -> Forall (fun c => 48 <= c <= 57) ds -> v <= dval v ds.
Proof.
  intros Hv Hd. revert v Hv. induction Hd as [|c ds Hc Hd IH]; intros v Hv; cbn; [lia|].
  etrans; [|apply IH]; lia.
Qed.

Lemma decs_digits k n : Forall (fun c => 48 <= c <= 57) (decs k n).
Proof.
  revert n. induction k as [|k IH]; intros n; cbn; [constructor|].
  apply Forall_app. split; [apply IH|]. constructor; [|constructor].
  pose proof (Z.mod_pos_bound n 10 ltac:(lia)). lia.
Qed.

Lemma dval_decs k acc n :
  dval acc (decs k n) = acc * 10 ^ Z.of_nat k + n mod 10 ^ Z.of_nat k.
Proof.
  revert n. induction k as [|k IH]; intros n.
  - cbn. rewrite Z.mod_1_r. lia.
  - cbn [decs]. rewrite dval_app, IH. cbn [dval foldl].
    rewrite Nat2Z.inj_succ, Z.pow_succ_r by lia.
    rewrite (Z.rem_mul_r n 10) by lia. lia.
Qed.

Lemma decs_head k n : decs (S k) n = (48 + (n / 10 ^ Z.of_nat k) mod 10) :: decs k n.
Proof.
  revert n. induction k as [|k IH]; intros n; [by cbn; rewrite Z.div_1_r|].
  cbn [decs] in *. rewrite IH. cbn [app]. f_equal.
  rewrite Z.div_div by lia. do 3 f_equal.
  rewrite Nat2Z.inj_succ, Z.pow_succ_r; lia.
Qed.

(** A digit string is the digits of its value. *)
Lemma decs_dval l :
  Forall (fun c => 48 <= c <= 57) l ->
  l = decs (length l) (dval 0 l) /\ 0 <= dval 0 l < 10 ^ zlen l.
Proof.
  induction l as [|c l IH] using rev_ind; intros Hl; [done|].
  apply Forall_app in Hl as [Hl [Hc _]%Forall_cons_1].
  destruct (IH Hl) as [E Hr]. rewrite dval_app.
  change (dval (dval 0 l) [c]) with (dval 0 l * 10 + (c - 48)).
  unfold zlen. rewrite length_app, Nat.add_comm. cbn [length Nat.add decs].
  rewrite Nat2Z.inj_succ, Z.pow_succ_r by lia.
  unfold zlen in Hr. split; [|lia].
  rewrite Z.div_add_l by lia. rewrite (Z.div_small (c - 48)) by lia.
  rewrite Z.add_0_r, <- E. do 2 f_equal.
  rewrite (Z.add_comm (dval 0 l * 10)), Z.mod_add by lia. rewrite Z.mod_small; lia.
Qed.

Lemma string2ll_loop_spec ds : forall fuel pre rest suf v,
  Forall (fun c => 48 <= c <= 57) ds -> (length ds < fuel)%nat ->
  match rest with [] => True | c :: _ => is_digit c = false end ->
  0 <= v <= UINT64_MAX ->
  string2ll_loop fuel ((pre ++ ds ++ rest) ++ suf) (zlen (pre ++ ds ++ rest)) (zlen pre) v
  = Ok (if dval v ds <=? UINT64_MAX then Some (zlen (pre ++ ds), dval v ds) else None).
Proof.
  induction ds as [|c ds IH]; intros [|fuel] pre rest suf v Hd Hf Hrest Hv;
    try (cbn in Hf; lia); cbn [string2ll_loop].
  - cbn [dval foldl app]. rewrite app_nil_r, (proj2 (Z.leb_le _ _)) by lia.
    destruct rest as [|c rest].
    + rewrite app_nil_r. by rewrite Z.ltb_irrefl.
    + rewrite (proj2 (Z.ltb_lt _ _)) by (zlen_simpl; pose proof (zlen_nonneg rest); lia).
      rewrite <- app_assoc. cbn [app]. rewrite rd_here. cbn [mbind res_bind].
      by rewrite Hrest.
  - apply Forall_cons_1 in Hd as [Hc Hd].
    rewrite (proj2 (Z.ltb_lt _ _)) by
      (zlen_simpl; pose proof (zlen_nonneg rest); pose proof (zlen_nonneg ds); lia).
    rewrite <- app_assoc. cbn [app]. rewrite rd_here. cbn [mbind res_bind].
    rewrite (proj2 (is_digit_spec c)) by done. cbn [dval foldl]. fold (dval (v * 10 + (c - 48)) ds).
    pose proof (dval_ge (v * 10 + (c - 48)) ds ltac:(lia) Hd) as Hge.
    assert (UINT64_MAX / 10 = 1844674407370955161) as -> by done.
    unfold UINT64_MAX in *.
    destruct (Z.ltb_spec 1844674407370955161 v).
    { rewrite (proj2 (Z.leb_gt _ _)) by lia. done. }
    rewrite (wrapu_small 64) by lia.
    destruct (Z.ltb_spec (2 ^ 64 - 1 - (c - 48)) (v * 10)).
    { rewrite (proj2 (Z.leb_gt _ _)) by lia. done. }
    rewrite (wrapu_small 64) by lia.
    specialize (IH fuel (pre ++ [c]) rest suf (v * 10 + (c - 48))).
    rewrite <- !app_assoc in IH. cbn [app] in IH.
    replace (zlen pre + 1) with (zlen (pre ++ [c])) by (zlen_simpl; lia).
    rewrite <- app_assoc in *. cbn [app] in *.
    apply IH; [done|cbn in Hf; lia|done|lia].
Qed.

Lemma span_digits (l : bytes) : exists ds rest,
  l = ds ++ rest /\ Forall (fun c => 48 <= c <= 57) ds /\
  match rest with [] => True | c :: _ => is_digit c = false end.
Proof.
  induction l as [|c l (ds & rest & -> & Hd & Hr)].
  - by exists [], [].
  - destruct (is_digit c) eqn:E.
    + exists (c :: ds), rest. rewrite is_digit_spec in E. auto.
    + by exists [], (c :: ds ++ rest).
Qed.

(** A digit string with a nonzero head is the canonical form of its value. *)
Lemma udecimal_of_digits c ds :
  49 <= c <= 57 -> Forall (fun c => 48 <= c <= 57) ds -> (length ds <= 19)%nat ->
  c :: ds = udecimal (dval (c - 48) ds) /\ 1 <= dval (c - 48) ds.
Proof.
  intros Hc Hd Hl.
  assert (Hall : Forall (fun c => 48 <= c <= 57) (c :: ds)) by (constructor; [lia|done]).
  destruct (decs_dval _ Hall) as [E Hr].
  change (dval 0 (c :: ds)) with (dval (c - 48) ds) in *.
  pose proof (dval_ge (c - 48) ds ltac:(lia) Hd). split; [|lia].
  rewrite E at 1. symmetry. apply decimal_aux_decs; [cbn; lia|].
  unfold ndigits, zlen in *. split; [cbn; lia|]. split; [done|].
  destruct (decs_dval _ Hd) as [Ed Hrd]. right.
  assert (dval (c - 48) ds = (c - 48) * 10 ^ zlen ds + dval 0 ds) as ->
    by (rewrite Ed at 1; rewrite dval_decs, Z.mod_small by done; done).
  replace (Z.of_nat (length (c :: ds)) - 1) with (zlen ds) by (unfold zlen; cbn; lia).
  nia.
Qed.

Lemma udecimal_head n :
  1 <= n < 2 ^ 64 -> exists c ds, udecimal n = c :: ds /\ 49 <= c <= 57 /\
    Forall (fun c => 48 <= c <= 57) ds /\ dval (c - 48) ds = n.
Proof.
  intros Hn. rewrite udecimal_decs by lia.
  destruct (digits10_ndigits n ltac:(lia)) as [(Hk & Hn2 & Hn3) _].
  set (k := Z.to_nat (digits10 n)) in *. clearbody k.
  destruct k as [|k]; [lia|]. rewrite decs_head. eexists _, _. split; [done|].
  rewrite Nat2Z.inj_succ, Z.pow_succ_r in Hn2 by lia.
  replace (Z.of_nat (S k) - 1) with (Z.of_nat k) in Hn3 by lia.
  assert (1 <= n / 10 ^ Z.of_nat k < 10).
  { split; [apply Z.div_le_lower_bound|apply Z.div_lt_upper_bound]; try lia.
    destruct Hn3 as [[= ->]|]; cbn; lia. }
  rewrite Z.mod_small by lia. split; [lia|]. split; [apply decs_digits|].
  rewrite dval_decs.
  pose proof (Z.div_mod n (10 ^ Z.of_nat k) ltac:(lia)). lia.
Qed.

(** [r] is the canonical form of a positive [n] in range, and [v] is [n] with
    the sign [neg] applied: what the body of [string2ll] has to accept. *)
Definition bound (neg : bool) : Z := if neg then 2 ^ 63 else 2 ^ 63 - 1.
Definition signed (neg : bool) (n : Z) : Z := if neg then - n else n.
Definition text_of (neg : bool) (r : bytes) (v : Z) : Prop :=
  exists n, 1 <= n <= bound neg /\ r = udecimal n /\ v = signed neg n.

Lemma text_of_inv neg c r v :
  text_of neg (c :: r) v -> 49 <= c <= 57 /\
    Forall (fun c => 48 <= c <= 57) r /\ v = signed neg (dval (c - 48) r) /\
    dval (c - 48) r <= bound neg.
Proof.
  intros (n & Hn & E & ->). destruct (udecimal_head n) as (c' & ds & E' & ? & ? & <-).
  { unfold bound in Hn. destruct neg; lia. }
  rewrite E' in E. injection E as -> ->. split_and!; try done; lia.
Qed.

Lemma text_of_digits neg c ds v :
  49 <= c <= 57 -> Forall (fun c => 48 <= c <= 57) ds -> (length ds <= 19)%nat ->
  text_of neg (c :: ds) v <->
  dval (c - 48) ds <= bound neg /\ v = signed neg (dval (c - 48) ds).
Proof.
  intros Hc Hd Hl. split; [intros (_ & _ & ? & ?)%text_of_inv; done|].
  intros [Hb ->]. destruct (udecimal_of_digits c ds Hc Hd Hl) as [E ?].
  by exists (dval (c - 48) ds).
Qed.

(** The conversion of the unsigned value at the end of [string2ll]. *)
Lemma string2ll_convert (neg : bool) n :
  1 <= n <= UINT64_MAX ->
  (if neg then
     if u64 (- (INT64_MIN + 1)) + 1 <? n then Ok None else Ok (Some (i64 (u64 (- n))))
   else if INT64_MAX <? n then Ok None else Ok (Some (i64 n)))
  = Ok (if n <=? bound neg then Some (signed neg n) else None).
Proof.
  intros Hn. change (u64 (- (INT64_MIN + 1)) + 1) with (2 ^ 63).
  unfold INT64_MAX, UINT64_MAX, bound, signed in *. destruct neg.
  - destruct (Z.ltb_spec (2 ^ 63) n), (Z.leb_spec n (2 ^ 63)); try lia; [done|].
    rewrite wraps_wrapu by lia. done.
  - destruct (Z.ltb_spec (2 ^ 63 - 1) n), (Z.leb_spec n (2 ^ 63 - 1)); try lia; [done|].
    rewrite wraps_small by lia. done.
Qed.

(** The text after the sign is accepted exactly when it is the canonical form
    of a positive number in range. *)
Lemma string2ll_body_spec sgn r suf neg :
  r <> [] -> zlen r <= 20 ->
  exists o, string2ll_body ((sgn ++ r) ++ suf) (zlen (sgn ++ r)) (zlen sgn) neg = Ok o /\
  forall v, o = Some v <-> text_of neg r v.
Proof.
  intros Hne Hlen. destruct r as [|c r]; [done|].
  unfold string2ll_body. rewrite <- app_assoc. cbn [app].
  rewrite rd_here. cbn [mbind res_bind].
  destruct ((49 <=? c) && (c <=? 57)) eqn:Hc.
  2: { exists None. split; [done|]. intros v. split; [done|].
       intros (Hc' & _)%text_of_inv.
       rewrite (proj2 (Z.leb_le 49 c)), (proj2 (Z.leb_le c 57)) in Hc by lia. done. }
  apply andb_true_iff in Hc as [?%Z.leb_le ?%Z.leb_le].
  destruct (span_digits r) as (ds & rest & -> & Hd & Hrest).
  pose proof (zlen_nonneg sgn). pose proof (zlen_nonneg rest).
  replace (zlen sgn + 1) with (zlen (sgn ++ [c])) by (zlen_simpl; lia).
  replace (sgn ++ c :: (ds ++ rest) ++ suf) with (((sgn ++ [c]) ++ ds ++ rest) ++ suf)
    by (rewrite <- !app_assoc; done).
  replace (zlen (sgn ++ c :: ds ++ rest)) with (zlen ((sgn ++ [c]) ++ ds ++ rest))
    by (zlen_simpl; lia).
  rewrite string2ll_loop_spec; [|done|..|done|unfold UINT64_MAX; lia].
  2: { zlen_simpl. unfold zlen. lia. }
  cbn [mbind res_bind]. destruct rest as [|x rest].
  - rewrite !app_nil_r in *. zlen_simpl.
    pose proof (text_of_digits neg c ds) as Ht.
    destruct (udecimal_of_digits c ds) as [_ Hn1]; [lia|done|unfold zlen in *; lia|].
    set (n0 := dval (c - 48) ds) in *.
    exists (if n0 <=? bound neg then Some (signed neg n0) else None). split.
    + destruct (Z.leb_spec n0 UINT64_MAX).
      * rewrite Z.ltb_irrefl. apply string2ll_convert. lia.
      * rewrite (proj2 (Z.leb_gt _ _)); [done|].
        unfold UINT64_MAX, bound in *. destruct neg; lia.
    + intros v. rewrite Ht by (first [done | lia | unfold zlen in *; lia]).
      destruct (Z.leb_spec n0 (bound neg)); split; [intros [= <-]; done|..].
      { by intros [_ ->]. } { done. } { intros [? _]. lia. }
  - exists None. split.
    + destruct (_ <=? _); [|done]. rewrite (proj2 (Z.ltb_lt _ _)); [done|].
      zlen_simpl. pose proof (zlen_nonneg rest). lia.
    + intros v. split; [done|].
      intros (_ & [_ [Hx _]%Forall_cons_1]%Forall_app & _)%text_of_inv.
      by rewrite (proj2 (is_digit_spec x) Hx) in Hrest.
Qed.

Lemma udecimal_0_inv n : 0 <= n < 2 ^ 64 -> n <> 0 -> head (udecimal n) <> Some 48.
Proof.
  intros Hn H0. destruct (udecimal_head n) as (c & ds & -> & ? & _); [lia|].
  cbn. intros [= ->]. lia.
Qed.

(** Which texts [decimal] produces, by sign. *)
Lemma decimal_cases v t :
  is_i64 v -> t = decimal v <->
  (v = 0 /\ t = [48]) \/ text_of false t v \/ exists r, t = 45 :: r /\ text_of true r v.
Proof.
  intros Hv. unfold decimal, text_of, bound, signed, is_i64, INT64_MIN, INT64_MAX in *.
  split.
  - intros ->. destruct (Z.ltb_spec v 0).
    + right; right. exists (udecimal (- v)). split; [done|]. exists (- v). split_and!; [lia..|done|lia].
    + destruct (decide (v = 0)) as [->|]; [by left|]. right; left. exists v. split_and!; [lia..|done|done].
  - intros [[-> ->]|[(n & Hn & -> & ->)|(r & -> & n & Hn & -> & ->)]]; [done|..].
    + rewrite (proj2 (Z.ltb_ge _ _)) by lia. done.
    + rewrite (proj2 (Z.ltb_lt _ _)) by lia. by rewrite Z.opp_involutive.
Qed.

Lemma text_of_i64 neg t v : text_of neg t v -> is_i64 v.
Proof.
  unfold text_of, bound, signed, is_i64, INT64_MIN, INT64_MAX.
  intros (n & Hn & _ & ->). destruct neg; lia.
Qed.

Lemma string2ll_spec t suf :
  exists o, string2ll (t ++ suf) (zlen t) = Ok o /\
  forall v, o = Some v <-> is_i64 v /\ t = decimal v.
Proof.
  unfold string2ll, LONG_STR_SIZE.
  assert (Hnone : (forall v, is_i64 v -> t = decimal v -> False) ->
    forall v, None = Some v <-> is_i64 v /\ t = decimal v)
    by (intros H v; split; [done|intros [? ?]; by destruct (H v)]).
  destruct ((0 =? zlen t) || (21 <=? zlen t)) eqn:El.
  { exists None. split; [done|]. apply Hnone. intros v Hv ->.
    pose proof (decimal_length v Hv). apply orb_true_iff in El as [?%Z.eqb_eq|?%Z.leb_le]; lia. }
  apply orb_false_iff in El as [El1%Z.eqb_neq El2%Z.leb_gt].
  destruct t as [|c0 t]; [done|]. cbn [app].
  change (rd (c0 :: t ++ suf) 0) with (Ok c0). cbn [mbind res_bind].
  destruct ((zlen (c0 :: t) =? 1) && (c0 =? 48)) eqn:E0.
  { apply andb_true_iff in E0 as [E1%Z.eqb_eq ->%Z.eqb_eq].
    assert (t = []) as -> by (destruct t; [done|zlen_simpl; pose proof (zlen_nonneg t); lia]).
    exists (Some 0). split; [done|]. intros v. split; [by intros [= <-]|].
    intros [Hv E]. apply decimal_cases in E as [[-> _]|[Ht|(r & [=] & _)]]; [done| |done].
    apply text_of_inv in Ht as [? _]. lia. }
  assert (Hz : forall v, v = 0 /\ c0 :: t = [48] -> False).
  { intros v [_ [= -> ->]]. done. }
  destruct (Z.eqb_spec c0 45) as [->|Hm].
  - destruct (Z.eqb_spec 1 (zlen (45 :: t))) as [E1|E1].
    + exists None. split; [done|]. apply Hnone. intros v Hv [?|[Ht|(r & [= <-] & n & Hn & E & _)]]%decimal_cases;
        [by destruct (Hz v)| |..|done].
      * apply text_of_inv in Ht as [? _]. lia.
      * destruct (udecimal_head n) as (c & ds & E' & _); [unfold bound in Hn; lia|].
        rewrite E' in E. subst t. zlen_simpl. pose proof (zlen_nonneg ds). lia.
    + destruct (string2ll_body_spec [45] t suf true) as (o & Ho & Hs).
      { intros ->. done. } { zlen_simpl. lia. }
      exists o. split; [exact Ho|]. intros v. rewrite Hs. split.
      * intros Ht. pose proof (text_of_i64 _ _ _ Ht). split; [done|].
        apply decimal_cases; eauto.
      * intros [Hv [?|[Ht|(r & [= <-] & Ht)]]%decimal_cases]; [by destruct (Hz v)| |..|]; try done.
        apply text_of_inv in Ht as [? _]. lia.
  - destruct (string2ll_body_spec [] (c0 :: t) suf false) as (o & Ho & Hs); [done|lia|].
    exists o. split; [exact Ho|]. intros v. rewrite Hs. split.
    + intros Ht. pose proof (text_of_i64 _ _ _ Ht). split; [done|].
      apply decimal_cases; auto.
    + intros [Hv [?|[Ht|(r & [=] & _)]]%decimal_cases]; [by destruct (Hz v)|done..].
Qed.

(** The error path of [ull2string]: the first byte is cleared, nothing else. *)
Lemma ull2string_short b dst dstlen value :
  dstlen <= digits10 value -> 0 <= dst -> dst + dstlen <= zlen b ->
  exists b', ull2string b dst dstlen value = Ok (b', 0) /\
    b' = (if 0 <? dstlen then <[Z.to_nat dst := 0]> b else b).
Proof.
  intros Hd H0 Hb. unfold ull2string. rewrite (proj2 (Z.leb_le _ _)) by done.
  destruct (Z.ltb_spec 0 dstlen); [|by eauto].
  unfold wr. rewrite (proj2 (Z.leb_le 0 dst)), (proj2 (Z.ltb_lt dst _)) by lia.
  cbn. eauto.
Qed.

Lemma ll2string_short b dstlen v :
  is_i64 v -> 0 <= dstlen <= zlen b -> dstlen <= zlen (decimal v) ->
  exists b', ll2string b 0 dstlen v = Ok (b', 0) /\ zlen b' = zlen b /\
    drop (Z.to_nat dstlen) b' = drop (Z.to_nat dstlen) b.
Proof.
  unfold ll2string, decimal, is_i64, INT64_MIN, INT64_MAX. intros Hv Hb Hl.
  destruct (Z.ltb_spec v 0).
  - zlen_simpl. rewrite <- digits10_length in * by lia.
    destruct (Z.ltb_spec dstlen 2).
    + destruct (Z.ltb_spec 0 dstlen); [|by eauto].
      unfold wr. cbn [Z.leb Z.compare]. rewrite (proj2 (Z.ltb_lt 0 _)) by lia.
      cbn. eexists. split; [done|]. rewrite zlen_insert. split; [done|].
      rewrite drop_insert_lt by lia. done.
    + unfold wr at 1. cbn [Z.leb Z.compare]. rewrite (proj2 (Z.ltb_lt 0 _)) by lia.
      cbn [andb mbind res_bind].
      replace (if negb _ then _ else _) with (- v)
        by (destruct (Z.eqb_spec v (- 2 ^ 63)); cbn [negb]; rewrite wrapu_small; lia).
      destruct (ull2string_short (<[Z.to_nat 0 := u8 45]> b) (0 + 1) (dstlen - 1) (- v))
        as (b' & -> & ->); [lia..|rewrite zlen_insert; lia|].
      cbn. eexists. split; [done|]. destruct (_ <? _); rewrite ?zlen_insert;
        (split; [done|]); rewrite ?drop_insert_lt by lia; done.
  - rewrite <- digits10_length in * by lia. rewrite wrapu_small by lia.
    destruct (ull2string_short b 0 dstlen v) as (b' & -> & ->); [lia..|].
    cbn. eexists. split; [done|]. destruct (Z.ltb_spec 0 dstlen); rewrite ?zlen_insert;
        (split; [done|]); rewrite ?drop_insert_lt by lia; done.
Qed.

(** Any buffer with room holds the text, its terminator and its old tail. *)
Lemma ll2string_fits b dstlen v :
  is_i64 v -> zlen (decimal v) < dstlen <= zlen b ->
  exists suf, ll2string b 0 dstlen v = Ok (decimal v ++ 0 :: suf, zlen (decimal v)) /\
    suf = drop (S (length (decimal v))) b.
Proof.
  intros Hv Hl. set (k := S (length (decimal v))).
  exists (drop k b). split; [|done].
  pose proof (ll2string_spec [] (take k b) (drop k b) dstlen v Hv) as H.
  cbn [app] in H. rewrite take_drop in H. apply H; [lia|].
  unfold zlen, k in *. rewrite length_take. lia.
Qed.

(** ** Properties *)

(** C34. [string2ll] never reads outside its argument, always returns, and
    accepts exactly the canonical decimal form of a 64 bit signed integer,
    returning that integer. *)
Theorem string2ll_accepts_canonical (t suf : bytes) :
  exists o, string2ll (t ++ suf) (zlen t) = Ok o /\
    forall v, o = Some v <-> is_i64 v /\ t = decimal v.
Proof. apply string2ll_spec. Qed.

(** Printing any [long long] with [ll2string] into a buffer of at least 21
    bytes and parsing the result with [string2ll] gives the number back. *)
Theorem ll2string_string2ll_roundtrip (b : bytes) (v : Z) :
  is_i64 v -> 21 <= zlen b ->
  exists b' n, ll2string b 0 (zlen b) v = Ok (b', n) /\
    string2ll b' n = Ok (Some v) /\ zlen b' = zlen b.
Proof.
  intros Hv Hb. pose proof (decimal_length v Hv) as Hl.
  destruct (ll2string_fits b (zlen b) v Hv ltac:(lia)) as (suf & -> & Hs).
  exists (decimal v ++ 0 :: suf), (zlen (decimal v)). split; [done|].
  destruct (string2ll_spec (decimal v) (0 :: suf)) as (o & -> & Ho).
  rewrite (proj2 (Ho v) (conj Hv eq_refl)). split; [done|].
  subst suf. zlen_simpl. unfold zlen in *. rewrite length_drop. lia.
Qed.

Lemma ll2string_string2ll_roundtrip_witness :
  exists b' n, ll2string (replicate 21 7) 0 21 (- 2 ^ 63) = Ok (b', n) /\
    string2ll b' n = Ok (Some (- 2 ^ 63)) /\ zlen b' = 21.
Proof.
  apply (ll2string_string2ll_roundtrip (replicate 21 7) (- 2 ^ 63)).
  - unfold is_i64, INT64_MIN, INT64_MAX. lia.
  - vm_compute. discriminate.
Defined.

(** C35. [ll2string] stays inside the [dstlen] bytes it is given, whatever the
    value and the length: it returns 0 exactly when the text and its
    terminator do not fit, and never touches a byte past the limit. *)
Theorem ll2string_bounds (b : bytes) (dstlen v : Z) :
  is_i64 v -> 0 <= dstlen <= zlen b ->
  exists b' n, ll2string b 0 dstlen v = Ok (b', n) /\ zlen b' = zlen b /\
    (n = 0 <-> dstlen <= zlen (decimal v)) /\
    drop (Z.to_nat dstlen) b' = drop (Z.to_nat dstlen) b.
Proof.
  intros Hv Hb. pose proof (decimal_length v Hv) as Hl.
  destruct (decide (dstlen <= zlen (decimal v))) as [Hs|Hs].
  - destruct (ll2string_short b dstlen v Hv Hb Hs) as (b' & -> & ? & ?).
    exists b', 0. split_and!; done.
  - destruct (ll2string_fits b dstlen v Hv ltac:(lia)) as (suf & -> & ->).
    eexists _, _. split; [done|]. split.
    { zlen_simpl. unfold zlen in *. rewrite length_drop. lia. }
    split; [lia|].
    rewrite drop_app_ge by (unfold zlen in *; lia).
    set (k := length (decimal v)) in *.
    replace (Z.to_nat dstlen - k)%nat with (S (Z.to_nat dstlen - S k))
      by (unfold zlen in *; lia).
    cbn [drop]. rewrite drop_drop. f_equal. unfold zlen in *; lia.
Qed.

Lemma ll2string_bounds_witness :
  exists b' n, ll2string (replicate 8 7) 0 3 (-12) = Ok (b', n) /\ zlen b' = 8 /\
    (n = 0 <-> 3 <= zlen (decimal (-12))) /\ drop 3 b' = replicate 5 7.
Proof.
  apply (ll2string_bounds (replicate 8 7) 3 (-12)).
  - unfold is_i64, INT64_MIN, INT64_MAX. lia.
  - vm_compute. split; discriminate.
Defined.

End Util.
