(* ===== verification/Intset.v ===== *)
(** * Sorted integer sets (intset.c).

    [intset] is the C structure: the [encoding] (element width in bytes), the
    [length] field, and the flexible array [contents] as the bytes the
    allocation holds after the 8 byte header.  Each function of
    src/.local/redis/redis-7.4.2/src/intset.c is a definition of the same
    name, byte for byte: the binary search, the in-place upgrade that rewrites
    the array back to front, the [memmove] of the tail with its 32 bit byte
    count, and the integrity check of untrusted input.

    The abstraction is [repr is vs]: [is] stores the strictly increasing list
    [vs].  The properties say that the operations implement membership,
    insertion and removal on that list without any access outside the
    allocation, on sets of at most 2^29 - 2 elements ([max_len]): with 64 bit
    elements a longer tail makes the [uint32_t] byte count of [intsetMoveTail]
    wrap around, so that too few bytes are moved, and nothing is claimed
    there. *)

From S2P Require Import Prelude.
From stdpp Require Import sorting gmap.
#[local] Open Scope Z_scope.

Module Intset.

Record intset : Type := mk_intset {
  encoding : Z;
  length_ : Z;
  contents : bytes;
}.

Definition set_contents (is_ : intset) (c : bytes) : intset :=
  mk_intset (encoding is_) (length_ is_) c.
Definition set_length (is_ : intset) (n : Z) : intset :=
  mk_intset (encoding is_) n (contents is_).
Definition set_encoding (is_ : intset) (e : Z) : intset :=
  mk_intset e (length_ is_) (contents is_).

Definition INTSET_ENC_INT16 : Z := 2.
Definition INTSET_ENC_INT32 : Z := 4.
Definition INTSET_ENC_INT64 : Z := 8.

(** [sizeof(intset)]: the two 32 bit fields. *)
Definition sizeof_intset : Z := 8.

Definition _intsetValueEncoding (v : Z) : Z :=
  if (v <? INT32_MIN) || (INT32_MAX <? v) then INTSET_ENC_INT64
  else if (v <? INT16_MIN) || (INT16_MAX <? v) then INTSET_ENC_INT32
  else INTSET_ENC_INT16.

Definition _intsetGetEncoded (is_ : intset) (pos enc : Z) : res Z :=
  if enc =? INTSET_ENC_INT64 then
    s ← rdn (contents is_) (pos * 8) 8; Ok (i64 (le_val s))
  else if enc =? INTSET_ENC_INT32 then
    s ← rdn (contents is_) (pos * 4) 4; Ok (i32 (le_val s))
  else
    s ← rdn (contents is_) (pos * 2) 2; Ok (i16 (le_val s)).

Definition _intsetGet (is_ : intset) (pos : Z) : res Z :=
  _intsetGetEncoded is_ pos (encoding is_).

Definition _intsetSet (is_ : intset) (pos value : Z) : res intset :=
  if encoding is_ =? INTSET_ENC_INT64 then
    c ← wrn (contents is_) (pos * 8) (le_bytes 8 value); Ok (set_contents is_ c)
  else if encoding is_ =? INTSET_ENC_INT32 then
    c ← wrn (contents is_) (pos * 4) (le_bytes 4 value); Ok (set_contents is_ c)
  else
    c ← wrn (contents is_) (pos * 2) (le_bytes 2 value); Ok (set_contents is_ c).

Definition intsetNew : intset := mk_intset INTSET_ENC_INT16 0 [].

(** The loop of [intsetSearch]: the final [min], [mid] and [cur]. *)
Fixpoint intsetSearch_loop (fuel : nat) (is_ : intset) (value min max mid cur : Z)
  : res (Z * Z * Z) :=
  match fuel with
  | O => Fault OutOfFuel
  | S fuel =>
    if min <=? max then
      let mid := i32 (Z.shiftr (u32 (u32 min + u32 max)) 1) in
      cur ← _intsetGet is_ mid;
      if cur <? value then intsetSearch_loop fuel is_ value (i32 (mid + 1)) max mid cur
      else if value <? cur then intsetSearch_loop fuel is_ value min (i32 (mid - 1)) mid cur
      else Ok (min, mid, cur)
    else Ok (min, mid, cur)
  end.

(** [intsetSearch]: the return value and the position stored through [pos]. *)
Definition intsetSearch (is_ : intset) (value : Z) : res (bool * Z) :=
  let max := i32 (u32 (length_ is_ - 1)) in
  if length_ is_ =? 0 then Ok (false, 0) else
  hi ← _intsetGet is_ max;
  if hi <? value then Ok (false, length_ is_) else
  lo ← _intsetGet is_ 0;
  if value <? lo then Ok (false, 0) else
  r ← intsetSearch_loop (S (Z.to_nat (length_ is_))) is_ value 0 max (-1) (-1);
  let '(min, mid, cur) := r in
  if value =? cur then Ok (true, u32 mid) else Ok (false, u32 min).

(** The number of bytes [intsetMoveTail] moves: a [uint32_t]. *)
Definition moveTail_bytes (is_ : intset) (from : Z) : Z :=
  let bytes := u32 (length_ is_ - from) in
  if encoding is_ =? INTSET_ENC_INT64 then u32 (bytes * 8)
  else if encoding is_ =? INTSET_ENC_INT32 then u32 (bytes * 4)
  else u32 (bytes * 2).

Definition intsetMoveTail (is_ : intset) (from to : Z) : res intset :=
  let w := if encoding is_ =? INTSET_ENC_INT64 then 8
           else if encoding is_ =? INTSET_ENC_INT32 then 4 else 2 in
  c ← memmove (contents is_) (to * w) (from * w) (moveTail_bytes is_ from);
  Ok (set_contents is_ c).

Section Alloc.
(** The bytes a growing reallocation exposes are indeterminate. *)
Context (junk : nat -> Z).

Definition intsetResize (is_ : intset) (len : Z) : res intset :=
  let size := u64 (len * encoding is_) in
  _ ← cassert (size <=? UINT64_MAX - sizeof_intset);
  Ok (set_contents is_ (realloc junk (contents is_) size)).

(** [while (length--)] of the upgrade, back to front. *)
Fixpoint intsetUpgrade_loop (fuel : nat) (length : Z) (is_ : intset) (prepend curenc : Z)
  : res intset :=
  match fuel with
  | O => Fault OutOfFuel
  | S fuel =>
    if length =? 0 then Ok is_ else
    let length := i32 (length - 1) in
    v ← _intsetGetEncoded is_ length curenc;
    is_ ← _intsetSet is_ (i32 (length + prepend)) v;
    intsetUpgrade_loop fuel length is_ prepend curenc
  end.

Definition intsetUpgradeAndAdd (is_ : intset) (value : Z) : res intset :=
  let curenc := u8 (encoding is_) in
  let newenc := _intsetValueEncoding value in
  let length := i32 (length_ is_) in
  let prepend := if value <? 0 then 1 else 0 in
  let is_ := set_encoding is_ newenc in
  is_ ← intsetResize is_ (u32 (length_ is_ + 1));
  is_ ← intsetUpgrade_loop (S (Z.to_nat (length_ is_))) length is_ prepend curenc;
  is_ ← (if value <? 0 then _intsetSet is_ 0 value else _intsetSet is_ (i32 (length_ is_)) value);
  Ok (set_length is_ (u32 (length_ is_ + 1))).

(** [intsetAdd]: the new set and [*success]. *)
Definition intsetAdd (is_ : intset) (value : Z) : res (intset * bool) :=
  let valenc := _intsetValueEncoding value in
  if encoding is_ <? valenc then
    is_ ← intsetUpgradeAndAdd is_ value; Ok (is_, true)
  else
    r ← intsetSearch is_ value;
    let '(found, pos) := r in
    if (found : bool) then Ok (is_, false) else
    is_ ← intsetResize is_ (u32 (length_ is_ + 1));
    is_ ← (if pos <? length_ is_ then intsetMoveTail is_ pos (u32 (pos + 1)) else Ok is_);
    is_ ← _intsetSet is_ (i32 pos) value;
    Ok (set_length is_ (u32 (length_ is_ + 1)), true).

(** [intsetRemove]: the new set and [*success]. *)
Definition intsetRemove (is_ : intset) (value : Z) : res (intset * bool) :=
  let valenc := _intsetValueEncoding value in
  if valenc <=? encoding is_ then
    r ← intsetSearch is_ value;
    let '(found, pos) := r in
    if (found : bool) then
      let len := length_ is_ in
      is_ ← (if pos <? u32 (len - 1) then intsetMoveTail is_ (u32 (pos + 1)) pos else Ok is_);
      is_ ← intsetResize is_ (u32 (len - 1));
      Ok (set_length is_ (u32 (len - 1)), true)
    else Ok (is_, false)
  else Ok (is_, false).

End Alloc.

Definition intsetFind (is_ : intset) (value : Z) : res bool :=
  let valenc := _intsetValueEncoding value in
  if valenc <=? encoding is_ then
    r ← intsetSearch is_ value; Ok (fst r)
  else Ok false.

(** [rand()] is the argument [r]. *)
Definition intsetRandom (is_ : intset) (r : Z) : res Z :=
  _ ← cassert (negb (length_ is_ =? 0));
  _intsetGet is_ (i32 (r mod length_ is_)).

Definition intsetMax (is_ : intset) : res Z :=
  _intsetGet is_ (i32 (u32 (length_ is_ - 1))).

Definition intsetMin (is_ : intset) : res Z := _intsetGet is_ 0.

Definition intsetGet (is_ : intset) (pos : Z) : res (option Z) :=
  if pos <? length_ is_ then v ← _intsetGet is_ (i32 pos); Ok (Some v) else Ok None.

Definition intsetLen (is_ : intset) : Z := length_ is_.

Definition intsetBlobLen (is_ : intset) : Z :=
  u64 (sizeof_intset + u64 (length_ is_ * encoding is_)).

(** The cast [(intset * )p] of a blob: the header is read from its first bytes. *)
Definition intset_of_blob (p : bytes) : res intset :=
  e ← rdn p 0 4; n ← rdn p 4 4;
  Ok (mk_intset (le_val e) (le_val n) (drop 8 p)).

Fixpoint validate_order (fuel : nat) (is_ : intset) (i count prev : Z) : res bool :=
  match fuel with
  | O => Fault OutOfFuel
  | S fuel =>
    if i <? count then
      cur ← _intsetGet is_ (i32 i);
      if cur <=? prev then Ok false
      else validate_order fuel is_ (u32 (i + 1)) count cur
    else Ok true
  end.

Definition intsetValidateIntegrity (p : bytes) (size : Z) (deep : bool) : res bool :=
  if size <? sizeof_intset then Ok false else
  is_ ← intset_of_blob p;
  let known := (encoding is_ =? INTSET_ENC_INT64) || (encoding is_ =? INTSET_ENC_INT32)
               || (encoding is_ =? INTSET_ENC_INT16) in
  if negb known then Ok false else
  let record_size := encoding is_ in
  let count := length_ is_ in
  if negb (u64 (sizeof_intset + count * record_size) =? size) then Ok false else
  if count =? 0 then Ok false else
  if negb deep then Ok true else
  prev ← _intsetGet is_ 0;
  validate_order (S (Z.to_nat count)) is_ 1 count prev.

(** * Theory *)

(** ** Representation *)

Definition enc_ok (w : Z) : Prop := w = 2 \/ w = 4 \/ w = 8.
Definition in_width (w v : Z) : Prop := - 2 ^ (8 * w - 1) <= v < 2 ^ (8 * w - 1).

(** The array that stores [vs] with [w] bytes per element. *)
Definition E (w : Z) (vs : list Z) : bytes := concat (le_bytes (Z.to_nat w) <$> vs).

Record repr (is_ : intset) (vs : list Z) : Prop := mk_repr {
  repr_enc : enc_ok (encoding is_);
  repr_len : length_ is_ = zlen vs;
  repr_contents : contents is_ = E (encoding is_) vs;
  repr_width : Forall (in_width (encoding is_)) vs;
  repr_sorted : StronglySorted Z.lt vs;
}.

(** The sizes for which the 32 bit byte count of [intsetMoveTail] is exact. *)
Definition max_len : Z := 2 ^ 29 - 2.

Lemma enc_ok_pos w : enc_ok w -> 2 <= w <= 8.
Proof. unfold enc_ok. lia. Qed.

Lemma E_app w a b : E w (a ++ b) = E w a ++ E w b.
Proof. unfold E. by rewrite fmap_app, concat_app. Qed.

Lemma E_cons w v b : E w (v :: b) = le_bytes (Z.to_nat w) v ++ E w b.
Proof. done. Qed.

Lemma zlen_le_bytes w v : 0 <= w -> zlen (le_bytes (Z.to_nat w) v) = w.
Proof. intros. unfold zlen. rewrite length_le_bytes. lia. Qed.

Lemma zlen_E w vs : 0 <= w -> zlen (E w vs) = zlen vs * w.
Proof.
  intros Hw. induction vs as [|v vs IH]; [done|].
  rewrite E_cons. zlen_simpl. rewrite IH, zlen_le_bytes by done. lia.
Qed.

Lemma le_val_signed w v :
  enc_ok w -> in_width w v ->
  wraps (8 * w) (le_val (le_bytes (Z.to_nat w) v)) = v.
Proof.
  intros Hw%enc_ok_pos Hv. rewrite le_val_bytes.
  replace (8 * Z.of_nat (Z.to_nat w)) with (8 * w) by lia.
  apply wraps_wrapu; [lia|]. exact Hv.
Qed.

Lemma getEncoded_spec is_ pre rest pos w v :
  enc_ok w -> in_width w v -> zlen pre = pos * w ->
  contents is_ = pre ++ le_bytes (Z.to_nat w) v ++ rest ->
  _intsetGetEncoded is_ pos w = Ok v.
Proof.
  intros Hw Hv Hp Hc. pose proof (le_val_signed w v Hw Hv) as Hle.
  unfold _intsetGetEncoded. rewrite Hc.
  pose proof (rdn_app pre (le_bytes (Z.to_nat w) v) rest) as Hr.
  pose proof (zlen_le_bytes w v) as Hl. rewrite Hp in Hr.
  destruct Hw as [->|[->| ->]]; rewrite Hl in Hr by lia; cbn [Z.eqb Pos.eqb];
    rewrite Hr; cbn [mbind res_bind]; f_equal; exact Hle.
Qed.

Lemma set_spec is_ pre old rest pos v :
  enc_ok (encoding is_) -> zlen pre = pos * encoding is_ -> zlen old = encoding is_ ->
  contents is_ = pre ++ old ++ rest ->
  _intsetSet is_ pos v
  = Ok (set_contents is_ (pre ++ le_bytes (Z.to_nat (encoding is_)) v ++ rest)).
Proof.
  intros Hw Hp Ho Hc. unfold _intsetSet. rewrite Hc.
  assert (Hwr : forall k, k = encoding is_ ->
    wrn (pre ++ old ++ rest) (pos * k) (le_bytes (Z.to_nat k) v)
    = Ok (pre ++ le_bytes (Z.to_nat k) v ++ rest)).
  { intros k ->. rewrite <- Hp. apply wrn_app. rewrite length_le_bytes.
    unfold zlen in Ho. lia. }
  destruct Hw as [Hw|[Hw|Hw]]; rewrite Hw in *; cbn [Z.eqb Pos.eqb INTSET_ENC_INT64 INTSET_ENC_INT32];
    specialize (Hwr _ eq_refl);
    change (Z.to_nat 2) with 2%nat in *; change (Z.to_nat 4) with 4%nat in *;
    change (Z.to_nat 8) with 8%nat in *; rewrite Hwr; done.
Qed.

(** [is_] holds the list [vs], not necessarily sorted. *)
Definition stores (is_ : intset) (vs : list Z) : Prop :=
  enc_ok (encoding is_) /\ length_ is_ = zlen vs /\
  contents is_ = E (encoding is_) vs /\ Forall (in_width (encoding is_)) vs.

Lemma get_stores is_ vs i v :
  stores is_ vs -> vs !! i = Some v -> _intsetGet is_ (Z.of_nat i) = Ok v.
Proof.
  intros (Hw & Hl & Hc & Hr) Hi. eapply Forall_lookup_1 in Hr as Hv; [|done].
  apply list_elem_of_split_length in Hi as (a & b & -> & ->).
  unfold _intsetGet. eapply (getEncoded_spec _ (E (encoding is_) a)); [done..| |].
  - rewrite zlen_E; [done|]. apply enc_ok_pos in Hw. lia.
  - rewrite Hc, E_app, E_cons. done.
Qed.

(** Reading element [i] of a sorted set. *)
Lemma get_spec is_ vs i v :
  repr is_ vs -> vs !! i = Some v -> _intsetGet is_ (Z.of_nat i) = Ok v.
Proof. intros [? ? ? ? _]. by apply get_stores. Qed.

(** ** Encodings of values *)

Lemma valueEncoding_ok v : enc_ok (_intsetValueEncoding v).
Proof. unfold _intsetValueEncoding, enc_ok. repeat case_match; auto. Qed.

Lemma valueEncoding_spec w v :
  is_i64 v -> enc_ok w -> _intsetValueEncoding v <= w <-> in_width w v.
Proof.
  unfold _intsetValueEncoding, is_i64, INT64_MIN, INT64_MAX, INT32_MIN, INT32_MAX,
    INT16_MIN, INT16_MAX, INTSET_ENC_INT64, INTSET_ENC_INT32, INTSET_ENC_INT16, in_width.
  intros Hv Hw.
  repeat match goal with |- context [?a <? ?b] => destruct (Z.ltb_spec a b) end;
    destruct Hw as [->|[->| ->]]; cbn [orb]; lia.
Qed.

Lemma in_width_mono w w' v : enc_ok w -> enc_ok w' -> w <= w' -> in_width w v -> in_width w' v.
Proof.
  unfold in_width. intros [->|[->| ->]] [->|[->| ->]] Hle Hv; cbn in *; lia.
Qed.

(** ** Search *)

(** What [intsetSearch] reports: the list split at the returned position. *)
Definition search_post (vs : list Z) (value : Z) (found : bool) (pos : Z) : Prop :=
  exists a b, vs = a ++ b /\ pos = zlen a /\ Forall (fun x => x < value) a /\
    if found then exists b', b = value :: b' else Forall (fun x => value < x) b.

Lemma sorted_lookup_lt (vs : list Z) i j x y :
  StronglySorted Z.lt vs -> vs !! i = Some x -> vs !! j = Some y -> (i < j)%nat -> x < y.
Proof.
  intros Hs Hx Hy Hij. apply list_elem_of_split_length in Hx as (a & b & -> & ->).
  apply StronglySorted_app in Hs as (_ & _ & Hs).
  apply StronglySorted_inv in Hs as [_ Hs].
  rewrite lookup_app_r in Hy by lia.
  destruct (j - length a)%nat eqn:E; [lia|]. cbn in Hy.
  eapply Forall_lookup_1 in Hs; eauto.
Qed.

(** Everything before [min] is smaller and everything after [max] is larger. *)
Definition window (vs : list Z) (value min max : Z) : Prop :=
  0 <= min <= max + 1 /\ max < zlen vs /\
  (forall i x, vs !! i = Some x -> Z.of_nat i < min -> x < value) /\
  (forall i x, vs !! i = Some x -> max < Z.of_nat i -> value < x).

Lemma window_closed vs value min max :
  window vs value min max -> max < min -> search_post vs value false min.
Proof.
  intros (H1 & H2 & Hlo & Hhi) Hmm. set (k := Z.to_nat min).
  exists (take k vs), (drop k vs). rewrite take_drop. unfold zlen in *.
  rewrite length_take. split; [done|]. split; [lia|]. split.
  - apply Forall_lookup_2. intros i x [Hi ?]%lookup_take_Some. eapply Hlo; eauto. lia.
  - apply Forall_lookup_2. intros i x Hi. rewrite lookup_drop in Hi.
    eapply Hhi; eauto. lia.
Qed.

Lemma search_found vs value i :
  StronglySorted Z.lt vs -> vs !! i = Some value -> search_post vs value true (Z.of_nat i).
Proof.
  intros Hs Hi. pose proof Hi as Hi'.
  apply list_elem_of_split_length in Hi as (a & b & -> & ->).
  exists a, (value :: b). split; [done|]. split; [done|]. split; [|by eauto].
  apply Forall_lookup_2. intros j x Hj. apply lookup_lt_Some in Hj as ?.
  eapply (sorted_lookup_lt _ j (length a)); eauto. by rewrite lookup_app_l.
Qed.

Lemma search_loop_spec fuel : forall is_ vs value min max mid cur,
  repr is_ vs -> zlen vs <= max_len -> window vs value min max ->
  (min <= max \/ cur <> value) -> max - min + 1 < Z.of_nat fuel ->
  exists min' mid' cur',
    intsetSearch_loop fuel is_ value min max mid cur = Ok (min', mid', cur') /\
    (if cur' =? value then 0 <= mid' < zlen vs /\ search_post vs value true mid'
     else 0 <= min' <= zlen vs /\ search_post vs value false min').
Proof.
  induction fuel as [|fuel IH]; intros is_ vs value min max mid cur Hr Hlen Hw Hc Hf.
  { destruct Hw as ([? ?] & _). lia. }
  pose proof Hw as (H1 & H2 & Hlo & Hhi). unfold max_len in Hlen.
  cbn [intsetSearch_loop]. destruct (Z.leb_spec min max) as [Hmm|Hmm].
  - rewrite (wrapu_small 32 min), (wrapu_small 32 max), (wrapu_small 32 (min + max)) by lia.
    rewrite Z.shiftr_div_pow2 by lia. change (2 ^ 1) with 2.
    set (m := (min + max) / 2).
    assert (Hm : min <= m <= max) by (unfold m; Z.div_mod_to_equations; lia).
    rewrite (wraps_small 32 m) by lia.
    destruct (lookup_lt_is_Some_2 vs (Z.to_nat m)) as [x Hx]; [unfold zlen in *; lia|].
    pose proof (get_spec is_ vs _ x Hr Hx) as Hg. rewrite Z2Nat.id in Hg by lia.
    rewrite Hg. cbn [mbind res_bind].
    destruct (Z.ltb_spec x value) as [Hlt|Hge].
    { rewrite wraps_small by lia. apply IH; [done..| |lia|lia].
      split; [lia|]. split; [lia|]. split; [|done]. intros i y Hy Hi.
      destruct (decide (i = Z.to_nat m)) as [->|]; [by simplify_eq|].
      assert (y < x); [|lia]. eapply sorted_lookup_lt; [apply Hr|done..|lia]. }
    destruct (Z.ltb_spec value x) as [Hgt|Hle].
    { rewrite wraps_small by lia. apply IH; [done..| |lia|lia].
      split; [lia|]. split; [lia|]. split; [done|]. intros i y Hy Hi.
      destruct (decide (i = Z.to_nat m)) as [->|]; [by simplify_eq|].
      assert (x < y); [|lia]. eapply sorted_lookup_lt; [apply Hr|done..|lia]. }
    assert (x = value) as -> by lia.
    eexists _, _, _. split; [done|]. rewrite Z.eqb_refl. split; [lia|].
    rewrite <- (Z2Nat.id m) by lia. apply search_found; [apply Hr|done].
  - eexists _, _, _. split; [done|]. rewrite (proj2 (Z.eqb_neq _ _)) by lia.
    split; [lia|]. by apply (window_closed _ _ _ max).
Qed.

Lemma search_spec is_ vs value :
  repr is_ vs -> zlen vs <= max_len ->
  exists found pos, intsetSearch is_ value = Ok (found, pos) /\
    search_post vs value found pos /\ 0 <= pos <= zlen vs.
Proof.
  intros Hr Hlen. unfold intsetSearch. pose proof (repr_len _ _ Hr) as Hl. rewrite Hl.
  pose proof (zlen_nonneg vs). unfold max_len in *.
  destruct (Z.eqb_spec (zlen vs) 0) as [H0|H0].
  { destruct vs; [|zlen_simpl; pose proof (zlen_nonneg vs); lia].
    eexists _, _. split; [done|]. split; [|done]. exists [], []. done. }
  rewrite (wrapu_small 32), (wraps_small 32) by lia.
  destruct (lookup_lt_is_Some_2 vs 0) as [lo Hlo]; [unfold zlen in *; lia|].
  destruct (lookup_lt_is_Some_2 vs (Z.to_nat (zlen vs - 1))) as [hi Hhi];
    [unfold zlen in *; lia|].
  pose proof (get_spec _ _ _ _ Hr Hhi) as Gh. rewrite Z2Nat.id in Gh by lia.
  rewrite Gh. cbn [mbind res_bind].
  destruct (Z.ltb_spec hi value) as [Hv|Hv].
  { eexists _, _. split; [done|]. split; [|lia]. exists vs, [].
    rewrite app_nil_r. split_and!; try done.
    apply Forall_lookup_2. intros i x Hx. apply lookup_lt_Some in Hx as ?.
    destruct (decide (i = Z.to_nat (zlen vs - 1))) as [->|]; [by simplify_eq|].
    assert (x < hi); [|lia]. eapply sorted_lookup_lt; [apply Hr|done..|].
    unfold zlen in *. lia. }
  pose proof (get_spec _ _ _ _ Hr Hlo) as Gl. change (Z.of_nat 0) with 0 in Gl. rewrite Gl. cbn [mbind res_bind].
  destruct (Z.ltb_spec value lo) as [Hv'|Hv'].
  { eexists _, _. split; [done|]. split; [|lia]. exists [], vs. split_and!; try done.
    apply Forall_lookup_2. intros [|i] x Hx; [by simplify_eq|].
    assert (lo < x); [|lia]. eapply sorted_lookup_lt; [apply Hr|done..|lia]. }
  destruct (search_loop_spec (S (Z.to_nat (zlen vs))) is_ vs value 0 (zlen vs - 1) (-1) (-1))
    as (mn & md & cur & -> & Hp); [done|done| |lia|lia|].
  { split; [lia|]. split; [lia|]. split; intros i x Hx Hi; [lia|].
    apply lookup_lt_Some in Hx. unfold zlen in *. lia. }
  cbn [mbind res_bind]. rewrite (Z.eqb_sym value cur).
  destruct (cur =? value); destruct Hp as [? Hp]; rewrite wrapu_small by lia;
    (eexists _, _; split; [done|]; split; [done|lia]).
Qed.

(** ** Moving the tail *)

Lemma moveTail_bytes_spec is_ from :
  enc_ok (encoding is_) -> 0 <= from <= length_ is_ -> length_ is_ <= max_len ->
  moveTail_bytes is_ from = (length_ is_ - from) * encoding is_.
Proof.
  unfold moveTail_bytes, max_len, INTSET_ENC_INT64, INTSET_ENC_INT32.
  intros Hw Hf Hl. rewrite (wrapu_small 32 (_ - _)) by lia.
  destruct Hw as [Hw|[Hw|Hw]]; rewrite Hw; cbn [Z.eqb Pos.eqb]; apply wrapu_small; lia.
Qed.

Lemma moveTail_memmove is_ from to :
  enc_ok (encoding is_) -> 0 <= from <= length_ is_ -> length_ is_ <= max_len ->
  intsetMoveTail is_ from to =
  (c ← memmove (contents is_) (to * encoding is_) (from * encoding is_)
                ((length_ is_ - from) * encoding is_); Ok (set_contents is_ c)).
Proof.
  intros Hw Hf Hl. unfold intsetMoveTail. rewrite moveTail_bytes_spec by done.
  unfold INTSET_ENC_INT64, INTSET_ENC_INT32.
  by destruct Hw as [Hw|[Hw|Hw]]; rewrite Hw; cbn [Z.eqb Pos.eqb].
Qed.

Lemma resize_spec junk is_ len :
  enc_ok (encoding is_) -> 0 <= len < 2 ^ 32 ->
  intsetResize junk is_ len
  = Ok (set_contents is_ (realloc junk (contents is_) (len * encoding is_))).
Proof.
  intros Hw%enc_ok_pos Hl. unfold intsetResize, sizeof_intset, UINT64_MAX.
  rewrite wrapu_small by nia. rewrite (proj2 (Z.leb_le _ _)) by nia. done.
Qed.

(** ** Insertion without upgrade *)

Lemma sorted_insert a v b :
  StronglySorted Z.lt (a ++ b) -> Forall (fun x => x < v) a -> Forall (fun x => v < x) b ->
  StronglySorted Z.lt (a ++ v :: b).
Proof.
  intros (Hab & Ha & Hb)%StronglySorted_app Hlt Hgt. apply StronglySorted_app.
  split_and!; [|done|by constructor].
  intros x y Hx [->|Hy]%elem_of_cons; [|by apply Hab].
  rewrite Forall_forall in Hlt. by apply Hlt.
Qed.

Lemma add_in_place junk is_ a b value :
  repr is_ (a ++ b) -> zlen (a ++ b) < max_len -> in_width (encoding is_) value ->
  Forall (fun x => x < value) a -> Forall (fun x => value < x) b ->
  exists is', (is1 ← intsetResize junk is_ (u32 (length_ is_ + 1));
     is2 ← (if zlen a <? length_ is1 then intsetMoveTail is1 (zlen a) (u32 (zlen a + 1)) else Ok is1);
     is3 ← _intsetSet is2 (i32 (zlen a)) value;
     Ok (set_length is3 (u32 (length_ is3 + 1)), true)) = Ok (is', true) /\
    repr is' (a ++ value :: b).
Proof.
  intros [Hw Hl Hc Hr Hs] Hm Hv Ha Hb. unfold max_len in Hm.
  pose proof (zlen_nonneg a). pose proof (zlen_nonneg b). zlen_simpl.
  pose proof (enc_ok_pos _ Hw) as Hwp.
  rewrite (wrapu_small 32 (length_ is_ + 1)) by lia. rewrite resize_spec by (done || lia).
  cbn [mbind res_bind]. rewrite Hc, E_app.
  destruct (realloc_grow junk (E (encoding is_) a ++ E (encoding is_) b)
    ((length_ is_ + 1) * encoding is_)) as (j & -> & Hj).
  { zlen_simpl. rewrite !zlen_E by lia. nia. }
  zlen_simpl. rewrite !zlen_E in Hj by lia.
  assert (Hjw : zlen j = encoding is_) by nia. clear Hj.
  set (is1 := set_contents is_ _).
  assert (exists old, (if zlen a <? length_ is1
      then intsetMoveTail is1 (zlen a) (u32 (zlen a + 1)) else Ok is1)
    = Ok (set_contents is_ (E (encoding is_) a ++ old ++ E (encoding is_) b))
    /\ zlen old = encoding is_) as (old & -> & Hold).
  { unfold is1 at 1. cbn [length_ set_contents].
    destruct (Z.ltb_spec (zlen a) (length_ is_)) as [Hpos|Hpos].
    - rewrite moveTail_memmove; unfold is1; cbn [encoding length_ contents set_contents];
        [|done|lia|unfold max_len; lia].
      rewrite (wrapu_small 32) by lia.
      pose proof (memmove_right (E (encoding is_) a) (E (encoding is_) b) j []) as Hmm.
      rewrite !app_nil_r, !zlen_E, Hjw in Hmm by lia. rewrite <- app_assoc.
      replace ((zlen a + 1) * encoding is_) with (zlen a * encoding is_ + encoding is_) by lia.
      replace (length_ is_ - zlen a) with (zlen b) by lia.
      rewrite Hmm. cbn [mbind res_bind]. eexists. split; [done|].
      unfold zlen in *. rewrite length_take, length_app. lia.
    - assert (b = []) as -> by (destruct b; [done|zlen_simpl; pose proof (zlen_nonneg b); lia]).
      exists j. split; [|done]. unfold is1. cbn [E fmap list_fmap concat].
      by rewrite !app_nil_r. }
  cbn [mbind res_bind]. rewrite (wraps_small 32) by lia.
  rewrite (set_spec _ (E (encoding is_) a) old (E (encoding is_) b));
    [|done|cbn; by rewrite zlen_E by lia|exact Hold|done].
  cbn [mbind res_bind]. rewrite (wrapu_small 32) by (cbn; lia).
  eexists. split; [done|]. constructor; cbn; [done|zlen_simpl; lia|..].
  - by rewrite E_app, E_cons.
  - apply Forall_app in Hr as [Hra Hrb]. apply Forall_app; split; [done|by constructor].
  - by apply sorted_insert.
Qed.

(** ** Upgrade *)

(** Splitting off the last [k] bytes. *)
Lemma split_tail (t : bytes) k :
  0 <= k <= zlen t -> exists p q, t = p ++ q /\ zlen q = k /\ zlen p = zlen t - k.
Proof.
  intros Hk. exists (take (length t - Z.to_nat k) t), (drop (length t - Z.to_nat k) t).
  rewrite take_drop. unfold zlen in *. rewrite length_take, length_drop.
  split; [done|lia].
Qed.

Lemma upgrade_loop_spec fuel cur prepend : forall a is_ mid dn tl,
  enc_ok cur -> enc_ok (encoding is_) -> cur <= encoding is_ -> 0 <= prepend <= 1 ->
  Forall (in_width cur) a -> zlen a < 2 ^ 30 -> zlen a < Z.of_nat fuel ->
  contents is_ = E cur a ++ mid ++ E (encoding is_) dn ++ tl ->
  zlen (E cur a ++ mid) = (zlen a + prepend) * encoding is_ ->
  exists mid', intsetUpgrade_loop fuel (zlen a) is_ prepend cur
    = Ok (set_contents is_ (mid' ++ E (encoding is_) (a ++ dn) ++ tl)) /\
    zlen mid' = prepend * encoding is_.
Proof.
  induction fuel as [|fuel IH]; intros a is_ mid dn tl Hcur Hw Hle Hp Ha Hmax Hf Hc Hlen.
  { pose proof (zlen_nonneg a). lia. }
  cbn [intsetUpgrade_loop].
  pose proof (enc_ok_pos _ Hw). pose proof (enc_ok_pos _ Hcur).
  destruct a as [|v a _] using rev_ind.
  { exists mid. split; [|exact Hlen]. cbn in Hc |- *.
    destruct is_; cbn in *; by subst. }
  apply Forall_app in Ha as [Ha [Hv _]%Forall_cons_1].
  pose proof (zlen_nonneg a). rewrite E_app, E_cons in Hc, Hlen. zlen_simpl.
  rewrite (proj2 (Z.eqb_neq _ _)) by lia. rewrite (wraps_small 32) by lia.
  replace (zlen a + (1 + 0) - 1) with (zlen a) by lia.
  cbn [E fmap list_fmap concat] in Hc, Hlen. fold (E cur a) in Hc, Hlen.
  rewrite app_nil_r in Hc. rewrite <- !app_assoc in Hc.
  rewrite (getEncoded_spec _ (E cur a) (mid ++ E (encoding is_) dn ++ tl) _ cur v);
    [|done|done|by rewrite zlen_E by lia|done].
  cbn [mbind res_bind]. rewrite (wraps_small 32) by lia.
  rewrite zlen_E, zlen_le_bytes in Hlen by lia.
  destruct (split_tail (le_bytes (Z.to_nat cur) v ++ mid) (encoding is_)) as (m & old & Em & Ho & Hm).
  { zlen_simpl. rewrite zlen_le_bytes by lia. nia. }
  zlen_simpl. rewrite zlen_le_bytes in Hm by lia.
  rewrite (set_spec _ (E cur a ++ m) old (E (encoding is_) dn ++ tl)); [|done| |done|].
  2: { zlen_simpl. rewrite zlen_E by lia. nia. }
  2: { rewrite Hc, <- !app_assoc. f_equal. rewrite !app_assoc, Em. done. }
  cbn [mbind res_bind].
  destruct (IH a (set_contents is_ ((E cur a ++ m) ++ le_bytes (Z.to_nat (encoding is_)) v
      ++ E (encoding is_) dn ++ tl)) m (v :: dn) tl) as (mid' & -> & Hmid'); try done; try lia.
  { cbn [contents set_contents encoding]. rewrite E_cons, <- !app_assoc. done. }
  { cbn [set_contents encoding]. zlen_simpl. rewrite zlen_E by lia. nia. }
  exists mid'. split; [|done]. cbn [encoding set_contents]. rewrite <- (app_assoc a). done.
Qed.

Lemma upgrade_spec junk is_ vs value :
  repr is_ vs -> zlen vs < max_len -> is_i64 value -> ~ in_width (encoding is_) value ->
  exists is', intsetUpgradeAndAdd junk is_ value = Ok is' /\
    repr is' (if value <? 0 then value :: vs else vs ++ [value]).
Proof.
  intros [Hw Hl Hc Hr Hs] Hm Hi Hv. unfold max_len in Hm. pose proof (zlen_nonneg vs).
  set (nw := _intsetValueEncoding value).
  assert (Hnw : enc_ok nw) by apply valueEncoding_ok.
  assert (Hvn : in_width nw value) by (apply valueEncoding_spec; [done..|unfold nw; lia]).
  assert (Hlt : encoding is_ < nw).
  { apply Z.nle_gt. intros Hle. by apply Hv, valueEncoding_spec. }
  pose proof (enc_ok_pos _ Hw). pose proof (enc_ok_pos _ Hnw).
  unfold intsetUpgradeAndAdd. fold nw. cbn [length_ set_encoding].
  rewrite (wrapu_small 8), (wraps_small 32) by lia.
  rewrite (wrapu_small 32 (length_ is_ + 1)) by lia.
  rewrite resize_spec by (first [done | lia]). cbn [mbind res_bind contents set_encoding].
  cbn [encoding set_encoding].
  destruct (realloc_grow junk (contents is_) ((length_ is_ + 1) * nw)) as (j & -> & Hj).
  { rewrite Hc, zlen_E by lia. nia. }
  rewrite Hc in Hj |- *. rewrite zlen_E in Hj by lia.
  set (is1 := set_contents _ _).
  change (length_ is1) with (length_ is_). rewrite Hl.
  assert (Hup : forall prepend, 0 <= prepend <= 1 -> exists m t,
    intsetUpgrade_loop (S (Z.to_nat (zlen vs))) (zlen vs) is1 prepend (encoding is_)
    = Ok (set_contents is1 (m ++ E nw vs ++ t)) /\ zlen m = prepend * nw /\
      zlen t = (1 - prepend) * nw).
  { intros prepend Hp. destruct (split_tail j ((1 - prepend) * nw)) as (m & t & -> & Ht & Hmt).
    { nia. }
    destruct (upgrade_loop_spec (S (Z.to_nat (zlen vs))) (encoding is_) prepend vs is1 m [] t)
      as (m' & Hm' & Hlm); try done; try (unfold is1; cbn; lia).
    { unfold is1. cbn [set_contents set_encoding encoding]. zlen_simpl.
      rewrite zlen_E by lia. nia. }
    exists m', t. rewrite app_nil_r in Hm'. done. }
  assert (Hbig : forall x, In x vs -> if value <? 0 then value < x else x < value).
  { intros x Hx. rewrite List.Forall_forall in Hr. specialize (Hr x Hx).
    unfold in_width in *. destruct (Z.ltb_spec value 0); lia. }
  destruct (Z.ltb_spec value 0) as [Hneg|Hpos].
  - destruct (Hup 1) as (m & t & -> & Hlm & Hlt'); [lia|]. cbn [mbind res_bind].
    assert (t = []) as -> by (destruct t; [done|zlen_simpl; pose proof (zlen_nonneg t); lia]).
    rewrite (set_spec _ [] m (E nw vs)); [|done|done|cbn; lia|cbn; by rewrite app_nil_r].
    cbn [mbind res_bind]. eexists. split; [done|].
    constructor; cbn; [done|..].
    + rewrite wrapu_small; zlen_simpl; lia.
    + done.
    + constructor; [done|]. eapply Forall_impl; [done|]. intros x Hx.
      eapply in_width_mono; [..|exact Hx]; (done || lia).
    + constructor; [done|]. apply List.Forall_forall. done.
  - destruct (Hup 0) as (m & t & -> & Hlm & Hlt'); [lia|]. cbn [mbind res_bind].
    assert (m = []) as -> by (destruct m; [done|zlen_simpl; pose proof (zlen_nonneg m); lia]).
    rewrite (wraps_small 32) by (cbn; lia).
    rewrite (set_spec _ (E nw vs) t []); [|done|cbn; rewrite zlen_E by lia; lia|cbn; lia|cbn; by rewrite app_nil_r].
    cbn [mbind res_bind]. eexists. split; [done|].
    constructor; cbn; [done|..].
    + rewrite wrapu_small; zlen_simpl; lia.
    + rewrite E_app, E_cons. done.
    + apply Forall_app. split; [|by constructor]. eapply Forall_impl; [done|]. intros x Hx.
      eapply in_width_mono; [..|exact Hx]; (done || lia).
    + apply StronglySorted_app. split_and!; [|done|by repeat constructor].
      intros x y Hx Hy. apply list_elem_of_singleton in Hy as ->.
      apply Hbig. by apply list_elem_of_In.
Qed.

(** ** Operations on the stored list *)

Lemma search_member vs value found pos :
  StronglySorted Z.lt vs -> search_post vs value found pos ->
  found = bool_decide (value ∈ vs).
Proof.
  intros Hs (a & b & -> & _ & Ha & Hb). symmetry. destruct found.
  - destruct Hb as (b' & ->). apply bool_decide_eq_true. set_solver.
  - apply bool_decide_eq_false. rewrite elem_of_app. rewrite !Forall_forall in *.
    intros [H|H]; [specialize (Ha _ H)|specialize (Hb _ H)]; lia.
Qed.

Lemma not_in_width is_ vs value :
  repr is_ vs -> ~ in_width (encoding is_) value -> value ∉ vs.
Proof.
  intros Hr Hv Hin. apply Hv. pose proof (repr_width _ _ Hr) as H.
  rewrite Forall_forall in H. by apply H.
Qed.

Lemma find_spec is_ vs value :
  repr is_ vs -> zlen vs <= max_len -> is_i64 value ->
  intsetFind is_ value = Ok (bool_decide (value ∈ vs)).
Proof.
  intros Hr Hm Hi. unfold intsetFind.
  destruct (Z.leb_spec (_intsetValueEncoding value) (encoding is_)) as [Hle|Hgt].
  - destruct (search_spec _ _ value Hr Hm) as (found & pos & -> & Hp & _).
    cbn. f_equal. eapply search_member; [apply Hr|done].
  - rewrite bool_decide_eq_false_2; [done|]. eapply not_in_width; [done|].
    intros ?%valueEncoding_spec; [lia|done|apply Hr].
Qed.

Lemma add_spec junk is_ vs value :
  repr is_ vs -> zlen vs < max_len -> is_i64 value ->
  exists is' vs', intsetAdd junk is_ value = Ok (is', bool_decide (value ∉ vs)) /\
    repr is' vs' /\ (forall x, x ∈ vs' <-> x = value \/ x ∈ vs) /\
    zlen vs' = zlen vs + Z.b2z (bool_decide (value ∉ vs)).
Proof.
  intros Hr Hm Hi. unfold intsetAdd.
  destruct (Z.ltb_spec (encoding is_) (_intsetValueEncoding value)) as [Hgt|Hle].
  - assert (Hnw : ~ in_width (encoding is_) value).
    { intros ?%valueEncoding_spec; [lia|done|apply Hr]. }
    destruct (upgrade_spec junk is_ vs value Hr Hm Hi Hnw) as (is' & -> & Hr').
    cbn [mbind res_bind].
    rewrite bool_decide_eq_true_2 by (by eapply not_in_width).
    eexists _, _. split; [done|]. split; [exact Hr'|].
    destruct (value <? 0); split; [set_solver|zlen_simpl; cbn; lia|set_solver|zlen_simpl; cbn; lia].
  - destruct (search_spec _ _ value Hr ltac:(lia)) as (found & pos & -> & Hp & _).
    cbn [mbind res_bind].
    pose proof (search_member _ _ _ _ (repr_sorted _ _ Hr) Hp) as Hf.
    destruct found.
    + symmetry in Hf. apply bool_decide_eq_true in Hf.
      rewrite bool_decide_eq_false_2 by (intros H; by apply H).
      exists is_, vs. split; [done|]. split; [done|]. split; [set_solver|cbn; lia].
    + symmetry in Hf. apply bool_decide_eq_false in Hf.
      rewrite bool_decide_eq_true_2 by done.
      destruct Hp as (a & b & -> & -> & Ha & Hb).
      destruct (add_in_place junk is_ a b value) as (is' & -> & Hr'); try done.
      { apply valueEncoding_spec; [done|apply Hr|done]. }
      eexists _, _. split; [done|]. split; [done|]. split; [set_solver|].
      zlen_simpl. cbn. lia.
Qed.

(** Closing the gap left by the element after [a]. *)
Lemma remove_in_place junk is_ a value b :
  repr is_ (a ++ value :: b) -> zlen (a ++ value :: b) <= max_len ->
  exists is', (is1 ← (if zlen a <? u32 (length_ is_ - 1)
                      then intsetMoveTail is_ (u32 (zlen a + 1)) (zlen a) else Ok is_);
     is2 ← intsetResize junk is1 (u32 (length_ is_ - 1));
     Ok (set_length is2 (u32 (length_ is_ - 1)), true)) = Ok (is', true) /\
    repr is' (a ++ b).
Proof.
  intros [Hw Hl Hc Hr Hs] Hm. pose proof (enc_ok_pos _ Hw).
  pose proof (zlen_nonneg a). pose proof (zlen_nonneg b).
  zlen_simpl. unfold max_len in Hm. rewrite Hl.
  rewrite !(wrapu_small 32) by lia.
  assert (exists t, (if zlen a <? zlen a + (1 + zlen b) - 1
      then intsetMoveTail is_ (zlen a + 1) (zlen a) else Ok is_)
    = Ok (set_contents is_ ((E (encoding is_) a ++ E (encoding is_) b) ++ t))) as (t & ->).
  { destruct (Z.ltb_spec (zlen a) (zlen a + (1 + zlen b) - 1)).
    - rewrite moveTail_memmove; [|done|lia|unfold max_len; lia].
      rewrite Hc, E_app, E_cons.
      pose proof (memmove_left (E (encoding is_) a) (le_bytes (Z.to_nat (encoding is_)) value)
        (E (encoding is_) b) []) as Hmm.
      rewrite app_nil_r, !zlen_E, zlen_le_bytes in Hmm by lia.
      replace ((zlen a + 1) * encoding is_) with (zlen a * encoding is_ + encoding is_) by lia.
      replace (length_ is_ - (zlen a + 1)) with (zlen b) by lia.
      rewrite Hmm. cbn [mbind res_bind]. eexists. by rewrite app_assoc.
    - assert (b = []) as -> by (destruct b; [done|zlen_simpl; pose proof (zlen_nonneg b); lia]).
      exists (le_bytes (Z.to_nat (encoding is_)) value).
      rewrite E_app, E_cons in Hc. cbn [E fmap list_fmap concat] in Hc |- *.
      rewrite app_nil_r in Hc |- *. destruct is_; cbn in *; by subst. }
  cbn [mbind res_bind]. rewrite resize_spec by (first [done | lia]).
  cbn [mbind res_bind contents set_contents encoding].
  replace ((zlen a + (1 + zlen b) - 1) * encoding is_)
    with (zlen (E (encoding is_) a ++ E (encoding is_) b))
    by (zlen_simpl; rewrite !zlen_E by lia; lia).
  rewrite realloc_shrink, <- E_app. eexists. split; [done|].
  apply Forall_app in Hr as [Hra [Hrv Hrb]%Forall_cons_1].
  constructor; cbn; [done|zlen_simpl; lia|done|by apply Forall_app|].
  apply StronglySorted_app in Hs as (Hab & Hsa & [_ Hsb]%StronglySorted_cons).
  apply StronglySorted_app. split_and!; [|done|done].
  intros x y Hx Hy. apply Hab; set_solver.
Qed.

Lemma sorted_middle_notin a value b :
  StronglySorted Z.lt (a ++ value :: b) -> value ∉ a ++ b.
Proof.
  intros (Hab & _ & [Hb _]%StronglySorted_cons)%StronglySorted_app [Hx|Hx]%elem_of_app.
  - specialize (Hab value value Hx ltac:(set_solver)). lia.
  - rewrite Forall_forall in Hb. specialize (Hb _ Hx). lia.
Qed.

Lemma remove_spec junk is_ vs value :
  repr is_ vs -> zlen vs <= max_len -> is_i64 value ->
  exists is' vs', intsetRemove junk is_ value = Ok (is', bool_decide (value ∈ vs)) /\
    repr is' vs' /\ (forall x, x ∈ vs' <-> x ∈ vs /\ x <> value) /\
    zlen vs' = zlen vs - Z.b2z (bool_decide (value ∈ vs)).
Proof.
  intros Hr Hm Hi. unfold intsetRemove.
  assert (Habs : value ∉ vs -> exists is' vs',
    Ok (is_, false) = Ok (is', bool_decide (value ∈ vs)) /\ repr is' vs' /\
    (forall x, x ∈ vs' <-> x ∈ vs /\ x <> value) /\
    zlen vs' = zlen vs - Z.b2z (bool_decide (value ∈ vs))).
  { intros Hn. exists is_, vs. rewrite bool_decide_eq_false_2 by done.
    split; [done|]. split; [done|]. split; [|cbn; lia].
    intros x. split; [|tauto]. intros Hx. split; [done|]. intros ->. done. }
  destruct (Z.leb_spec (_intsetValueEncoding value) (encoding is_)) as [Hle|Hgt].
  2: { apply Habs. eapply not_in_width; [done|].
       intros ?%valueEncoding_spec; [lia|done|apply Hr]. }
  destruct (search_spec _ _ value Hr Hm) as (found & pos & -> & Hp & _).
  cbn [mbind res_bind].
  pose proof (search_member _ _ _ _ (repr_sorted _ _ Hr) Hp) as Hf. symmetry in Hf.
  destruct found; [|apply Habs; by apply bool_decide_eq_false in Hf].
  rewrite Hf. destruct Hp as (a & b & -> & -> & Ha & b' & ->).
  pose proof (sorted_middle_notin _ _ _ (repr_sorted _ _ Hr)) as Hn.
  destruct (remove_in_place junk is_ a value b' Hr Hm) as (is' & -> & Hr').
  exists is', (a ++ b'). split; [done|]. split; [done|].
  split; [|zlen_simpl; cbn; lia].
  intros x. rewrite elem_of_app in *. rewrite elem_of_app, elem_of_cons. split.
  - intros Hx. split; [tauto|]. intros ->. done.
  - tauto.
Qed.

(** ** Untrusted input *)

Lemma le_bytes_mod n x : le_bytes n (x mod 2 ^ (8 * Z.of_nat n)) = le_bytes n x.
Proof.
  rewrite <- (le_val_bytes n x). rewrite <- (length_le_bytes n x) at 1.
  apply le_bytes_val, wf_le_bytes.
Qed.

Lemma le_bytes_signed w x :
  enc_ok w -> le_bytes (Z.to_nat w) (wraps (8 * w) x) = le_bytes (Z.to_nat w) x.
Proof.
  intros Hw%enc_ok_pos. rewrite <- le_bytes_mod, <- (le_bytes_mod _ x).
  replace (8 * Z.of_nat (Z.to_nat w)) with (8 * w) by lia. f_equal.
  unfold wraps. rewrite Zminus_mod_idemp_l. f_equal. lia.
Qed.

(** Any well-formed array of the right size stores some list. *)
Lemma E_decode w n c :
  enc_ok w -> wf_bytes c -> zlen c = Z.of_nat n * w ->
  exists vs, c = E w vs /\ length vs = n /\ Forall (in_width w) vs.
Proof.
  intros Hw. pose proof (enc_ok_pos _ Hw). revert c.
  induction n as [|n IH]; intros c Hc Hl.
  { exists []. destruct c; [done|]. zlen_simpl. pose proof (zlen_nonneg c). lia. }
  rewrite <- (take_drop (Z.to_nat w) c) in Hc. apply Forall_app in Hc as [Hc1 Hc2].
  assert (Hl1 : length (take (Z.to_nat w) c) = Z.to_nat w)
    by (rewrite length_take; unfold zlen in Hl; nia).
  destruct (IH (drop (Z.to_nat w) c) Hc2) as (vs & Hvs & Hn & Hf).
  { unfold zlen in *. rewrite length_drop. nia. }
  exists (wraps (8 * w) (le_val (take (Z.to_nat w) c)) :: vs).
  rewrite E_cons, le_bytes_signed by done. split_and!; [|cbn; lia|constructor; [|done]].
  - rewrite <- (take_drop (Z.to_nat w) c) at 1. rewrite Hvs. f_equal.
    rewrite <- Hl1 at 2. symmetry. apply le_bytes_val, Hc1.
  - unfold in_width. pose proof (wraps_range (8 * w) (le_val (take (Z.to_nat w) c))). lia.
Qed.

Lemma validate_order_spec is_ vs fuel : forall a x b,
  stores is_ vs -> zlen vs < 2 ^ 31 -> vs = a ++ x :: b -> (length b < fuel)%nat ->
  exists r, validate_order fuel is_ (zlen a + 1) (zlen vs) x = Ok r /\
    (r = true <-> StronglySorted Z.lt (x :: b)).
Proof.
  induction fuel as [|fuel IH]; intros a x b Hst Hmax E Hf; [lia|].
  cbn [validate_order]. pose proof (zlen_nonneg a). pose proof (zlen_nonneg b).
  assert (Hl : zlen vs = zlen a + (1 + zlen b)) by (rewrite E; zlen_simpl; lia).
  destruct (Z.ltb_spec (zlen a + 1) (zlen vs)) as [Hi|Hi].
  - destruct b as [|y b]; [zlen_simpl; lia|].
    rewrite (wraps_small 32) by lia.
    pose proof (get_stores is_ vs (length a + 1) y Hst) as Hg.
    replace (Z.of_nat (length a + 1)) with (zlen a + 1) in Hg by (unfold zlen; lia).
    rewrite Hg; [|rewrite E, lookup_app_r by lia; by replace (length a + 1 - length a)%nat with 1%nat by lia].
    cbn [mbind res_bind]. destruct (Z.leb_spec y x) as [Hyx|Hxy].
    { exists false. split; [done|]. split; [done|]. intros [[Hlt _]%Forall_cons_1 _]%StronglySorted_cons. lia. }
    rewrite (wrapu_small 32) by lia.
    destruct (IH (a ++ [x]) y b) as (r & Hr & Hs); try done.
    { rewrite <- app_assoc. done. } { cbn in Hf. lia. }
    exists r. split; [rewrite <- Hr; f_equal; zlen_simpl; lia|].
    rewrite Hs. split; [|by intros [_ ?]%StronglySorted_cons].
    intros Hsort. constructor; [done|].
    apply StronglySorted_cons in Hsort as [Hsort _]. constructor; [done|].
    eapply Forall_impl; [done|]. lia.
  - exists true. split; [done|]. split; [|done]. intros _.
    destruct b; [by repeat constructor|]. zlen_simpl. pose proof (zlen_nonneg b). lia.
Qed.

Lemma rdn_total b i n :
  0 <= i -> 0 <= n -> i + n <= zlen b ->
  rdn b i n = Ok (take (Z.to_nat n) (drop (Z.to_nat i) b)).
Proof. intros. unfold rdn. rewrite !(proj2 (Z.leb_le _ _)) by lia. done. Qed.

Lemma validate_spec p deep :
  wf_bytes p -> zlen p <= 2 ^ 32 ->
  exists r, intsetValidateIntegrity p (zlen p) deep = Ok r /\
    (r = true -> exists is_ vs, intset_of_blob p = Ok is_ /\ stores is_ vs /\ vs <> [] /\
       (deep = true -> repr is_ vs)).
Proof.
  intros Hp Hl. unfold intsetValidateIntegrity, sizeof_intset.
  destruct (Z.ltb_spec (zlen p) 8); [by exists false|].
  unfold intset_of_blob. rewrite !rdn_total by lia. cbn [mbind res_bind].
  set (is_ := mk_intset _ _ _). cbn [mbind res_bind].
  destruct (_ || _ || _) eqn:Hk; cbn [negb]; [|by exists false].
  assert (Hw : enc_ok (encoding is_)).
  { apply orb_true_iff in Hk as [[?%Z.eqb_eq|?%Z.eqb_eq]%orb_true_iff|?%Z.eqb_eq];
      unfold enc_ok; auto. }
  pose proof (enc_ok_pos _ Hw).
  assert (Hn : 0 <= length_ is_ < 2 ^ 32).
  { cbn [length_ is_]. pose proof (le_val_range (take (Z.to_nat 4) (drop (Z.to_nat 4) p))) as Hr.
    unfold zlen in *. rewrite length_take, length_drop in Hr.
    replace (8 * _) with 32 in Hr by lia. apply Hr. by apply Forall_take, Forall_drop. }
  rewrite wrapu_small by nia.
  destruct (Z.eqb_spec (8 + length_ is_ * encoding is_) (zlen p)) as [Hsz|]; cbn [negb];
    [|by exists false].
  destruct (Z.eqb_spec (length_ is_) 0); [by exists false|].
  destruct (E_decode (encoding is_) (Z.to_nat (length_ is_)) (contents is_) Hw)
    as (vs & Hc & Hlen & Hf).
  { by apply Forall_drop. }
  { rewrite Z2Nat.id by lia. unfold zlen in *. cbn [contents is_]. rewrite length_drop. lia. }
  assert (Hst : stores is_ vs) by (unfold stores, zlen; rewrite Hlen; split_and!; [done|lia|done..]).
  assert (Hne : vs <> []) by (intros ->; change (length (@nil Z)) with 0%nat in Hlen; lia).
  destruct deep; cbn [negb].
  2: { exists true. split; [done|]. intros _. exists is_, vs. done. }
  destruct vs as [|x vs]; [done|].
  pose proof (get_stores is_ _ 0 x Hst eq_refl) as Hg. change (Z.of_nat 0) with 0 in Hg.
  rewrite Hg. cbn [mbind res_bind].
  assert (Hz : length_ is_ = zlen (x :: vs)) by apply Hst.
  destruct (validate_order_spec is_ (x :: vs) (S (Z.to_nat (length_ is_))) [] x vs)
    as (r & Hr & Hs); [done|nia|done|unfold zlen in Hz; cbn [length] in Hz; lia|].
  rewrite <- Hz in Hr. exists r. split; [exact Hr|]. intros Ht.
  exists is_, (x :: vs). split; [done|]. split; [done|]. split; [done|]. intros _.
  destruct Hst as (? & ? & ? & ?). constructor; try done. by apply Hs.
Qed.

(** ** Traces of operations *)

Inductive op : Type := Add (v : Z) | Remove (v : Z).

Definition op_value (o : op) : Z := match o with Add v | Remove v => v end.

Definition run_op (junk : nat -> Z) (is_ : intset) (o : op) : res intset :=
  match o with
  | Add v => r ← intsetAdd junk is_ v; Ok (fst r)
  | Remove v => r ← intsetRemove junk is_ v; Ok (fst r)
  end.

Fixpoint run_ops (junk : nat -> Z) (is_ : intset) (os : list op) : res intset :=
  match os with
  | [] => Ok is_
  | o :: os => is_ ← run_op junk is_ o; run_ops junk is_ os
  end.

(** The mathematical set the operations are about. *)
Definition spec_op (s : gset Z) (o : op) : gset Z :=
  match o with Add v => {[v]} ∪ s | Remove v => s ∖ {[v]} end.

Lemma run_ops_spec junk os : forall is_ vs,
  repr is_ vs -> Forall (fun o => is_i64 (op_value o)) os ->
  zlen vs + zlen os <= max_len ->
  exists is' vs', run_ops junk is_ os = Ok is' /\ repr is' vs' /\
    zlen vs' <= zlen vs + zlen os /\
    list_to_set vs' = foldl spec_op (list_to_set vs : gset Z) os.
Proof.
  induction os as [|o os IH]; intros is_ vs Hr Ho Hm.
  { exists is_, vs. zlen_simpl. split_and!; try done. lia. }
  apply Forall_cons_1 in Ho as [Hi Ho]. zlen_simpl. pose proof (zlen_nonneg os).
  assert (exists is1 vs1, run_op junk is_ o = Ok is1 /\ repr is1 vs1 /\
    zlen vs1 <= zlen vs + 1 /\
    list_to_set vs1 = spec_op (list_to_set vs : gset Z) o) as (is1 & vs1 & H1 & Hr1 & Hl1 & Hs1).
  { destruct o as [v|v]; cbn [run_op op_value spec_op] in *.
    - destruct (add_spec junk is_ vs v Hr) as (is' & vs' & -> & Hr' & Hx & Hl); [lia|done|].
      exists is', vs'. split_and!; try done.
      + destruct (bool_decide _); cbn in Hl; lia.
      + apply set_eq. intros x. rewrite elem_of_union, !elem_of_list_to_set, Hx. set_solver.
    - destruct (remove_spec junk is_ vs v Hr) as (is' & vs' & -> & Hr' & Hx & Hl); [lia|done|].
      exists is', vs'. split_and!; try done.
      + destruct (bool_decide _); cbn in Hl; lia.
      + apply set_eq. intros x. rewrite elem_of_difference, !elem_of_list_to_set, Hx. set_solver. }
  destruct (IH is1 vs1 Hr1 Ho ltac:(lia)) as (is2 & vs2 & H2 & Hr2 & Hl2 & Hs2).
  exists is2, vs2. cbn [run_ops foldl]. rewrite H1. cbn [mbind res_bind].
  rewrite <- Hs1. split_and!; try done. lia.
Qed.

Lemma intsetNew_repr : repr intsetNew [].
Proof. constructor; try done; [by left|constructor..]. Qed.

(** ** Properties *)

(** C13. Any sequence of at most 2^29 - 2 additions and removals ([max_len],
    the sizes for which the 32 bit byte count of [intsetMoveTail] is exact;
    beyond them, which the 2^30 entries that t_set.c allows include, the code
    does not keep the set), run on the byte-level
    representation from the empty set, ends without fault in an intset that
    holds exactly the elements of the mathematical set, and [intsetFind]
    answers membership in that set for every 64 bit value. *)
Theorem intset_refines_set (junk : nat -> Z) (os : list op) :
  Forall (fun o => is_i64 (op_value o)) os -> zlen os <= max_len ->
  exists is_, run_ops junk intsetNew os = Ok is_ /\
    intsetLen is_ = Z.of_nat (size (foldl spec_op (∅ : gset Z) os)) /\
    forall v, is_i64 v ->
      intsetFind is_ v = Ok (bool_decide (v ∈ foldl spec_op (∅ : gset Z) os)).
Proof.
  intros Ho Hl. pose proof (zlen_nonneg os).
  destruct (run_ops_spec junk os intsetNew [] intsetNew_repr Ho) as (is_ & vs & H1 & Hr & Hm & Hs).
  { exact Hl. }
  exists is_. change (list_to_set [] : gset Z) with (∅ : gset Z) in Hs. rewrite <- Hs.
  split; [done|]. split.
  - unfold intsetLen. rewrite (repr_len _ _ Hr), size_list_to_set; [done|].
    apply NoDup_ListNoDup. pose proof (repr_sorted _ _ Hr) as Hsort.
    clear -Hsort. induction Hsort as [|x l Hl IH Hx]; constructor; [|done].
    intros Hin. rewrite Forall_forall in Hx. apply list_elem_of_In in Hin.
    specialize (Hx _ Hin). lia.
  - intros v Hv. rewrite (find_spec is_ vs v Hr) by (done || (change (zlen []) with 0 in Hm; lia)).
    f_equal. apply bool_decide_ext. by rewrite elem_of_list_to_set.
Qed.

Lemma intset_refines_set_witness :
  exists is_, run_ops (fun _ => 170) intsetNew [Add 5; Add (-70000); Remove 5] = Ok is_ /\
    intsetLen is_ = Z.of_nat (size (foldl spec_op (∅ : gset Z) [Add 5; Add (-70000); Remove 5])) /\
    forall v, is_i64 v -> intsetFind is_ v =
      Ok (bool_decide (v ∈ foldl spec_op (∅ : gset Z) [Add 5; Add (-70000); Remove 5])).
Proof.
  apply (intset_refines_set (fun _ => 170) [Add 5; Add (-70000); Remove 5]).
  - repeat constructor; vm_compute; discriminate.
  - vm_compute. discriminate.
Defined.

(** C36. On a set of fewer than 2^29 - 2 elements ([max_len]) [intsetAdd] keeps
    the array sorted, widens every stored element when
    the new value needs a larger encoding, reports whether the value was new,
    and stays inside the allocation. *)
Theorem intsetAdd_sorted_insert (junk : nat -> Z) (is_ : intset) (vs : list Z) (value : Z) :
  repr is_ vs -> zlen vs < max_len -> is_i64 value ->
  exists is' vs', intsetAdd junk is_ value = Ok (is', bool_decide (value ∉ vs)) /\
    repr is' vs' /\ (forall x, x ∈ vs' <-> x = value \/ x ∈ vs) /\
    zlen vs' = zlen vs + Z.b2z (bool_decide (value ∉ vs)).
Proof. apply add_spec. Qed.

Lemma intsetAdd_sorted_insert_witness :
  exists is' vs', intsetAdd (fun _ => 0) intsetNew (2 ^ 40) = Ok (is', true) /\
    repr is' vs' /\ (forall x, x ∈ vs' <-> x = 2 ^ 40 \/ x ∈ []) /\ zlen vs' = 0 + 1.
Proof.
  apply (intsetAdd_sorted_insert (fun _ => 0) intsetNew [] (2 ^ 40)).
  - constructor; try done; [by left|constructor..].
  - vm_compute. reflexivity.
  - vm_compute. split; discriminate.
Defined.

(** C37. [intsetValidateIntegrity] reads no byte outside an arbitrary untrusted
    blob (of at most 2^32 bytes), always answers, and a deep acceptance means
    the blob is a nonempty, strictly sorted intset on which every other
    operation is defined. *)
Theorem intsetValidateIntegrity_sound (p : bytes) (deep : bool) :
  wf_bytes p -> zlen p <= 2 ^ 32 ->
  exists r, intsetValidateIntegrity p (zlen p) deep = Ok r /\
    (r = true -> exists is_ vs, intset_of_blob p = Ok is_ /\ stores is_ vs /\ vs <> [] /\
       (deep = true -> repr is_ vs)).
Proof. apply validate_spec. Qed.

Lemma intsetValidateIntegrity_sound_witness :
  exists r, intsetValidateIntegrity [2;0;0;0; 1;0;0;0; 5;0] 10 true = Ok r /\
    (r = true -> exists is_ vs, intset_of_blob [2;0;0;0; 1;0;0;0; 5;0] = Ok is_ /\
       stores is_ vs /\ vs <> [] /\ (true = true -> repr is_ vs)).
Proof.
  apply (intsetValidateIntegrity_sound [2;0;0;0; 1;0;0;0; 5;0] true).
  - unfold wf_bytes. repeat constructor; unfold is_byte; lia.
  - vm_compute. discriminate.
Defined.

End Intset.
