(* ===== verification/ListpackEnc.v ===== *)
(** * Listpack entries (listpack.c, entry encoding).

    The byte format of one listpack entry, from
    src/.local/redis/redis-7.4.2/src/listpack.c: the integer encodings, the
    string headers, the reverse-readable length that closes each entry
    ([lpEncodeBacklen], [lpDecodeBacklen]), the size computations
    ([lpCurrentEncodedSizeUnsafe], [lpCurrentEncodedSizeBytes]) and the reader
    [lpGetWithSize].  A pointer into a listpack is an offset into its buffer.

    The theory relates them to [elem]: [data e] is the encoding of an element
    and [entry e] adds the back length.  Every reader applied to an encoded
    element gives the element back and touches only its own bytes. *)

From S2P Require Import Prelude Util.
#[local] Open Scope Z_scope.

Module LP.

Definition LP_HDR_SIZE : Z := 6.
Definition LP_HDR_NUMELE_UNKNOWN : Z := UINT16_MAX.
Definition LP_EOF : Z := 0xFF.
Definition LP_INTBUF_SIZE : Z := 21.

Definition LP_ENCODING_IS_7BIT_UINT (b : Z) : bool := Z.land b 0x80 =? 0.
Definition LP_ENCODING_IS_6BIT_STR (b : Z) : bool := Z.land b 0xC0 =? 0x80.
Definition LP_ENCODING_IS_13BIT_INT (b : Z) : bool := Z.land b 0xE0 =? 0xC0.
Definition LP_ENCODING_IS_12BIT_STR (b : Z) : bool := Z.land b 0xF0 =? 0xE0.
Definition LP_ENCODING_IS_16BIT_INT (b : Z) : bool := Z.land b 0xFF =? 0xF1.
Definition LP_ENCODING_IS_24BIT_INT (b : Z) : bool := Z.land b 0xFF =? 0xF2.
Definition LP_ENCODING_IS_32BIT_INT (b : Z) : bool := Z.land b 0xFF =? 0xF3.
Definition LP_ENCODING_IS_64BIT_INT (b : Z) : bool := Z.land b 0xFF =? 0xF4.
Definition LP_ENCODING_IS_32BIT_STR (b : Z) : bool := Z.land b 0xFF =? 0xF0.

Definition LP_ENCODING_6BIT_STR_LEN (lp : bytes) (p : Z) : res Z :=
  b0 ← rd lp p; Ok (Z.land b0 0x3F).

Definition LP_ENCODING_12BIT_STR_LEN (lp : bytes) (p : Z) : res Z :=
  b0 ← rd lp p; b1 ← rd lp (p + 1);
  Ok (Z.lor (Z.shiftl (Z.land b0 0xF) 8) b1).

Definition LP_ENCODING_32BIT_STR_LEN (lp : bytes) (p : Z) : res Z :=
  b1 ← rd lp (p + 1); b2 ← rd lp (p + 2); b3 ← rd lp (p + 3); b4 ← rd lp (p + 4);
  Ok (Z.lor (Z.lor (Z.lor b1 (Z.shiftl b2 8)) (Z.shiftl b3 16)) (Z.shiftl b4 24)).

(** [lpEncodeIntegerGetType]: the bytes stored in [intenc], and [*enclen]. *)
Definition lpEncodeIntegerGetType (v : Z) : bytes * Z :=
  if (0 <=? v) && (v <=? 127) then ([u8 v], 1)
  else if (-4096 <=? v) && (v <=? 4095) then
    let v := if v <? 0 then Z.shiftl 1 13 + v else v in
    ([u8 (Z.lor (Z.shiftr v 8) 0xC0); u8 (Z.land v 0xff)], 2)
  else if (-32768 <=? v) && (v <=? 32767) then
    let v := if v <? 0 then Z.shiftl 1 16 + v else v in
    ([0xF1; u8 (Z.land v 0xff); u8 (Z.shiftr v 8)], 3)
  else if (-8388608 <=? v) && (v <=? 8388607) then
    let v := if v <? 0 then Z.shiftl 1 24 + v else v in
    ([0xF2; u8 (Z.land v 0xff); u8 (Z.land (Z.shiftr v 8) 0xff); u8 (Z.shiftr v 16)], 4)
  else if (-2147483648 <=? v) && (v <=? 2147483647) then
    let v := if v <? 0 then Z.shiftl 1 32 + v else v in
    ([0xF3; u8 (Z.land v 0xff); u8 (Z.land (Z.shiftr v 8) 0xff);
      u8 (Z.land (Z.shiftr v 16) 0xff); u8 (Z.shiftr v 24)], 5)
  else
    let uv := u64 v in
    ([0xF4; u8 (Z.land uv 0xff); u8 (Z.land (Z.shiftr uv 8) 0xff);
      u8 (Z.land (Z.shiftr uv 16) 0xff); u8 (Z.land (Z.shiftr uv 24) 0xff);
      u8 (Z.land (Z.shiftr uv 32) 0xff); u8 (Z.land (Z.shiftr uv 40) 0xff);
      u8 (Z.land (Z.shiftr uv 48) 0xff); u8 (Z.shiftr uv 56)], 9).

(** [lpStringToInt64]: the listpack library's own copy of [string2ll]. *)
Fixpoint lpStringToInt64_loop (fuel : nat) (s : bytes) (slen plen v : Z)
  : res (option (Z * Z)) :=
  match fuel with
  | O => Fault OutOfFuel
  | S fuel =>
    if plen <? slen then
      c ← rd s plen;
      if Util.is_digit c then
        if UINT64_MAX / 10 <? v then Ok None else
        let v := u64 (v * 10) in
        if UINT64_MAX - (c - 48) <? v then Ok None else
        let v := u64 (v + (c - 48)) in
        lpStringToInt64_loop fuel s slen (plen + 1) v
      else Ok (Some (plen, v))
    else Ok (Some (plen, v))
  end.

Definition lpStringToInt64 (s : bytes) (slen : Z) : res (option Z) :=
  if (slen =? 0) || (Util.LONG_STR_SIZE <=? slen) then Ok None else
  c0 ← rd s 0;
  if (slen =? 1) && (c0 =? 48) then Ok (Some 0) else
  let negative := c0 =? 45 in
  let plen := if negative then 1 else 0 in
  if negative && (plen =? slen) then Ok None else
  c ← rd s plen;
  if (49 <=? c) && (c <=? 57) then
    r ← lpStringToInt64_loop (Z.to_nat slen + 1) s slen (plen + 1) (c - 48);
    match r with
    | None => Ok None
    | Some (plen, v) =>
      if plen <? slen then Ok None else
      if negative then
        if u64 (- (INT64_MIN + 1)) + 1 <? v then Ok None
        else Ok (Some (i64 (u64 (- v))))
      else
        if INT64_MAX <? v then Ok None else Ok (Some (i64 v))
    end
  else Ok None.

Inductive enctype : Type := LP_ENCODING_INT | LP_ENCODING_STRING.

(** [lpEncodeGetType]: the return value, [intenc] and [*enclen]. *)
Definition lpEncodeGetType (ele : bytes) (size : Z) : res (enctype * bytes * Z) :=
  r ← lpStringToInt64 ele size;
  match r with
  | Some v =>
    let '(intenc, enclen) := lpEncodeIntegerGetType v in
    Ok (LP_ENCODING_INT, intenc, enclen)
  | None =>
    Ok (LP_ENCODING_STRING, [],
        if size <? 64 then u32 (1 + size)
        else if size <? 4096 then u32 (2 + size)
        else u64 (5 + size))
  end.

(** [lpEncodeBacklen]: the bytes stored in [buf], and the number of them. *)
Definition lpEncodeBacklen (l : Z) : bytes * Z :=
  if l <=? 127 then ([u8 l], 1)
  else if l <? 16383 then
    ([u8 (Z.shiftr l 7); u8 (Z.lor (Z.land l 127) 128)], 2)
  else if l <? 2097151 then
    ([u8 (Z.shiftr l 14); u8 (Z.lor (Z.land (Z.shiftr l 7) 127) 128);
      u8 (Z.lor (Z.land l 127) 128)], 3)
  else if l <? 268435455 then
    ([u8 (Z.shiftr l 21); u8 (Z.lor (Z.land (Z.shiftr l 14) 127) 128);
      u8 (Z.lor (Z.land (Z.shiftr l 7) 127) 128); u8 (Z.lor (Z.land l 127) 128)], 4)
  else
    ([u8 (Z.shiftr l 28); u8 (Z.lor (Z.land (Z.shiftr l 21) 127) 128);
      u8 (Z.lor (Z.land (Z.shiftr l 14) 127) 128);
      u8 (Z.lor (Z.land (Z.shiftr l 7) 127) 128); u8 (Z.lor (Z.land l 127) 128)], 5).

(** [lpDecodeBacklen]: reads from [p] towards the front; five bytes at most. *)
Fixpoint lpDecodeBacklen_loop (fuel : nat) (lp : bytes) (p val shift : Z) : res Z :=
  match fuel with
  | O => Fault OutOfFuel
  | S fuel =>
    b ← rd lp p;
    let val := Z.lor val (u64 (Z.shiftl (Z.land b 127) shift)) in
    if Z.land b 128 =? 0 then Ok val else
    let shift := shift + 7 in
    if 28 <? shift then Ok UINT64_MAX
    else lpDecodeBacklen_loop fuel lp (p - 1) val shift
  end.

Definition lpDecodeBacklen (lp : bytes) (p : Z) : res Z :=
  lpDecodeBacklen_loop 6 lp p 0 0.

(** [lpEncodeString(buf, s, len)] with [buf] at offset [dst] of [lp]. *)
Definition lpEncodeString (lp : bytes) (dst : Z) (s : bytes) (len : Z) : res bytes :=
  if len <? 64 then
    lp ← wr lp dst (Z.lor len 0x80);
    src ← rdn s 0 len; wrn lp (dst + 1) src
  else if len <? 4096 then
    lp ← wr lp dst (Z.lor (Z.shiftr len 8) 0xE0);
    lp ← wr lp (dst + 1) (Z.land len 0xff);
    src ← rdn s 0 len; wrn lp (dst + 2) src
  else
    lp ← wr lp dst 0xF0;
    lp ← wr lp (dst + 1) (Z.land len 0xff);
    lp ← wr lp (dst + 2) (Z.land (Z.shiftr len 8) 0xff);
    lp ← wr lp (dst + 3) (Z.land (Z.shiftr len 16) 0xff);
    lp ← wr lp (dst + 4) (Z.land (Z.shiftr len 24) 0xff);
    src ← rdn s 0 len; wrn lp (dst + 5) src.

(** The encoded length, a [uint32_t]: a corrupt 32 bit length can wrap. *)
Definition lpCurrentEncodedSizeUnsafe (lp : bytes) (p : Z) : res Z :=
  b ← rd lp p;
  if LP_ENCODING_IS_7BIT_UINT b then Ok 1 else
  if LP_ENCODING_IS_6BIT_STR b then n ← LP_ENCODING_6BIT_STR_LEN lp p; Ok (u32 (1 + n)) else
  if LP_ENCODING_IS_13BIT_INT b then Ok 2 else
  if LP_ENCODING_IS_16BIT_INT b then Ok 3 else
  if LP_ENCODING_IS_24BIT_INT b then Ok 4 else
  if LP_ENCODING_IS_32BIT_INT b then Ok 5 else
  if LP_ENCODING_IS_64BIT_INT b then Ok 9 else
  if LP_ENCODING_IS_12BIT_STR b then n ← LP_ENCODING_12BIT_STR_LEN lp p; Ok (u32 (2 + n)) else
  if LP_ENCODING_IS_32BIT_STR b then n ← LP_ENCODING_32BIT_STR_LEN lp p; Ok (u32 (5 + n)) else
  if b =? LP_EOF then Ok 1 else Ok 0.

Definition lpCurrentEncodedSizeBytes (lp : bytes) (p : Z) : res Z :=
  b ← rd lp p;
  if LP_ENCODING_IS_7BIT_UINT b then Ok 1 else
  if LP_ENCODING_IS_6BIT_STR b then Ok 1 else
  if LP_ENCODING_IS_13BIT_INT b then Ok 1 else
  if LP_ENCODING_IS_16BIT_INT b then Ok 1 else
  if LP_ENCODING_IS_24BIT_INT b then Ok 1 else
  if LP_ENCODING_IS_32BIT_INT b then Ok 1 else
  if LP_ENCODING_IS_64BIT_INT b then Ok 1 else
  if LP_ENCODING_IS_12BIT_STR b then Ok 2 else
  if LP_ENCODING_IS_32BIT_STR b then Ok 5 else
  if b =? LP_EOF then Ok 1 else Ok 0.

Definition lpSkip (lp : bytes) (p : Z) : res Z :=
  entrylen ← lpCurrentEncodedSizeUnsafe lp p;
  let entrylen := u64 (entrylen + snd (lpEncodeBacklen entrylen)) in
  Ok (p + entrylen).

(** ** Reading an entry *)

(** The three ways [lpGetWithSize] returns an element: a pointer into the
    listpack with [*count] the length, the caller's [intbuf] with [*count] the
    length of the text in it, or NULL with [*count] the integer. *)
Inductive lpvalue : Type :=
| LpPtr (p count : Z)
| LpIntbuf (intbuf : bytes) (count : Z)
| LpNull (count : Z).

(** Two's complement conversion shared by the integer encodings. *)
Definition lpSigned (uval negstart negmax : Z) : Z :=
  if negstart <=? uval then i64 (- i64 (u64 (negmax - uval)) - 1) else i64 uval.

(** The reader.  [intbuf] is the caller's buffer, if any; [entry_size] is the
    value of [*entry_size] before the call, kept on an unknown encoding. *)
Definition lpGetWithSize (lp : bytes) (p : Z) (intbuf : option bytes) (entry_size : Z)
  : res (lpvalue * Z) :=
  let finish (uval negstart negmax es : Z) : res (lpvalue * Z) :=
    let val := lpSigned uval negstart negmax in
    match intbuf with
    | Some buf =>
      r ← Util.ll2string buf 0 LP_INTBUF_SIZE val;
      Ok (LpIntbuf (fst r) (snd r), es)
    | None => Ok (LpNull val, es)
    end in
  b ← rd lp p;
  if LP_ENCODING_IS_7BIT_UINT b then finish (Z.land b 0x7f) UINT64_MAX 0 2
  else if LP_ENCODING_IS_6BIT_STR b then
    count ← LP_ENCODING_6BIT_STR_LEN lp p;
    Ok (LpPtr (p + 1) count, u64 (1 + count + snd (lpEncodeBacklen (count + 1))))
  else if LP_ENCODING_IS_13BIT_INT b then
    b1 ← rd lp (p + 1);
    finish (Z.lor (Z.shiftl (Z.land b 0x1f) 8) b1) (Z.shiftl 1 12) 8191 3
  else if LP_ENCODING_IS_16BIT_INT b then
    b1 ← rd lp (p + 1); b2 ← rd lp (p + 2);
    finish (Z.lor b1 (Z.shiftl b2 8)) (Z.shiftl 1 15) UINT16_MAX 4
  else if LP_ENCODING_IS_24BIT_INT b then
    b1 ← rd lp (p + 1); b2 ← rd lp (p + 2); b3 ← rd lp (p + 3);
    finish (Z.lor (Z.lor b1 (Z.shiftl b2 8)) (Z.shiftl b3 16))
           (Z.shiftl 1 23) (Z.shiftr UINT32_MAX 8) 5
  else if LP_ENCODING_IS_32BIT_INT b then
    b1 ← rd lp (p + 1); b2 ← rd lp (p + 2); b3 ← rd lp (p + 3); b4 ← rd lp (p + 4);
    finish (Z.lor (Z.lor (Z.lor b1 (Z.shiftl b2 8)) (Z.shiftl b3 16)) (Z.shiftl b4 24))
           (Z.shiftl 1 31) UINT32_MAX 6
  else if LP_ENCODING_IS_64BIT_INT b then
    b1 ← rd lp (p + 1); b2 ← rd lp (p + 2); b3 ← rd lp (p + 3); b4 ← rd lp (p + 4);
    b5 ← rd lp (p + 5); b6 ← rd lp (p + 6); b7 ← rd lp (p + 7); b8 ← rd lp (p + 8);
    finish (Z.lor (Z.lor (Z.lor (Z.lor (Z.lor (Z.lor (Z.lor b1 (Z.shiftl b2 8))
             (Z.shiftl b3 16)) (Z.shiftl b4 24)) (Z.shiftl b5 32)) (Z.shiftl b6 40))
             (Z.shiftl b7 48)) (Z.shiftl b8 56))
           (Z.shiftl 1 63) UINT64_MAX 10
  else if LP_ENCODING_IS_12BIT_STR b then
    count ← LP_ENCODING_12BIT_STR_LEN lp p;
    Ok (LpPtr (p + 2) count, u64 (2 + count + snd (lpEncodeBacklen (count + 2))))
  else if LP_ENCODING_IS_32BIT_STR b then
    count ← LP_ENCODING_32BIT_STR_LEN lp p;
    Ok (LpPtr (p + 5) count, u64 (5 + count + snd (lpEncodeBacklen (count + 5))))
  else finish (12345678900000000 + b) UINT64_MAX 0 entry_size.

Definition lpGet (lp : bytes) (p : Z) (intbuf : option bytes) : res lpvalue :=
  r ← lpGetWithSize lp p intbuf 0; Ok (fst r).

(** [lpGetValue]: a string ([sval], [slen]) or an integer ([lval]). *)
Definition lpGetValue (lp : bytes) (p : Z) : res (Z * Z + Z) :=
  r ← lpGet lp p None;
  match r with
  | LpPtr q count => Ok (inl (q, u32 count))
  | LpIntbuf _ count => Ok (inr count)
  | LpNull count => Ok (inr count)
  end.

Definition lpGetIntegerValue (lp : bytes) (p : Z) : res (option Z) :=
  r ← lpGet lp p None;
  match r with
  | LpNull count => Ok (Some count)
  | _ => Ok None
  end.

Definition lpEntrySizeInteger (lval : Z) : Z :=
  let enclen := snd (lpEncodeIntegerGetType lval) in
  u64 (enclen + snd (lpEncodeBacklen enclen)).

Definition lpEstimateBytesRepeatedInteger (lval rep : Z) : Z :=
  u64 (LP_HDR_SIZE + lpEntrySizeInteger lval * rep + 1).

(** [lpCompare]: 1 when the entry at [p] holds the string [s]. *)
Definition lpCompare (lp : bytes) (p : Z) (s : bytes) (slen : Z) : res bool :=
  b ← rd lp p;
  if b =? LP_EOF then Ok false else
  r ← lpGet lp p None;
  match r with
  | LpPtr q sz =>
    if slen =? sz then
      x ← rdn lp q slen; y ← rdn s 0 slen; Ok (bool_decide (x = y))
    else Ok false
  | LpNull sz | LpIntbuf _ sz =>
    r ← lpStringToInt64 s slen;
    match r with Some sval => Ok (sz =? sval) | None => Ok false end
  end.

(** * Theory *)

Lemma lpStringToInt64_string2ll s slen : lpStringToInt64 s slen = Util.string2ll s slen.
Proof.
  unfold lpStringToInt64, Util.string2ll. rewrite (Z.eqb_sym 0 slen).
  destruct (_ || _); [done|]. destruct (rd s 0) as [c0|]; [|done]. cbn [mbind res_bind].
  destruct (_ && _); [done|]. destruct (c0 =? 45); cbn [andb]; [|done].
  destruct (1 =? slen); done.
Qed.

(** ** Encoding classes *)

Lemma class_7bit b : 0 <= b < 128 -> LP_ENCODING_IS_7BIT_UINT b = true.
Proof.
  intros Hb. pose proof (byte_forall (fun b => implb (b <? 128) (LP_ENCODING_IS_7BIT_UINT b))
    ltac:(vm_compute; reflexivity) b ltac:(unfold is_byte; lia)) as H. cbv beta in H.
  rewrite (proj2 (Z.ltb_lt b 128)) in H by lia. done.
Qed.

Lemma class_6bit b :
  128 <= b < 192 -> LP_ENCODING_IS_7BIT_UINT b = false /\ LP_ENCODING_IS_6BIT_STR b = true /\
  Z.land b 0x3F = b - 128.
Proof.
  intros Hb. pose proof (byte_forall (fun b => implb ((128 <=? b) && (b <? 192))
    (negb (LP_ENCODING_IS_7BIT_UINT b) && LP_ENCODING_IS_6BIT_STR b && (Z.land b 0x3F =? b - 128)))
    ltac:(vm_compute; reflexivity) b ltac:(unfold is_byte; lia)) as H. cbv beta in H.
  rewrite (proj2 (Z.leb_le 128 b)), (proj2 (Z.ltb_lt b 192)) in H by lia.
  cbn [andb implb] in H. apply andb_true_iff in H as [[?%negb_true_iff ?]%andb_true_iff ?%Z.eqb_eq]. done.
Qed.

Lemma class_13bit b :
  192 <= b < 224 -> LP_ENCODING_IS_7BIT_UINT b = false /\ LP_ENCODING_IS_6BIT_STR b = false /\
  LP_ENCODING_IS_13BIT_INT b = true /\ Z.land b 0x1f = b - 192.
Proof.
  intros Hb. pose proof (byte_forall (fun b => implb ((192 <=? b) && (b <? 224))
    (negb (LP_ENCODING_IS_7BIT_UINT b) && negb (LP_ENCODING_IS_6BIT_STR b)
     && LP_ENCODING_IS_13BIT_INT b && (Z.land b 0x1f =? b - 192)))
    ltac:(vm_compute; reflexivity) b ltac:(unfold is_byte; lia)) as H. cbv beta in H.
  rewrite (proj2 (Z.leb_le 192 b)), (proj2 (Z.ltb_lt b 224)) in H by lia.
  cbn [andb implb] in H.
  apply andb_true_iff in H as [[[?%negb_true_iff ?%negb_true_iff]%andb_true_iff ?]%andb_true_iff ?%Z.eqb_eq].
  done.
Qed.

Lemma class_12bit b :
  224 <= b < 240 -> LP_ENCODING_IS_7BIT_UINT b = false /\ LP_ENCODING_IS_6BIT_STR b = false /\
  LP_ENCODING_IS_13BIT_INT b = false /\ LP_ENCODING_IS_16BIT_INT b = false /\
  LP_ENCODING_IS_24BIT_INT b = false /\ LP_ENCODING_IS_32BIT_INT b = false /\
  LP_ENCODING_IS_64BIT_INT b = false /\ LP_ENCODING_IS_12BIT_STR b = true /\
  Z.land b 0xF = b - 224.
Proof.
  intros Hb. pose proof (byte_forall (fun b => implb ((224 <=? b) && (b <? 240))
    (negb (LP_ENCODING_IS_7BIT_UINT b || LP_ENCODING_IS_6BIT_STR b
     || LP_ENCODING_IS_13BIT_INT b || LP_ENCODING_IS_16BIT_INT b || LP_ENCODING_IS_24BIT_INT b
     || LP_ENCODING_IS_32BIT_INT b || LP_ENCODING_IS_64BIT_INT b)
     && LP_ENCODING_IS_12BIT_STR b && (Z.land b 0xF =? b - 224)))
    ltac:(vm_compute; reflexivity) b ltac:(unfold is_byte; lia)) as H. cbv beta in H.
  rewrite (proj2 (Z.leb_le 224 b)), (proj2 (Z.ltb_lt b 240)) in H by lia.
  cbn [andb implb] in H.
  apply andb_true_iff in H as [[H%negb_true_iff ?]%andb_true_iff ?%Z.eqb_eq].
  repeat (apply orb_false_iff in H as [H ?]). done.
Qed.

(** ** The back length *)

(** A continuation byte carries seven bits and the mark. *)
Lemma cont_byte x : u8 (Z.lor (Z.land x 127) 128) = 128 + x mod 128.
Proof.
  change 127 with (2 ^ 7 - 1) at 1. rewrite land_ones_mod by lia.
  change 128 with (Z.shiftl 1 7) at 1. pose proof (Z.mod_pos_bound x (2 ^ 7) ltac:(lia)).
  rewrite lor_add_shiftl by lia. change (2 ^ 7) with 128 in *.
  rewrite u8_small; unfold is_byte; lia.
Qed.

Lemma land_128_cont x : 0 <= x < 128 -> Z.land (128 + x) 127 = x /\ (Z.land (128 + x) 128 =? 0) = false.
Proof.
  intros Hx. pose proof (byte_forall (fun b => implb (128 <=? b)
    ((Z.land b 127 =? b - 128) && negb (Z.land b 128 =? 0)))
    ltac:(vm_compute; reflexivity) (128 + x) ltac:(unfold is_byte; lia)) as H. cbv beta in H.
  rewrite (proj2 (Z.leb_le 128 (128 + x))) in H by lia. cbn [implb] in H.
  apply andb_true_iff in H as [?%Z.eqb_eq ?%negb_true_iff]. split; [lia|done].
Qed.

Lemma land_128_last x : 0 <= x < 128 -> Z.land x 127 = x /\ (Z.land x 128 =? 0) = true.
Proof.
  intros Hx. pose proof (byte_forall (fun b => implb (b <? 128)
    ((Z.land b 127 =? b) && (Z.land b 128 =? 0)))
    ltac:(vm_compute; reflexivity) x ltac:(unfold is_byte; lia)) as H. cbv beta in H.
  rewrite (proj2 (Z.ltb_lt x 128)) in H by lia. cbn [implb] in H.
  apply andb_true_iff in H as [?%Z.eqb_eq ?]. done.
Qed.

(** One round of the decoder: a marked byte and the final byte. *)
Lemma decode_more fuel lp p val shift x :
  rd lp p = Ok (128 + x) -> 0 <= x < 128 -> 0 <= val < 2 ^ shift -> 0 <= shift <= 21 ->
  lpDecodeBacklen_loop (S fuel) lp p val shift
  = lpDecodeBacklen_loop fuel lp (p - 1) (val + x * 2 ^ shift) (shift + 7).
Proof.
  intros Hr Hx Hv Hs. cbn [lpDecodeBacklen_loop]. rewrite Hr. cbn [mbind res_bind].
  destruct (land_128_cont x Hx) as [-> ->].
  rewrite (proj2 (Z.ltb_ge 28 _)) by lia.
  assert (x * 2 ^ shift < 2 ^ 64).
  { assert (2 ^ shift <= 2 ^ 21) by (apply Z.pow_le_mono_r; lia). nia. }
  rewrite (wrapu_small 64), lor_add_shiftl; [done|lia..|].
  rewrite Z.shiftl_mul_pow2 by lia. nia.
Qed.

Lemma decode_last fuel lp p val shift x :
  rd lp p = Ok x -> 0 <= x < 128 -> 0 <= val < 2 ^ shift -> 0 <= shift <= 28 ->
  lpDecodeBacklen_loop (S fuel) lp p val shift = Ok (val + x * 2 ^ shift).
Proof.
  intros Hr Hx Hv Hs. cbn [lpDecodeBacklen_loop]. rewrite Hr. cbn [mbind res_bind].
  destruct (land_128_last x Hx) as [-> ->].
  assert (x * 2 ^ shift < 2 ^ 64).
  { assert (2 ^ shift <= 2 ^ 28) by (apply Z.pow_le_mono_r; lia). nia. }
  rewrite (wrapu_small 64), lor_add_shiftl; [done|lia..|].
  rewrite Z.shiftl_mul_pow2 by lia. nia.
Qed.

Definition backlen (l : Z) : bytes := fst (lpEncodeBacklen l).
Definition backlen_size (l : Z) : Z := snd (lpEncodeBacklen l).

Lemma zlen_backlen l : zlen (backlen l) = backlen_size l.
Proof. unfold backlen, backlen_size, lpEncodeBacklen. repeat case_match; done. Qed.

Lemma backlen_size_range l : 1 <= backlen_size l <= 5.
Proof. unfold backlen_size, lpEncodeBacklen. repeat case_match; cbn; lia. Qed.

Lemma wf_backlen l : wf_bytes (backlen l).
Proof.
  unfold backlen, lpEncodeBacklen. unfold wf_bytes.
  repeat case_match; cbn [fst]; repeat constructor; apply u8_byte.
Qed.
#[export] Hint Resolve wf_backlen : redis.

(** The last byte of a list read through its prefix. *)
Lemma rd_last pre b post i x :
  b !! i = Some x -> rd (pre ++ b ++ post) (zlen pre + Z.of_nat i) = Ok x.
Proof.
  intros Hx. rewrite rd_app_off by lia. apply rd_lookup; [lia|].
  rewrite Nat2Z.id. by apply lookup_app_l_Some.
Qed.

Lemma decode_backlen pre l post :
  0 <= l < 2 ^ 35 ->
  lpDecodeBacklen (pre ++ backlen l ++ post) (zlen pre + backlen_size l - 1) = Ok l.
Proof.
  intros Hl. unfold lpDecodeBacklen, backlen_size, backlen, lpEncodeBacklen.
  assert (Hm : forall k, 0 <= k -> 0 <= (l / 2 ^ k) mod 128 < 128)
    by (intros; apply Z.mod_pos_bound; lia).
  pose proof (Hm 0 ltac:(lia)) as Hm0. rewrite Z.div_1_r in Hm0.
  pose proof (Hm 7 ltac:(lia)). pose proof (Hm 14 ltac:(lia)).
  pose proof (Hm 21 ltac:(lia)). clear Hm.
  repeat match goal with |- context [?a <=? ?b] => destruct (Z.leb_spec a b)
    | |- context [?a <? ?b] => destruct (Z.ltb_spec a b) end; cbn [fst snd];
    rewrite ?cont_byte, ?Z.shiftr_div_pow2 by lia;
    match goal with |- context [u8 ?x] =>
      assert (0 <= x < 128) by (Z.div_mod_to_equations; lia);
      rewrite (u8_small x) by (unfold is_byte; lia) end;
    match goal with |- context [zlen pre + ?n - 1] =>
      replace (zlen pre + n - 1) with (zlen pre + Z.of_nat (Z.to_nat (n - 1))) by lia;
      let k := eval vm_compute in (Z.to_nat (n - 1)) in change (Z.to_nat (n - 1)) with k end;
    repeat (erewrite decode_more; [|by apply rd_last|lia..];
      match goal with |- context [zlen pre + Z.of_nat (S ?i) - 1] =>
        replace (zlen pre + Z.of_nat (S i) - 1) with (zlen pre + Z.of_nat i) by lia end);
    (erewrite decode_last; [|by apply rd_last|lia..]); f_equal;
    Z.div_mod_to_equations; lia.
Qed.

(** ** Elements *)

Inductive elem : Type := EInt (v : Z) | EStr (s : bytes).

Definition strhdr (n : Z) : bytes :=
  if n <? 64 then [128 + n]
  else if n <? 4096 then [224 + n / 256; n mod 256]
  else 0xF0 :: le_bytes 4 n.

Definition data (e : elem) : bytes :=
  match e with
  | EInt v => fst (lpEncodeIntegerGetType v)
  | EStr s => strhdr (zlen s) ++ s
  end.

Definition entry (e : elem) : bytes := data e ++ backlen (zlen (data e)).

Definition elem_ok (e : elem) : Prop :=
  match e with
  | EInt v => is_i64 v
  | EStr s => wf_bytes s /\ zlen s < 2 ^ 32 - 5
  end.

(** The integer encodings in arithmetic form. *)
Definition intdata (v : Z) : bytes :=
  if (0 <=? v) && (v <=? 127) then [v]
  else if (-4096 <=? v) && (v <=? 4095) then [192 + (v mod 8192) / 256; v mod 256]
  else if (-32768 <=? v) && (v <=? 32767) then 0xF1 :: le_bytes 2 v
  else if (-8388608 <=? v) && (v <=? 8388607) then 0xF2 :: le_bytes 3 v
  else if (-2147483648 <=? v) && (v <=? 2147483647) then 0xF3 :: le_bytes 4 v
  else 0xF4 :: le_bytes 8 v.

Lemma le_bytes_bytes n x k :
  le_bytes (S n) (x / 2 ^ (8 * k)) =
  (x / 2 ^ (8 * k)) mod 256 :: le_bytes n (x / 2 ^ (8 * k) / 256).
Proof. done. Qed.

Lemma div_256_pow x k : 0 <= k -> x / 2 ^ k / 256 = x / 2 ^ (k + 8).
Proof. intros. rewrite Z.div_div, Z.pow_add_r by lia. done. Qed.

Lemma le_bytes_wrap n v c : le_bytes n (c * 2 ^ (8 * Z.of_nat n) + v) = le_bytes n v.
Proof.
  revert v c. induction n as [|n IH]; intros v c; [done|]. cbn [le_bytes].
  replace (8 * Z.of_nat (S n)) with (8 * Z.of_nat n + 8) by lia.
  rewrite Z.pow_add_r by lia. change (2 ^ 8) with 256.
  replace (c * (2 ^ (8 * Z.of_nat n) * 256) + v)
    with (v + (c * 2 ^ (8 * Z.of_nat n)) * 256) by lia.
  rewrite Z.mod_add, Z.div_add by lia. f_equal. rewrite Z.add_comm. apply IH.
Qed.

Lemma intdata_spec v :
  is_i64 v -> fst (lpEncodeIntegerGetType v) = intdata v /\
              snd (lpEncodeIntegerGetType v) = zlen (intdata v).
Proof.
  unfold is_i64, INT64_MIN, INT64_MAX. intros Hv. unfold lpEncodeIntegerGetType, intdata.
  destruct ((0 <=? v) && (v <=? 127)) eqn:E1.
  { apply andb_true_iff in E1 as [?%Z.leb_le ?%Z.leb_le].
    cbn [fst snd]. rewrite u8_small by (unfold is_byte; lia). done. }
  destruct ((-4096 <=? v) && (v <=? 4095)) eqn:E2.
  { apply andb_true_iff in E2 as [?%Z.leb_le ?%Z.leb_le]. cbn [fst snd].
    change (Z.shiftl 1 13) with 8192. rewrite byte_at_0.
    set (w := if v <? 0 then 8192 + v else v).
    assert (Hw : w = v mod 8192)
      by (unfold w; destruct (Z.ltb_spec v 0); Z.div_mod_to_equations; lia).
    rewrite Hw. pose proof (Z.mod_pos_bound v 8192 ltac:(lia)).
    rewrite Z.shiftr_div_pow2 by lia. change (2 ^ 8) with 256.
    assert (0 <= v mod 8192 / 256 < 32) by (Z.div_mod_to_equations; lia).
    change 0xC0 with (Z.shiftl 6 5). rewrite lor_add_shiftl by lia.
    rewrite u8_small by (unfold is_byte; lia). split; [|done].
    change (Z.shiftl 6 5) with 192. f_equal; [lia|]. f_equal. Z.div_mod_to_equations; lia. }
  assert (Hb : forall n k, le_bytes n (if v <? 0 then Z.shiftl 1 k + v else v) = le_bytes n v
     \/ k <> 8 * Z.of_nat n).
  { intros n k. destruct (decide (k = 8 * Z.of_nat n)) as [->|]; [left|by right].
    destruct (v <? 0); [|done]. rewrite Z.shiftl_mul_pow2 by lia. apply le_bytes_wrap. }
  repeat match goal with |- context [if ?c then _ else _] =>
    match c with _ && _ => destruct c end end; cbn [fst snd];
  rewrite ?byte_at_land, ?byte_at_shiftr, ?byte_at_0 by lia.
  - destruct (Hb 2%nat 16) as [<-|]; [|lia]. done.
  - destruct (Hb 3%nat 24) as [<-|]; [|lia]. cbn [le_bytes].
    rewrite !Z.div_div by lia. done.
  - destruct (Hb 4%nat 32) as [<-|]; [|lia]. cbn [le_bytes].
    rewrite !Z.div_div by lia. done.
  - assert (le_bytes 8 (u64 v) = le_bytes 8 v) as <-.
    { unfold wrapu. rewrite Z.mod_eq by lia.
      replace (v - 2 ^ 64 * (v / 2 ^ 64)) with (- (v / 2 ^ 64) * 2 ^ (8 * Z.of_nat 8) + v)
        by (change (8 * Z.of_nat 8) with 64; lia).
      apply le_bytes_wrap. }
    cbn [le_bytes]. rewrite !Z.div_div by lia. done.
Qed.

(** The forms the data of an integer can take. *)
Inductive int_form (v : Z) : bytes -> Prop :=
| form7 : 0 <= v <= 127 -> int_form v [v]
| form13 h : 0 <= h < 32 -> -4096 <= v <= 4095 -> h = (v mod 8192) / 256 ->
    int_form v [192 + h; v mod 256]
| form16 : -32768 <= v <= 32767 -> int_form v (0xF1 :: le_bytes 2 v)
| form24 : -8388608 <= v <= 8388607 -> int_form v (0xF2 :: le_bytes 3 v)
| form32 : -2147483648 <= v <= 2147483647 -> int_form v (0xF3 :: le_bytes 4 v)
| form64 : is_i64 v -> int_form v (0xF4 :: le_bytes 8 v).

Lemma data_int_form v : is_i64 v -> int_form v (data (EInt v)).
Proof.
  intros Hv. cbn [data]. rewrite (proj1 (intdata_spec v Hv)). unfold intdata.
  repeat match goal with |- context [if ?c then _ else _] =>
    destruct c eqn:?; [match goal with H : _ && _ = true |- _ =>
      apply andb_true_iff in H as [?%Z.leb_le ?%Z.leb_le] end|] end;
    try (constructor; (done || lia)).
  constructor; [|lia|done].
  pose proof (Z.mod_pos_bound v 8192 ltac:(lia)). Z.div_mod_to_equations; lia.
Qed.

Inductive str_form (s : bytes) : bytes -> Prop :=
| form6 : zlen s < 64 -> str_form s ((128 + zlen s) :: s)
| form12 : 64 <= zlen s < 4096 -> str_form s ((224 + zlen s / 256) :: zlen s mod 256 :: s)
| form32s : 4096 <= zlen s -> str_form s (0xF0 :: le_bytes 4 (zlen s) ++ s).

Lemma data_str_form s : str_form s (data (EStr s)).
Proof.
  cbn [data]. unfold strhdr. destruct (Z.ltb_spec (zlen s) 64); [by constructor|].
  destruct (Z.ltb_spec (zlen s) 4096); by constructor.
Qed.

Lemma wf_data e : elem_ok e -> wf_bytes (data e).
Proof.
  destruct e as [v|s]; cbn [elem_ok].
  - intros Hv. destruct (data_int_form v Hv); repeat constructor; unfold is_byte;
      try apply wf_le_bytes; try (Z.div_mod_to_equations; lia).
  - intros [Hs Hl]. pose proof (zlen_nonneg s). unfold wf_bytes.
    destruct (data_str_form s); repeat (constructor || apply Forall_app); unfold is_byte;
      try apply wf_le_bytes; try done; (Z.div_mod_to_equations; lia).
Qed.
#[export] Hint Resolve wf_data : redis.

Lemma zlen_data e : elem_ok e -> 1 <= zlen (data e) < 2 ^ 32.
Proof.
  destruct e as [v|s]; cbn [elem_ok].
  - intros Hv. destruct (data_int_form v Hv); zlen_simpl; rewrite ?zlen_le_bytes_nat; lia.
  - intros [Hs Hl]. pose proof (zlen_nonneg s).
    destruct (data_str_form s); zlen_simpl; rewrite ?zlen_le_bytes_nat; lia.
Qed.

Lemma data_head e : elem_ok e -> exists b d, data e = b :: d /\ 0 <= b < 0xF5.
Proof.
  destruct e as [v|s]; cbn [elem_ok].
  - intros Hv. destruct (data_int_form v Hv); eexists _, _; (split; [done|lia]).
  - intros [Hs Hl]. pose proof (zlen_nonneg s).
    destruct (data_str_form s); eexists _, _; (split; [done|]); Z.div_mod_to_equations; lia.
Qed.

(** Decide the encoding tests of the byte at hand. *)
Ltac lp_tests :=
  repeat match goal with
  | H : ?t = _ |- context [if ?t then _ else _] => rewrite H; clear H
  end.

Ltac lp_class :=
  match goal with
  | |- context [LP_ENCODING_IS_7BIT_UINT (128 + ?x)] =>
    destruct (class_6bit (128 + x)) as (? & ? & ?); [lia|]; lp_tests
  | |- context [LP_ENCODING_IS_7BIT_UINT (192 + ?x)] =>
    destruct (class_13bit (192 + x)) as (? & ? & ? & ?); [lia|]; lp_tests
  | |- context [LP_ENCODING_IS_7BIT_UINT (224 + ?x)] =>
    destruct (class_12bit (224 + x)) as (? & ? & ? & ? & ? & ? & ? & ? & ?);
      [Z.div_mod_to_equations; lia|]; lp_tests
  | |- context [LP_ENCODING_IS_7BIT_UINT ?x] =>
    first [rewrite (class_7bit x) by lia
          | cbn [LP_ENCODING_IS_7BIT_UINT LP_ENCODING_IS_6BIT_STR LP_ENCODING_IS_13BIT_INT
              LP_ENCODING_IS_12BIT_STR LP_ENCODING_IS_16BIT_INT LP_ENCODING_IS_24BIT_INT
              LP_ENCODING_IS_32BIT_INT LP_ENCODING_IS_64BIT_INT LP_ENCODING_IS_32BIT_STR
              Z.land Pos.land Pos.Ndouble Pos.Nsucc_double Z.of_N Z.eqb Pos.eqb]]
  end.

(** Decide the tests on literal bytes. *)
Ltac lp_known :=
  repeat match goal with
  | |- context [if ?t then _ else _] =>
    let r := eval vm_compute in t in
    lazymatch r with true => idtac | false => idtac end; change t with r; cbv iota
  end.

Lemma lor_le2 b1 b2 :
  wf_bytes [b1; b2] -> Z.lor b1 (Z.shiftl b2 8) = le_val [b1; b2].
Proof.
  intros H. inv H as [|?? ? H']. inv H'. apply (le_lor [b1] b2); try done; [by solve_wf|cbn; lia].
Qed.

Lemma lor_le3 b1 b2 b3 :
  wf_bytes [b1; b2; b3] ->
  Z.lor (Z.lor b1 (Z.shiftl b2 8)) (Z.shiftl b3 16) = le_val [b1; b2; b3].
Proof.
  intros H. pose proof H as H'. unfold wf_bytes in H'. repeat (apply Forall_cons_1 in H' as [? H']). apply (le_lor [b1; b2] b3); try done; [by solve_wf|].
  apply lor_le2. by solve_wf.
Qed.

Lemma lor_le4 b1 b2 b3 b4 :
  wf_bytes [b1; b2; b3; b4] ->
  Z.lor (Z.lor (Z.lor b1 (Z.shiftl b2 8)) (Z.shiftl b3 16)) (Z.shiftl b4 24)
  = le_val [b1; b2; b3; b4].
Proof.
  intros H. pose proof H as H'. unfold wf_bytes in H'. repeat (apply Forall_cons_1 in H' as [? H']). apply (le_lor [b1; b2; b3] b4); try done; [by solve_wf|].
  apply lor_le3. by solve_wf.
Qed.

Lemma lor_le8 b1 b2 b3 b4 b5 b6 b7 b8 :
  wf_bytes [b1; b2; b3; b4; b5; b6; b7; b8] ->
  Z.lor (Z.lor (Z.lor (Z.lor (Z.lor (Z.lor (Z.lor b1 (Z.shiftl b2 8))
    (Z.shiftl b3 16)) (Z.shiftl b4 24)) (Z.shiftl b5 32)) (Z.shiftl b6 40))
    (Z.shiftl b7 48)) (Z.shiftl b8 56) = le_val [b1; b2; b3; b4; b5; b6; b7; b8].
Proof.
  intros H. pose proof H as H'. unfold wf_bytes in H'. repeat (apply Forall_cons_1 in H' as [? H']).
  rewrite lor_le4 by (by solve_wf).
  rewrite (le_lor [b1; b2; b3; b4] b5), (le_lor [b1; b2; b3; b4; b5] b6),
    (le_lor [b1; b2; b3; b4; b5; b6] b7), (le_lor [b1; b2; b3; b4; b5; b6; b7] b8);
    (done || by solve_wf).
Qed.

(** Evaluate the reads of the bytes after [pre]. *)
Ltac lp_reads :=
  rewrite !rd_app_off by lia; cbn [app];
  repeat first
  [ progress change (rd (_ :: ?x :: _) 1) with (Ok x)
  | progress change (rd (_ :: _ :: ?x :: _) 2) with (Ok x)
  | progress change (rd (_ :: _ :: _ :: ?x :: _) 3) with (Ok x)
  | progress change (rd (_ :: _ :: _ :: _ :: ?x :: _) 4) with (Ok x)
  | progress change (rd (_ :: _ :: _ :: _ :: _ :: ?x :: _) 5) with (Ok x)
  | progress change (rd (_ :: _ :: _ :: _ :: _ :: _ :: ?x :: _) 6) with (Ok x)
  | progress change (rd (_ :: _ :: _ :: _ :: _ :: _ :: _ :: ?x :: _) 7) with (Ok x)
  | progress change (rd (_ :: _ :: _ :: _ :: _ :: _ :: _ :: _ :: ?x :: _) 8) with (Ok x) ];
  cbn [mbind res_bind].

Lemma str12_len n pre post :
  64 <= n < 4096 ->
  LP_ENCODING_12BIT_STR_LEN (pre ++ (224 + n / 256) :: n mod 256 :: post) (zlen pre) = Ok n.
Proof.
  intros Hn. unfold LP_ENCODING_12BIT_STR_LEN. rewrite rd_here. cbn [mbind res_bind].
  lp_reads. destruct (class_12bit (224 + n / 256)) as (_ & _ & _ & _ & _ & _ & _ & _ & ->).
  { Z.div_mod_to_equations; lia. }
  rewrite lor_shiftl_add by (Z.div_mod_to_equations; lia).
  f_equal. change (2 ^ 8) with 256. Z.div_mod_to_equations; lia.
Qed.

Lemma str32_len n pre post :
  0 <= n < 2 ^ 32 ->
  LP_ENCODING_32BIT_STR_LEN (pre ++ 0xF0 :: le_bytes 4 n ++ post) (zlen pre) = Ok n.
Proof.
  intros Hn. unfold LP_ENCODING_32BIT_STR_LEN.
  pose proof (wf_le_bytes 4 n) as Hw. pose proof (le_val_bytes 4 n) as Hv.
  rewrite Z.mod_small in Hv by (change (8 * Z.of_nat 4) with 32; lia).
  pose proof (length_le_bytes 4 n) as Hn'.
  destruct (le_bytes 4 n) as [|b1 [|b2 [|b3 [|b4 [|]]]]]; try done.
  lp_reads.
  rewrite lor_le4 by done. by rewrite Hv.
Qed.

Lemma size_unsafe e pre post :
  elem_ok e ->
  lpCurrentEncodedSizeUnsafe (pre ++ data e ++ post) (zlen pre) = Ok (zlen (data e)).
Proof.
  intros He. pose proof (zlen_data e He) as Hz. unfold lpCurrentEncodedSizeUnsafe.
  destruct e as [v|s]; cbn [elem_ok] in He.
  - destruct (data_int_form v He); cbn [app]; rewrite rd_here; cbn [mbind res_bind];
      try lp_class; zlen_simpl; rewrite ?zlen_le_bytes_nat; done.
  - destruct He as [Hs Hl]. pose proof (zlen_nonneg s).
    destruct (data_str_form s); cbn [app]; rewrite rd_here; cbn [mbind res_bind].
    + unfold LP_ENCODING_6BIT_STR_LEN. rewrite rd_here. lp_class. cbn [mbind res_bind].
      zlen_simpl. rewrite wrapu_small by lia. f_equal. lia.
    + lp_class. rewrite str12_len by lia. cbn [mbind res_bind]. zlen_simpl.
      rewrite wrapu_small by lia. f_equal. lia.
    + rewrite <- app_assoc. rewrite str32_len by lia. zlen_simpl.
      rewrite zlen_le_bytes_nat. cbn [mbind res_bind]. rewrite wrapu_small by lia.
      cbn. f_equal. lia.
Qed.

Lemma size_bytes e pre post :
  elem_ok e -> exists k,
  lpCurrentEncodedSizeBytes (pre ++ data e ++ post) (zlen pre) = Ok k /\
  1 <= k <= zlen (data e).
Proof.
  intros He. pose proof (zlen_data e He) as Hz. unfold lpCurrentEncodedSizeBytes.
  destruct e as [v|s]; cbn [elem_ok] in He.
  - destruct (data_int_form v He); cbn [app]; rewrite rd_here; cbn [mbind res_bind];
      try lp_class; (eexists; split; [done|lia]).
  - destruct He as [Hs Hl]. pose proof (zlen_nonneg s).
    destruct (data_str_form s); cbn [app]; rewrite rd_here; cbn [mbind res_bind];
      try lp_class; (eexists; split; [done|]); zlen_simpl; rewrite ?zlen_le_bytes_nat; lia.
Qed.

Lemma skip_spec e pre post :
  elem_ok e ->
  lpSkip (pre ++ entry e ++ post) (zlen pre) = Ok (zlen (pre ++ entry e)).
Proof.
  intros He. unfold lpSkip, entry. rewrite <- app_assoc, size_unsafe by done.
  cbn [mbind res_bind]. fold (backlen_size (zlen (data e))).
  pose proof (zlen_data e He). pose proof (backlen_size_range (zlen (data e))).
  rewrite wrapu_small by lia. f_equal. zlen_simpl. rewrite zlen_backlen. lia.
Qed.

(** ** Reading back *)

(** Integers: the value, or its decimal text in the caller's buffer. *)
Lemma get_int_spec v pre post ib es :
  is_i64 v ->
  lpGetWithSize (pre ++ data (EInt v) ++ post) (zlen pre) ib es
  = match ib with
    | Some buf => r ← Util.ll2string buf 0 LP_INTBUF_SIZE v;
                  Ok (LpIntbuf (fst r) (snd r), zlen (entry (EInt v)))
    | None => Ok (LpNull v, zlen (entry (EInt v)))
    end.
Proof.
  intros Hv. unfold lpGetWithSize, entry. rewrite zlen_app, zlen_backlen.
  unfold is_i64, INT64_MIN, INT64_MAX in Hv.
  assert (Hs : forall u ns nm, (u < ns /\ u = v /\ 0 <= u < 2 ^ 63) \/
      (ns <= u /\ v = u - nm - 1 /\ 0 <= nm - u < 2 ^ 63) -> lpSigned u ns nm = v).
  { intros u ns nm H. unfold lpSigned. destruct (Z.leb_spec ns u).
    - rewrite (wrapu_small 64), (wraps_small 64 (nm - u)), (wraps_small 64) by lia. lia.
    - rewrite (wraps_small 64) by lia. lia. }
  assert (Hle : forall n, length (le_bytes n v) = n /\ wf_bytes (le_bytes n v) /\
      le_val (le_bytes n v) = v mod 2 ^ (8 * Z.of_nat n))
    by (intros; split_and!; [apply length_le_bytes|apply wf_le_bytes|apply le_val_bytes]).
  destruct (data_int_form v Hv); cbn [app]; rewrite rd_here; cbn [mbind res_bind].
  - rewrite class_7bit by lia. change 0x7f with (2 ^ 7 - 1). rewrite land_ones_mod by lia.
    rewrite Hs; [zlen_simpl; done|].
    left. unfold UINT64_MAX. change (2 ^ 7) with 128. rewrite Z.mod_small; lia.
  - destruct (class_13bit (192 + h)) as (-> & -> & -> & ->); [lia|].
    lp_reads. rewrite lor_shiftl_add by (Z.div_mod_to_equations; lia).
    change (2 ^ 8) with 256. change (Z.shiftl 1 12) with 4096.
    rewrite Hs; [done|].
    subst h. Z.div_mod_to_equations; lia.
  - destruct (Hle 2%nat) as (Hlen & Hw & Hl). destruct (le_bytes 2 v) as [|b1 [|b2 [|]]]; try done.
    lp_known. lp_reads. rewrite lor_le2, Hl by done.
    rewrite Hs; [done|].
    change (8 * Z.of_nat 2) with 16. change (Z.shiftl 1 15) with (2 ^ 15).
    unfold UINT16_MAX. Z.div_mod_to_equations; lia.
  - destruct (Hle 3%nat) as (Hlen & Hw & Hl). destruct (le_bytes 3 v) as [|b1 [|b2 [|b3 [|]]]]; try done.
    lp_known. lp_reads. rewrite lor_le3, Hl by done.
    rewrite Hs; [done|].
    change (8 * Z.of_nat 3) with 24. change (Z.shiftl 1 23) with (2 ^ 23).
    change (Z.shiftr UINT32_MAX 8) with (2 ^ 24 - 1). Z.div_mod_to_equations; lia.
  - destruct (Hle 4%nat) as (Hlen & Hw & Hl).
    destruct (le_bytes 4 v) as [|b1 [|b2 [|b3 [|b4 [|]]]]]; try done.
    lp_known. lp_reads. rewrite lor_le4, Hl by done.
    rewrite Hs; [done|].
    change (8 * Z.of_nat 4) with 32. change (Z.shiftl 1 31) with (2 ^ 31).
    unfold UINT32_MAX. Z.div_mod_to_equations; lia.
  - destruct (Hle 8%nat) as (Hlen & Hw & Hl).
    destruct (le_bytes 8 v) as [|b1 [|b2 [|b3 [|b4 [|b5 [|b6 [|b7 [|b8 [|]]]]]]]]]; try done.
    lp_known. lp_reads. rewrite lor_le8, Hl by done.
    rewrite Hs; [done|].
    change (8 * Z.of_nat 8) with 64. change (Z.shiftl 1 63) with (2 ^ 63).
    unfold UINT64_MAX. Z.div_mod_to_equations; lia.
Qed.

(** Strings: a pointer to the bytes, which are the string. *)
Lemma get_str_spec s pre post ib es :
  elem_ok (EStr s) -> exists h es',
  data (EStr s) = h ++ s /\
  lpGetWithSize (pre ++ data (EStr s) ++ post) (zlen pre) ib es
    = Ok (LpPtr (zlen (pre ++ h)) (zlen s), es') /\ es' = zlen (entry (EStr s)).
Proof.
  intros [Hs Hl]. unfold lpGetWithSize, entry. rewrite zlen_app, zlen_backlen.
  unfold backlen_size. pose proof (zlen_nonneg s).
  assert (Hbl : forall x, 0 <= x < 2 ^ 32 ->
    u64 (x + snd (lpEncodeBacklen x)) = x + snd (lpEncodeBacklen x)).
  { intros x Hx. pose proof (backlen_size_range x). unfold backlen_size in *.
    apply wrapu_small. lia. }
  destruct (data_str_form s); cbn [app]; rewrite rd_here; cbn [mbind res_bind].
  - exists [128 + zlen s], (zlen s + 1 + snd (lpEncodeBacklen (zlen s + 1))). split; [done|].
    unfold LP_ENCODING_6BIT_STR_LEN. rewrite rd_here. lp_class. cbn [mbind res_bind].
    replace (Z.land (128 + zlen s) 63) with (zlen s) by lia.
    zlen_simpl. rewrite (Z.add_comm 1 (zlen s)), Hbl by lia. split; [|done]. by rewrite ?Z.add_0_r.
  - exists [224 + zlen s / 256; zlen s mod 256], (zlen s + 2 + snd (lpEncodeBacklen (zlen s + 2))).
    split; [done|]. lp_class. rewrite str12_len by lia. cbn [mbind res_bind].
    zlen_simpl. replace (1 + (1 + zlen s)) with (zlen s + 2) by lia.
    rewrite (Z.add_comm 2 (zlen s)), Hbl by lia. split; [|done]. by rewrite ?Z.add_0_r.
  - exists (0xF0 :: le_bytes 4 (zlen s)), (zlen s + 5 + snd (lpEncodeBacklen (zlen s + 5))).
    split; [done|]. rewrite <- app_assoc, str32_len by lia. cbn [mbind res_bind].
    zlen_simpl. rewrite zlen_le_bytes_nat.
    replace (1 + (Z.of_nat 4 + zlen s)) with (zlen s + 5) by lia.
    cbn -[Z.add Z.mul u64 lpEncodeBacklen zlen le_bytes].
    rewrite (Z.add_comm 5 (zlen s)), Hbl by lia. split; [|done]. by rewrite ?Z.add_0_r.
Qed.

(** ** Writing an element *)

(** What a listpack stores for the string [s]. *)
Definition elem_of (s : bytes) : elem :=
  match Util.string2ll s (zlen s) with
  | Ok (Some v) => EInt v
  | _ => EStr s
  end.

(** The text an element stands for. *)
Definition text (e : elem) : bytes :=
  match e with EInt v => Util.decimal v | EStr s => s end.

(** Run the stores of header bytes after [pre]. *)
Ltac lp_writes :=
  repeat first [rewrite wr_app_off by lia | rewrite wrn_app_off by lia
    | rewrite wr_0 | rewrite wr_cons by lia | rewrite wrn_cons by lia
    | progress cbn [mbind res_bind Z.sub Z.opp Z.add Z.pos_sub Pos.pred_double Pos.pred]].

(** [lpEncodeString] fills the room made for it. *)
Lemma encode_string s pre room post :
  elem_ok (EStr s) -> length room = length (data (EStr s)) ->
  lpEncodeString (pre ++ room ++ post) (zlen pre) s (zlen s)
  = Ok (pre ++ data (EStr s) ++ post).
Proof.
  intros [Hs Hl] Hr. unfold lpEncodeString. pose proof (zlen_nonneg s).
  rewrite rdn_all. cbn [mbind res_bind].
  destruct (data_str_form s) as [Hn|Hn|Hn]; cbn [length] in Hr.
  - destruct (Z.ltb_spec (zlen s) 64); [|lia].
    destruct room as [|r0 room]; [done|]. cbn [app]. rewrite wr_app. cbn [mbind res_bind].
    lp_writes. rewrite wrn_0 by (cbn in Hr; lia). cbn [mbind res_bind]. do 3 f_equal.
    change 0x80 with (Z.shiftl 2 6) at 1. rewrite lor_add_shiftl by lia.
    rewrite u8_small by (unfold is_byte; lia). lia.
  - destruct (Z.ltb_spec (zlen s) 64); [lia|]. destruct (Z.ltb_spec (zlen s) 4096); [|lia].
    destruct room as [|r0 [|r1 room]]; [done..|]. cbn [app]. rewrite wr_app. cbn [mbind res_bind].
    lp_writes. rewrite wrn_0 by (cbn in Hr; lia). cbn [mbind res_bind]. rewrite byte_at_0. do 3 f_equal.
    rewrite Z.shiftr_div_pow2 by lia. change 0xE0 with (Z.shiftl 7 5) at 1.
    rewrite lor_add_shiftl by (change (2 ^ 8) with 256; Z.div_mod_to_equations; lia).
    change (2 ^ 8) with 256. rewrite u8_small by (unfold is_byte; Z.div_mod_to_equations; lia). lia.
  - destruct (Z.ltb_spec (zlen s) 64); [lia|]. destruct (Z.ltb_spec (zlen s) 4096); [lia|].
    rewrite length_app, length_le_bytes in Hr.
    destruct room as [|r0 [|r1 [|r2 [|r3 [|r4 room]]]]]; [done..|].
    cbn [app]. rewrite wr_app. cbn [mbind res_bind].
    lp_writes. rewrite wrn_0 by (cbn in Hr; lia). cbn [mbind res_bind].
    rewrite byte_at_0, !byte_at_land by lia. do 3 f_equal. cbn [le_bytes app].
    rewrite !Z.div_div by lia. done.
Qed.

Lemma zlen_data_int v : is_i64 v -> snd (lpEncodeIntegerGetType v) = zlen (data (EInt v)).
Proof. intros Hv. cbn [data]. by destruct (intdata_spec v Hv) as [-> ->]. Qed.

Lemma elem_of_ok s : wf_bytes s -> zlen s < 2 ^ 32 - 5 -> elem_ok (elem_of s).
Proof.
  intros Hs Hl. unfold elem_of. destruct (Util.string2ll_spec s []) as (o & Ho & Hv).
  rewrite app_nil_r in Ho. rewrite Ho. destruct o as [v|]; [|done].
  by apply (Hv v).
Qed.

(** Storing a string as an integer loses nothing. *)
Lemma text_elem_of s : text (elem_of s) = s.
Proof.
  unfold elem_of. destruct (Util.string2ll_spec s []) as (o & Ho & Hv).
  rewrite app_nil_r in Ho. rewrite Ho. destruct o as [v|]; [|done].
  by destruct (proj1 (Hv v) eq_refl) as [_ ->].
Qed.

Lemma elem_of_int s v : elem_of s = EInt v -> is_i64 v /\ s = Util.decimal v.
Proof.
  unfold elem_of. destruct (Util.string2ll_spec s []) as (o & Ho & Hv).
  rewrite app_nil_r in Ho. rewrite Ho. destruct o as [w|]; [|done].
  intros [= ->]. by apply (Hv v).
Qed.

Lemma elem_of_decimal v : is_i64 v -> elem_of (Util.decimal v) = EInt v.
Proof.
  intros Hi. unfold elem_of. destruct (Util.string2ll_spec (Util.decimal v) []) as (o & Ho & Hv).
  rewrite app_nil_r in Ho. rewrite Ho. by rewrite (proj2 (Hv v)).
Qed.

Lemma zlen_data_str s :
  zlen (data (EStr s)) =
    (if zlen s <? 64 then 1 + zlen s else if zlen s <? 4096 then 2 + zlen s else 5 + zlen s).
Proof. cbn [data]. unfold strhdr. repeat case_match; zlen_simpl; rewrite ?zlen_le_bytes_nat; lia. Qed.

(** [lpEncodeGetType] chooses the element and computes its encoded length. *)
Lemma encode_get_type s :
  zlen s < 2 ^ 32 ->
  lpEncodeGetType s (zlen s) = Ok
    (match elem_of s with
     | EInt v => (LP_ENCODING_INT, data (EInt v), zlen (data (EInt v)))
     | EStr _ => (LP_ENCODING_STRING, [], zlen (data (EStr s)))
     end).
Proof.
  intros Hl. unfold lpEncodeGetType. rewrite lpStringToInt64_string2ll. unfold elem_of.
  destruct (Util.string2ll_spec s []) as (o & Ho & Hv). rewrite app_nil_r in Ho. rewrite Ho.
  cbn [mbind res_bind]. destruct o as [v|].
  - rewrite <- zlen_data_int by (by apply (Hv v)). cbn [data].
    by destruct (lpEncodeIntegerGetType v).
  - rewrite zlen_data_str. pose proof (zlen_nonneg s).
    destruct (Z.ltb_spec (zlen s) 64), (Z.ltb_spec (zlen s) 4096); rewrite wrapu_small; done || lia.
Qed.

End LP.
