(* ===== verification/Listpack.v ===== *)
(** * Listpacks (listpack.c, the container).

    The operations of src/.local/redis/redis-7.4.2/src/listpack.c on a whole
    listpack: a six byte header (total bytes, number of elements), the entries
    of ListpackEnc.v, and a terminator.  A listpack pointer is the buffer of
    its allocation, whose length is what [lp_malloc_size] reports; a pointer
    to an element is an offset, NULL is [None].  Everything the C code checks
    with [assert] is a [cassert] here, and everything it reads or writes is
    checked against the allocation.

    The theory is in ListpackTheory.v (what the operations do to the list of
    elements), ListpackValidate.v (arbitrary bytes) and ListpackSpec.v. *)

From S2P Require Import Prelude Util ListpackEnc.
#[local] Open Scope Z_scope.

Module Listpack.
Import LP.

(** ** The header *)

Definition lpGetTotalBytes (lp : bytes) : res Z :=
  b0 ← rd lp 0; b1 ← rd lp 1; b2 ← rd lp 2; b3 ← rd lp 3;
  Ok (Z.lor (Z.lor (Z.lor b0 (Z.shiftl b1 8)) (Z.shiftl b2 16)) (Z.shiftl b3 24)).

Definition lpGetNumElements (lp : bytes) : res Z :=
  b4 ← rd lp 4; b5 ← rd lp 5; Ok (Z.lor b4 (Z.shiftl b5 8)).

Definition lpSetTotalBytes (lp : bytes) (v : Z) : res bytes :=
  lp ← wr lp 0 (Z.land v 0xff);
  lp ← wr lp 1 (Z.land (Z.shiftr v 8) 0xff);
  lp ← wr lp 2 (Z.land (Z.shiftr v 16) 0xff);
  wr lp 3 (Z.land (Z.shiftr v 24) 0xff).

Definition lpSetNumElements (lp : bytes) (v : Z) : res bytes :=
  lp ← wr lp 4 (Z.land v 0xff);
  wr lp 5 (Z.land (Z.shiftr v 8) 0xff).

Definition lpBytes (lp : bytes) : res Z := lpGetTotalBytes lp.

Definition LISTPACK_MAX_SAFETY_SIZE : Z := Z.shiftl 1 30.

Definition lpSafeToAdd (lp : option bytes) (add : Z) : res bool :=
  len ← (match lp with Some lp => lpGetTotalBytes lp | None => Ok 0 end);
  Ok (negb (LISTPACK_MAX_SAFETY_SIZE <? u64 (len + add))).

Definition ASSERT_INTEGRITY (lp : bytes) (p : Z) : res unit :=
  total ← lpGetTotalBytes lp;
  cassert ((LP_HDR_SIZE <=? p) && (p <? total)).

Definition ASSERT_INTEGRITY_LEN (lp : bytes) (p len : Z) : res unit :=
  total ← lpGetTotalBytes lp;
  cassert ((LP_HDR_SIZE <=? p) && (p + len <? total)).

(** ** Validation *)

Definition OUT_OF_RANGE (lpbytes p : Z) : bool :=
  (p <? LP_HDR_SIZE) || (lpbytes - 1 <? p).

Definition lpValidateFirst (lp : bytes) : res (option Z) :=
  let p := LP_HDR_SIZE in
  b ← rd lp p;
  if b =? LP_EOF then Ok None else Ok (Some p).

(** The return value and [*pp]. *)
Definition lpValidateNext (lp : bytes) (pp : option Z) (lpbytes : Z) : res (bool * option Z) :=
  match pp with
  | None => Ok (false, pp)
  | Some p =>
    if OUT_OF_RANGE lpbytes p then Ok (false, pp) else
    b ← rd lp p;
    if b =? LP_EOF then Ok (true, None) else
    lenbytes ← lpCurrentEncodedSizeBytes lp p;
    if lenbytes =? 0 then Ok (false, pp) else
    if OUT_OF_RANGE lpbytes (p + lenbytes) then Ok (false, pp) else
    entrylen ← lpCurrentEncodedSizeUnsafe lp p;
    let encodedBacklen := snd (lpEncodeBacklen entrylen) in
    let entrylen := u64 (entrylen + encodedBacklen) in
    if OUT_OF_RANGE lpbytes (p + entrylen) then Ok (false, pp) else
    let p := p + entrylen in
    prevlen ← lpDecodeBacklen lp (p - 1);
    if negb (u64 (prevlen + encodedBacklen) =? entrylen) then Ok (false, pp)
    else Ok (true, Some p)
  end.

Definition lpAssertValidEntry (lp : bytes) (lpbytes p : Z) : res unit :=
  r ← lpValidateNext lp (Some p) lpbytes; cassert (fst r).

(** ** Traversal *)

Definition lpNext (lp : bytes) (p : Z) : res (option Z) :=
  p ← lpSkip lp p;
  b ← rd lp p;
  if b =? LP_EOF then Ok None else
  total ← lpBytes lp;
  _ ← lpAssertValidEntry lp total p;
  Ok (Some p).

Definition lpPrev (lp : bytes) (p : Z) : res (option Z) :=
  if p =? LP_HDR_SIZE then Ok None else
  let p := p - 1 in
  prevlen ← lpDecodeBacklen lp p;
  let prevlen := u64 (prevlen + snd (lpEncodeBacklen prevlen)) in
  let p := p - u64 (prevlen - 1) in
  total ← lpBytes lp;
  _ ← lpAssertValidEntry lp total p;
  Ok (Some p).

Definition lpFirst (lp : bytes) : res (option Z) :=
  let p := LP_HDR_SIZE in
  b ← rd lp p;
  if b =? LP_EOF then Ok None else
  total ← lpBytes lp;
  _ ← lpAssertValidEntry lp total p;
  Ok (Some p).

Definition lpLast (lp : bytes) : res (option Z) :=
  total ← lpGetTotalBytes lp;
  lpPrev lp (total - 1).

(** The scan of [lpLength], counting in a [uint32_t]. *)
Fixpoint lpLength_loop (fuel : nat) (lp : bytes) (p : option Z) (count : Z) : res Z :=
  match fuel with
  | O => Fault OutOfFuel
  | S fuel =>
    match p with
    | None => Ok count
    | Some q => p ← lpNext lp q; lpLength_loop fuel lp p (u32 (count + 1))
    end
  end.

(** [lpLength] may store the count in the header. *)
Definition lpLength (lp : bytes) : res (bytes * Z) :=
  numele ← lpGetNumElements lp;
  if negb (numele =? LP_HDR_NUMELE_UNKNOWN) then Ok (lp, numele) else
  p ← lpFirst lp;
  count ← lpLength_loop (S (length lp)) lp p 0;
  if count <? LP_HDR_NUMELE_UNKNOWN then
    lp ← lpSetNumElements lp count; Ok (lp, count)
  else Ok (lp, count).

Fixpoint lpSeek_forward (fuel : nat) (lp : bytes) (ele : option Z) (index : Z) : res (option Z) :=
  match fuel with
  | O => Fault OutOfFuel
  | S fuel =>
    match ele with
    | Some p => if 0 <? index then e ← lpNext lp p; lpSeek_forward fuel lp e (index - 1) else Ok ele
    | None => Ok ele
    end
  end.

Fixpoint lpSeek_backward (fuel : nat) (lp : bytes) (ele : option Z) (index : Z) : res (option Z) :=
  match fuel with
  | O => Fault OutOfFuel
  | S fuel =>
    match ele with
    | Some p => if index <? -1 then e ← lpPrev lp p; lpSeek_backward fuel lp e (index + 1) else Ok ele
    | None => Ok ele
    end
  end.

(** The final [if (forward) ... else ...]. *)
Definition lpSeek_scan (lp : bytes) (forward : bool) (index : Z) : res (option Z) :=
  if forward then e ← lpFirst lp; lpSeek_forward (S (length lp)) lp e index
  else e ← lpLast lp; lpSeek_backward (S (length lp)) lp e index.

Definition lpSeek (lp : bytes) (index : Z) : res (option Z) :=
  numele ← lpGetNumElements lp;
  if negb (numele =? LP_HDR_NUMELE_UNKNOWN) then
    let index := if index <? 0 then numele + index else index in
    if index <? 0 then Ok None else
    if numele <=? index then Ok None else
    if numele / 2 <? index then lpSeek_scan lp false (index - numele)
    else lpSeek_scan lp true index
  else lpSeek_scan lp (negb (index <? 0)) index.

(** ** Searching *)

(** [lpFindCb]: the callback gets the element's pointer, and the string
    pointer or NULL with [ll], and updates the caller's [user] data. *)
Fixpoint lpFindCb_loop {U} (cmp : U -> Z -> option Z -> Z -> res (U * Z)) (skip : Z)
    (fuel : nat) (lp : bytes) (lp_bytes : Z) (user : U) (p skipcnt entry_size : Z)
  : res (U * option Z) :=
  match fuel with
  | O => Fault OutOfFuel
  | S fuel =>
    let advance (user : U) (p skipcnt entry_size : Z) :=
      _ ← (if lp_bytes <=? p + 8 then lpAssertValidEntry lp lp_bytes p
           else cassert ((LP_HDR_SIZE <=? p) && (p <? lp_bytes)));
      b ← rd lp p;
      if b =? LP_EOF then Ok (user, None)
      else lpFindCb_loop cmp skip fuel lp lp_bytes user p skipcnt entry_size in
    if skipcnt =? 0 then
      r ← lpGetWithSize lp p None entry_size;
      let '(v, entry_size) := r in
      let '(value, ll) := match v with
        | LpPtr q n => (Some q, n) | LpIntbuf _ n => (None, n) | LpNull n => (None, n) end in
      _ ← (match value with
           | Some _ => cassert ((LP_HDR_SIZE <=? p) && (p + entry_size <? lp_bytes))
           | None => Ok tt
           end);
      c ← cmp user p value ll;
      let '(user, c) := c in
      if c =? 0 then Ok (user, Some p)
      else advance user (p + entry_size) (i32 skip) entry_size
    else
      p ← lpSkip lp p;
      advance user p (skipcnt - 1) entry_size
  end.

Definition lpFindCb {U} (lp : bytes) (p : option Z) (user : U)
    (cmp : U -> Z -> option Z -> Z -> res (U * Z)) (skip : Z) : res (U * option Z) :=
  lp_bytes ← lpBytes lp;
  p ← (match p with Some p => Ok (Some p) | None => lpFirst lp end);
  match p with
  | None => Ok (user, None)
  | Some p => lpFindCb_loop cmp skip (S (length lp)) lp lp_bytes user p 0 123456789
  end.

Record lpFindArg : Type := { arg_s : bytes; arg_slen : Z; vencoding : Z; vll : Z }.

Definition UCHAR_MAX : Z := 255.

Definition lpFindCmp (lp : bytes) (arg : lpFindArg) (p : Z) (s : option Z) (slen : Z)
  : res (lpFindArg * Z) :=
  match s with
  | Some q =>
    if slen =? arg_slen arg then
      x ← rdn (arg_s arg) 0 slen; y ← rdn lp q slen;
      if bool_decide (x = y) then Ok (arg, 0) else Ok (arg, 1)
    else Ok (arg, 1)
  | None =>
    arg ← (if vencoding arg =? 0 then
      let uchar_max := {| arg_s := arg_s arg; arg_slen := arg_slen arg;
                          vencoding := UCHAR_MAX; vll := vll arg |} in
      if (32 <=? arg_slen arg) || (arg_slen arg =? 0) then Ok uchar_max else
      r ← lpStringToInt64 (arg_s arg) (arg_slen arg);
      match r with
      | None => Ok uchar_max
      | Some v => Ok {| arg_s := arg_s arg; arg_slen := arg_slen arg; vencoding := 1; vll := v |}
      end
    else Ok arg);
    if negb (vencoding arg =? UCHAR_MAX) && (slen =? vll arg) then Ok (arg, 0) else Ok (arg, 1)
  end.

Definition lpFind (lp : bytes) (p : option Z) (s : bytes) (slen skip : Z) : res (option Z) :=
  r ← lpFindCb lp p {| arg_s := s; arg_slen := slen; vencoding := 0; vll := 0 |}
        (lpFindCmp lp) skip;
  Ok (snd r).

(** ** Modification *)

Inductive lpwhere : Type := LP_BEFORE | LP_AFTER | LP_REPLACE.

Section modification.
Context `{Allocator}.

Definition lpNew (capacity : Z) : res bytes :=
  let lp := zmalloc (if LP_HDR_SIZE + 1 <? capacity then capacity else LP_HDR_SIZE + 1) in
  lp ← lpSetTotalBytes lp (LP_HDR_SIZE + 1);
  lp ← lpSetNumElements lp 0;
  wr lp LP_HDR_SIZE LP_EOF.

Definition lpShrinkToFit (lp : bytes) : res bytes :=
  size ← lpGetTotalBytes lp;
  if size <? zlen lp then Ok (zrealloc lp size) else Ok lp.

(** The choice of the encoding: [enctype], the integer bytes and [enclen]. *)
Definition lpInsert_encode (elestr eleint : option bytes) (size : Z)
  : res (option enctype * bytes * Z) :=
  match elestr with
  | Some s =>
    r ← lpEncodeGetType s size;
    let '(t, intenc, enclen) := r in Ok (Some t, intenc, enclen)
  | None =>
    match eleint with
    | Some i => Ok (Some LP_ENCODING_INT, i, size)
    | None => Ok (None, [], 0)
    end
  end.

(** Storing the element and its back length at [dst]. *)
Definition lpInsert_store (lp : bytes) (dst : Z) (enctype : option enctype) (eleint : bytes)
    (elestr : option bytes) (size enclen : Z) (backlen : bytes) : res bytes :=
  match enctype with
  | Some LP_ENCODING_INT =>
    src ← rdn eleint 0 enclen; lp ← wrn lp dst src; wrn lp (dst + enclen) backlen
  | Some LP_ENCODING_STRING =>
    match elestr with
    | Some s => lp ← lpEncodeString lp dst s size; wrn lp (dst + enclen) backlen
    | None => Fault AssertFailed
    end
  | None => Ok lp
  end.

(** The header update at the end of [lpInsert]. *)
Definition lpInsert_header (lp : bytes) (isreplace delete : bool) (new_listpack_bytes : Z)
  : res bytes :=
  lp ← (if negb isreplace || delete then
          num_elements ← lpGetNumElements lp;
          if negb (num_elements =? LP_HDR_NUMELE_UNKNOWN) then
            if negb delete then lpSetNumElements lp (u32 (num_elements + 1))
            else lpSetNumElements lp (u32 (num_elements - 1))
          else Ok lp
        else Ok lp);
  lpSetTotalBytes lp new_listpack_bytes.

(** [lpInsert]: the new listpack and [*newp] ([newp] tells whether the caller
    passed a pointer to fill in), or NULL when it would grow over 4GB. *)
Definition lpInsert (lp : bytes) (elestr eleint : option bytes) (size p : Z)
    (where_ : lpwhere) (newp : bool) : res (option (bytes * option Z)) :=
  let delete := match elestr, eleint with None, None => true | _, _ => false end in
  let where_ := if delete then LP_REPLACE else where_ in
  r ← (match where_ with
       | LP_AFTER => p ← lpSkip lp p; _ ← ASSERT_INTEGRITY lp p; Ok (p, LP_BEFORE)
       | _ => Ok (p, where_)
       end);
  let '(p, where_) := r in
  let poff := p in
  r ← lpInsert_encode elestr eleint size;
  let '(enctype, eleint, enclen) := r in
  let '(backlen, backlen_size) := if delete then ([], 0) else lpEncodeBacklen enclen in
  old_listpack_bytes ← lpGetTotalBytes lp;
  replaced_len ← (match where_ with
                  | LP_REPLACE =>
                    l ← lpCurrentEncodedSizeUnsafe lp p;
                    let l := u32 (l + snd (lpEncodeBacklen l)) in
                    _ ← ASSERT_INTEGRITY_LEN lp p l;
                    Ok l
                  | _ => Ok 0
                  end);
  let new_listpack_bytes := u64 (old_listpack_bytes + enclen + backlen_size - replaced_len) in
  if UINT32_MAX <? new_listpack_bytes then Ok None else
  let dst := poff in
  let lp := if (old_listpack_bytes <? new_listpack_bytes) && (zlen lp <? new_listpack_bytes)
            then zrealloc lp new_listpack_bytes else lp in
  lp ← (match where_ with
        | LP_BEFORE => memmove lp (dst + enclen + backlen_size) dst
                         (u64 (old_listpack_bytes - poff))
        | _ => memmove lp (dst + enclen + backlen_size) (dst + replaced_len)
                 (u64 (old_listpack_bytes - poff - replaced_len))
        end);
  let lp := if new_listpack_bytes <? old_listpack_bytes
            then zrealloc lp new_listpack_bytes else lp in
  newp ← (if newp then
            if delete then b ← rd lp dst; Ok (if b =? LP_EOF then None else Some dst)
            else Ok (Some dst)
          else Ok None);
  lp ← lpInsert_store lp dst enctype eleint elestr size enclen backlen;
  let isreplace := match where_ with LP_REPLACE => true | _ => false end in
  lp ← lpInsert_header lp isreplace delete new_listpack_bytes;
  Ok (Some (lp, newp)).

Definition lpInsertString (lp s : bytes) (slen p : Z) (where_ : lpwhere) (newp : bool) :=
  lpInsert lp (Some s) None slen p where_ newp.

Definition lpInsertInteger (lp : bytes) (lval p : Z) (where_ : lpwhere) (newp : bool) :=
  let '(intenc, enclen) := lpEncodeIntegerGetType lval in
  lpInsert lp None (Some intenc) enclen p where_ newp.

Definition lpAppend (lp ele : bytes) (size : Z) : res (option bytes) :=
  listpack_bytes ← lpGetTotalBytes lp;
  let eofptr := listpack_bytes - 1 in
  r ← lpInsert lp (Some ele) None size eofptr LP_BEFORE false;
  Ok (option_map fst r).

Definition lpAppendInteger (lp : bytes) (lval : Z) : res (option bytes) :=
  listpack_bytes ← lpGetTotalBytes lp;
  let eofptr := listpack_bytes - 1 in
  r ← lpInsertInteger lp lval eofptr LP_BEFORE false;
  Ok (option_map fst r).

Definition lpPrepend (lp s : bytes) (slen : Z) : res (option bytes) :=
  p ← lpFirst lp;
  match p with
  | None => lpAppend lp s slen
  | Some p => r ← lpInsert lp (Some s) None slen p LP_BEFORE false; Ok (option_map fst r)
  end.

Definition lpPrependInteger (lp : bytes) (lval : Z) : res (option bytes) :=
  p ← lpFirst lp;
  match p with
  | None => lpAppendInteger lp lval
  | Some p => r ← lpInsertInteger lp lval p LP_BEFORE false; Ok (option_map fst r)
  end.

Definition lpReplace (lp : bytes) (p : Z) (s : bytes) (slen : Z) :=
  lpInsert lp (Some s) None slen p LP_REPLACE true.

Definition lpReplaceInteger (lp : bytes) (p lval : Z) :=
  lpInsertInteger lp lval p LP_REPLACE true.

Definition lpDelete (lp : bytes) (p : Z) (newp : bool) :=
  lpInsert lp None None 0 p LP_REPLACE newp.

(** ** Batches *)

(** A [listpackEntry]: a string with its length, or an integer. *)
Inductive listpackEntry : Type :=
| EntStr (sval : bytes) (slen : Z)
| EntInt (lval : Z).

(** The encoded form of one entry: [enctype], [enclen], [intenc], [backlen]
    and [backlen_size]. *)
Record listpackInsertEntry : Type := {
  enctype_ : enctype; enclen_ : Z; intenc_ : bytes; backlen_ : bytes; backlen_size_ : Z }.

Definition lpBatch_encode (e : listpackEntry) : res listpackInsertEntry :=
  r ← (match e with
       | EntStr s n => lpEncodeGetType s n
       | EntInt v => let '(intenc, enclen) := lpEncodeIntegerGetType v in
                     Ok (LP_ENCODING_INT, intenc, enclen)
       end);
  let '(t, intenc, enclen) := r in
  let '(bl, bs) := lpEncodeBacklen enclen in
  Ok {| enctype_ := t; enclen_ := enclen; intenc_ := intenc; backlen_ := bl; backlen_size_ := bs |}.

Fixpoint lpBatch_encode_all (es : list listpackEntry) (addedlen : Z)
  : res (list listpackInsertEntry * Z) :=
  match es with
  | [] => Ok ([], addedlen)
  | e :: es =>
    enc ← lpBatch_encode e;
    r ← lpBatch_encode_all es (u64 (u64 (addedlen + enclen_ enc) + backlen_size_ enc));
    Ok (enc :: fst r, snd r)
  end.

(** The loop that stores the entries; returns the buffer and [*newp]. *)
Definition lpBatch_store1 (lp : bytes) (dst : Z) (e : listpackEntry) (enc : listpackInsertEntry)
  : res bytes :=
  lp ← (match enctype_ enc with
        | LP_ENCODING_INT => src ← rdn (intenc_ enc) 0 (enclen_ enc); wrn lp dst src
        | LP_ENCODING_STRING =>
          match e with
          | EntStr s n => lpEncodeString lp dst s n
          | EntInt _ => Fault OutOfBounds
          end
        end);
  wrn lp (dst + enclen_ enc) (backlen_ enc).

Fixpoint lpBatch_store (lp : bytes) (dst : Z) (es : list listpackEntry)
    (encs : list listpackInsertEntry) (newp : option Z) : res (bytes * option Z) :=
  match es, encs with
  | e :: es, enc :: encs =>
    lp ← lpBatch_store1 lp dst e enc;
    lpBatch_store lp (dst + enclen_ enc + backlen_size_ enc) es encs (Some dst)
  | _, _ => Ok (lp, newp)
  end.

(** [len] is the length of the array [entries]. *)
Definition lpBatchInsert (lp : bytes) (p : Z) (where_ : lpwhere) (entries : list listpackEntry)
  : res (option (bytes * option Z)) :=
  let len := zlen entries in
  _ ← cassert (match where_ with LP_REPLACE => false | _ => true end);
  _ ← cassert (0 <? len);
  p ← (match where_ with
       | LP_AFTER => p ← lpSkip lp p; _ ← ASSERT_INTEGRITY lp p; Ok p
       | _ => Ok p
       end);
  r ← lpBatch_encode_all entries 0;
  let '(enc, addedlen) := r in
  old_listpack_bytes ← lpGetTotalBytes lp;
  let new_listpack_bytes := u64 (old_listpack_bytes + addedlen) in
  if UINT32_MAX <? new_listpack_bytes then Ok None else
  let poff := p in
  let lp := if (old_listpack_bytes <? new_listpack_bytes) && (zlen lp <? new_listpack_bytes)
            then zrealloc lp new_listpack_bytes else lp in
  lp ← memmove lp (poff + addedlen) poff (u64 (old_listpack_bytes - poff));
  r ← lpBatch_store lp poff entries enc None;
  let '(lp, newp) := r in
  num_elements ← lpGetNumElements lp;
  lp ← (if negb (num_elements =? LP_HDR_NUMELE_UNKNOWN) then
          if LP_HDR_NUMELE_UNKNOWN - num_elements <? len
          then lpSetNumElements lp LP_HDR_NUMELE_UNKNOWN
          else lpSetNumElements lp (u32 (num_elements + len))
        else Ok lp);
  lp ← lpSetTotalBytes lp new_listpack_bytes;
  Ok (Some (lp, newp)).

Definition lpBatchAppend (lp : bytes) (entries : list listpackEntry) : res (option bytes) :=
  listpack_bytes ← lpGetTotalBytes lp;
  r ← lpBatchInsert lp (listpack_bytes - 1) LP_BEFORE entries;
  Ok (option_map fst r).

(** ** Deleting ranges *)

(** The walk to the end of the range: [tail] and the number of entries. *)
Fixpoint lpDeleteRange_loop (fuel : nat) (lp : bytes) (bytes_ tail num deleted : Z) : res (Z * Z) :=
  match fuel with
  | O => Fault OutOfFuel
  | S fuel =>
    if num =? 0 then Ok (tail, deleted) else
    let deleted := deleted + 1 in
    tail ← lpSkip lp tail;
    b ← rd lp tail;
    if b =? LP_EOF then Ok (tail, deleted) else
    _ ← lpAssertValidEntry lp bytes_ tail;
    lpDeleteRange_loop fuel lp bytes_ tail (num - 1) deleted
  end.

Definition lpDeleteRangeWithEntry (lp : bytes) (p num : Z) : res (bytes * option Z) :=
  bytes_ ← lpBytes lp;
  let eofptr := bytes_ - 1 in
  let first := p in
  if num =? 0 then Ok (lp, Some p) else
  r ← lpDeleteRange_loop (S (length lp)) lp bytes_ first num 0;
  let '(tail, deleted) := r in
  lp ← memmove lp first tail (u64 (eofptr - tail + 1));
  lp ← lpSetTotalBytes lp (u64 (bytes_ - (tail - first)));
  numele ← lpGetNumElements lp;
  lp ← (if negb (numele =? LP_HDR_NUMELE_UNKNOWN)
        then lpSetNumElements lp (u64 (numele - deleted)) else Ok lp);
  lp ← lpShrinkToFit lp;
  b ← rd lp first;
  Ok (lp, if b =? LP_EOF then None else Some first).

Definition lpDeleteRange (lp : bytes) (index num : Z) : res bytes :=
  numele ← lpGetNumElements lp;
  if num =? 0 then Ok lp else
  p ← lpSeek lp index;
  match p with
  | None => Ok lp
  | Some p =>
    let known := negb (numele =? LP_HDR_NUMELE_UNKNOWN) in
    let index := if known && (index <? 0) then i64 (numele + index) else index in
    if known && (u64 (numele - u64 index) <=? num) then
      lp ← wr lp p LP_EOF;
      lp ← lpSetTotalBytes lp (p + 1);
      lp ← lpSetNumElements lp index;
      lpShrinkToFit lp
    else r ← lpDeleteRangeWithEntry lp p num; Ok (fst r)
  end.

(** The loop of [lpBatchDelete] over [ps], the first of which is at hand. *)
Fixpoint lpBatchDelete_loop (lp : bytes) (lp_end dst : Z) (ps : list Z) : res (bytes * Z) :=
  match ps with
  | [] => Ok (lp, dst)
  | skip :: ps =>
    b ← rd lp skip;
    _ ← cassert (negb (b =? LP_EOF));
    keep_start ← lpSkip lp skip;
    let keep (keep_end : Z) :=
      _ ← cassert (keep_start <? keep_end);
      let bytes_to_keep := keep_end - keep_start in
      lp ← memmove lp dst keep_start bytes_to_keep;
      lpBatchDelete_loop lp lp_end (dst + bytes_to_keep) ps in
    match ps with
    | next :: _ =>
      if keep_start =? next then lpBatchDelete_loop lp lp_end dst ps else keep next
    | [] => keep lp_end
    end
  end.

Definition lpBatchDelete (lp : bytes) (ps : list Z) : res bytes :=
  match ps with
  | [] => Ok lp
  | dst :: _ =>
    total_bytes ← lpGetTotalBytes lp;
    let lp_end := total_bytes in
    e ← rd lp (lp_end - 1);
    _ ← cassert (e =? LP_EOF);
    r ← lpBatchDelete_loop lp lp_end dst ps;
    let '(lp, dst) := r in
    let total_bytes := u64 (total_bytes - (lp_end - dst)) in
    e ← rd lp (total_bytes - 1);
    _ ← cassert (e =? LP_EOF);
    lp ← lpSetTotalBytes lp total_bytes;
    numele ← lpGetNumElements lp;
    lp ← (if negb (numele =? LP_HDR_NUMELE_UNKNOWN)
          then lpSetNumElements lp (u64 (numele - zlen ps)) else Ok lp);
    lp ← lpShrinkToFit lp;
    Ok lp
  end.

(** ** Merging and copying *)

(** [lpMerge(&first, &second)] for two distinct listpacks: the merged
    listpack, and whether it is the new [*first] (the other one is freed and
    set to NULL).  [same] is the test [*first == *second]. *)
Definition lpMerge (first second : option bytes) (same : bool)
  : res (option (bytes * bool)) :=
  match first, second with
  | Some first, Some second =>
    if same then Ok None else
    first_bytes ← lpBytes first;
    r ← lpLength first;
    let '(first, first_len) := r in
    second_bytes ← lpBytes second;
    r ← lpLength second;
    let '(second, second_len) := r in
    let append := second_bytes <=? first_bytes in
    let '(target, target_bytes, source, source_bytes) :=
      if append then (first, first_bytes, second, second_bytes)
      else (second, second_bytes, first, first_bytes) in
    let lpbytes := u64 (first_bytes + second_bytes - LP_HDR_SIZE - 1) in
    _ ← cassert (lpbytes <? UINT32_MAX);
    let lplength := u64 (first_len + second_len) in
    let lplength := if lplength <? UINT16_MAX then lplength else UINT16_MAX in
    let target := zrealloc target lpbytes in
    target ← (if append then
        src ← rdn source LP_HDR_SIZE (u64 (source_bytes - LP_HDR_SIZE));
        wrn target (target_bytes - 1) src
      else
        target ← memmove target (source_bytes - 1) LP_HDR_SIZE
                   (u64 (target_bytes - LP_HDR_SIZE));
        src ← rdn source 0 (u64 (source_bytes - 1));
        wrn target 0 src);
    target ← lpSetNumElements target lplength;
    target ← lpSetTotalBytes target lpbytes;
    Ok (Some (target, append))
  | _, _ => Ok None
  end.

Definition lpDup (lp : bytes) : res bytes :=
  lpbytes ← lpBytes lp;
  src ← rdn lp 0 lpbytes;
  wrn (zmalloc lpbytes) 0 src.

End modification.

(** ** Integrity of untrusted input *)

(** The loop of [lpValidateIntegrity]; the callback gets the entry and the
    header count and may keep state. *)
Fixpoint lpValidateIntegrity_loop {U} (entry_cb : option (U -> Z -> Z -> res (U * bool)))
    (fuel : nat) (lp : bytes) (bytes_ numele : Z) (p : option Z) (count : Z) (user : U)
  : res (U * option (option Z * Z)) :=
  match fuel with
  | O => Fault OutOfFuel
  | S fuel =>
    match p with
    | None => Ok (user, Some (p, count))
    | Some q =>
      b ← rd lp q;
      if b =? LP_EOF then Ok (user, Some (p, count)) else
      r ← lpValidateNext lp p bytes_;
      let '(ok, p) := r in
      if negb ok then Ok (user, None) else
      c ← (match entry_cb with Some cb => cb user q numele | None => Ok (user, true) end);
      let '(user, ok) := c in
      if negb ok then Ok (user, None) else
      lpValidateIntegrity_loop entry_cb fuel lp bytes_ numele p (u32 (count + 1)) user
    end
  end.

Definition lpValidateIntegrity {U} (lp : bytes) (size : Z) (deep : bool)
    (entry_cb : option (U -> Z -> Z -> res (U * bool))) (user : U) : res (U * bool) :=
  if size <? LP_HDR_SIZE + 1 then Ok (user, false) else
  bytes_ ← lpGetTotalBytes lp;
  if negb (bytes_ =? size) then Ok (user, false) else
  e ← rd lp (size - 1);
  if negb (e =? LP_EOF) then Ok (user, false) else
  if negb deep then Ok (user, true) else
  numele ← lpGetNumElements lp;
  r ← lpValidateIntegrity_loop entry_cb (S (length lp)) lp bytes_ numele (Some LP_HDR_SIZE) 0 user;
  let '(user, o) := r in
  match o with
  | None => Ok (user, false)
  | Some (p, count) =>
    if negb (match p with Some p => p =? size - 1 | None => false end) then Ok (user, false) else
    if negb (numele =? LP_HDR_NUMELE_UNKNOWN) && negb (numele =? count) then Ok (user, false)
    else Ok (user, true)
  end.

End Listpack.
