(* ===== verification/ListpackTheory.v ===== *)
(** * Listpacks: the operations as operations on lists.

    [repr lp es] relates an allocation to the list of elements it stores: the
    header with the exact size and an exact or unknown count, the encoded
    entries, the terminator, and whatever bytes the allocation has after it.
    [pos l] is the address of the element after the prefix [l].  One lemma per
    operation of Listpack.v gives its result on every listpack that represents
    a list, growth over 4GB included. *)

From S2P Require Import Prelude Util ListpackEnc Listpack.
#[local] Open Scope Z_scope.

Module ListpackTheory.
Import LP Listpack.

(** ** Header *)

Definition hdr (total num : Z) : bytes := le_bytes 4 total ++ le_bytes 2 num.

Lemma zlen_hdr t n : zlen (hdr t n) = 6.
Proof. done. Qed.

Lemma get_total t n rest : 0 <= t < 2 ^ 32 -> lpGetTotalBytes (hdr t n ++ rest) = Ok t.
Proof.
  intros Ht. unfold lpGetTotalBytes. pose proof (le_val_bytes 4 t) as Hv.
  rewrite Z.mod_small in Hv by (change (8 * Z.of_nat 4) with 32; lia).
  transitivity (Ok (le_val (le_bytes 4 t))); [|by rewrite Hv]. cbn [le_bytes].
  rewrite <- lor_le4 by apply (wf_le_bytes 4). done.
Qed.

Lemma get_num t n rest : 0 <= n < 2 ^ 16 -> lpGetNumElements (hdr t n ++ rest) = Ok n.
Proof.
  intros Ht. unfold lpGetNumElements. pose proof (le_val_bytes 2 n) as Hv.
  rewrite Z.mod_small in Hv by (change (8 * Z.of_nat 2) with 16; lia).
  transitivity (Ok (le_val (le_bytes 2 n))); [|by rewrite Hv]. cbn [le_bytes].
  rewrite <- lor_le2 by apply (wf_le_bytes 2). done.
Qed.

Lemma set_total t n rest v : lpSetTotalBytes (hdr t n ++ rest) v = Ok (hdr v n ++ rest).
Proof.
  unfold lpSetTotalBytes, hdr. cbn [le_bytes app].
  repeat first [rewrite wr_0 | rewrite wr_cons by lia | progress cbn [mbind res_bind]].
  rewrite byte_at_0, !byte_at_land by lia. by rewrite !Z.div_div by lia.
Qed.

Lemma set_num t n rest v : lpSetNumElements (hdr t n ++ rest) v = Ok (hdr t v ++ rest).
Proof.
  unfold lpSetNumElements, hdr. cbn [le_bytes app].
  repeat first [rewrite wr_0 | rewrite wr_cons by lia | progress cbn [mbind res_bind]].
  by rewrite byte_at_0, !byte_at_land by lia.
Qed.

(** ** Representation *)

Definition body (es : list elem) : bytes := concat (entry <$> es).

(** The offset of the element after [l]. *)
Definition pos (l : list elem) : Z := LP_HDR_SIZE + zlen (body l).

(** The size of a listpack of [es]. *)
Definition total (es : list elem) : Z := pos es + 1.

Definition lpenc (num : Z) (es : list elem) (slack : bytes) : bytes :=
  hdr (total es) num ++ body es ++ LP_EOF :: slack.

(** The count in the header is exact or says unknown. *)
Definition num_ok (num : Z) (es : list elem) : Prop :=
  (num = zlen es /\ num < LP_HDR_NUMELE_UNKNOWN) \/ num = LP_HDR_NUMELE_UNKNOWN.

Definition repr (lp : bytes) (es : list elem) : Prop :=
  exists num slack, lp = lpenc num es slack /\ num_ok num es /\ Forall elem_ok es /\
    total es < 2 ^ 32.

Lemma body_app l r : body (l ++ r) = body l ++ body r.
Proof. unfold body. by rewrite fmap_app, concat_app. Qed.

Lemma body_cons e r : body (e :: r) = entry e ++ body r.
Proof. done. Qed.

Lemma pos_app l r : pos (l ++ r) = pos l + zlen (body r).
Proof. unfold pos. rewrite body_app, zlen_app. lia. Qed.

Lemma pos_ge l : LP_HDR_SIZE <= pos l.
Proof. unfold pos. pose proof (zlen_nonneg (body l)). lia. Qed.

Lemma total_app l r : total (l ++ r) = pos l + zlen (body r) + 1.
Proof. unfold total. rewrite pos_app. lia. Qed.

Lemma zlen_entry e : zlen (entry e) = zlen (data e) + backlen_size (zlen (data e)).
Proof. unfold entry. by rewrite zlen_app, zlen_backlen. Qed.

Lemma pos_snoc l e :
  pos (l ++ [e]) = pos l + (zlen (data e) + backlen_size (zlen (data e)) + 0).
Proof. rewrite pos_app, body_cons, zlen_app, zlen_entry. done. Qed.

Lemma num_range num es : num_ok num es -> 0 <= num < 2 ^ 16.
Proof.
  unfold num_ok, LP_HDR_NUMELE_UNKNOWN, UINT16_MAX. pose proof (zlen_nonneg es). lia.
Qed.

Lemma total_range es : 7 <= total es.
Proof. unfold total. pose proof (pos_ge es). unfold LP_HDR_SIZE in *. lia. Qed.

(** A listpack seen from a cursor. *)
Definition before (t num : Z) (l : list elem) : bytes := hdr t num ++ body l.

Lemma zlen_before t num l : zlen (before t num l) = pos l.
Proof. unfold before. by rewrite zlen_app, zlen_hdr. Qed.

Lemma lpenc_split num l r slack :
  lpenc num (l ++ r) slack = before (total (l ++ r)) num l ++ body r ++ LP_EOF :: slack.
Proof. unfold lpenc, before. by rewrite body_app, <- !app_assoc. Qed.

Lemma lpenc_cursor num l e r slack :
  lpenc num (l ++ e :: r) slack
  = before (total (l ++ e :: r)) num l ++ entry e ++ body r ++ LP_EOF :: slack.
Proof. by rewrite lpenc_split, body_cons, <- app_assoc. Qed.

Lemma entry_head e : elem_ok e -> exists b d, entry e = b :: d /\ (b =? LP_EOF) = false.
Proof.
  intros He. destruct (data_head e He) as (b & d & Hd & Hb). unfold entry. rewrite Hd.
  eexists _, _. split; [done|]. apply Z.eqb_neq. unfold LP_EOF. lia.
Qed.

(** ** Validation accepts what the encoder writes *)

Lemma validate_entry e pre post lpbytes :
  elem_ok e -> LP_HDR_SIZE <= zlen pre -> zlen (pre ++ entry e) < lpbytes ->
  lpValidateNext (pre ++ entry e ++ post) (Some (zlen pre)) lpbytes
  = Ok (true, Some (zlen (pre ++ entry e))).
Proof.
  intros He Hp Hl. unfold lpValidateNext, OUT_OF_RANGE.
  pose proof (zlen_data e He) as Hd. pose proof (backlen_size_range (zlen (data e))) as Hb.
  rewrite zlen_app, zlen_entry in Hl |- *.
  rewrite (proj2 (Z.ltb_ge (zlen pre) _)) by lia.
  rewrite (proj2 (Z.ltb_ge _ (zlen pre))) by lia. cbn [orb].
  destruct (entry_head e He) as (b & d & Hh & Hne).
  rewrite Hh. cbn [app]. rewrite rd_here. cbn [mbind res_bind]. rewrite Hne.
  change (b :: d ++ post) with ((b :: d) ++ post). rewrite <- Hh. clear Hh Hne.
  unfold entry. rewrite <- app_assoc.
  destruct (size_bytes e pre (backlen (zlen (data e)) ++ post) He) as (k & -> & Hk).
  cbn [mbind res_bind]. rewrite (proj2 (Z.eqb_neq k 0)) by lia.
  rewrite (proj2 (Z.ltb_ge (zlen pre + k) _)) by lia.
  rewrite (proj2 (Z.ltb_ge _ (zlen pre + k))) by lia. cbn [orb].
  rewrite size_unsafe by done. cbn [mbind res_bind]. fold (backlen_size (zlen (data e))).
  rewrite (wrapu_small 64) by lia.
  rewrite (proj2 (Z.ltb_ge (zlen pre + _) _)) by lia.
  rewrite (proj2 (Z.ltb_ge _ (zlen pre + _))) by lia. cbn [orb].
  replace (zlen pre + (zlen (data e) + backlen_size (zlen (data e))) - 1)
    with (zlen (pre ++ data e) + backlen_size (zlen (data e)) - 1) by (zlen_simpl; lia).
  rewrite (app_assoc pre), decode_backlen by lia. cbn [mbind res_bind].
  rewrite (wrapu_small 64) by lia. rewrite Z.eqb_refl. done.
Qed.

Lemma validate_eof pre post lpbytes :
  LP_HDR_SIZE <= zlen pre < lpbytes ->
  lpValidateNext (pre ++ LP_EOF :: post) (Some (zlen pre)) lpbytes = Ok (true, None).
Proof.
  intros Hp. unfold lpValidateNext, OUT_OF_RANGE.
  rewrite (proj2 (Z.ltb_ge (zlen pre) _)) by lia.
  rewrite (proj2 (Z.ltb_ge _ (zlen pre))) by lia. cbn [orb].
  by rewrite rd_here.
Qed.

(** Every position of a listpack passes the assertion of the cursors. *)
Lemma assert_valid num l r slack :
  Forall elem_ok (l ++ r) ->
  lpAssertValidEntry (lpenc num (l ++ r) slack) (total (l ++ r)) (pos l) = Ok tt.
Proof.
  intros [_ Hr]%Forall_app. unfold lpAssertValidEntry. pose proof (pos_ge l).
  rewrite total_app. pose proof (zlen_nonneg (body r)).
  rewrite <- (zlen_before (total (l ++ r)) num l) in *.
  destruct r as [|e r].
  - rewrite lpenc_split. cbn [body fmap list_fmap concat app].
    rewrite validate_eof by (cbn in *; lia). done.
  - apply Forall_cons_1 in Hr as [He _]. rewrite lpenc_cursor, validate_entry; try done.
    rewrite body_cons in *. rewrite !zlen_app in *. pose proof (zlen_nonneg (body r)). lia.
Qed.

(** ** Traversal *)

(** The byte under a cursor tells whether elements follow. *)
Lemma rd_tail pre r s :
  Forall elem_ok r -> exists b, rd (pre ++ body r ++ LP_EOF :: s) (zlen pre) = Ok b /\
  (b =? LP_EOF) = (match r with [] => true | _ => false end).
Proof.
  intros Hr. destruct r as [|e r].
  - exists LP_EOF. split; [apply rd_here|done].
  - apply Forall_cons_1 in Hr as [He _]. destruct (entry_head e He) as (b & d & Hh & Hb).
    exists b. rewrite body_cons, Hh. cbn [app]. by rewrite rd_here.
Qed.

Section traversal.
Context (num : Z) (slack : bytes).

Lemma bytes_spec es :
  total es < 2 ^ 32 -> lpGetTotalBytes (lpenc num es slack) = Ok (total es).
Proof. intros. apply get_total. pose proof (total_range es). lia. Qed.

Lemma num_spec es :
  num_ok num es -> lpGetNumElements (lpenc num es slack) = Ok num.
Proof. intros Hn. apply get_num. by eapply num_range. Qed.

Lemma set_num_spec es v :
  lpSetNumElements (lpenc num es slack) v = Ok (lpenc v es slack).
Proof. apply set_num. Qed.

Lemma zlen_lpenc es : zlen (lpenc num es slack) = total es + zlen slack.
Proof. unfold lpenc, total, pos. rewrite zlen_app, zlen_hdr. zlen_simpl. unfold LP_HDR_SIZE. lia. Qed.

Lemma rd_pos l r :
  Forall elem_ok (l ++ r) -> exists b, rd (lpenc num (l ++ r) slack) (pos l) = Ok b /\
  (b =? LP_EOF) = (match r with [] => true | _ => false end).
Proof.
  intros [_ Hr]%Forall_app. rewrite <- (zlen_before (total (l ++ r)) num l), lpenc_split.
  by apply rd_tail.
Qed.

Lemma skip_pos l e r :
  elem_ok e -> lpSkip (lpenc num (l ++ e :: r) slack) (pos l) = Ok (pos (l ++ [e])).
Proof.
  intros He. rewrite lpenc_cursor, <- (zlen_before (total (l ++ e :: r)) num l), skip_spec by done.
  f_equal. rewrite pos_app, body_cons, !zlen_app, zlen_before. cbn. by rewrite Z.add_0_r.
Qed.

Lemma next_spec l e r :
  Forall elem_ok (l ++ e :: r) -> total (l ++ e :: r) < 2 ^ 32 ->
  lpNext (lpenc num (l ++ e :: r) slack) (pos l)
  = Ok (match r with [] => None | _ => Some (pos (l ++ [e])) end).
Proof.
  intros Hok Ht. unfold lpNext. pose proof Hok as [_ [He _]%Forall_cons_1]%Forall_app.
  rewrite skip_pos by done. cbn [mbind res_bind].
  rewrite <- (snoc_app l e r) in *.
  destruct (rd_pos (l ++ [e]) r Hok) as (b & -> & Hb). cbn [mbind res_bind]. rewrite Hb.
  destruct r as [|e' r]; [done|]. unfold lpBytes. rewrite bytes_spec by done.
  cbn [mbind res_bind]. rewrite assert_valid by done. done.
Qed.

Lemma first_spec es :
  Forall elem_ok es -> total es < 2 ^ 32 ->
  lpFirst (lpenc num es slack) = Ok (match es with [] => None | _ => Some LP_HDR_SIZE end).
Proof.
  intros Hok Ht. unfold lpFirst. destruct (rd_pos [] es Hok) as (b & Hr & Hb). cbn [app] in Hr.
  change (pos []) with LP_HDR_SIZE in Hr. rewrite Hr. cbn [mbind res_bind]. rewrite Hb.
  destruct es as [|e es]; [done|]. unfold lpBytes. rewrite bytes_spec by done.
  cbn [mbind res_bind]. pose proof (assert_valid num [] (e :: es) slack Hok) as Hv.
  cbn [app] in Hv. change (pos []) with LP_HDR_SIZE in Hv. by rewrite Hv.
Qed.

Lemma prev_spec l e r :
  Forall elem_ok (l ++ e :: r) -> total (l ++ e :: r) < 2 ^ 32 ->
  lpPrev (lpenc num (l ++ e :: r) slack) (pos (l ++ [e])) = Ok (Some (pos l)).
Proof.
  intros Hok Ht. unfold lpPrev. pose proof Hok as [_ [He _]%Forall_cons_1]%Forall_app.
  pose proof (zlen_data e He) as Hd. pose proof (backlen_size_range (zlen (data e))) as Hb.
  pose proof (pos_ge l). rewrite pos_snoc.
  rewrite (proj2 (Z.eqb_neq _ LP_HDR_SIZE)) by lia.
  assert (Hdec : lpDecodeBacklen (lpenc num (l ++ e :: r) slack)
    (pos l + (zlen (data e) + backlen_size (zlen (data e)) + 0) - 1) = Ok (zlen (data e))).
  { rewrite lpenc_cursor. unfold entry. rewrite <- (app_assoc (data e)), (app_assoc _ (data e)).
    rewrite <- (decode_backlen (before (total (l ++ e :: r)) num l ++ data e) (zlen (data e))
      (body r ++ LP_EOF :: slack)) by lia.
    f_equal. rewrite zlen_app, zlen_before. lia. }
  rewrite Hdec. cbn [mbind res_bind]. fold (backlen_size (zlen (data e))).
  rewrite !(wrapu_small 64) by (rewrite ?wrapu_small; lia).
  unfold lpBytes. rewrite bytes_spec by done. cbn [mbind res_bind].
  replace (pos l + _ - 1 - _) with (pos l) by lia. rewrite assert_valid by done. done.
Qed.

Lemma prev_first es : lpPrev (lpenc num es slack) (pos []) = Ok None.
Proof. done. Qed.

Lemma last_spec l e :
  Forall elem_ok (l ++ [e]) -> total (l ++ [e]) < 2 ^ 32 ->
  lpLast (lpenc num (l ++ [e]) slack) = Ok (Some (pos l)).
Proof.
  intros Hok Ht. unfold lpLast. rewrite bytes_spec by done. cbn [mbind res_bind].
  replace (total (l ++ [e]) - 1) with (pos (l ++ [e])) by (unfold total; lia).
  by apply prev_spec.
Qed.

Lemma last_nil : lpLast (lpenc num [] slack) = Ok None.
Proof. unfold lpLast. by rewrite bytes_spec. Qed.

End traversal.

(** The number of elements is bounded by the number of bytes. *)
Lemma zlen_body_ge es : Forall elem_ok es -> 2 * zlen es <= zlen (body es).
Proof.
  induction 1 as [|e es He _ IH]; [done|]. rewrite body_cons, zlen_app, zlen_cons, zlen_entry.
  pose proof (zlen_data e He). pose proof (backlen_size_range (zlen (data e))). lia.
Qed.

Lemma length_lpenc num es slack : Forall elem_ok es -> (length es < length (lpenc num es slack))%nat.
Proof.
  intros Hok. pose proof (zlen_body_ge es Hok) as Hb. unfold lpenc, zlen in *.
  rewrite !length_app. cbn [length]. lia.
Qed.

(** ** Length *)

Lemma length_loop num slack r : forall fuel l count,
  (length r < fuel)%nat -> Forall elem_ok (l ++ r) -> total (l ++ r) < 2 ^ 32 ->
  0 <= count -> count + zlen r < 2 ^ 32 ->
  lpLength_loop fuel (lpenc num (l ++ r) slack)
    (match r with [] => None | _ => Some (pos l) end) count = Ok (count + zlen r).
Proof.
  induction r as [|e r IH]; intros fuel l count Hf Hok Ht Hc Hl; destruct fuel as [|fuel];
    try (cbn in Hf; lia); cbn [lpLength_loop].
  - rewrite zlen_nil. f_equal. lia.
  - rewrite next_spec by done. cbn [mbind res_bind]. rewrite zlen_cons in *.
    pose proof (zlen_nonneg r). rewrite (wrapu_small 32) by lia.
    rewrite <- (snoc_app l e r) in *. cbn [length] in Hf. rewrite IH by (done || lia).
    f_equal. lia.
Qed.

Lemma length_spec lp es :
  repr lp es -> exists lp', lpLength lp = Ok (lp', zlen es) /\ repr lp' es /\ zlen lp' = zlen lp.
Proof.
  intros (num & slack & -> & Hn & Hok & Ht). unfold lpLength.
  pose proof (num_range num es Hn). pose proof (zlen_nonneg es).
  rewrite num_spec by done. cbn [mbind res_bind].
  destruct (Z.eqb_spec num LP_HDR_NUMELE_UNKNOWN) as [->|Hne]; cbn [negb].
  - rewrite first_spec by done. cbn [mbind res_bind].
    pose proof (length_lpenc LP_HDR_NUMELE_UNKNOWN es slack Hok).
    pose proof (zlen_body_ge es Hok). unfold total, pos, LP_HDR_SIZE in Ht.
    pose proof (length_loop LP_HDR_NUMELE_UNKNOWN slack es
      (S (length (lpenc LP_HDR_NUMELE_UNKNOWN es slack))) [] 0 ltac:(lia) Hok ltac:(done) ltac:(lia) ltac:(lia)) as Hl.
    cbn [app] in Hl. change (pos []) with LP_HDR_SIZE in Hl. rewrite Hl. cbn [mbind res_bind].
    rewrite Z.add_0_l. destruct (Z.ltb_spec (zlen es) LP_HDR_NUMELE_UNKNOWN).
    + rewrite set_num_spec. cbn [mbind res_bind].
      eexists. split; [done|]. split; [|by rewrite !zlen_lpenc].
      exists (zlen es), slack. split; [done|]. split; [by left|done].
    + eexists. split; [done|]. split; [|done]. exists LP_HDR_NUMELE_UNKNOWN, slack. done.
  - destruct Hn as [[-> _]|?]; [|done]. eexists. split; [done|].
    split; [|done]. eexists _, _. split; [done|]. split; [|done].
    pose proof (num_range (zlen es) es). unfold num_ok in *. 
    left. split; [done|]. unfold LP_HDR_NUMELE_UNKNOWN, UINT16_MAX in *. lia.
Qed.

(** ** Seeking *)

Lemma seek_forward num slack r : forall fuel l k,
  (length r < fuel)%nat -> Forall elem_ok (l ++ r) -> total (l ++ r) < 2 ^ 32 -> 0 <= k ->
  lpSeek_forward fuel (lpenc num (l ++ r) slack)
    (match r with [] => None | _ => Some (pos l) end) k
  = Ok (if k <? zlen r then Some (pos (l ++ take (Z.to_nat k) r)) else None).
Proof.
  induction r as [|e r IH]; intros fuel l k Hf Hok Ht Hk; destruct fuel as [|fuel];
    try (cbn in Hf; lia); cbn [lpSeek_forward].
  - by rewrite (proj2 (Z.ltb_ge k _)) by (unfold zlen; cbn; lia).
  - pose proof (zlen_nonneg r). rewrite zlen_cons. destruct (Z.ltb_spec 0 k).
    + rewrite next_spec by done. cbn [mbind res_bind].
      rewrite <- (snoc_app l e r) in *. cbn [length] in Hf.
      rewrite IH by (done || lia). replace (Z.to_nat k) with (S (Z.to_nat (k - 1))) by lia.
      cbn [take]. rewrite (snoc_app l e).
      destruct (Z.ltb_spec (k - 1) (zlen r)), (Z.ltb_spec k (1 + zlen r)); done || lia.
    + replace k with 0 by lia. rewrite (proj2 (Z.ltb_lt 0 _)) by lia.
      change (Z.to_nat 0) with 0%nat. by rewrite take_0, app_nil_r.
Qed.

Definition lastpos (l : list elem) : option Z :=
  match l with [] => None | _ => Some (pos (removelast l)) end.

Lemma lastpos_snoc l e : lastpos (l ++ [e]) = Some (pos l).
Proof. unfold lastpos. rewrite removelast_last. by destruct l. Qed.

Lemma seek_backward num slack l : forall fuel r index,
  (length l < fuel)%nat -> Forall elem_ok (l ++ r) -> total (l ++ r) < 2 ^ 32 -> index <= -1 ->
  lpSeek_backward fuel (lpenc num (l ++ r) slack) (lastpos l) index
  = Ok (if 0 <=? zlen l + index then Some (pos (take (Z.to_nat (zlen l + index)) l)) else None).
Proof.
  induction l as [|e l IH] using rev_ind; intros fuel r index Hf Hok Ht Hi; destruct fuel as [|fuel];
    try lia; cbn [lpSeek_backward].
  - cbn [lastpos]. by rewrite (proj2 (Z.leb_gt 0 _)) by (unfold zlen; cbn; lia).
  - rewrite lastpos_snoc, zlen_app. change (zlen [e]) with 1. pose proof (zlen_nonneg l).
    rewrite length_app in Hf. cbn [length] in Hf. destruct (Z.ltb_spec index (-1)).
    + rewrite (snoc_app l e r) in *.
      replace (lpPrev _ (pos l)) with (@Ok (option Z) (lastpos l)).
      2: { destruct l as [|e' l _] using rev_ind; [done|]. rewrite lastpos_snoc.
           rewrite (snoc_app l e') in *. by rewrite prev_spec. }
      cbn [mbind res_bind]. rewrite IH by (done || lia).
      replace (zlen l + (index + 1)) with (zlen l + 1 + index) by lia.
      destruct (Z.leb_spec 0 (zlen l + 1 + index)); [|done].
      rewrite take_app_le; [done|]. unfold zlen. lia.
    + replace index with (-1) by lia. rewrite (proj2 (Z.leb_le 0 _)) by lia.
      replace (zlen l + 1 + -1) with (zlen l) by lia. by rewrite to_nat_zlen, take_app_length.
Qed.

(** The element index that [index] denotes: negative ones count from the end. *)
Definition norm_index (es : list elem) (index : Z) : Z :=
  if index <? 0 then zlen es + index else index.

Lemma seek_spec num es slack index :
  num_ok num es -> Forall elem_ok es -> total es < 2 ^ 32 ->
  lpSeek (lpenc num es slack) index
  = Ok (let i := norm_index es index in
        if (0 <=? i) && (i <? zlen es) then Some (pos (take (Z.to_nat i) es)) else None).
Proof.
  intros Hn Hok Ht. unfold lpSeek. rewrite num_spec by done. cbn [mbind res_bind].
  set (scan := lpSeek_scan _).
  pose proof (length_lpenc num es slack Hok) as Hl. pose proof (zlen_nonneg es) as Hz.
  assert (Hfwd : forall k, 0 <= k -> scan true k
    = Ok (if k <? zlen es then Some (pos (take (Z.to_nat k) es)) else None)).
  { intros k Hk. unfold scan, lpSeek_scan. rewrite first_spec by done. cbn [mbind res_bind].
    apply (seek_forward num slack es _ [] k); (done || lia). }
  assert (Hbwd : forall k, k <= -1 -> scan false k
    = Ok (if 0 <=? zlen es + k then Some (pos (take (Z.to_nat (zlen es + k)) es)) else None)).
  { intros k Hk. unfold scan, lpSeek_scan. replace (lpLast _) with (@Ok (option Z) (lastpos es)).
    2: { destruct es as [|e es _] using rev_ind; [by rewrite last_nil|].
         by rewrite lastpos_snoc, last_spec. }
    cbn [mbind res_bind]. pose proof (seek_backward num slack es (S (length (lpenc num es slack))) [] k) as H.
    rewrite app_nil_r in H. apply H; (done || lia). }
  clearbody scan. unfold norm_index. cbv zeta.
  destruct (Z.eqb_spec num LP_HDR_NUMELE_UNKNOWN) as [_|Hne]; cbn [negb].
  - destruct (Z.ltb_spec index 0); cbn [negb].
    + rewrite Hbwd by lia. rewrite (proj2 (Z.ltb_lt (zlen es + index) (zlen es))) by lia.
      by rewrite andb_true_r.
    + rewrite Hfwd by lia. by rewrite (proj2 (Z.leb_le 0 index)) by lia.
  - destruct Hn as [[-> _]|?]; [|done]. set (i := if index <? 0 then _ else _).
    destruct (Z.ltb_spec i 0); [by rewrite (proj2 (Z.leb_gt 0 i))|].
    rewrite (proj2 (Z.leb_le 0 i)) by lia.
    destruct (Z.leb_spec (zlen es) i); [by rewrite (proj2 (Z.ltb_ge i (zlen es)))|].
    rewrite (proj2 (Z.ltb_lt i (zlen es))) by lia. cbn [andb].
    destruct (zlen es / 2 <? i).
    + rewrite Hbwd by lia. rewrite (proj2 (Z.leb_le 0 _)) by lia.
      by replace (zlen es + (i - zlen es)) with i by lia.
    + rewrite Hfwd by lia. by rewrite (proj2 (Z.ltb_lt i _)) by lia.
Qed.

(** ** Insertion, replacement and deletion *)

Lemma elem_of_str s s' : elem_of s = EStr s' -> s' = s.
Proof. intros He. pose proof (text_elem_of s) as Ht. by rewrite He in Ht. Qed.

(** What the arguments of [lpInsert] denote. *)
Inductive payload : option bytes -> option bytes -> Z -> elem -> Prop :=
| pay_str s : wf_bytes s -> zlen s < 2 ^ 32 -> payload (Some s) None (zlen s) (elem_of s)
| pay_int v : is_i64 v ->
    payload None (Some (data (EInt v))) (zlen (data (EInt v))) (EInt v).

Lemma payload_size es ei size e : payload es ei size e -> 1 <= zlen (data e) <= 2 ^ 32 + 5.
Proof.
  intros [s Hs Hl|v Hv]; [|pose proof (zlen_data (EInt v) Hv); lia].
  pose proof (zlen_nonneg s). destruct (decide (zlen s < 2 ^ 32 - 5)) as [?|?].
  - pose proof (zlen_data (elem_of s) (elem_of_ok s Hs ltac:(done))). lia.
  - destruct (elem_of s) as [v|s'] eqn:He.
    + apply elem_of_int in He as [Hv ->]. pose proof (Util.decimal_length v Hv). lia.
    + apply elem_of_str in He as ->. rewrite zlen_data_str. repeat case_match; lia.
Qed.

(** An element that fits the 4GB limit is well formed. *)
Lemma payload_ok es ei size e :
  payload es ei size e -> zlen (data e) < 2 ^ 32 -> elem_ok e.
Proof.
  intros [s Hs Hl|v Hv]; [|done]. intros Hd.
  destruct (decide (zlen s < 2 ^ 32 - 5)) as [?|?]; [by apply elem_of_ok|].
  destruct (elem_of s) as [v|s'] eqn:He.
  - by apply elem_of_int in He as [Hv _].
  - apply elem_of_str in He as ->. rewrite zlen_data_str in Hd. repeat case_match; lia.
Qed.

(** Filling the room of an entry, for an integer and for a string. *)
Lemma store_int v pre room post :
  is_i64 v -> zlen room = zlen (entry (EInt v)) ->
  (lp ← wrn (pre ++ room ++ post) (zlen pre) (data (EInt v));
   wrn lp (zlen pre + zlen (data (EInt v))) (backlen (zlen (data (EInt v)))))
  = Ok (pre ++ entry (EInt v) ++ post).
Proof.
  intros Hv Hr. rewrite zlen_entry, <- zlen_backlen in Hr.
  apply split_room in Hr as (r1 & r2 & -> & H1%zlen_length & H2%zlen_length); [|apply zlen_nonneg..].
  rewrite <- (app_assoc r1), wrn_app by done. cbn [mbind res_bind].
  rewrite (app_assoc pre), <- zlen_app, wrn_app by done.
  unfold entry. by rewrite <- !app_assoc.
Qed.

Lemma store_str s pre room post :
  elem_ok (EStr s) -> zlen room = zlen (entry (EStr s)) ->
  (lp ← lpEncodeString (pre ++ room ++ post) (zlen pre) s (zlen s);
   wrn lp (zlen pre + zlen (data (EStr s))) (backlen (zlen (data (EStr s)))))
  = Ok (pre ++ entry (EStr s) ++ post).
Proof.
  intros Hok Hr. rewrite zlen_entry, <- zlen_backlen in Hr.
  apply split_room in Hr as (r1 & r2 & -> & H1%zlen_length & H2%zlen_length); [|apply zlen_nonneg..].
  rewrite <- (app_assoc r1), encode_string by done. cbn [mbind res_bind].
  rewrite (app_assoc pre), <- zlen_app, wrn_app by done.
  unfold entry. by rewrite <- !app_assoc.
Qed.

Lemma insert_encode es ei size e :
  payload es ei size e -> exists t i,
  lpInsert_encode es ei size = Ok (Some t, i, zlen (data e)) /\
  forall pre room post, elem_ok e -> zlen room = zlen (entry e) ->
  lpInsert_store (pre ++ room ++ post) (zlen pre) (Some t) i es size (zlen (data e))
    (backlen (zlen (data e))) = Ok (pre ++ entry e ++ post).
Proof.
  intros [s Hs Hl|v Hv].
  - unfold lpInsert_encode. rewrite encode_get_type by done. cbn [mbind res_bind].
    destruct (elem_of s) as [v|s'] eqn:He.
    + eexists _, _. split; [done|]. intros pre room post Hok Hr. cbn [lpInsert_store].
      rewrite rdn_all. by apply store_int.
    + apply elem_of_str in He as ->.
      eexists _, _. split; [done|]. intros pre room post Hok Hr. by apply store_str.
  - eexists _, _. split; [done|]. intros pre room post _ Hr. cbn [lpInsert_store].
    rewrite rdn_all. by apply store_int.
Qed.

Section relocation.
Context `{Allocator}.

(** The reallocation before and after the tail is moved. *)
Lemma grow_spec (a r t s : bytes) old new :
  old = zlen (a ++ r ++ t) -> exists s',
  (if (old <? new) && (zlen (a ++ r ++ t ++ s) <? new)
   then zrealloc (a ++ r ++ t ++ s) new else a ++ r ++ t ++ s) = a ++ r ++ t ++ s' /\
  new <= zlen (a ++ r ++ t ++ s').
Proof.
  intros ->. rewrite (app_assoc r t s), (app_assoc a (r ++ t) s).
  pose proof (zlen_nonneg s). pose proof (zlen_nonneg (a ++ r ++ t)).
  destruct (Z.ltb_spec (zlen (a ++ r ++ t)) new); cbn [andb].
  - destruct (Z.ltb_spec (zlen ((a ++ r ++ t) ++ s)) new).
    + destruct (zrealloc_prefix (a ++ r ++ t) s new ltac:(lia)) as (s' & Hs').
      exists s'. rewrite Hs', (app_assoc r t s'), (app_assoc a (r ++ t) s'). split; [done|].
      rewrite <- Hs'. apply zlen_zrealloc. lia.
    + exists s. rewrite (app_assoc r t s), (app_assoc a (r ++ t) s). done.
  - exists s. rewrite (app_assoc r t s), (app_assoc a (r ++ t) s). split; [done|]. rewrite zlen_app. lia.
Qed.

Lemma shrink_spec (a g t s : bytes) old new :
  new = zlen (a ++ g ++ t) -> exists s',
  (if new <? old then zrealloc (a ++ g ++ t ++ s) new else a ++ g ++ t ++ s)
  = a ++ g ++ t ++ s'.
Proof.
  intros ->. rewrite (app_assoc g t s), (app_assoc a (g ++ t) s). destruct (_ <? old).
  - destruct (zrealloc_prefix (a ++ g ++ t) s (zlen (a ++ g ++ t)) ltac:(lia)) as (s' & ->).
    exists s'. by rewrite <- !app_assoc.
  - exists s. by rewrite <- !app_assoc.
Qed.

End relocation.

(** How [lpInsert] treats the place it works on: it inserts before the tail,
    or replaces one element. *)
Inductive place : lpwhere -> list elem -> Prop :=
| place_before : place LP_BEFORE []
| place_replace e : place LP_REPLACE [e].

Lemma size_at num l e r slack :
  elem_ok e ->
  lpCurrentEncodedSizeUnsafe (lpenc num (l ++ e :: r) slack) (pos l) = Ok (zlen (data e)).
Proof.
  intros He. rewrite lpenc_cursor, <- (zlen_before (total (l ++ e :: r)) num l).
  unfold entry. rewrite <- app_assoc. by apply size_unsafe.
Qed.

Lemma replaced_spec num l e r slack :
  Forall elem_ok (l ++ e :: r) -> total (l ++ e :: r) < 2 ^ 32 ->
  (n ← lpCurrentEncodedSizeUnsafe (lpenc num (l ++ e :: r) slack) (pos l);
   let n := u32 (n + snd (lpEncodeBacklen n)) in
   _ ← ASSERT_INTEGRITY_LEN (lpenc num (l ++ e :: r) slack) (pos l) n; Ok n)
  = Ok (zlen (body [e])).
Proof.
  intros Hok Ht. pose proof Hok as [_ [He _]%Forall_cons_1]%Forall_app.
  rewrite size_at by done. cbn [mbind res_bind]. fold (backlen_size (zlen (data e))).
  rewrite <- zlen_entry. rewrite total_app, body_cons, zlen_app in Ht.
  pose proof (pos_ge l). pose proof (zlen_nonneg (body r)). pose proof (zlen_nonneg (entry e)).
  unfold LP_HDR_SIZE in *. rewrite (wrapu_small 32) by lia.
  unfold ASSERT_INTEGRITY_LEN. rewrite bytes_spec by (rewrite total_app, body_cons, zlen_app; lia).
  cbn [mbind res_bind]. rewrite total_app, body_cons, zlen_app. unfold LP_HDR_SIZE.
  rewrite (proj2 (Z.leb_le 6 (pos l))) by lia. rewrite (proj2 (Z.ltb_lt _ _)) by lia.
  cbn. by rewrite app_nil_r.
Qed.

Section insertion.
Context `{Allocator}.

(** Making room: a gap of [k] bytes in place of [mid], the tail kept. *)
Lemma make_room num l mid r slack w k :
  place w mid -> 0 <= k -> total (l ++ mid ++ r) < 2 ^ 32 ->
  let lp := lpenc num (l ++ mid ++ r) slack in
  let old := total (l ++ mid ++ r) in
  let new := pos l + k + zlen (body r) + 1 in
  let lp := if (old <? new) && (zlen lp <? new) then zrealloc lp new else lp in
  exists g s',
  match w with
  | LP_BEFORE => memmove lp (pos l + k) (pos l) (u64 (old - pos l))
  | _ => memmove lp (pos l + k) (pos l + zlen (body mid)) (u64 (old - pos l - zlen (body mid)))
  end = Ok (before old num l ++ g ++ (body r ++ [LP_EOF]) ++ s') /\ zlen g = k.
Proof.
  intros Hw Hk Ht lp old new. subst lp.
  set (A := before old num l). set (T := body r ++ [LP_EOF]).
  assert (HA : zlen A = pos l) by apply zlen_before.
  assert (HT : zlen T = zlen (body r) + 1) by (unfold T; by rewrite zlen_app).
  assert (Hlp : lpenc num (l ++ mid ++ r) slack = A ++ body mid ++ T ++ slack)
    by (unfold A, T, old; by rewrite lpenc_split, body_app, <- !app_assoc).
  assert (Hold : old = zlen (A ++ body mid ++ T)).
  { unfold old. rewrite total_app, body_app, !zlen_app, HA, HT. lia. }
  pose proof (zlen_nonneg (body mid)). pose proof (zlen_nonneg (body r)). pose proof (pos_ge l).
  rewrite Hlp. destruct (grow_spec A (body mid) T slack old new Hold) as (s1 & -> & Hg).
  destruct (memmove_gap A (body mid) T s1 k Hk) as (g & s' & Hm & Hgl).
  { rewrite zlen_app in Hg. unfold new in Hg. lia. }
  exists g, s'. split; [|done]. rewrite HA in Hm. rewrite !zlen_app, HA, HT in Hold.
  unfold LP_HDR_SIZE in *. rewrite !(wrapu_small 64) by lia.
  destruct Hw as [|e0].
  - cbn [app] in *. change (zlen (body [])) with 0 in *.
    replace (old - pos l) with (zlen T) by lia. by rewrite Z.add_0_r in Hm.
  - by replace (old - pos l - zlen (body [e0])) with (zlen T) by lia.
Qed.

(** The new count in the header. *)
Definition newnum (isreplace delete : bool) (num : Z) : Z :=
  if (negb isreplace || delete) && negb (num =? LP_HDR_NUMELE_UNKNOWN)
  then if delete then num - 1 else num + 1 else num.

Lemma header_spec t num rest isreplace delete new :
  0 <= num < 2 ^ 16 -> (delete = true -> num <> 0) ->
  lpInsert_header (hdr t num ++ rest) isreplace delete new
  = Ok (hdr new (newnum isreplace delete num) ++ rest).
Proof.
  intros Hn Hd. unfold lpInsert_header, newnum. rewrite get_num by done. cbn [mbind res_bind].
  destruct isreplace, delete, (num =? LP_HDR_NUMELE_UNKNOWN);
    cbn [negb orb andb mbind res_bind]; rewrite ?set_num; cbn [mbind res_bind];
    rewrite set_total, ?wrapu_small by lia; done.
Qed.

Lemma num_ok_place w mid l r e num :
  place w mid -> num_ok num (l ++ mid ++ r) ->
  num_ok (newnum (match w with LP_REPLACE => true | _ => false end) false num) (l ++ e :: r).
Proof.
  unfold num_ok, newnum. rewrite !zlen_app, zlen_cons. unfold LP_HDR_NUMELE_UNKNOWN, UINT16_MAX.
  intros [|e0] Hn; cbn [negb andb orb]; [change (zlen (@nil elem)) with 0 in *|change (zlen [e0]) with 1 in *];
    destruct (Z.eqb_spec num (2 ^ 16 - 1)); cbn [negb]; lia.
Qed.

(** The result of storing one element in place of [mid]. *)
Lemma insert_spec lp l mid r w es ei size e newp :
  place w mid -> repr lp (l ++ mid ++ r) -> payload es ei size e ->
  if total (l ++ e :: r) <? 2 ^ 32 then
    exists lp', lpInsert lp es ei size (pos l) w newp
      = Ok (Some (lp', if newp then Some (pos l) else None)) /\ repr lp' (l ++ e :: r)
  else lpInsert lp es ei size (pos l) w newp = Ok None.
Proof.
  intros Hw (num & slack & -> & Hn & Hok & Ht) Hp.
  pose proof (payload_size _ _ _ _ Hp) as Hsz.
  pose proof (backlen_size_range (zlen (data e))) as Hbs.
  destruct (insert_encode _ _ _ _ Hp) as (t & i & Henc & Hstore).
  assert (Hdel : (match es, ei with None, None => true | _, _ => false end) = false)
    by (by destruct Hp).
  pose proof (pos_ge l) as Hpos. pose proof (zlen_nonneg (body mid)). pose proof (zlen_nonneg (body r)).
  assert (Hold : total (l ++ mid ++ r) = pos l + zlen (body mid) + zlen (body r) + 1)
    by (rewrite total_app, body_app, zlen_app; lia).
  assert (Hnew : total (l ++ e :: r) = pos l + zlen (entry e) + zlen (body r) + 1)
    by (rewrite total_app, body_cons, zlen_app; lia).
  unfold lpInsert. rewrite Hdel.
  replace (match w with LP_BEFORE => Ok (pos l, w) | LP_AFTER => _ | LP_REPLACE => Ok (pos l, w) end)
    with (@Ok (Z * lpwhere) (pos l, w)) by (by destruct Hw).
  cbn [mbind res_bind]. rewrite Henc. cbn [mbind res_bind].
  rewrite (surjective_pairing (lpEncodeBacklen (zlen (data e)))).
  fold (backlen (zlen (data e))) (backlen_size (zlen (data e))).
  rewrite bytes_spec by done. cbn [mbind res_bind].
  match goal with |- context [match w with LP_BEFORE => Ok 0 | LP_AFTER => Ok 0 | LP_REPLACE => ?c end] =>
    replace (match w with LP_BEFORE => Ok 0 | LP_AFTER => Ok 0 | LP_REPLACE => c end)
      with (Ok (zlen (body mid))) by (destruct Hw; [done|symmetry; by apply replaced_spec]) end.
  cbn [mbind res_bind]. unfold LP_HDR_SIZE in *.
  rewrite (wrapu_small 64) by lia.
  replace (total (l ++ mid ++ r) + zlen (data e) + backlen_size (zlen (data e)) - zlen (body mid))
    with (total (l ++ e :: r)) by (rewrite zlen_entry in Hnew; lia).
  unfold UINT32_MAX.
  destruct (Z.ltb_spec (total (l ++ e :: r)) (2 ^ 32)) as [Hlt|Hge];
    [|by rewrite (proj2 (Z.ltb_lt _ _)) by lia].
  rewrite (proj2 (Z.ltb_ge _ _)) by lia.
  assert (He : elem_ok e) by (eapply payload_ok; [done|rewrite zlen_entry in Hnew; lia]).
  destruct (make_room num l mid r slack w (zlen (entry e)) Hw ltac:(apply zlen_nonneg) Ht)
    as (g & s1 & Hroom & Hg). rewrite <- Hnew, zlen_entry, Z.add_assoc in Hroom.
  rewrite Hroom. cbn [mbind res_bind].
  replace (if newp then Ok (Some (pos l)) else Ok None)
    with (@Ok (option Z) (if newp then Some (pos l) else None)) by (by destruct newp).
  cbn [mbind res_bind].
  destruct (shrink_spec (before (total (l ++ mid ++ r)) num l) g (body r ++ [LP_EOF]) s1
    (total (l ++ mid ++ r)) (total (l ++ e :: r))) as (s2 & ->).
  { rewrite !zlen_app, zlen_before, Hg, Hnew. change (zlen [LP_EOF]) with 1. lia. }
  rewrite <- (zlen_before (total (l ++ mid ++ r)) num l), Hstore by done. cbn [mbind res_bind].
  rewrite zlen_before. unfold before. rewrite <- !app_assoc, header_spec by (done || by eapply num_range).
  cbn [mbind res_bind]. eexists. split; [done|].
  eexists _, s2. split; [|split; [by eapply num_ok_place|split; [|lia]]].
  - unfold lpenc. by rewrite body_app, body_cons, <- !app_assoc.
  - apply Forall_app in Hok as [? [_ ?]%Forall_app]. apply Forall_app_2; [done|]. by constructor.
Qed.

(** Inserting after an element is inserting before the next position. *)
Lemma insert_after lp l e0 r es ei size e newp :
  repr lp (l ++ e0 :: r) -> payload es ei size e ->
  lpInsert lp es ei size (pos l) LP_AFTER newp
  = lpInsert lp es ei size (pos (l ++ [e0])) LP_BEFORE newp.
Proof.
  intros (num & slack & -> & Hn & Hok & Ht) Hp. unfold lpInsert.
  assert (Hdel : (match es, ei with None, None => true | _, _ => false end) = false)
    by (by destruct Hp).
  rewrite Hdel. pose proof Hok as [_ [He _]%Forall_cons_1]%Forall_app.
  rewrite skip_pos by done. cbn [mbind res_bind]. unfold ASSERT_INTEGRITY.
  rewrite bytes_spec by done. cbn [mbind res_bind].
  pose proof (pos_ge (l ++ [e0])). rewrite (proj2 (Z.leb_le _ _)) by done.
  rewrite <- snoc_app, total_app, (proj2 (Z.ltb_lt _ _)); [done|].
  pose proof (zlen_nonneg (body r)). lia.
Qed.

Lemma delete_spec lp l e r newp :
  repr lp (l ++ e :: r) -> exists lp',
  lpDelete lp (pos l) newp
  = Ok (Some (lp', if newp then (match r with [] => None | _ => Some (pos l) end) else None)) /\
  repr lp' (l ++ r).
Proof.
  intros (num & slack & -> & Hn & Hok & Ht). unfold lpDelete, lpInsert. cbn [mbind res_bind lpInsert_encode].
  rewrite bytes_spec by done. cbn [mbind res_bind]. rewrite replaced_spec by done. cbn [mbind res_bind].
  pose proof (pos_ge l). pose proof (zlen_nonneg (body r)). unfold LP_HDR_SIZE in *.
  pose proof (zlen_nonneg (body [e])).
  assert (Hnew : total (l ++ r) = pos l + 0 + zlen (body r) + 1) by (rewrite total_app; lia).
  assert (Hold : total (l ++ [e] ++ r) = pos l + zlen (body [e]) + zlen (body r) + 1)
    by (rewrite total_app, body_app, zlen_app; lia).
  change (l ++ e :: r) with (l ++ [e] ++ r) in *.
  rewrite !Z.add_0_r, (wrapu_small 64 (_ - _)) by lia.
  replace (total (l ++ [e] ++ r) - zlen (body [e])) with (total (l ++ r)) by lia.
  unfold UINT32_MAX. rewrite (proj2 (Z.ltb_ge _ (total (l ++ r)))) by lia.
  destruct (make_room num l [e] r slack LP_REPLACE 0 (place_replace e) ltac:(lia) Ht)
    as (g & s1 & Hroom & Hg).
  rewrite <- Hnew, Z.add_0_r in Hroom. rewrite Hroom. cbn [mbind res_bind].
  destruct (shrink_spec (before (total (l ++ [e] ++ r)) num l) g (body r ++ [LP_EOF]) s1
    (total (l ++ [e] ++ r)) (total (l ++ r))) as (s2 & ->).
  { rewrite !zlen_app, zlen_before, Hg, Hnew. change (zlen [LP_EOF]) with 1. lia. }
  apply zlen_nil_inv in Hg as ->.
  cbn [app lpInsert_store].
  assert (Hok' : Forall elem_ok (l ++ r))
    by (apply Forall_app in Hok as [? [_ ?]%Forall_app]; by apply Forall_app_2).
  rewrite <- (app_assoc (body r)). cbn [app].
  destruct (rd_tail (before (total (l ++ e :: r)) num l) r s2) as (b & Hb & Heof);
    [by apply Forall_app in Hok' as [_ ?]|].
  rewrite zlen_before in Hb. rewrite Hb. cbn [mbind res_bind]. rewrite Heof.
  unfold before. rewrite <- !app_assoc.
  replace (if newp then _ else _) with (@Ok (option Z) (if newp then
    match r with [] => None | _ => Some (pos l) end else None)) by (destruct newp, r; done).
  cbn [mbind res_bind]. pose proof (num_range _ _ Hn) as Hnr.
  assert (Hn0 : num <> 0 /\ num_ok (newnum true true num) (l ++ r)).
  { unfold num_ok, newnum in *. rewrite !zlen_app in *. change (zlen [e]) with 1 in *.
    pose proof (zlen_nonneg l). pose proof (zlen_nonneg r). unfold LP_HDR_NUMELE_UNKNOWN, UINT16_MAX in *.
    cbn [negb orb andb]. destruct (Z.eqb_spec num (2 ^ 16 - 1)); cbn [negb]; lia. }
  rewrite header_spec by (done || lia). cbn [mbind res_bind].
  eexists. split; [done|]. eexists _, s2. split; [|split; [apply Hn0|split; [done|lia]]].
  unfold lpenc. by rewrite body_app, <- !app_assoc.
Qed.

End insertion.

(** ** Batches *)

(** The element a [listpackEntry] denotes. *)
Definition elem_of_entry (e : listpackEntry) : elem :=
  match e with EntStr s _ => elem_of s | EntInt v => EInt v end.

Definition entry_arg_ok (e : listpackEntry) : Prop :=
  match e with
  | EntStr s n => n = zlen s /\ wf_bytes s /\ zlen s < 2 ^ 32
  | EntInt v => is_i64 v
  end.

Lemma entry_payload e :
  entry_arg_ok e -> exists es ei size, payload es ei size (elem_of_entry e).
Proof.
  destruct e as [s n|v]; cbn; [intros (-> & Hs & Hl)|intros Hv]; eexists _, _, _; by constructor.
Qed.

Lemma batch_encode e :
  entry_arg_ok e -> exists enc, lpBatch_encode e = Ok enc /\
  enclen_ enc + backlen_size_ enc = zlen (entry (elem_of_entry e)) /\
  1 <= enclen_ enc <= 2 ^ 32 + 5 /\ 1 <= backlen_size_ enc <= 5 /\
  forall pre room post, elem_ok (elem_of_entry e) -> zlen room = zlen (entry (elem_of_entry e)) ->
  lpBatch_store1 (pre ++ room ++ post) (zlen pre) e enc
    = Ok (pre ++ entry (elem_of_entry e) ++ post).
Proof.
  intros He. destruct (entry_payload e He) as (es & ei & size & Hp).
  pose proof (payload_size _ _ _ _ Hp) as Hsz.
  pose proof (backlen_size_range (zlen (data (elem_of_entry e)))) as Hb.
  rewrite zlen_entry. unfold lpBatch_encode, lpBatch_store1.
  destruct e as [s n|v]; cbn [entry_arg_ok elem_of_entry] in *.
  - destruct He as (-> & Hs & Hl). rewrite encode_get_type by done. cbn [mbind res_bind].
    destruct (elem_of s) as [v|s'] eqn:E; [|apply elem_of_str in E as ->];
      rewrite (surjective_pairing (lpEncodeBacklen _)); eexists; (split; [done|]);
      cbn [enctype_ intenc_ enclen_ backlen_ backlen_size_]; split_and!;
      try (done || lia || apply Hb); intros pre room post Hok Hr; rewrite <- zlen_entry in Hr;
      [rewrite rdn_all; by apply store_int|by apply store_str].
  - rewrite (surjective_pairing (lpEncodeIntegerGetType v)), zlen_data_int by done. cbn [mbind res_bind].
    rewrite (surjective_pairing (lpEncodeBacklen _)). eexists; split; [done|].
    cbn [enctype_ intenc_ enclen_ backlen_ backlen_size_]. split_and!; try (done || lia || apply Hb).
    intros pre room post Hok Hr. rewrite <- zlen_entry in Hr. change (fst (lpEncodeIntegerGetType v)) with (data (EInt v)).
    rewrite rdn_all. by apply store_int.
Qed.

Lemma batch_encode_all es : forall acc,
  Forall entry_arg_ok es -> 0 <= acc -> acc + zlen (body (elem_of_entry <$> es)) < 2 ^ 64 ->
  exists encs, lpBatch_encode_all es acc
    = Ok (encs, acc + zlen (body (elem_of_entry <$> es))) /\
  forall pre room post newp, Forall elem_ok (elem_of_entry <$> es) ->
    zlen room = zlen (body (elem_of_entry <$> es)) -> exists newp',
  lpBatch_store (pre ++ room ++ post) (zlen pre) es encs newp
    = Ok (pre ++ body (elem_of_entry <$> es) ++ post, newp').
Proof.
  induction es as [|e es IH]; intros acc Hok Hacc Hsum; cbn [lpBatch_encode_all fmap list_fmap] in *.
  { exists []. cbn in *. rewrite Z.add_0_r. split; [done|].
    intros pre room post newp _ Hr. exists newp. by apply zlen_nil_inv in Hr as ->. }
  apply Forall_cons_1 in Hok as [He Hok]. rewrite body_cons, zlen_app in Hsum |- *.
  destruct (batch_encode e He) as (enc & -> & Hlen & Hr1 & Hr2 & Hst). cbn [mbind res_bind].
  pose proof (zlen_nonneg (body (elem_of_entry <$> es))).
  rewrite (wrapu_small 64 (acc + _)), (wrapu_small 64) by lia.
  destruct (IH (acc + enclen_ enc + backlen_size_ enc) Hok ltac:(lia) ltac:(lia)) as (encs & -> & Hall).
  exists (enc :: encs). cbn [mbind res_bind fst snd]. split; [do 2 f_equal; lia|].
  intros pre room post newp [Hoke Hoks]%Forall_cons_1 Hr.
  apply split_room in Hr as (r1 & r2 & -> & H1 & H2); [|apply zlen_nonneg..].
  cbn [lpBatch_store]. rewrite <- (app_assoc r1), Hst by done. cbn [mbind res_bind].
  rewrite (app_assoc pre). replace (zlen pre + enclen_ enc + backlen_size_ enc)
    with (zlen (pre ++ entry (elem_of_entry e))) by (rewrite zlen_app; lia).
  destruct (Hall (pre ++ entry (elem_of_entry e)) r2 post (Some (zlen pre)) Hoks H2) as (newp' & ->).
  exists newp'. by rewrite <- !app_assoc.
Qed.

Lemma entries_ok es :
  Forall entry_arg_ok es -> zlen (body (elem_of_entry <$> es)) < 2 ^ 32 ->
  Forall elem_ok (elem_of_entry <$> es).
Proof.
  induction 1 as [|e es He _ IH]; cbn [fmap list_fmap]; [by constructor|].
  rewrite body_cons, zlen_app, zlen_entry. intros Hl.
  pose proof (zlen_nonneg (body (elem_of_entry <$> es))).
  pose proof (zlen_nonneg (data (elem_of_entry e))).
  pose proof (backlen_size_range (zlen (data (elem_of_entry e)))).
  destruct (entry_payload e He) as (? & ? & ? & Hp).
  constructor; [eapply payload_ok; [done|lia]|apply IH; lia].
Qed.

Section batches.
Context `{Allocator}.

Lemma batch_insert_spec lp l r es :
  repr lp (l ++ r) -> es <> [] -> Forall entry_arg_ok es ->
  let new := elem_of_entry <$> es in
  zlen (body new) < 2 ^ 63 ->
  if total (l ++ new ++ r) <? 2 ^ 32 then
    exists lp' newp, lpBatchInsert lp (pos l) LP_BEFORE es = Ok (Some (lp', newp)) /\
      repr lp' (l ++ new ++ r)
  else lpBatchInsert lp (pos l) LP_BEFORE es = Ok None.
Proof.
  intros (num & slack & -> & Hn & Hok & Ht) Hne Hes new Hb. unfold lpBatchInsert. cbn [cassert mbind res_bind].
  assert (0 < zlen es) by (destruct es; [done|rewrite zlen_cons; pose proof (zlen_nonneg es); lia]).
  rewrite (proj2 (Z.ltb_lt 0 (zlen es))) by done. cbn [cassert mbind res_bind].
  destruct (batch_encode_all es 0 Hes ltac:(lia) ltac:(fold new; lia)) as (encs & -> & Hst).
  fold new in Hst |- *. cbn [mbind res_bind]. rewrite Z.add_0_l, bytes_spec by done. cbn [mbind res_bind].
  pose proof (pos_ge l) as Hpos. pose proof (zlen_nonneg (body new)). pose proof (zlen_nonneg (body r)).
  assert (Hold : total (l ++ r) = pos l + zlen (body r) + 1) by apply total_app.
  assert (Hnew : total (l ++ new ++ r) = pos l + zlen (body new) + zlen (body r) + 1)
    by (rewrite total_app, body_app, zlen_app; lia).
  unfold LP_HDR_SIZE in *. rewrite (wrapu_small 64 (total _ + _)) by lia.
  replace (total (l ++ r) + zlen (body new)) with (total (l ++ new ++ r)) by lia. unfold UINT32_MAX.
  destruct (Z.ltb_spec (total (l ++ new ++ r)) (2 ^ 32)) as [Hlt|Hge];
    [|by rewrite (proj2 (Z.ltb_lt _ _)) by lia].
  rewrite (proj2 (Z.ltb_ge _ _)) by lia.
  destruct (make_room num l [] r slack LP_BEFORE (zlen (body new)) place_before ltac:(done) Ht)
    as (g & s1 & Hroom & Hg). cbn [app] in Hroom. rewrite <- Hnew in Hroom.
  rewrite Hroom. cbn [mbind res_bind].
  assert (Hoknew : Forall elem_ok new) by (apply entries_ok; [done|fold new; lia]).
  destruct (Hst (before (total (l ++ r)) num l) g ((body r ++ [LP_EOF]) ++ s1) None Hoknew Hg) as (np & Hs).
  rewrite zlen_before in Hs. rewrite Hs. cbn [mbind res_bind].
  unfold before. rewrite <- !app_assoc, get_num by (by eapply num_range). cbn [mbind res_bind].
  pose proof (num_range _ _ Hn) as Hnr.
  set (num' := if num =? LP_HDR_NUMELE_UNKNOWN then num
               else if LP_HDR_NUMELE_UNKNOWN - num <? zlen es then LP_HDR_NUMELE_UNKNOWN else num + zlen es).
  match goal with |- context [?c ≫= (fun lp => lpSetTotalBytes lp _ ≫= _)] =>
    replace c with (Ok (hdr (total (l ++ r)) num' ++ body l ++ body new ++ body r ++ [LP_EOF] ++ s1)) end.
  2: { subst num'. destruct (num =? LP_HDR_NUMELE_UNKNOWN); cbn [negb]; [done|].
       destruct (Z.ltb_spec (LP_HDR_NUMELE_UNKNOWN - num) (zlen es)); rewrite set_num; [done|].
       unfold LP_HDR_NUMELE_UNKNOWN, UINT16_MAX in *. by rewrite (wrapu_small 32) by lia. }
  cbn [mbind res_bind]. rewrite set_total. cbn [mbind res_bind]. eexists _, np. split; [done|].
  exists num', s1. split; [|split; [|split; [|lia]]].
  - unfold lpenc. by rewrite !body_app, <- !app_assoc.
  - subst num'. unfold num_ok in *. rewrite !zlen_app in *.
    assert (zlen new = zlen es) by (unfold new, zlen; by rewrite length_fmap).
    destruct (Z.eqb_spec num LP_HDR_NUMELE_UNKNOWN); [by right|].
    destruct (Z.ltb_spec (LP_HDR_NUMELE_UNKNOWN - num) (zlen es)); lia.
  - apply Forall_app in Hok as [? ?]. by repeat apply Forall_app_2.
Qed.

Lemma batch_append_spec lp l es :
  repr lp l -> es <> [] -> Forall entry_arg_ok es ->
  let new := elem_of_entry <$> es in
  zlen (body new) < 2 ^ 63 ->
  if total (l ++ new) <? 2 ^ 32 then
    exists lp', lpBatchAppend lp es = Ok (Some lp') /\ repr lp' (l ++ new)
  else lpBatchAppend lp es = Ok None.
Proof.
  intros Hr Hne Hes new Hb. unfold lpBatchAppend. pose proof Hr as (num & slack & -> & Hn & Hok & Ht).
  rewrite bytes_spec by done. cbn [mbind res_bind]. replace (total l - 1) with (pos l) by (unfold total; lia).
  pose proof (batch_insert_spec (lpenc num l slack) l [] es) as H1. cbv zeta in H1. fold new in H1.
  rewrite !app_nil_r in H1. specialize (H1 Hr Hne Hes Hb).
  destruct (total (l ++ new) <? 2 ^ 32); [|by rewrite H1].
  destruct H1 as (lp' & np & -> & Hr'). by exists lp'.
Qed.

End batches.

(** ** Deleting ranges *)

Lemma delete_range_loop num slack r : forall fuel l n deleted,
  (length r < fuel)%nat -> r <> [] -> 0 <= n ->
  Forall elem_ok (l ++ r) -> total (l ++ r) < 2 ^ 32 ->
  lpDeleteRange_loop fuel (lpenc num (l ++ r) slack) (total (l ++ r)) (pos l) n deleted
  = Ok (pos (l ++ take (Z.to_nat n) r), deleted + Z.min n (zlen r)).
Proof.
  induction r as [|e r IH]; intros fuel l n deleted Hf Hne Hn Hok Ht; [done|].
  destruct fuel as [|fuel]; [lia|]. cbn [lpDeleteRange_loop length] in *.
  pose proof (zlen_nonneg r). rewrite zlen_cons.
  destruct (Z.eqb_spec n 0) as [->|Hn0].
  { change (Z.to_nat 0) with 0%nat. rewrite take_0, app_nil_r. do 2 f_equal. lia. }
  pose proof Hok as [_ [He _]%Forall_cons_1]%Forall_app.
  rewrite skip_pos by done. cbn [mbind res_bind]. rewrite <- (snoc_app l e r) in *.
  destruct (rd_pos num slack (l ++ [e]) r Hok) as (b & -> & Hb). cbn [mbind res_bind]. rewrite Hb.
  replace (Z.to_nat n) with (S (Z.to_nat (n - 1))) by lia. cbn [take].
  destruct r as [|e' r].
  - rewrite take_nil. do 2 f_equal. change (zlen (@nil elem)) with 0. lia.
  - rewrite assert_valid by done. cbn [mbind res_bind]. rewrite IH by (done || lia).
    rewrite snoc_app, zlen_cons. do 2 f_equal. lia.
Qed.

Section ranges.
Context `{Allocator}.

Lemma shrink_to_fit num es slack :
  total es < 2 ^ 32 -> exists slack', lpShrinkToFit (lpenc num es slack) = Ok (lpenc num es slack').
Proof.
  intros Ht. unfold lpShrinkToFit. rewrite bytes_spec by done. cbn [mbind res_bind].
  destruct (_ <? _); [|by exists slack].
  destruct (zrealloc_prefix (hdr (total es) num ++ body es ++ [LP_EOF]) slack (total es)) as (s & Hs).
  { rewrite !zlen_app, zlen_hdr. unfold total, pos, LP_HDR_SIZE. change (zlen [LP_EOF]) with 1. lia. }
  exists s. f_equal. unfold lpenc. rewrite <- !app_assoc in Hs. done.
Qed.

Lemma sub_count num es es' k :
  num_ok num es -> zlen es' = zlen es - k -> 0 <= k -> num <> LP_HDR_NUMELE_UNKNOWN ->
  u64 (num - k) = zlen es' /\ num_ok (zlen es') es'.
Proof.
  unfold num_ok. pose proof (zlen_nonneg es'). unfold LP_HDR_NUMELE_UNKNOWN, UINT16_MAX. intros.
  rewrite wrapu_small by lia. lia.
Qed.

Lemma zlen_take_min {A} (l : list A) n : 0 <= n -> zlen (take (Z.to_nat n) l) = Z.min n (zlen l).
Proof. unfold zlen. intros. rewrite length_take. lia. Qed.

(** Moving the tail over the deleted entries. *)
Lemma close_gap num l mid t slack :
  total (l ++ mid ++ t) < 2 ^ 32 -> exists s',
  memmove (lpenc num (l ++ mid ++ t) slack) (pos l) (pos (l ++ mid))
    (u64 (total (l ++ mid ++ t) - 1 - pos (l ++ mid) + 1))
  = Ok (hdr (total (l ++ mid ++ t)) num ++ body (l ++ t) ++ LP_EOF :: s').
Proof.
  intros Ht. set (A := before (total (l ++ mid ++ t)) num l).
  assert (HA : zlen A = pos l) by apply zlen_before.
  assert (Htot : total (l ++ mid ++ t) = pos l + zlen (body mid) + zlen (body t) + 1)
    by (rewrite total_app, body_app, zlen_app; lia).
  pose proof (zlen_nonneg (body mid)). pose proof (zlen_nonneg (body t)). pose proof (pos_ge l).
  destruct (memmove_gap A (body mid) (body t ++ [LP_EOF]) slack 0 ltac:(lia)) as (g & s' & Hm & Hg).
  { zlen_simpl. pose proof (zlen_nonneg slack). lia. }
  apply zlen_nil_inv in Hg as ->. rewrite Z.add_0_r, HA in Hm. exists s'.
  unfold LP_HDR_SIZE in *. rewrite pos_app, (wrapu_small 64) by lia.
  replace (lpenc num (l ++ mid ++ t) slack) with (A ++ body mid ++ (body t ++ [LP_EOF]) ++ slack)
    by (unfold A; by rewrite lpenc_split, body_app, <- !app_assoc).
  replace (total (l ++ mid ++ t) - 1 - (pos l + zlen (body mid)) + 1)
    with (zlen (body t ++ [LP_EOF])) by (rewrite zlen_app; change (zlen [LP_EOF]) with 1; lia).
  rewrite Hm. unfold A, before. by rewrite body_app, <- !app_assoc.
Qed.

(** The header update and the final shrink, after [mid] has been removed. *)
Lemma finish_removal t0 num es es' k s :
  num_ok num es -> zlen es' = zlen es - k -> 0 <= k -> total es' < 2 ^ 32 ->
  exists num' s', (forall B (cont : bytes -> res B),
  (lp ← lpSetTotalBytes (hdr t0 num ++ body es' ++ LP_EOF :: s) (total es');
   numele ← lpGetNumElements lp;
   lp ← (if negb (numele =? LP_HDR_NUMELE_UNKNOWN)
         then lpSetNumElements lp (u64 (numele - k)) else Ok lp);
   lp ← lpShrinkToFit lp; cont lp) = cont (lpenc num' es' s')) /\ num_ok num' es'.
Proof.
  intros Hn Hz Hk Ht'. pose proof (num_range _ _ Hn) as Hnr.
  pose proof (set_total t0 num (body es' ++ LP_EOF :: s) (total es')) as Hs.
  pose proof (get_num (total es') num (body es' ++ LP_EOF :: s) Hnr) as Hg.
  fold (lpenc num es' s) in Hs, Hg.
  destruct (Z.eqb_spec num LP_HDR_NUMELE_UNKNOWN) as [->|Hu].
  - destruct (shrink_to_fit LP_HDR_NUMELE_UNKNOWN es' s Ht') as (s' & Hsf).
    exists LP_HDR_NUMELE_UNKNOWN, s'. split; [|by right].
    intros. rewrite Hs. cbn [mbind res_bind]. rewrite Hg. cbn [mbind res_bind].
    rewrite Z.eqb_refl. cbn [negb mbind res_bind]. by rewrite Hsf.
  - destruct (sub_count num es es' k Hn Hz Hk Hu) as [Hu' Hn'].
    destruct (shrink_to_fit (zlen es') es' s Ht') as (s' & Hsf). eexists _, s'.
    split; [|done]. intros. rewrite Hs. cbn [mbind res_bind]. rewrite Hg. cbn [mbind res_bind].
    rewrite (proj2 (Z.eqb_neq _ _) Hu). cbn [negb]. rewrite Hu', set_num_spec. cbn [mbind res_bind].
    by rewrite Hsf.
Qed.

Lemma delete_range_entry lp l r n :
  repr lp (l ++ r) -> r <> [] -> 0 <= n ->
  exists lp', lpDeleteRangeWithEntry lp (pos l) n
    = Ok (lp', if (n <? zlen r) then Some (pos l) else None) /\
    repr lp' (l ++ drop (Z.to_nat n) r).
Proof.
  intros (num & slack & -> & Hn & Hok & Ht) Hne Hpn. unfold lpDeleteRangeWithEntry, lpBytes.
  rewrite bytes_spec by done. cbn [mbind res_bind]. pose proof (zlen_nonneg r).
  destruct (Z.eqb_spec n 0) as [->|Hn0].
  { change (Z.to_nat 0) with 0%nat. rewrite drop_0, (proj2 (Z.ltb_lt 0 _)).
    - eexists. split; [done|]. by exists num, slack.
    - destruct r; [done|]. rewrite zlen_cons in *. pose proof (zlen_nonneg r). lia. }
  pose proof (length_lpenc num (l ++ r) slack Hok) as Hlen. rewrite length_app in Hlen.
  rewrite delete_range_loop by (done || lia). cbn [mbind res_bind].
  set (mid := take (Z.to_nat n) r). set (t := drop (Z.to_nat n) r).
  assert (Hr : r = mid ++ t) by (symmetry; apply take_drop).
  rewrite Z.add_0_l, <- (zlen_take_min r n) by done. fold mid.
  assert (Hmt : zlen mid = Z.min n (zlen r)) by (by apply zlen_take_min).
  assert (Hzr : zlen r = zlen mid + zlen t) by (by rewrite Hr, zlen_app).
  clearbody mid t. subst r.
  destruct (close_gap num l mid t slack Ht) as (s & ->). cbn [mbind res_bind].
  pose proof (pos_ge l). pose proof (zlen_nonneg (body t)). unfold LP_HDR_SIZE in *.
  replace (total (l ++ mid ++ t) - (pos (l ++ mid) - pos l)) with (total (l ++ t))
    by (rewrite !total_app, pos_app, body_app, zlen_app; lia).
  assert (Ht' : total (l ++ t) < 2 ^ 32).
  { rewrite !total_app, ?body_app, ?zlen_app in *. pose proof (zlen_nonneg (body mid)). lia. }
  pose proof (total_range (l ++ t)). rewrite wrapu_small by lia.
  destruct (finish_removal (total (l ++ mid ++ t)) num (l ++ mid ++ t) (l ++ t) (zlen mid) s)
    as (num' & s' & Hk & Hn'); [done|zlen_simpl; lia|apply zlen_nonneg|done|].
  rewrite Hk. assert (Hok' : Forall elem_ok (l ++ t))
    by (apply Forall_app in Hok as [? [_ ?]%Forall_app]; by apply Forall_app_2).
  destruct (rd_pos num' s' l t Hok') as (b & -> & Hb). cbn [mbind res_bind]. rewrite Hb.
  eexists. split; [|by exists num', s'].
  do 3 f_equal. pose proof (zlen_nonneg t). destruct t as [|e t].
  - change (zlen (@nil elem)) with 0 in *. by rewrite (proj2 (Z.ltb_ge _ _)) by lia.
  - rewrite zlen_cons in *. pose proof (zlen_nonneg t). by rewrite (proj2 (Z.ltb_lt _ _)) by lia.
Qed.

(** What [lpDeleteRange] does to the list. *)
Definition remove_range (es : list elem) (index n : Z) : list elem :=
  let i := norm_index es index in
  if (0 <=? i) && (i <? zlen es)
  then take (Z.to_nat i) es ++ drop (Z.to_nat n) (drop (Z.to_nat i) es) else es.

(** Cutting the listpack at an element. *)
Lemma truncate_spec num l r slack :
  r <> [] -> Forall elem_ok (l ++ r) -> total (l ++ r) < 2 ^ 32 -> zlen l < LP_HDR_NUMELE_UNKNOWN ->
  exists lp', (lp ← wr (lpenc num (l ++ r) slack) (pos l) LP_EOF;
   lp ← lpSetTotalBytes lp (pos l + 1);
   lp ← lpSetNumElements lp (zlen l);
   lpShrinkToFit lp) = Ok lp' /\ repr lp' l.
Proof.
  intros Hne [Hl Hr]%Forall_app Ht Hz. rewrite lpenc_split, <- (zlen_before (total (l ++ r)) num l).
  destruct r as [|e r]; [done|]. apply Forall_cons_1 in Hr as [He _].
  destruct (entry_head e He) as (b & d & Hh & _). rewrite body_cons, Hh. cbn [app].
  rewrite wr_app. cbn [mbind res_bind]. rewrite zlen_before. unfold before. rewrite <- app_assoc, set_total.
  cbn [mbind res_bind]. change (pos l + 1) with (total l). rewrite set_num. cbn [mbind res_bind].
  set (s := (d ++ body r) ++ LP_EOF :: slack).
  change (hdr (total l) (zlen l) ++ body l ++ _ :: s) with (lpenc (zlen l) l s).
  assert (Ht' : total l < 2 ^ 32).
  { rewrite total_app in Ht. unfold total. pose proof (zlen_nonneg (body (e :: r))). lia. }
  destruct (shrink_to_fit (zlen l) l s Ht') as (s' & ->). eexists. split; [done|].
  exists (zlen l), s'. split; [done|]. split; [by left|done].
Qed.

Lemma delete_range_spec lp es index n :
  repr lp es -> is_i64 index -> is_u64 n ->
  exists lp', lpDeleteRange lp index n = Ok lp' /\ repr lp' (remove_range es index n).
Proof.
  intros Hr Hi Hn. pose proof Hr as (num & slack & -> & Hnum & Hok & Ht).
  unfold lpDeleteRange, is_u64, remove_range in *. rewrite num_spec by done. cbn [mbind res_bind].
  destruct (Z.eqb_spec n 0) as [->|Hn0].
  { exists (lpenc num es slack). split; [done|]. change (Z.to_nat 0) with 0%nat. rewrite drop_0, take_drop.
    by destruct (_ && _). }
  rewrite seek_spec by done. cbn [mbind res_bind]. cbv zeta. set (i := norm_index es index).
  destruct ((0 <=? i) && (i <? zlen es)) eqn:E; [|by exists (lpenc num es slack)].
  apply andb_true_iff in E as [H0%Z.leb_le H1%Z.ltb_lt].
  assert (Hidx : num <> LP_HDR_NUMELE_UNKNOWN -> num = zlen es /\
    (if negb (num =? LP_HDR_NUMELE_UNKNOWN) && (index <? 0) then i64 (num + index) else index) = i).
  { intros Hu. rewrite (proj2 (Z.eqb_neq _ _) Hu). cbn [negb andb]. destruct Hnum as [[-> ?]|?]; [|done].
    unfold i, norm_index, LP_HDR_NUMELE_UNKNOWN, UINT16_MAX in *.
    split; [done|]. destruct (Z.ltb_spec index 0); [|done]. apply wraps_small; lia. }
  set (index' := if _ && (index <? 0) then _ else _) in *.
  set (l := take (Z.to_nat i) es) in *. set (r := drop (Z.to_nat i) es) in *.
  assert (Hes : l ++ r = es) by apply take_drop.
  assert (Hl : zlen l = i) by (apply zlen_take; lia).
  assert (Hrz : zlen r = zlen es - i)
    by (unfold r, zlen; rewrite length_drop; unfold zlen in H1; lia).
  assert (Hne : r <> []) by (intros Hr0; rewrite Hr0 in Hrz; change (zlen (@nil elem)) with 0 in Hrz; lia).
  destruct (negb (num =? LP_HDR_NUMELE_UNKNOWN) && (u64 (num - u64 index') <=? n)) eqn:E2.
  - apply andb_true_iff in E2 as [Hu%negb_true_iff%Z.eqb_neq Hle%Z.leb_le].
    destruct (Hidx Hu) as [-> ->]. destruct Hnum as [[_ ?]|?]; [|done].
    unfold LP_HDR_NUMELE_UNKNOWN, UINT16_MAX in *. rewrite !(wrapu_small 64) in Hle by (rewrite ?wrapu_small; lia).
    rewrite (drop_ge r) by (unfold zlen in Hrz, Hle; lia). rewrite app_nil_r, <- Hl.
    replace (lpenc (zlen es) es slack) with (lpenc (zlen es) (l ++ r) slack) by (by rewrite Hes).
    apply truncate_spec; rewrite ?Hes; try done. unfold LP_HDR_NUMELE_UNKNOWN, UINT16_MAX. lia.
  - assert (Hr' : repr (lpenc num es slack) (l ++ r)) by (by rewrite Hes).
    destruct (delete_range_entry _ l r n Hr' Hne ltac:(lia)) as (lp' & -> & Hr2). by exists lp'.
Qed.

End ranges.

(** ** Batch deletion *)

(** A listpack with some elements marked for deletion: after [pre], segments
    of one marked element and the elements kept after it. *)
Definition marked (segs : list (elem * list elem)) : list elem :=
  concat ((fun s => fst s :: snd s) <$> segs).

Definition kept (segs : list (elem * list elem)) : list elem := concat (snd <$> segs).

Fixpoint seg_pos (off : Z) (segs : list (elem * list elem)) : list Z :=
  match segs with
  | [] => []
  | (e, k) :: segs => off :: seg_pos (off + zlen (body (e :: k))) segs
  end.

Lemma body_nil_inv k : Forall elem_ok k -> zlen (body k) = 0 -> k = [].
Proof.
  intros Hk Hz. apply zlen_nil_inv. pose proof (zlen_body_ge k Hk). pose proof (zlen_nonneg k). lia.
Qed.

Lemma skip_at e pre post :
  elem_ok e -> lpSkip (pre ++ entry e ++ post) (zlen pre) = Ok (zlen pre + zlen (entry e)).
Proof. intros He. by rewrite skip_spec, zlen_app. Qed.

(** One round: the kept bytes [y] after the deleted entry are moved down. *)
Lemma move_kept (P J d y z : bytes) :
  exists J', memmove (P ++ J ++ d ++ y ++ z) (zlen P) (zlen (P ++ J) + zlen d) (zlen y)
    = Ok (P ++ y ++ J' ++ z) /\ zlen J' = zlen J + zlen d.
Proof.
  exists (drop (length y) ((J ++ d) ++ y)). split.
  - rewrite <- memmove_left, <- !app_assoc. f_equal. rewrite !zlen_app. lia.
  - unfold zlen. rewrite length_drop, !length_app. lia.
Qed.

Lemma batch_delete_loop slack segs : forall (P J : bytes),
  segs <> [] -> Forall elem_ok (marked segs) ->
  exists s', lpBatchDelete_loop (P ++ J ++ body (marked segs) ++ LP_EOF :: slack)
    (zlen (P ++ J ++ body (marked segs)) + 1) (zlen P) (seg_pos (zlen (P ++ J)) segs)
  = Ok (P ++ body (kept segs) ++ LP_EOF :: s', zlen (P ++ body (kept segs)) + 1).
Proof.
  induction segs as [|[e k] segs IH]; intros P J Hne Hok; [done|].
  cbn [seg_pos lpBatchDelete_loop]. unfold marked, kept in *. cbn [fmap list_fmap concat fst snd] in *.
  fold (marked segs) in *. fold (kept segs) in *.
  apply Forall_app in Hok as [[He Hk]%Forall_cons_1 Hms].
  rewrite body_app, body_cons, <- !app_assoc, (body_app k).
  destruct (entry_head e He) as (b & d & Hh & Hb).
  assert (Hrd : forall rest, rd (P ++ J ++ entry e ++ rest) (zlen (P ++ J)) = Ok b)
    by (intros; rewrite (app_assoc P J), Hh; cbn [app]; by rewrite rd_here).
  rewrite Hrd. cbn [mbind res_bind]. rewrite Hb. cbn [negb cassert mbind res_bind].
  replace (lpSkip _ _) with (Ok (zlen (P ++ J) + zlen (entry e)))
    by (rewrite (app_assoc P J); by rewrite skip_at).
  cbn [mbind res_bind]. pose proof (zlen_nonneg (body k)) as Hzk.
  destruct segs as [|[e2 k2] segs]; cbn [seg_pos].
  - change (kept []) with (@nil elem). change (body (marked [])) with (@nil Z).
    rewrite (app_nil_r (body k)). change (body []) with (@nil Z). rewrite app_nil_r. cbn [app].
    rewrite (proj2 (Z.ltb_lt _ _)) by (rewrite !zlen_app; lia). cbn [cassert mbind res_bind].
    destruct (move_kept P J (entry e) (body k ++ [LP_EOF]) slack) as (J' & Hm & HJ).
    rewrite <- app_assoc in Hm.
    replace (zlen (P ++ J ++ entry e ++ body k) + 1 - (zlen (P ++ J) + zlen (entry e)))
      with (zlen (body k ++ [LP_EOF])) by (rewrite !zlen_app; change (zlen [LP_EOF]) with 1; lia).
    cbn [app] in Hm. rewrite Hm. cbn [mbind res_bind lpBatchDelete_loop]. exists (J' ++ slack).
    rewrite <- app_assoc. do 2 f_equal. rewrite !zlen_app. change (zlen [LP_EOF]) with 1. lia.
  - replace (zlen (entry e ++ body k)) with (zlen (entry e) + zlen (body k)) by (by rewrite zlen_app).
    set (ss := (e2, k2) :: segs) in *. set (ps := _ :: seg_pos _ segs). destruct (Z.eqb_spec (zlen (P ++ J) + zlen (entry e))
      (zlen (P ++ J) + (zlen (entry e) + zlen (body k)))) as [Heq|Hneq].
    + assert (Hk0 : zlen (body k) = 0) by lia. apply (body_nil_inv k Hk) in Hk0 as ->.
      destruct (IH P (J ++ entry e) ltac:(done) Hms) as (s' & Hs). exists s'.
      change (body []) with (@nil Z). cbn [app]. rewrite <- !app_assoc in Hs. rewrite <- Hs.
      f_equal. unfold ps, ss. cbn [seg_pos]. change (zlen (body [])) with 0.
      rewrite !zlen_app, !Z.add_0_r, !Z.add_assoc.
 done.
    + rewrite (proj2 (Z.ltb_lt _ _)) by lia. cbn [cassert mbind res_bind].
      destruct (move_kept P J (entry e) (body k) (body (marked ss) ++ LP_EOF :: slack)) as (J' & Hm & HJ).
      replace (zlen (P ++ J) + (zlen (entry e) + zlen (body k)) - (zlen (P ++ J) + zlen (entry e)))
        with (zlen (body k)) by lia.
      rewrite Hm. cbn [mbind res_bind].
      destruct (IH (P ++ body k) J' ltac:(done) Hms) as (s' & Hs). exists s'.
      rewrite <- !app_assoc in Hs. rewrite <- !app_assoc, <- Hs. f_equal.
      * rewrite !zlen_app. lia.
      * rewrite zlen_app. lia.
      * unfold ps, ss. cbn [seg_pos]. rewrite !zlen_app. rewrite HJ. f_equal; [lia|f_equal; lia].
Qed.

Lemma zlen_kept segs : zlen (kept segs) = zlen (marked segs) - zlen segs.
Proof.
  induction segs as [|[e k] segs IH]; [done|]. unfold kept, marked in *. cbn [fmap list_fmap concat fst snd].
  zlen_simpl. lia.
Qed.

Lemma kept_ok segs : Forall elem_ok (marked segs) -> Forall elem_ok (kept segs).
Proof.
  induction segs as [|[e k] segs IH]; [done|]. unfold kept, marked in *. cbn [fmap list_fmap concat fst snd].
  intros [[_ ?]%Forall_cons_1 ?]%Forall_app. apply Forall_app_2; auto.
Qed.

Lemma zlen_body_kept segs : zlen (body (kept segs)) <= zlen (body (marked segs)).
Proof.
  induction segs as [|[e k] segs IH]; [done|]. unfold kept, marked in *. cbn [fmap list_fmap concat fst snd].
  rewrite !body_app, body_cons. zlen_simpl. pose proof (zlen_nonneg (entry e)). lia.
Qed.

Lemma zlen_seg_pos segs : forall off, zlen (seg_pos off segs) = zlen segs.
Proof. induction segs as [|[e k] segs IH]; intros; cbn [seg_pos]; zlen_simpl; [done|by rewrite IH]. Qed.

Lemma batch_delete_spec `{Allocator} lp pre segs :
  repr lp (pre ++ marked segs) -> exists lp',
  lpBatchDelete lp (seg_pos (pos pre) segs) = Ok lp' /\ repr lp' (pre ++ kept segs).
Proof.
  intros (num & slack & -> & Hn & Hok & Ht). destruct segs as [|s0 segs'].
  { cbn. exists (lpenc num pre slack). unfold marked, kept in *. cbn in *. rewrite app_nil_r in *.
    split; [done|]. by exists num, slack. }
  set (segs := s0 :: segs') in *. assert (Hne : segs <> []) by done.
  apply Forall_app in Hok as [Hp Hm]. unfold lpBatchDelete.
  assert (Hsp : exists ps, seg_pos (pos pre) segs = pos pre :: ps) by (subst segs; destruct s0; by eexists).
  destruct Hsp as (ps & Hps). rewrite Hps, <- Hps. rewrite bytes_spec by done. cbn [mbind res_bind].
  set (A := before (total (pre ++ marked segs)) num pre).
  assert (HA : zlen A = pos pre) by apply zlen_before.
  assert (Hlp : lpenc num (pre ++ marked segs) slack = A ++ body (marked segs) ++ LP_EOF :: slack)
    by apply lpenc_split.
  assert (Htot : total (pre ++ marked segs) = zlen (A ++ body (marked segs)) + 1)
    by (by rewrite total_app, zlen_app, HA).
  assert (Htot' : total (pre ++ kept segs) = zlen (A ++ body (kept segs)) + 1)
    by (by rewrite total_app, zlen_app, HA).
  pose proof (zlen_body_kept segs). assert (Ht' : total (pre ++ kept segs) <= total (pre ++ marked segs))
    by (rewrite !total_app; lia).
  rewrite Hlp, Htot, Z.add_simpl_r, app_assoc, rd_here. cbn [mbind res_bind cassert]. rewrite Z.eqb_refl.
  cbn [cassert mbind res_bind]. rewrite <- app_assoc.
  destruct (batch_delete_loop slack segs A [] Hne Hm) as (s' & Hloop). cbn [app] in Hloop.
  rewrite app_nil_r, HA in Hloop. rewrite Hloop. cbn [mbind res_bind]. pose proof (total_range (pre ++ kept segs)).
  rewrite <- Htot, <- Htot'. replace (total (pre ++ marked segs) - (total (pre ++ marked segs) - total (pre ++ kept segs)))
    with (total (pre ++ kept segs)) by lia. rewrite wrapu_small by lia.
  replace (total (pre ++ kept segs) - 1) with (zlen (A ++ body (kept segs))) by lia.
  rewrite app_assoc, rd_here. cbn [mbind res_bind]. rewrite Z.eqb_refl.
  cbn [cassert mbind res_bind]. rewrite <- app_assoc, zlen_seg_pos. unfold A, before.
  rewrite <- app_assoc, (app_assoc (body pre)), <- body_app.
  destruct (finish_removal (total (pre ++ marked segs)) num (pre ++ marked segs) (pre ++ kept segs)
    (zlen segs) s') as (num' & s'' & Hk & Hn'); [done|rewrite !zlen_app, zlen_kept; lia|apply zlen_nonneg|lia|].
  rewrite Hk. eexists. split; [done|]. exists num', s''. split_and!; try done; [|lia].
  apply Forall_app_2; [done|by apply kept_ok].
Qed.

(** ** Creation, merging, copying *)

Section whole.
Context `{Allocator}.

Lemma new_spec capacity : exists lp, lpNew capacity = Ok lp /\ repr lp [].
Proof.
  unfold lpNew. set (n := if _ <? _ then _ else _).
  assert (Hn : 7 <= n) by (unfold n, LP_HDR_SIZE; destruct (Z.ltb_spec (6 + 1) capacity); lia).
  pose proof (zlen_zmalloc n ltac:(lia)) as Hz.
  destruct (zmalloc n) as [|b0 [|b1 [|b2 [|b3 [|b4 [|b5 [|b6 s]]]]]]];
    try (exfalso; unfold zlen in Hz; cbn [length] in Hz; lia).
  exists (lpenc 0 [] s). split; [|exists 0, s; split_and!; try done; by left].
  unfold lpSetTotalBytes, lpSetNumElements, LP_HDR_SIZE. cbn [mbind res_bind].
  repeat first [rewrite wr_0 | rewrite wr_cons by lia | progress cbn [mbind res_bind]]. done.
Qed.

Lemma dup_spec lp es : repr lp es -> exists lp', lpDup lp = Ok lp' /\ repr lp' es.
Proof.
  intros (num & slack & -> & Hn & Hok & Ht). unfold lpDup, lpBytes.
  rewrite bytes_spec by done. cbn [mbind res_bind].
  set (lp := hdr (total es) num ++ body es ++ [LP_EOF]).
  assert (Hlen : zlen lp = total es)
    by (unfold lp, total, pos, LP_HDR_SIZE; rewrite !zlen_app, zlen_hdr; change (zlen [LP_EOF]) with 1; lia).
  assert (Hlp : lpenc num es slack = [] ++ lp ++ slack)
    by (unfold lpenc, lp; cbn [app]; by rewrite <- !app_assoc).
  pose proof (rdn_app [] lp slack) as Hrd. change (zlen (@nil Z)) with 0 in Hrd.
  rewrite Hlp, <- Hlen, Hrd. cbn [mbind res_bind].
  pose proof (zlen_zmalloc (zlen lp) (zlen_nonneg lp)) as Hz. rewrite wrn_in_range by lia. eexists. split; [done|].
  exists num, (drop (Z.to_nat 0 + length lp) (zmalloc (zlen lp))). split_and!; try done.
  unfold lpenc, lp. cbn [take app]. by rewrite <- !app_assoc.
Qed.

(** [lpMerge] concatenates, whichever operand it reuses. *)
Lemma merge_num es1 es2 :
  let n := zlen es1 + zlen es2 in
  num_ok (if n <? UINT16_MAX then n else UINT16_MAX) (es1 ++ es2).
Proof.
  intros n. unfold num_ok, n, LP_HDR_NUMELE_UNKNOWN. rewrite zlen_app.
  destruct (Z.ltb_spec (zlen es1 + zlen es2) UINT16_MAX); [left|right]; done.
Qed.

Lemma total_eq es : total es = 7 + zlen (body es).
Proof. unfold total, pos, LP_HDR_SIZE. lia. Qed.

(** Appending the second listpack's entries and terminator to the first. *)
Lemma merge_append n1 es1 s1 n2 es2 s2 :
  total (es1 ++ es2) < 2 ^ 32 -> exists s',
  (src ← rdn (lpenc n2 es2 s2) LP_HDR_SIZE (u64 (total es2 - LP_HDR_SIZE));
   wrn (zrealloc (lpenc n1 es1 s1) (total (es1 ++ es2))) (total es1 - 1) src)
  = Ok (hdr (total es1) n1 ++ body (es1 ++ es2) ++ LP_EOF :: s').
Proof.
  intros Ht. rewrite total_app in Ht. pose proof (zlen_nonneg (body es2)).
  pose proof (pos_ge es1). unfold LP_HDR_SIZE in *.
  replace (total es2 - 6) with (1 + zlen (body es2)) by (rewrite total_eq; lia).
  rewrite (wrapu_small 64) by lia.
  assert (Hs : rdn (lpenc n2 es2 s2) 6 (1 + zlen (body es2)) = Ok (body es2 ++ [LP_EOF])).
  { rewrite <- (rdn_app (hdr (total es2) n2) (body es2 ++ [LP_EOF]) s2), <- app_assoc, zlen_hdr.
    f_equal. rewrite zlen_app. change (zlen [LP_EOF]) with 1. lia. }
  rewrite Hs. cbn [mbind res_bind].
  destruct (zrealloc_prefix (before (total es1) n1 es1) (LP_EOF :: s1) (total (es1 ++ es2))) as (s & Hz).
  { rewrite zlen_before, total_app. lia. }
  unfold before in Hz. rewrite <- app_assoc in Hz. unfold lpenc.
  pose proof (zlen_zrealloc (hdr (total es1) n1 ++ body es1 ++ LP_EOF :: s1) (total (es1 ++ es2))) as Hzl.
  rewrite Hz in Hzl |- *. fold (before (total es1) n1 es1) in Hzl |- *.
  replace (total es1 - 1) with (zlen (before (total es1) n1 es1) + 0) by (rewrite zlen_before; unfold total; lia).
  rewrite wrn_app_off by lia. rewrite wrn_in_range; [|lia|].
  - cbn [mbind res_bind]. eexists. unfold before. rewrite body_app, <- !app_assoc. cbn [take app].
    done.
  - rewrite zlen_app, zlen_before in Hzl. rewrite total_app in Hzl.
    rewrite zlen_app. change (zlen [LP_EOF]) with 1. lia.
Qed.

(** Prepending the first one's header and entries to the second. *)
Lemma merge_prepend n1 es1 s1 n2 es2 s2 :
  total (es1 ++ es2) < 2 ^ 32 -> exists s',
  (target ← memmove (zrealloc (lpenc n2 es2 s2) (total (es1 ++ es2))) (total es1 - 1) LP_HDR_SIZE
     (u64 (total es2 - LP_HDR_SIZE));
   src ← rdn (lpenc n1 es1 s1) 0 (u64 (total es1 - 1));
   wrn target 0 src)
  = Ok (hdr (total es1) n1 ++ body (es1 ++ es2) ++ LP_EOF :: s').
Proof.
  intros Ht. pose proof Ht as Ht0. rewrite total_app in Ht. pose proof (zlen_nonneg (body es2)).
  pose proof (zlen_nonneg (body es1)).
  destruct (zrealloc_prefix (hdr (total es2) n2 ++ body es2 ++ [LP_EOF]) s2 (total (es1 ++ es2))) as (s & Hz).
  { rewrite !zlen_app, zlen_hdr, total_app. change (zlen [LP_EOF]) with 1. unfold pos, LP_HDR_SIZE. lia. }
  pose proof (zlen_zrealloc (lpenc n2 es2 s2) (total (es1 ++ es2))) as Hzl.
  unfold lpenc in *. rewrite <- !app_assoc in Hz. cbn [app] in Hz. rewrite Hz in Hzl |- *.
  replace (hdr (total es2) n2 ++ body es2 ++ LP_EOF :: s)
    with (hdr (total es2) n2 ++ [] ++ (body es2 ++ [LP_EOF]) ++ s) in Hzl |- * by (by rewrite <- app_assoc).
  destruct (memmove_gap (hdr (total es2) n2) [] (body es2 ++ [LP_EOF]) s (zlen (body es1))) as (g & s' & Hm & Hg);
    [done| |].
  { rewrite !zlen_app, zlen_hdr, total_app in *. change (zlen [LP_EOF]) with 1 in *.
    unfold pos, LP_HDR_SIZE in *. change (zlen (@nil Z)) with 0 in *. lia. }
  rewrite zlen_hdr, Z.add_0_r, zlen_app in Hm. change (zlen [LP_EOF]) with 1 in Hm.
  unfold pos, LP_HDR_SIZE in *.
  replace (total es1 - 1) with (6 + zlen (body es1)) by (rewrite total_eq; lia).
  replace (total es2 - 6) with (zlen (body es2) + 1) by (rewrite total_eq; lia).
  rewrite !(wrapu_small 64) by lia.
  rewrite Hm. cbn [mbind res_bind].
  pose proof (rdn_app [] (before (total es1) n1 es1) (LP_EOF :: s1)) as Hr. unfold before in Hr.
  cbn [app] in Hr. rewrite <- app_assoc, zlen_app, zlen_hdr in Hr. change (zlen (@nil Z)) with 0 in Hr.
  rewrite Hr. cbn [mbind res_bind].
  rewrite (app_assoc (hdr _ n2)), wrn_0 by (rewrite !length_app; apply zlen_length in Hg; rewrite Hg; done).
  eexists. rewrite body_app, <- !app_assoc. done.
Qed.

Lemma merge_spec first second es1 es2 :
  repr first es1 -> repr second es2 ->
  if total (es1 ++ es2) <? UINT32_MAX then
    exists m, lpMerge (Some first) (Some second) false
      = Ok (Some (m, total es2 <=? total es1)) /\ repr m (es1 ++ es2)
  else lpMerge (Some first) (Some second) false = Fault AssertFailed.
Proof.
  intros H1 H2. unfold lpMerge.
  destruct (length_spec _ _ H1) as (f & Hl1 & (n1 & s1 & -> & _ & Hok1 & Ht1) & _).
  destruct (length_spec _ _ H2) as (g & Hl2 & (n2 & s2 & -> & _ & Hok2 & Ht2) & _).
  destruct H1 as (n1' & s1' & -> & _). destruct H2 as (n2' & s2' & -> & _).
  unfold lpBytes. rewrite bytes_spec by done. cbn [mbind res_bind]. rewrite Hl1. cbn [mbind res_bind].
  rewrite bytes_spec by done. cbn [mbind res_bind]. rewrite Hl2. cbn [mbind res_bind].
  assert (Htot : total es1 + total es2 - LP_HDR_SIZE - 1 = total (es1 ++ es2))
    by (rewrite !total_eq, body_app, zlen_app; unfold LP_HDR_SIZE; lia).
  pose proof (total_range es1). pose proof (total_range (es1 ++ es2)).
  pose proof (zlen_body_ge es1 Hok1). pose proof (zlen_body_ge es2 Hok2).
  pose proof (zlen_nonneg es1). pose proof (zlen_nonneg es2). rewrite total_eq in Ht1, Ht2.
  rewrite Htot, (wrapu_small 64 (total _)) by (rewrite <- Htot; unfold LP_HDR_SIZE; rewrite !total_eq; lia).
  rewrite (wrapu_small 64 (zlen es1 + _)) by lia. unfold UINT32_MAX.
  pose proof (merge_num es1 es2) as Hn. cbv zeta in Hn. set (num := if _ <? _ then _ else _) in *.
  destruct (Z.leb_spec (total es2) (total es1)) as [Hc|Hc];
    (destruct (Z.ltb_spec (total (es1 ++ es2)) (2 ^ 32 - 1)) as [Hlt|?]; [|done]);
    cbn [cassert mbind res_bind].
  - destruct (merge_append n1 es1 s1 n2 es2 s2 ltac:(lia)) as (s' & ->). cbn [mbind res_bind].
    rewrite set_num. cbn [mbind res_bind]. rewrite set_total. eexists. split; [done|].
    exists num, s'. split_and!; try done; [by apply Forall_app_2|lia].
  - destruct (merge_prepend n1 es1 s1 n2 es2 s2 ltac:(lia)) as (s' & ->). cbn [mbind res_bind].
    rewrite set_num. cbn [mbind res_bind]. rewrite set_total. eexists. split; [done|].
    exists num, s'. split_and!; try done; [by apply Forall_app_2|lia].
Qed.

(** ** The wrappers at both ends *)

Lemma append_spec lp es s :
  repr lp es -> wf_bytes s -> zlen s < 2 ^ 32 ->
  if total (es ++ [elem_of s]) <? 2 ^ 32 then
    exists lp', lpAppend lp s (zlen s) = Ok (Some lp') /\ repr lp' (es ++ [elem_of s])
  else lpAppend lp s (zlen s) = Ok None.
Proof.
  intros Hr Hs Hl. pose proof Hr as (num & slack & -> & _ & _ & Ht). unfold lpAppend.
  rewrite bytes_spec by done. cbn [mbind res_bind].
  replace (total es - 1) with (pos es) by (unfold total; lia).
  pose proof (insert_spec (lpenc num es slack) es [] [] LP_BEFORE (Some s) None (zlen s) (elem_of s) false
    place_before) as Hi. rewrite !app_nil_r in Hi. specialize (Hi Hr (pay_str s Hs Hl)).
  destruct (total (es ++ [elem_of s]) <? 2 ^ 32); [|by rewrite Hi].
  destruct Hi as (lp' & -> & Hr'). by exists lp'.
Qed.

Lemma append_int_spec lp es v :
  repr lp es -> is_i64 v ->
  if total (es ++ [EInt v]) <? 2 ^ 32 then
    exists lp', lpAppendInteger lp v = Ok (Some lp') /\ repr lp' (es ++ [EInt v])
  else lpAppendInteger lp v = Ok None.
Proof.
  intros Hr Hv. pose proof Hr as (num & slack & -> & _ & _ & Ht). unfold lpAppendInteger, lpInsertInteger.
  rewrite bytes_spec by done. cbn [mbind res_bind].
  replace (total es - 1) with (pos es) by (unfold total; lia).
  rewrite (surjective_pairing (lpEncodeIntegerGetType v)), zlen_data_int by done.
  change (fst (lpEncodeIntegerGetType v)) with (data (EInt v)).
  pose proof (insert_spec (lpenc num es slack) es [] [] LP_BEFORE None
    (Some (data (EInt v))) (zlen (data (EInt v))) (EInt v) false
    place_before) as Hi. rewrite !app_nil_r in Hi. specialize (Hi Hr (pay_int v Hv)).
  destruct (total (es ++ [EInt v]) <? 2 ^ 32); [|by rewrite Hi].
  destruct Hi as (lp' & -> & Hr'). by exists lp'.
Qed.

Lemma prepend_spec lp es s :
  repr lp es -> wf_bytes s -> zlen s < 2 ^ 32 ->
  if total (elem_of s :: es) <? 2 ^ 32 then
    exists lp', lpPrepend lp s (zlen s) = Ok (Some lp') /\ repr lp' (elem_of s :: es)
  else lpPrepend lp s (zlen s) = Ok None.
Proof.
  intros Hr Hs Hl. pose proof Hr as (num & slack & -> & _ & Hok & Ht). unfold lpPrepend.
  rewrite first_spec by done. cbn [mbind res_bind]. destruct es as [|e es].
  { by apply (append_spec _ []). }
  pose proof (insert_spec _ [] [] (e :: es) LP_BEFORE (Some s) None (zlen s) (elem_of s) false
    place_before Hr (pay_str s Hs Hl)) as Hi. cbn [app] in Hi. change (pos []) with LP_HDR_SIZE in Hi.
  destruct (total (elem_of s :: e :: es) <? 2 ^ 32); [|by rewrite Hi].
  destruct Hi as (lp' & -> & Hr'). by exists lp'.
Qed.

Lemma prepend_int_spec lp es v :
  repr lp es -> is_i64 v ->
  if total (EInt v :: es) <? 2 ^ 32 then
    exists lp', lpPrependInteger lp v = Ok (Some lp') /\ repr lp' (EInt v :: es)
  else lpPrependInteger lp v = Ok None.
Proof.
  intros Hr Hv. pose proof Hr as (num & slack & -> & _ & Hok & Ht).
  unfold lpPrependInteger, lpInsertInteger. rewrite first_spec by done. cbn [mbind res_bind].
  destruct es as [|e es].
  { by apply (append_int_spec _ []). }
  rewrite (surjective_pairing (lpEncodeIntegerGetType v)), zlen_data_int by done.
  pose proof (insert_spec _ [] [] (e :: es) LP_BEFORE None (Some (data (EInt v)))
    (zlen (data (EInt v))) (EInt v) false place_before Hr (pay_int v Hv)) as Hi.
  cbn [app] in Hi. change (pos []) with LP_HDR_SIZE in Hi.
  change (fst (lpEncodeIntegerGetType v)) with (data (EInt v)).
  destruct (total (EInt v :: e :: es) <? 2 ^ 32); [|by rewrite Hi].
  destruct Hi as (lp' & -> & Hr'). by exists lp'.
Qed.

Lemma replace_spec lp l e r s :
  repr lp (l ++ e :: r) -> wf_bytes s -> zlen s < 2 ^ 32 ->
  if total (l ++ elem_of s :: r) <? 2 ^ 32 then
    exists lp', lpReplace lp (pos l) s (zlen s) = Ok (Some (lp', Some (pos l))) /\
      repr lp' (l ++ elem_of s :: r)
  else lpReplace lp (pos l) s (zlen s) = Ok None.
Proof.
  intros Hr Hs Hl.
  exact (insert_spec lp l [e] r LP_REPLACE (Some s) None (zlen s) (elem_of s) true
    (place_replace e) Hr (pay_str s Hs Hl)).
Qed.

End whole.

(** ** Searching *)

(** The reference search: [c] elements are skipped before the next
    comparison, [skip] after each one. *)
Fixpoint find_ref (s : bytes) (skip c : nat) (l r : list elem) : option Z :=
  match r with
  | [] => None
  | e :: r =>
    match c with
    | O => if bool_decide (text e = s) then Some (pos l) else find_ref s skip skip (l ++ [e]) r
    | S c => find_ref s skip c (l ++ [e]) r
    end
  end.

(** The comparator's cache is empty or agrees with the parsed string. *)
Definition arg_inv (s : bytes) (arg : lpFindArg) : Prop :=
  arg_s arg = s /\ arg_slen arg = zlen s /\
  (vencoding arg = 0 \/ (vencoding arg = 1 /\ Util.string2ll s (zlen s) = Ok (Some (vll arg))) \/
   (vencoding arg = UCHAR_MAX /\ Util.string2ll s (zlen s) = Ok None)).

Lemma text_int_eq s v :
  is_i64 v -> text (EInt v) = s <-> Util.string2ll s (zlen s) = Ok (Some v).
Proof.
  intros Hv. cbn [text]. destruct (Util.string2ll_spec s []) as (o & Ho & Hs).
  rewrite app_nil_r in Ho. rewrite Ho. split.
  - intros <-. f_equal. by apply Hs.
  - intros [= ->]. by destruct (proj1 (Hs v) eq_refl) as [_ ->].
Qed.

Lemma cmp_int s lp arg p v :
  arg_inv s arg -> is_i64 v -> exists arg',
  lpFindCmp lp arg p None v = Ok (arg', if bool_decide (text (EInt v) = s) then 0 else 1) /\ arg_inv s arg'.
Proof.
  intros (Hs & Hl & Hc) Hv. unfold lpFindCmp. rewrite Hs, Hl.
  assert (Hstep : exists arg', (if vencoding arg =? 0 then
      if (32 <=? zlen s) || (zlen s =? 0)
      then Ok {| arg_s := s; arg_slen := zlen s; vencoding := UCHAR_MAX; vll := vll arg |} else
      r ← lpStringToInt64 s (zlen s);
      match r with
      | None => Ok {| arg_s := s; arg_slen := zlen s; vencoding := UCHAR_MAX; vll := vll arg |}
      | Some v => Ok {| arg_s := s; arg_slen := zlen s; vencoding := 1; vll := v |}
      end
    else Ok arg) = Ok arg' /\ arg_inv s arg' /\ vencoding arg' <> 0).
  { destruct Hc as [Hc|Hc].
    - rewrite Hc. cbn [Z.eqb]. rewrite lpStringToInt64_string2ll.
      destruct (Util.string2ll_spec s []) as (o & Ho & Hso). rewrite app_nil_r in Ho.
      destruct ((32 <=? zlen s) || (zlen s =? 0)) eqn:E.
      + eexists. split; [done|]. split; [|done]. split_and!; try done. right; right. split; [done|].
        destruct o as [w|]; [|done]. destruct (proj1 (Hso w) eq_refl) as [Hw Hd].
        pose proof (Util.decimal_length w Hw). rewrite <- Hd in *.
        apply orb_true_iff in E as [?%Z.leb_le|?%Z.eqb_eq]; lia.
      + rewrite Ho. cbn [mbind res_bind]. destruct o as [w|]; eexists; (split; [done|]);
          (split; [|done]); split_and!; try done; cbn; tauto.
    - exists arg. rewrite (proj2 (Z.eqb_neq _ 0)) by (destruct Hc as [[-> _]|[-> _]]; done).
      split; [done|]. split; [by split_and!; auto|]. by destruct Hc as [[-> _]|[-> _]]. }
  destruct Hstep as (arg' & -> & Hi & Hne). cbn [mbind res_bind]. exists arg'.
  destruct Hi as (Hs' & Hl' & Hc'). assert (Hi : arg_inv s arg') by done.
  destruct Hc' as [?|[[He Hll]|[He Hll]]]; [done| |]; rewrite He; cbn -[bool_decide text].
  - destruct (Z.eqb_spec v (vll arg')) as [->|Hn].
    + by rewrite bool_decide_true by (by apply text_int_eq).
    + rewrite bool_decide_false; [done|]. intros Ht%text_int_eq; [|done]. congruence.
  - rewrite bool_decide_false; [done|]. intros Ht%text_int_eq; [|done]. congruence.
Qed.

Lemma cmp_str s h t pre post arg p :
  arg_inv s arg -> exists arg',
  lpFindCmp (pre ++ (h ++ t) ++ post) arg p (Some (zlen (pre ++ h))) (zlen t)
    = Ok (arg', if bool_decide (text (EStr t) = s) then 0 else 1) /\ arg_inv s arg'.
Proof.
  intros Hi. exists arg. split; [|done]. destruct Hi as (Hs & Hl & _). unfold lpFindCmp. cbn [text].
  rewrite Hs, Hl. destruct (Z.eqb_spec (zlen t) (zlen s)) as [He|He].
  - rewrite He at 1. rewrite rdn_all. cbn [mbind res_bind]. rewrite <- app_assoc, (app_assoc pre), rdn_app.
    cbn [mbind res_bind]. repeat case_bool_decide; congruence.
  - rewrite bool_decide_false by congruence. done.
Qed.

(** The bound checks of the search loop hold at every position. *)
Lemma find_guard num l r slack :
  Forall elem_ok (l ++ r) ->
  (if total (l ++ r) <=? pos l + 8
   then lpAssertValidEntry (lpenc num (l ++ r) slack) (total (l ++ r)) (pos l)
   else cassert ((LP_HDR_SIZE <=? pos l) && (pos l <? total (l ++ r)))) = Ok tt.
Proof.
  intros Hok. destruct (_ <=? pos l + 8); [by apply assert_valid|].
  rewrite (proj2 (Z.leb_le _ _)) by apply pos_ge. rewrite total_app, (proj2 (Z.ltb_lt _ _)); [done|].
  pose proof (zlen_nonneg (body r)). lia.
Qed.

(** One comparison of the loop: read the element, check it, compare. *)
Lemma find_compare s num l e r slack arg es0 :
  Forall elem_ok (l ++ e :: r) -> arg_inv s arg -> exists arg',
  let lp := lpenc num (l ++ e :: r) slack in
  arg_inv s arg' /\ forall B (k : lpFindArg * Z -> Z -> res B),
  (x ← lpGetWithSize lp (pos l) None es0;
   let '(v, entry_size) := x in
   let '(value, ll) := match v with
     | LpPtr q n => (Some q, n) | LpIntbuf _ n => (None, n) | LpNull n => (None, n) end in
   _ ← (match value with
        | Some _ => cassert ((LP_HDR_SIZE <=? pos l) && (pos l + entry_size <? total (l ++ e :: r)))
        | None => Ok tt
        end);
   c ← lpFindCmp lp arg (pos l) value ll;
   k c entry_size) = k (arg', if bool_decide (text e = s) then 0 else 1) (zlen (entry e)).
Proof.
  intros Hok Hi. pose proof Hok as [_ [He _]%Forall_cons_1]%Forall_app.
  rewrite lpenc_cursor. set (A := before (total (l ++ e :: r)) num l).
  assert (HA : zlen A = pos l) by apply zlen_before. rewrite <- HA. cbv zeta.
  set (post := body r ++ LP_EOF :: slack). unfold entry at 1 2. rewrite <- (app_assoc (data e)).
  set (post' := backlen (zlen (data e)) ++ post). destruct e as [v|t].
  - destruct (cmp_int s (A ++ data (EInt v) ++ post') arg (zlen A) v Hi He) as (arg' & Hc & Hi').
    exists arg'. split; [done|]. intros B k. rewrite get_int_spec by done. cbn [mbind res_bind].
    by rewrite Hc.
  - destruct (get_str_spec t A post' None es0 He) as (h & es' & Hd & Hget & ->).
    destruct (cmp_str s h t A post' arg (zlen A) Hi) as (arg' & Hc & Hi'). exists arg'. split; [done|].
    intros B k. rewrite Hget. cbn [mbind res_bind]. rewrite HA in Hc |- *.
    rewrite (proj2 (Z.leb_le _ _)) by apply pos_ge. rewrite (proj2 (Z.ltb_lt _ _))
      by (rewrite total_app, body_cons, zlen_app; pose proof (zlen_nonneg (body r)); lia).
    cbn [andb cassert mbind res_bind]. by rewrite Hd, Hc.
Qed.

Lemma find_loop s num slack skip r : forall fuel l arg c es0,
  (length r <= fuel)%nat -> r <> [] -> Forall elem_ok (l ++ r) -> arg_inv s arg -> 0 <= skip < 2 ^ 31 ->
  exists arg', lpFindCb_loop (lpFindCmp (lpenc num (l ++ r) slack)) skip fuel
      (lpenc num (l ++ r) slack) (total (l ++ r)) arg (pos l) (Z.of_nat c) es0
    = Ok (arg', find_ref s (Z.to_nat skip) c l r).
Proof.
  induction r as [|e r IH]; intros fuel l arg c es0 Hf Hne Hok Hi Hsk; [done|].
  destruct fuel as [|fuel]; [cbn in Hf; lia|]. cbn [lpFindCb_loop find_ref length] in *.
  pose proof Hok as [_ [He _]%Forall_cons_1]%Forall_app.
  assert (Hadv : forall arg c' es1 q, arg_inv s arg -> q = pos (l ++ [e]) -> exists arg',
    (_ ← (if total (l ++ e :: r) <=? q + 8
          then lpAssertValidEntry (lpenc num (l ++ e :: r) slack) (total (l ++ e :: r)) q
          else cassert ((LP_HDR_SIZE <=? q) && (q <? total (l ++ e :: r))));
     b ← rd (lpenc num (l ++ e :: r) slack) q;
     if b =? LP_EOF then Ok (arg, None)
     else lpFindCb_loop (lpFindCmp (lpenc num (l ++ e :: r) slack)) skip fuel
       (lpenc num (l ++ e :: r) slack) (total (l ++ e :: r)) arg q (Z.of_nat c') es1)
    = Ok (arg', find_ref s (Z.to_nat skip) c' (l ++ [e]) r)).
  { intros a c' es1 q Ha ->. rewrite <- (snoc_app l e r) in *. rewrite find_guard by done.
    cbn [mbind res_bind]. destruct (rd_pos num slack (l ++ [e]) r Hok) as (b & -> & Hb).
    cbn [mbind res_bind]. rewrite Hb. destruct r as [|e' r]; [by exists a|].
    apply IH; (done || lia). }
  destruct c as [|c].
  - change (Z.of_nat 0 =? 0) with true. cbv iota.
    destruct (find_compare s num l e r slack arg es0 Hok Hi) as (arg' & Hi' & Heq).
    rewrite Heq. clear Heq. case_bool_decide; [by exists arg'|]. cbn [Z.eqb].
    rewrite (wraps_small 32) by lia.
    destruct (Hadv arg' (Z.to_nat skip) (zlen (entry e)) (pos l + zlen (entry e)) Hi') as (a & Ha).
    { rewrite pos_snoc, zlen_entry. lia. }
    rewrite Z2Nat.id in Ha by lia. by exists a.
  - rewrite (proj2 (Z.eqb_neq (Z.of_nat (S c)) 0)) by lia. rewrite skip_pos by done. cbn [mbind res_bind].
    replace (Z.of_nat (S c) - 1) with (Z.of_nat c) by lia. by apply Hadv.
Qed.

Lemma lp_find_spec lp es s skip :
  repr lp es -> 0 <= skip < 2 ^ 31 ->
  lpFind lp None s (zlen s) skip = Ok (find_ref s (Z.to_nat skip) 0 [] es).
Proof.
  intros (num & slack & -> & _ & Hok & Ht) Hsk. unfold lpFind, lpFindCb, lpBytes.
  rewrite bytes_spec by done. cbn [mbind res_bind]. rewrite first_spec by done. cbn [mbind res_bind].
  destruct es as [|e es]; [done|]. pose proof (length_lpenc num (e :: es) slack Hok).
  destruct (find_loop s num slack skip (e :: es) (S (length (lpenc num (e :: es) slack))) []
    {| arg_s := s; arg_slen := zlen s; vencoding := 0; vll := 0 |} 0 123456789) as (arg' & Hl); try done.
  { lia. } { split_and!; auto. }
  cbn [app] in Hl. change (pos []) with LP_HDR_SIZE in Hl. change (Z.of_nat 0) with 0 in Hl. by rewrite Hl.
Qed.

End ListpackTheory.
