(* ===== verification/ListpackValidate.v ===== *)
(** * Listpacks from untrusted bytes.

    What [lpValidateIntegrity] guarantees about a buffer read from an RDB file
    or a RESTORE command, where nothing is known about the bytes: the check
    itself stays inside the buffer and ends, and what it accepts can be walked
    and read with the ordinary cursors. *)

From S2P Require Import Prelude Util ListpackEnc Listpack.
#[local] Open Scope Z_scope.

Module ListpackValidate.
Import LP Listpack.

(** ** Untrusted bytes *)

Section untrusted.
Context (lp : bytes) (Hwf : wf_bytes lp).

(** Step over one read that is in range. *)
Ltac rd_step :=
  match goal with
  | |- context [rd lp ?i] =>
    let x := fresh "x" in let Hx := fresh "Hx" in
    destruct (rd_in_range lp i) as [x Hx]; [lia|]; rewrite Hx; cbn [mbind res_bind];
    pose proof (rd_byte _ _ _ Hwf Hx); unfold is_byte in *
  end.

(** The decoder returns on any bytes; the bits it has accumulated stay. *)
Lemma decode_loop_safe fuel : forall k p val,
  5 - k <= Z.of_nat fuel -> 0 <= k <= 4 -> 4 - k <= p < zlen lp -> 0 <= val < 2 ^ (7 * k) ->
  exists v, lpDecodeBacklen_loop fuel lp p val (7 * k) = Ok v /\ 0 <= v < 2 ^ 64 /\
    (v mod 2 ^ (7 * k) = val \/ v = UINT64_MAX).
Proof.
  induction fuel as [|fuel IH]; intros k p val Hf Hk Hp Hv; [lia|]. cbn [lpDecodeBacklen_loop].
  rd_step. change 127 with (2 ^ 7 - 1). rewrite land_ones_mod by lia.
  pose proof (Z.mod_pos_bound x (2 ^ 7) ltac:(lia)) as Hm. set (m := x mod 2 ^ 7) in *.
  pose proof (Z.pow_le_mono_r 2 (7 * k) 28 ltac:(lia) ltac:(lia)) as Hpw.
  rewrite (wrapu_small 64) by (rewrite Z.shiftl_mul_pow2 by lia; change (2 ^ 7) with 128 in *; nia).
  rewrite lor_add_shiftl by lia. set (val' := val + m * 2 ^ (7 * k)).
  assert (Hv' : 0 <= val' < 2 ^ (7 * (k + 1))).
  { replace (7 * (k + 1)) with (7 + 7 * k) by lia. rewrite Z.pow_add_r by lia. unfold val'. nia. }
  assert (Hmod : val' mod 2 ^ (7 * k) = val)
    by (unfold val'; rewrite Z.mod_add by lia; by apply Z.mod_small).
  pose proof (Z.pow_le_mono_r 2 (7 * (k + 1)) 35 ltac:(lia) ltac:(lia)) as Hpw'.
  destruct (Z.land x 128 =? 0); [exists val'; (split; [done|]); (split; [lia|by left])|].
  destruct (Z.ltb_spec 28 (7 * k + 7)).
  { exists UINT64_MAX. split; [done|]. split; [done|by right]. }
  destruct (IH (k + 1) (p - 1) val') as (v & Hd & Hr & Hlow); try lia.
  replace (7 * k + 7) with (7 * (k + 1)) by lia. exists v. split; [done|]. split; [done|].
  destruct Hlow as [Hlow|?]; [left|by right]. rewrite <- Hmod, <- Hlow.
  replace (7 * (k + 1)) with (7 * k + 7) by lia. rewrite Z.pow_add_r by lia.
  rewrite Z.rem_mul_r, (Z.mul_comm (2 ^ (7 * k))), Z.mod_add by lia. symmetry. apply Z.mod_mod. lia.
Qed.

Lemma decode_safe p :
  4 <= p < zlen lp -> exists b v, rd lp p = Ok b /\ lpDecodeBacklen lp p = Ok v /\
  0 <= v < 2 ^ 64 /\ (v mod 128 = b mod 128 \/ v = UINT64_MAX).
Proof.
  intros Hp. unfold lpDecodeBacklen. cbn [lpDecodeBacklen_loop]. rd_step. exists x.
  change 127 with (2 ^ 7 - 1). rewrite land_ones_mod, Z.shiftl_0_r, Z.lor_0_l by lia.
  pose proof (Z.mod_pos_bound x (2 ^ 7) ltac:(lia)) as Hm. change (2 ^ 7) with 128 in *.
  rewrite (wrapu_small 64) by lia. destruct (Z.land x 128 =? 0).
  - exists (x mod 128). split; [done|]. split; [done|]. split; [lia|]. left. apply Z.mod_mod. lia.
  - cbn [Z.add Z.ltb Z.compare Pos.compare Pos.compare_cont].
    destruct (decode_loop_safe 5 1 (p - 1) (x mod 128)) as (v & Hd & Hr & Hl);
      [lia|lia|lia|change (2 ^ (7 * 1)) with 128; lia|].
    exists v. split; [done|]. split; [done|]. split; [lia|done].
Qed.

(** The string lengths read from arbitrary bytes. *)
Lemma len6_safe p b : rd lp p = Ok b -> exists n,
  LP_ENCODING_6BIT_STR_LEN lp p = Ok n /\ 0 <= n < 64.
Proof.
  intros Hb. unfold LP_ENCODING_6BIT_STR_LEN. rewrite Hb. eexists. split; [done|].
  change 0x3F with (2 ^ 6 - 1). rewrite land_ones_mod by lia. apply Z.mod_pos_bound. lia.
Qed.

Lemma len12_safe p b : rd lp p = Ok b -> 0 <= p -> p + 2 <= zlen lp -> exists n,
  LP_ENCODING_12BIT_STR_LEN lp p = Ok n /\ 0 <= n < 4096.
Proof.
  intros Hb Hp Hl. unfold LP_ENCODING_12BIT_STR_LEN. rewrite Hb. cbn [mbind res_bind]. rd_step.
  eexists. split; [done|]. change 0xF with (2 ^ 4 - 1). rewrite land_ones_mod by lia.
  pose proof (Z.mod_pos_bound b (2 ^ 4) ltac:(lia)). rewrite lor_shiftl_add by lia. lia.
Qed.

(** A 32 bit length that would wrap is followed by bytes that no back length
    check accepts. *)
Definition wrapped (p e : Z) : Prop := exists c, rd lp (p + e) = Ok c /\ c mod 128 <> e /\ 0 <= e <= 4.

Lemma len32_safe p : rd lp p = Ok 0xF0 -> 0 <= p -> p + 5 <= zlen lp -> exists n,
  LP_ENCODING_32BIT_STR_LEN lp p = Ok n /\ 0 <= n < 2 ^ 32 /\
  (5 + n < 2 ^ 32 \/ wrapped p (5 + n - 2 ^ 32)).
Proof.
  intros Hb Hp Hl. unfold LP_ENCODING_32BIT_STR_LEN. do 4 rd_step.
  rewrite lor_le4 by (repeat constructor; unfold is_byte; lia). eexists. split; [done|]. cbn [le_val].
  split; [lia|].
  destruct (Z.lt_ge_cases (5 + (x2 + 256 * (x1 + 256 * (x0 + 256 * (x + 256 * 0))))) (2 ^ 32))
    as [Hlt|Hge]; [left; exact Hlt|right].
  assert (x = 255 /\ x1 = 255 /\ x0 = 255 /\ 251 <= x2) as (-> & -> & -> & Hge') by lia.
  assert (Hc : x2 = 251 \/ x2 = 252 \/ x2 = 253 \/ x2 = 254 \/ x2 = 255) by lia.
  unfold wrapped. destruct Hc as [->|[->|[->|[->| ->]]]]; eexists; (split; [|split; [|lia]]).
  - replace (p + _) with p by lia. done.
  - done.
  - replace (p + _) with (p + 1) by lia. done.
  - done.
  - replace (p + _) with (p + 2) by lia. done.
  - done.
  - replace (p + _) with (p + 3) by lia. done.
  - done.
  - replace (p + _) with (p + 4) by lia. done.
  - done.
Qed.

(** Where the element that [lpGet] returns lies: inside the entry. *)
Definition value_inside (p e : Z) (v : lpvalue) : Prop :=
  match v with LpPtr q n => p < q /\ 0 <= n /\ q + n = p + e | _ => True end.

Lemma entry_safe p b k :
  rd lp p = Ok b -> (b =? LP_EOF) = false -> lpCurrentEncodedSizeBytes lp p = Ok k -> k <> 0 ->
  p + k <= zlen lp -> exists e, lpCurrentEncodedSizeUnsafe lp p = Ok e /\ 0 <= e < 2 ^ 32 /\
  (wrapped p e \/ (p + e <= zlen lp -> forall es, exists v es',
    lpGetWithSize lp p None es = Ok (v, es') /\ value_inside p e v)).
Proof.
  intros Hb Hne Hk Hk0 Hl. pose proof (rd_Ok_inv _ _ _ Hb) as [[Hp _] _].
  unfold lpCurrentEncodedSizeBytes, lpCurrentEncodedSizeUnsafe, lpGetWithSize in *.
  rewrite Hb in *. cbn [mbind res_bind] in *. rewrite Hne in Hk |- *.
  assert (Hint : forall n (f : Z -> res (lpvalue * Z)), 0 <= n < 2 ^ 32 ->
    (p + n <= zlen lp -> forall es, exists v es', f es = Ok (LpNull v, es')) ->
    exists e, Ok n = Ok e /\ 0 <= e < 2 ^ 32 /\ (wrapped p e \/ (p + e <= zlen lp ->
      forall es, exists v es', f es = Ok (v, es') /\ value_inside p e v))).
  { intros n f Hn Hf. exists n. split; [done|]. split; [done|]. right. intros Hle es.
    destruct (Hf Hle es) as (v & es' & ->). by eexists _, _. }
  destruct (LP_ENCODING_IS_7BIT_UINT b); [apply Hint; [lia|by eauto]|].
  destruct (LP_ENCODING_IS_6BIT_STR b).
  { destruct (len6_safe p b Hb) as (n & -> & Hn). cbn [mbind res_bind].
    exists (1 + n). rewrite wrapu_small by lia. split; [done|]. split; [lia|]. right. intros _ es.
    eexists _, _. split; [done|]. cbn. lia. }
  destruct (LP_ENCODING_IS_13BIT_INT b); [apply Hint; [lia|intros Hle es; rd_step; by eauto]|].
  destruct (LP_ENCODING_IS_16BIT_INT b); [apply Hint; [lia|intros Hle es; do 2 rd_step; by eauto]|].
  destruct (LP_ENCODING_IS_24BIT_INT b); [apply Hint; [lia|intros Hle es; do 3 rd_step; by eauto]|].
  destruct (LP_ENCODING_IS_32BIT_INT b); [apply Hint; [lia|intros Hle es; do 4 rd_step; by eauto]|].
  destruct (LP_ENCODING_IS_64BIT_INT b); [apply Hint; [lia|intros Hle es; do 8 rd_step; by eauto]|].
  destruct (LP_ENCODING_IS_12BIT_STR b).
  { injection Hk as <-. destruct (len12_safe p b Hb Hp Hl) as (n & -> & Hn). cbn [mbind res_bind].
    exists (2 + n). rewrite wrapu_small by lia. split; [done|]. split; [lia|]. right. intros _ es.
    eexists _, _. split; [done|]. cbn. lia. }
  destruct (LP_ENCODING_IS_32BIT_STR b) eqn:E32; [|congruence].
  injection Hk as <-. assert (b = 0xF0) as ->.
  { pose proof (rd_byte _ _ _ Hwf Hb) as Hbb. unfold LP_ENCODING_IS_32BIT_STR in E32.
    change 0xFF with (2 ^ 8 - 1) in E32. rewrite land_ones_mod in E32 by lia.
    rewrite Z.mod_small in E32 by apply Hbb. by apply Z.eqb_eq. }
  destruct (len32_safe p Hb Hp Hl) as (n & -> & Hn & Hw). cbn [mbind res_bind].
  exists (u32 (5 + n)). split; [done|]. split; [apply wrapu_range; lia|].
  destruct Hw as [Hlt|Hw].
  - rewrite wrapu_small by lia. right. intros _ es. eexists _, _. split; [done|]. cbn. lia.
  - left. replace (u32 (5 + n)) with (5 + n - 2 ^ 32); [done|].
    destruct Hw as (_ & _ & _ & Hw). unfold wrapu. apply (Zmod_unique _ _ 1); lia.
Qed.

(** ** What [lpValidateNext] guarantees *)

(** [p] starts an entry that validation accepts and that ends at [q]: its
    sizes agree in both directions and its value lies inside it. *)
Definition entry_facts (size p q : Z) : Prop :=
  LP_HDR_SIZE <= p /\ exists b e,
  q = p + (e + backlen_size e) /\ rd lp p = Ok b /\ (b =? LP_EOF) = false /\ q < size /\
  0 <= e < 2 ^ 32 /\ lpCurrentEncodedSizeUnsafe lp p = Ok e /\ lpDecodeBacklen lp (q - 1) = Ok e /\
  forall es, exists v es', lpGetWithSize lp p None es = Ok (v, es') /\ value_inside p e v.

Definition valid_entry (size p q : Z) : Prop :=
  lpValidateNext lp (Some p) size = Ok (true, Some q) /\ entry_facts size p q.

Lemma validate_next_facts size p :
  size <= zlen lp -> exists ok pp, lpValidateNext lp (Some p) size = Ok (ok, pp) /\
  (ok = true -> (pp = None /\ rd lp p = Ok LP_EOF) \/ exists q, pp = Some q /\ entry_facts size p q).
Proof.
  intros Hs. unfold entry_facts, lpValidateNext, OUT_OF_RANGE, LP_HDR_SIZE.
  destruct (Z.ltb_spec p 6); cbn [orb]; [by eexists _, _|].
  destruct (Z.ltb_spec (size - 1) p); cbn [orb]; [by eexists _, _|].
  destruct (rd_in_range lp p ltac:(lia)) as [b Hb]. rewrite Hb. cbn [mbind res_bind].
  destruct (b =? LP_EOF) eqn:Heof.
  { apply Z.eqb_eq in Heof as ->. eexists _, _. split; [done|]. intros _. by left. }
  assert (Hk : exists k, lpCurrentEncodedSizeBytes lp p = Ok k /\ 0 <= k).
  { unfold lpCurrentEncodedSizeBytes. rewrite Hb. cbn [mbind res_bind]. rewrite Heof.
    repeat case_match; eexists; (split; [done|lia]). }
  destruct Hk as (k & Hk & Hk0). rewrite Hk. cbn [mbind res_bind].
  destruct (Z.eqb_spec k 0) as [?|Hkn]; [by eexists _, _|].
  destruct (Z.ltb_spec (p + k) 6); cbn [orb]; [by eexists _, _|].
  destruct (Z.ltb_spec (size - 1) (p + k)); cbn [orb]; [by eexists _, _|].
  destruct (entry_safe p b k Hb Heof Hk Hkn ltac:(lia)) as (e & Hun & He & Hget). rewrite Hun.
  cbn [mbind res_bind]. fold (backlen_size e). pose proof (backlen_size_range e) as Hbl.
  rewrite !(wrapu_small 64 (e + _)) by lia.
  destruct (Z.ltb_spec (p + (e + backlen_size e)) 6); cbn [orb]; [by eexists _, _|].
  destruct (Z.ltb_spec (size - 1) (p + (e + backlen_size e))); cbn [orb]; [by eexists _, _|].
  destruct (decode_safe (p + (e + backlen_size e) - 1) ltac:(lia)) as (c & v & Hc & Hdec & Hv & Hlow).
  rewrite Hdec. cbn [mbind res_bind]. destruct (Z.eqb_spec (u64 (v + backlen_size e)) (e + backlen_size e)) as [Heq|];
    cbn [negb]; [|by eexists _, _].
  assert (v = e) as ->.
  { unfold wrapu in Heq. change (2 ^ 64) with 18446744073709551616 in *. Z.div_mod_to_equations. lia. }
  eexists _, _. split; [done|]. intros _. right. eexists. split; [done|].
  split; [lia|]. exists b, e. split_and!; try done; try lia.
  destruct Hget as [Hw|Hget]; [|apply Hget; lia]. exfalso. destruct Hw as (c' & Hc' & Hne & Hr).
  assert (backlen_size e = 1) as Hb1.
  { unfold backlen_size, lpEncodeBacklen. by rewrite (proj2 (Z.leb_le e 127)) by lia. }
  rewrite Hb1 in Hc. replace (p + (e + 1) - 1) with (p + e) in Hc by lia. rewrite Hc' in Hc. injection Hc as <-.
  destruct Hlow as [Hlow|Hlow].
  - rewrite Z.mod_small in Hlow by lia. congruence.
  - unfold UINT64_MAX in Hlow. lia.
Qed.

Lemma validate_next_safe size p :
  size <= zlen lp -> exists ok pp, lpValidateNext lp (Some p) size = Ok (ok, pp) /\
  (ok = true -> (pp = None /\ rd lp p = Ok LP_EOF) \/ exists q, pp = Some q /\ valid_entry size p q).
Proof.
  intros Hs. destruct (validate_next_facts size p Hs) as (ok & pp & Heq & Hf).
  exists ok, pp. split; [done|]. intros ->. destruct (Hf eq_refl) as [?|(q & -> & Hq)]; [by left|].
  right. exists q. split; [done|]. by split.
Qed.

(** The entries from [p] to the terminator at [size - 1]. *)
Fixpoint chain (size p : Z) (ps : list Z) : Prop :=
  match ps with
  | [] => p = size - 1
  | x :: ps => x = p /\ exists q, valid_entry size p q /\ chain size q ps
  end.

Lemma valid_entry_range size p q : valid_entry size p q -> LP_HDR_SIZE <= p < q /\ q < size.
Proof.
  intros (_ & Hp & b & e & -> & _ & _ & Hq & He & _). pose proof (backlen_size_range e). lia.
Qed.

Lemma chain_valid size ps : forall p x, chain size p ps -> x ∈ ps -> exists q, valid_entry size x q.
Proof.
  induction ps as [|y ps IH]; intros p x Hc Hx; [by apply elem_of_nil in Hx|]. destruct Hc as (-> & q & Hv & Hc).
  apply elem_of_cons in Hx as [->|Hx]; [eauto|by eapply IH].
Qed.

Lemma chain_length size ps : forall p, chain size p ps -> zlen ps + p < size.
Proof.
  induction ps as [|y ps IH]; intros p Hc; cbn [chain] in Hc; [rewrite zlen_nil; lia|]. destruct Hc as (-> & q & Hv & Hc).
  specialize (IH q Hc). pose proof (valid_entry_range size p q Hv). rewrite zlen_cons. lia.
Qed.

Section loop.
(** [P ps u]: what holds of the state of the callback after the entries [ps]. *)
Context {U : Type} (cb : option (U -> Z -> Z -> res (U * bool))) (size numele : Z) (P : list Z -> U -> Prop).
Context (Hcb : forall ps u p q, P ps u -> valid_entry size p q ->
  exists u' ok, (match cb with Some f => f u p numele | None => Ok (u, true) end) = Ok (u', ok) /\ (ok = true -> P (ps ++ [p]) u')).

Lemma validate_loop fuel : forall p count u pre,
  size <= zlen lp -> size < 2 ^ 32 -> LP_HDR_SIZE <= p < size -> size - p < Z.of_nat fuel ->
  0 <= count -> count + (size - p) < 2 ^ 32 -> P pre u ->
  exists u' o, lpValidateIntegrity_loop cb fuel lp size numele (Some p) count u = Ok (u', o) /\
  match o with
  | None => True
  | Some (q, n) => exists q', q = Some q' /\
      (q' = size - 1 -> exists ps, chain size p ps /\ n = count + zlen ps /\ P (pre ++ ps) u')
  end.
Proof.
  induction fuel as [|fuel IH]; intros p count u pre Hs Hs2 Hp Hf Hc Hcs HP; [lia|]. cbn [lpValidateIntegrity_loop].
  destruct (rd_in_range lp p ltac:(unfold LP_HDR_SIZE in *; lia)) as [b Hb]. rewrite Hb. cbn [mbind res_bind].
  destruct (b =? LP_EOF) eqn:Heof.
  { eexists _, _. split; [done|]. exists p. split; [done|]. intros ->. exists []. rewrite app_nil_r.
    split; [done|]. change (zlen (@nil Z)) with 0. split; [lia|done]. }
  destruct (validate_next_safe size p Hs) as (ok & pp & -> & Hok). cbn [mbind res_bind].
  destruct ok; cbn [negb]; [|by eexists _, _].
  destruct (Hok eq_refl) as [[_ Hb']|(q & -> & Hv)]; [rewrite Hb' in Hb; by injection Hb as <-|].
  destruct (Hcb pre u p q HP Hv) as (u1 & ok1 & -> & HP1).
  cbn [mbind res_bind]. destruct ok1; cbn [negb]; [|by eexists _, _].
  pose proof (valid_entry_range size p q Hv) as Hq. rewrite (wrapu_small 32) by lia.
  destruct (IH q (count + 1) u1 (pre ++ [p])) as (u' & o & -> & Ho); try lia; [by apply HP1|].
  eexists _, _. split; [done|]. destruct o as [[q1 n]|]; [|done].
  destruct Ho as (q' & -> & Hch). exists q'. split; [done|]. intros Hend.
  destruct (Hch Hend) as (ps & Hps & -> & HP'). exists (p :: ps). rewrite zlen_cons. rewrite <- app_assoc in HP'. split; [|split; [lia|done]].
  split; [done|]. by exists q.
Qed.

End loop.

(** ** Walking a validated listpack *)

(** [ps] are the elements in order: the cursors move along it in both
    directions, and every element can be read inside its entry. *)
Definition walk (size : Z) (ps : list Z) : Prop :=
  lpFirst lp = Ok (list.head ps) /\ lpLast lp = Ok (list.last ps) /\
  forall i p, ps !! i = Some p ->
    lpNext lp p = Ok (ps !! S i) /\
    lpPrev lp p = Ok (match i with O => None | S j => ps !! j end) /\
    exists v, lpGet lp p None = Ok v /\
      match v with LpPtr q n => p < q /\ 0 <= n /\ q + n < size | _ => True end.

Context (size : Z) (Hsize : lpGetTotalBytes lp = Ok size) (Heof : rd lp (size - 1) = Ok LP_EOF).

Lemma valid_assert p q : valid_entry size p q -> lpAssertValidEntry lp size p = Ok tt.
Proof. intros [Hv _]. unfold lpAssertValidEntry. by rewrite Hv. Qed.

Lemma valid_skip p q : valid_entry size p q -> lpSkip lp p = Ok q.
Proof.
  intros (_ & Hp & b & e & -> & _ & _ & Hq & He & Hun & _). unfold lpSkip. rewrite Hun.
  cbn [mbind res_bind]. fold (backlen_size e). pose proof (backlen_size_range e).
  by rewrite wrapu_small by lia.
Qed.

Lemma valid_next p q ps :
  valid_entry size p q -> chain size q ps -> lpNext lp p = Ok (list.head ps).
Proof.
  intros Hv Hc. unfold lpNext. rewrite (valid_skip p q Hv). cbn [mbind res_bind].
  destruct ps as [|x ps]; cbn [chain] in Hc.
  - subst q. rewrite Heof. done.
  - destruct Hc as (-> & q' & Hv' & _). pose proof Hv' as (_ & _ & b & e & _ & Hb & Hne & _).
    rewrite Hb. cbn [mbind res_bind]. rewrite Hne. unfold lpBytes. rewrite Hsize. cbn [mbind res_bind]. by rewrite (valid_assert q q' Hv').
Qed.

Lemma valid_prev p q : valid_entry size p q -> lpPrev lp q = Ok (Some p).
Proof.
  intros Hv. pose proof (valid_entry_range _ _ _ Hv) as Hr. unfold lpPrev.
  rewrite (proj2 (Z.eqb_neq q LP_HDR_SIZE)) by lia.
  pose proof Hv as (_ & Hp & b & e & Hq & _ & _ & Hlt & He & _ & Hdec & _).
  rewrite Hdec. cbn [mbind res_bind]. fold (backlen_size e). pose proof (backlen_size_range e).
  rewrite !(wrapu_small 64) by (rewrite ?wrapu_small; lia). unfold lpBytes. rewrite Hsize. cbn [mbind res_bind].
  replace (q - 1 - _) with p by lia. by rewrite (valid_assert p q Hv).
Qed.

Lemma valid_get p q : valid_entry size p q -> exists v, lpGet lp p None = Ok v /\
  match v with LpPtr r n => p < r /\ 0 <= n /\ r + n < size | _ => True end.
Proof.
  intros (_ & Hp & b & e & Hq & _ & _ & Hlt & He & _ & _ & Hg). unfold lpGet.
  destruct (Hg 0) as (v & es' & -> & Hi). cbn [mbind res_bind fst]. exists v. split; [done|].
  destruct v; try done. cbn in Hi. pose proof (backlen_size_range e). lia.
Qed.

(** Positions of a chain that starts after [prev]. *)
Lemma chain_walk ps : forall p prev,
  chain size p ps -> lpPrev lp p = Ok prev ->
  lpPrev lp (size - 1) = Ok (match list.last ps with Some x => Some x | None => prev end) /\
  forall i x, ps !! i = Some x ->
    lpNext lp x = Ok (ps !! S i) /\
    lpPrev lp x = Ok (match i with O => prev | S j => ps !! j end) /\
    exists v, lpGet lp x None = Ok v /\
      match v with LpPtr q n => x < q /\ 0 <= n /\ q + n < size | _ => True end.
Proof.
  induction ps as [|x ps IH]; intros p prev Hc Hprev; cbn [chain] in Hc.
  - subst p. by split.
  - destruct Hc as (-> & q & Hv & Hc). destruct (IH q (Some p) Hc (valid_prev p q Hv)) as [Hl Hi].
    split.
    + rewrite Hl. destruct ps as [|y ps]; [done|]. cbn [list.last]. destruct (list.last (y :: ps)) eqn:E; [done|].
      by apply list.last_None in E.
    + intros [|i] y Hy; cbn in Hy.
      * injection Hy as <-. split_and!; [|done|by eapply valid_get].
        rewrite (valid_next p q ps Hv Hc). by destruct ps.
      * destruct (Hi i y Hy) as (Hn & Hp & Hg). split_and!; try done; by destruct i.
Qed.

Lemma chain_walks ps : chain size LP_HDR_SIZE ps -> walk size ps.
Proof.
  intros Hc. destruct (chain_walk ps LP_HDR_SIZE None Hc ltac:(done)) as [Hl Hi].
  split_and!; [| |done].
  - unfold lpFirst. destruct ps as [|x ps]; cbn [chain] in Hc.
    + rewrite <- Hc in Heof. by rewrite Heof.
    + destruct Hc as (-> & q & Hv & _). pose proof Hv as (_ & _ & b & e & _ & Hb & Hne & _).
      rewrite Hb. cbn [mbind res_bind]. rewrite Hne. unfold lpBytes. rewrite Hsize. cbn [mbind res_bind].
      by rewrite (valid_assert _ q Hv).
  - unfold lpLast. rewrite Hsize. cbn [mbind res_bind]. rewrite Hl. by destruct (list.last ps).
Qed.

End untrusted.

End ListpackValidate.
