(* ===== verification/ListpackSpec.v ===== *)
(** * Listpacks: what the interface promises.

    The properties of the listpack component.  [listpack_refines_list] runs
    any sequence of interface calls next to the same operations on a list of
    strings; the others state single operations. *)

From S2P Require Import Prelude Util ListpackEnc Listpack ListpackTheory ListpackValidate.
#[local] Open Scope Z_scope.

Module ListpackSpec.
Import LP Listpack ListpackTheory ListpackValidate.

(** The bytes of the string that [lpGet] returned. *)
Definition value_text (lp : bytes) (v : lpvalue) : res bytes :=
  match v with
  | LpPtr q n => rdn lp q n
  | LpIntbuf buf n => rdn buf 0 n
  | LpNull n => Ok (Util.decimal n)
  end.

Lemma get_text e pre post ib :
  elem_ok e -> match ib with Some buf => LP_INTBUF_SIZE <= zlen buf | None => True end ->
  exists v, lpGet (pre ++ entry e ++ post) (zlen pre) ib = Ok v /\
    value_text (pre ++ entry e ++ post) v = Ok (text e).
Proof.
  intros He Hb. unfold lpGet, entry. rewrite <- app_assoc.
  set (post' := backlen (zlen (data e)) ++ post). destruct e as [v|s].
  - rewrite get_int_spec by done. destruct ib as [buf|]; [|by exists (LpNull v)].
    unfold LP_INTBUF_SIZE in *. pose proof (Util.decimal_length v He).
    destruct (Util.ll2string_fits buf 21 v He ltac:(lia)) as (suf & -> & _).
    cbn [mbind res_bind fst snd]. eexists. split; [done|].
    apply (rdn_app [] (Util.decimal v) (0 :: suf)).
  - destruct (get_str_spec s pre post' ib 0 He) as (h & es & Hd & -> & _). cbn [mbind res_bind fst].
    eexists. split; [done|]. cbn [value_text]. rewrite Hd, <- app_assoc, (app_assoc pre). apply rdn_app.
Qed.

(** Reading the element with index [i]: its text, if there is one. *)
Definition lp_index (lp : bytes) (i : Z) : res (option bytes) :=
  p ← lpSeek lp i;
  match p with
  | None => Ok None
  | Some p => v ← lpGet lp p None; s ← value_text lp v; Ok (Some s)
  end.

Lemma index_spec lp es i :
  repr lp es -> 0 <= i -> lp_index lp i = Ok (text <$> es !! Z.to_nat i).
Proof.
  intros (num & slack & -> & Hn & Hok & Ht) Hi. unfold lp_index. rewrite seek_spec by done.
  cbn [mbind res_bind]. cbv zeta. unfold norm_index. rewrite (proj2 (Z.ltb_ge i 0)) by done.
  rewrite (proj2 (Z.leb_le 0 i)) by done. cbn [andb].
  destruct (Z.ltb_spec i (zlen es)) as [Hlt|Hge].
  - destruct (lookup_lt_is_Some_2 es (Z.to_nat i)) as [e He]; [unfold zlen in Hlt; lia|].
    rewrite He. pose proof (take_drop_middle es (Z.to_nat i) e He) as Hes.
    set (l := take (Z.to_nat i) es) in *. rewrite <- Hes in Hok |- *.
    apply Forall_app in Hok as [_ [Hoke _]%Forall_cons_1].
    rewrite lpenc_cursor, <- (zlen_before (total (l ++ e :: drop (S (Z.to_nat i)) es)) num l).
    destruct (get_text e (before (total (l ++ e :: drop (S (Z.to_nat i)) es)) num l)
      (body (drop (S (Z.to_nat i)) es) ++ LP_EOF :: slack) None Hoke I) as (v & -> & Hv).
    cbn [mbind res_bind]. by rewrite Hv.
  - rewrite lookup_ge_None_2; [done|]. unfold zlen in Hge. lia.
Qed.

(** ** A run of interface calls *)

(** Calls of the interface that address elements by index. *)
Inductive op : Type :=
| Append (s : bytes)
| AppendInteger (v : Z)
| Prepend (s : bytes)
| PrependInteger (v : Z)
| Replace (i : Z) (s : bytes)
| Delete (i : Z)
| DeleteRange (i n : Z)
| ShrinkToFit.

Definition op_ok (o : op) : Prop :=
  match o with
  | Append s | Prepend s => wf_bytes s /\ zlen s < 2 ^ 32
  | Replace i s => is_i64 i /\ wf_bytes s /\ zlen s < 2 ^ 32
  | AppendInteger v | PrependInteger v => is_i64 v
  | Delete i => is_i64 i
  | DeleteRange i n => is_i64 i /\ is_u64 n
  | ShrinkToFit => True
  end.

(** The caller keeps its listpack when a call returns NULL. *)
Definition keep (lp : bytes) (r : res (option bytes)) : res bytes :=
  o ← r; Ok (default lp o).

Section runs.
Context `{Allocator}.

Definition run_op (lp : bytes) (o : op) : res bytes :=
  match o with
  | Append s => keep lp (lpAppend lp s (zlen s))
  | AppendInteger v => keep lp (lpAppendInteger lp v)
  | Prepend s => keep lp (lpPrepend lp s (zlen s))
  | PrependInteger v => keep lp (lpPrependInteger lp v)
  | Replace i s =>
    p ← lpSeek lp i;
    match p with
    | None => Ok lp
    | Some p => keep lp (r ← lpReplace lp p s (zlen s); Ok (option_map fst r))
    end
  | Delete i =>
    p ← lpSeek lp i;
    match p with
    | None => Ok lp
    | Some p => keep lp (r ← lpDelete lp p false; Ok (option_map fst r))
    end
  | DeleteRange i n => lpDeleteRange lp i n
  | ShrinkToFit => lpShrinkToFit lp
  end.

Fixpoint run (lp : bytes) (os : list op) : res bytes :=
  match os with
  | [] => Ok lp
  | o :: os => lp ← run_op lp o; run lp os
  end.

End runs.

(** The same calls on a list; a listpack never grows to 4GB. *)
Definition limit (es es' : list elem) : list elem :=
  if total es' <? 2 ^ 32 then es' else es.

Definition spec_op (es : list elem) (o : op) : list elem :=
  let at_ i (f : nat -> list elem) :=
    let k := norm_index es i in
    if (0 <=? k) && (k <? zlen es) then f (Z.to_nat k) else es in
  match o with
  | Append s => limit es (es ++ [elem_of s])
  | AppendInteger v => limit es (es ++ [EInt v])
  | Prepend s => limit es (elem_of s :: es)
  | PrependInteger v => limit es (EInt v :: es)
  | Replace i s => at_ i (fun k => limit es (take k es ++ elem_of s :: drop (S k) es))
  | Delete i => at_ i (fun k => take k es ++ drop (S k) es)
  | DeleteRange i n => remove_range es i n
  | ShrinkToFit => es
  end.

(** An index in range splits the list. *)
Lemma split_at (es : list elem) k :
  0 <= k < zlen es -> exists e, es = take (Z.to_nat k) es ++ e :: drop (S (Z.to_nat k)) es.
Proof.
  intros Hk. destruct (lookup_lt_is_Some_2 es (Z.to_nat k)) as [e He]; [unfold zlen in Hk; lia|].
  exists e. symmetry. by apply take_drop_middle.
Qed.

Lemma keep_limit lp es es' (r : res (option bytes)) :
  repr lp es ->
  (if total es' <? 2 ^ 32 then exists lp', r = Ok (Some lp') /\ repr lp' es' else r = Ok None) ->
  exists lp', keep lp r = Ok lp' /\ repr lp' (limit es es').
Proof.
  intros Hr. unfold keep, limit. destruct (total es' <? 2 ^ 32).
  - intros (lp' & -> & Hr'). by exists lp'.
  - intros ->. by exists lp.
Qed.

Lemma run_op_spec `{Allocator} lp es o :
  repr lp es -> op_ok o -> exists lp', run_op lp o = Ok lp' /\ repr lp' (spec_op es o).
Proof.
  intros Hr Ho. pose proof Hr as (num & slack & Hlp & Hn & Hok & Ht).
  destruct o as [s|v|s|v|i s|i|i n|]; cbn [run_op spec_op op_ok] in *.
  - destruct Ho. by apply keep_limit, append_spec.
  - by apply keep_limit, append_int_spec.
  - destruct Ho. by apply keep_limit, prepend_spec.
  - by apply keep_limit, prepend_int_spec.
  - rewrite Hlp, seek_spec, <- Hlp by done. cbn [mbind res_bind]. cbv zeta.
    destruct ((0 <=? _) && _) eqn:E; [|by exists lp].
    apply andb_true_iff in E as [H0%Z.leb_le H1%Z.ltb_lt]. set (k := norm_index es i) in *.
    destruct (split_at es k ltac:(lia)) as [e He]. destruct Ho as (_ & Hs & Hl).
    apply keep_limit; [done|]. rewrite He in Hr.
    pose proof (replace_spec lp _ e _ s Hr Hs Hl) as Hrep.
    destruct (total _ <? 2 ^ 32); [|by rewrite Hrep].
    destruct Hrep as (lp' & -> & Hr'). by exists lp'.
  - rewrite Hlp, seek_spec, <- Hlp by done. cbn [mbind res_bind]. cbv zeta.
    destruct ((0 <=? _) && _) eqn:E; [|by exists lp].
    apply andb_true_iff in E as [H0%Z.leb_le H1%Z.ltb_lt]. set (k := norm_index es i) in *.
    destruct (split_at es k ltac:(lia)) as [e He]. rewrite He in Hr.
    destruct (delete_spec lp _ e _ false Hr) as (lp' & -> & Hr'). by exists lp'.
  - destruct Ho. by apply delete_range_spec.
  - subst lp. destruct (shrink_to_fit num es slack Ht) as (s' & ->). eexists. split; [done|].
    by exists num, s'.
Qed.

Lemma run_spec `{Allocator} os : forall lp es,
  repr lp es -> Forall op_ok os -> exists lp', run lp os = Ok lp' /\ repr lp' (foldl spec_op es os).
Proof.
  induction os as [|o os IH]; intros lp es Hr Hos; [by exists lp|].
  apply Forall_cons_1 in Hos as [Ho Hos]. cbn [run foldl].
  destruct (run_op_spec lp es o Hr Ho) as (lp1 & -> & Hr1). by apply IH.
Qed.

(** ** The integrity check accepts what the operations build *)

Section complete.
(** [P l u]: what holds of the state of the callback after the elements [l]. *)
Context {U : Type} (cb : option (U -> Z -> Z -> res (U * bool))) (num : Z) (es : list elem) (P : list elem -> U -> Prop).
Context (Hcb : forall l e r u, es = l ++ e :: r -> P l u ->
  exists u', (match cb with Some f => f u (pos l) num | None => Ok (u, true) end) = Ok (u', true) /\ P (l ++ [e]) u').

Lemma validate_loop_complete r : forall fuel l count u,
  es = l ++ r -> P l u ->
  (length r < fuel)%nat -> Forall elem_ok es -> 0 <= count -> count + zlen r < 2 ^ 32 ->
  exists u', lpValidateIntegrity_loop cb fuel (lpenc num es []) (total es) num (Some (pos l)) count u
    = Ok (u', Some (Some (pos es), count + zlen r)) /\ P es u'.
Proof.
  induction r as [|e r IH]; intros fuel l count u Hes HP Hf Hok Hc Hl; (destruct fuel as [|fuel]; [cbn in Hf; lia|]);
    cbn [lpValidateIntegrity_loop]; rewrite Hes in Hok.
  - destruct (rd_pos num [] l [] Hok) as (b & Hb & Heof). rewrite Hes, Hb. cbn [mbind res_bind]. rewrite Heof.
    rewrite app_nil_r, zlen_nil, Z.add_0_r. eauto.
  - destruct (rd_pos num [] l (e :: r) Hok) as (b & Hb & Heof). rewrite Hes, Hb. cbn [mbind res_bind]. rewrite Heof.
    pose proof Hok as [_ [He _]%Forall_cons_1]%Forall_app. cbn [length] in Hf. rewrite zlen_cons in *.
    pose proof (zlen_nonneg r).
    assert (Hv : lpValidateNext (lpenc num (l ++ e :: r) []) (Some (pos l)) (total (l ++ e :: r))
      = Ok (true, Some (pos (l ++ [e])))).
    { rewrite lpenc_cursor, <- (zlen_before (total (l ++ e :: r)) num l), validate_entry; try done.
      - rewrite zlen_app, zlen_before, pos_snoc, zlen_entry. do 3 f_equal. lia.
      - rewrite zlen_before. apply pos_ge.
      - rewrite zlen_app, zlen_before, total_app, body_cons, zlen_app.
        pose proof (zlen_nonneg (body r)). lia. }
    rewrite Hv. cbn [mbind res_bind negb]. destruct (Hcb l e r u Hes HP) as (u1 & -> & HP1). cbn [mbind res_bind negb].
    rewrite (wrapu_small 32) by lia.
    destruct (IH fuel (l ++ [e]) (count + 1) u1) as (u' & Hu & HP'); [by rewrite snoc_app|done|lia|by rewrite Hes|lia|lia|].
    rewrite Hes in Hu, HP'. rewrite Hu. exists u'. split; [|done]. do 4 f_equal. lia.
Qed.

Lemma validate_integrity_complete lp user :
  repr lp es -> lpGetNumElements lp = Ok num -> P [] user ->
  exists user', lpValidateIntegrity (take (Z.to_nat (total es)) lp) (total es) true cb user = Ok (user', true) /\ P es user'.
Proof.
  intros (num' & slack & -> & Hn & Hok & Ht) Hnum HP. rewrite num_spec in Hnum by done. injection Hnum as ->.
  pose proof (total_range es) as Htr.
  assert (Hlp : take (Z.to_nat (total es)) (lpenc num es slack) = lpenc num es []).
  { unfold lpenc. rewrite (cons_middle LP_EOF (body es) slack), (app_assoc (body es)), app_assoc.
    rewrite take_app_length'; [done|]. rewrite !length_app. rewrite total_eq. unfold zlen.
    change (length (hdr _ _)) with 6%nat. cbn [length]. lia. }
  rewrite Hlp. unfold lpValidateIntegrity, LP_HDR_SIZE. rewrite (proj2 (Z.ltb_ge _ _)) by lia.
  rewrite bytes_spec by done. cbn [mbind res_bind]. rewrite Z.eqb_refl. cbn [negb].
  destruct (rd_pos num [] es [] ltac:(by rewrite app_nil_r)) as (b & Hb & ->%Z.eqb_eq).
  rewrite app_nil_r in Hb. replace (total es - 1) with (pos es) by (unfold total; lia).
  rewrite Hb. cbn [mbind res_bind]. rewrite Z.eqb_refl. cbn [negb].
  rewrite num_spec by done. cbn [mbind res_bind].
  pose proof (zlen_body_ge es Hok). pose proof (zlen_nonneg es). rewrite total_eq in Ht.
  destruct (validate_loop_complete es (S (length (lpenc num es []))) [] 0 user) as (u' & Hl & HP'); try done; try lia;
    [pose proof (length_lpenc num es [] Hok); lia|].
  change (pos []) with 6 in Hl. rewrite Hl. exists u'. split; [|done].
  cbn [mbind res_bind]. rewrite Z.eqb_refl. cbn [negb]. rewrite Z.add_0_l.
  destruct Hn as [[-> _]| ->]; rewrite Z.eqb_refl; cbn [negb]; rewrite ?andb_false_r; done.
Qed.

End complete.

(** ** Properties *)

(** Any string a client can store is read back unchanged: whatever
    encoding the entry got (one of six integer formats or three string
    formats), [lpGet] on it returns exactly the stored bytes, and [lpSkip]
    moves to the end of the entry. *)
Theorem lp_entry_roundtrip (s pre post buf : bytes) :
  wf_bytes s -> zlen s < 2 ^ 32 - 5 -> LP_INTBUF_SIZE <= zlen buf ->
  let lp := pre ++ entry (elem_of s) ++ post in
  (exists v, lpGet lp (zlen pre) (Some buf) = Ok v /\ value_text lp v = Ok s) /\
  lpSkip lp (zlen pre) = Ok (zlen (pre ++ entry (elem_of s))).
Proof.
  intros Hs Hl Hb lp. pose proof (elem_of_ok s Hs Hl) as He. split; [|by apply skip_spec].
  destruct (get_text (elem_of s) pre post (Some buf) He Hb) as (v & Hv & Ht).
  exists v. by rewrite text_elem_of in Ht.
Qed.

Lemma lp_entry_roundtrip_witness :
  let s := bytes_of_string "-8388609" in
  let lp := [1; 2] ++ entry (elem_of s) ++ [255] in
  (exists v, lpGet lp 2 (Some (replicate 21 0)) = Ok v /\ value_text lp v = Ok s) /\
  lpSkip lp 2 = Ok 8.
Proof.
  apply (lp_entry_roundtrip (bytes_of_string "-8388609") [1; 2] [255] (replicate 21 0)).
  - repeat constructor; vm_compute; congruence.
  - vm_compute. reflexivity.
  - vm_compute. congruence.
Defined.

(** The back length can be read from its last byte: for every entry size
    that fits the 35 bits of the format, decoding backwards gives the size. *)
Theorem lp_backlen_roundtrip (pre post : bytes) (l : Z) :
  0 <= l < 2 ^ 35 ->
  let '(buf, n) := lpEncodeBacklen l in
  n = zlen buf /\ lpDecodeBacklen (pre ++ buf ++ post) (zlen (pre ++ buf) - 1) = Ok l.
Proof.
  intros Hl. pose proof (decode_backlen pre l post Hl) as Hd. pose proof (zlen_backlen l) as Hz.
  unfold backlen, backlen_size in *. destruct (lpEncodeBacklen l) as [buf n]. cbn [fst snd] in *.
  rewrite zlen_app, Hz. done.
Qed.

Lemma lp_backlen_roundtrip_witness :
  lpDecodeBacklen ([1; 2] ++ [128; 129; 130; 131; 132] ++ [255]) 6 = Ok UINT64_MAX /\
  lpDecodeBacklen ([1; 2] ++ fst (lpEncodeBacklen 16383) ++ [255]) 4 = Ok 16383.
Proof.
  split; [vm_compute; reflexivity|].
  apply (lp_backlen_roundtrip [1; 2] [255] 16383). vm_compute. intuition congruence.
Defined.

(** C6. Any sequence of the eight calls of [op] on a fresh listpack (append and
    prepend a string or an integer, replace and delete at an index, delete a
    range, trim the allocation) behaves as the same calls on a list: no call
    faults, the element at each index is the list's, [lpLength] is its length; a
    call that would reach 4GB changes nothing. *)
Theorem listpack_refines_list (A : Allocator) (capacity : Z) (os : list op) :
  Forall op_ok os ->
  exists lp0 lp, lpNew capacity = Ok lp0 /\ run lp0 os = Ok lp /\
    let es := foldl spec_op [] os in
    (forall i, 0 <= i -> lp_index lp i = Ok (text <$> es !! Z.to_nat i)) /\
    exists lp', lpLength lp = Ok (lp', zlen es).
Proof.
  intros Hos. destruct (new_spec capacity) as (lp0 & H0 & Hr0). exists lp0.
  destruct (run_spec os lp0 [] Hr0 Hos) as (lp & Hrun & Hr). exists lp.
  split; [done|]. split; [done|]. split; [intros; by apply index_spec|].
  destruct (length_spec lp _ Hr) as (lp' & Hl & _). by exists lp'.
Qed.

Lemma listpack_refines_list_witness :
  exists lp0 lp, @lpNew calloc8 0 = Ok lp0 /\
    @run calloc8 lp0 [Append (bytes_of_string "hello"); Append (bytes_of_string "123"); Prepend (bytes_of_string "x");
         Delete (-2)] = Ok lp /\
    (forall i, 0 <= i -> lp_index lp i =
      Ok (text <$> [EStr (bytes_of_string "x"); EInt 123] !! Z.to_nat i)) /\
    exists lp', lpLength lp = Ok (lp', 2).
Proof.
  apply (listpack_refines_list calloc8 0 [Append (bytes_of_string "hello"); Append (bytes_of_string "123");
    Prepend (bytes_of_string "x"); Delete (-2)]).
  repeat constructor; vm_compute; congruence.
Defined.

(** [lpInsert] stores one element before a position or in place of an
    element, at every position of every listpack: the result represents the
    updated list and the cursor points at the new element; when the result
    would reach 4GB it returns NULL. *)
Theorem lpInsert_updates_list (A : Allocator) (lp : bytes) (l mid r : list elem) (w : lpwhere)
    (elestr eleint : option bytes) (size : Z) (e : elem) :
  place w mid -> repr lp (l ++ mid ++ r) -> payload elestr eleint size e ->
  (total (l ++ e :: r) < 2 ^ 32 -> exists lp',
    lpInsert lp elestr eleint size (pos l) w true = Ok (Some (lp', Some (pos l))) /\
    repr lp' (l ++ e :: r)) /\
  (2 ^ 32 <= total (l ++ e :: r) -> lpInsert lp elestr eleint size (pos l) w true = Ok None).
Proof.
  intros Hw Hr Hp. pose proof (insert_spec lp l mid r w elestr eleint size e true Hw Hr Hp) as H.
  split; intros Ht.
  - by rewrite (proj2 (Z.ltb_lt _ _) Ht) in H.
  - by rewrite (proj2 (Z.ltb_ge _ _) Ht) in H.
Qed.

Lemma lpInsert_updates_list_witness :
  exists lp', @lpInsert calloc8 (lpenc 2 [EInt 7; EStr [65]] []) (Some [49; 50; 56]) None 3
      (pos [EInt 7]) LP_REPLACE true = Ok (Some (lp', Some (pos [EInt 7]))) /\
    repr lp' [EInt 7; EInt 128].
Proof.
  apply (lpInsert_updates_list calloc8 (lpenc 2 [EInt 7; EStr [65]] []) [EInt 7] [EStr [65]] [] LP_REPLACE
    (Some [49; 50; 56]) None 3 (elem_of [49; 50; 56])).
  - constructor.
  - exists 2, []. split; [reflexivity|]. split; [left; vm_compute; intuition congruence|].
    split; [|vm_compute; reflexivity]. repeat constructor; vm_compute; congruence.
  - apply (pay_str [49; 50; 56]); [repeat constructor; vm_compute; congruence|vm_compute; reflexivity].
  - vm_compute. reflexivity.
Defined.

(** [lpDeleteRange] removes the elements from [index] (counted from the
    end when negative) on, as many as there are up to [num], whether it cuts
    the listpack short or moves the tail; an index out of range changes
    nothing. *)
Theorem lpDeleteRange_removes (A : Allocator) (lp : bytes) (es : list elem) (index num : Z) :
  repr lp es -> is_i64 index -> is_u64 num ->
  exists lp', lpDeleteRange lp index num = Ok lp' /\ repr lp' (remove_range es index num).
Proof. apply delete_range_spec. Qed.

Lemma lpDeleteRange_removes_witness :
  exists lp', @lpDeleteRange calloc8 (lpenc 3 [EInt 7; EStr [65]; EInt 9] [0]) (-2) 1 = Ok lp' /\
    repr lp' [EInt 7; EInt 9].
Proof.
  apply (lpDeleteRange_removes calloc8 (lpenc 3 [EInt 7; EStr [65]; EInt 9] [0]) [EInt 7; EStr [65]; EInt 9] (-2) 1).
  - exists 3, [0]. split; [reflexivity|]. split; [left; vm_compute; intuition congruence|].
    split; [|vm_compute; reflexivity]. repeat constructor; vm_compute; congruence.
  - vm_compute. intuition congruence.
  - vm_compute. intuition congruence.
Defined.

(** [lpBatchDelete] on the pointers of any increasing selection of
    elements removes exactly those, in one pass of overlapping moves.  The
    listpack is [pre] followed by segments of one selected element and the
    elements kept after it. *)
Theorem lpBatchDelete_removes (A : Allocator) (lp : bytes) (pre : list elem)
    (segs : list (elem * list elem)) :
  repr lp (pre ++ marked segs) ->
  exists lp', lpBatchDelete lp (seg_pos (pos pre) segs) = Ok lp' /\ repr lp' (pre ++ kept segs).
Proof. apply batch_delete_spec. Qed.

Lemma lpBatchDelete_removes_witness :
  exists lp', @lpBatchDelete calloc8 (lpenc 4 [EInt 7; EStr [65]; EInt 9; EInt 300] []) [6; 11] = Ok lp' /\
    repr lp' [EStr [65]; EInt 300].
Proof.
  apply (lpBatchDelete_removes calloc8 (lpenc 4 [EInt 7; EStr [65]; EInt 9; EInt 300] []) []
    [(EInt 7, [EStr [65]]); (EInt 9, [EInt 300])]).
  exists 4, []. split; [reflexivity|]. split; [left; vm_compute; intuition congruence|].
  split; [|vm_compute; reflexivity]. repeat constructor; vm_compute; congruence.
Defined.

(** [lpMerge] of two listpacks is the concatenation of their lists,
    whichever of the two allocations it reuses; when the size does not fit
    the header the process stops on the assertion. *)
Theorem lpMerge_concatenates (A : Allocator) (first second : bytes) (es1 es2 : list elem) :
  repr first es1 -> repr second es2 ->
  (total (es1 ++ es2) < UINT32_MAX -> exists m,
    lpMerge (Some first) (Some second) false = Ok (Some (m, total es2 <=? total es1)) /\
    repr m (es1 ++ es2)) /\
  (UINT32_MAX <= total (es1 ++ es2) -> lpMerge (Some first) (Some second) false = Fault AssertFailed).
Proof.
  intros H1 H2. pose proof (merge_spec first second es1 es2 H1 H2) as H. split; intros Ht.
  - by rewrite (proj2 (Z.ltb_lt _ _) Ht) in H.
  - by rewrite (proj2 (Z.ltb_ge _ _) Ht) in H.
Qed.

Lemma lpMerge_concatenates_witness :
  exists m, @lpMerge calloc8 (Some (lpenc 1 [EInt 7] [])) (Some (lpenc 2 [EStr [65]; EInt 9] [1; 2])) false
      = Ok (Some (m, false)) /\ repr m [EInt 7; EStr [65]; EInt 9].
Proof.
  apply (lpMerge_concatenates calloc8 (lpenc 1 [EInt 7] []) (lpenc 2 [EStr [65]; EInt 9] [1; 2])
    [EInt 7] [EStr [65]; EInt 9]).
  - exists 1, []. split; [reflexivity|]. split; [left; vm_compute; intuition congruence|].
    split; [|vm_compute; reflexivity]. repeat constructor; vm_compute; congruence.
  - exists 2, [1; 2]. split; [reflexivity|]. split; [left; vm_compute; intuition congruence|].
    split; [|vm_compute; reflexivity]. repeat constructor; vm_compute; congruence.
  - vm_compute. reflexivity.
Defined.

(** [lpFind] compares every [skip+1]-th element, with its cached integer
    comparison, exactly as comparing the texts would: it returns the first
    compared element whose text is the string searched, NULL if there is none,
    and its bound checks never fail. *)
Theorem lpFind_finds_text (lp : bytes) (es : list elem) (s : bytes) (skip : Z) :
  repr lp es -> 0 <= skip < 2 ^ 31 ->
  lpFind lp None s (zlen s) skip = Ok (find_ref s (Z.to_nat skip) 0 [] es).
Proof. apply lp_find_spec. Qed.

Lemma lpFind_finds_text_witness :
  lpFind (lpenc 4 [EInt 7; EInt 8; EInt 8; EStr [65]] []) None [56] 1 1
  = Ok (find_ref [56] 1 0 [] [EInt 7; EInt 8; EInt 8; EStr [65]]) /\
  find_ref [56] 1 0 [] [EInt 7; EInt 8; EInt 8; EStr [65]] = Some 10.
Proof.
  split; [|vm_compute; reflexivity].
  apply (lpFind_finds_text (lpenc 4 [EInt 7; EInt 8; EInt 8; EStr [65]] []) [EInt 7; EInt 8; EInt 8; EStr [65]] [56] 1).
  - exists 4, []. split; [reflexivity|]. split; [left; vm_compute; intuition congruence|].
    split; [|vm_compute; reflexivity]. repeat constructor; vm_compute; congruence.
  - vm_compute. intuition congruence.
Defined.

(** ** The integrity check of any bytes *)

(** [P ps u] is kept by the callback on accepted entries. *)
Lemma validate_integrity_spec {U} (lp : bytes) (deep : bool) (cb : option (U -> Z -> Z -> res (U * bool))) (user : U)
    (P : list Z -> U -> Prop) :
  wf_bytes lp -> P [] user ->
  (forall num, lpGetNumElements lp = Ok num -> forall ps u p q, P ps u -> valid_entry lp (zlen lp) p q ->
    exists u' ok, (match cb with Some f => f u p num | None => Ok (u, true) end) = Ok (u', ok) /\ (ok = true -> P (ps ++ [p]) u')) ->
  exists user' ok, lpValidateIntegrity lp (zlen lp) deep cb user = Ok (user', ok) /\
    (ok = true -> deep = true -> exists ps num, walk lp (zlen lp) ps /\
      lpGetNumElements lp = Ok num /\ (num = zlen ps \/ num = LP_HDR_NUMELE_UNKNOWN) /\
      lpGetTotalBytes lp = Ok (zlen lp) /\ rd lp (zlen lp - 1) = Ok LP_EOF /\ chain lp (zlen lp) LP_HDR_SIZE ps /\
      zlen ps < zlen lp < 2 ^ 32 /\ P ps user').
Proof.
  intros Hwf HP Hcb. unfold lpValidateIntegrity. set (size := zlen lp).
  destruct (Z.ltb_spec size (LP_HDR_SIZE + 1)) as [|Hs]; [by eexists _, _|]. unfold LP_HDR_SIZE in Hs.
  assert (Ht : exists t, lpGetTotalBytes lp = Ok t /\ 0 <= t < 2 ^ 32).
  { unfold lpGetTotalBytes. destruct (rd_in_range lp 0) as [a Ha], (rd_in_range lp 1) as [b Hb],
      (rd_in_range lp 2) as [c Hc], (rd_in_range lp 3) as [d Hd]; try (fold size; lia).
    rewrite Ha, Hb, Hc, Hd. cbn [mbind res_bind].
    assert (Hw : wf_bytes [a; b; c; d]) by (repeat constructor; by eapply rd_byte).
    rewrite lor_le4 by done. eexists. split; [done|]. apply (le_val_range [a; b; c; d] Hw). }
  destruct Ht as (t & Ht & Htr). rewrite Ht. cbn [mbind res_bind].
  destruct (Z.eqb_spec t size) as [->|]; cbn [negb]; [|by eexists _, _].
  destruct (rd_in_range lp (size - 1) ltac:(fold size; lia)) as [e He]. rewrite He. cbn [mbind res_bind].
  destruct (Z.eqb_spec e LP_EOF) as [->|]; cbn [negb]; [|by eexists _, _].
  destruct deep; cbn [negb]; [|by eexists _, _].
  assert (Hnum : exists n, lpGetNumElements lp = Ok n).
  { unfold lpGetNumElements. destruct (rd_in_range lp 4) as [a Ha], (rd_in_range lp 5) as [b Hb];
      try (fold size; lia). rewrite Ha, Hb. by eexists. }
  destruct Hnum as (num & Hnum). rewrite Hnum. cbn [mbind res_bind].
  destruct (validate_loop lp Hwf cb size num P (Hcb num Hnum) (S (length lp)) LP_HDR_SIZE 0 user [])
    as (u' & o & -> & Ho); unfold LP_HDR_SIZE, size, zlen in *; try lia; [done|].
  cbn [mbind res_bind]. destruct o as [[p n]|]; [|by eexists _, _].
  destruct Ho as (q & -> & Hch). destruct (Z.eqb_spec q (Z.of_nat (length lp) - 1)) as [Hq|];
    cbn [negb]; [|by eexists _, _].
  destruct (Hch Hq) as (ps & Hps & -> & HP'). rewrite Z.add_0_l.
  destruct (negb (num =? LP_HDR_NUMELE_UNKNOWN) && negb (num =? Z.of_nat (length ps))) eqn:E; [by eexists _, _|].
  eexists _, _. split; [done|]. intros _ _. exists ps, num. split; [by apply chain_walks|]. split; [done|].
  split; [|split; [done|split; [done|split; [done|split; [pose proof (chain_length lp _ _ _ Hps) as Hcl; unfold zlen in *; lia|done]]]]].
  apply andb_false_iff in E as [?%negb_false_iff%Z.eqb_eq|?%negb_false_iff%Z.eqb_eq]; [by right|by left].
Qed.

(** C23. [lpValidateIntegrity] on any bytes, with any callback that returns,
    reads nothing outside the buffer and ends.  What its deep check accepts is
    safe to use: the elements form a sequence that [lpFirst], [lpLast],
    [lpNext] and [lpPrev] walk without a failed assertion, every value
    [lpGet] returns lies inside the buffer (also for the 32 bit lengths whose
    computed size wraps), and the header count is exact or unknown. *)
Theorem lpValidateIntegrity_sound (U : Type) (lp : bytes) (deep : bool)
    (cb : option (U -> Z -> Z -> res (U * bool))) (user : U) :
  wf_bytes lp ->
  match cb with Some f => forall u p n, is_ok (f u p n) | None => True end ->
  exists user' ok, lpValidateIntegrity lp (zlen lp) deep cb user = Ok (user', ok) /\
    (ok = true -> deep = true -> exists ps num, walk lp (zlen lp) ps /\
      lpGetNumElements lp = Ok num /\ (num = zlen ps \/ num = LP_HDR_NUMELE_UNKNOWN)).
Proof.
  intros Hwf Hcb. destruct (validate_integrity_spec lp deep cb user (fun _ _ => True) Hwf I) as (u & ok & He & Hok).
  { intros num _ ps u p q _ _. destruct cb as [f|]; [|by eexists _, _]. destruct (Hcb u p num) as [[u' o] ->]. by eexists _, _. }
  exists u, ok. split; [done|]. intros H1 H2. destruct (Hok H1 H2) as (ps & num & Hw & Hn & Hor & _). eauto.
Qed.

Lemma lpValidateIntegrity_sound_witness :
  exists u ok, lpValidateIntegrity [10; 0; 0; 0; 1; 0; 129; 65; 2; 255] 10 true
      (None : option (unit -> Z -> Z -> res (unit * bool))) tt = Ok (u, ok) /\
    (ok = true -> true = true -> exists ps num, walk [10; 0; 0; 0; 1; 0; 129; 65; 2; 255] 10 ps /\
      lpGetNumElements [10; 0; 0; 0; 1; 0; 129; 65; 2; 255] = Ok num /\
      (num = zlen ps \/ num = LP_HDR_NUMELE_UNKNOWN)).
Proof.
  apply (lpValidateIntegrity_sound unit [10; 0; 0; 0; 1; 0; 129; 65; 2; 255] true None tt).
  - repeat constructor; vm_compute; congruence.
  - exact I.
Defined.

(** The integrity check has no false alarm: the bytes of every listpack
    the operations build (its [lpBytes] bytes, as they are saved) pass the
    deep check. *)
Theorem lpValidateIntegrity_complete (lp : bytes) (es : list elem) (U : Type) (user : U) :
  repr lp es ->
  lpValidateIntegrity (take (Z.to_nat (total es)) lp) (total es) true
    (None : option (U -> Z -> Z -> res (U * bool))) user = Ok (user, true).
Proof.
  intros Hr. pose proof Hr as (num & slack & -> & Hn & Hok & Ht).
  destruct (validate_integrity_complete (None : option (U -> Z -> Z -> res (U * bool))) num es (fun _ u => u = user)
    ltac:(by eauto) (lpenc num es slack) user Hr) as (u & -> & ->); [by rewrite num_spec|done..].
Qed.

Lemma lpValidateIntegrity_complete_witness :
  lpValidateIntegrity (take 11 (lpenc 65535 [EInt 7; EInt 8] [1; 2])) 11 true
    (None : option (unit -> Z -> Z -> res (unit * bool))) tt = Ok (tt, true).
Proof.
  apply (lpValidateIntegrity_complete (lpenc 65535 [EInt 7; EInt 8] [1; 2]) [EInt 7; EInt 8] unit tt).
  exists 65535, [1; 2]. split; [reflexivity|]. split; [right; reflexivity|].
  split; [|vm_compute; reflexivity]. repeat constructor; vm_compute; congruence.
Defined.

End ListpackSpec.
