(* ===== verification/ListpackCount.v ===== *)
(** * Validated listpacks and the count in their header.

    [lpLength] writes the number of entries into the header of a listpack whose
    count was unknown.  The entries of a listpack that passed the deep check
    are read the same afterwards: a back length is decoded backwards from the
    end of an entry, and the only validated entries whose decoding could reach
    the count do not, because the bytes 0xFF of an unknown count make the
    decoded length larger than the entry. *)

From S2P Require Import Prelude Util ListpackEnc Listpack ListpackTheory ListpackValidate.
#[local] Open Scope Z_scope.

Module ListpackCount.
Import LP Listpack ListpackValidate.

Section recount.
(** The same bytes after the header; the count was unknown. *)
Context (h h' r : bytes) (Hh : zlen h = 6) (Hh' : zlen h' = 6).
Context (Hwf : wf_bytes (h ++ r)) (H5 : rd (h ++ r) 5 = Ok 255).

Lemma rd_same i : 6 <= i -> rd (h' ++ r) i = rd (h ++ r) i.
Proof using Hh Hh'. intros Hi. rewrite !rd_app_r by lia. by rewrite Hh, Hh'. Qed.

Lemma rdn_same i n : 6 <= i -> rdn (h' ++ r) i n = rdn (h ++ r) i n.
Proof using Hh Hh'.
  intros Hi. unfold rdn. rewrite !zlen_app, Hh, Hh'. unfold zlen in Hh, Hh'.
  rewrite !drop_app_ge by lia. by replace (length h') with (length h) by lia.
Qed.

Lemma len_same : zlen (h' ++ r) = zlen (h ++ r).
Proof using Hh Hh'. rewrite !zlen_app. lia. Qed.

#[local] Ltac same_reads := rewrite ?rd_same by lia.

Lemma size_bytes_same p : 6 <= p -> lpCurrentEncodedSizeBytes (h' ++ r) p = lpCurrentEncodedSizeBytes (h ++ r) p.
Proof using Hh Hh'. intros Hp. unfold lpCurrentEncodedSizeBytes. by same_reads. Qed.

Lemma size_same p : 6 <= p -> lpCurrentEncodedSizeUnsafe (h' ++ r) p = lpCurrentEncodedSizeUnsafe (h ++ r) p.
Proof using Hh Hh'.
  intros Hp. unfold lpCurrentEncodedSizeUnsafe, LP_ENCODING_6BIT_STR_LEN, LP_ENCODING_12BIT_STR_LEN, LP_ENCODING_32BIT_STR_LEN. by same_reads.
Qed.

Lemma get_same p buf es : 6 <= p -> lpGetWithSize (h' ++ r) p buf es = lpGetWithSize (h ++ r) p buf es.
Proof using Hh Hh'.
  intros Hp. unfold lpGetWithSize, LP_ENCODING_6BIT_STR_LEN, LP_ENCODING_12BIT_STR_LEN, LP_ENCODING_32BIT_STR_LEN. by same_reads.
Qed.

(** Decoding only adds to the bits that are there. *)
Lemma decode_grows fuel : forall k p val v, 0 <= k <= 4 -> 0 <= val < 2 ^ (7 * k) ->
  lpDecodeBacklen_loop fuel (h ++ r) p val (7 * k) = Ok v ->
  exists b, rd (h ++ r) p = Ok b /\ (b mod 128) * 2 ^ (7 * k) <= v /\ val <= v.
Proof using Hwf.
  induction fuel as [|fuel IH]; intros k p val v Hk Hval E; [done|]. cbn [lpDecodeBacklen_loop] in E.
  apply bind_ok in E as (b & Hb & E). pose proof (rd_byte _ _ _ Hwf Hb) as Hbr. unfold is_byte in Hbr. exists b. split; [done|].
  change 127 with (2 ^ 7 - 1) in E. rewrite land_ones_mod in E by lia. change (2 ^ 7) with 128 in E.
  pose proof (Z.mod_pos_bound b 128 ltac:(lia)) as Hm. pose proof (Z.pow_le_mono_r 2 (7 * k) 28 ltac:(lia) ltac:(lia)) as Hpw.
  assert (0 < 2 ^ (7 * k)) as Hpos by (apply Z.pow_pos_nonneg; lia).
  rewrite (wrapu_small 64) in E by (rewrite Z.shiftl_mul_pow2 by lia; nia).
  rewrite lor_add_shiftl in E by lia. destruct (_ =? 0); [injection E as <-; nia|].
  destruct (Z.ltb_spec 28 (7 * k + 7)); [injection E as <-; unfold UINT64_MAX; nia|].
  replace (7 * k + 7) with (7 * (k + 1)) in E by lia.
  apply IH in E as (_ & _ & _ & Hle); [nia|lia|].
  replace (7 * (k + 1)) with (7 + 7 * k) by lia. rewrite Z.pow_add_r by lia. change (2 ^ 7) with 128. nia.
Qed.

Lemma decode_loop_same fuel : forall k p val v, 0 <= k <= 4 -> 0 <= val < 2 ^ (7 * k) -> 5 <= p -> v <= p + k - 6 ->
  lpDecodeBacklen_loop fuel (h ++ r) p val (7 * k) = Ok v -> lpDecodeBacklen_loop fuel (h' ++ r) p val (7 * k) = Ok v.
Proof using Hh Hh' Hwf H5.
  induction fuel as [|fuel IH]; intros k p val v Hk Hval Hp Hv E; [done|].
  destruct (decode_grows (S fuel) k p val v Hk Hval E) as (b & Hb & Hge & _).
  assert (0 < 2 ^ (7 * k)) as Hpos by (apply Z.pow_pos_nonneg; lia).
  destruct (Z.eq_dec p 5) as [->|Hp5].
  { rewrite H5 in Hb. injection Hb as <-. change (255 mod 128) with 127 in Hge. pose proof (Z.pow_gt_lin_r 2 (7 * k) ltac:(lia) ltac:(lia)). lia. }
  cbn [lpDecodeBacklen_loop] in *. rewrite rd_same by lia. rewrite Hb in E |- *. cbn [mbind res_bind] in *.
  pose proof (rd_byte _ _ _ Hwf Hb) as Hbr. unfold is_byte in Hbr.
  change 127 with (2 ^ 7 - 1) in *. rewrite land_ones_mod in * by lia. change (2 ^ 7) with 128 in *.
  pose proof (Z.mod_pos_bound b 128 ltac:(lia)) as Hm. pose proof (Z.pow_le_mono_r 2 (7 * k) 28 ltac:(lia) ltac:(lia)) as Hpw.
  rewrite (wrapu_small 64) in * by (rewrite Z.shiftl_mul_pow2 by lia; nia).
  rewrite lor_add_shiftl in * by lia. destruct (_ =? 0); [done|]. destruct (Z.ltb_spec 28 (7 * k + 7)); [done|].
  replace (7 * k + 7) with (7 * (k + 1)) in * by lia. apply IH; [lia| |lia|lia|done].
  replace (7 * (k + 1)) with (7 + 7 * k) by lia. rewrite Z.pow_add_r by lia. change (2 ^ 7) with 128. nia.
Qed.

Lemma decode_same p v : 6 <= p -> v <= p - 6 -> lpDecodeBacklen (h ++ r) p = Ok v -> lpDecodeBacklen (h' ++ r) p = Ok v.
Proof using Hh Hh' Hwf H5. intros Hp Hv. unfold lpDecodeBacklen. apply (decode_loop_same 6 0); change (2 ^ (7 * 0)) with 1; lia. Qed.

Lemma valid_entry_same size p q : valid_entry (h ++ r) size p q -> valid_entry (h' ++ r) size p q.
Proof using Hh Hh' Hwf H5.
  intros (Hn & Hp & b & e & Hq & Hb & Hne & Hlt & He & Hun & Hdec & Hg). unfold LP_HDR_SIZE in Hp. pose proof (backlen_size_range e) as Hbl.
  assert (lpDecodeBacklen (h' ++ r) (q - 1) = Ok e) as Hdec' by (apply decode_same; [lia|lia|done]).
  split; [|split; [done|]; exists b, e; rewrite rd_same, size_same by lia; split_and!; try done].
  - rewrite <- Hn. unfold lpValidateNext. rewrite rd_same, size_bytes_same, size_same, Hun by lia. cbn [mbind res_bind]. fold (backlen_size e).
    rewrite (wrapu_small 64 (e + backlen_size e)) by lia. replace (p + (e + backlen_size e)) with q by lia. by rewrite Hdec, Hdec'.
  - lia.
  - lia.
  - intros es. rewrite get_same by lia. apply Hg.
Qed.

Lemma chain_same size ps : forall p, chain (h ++ r) size p ps -> chain (h' ++ r) size p ps.
Proof using Hh Hh' Hwf H5.
  induction ps as [|x ps IH]; intros p Hc; [done|]. destruct Hc as (-> & q & Hv & Hc). split; [done|]. exists q. split; [by apply valid_entry_same|by apply IH].
Qed.

End recount.

(** The header of any listpack. *)
Lemma split_lp_header lp : wf_bytes lp -> 6 <= zlen lp -> exists t n r, lp = ListpackTheory.hdr t n ++ r /\ 0 <= t < 2 ^ 32 /\ 0 <= n < 2 ^ 16.
Proof.
  intros Hw Hl. exists (le_val (take 4 lp)), (le_val (take 2 (drop 4 lp))), (drop 6 lp). unfold zlen in Hl.
  assert (wf_bytes (take 4 lp) /\ wf_bytes (take 2 (drop 4 lp))) as [H1 H2] by (split; apply Forall_take; [|apply Forall_drop]; done).
  assert (length (take 4 lp) = 4%nat /\ length (take 2 (drop 4 lp)) = 2%nat) as [L1 L2] by (rewrite !length_take, length_drop; lia).
  pose proof (le_val_range _ H1) as R1. pose proof (le_val_range _ H2) as R2. unfold zlen in R1, R2. rewrite L1 in R1. rewrite L2 in R2.
  split; [|split; [exact R1|exact R2]]. unfold ListpackTheory.hdr.
  pose proof (le_bytes_val (take 4 lp) H1) as E1. pose proof (le_bytes_val (take 2 (drop 4 lp)) H2) as E2. rewrite L1 in E1. rewrite L2 in E2. rewrite E1, E2.
  rewrite <- app_assoc. rewrite <- (take_drop 4 lp) at 1. f_equal. rewrite <- (take_drop 2 (drop 4 lp)) at 1. by rewrite drop_drop.
Qed.

(** Writing a count where it was unknown. *)
Lemma recount lp ps v :
  wf_bytes lp -> lpGetTotalBytes lp = Ok (zlen lp) -> 7 <= zlen lp -> lpGetNumElements lp = Ok LP_HDR_NUMELE_UNKNOWN -> 0 <= v < 2 ^ 16 ->
  chain lp (zlen lp) LP_HDR_SIZE ps ->
  exists lp', lpSetNumElements lp v = Ok lp' /\ wf_bytes lp' /\ zlen lp' = zlen lp /\ lpGetTotalBytes lp' = Ok (zlen lp) /\ lpGetNumElements lp' = Ok v /\
    chain lp' (zlen lp) LP_HDR_SIZE ps /\ (forall i, 6 <= i -> rd lp' i = rd lp i) /\ (forall i n, 6 <= i -> rdn lp' i n = rdn lp i n) /\
    (forall p buf es, 6 <= p -> lpGetWithSize lp' p buf es = lpGetWithSize lp p buf es).
Proof.
  intros Hw Ht Hl Hn Hv Hc. destruct (split_lp_header lp Hw ltac:(lia)) as (t & n & r & -> & Ht0 & Hn0).
  rewrite ListpackTheory.get_total in Ht by done. injection Ht as Ht. rewrite ListpackTheory.get_num in Hn by done. injection Hn as ->.
  exists (ListpackTheory.hdr t v ++ r). pose proof (ListpackTheory.zlen_hdr t v) as Hz. pose proof (ListpackTheory.zlen_hdr t LP_HDR_NUMELE_UNKNOWN) as Hz'.
  split; [apply ListpackTheory.set_num|]. split; [apply Forall_app in Hw as [_ Hw]; apply Forall_app; split; [|done]; apply Forall_app; split; apply wf_le_bytes|].
  split; [by rewrite !zlen_app, Hz, Hz'|]. split; [rewrite ListpackTheory.get_total by done; by rewrite Ht|]. split; [by apply ListpackTheory.get_num|].
  split; [|split; [|split]].
  - by apply (chain_same (ListpackTheory.hdr t LP_HDR_NUMELE_UNKNOWN)).
  - intros i Hi. by apply rd_same.
  - intros i k Hi. by apply rdn_same.
  - intros p buf es Hp. by apply get_same.
Qed.

End ListpackCount.
