(* ===== verification/Dict.v ===== *)
(** * Hash tables with incremental rehashing (dict.c, dict.h).

    The dictionary of src/.local/redis/redis-7.4.2/src/dict.c: two tables of
    chained buckets, the second one in use while the first is rehashed into it
    bucket by bucket, automatic growing and shrinking, and the stateless scan
    with its reversed cursor.

    A chain is the list of its entries; an entry keeps which of the three
    representations it has ([ekind]): an allocated entry, an allocated entry
    without value, or the tagged key itself.  A pointer to a bucket is its
    table and index.  The callbacks of [dictType] that the code relies on are
    fields of the record; the notification callbacks ([rehashingStarted],
    [rehashingCompleted], [onDictRelease]), the dup and destructor functions and
    the stored-key variants of hash and compare are left out: they do not
    change the table.  [dict_can_resize] is the global setting. *)

From S2P Require Import Prelude.
#[local] Open Scope Z_scope.

Module Dict.

Definition LONG_MAX : Z := INT64_MAX.
Definition DICT_HT_INITIAL_EXP : Z := 2.
Definition DICT_HT_INITIAL_SIZE : Z := Z.shiftl 1 DICT_HT_INITIAL_EXP.
Definition HASHTABLE_MIN_FILL : Z := 8.
Definition dict_force_resize_ratio : Z := 4.
Definition sizeof_ptr : Z := 8.

Inductive dictResizeEnable : Type := DICT_RESIZE_ENABLE | DICT_RESIZE_AVOID | DICT_RESIZE_FORBID.

#[export] Instance dictResizeEnable_eq_dec : EqDecision dictResizeEnable.
Proof. solve_decision. Defined.

Definition DICTHT_SIZE (exp : Z) : Z := if exp =? -1 then 0 else Z.shiftl 1 exp.
Definition DICTHT_SIZE_MASK (exp : Z) : Z := if exp =? -1 then 0 else DICTHT_SIZE exp - 1.

(** [__builtin_clzl] of a positive 64 bit number. *)
Definition clzl (x : Z) : Z := 63 - Z.log2 x.

Definition _dictNextExp (size : Z) : Z :=
  if size <=? DICT_HT_INITIAL_SIZE then DICT_HT_INITIAL_EXP else
  if LONG_MAX <=? size then 8 * 8 - 1 else
  8 * 8 - clzl (size - 1).

Inductive ekind : Type := ENTRY_PTR_NORMAL | ENTRY_PTR_NO_VALUE | ENTRY_IS_KEY.

Section dict.
Context {K V : Type}.

(** The parts of [dictType] that decide what the operations do.  [odd_key]
    is the low bit of a key pointer; the ratio [resizeAllowed] gets is given by
    its two operands. *)
Record dictType : Type := {
  hashFunction : K -> Z;
  keyCompare : K -> K -> bool;
  no_value : bool;
  keys_are_odd : bool;
  odd_key : K -> bool;
  resizeAllowed : option (Z -> Z -> Z -> bool)
}.

Record dictEntry : Type := { de_kind : ekind; de_key : K; de_val : option V }.

#[local] Abbreviation chain := (list dictEntry).

Record ht : Type := { ht_table : list chain; ht_size_exp : Z; ht_used : Z }.

Record dict : Type := {
  ht0 : ht; ht1 : ht;
  rehashidx : Z;
  pauserehash : Z;
  pauseAutoResize : Z
}.

Definition tbl (d : dict) (t : bool) : ht := if t then ht1 d else ht0 d.

Definition set_tbl (d : dict) (t : bool) (h : ht) : dict :=
  {| ht0 := if t then ht0 d else h; ht1 := if t then h else ht1 d;
     rehashidx := rehashidx d; pauserehash := pauserehash d; pauseAutoResize := pauseAutoResize d |}.

Definition set_rehashidx (d : dict) (i : Z) : dict :=
  {| ht0 := ht0 d; ht1 := ht1 d; rehashidx := i;
     pauserehash := pauserehash d; pauseAutoResize := pauseAutoResize d |}.

Definition set_pauserehash (d : dict) (n : Z) : dict :=
  {| ht0 := ht0 d; ht1 := ht1 d; rehashidx := rehashidx d;
     pauserehash := n; pauseAutoResize := pauseAutoResize d |}.

(** [d->ht_table[t][idx]], as an rvalue and as an lvalue. *)
Definition get_bucket (h : ht) (idx : Z) : res chain :=
  if 0 <=? idx then
    match ht_table h !! Z.to_nat idx with Some b => Ok b | None => Fault OutOfBounds end
  else Fault OutOfBounds.

Definition set_bucket (h : ht) (idx : Z) (b : chain) : res ht :=
  if (0 <=? idx) && (idx <? zlen (ht_table h)) then
    Ok {| ht_table := <[Z.to_nat idx := b]> (ht_table h);
          ht_size_exp := ht_size_exp h; ht_used := ht_used h |}
  else Fault OutOfBounds.

Definition set_used (h : ht) (n : Z) : ht :=
  {| ht_table := ht_table h; ht_size_exp := ht_size_exp h; ht_used := n |}.

Definition dictSize (d : dict) : Z := u64 (ht_used (ht0 d) + ht_used (ht1 d)).
Definition dictIsRehashing (d : dict) : bool := negb (rehashidx d =? -1).
Definition dictPauseRehashing (d : dict) : dict := set_pauserehash d (wrapu 15 (pauserehash d + 1)).
Definition dictResumeRehashing (d : dict) : dict := set_pauserehash d (wrapu 15 (pauserehash d - 1)).

(** [entryIsNormal]: only a normal entry has a value. *)
Definition entryHasValue (de : dictEntry) : bool :=
  match de_kind de with ENTRY_PTR_NORMAL => true | _ => false end.

(** ** Creation *)

Definition reset_ht : ht := {| ht_table := []; ht_size_exp := -1; ht_used := 0 |}.

Definition _dictReset (d : dict) (htidx : bool) : dict := set_tbl d htidx reset_ht.

Definition dictCreate : dict :=
  {| ht0 := reset_ht; ht1 := reset_ht; rehashidx := -1; pauserehash := 0; pauseAutoResize := 0 |}.

(** ** Resizing *)

Section operations.
Context (ty : dictType) (dict_can_resize : dictResizeEnable).

(** [_dictResize]: the dict, whether the result is [DICT_OK], and
    [*malloc_failed].  [try] is [None] for [malloc_failed == NULL], otherwise
    whether [ztrycalloc] succeeds. *)
Definition _dictResize (d : dict) (size : Z) (try_ : option bool) : res (dict * bool * bool) :=
  _ ← cassert (negb (dictIsRehashing d));
  let new_ht_size_exp := _dictNextExp size in
  let newsize := DICTHT_SIZE new_ht_size_exp in
  if (newsize <? size) || (u64 (newsize * sizeof_ptr) <? newsize) then Ok (d, false, false) else
  if new_ht_size_exp =? ht_size_exp (ht0 d) then Ok (d, false, false) else
  if match try_ with Some false => true | _ => false end then Ok (d, false, true) else
  let new_ht := {| ht_table := replicate (Z.to_nat newsize) [];
                   ht_size_exp := new_ht_size_exp; ht_used := 0 |} in
  let d := set_rehashidx (set_tbl d true new_ht) 0 in
  if match ht_table (ht0 d) with [] => true | _ => false end || (ht_used (ht0 d) =? 0) then
    let d := set_tbl d false new_ht in
    let d := _dictReset d true in
    Ok (set_rehashidx d (-1), true, false)
  else Ok (d, true, false).

Definition _dictExpand (d : dict) (size : Z) (try_ : option bool) : res (dict * bool * bool) :=
  if dictIsRehashing d || (size <? ht_used (ht0 d)) ||
     (size <=? DICTHT_SIZE (ht_size_exp (ht0 d)))
  then Ok (d, false, false)
  else _dictResize d size try_.

Definition dictExpand (d : dict) (size : Z) : res (dict * bool) :=
  r ← _dictExpand d size None; let '(d, ok, _) := r in Ok (d, ok).

Definition dictTryExpand (d : dict) (size : Z) (alloc_ok : bool) : res (dict * bool) :=
  r ← _dictExpand d size (Some alloc_ok);
  let '(d, _, malloc_failed) := r in Ok (d, negb malloc_failed).

Definition dictShrink (d : dict) (size : Z) : res (dict * bool) :=
  if dictIsRehashing d || (size <? ht_used (ht0 d)) ||
     (DICTHT_SIZE (ht_size_exp (ht0 d)) <=? size)
  then Ok (d, false)
  else r ← _dictResize d size None; let '(d, ok, _) := r in Ok (d, ok).

Definition dictTypeResizeAllowed (d : dict) (size : Z) : bool :=
  match resizeAllowed ty with
  | None => true
  | Some f => f (u64 (DICTHT_SIZE (_dictNextExp size) * sizeof_ptr))
                (ht_used (ht0 d)) (DICTHT_SIZE (ht_size_exp (ht0 d)))
  end.

(** [true] is [DICT_OK]. *)
Definition dictExpandIfNeeded (d : dict) : res (dict * bool) :=
  if dictIsRehashing d then Ok (d, true) else
  if DICTHT_SIZE (ht_size_exp (ht0 d)) =? 0 then
    r ← dictExpand d DICT_HT_INITIAL_SIZE; Ok (fst r, true)
  else
  let used := ht_used (ht0 d) in
  let size := DICTHT_SIZE (ht_size_exp (ht0 d)) in
  if (bool_decide (dict_can_resize = DICT_RESIZE_ENABLE) && (size <=? used)) ||
     (negb (bool_decide (dict_can_resize = DICT_RESIZE_FORBID)) &&
      (u64 (dict_force_resize_ratio * size) <=? used)) then
    if dictTypeResizeAllowed d (u64 (used + 1)) then
      r ← dictExpand d (u64 (used + 1)); Ok (fst r, true)
    else Ok (d, true)
  else Ok (d, false).

Definition _dictExpandIfNeeded (d : dict) : res dict :=
  if 0 <? pauseAutoResize d then Ok d else
  r ← dictExpandIfNeeded d; Ok (fst r).

Definition dictShrinkIfNeeded (d : dict) : res (dict * bool) :=
  if dictIsRehashing d then Ok (d, true) else
  if DICTHT_SIZE (ht_size_exp (ht0 d)) <=? DICT_HT_INITIAL_SIZE then Ok (d, true) else
  let used := ht_used (ht0 d) in
  let size := DICTHT_SIZE (ht_size_exp (ht0 d)) in
  if (bool_decide (dict_can_resize = DICT_RESIZE_ENABLE) &&
      (u64 (used * HASHTABLE_MIN_FILL) <=? size)) ||
     (negb (bool_decide (dict_can_resize = DICT_RESIZE_FORBID)) &&
      (u64 (used * HASHTABLE_MIN_FILL * dict_force_resize_ratio) <=? size)) then
    if dictTypeResizeAllowed d used then
      r ← dictShrink d used; Ok (fst r, true)
    else Ok (d, true)
  else Ok (d, false).

Definition _dictShrinkIfNeeded (d : dict) : res dict :=
  if 0 <? pauseAutoResize d then Ok d else
  r ← dictShrinkIfNeeded d; Ok (fst r).

(** ** Rehashing *)

(** The entry as it is stored in a bucket that holds [b] (rehashing). *)
Definition rehash_entry (de : dictEntry) (b : chain) : res dictEntry :=
  let key := de_key de in
  if no_value ty then
    if keys_are_odd ty && match b with [] => true | _ => false end then
      _ ← cassert (odd_key ty key);
      Ok {| de_kind := ENTRY_IS_KEY; de_key := key; de_val := None |}
    else
      match de_kind de with
      | ENTRY_IS_KEY => Ok {| de_kind := ENTRY_PTR_NO_VALUE; de_key := key; de_val := None |}
      | ENTRY_PTR_NO_VALUE => Ok de
      | ENTRY_PTR_NORMAL => Fault AssertFailed
      end
  else Ok de.

Fixpoint rehashEntries_loop (d : dict) (idx : Z) (de : chain) : res dict :=
  match de with
  | [] => Ok d
  | de :: nextde =>
    let key := de_key de in
    let h := if ht_size_exp (ht0 d) <? ht_size_exp (ht1 d)
             then Z.land (hashFunction ty key) (DICTHT_SIZE_MASK (ht_size_exp (ht1 d)))
             else Z.land idx (DICTHT_SIZE_MASK (ht_size_exp (ht1 d))) in
    b ← get_bucket (ht1 d) h;
    de ← rehash_entry de b;
    t1 ← set_bucket (ht1 d) h (de :: b);
    let d := set_tbl d true (set_used t1 (u64 (ht_used t1 + 1))) in
    let d := set_tbl d false (set_used (ht0 d) (u64 (ht_used (ht0 d) - 1))) in
    rehashEntries_loop d idx nextde
  end.

Definition rehashEntriesInBucketAtIndex (d : dict) (idx : Z) : res dict :=
  de ← get_bucket (ht0 d) idx;
  d ← rehashEntries_loop d idx de;
  t0 ← set_bucket (ht0 d) idx [];
  Ok (set_tbl d false t0).

Definition dictCheckRehashingCompleted (d : dict) : dict * bool :=
  if negb (ht_used (ht0 d) =? 0) then (d, false) else
  let d := set_tbl d false (ht1 d) in
  let d := _dictReset d true in
  (set_rehashidx d (-1), true).

(** The test that keeps rehashing from running: it is forbidden, there is
    none, or it should be avoided and the sizes are not far apart. *)
Definition rehash_blocked (d : dict) : bool :=
  let s0 := DICTHT_SIZE (ht_size_exp (ht0 d)) in
  let s1 := DICTHT_SIZE (ht_size_exp (ht1 d)) in
  (bool_decide (dict_can_resize = DICT_RESIZE_FORBID) || negb (dictIsRehashing d)) ||
  (bool_decide (dict_can_resize = DICT_RESIZE_AVOID) &&
   (((s0 <? s1) && (s1 <? u64 (dict_force_resize_ratio * s0))) ||
    ((s1 <? s0) && (s0 <? u64 (HASHTABLE_MIN_FILL * dict_force_resize_ratio * s1))))).

(** The inner loop over empty buckets: [None] when the visits are used up. *)
Fixpoint skip_empty (fuel : nat) (d : dict) (empty_visits : Z) : res (dict * option Z) :=
  match fuel with
  | O => Fault OutOfFuel
  | S fuel =>
    b ← get_bucket (ht0 d) (rehashidx d);
    match b with
    | [] =>
      let d := set_rehashidx d (rehashidx d + 1) in
      let empty_visits := empty_visits - 1 in
      if empty_visits =? 0 then Ok (d, None) else skip_empty fuel d empty_visits
    | _ => Ok (d, Some empty_visits)
    end
  end.

Fixpoint dictRehash_loop (n : nat) (d : dict) (empty_visits : Z) : res (dict * bool) :=
  match n with
  | O => let '(d, completed) := dictCheckRehashingCompleted d in Ok (d, negb completed)
  | S n =>
    if ht_used (ht0 d) =? 0
    then let '(d, completed) := dictCheckRehashingCompleted d in Ok (d, negb completed)
    else
      _ ← cassert (u64 (rehashidx d) <? DICTHT_SIZE (ht_size_exp (ht0 d)));
      r ← skip_empty (S (length (ht_table (ht0 d)))) d empty_visits;
      match r with
      | (d, None) => Ok (d, true)
      | (d, Some empty_visits) =>
        d ← rehashEntriesInBucketAtIndex d (rehashidx d);
        dictRehash_loop n (set_rehashidx d (rehashidx d + 1)) empty_visits
      end
  end.

(** [dictRehash(d, n)] for [n >= 0]; returns 1 when keys remain. *)
Definition dictRehash (d : dict) (n : nat) : res (dict * bool) :=
  if rehash_blocked d then Ok (d, false)
  else dictRehash_loop n d (i32 (Z.of_nat n * 10)).

(** [dictRehashMicroseconds]: [elapsed i] is what [elapsedUs] reports in the
    [i]th iteration. *)
Fixpoint rehashMicroseconds_loop (fuel : nat) (elapsed : nat -> Z) (us : Z) (i : nat)
    (d : dict) (rehashes : Z) : res (dict * Z) :=
  match fuel with
  | O => Fault OutOfFuel
  | S fuel =>
    r ← dictRehash d 100;
    let '(d, more) := r in
    if (more : bool) then
      let rehashes := i32 (rehashes + 100) in
      if us <=? elapsed i then Ok (d, rehashes)
      else rehashMicroseconds_loop fuel elapsed us (S i) d rehashes
    else Ok (d, rehashes)
  end.

Definition dictRehashMicroseconds (elapsed : nat -> Z) (d : dict) (us : Z) : res (dict * Z) :=
  if 0 <? pauserehash d then Ok (d, 0)
  else rehashMicroseconds_loop (S (S (length (ht_table (ht0 d))))) elapsed us O d 0.

Definition _dictRehashStep (d : dict) : res dict :=
  if pauserehash d =? 0 then r ← dictRehash d 1; Ok (fst r) else Ok d.

Definition _dictBucketRehash (d : dict) (idx : Z) : res (dict * bool) :=
  if negb (pauserehash d =? 0) then Ok (d, false) else
  if rehash_blocked d then Ok (d, false) else
  d ← rehashEntriesInBucketAtIndex d idx;
  Ok (fst (dictCheckRehashingCompleted d), true).

(** The rehashing a lookup of [idx] does on the way. *)
Definition lookup_rehash (d : dict) (idx : Z) : res dict :=
  if dictIsRehashing d then
    b ← (if rehashidx d <=? i64 idx then b ← get_bucket (ht0 d) idx; Ok (Some b) else Ok None);
    match b with
    | Some (_ :: _) => r ← _dictBucketRehash d idx; Ok (fst r)
    | _ => _dictRehashStep d
    end
  else Ok d.

(** ** Lookup *)

(** The entry of a chain with the given key. *)
Fixpoint chain_find (key : K) (he : chain) : option dictEntry :=
  match he with
  | [] => None
  | de :: he => if keyCompare ty key (de_key de) then Some de else chain_find key he
  end.

(** [for (table = 0; table <= 1; table++)] over the buckets of [key], as
    [dictFind], [dictGenericDelete] and [dictFindPositionForInsert] run it:
    the table, index and entry found, or the last index computed. *)
Definition search_tables (d : dict) (h idx : Z) (key : K) : res (option (bool * Z * dictEntry) * Z) :=
  let in_table (t : bool) :=
    let idx := Z.land h (DICTHT_SIZE_MASK (ht_size_exp (tbl d t))) in
    he ← get_bucket (tbl d t) idx;
    Ok (idx, chain_find key he) in
  let second (idx : Z) :=
    r ← in_table true;
    match snd r with
    | Some de => Ok (Some (true, fst r, de), fst r)
    | None => Ok (None, fst r)
    end in
  if i64 idx <? rehashidx d then second idx else
  r ← in_table false;
  match snd r with
  | Some de => Ok (Some (false, fst r, de), fst r)
  | None => if negb (dictIsRehashing d) then Ok (None, fst r) else second (fst r)
  end.

Definition dictFind (d : dict) (key : K) : res (dict * option dictEntry) :=
  if dictSize d =? 0 then Ok (d, None) else
  let h := hashFunction ty key in
  let idx := Z.land h (DICTHT_SIZE_MASK (ht_size_exp (ht0 d))) in
  d ← lookup_rehash d idx;
  r ← search_tables d h idx key;
  match fst r with
  | Some (_, _, de) => Ok (d, Some de)
  | None => Ok (d, None)
  end.

(** [assert(entryHasValue(de))]: an entry without a value has no [v.val]. *)
Definition dictGetVal (de : dictEntry) : res (option V) :=
  _ ← cassert (entryHasValue de);
  Ok (de_val de).

Definition dictFetchValue (d : dict) (key : K) : res (dict * option V) :=
  r ← dictFind d key;
  match snd r with
  | Some he => v ← dictGetVal he; Ok (fst r, v)
  | None => Ok (fst r, None)
  end.

(** ** Insertion *)

(** The bucket for a new key, or the existing entry and where it is. *)
Definition dictFindPositionForInsert (d : dict) (key : K)
  : res (dict * (bool * Z + bool * Z * dictEntry)) :=
  let hash := hashFunction ty key in
  let idx := Z.land hash (DICTHT_SIZE_MASK (ht_size_exp (ht0 d))) in
  d ← lookup_rehash d idx;
  d ← _dictExpandIfNeeded d;
  r ← search_tables d hash idx key;
  match r with
  | (Some existing, _) => Ok (d, inr existing)
  | (None, idx) => Ok (d, inl (dictIsRehashing d, idx))
  end.

Definition dictInsertAtPosition (d : dict) (key : K) (position : bool * Z) : res dict :=
  let '(t, idx) := position in
  let htidx := dictIsRehashing d in
  _ ← cassert (eqb t htidx && (0 <=? idx) && (idx <=? DICTHT_SIZE_MASK (ht_size_exp (tbl d htidx))));
  b ← get_bucket (tbl d htidx) idx;
  entry ← (if no_value ty then
             if keys_are_odd ty && match b with [] => true | _ => false end then
               _ ← cassert (odd_key ty key);
               Ok {| de_kind := ENTRY_IS_KEY; de_key := key; de_val := None |}
             else Ok {| de_kind := ENTRY_PTR_NO_VALUE; de_key := key; de_val := None |}
           else Ok {| de_kind := ENTRY_PTR_NORMAL; de_key := key; de_val := None |});
  t' ← set_bucket (tbl d htidx) idx (entry :: b);
  Ok (set_tbl d htidx (set_used t' (u64 (ht_used t' + 1)))).

(** [dictSetVal] through a pointer to the entry of [key] in a bucket. *)
Definition chain_set (key : K) (val : V) (he : chain) : res chain :=
  foldr (fun de r =>
    rest ← r;
    if keyCompare ty key (de_key de) then
      _ ← cassert (entryHasValue de);
      Ok ({| de_kind := de_kind de; de_key := de_key de; de_val := Some val |} :: rest)
    else Ok (de :: rest)) (Ok []) he.

Definition dictSetVal (d : dict) (position : bool * Z) (key : K) (val : V) : res dict :=
  let '(t, idx) := position in
  b ← get_bucket (tbl d t) idx;
  b ← chain_set key val b;
  t' ← set_bucket (tbl d t) idx b;
  Ok (set_tbl d t t').

(** [dictAddRaw]: the position of the new entry, or the existing one. *)
Definition dictAddRaw (d : dict) (key : K) : res (dict * (bool * Z + bool * Z * dictEntry)) :=
  r ← dictFindPositionForInsert d key;
  match r with
  | (d, inr existing) => Ok (d, inr existing)
  | (d, inl position) => d ← dictInsertAtPosition d key position; Ok (d, inl position)
  end.

(** [true] is [DICT_OK]. *)
Definition dictAdd (d : dict) (key : K) (val : V) : res (dict * bool) :=
  r ← dictAddRaw d key;
  match r with
  | (d, inr _) => Ok (d, false)
  | (d, inl position) =>
    if negb (no_value ty) then d ← dictSetVal d position key val; Ok (d, true)
    else Ok (d, true)
  end.

(** Returns 1 when the key was added. *)
Definition dictReplace (d : dict) (key : K) (val : V) : res (dict * bool) :=
  r ← dictAddRaw d key;
  match r with
  | (d, inl position) => d ← dictSetVal d position key val; Ok (d, true)
  | (d, inr (t, idx, de)) => d ← dictSetVal d (t, idx) (de_key de) val; Ok (d, false)
  end.

(** ** Deletion *)

Fixpoint chain_remove (key : K) (he : chain) : chain :=
  match he with
  | [] => []
  | de :: he => if keyCompare ty key (de_key de) then he else de :: chain_remove key he
  end.

Definition dictGenericDelete (d : dict) (key : K) : res (dict * option dictEntry) :=
  if dictSize d =? 0 then Ok (d, None) else
  let h := hashFunction ty key in
  let idx := Z.land h (DICTHT_SIZE_MASK (ht_size_exp (ht0 d))) in
  d ← lookup_rehash d idx;
  r ← search_tables d h idx key;
  match fst r with
  | Some (t, idx, he) =>
    b ← get_bucket (tbl d t) idx;
    t' ← set_bucket (tbl d t) idx (chain_remove key b);
    let d := set_tbl d t (set_used t' (u64 (ht_used t' - 1))) in
    d ← _dictShrinkIfNeeded d;
    Ok (d, Some he)
  | None => Ok (d, None)
  end.

Definition dictDelete (d : dict) (key : K) : res (dict * bool) :=
  r ← dictGenericDelete d key;
  Ok (fst r, match snd r with Some _ => true | None => false end).

Definition dictUnlink (d : dict) (key : K) : res (dict * option dictEntry) :=
  dictGenericDelete d key.

(** [dictTwoPhaseUnlinkFind]: the entry and the pointer to it, with rehashing
    paused until [dictTwoPhaseUnlinkFree]. *)
Definition dictTwoPhaseUnlinkFind (d : dict) (key : K) : res (dict * option (bool * Z * dictEntry)) :=
  if dictSize d =? 0 then Ok (d, None) else
  d ← (if dictIsRehashing d then _dictRehashStep d else Ok d);
  let h := hashFunction ty key in
  let idx := Z.land h (DICTHT_SIZE_MASK (ht_size_exp (ht0 d))) in
  r ← search_tables d h idx key;
  match fst r with
  | Some found => Ok (dictPauseRehashing d, Some found)
  | None => Ok (d, None)
  end.

Definition dictTwoPhaseUnlinkFree (d : dict) (he : option (bool * Z * dictEntry)) : res dict :=
  match he with
  | None => Ok d
  | Some (t, idx, de) =>
    let d := set_tbl d t (set_used (tbl d t) (u64 (ht_used (tbl d t) - 1))) in
    b ← get_bucket (tbl d t) idx;
    t' ← set_bucket (tbl d t) idx (chain_remove (de_key de) b);
    let d := set_tbl d t t' in
    d ← _dictShrinkIfNeeded d;
    Ok (dictResumeRehashing d)
  end.

(** [_dictClear] frees every entry and the table. *)
Definition _dictClear (d : dict) (htidx : bool) : dict := _dictReset d htidx.

Definition dictEmpty (d : dict) : dict :=
  let d := _dictClear d false in
  let d := _dictClear d true in
  {| ht0 := ht0 d; ht1 := ht1 d; rehashidx := -1; pauserehash := 0; pauseAutoResize := 0 |}.

End operations.

(** ** Scanning *)

(** One round of [rev]: [s] has been halved already. *)
Definition rev_step (s mask v : Z) : Z * Z :=
  let mask := Z.lxor mask (u64 (Z.shiftl mask s)) in
  (mask, Z.lor (Z.land (Z.shiftr v s) mask) (Z.land (u64 (Z.shiftl v s)) (u64 (Z.lnot mask)))).

Fixpoint rev_loop (fuel : nat) (s mask v : Z) : Z :=
  match fuel with
  | O => v
  | S fuel =>
    let s := Z.shiftr s 1 in
    if 0 <? s then let '(mask, v) := rev_step s mask v in rev_loop fuel s mask v else v
  end.

Definition rev (v : Z) : Z := rev_loop 8 64 (u64 (Z.lnot 0)) v.

(** [v |= ~m; v = rev(v); v++; v = rev(v);] *)
Definition next_cursor (v m : Z) : Z :=
  let v := Z.lor v (u64 (Z.lnot m)) in
  let v := rev v in
  let v := u64 (v + 1) in
  rev v.

(** The loop over the expansions in the larger table; the entries handed to
    the callback so far are in [out]. *)
Fixpoint scan_expansions (fuel : nat) (h1 : ht) (m0 m1 v : Z) (out : chain) : res (Z * chain) :=
  match fuel with
  | O => Fault OutOfFuel
  | S fuel =>
    de ← get_bucket h1 (Z.land v m1);
    let out := out ++ de in
    let v := next_cursor v m1 in
    if negb (Z.land v (Z.lxor m0 m1) =? 0) then scan_expansions fuel h1 m0 m1 v out
    else Ok (v, out)
  end.

(** [dictScan] with a callback that leaves the dict alone: the new cursor and
    the entries the callback got, in order. *)
Definition dictScan (d : dict) (v : Z) : res (Z * chain) :=
  if dictSize d =? 0 then Ok (0, []) else
  if negb (dictIsRehashing d) then
    let m0 := DICTHT_SIZE_MASK (ht_size_exp (ht0 d)) in
    de ← get_bucket (ht0 d) (Z.land v m0);
    Ok (next_cursor v m0, de)
  else
    let '(t0, t1) :=
      if DICTHT_SIZE (ht_size_exp (ht1 d)) <? DICTHT_SIZE (ht_size_exp (ht0 d))
      then (ht1 d, ht0 d) else (ht0 d, ht1 d) in
    let m0 := DICTHT_SIZE_MASK (ht_size_exp t0) in
    let m1 := DICTHT_SIZE_MASK (ht_size_exp t1) in
    de ← get_bucket t0 (Z.land v m0);
    scan_expansions (S (length (ht_table t1))) t1 m0 m1 v de.

End dict.

End Dict.
