(* ===== verification/DictTheory.v ===== *)
(** * Hash tables: the invariant and what each operation does to the contents.

    [dict_ok] is the invariant of a dict: the tables have the sizes and counts
    their fields say, every entry sits in the bucket of its hash, keys are
    distinct over both tables, and while rehashing the buckets below
    [rehashidx] are empty.  [contents d] lists the keys and values; every
    operation is described by a permutation of it. *)

From stdpp Require Import gmap.
From S2P Require Import Prelude Dict.
#[local] Open Scope Z_scope.

Module DictTheory.
Import Dict.

(** ** Sizes and masks *)

Lemma dictht_size exp : 0 <= exp -> DICTHT_SIZE exp = 2 ^ exp.
Proof.
  intros. unfold DICTHT_SIZE. rewrite (proj2 (Z.eqb_neq exp (-1))) by lia.
  rewrite Z.shiftl_mul_pow2 by lia. lia.
Qed.

Lemma dictht_mask exp : 0 <= exp -> DICTHT_SIZE_MASK exp = 2 ^ exp - 1.
Proof.
  intros. unfold DICTHT_SIZE_MASK. rewrite (proj2 (Z.eqb_neq exp (-1))) by lia.
  by rewrite dictht_size.
Qed.

(** The bucket of a hash in a table of size [2^exp]. *)
Definition slot (exp h : Z) : Z := Z.land h (DICTHT_SIZE_MASK exp).

Lemma slot_mod exp h : 0 <= exp -> slot exp h = h mod 2 ^ exp.
Proof. intros. unfold slot. rewrite dictht_mask by done. by apply land_ones_mod. Qed.

Lemma slot_range exp h : 0 <= exp -> 0 <= slot exp h < 2 ^ exp.
Proof. intros. rewrite slot_mod by done. apply Z.mod_pos_bound, Z.pow_pos_nonneg; lia. Qed.

(** Masking the index of a larger table gives the index in a smaller one. *)
Lemma slot_slot e1 e0 h : 0 <= e1 <= e0 -> slot e1 (slot e0 h) = slot e1 h.
Proof.
  intros He. rewrite !slot_mod by lia. replace e0 with (e1 + (e0 - e1)) by lia.
  rewrite Z.pow_add_r by lia. rewrite Z.rem_mul_r by lia.
  rewrite Z.mul_comm, Z.mod_add by lia. apply Z.mod_mod. lia.
Qed.

(** [_dictNextExp] is the smallest sufficient power of two, at least 4. *)
Lemma next_exp_spec size :
  0 <= size < LONG_MAX ->
  let e := _dictNextExp size in
  2 <= e <= 63 /\ size <= 2 ^ e /\ (e = 2 \/ 2 ^ (e - 1) < size).
Proof.
  unfold _dictNextExp, DICT_HT_INITIAL_SIZE, DICT_HT_INITIAL_EXP, LONG_MAX, INT64_MAX, clzl.
  change (Z.shiftl 1 2) with 4. intros Hs. destruct (Z.leb_spec size 4); [cbn; lia|].
  rewrite (proj2 (Z.leb_gt _ _)) by lia. cbv zeta.
  destruct (Z.log2_spec (size - 1) ltac:(lia)) as [Hl Hu].
  pose proof (Z.log2_le_mono 4 (size - 1) ltac:(lia)) as H2. change (Z.log2 4) with 2 in H2.
  assert (Z.log2 (size - 1) < 63) by (apply Z.log2_lt_pow2; lia).
  replace (8 * 8 - (63 - Z.log2 (size - 1))) with (Z.succ (Z.log2 (size - 1))) by lia.
  replace (Z.succ (Z.log2 (size - 1)) - 1) with (Z.log2 (size - 1)) by lia. lia.
Qed.

Section theory.
Context {K V : Type}.
#[local] Abbreviation dict := (@dict K V).
#[local] Abbreviation ht := (@ht K V).
#[local] Abbreviation dictEntry := (@dictEntry K V).
#[local] Abbreviation chain := (list dictEntry).

(** What the dictionary relies on from its type: comparison is equality of
    keys, hashes are 64 bit numbers, and pointers are odd where the type says
    so. *)
Class DictTypeOk (ty : @dictType K) : Prop := {
  keyCompare_eq a b : keyCompare ty a b = true <-> a = b;
  hash_range k : 0 <= hashFunction ty k < 2 ^ 64;
  odd_keys k : keys_are_odd ty = true -> odd_key ty k = true
}.

Context (ty : @dictType K) {Hty : DictTypeOk ty}.

(** ** Invariant *)

Definition kv (de : dictEntry) : K * option V := (de_key de, de_val de).

Definition entry_ok (de : dictEntry) : Prop :=
  if no_value ty then de_kind de <> ENTRY_PTR_NORMAL /\ de_val de = None
  else de_kind de = ENTRY_PTR_NORMAL.

Definition bucket_ok (exp : Z) (i : nat) (b : chain) : Prop :=
  Forall (fun de => slot exp (hashFunction ty (de_key de)) = Z.of_nat i /\ entry_ok de) b.

(** A table in use. *)
Definition table_ok (h : ht) : Prop :=
  0 <= ht_size_exp h <= 60 /\ zlen (ht_table h) = 2 ^ ht_size_exp h /\
  ht_used h = zlen (concat (ht_table h)) /\
  forall i b, ht_table h !! i = Some b -> bucket_ok (ht_size_exp h) i b.

Definition ht_kvs (h : ht) : list (K * option V) := kv <$> concat (ht_table h).

Definition contents (d : dict) : list (K * option V) := ht_kvs (ht0 d) ++ ht_kvs (ht1 d).

(** How many entries a dict may hold: far more than fits in memory. *)
Definition max_entries : Z := 2 ^ 58.

(** Two tables in use, the first one empty below [rehashidx]. *)
Definition rehashing (d : dict) : Prop :=
  table_ok (ht0 d) /\ table_ok (ht1 d) /\ ht_size_exp (ht0 d) <> ht_size_exp (ht1 d) /\
  0 <= rehashidx d <= zlen (ht_table (ht0 d)) /\
  forall i, (i < Z.to_nat (rehashidx d))%nat -> ht_table (ht0 d) !! i = Some [].

(** One table, or none yet. *)
Definition stable (d : dict) : Prop :=
  rehashidx d = -1 /\ ht1 d = reset_ht /\ (ht0 d = reset_ht \/ table_ok (ht0 d)).

Definition dict_ok (d : dict) : Prop :=
  NoDup (contents d).*1 /\ zlen (contents d) <= max_entries /\ (stable d \/ rehashing d).

(** ** Buckets *)

Lemma concat_bucket {A} (t : list (list A)) i b :
  t !! i = Some b -> exists rest, concat t ≡ₚ b ++ rest /\
  forall b', concat (<[i := b']> t) ≡ₚ b' ++ rest.
Proof.
  intros Hi. pose proof (lookup_lt_Some _ _ _ Hi) as Hlt.
  exists (concat (take i t) ++ concat (drop (S i) t)). split.
  - rewrite <- (take_drop_middle t i b Hi) at 1. rewrite concat_app. cbn [concat].
    rewrite !app_assoc. f_equiv. apply Permutation_app_comm.
  - intros b'. rewrite insert_take_drop by done. rewrite concat_app. cbn [concat].
    rewrite !app_assoc. f_equiv. apply Permutation_app_comm.
Qed.

Lemma get_bucket_spec (h : ht) idx :
  table_ok h -> 0 <= idx < 2 ^ ht_size_exp h ->
  exists b, get_bucket h idx = Ok b /\ ht_table h !! Z.to_nat idx = Some b.
Proof.
  intros (_ & Hlen & _ & _) Hi. unfold get_bucket. rewrite (proj2 (Z.leb_le 0 idx)) by lia.
  destruct (lookup_lt_is_Some_2 (ht_table h) (Z.to_nat idx)) as [b Hb]; [unfold zlen in Hlen; lia|].
  exists b. by rewrite Hb.
Qed.

Lemma set_bucket_spec (h : ht) idx b :
  table_ok h -> 0 <= idx < 2 ^ ht_size_exp h ->
  set_bucket h idx b = Ok {| ht_table := <[Z.to_nat idx := b]> (ht_table h);
    ht_size_exp := ht_size_exp h; ht_used := ht_used h |}.
Proof.
  intros (_ & Hlen & _ & _) Hi. unfold set_bucket.
  rewrite (proj2 (Z.leb_le 0 idx)), (proj2 (Z.ltb_lt idx _)) by lia. done.
Qed.

(** Replacing a bucket of a table and correcting the count. *)
Lemma table_ok_set (h : ht) idx b b' :
  table_ok h -> 0 <= idx < 2 ^ ht_size_exp h -> ht_table h !! Z.to_nat idx = Some b ->
  bucket_ok (ht_size_exp h) (Z.to_nat idx) b' ->
  let h' := {| ht_table := <[Z.to_nat idx := b']> (ht_table h); ht_size_exp := ht_size_exp h;
               ht_used := ht_used h + zlen b' - zlen b |} in
  table_ok h' /\ exists rest, ht_kvs h ≡ₚ (kv <$> b) ++ rest /\ ht_kvs h' ≡ₚ (kv <$> b') ++ rest.
Proof.
  intros (He & Hlen & Hu & Hb) Hi Hl Hb' h'.
  destruct (concat_bucket _ _ _ Hl) as (rest & Hp & Hp'). split.
  - split_and!; cbn; [lia|lia| | |].
    + unfold zlen in *. by rewrite length_insert.
    + unfold zlen in *. rewrite (Hp' b'), Hu, Hp, !length_app. lia.
    + intros j c Hc. apply list_lookup_insert_Some in Hc as [(<- & <- & _)|[_ Hc]]; [done|by apply Hb].
  - exists (kv <$> rest). unfold ht_kvs. rewrite Hp. cbn. rewrite (Hp' b'), !fmap_app. done.
Qed.

(** ** Rehashing *)

Lemma rehash_entry_spec de b :
  entry_ok de -> exists de', rehash_entry ty de b = Ok de' /\ kv de' = kv de /\ entry_ok de'.
Proof.
  intros He. unfold rehash_entry, entry_ok in *. destruct (no_value ty) eqn:Hn; [|by exists de].
  destruct He as [Hk Hv].
  destruct (keys_are_odd ty && match b with [] => true | _ => false end) eqn:Ho.
  - apply andb_true_iff in Ho as [Ho _]. rewrite odd_keys by done. cbn [cassert mbind res_bind].
    eexists. split; [done|]. unfold kv. cbn. rewrite Hv. done.
  - destruct (de_kind de) eqn:Ek; [done| |].
    + exists de. rewrite Ek. done.
    + eexists. split; [done|]. unfold kv. cbn. rewrite Hv. done.
Qed.

Lemma bucket_ok_cons exp i de b :
  slot exp (hashFunction ty (de_key de)) = Z.of_nat i -> entry_ok de -> bucket_ok exp i b ->
  bucket_ok exp i (de :: b).
Proof. intros. by constructor. Qed.

(** The index [rehashEntriesInBucketAtIndex] computes is the right bucket. *)
Lemma rehash_slot (e0 e1 idx h : Z) :
  0 <= e0 -> 0 <= e1 -> slot e0 h = idx ->
  (if e0 <? e1 then Z.land h (DICTHT_SIZE_MASK e1) else Z.land idx (DICTHT_SIZE_MASK e1)) = slot e1 h.
Proof.
  intros H0 H1 <-. destruct (Z.ltb_spec e0 e1); [done|]. by apply slot_slot.
Qed.

Lemma rehash_loop ch : forall (d : dict) idx,
  0 <= ht_size_exp (ht0 d) -> table_ok (ht1 d) ->
  Forall (fun de => slot (ht_size_exp (ht0 d)) (hashFunction ty (de_key de)) = idx /\ entry_ok de) ch ->
  zlen ch <= ht_used (ht0 d) < 2 ^ 64 -> ht_used (ht1 d) + zlen ch < 2 ^ 64 ->
  exists t1, rehashEntries_loop ty d idx ch = Ok
    {| ht0 := set_used (ht0 d) (ht_used (ht0 d) - zlen ch); ht1 := t1; rehashidx := rehashidx d;
       pauserehash := pauserehash d; pauseAutoResize := pauseAutoResize d |} /\
  table_ok t1 /\ ht_size_exp t1 = ht_size_exp (ht1 d) /\
  ht_kvs t1 ≡ₚ (kv <$> ch) ++ ht_kvs (ht1 d).
Proof.
  induction ch as [|de ch IH]; intros d idx He0 H1 Hch Hu0 Hu1.
  { exists (ht1 d). change (zlen (@nil dictEntry)) with 0. rewrite Z.sub_0_r.
    split; [|done]. cbn. by destruct d as [[] ? ? ? ?]. }
  apply Forall_cons_1 in Hch as [[Hs He] Hch]. rewrite zlen_cons in *. pose proof (zlen_nonneg ch).
  pose proof H1 as (Hexp & _ & Hused & Hbuckets). pose proof (zlen_nonneg (concat (ht_table (ht1 d)))).
  cbn [rehashEntries_loop].
  rewrite (rehash_slot _ (ht_size_exp (ht1 d)) idx (hashFunction ty (de_key de)) He0 (proj1 Hexp) Hs).
  set (h := slot (ht_size_exp (ht1 d)) (hashFunction ty (de_key de))).
  pose proof (slot_range (ht_size_exp (ht1 d)) (hashFunction ty (de_key de)) ltac:(lia)) as Hh. fold h in Hh.
  destruct (get_bucket_spec (ht1 d) h H1 Hh) as (b & -> & Hb). cbn [mbind res_bind].
  destruct (rehash_entry_spec de b He) as (de' & -> & Hkv & He'). cbn [mbind res_bind].
  assert (Hkey : de_key de' = de_key de) by (unfold kv in Hkv; congruence).
  rewrite set_bucket_spec by done. cbn [mbind res_bind ht_used].
  assert (Hbok : bucket_ok (ht_size_exp (ht1 d)) (Z.to_nat h) (de' :: b)).
  { apply bucket_ok_cons; [|done|by apply Hbuckets]. rewrite Hkey. fold h. lia. }
  destruct (table_ok_set (ht1 d) h b (de' :: b) H1 Hh Hb Hbok) as (Hok & rest & Hr & Hr').
  rewrite zlen_cons in Hok, Hr'. replace (ht_used (ht1 d) + (1 + zlen b) - zlen b) with (ht_used (ht1 d) + 1)
    in Hok, Hr' by lia.
  rewrite !(wrapu_small 64) by (cbn; lia).
  set (d' := set_tbl (set_tbl d true _) false _).
  destruct (IH d' idx) as (t1 & Hl & Hok1 & Hexp1 & Hp1); try done; cbn in *; try lia.
  exists t1. split; [|split; [done|split; [done|]]].
  - rewrite Hl. unfold set_used. cbn [ht_used ht_table ht_size_exp].
    by replace (ht_used (ht0 d) - 1 - zlen ch) with (ht_used (ht0 d) - (1 + zlen ch)) by lia.
  - rewrite Hp1. unfold set_used. cbn. rewrite Hr', Hr, Hkv. symmetry. apply Permutation_middle.
Qed.

(** What rehashing leaves alone. *)
Definition same_flags (d d' : dict) : Prop :=
  pauserehash d' = pauserehash d /\ pauseAutoResize d' = pauseAutoResize d.

Lemma zlen_perm {A} (l k : list A) : l ≡ₚ k -> zlen l = zlen k.
Proof. unfold zlen. by intros ->. Qed.

Lemma used_kvs (h : ht) : table_ok h -> ht_used h = zlen (ht_kvs h).
Proof. intros (_ & _ & -> & _). unfold ht_kvs. by rewrite zlen_fmap. Qed.

Lemma used_bounds (d : dict) :
  table_ok (ht0 d) -> table_ok (ht1 d) -> zlen (contents d) <= max_entries ->
  0 <= ht_used (ht0 d) /\ 0 <= ht_used (ht1 d) /\ ht_used (ht0 d) + ht_used (ht1 d) <= 2 ^ 58.
Proof.
  intros H0 H1 Hc. rewrite (used_kvs _ H0), (used_kvs _ H1). unfold contents, max_entries in Hc.
  rewrite zlen_app in Hc. pose proof (zlen_nonneg (ht_kvs (ht0 d))). pose proof (zlen_nonneg (ht_kvs (ht1 d))).
  lia.
Qed.

Lemma rehash_bucket (d : dict) idx :
  rehashing d -> zlen (contents d) <= max_entries -> 0 <= idx < 2 ^ ht_size_exp (ht0 d) ->
  exists d', rehashEntriesInBucketAtIndex ty d idx = Ok d' /\ rehashing d' /\
    contents d' ≡ₚ contents d /\ rehashidx d' = rehashidx d /\ same_flags d d' /\
    ht_table (ht0 d') = <[Z.to_nat idx := []]> (ht_table (ht0 d)) /\
    ht_size_exp (ht0 d') = ht_size_exp (ht0 d) /\ ht_size_exp (ht1 d') = ht_size_exp (ht1 d).
Proof.
  intros (H0 & H1 & Hne & Hri & Hempty) Hmax Hi. unfold rehashEntriesInBucketAtIndex.
  destruct (get_bucket_spec (ht0 d) idx H0 Hi) as (b & -> & Hb). cbn [mbind res_bind].
  pose proof (used_bounds d H0 H1 Hmax) as Hub.
  pose proof H0 as (Hexp & Hlen & Hused & Hbuckets). pose proof (Hbuckets _ _ Hb) as Hbok.
  destruct (table_ok_set (ht0 d) idx b [] H0 Hi Hb) as (Hok & rest & Hr & Hr'); [by constructor|].
  change (zlen (@nil dictEntry)) with 0 in *. rewrite Z.add_0_r in *.
  assert (Hzb : 0 <= zlen b <= ht_used (ht0 d)).
  { rewrite (used_kvs _ H0), (zlen_perm _ _ Hr), zlen_app, zlen_fmap.
    pose proof (zlen_nonneg b). pose proof (zlen_nonneg rest). lia. }
  destruct (rehash_loop b d idx) as (t1 & -> & Hok1 & Hexp1 & Hp1); try done; try lia.
  { eapply Forall_impl; [|exact Hbok]. cbv beta. intros de [Hs He]. split; [|done]. rewrite Hs. lia. }
  cbn [mbind res_bind ht0 ht1]. unfold set_bucket, set_used. cbn [ht_table ht_size_exp ht_used].
  rewrite (proj2 (Z.leb_le 0 idx)), (proj2 (Z.ltb_lt idx _)) by lia. cbn [andb mbind res_bind].
  eexists. split; [done|]. split_and!; try done; cbn.
  - split; [exact Hok|]. split; [done|]. cbn. rewrite Hexp1. split; [done|]. split.
    + unfold zlen. rewrite length_insert. apply Hri.
    + intros i Hlt. destruct (decide (i = Z.to_nat idx)) as [->|Hn].
      * apply list_lookup_insert_eq. by eapply lookup_lt_Some.
      * rewrite list_lookup_insert_ne by done. by apply Hempty.
  - unfold contents. cbn. rewrite Hr', Hp1, Hr. cbn. by rewrite (Permutation_app_comm (kv <$> b) rest), <- app_assoc.
Qed.

Lemma empty_kvs (h : ht) : table_ok h -> ht_used h = 0 -> ht_kvs h = [].
Proof. intros Ht Hu. apply zlen_nil_inv. by rewrite <- used_kvs. Qed.

Lemma check_completed (d : dict) :
  rehashing d -> exists d' c, dictCheckRehashingCompleted d = (d', c) /\
  contents d' ≡ₚ contents d /\ same_flags d d' /\
  (if c then stable d' /\ table_ok (ht0 d') else d' = d /\ rehashing d' /\ ht_used (ht0 d') <> 0).
Proof.
  intros Hr. pose proof Hr as (H0 & H1 & _). unfold dictCheckRehashingCompleted.
  destruct (Z.eqb_spec (ht_used (ht0 d)) 0) as [Hu|Hu]; cbn [negb].
  - eexists _, true. split; [done|]. split_and!; try done.
    + unfold contents. cbn. rewrite (empty_kvs (ht0 d)) by done. cbn. by rewrite app_nil_r.
    + split; [done|]. split; [done|]. by right.
  - by exists d, false.
Qed.

(** The next non empty bucket exists while there are entries to move. *)
Lemma next_bucket (d : dict) :
  rehashing d -> ht_used (ht0 d) <> 0 ->
  exists j b, ht_table (ht0 d) !! j = Some b /\ b <> [] /\ (Z.to_nat (rehashidx d) <= j)%nat.
Proof.
  intros (H0 & _ & _ & Hri & Hempty) Hu. pose proof H0 as (_ & _ & Hused & _).
  destruct (concat (ht_table (ht0 d))) as [|de l] eqn:E; [by rewrite Hused in Hu|].
  assert (Hin : de ∈ concat (ht_table (ht0 d))) by (rewrite E; by left).
  apply list_elem_of_In, in_concat in Hin as (b & Hb & Hde).
  apply list_elem_of_In, list_elem_of_lookup in Hb as [j Hj]. exists j, b. split; [done|].
  assert (Hbn : b <> []) by (intros ->; by apply Hde). split; [done|].
  destruct (decide (j < Z.to_nat (rehashidx d))%nat) as [Hlt|]; [|lia].
  assert (Some b = Some []) by (etrans; [symmetry; exact Hj|exact (Hempty j Hlt)]). by simplify_eq.
Qed.


(** Moving the rehash index over an empty bucket. *)
Lemma rehashing_next (d : dict) :
  rehashing d -> ht_table (ht0 d) !! Z.to_nat (rehashidx d) = Some [] ->
  rehashing (set_rehashidx d (rehashidx d + 1)).
Proof.
  intros (H0 & H1 & Hne & Hri & Hempty) Hb. pose proof (lookup_lt_Some _ _ _ Hb).
  split_and!; cbn; try done; unfold zlen in *; try lia.
  intros i Hi. destruct (decide (i = Z.to_nat (rehashidx d))) as [->|]; [done|]. apply Hempty. lia.
Qed.

Lemma skip_empty_spec fuel : forall (d : dict) ev j b,
  rehashing d -> ht_table (ht0 d) !! j = Some b -> b <> [] ->
  (Z.to_nat (rehashidx d) <= j < Z.to_nat (rehashidx d) + fuel)%nat ->
  exists i r, skip_empty fuel d ev = Ok (set_rehashidx d i, r) /\ rehashing (set_rehashidx d i) /\
    rehashidx d <= i /\ (r = None /\ rehashidx d < i \/ is_Some r /\ exists c, ht_table (ht0 d) !! Z.to_nat i = Some c /\ c <> []).
Proof.
  induction fuel as [|fuel IH]; intros d ev j b Hr Hj Hb Hle; [lia|]. cbn [skip_empty].
  pose proof Hr as (H0 & _ & _ & Hri & _). pose proof H0 as (_ & Hlen & _ & _).
  pose proof (lookup_lt_Some _ _ _ Hj).
  destruct (get_bucket_spec (ht0 d) (rehashidx d) H0) as (c & -> & Hc);
    [rewrite <- Hlen; unfold zlen in *; lia|].
  cbn [mbind res_bind]. destruct c as [|de c].
  - pose proof (rehashing_next d Hr Hc) as Hr'.
    assert (Hn : Z.to_nat (rehashidx d) <> j) by (intros <-; congruence).
    destruct (Z.eqb_spec (ev - 1) 0).
    { exists (rehashidx d + 1), None. split; [done|]. split; [done|]. split; [lia|]. left. split; [done|lia]. }
    destruct (IH (set_rehashidx d (rehashidx d + 1)) (ev - 1) j b) as (i & r & -> & Hr'' & Hi & Hc');
      try done; [cbn; lia|]. cbn in Hi, Hc'. exists i, r. split; [done|]. split; [done|]. split; [lia|].
    destruct Hc' as [[-> ?]|Hc']; [left; split; [done|lia]|by right].
  - exists (rehashidx d), (Some ev). replace (set_rehashidx d (rehashidx d)) with d by by destruct d.
    split; [done|]. split; [done|]. split; [lia|]. right. split; [done|]. by exists (de :: c).
Qed.

(** ** Steps that keep the contents *)

(** [d'] has the entries of [d] and is a dict again. *)
Definition keeps (d d' : dict) : Prop :=
  contents d' ≡ₚ contents d /\ same_flags d d' /\ (stable d' \/ rehashing d').

(** A rehashing step may also complete the rehashing, but never starts one. *)
Definition moves (d d' : dict) : Prop :=
  contents d' ≡ₚ contents d /\ same_flags d d' /\ (table_ok (ht0 d) -> table_ok (ht0 d')) /\
  (stable d' \/ rehashing d' /\ rehashing d /\ ht_size_exp (ht0 d') = ht_size_exp (ht0 d)).

Lemma stable_not_rehashing (d : dict) : stable d -> ~ rehashing d.
Proof. intros (Hi & _) (_ & _ & _ & Hr & _). lia. Qed.

Lemma moves_refl (d : dict) : stable d \/ rehashing d -> moves d d.
Proof. intros [Hs|Hr]; (split; [done|split; [done|split; [done|]]]); [by left|by right]. Qed.

Lemma moves_trans (d1 d2 d3 : dict) : moves d1 d2 -> moves d2 d3 -> moves d1 d3.
Proof.
  intros (Hp & [Hf1 Hf2] & Ht & Hs) (Hp' & [Hf1' Hf2'] & Ht' & Hs'). split; [by rewrite Hp'|].
  split; [split; congruence|]. split; [by auto|]. destruct Hs' as [|(Hr3 & Hr2 & He)]; [by left|].
  destruct Hs as [Hs|(_ & Hr1 & He')]; [by destruct (stable_not_rehashing d2)|].
  right. split; [done|]. split; [done|congruence].
Qed.

Lemma moves_keeps (d d' : dict) : moves d d' -> keeps d d'.
Proof. intros (Hp & Hf & _ & Hs). split; [done|]. split; [done|]. destruct Hs as [|(? & _)]; tauto. Qed.

Lemma keeps_refl (d : dict) : dict_ok d -> keeps d d.
Proof. by intros (_ & _ & Hs). Qed.

Lemma keeps_trans (d1 d2 d3 : dict) : keeps d1 d2 -> keeps d2 d3 -> keeps d1 d3.
Proof.
  intros (Hp & [Hf1 Hf2] & Hs) (Hp' & [Hf1' Hf2'] & Hs'). split; [by rewrite Hp'|].
  split; [split; congruence|done].
Qed.

Lemma keeps_ok (d d' : dict) : dict_ok d -> keeps d d' -> dict_ok d'.
Proof.
  intros (Hnd & Hmax & _) (Hp & _ & Hs). split; [|split; [|done]].
  - by rewrite Hp.
  - by rewrite (zlen_perm _ _ Hp).
Qed.

Lemma moves_ok (d d' : dict) : dict_ok d -> moves d d' -> dict_ok d'.
Proof. intros. by eapply keeps_ok, moves_keeps. Qed.

Lemma check_completed_moves (d : dict) : rehashing d -> moves d (fst (dictCheckRehashingCompleted d)).
Proof.
  intros Hr. destruct (check_completed d Hr) as (d' & c & -> & Hp & Hf & Hc). cbn [fst].
  split; [done|]. split; [done|]. destruct c; [destruct Hc; split; [done|by left]|].
  destruct Hc as (-> & Hr' & _). split; [done|by right].
Qed.

(** The result of a rehashing call: finished, or further than before. *)
Definition rehashed (d d' : dict) (more : bool) : Prop :=
  if more then rehashing d' /\ rehashidx d <= rehashidx d' else stable d'.

Lemma rehash_loop_finish (d : dict) :
  rehashing d -> exists d' r,
  (let '(d', completed) := dictCheckRehashingCompleted d in Ok (d', negb completed)) = Ok (d', r) /\
  moves d d' /\ rehashed d d' r.
Proof.
  intros Hr. pose proof (check_completed_moves d Hr) as Hm.
  destruct (check_completed d Hr) as (d' & c & E & _ & _ & Hc). rewrite E in *. exists d', (negb c).
  split; [done|]. split; [done|]. destruct c; cbn; [apply Hc|]. destruct Hc as (-> & _). done.
Qed.

Lemma dictRehash_loop_spec n : forall (d : dict) ev,
  rehashing d -> zlen (contents d) <= max_entries ->
  exists d' r, dictRehash_loop ty n d ev = Ok (d', r) /\ moves d d' /\ rehashed d d' r /\
    (n <> O -> r = true -> ht_used (ht0 d) <> 0 -> rehashidx d < rehashidx d').
Proof.
  induction n as [|n IH]; intros d ev Hr Hmax; cbn [dictRehash_loop].
  { destruct (rehash_loop_finish d Hr) as (d' & r & -> & ? & ?). by exists d', r. }
  destruct (Z.eqb_spec (ht_used (ht0 d)) 0) as [|Hu].
  { destruct (rehash_loop_finish d Hr) as (d' & r & -> & ? & ?). by exists d', r. }
  destruct (next_bucket d Hr Hu) as (j & b & Hj & Hb & Hle). pose proof (lookup_lt_Some _ _ _ Hj).
  pose proof Hr as (H0 & _ & _ & Hri & _). pose proof H0 as (Hexp & Hlen & _ & _).
  assert (2 ^ ht_size_exp (ht0 d) <= 2 ^ 60) by (apply Z.pow_le_mono_r; lia).
  rewrite dictht_size, wrapu_small, (proj2 (Z.ltb_lt _ _)) by (unfold zlen in *; lia).
  cbn [cassert mbind res_bind].
  destruct (skip_empty_spec (S (length (ht_table (ht0 d)))) d ev j b Hr Hj Hb ltac:(lia))
    as (i & r & -> & Hri' & Hge & Hc). cbn [mbind res_bind].
  change (rehashidx (set_rehashidx d i)) with i.
  assert (Hm : moves d (set_rehashidx d i)) by (split; [done|split; [done|split; [done|by right]]]).
  destruct r as [ev'|].
  2: { eexists _, _. split; [done|]. split; [done|]. split; [done|]. intros _ _ _. cbn.
       by destruct Hc as [[_ ?]|[[? [=]] _]]. }
  destruct Hc as [[? _]|(_ & c & Hc & Hcn)]; [done|].
  pose proof (lookup_lt_Some _ _ _ Hc). pose proof Hri' as (_ & _ & _ & Hi & _). cbn in Hi.
  destruct (rehash_bucket (set_rehashidx d i) i Hri' Hmax) as (d' & -> & Hr' & Hp & Hidx & Hf & Htab & He0 & _).
  { cbn. rewrite <- Hlen. unfold zlen. lia. }
  cbn [mbind res_bind]. cbn in Hidx.
  assert (Hr'' : rehashing (set_rehashidx d' (rehashidx d' + 1))).
  { apply rehashing_next; [done|]. rewrite Htab, Hidx. by apply list_lookup_insert_eq. }
  destruct (IH (set_rehashidx d' (rehashidx d' + 1)) ev' Hr'') as (d'' & r & -> & Hm' & Hrd & _).
  { change (contents (set_rehashidx d' _)) with (contents d'). by rewrite (zlen_perm _ _ Hp). }
  exists d'', r. split; [done|]. split; [|split].
  - eapply moves_trans; [exact Hm|]. eapply moves_trans; [|exact Hm'].
    split; [done|]. split; [done|]. split; [by destruct Hr'|by right].
  - destruct r; cbn in *; [|done]. split; [apply Hrd|lia].
  - intros _ -> _. destruct Hrd as [_ Hrd]. cbn in Hrd. lia.
Qed.

Context (dict_can_resize : dictResizeEnable).

Lemma rehash_blocked_rehashing (d : dict) :
  stable d \/ rehashing d -> rehash_blocked dict_can_resize d = false -> rehashing d.
Proof.
  intros [(Hs & _)|]; [|done]. unfold rehash_blocked, dictIsRehashing. rewrite Hs. cbn.
  by rewrite orb_true_r.
Qed.

Lemma dictRehash_moves (d : dict) n :
  dict_ok d -> exists d' r, dictRehash ty dict_can_resize d n = Ok (d', r) /\ moves d d'.
Proof.
  intros (_ & Hmax & Hs). unfold dictRehash. destruct (rehash_blocked _ d) eqn:Eb; [eexists _, _; by split; [|apply moves_refl]|].
  pose proof (rehash_blocked_rehashing d Hs Eb) as Hr.
  destruct (dictRehash_loop_spec n d (i32 (Z.of_nat n * 10)) Hr Hmax) as (d' & r & -> & Hm & _). by exists d', r.
Qed.

Lemma rehashStep_moves (d : dict) :
  dict_ok d -> exists d', _dictRehashStep ty dict_can_resize d = Ok d' /\ moves d d'.
Proof.
  intros Hok. unfold _dictRehashStep. destruct (_ =? _); [|exists d; split; [done|apply moves_refl, Hok]].
  destruct (dictRehash_moves d 1 Hok) as (d' & r & -> & Hm). by exists d'.
Qed.

Lemma bucketRehash_moves (d : dict) idx :
  dict_ok d -> 0 <= idx < 2 ^ ht_size_exp (ht0 d) ->
  exists d' r, _dictBucketRehash ty dict_can_resize d idx = Ok (d', r) /\ moves d d'.
Proof.
  intros Hok Hi. pose proof Hok as (_ & Hmax & Hs). unfold _dictBucketRehash.
  destruct (negb _); [eexists _, _; by split; [|apply moves_refl]|]. destruct (rehash_blocked _ d) eqn:Eb; [eexists _, _; by split; [|apply moves_refl]|].
  pose proof (rehash_blocked_rehashing d Hs Eb) as Hr.
  destruct (rehash_bucket d idx Hr Hmax Hi) as (d' & -> & Hr' & Hp & _ & Hf & _ & He0 & _). cbn [mbind res_bind].
  eexists _, _. split; [done|]. eapply moves_trans; [|by apply check_completed_moves].
  split; [done|]. split; [done|]. split; [by destruct Hr'|by right].
Qed.

Lemma lookup_rehash_moves (d : dict) k :
  dict_ok d -> exists d',
  lookup_rehash ty dict_can_resize d (slot (ht_size_exp (ht0 d)) (hashFunction ty k)) = Ok d' /\ moves d d'.
Proof.
  intros Hok. pose proof Hok as (_ & _ & Hs). unfold lookup_rehash.
  destruct (dictIsRehashing d) eqn:Er; [|exists d; by split; [|apply moves_refl]].
  assert (Hr : rehashing d).
  { destruct Hs as [(Hi & _)|]; [|done]. unfold dictIsRehashing in Er. by rewrite Hi in Er. }
  pose proof Hr as (H0 & _). pose proof H0 as (He & _).
  pose proof (slot_range (ht_size_exp (ht0 d)) (hashFunction ty k) ltac:(lia)) as Hi.
  destruct (rehashidx d <=? _); cbn [mbind res_bind]; [|by apply rehashStep_moves].
  destruct (get_bucket_spec _ _ H0 Hi) as (b & -> & _). cbn [mbind res_bind].
  destruct b; [by apply rehashStep_moves|].
  destruct (bucketRehash_moves d _ Hok Hi) as (d' & r & -> & Hm). by exists d'.
Qed.

(** ** Lookup *)

Lemma keyCompare_spec a b : reflect (a = b) (keyCompare ty a b).
Proof. apply iff_reflect. symmetry. apply keyCompare_eq. Qed.

Lemma chain_find_Some key (b : chain) de :
  chain_find ty key b = Some de -> de ∈ b /\ de_key de = key.
Proof.
  induction b as [|e b IH]; cbn [chain_find]; [done|]. destruct (keyCompare_spec key (de_key e)) as [->|].
  - intros [= ->]. split; [left|done].
  - intros Hf. destruct (IH Hf). split; [by right|done].
Qed.

Lemma chain_find_None key (b : chain) : chain_find ty key b = None -> key ∉ (kv <$> b).*1.
Proof.
  induction b as [|e b IH]; cbn; [by intros _ ?%elem_of_nil|].
  destruct (keyCompare_spec key (de_key e)) as [|Hn]; [done|].
  intros Hf [|]%elem_of_cons; [done|]. by apply IH.
Qed.

(** A key of a table is in its bucket. *)
Lemma key_bucket (h : ht) key b :
  table_ok h -> ht_table h !! Z.to_nat (slot (ht_size_exp h) (hashFunction ty key)) = Some b ->
  key ∈ (ht_kvs h).*1 -> key ∈ (kv <$> b).*1.
Proof.
  intros (He & _ & _ & Hb) Hl Hin. unfold ht_kvs in Hin. rewrite <- list_fmap_compose in Hin.
  apply list_elem_of_fmap in Hin as (de & -> & Hde).
  apply list_elem_of_In, in_concat in Hde as (c & Hc & Hdc).
  apply list_elem_of_In, list_elem_of_lookup in Hc as [j Hj]. apply list_elem_of_In in Hdc.
  pose proof (Hb j c Hj) as Hok. unfold bucket_ok in Hok. rewrite list.Forall_forall in Hok.
  destruct (Hok de Hdc) as [Hs _]. cbn in Hl. rewrite Hs, Nat2Z.id in Hl.
  assert (c = b) as -> by congruence. rewrite <- list_fmap_compose. by apply (list_elem_of_fmap_2 (fst ∘ kv)).
Qed.

Lemma bucket_entry (h : ht) i b de :
  ht_table h !! i = Some b -> de ∈ b -> kv de ∈ ht_kvs h.
Proof.
  intros Hi Hde. apply list_elem_of_fmap_2. apply list_elem_of_In, in_concat.
  exists b. split; apply list_elem_of_In; [|done]. by eapply list_elem_of_lookup_2.
Qed.

(** The search over both tables, from the index the caller computed before
    the rehashing step. *)
Definition found_at (d : dict) (key : K) (t : bool) (i : Z) (de : dictEntry) : Prop :=
  table_ok (tbl d t) /\ i = slot (ht_size_exp (tbl d t)) (hashFunction ty key) /\ de_key de = key /\
  exists b, ht_table (tbl d t) !! Z.to_nat i = Some b /\ chain_find ty key b = Some de.

Lemma found_entry_ok (d : dict) key t i de : found_at d key t i de -> entry_ok de.
Proof.
  intros ((_ & _ & _ & Hb) & _ & _ & b & Hl & Hf). apply chain_find_Some in Hf as [Hin _].
  pose proof (Hb _ _ Hl) as Hok. unfold bucket_ok in Hok. rewrite list.Forall_forall in Hok. by apply Hok.
Qed.

(** Where the type has values every entry has one; elsewhere none has. *)
Lemma entry_has_value de : entry_ok de -> entryHasValue de = negb (no_value ty).
Proof. unfold entry_ok, entryHasValue. destruct (no_value ty); [intros [Hk _]; by destruct (de_kind de)|by intros ->]. Qed.

Lemma in_table_spec (h : ht) key :
  table_ok h -> let i := slot (ht_size_exp h) (hashFunction ty key) in
  exists b, get_bucket h i = Ok b /\ ht_table h !! Z.to_nat i = Some b /\
  match chain_find ty key b with
  | Some de => de_key de = key /\ kv de ∈ ht_kvs h
  | None => key ∉ (ht_kvs h).*1
  end.
Proof.
  intros Ht i. pose proof Ht as (He & _). pose proof (slot_range (ht_size_exp h) (hashFunction ty key) ltac:(lia)).
  destruct (get_bucket_spec h i) as (b & Hg & Hb); try done. exists b. split; [done|]. split; [done|].
  destruct (chain_find ty key b) as [de|] eqn:Ef.
  - apply chain_find_Some in Ef as [Hde Hk]. split; [done|]. by eapply bucket_entry.
  - intros Hin. by apply (chain_find_None _ _ Ef), (key_bucket h).
Qed.

#[local] Ltac in_contents := unfold contents; rewrite ?fmap_app, ?elem_of_app; tauto.

(** Where a search that used [idx] to decide about the first table is right. *)
Definition search_pre (d : dict) (key : K) (idx : Z) : Prop :=
  table_ok (ht0 d) /\ 0 <= idx < 2 ^ 63 /\
  (rehashing d -> rehashidx d <= idx \/ idx = slot (ht_size_exp (ht0 d)) (hashFunction ty key)).

Lemma search_tables_spec (d : dict) key idx :
  dict_ok d -> search_pre d key idx ->
  exists r i, search_tables ty d (hashFunction ty key) idx key = Ok (r, i) /\
  match r with
  | Some (t, i, de) => found_at d key t i de /\ kv de ∈ contents d
  | None => (key ∉ (contents d).*1) /\ table_ok (tbl d (dictIsRehashing d)) /\
            i = slot (ht_size_exp (tbl d (dictIsRehashing d))) (hashFunction ty key)
  end.
Proof.
  intros (_ & _ & Hs) (H0 & Hi & Hsearch). unfold search_tables.
  rewrite wraps_small by (cbn; lia). fold (slot (ht_size_exp (tbl d true)) (hashFunction ty key)).
  fold (slot (ht_size_exp (tbl d false)) (hashFunction ty key)). cbn [tbl].
  destruct (in_table_spec (ht0 d) key H0) as (b0 & Hg0 & Hb0 & Hf0). cbv zeta in *.
  destruct Hs as [Hst|Hr].
  - destruct Hst as (Hri & H1 & _). rewrite (proj2 (Z.ltb_ge idx _)) by lia.
    rewrite Hg0. cbn [mbind res_bind snd fst]. unfold dictIsRehashing. rewrite Hri. cbn [Z.eqb negb].
    destruct (chain_find ty key b0) as [de|] eqn:Ef.
    + eexists (Some _), _. split; [done|]. destruct Hf0. split; [|in_contents]. split_and!; try done. eauto.
    + eexists None, _. split; [done|]. split; [|done].
      unfold contents. rewrite H1. cbn. by rewrite app_nil_r.
  - specialize (Hsearch Hr). destruct Hr as (_ & H1 & _ & Hri & Hempty).
    destruct (in_table_spec (ht1 d) key H1) as (b1 & Hg1 & Hb1 & Hf1). cbv zeta in *.
    assert (Hisr : dictIsRehashing d = true).
    { unfold dictIsRehashing. by rewrite (proj2 (Z.eqb_neq _ _)) by lia. }
    rewrite Hg0, Hg1, Hisr. cbn [mbind res_bind snd fst negb tbl].
    assert (Hsecond : key ∉ (ht_kvs (ht0 d)).*1 -> exists r i,
      match chain_find ty key b1 with
      | Some de => Ok (Some (true, slot (ht_size_exp (ht1 d)) (hashFunction ty key), de),
                       slot (ht_size_exp (ht1 d)) (hashFunction ty key))
      | None => Ok (None, slot (ht_size_exp (ht1 d)) (hashFunction ty key))
      end = Ok (r, i) /\
      match r with
      | Some (t, i, de) => found_at d key t i de /\ kv de ∈ contents d
      | None => (key ∉ (contents d).*1) /\ table_ok (ht1 d) /\
                i = slot (ht_size_exp (ht1 d)) (hashFunction ty key)
      end).
    { intros Hn. destruct (chain_find ty key b1) as [de|] eqn:Ef.
      - eexists (Some _), _. split; [done|]. destruct Hf1. split; [|in_contents]. split_and!; try done. eauto.
      - eexists None, _. split; [done|]. split; [in_contents|done]. }
    destruct (Z.ltb_spec idx (rehashidx d)).
    + apply Hsecond. destruct Hsearch as [| ->]; [lia|].
      intros Hin. eapply key_bucket in Hin; [|done|exact Hb0].
      rewrite Hempty in Hb0 by lia. simplify_eq. by apply elem_of_nil in Hin.
    + destruct (chain_find ty key b0) as [de|] eqn:Ef; [|by apply Hsecond].
      eexists (Some _), _. split; [done|]. destruct Hf0. split; [|in_contents]. split_and!; try done. eauto.
Qed.

(** ** Resizing *)

Definition empty_table (e : Z) : ht := {| ht_table := replicate (Z.to_nat (2 ^ e)) []; ht_size_exp := e; ht_used := 0 |}.

Lemma concat_replicate_nil {A} n : concat (replicate n (@nil A)) = [].
Proof. by induction n. Qed.

Lemma empty_table_ok e : 0 <= e <= 60 -> table_ok (empty_table e) /\ ht_kvs (empty_table e) = [].
Proof.
  intros He. unfold table_ok, ht_kvs. cbn. rewrite concat_replicate_nil. split; [|done].
  pose proof (Z.pow_pos_nonneg 2 e). split; [done|]. split; [unfold zlen; rewrite length_replicate; lia|].
  split; [done|]. intros i b [-> _]%lookup_replicate. constructor.
Qed.

Lemma reset_not_ok : ~ table_ok (@reset_ht K V).
Proof. intros (He & _). cbn in He. lia. Qed.

Lemma next_exp_le size : 0 <= size <= 2 ^ 60 -> 2 <= _dictNextExp size <= 60 /\ size <= 2 ^ _dictNextExp size.
Proof.
  intros Hs. destruct (next_exp_spec size) as (He & Hle & Hmin); [unfold LONG_MAX, INT64_MAX; lia|].
  split; [|done]. destruct Hmin as [->|Hlt]; [lia|]. split; [lia|].
  assert (_dictNextExp size - 1 < 60); [|lia]. apply (Z.pow_lt_mono_r_iff 2); lia.
Qed.

(** Resizing keeps the entries; when it succeeds there is a table. *)
Lemma resize_keeps (d : dict) size try_ :
  dict_ok d -> stable d -> 0 <= size <= 2 ^ 60 ->
  exists d' ok mf, _dictResize d size try_ = Ok (d', ok, mf) /\ keeps d d' /\
    (table_ok (ht0 d) \/ ok = true -> table_ok (ht0 d')) /\
    (ok = true \/ ht_size_exp (ht0 d) = _dictNextExp size \/ try_ = Some false) /\
    (rehashing d' -> rehashidx d' = 0).
Proof.
  intros Hok Hst Hs. pose proof Hst as (Hri & H1 & H0). unfold _dictResize, dictIsRehashing. rewrite Hri.
  cbn [Z.eqb negb cassert mbind res_bind]. destruct (next_exp_le size Hs) as [He Hle].
  set (e := _dictNextExp size) in *. rewrite dictht_size by lia.
  assert (Hpow : 0 < 2 ^ e <= 2 ^ 60) by (split; [apply Z.pow_pos_nonneg; lia|apply Z.pow_le_mono_r; lia]).
  rewrite (proj2 (Z.ltb_ge (2 ^ e) size)) by lia.
  unfold sizeof_ptr. rewrite wrapu_small, (proj2 (Z.ltb_ge _ _)) by lia. cbn [orb].
  destruct (Z.eqb_spec e (ht_size_exp (ht0 d))) as [->|Hne].
  { exists d, false, false. split_and!; try done; [by apply keeps_refl|naive_solver|eauto|].
    intros Hr. by destruct (stable_not_rehashing d). }
  destruct (match try_ with Some false => true | _ => false end) eqn:Etry.
  { exists d, false, true. split_and!; try done; [by apply keeps_refl|naive_solver|by destruct try_ as [[]|]; auto|].
    intros Hr. by destruct (stable_not_rehashing d). }
  fold (empty_table e). destruct (empty_table_ok e ltac:(lia)) as [Hemp Hkvs].
  cbn [set_tbl set_rehashidx ht0 ht1]. destruct (_ || _) eqn:Eor; eexists _, true, false; (split; [done|]).
  - assert (Hnil : ht_kvs (ht0 d) = []).
    { apply orb_true_iff in Eor as [Eor|Eor%Z.eqb_eq].
      - unfold ht_kvs. by destruct (ht_table (ht0 d)).
      - destruct H0 as [->|H0]; [done|by apply empty_kvs]. }
    split_and!; try done; eauto.
    + split; [|split; [done|left; split; [done|by split; [done|right]]]].
      unfold contents. cbn [set_tbl set_rehashidx _dictReset ht0 ht1]. by rewrite Hkvs, H1, Hnil.
    + intros (_ & ?%reset_not_ok & _). done.
  - apply orb_false_iff in Eor as [Eor Hu%Z.eqb_neq]. destruct H0 as [H0|H0]; [by rewrite H0 in Eor|].
    assert (Hr : rehashing (set_rehashidx (set_tbl d true (empty_table e)) 0)).
    { split_and!; cbn; try done; try lia; apply zlen_nonneg. }
    split_and!; try done; eauto. split; [|split; [done|by right]].
    unfold contents. cbn [set_tbl set_rehashidx _dictReset ht0 ht1]. by rewrite Hkvs, H1.
Qed.

Lemma expand_keeps (d : dict) size :
  dict_ok d -> stable d -> 0 <= size <= 2 ^ 60 ->
  exists d' ok, dictExpand d size = Ok (d', ok) /\ keeps d d' /\
    (table_ok (ht0 d) \/ (0 < size /\ ht0 d = reset_ht) -> table_ok (ht0 d')) /\ (rehashing d' -> rehashidx d' = 0).
Proof.
  intros Hok Hst Hs. unfold dictExpand, _dictExpand.
  assert (Hno : rehashing d -> rehashidx d = 0) by (intros Hr; by destruct (stable_not_rehashing d)).
  destruct (dictIsRehashing d || _ || _) eqn:Eb.
  - exists d, false. split_and!; try done; [by apply keeps_refl|]. intros [|[Hs0 Hre]]; [done|].
    rewrite Hre in Eb. unfold dictIsRehashing in Eb. rewrite (proj1 Hst) in Eb. cbn in Eb.
    rewrite (proj2 (Z.ltb_ge _ _)), (proj2 (Z.leb_gt _ _)) in Eb by lia. done.
  - destruct (resize_keeps d size None Hok Hst Hs) as (d' & ok & mf & -> & Hk & Hta & Hcause & Hi).
    exists d', ok. split_and!; try done. intros [|[Hs0 Hre]]; [by apply Hta; left|].
    apply Hta. right. destruct Hcause as [|[Hcause|Hcause]]; [done| |done].
    rewrite Hre in Hcause. cbn in Hcause. destruct (next_exp_le size Hs). lia.
Qed.

Lemma used0_bounds (d : dict) : dict_ok d -> 0 <= ht_used (ht0 d) <= 2 ^ 58.
Proof.
  intros (_ & Hmax & Hs). unfold contents, max_entries in Hmax. rewrite zlen_app in Hmax.
  pose proof (zlen_nonneg (ht_kvs (ht0 d))) as Hz0. pose proof (zlen_nonneg (ht_kvs (ht1 d))) as Hz1.
  assert (H0 : ht0 d = reset_ht \/ table_ok (ht0 d)) by (destruct Hs as [(_ & _ & ?)|(? & _)]; tauto).
  destruct H0 as [->|H0]; [cbn; lia|]. rewrite (used_kvs _ H0). lia.
Qed.

(** An automatic resize: the entries stay, an existing table stays a table,
    and a rehashing that was not there before starts at 0. *)
Definition resizes (d d' : dict) : Prop :=
  keeps d d' /\ (table_ok (ht0 d) -> table_ok (ht0 d')) /\
  (rehashing d' -> d' = d \/ rehashidx d' = 0).

Lemma resizes_refl (d : dict) : dict_ok d -> resizes d d.
Proof. intros. split; [by apply keeps_refl|]. split; [done|by left]. Qed.

Lemma not_rehashing_stable (d : dict) : dict_ok d -> dictIsRehashing d = false -> stable d.
Proof.
  intros (_ & _ & [|(_ & _ & _ & Hri & _)]); [done|]. unfold dictIsRehashing.
  by rewrite (proj2 (Z.eqb_neq _ _)) by lia.
Qed.

Lemma expandIfNeeded_resizes (d : dict) :
  dict_ok d -> exists d' r, dictExpandIfNeeded ty dict_can_resize d = Ok (d', r) /\ resizes d d' /\
  table_ok (ht0 d').
Proof.
  intros Hok. unfold dictExpandIfNeeded. destruct (dictIsRehashing d) eqn:Er.
  { eexists _, _. split; [done|]. split; [by apply resizes_refl|]. destruct Hok as (_ & _ & [(Hi & _)|(? & _)]); [|done].
    unfold dictIsRehashing in Er. by rewrite Hi in Er. }
  pose proof (not_rehashing_stable d Hok Er) as Hst. pose proof (used0_bounds d Hok) as Hu.
  pose proof Hst as (_ & _ & H0). destruct H0 as [H0|H0].
  - rewrite H0. cbn [ht_size_exp reset_ht]. change (DICTHT_SIZE (-1) =? 0) with true. cbv iota.
    destruct (expand_keeps d DICT_HT_INITIAL_SIZE Hok Hst ltac:(by cbn)) as (d' & ok & -> & Hk & Ht & Hi).
    eexists _, _. split; [done|]. cbn [fst]. assert (table_ok (ht0 d')) by (apply Ht; right; by cbn).
    split; [|done]. split; [done|]. split; [done|]. auto.
  - pose proof H0 as (He & _). pose proof (Z.pow_pos_nonneg 2 (ht_size_exp (ht0 d))) as Hpow.
    rewrite dictht_size, (proj2 (Z.eqb_neq _ 0)) by lia. rewrite (wrapu_small 64 (ht_used (ht0 d) + 1)) by lia.
    assert (Hsame : forall r : bool, exists d' (r' : bool), Ok (d, r) = Ok (d', r') /\ resizes d d' /\ table_ok (ht0 d')).
    { intros r. eexists _, _. split; [done|]. split; [by apply resizes_refl|done]. }
    destruct (_ || _); [|by apply Hsame]. destruct (dictTypeResizeAllowed _ _ _); [|by apply Hsame].
    destruct (expand_keeps d (ht_used (ht0 d) + 1) Hok Hst ltac:(lia)) as (d' & ok & -> & Hk & Ht & Hi).
    eexists _, _. split; [done|]. cbn [fst]. split; [|by apply Ht; left]. split; [done|]. split; [by auto|]. auto.
Qed.

(** Inserting needs a table: with automatic resizing paused it must be there. *)
Lemma expandIfNeeded_auto (d : dict) :
  dict_ok d -> pauseAutoResize d <= 0 \/ table_ok (ht0 d) ->
  exists d', _dictExpandIfNeeded ty dict_can_resize d = Ok d' /\ resizes d d' /\ table_ok (ht0 d').
Proof.
  intros Hok Hp. unfold _dictExpandIfNeeded. destruct (Z.ltb_spec 0 (pauseAutoResize d)).
  - exists d. split; [done|]. split; [by apply resizes_refl|]. destruct Hp; [lia|done].
  - destruct (expandIfNeeded_resizes d Hok) as (d' & r & -> & Hr & Ht). by exists d'.
Qed.

Lemma shrinkIfNeeded_resizes (d : dict) :
  dict_ok d -> exists d' r, dictShrinkIfNeeded ty dict_can_resize d = Ok (d', r) /\ resizes d d'.
Proof.
  intros Hok. unfold dictShrinkIfNeeded.
  assert (Hsame : forall r : bool, exists d' (r' : bool), Ok (d, r) = Ok (d', r') /\ resizes d d').
  { intros r. eexists _, _. split; [done|by apply resizes_refl]. }
  destruct (dictIsRehashing d) eqn:Er; [by apply Hsame|]. destruct (_ <=? _); [by apply Hsame|].
  pose proof (not_rehashing_stable d Hok Er) as Hst. pose proof (used0_bounds d Hok) as Hu.
  destruct (_ || _); [|by apply Hsame]. destruct (dictTypeResizeAllowed _ _ _); [|by apply Hsame].
  unfold dictShrink. destruct (dictIsRehashing d || _ || _); [by apply Hsame|].
  destruct (resize_keeps d (ht_used (ht0 d)) None Hok Hst ltac:(lia)) as (d' & ok & mf & -> & Hk & Ht & _ & Hi).
  eexists _, _. split; [done|]. split; [done|]. split; auto.
Qed.

Lemma shrinkIfNeeded_auto (d : dict) :
  dict_ok d -> exists d', _dictShrinkIfNeeded ty dict_can_resize d = Ok d' /\ resizes d d'.
Proof.
  intros Hok. unfold _dictShrinkIfNeeded. destruct (0 <? _).
  - exists d. split; [done|by apply resizes_refl].
  - destruct (shrinkIfNeeded_resizes d Hok) as (d' & r & -> & Hr). by exists d'.
Qed.

Lemma try_expand_keeps (d : dict) size alloc_ok :
  dict_ok d -> 0 <= size <= 2 ^ 60 -> exists d' ok, dictTryExpand d size alloc_ok = Ok (d', ok) /\ keeps d d'.
Proof.
  intros Hok Hs. unfold dictTryExpand, _dictExpand. destruct (dictIsRehashing d) eqn:Er; cbn [orb].
  { exists d, true. split; [done|by apply keeps_refl]. }
  pose proof (not_rehashing_stable d Hok Er) as Hst. destruct (_ || _).
  { exists d, true. split; [done|by apply keeps_refl]. }
  destruct (resize_keeps d size (Some alloc_ok) Hok Hst Hs) as (d' & ok & mf & -> & Hk & _). by exists d', (negb mf).
Qed.

Lemma expand_any (d : dict) size :
  dict_ok d -> 0 <= size <= 2 ^ 60 -> exists d' ok, dictExpand d size = Ok (d', ok) /\ keeps d d'.
Proof.
  intros Hok Hs. destruct (dictIsRehashing d) eqn:Er.
  - exists d, false. unfold dictExpand, _dictExpand. rewrite Er. cbn. split; [done|by apply keeps_refl].
  - destruct (expand_keeps d size Hok) as (d' & ok & -> & Hk & _); [|done|by eexists _, _].
    by apply not_rehashing_stable.
Qed.

(** ** Operations *)

Lemma dictSize_spec (d : dict) : dict_ok d -> dictSize d = zlen (contents d).
Proof.
  intros (_ & Hmax & Hs). unfold dictSize, contents in *. rewrite zlen_app in *. unfold max_entries in Hmax.
  pose proof (zlen_nonneg (ht_kvs (ht0 d))) as Hz0. pose proof (zlen_nonneg (ht_kvs (ht1 d))) as Hz1.
  assert (forall h : ht, h = reset_ht \/ table_ok h -> ht_used h = zlen (ht_kvs h)) as Hused.
  { intros h [->|Ht]; [done|by apply used_kvs]. }
  rewrite (Hused (ht0 d)), (Hused (ht1 d)) by (destruct Hs as [(_ & ? & ?)|(? & ? & _)]; tauto).
  apply wrapu_small. lia.
Qed.

(** The state a search starts from after the rehashing step of a lookup. *)
Lemma lookup_search_pre (d d' : dict) key :
  dict_ok d -> table_ok (ht0 d) -> moves d d' -> search_pre d' key (slot (ht_size_exp (ht0 d)) (hashFunction ty key)).
Proof.
  intros Hok H0 (_ & _ & Ht & Hs). pose proof H0 as (He & _).
  pose proof (slot_range (ht_size_exp (ht0 d)) (hashFunction ty key) ltac:(lia)).
  assert (2 ^ ht_size_exp (ht0 d) <= 2 ^ 60) by (apply Z.pow_le_mono_r; lia).
  split; [by apply Ht|]. split; [lia|]. intros Hr. right.
  destruct Hs as [Hs|(_ & _ & ->)]; [by destruct (stable_not_rehashing d')|done].
Qed.

Lemma nonempty_table (d : dict) : dict_ok d -> dictSize d <> 0 -> table_ok (ht0 d).
Proof.
  intros Hok Hs. rewrite dictSize_spec in Hs by done.
  destruct Hok as (_ & _ & [(_ & H1 & [H0|])|(? & _)]); [|done|done].
  unfold contents in Hs. by rewrite H0, H1 in Hs.
Qed.

Lemma keys_perm (d d' : dict) k : contents d' ≡ₚ contents d -> k ∈ (contents d').*1 <-> k ∈ (contents d).*1.
Proof. by intros ->. Qed.

Lemma dictFind_spec (d : dict) key :
  dict_ok d -> exists d' r, dictFind ty dict_can_resize d key = Ok (d', r) /\ keeps d d' /\
  (forall de, r = Some de -> entry_ok de) /\
  match r with
  | Some de => de_key de = key /\ kv de ∈ contents d
  | None => key ∉ (contents d).*1
  end.
Proof.
  intros Hok. unfold dictFind. destruct (Z.eqb_spec (dictSize d) 0) as [Hz|Hz].
  { exists d, None. split; [done|]. split; [by apply keeps_refl|]. split; [done|]. rewrite dictSize_spec in Hz by done.
    apply zlen_nil_inv in Hz as ->. apply not_elem_of_nil. }
  pose proof (nonempty_table d Hok Hz) as H0. fold (slot (ht_size_exp (ht0 d)) (hashFunction ty key)).
  destruct (lookup_rehash_moves d key Hok) as (d' & -> & Hm). cbn [mbind res_bind].
  pose proof (moves_ok d d' Hok Hm) as Hok'.
  destruct (search_tables_spec d' key _ Hok' (lookup_search_pre d d' key Hok H0 Hm)) as (r & i & -> & Hr).
  cbn [mbind res_bind fst]. pose proof Hm as (Hp & _).
  destruct r as [[[t j] de]|]; eexists _, _; (split; [done|]); (split; [by apply moves_keeps|]).
  - destruct Hr as [Hf Hin]. split; [intros ? [= <-]; by eapply found_entry_ok|].
    destruct Hf as (_ & _ & Hk & _). split; [done|]. by rewrite <- Hp.
  - destruct Hr as [Hn _]. split; [done|]. by rewrite <- (keys_perm d d').
Qed.

Lemma findPosition_spec (d : dict) key :
  dict_ok d -> pauseAutoResize d <= 0 \/ table_ok (ht0 d) ->
  exists d' r, dictFindPositionForInsert ty dict_can_resize d key = Ok (d', r) /\ keeps d d' /\ table_ok (ht0 d') /\
  match r with
  | inr (t, i, de) => found_at d' key t i de /\ kv de ∈ contents d
  | inl (t, i) => (key ∉ (contents d).*1) /\ t = dictIsRehashing d' /\ table_ok (tbl d' t) /\
                  i = slot (ht_size_exp (tbl d' t)) (hashFunction ty key)
  end.
Proof.
  intros Hok Hpause. unfold dictFindPositionForInsert. fold (slot (ht_size_exp (ht0 d)) (hashFunction ty key)).
  destruct (lookup_rehash_moves d key Hok) as (d1 & -> & Hm). cbn [mbind res_bind].
  set (idx := slot _ _).
  pose proof (moves_ok d d1 Hok Hm) as Hok1. pose proof Hm as (Hp & [_ Hpa] & Ht & Hs).
  destruct (expandIfNeeded_auto d1 Hok1) as (d2 & -> & Hrs & Ht2).
  { rewrite Hpa. destruct Hpause; [by left|right; by apply Ht]. }
  cbn [mbind res_bind]. destruct Hrs as (Hk & _ & Hnew).
  pose proof (keeps_ok d1 d2 Hok1 Hk) as Hok2.
  assert (Hkeeps : keeps d d2) by (eapply keeps_trans; [by apply moves_keeps|done]).
  assert (Hpre : search_pre d2 key idx).
  { assert (Hidx : 0 <= idx < 2 ^ 63).
    { assert (H0 : ht0 d = reset_ht \/ table_ok (ht0 d)) by (destruct Hok as (_ & _ & [(_ & _ & ?)|(? & _)]); tauto).
      unfold idx. destruct H0 as [->|(He & _)]; [unfold slot; cbn [ht_size_exp reset_ht]; change (DICTHT_SIZE_MASK (-1)) with 0;
        rewrite Z.land_0_r; lia|].
      pose proof (slot_range (ht_size_exp (ht0 d)) (hashFunction ty key) ltac:(lia)).
      assert (2 ^ ht_size_exp (ht0 d) <= 2 ^ 60) by (apply Z.pow_le_mono_r; lia). lia. }
    split; [done|]. split; [done|]. intros Hr. destruct (Hnew Hr) as [->| ->]; [|lia].
    destruct Hs as [Hs|(_ & _ & He)]; [by destruct (stable_not_rehashing d1)|]. right. by rewrite He. }
  destruct (search_tables_spec d2 key idx Hok2 Hpre) as (r & i & -> & Hr). cbn [mbind res_bind].
  pose proof Hkeeps as (Hp2 & _).
  destruct r as [[[t j] de]|]; eexists _, _; (split; [done|]); (split; [done|]); (split; [done|]).
  - destruct Hr as [Hf Hin]. split; [done|]. by rewrite <- Hp2.
  - destruct Hr as (Hn & Hta & Hi). split; [by rewrite <- (keys_perm d d2)|done].
Qed.

(** Replacing a bucket of one of the tables of a dict. *)
Lemma dict_set_bucket (d : dict) t idx b b' :
  table_ok (tbl d t) -> 0 <= idx < 2 ^ ht_size_exp (tbl d t) -> ht_table (tbl d t) !! Z.to_nat idx = Some b ->
  bucket_ok (ht_size_exp (tbl d t)) (Z.to_nat idx) b' ->
  (stable d \/ rehashing d) -> (b = [] -> b' = [] \/ t = dictIsRehashing d) ->
  let d' := set_tbl d t {| ht_table := <[Z.to_nat idx := b']> (ht_table (tbl d t));
    ht_size_exp := ht_size_exp (tbl d t); ht_used := ht_used (tbl d t) + zlen b' - zlen b |} in
  (stable d' \/ rehashing d') /\ same_flags d d' /\ (table_ok (ht0 d) -> table_ok (ht0 d')) /\
  exists rest, contents d ≡ₚ (kv <$> b) ++ rest /\ contents d' ≡ₚ (kv <$> b') ++ rest.
Proof.
  intros Ht Hi Hb Hb' Hs Hnew d'.
  destruct (table_ok_set (tbl d t) idx b b' Ht Hi Hb Hb') as (Hok & rest & Hr & Hr'). cbv zeta in Hok, Hr'.
  assert (Hcont : exists rest, contents d ≡ₚ (kv <$> b) ++ rest /\ contents d' ≡ₚ (kv <$> b') ++ rest).
  { unfold contents. destruct t; cbn [tbl] in Hr, Hr'.
    - exists (ht_kvs (ht0 d) ++ rest). cbn [d' set_tbl ht0 ht1 tbl]. rewrite Hr, Hr'.
      split; rewrite !app_assoc; f_equiv; apply Permutation_app_comm.
    - exists (rest ++ ht_kvs (ht1 d)). cbn [d' set_tbl ht0 ht1 tbl]. by rewrite Hr, Hr', <- !app_assoc. }
  split; [|split; [done|split; [|done]]].
  2: { intros H0. destruct t; [exact H0|exact Hok]. }
  destruct Hs as [(Hri & H1 & H0)|(H0 & H1 & Hne & Hri & Hempty)].
  - left. destruct t; [by destruct (reset_not_ok); rewrite <- H1|]. split; [done|]. split; [done|by right].
  - right. destruct t; [split; [exact H0|]; split; [exact Hok|]; split; [exact Hne|split; [exact Hri|exact Hempty]]|].
    split; [exact Hok|]. split; [exact H1|]. split; [exact Hne|]. cbn. split; [split|].
    + apply Hri.
    + rewrite zlen_insert. apply Hri.
    + intros i Hlt. destruct (decide (Z.to_nat idx = i)) as [<-|]; [|rewrite list_lookup_insert_ne by done; by apply Hempty].
      cbn [tbl] in Hb. assert (b = []) as Hbn by (rewrite Hempty in Hb by done; congruence).
      destruct (Hnew Hbn) as [->|Hisr]; [apply list_lookup_insert_eq; by eapply lookup_lt_Some|].
      unfold dictIsRehashing in Hisr. rewrite (proj2 (Z.eqb_neq _ _)) in Hisr by lia. done.
Qed.

Lemma new_entry_spec key (b : chain) :
  exists e, (if no_value ty then
             if keys_are_odd ty && match b with [] => true | _ => false end then
               _ ← cassert (odd_key ty key);
               Ok {| de_kind := ENTRY_IS_KEY; de_key := key; de_val := @None V |}
             else Ok {| de_kind := ENTRY_PTR_NO_VALUE; de_key := key; de_val := None |}
           else Ok {| de_kind := ENTRY_PTR_NORMAL; de_key := key; de_val := None |}) = Ok e /\
  kv e = (key, None) /\ entry_ok e.
Proof.
  unfold entry_ok. destruct (no_value ty); [|by eexists]. destruct (keys_are_odd ty) eqn:Ek; [|by eexists].
  destruct b; [|by eexists]. rewrite odd_keys by done. by eexists.
Qed.

Lemma used_tbl_bounds (d : dict) t : dict_ok d -> table_ok (tbl d t) -> 0 <= ht_used (tbl d t) <= 2 ^ 58.
Proof.
  intros (_ & Hmax & _) Ht. rewrite (used_kvs _ Ht). unfold contents, max_entries in Hmax.
  rewrite zlen_app in Hmax. pose proof (zlen_nonneg (ht_kvs (ht0 d))). pose proof (zlen_nonneg (ht_kvs (ht1 d))).
  destruct t; cbn [tbl]; lia.
Qed.

Lemma insertAt_spec (d : dict) key t :
  dict_ok d -> t = dictIsRehashing d -> table_ok (tbl d t) -> table_ok (ht0 d) ->
  let i := slot (ht_size_exp (tbl d t)) (hashFunction ty key) in
  exists d' e b, dictInsertAtPosition ty d key (t, i) = Ok d' /\ contents d' ≡ₚ (key, None) :: contents d /\
    (stable d' \/ rehashing d') /\ same_flags d d' /\ table_ok (ht0 d') /\ table_ok (tbl d' t) /\
    ht_size_exp (tbl d' t) = ht_size_exp (tbl d t) /\
    ht_table (tbl d' t) !! Z.to_nat i = Some (e :: b) /\ kv e = (key, None).
Proof.
  intros Hok Hisr Ht H0 i. pose proof Ht as (He & _ & _ & Hbs).
  assert (Hi : 0 <= i < 2 ^ ht_size_exp (tbl d t)) by (apply slot_range; lia).
  unfold dictInsertAtPosition. rewrite <- Hisr, dictht_mask by lia.
  rewrite (proj2 (Z.leb_le 0 i)), (proj2 (Z.leb_le i _)), eqb_reflx by lia. cbn [andb cassert mbind res_bind].
  destruct (get_bucket_spec (tbl d t) i Ht Hi) as (b & -> & Hb). cbn [mbind res_bind].
  destruct (new_entry_spec key b) as (e & -> & Hkv & Heok). cbn [mbind res_bind].
  rewrite set_bucket_spec by done. cbn [mbind res_bind]. unfold set_used. cbn [ht_table ht_size_exp ht_used].
  pose proof (used_tbl_bounds d t Hok Ht). rewrite wrapu_small by lia.
  assert (Hbok : bucket_ok (ht_size_exp (tbl d t)) (Z.to_nat i) (e :: b)).
  { apply bucket_ok_cons; [|done|by apply Hbs]. replace (de_key e) with key by (unfold kv in Hkv; congruence).
    fold i. lia. }
  pose proof (table_ok_set (tbl d t) i b (e :: b) Ht Hi Hb Hbok) as [Htok _].
  destruct (dict_set_bucket d t i b (e :: b) Ht Hi Hb Hbok) as (Hs & Hf & H0' & rest & Hr & Hr'); [apply Hok|by right|].
  cbv zeta in *. rewrite zlen_cons in *.
  replace (ht_used (tbl d t) + (1 + zlen b) - zlen b) with (ht_used (tbl d t) + 1) in * by lia.
  eexists _, e, b. split; [done|]. split; [rewrite Hr', Hr; cbn; by rewrite Hkv|].
  split; [exact Hs|]. split; [exact Hf|]. split; [exact (H0' H0)|]. split; [by destruct t|]. split; [|split; [|done]].
  - by destruct t.
  - destruct t; cbn; apply list_lookup_insert_eq; by eapply lookup_lt_Some.
Qed.

(** [dictSetVal] in a bucket. *)
Lemma chain_set_spec key val (b : chain) de :
  no_value ty = false -> Forall entry_ok b -> NoDup (kv <$> b).*1 -> chain_find ty key b = Some de ->
  exists b' rest, chain_set ty key val b = Ok b' /\ length b' = length b /\
    (kv <$> b) ≡ₚ kv de :: rest /\ (kv <$> b') ≡ₚ (key, Some val) :: rest /\
    de_key <$> b' = de_key <$> b /\ Forall entry_ok b'.
Proof.
  intros Hnv. assert (Hnone : forall c : chain, Forall entry_ok c -> key ∉ (kv <$> c).*1 -> chain_set ty key val c = Ok c).
  { induction c as [|e c IH]; intros Hok Hn; [done|]. cbn in Hn. rewrite not_elem_of_cons in Hn.
    inversion_clear Hok as [|? ? He Hc]. cbn. change (foldr _ (Ok []) c) with (chain_set ty key val c).
    rewrite IH by tauto. cbn [mbind res_bind]. destruct (keyCompare_spec key (de_key e)); [by destruct Hn|done]. }
  induction b as [|e b IH]; intros Hok Hnd Hf; [done|]. cbn in Hnd. apply list.NoDup_cons in Hnd as [Hn Hnd].
  inversion_clear Hok as [|? ? He Hb]. cbn in Hf. cbn [chain_set foldr].
  change (foldr _ (Ok []) b) with (chain_set ty key val b).
  assert (Hke : de_kind e = ENTRY_PTR_NORMAL) by (unfold entry_ok in He; by rewrite Hnv in He).
  destruct (keyCompare_spec key (de_key e)) as [->|Hne].
  - simplify_eq. rewrite Hnone by done. cbn [mbind res_bind]. unfold entryHasValue. rewrite Hke. cbn [cassert mbind res_bind].
    eexists _, (kv <$> b). split; [done|]. split_and!; try done. constructor; [|done].
    unfold entry_ok. by rewrite Hnv.
  - destruct (IH Hb Hnd Hf) as (b' & rest & -> & Hlen & Hp & Hp' & Hk & Hok'). cbn [mbind res_bind].
    exists (e :: b'), (kv e :: rest). split; [done|]. cbn. split_and!; [by rewrite Hlen| | |by f_equal|by constructor].
    + rewrite Hp. apply Permutation_swap.
    + rewrite Hp'. apply Permutation_swap.
Qed.

Lemma bucket_nodup (d : dict) t i b :
  NoDup (contents d).*1 -> ht_table (tbl d t) !! i = Some b -> NoDup (kv <$> b).*1.
Proof.
  intros Hnd Hb. destruct (concat_bucket _ _ _ Hb) as (rest & Hp & _).
  assert (Hk : NoDup (ht_kvs (tbl d t)).*1).
  { unfold contents in Hnd. rewrite fmap_app, list.NoDup_app in Hnd. by destruct t, Hnd as (? & _ & ?). }
  unfold ht_kvs in Hk. rewrite Hp, !fmap_app, list.NoDup_app in Hk. apply Hk.
Qed.

Lemma bucket_ok_keys exp i (b b' : chain) :
  bucket_ok exp i b -> de_key <$> b' = de_key <$> b -> Forall entry_ok b' -> bucket_ok exp i b'.
Proof.
  intros Hb Hk Hok. unfold bucket_ok in *. rewrite list.Forall_forall in *. intros de Hde. split; [|by apply Hok].
  apply (list_elem_of_fmap_2 de_key) in Hde. rewrite Hk in Hde. apply list_elem_of_fmap in Hde as (de' & -> & Hde').
  by apply Hb.
Qed.

Lemma setVal_spec (d : dict) key val t i de :
  dict_ok d -> no_value ty = false -> table_ok (tbl d t) ->
  i = slot (ht_size_exp (tbl d t)) (hashFunction ty key) ->
  (exists b, ht_table (tbl d t) !! Z.to_nat i = Some b /\ chain_find ty key b = Some de) ->
  exists d' rest, dictSetVal ty d (t, i) key val = Ok d' /\ contents d ≡ₚ kv de :: rest /\
    contents d' ≡ₚ (key, Some val) :: rest /\ (stable d' \/ rehashing d') /\ same_flags d d' /\
    (table_ok (ht0 d) -> table_ok (ht0 d')).
Proof.
  intros Hok Hnv Ht Hi (b & Hb & Hf). pose proof Ht as (He & _ & _ & Hbs).
  assert (Hrange : 0 <= i < 2 ^ ht_size_exp (tbl d t)) by (subst i; apply slot_range; lia).
  unfold dictSetVal. destruct (get_bucket_spec (tbl d t) i Ht Hrange) as (b0 & -> & Hb0).
  assert (b0 = b) as -> by congruence. cbn [mbind res_bind]. pose proof (Hbs _ _ Hb) as Hbok.
  destruct (chain_set_spec key val b de) as (b' & rest & -> & Hlen & Hp & Hp' & Hk & Hok'); try done.
  { eapply Forall_impl; [|exact Hbok]. by intros ? [_ ?]. }
  { by eapply bucket_nodup; [apply Hok|]. }
  cbn [mbind res_bind]. rewrite set_bucket_spec by done. cbn [mbind res_bind].
  destruct (dict_set_bucket d t i b b' Ht Hrange Hb) as (Hs & Hfl & H0 & rest' & Hr & Hr').
  { by eapply bucket_ok_keys. }
  { apply Hok. }
  { intros ->. left. by destruct b'. }
  cbv zeta in *. replace (ht_used (tbl d t) + zlen b' - zlen b) with (ht_used (tbl d t)) in *
    by (unfold zlen; rewrite Hlen; lia).
  eexists _, (rest ++ rest'). split; [done|]. split; [by rewrite Hr, Hp|]. split; [by rewrite Hr', Hp'|]. done.
Qed.

(** The value [dictAdd] stores. *)
Definition stored (val : V) : option V := if no_value ty then None else Some val.

(** Adding a new key leaves a dict when there is room. *)
Lemma added_ok (d d' : dict) kvp :
  dict_ok d -> fst kvp ∉ (contents d).*1 -> zlen (contents d) < max_entries ->
  contents d' ≡ₚ kvp :: contents d -> stable d' \/ rehashing d' -> dict_ok d'.
Proof.
  intros (Hnd & _) Hn Hroom Hp Hs. split; [|split; [|done]].
  - rewrite Hp. cbn. by apply list.NoDup_cons.
  - rewrite (zlen_perm _ _ Hp), zlen_cons. lia.
Qed.

(** Changing the value of a key. *)
Lemma replaced_ok (d d' : dict) key v v' rest :
  dict_ok d -> contents d ≡ₚ (key, v) :: rest -> contents d' ≡ₚ (key, v') :: rest ->
  stable d' \/ rehashing d' -> dict_ok d'.
Proof.
  intros (Hnd & Hmax & _) Hp Hp' Hs. split; [|split; [|done]].
  - rewrite Hp'. by rewrite Hp in Hnd.
  - rewrite (zlen_perm _ _ Hp'). by rewrite (zlen_perm _ _ Hp) in Hmax.
Qed.

(** Removing a key. *)
Lemma removed_ok (d d' : dict) kvp :
  dict_ok d -> contents d ≡ₚ kvp :: contents d' -> stable d' \/ rehashing d' -> dict_ok d'.
Proof.
  intros (Hnd & Hmax & _) Hp Hs. split; [|split; [|done]].
  - rewrite Hp in Hnd. cbn in Hnd. by apply list.NoDup_cons in Hnd as [_ ?].
  - rewrite (zlen_perm _ _ Hp), zlen_cons in Hmax. lia.
Qed.

(** [dictAddRaw]: a new entry without value, or the position of the old one. *)
Lemma addRaw_spec (d : dict) key :
  dict_ok d -> pauseAutoResize d <= 0 \/ table_ok (ht0 d) -> zlen (contents d) < max_entries ->
  exists d' r, dictAddRaw ty dict_can_resize d key = Ok (d', r) /\ dict_ok d' /\ same_flags d d' /\ table_ok (ht0 d') /\
  match r with
  | inl (t, i) => (key ∉ (contents d).*1) /\ contents d' ≡ₚ (key, None) :: contents d /\ table_ok (tbl d' t) /\
      i = slot (ht_size_exp (tbl d' t)) (hashFunction ty key) /\
      exists b de, ht_table (tbl d' t) !! Z.to_nat i = Some b /\ chain_find ty key b = Some de /\ kv de = (key, None)
  | inr (t, i, de) => contents d' ≡ₚ contents d /\ found_at d' key t i de /\ kv de ∈ contents d
  end.
Proof.
  intros Hok Hpause Hroom. unfold dictAddRaw.
  destruct (findPosition_spec d key Hok Hpause) as (d1 & r & -> & Hk & Ht & Hr). cbn [mbind res_bind].
  pose proof (keeps_ok d d1 Hok Hk) as Hok1. pose proof Hk as (Hp & Hf & _).
  destruct r as [[t i]|[[t i] de]].
  - destruct Hr as (Hn & Hisr & Htt & ->).
    destruct (insertAt_spec d1 key t Hok1 Hisr Htt Ht) as (d2 & e & b & -> & Hp2 & Hs2 & [Hf1 Hf2] & Ht2 & Htt2 & He2 & Hb & Hkv).
    cbn [mbind res_bind]. eexists _, _. split; [done|]. split.
    { eapply added_ok; [exact Hok1| | |exact Hp2|done]; cbn.
      - by rewrite (keys_perm d d1).
      - by rewrite (zlen_perm _ _ Hp). }
    split; [destruct Hf; split; congruence|]. split; [done|]. split; [done|]. split; [by rewrite Hp2, Hp|].
    split; [done|]. split; [by rewrite He2|]. exists (e :: b), e. split; [done|]. split; [|done].
    cbn. assert (de_key e = key) as -> by (unfold kv in Hkv; congruence).
    by destruct (keyCompare_spec key key).
  - eexists _, _. split; [done|]. done.
Qed.

Lemma dictAdd_spec (d : dict) key val :
  dict_ok d -> pauseAutoResize d <= 0 \/ table_ok (ht0 d) -> zlen (contents d) < max_entries ->
  exists d' r, dictAdd ty dict_can_resize d key val = Ok (d', r) /\ dict_ok d' /\ same_flags d d' /\ table_ok (ht0 d') /\
  if r then (key ∉ (contents d).*1) /\ contents d' ≡ₚ (key, stored val) :: contents d
  else key ∈ (contents d).*1 /\ contents d' ≡ₚ contents d.
Proof.
  intros Hok Hpause Hroom. unfold dictAdd, stored.
  destruct (addRaw_spec d key Hok Hpause Hroom) as (d1 & r & -> & Hok1 & Hf & Ht & Hr). cbn [mbind res_bind].
  destruct r as [[t i]|[[t i] de]].
  - destruct Hr as (Hn & Hp & Htt & Hi & b & de & Hb & Hfind & Hkv).
    destruct (no_value ty) eqn:Hnv; cbn [negb]; [by eexists _, true|].
    destruct (setVal_spec d1 key val t i de Hok1 Hnv Htt Hi) as (d2 & rest & -> & Hp1 & Hp2 & Hs2 & [Hf1 Hf2] & Ht2); [by exists b|].
    cbn [mbind res_bind]. eexists _, true. split; [done|].
    split; [rewrite Hkv in Hp1; by eapply replaced_ok|]. split; [destruct Hf; split; congruence|].
    split; [by apply Ht2|]. split; [done|]. rewrite Hp2. constructor.
    apply (Permutation_cons_inv (a := (key, None))). by rewrite <- Hp, Hp1, Hkv.
  - destruct Hr as (Hp & (_ & _ & Hk & _) & Hin). eexists _, false. split; [done|]. split_and!; try done; [by destruct Hf..|].
    apply (list_elem_of_fmap_2 fst) in Hin. by rewrite <- Hk.
Qed.

Lemma dictReplace_spec (d : dict) key val :
  dict_ok d -> no_value ty = false -> pauseAutoResize d <= 0 \/ table_ok (ht0 d) -> zlen (contents d) < max_entries ->
  exists d' r, dictReplace ty dict_can_resize d key val = Ok (d', r) /\ dict_ok d' /\ same_flags d d' /\ table_ok (ht0 d') /\
  if r then (key ∉ (contents d).*1) /\ contents d' ≡ₚ (key, Some val) :: contents d
  else exists v rest, contents d ≡ₚ (key, v) :: rest /\ contents d' ≡ₚ (key, Some val) :: rest.
Proof.
  intros Hok Hnv Hpause Hroom. unfold dictReplace.
  destruct (addRaw_spec d key Hok Hpause Hroom) as (d1 & r & -> & Hok1 & [Hf1 Hf2] & Ht & Hr). cbn [mbind res_bind].
  destruct r as [[t i]|[[t i] de]].
  - destruct Hr as (Hn & Hp & Htt & Hi & b & de & Hb & Hfind & Hkv).
    destruct (setVal_spec d1 key val t i de Hok1 Hnv Htt Hi) as (d2 & rest & -> & Hp1 & Hp2 & Hs2 & [Hf1' Hf2'] & Ht2); [by exists b|].
    cbn [mbind res_bind]. eexists _, true. split; [done|].
    split; [rewrite Hkv in Hp1; by eapply replaced_ok|]. split; [split; congruence|].
    split; [by apply Ht2|]. split; [done|]. rewrite Hp2. constructor.
    apply (Permutation_cons_inv (a := (key, None))). by rewrite <- Hp, Hp1, Hkv.
  - destruct Hr as (Hp & (Htt & Hi & Hk & b & Hb & Hfind) & Hin). rewrite Hk.
    destruct (setVal_spec d1 key val t i de Hok1 Hnv Htt Hi) as (d2 & rest & -> & Hp1 & Hp2 & Hs2 & [Hf1' Hf2'] & Ht2); [by exists b|].
    assert (Hkv : kv de = (key, de_val de)) by (unfold kv; by rewrite Hk). rewrite Hkv in Hp1.
    cbn [mbind res_bind]. eexists _, false. split; [done|].
    split; [by eapply replaced_ok|]. split; [split; congruence|].
    split; [by apply Ht2|]. exists (de_val de), rest. split; [by rewrite <- Hp|done].
Qed.

Lemma chain_remove_spec key (b : chain) de :
  chain_find ty key b = Some de ->
  (kv <$> b) ≡ₚ kv de :: (kv <$> chain_remove ty key b) /\ zlen b = 1 + zlen (chain_remove ty key b).
Proof.
  induction b as [|e b IH]; cbn; [done|]. destruct (keyCompare ty key (de_key e)).
  - intros [= ->]. by rewrite zlen_cons.
  - intros [Hp Hl]%IH. cbn. rewrite !zlen_cons. split; [|lia]. rewrite Hp. apply Permutation_swap.
Qed.

Lemma chain_remove_ok key exp i (b : chain) : bucket_ok exp i b -> bucket_ok exp i (chain_remove ty key b).
Proof.
  induction 1 as [|e b He Hb IH]; cbn; [constructor|]. destruct (keyCompare ty key (de_key e)); [done|by constructor].
Qed.

(** Unlinking the entry a search has found. *)
Lemma unlink_found (d : dict) key t i de :
  dict_ok d -> found_at d key t i de ->
  exists b t', get_bucket (tbl d t) i = Ok b /\
    set_bucket (tbl d t) i (chain_remove ty key b) = Ok t' /\
    u64 (ht_used t' - 1) = ht_used (tbl d t) - 1 /\
    let d' := set_tbl d t (set_used t' (ht_used (tbl d t) - 1)) in
    contents d ≡ₚ kv de :: contents d' /\ dict_ok d' /\ same_flags d d' /\ (table_ok (ht0 d) -> table_ok (ht0 d')).
Proof.
  intros Hok (Ht & -> & Hk & b & Hb & Hf). pose proof Ht as (He & _ & _ & Hbs). set (i := slot _ _) in *.
  assert (Hi : 0 <= i < 2 ^ ht_size_exp (tbl d t)) by (apply slot_range; lia).
  destruct (get_bucket_spec (tbl d t) i Ht Hi) as (b0 & Hg & Hb0). assert (b0 = b) as -> by congruence.
  destruct (chain_remove_spec key b de Hf) as [Hp Hl].
  destruct (dict_set_bucket d t i b (chain_remove ty key b) Ht Hi Hb) as (Hs & Hfl & H0 & rest & Hr & Hr').
  { by apply chain_remove_ok, Hbs. }
  { apply Hok. }
  { intros ->. done. }
  pose proof (used_tbl_bounds d t Hok Ht) as Hu.
  assert (Hpos : 0 < ht_used (tbl d t)).
  { rewrite (used_kvs _ Ht). destruct (concat_bucket _ _ _ Hb) as (rest' & Hp' & _). unfold ht_kvs.
    rewrite zlen_fmap, (zlen_perm _ _ Hp'), zlen_app. pose proof (zlen_nonneg rest').
    pose proof (zlen_nonneg (chain_remove ty key b)). lia. }
  eexists b, _. split; [done|]. split; [by apply set_bucket_spec|]. cbn [ht_used]. split; [apply wrapu_small; lia|].
  cbv zeta in *. unfold set_used. cbn [ht_table ht_size_exp].
  replace (ht_used (tbl d t) + zlen (chain_remove ty key b) - zlen b) with (ht_used (tbl d t) - 1) in * by lia.
  assert (Hcont : contents d ≡ₚ kv de :: contents (set_tbl d t {| ht_table := <[Z.to_nat i := chain_remove ty key b]> (ht_table (tbl d t));
    ht_size_exp := ht_size_exp (tbl d t); ht_used := ht_used (tbl d t) - 1 |})) by by rewrite Hr, Hr', Hp.
  split; [done|]. split; [by eapply removed_ok|]. done.
Qed.

Lemma dictGenericDelete_spec (d : dict) key :
  dict_ok d -> exists d' r, dictGenericDelete ty dict_can_resize d key = Ok (d', r) /\ dict_ok d' /\ same_flags d d' /\
  (table_ok (ht0 d) -> table_ok (ht0 d')) /\
  match r with
  | Some de => de_key de = key /\ contents d ≡ₚ kv de :: contents d'
  | None => (key ∉ (contents d).*1) /\ contents d' ≡ₚ contents d
  end.
Proof.
  intros Hok. unfold dictGenericDelete. destruct (Z.eqb_spec (dictSize d) 0) as [Hz|Hz].
  { exists d, None. split_and!; try done. rewrite dictSize_spec in Hz by done.
    apply zlen_nil_inv in Hz as ->. apply not_elem_of_nil. }
  pose proof (nonempty_table d Hok Hz) as H0. fold (slot (ht_size_exp (ht0 d)) (hashFunction ty key)).
  destruct (lookup_rehash_moves d key Hok) as (d1 & -> & Hm). cbn [mbind res_bind].
  pose proof (moves_ok d d1 Hok Hm) as Hok1. pose proof Hm as (Hp & [Hf1 Hf2] & Ht & _).
  destruct (search_tables_spec d1 key _ Hok1 (lookup_search_pre d d1 key Hok H0 Hm)) as (r & i & -> & Hr).
  cbn [mbind res_bind fst]. destruct r as [[[t j] de]|].
  - destruct Hr as [Hf Hin]. pose proof Hf as (_ & _ & Hk & _).
    destruct (unlink_found d1 key t j de Hok1 Hf) as (b & t' & -> & Hset & Hu & Hc & Hok2 & [Hf1' Hf2'] & Ht2).
    cbn [mbind res_bind]. rewrite Hset. cbn [mbind res_bind]. rewrite Hu. cbv zeta in *.
    destruct (shrinkIfNeeded_auto _ Hok2) as (d3 & -> & Hk3 & Ht3 & _). cbn [mbind res_bind].
    pose proof Hk3 as (Hp3 & [Hf1'' Hf2''] & _). eexists _, _. split; [done|]. split; [by eapply keeps_ok|].
    split; [split; congruence|]. split; [by auto|]. split; [done|]. by rewrite Hp3, <- Hc, Hp.
  - destruct Hr as [Hn _]. eexists _, _. split; [done|]. split; [done|]. split; [by split|]. split; [done|].
    split; [by rewrite <- (keys_perm d d1)|done].
Qed.

(** ** Timed rehashing *)

Lemma dictRehash_progress (d : dict) n :
  dict_ok d -> n <> O -> exists d' r, dictRehash ty dict_can_resize d n = Ok (d', r) /\ moves d d' /\
  (r = true -> rehashing d /\ rehashing d' /\ rehashidx d < rehashidx d') /\
  (r = false -> dict_can_resize = DICT_RESIZE_ENABLE -> stable d').
Proof.
  intros (_ & Hmax & Hs) Hn. unfold dictRehash. destruct (rehash_blocked dict_can_resize d) eqn:Eb.
  { exists d, false. split; [done|]. split; [by apply moves_refl|]. split; [done|]. intros _ Hcan.
    destruct Hs as [|(_ & _ & _ & Hri & _)]; [done|]. unfold rehash_blocked, dictIsRehashing in Eb.
    rewrite Hcan, (proj2 (Z.eqb_neq (rehashidx d) (-1))) in Eb by lia. done. }
  pose proof (rehash_blocked_rehashing d Hs Eb) as Hr.
  destruct (dictRehash_loop_spec n d (i32 (Z.of_nat n * 10)) Hr Hmax) as (d' & r & E & Hm & Hrd & Hlt).
  exists d', r. split; [done|]. split; [done|]. split.
  - intros ->. destruct Hrd as [Hr' _]. split; [done|]. split; [done|]. apply Hlt; try done.
    intros Hu. destruct n; [done|]. cbn [dictRehash_loop] in E. rewrite Hu in E. cbn [Z.eqb] in E.
    unfold dictCheckRehashingCompleted in E. rewrite Hu in E. done.
  - intros -> _. exact Hrd.
Qed.

Lemma rehashMicroseconds_spec fuel elapsed us : forall (d : dict) i n,
  dict_ok d -> (rehashing d -> 2 ^ ht_size_exp (ht0 d) - rehashidx d < Z.of_nat fuel) -> fuel <> O ->
  exists d' n', rehashMicroseconds_loop ty dict_can_resize fuel elapsed us i d n = Ok (d', n') /\ moves d d' /\
  ((forall j, elapsed j < us) -> dict_can_resize = DICT_RESIZE_ENABLE -> stable d').
Proof.
  induction fuel as [|fuel IH]; intros d i n Hok Hfuel Hf; [done|]. cbn [rehashMicroseconds_loop].
  destruct (dictRehash_progress d 100 Hok ltac:(done)) as (d1 & r & -> & Hm & Htrue & Hfalse). cbn [mbind res_bind].
  destruct r; [|eexists _, _; split; [done|]; split; [done|by auto]].
  destruct (Z.leb_spec us (elapsed i)) as [Hle|_].
  { eexists _, _. split; [done|]. split; [done|]. intros Hall. specialize (Hall i). lia. }
  destruct (Htrue eq_refl) as (Hr & Hr1 & Hlt). specialize (Hfuel Hr).
  pose proof Hm as (_ & _ & _ & [Hst|(_ & _ & He)]); [by destruct (stable_not_rehashing d1)|].
  pose proof Hr1 as ((_ & Hlen1 & _) & _ & _ & Hri1 & _). rewrite Hlen1, He in Hri1.
  destruct (IH d1 (S i) (i32 (n + 100))) as (d2 & n2 & -> & Hm2 & Hst2);
    [by eapply moves_ok|intros _; rewrite He; lia|lia|].
  eexists _, _. split; [done|]. split; [by eapply moves_trans|done].
Qed.

Lemma dictRehashMicroseconds_spec elapsed us (d : dict) :
  dict_ok d -> exists d' n, dictRehashMicroseconds ty dict_can_resize elapsed d us = Ok (d', n) /\ moves d d' /\
  (pauserehash d <= 0 -> (forall j, elapsed j < us) -> dict_can_resize = DICT_RESIZE_ENABLE -> stable d').
Proof.
  intros Hok. unfold dictRehashMicroseconds. destruct (Z.ltb_spec 0 (pauserehash d)).
  - exists d, 0. split; [done|]. split; [apply moves_refl, Hok|lia].
  - destruct (rehashMicroseconds_spec (S (S (length (ht_table (ht0 d))))) elapsed us d 0 0 Hok)
      as (d' & n & -> & Hm & Hst); [|done|exists d', n; auto].
    intros ((_ & Hlen & _) & _ & _ & Hri & _). unfold zlen in Hlen. rewrite <- Hlen. lia.
Qed.

(** ** Two-phase unlink *)

Lemma twoPhaseFind_spec (d : dict) key :
  dict_ok d -> exists d' r, dictTwoPhaseUnlinkFind ty dict_can_resize d key = Ok (d', r) /\
  match r with
  | Some (t, i, de) => exists d1, d' = dictPauseRehashing d1 /\ moves d d1 /\ dict_ok d1 /\ found_at d1 key t i de /\
                       kv de ∈ contents d
  | None => keeps d d' /\ key ∉ (contents d).*1
  end.
Proof.
  intros Hok. unfold dictTwoPhaseUnlinkFind. destruct (Z.eqb_spec (dictSize d) 0) as [Hz|Hz].
  { exists d, None. split; [done|]. split; [by apply keeps_refl|]. rewrite dictSize_spec in Hz by done.
    apply zlen_nil_inv in Hz as ->. apply not_elem_of_nil. }
  pose proof (nonempty_table d Hok Hz) as H0.
  assert (Hstep : exists d1, (if dictIsRehashing d then _dictRehashStep ty dict_can_resize d else Ok d) = Ok d1 /\ moves d d1).
  { destruct (dictIsRehashing d); [by apply rehashStep_moves|]. exists d. split; [done|apply moves_refl, Hok]. }
  destruct Hstep as (d1 & -> & Hm). cbn [mbind res_bind]. fold (slot (ht_size_exp (ht0 d1)) (hashFunction ty key)).
  pose proof (moves_ok d d1 Hok Hm) as Hok1. pose proof Hm as (Hp & _ & Ht & _). specialize (Ht H0).
  destruct (search_tables_spec d1 key _ Hok1 (lookup_search_pre d1 d1 key Hok1 Ht (moves_refl d1 (proj2 (proj2 Hok1)))))
    as (r & i & -> & Hr). cbn [mbind res_bind fst].
  destruct r as [[[t j] de]|]; eexists _, _; (split; [done|]).
  - destruct Hr as [Hf Hin]. exists d1. split; [done|]. split; [done|]. split; [done|]. split; [done|]. by rewrite <- Hp.
  - destruct Hr as [Hn _]. split; [by apply moves_keeps|]. by rewrite <- (keys_perm d d1).
Qed.

Lemma set_pause_ok (d : dict) n : dict_ok (set_pauserehash d n) <-> dict_ok d.
Proof. done. Qed.

Lemma twoPhaseFree_spec (d : dict) key t i de :
  dict_ok d -> found_at d key t i de -> 0 <= pauserehash d < 2 ^ 15 - 1 ->
  exists d', dictTwoPhaseUnlinkFree ty dict_can_resize (dictPauseRehashing d) (Some (t, i, de)) = Ok d' /\
  dict_ok d' /\ contents d ≡ₚ kv de :: contents d' /\ same_flags d d'.
Proof.
  intros Hok Hf Hpr. pose proof Hf as (_ & _ & Hk & _).
  destruct (unlink_found d key t i de Hok Hf) as (b & t' & Hg & Hset & Hu & Hc & Hok' & [Hf1 Hf2] & _). cbv zeta in *.
  unfold dictTwoPhaseUnlinkFree, dictPauseRehashing. rewrite wrapu_small by lia.
  assert (Htb : tbl (set_pauserehash d (pauserehash d + 1)) t = tbl d t) by by destruct t. rewrite Htb.
  assert (Ht : tbl (set_tbl (set_pauserehash d (pauserehash d + 1)) t (set_used (tbl d t) (u64 (ht_used (tbl d t) - 1)))) t
    = set_used (tbl d t) (u64 (ht_used (tbl d t) - 1))) by by destruct t. rewrite Ht.
  change (get_bucket (set_used (tbl d t) _) i) with (get_bucket (tbl d t) i). rewrite Hg, Hk. cbn [mbind res_bind].
  unfold set_bucket in *. change (ht_table (set_used (tbl d t) _)) with (ht_table (tbl d t)).
  destruct (_ && _); [|done]. injection Hset as <-. cbn [mbind res_bind]. cbn [ht_used] in Hu.
  cbn [set_used ht_used ht_size_exp ht_table]. rewrite Hu. cbv zeta.
  set (d2 := set_tbl d t _) in *.
  match goal with |- context [_dictShrinkIfNeeded _ _ ?x] => assert (E : x = set_pauserehash d2 (pauserehash d + 1)) end.
  { unfold d2. by destruct t. }
  rewrite E. destruct (shrinkIfNeeded_auto (set_pauserehash d2 (pauserehash d + 1))) as (d3 & -> & Hk3 & _).
  { by apply set_pause_ok. }
  cbn [mbind res_bind]. eexists. split; [done|]. pose proof (keeps_ok _ _ (proj2 (set_pause_ok d2 (pauserehash d + 1)) Hok') Hk3) as Hok3.
  destruct Hk3 as (Hp3 & [Hf1' Hf2'] & _). unfold dictResumeRehashing. split; [by apply set_pause_ok|]. split.
  - change (contents (set_pauserehash d3 _)) with (contents d3). rewrite Hp3. exact Hc.
  - cbn in Hf1', Hf2'. split; cbn; [rewrite Hf1', wrapu_small; cbn; lia|congruence].
Qed.

End theory.

End DictTheory.
