(* ===== verification/DictSpec.v ===== *)
(** * Hash tables: refinement to finite maps.

    The abstract dictionary is a finite map from keys to optional values (sets
    store no value).  Any sequence of operations of dict.c, with resizing
    enabled, avoided or forbidden at each step, gives the answers of the map:
    rehashing, growing and shrinking are invisible.  Timed rehashing completes
    when the clock allows, and a two-phase unlink removes what it found. *)

From stdpp Require Import gmap.
From S2P Require Import Prelude Dict DictTheory.
#[local] Open Scope Z_scope.

Module DictSpec.
Import Dict DictTheory.

Section spec.
Context `{Countable K} {V : Type}.
Context (ty : @dictType K) {Hty : DictTypeOk ty}.
#[local] Abbreviation dict := (@dict K V).

Definition dict_map (d : dict) : gmap K (option V) := list_to_map (contents d).

(** ** The map of the contents *)

Lemma map_perm (d d' : dict) : dict_ok ty d -> contents d' ≡ₚ contents d -> dict_map d' = dict_map d.
Proof. intros (Hnd & _) Hp. symmetry. by apply list_to_map_proper. Qed.

Lemma map_found (d : dict) k v : dict_ok ty d -> (k, v) ∈ contents d -> dict_map d !! k = Some v.
Proof. intros (Hnd & _) Hin. by apply elem_of_list_to_map. Qed.

Lemma map_absent (d : dict) k : k ∉ (contents d).*1 -> dict_map d !! k = None.
Proof. apply not_elem_of_list_to_map_1. Qed.

Lemma map_present (d : dict) k : k ∈ (contents d).*1 -> is_Some (dict_map d !! k).
Proof.
  intros Hin. destruct (dict_map d !! k) eqn:E; [done|]. by apply not_elem_of_list_to_map_2 in E.
Qed.

Lemma map_cons (d : dict) k v rest :
  dict_ok ty d -> contents d ≡ₚ (k, v) :: rest -> dict_map d = <[k := v]> (list_to_map rest).
Proof. intros (Hnd & _) Hp. unfold dict_map. by rewrite (list_to_map_proper _ _ Hnd Hp). Qed.

Lemma map_removed (d d' : dict) k v :
  dict_ok ty d -> contents d ≡ₚ (k, v) :: contents d' ->
  dict_map d !! k = Some v /\ dict_map d' = delete k (dict_map d).
Proof.
  intros Hok Hp. pose proof (map_cons d k v _ Hok Hp) as ->. rewrite lookup_insert_eq. split; [done|].
  fold (dict_map d'). rewrite delete_insert_eq, delete_id; [done|]. apply map_absent.
  destruct Hok as (Hnd & _). rewrite Hp in Hnd. cbn in Hnd. by apply list.NoDup_cons in Hnd as [? _].
Qed.

Lemma map_size (d : dict) : dict_ok ty d -> dictSize d = Z.of_nat (size (dict_map d)).
Proof.
  intros Hok. rewrite (dictSize_spec ty) by done. destruct Hok as (Hnd & _).
  rewrite <- length_map_to_list. unfold dict_map. by rewrite (Permutation_length (map_to_list_to_map _ Hnd)).
Qed.

(** ** Operations and their meaning on maps *)

Inductive dict_op : Type :=
  | Add (k : K) (v : V)
  | Replace (k : K) (v : V)
  | Delete (k : K)
  | Unlink (k : K)
  | TwoPhaseUnlink (k : K)
  | Find (k : K)
  | FetchValue (k : K)
  | Rehash (n : nat)
  | RehashMicroseconds (elapsed : nat -> Z) (us : Z)
  | Expand (sz : Z)
  | ShrinkIfNeeded
  | Empty.

Inductive answer : Type :=
  | AUnit
  | ABool (b : bool)
  | AFound (v : option (option V))
  | AVal (v : option V).

Definition found (de : option (@dictEntry K V)) : option (option V) := de_val <$> de.

Definition run_op (can : dictResizeEnable) (op : dict_op) (d : dict) : res (dict * answer) :=
  match op with
  | Add k v => r ← dictAdd ty can d k v; Ok (fst r, ABool (snd r))
  | Replace k v => r ← dictReplace ty can d k v; Ok (fst r, ABool (snd r))
  | Delete k => r ← dictDelete ty can d k; Ok (fst r, ABool (snd r))
  | Unlink k => r ← dictUnlink ty can d k; Ok (fst r, AFound (found (snd r)))
  | TwoPhaseUnlink k =>
    r ← dictTwoPhaseUnlinkFind ty can d k;
    d ← dictTwoPhaseUnlinkFree ty can (fst r) (snd r);
    Ok (d, AFound (found (snd <$> snd r)))
  | Find k => r ← dictFind ty can d k; Ok (fst r, AFound (found (snd r)))
  | FetchValue k => r ← dictFetchValue ty can d k; Ok (fst r, AVal (snd r))
  | Rehash n => r ← dictRehash ty can d n; Ok (fst r, AUnit)
  | RehashMicroseconds elapsed us => r ← dictRehashMicroseconds ty can elapsed d us; Ok (fst r, AUnit)
  | Expand sz => r ← dictExpand d sz; Ok (fst r, AUnit)
  | ShrinkIfNeeded => r ← dictShrinkIfNeeded ty can d; Ok (fst r, AUnit)
  | Empty => Ok (dictEmpty d, AUnit)
  end.

Definition spec_op (op : dict_op) (m : gmap K (option V)) : gmap K (option V) * answer :=
  match op with
  | Add k v => if decide (is_Some (m !! k)) then (m, ABool false) else (<[k := stored ty v]> m, ABool true)
  | Replace k v => (<[k := Some v]> m, ABool (bool_decide (m !! k = None)))
  | Delete k => (delete k m, ABool (bool_decide (is_Some (m !! k))))
  | Unlink k | TwoPhaseUnlink k => (delete k m, AFound (m !! k))
  | Find k => (m, AFound (m !! k))
  | FetchValue k => (m, AVal (mjoin (m !! k)))
  | Rehash _ | RehashMicroseconds _ _ | Expand _ | ShrinkIfNeeded => (m, AUnit)
  | Empty => (∅, AUnit)
  end.

(** What a caller must respect: values are written and fetched only where the
    type has them ([dictSetVal] and [dictGetVal] assert it), and [dictExpand] asked for a size that can exist. *)
Definition op_ok (op : dict_op) : Prop :=
  match op with
  | Replace _ _ | FetchValue _ => no_value ty = false
  | Expand sz => 0 <= sz <= 2 ^ 60
  | _ => True
  end.

Fixpoint run (ops : list (dictResizeEnable * dict_op)) (d : dict) : res (dict * list answer) :=
  match ops with
  | [] => Ok (d, [])
  | (can, op) :: ops =>
    r ← run_op can op d;
    s ← run ops (fst r);
    Ok (fst s, snd r :: snd s)
  end.

Fixpoint spec_run (ops : list (dictResizeEnable * dict_op)) (m : gmap K (option V))
  : gmap K (option V) * list answer :=
  match ops with
  | [] => (m, [])
  | (_, op) :: ops =>
    let r := spec_op op m in
    let s := spec_run ops (fst r) in
    (fst s, snd r :: snd s)
  end.

(** ** Simulation *)

(** The state between operations: nothing is paused. *)
Definition ready (d : dict) : Prop := dict_ok ty d /\ pauserehash d = 0 /\ pauseAutoResize d = 0.

(** One operation simulates its meaning and adds at most one entry. *)
Definition simulates (can : dictResizeEnable) (op : dict_op) (d : dict) : Prop :=
  exists d' a, run_op can op d = Ok (d', a) /\ ready d' /\ spec_op op (dict_map d) = (dict_map d', a) /\
  zlen (contents d') <= zlen (contents d) + 1.

Lemma ready_flags (d d' : dict) : ready d -> dict_ok ty d' -> same_flags d d' -> ready d'.
Proof. intros (_ & Hp & Ha) Hok [Hf1 Hf2]. split; [done|]. split; congruence. Qed.

(** The part all operations share that keep the contents. *)
Lemma keeps_simulates can op (d d' : dict) a :
  ready d -> run_op can op d = Ok (d', a) -> keeps ty d d' -> spec_op op (dict_map d) = (dict_map d, a) ->
  simulates can op d.
Proof.
  intros Hr Hrun Hk Hspec. pose proof Hr as (Hok & _). pose proof Hk as (Hp & Hf & _).
  exists d', a. split; [done|]. split; [eapply ready_flags; [done|by eapply keeps_ok|done]|].
  rewrite (map_perm d d' Hok Hp). split; [done|]. rewrite (zlen_perm _ _ Hp). lia.
Qed.

Lemma removed_len (d d' : dict) kvp : contents d ≡ₚ kvp :: contents d' -> zlen (contents d') <= zlen (contents d) + 1.
Proof. intros Hp. rewrite (zlen_perm _ _ Hp), zlen_cons. lia. Qed.

Lemma add_simulates can k v (d : dict) :
  ready d -> zlen (contents d) < max_entries -> simulates can (Add k v) d.
Proof.
  intros Hr Hroom. pose proof Hr as (Hok & Hpr & Hpa).
  destruct (dictAdd_spec ty can d k v Hok ltac:(left; lia) Hroom) as (d' & r & E & Hok' & Hf & _ & Hres).
  exists d', (ABool r). cbn. rewrite E. split; [done|]. split; [by eapply ready_flags|]. destruct r.
  - destruct Hres as [Hn Hp]. rewrite (map_cons d' _ _ _ Hok' Hp). rewrite decide_False.
    2: { rewrite (map_absent d k Hn). by intros [? ?]. }
    split; [done|]. rewrite (zlen_perm _ _ Hp), zlen_cons. lia.
  - destruct Hres as [Hin Hp]. rewrite decide_True by by apply map_present.
    rewrite (map_perm d d' Hok Hp). split; [done|]. rewrite (zlen_perm _ _ Hp). lia.
Qed.

Lemma replace_simulates can k v (d : dict) :
  ready d -> no_value ty = false -> zlen (contents d) < max_entries -> simulates can (Replace k v) d.
Proof.
  intros Hr Hnv Hroom. pose proof Hr as (Hok & Hpr & Hpa).
  destruct (dictReplace_spec ty can d k v Hok Hnv ltac:(left; lia) Hroom) as (d' & r & E & Hok' & Hf & _ & Hres).
  exists d', (ABool r). cbn. rewrite E. split; [done|]. split; [by eapply ready_flags|]. destruct r.
  - destruct Hres as [Hn Hp]. rewrite (map_cons d' _ _ _ Hok' Hp), (map_absent d k Hn).
    split; [done|]. rewrite (zlen_perm _ _ Hp), zlen_cons. lia.
  - destruct Hres as (v0 & rest & Hp & Hp'). rewrite (map_cons d' _ _ _ Hok' Hp'), (map_cons d _ _ _ Hok Hp).
    rewrite lookup_insert_eq, insert_insert_eq. split; [done|].
    rewrite (zlen_perm _ _ Hp), (zlen_perm _ _ Hp'), !zlen_cons. lia.
Qed.

(** What removing does to the map, for the answer of the search. *)
Lemma removed_map (d d' : dict) k (r : option dictEntry) :
  dict_ok ty d ->
  match r with
  | Some de => de_key de = k /\ contents d ≡ₚ kv de :: contents d'
  | None => (k ∉ (contents d).*1) /\ contents d' ≡ₚ contents d
  end ->
  dict_map d !! k = found r /\ dict_map d' = delete k (dict_map d) /\ zlen (contents d') <= zlen (contents d) + 1.
Proof.
  intros Hok Hres. destruct r as [de|]; destruct Hres as [Hk Hp].
  - unfold kv in Hp. rewrite Hk in Hp. destruct (map_removed d d' _ _ Hok Hp) as [Hl Hd].
    split; [done|]. split; [done|by eapply removed_len].
  - rewrite (map_perm d d' Hok Hp), delete_id by by apply map_absent. split; [by apply map_absent|].
    split; [done|]. rewrite (zlen_perm _ _ Hp). lia.
Qed.

Lemma delete_simulates can k (d : dict) : ready d -> simulates can (Delete k) d /\ simulates can (Unlink k) d.
Proof.
  intros Hr. pose proof Hr as (Hok & _).
  destruct (dictGenericDelete_spec ty can d k Hok) as (d' & r & E & Hok' & Hf & _ & Hres).
  destruct (removed_map d d' k r Hok Hres) as (Hl & Hd & Hlen). pose proof (ready_flags d d' Hr Hok' Hf).
  split; eexists d', _; cbn; unfold dictDelete, dictUnlink; rewrite E; (split; [done|]);
    rewrite Hl, Hd; split_and!; try done; by destruct r.
Qed.

Lemma two_phase_simulates can k (d : dict) : ready d -> simulates can (TwoPhaseUnlink k) d.
Proof.
  intros Hr. pose proof Hr as (Hok & Hpr & _).
  destruct (twoPhaseFind_spec ty can d k Hok) as (d1 & r & E & Hres). destruct r as [[[t i] de]|].
  - destruct Hres as (d0 & -> & Hm & Hok0 & Hf & Hin). pose proof Hf as (_ & _ & Hk & _).
    pose proof Hm as (Hp & [Hf1 Hf2] & _).
    destruct (twoPhaseFree_spec ty can d0 k t i de Hok0 Hf ltac:(lia)) as (d2 & E2 & Hok2 & Hc & [Hf1' Hf2']).
    destruct (removed_map d d2 k (Some de) Hok) as (Hl & Hd & Hlen); [by rewrite <- Hp|].
    eexists d2, _. cbn. rewrite E. cbn [mbind res_bind fst snd]. rewrite E2. split; [done|].
    rewrite Hl, Hd. split; [|done]. eapply ready_flags; [done|done|]. split; congruence.
  - destruct Hres as [Hk Hn]. eapply (keeps_simulates can _ d d1); [done|cbn; by rewrite E|done|].
    cbn. by rewrite (map_absent d k Hn), delete_id by by apply map_absent.
Qed.

(** [dictFetchValue] on every branch: an absent key, a stored value, and the
    failed assertion of [dictGetVal] where the type has no values. *)
Lemma dictFetchValue_spec can k (d : dict) : dict_ok ty d ->
  match dict_map d !! k with
  | None => exists d', dictFetchValue ty can d k = Ok (d', None) /\ keeps ty d d'
  | Some v => if no_value ty then dictFetchValue ty can d k = Fault AssertFailed
              else exists d', dictFetchValue ty can d k = Ok (d', v) /\ keeps ty d d'
  end.
Proof.
  intros Hok. destruct (dictFind_spec ty can d k Hok) as (d' & r & E & Hk & He & Hres).
  unfold dictFetchValue. rewrite E. cbn [mbind res_bind fst snd]. destruct r as [de|].
  - destruct Hres as [<- Hin]. rewrite (map_found d _ _ Hok Hin). unfold dictGetVal.
    rewrite (entry_has_value ty de (He de eq_refl)). destruct (no_value ty); [done|by eexists].
  - rewrite (map_absent d k Hres). by eexists.
Qed.

Lemma fetch_simulates can k (d : dict) : ready d -> no_value ty = false -> simulates can (FetchValue k) d.
Proof.
  intros Hr Hnv. pose proof Hr as (Hok & _). pose proof (dictFetchValue_spec can k d Hok) as Hf. rewrite Hnv in Hf.
  destruct (dict_map d !! k) as [v|] eqn:Hl; destruct Hf as (d' & E & Hk);
    (eapply (keeps_simulates can _ d d'); [done|cbn; by rewrite E|done|cbn; by rewrite Hl]).
Qed.

Lemma find_simulates can k (d : dict) : ready d -> simulates can (Find k) d.
Proof.
  intros Hr. pose proof Hr as (Hok & _).
  destruct (dictFind_spec ty can d k Hok) as (d' & r & E & Hk & _ & Hres).
  assert (Hl : dict_map d !! k = found r).
  { destruct r as [de|]; [|by apply map_absent]. destruct Hres as [<- Hin]. by apply map_found. }
  eapply (keeps_simulates can _ d d'); [done|cbn; by rewrite E|done|]. cbn. by rewrite Hl.
Qed.

Lemma run_op_simulates can op (d : dict) :
  ready d -> zlen (contents d) < max_entries -> op_ok op -> simulates can op d.
Proof.
  intros Hr Hroom Hop. pose proof Hr as (Hok & Hpr & Hpa).
  destruct op as [k v|k v|k|k|k|k|k|n|el us|sz| |].
  - by apply add_simulates.
  - by apply replace_simulates.
  - by apply delete_simulates.
  - by apply delete_simulates.
  - by apply two_phase_simulates.
  - by apply find_simulates.
  - by apply fetch_simulates.
  - destruct (dictRehash_moves ty can d n Hok) as (d' & r & E & Hm).
    eapply (keeps_simulates can _ d d'); [done|cbn; by rewrite E|by apply moves_keeps|done].
  - destruct (dictRehashMicroseconds_spec ty can el us d Hok) as (d' & r & E & Hm & _).
    eapply (keeps_simulates can _ d d'); [done|cbn; by rewrite E|by apply moves_keeps|done].
  - destruct (expand_any ty d sz Hok Hop) as (d' & ok & E & Hk).
    eapply (keeps_simulates can _ d d'); [done|cbn; by rewrite E|done|done].
  - destruct (shrinkIfNeeded_resizes ty can d Hok) as (d' & r & E & Hk & _).
    eapply (keeps_simulates can _ d d'); [done|cbn; by rewrite E|done|done].
  - eexists (dictEmpty d), AUnit. split; [done|]. pose proof (zlen_nonneg (contents d)).
    change (contents (dictEmpty d)) with (@nil (K * option V)). split; [|split; [done|rewrite zlen_nil; lia]].
    split; [|done]. split; [constructor|]. split; [by cbn|]. left. split; [done|]. split; [done|by left].
Qed.

Lemma run_simulates ops : forall (d : dict),
  ready d -> Forall op_ok ops.*2 -> zlen (contents d) + zlen ops <= max_entries ->
  exists d' answers, run ops d = Ok (d', answers) /\ ready d' /\ spec_run ops (dict_map d) = (dict_map d', answers).
Proof.
  induction ops as [|[can op] ops IH]; intros d Hr Hops Hroom; [by exists d, []|].
  cbn in Hops. apply Forall_cons_1 in Hops as [Hop Hops]. rewrite zlen_cons in Hroom. pose proof (zlen_nonneg ops).
  destruct (run_op_simulates can op d Hr ltac:(lia) Hop) as (d1 & a & E & Hr1 & Hs & Hlen).
  destruct (IH d1 Hr1 Hops ltac:(lia)) as (d2 & answers & E2 & Hr2 & Hs2).
  exists d2, (a :: answers). cbn. rewrite E. cbn [mbind res_bind fst snd]. rewrite E2. split; [done|].
  split; [done|]. rewrite Hs. cbn [fst snd]. by rewrite Hs2.
Qed.

Lemma ready_create : ready dictCreate.
Proof.
  split; [|done]. split; [constructor|]. split; [by cbn|]. left. split; [done|]. split; [done|by left].
Qed.

End spec.

(** ** Results *)

(** C1. From an empty dict, any sequence of dict.c operations ([op_ok]: values
    are replaced and fetched only in dicts whose type has values, an explicit
    expansion asks for at most 2^60 buckets), with any resize policy at each
    step, runs without fault and gives exactly the
    answers of the same sequence on a finite map: adding reports an existing
    key and keeps its value, replacing overwrites, deletes and unlinks return
    the removed value, lookups the stored one, and rehashing, resizing and
    shrinking are invisible; [dictSize] is the number of keys. *)
Theorem dict_refines_map `{Countable K} {V : Type} (ty : @dictType K) {Hty : DictTypeOk ty}
    (ops : list (dictResizeEnable * @dict_op K V)) :
  Forall (op_ok ty) ops.*2 -> zlen ops <= max_entries ->
  exists d answers, run ty ops dictCreate = Ok (d, answers) /\
    spec_run ty ops ∅ = (dict_map d, answers) /\ dictSize d = Z.of_nat (size (dict_map d)).
Proof.
  intros Hops Hlen. destruct (run_simulates ty ops dictCreate (ready_create ty) Hops) as (d & a & E & Hr & Hs).
  { change (contents dictCreate) with (@nil (K * option V)). rewrite zlen_nil. lia. }
  exists d, a. split; [done|]. split; [exact Hs|]. apply (map_size ty), Hr.
Qed.

(** A type whose keys are numbers, with a multiplicative hash. *)
Definition numbers : @dictType Z := {|
  hashFunction k := u64 (k * 0x9E3779B97F4A7C15);
  keyCompare := Z.eqb;
  no_value := false;
  keys_are_odd := false;
  odd_key := Z.odd;
  resizeAllowed := None
|}.

#[export] Instance numbers_ok : DictTypeOk numbers.
Proof. split; [apply Z.eqb_eq|intros; by apply wrapu_range|done]. Qed.

Definition sample : list (dictResizeEnable * @dict_op Z Z) :=
  (fun i => (DICT_RESIZE_ENABLE, Add i (i * i))) <$> seqZ 0 9 ++ [3].
Definition sample_end : list (dictResizeEnable * @dict_op Z Z) :=
  [(DICT_RESIZE_AVOID, Replace 4 1); (DICT_RESIZE_FORBID, FetchValue 4); (DICT_RESIZE_ENABLE, Delete 5);
   (DICT_RESIZE_ENABLE, TwoPhaseUnlink 6); (DICT_RESIZE_ENABLE, Find 7); (DICT_RESIZE_ENABLE, Rehash 100)].

Lemma sample_ops_ok : Forall (op_ok numbers) (sample ++ sample_end).*2.
Proof. repeat constructor; vm_compute; congruence. Qed.

Lemma dict_refines_map_witness :
  exists d answers, run numbers (sample ++ sample_end) dictCreate = Ok (d, answers) /\
    spec_run numbers (sample ++ sample_end) ∅ = (dict_map d, answers) /\ dictSize d = Z.of_nat (size (dict_map d)).
Proof. apply (dict_refines_map numbers); [exact sample_ops_ok|vm_compute; congruence]. Defined.

(** The answers of the sample: the tenth [Add] finds its key present. *)
Example sample_answers :
  exists d, run numbers (sample ++ sample_end) dictCreate =
    Ok (d, [ABool true; ABool true; ABool true; ABool true; ABool true; ABool true; ABool true; ABool true;
            ABool true; ABool false; ABool false; AVal (Some 1); ABool true; AFound (Some (Some 36));
            AFound (Some (Some 49)); AUnit]) /\ dictSize d = 7 /\ ht_size_exp (ht0 d) = 4.
Proof. eexists. split; [vm_compute; reflexivity|]. split; reflexivity. Qed.

(** C25. Rehashing terminates and loses nothing: [dictRehashMicroseconds]
    always returns, keeps the entries, and when the time does not run out and
    resizing is enabled and not paused it leaves one table. *)
Theorem dictRehash_completes {K V : Type} (ty : @dictType K) {Hty : DictTypeOk ty} can elapsed us (d : @dict K V) :
  dict_ok ty d ->
  exists d' n, dictRehashMicroseconds ty can elapsed d us = Ok (d', n) /\ dict_ok ty d' /\
    contents d' ≡ₚ contents d /\
    (pauserehash d = 0 -> (forall j, elapsed j < us) -> can = DICT_RESIZE_ENABLE -> dictIsRehashing d' = false).
Proof.
  intros Hok. destruct (dictRehashMicroseconds_spec ty can elapsed us d Hok) as (d' & n & E & Hm & Hst).
  exists d', n. split; [done|]. split; [by eapply moves_ok|]. split; [apply Hm|]. intros Hp Hel Hcan.
  destruct (Hst ltac:(lia) Hel Hcan) as (Hri & _). unfold dictIsRehashing. by rewrite Hri.
Qed.

Definition sample_dict : @dict Z Z :=
  match run numbers sample dictCreate with Ok r => fst r | Fault _ => dictCreate end.

Lemma sample_dict_ok : ready numbers sample_dict.
Proof.
  destruct (run_simulates numbers sample dictCreate (ready_create numbers)) as (d & a & E & Hr & _).
  - repeat constructor.
  - vm_compute. congruence.
  - unfold sample_dict. by rewrite E.
Qed.

Lemma dictRehash_completes_witness :
  dictIsRehashing sample_dict = true /\
  exists d' n, dictRehashMicroseconds numbers DICT_RESIZE_ENABLE (fun _ => 5) sample_dict 1000 = Ok (d', n) /\
    dict_ok numbers d' /\ contents d' ≡ₚ contents sample_dict /\
    (pauserehash sample_dict = 0 -> (forall j, (fun _ : nat => 5) j < 1000) ->
     DICT_RESIZE_ENABLE = DICT_RESIZE_ENABLE -> dictIsRehashing d' = false).
Proof.
  split; [vm_compute; reflexivity|]. apply (dictRehash_completes numbers); apply sample_dict_ok.
Defined.

End DictSpec.
