(* ===== verification/DictScan.v ===== *)
(** * Hash tables: the scan cursor.

    [dictScan] keeps no state but the cursor, and the table may be resized
    between the calls.  Read with its bits reversed, the cursor is a position
    on a line of 2^64 points on which every table size cuts blocks of equal
    hashes: a call reports every element from the position to the next one, so
    a full scan reports every element that stays in the dict throughout. *)

From stdpp Require Import gmap.
From S2P Require Import Prelude Dict DictTheory DictSpec.
#[local] Open Scope Z_scope.

Module DictScan.
Import Dict DictTheory DictSpec.

(** ** Bit reversal *)

(** The six rounds of [rev]: the distance and the mask of each. *)
Definition rev_rounds : list (Z * Z) :=
  [(32, 0x00000000ffffffff); (16, 0x0000ffff0000ffff); (8, 0x00ff00ff00ff00ff);
   (4, 0x0f0f0f0f0f0f0f0f); (2, 0x3333333333333333); (1, 0x5555555555555555)].

Definition round (v : Z) (sm : Z * Z) : Z :=
  let '(s, m) := sm in Z.lor (Z.land (Z.shiftr v s) m) (Z.land (u64 (Z.shiftl v s)) (u64 (Z.lnot m))).

Lemma rev_rounds_eq v : rev v = fold_left round rev_rounds v.
Proof. reflexivity. Qed.

(** The bit of its argument that a round puts at [i]. *)
Definition source (sm : Z * Z) (i : Z) : Z := let '(s, m) := sm in if Z.testbit m i then i + s else i - s.

Lemma round_bit v sm i : 0 <= fst sm -> 0 <= i < 64 -> Z.testbit (round v sm) i = Z.testbit v (source sm i).
Proof.
  destruct sm as [s m]. cbn [fst]. intros Hs Hi. unfold round, source. unfold wrapu.
  rewrite Z.lor_spec, !Z.land_spec, Z.shiftr_spec by lia.
  rewrite !Z.mod_pow2_bits_low, Z.shiftl_spec, Z.lnot_spec by lia.
  destruct (Z.testbit m i); cbn; by rewrite ?andb_true_r, ?andb_false_r, ?orb_false_r.
Qed.

Lemma testbit_high x n i : 0 <= x < 2 ^ n -> 0 <= n <= i -> Z.testbit x i = false.
Proof.
  intros Hx Hi. rewrite <- (Z.mod_small x (2 ^ n)) by done. apply Z.mod_pow2_bits_high. lia.
Qed.

Lemma range_bits x n : 0 <= x -> 0 <= n -> (forall i, n <= i -> Z.testbit x i = false) -> x < 2 ^ n.
Proof.
  intros Hx Hn Hb. replace x with (x mod 2 ^ n); [apply Z.mod_pos_bound, Z.pow_pos_nonneg; lia|].
  apply Z.bits_inj'. intros i Hi. destruct (Z.lt_ge_cases i n).
  - by rewrite Z.mod_pow2_bits_low by lia.
  - rewrite Z.mod_pow2_bits_high by lia. symmetry. by apply Hb.
Qed.

Lemma round_range v sm : 0 <= snd sm < 2 ^ 64 -> 0 <= round v sm < 2 ^ 64.
Proof.
  destruct sm as [s m]. cbn [snd]. intros Hm. unfold round.
  assert (0 <= u64 (Z.lnot m)) by (apply wrapu_range; lia).
  assert (Hpos : 0 <= Z.lor (Z.land (Z.shiftr v s) m) (Z.land (u64 (Z.shiftl v s)) (u64 (Z.lnot m)))).
  { apply Z.lor_nonneg. split; apply Z.land_nonneg; right; lia. }
  split; [done|]. apply range_bits; [done|lia|]. intros i Hi.
  rewrite Z.lor_spec, !Z.land_spec, (testbit_high m 64) by lia. unfold wrapu.
  rewrite Z.mod_pow2_bits_high by lia. by rewrite andb_false_r.
Qed.

(** Reversing the bit positions, checked for all 64 of them. *)
Fixpoint sources (rounds : list (Z * Z)) (i : Z) : option Z :=
  match rounds with
  | [] => Some i
  | sm :: rounds => match sources rounds i with
                    | Some j => if (0 <=? j) && (j <? 64) && (0 <=? fst sm) then Some (source sm j) else None
                    | None => None
                    end
  end.

Lemma rounds_bit rounds : forall v i j,
  sources rounds i = Some j -> Z.testbit (fold_left round rounds v) i = Z.testbit v j.
Proof.
  induction rounds as [|sm rounds IH]; intros v i j; cbn; [by intros [= ->]|].
  destruct (sources rounds i) as [k|] eqn:E; [|done].
  destruct (_ && _) eqn:Eb; [|done]. intros [= <-]. rewrite (IH (round v sm) i k E). apply round_bit; lia.
Qed.

Lemma sources_rev i : 0 <= i < 64 -> sources rev_rounds i = Some (63 - i).
Proof.
  intros Hi. assert (Hall : forallb (fun i => bool_decide (sources rev_rounds i = Some (63 - i))) (seqZ 0 64) = true)
    by by vm_compute.
  rewrite forallb_forall in Hall. apply (bool_decide_eq_true_1 _), Hall, list_elem_of_In, elem_of_seqZ. lia.
Qed.

(** [rev] reverses the 64 bits. *)
Lemma rev_bit v i : 0 <= i < 64 -> Z.testbit (rev v) i = Z.testbit v (63 - i).
Proof. intros Hi. rewrite rev_rounds_eq. by apply rounds_bit, sources_rev. Qed.

Lemma rev_range v : 0 <= rev v < 2 ^ 64.
Proof. rewrite rev_rounds_eq. apply round_range. cbn. lia. Qed.

Lemma bits64_inj x y :
  0 <= x < 2 ^ 64 -> 0 <= y < 2 ^ 64 -> (forall i, 0 <= i < 64 -> Z.testbit x i = Z.testbit y i) -> x = y.
Proof.
  intros Hx Hy Hb. apply Z.bits_inj'. intros i Hi. destruct (Z.lt_ge_cases i 64); [by apply Hb|].
  by rewrite !(testbit_high _ 64) by lia.
Qed.

Lemma rev_rev v : 0 <= v < 2 ^ 64 -> rev (rev v) = v.
Proof.
  intros Hv. apply bits64_inj; [apply rev_range|done|]. intros i Hi. rewrite !rev_bit by lia. f_equal. lia.
Qed.

Lemma rev_0 v : 0 <= v < 2 ^ 64 -> rev v = 0 -> v = 0.
Proof. intros Hv H0. by rewrite <- (rev_rev v Hv), H0. Qed.

Lemma rev_zero : rev 0 = 0.
Proof. reflexivity. Qed.

#[local] Opaque rev.

(** ** Blocks *)

Lemma mask_ones n : 0 <= n -> Z.ones n = 2 ^ n - 1.
Proof. intros. rewrite Z.ones_equiv. lia. Qed.

(** The hashes of a bucket are a block of the reversed line. *)
Lemma rev_block e u v :
  0 <= e <= 64 -> rev u / 2 ^ (64 - e) = rev v / 2 ^ (64 - e) -> slot e u = slot e v.
Proof.
  intros He Heq. rewrite !slot_mod by lia. apply Z.bits_inj'. intros i Hi.
  destruct (Z.lt_ge_cases i e); [|by rewrite !Z.mod_pow2_bits_high by lia].
  rewrite !Z.mod_pow2_bits_low by lia.
  assert (Hb : forall w, Z.testbit w i = Z.testbit (rev w / 2 ^ (64 - e)) (e - 1 - i)).
  { intros w. rewrite <- Z.shiftr_div_pow2, Z.shiftr_spec, rev_bit by lia. f_equal. lia. }
  by rewrite !Hb, Heq.
Qed.

(** The cursor after a bucket of a table with [2^e] buckets is the start of
    the next block. *)
Lemma next_cursor_rev e v :
  0 <= e <= 64 -> 0 <= v < 2 ^ 64 ->
  rev (next_cursor v (2 ^ e - 1)) = ((rev v / 2 ^ (64 - e) + 1) * 2 ^ (64 - e)) mod 2 ^ 64.
Proof.
  intros He Hv. unfold next_cursor. rewrite rev_rev by (apply wrapu_range; lia). unfold wrapu at 1. f_equal.
  set (B := 2 ^ (64 - e)). assert (0 < B) by (apply Z.pow_pos_nonneg; lia).
  replace ((rev v / B + 1) * B) with (rev v / B * B + (B - 1) + 1) by lia. f_equal.
  assert (Hlow : rev v / B * B + (B - 1) = Z.lor (Z.shiftl (rev v / B) (64 - e)) (B - 1)).
  { rewrite lor_shiftl_add; [done|lia|lia]. }
  rewrite Hlow. apply Z.bits_inj'. intros i Hi.
  rewrite Z.lor_spec. unfold B. rewrite <- (mask_ones (64 - e)), <- (mask_ones e) by lia.
  destruct (Z.lt_ge_cases i (64 - e)) as [Hlt|Hge].
  - rewrite rev_bit, Z.lor_spec by lia. unfold wrapu. rewrite Z.mod_pow2_bits_low, Z.lnot_spec by lia.
    rewrite (Z.ones_spec_high e), (Z.ones_spec_low (64 - e)) by lia. by rewrite !orb_true_r.
  - rewrite (Z.ones_spec_high (64 - e)), orb_false_r, Z.shiftl_spec_high by lia.
    rewrite <- Z.shiftr_div_pow2, Z.shiftr_spec by lia. replace (i - (64 - e) + (64 - e)) with i by lia.
    destruct (Z.lt_ge_cases i 64); [|rewrite !(testbit_high _ 64) by (apply rev_range || lia); done].
    rewrite !rev_bit, Z.lor_spec by lia. unfold wrapu. rewrite Z.mod_pow2_bits_low, Z.lnot_spec by lia.
    rewrite (Z.ones_spec_low e) by lia. apply orb_false_r.
Qed.

(** The test that ends the loop over the expansions. *)
Lemma expansions_done e0 e1 v :
  0 <= e0 <= e1 -> e1 <= 64 -> 0 <= v < 2 ^ 64 -> rev v mod 2 ^ (64 - e1) = 0 ->
  Z.land v (Z.lxor (2 ^ e0 - 1) (2 ^ e1 - 1)) = 0 <-> rev v mod 2 ^ (64 - e0) = 0.
Proof.
  intros He0 He1 Hv Hmod. rewrite <- (mask_ones e0), <- (mask_ones e1) by lia.
  assert (Hhigh : forall i, e1 <= i < 64 -> Z.testbit v i = false).
  { intros i Hi. replace i with (63 - (63 - i)) by lia. rewrite <- rev_bit by lia.
    rewrite <- (Z.mod_pow2_bits_low _ (64 - e1)) by lia. by rewrite Hmod, Z.bits_0. }
  split; intros Heq; apply Z.bits_inj'; intros i Hi; rewrite Z.bits_0.
  - destruct (Z.lt_ge_cases i (64 - e0)) as [Hlt|]; [|by apply Z.mod_pow2_bits_high; lia].
    rewrite Z.mod_pow2_bits_low, rev_bit by lia. destruct (Z.lt_ge_cases (63 - i) e1); [|apply Hhigh; lia].
    apply (f_equal (fun x => Z.testbit x (63 - i))) in Heq. rewrite Z.land_spec, Z.lxor_spec, Z.bits_0 in Heq.
    rewrite Z.ones_spec_high, Z.ones_spec_low in Heq by lia. by rewrite andb_true_r in Heq.
  - rewrite Z.land_spec, Z.lxor_spec. destruct (Z.lt_ge_cases i e0).
    { rewrite !Z.ones_spec_low by lia. apply andb_false_r. }
    destruct (Z.lt_ge_cases i e1); [|rewrite !Z.ones_spec_high by lia; apply andb_false_r].
    replace i with (63 - (63 - i)) by lia. rewrite <- rev_bit by lia.
    rewrite <- (Z.mod_pow2_bits_low _ (64 - e0)) by lia. by rewrite Heq, Z.bits_0.
Qed.

(** ** One call *)

(** The next block of a division into [r] parts. *)
Lemma block_next P r : 0 < r -> 0 <= P ->
  ((P + 1) mod r = 0 -> P + 1 = (P / r + 1) * r) /\
  ((P + 1) mod r <> 0 -> (P + 1) / r = P / r /\ (P + 1) mod r = P mod r + 1).
Proof.
  intros Hr HP. pose proof (Z.div_mod P r ltac:(lia)) as HPd. pose proof (Z.mod_pos_bound P r Hr) as HPm.
  destruct (Z.eq_dec (P mod r + 1) r) as [Heq|Hne].
  - assert (Hp : P + 1 = (P / r + 1) * r) by lia. split; [done|]. rewrite Hp, Z.mod_mul by lia. done.
  - assert (Hq : (P + 1) / r = P / r) by (symmetry; apply (Z.div_unique _ _ _ (P mod r + 1)); lia).
    assert (Hm : (P + 1) mod r = P mod r + 1) by (symmetry; apply (Z.mod_unique _ _ (P / r)); lia).
    split; [lia|done].
Qed.

Section scan.
Context {K V : Type} (ty : @dictType K) {Hty : DictTypeOk ty}.
#[local] Abbreviation dict := (@dict K V).
#[local] Abbreviation ht := (@ht K V).
#[local] Abbreviation dictEntry := (@dictEntry K V).

(** Where an entry lies on the reversed line. *)
Definition place (de : dictEntry) : Z := rev (hashFunction ty (de_key de)).

Lemma place_range de : 0 <= place de < 2 ^ 64.
Proof. apply rev_range. Qed.

(** The bucket of a cursor holds the whole block of the cursor. *)
Lemma cursor_bucket (h : ht) v :
  table_ok ty h -> 0 <= v < 2 ^ 64 -> let e := ht_size_exp h in
  exists b, get_bucket h (Z.land v (2 ^ e - 1)) = Ok b /\
  (forall de, de ∈ concat (ht_table h) -> place de / 2 ^ (64 - e) = rev v / 2 ^ (64 - e) -> de ∈ b) /\
  (forall de, de ∈ b -> de ∈ concat (ht_table h)).
Proof.
  intros Ht Hv e. pose proof Ht as (He & _ & _ & Hb). pose proof (slot_range e v ltac:(lia)) as Hs.
  assert (Hland : Z.land v (2 ^ e - 1) = slot e v) by (unfold slot; by rewrite dictht_mask by lia).
  rewrite Hland. destruct (get_bucket_spec ty h (slot e v) Ht Hs) as (b & -> & Hl). exists b. split; [done|]. split.
  - intros de Hin Hp. apply (rev_block e (hashFunction ty (de_key de)) v) in Hp; [|lia].
    apply list_elem_of_In, in_concat in Hin as (c & Hc & Hdc).
    apply list_elem_of_In, list_elem_of_lookup in Hc as [j Hj]. apply list_elem_of_In in Hdc.
    pose proof (Hb j c Hj) as Hok. unfold bucket_ok in Hok. rewrite list.Forall_forall in Hok.
    destruct (Hok de Hdc) as [Hsl _]. fold e in Hsl. rewrite Hp in Hsl. rewrite Hsl, Nat2Z.id in Hl. congruence.
  - intros de Hin. apply list_elem_of_In, in_concat. exists b.
    split; apply list_elem_of_In; [by eapply list_elem_of_lookup_2|done].
Qed.

Lemma next_cursor_range v m : 0 <= next_cursor v m < 2 ^ 64.
Proof. apply rev_range. Qed.

Lemma scan_expansions_spec (h1 : ht) e0 fuel : forall v out,
  table_ok ty h1 -> 0 <= e0 <= ht_size_exp h1 -> 0 <= v < 2 ^ 64 ->
  let e1 := ht_size_exp h1 in let r := 2 ^ (e1 - e0) in let P := rev v / 2 ^ (64 - e1) in
  r - P mod r <= Z.of_nat fuel ->
  exists v' out', scan_expansions fuel h1 (2 ^ e0 - 1) (2 ^ e1 - 1) v out = Ok (v', out ++ out') /\
    0 <= v' < 2 ^ 64 /\ rev v' = ((P / r + 1) * r * 2 ^ (64 - e1)) mod 2 ^ 64 /\
    (forall de, de ∈ concat (ht_table h1) -> P <= place de / 2 ^ (64 - e1) < (P / r + 1) * r -> de ∈ out') /\
    (forall de, de ∈ out' -> de ∈ concat (ht_table h1)).
Proof.
  induction fuel as [|fuel IH]; intros v out Ht He0 Hv e1 r P Hfuel.
  all: assert (Hr : 0 < r) by (apply Z.pow_pos_nonneg; unfold e1; lia).
  { pose proof (Z.mod_pos_bound P r Hr). lia. }
  pose proof Ht as (He1 & _). fold e1 in He1, He0. set (B := 2 ^ (64 - e1)) in *.
  assert (HB : 0 < B) by (apply Z.pow_pos_nonneg; lia).
  assert (Htot : 2 ^ 64 = 2 ^ e1 * B) by (unfold B; rewrite <- Z.pow_add_r by lia; f_equal; lia).
  assert (Hpow : 2 ^ e1 = 2 ^ e0 * r) by (unfold r; rewrite <- Z.pow_add_r by lia; f_equal; lia).
  assert (HB0 : 2 ^ (64 - e0) = r * B) by (unfold r, B; rewrite <- Z.pow_add_r by lia; f_equal; lia).
  pose proof (Z.pow_pos_nonneg 2 e0 ltac:(lia) ltac:(lia)) as He0pos.
  pose proof (rev_range v) as Hrv.
  assert (HP : 0 <= P < 2 ^ e1).
  { split; [apply Z.div_pos; lia|]. apply Z.div_lt_upper_bound; [done|]. rewrite Z.mul_comm, <- Htot. lia. }
  cbn [scan_expansions]. destruct (cursor_bucket h1 v Ht Hv) as (b & Hg & Hcov & Hsub). fold e1 in Hg, Hcov.
  rewrite Hg. cbn [mbind res_bind]. set (v1 := next_cursor v (2 ^ e1 - 1)).
  pose proof (next_cursor_range v (2 ^ e1 - 1)) as Hv1. fold v1 in Hv1.
  assert (Hrev1 : rev v1 = ((P + 1) * B) mod 2 ^ 64) by (apply next_cursor_rev; lia).
  assert (Hmul : rev v1 = ((P + 1) mod 2 ^ e1) * B) by (rewrite Hrev1, Htot; apply Z.mul_mod_distr_r; lia).
  assert (Htest : Z.land v1 (Z.lxor (2 ^ e0 - 1) (2 ^ e1 - 1)) = 0 <-> (P + 1) mod r = 0).
  { rewrite expansions_done; [|lia|lia|done|fold B; rewrite Hmul; apply Z.mod_mul; lia].
    rewrite HB0, Hmul, Z.mul_mod_distr_r by lia. rewrite Hpow, (Z.mul_comm (2 ^ e0) r).
    rewrite Z.rem_mul_r by lia. rewrite (Z.mul_comm r), Z.mod_add, Z.mod_mod by lia. nia. }
  destruct (block_next P r Hr ltac:(lia)) as [Hlast Hmore].
  destruct (Z.eqb_spec (Z.land v1 (Z.lxor (2 ^ e0 - 1) (2 ^ e1 - 1))) 0) as [Hz|Hz]; cbn [negb].
  - apply Htest in Hz. specialize (Hlast Hz). exists v1, b. split; [done|]. split; [done|].
    split; [by rewrite <- Hlast|]. split; [|done]. intros de Hin Hpl. apply Hcov; [done|]. fold B P. lia.
  - assert (Hm : (P + 1) mod r <> 0) by tauto. destruct (Hmore Hm) as [Hq Hmod].
    assert (Hlt : P + 1 < 2 ^ e1).
    { destruct (Z.eq_dec (P + 1) (2 ^ e1)) as [Heq|]; [|lia]. destruct Hm. rewrite Heq, Hpow. apply Z.mod_mul. lia. }
    assert (HP1 : rev v1 / B = P + 1) by (rewrite Hmul, Z.mod_small, Z.div_mul by lia; done).
    destruct (IH v1 (out ++ b) Ht He0 Hv1) as (v' & out' & E & Hv' & Hrev & Hcov' & Hsub').
    { fold e1 B r. rewrite HP1. lia. }
    fold e1 B r in E, Hrev, Hcov', Hsub'. rewrite HP1, Hq in *. exists v', (b ++ out'). rewrite E, <- app_assoc.
    split; [done|]. split; [done|]. split; [done|]. split.
    + intros de Hin Hpl. rewrite elem_of_app. destruct (Z.eq_dec (place de / B) P) as [Heq|Hne]; [left; by apply Hcov|].
      right. apply Hcov'; [done|]. lia.
    + intros de. rewrite elem_of_app. naive_solver.
Qed.

(** The end of block [Q - 1] of [N], with the wrap around at the end. *)
Lemma block_end v' N B Q :
  0 <= v' < 2 ^ 64 -> 2 ^ 64 = N * B -> 0 < B -> 0 < Q <= N -> rev v' = (Q * B) mod 2 ^ 64 ->
  (v' = 0 /\ Q * B = 2 ^ 64) \/ (v' <> 0 /\ rev v' = Q * B).
Proof.
  intros Hv Htot HB HQ Hrev. rewrite Htot in Hrev |- *. destruct (Z.eq_dec Q N) as [->|Hne].
  - left. rewrite Z.mod_same in Hrev by nia. split; [by apply rev_0|done].
  - right. rewrite Z.mod_small in Hrev by nia. split; [|done]. intros ->. rewrite rev_zero in Hrev. nia.
Qed.

(** A cursor at the start of a block of a table with [2^e] buckets, or with
    fewer. *)
Definition aligned (e v : Z) : Prop := rev v mod 2 ^ (64 - e) = 0.

Lemma aligned_le e e' v : 0 <= e <= e' -> e' <= 64 -> aligned e v -> aligned e' v.
Proof.
  unfold aligned. intros He He' Ha. replace (64 - e) with ((64 - e') + (e' - e)) in Ha by lia.
  rewrite Z.pow_add_r in Ha by lia. apply Z.mod_divide in Ha; [|lia]. apply Z.mod_divide; [lia|].
  eapply Z.divide_trans; [|exact Ha]. apply Z.divide_factor_l.
Qed.

(** What a call with cursor [v] that returns [v'] and reports [out] does. *)
Definition scanned (d : dict) (v v' : Z) (out : list dictEntry) : Prop :=
  0 <= v' < 2 ^ 64 /\ (v' = 0 \/ rev v < rev v' /\ aligned (Z.max (ht_size_exp (ht0 d)) (ht_size_exp (ht1 d))) v') /\
  (forall de, de ∈ concat (ht_table (ht0 d)) \/ de ∈ concat (ht_table (ht1 d)) ->
     rev v <= place de -> v' = 0 \/ place de < rev v' -> de ∈ out) /\
  (forall de, de ∈ out -> de ∈ concat (ht_table (ht0 d)) \/ de ∈ concat (ht_table (ht1 d))).

(** A call covers the blocks of the smaller table. *)
Lemma scanned_block (d : dict) v v' out e :
  0 <= e <= Z.max (ht_size_exp (ht0 d)) (ht_size_exp (ht1 d)) ->
  Z.max (ht_size_exp (ht0 d)) (ht_size_exp (ht1 d)) <= 64 -> 0 <= v' < 2 ^ 64 -> let B := 2 ^ (64 - e) in
  rev v' = ((rev v / B + 1) * B) mod 2 ^ 64 ->
  (forall de, de ∈ concat (ht_table (ht0 d)) \/ de ∈ concat (ht_table (ht1 d)) ->
     rev v <= place de < (rev v / B + 1) * B -> de ∈ out) ->
  (forall de, de ∈ out -> de ∈ concat (ht_table (ht0 d)) \/ de ∈ concat (ht_table (ht1 d))) ->
  scanned d v v' out.
Proof.
  intros He He' Hv' B Hrev Hcov Hsub. assert (HB : 0 < B) by (apply Z.pow_pos_nonneg; lia).
  assert (Htot : 2 ^ 64 = 2 ^ e * B) by (unfold B; rewrite <- Z.pow_add_r by lia; f_equal; lia).
  pose proof (rev_range v) as Hr.
  assert (HQ : 0 < rev v / B + 1 <= 2 ^ e).
  { assert (0 <= rev v / B < 2 ^ e); [|lia]. split; [apply Z.div_pos; lia|].
    apply Z.div_lt_upper_bound; [done|]. rewrite Z.mul_comm, <- Htot. lia. }
  pose proof (Z.mul_succ_div_gt (rev v) B HB) as Hgt.
  destruct (block_end v' (2 ^ e) B _ Hv' Htot HB HQ Hrev) as [[H0 Hend]|[H0 Hend]].
  - split; [done|]. split; [by left|]. split; [|done]. intros de Hin Hle _. apply Hcov; [done|].
    pose proof (place_range de). lia.
  - split; [done|]. split.
    { right. split; [lia|]. apply (aligned_le e); [done|done|]. unfold aligned. fold B. rewrite Hend. apply Z.mod_mul. lia. }
    split; [|done]. intros de Hin Hle [|Hlt]; [done|]. apply Hcov; [done|]. lia.
Qed.

Lemma same_block x y B : 0 < B -> x <= y < (x / B + 1) * B -> y / B = x / B.
Proof.
  intros HB Hy. pose proof (Z.mul_div_le x B HB). symmetry. apply (Z.div_unique _ _ _ (y - B * (x / B))); nia.
Qed.

Lemma scan_rehashing (t0 t1 : ht) (d : dict) v :
  table_ok ty t0 -> table_ok ty t1 -> ht_size_exp t0 < ht_size_exp t1 -> 0 <= v < 2 ^ 64 ->
  (forall de, de ∈ concat (ht_table (ht0 d)) \/ de ∈ concat (ht_table (ht1 d)) <->
              de ∈ concat (ht_table t0) \/ de ∈ concat (ht_table t1)) ->
  Z.max (ht_size_exp (ht0 d)) (ht_size_exp (ht1 d)) = ht_size_exp t1 ->
  exists v' out, (de ← get_bucket t0 (Z.land v (2 ^ ht_size_exp t0 - 1));
    scan_expansions (S (length (ht_table t1))) t1 (2 ^ ht_size_exp t0 - 1) (2 ^ ht_size_exp t1 - 1) v de) = Ok (v', out) /\
    scanned d v v' out.
Proof.
  intros H0 H1 He Hv Htabs Hmax. pose proof H0 as (He0 & _). pose proof H1 as (He1 & Hlen1 & _).
  destruct (cursor_bucket t0 v H0 Hv) as (b & -> & Hcov0 & Hsub0). cbn [mbind res_bind].
  set (e0 := ht_size_exp t0) in *. set (e1 := ht_size_exp t1) in *.
  assert (Hr : 0 < 2 ^ (e1 - e0)) by (apply Z.pow_pos_nonneg; lia).
  assert (HB1 : 0 < 2 ^ (64 - e1)) by (apply Z.pow_pos_nonneg; lia).
  assert (HB0 : 2 ^ (64 - e0) = 2 ^ (e1 - e0) * 2 ^ (64 - e1)) by (rewrite <- Z.pow_add_r by lia; f_equal; lia).
  assert (Hrle : 2 ^ (e1 - e0) <= 2 ^ e1) by (apply Z.pow_le_mono_r; lia).
  destruct (scan_expansions_spec t1 e0 (S (length (ht_table t1))) v b H1 ltac:(fold e1; lia) Hv)
    as (v' & out & E & Hv' & Hrev & Hcov & Hsub).
  { fold e1. pose proof (Z.mod_pos_bound (rev v / 2 ^ (64 - e1)) (2 ^ (e1 - e0)) Hr). unfold zlen in Hlen1. lia. }
  fold e1 in E, Hrev, Hcov. rewrite E. exists v', (b ++ out). split; [done|].
  rewrite Z.div_div, (Z.mul_comm (2 ^ (64 - e1))), <- HB0 in Hrev, Hcov by lia.
  rewrite <- Z.mul_assoc, <- HB0 in Hrev. apply (scanned_block d v v' _ e0); [lia|lia|done|done| |].
  - intros de Hin Hpl. rewrite elem_of_app. apply Htabs in Hin as [Hin|Hin]; [left|right].
    + apply Hcov0; [done|]. apply same_block; lia.
    + apply Hcov; [done|]. split; [apply Z.div_le_mono; lia|]. apply Z.div_lt_upper_bound; [done|]. lia.
  - intros de. rewrite elem_of_app. rewrite Htabs. naive_solver.
Qed.

Lemma dictScan_spec (d : dict) v :
  dict_ok ty d -> 0 <= v < 2 ^ 64 -> exists v' out, dictScan d v = Ok (v', out) /\ scanned d v v' out.
Proof.
  intros Hok Hv. unfold dictScan. destruct (Z.eqb_spec (dictSize d) 0) as [Hz|Hz].
  { exists 0, []. split; [done|]. split; [lia|]. split; [by left|]. split; [|by intros ? ?%elem_of_nil].
    intros de Hin. rewrite (dictSize_spec ty) in Hz by done. apply zlen_nil_inv, app_eq_nil in Hz as [Hz0 Hz1].
    unfold ht_kvs in *. apply fmap_nil_inv in Hz0, Hz1. rewrite Hz0, Hz1 in Hin. by destruct Hin as [?%elem_of_nil|?%elem_of_nil]. }
  pose proof (nonempty_table ty d Hok Hz) as H0. pose proof H0 as (He0 & _). rewrite (dictht_mask (ht_size_exp (ht0 d))) by lia.
  destruct Hok as (_ & _ & [(Hri & H1 & _)|(_ & H1 & Hne & Hri & _)]); unfold dictIsRehashing.
  - rewrite Hri. cbn [Z.eqb negb]. destruct (cursor_bucket (ht0 d) v H0 Hv) as (b & -> & Hcov & Hsub). cbn [mbind res_bind].
    set (e0 := ht_size_exp (ht0 d)) in *. assert (0 < 2 ^ (64 - e0)) by (apply Z.pow_pos_nonneg; lia).
    eexists _, _. split; [done|].
    apply (scanned_block d v _ _ e0); [lia|rewrite H1; cbn; lia|apply next_cursor_range|by apply next_cursor_rev; lia| |by auto].
    rewrite H1. intros de [Hin|Hin%elem_of_nil] Hpl; [|done]. apply Hcov; [done|]. by apply same_block.
  - pose proof H1 as (He1 & _). rewrite (proj2 (Z.eqb_neq (rehashidx d) (-1))) by lia. cbn [negb].
    rewrite !dictht_size by lia. destruct (Z.ltb_spec (2 ^ ht_size_exp (ht1 d)) (2 ^ ht_size_exp (ht0 d))) as [Hlt|Hge].
    + apply Z.pow_lt_mono_r_iff in Hlt; [|lia|lia]. rewrite !dictht_mask by lia.
      apply scan_rehashing; try done; [naive_solver|lia].
    + apply Z.pow_le_mono_r_iff in Hge; [|lia|lia]. rewrite !dictht_mask by lia.
      apply scan_rehashing; try done; lia.
Qed.

(** ** Whole scans *)

(** The calls of a scan: the cursor goes from call to call, each on the dict
    as it is by then. *)
Fixpoint scan_calls (ds : list dict) (v : Z) : res (Z * list dictEntry) :=
  match ds with
  | [] => Ok (v, [])
  | d :: ds =>
    r ← dictScan d v;
    s ← scan_calls ds (fst r);
    Ok (fst s, snd r ++ snd s)
  end.

Lemma scan_calls_ok ds : forall v, Forall (dict_ok ty) ds -> 0 <= v < 2 ^ 64 ->
  exists v' out, scan_calls ds v = Ok (v', out).
Proof.
  induction ds as [|d ds IH]; intros v Hok Hv; cbn; [by eexists _, _|].
  apply Forall_cons_1 in Hok as [Hd Hok]. destruct (dictScan_spec d v Hd Hv) as (v1 & out & -> & Hv1 & _).
  cbn [mbind res_bind fst snd]. destruct (IH v1 Hok Hv1) as (v2 & out2 & ->). by eexists _, _.
Qed.

Lemma key_entry (d : dict) k :
  k ∈ (contents d).*1 <-> exists de, de_key de = k /\ (de ∈ concat (ht_table (ht0 d)) \/ de ∈ concat (ht_table (ht1 d))).
Proof.
  unfold contents, ht_kvs. rewrite <- fmap_app, <- list_fmap_compose, list_elem_of_fmap.
  setoid_rewrite elem_of_app. split; intros (de & ? & ?); exists de; by subst.
Qed.

Lemma scan_covers k ds : forall v out,
  Forall (dict_ok ty) ds -> ds <> [] -> 0 <= v < 2 ^ 64 -> rev v <= rev (hashFunction ty k) ->
  Forall (fun d => k ∈ (contents d).*1) ds -> scan_calls ds v = Ok (0, out) ->
  k ∈ de_key <$> out.
Proof.
  induction ds as [|d ds IH]; intros v out Hok Hne Hv Hle Hin Hrun; [done|].
  apply Forall_cons_1 in Hok as [Hd Hok]. apply Forall_cons_1 in Hin as [Hk Hin].
  apply key_entry in Hk as (de & Hk & Hde). cbn in Hrun.
  destruct (dictScan_spec d v Hd Hv) as (v1 & out1 & E & Hv1 & Hprog & Hcov & _).
  rewrite E in Hrun. cbn [mbind res_bind fst snd] in Hrun.
  destruct (scan_calls ds v1) as [[v2 out2]|] eqn:E2; [|done]. cbn in Hrun. injection Hrun as -> <-.
  rewrite fmap_app, elem_of_app. assert (Hpl : place de = rev (hashFunction ty k)) by (unfold place; by rewrite Hk).
  destruct (decide (v1 = 0 \/ place de < rev v1)) as [Hnow|Hlater].
  - left. apply list_elem_of_fmap. exists de. split; [done|]. apply Hcov; [done|lia|done].
  - right. apply (IH v1 out2); try done; [|lia]. intros ->. cbn in E2. simplify_eq. tauto.
Qed.

Lemma scan_sound ds : forall v v' out, Forall (dict_ok ty) ds -> 0 <= v < 2 ^ 64 -> scan_calls ds v = Ok (v', out) ->
  forall de, de ∈ out -> Exists (fun d => kv de ∈ contents d) ds.
Proof.
  induction ds as [|d ds IH]; intros v v' out Hok Hv Hrun de Hde; cbn in Hrun.
  { simplify_eq. by apply elem_of_nil in Hde. }
  apply Forall_cons_1 in Hok as [Hd Hok]. destruct (dictScan_spec d v Hd Hv) as (v1 & out1 & E & Hv1 & _ & _ & Hsub).
  rewrite E in Hrun. cbn [mbind res_bind fst snd] in Hrun.
  destruct (scan_calls ds v1) as [[v2 out2]|] eqn:E2; [|done]. cbn in Hrun. injection Hrun as -> <-.
  apply elem_of_app in Hde as [Hde|Hde]; [left|right; by eapply IH].
  unfold contents. rewrite elem_of_app. destruct (Hsub de Hde); [left|right]; by apply list_elem_of_fmap_2.
Qed.

(** With tables of at most [2^E] buckets each call advances by a block. *)
Lemma scan_finishes E ds : forall v, 0 <= E <= 60 ->
  Forall (fun d => dict_ok ty d /\ Z.max (ht_size_exp (ht0 d)) (ht_size_exp (ht1 d)) <= E) ds ->
  0 <= v < 2 ^ 64 -> aligned E v -> 2 ^ E - rev v / 2 ^ (64 - E) <= zlen ds -> ds <> [] ->
  exists n out, (0 < n <= length ds)%nat /\ scan_calls (take n ds) v = Ok (0, out).
Proof.
  induction ds as [|d ds IH]; intros v HE Hds Hv Ha Hlen Hne; [done|].
  apply Forall_cons_1 in Hds as [[Hd Hexp] Hds].
  destruct (dictScan_spec d v Hd Hv) as (v1 & out1 & E1 & Hv1 & Hprog & _). rewrite zlen_cons in Hlen.
  destruct (decide (v1 = 0)) as [->|Hn0].
  { exists 1%nat, (out1 ++ []). split; [cbn; lia|]. cbn. rewrite E1. done. }
  destruct Hprog as [|[Hlt Ha1]]; [done|].
  assert (Ha1' : aligned E v1).
  { destruct Hd as (_ & _ & [(_ & H1 & [H0|(He0 & _)])|((He0 & _) & _)]).
    - exfalso. unfold dictScan, dictSize in E1. rewrite H0, H1 in E1. vm_compute in E1. congruence.
    - eapply aligned_le; [|lia|exact Ha1]. lia.
    - eapply aligned_le; [|lia|exact Ha1]. lia. }
  unfold aligned in *. set (B := 2 ^ (64 - E)) in *. assert (HB : 0 < B) by (apply Z.pow_pos_nonneg; lia).
  assert (Htot : 2 ^ 64 = 2 ^ E * B) by (unfold B; rewrite <- Z.pow_add_r by lia; f_equal; lia).
  pose proof (Z.div_mod (rev v) B ltac:(lia)) as Hdv. pose proof (Z.div_mod (rev v1) B ltac:(lia)) as Hdv1.
  assert (Hstep : rev v / B < rev v1 / B) by nia.
  assert (Hmax : rev v1 / B < 2 ^ E) by (pose proof (rev_range v1); apply Z.div_lt_upper_bound; lia).
  destruct (IH v1 HE Hds Hv1 Ha1') as (n & out & Hn & Hrun); [lia|intros ->; rewrite zlen_nil in Hlen; lia|].
  exists (S n), (out1 ++ out). split; [cbn; lia|]. cbn. rewrite E1. cbn [mbind res_bind fst snd]. by rewrite Hrun.
Qed.

End scan.

(** ** Results *)

(** C10. Scanning misses nothing that stays: the calls always return, what
    they report was in the dict at some call, and when the cursor is back at 0
    every key that was in the dict at every call has been reported, however the
    dict was changed, resized or rehashed between the calls. *)
Theorem dictScan_complete {K V : Type} (ty : @dictType K) {Hty : DictTypeOk ty} (ds : list (@dict K V)) :
  Forall (dict_ok ty) ds -> ds <> [] ->
  exists v out, scan_calls ds 0 = Ok (v, out) /\
    (forall de, de ∈ out -> Exists (fun d => kv de ∈ contents d) ds) /\
    (v = 0 -> forall k, Forall (fun d => k ∈ (contents d).*1) ds -> k ∈ de_key <$> out).
Proof.
  intros Hok Hne. assert (H0 : 0 <= 0 < 2 ^ 64) by lia.
  destruct (scan_calls_ok ty ds 0 Hok H0) as (v & out & E). exists v, out. split; [done|]. split.
  - by eapply scan_sound.
  - intros -> k Hk. eapply scan_covers; [done|done|exact H0| |done|done]. apply rev_range.
Qed.

(** The sample dict with its keys added one more at a time: it grows from 8
    to 16 buckets and is rehashing in between. *)
Definition growing : list (@dict Z Z) :=
  (fun n => match run numbers (take n sample) dictCreate with Ok r => fst r | Fault _ => dictCreate end)
  <$> [7; 8; 8; 9; 9; 10; 10; 10; 10; 10]%nat.

Lemma growing_ok : Forall (dict_ok numbers) growing.
Proof.
  apply Forall_fmap, list.Forall_forall. intros n _. cbn.
  destruct (run_simulates numbers (take n sample) dictCreate (ready_create numbers)) as (d & a & -> & [Hok _] & _); [| |done].
  - rewrite fmap_take. apply Forall_take. repeat constructor.
  - change (contents dictCreate) with (@nil (Z * option Z)). rewrite zlen_nil. unfold zlen. rewrite length_take.
    change (length sample) with 10%nat. unfold max_entries. lia.
Qed.

Lemma dictScan_complete_witness :
  exists v out, scan_calls growing 0 = Ok (v, out) /\
    (forall de, de ∈ out -> Exists (fun d => kv de ∈ contents d) growing) /\
    (v = 0 -> forall k, Forall (fun d => k ∈ (contents d).*1) growing -> k ∈ de_key <$> out).
Proof. apply (dictScan_complete numbers); [exact growing_ok|done]. Defined.

(** C26. A scan comes to an end: as long as the tables keep at most [2^E]
    buckets, the cursor is back at 0 after at most [2^E] calls. *)
Theorem dictScan_terminates {K V : Type} (ty : @dictType K) {Hty : DictTypeOk ty} (E : Z) (ds : list (@dict K V)) :
  0 <= E <= 60 -> 2 ^ E <= zlen ds ->
  Forall (fun d => dict_ok ty d /\ Z.max (ht_size_exp (ht0 d)) (ht_size_exp (ht1 d)) <= E) ds ->
  exists n out, (0 < n <= length ds)%nat /\ scan_calls (take n ds) 0 = Ok (0, out).
Proof.
  intros HE Hlen Hds. pose proof (Z.pow_pos_nonneg 2 E) as Hpos.
  apply (scan_finishes ty E ds 0); try done; [by rewrite rev_zero, Z.div_0_l, Z.sub_0_r by lia|].
  intros ->. rewrite zlen_nil in Hlen. lia.
Qed.

Lemma dictScan_terminates_witness :
  exists n out, (0 < n <= 16)%nat /\ scan_calls (take n (replicate 16 sample_dict)) 0 = Ok (0, out).
Proof.
  apply (dictScan_terminates numbers 4 (replicate 16 sample_dict)); [lia|reflexivity|].
  apply Forall_replicate. split; [apply sample_dict_ok|vm_compute; congruence].
Defined.

End DictScan.
