(* ===== verification/Glob.v ===== *)
(** * Glob-style pattern matching (util.c).

    [stringmatchlen] of src/.local/redis/redis-7.4.2/src/util.c, the matcher
    behind KEYS, SCAN MATCH, PSUBSCRIBE and CONFIG GET, with its recursion on
    stars, the early exit [skipLongerMatches] and the nesting limit.  The
    pattern and the string are buffers read by position, so that an access
    outside them is a fault; a pattern is followed by its terminating zero, as
    every sds string is.  A [char] is signed.  The lengths are [int] in the
    code: [stringmatchlen] is the code for arguments that are [int] values, that
    is for patterns and strings below 2^31 bytes, and [stringmatch] converts
    what [strlen] returns. *)

From S2P Require Import Prelude Cstring.
#[local] Open Scope Z_scope.

Module Glob.
Import Cstring.

(** A [char] read from a buffer. *)
Definition char_at (b : bytes) (i : Z) : res Z := c ← rd b i; Ok (wraps 8 c).

Section glob.
Context (pattern string : bytes) (nocase : bool).

(** The loop over consecutive stars: it looks one character ahead. *)
Fixpoint collapse_stars (fuel : nat) (p patternLen : Z) : res (Z * Z) :=
  match fuel with
  | O => Fault OutOfFuel
  | S fuel =>
    if patternLen =? 0 then Ok (p, patternLen) else
    c ← char_at pattern (p + 1);
    if c =? 42 then collapse_stars fuel (p + 1) (patternLen - 1) else Ok (p, patternLen)
  end.

(** The loop over the stars left when the string is used up. *)
Fixpoint trailing_stars (fuel : nat) (p patternLen : Z) : res (Z * Z) :=
  match fuel with
  | O => Fault OutOfFuel
  | S fuel =>
    c ← char_at pattern p;
    if c =? 42 then trailing_stars fuel (p + 1) (patternLen - 1) else Ok (p, patternLen)
  end.

(** The loop over the members of a class [[...]]: where it ends and whether
    one of them matches the character at [s]. *)
Fixpoint class_loop (fuel : nat) (p patternLen s : Z) (matched : bool) : res (Z * Z * bool) :=
  match fuel with
  | O => Fault OutOfFuel
  | S fuel =>
    c ← char_at pattern p;
    if (c =? 92) && (2 <=? patternLen) then
      let p := p + 1 in let patternLen := patternLen - 1 in
      c ← char_at pattern p;
      sc ← char_at string s;
      class_loop fuel (p + 1) (patternLen - 1) s (matched || (c =? sc))
    else if c =? 93 then Ok (p, patternLen, matched)
    else if patternLen =? 0 then Ok (p - 1, patternLen + 1, matched)
    else
      range ← (if 3 <=? patternLen then d ← char_at pattern (p + 1); Ok (d =? 45) else Ok false);
      if (range : bool) then
        end_ ← char_at pattern (p + 2);
        sc ← char_at string s;
        let start := c in
        let '(start, end_) := if end_ <? start then (end_, start) else (start, end_) in
        let '(start, end_, sc) := if nocase then (tolower start, tolower end_, tolower sc) else (start, end_, sc) in
        let p := p + 2 in let patternLen := patternLen - 2 in
        class_loop fuel (p + 1) (patternLen - 1) s (matched || ((start <=? sc) && (sc <=? end_)))
      else
        sc ← char_at string s;
        class_loop fuel (p + 1) (patternLen - 1) s
          (matched || (if nocase then tolower c =? tolower sc else c =? sc))
  end.

(** [while (stringLen)] of the star: [call] is the recursive call. *)
Fixpoint star_loop (call : Z -> Z -> bool -> res (bool * bool)) (stringLen : nat) (s : Z) (skipLongerMatches : bool)
  : res (bool * bool) :=
  match stringLen with
  | O => Ok (false, true)
  | S n =>
    r ← call s (Z.of_nat stringLen) skipLongerMatches;
    let '(m, skipLongerMatches) := r in
    if (m : bool) then Ok (true, skipLongerMatches)
    else if (skipLongerMatches : bool) then Ok (false, skipLongerMatches)
    else star_loop call n (s + 1) skipLongerMatches
  end.

(** [while (patternLen && stringLen)] and the test after it; returns the match
    and [skipLongerMatches]. *)
Fixpoint match_loop (fuel : nat) (p patternLen s stringLen : Z) (skipLongerMatches : bool) (nesting : Z)
  : res (bool * bool) :=
  match fuel with
  | O => Fault OutOfFuel
  | S fuel =>
    if (patternLen =? 0) || (stringLen =? 0) then
      Ok ((patternLen =? 0) && (stringLen =? 0), skipLongerMatches)
    else
      let advance (p patternLen : Z) : res (bool * bool) :=
        let s := s + 1 in let stringLen := stringLen - 1 in
        let p := p + 1 in let patternLen := patternLen - 1 in
        if stringLen =? 0 then
          r ← trailing_stars (S (length pattern)) p patternLen;
          Ok ((snd r =? 0) && (stringLen =? 0), skipLongerMatches)
        else match_loop fuel p patternLen s stringLen skipLongerMatches nesting in
      let literal (p patternLen : Z) : res (bool * bool) :=
        c ← char_at pattern p;
        sc ← char_at string s;
        if (if nocase then negb (tolower c =? tolower sc) else negb (c =? sc))
        then Ok (false, skipLongerMatches)
        else advance p patternLen in
      c ← char_at pattern p;
      if c =? 42 then
        r ← collapse_stars (S (length pattern)) p patternLen;
        let '(p, patternLen) := r in
        if patternLen =? 1 then Ok (true, skipLongerMatches) else
        star_loop (fun s stringLen skipLongerMatches =>
          let nesting := nesting + 1 in
          if 1000 <? nesting then Ok (false, skipLongerMatches)
          else match_loop fuel (p + 1) (patternLen - 1) s stringLen skipLongerMatches nesting)
          (Z.to_nat stringLen) s skipLongerMatches
      else if c =? 63 then advance p patternLen
      else if c =? 91 then
        let p := p + 1 in let patternLen := patternLen - 1 in
        c ← char_at pattern p;
        let not := c =? 94 in
        let '(p, patternLen) := if not then (p + 1, patternLen - 1) else (p, patternLen) in
        r ← class_loop (S (length pattern)) p patternLen s false;
        let '(p, patternLen, matched) := r in
        let matched := if not then negb matched else matched in
        if negb matched then Ok (false, skipLongerMatches) else advance p patternLen
      else if c =? 92 then
        if 2 <=? patternLen then literal (p + 1) (patternLen - 1) else literal p patternLen
      else literal p patternLen
  end.

Definition stringmatchlen_impl (p patternLen s stringLen : Z) (skipLongerMatches : bool) (nesting : Z)
  : res (bool * bool) :=
  if 1000 <? nesting then Ok (false, skipLongerMatches)
  else match_loop (S (length pattern)) p patternLen s stringLen skipLongerMatches nesting.

(** [patternLen] and [stringLen] are values of type [int]. *)
Definition stringmatchlen (patternLen stringLen : Z) : res bool :=
  r ← stringmatchlen_impl 0 patternLen 0 stringLen false 0; Ok (fst r).

End glob.

Definition stringmatch (pattern string : bytes) (nocase : bool) : res bool :=
  pl ← strlen pattern;
  sl ← strlen string;
  stringmatchlen pattern string nocase (i32 pl) (i32 sl).

End Glob.
