(* ===== verification/GlobSpec.v ===== *)
(** * Glob matching: the reference and the equivalence.

    The reference reads a pattern into tokens, a star or a test of one
    character, and matches by plain backtracking.  [stringmatchlen] is proved to
    stay inside its buffers, to end, and to agree with the reference, its early
    exit included, for patterns within the nesting limit. *)

From S2P Require Import Prelude Cstring Glob.
#[local] Open Scope Z_scope.

Module GlobSpec.
Import Cstring Glob.

(** ** Reference *)

Section reference.
Context (nocase : bool).

Inductive tok : Type := Star | One (accepts : Z -> bool).

(** The tests of a single character: a literal, an escaped member of a class
    and a range. *)
Definition lit (c sc : Z) : bool := if nocase then tolower c =? tolower sc else c =? sc.
Definition esc (c sc : Z) : bool := c =? sc.
Definition range (a b sc : Z) : bool :=
  let lo := Z.min a b in let hi := Z.max a b in
  if nocase then (tolower lo <=? tolower sc) && (tolower sc <=? tolower hi) else (lo <=? sc) && (sc <=? hi).

(** The members of a class and the pattern behind it; a class without closing
    bracket takes the rest of the pattern. *)
Fixpoint class_members (p : list Z) : list (Z -> bool) * list Z :=
  match p with
  | [] => ([], [])
  | c :: p1 =>
    let single := let '(ms, r) := class_members p1 in (lit c :: ms, r) in
    match p1 with
    | d :: p2 =>
      if c =? 92 then let '(ms, r) := class_members p2 in (esc d :: ms, r)
      else if c =? 93 then ([], p1)
      else match p2 with
           | e :: p3 => if d =? 45 then let '(ms, r) := class_members p3 in (range c e :: ms, r) else single
           | [] => single
           end
    | [] => if c =? 93 then ([], p1) else single
    end
  end.

Definition class_test (not : bool) (ms : list (Z -> bool)) (sc : Z) : bool :=
  xorb not (existsb (fun f => f sc) ms).

Fixpoint toks (fuel : nat) (p : list Z) : list tok :=
  match fuel, p with
  | S fuel, c :: p =>
    if c =? 42 then Star :: toks fuel p
    else if c =? 63 then One (fun _ => true) :: toks fuel p
    else if c =? 91 then
      let not := match p with d :: _ => d =? 94 | [] => false end in
      let '(ms, r) := class_members (if not then tail p else p) in
      One (class_test not ms) :: toks fuel r
    else match p with
         | d :: p' => if c =? 92 then One (lit d) :: toks fuel p' else One (lit c) :: toks fuel p
         | [] => One (lit c) :: toks fuel p
         end
  | _, _ => []
  end.

Definition tokens (p : list Z) : list tok := toks (length p) p.

Fixpoint tmatch (ts : list tok) : list Z -> bool :=
  match ts with
  | [] => fun s => match s with [] => true | _ => false end
  | Star :: ts => fix any s := tmatch ts s || match s with [] => false | _ :: s => any s end
  | One f :: ts => fun s => match s with [] => false | c :: s => f c && tmatch ts s end
  end.

Fixpoint stars (ts : list tok) : Z :=
  match ts with [] => 0 | Star :: ts => 1 + stars ts | One _ :: ts => stars ts end.

(** ** Facts of the reference *)

Lemma class_members_cons c p1 : class_members (c :: p1) =
    let single := let '(ms, r) := class_members p1 in (lit c :: ms, r) in
    match p1 with
    | d :: p2 =>
      if c =? 92 then let '(ms, r) := class_members p2 in (esc d :: ms, r)
      else if c =? 93 then ([], p1)
      else match p2 with
           | e :: p3 => if d =? 45 then let '(ms, r) := class_members p3 in (range c e :: ms, r) else single
           | [] => single
           end
    | [] => if c =? 93 then ([], p1) else single
    end.
Proof. reflexivity. Qed.

Lemma class_rest_length p : (length (snd (class_members p)) <= length p)%nat.
Proof.
  induction p as [p IH] using (induction_ltof1 _ (@length Z)); unfold ltof in IH.
  destruct p as [|c p1]; [done|].
  assert (Hrec : forall q, (length q < length (c :: p1))%nat -> forall f,
    (length (snd (let '(ms, r) := class_members q in (f :: ms, r))) <= length (c :: p1))%nat).
  { intros q Hq f. specialize (IH q Hq). destruct (class_members q). cbn in *. lia. }
  rewrite class_members_cons. cbv zeta. destruct p1 as [|d p2].
  { destruct (c =? 93); [cbn; lia|apply Hrec; cbn; lia]. }
  destruct (c =? 92); [apply Hrec; cbn; lia|]. destruct (c =? 93); [cbn; lia|].
  destruct p2 as [|e p3]; [apply Hrec; cbn; lia|]. destruct (d =? 45); apply Hrec; cbn; lia.
Qed.

Lemma toks_fuel n : forall m p, (length p <= n)%nat -> (length p <= m)%nat -> toks n p = toks m p.
Proof.
  induction n as [|n IH]; intros m p Hn Hm; [destruct p; [by destruct m|cbn in Hn; lia]|].
  destruct p as [|c p]; [by destruct m|]. destruct m as [|m]; [cbn in Hm; lia|]. cbn in Hn, Hm. cbn [toks].
  rewrite (IH m p) by lia. destruct (c =? 42); [done|]. destruct (c =? 63); [done|]. destruct (c =? 91).
  - set (not := match p with d :: _ => d =? 94 | [] => false end). set (q := if not then tail p else p). pose proof (class_rest_length q) as Hr.
    assert (length q <= length p)%nat by (unfold q; destruct not; [destruct p; cbn; lia|lia]).
    destruct (class_members q) as [ms r]. cbn in Hr. f_equal. apply IH; lia.
  - destruct p as [|d p']; [done|]. cbn in *. rewrite (IH m p') by lia. done.
Qed.

Lemma tokens_cons c p : tokens (c :: p) =
  if c =? 42 then Star :: tokens p
  else if c =? 63 then One (fun _ => true) :: tokens p
  else if c =? 91 then
    let not := match p with d :: _ => d =? 94 | [] => false end in
    let '(ms, r) := class_members (if not then tail p else p) in
    One (class_test not ms) :: tokens r
  else match p with
       | d :: p' => if c =? 92 then One (lit d) :: tokens p' else One (lit c) :: tokens p
       | [] => One (lit c) :: tokens p
       end.
Proof.
  unfold tokens at 1. cbn [length toks]. destruct (c =? 42); [done|]. destruct (c =? 63); [done|].
  destruct (c =? 91).
  - cbv zeta. set (not := match p with d :: _ => d =? 94 | [] => false end). set (q := if not then tail p else p). pose proof (class_rest_length q) as Hr.
    assert (length q <= length p)%nat by (unfold q; destruct not; [destruct p; cbn; lia|lia]).
    destruct (class_members q) as [ms r]. cbn in Hr. f_equal. apply toks_fuel; lia.
  - destruct p as [|d p']; [done|]. destruct (c =? 92); [|done]. f_equal. apply toks_fuel; cbn; lia.
Qed.

Lemma suffix_of_cons (s' : list Z) c s : s' `suffix_of` c :: s -> s' = c :: s \/ s' `suffix_of` s.
Proof.
  destruct s' as [|x s']; [right; apply suffix_nil|]. intros Hs. by apply suffix_cons_inv in Hs.
Qed.

(** A star matches what the rest matches at some suffix. *)
Lemma tmatch_star ts s : tmatch (Star :: ts) s = true <-> exists s', s' `suffix_of` s /\ tmatch ts s' = true.
Proof.
  induction s as [|c s IH].
  - cbn. rewrite orb_false_r. split.
    + intros Hm. exists []. split; [done|done].
    + intros (s' & Hs & Hm). by apply suffix_nil_inv in Hs as ->.
  - change (tmatch (Star :: ts) (c :: s)) with (tmatch ts (c :: s) || tmatch (Star :: ts) s).
    rewrite orb_true_iff, IH. split.
    + intros [Hm|(s' & Hs & Hm)]; [by exists (c :: s)|]. exists s'. split; [|done]. by apply suffix_cons_r.
    + intros (s' & Hs & Hm). apply suffix_of_cons in Hs as [->|Hs]; [by left|]. right. by exists s'.
Qed.

Lemma star_suffix ts s s' : s' `suffix_of` s -> tmatch (Star :: ts) s = false -> tmatch (Star :: ts) s' = false.
Proof.
  intros Hs Hf. apply not_true_iff_false. rewrite <- not_true_iff_false in Hf. intros Hm. apply Hf.
  apply tmatch_star in Hm as (s0 & Hs0 & Hm). apply tmatch_star. exists s0. split; [by etrans|done].
Qed.

Lemma star_star ts s : tmatch (Star :: Star :: ts) s = tmatch (Star :: ts) s.
Proof.
  apply eq_true_iff_eq. rewrite (tmatch_star (Star :: ts)). split.
  - intros (s' & Hs & Hm). apply tmatch_star in Hm as (s0 & Hs0 & Hm). apply tmatch_star.
    exists s0. split; [by etrans|done].
  - intros Hm. by exists s.
Qed.

Lemma stars_nonneg ts : 0 <= stars ts.
Proof. induction ts as [|[|f] ts IH]; cbn; lia. Qed.

(** Only stars match the empty string. *)
Lemma tokens_first c p : c <> 42 -> exists f r, tokens (c :: p) = One f :: tokens r.
Proof.
  intros Hc. rewrite tokens_cons, (proj2 (Z.eqb_neq c 42)) by done.
  destruct (c =? 63); [by eexists _, p|]. destruct (c =? 91).
  - cbv zeta. destruct (class_members _) as [ms r]. by eexists _, r.
  - destruct p as [|d p]; [by eexists _, []|]. destruct (c =? 92); [by eexists _, p|by eexists _, (d :: p)].
Qed.

Lemma tmatch_nil p : tmatch (tokens p) [] = forallb (fun c => c =? 42) p.
Proof.
  induction p as [|c p IH]; [done|]. cbn [forallb]. destruct (Z.eqb_spec c 42) as [->|Hc].
  - rewrite tokens_cons. change (42 =? 42) with true. cbn [tmatch]. by rewrite IH, orb_false_r.
  - destruct (tokens_first c p Hc) as (f & r & ->). done.
Qed.

End reference.

(** ** The code against the reference *)

Definition chars (b : bytes) : list Z := wraps 8 <$> b.

Lemma char_at_spec b pre c post : chars b = pre ++ c :: post -> char_at b (zlen pre) = Ok c.
Proof.
  intros Hb. unfold char_at. assert (Hl : chars b !! length pre = Some c) by by rewrite Hb, list_lookup_middle.
  unfold chars in Hl. rewrite list_lookup_fmap in Hl. apply fmap_Some in Hl as (x & Hx & ->).
  unfold rd. rewrite (proj2 (Z.leb_le 0 (zlen pre))), to_nat_zlen, Hx by apply zlen_nonneg. done.
Qed.

Lemma char_at_off b pre q c post : chars b = pre ++ q ++ c :: post -> char_at b (zlen pre + zlen q) = Ok c.
Proof. intros Hb. rewrite <- zlen_app. eapply char_at_spec. by rewrite <- app_assoc. Qed.

(** The range test of the code. *)
Lemma range_cases {A} (nocase : bool) (a b sc : Z) (k : bool -> A) :
  (let '(start, end_) := if b <? a then (b, a) else (a, b) in
   let '(start, end_, sc) := if nocase then (tolower start, tolower end_, tolower sc) else (start, end_, sc) in
   k ((start <=? sc) && (sc <=? end_))) = k (range nocase a b sc).
Proof.
  unfold range. destruct (Z.ltb_spec b a).
  - rewrite Z.min_r, Z.max_l by lia. by destruct nocase.
  - rewrite Z.min_l, Z.max_r by lia. by destruct nocase.
Qed.

Lemma lit_neg (nocase : bool) c sc :
  (if nocase then negb (tolower c =? tolower sc) else negb (c =? sc)) = negb (lit nocase c sc).
Proof. by destruct nocase. Qed.

Section matching.
Context (pattern string : bytes) (nocase : bool).

(** The pattern from position [p] on, before its terminating zero. *)
Definition pat_at (pre p : list Z) : Prop := chars pattern = pre ++ p ++ [0].

Lemma pat_next pre q p : pat_at pre (q ++ p) -> pat_at (pre ++ q) p.
Proof. unfold pat_at. intros ->. by rewrite <- !app_assoc. Qed.

Lemma pat_head pre p : pat_at pre p -> char_at pattern (zlen pre) = Ok (hd 0 p).
Proof. intros Hp. destruct p; eapply char_at_spec; exact Hp. Qed.

Lemma pat_second pre c p : pat_at pre (c :: p) -> char_at pattern (zlen pre + 1) = Ok (hd 0 p).
Proof.
  intros Hp. apply (pat_next pre [c] p), pat_head in Hp. rewrite zlen_app in Hp. exact Hp.
Qed.

Lemma pat_third pre c d p : pat_at pre (c :: d :: p) -> char_at pattern (zlen pre + 2) = Ok (hd 0 p).
Proof.
  intros Hp. apply (pat_next pre [c; d] p), pat_head in Hp. rewrite zlen_app in Hp. exact Hp.
Qed.

Lemma zlen_snoc {A} (l : list A) x : zlen (l ++ [x]) = zlen l + 1.
Proof. by rewrite zlen_app. Qed.

Lemma pat_length pre p : pat_at pre p -> (length p < length pattern)%nat.
Proof.
  intros Hp. apply (f_equal length) in Hp. unfold chars in Hp. rewrite length_fmap, !length_app in Hp. cbn in Hp. lia.
Qed.

(** A class: its members are tried on the current character, and the loop
    ends in front of what follows the class. *)
Lemma class_loop_spec fuel : forall pre p s sc m,
  pat_at pre p -> (length p < fuel)%nat -> char_at string s = Ok sc ->
  exists pos len pre', class_loop pattern string nocase fuel (zlen pre) (zlen p) s m =
    Ok (pos, len, m || existsb (fun f => f sc) (fst (class_members nocase p))) /\
    pat_at pre' (snd (class_members nocase p)) /\ pos + 1 = zlen pre' /\
    len - 1 = zlen (snd (class_members nocase p)).
Proof.
  induction fuel as [|fuel IH]; intros pre p s sc m Hp Hf Hs; [lia|]. cbn [class_loop].
  rewrite (pat_head pre p Hp). cbn [mbind res_bind]. destruct p as [|c p1].
  { cbn. rewrite orb_false_r. exists (zlen pre - 1), 1, pre. split; [done|]. split; [done|]. split; [lia|done]. }
  cbn [hd]. rewrite class_members_cons, zlen_cons. cbv zeta. pose proof (zlen_nonneg p1) as Hn1.
  rewrite (proj2 (Z.eqb_neq (1 + zlen p1) 0)) by lia. cbn in Hf.
  assert (Hstep : forall q r f (b : bool), c :: p1 = q ++ r -> q <> [] -> b = f sc ->
    exists pos len pre', class_loop pattern string nocase fuel (zlen pre + zlen q) (1 + zlen p1 - zlen q) s (m || b) =
      Ok (pos, len, m || existsb (fun f => f sc) (fst (let '(ms, r) := class_members nocase r in (f :: ms, r)))) /\
      pat_at pre' (snd (let '(ms, r) := class_members nocase r in (f :: ms, r))) /\ pos + 1 = zlen pre' /\
      len - 1 = zlen (snd (let '(ms, r) := class_members nocase r in (f :: ms, r)))).
  { intros q r f b Hq Hqn ->. rewrite Hq in Hp. destruct q as [|x q]; [done|]. pose proof (f_equal zlen Hq) as Hz.
    rewrite zlen_cons, zlen_app in Hz. assert (Hlen : (length r < fuel)%nat).
    { apply (f_equal length) in Hq. cbn in Hq. rewrite length_app in Hq. lia. }
    destruct (IH (pre ++ x :: q) r s sc (m || f sc) (pat_next _ _ _ Hp) Hlen Hs) as (pos & len & pre' & E & Hp' & Hpos & Hlen').
    exists pos, len, pre'. rewrite <- zlen_app. replace (1 + zlen p1 - zlen (x :: q)) with (zlen r) by lia. rewrite E.
    destruct (class_members nocase r) as [ms r']. cbn in *. by rewrite orb_assoc. }
  destruct p1 as [|d p2].
  { change (zlen (@nil Z)) with 0. cbn [Z.leb Z.add Z.compare]. rewrite andb_false_r. destruct (c =? 93).
    - exists (zlen pre), 1, (pre ++ [c]). cbn. rewrite orb_false_r, zlen_snoc. split; [done|]. split; [|done].
      by apply (pat_next _ [c]).
    - cbn [mbind res_bind]. rewrite Hs. cbn [mbind res_bind]. by apply (Hstep [c] [] (lit nocase c)). }
  rewrite zlen_cons in *. pose proof (zlen_nonneg p2) as Hn2.
  rewrite (proj2 (Z.leb_le 2 _)) by lia. rewrite andb_true_r. rewrite (pat_second _ _ _ Hp).
  destruct (c =? 92).
  { cbn [mbind res_bind hd]. rewrite Hs. cbn [mbind res_bind].
    replace (zlen pre + 1 + 1) with (zlen pre + zlen [c; d]) by (unfold zlen; cbn; lia).
    replace (1 + (1 + zlen p2) - 1 - 1) with (1 + (1 + zlen p2) - zlen [c; d]) by (change (zlen [c; d]) with 2; lia).
    by apply (Hstep [c; d] p2 (esc d)). }
  destruct (c =? 93).
  { exists (zlen pre), (1 + (1 + zlen p2)), (pre ++ [c]). cbn [fst snd existsb]. rewrite orb_false_r, zlen_snoc, zlen_cons.
    split; [done|]. split; [by apply (pat_next _ [c])|]. split; [done|lia]. }
  assert (Hsingle : exists pos len pre',
    (sc0 ← char_at string s; class_loop pattern string nocase fuel (zlen pre + 1) (1 + (1 + zlen p2) - 1) s
       (m || (if nocase then tolower c =? tolower sc0 else c =? sc0))) =
      Ok (pos, len, m || existsb (fun f => f sc) (fst (let '(ms, r) := class_members nocase (d :: p2) in (lit nocase c :: ms, r)))) /\
      pat_at pre' (snd (let '(ms, r) := class_members nocase (d :: p2) in (lit nocase c :: ms, r))) /\ pos + 1 = zlen pre' /\
      len - 1 = zlen (snd (let '(ms, r) := class_members nocase (d :: p2) in (lit nocase c :: ms, r)))).
  { rewrite Hs. cbn [mbind res_bind]. by apply (Hstep [c] (d :: p2) (lit nocase c)). }
  destruct p2 as [|e p3]; [exact Hsingle|].
  rewrite zlen_cons in *. pose proof (zlen_nonneg p3) as Hn3. rewrite (proj2 (Z.leb_le 3 _)) by lia.
  cbn [mbind res_bind hd]. destruct (d =? 45); [|exact Hsingle].
  rewrite (pat_third _ _ _ _ Hp). cbn [mbind res_bind hd]. rewrite Hs. cbn [mbind res_bind].
  pose proof (range_cases nocase c e sc (fun b => class_loop pattern string nocase fuel (zlen pre + 2 + 1)
    (1 + (1 + (1 + zlen p3)) - 2 - 1) s (m || b))) as Er. cbv beta in Er. rewrite Er.
  replace (zlen pre + 2 + 1) with (zlen pre + zlen [c; d; e]) by (unfold zlen; cbn; lia).
  replace (1 + (1 + (1 + zlen p3)) - 2 - 1) with (1 + (1 + (1 + zlen p3)) - zlen [c; d; e]) by (change (zlen [c; d; e]) with 3; lia).
  by apply (Hstep [c; d; e] p3 (range nocase c e)).
Qed.

(** Consecutive stars are one star. *)
Lemma collapse_spec fuel : forall pre p,
  pat_at pre (42 :: p) -> (length p < fuel)%nat ->
  exists pre' p', collapse_stars pattern fuel (zlen pre) (zlen (42 :: p)) = Ok (zlen pre', zlen (42 :: p')) /\
    pat_at pre' (42 :: p') /\ (length p' <= length p)%nat /\ hd 0 p' <> 42 /\
    (forall s, tmatch (tokens nocase (42 :: p')) s = tmatch (tokens nocase (42 :: p)) s) /\
    stars (tokens nocase p') <= stars (tokens nocase p).
Proof.
  induction fuel as [|fuel IH]; intros pre p Hp Hf; [lia|]. cbn [collapse_stars].
  rewrite zlen_cons. pose proof (zlen_nonneg p). rewrite (proj2 (Z.eqb_neq _ 0)) by lia.
  rewrite (pat_second _ _ _ Hp). cbn [mbind res_bind]. destruct (Z.eqb_spec (hd 0 p) 42) as [Hh|Hh].
  - destruct p as [|c p]; [done|]. cbn [hd] in Hh. subst c.
    destruct (IH (pre ++ [42]) p) as (pre' & p' & E & Hp' & Hl & Hne & Hm & Hst);
      [by apply (pat_next _ [42])|cbn in Hf; lia|].
    exists pre', p'. rewrite zlen_snoc in E. replace (1 + zlen (42 :: p) - 1) with (zlen (42 :: p)) by lia. rewrite E.
    split; [done|]. split; [done|]. split; [cbn; lia|]. split; [done|]. split.
    + intros s. rewrite Hm. rewrite (tokens_cons nocase 42 (42 :: p)), tokens_cons. change (42 =? 42) with true. cbv iota.
      symmetry. apply star_star.
    + rewrite (tokens_cons nocase 42 p). change (42 =? 42) with true. cbn [stars]. lia.
  - exists pre, p. by rewrite zlen_cons.
Qed.

(** What is left of the pattern when the string is used up matches if it is
    only stars. *)
Lemma trailing_spec fuel : forall pre p,
  pat_at pre p -> (length p < fuel)%nat ->
  exists pos len, trailing_stars pattern fuel (zlen pre) (zlen p) = Ok (pos, len) /\
    (len =? 0) = tmatch (tokens nocase p) [].
Proof.
  induction fuel as [|fuel IH]; intros pre p Hp Hf; [lia|]. cbn [trailing_stars].
  rewrite (pat_head _ _ Hp). cbn [mbind res_bind]. rewrite tmatch_nil. destruct p as [|c p].
  { by eexists _, _. }
  cbn [hd forallb]. rewrite zlen_cons. pose proof (zlen_nonneg p). destruct (c =? 42) eqn:Ec.
  - destruct (IH (pre ++ [c]) p) as (pos & len & E & Hl); [by apply (pat_next _ [c])|cbn in Hf; lia|].
    exists pos, len. rewrite zlen_snoc in E. replace (1 + zlen p - 1) with (zlen p) by lia.
    rewrite E. split; [done|]. by rewrite Hl, tmatch_nil.
  - eexists _, _. split; [done|]. cbn. by rewrite (proj2 (Z.eqb_neq _ 0)) by lia.
Qed.

(** What a matching call says about tokens [ts] on the string [s]: a match is
    one; within the nesting limit a match is found, and [skip] means that no
    suffix matches either. *)
Definition decides (lim : Prop) (ts : list tok) (s : list Z) (b skip : bool) : Prop :=
  (b = true -> tmatch ts s = true) /\
  (lim -> b = tmatch ts s /\ (skip = true -> b = false -> forall s', s' `suffix_of` s -> tmatch ts s' = false)).

(** The string from position [s] on. *)
Definition str_at (spre s : list Z) : Prop := exists post, chars string = spre ++ s ++ post.

Lemma str_next spre c s : str_at spre (c :: s) -> str_at (spre ++ [c]) s.
Proof. intros [post Hs]. exists post. by rewrite Hs, <- app_assoc. Qed.

Lemma str_head spre c s : str_at spre (c :: s) -> char_at string (zlen spre) = Ok c.
Proof. intros [post Hs]. eapply char_at_spec. exact Hs. Qed.

Lemma star_loop_spec call lim ts :
  tmatch ts [] = false ->
  (forall spre s, str_at spre s -> s <> [] ->
     exists b skip, call (zlen spre) (zlen s) false = Ok (b, skip) /\ decides lim ts s b skip) ->
  forall s spre, str_at spre s ->
  exists b skip, star_loop call (length s) (zlen spre) false = Ok (b, skip) /\ decides lim (Star :: ts) s b skip.
Proof.
  intros Hnil Hcall. induction s as [|c s IH]; intros spre Hs.
  { exists false, true. split; [done|]. split; [done|]. intros _. cbn. rewrite Hnil. split; [done|].
    intros _ _ s' ->%suffix_nil_inv. cbn. by rewrite Hnil. }
  destruct (Hcall spre (c :: s) Hs ltac:(done)) as (b & skip & E & Hb & Hlim).
  cbn [length star_loop]. change (Z.of_nat (S (length s))) with (zlen (c :: s)). rewrite E. cbn [mbind res_bind].
  assert (Hunf : tmatch (Star :: ts) (c :: s) = tmatch ts (c :: s) || tmatch (Star :: ts) s) by done.
  destruct b.
  { exists true, skip. split; [done|]. unfold decides. rewrite Hunf, (Hb eq_refl). done. }
  destruct skip.
  { exists false, true. split; [done|]. split; [done|]. intros Hl. destruct (Hlim Hl) as [_ Hall].
    assert (Hf : tmatch (Star :: ts) (c :: s) = false).
    { apply not_true_iff_false. intros (s' & Hs' & Hm)%tmatch_star. by rewrite Hall in Hm. }
    rewrite Hf. split; [done|]. intros _ _ s' Hs'. by eapply star_suffix. }
  destruct (IH (spre ++ [c]) (str_next _ _ _ Hs)) as (b & skip & E' & Hb' & Hlim'). rewrite zlen_snoc in E'.
  exists b, skip. split; [done|]. unfold decides. rewrite Hunf. split.
  - intros Hbt. by rewrite (Hb' Hbt), orb_true_r.
  - intros Hl. destruct (Hlim Hl) as [Heq _]. destruct (Hlim' Hl) as [Heq' _]. rewrite <- Heq. cbn [orb].
    split; [done|]. intros _ Hbf s' Hs'. eapply star_suffix; [done|]. by rewrite Hunf, <- Heq, <- Heq'.
Qed.

(** Behind a test of one character. *)
Lemma decides_one lim f ts c s b skip :
  f c = true -> decides lim ts s b skip -> decides lim (One f :: ts) (c :: s) b skip.
Proof.
  intros Hf [Hb Hlim]. unfold decides. cbn [tmatch]. rewrite Hf. cbn [andb]. split; [done|].
  intros Hl. destruct (Hlim Hl) as [Heq Hall]. split; [done|]. intros Hsk Hbf s' Hs'.
  apply suffix_of_cons in Hs' as [->|Hs']; [rewrite Hf; cbn; by rewrite <- Heq|].
  destruct s' as [|c' s']; [done|]. rewrite (Hall Hsk Hbf s'); [apply andb_false_r|].
  etrans; [|exact Hs']. by apply suffix_cons_r.
Qed.

Lemma decides_fail lim f ts c s : f c = false -> decides lim (One f :: ts) (c :: s) false false.
Proof. intros Hf. split; [done|]. intros _. cbn. by rewrite Hf. Qed.

Lemma advance_spec fuel nesting :
  (forall pre p spre s, pat_at pre p -> (length p < fuel)%nat -> str_at spre s -> s <> [] ->
     exists b skip, match_loop pattern string nocase fuel (zlen pre) (zlen p) (zlen spre) (zlen s) false nesting =
       Ok (b, skip) /\ decides (nesting + stars (tokens nocase p) <= 1000) (tokens nocase p) s b skip) ->
  forall pos len pre r spre c s f, pat_at pre r -> (length r < fuel)%nat -> str_at spre (c :: s) ->
  pos + 1 = zlen pre -> len - 1 = zlen r -> f c = true ->
  exists b skip,
    (if 1 + zlen s - 1 =? 0 then
       x ← trailing_stars pattern (S (length pattern)) (pos + 1) (len - 1);
       Ok ((snd x =? 0) && (1 + zlen s - 1 =? 0), false)
     else match_loop pattern string nocase fuel (pos + 1) (len - 1) (zlen spre + 1) (1 + zlen s - 1) false nesting)
    = Ok (b, skip) /\
    decides (nesting + stars (tokens nocase r) <= 1000) (One f :: tokens nocase r) (c :: s) b skip.
Proof.
  intros IH pos len pre r spre c s f Hp Hf Hs -> -> Hfc. replace (1 + zlen s - 1) with (zlen s) by lia.
  destruct (Z.eqb_spec (zlen s) 0) as [Hz|Hz].
  - apply zlen_nil_inv in Hz as ->. pose proof (pat_length _ _ Hp).
    destruct (trailing_spec (S (length pattern)) pre r Hp ltac:(lia)) as (pos' & len' & -> & Hl).
    cbn [mbind res_bind snd]. rewrite Hl, andb_true_r. eexists _, _. split; [done|]. apply decides_one; [done|].
    split; [done|]. intros _. split; [done|discriminate].
  - destruct (IH pre r (spre ++ [c]) s) as (b & skip & E & Hd); try done; [by eapply str_next|by intros ->|].
    rewrite zlen_snoc in E. exists b, skip. split; [done|]. by apply decides_one.
Qed.

Lemma decides_equiv (lim lim' : Prop) ts ts' s b skip :
  (forall s, tmatch ts s = tmatch ts' s) -> (lim' -> lim) -> decides lim ts s b skip -> decides lim' ts' s b skip.
Proof.
  intros Heq Hl [Hb Hlim]. split; [by rewrite <- Heq|]. intros Hl'. destruct (Hlim (Hl Hl')) as [H1 H2].
  rewrite <- Heq. split; [done|]. intros Hsk Hbf s' Hs'. rewrite <- Heq. by apply H2.
Qed.

(** The class behind a bracket. *)
Lemma class_spec pre p s sc :
  pat_at pre (91 :: p) -> char_at string s = Ok sc ->
  let not := match p with d :: _ => d =? 94 | [] => false end in
  let cm := class_members nocase (if not then tail p else p) in
  exists pos len pre',
    (c ← char_at pattern (zlen pre + 1);
     let '(p', l') := if c =? 94 then (zlen pre + 1 + 1, 1 + zlen p - 1 - 1) else (zlen pre + 1, 1 + zlen p - 1) in
     x ← class_loop pattern string nocase (S (length pattern)) p' l' s false;
     Ok (x, c =? 94)) = Ok (pos, len, existsb (fun f => f sc) (fst cm), not) /\
    pat_at pre' (snd cm) /\ pos + 1 = zlen pre' /\ len - 1 = zlen (snd cm).
Proof.
  intros Hp Hs not cm. pose proof (pat_length _ _ Hp) as Hlen. cbn in Hlen. rewrite (pat_second _ _ _ Hp). cbn [mbind res_bind].
  assert (Hnot : (hd 0 p =? 94) = not) by by destruct p. rewrite Hnot. pose proof (zlen_nonneg p).
  assert (Hq : exists pre0, pat_at pre0 (if not then tail p else p) /\
    (if not then (zlen pre + 1 + 1, 1 + zlen p - 1 - 1) else (zlen pre + 1, 1 + zlen p - 1)) =
    (zlen pre0, zlen (if not then tail p else p)) /\ (length (if not then tail p else p) <= length p)%nat).
  { destruct not; [|exists (pre ++ [91]); rewrite zlen_snoc; split; [by apply (pat_next _ [91])|split; [f_equal; lia|done]]].
    destruct p as [|d p]; [done|]. exists (pre ++ [91; d]). cbn [tail]. split; [by apply (pat_next _ [91; d])|].
    rewrite zlen_app, zlen_cons. change (zlen [91; d]) with 2. split; [f_equal; lia|cbn; lia]. }
  destruct Hq as (pre0 & Hp0 & -> & Hle).
  destruct (class_loop_spec (S (length pattern)) pre0 _ s sc false Hp0 ltac:(lia) Hs) as (pos & len & pre' & -> & Hp' & Hpos & Hl').
  cbn [mbind res_bind orb]. by exists pos, len, pre'.
Qed.

Lemma star_case fuel nesting p p' pre' spre s :
  (forall pre p spre s, pat_at pre p -> (length p < fuel)%nat -> str_at spre s -> s <> [] ->
     exists b skip, match_loop pattern string nocase fuel (zlen pre) (zlen p) (zlen spre) (zlen s) false (nesting + 1) =
       Ok (b, skip) /\ decides (nesting + 1 + stars (tokens nocase p) <= 1000) (tokens nocase p) s b skip) ->
  pat_at pre' (42 :: p') -> (length p' < fuel)%nat -> hd 0 p' <> 42 -> str_at spre s ->
  (forall s, tmatch (tokens nocase (42 :: p')) s = tmatch (tokens nocase (42 :: p)) s) ->
  stars (tokens nocase p') <= stars (tokens nocase p) ->
  exists b skip,
    (if zlen (42 :: p') =? 1 then Ok (true, false) else
     star_loop (fun s stringLen skipLongerMatches =>
       if 1000 <? nesting + 1 then Ok (false, skipLongerMatches)
       else match_loop pattern string nocase fuel (zlen pre' + 1) (zlen (42 :: p') - 1) s stringLen skipLongerMatches (nesting + 1))
       (length s) (zlen spre) false) = Ok (b, skip) /\
    decides (nesting + stars (tokens nocase (42 :: p)) <= 1000) (tokens nocase (42 :: p)) s b skip.
Proof.
  intros IH Hp Hf Hh Hs Hm Hst. set (lim := nesting + 1 + stars (tokens nocase p') <= 1000).
  assert (Hconv : forall b skip, decides lim (tokens nocase (42 :: p')) s b skip ->
    decides (nesting + stars (tokens nocase (42 :: p)) <= 1000) (tokens nocase (42 :: p)) s b skip).
  { intros b skip. apply decides_equiv; [done|]. unfold lim. rewrite (tokens_cons nocase 42 p).
    change (42 =? 42) with true. cbn [stars]. lia. }
  assert (Htok : tokens nocase (42 :: p') = Star :: tokens nocase p') by by rewrite tokens_cons.
  rewrite zlen_cons. destruct (Z.eqb_spec (1 + zlen p') 1) as [Hz|Hz].
  { assert (p' = []) as -> by (apply zlen_nil_inv; lia). exists true, false. split; [done|]. apply Hconv. rewrite Htok.
    assert (Hall : tmatch [Star] s = true) by (apply tmatch_star; exists []; split; [apply suffix_nil|done]).
    split; [done|]. intros _. split; [by symmetry|discriminate]. }
  replace (1 + zlen p' - 1) with (zlen p') by lia.
  destruct (star_loop_spec (fun s stringLen skipLongerMatches =>
       if 1000 <? nesting + 1 then Ok (false, skipLongerMatches)
       else match_loop pattern string nocase fuel (zlen pre' + 1) (zlen p') s stringLen skipLongerMatches (nesting + 1))
     lim (tokens nocase p')) with (s := s) (spre := spre) as (b & skip & E & Hd); [| |done|].
  - rewrite tmatch_nil. destruct p' as [|c p']; [by rewrite zlen_nil in Hz|]. cbn in Hh |- *. by rewrite (proj2 (Z.eqb_neq c 42)).
  - intros spre' s' Hs' Hne. destruct (Z.ltb_spec 1000 (nesting + 1)) as [Hlim|Hlim].
    + exists false, false. split; [done|]. split; [done|]. intros Hl. exfalso. unfold lim in Hl.
      pose proof (stars_nonneg (tokens nocase p')). lia.
    + destruct (IH (pre' ++ [42]) p' spre' s') as (b & skip & E & Hd); try done; [by apply (pat_next _ [42])|].
      rewrite zlen_snoc in E. by exists b, skip.
  - exists b, skip. split; [done|]. apply Hconv. by rewrite Htok.
Qed.

Lemma match_loop_spec fuel : forall nesting pre p spre s,
  pat_at pre p -> (length p < fuel)%nat -> str_at spre s -> s <> [] ->
  exists b skip, match_loop pattern string nocase fuel (zlen pre) (zlen p) (zlen spre) (zlen s) false nesting =
    Ok (b, skip) /\ decides (nesting + stars (tokens nocase p) <= 1000) (tokens nocase p) s b skip.
Proof.
  induction fuel as [|fuel IH]; intros nesting pre p spre s Hp Hf Hs Hne; [lia|]. cbn [match_loop]. cbv zeta.
  destruct s as [|sc s]; [done|]. rewrite zlen_cons. pose proof (zlen_nonneg s).
  rewrite (proj2 (Z.eqb_neq (1 + zlen s) 0)), orb_false_r by lia.
  destruct p as [|c p]; [eexists _, _; by split|]. rewrite zlen_cons. pose proof (zlen_nonneg p).
  rewrite (proj2 (Z.eqb_neq (1 + zlen p) 0)) by lia. rewrite (pat_head _ _ Hp), (str_head _ _ _ Hs).
  cbn [mbind res_bind hd]. pose proof (advance_spec fuel nesting (IH nesting)) as Hadv. cbn in Hf.
  destruct (Z.eqb_spec c 42) as [->|Hc].
  { destruct (collapse_spec (S (length pattern)) pre p Hp) as (pre' & p' & E & Hp' & Hl & Hh & Hm & Hst);
      [pose proof (pat_length _ _ Hp) as Hlen; cbn in Hlen; lia|].
    rewrite zlen_cons in E. rewrite E. cbn [mbind res_bind]. pose proof (stars_nonneg (tokens nocase p')).
    replace (Z.to_nat (1 + zlen s)) with (length (sc :: s)) by (unfold zlen; cbn; lia).
    apply (star_case fuel nesting p p' pre'); try done; [exact (IH (nesting + 1))|lia]. }
  rewrite tokens_cons, (proj2 (Z.eqb_neq c 42)) by done.
  destruct (c =? 63).
  { apply (Hadv _ _ (pre ++ [c]) p spre sc s (fun _ => true)); try done; [by apply (pat_next _ [c])|lia|by rewrite zlen_snoc|lia]. }
  destruct (Z.eqb_spec c 91) as [->|Hc'].
  { destruct (class_spec pre p (zlen spre) sc Hp (str_head _ _ _ Hs)) as (pos & len & pre' & E & Hp' & Hpos & Hl).
    cbv zeta in *. set (not := match p with d :: _ => d =? 94 | [] => false end) in *. set (q := if not then tail p else p) in *.
    assert (Hrl : (length (snd (class_members nocase q)) <= length p)%nat).
    { etrans; [apply class_rest_length|]. unfold q. destruct not; [destruct p; cbn; lia|done]. }
    rewrite (pat_second _ _ _ Hp) in E |- *. cbn [mbind res_bind] in E |- *.
    destruct (if hd 0 p =? 94 then _ else _) as [p0 l0].
    destruct (class_loop _ _ _ _ p0 l0 _ _) as [[[pos' len'] m]|]; [|done]. cbn [mbind res_bind] in E |- *.
    injection E as -> -> -> Hnot. rewrite Hnot. destruct (class_members nocase q) as [ms r]. cbn [fst snd] in *.
    assert (Hneg : (if not then negb (existsb (fun f => f sc) ms) else existsb (fun f => f sc) ms) = class_test not ms sc)
      by by destruct not. rewrite Hneg. destruct (class_test not ms sc) eqn:Et; cbn [negb].
    - apply (Hadv _ _ pre' r spre sc s (class_test not ms)); try done. lia.
    - eexists _, _. split; [done|]. by apply decides_fail. }
  assert (Hlit : forall q x r pos len, c :: p = q ++ x :: r -> pos = zlen pre + zlen q -> len = 1 + zlen p - zlen q ->
    exists b skip,
    (if (if nocase then negb (tolower x =? tolower sc) else negb (x =? sc)) then Ok (false, false) else
     if 1 + zlen s - 1 =? 0 then
       x ← trailing_stars pattern (S (length pattern)) (pos + 1) (len - 1);
       Ok ((snd x =? 0) && (1 + zlen s - 1 =? 0), false)
     else match_loop pattern string nocase fuel (pos + 1) (len - 1) (zlen spre + 1) (1 + zlen s - 1) false nesting)
    = Ok (b, skip) /\
    decides (nesting + stars (tokens nocase r) <= 1000) (One (lit nocase x) :: tokens nocase r) (sc :: s) b skip).
  { intros q x r pos len Hq -> ->. rewrite lit_neg. rewrite Hq in Hp. pose proof (f_equal length Hq) as Hlen.
    cbn in Hlen. rewrite length_app in Hlen. cbn in Hlen. pose proof (f_equal zlen Hq) as Hz.
    rewrite zlen_app, !zlen_cons in Hz. destruct (lit nocase x sc) eqn:El; cbn [negb].
    - apply (Hadv _ _ (pre ++ q ++ [x]) r); try done; [by apply pat_next; rewrite <- app_assoc|lia|rewrite !zlen_app; change (zlen [x]) with 1; lia|lia].
    - eexists _, _. split; [done|]. by apply decides_fail. }
  destruct (c =? 92); destruct p as [|d p].
  - apply (Hlit [] c []); [done|rewrite zlen_nil; lia|rewrite !zlen_nil; lia].
  - rewrite zlen_cons in *. rewrite (proj2 (Z.leb_le 2 _)) by (pose proof (zlen_nonneg p); lia).
    rewrite (pat_second _ _ _ Hp). cbn [mbind res_bind hd]. by apply (Hlit [c] d p).
  - apply (Hlit [] c []); [done|rewrite zlen_nil; lia|rewrite !zlen_nil; lia].
  - apply (Hlit [] c (d :: p)); [done|rewrite zlen_nil; lia|rewrite !zlen_nil; lia].
Qed.

End matching.

(** ** Results *)

Lemma chars_app a b : chars (a ++ b) = chars a ++ chars b.
Proof. apply fmap_app. Qed.

Lemma zlen_chars b : zlen (chars b) = zlen b.
Proof. unfold zlen, chars. by rewrite length_fmap. Qed.

(** C24. Matching a pattern of [patternLen] bytes and its terminating zero
    against the first [stringLen] bytes of a buffer never reads outside them
    and ends.  A match it reports is a match of the reference matcher; for a
    string that is not empty and a pattern of at most 1000 stars it reports
    exactly the reference's answer, so the early exit loses nothing; and the
    empty string is matched by the empty pattern only.  This is what the code
    does where both lengths are values of the [int] parameters, below 2^31. *)
Theorem stringmatchlen_matches (p s rest : bytes) (nocase : bool) :
  exists b, stringmatchlen (p ++ [0]) (s ++ rest) nocase (zlen p) (zlen s) = Ok b /\
  (b = true -> tmatch (tokens nocase (chars p)) (chars s) = true) /\
  (s <> [] -> stars (tokens nocase (chars p)) <= 1000 -> b = tmatch (tokens nocase (chars p)) (chars s)) /\
  (s = [] -> b = bool_decide (p = [])).
Proof.
  unfold stringmatchlen, stringmatchlen_impl. change (1000 <? 0) with false. cbv iota. destruct s as [|c s].
  { cbn [match_loop]. change (zlen (@nil Z)) with 0. rewrite orb_true_r, andb_true_r. cbn [mbind res_bind fst].
    exists (zlen p =? 0). split; [done|]. destruct (Z.eqb_spec (zlen p) 0) as [Hz|Hz].
    - apply zlen_nil_inv in Hz as ->. done.
    - split; [done|]. split; [done|]. intros _. symmetry. apply bool_decide_eq_false_2. by intros ->. }
  destruct (match_loop_spec (p ++ [0]) (c :: s ++ rest) nocase (S (length (p ++ [0]))) 0 [] (chars p) [] (chars (c :: s)))
    as (b & skip & E & Hb & Hlim).
  - unfold pat_at. by rewrite chars_app.
  - unfold chars. rewrite length_fmap, length_app. cbn. lia.
  - exists (chars rest). cbn. f_equal. apply chars_app.
  - done.
  - rewrite !zlen_chars in E. exists b. change ((c :: s) ++ rest) with (c :: s ++ rest).
    change (zlen (@nil Z)) with 0 in E. rewrite E. split; [done|]. split; [done|]. split; [|done].
    intros _ Hst. by apply Hlim.
Qed.

(** Examples: a class, the escape, case folding, and [*] on the empty string. *)
Example glob_examples :
  let m p s nc := stringmatchlen (p ++ [0]) s nc (zlen p) (zlen s) in
  m (bytes_of_string "h[a-e]llo*w?rld") (bytes_of_string "hello, world") false = Ok true /\
  m (bytes_of_string "h[^e]llo") (bytes_of_string "hello") false = Ok false /\
  m (bytes_of_string "\*a") (bytes_of_string "*a") false = Ok true /\
  m (bytes_of_string "HE*") (bytes_of_string "hello") true = Ok true /\
  m (bytes_of_string "*") [] false = Ok false /\
  m (bytes_of_string "[a-Z]") (bytes_of_string "b") true = Ok false.
Proof. vm_compute. done. Qed.

End GlobSpec.
