(* ===== verification/Sds.v ===== *)
(** * Dynamic strings (sds.c, sds.h).

    An sds string is a pointer into an allocation: the header (length,
    allocated size and a flags byte, whose width depends on the type of the
    string) lies before it, the bytes of the string and their terminating zero
    after it.  [s_mem] is the whole allocation, [s_off] the offset of the
    pointer; every access goes through the checked accesses of the prelude, so
    that a header that lies about its buffer is a fault.

    A failed allocation ends the process, so the NULL results of the library
    are not modelled, nor is the jemalloc shortcut of [sdsResize]. *)

From S2P Require Import Prelude Cstring Util.
#[local] Open Scope Z_scope.

Module Sds.
Import Cstring.

Definition SDS_MAX_PREALLOC : Z := 1024 * 1024.
Definition SDS_TYPE_5 : Z := 0.
Definition SDS_TYPE_8 : Z := 1.
Definition SDS_TYPE_16 : Z := 2.
Definition SDS_TYPE_32 : Z := 3.
Definition SDS_TYPE_64 : Z := 4.
Definition SDS_TYPE_MASK : Z := 7.
Definition SDS_TYPE_BITS : Z := 3.
Definition SDS_TYPE_5_LEN (f : Z) : Z := Z.shiftr f SDS_TYPE_BITS.

Record sds : Type := { s_mem : bytes; s_off : Z }.

(** [switch (type & SDS_TYPE_MASK)] *)
Definition switch_type {A} (type : Z) (c5 c8 c16 c32 c64 default : A) : A :=
  let t := Z.land type SDS_TYPE_MASK in
  if t =? SDS_TYPE_5 then c5 else if t =? SDS_TYPE_8 then c8 else if t =? SDS_TYPE_16 then c16
  else if t =? SDS_TYPE_32 then c32 else if t =? SDS_TYPE_64 then c64 else default.

(** ** Accesses through the pointer *)

Definition with_mem (s : sds) (m : bytes) : sds := {| s_mem := m; s_off := s_off s |}.

(** [s[i]], [s[i] = c], and [memcpy] from and to [s + i]. *)
Definition get1 (s : sds) (i : Z) : res Z := rd (s_mem s) (s_off s + i).
Definition put1 (s : sds) (i c : Z) : res sds := m ← wr (s_mem s) (s_off s + i) c; Ok (with_mem s m).
Definition get (s : sds) (i n : Z) : res bytes := rdn (s_mem s) (s_off s + i) n.
Definition put (s : sds) (i : Z) (b : bytes) : res sds := m ← wrn (s_mem s) (s_off s + i) b; Ok (with_mem s m).

(** The fields [len] and [alloc] of a header whose integers have [w] bytes. *)
Definition hdr_len (w : Z) (s : sds) : res Z := b ← get s (- 1 - 2 * w) w; Ok (le_val b).
Definition hdr_alloc (w : Z) (s : sds) : res Z := b ← get s (- 1 - w) w; Ok (le_val b).
Definition set_hdr_len (w : nat) (v : Z) (s : sds) : res sds := put s (- 1 - 2 * Z.of_nat w) (le_bytes w v).
Definition set_hdr_alloc (w : nat) (v : Z) (s : sds) : res sds := put s (- 1 - Z.of_nat w) (le_bytes w v).

Definition sdslen (s : sds) : res Z :=
  flags ← get1 s (-1);
  switch_type flags (Ok (SDS_TYPE_5_LEN flags)) (hdr_len 1 s) (hdr_len 2 s) (hdr_len 4 s) (hdr_len 8 s) (Ok 0).

Definition avail_field (w : Z) (s : sds) : res Z :=
  a ← hdr_alloc w s; l ← hdr_len w s; Ok (u64 (a - l)).

Definition sdsavail (s : sds) : res Z :=
  flags ← get1 s (-1);
  switch_type flags (Ok 0) (avail_field 1 s) (avail_field 2 s) (avail_field 4 s) (avail_field 8 s) (Ok 0).

Definition sdssetlen (s : sds) (newlen : Z) : res sds :=
  flags ← get1 s (-1);
  switch_type flags (put1 s (-1) (Z.lor SDS_TYPE_5 (Z.shiftl newlen SDS_TYPE_BITS)))
    (set_hdr_len 1 newlen s) (set_hdr_len 2 newlen s) (set_hdr_len 4 newlen s) (set_hdr_len 8 newlen s) (Ok s).

Definition sdsalloc (s : sds) : res Z :=
  flags ← get1 s (-1);
  switch_type flags (Ok (SDS_TYPE_5_LEN flags)) (hdr_alloc 1 s) (hdr_alloc 2 s) (hdr_alloc 4 s) (hdr_alloc 8 s) (Ok 0).

Definition sdssetalloc (s : sds) (newlen : Z) : res sds :=
  flags ← get1 s (-1);
  switch_type flags (Ok s)
    (set_hdr_alloc 1 newlen s) (set_hdr_alloc 2 newlen s) (set_hdr_alloc 4 newlen s) (set_hdr_alloc 8 newlen s) (Ok s).

(** ** Types *)

Definition sdsHdrSize (type : Z) : Z := switch_type type 1 3 5 9 17 0.

Definition sdsReqType (string_size : Z) : Z :=
  if string_size <? Z.shiftl 1 5 then SDS_TYPE_5 else
  if string_size <? Z.shiftl 1 8 then SDS_TYPE_8 else
  if string_size <? Z.shiftl 1 16 then SDS_TYPE_16 else
  if string_size <? Z.shiftl 1 32 then SDS_TYPE_32 else SDS_TYPE_64.

Definition sdsTypeMaxSize (type : Z) : Z :=
  if type =? SDS_TYPE_5 then Z.shiftl 1 5 - 1 else
  if type =? SDS_TYPE_8 then Z.shiftl 1 8 - 1 else
  if type =? SDS_TYPE_16 then Z.shiftl 1 16 - 1 else
  if type =? SDS_TYPE_32 then Z.shiftl 1 32 - 1 else UINT64_MAX.

Section alloc.
Context `{Allocator}.

(** ** Creation *)

(** The [init] argument: [SDS_NOINIT], NULL, or a pointer to bytes. *)
Inductive init_arg : Type := NoInit | InitNull | Init (b : bytes).

Definition init_header (w : nat) (type initlen usable : Z) (s : sds) : res sds :=
  s ← set_hdr_len w initlen s; s ← set_hdr_alloc w usable s; put1 s (-1) type.

Definition sdsnewlen (init : init_arg) (initlen : Z) : res sds :=
  let type := sdsReqType initlen in
  let type := if (type =? SDS_TYPE_5) && (initlen =? 0) then SDS_TYPE_8 else type in
  let hdrlen := sdsHdrSize type in
  _ ← cassert (initlen <? u64 (initlen + hdrlen + 1));
  let sh := zmalloc (hdrlen + initlen + 1) in
  sh ← match init with
       | InitNull => wrn sh 0 (replicate (Z.to_nat (hdrlen + initlen + 1)) 0)
       | _ => Ok sh
       end;
  let s := {| s_mem := sh; s_off := hdrlen |} in
  let usable := usable (hdrlen + initlen + 1) - hdrlen - 1 in
  let usable := if sdsTypeMaxSize type <? usable then sdsTypeMaxSize type else usable in
  s ← switch_type type (put1 s (-1) (Z.lor type (Z.shiftl initlen SDS_TYPE_BITS)))
        (init_header 1 type initlen usable s) (init_header 2 type initlen usable s)
        (init_header 4 type initlen usable s) (init_header 8 type initlen usable s) (Ok s);
  s ← match init with
      | Init b => if negb (initlen =? 0) then t ← rdn b 0 initlen; put s 0 t else Ok s
      | _ => Ok s
      end;
  put1 s initlen 0.

Definition sdsempty : res sds := sdsnewlen (Init [0]) 0.

(** From a C string, terminator included. *)
Definition sdsnew (init : bytes) : res sds := initlen ← strlen init; sdsnewlen (Init init) initlen.

Definition sdsdup (s : sds) : res sds :=
  l ← sdslen s; sdsnewlen (Init (drop (Z.to_nat (s_off s)) (s_mem s))) l.

(** ** Size and length *)

Definition sdsupdatelen (s : sds) : res sds :=
  reallen ← strlen (drop (Z.to_nat (s_off s)) (s_mem s)); sdssetlen s reallen.

Definition sdsclear (s : sds) : res sds := s ← sdssetlen s 0; put1 s 0 0.

Definition _sdsMakeRoomFor (s : sds) (addlen : Z) (greedy : bool) : res sds :=
  avail ← sdsavail s;
  flags ← get1 s (-1);
  let oldtype := Z.land flags SDS_TYPE_MASK in
  if addlen <=? avail then Ok s else
  len ← sdslen s;
  let reqlen := u64 (len + addlen) in
  let newlen := reqlen in
  _ ← cassert (len <? newlen);
  let newlen := if greedy then
                  if newlen <? SDS_MAX_PREALLOC then u64 (newlen * 2) else u64 (newlen + SDS_MAX_PREALLOC)
                else newlen in
  let type := sdsReqType newlen in
  let type := if type =? SDS_TYPE_5 then SDS_TYPE_8 else type in
  let hdrlen := sdsHdrSize type in
  let size := u64 (hdrlen + newlen + 1) in
  _ ← cassert (reqlen <? size);
  s ← (if oldtype =? type then Ok {| s_mem := zrealloc (s_mem s) size; s_off := hdrlen |}
       else
         data ← get s 0 (len + 1);
         let s := {| s_mem := zmalloc size; s_off := hdrlen |} in
         s ← put s 0 data;
         s ← put1 s (-1) type;
         sdssetlen s len);
  let usable := usable size - hdrlen - 1 in
  let usable := if sdsTypeMaxSize type <? usable then sdsTypeMaxSize type else usable in
  sdssetalloc s usable.

Definition sdsMakeRoomFor (s : sds) (addlen : Z) : res sds := _sdsMakeRoomFor s addlen true.
Definition sdsMakeRoomForNonGreedy (s : sds) (addlen : Z) : res sds := _sdsMakeRoomFor s addlen false.

Definition sdsResize (s : sds) (size : Z) (would_regrow : bool) : res sds :=
  flags ← get1 s (-1);
  let oldtype := Z.land flags SDS_TYPE_MASK in
  let oldhdrlen := sdsHdrSize oldtype in
  len ← sdslen s;
  alloc ← sdsalloc s;
  if alloc =? size then Ok s else
  let len := if size <? len then size else len in
  let type := sdsReqType size in
  let type := if would_regrow && (type =? SDS_TYPE_5) then SDS_TYPE_8 else type in
  let hdrlen := sdsHdrSize type in
  let use_realloc := (oldtype =? type) || ((type <? oldtype) && (SDS_TYPE_8 <? type)) in
  let newlen := if use_realloc then u64 (oldhdrlen + size + 1) else u64 (hdrlen + size + 1) in
  s ← (if use_realloc then Ok {| s_mem := zrealloc (s_mem s) newlen; s_off := oldhdrlen |}
       else
         data ← get s 0 len;
         let s := {| s_mem := zmalloc newlen; s_off := hdrlen |} in
         s ← put s 0 data;
         put1 s (-1) type);
  s ← put1 s len 0;
  s ← sdssetlen s len;
  sdssetalloc s size.

Definition sdsRemoveFreeSpace (s : sds) (would_regrow : bool) : res sds :=
  l ← sdslen s; sdsResize s l would_regrow.

Definition sdsAllocSize (s : sds) : res Z :=
  alloc ← sdsalloc s; flags ← get1 s (-1); Ok (sdsHdrSize flags + alloc + 1).

(** [sh->len += incr] under the assertion of a header of [w] bytes; [cp] and
    [cn] are the casts of [incr] and [-incr] in it. *)
Definition incr_field (w : nat) (cp cn : Z -> Z) (incr : Z) (s : sds) : res (sds * Z) :=
  a ← hdr_alloc (Z.of_nat w) s; l ← hdr_len (Z.of_nat w) s;
  _ ← cassert ((0 <=? incr) && (cp incr <=? a - l) || (incr <? 0) && (cn (- incr) <=? l));
  s ← set_hdr_len w (l + incr) s;
  l ← hdr_len (Z.of_nat w) s;
  Ok (s, l).

Definition sdsIncrLen (s : sds) (incr : Z) : res sds :=
  flags ← get1 s (-1);
  r ← switch_type flags
        (let oldlen := SDS_TYPE_5_LEN flags in
         _ ← cassert ((0 <? incr) && (oldlen + incr <? 32) || (incr <? 0) && (u32 (- incr) <=? oldlen));
         s ← put1 s (-1) (Z.lor SDS_TYPE_5 (Z.shiftl (oldlen + incr) SDS_TYPE_BITS));
         Ok (s, oldlen + incr))
        (incr_field 1 id u32 incr s) (incr_field 2 id u32 incr s)
        (incr_field 4 u32 u32 incr s) (incr_field 8 u64 u64 incr s) (Ok (s, 0));
  let '(s, len) := r in put1 s len 0.

(** ** Contents *)

Definition sdsgrowzero (s : sds) (len : Z) : res sds :=
  curlen ← sdslen s;
  if len <=? curlen then Ok s else
  s ← sdsMakeRoomFor s (len - curlen);
  s ← put s curlen (replicate (Z.to_nat (len - curlen + 1)) 0);
  sdssetlen s len.

Definition sdscatlen (s : sds) (t : bytes) : res sds :=
  let len := zlen t in
  curlen ← sdslen s;
  s ← sdsMakeRoomFor s len;
  s ← put s curlen t;
  s ← sdssetlen s (curlen + len);
  put1 s (curlen + len) 0.

(** From a C string, terminator included. *)
Definition sdscat (s : sds) (t : bytes) : res sds :=
  n ← strlen t; t ← rdn t 0 n; sdscatlen s t.

(** The bytes of a string, as the source of a copy. *)
Definition contents (s : sds) : res bytes := l ← sdslen s; get s 0 l.

Definition sdscatsds (s t : sds) : res sds := b ← contents t; sdscatlen s b.

Definition sdscpylen (s : sds) (t : bytes) : res sds :=
  let len := zlen t in
  a ← sdsalloc s;
  s ← (if a <? len then l ← sdslen s; sdsMakeRoomFor s (len - l) else Ok s);
  s ← put s 0 t;
  s ← put1 s len 0;
  sdssetlen s len.

Definition sdscpy (s : sds) (t : bytes) : res sds :=
  n ← strlen t; t ← rdn t 0 n; sdscpylen s t.

Definition sdsfromlonglong (value : Z) : res sds :=
  r ← Util.ll2string (replicate (Z.to_nat Util.LONG_STR_SIZE) 0) 0 Util.LONG_STR_SIZE value;
  let '(buf, len) := r in sdsnewlen (Init buf) len.

(** [while (sp <= end && strchr(cset, *sp)) sp++] *)
Fixpoint trim_left (fuel : nat) (s : sds) (cset : bytes) (sp end_ : Z) : res Z :=
  match fuel with
  | O => Fault OutOfFuel
  | S fuel =>
    if sp <=? end_ then
      c ← get1 s sp; m ← strchr cset c;
      match m with Some _ => trim_left fuel s cset (sp + 1) end_ | None => Ok sp end
    else Ok sp
  end.

(** [while (ep > sp && strchr(cset, *ep)) ep--] *)
Fixpoint trim_right (fuel : nat) (s : sds) (cset : bytes) (sp ep : Z) : res Z :=
  match fuel with
  | O => Fault OutOfFuel
  | S fuel =>
    if sp <? ep then
      c ← get1 s ep; m ← strchr cset c;
      match m with Some _ => trim_right fuel s cset sp (ep - 1) | None => Ok ep end
    else Ok ep
  end.

Definition sdstrim (s : sds) (cset : bytes) : res sds :=
  l ← sdslen s;
  let end_ := l - 1 in
  sp ← trim_left (S (Z.to_nat l)) s cset 0 end_;
  ep ← trim_right (S (Z.to_nat l)) s cset sp end_;
  let len := ep - sp + 1 in
  s ← (if negb (sp =? 0) then t ← get s sp len; put s 0 t else Ok s);
  s ← put1 s len 0;
  sdssetlen s len.

Definition sdssubstr (s : sds) (start len : Z) : res sds :=
  oldlen ← sdslen s;
  let '(start, len) := if oldlen <=? start then (0, 0) else (start, len) in
  let len := if oldlen - start <? len then oldlen - start else len in
  s ← (if negb (len =? 0) then t ← get s start len; put s 0 t else Ok s);
  s ← put1 s len 0;
  sdssetlen s len.

Definition sdsrange (s : sds) (start end_ : Z) : res sds :=
  len ← sdslen s;
  if len =? 0 then Ok s else
  let start := if start <? 0 then i64 (len + start) else start in
  let end_ := if end_ <? 0 then i64 (len + end_) else end_ in
  let newlen := if end_ <? start then 0 else end_ - start + 1 in
  sdssubstr s (u64 start) newlen.

(** [for (j = 0; j < len; j++) s[j] = f(s[j])] *)
Fixpoint map_chars (n : nat) (f : Z -> Z) (j : Z) (s : sds) : res sds :=
  match n with
  | O => Ok s
  | S n => c ← get1 s j; s ← put1 s j (f c); map_chars n f (j + 1) s
  end.

Definition sdstolower (s : sds) : res sds := l ← sdslen s; map_chars (Z.to_nat l) tolower 0 s.
Definition sdstoupper (s : sds) : res sds := l ← sdslen s; map_chars (Z.to_nat l) toupper 0 s.

Definition sdscmp (s1 s2 : sds) : res Z :=
  l1 ← sdslen s1;
  l2 ← sdslen s2;
  let minlen := if l1 <? l2 then l1 else l2 in
  b1 ← get s1 0 minlen;
  b2 ← get s2 0 minlen;
  let cmp := memcmp b1 b2 in
  if cmp =? 0 then Ok (if l2 <? l1 then 1 else if l1 <? l2 then -1 else 0) else Ok cmp.

(** ** Splitting and joining *)

(** [tokens[elements] = t] in an array of [slots] pointers. *)
Definition put_token (tokens : list sds) (slots : Z) (t : sds) : res (list sds) :=
  if zlen tokens <? slots then Ok (tokens ++ [t]) else Fault OutOfBounds.

(** [for (j = 0; j < (len-(seplen-1)); j++)] *)
Fixpoint split_loop (fuel : nat) (s : bytes) (len : Z) (sep : bytes) (seplen slots start j : Z) (tokens : list sds)
    : res (list sds * Z * Z) :=
  match fuel with
  | O => Fault OutOfFuel
  | S fuel =>
    if j <? len - (seplen - 1) then
      let slots := if slots <? zlen tokens + 2 then slots * 2 else slots in
      c ← rd s j; s0 ← rd sep 0;
      hit ← (if (seplen =? 1) && (c =? s0) then Ok true
             else a ← rdn s j seplen; b ← rdn sep 0 seplen; Ok (memcmp a b =? 0));
      if hit : bool then
        t ← rdn s start (j - start); t ← sdsnewlen (Init t) (j - start);
        tokens ← put_token tokens slots t;
        split_loop fuel s len sep seplen slots (j + seplen) (j + seplen - 1 + 1) tokens
      else split_loop fuel s len sep seplen slots start (j + 1) tokens
    else Ok (tokens, slots, start)
  end.

(** The tokens, [None] for NULL. *)
Definition sdssplitlen (s : bytes) (len : Z) (sep : bytes) (seplen : Z) : res (option (list sds)) :=
  if (seplen <? 1) || (len <=? 0) then Ok None else
  r ← split_loop (S (Z.to_nat len)) s len sep seplen 5 0 0 [];
  let '(tokens, slots, start) := r in
  t ← rdn s start (len - start); t ← sdsnewlen (Init t) (len - start);
  tokens ← put_token tokens slots t;
  Ok (Some tokens).

(** [sdscatprintf] of a text that [vsnprintf] has produced. *)
Definition sdscatprintf (s : sds) (text : bytes) : res sds := sdscatlen s text.

(** [%02x] of a byte. *)
Definition hex_lower (d : Z) : Z := if d <? 10 then 48 + d else 87 + d.
Definition fmt_02x (c : Z) : bytes := [hex_lower (c / 16); hex_lower (c mod 16)].

Definition repr_char (s : sds) (c : Z) : res sds :=
  if (c =? 92) || (c =? 34) then sdscatprintf s [92; c] else
  if c =? 10 then sdscatlen s [92; 110] else
  if c =? 13 then sdscatlen s [92; 114] else
  if c =? 9 then sdscatlen s [92; 116] else
  if c =? 7 then sdscatlen s [92; 97] else
  if c =? 8 then sdscatlen s [92; 98] else
  if isprint c then sdscatlen s [c]
  else sdscatprintf s ([92; 120] ++ fmt_02x c).

Fixpoint repr_loop (p : bytes) (s : sds) : res sds :=
  match p with
  | [] => Ok s
  | c :: p => s ← repr_char s c; repr_loop p s
  end.

(** The escaped form of the bytes [p], appended to [s]. *)
Definition sdscatrepr (s : sds) (p : bytes) : res sds :=
  s ← sdsMakeRoomFor s (zlen p + 2);
  s ← sdscatlen s [34];
  s ← repr_loop p s;
  sdscatlen s [34].

Definition needs_repr (c : Z) : bool :=
  (c =? 92) || (c =? 34) || (c =? 10) || (c =? 13) || (c =? 9) || (c =? 7) || (c =? 8)
  || negb (isprint c) || isspace c.

Definition sdsneedsrepr (s : sds) : res bool := b ← contents s; Ok (existsb needs_repr b).

Definition is_hex_digit (c : Z) : bool :=
  ((48 <=? c) && (c <=? 57)) || ((97 <=? c) && (c <=? 102)) || ((65 <=? c) && (c <=? 70)).

Definition hex_digit_to_int (c : Z) : Z :=
  if (48 <=? c) && (c <=? 57) then c - 48 else
  if (97 <=? c) && (c <=? 102) then c - 87 else
  if (65 <=? c) && (c <=? 70) then c - 55 else 0.

(** *** [sdssplitargs] *)

(** [inq] and [insq]: inside double or single quotes. *)
Inductive quoting : Type := NoQuote | InQ | InSQ.

(** What one iteration of the token loop does: an error, or the token so far,
    the quoting, [done] and the position. *)
Definition step_result : Type := option (sds * quoting * bool * Z).

(** [if ( *p) p++;] at the end of the iteration. *)
Definition advance (line : bytes) (current : sds) (q : quoting) (done : bool) (p : Z) : res step_result :=
  c ← rd line p; Ok (Some (current, q, done, if c =? 0 then p else p + 1)).

(** [*(p+1) && !isspace( *(p+1))] *)
Definition bad_close (line : bytes) (p : Z) : res bool :=
  c ← rd line (p + 1); Ok (negb (c =? 0) && negb (isspace c)).

(** [*p == '\\' && *(p+1) == 'x' && is_hex_digit( *(p+2)) && is_hex_digit( *(p+3))] *)
Definition is_hex_escape (line : bytes) (p : Z) : res bool :=
  c ← rd line p;
  if negb (c =? 92) then Ok false else
  c ← rd line (p + 1);
  if negb (c =? 120) then Ok false else
  c ← rd line (p + 2);
  if negb (is_hex_digit c) then Ok false else
  c ← rd line (p + 3); Ok (is_hex_digit c).

Definition unescape (c : Z) : Z :=
  if c =? 110 then 10 else if c =? 114 then 13 else if c =? 116 then 9 else if c =? 98 then 8
  else if c =? 97 then 7 else c.

Definition step_inq (line : bytes) (current : sds) (p : Z) : res step_result :=
  hex ← is_hex_escape line p;
  if hex : bool then
    a ← rd line (p + 2); b ← rd line (p + 3);
    current ← sdscatlen current [u8 (hex_digit_to_int a * 16 + hex_digit_to_int b)];
    advance line current InQ false (p + 3)
  else
    c ← rd line p;
    esc ← (if c =? 92 then c1 ← rd line (p + 1); Ok (negb (c1 =? 0)) else Ok false);
    if esc : bool then
      c1 ← rd line (p + 1);
      current ← sdscatlen current [unescape c1];
      advance line current InQ false (p + 1)
    else if c =? 34 then
      bad ← bad_close line p;
      if bad : bool then Ok None else advance line current InQ true p
    else if c =? 0 then Ok None
    else current ← sdscatlen current [c]; advance line current InQ false p.

Definition step_insq (line : bytes) (current : sds) (p : Z) : res step_result :=
  c ← rd line p;
  esc ← (if c =? 92 then c1 ← rd line (p + 1); Ok (c1 =? 39) else Ok false);
  if esc : bool then
    current ← sdscatlen current [39]; advance line current InSQ false (p + 1)
  else if c =? 39 then
    bad ← bad_close line p;
    if bad : bool then Ok None else advance line current InSQ true p
  else if c =? 0 then Ok None
  else current ← sdscatlen current [c]; advance line current InSQ false p.

Definition step_plain (line : bytes) (current : sds) (p : Z) : res step_result :=
  c ← rd line p;
  if (c =? 32) || (c =? 10) || (c =? 13) || (c =? 9) || (c =? 0) then advance line current NoQuote true p
  else if c =? 34 then advance line current InQ false p
  else if c =? 39 then advance line current InSQ false p
  else current ← sdscatlen current [c]; advance line current NoQuote false p.

(** [while(!done)]: the token and the position after it. *)
Fixpoint token_loop (fuel : nat) (line : bytes) (current : sds) (q : quoting) (p : Z) : res (option (sds * Z)) :=
  match fuel with
  | O => Fault OutOfFuel
  | S fuel =>
    r ← match q with
        | InQ => step_inq line current p
        | InSQ => step_insq line current p
        | NoQuote => step_plain line current p
        end;
    match r with
    | None => Ok None
    | Some (current, _, true, p) => Ok (Some (current, p))
    | Some (current, q, false, p) => token_loop fuel line current q p
    end
  end.

(** [while( *p && isspace( *p)) p++] *)
Fixpoint skip_blanks (fuel : nat) (line : bytes) (p : Z) : res Z :=
  match fuel with
  | O => Fault OutOfFuel
  | S fuel =>
    c ← rd line p;
    if negb (c =? 0) && isspace c then skip_blanks fuel line (p + 1) else Ok p
  end.

Fixpoint splitargs_loop (fuel : nat) (line : bytes) (p : Z) (vector : list sds) : res (option (list sds)) :=
  match fuel with
  | O => Fault OutOfFuel
  | S fuel =>
    p ← skip_blanks (S (length line)) line p;
    c ← rd line p;
    if negb (c =? 0) then
      current ← sdsempty;
      r ← token_loop (S (length line)) line current NoQuote p;
      match r with
      | None => Ok None
      | Some (current, p) => splitargs_loop fuel line p (vector ++ [current])
      end
    else Ok (Some vector)
  end.

(** The arguments of a line, a C string with its terminator; [None] for
    unbalanced quotes. *)
Definition sdssplitargs (line : bytes) : res (option (list sds)) :=
  splitargs_loop (S (length line)) line 0 [].

(** [for (i = 0; i < setlen; i++)] of [sdsmapchars]. *)
Fixpoint mapchars_inner (from to : bytes) (c : Z) : Z :=
  match from, to with
  | f :: from, t :: to => if c =? f then t else mapchars_inner from to c
  | _, _ => c
  end.

(** [from] and [to] have [setlen] bytes. *)
Definition sdsmapchars (s : sds) (from to : bytes) : res sds :=
  l ← sdslen s; map_chars (Z.to_nat l) (mapchars_inner from to) 0 s.

Fixpoint join_loop (argv : list sds) (sep : bytes) (join : sds) : res sds :=
  match argv with
  | [] => Ok join
  | [a] => sdscatsds join a
  | a :: argv => join ← sdscatsds join a; join ← sdscatlen join sep; join_loop argv sep join
  end.

Definition sdsjoinsds (argv : list sds) (sep : bytes) : res sds := join ← sdsempty; join_loop argv sep join.

End alloc.

End Sds.
