(* ===== verification/SdsTheory.v ===== *)
(** * Dynamic strings: representation and lemmas.

    [repr s l]: the allocation of [s] holds a header of one of the five types
    that states the length of [l] and no more room than there is, then the
    bytes [l] and a zero.  Every operation of the library is shown to return,
    and to map representations to representations. *)

From S2P Require Import Prelude Cstring Util Sds.
#[local] Open Scope Z_scope.

Module SdsTheory.
Import Cstring Sds.

(** ** Headers *)

Definition width (ty : Z) : nat := if ty =? 1 then 1 else if ty =? 2 then 2 else if ty =? 3 then 4 else 8.

Definition hdr (ty len alloc : Z) : bytes :=
  if ty =? 0 then [len * 8] else le_bytes (width ty) len ++ le_bytes (width ty) alloc ++ [ty].

Definition valid_type (ty : Z) : Prop := 0 <= ty <= 4.

(** The string whose header is as given and whose bytes are [body]. *)
Definition mk (ty len alloc : Z) (body : bytes) : sds :=
  {| s_mem := hdr ty len alloc ++ body; s_off := sdsHdrSize ty |}.

(** Case analysis on the five types. *)
Ltac type_cases ty :=
  let H := fresh in
  assert (ty = 0 \/ ty = 1 \/ ty = 2 \/ ty = 3 \/ ty = 4) as H by (unfold valid_type in *; lia);
  destruct H as [-> | [-> | [-> | [-> | ->]]]].

#[local] Hint Rewrite zlen_le_bytes_nat : zlen.

Lemma zlen_replicate {A} n (x : A) : zlen (replicate n x) = Z.of_nat n.
Proof. unfold zlen. by rewrite length_replicate. Qed.

Lemma zlen_sds_hdr ty len alloc : valid_type ty -> zlen (hdr ty len alloc) = sdsHdrSize ty.
Proof. intros Hv. type_cases ty; unfold hdr; cbn [Z.eqb Pos.eqb width]; by zlen_simpl. Qed.

Lemma flags_mk ty len alloc body :
  valid_type ty -> get1 (mk ty len alloc body) (-1) = Ok (if ty =? 0 then len * 8 else ty).
Proof.
  intros Hv. unfold get1, mk. cbn [s_mem s_off]. rewrite <- (zlen_sds_hdr ty len alloc) by done.
  unfold hdr. destruct (Z.eqb_spec ty 0); [done|]. rewrite app_assoc.
  rewrite zlen_app, <- app_assoc. change (zlen [ty]) with 1.
  replace (_ + 1 + -1) with (zlen (le_bytes (width ty) len ++ le_bytes (width ty) alloc)) by lia.
  apply rd_here.
Qed.

Lemma type5_flags len : 0 <= len < 32 -> Z.land (len * 8) 7 = 0 /\ Z.shiftr (len * 8) 3 = len.
Proof.
  intros Hl. split.
  - change 7 with (2 ^ 3 - 1). rewrite land_ones_mod by lia. apply Z.mod_mul. lia.
  - rewrite Z.shiftr_div_pow2 by lia. apply Z.div_mul. lia.
Qed.

(** The type read from the flags of a header. *)
Lemma type_of_flags ty len :
  valid_type ty -> 0 <= len <= sdsTypeMaxSize ty ->
  Z.land (if ty =? 0 then len * 8 else ty) SDS_TYPE_MASK = ty.
Proof.
  intros Hv Hl. type_cases ty; try done. change (sdsTypeMaxSize 0) with 31 in Hl.
  by apply type5_flags; lia.
Qed.

Lemma switch_flags {A} ty len (c5 c8 c16 c32 c64 d : A) :
  valid_type ty -> 0 <= len <= sdsTypeMaxSize ty ->
  switch_type (if ty =? 0 then len * 8 else ty) c5 c8 c16 c32 c64 d = switch_type ty c5 c8 c16 c32 c64 d.
Proof.
  intros Hv Hl. unfold switch_type. rewrite type_of_flags by done.
  rewrite <- (type_of_flags ty len) at 1 by done. type_cases ty; try done.
  change (Z.land 0 SDS_TYPE_MASK) with 0. by rewrite type_of_flags.
Qed.

Lemma switch_0 {A} (c5 c8 c16 c32 c64 d : A) : switch_type 0 c5 c8 c16 c32 c64 d = c5.
Proof. done. Qed.
Lemma switch_1 {A} (c5 c8 c16 c32 c64 d : A) : switch_type 1 c5 c8 c16 c32 c64 d = c8.
Proof. done. Qed.
Lemma switch_2 {A} (c5 c8 c16 c32 c64 d : A) : switch_type 2 c5 c8 c16 c32 c64 d = c16.
Proof. done. Qed.
Lemma switch_3 {A} (c5 c8 c16 c32 c64 d : A) : switch_type 3 c5 c8 c16 c32 c64 d = c32.
Proof. done. Qed.
Lemma switch_4 {A} (c5 c8 c16 c32 c64 d : A) : switch_type 4 c5 c8 c16 c32 c64 d = c64.
Proof. done. Qed.

(** ** The fields of a header *)

Lemma rdn_app_off b c i n : 0 <= i -> rdn (b ++ c) (zlen b + i) n = rdn c i n.
Proof.
  intros Hi. unfold rdn. pose proof (zlen_nonneg b). rewrite zlen_app.
  rewrite (proj2 (Z.leb_le 0 (zlen b + i))), (proj2 (Z.leb_le 0 i)) by lia.
  destruct (0 <=? n); [|done]. cbn [andb].
  destruct (Z.leb_spec (zlen b + i + n) (zlen b + zlen c)), (Z.leb_spec (i + n) (zlen c)); try lia; [|done].
  rewrite Z2Nat.inj_add, <- drop_drop, to_nat_zlen, drop_app_length by lia. done.
Qed.

Lemma rdn_le_bytes a n x c : rdn (a ++ le_bytes n x ++ c) (zlen a) (Z.of_nat n) = Ok (le_bytes n x).
Proof. rewrite <- (zlen_le_bytes_nat n x). apply rdn_app. Qed.

Lemma rdn_le_bytes_0 n x c : rdn (le_bytes n x ++ c) 0 (Z.of_nat n) = Ok (le_bytes n x).
Proof. apply (rdn_le_bytes []). Qed.

Lemma hdr_len_mk w ty len alloc body :
  0 < ty -> width ty = w -> sdsHdrSize ty = 1 + 2 * Z.of_nat w -> 0 <= len < 2 ^ (8 * Z.of_nat w) ->
  hdr_len (Z.of_nat w) (mk ty len alloc body) = Ok len.
Proof.
  intros Ht <- Hs Hl. unfold hdr_len, get, mk. cbn [s_mem s_off]. rewrite Hs.
  replace (_ + (-1 - _)) with 0 by lia.
  unfold hdr. rewrite (proj2 (Z.eqb_neq ty 0)), <- app_assoc by lia.
  rewrite rdn_le_bytes_0. cbn [mbind res_bind].
  by rewrite le_val_bytes, Z.mod_small.
Qed.

Lemma hdr_alloc_mk w ty len alloc body :
  0 < ty -> width ty = w -> sdsHdrSize ty = 1 + 2 * Z.of_nat w -> 0 <= alloc < 2 ^ (8 * Z.of_nat w) ->
  hdr_alloc (Z.of_nat w) (mk ty len alloc body) = Ok alloc.
Proof.
  intros Ht <- Hs Hl. unfold hdr_alloc, get, mk. cbn [s_mem s_off]. rewrite Hs.
  replace (_ + (-1 - _)) with (zlen (le_bytes (width ty) len)) by (zlen_simpl; lia).
  unfold hdr. rewrite (proj2 (Z.eqb_neq ty 0)), <- !app_assoc by lia.
  rewrite rdn_le_bytes. cbn [mbind res_bind]. by rewrite le_val_bytes, Z.mod_small.
Qed.

Lemma set_hdr_len_mk w ty len alloc body v :
  0 < ty -> width ty = w -> sdsHdrSize ty = 1 + 2 * Z.of_nat w ->
  set_hdr_len w v (mk ty len alloc body) = Ok (mk ty v alloc body).
Proof.
  intros Ht <- Hs. unfold set_hdr_len, put, mk, with_mem. cbn [s_mem s_off]. rewrite Hs.
  replace (_ + (-1 - _)) with 0 by lia. unfold hdr. rewrite (proj2 (Z.eqb_neq ty 0)), <- !app_assoc by lia.
  rewrite wrn_0 by (by rewrite !length_le_bytes). done.
Qed.

Lemma set_hdr_alloc_mk w ty len alloc body v :
  0 < ty -> width ty = w -> sdsHdrSize ty = 1 + 2 * Z.of_nat w ->
  set_hdr_alloc w v (mk ty len alloc body) = Ok (mk ty len v body).
Proof.
  intros Ht <- Hs. unfold set_hdr_alloc, put, mk, with_mem. cbn [s_mem s_off]. rewrite Hs.
  replace (_ + (-1 - _)) with (zlen (le_bytes (width ty) len)) by (zlen_simpl; lia).
  unfold hdr. rewrite (proj2 (Z.eqb_neq ty 0)), <- !app_assoc by lia.
  rewrite wrn_app by (by rewrite !length_le_bytes). done.
Qed.

(** Open the dispatch on the type of [mk] and prove each case. *)
Ltac dispatch ty :=
  rewrite flags_mk by done; cbn [mbind res_bind]; rewrite switch_flags by done;
  type_cases ty; rewrite ?switch_0, ?switch_1, ?switch_2, ?switch_3, ?switch_4.

Lemma sdslen_mk ty len alloc body :
  valid_type ty -> 0 <= len <= sdsTypeMaxSize ty -> sdslen (mk ty len alloc body) = Ok len.
Proof.
  intros Hv Hl. unfold sdslen. dispatch ty.
  - unfold SDS_TYPE_5_LEN. f_equal. apply type5_flags. change (sdsTypeMaxSize 0) with 31 in Hl. lia.
  - apply (hdr_len_mk 1); [done..|]. change (sdsTypeMaxSize 1) with 255 in Hl. lia.
  - apply (hdr_len_mk 2); [done..|]. change (sdsTypeMaxSize 2) with 65535 in Hl. lia.
  - apply (hdr_len_mk 4); [done..|]. change (sdsTypeMaxSize 3) with (2 ^ 32 - 1) in Hl. lia.
  - apply (hdr_len_mk 8); [done..|]. change (sdsTypeMaxSize 4) with (2 ^ 64 - 1) in Hl. lia.
Qed.

(** The values a header of the type holds. *)
Lemma type_bound ty x :
  0 < ty <= 4 -> 0 <= x <= sdsTypeMaxSize ty -> 0 <= x < 2 ^ (8 * Z.of_nat (width ty)).
Proof.
  intros Ht Hx. assert (valid_type ty) by (unfold valid_type; lia).
  type_cases ty; unfold sdsTypeMaxSize in Hx; cbn [Z.eqb Pos.eqb SDS_TYPE_5 SDS_TYPE_8 SDS_TYPE_16 SDS_TYPE_32] in Hx;
    cbn [width Z.eqb Pos.eqb].
  - lia.
  - change (Z.shiftl 1 8 - 1) with 255 in Hx. lia.
  - change (Z.shiftl 1 16 - 1) with 65535 in Hx. lia.
  - change (Z.shiftl 1 32 - 1) with (2 ^ 32 - 1) in Hx. lia.
  - unfold UINT64_MAX in Hx. lia.
Qed.

Lemma bound_type ty x :
  0 < ty <= 4 -> 0 <= x < 2 ^ (8 * Z.of_nat (width ty)) -> 0 <= x <= sdsTypeMaxSize ty.
Proof.
  intros Ht Hx. assert (valid_type ty) by (unfold valid_type; lia).
  type_cases ty; unfold sdsTypeMaxSize; cbn [Z.eqb Pos.eqb SDS_TYPE_5 SDS_TYPE_8 SDS_TYPE_16 SDS_TYPE_32];
    cbn [width Z.eqb Pos.eqb] in Hx.
  - lia.
  - change (Z.shiftl 1 8 - 1) with 255. lia.
  - change (Z.shiftl 1 16 - 1) with 65535. lia.
  - change (Z.shiftl 1 32 - 1) with (2 ^ 32 - 1). lia.
  - unfold UINT64_MAX. lia.
Qed.

(** Room stated by the header: a short string of type 5 has none. *)
Definition cap (ty len alloc : Z) : Z := if ty =? 0 then len else alloc.

Lemma sdsalloc_mk ty len alloc body :
  valid_type ty -> 0 <= len <= sdsTypeMaxSize ty -> 0 <= alloc <= sdsTypeMaxSize ty ->
  sdsalloc (mk ty len alloc body) = Ok (cap ty len alloc).
Proof.
  intros Hv Hl Ha. unfold sdsalloc. dispatch ty.
  - change (sdsTypeMaxSize 0) with 31 in Hl. unfold SDS_TYPE_5_LEN, SDS_TYPE_BITS. change (0 =? 0) with true. cbn iota.
    by rewrite (proj2 (type5_flags len ltac:(lia))).
  - apply (hdr_alloc_mk 1); [done..|]. by apply (type_bound 1).
  - apply (hdr_alloc_mk 2); [done..|]. by apply (type_bound 2).
  - apply (hdr_alloc_mk 4); [done..|]. by apply (type_bound 3).
  - apply (hdr_alloc_mk 8); [done..|]. by apply (type_bound 4).
Qed.

Lemma avail_field_mk w ty len alloc body :
  0 < ty -> width ty = w -> sdsHdrSize ty = 1 + 2 * Z.of_nat w ->
  0 <= len <= alloc -> alloc < 2 ^ (8 * Z.of_nat w) -> alloc < 2 ^ 64 ->
  avail_field (Z.of_nat w) (mk ty len alloc body) = Ok (alloc - len).
Proof.
  intros Ht Hw Hs Hl Ha H64. unfold avail_field.
  rewrite hdr_alloc_mk, hdr_len_mk by (done || lia). cbn [mbind res_bind]. by rewrite wrapu_small by lia.
Qed.

Lemma sdsavail_mk ty len alloc body :
  valid_type ty -> 0 <= len <= alloc -> alloc <= sdsTypeMaxSize ty ->
  sdsavail (mk ty len alloc body) = Ok (cap ty len alloc - len).
Proof.
  intros Hv Hl Ha. assert (0 <= len <= sdsTypeMaxSize ty) by lia. unfold sdsavail. dispatch ty.
  - unfold cap. f_equal. cbn. lia.
  - apply (avail_field_mk 1 1 len alloc); [done|done|done|lia|..]; destruct (type_bound 1 alloc) as [_ Hb]; [lia|lia|..]; cbn in *; lia.
  - apply (avail_field_mk 2 2 len alloc); [done|done|done|lia|..]; destruct (type_bound 2 alloc) as [_ Hb]; [lia|lia|..]; cbn in *; lia.
  - apply (avail_field_mk 4 3 len alloc); [done|done|done|lia|..]; destruct (type_bound 3 alloc) as [_ Hb]; [lia|lia|..]; cbn in *; lia.
  - apply (avail_field_mk 8 4 len alloc); [done|done|done|lia|..]; destruct (type_bound 4 alloc) as [_ Hb]; [lia|lia|..]; cbn in *; lia.
Qed.

Lemma put1_flags5 len alloc body v :
  0 <= v <= 31 ->
  put1 (mk 0 len alloc body) (-1) (Z.lor SDS_TYPE_5 (Z.shiftl v 3)) = Ok (mk 0 v alloc body).
Proof.
  intros Hv. unfold put1, mk, with_mem. cbn [s_mem s_off]. change (sdsHdrSize 0 + -1) with 0.
  change (hdr 0 len alloc ++ body) with (len * 8 :: body). rewrite wr_0. cbn [mbind res_bind].
  change (Z.lor SDS_TYPE_5 (Z.shiftl v 3)) with (Z.shiftl v 3).
  by rewrite Z.shiftl_mul_pow2, u8_small by (unfold is_byte; lia).
Qed.

Lemma sdssetlen_mk ty len alloc body v :
  valid_type ty -> 0 <= len <= sdsTypeMaxSize ty -> 0 <= v <= sdsTypeMaxSize ty ->
  sdssetlen (mk ty len alloc body) v = Ok (mk ty v alloc body).
Proof.
  intros Hv Hl Hnew. unfold sdssetlen. dispatch ty.
  - by apply put1_flags5.
  - by apply (set_hdr_len_mk 1).
  - by apply (set_hdr_len_mk 2).
  - by apply (set_hdr_len_mk 4).
  - by apply (set_hdr_len_mk 8).
Qed.

Lemma sdssetalloc_mk ty len alloc body v :
  valid_type ty -> 0 <= len <= sdsTypeMaxSize ty ->
  sdssetalloc (mk ty len alloc body) v = Ok (mk ty len v body).
Proof.
  intros Hv Hl. unfold sdssetalloc. dispatch ty.
  - done.
  - by apply (set_hdr_alloc_mk 1).
  - by apply (set_hdr_alloc_mk 2).
  - by apply (set_hdr_alloc_mk 4).
  - by apply (set_hdr_alloc_mk 8).
Qed.

(** ** The body *)

Section body.
Context (ty len alloc : Z) (body : bytes).
Hypothesis Hty : valid_type ty.

Lemma get_mk i n : 0 <= i -> get (mk ty len alloc body) i n = rdn body i n.
Proof.
  intros Hi. unfold get, mk. cbn [s_mem s_off]. rewrite <- (zlen_sds_hdr ty len alloc) by done.
  apply rdn_app_off. done.
Qed.

Lemma get1_mk i : 0 <= i -> get1 (mk ty len alloc body) i = rd body i.
Proof.
  intros Hi. unfold get1, mk. cbn [s_mem s_off]. rewrite <- (zlen_sds_hdr ty len alloc) by done.
  by apply rd_app_off.
Qed.

Lemma put_mk i t : 0 <= i -> put (mk ty len alloc body) i t = (b ← wrn body i t; Ok (mk ty len alloc b)).
Proof.
  intros Hi. unfold put, mk, with_mem. cbn [s_mem s_off]. rewrite <- (zlen_sds_hdr ty len alloc) by done.
  rewrite wrn_app_off by done. by destruct (wrn body i t).
Qed.

Lemma put1_mk i c : 0 <= i -> put1 (mk ty len alloc body) i c = (b ← wr body i c; Ok (mk ty len alloc b)).
Proof.
  intros Hi. unfold put1, mk, with_mem. cbn [s_mem s_off]. rewrite <- (zlen_sds_hdr ty len alloc) by done.
  rewrite wr_app_off by done. by destruct (wr body i c).
Qed.

Lemma drop_mk : drop (Z.to_nat (s_off (mk ty len alloc body))) (s_mem (mk ty len alloc body)) = body.
Proof.
  unfold mk. cbn [s_mem s_off]. rewrite <- (zlen_sds_hdr ty len alloc), to_nat_zlen by done. apply drop_app_length.
Qed.

End body.

(** ** Representation *)

Record Repr (s : sds) (l : bytes) (ty alloc : Z) (rest : bytes) : Prop := {
  r_eq : s = mk ty (zlen l) alloc (l ++ 0 :: rest);
  r_ty : valid_type ty;
  r_len : zlen l <= alloc;
  r_max : alloc <= sdsTypeMaxSize ty;
  r_room : alloc <= zlen l + zlen rest;
  r_short : ty = 0 -> alloc = zlen l;
  r_wf : wf_bytes l
}.

Definition repr (s : sds) (l : bytes) : Prop := exists ty alloc rest, Repr s l ty alloc rest.

(** A representation with room for [n] more bytes. *)
Definition roomy (s : sds) (l : bytes) (n : Z) : Prop :=
  exists ty alloc rest, Repr s l ty alloc rest /\ zlen l + n <= alloc.

(** Strings that the library can still extend without overflow. *)
Definition max_size : Z := 2 ^ 62.

Lemma repr_intro ty alloc l rest :
  valid_type ty -> zlen l <= alloc -> alloc <= sdsTypeMaxSize ty -> alloc <= zlen l + zlen rest -> wf_bytes l ->
  repr (mk ty (zlen l) alloc (l ++ 0 :: rest)) l.
Proof.
  intros Hv Hl Hm Hr Hw. destruct (decide (ty = 0)) as [->|Hne].
  - exists 0, (zlen l), rest. pose proof (zlen_nonneg rest). split; [done|done|lia|lia|lia|done|done].
  - exists ty, alloc, rest. by split.
Qed.

Lemma Repr_lens s l ty alloc rest :
  Repr s l ty alloc rest -> 0 <= zlen l <= sdsTypeMaxSize ty /\ 0 <= alloc <= sdsTypeMaxSize ty.
Proof. intros [_ _ ? ? _ _ _]. pose proof (zlen_nonneg l). lia. Qed.

Lemma sdslen_spec s l : repr s l -> sdslen s = Ok (zlen l).
Proof.
  intros (ty & alloc & rest & H). destruct (Repr_lens _ _ _ _ _ H). destruct H as [-> ? _ _ _ _ _].
  by apply sdslen_mk.
Qed.

Lemma Repr_cap s l ty alloc rest : Repr s l ty alloc rest -> cap ty (zlen l) alloc = alloc.
Proof. intros [_ _ _ _ _ Hs _]. unfold cap. destruct (Z.eqb_spec ty 0); [by rewrite Hs|done]. Qed.

Lemma sdsalloc_spec s l ty alloc rest : Repr s l ty alloc rest -> sdsalloc s = Ok alloc.
Proof.
  intros H. destruct (Repr_lens _ _ _ _ _ H). pose proof (Repr_cap _ _ _ _ _ H) as Hc.
  destruct H as [-> ? _ _ _ _ _]. rewrite sdsalloc_mk by done. by rewrite Hc.
Qed.

Lemma contents_spec s l : repr s l -> contents s = Ok l.
Proof.
  intros H. unfold contents. rewrite (sdslen_spec s l) by done. cbn [mbind res_bind].
  destruct H as (ty & alloc & rest & [-> ? _ _ _ _ _]). rewrite get_mk by (done || lia).
  apply (rdn_app [] l).
Qed.

Lemma roomy_repr s l n : roomy s l n -> repr s l.
Proof. intros (ty & alloc & rest & H & _). by exists ty, alloc, rest. Qed.

(** Storing the new content [l'] in the room of a string, with the zero after
    it, and setting the length. *)
Lemma store_content ty len alloc l' rest :
  valid_type ty -> 0 <= len <= sdsTypeMaxSize ty -> zlen l' <= alloc -> alloc <= sdsTypeMaxSize ty ->
  alloc <= zlen l' + zlen rest -> wf_bytes l' ->
  exists s, sdssetlen (mk ty len alloc (l' ++ 0 :: rest)) (zlen l') = Ok s /\ repr s l'.
Proof.
  intros Hv Hl Hl' Hm Hr Hw. eexists. split; [|by apply repr_intro].
  apply sdssetlen_mk; [done|done|]. pose proof (zlen_nonneg l'). lia.
Qed.

(** The byte after the content set to zero. *)
Lemma terminate ty len alloc l' x rest :
  valid_type ty -> put1 (mk ty len alloc (l' ++ x :: rest)) (zlen l') 0 = Ok (mk ty len alloc (l' ++ 0 :: rest)).
Proof. intros Hv. rewrite put1_mk by (done || apply zlen_nonneg). by rewrite wr_app. Qed.

(** ** Fresh headers *)

Section fresh.
Context (w : nat) (ty : Z) (h1 h2 body : bytes) (f : Z).
Hypothesis Hty : 0 < ty <= 4.
Hypothesis Hw : width ty = w.
Hypothesis Hsize : sdsHdrSize ty = 1 + 2 * Z.of_nat w.
Hypothesis Hh1 : zlen h1 = Z.of_nat w.
Hypothesis Hh2 : zlen h2 = Z.of_nat w.
Let raw : sds := {| s_mem := h1 ++ h2 ++ f :: body; s_off := sdsHdrSize ty |}.

Lemma hdr_wide len alloc : hdr ty len alloc = le_bytes w len ++ le_bytes w alloc ++ [ty].
Proof. unfold hdr. by rewrite (proj2 (Z.eqb_neq ty 0)), Hw by lia. Qed.

Lemma init_header_raw len alloc :
  init_header w ty len alloc raw = Ok (mk ty len alloc body).
Proof.
  unfold init_header, set_hdr_len, set_hdr_alloc, put, put1, with_mem, raw. cbn [s_mem s_off]. rewrite Hsize.
  replace (_ + (-1 - 2 * _)) with 0 by lia.
  rewrite wrn_0 by (rewrite length_le_bytes; unfold zlen in *; lia). cbn [mbind res_bind s_mem s_off].
  replace (_ + (-1 - _)) with (zlen (le_bytes w len)) by (zlen_simpl; lia).
  rewrite wrn_app by (rewrite length_le_bytes; unfold zlen in *; lia). cbn [mbind res_bind s_mem s_off].
  rewrite (app_assoc (le_bytes w len)).
  replace (_ + -1) with (zlen (le_bytes w len ++ le_bytes w alloc)) by (zlen_simpl; lia).
  rewrite wr_app, u8_small by (unfold is_byte; lia). cbn [mbind res_bind].
  unfold mk. by rewrite hdr_wide, Hsize, <- !app_assoc.
Qed.

Lemma put_type_raw :
  wf_bytes h1 -> wf_bytes h2 -> put1 raw (-1) ty = Ok (mk ty (le_val h1) (le_val h2) body).
Proof.
  intros H1 H2. unfold put1, with_mem, raw. cbn [s_mem s_off]. rewrite Hsize, app_assoc.
  replace (_ + -1) with (zlen (h1 ++ h2)) by (zlen_simpl; lia).
  rewrite wr_app, u8_small by (unfold is_byte; lia). cbn [mbind res_bind].
  unfold mk. rewrite hdr_wide, Hsize.
  assert (le_bytes w (le_val h1) = h1) as ->
    by (replace w with (length h1) by (unfold zlen in *; lia); by apply le_bytes_val).
  assert (le_bytes w (le_val h2) = h2) as ->
    by (replace w with (length h2) by (unfold zlen in *; lia); by apply le_bytes_val).
  by rewrite <- !app_assoc.
Qed.

End fresh.

(** ** Allocation *)

Lemma sdsReqType_spec n :
  0 <= n <= UINT64_MAX -> valid_type (sdsReqType n) /\ n <= sdsTypeMaxSize (sdsReqType n).
Proof.
  intros Hn. unfold sdsReqType, UINT64_MAX in *. change (Z.shiftl 1 5) with 32. change (Z.shiftl 1 8) with 256.
  change (Z.shiftl 1 16) with 65536. change (Z.shiftl 1 32) with (2 ^ 32).
  repeat match goal with |- context [?a <? ?b] => destruct (Z.ltb_spec a b) end; unfold valid_type;
    (split; [done|]).
  - change (n <= 31). lia.
  - change (n <= 255). lia.
  - change (n <= 65535). lia.
  - change (n <= 2 ^ 32 - 1). lia.
  - change (n <= UINT64_MAX). unfold UINT64_MAX. lia.
Qed.

Lemma sdsTypeMaxSize_mono a b : valid_type a -> valid_type b -> a <= b -> sdsTypeMaxSize a <= sdsTypeMaxSize b.
Proof. intros Ha Hb Hle. type_cases a; type_cases b; vm_compute; done || lia. Qed.

Lemma wide_size ty :
  0 < ty <= 4 -> sdsHdrSize ty = 1 + 2 * Z.of_nat (width ty).
Proof. intros Ht. assert (valid_type ty) by (unfold valid_type; lia). type_cases ty; done || lia. Qed.

Lemma hdr_size_range ty : valid_type ty -> 1 <= sdsHdrSize ty <= 17.
Proof. intros Hv. type_cases ty; vm_compute; done. Qed.

Section alloc.
Context `{Allocator}.

Lemma zlen_zmalloc_eq n : 0 <= n -> zlen (zmalloc n) = usable n.
Proof. intros. pose proof (usable_ge n). unfold zmalloc. rewrite realloc_length; [done|lia]. Qed.

Lemma wf_zmalloc n : wf_bytes (zmalloc n).
Proof.
  unfold zmalloc, realloc. cbn. rewrite take_nil. cbn [app]. apply Forall_fmap, Forall_true. intros i. apply junk_byte.
Qed.

(** A fresh allocation, as header bytes and body. *)
Lemma zmalloc_raw ty n :
  0 < ty <= 4 -> sdsHdrSize ty + 1 <= n -> exists h1 h2 f body,
  zmalloc n = h1 ++ h2 ++ f :: body /\ zlen h1 = Z.of_nat (width ty) /\ zlen h2 = Z.of_nat (width ty) /\
  zlen body = usable n - sdsHdrSize ty /\ wf_bytes h1 /\ wf_bytes h2 /\ wf_bytes body.
Proof.
  intros Ht Hn. pose proof (usable_ge n) as Hu. rewrite (wide_size ty) in * by done.
  pose proof (zlen_zmalloc_eq n ltac:(lia)) as Hl. pose proof (wf_zmalloc n) as Hwf.
  destruct (split_room (zmalloc n) (Z.of_nat (width ty)) (usable n - Z.of_nat (width ty)))
    as (h1 & r1 & E1 & L1 & Lr1); [lia..|]. rewrite E1 in Hwf.
  destruct (split_room r1 (Z.of_nat (width ty)) (usable n - 2 * Z.of_nat (width ty)))
    as (h2 & r2 & -> & L2 & Lr2); [lia..|].
  destruct r2 as [|f body]; [change (zlen []) with 0 in Lr2; lia|]. zlen_simpl.
  apply Forall_app in Hwf as [? [? Hb]%Forall_app]. apply Forall_cons_1 in Hb as [_ Hb].
  exists h1, h2, f, body. split_and!; done || lia.
Qed.

(** The room a header states. *)
Definition clip (ty size : Z) : Z :=
  let u := usable size - sdsHdrSize ty - 1 in if sdsTypeMaxSize ty <? u then sdsTypeMaxSize ty else u.

Lemma clip_spec ty n size :
  n <= sdsTypeMaxSize ty -> sdsHdrSize ty + n + 1 <= size ->
  n <= clip ty size <= sdsTypeMaxSize ty /\ clip ty size + 1 <= usable size - sdsHdrSize ty.
Proof.
  intros Hn Hs. pose proof (usable_ge size). unfold clip.
  destruct (Z.ltb_spec (sdsTypeMaxSize ty) (usable size - sdsHdrSize ty - 1)); lia.
Qed.

(** Growing in place. *)
Lemma realloc_body ty alloc l rest size :
  valid_type ty -> sdsHdrSize ty + zlen l + 1 <= size ->
  exists rest', {| s_mem := zrealloc (s_mem (mk ty (zlen l) alloc (l ++ 0 :: rest))) size; s_off := sdsHdrSize ty |}
    = mk ty (zlen l) alloc (l ++ 0 :: rest') /\ zlen l + zlen rest' + 1 = usable size - sdsHdrSize ty.
Proof.
  intros Hv Hs. unfold mk. cbn [s_mem]. set (h := hdr ty (zlen l) alloc).
  assert (zlen h = sdsHdrSize ty) as Hh by (by apply zlen_sds_hdr).
  replace (h ++ l ++ 0 :: rest) with ((h ++ l ++ [0]) ++ rest) by (by rewrite <- !app_assoc).
  destruct (zrealloc_prefix (h ++ l ++ [0]) rest size) as [rest' E]; [zlen_simpl; lia|].
  exists rest'. rewrite E. split; [by rewrite <- !app_assoc|].
  pose proof (usable_ge size). pose proof (zlen_nonneg l).
  assert (zlen (zrealloc ((h ++ l ++ [0]) ++ rest) size) = usable size) as Hlen
    by (apply realloc_length; pose proof (hdr_size_range ty Hv); lia).
  rewrite E in Hlen. zlen_simpl. lia.
Qed.

(** Moving to an allocation with a header of another type. *)
Lemma move_body ty alloc l rest nty size :
  valid_type ty -> 0 < nty <= 4 -> zlen l <= sdsTypeMaxSize nty -> sdsHdrSize nty + zlen l + 1 <= size ->
  exists alloc' rest',
    (data ← get (mk ty (zlen l) alloc (l ++ 0 :: rest)) 0 (zlen l + 1);
     let s := {| s_mem := zmalloc size; s_off := sdsHdrSize nty |} in
     s ← put s 0 data; s ← put1 s (-1) nty; sdssetlen s (zlen l))
    = Ok (mk nty (zlen l) alloc' (l ++ 0 :: rest')) /\ zlen l + zlen rest' + 1 = usable size - sdsHdrSize nty.
Proof.
  intros Hv Hn Hm Hs. pose proof (zlen_nonneg l) as Hl0. pose proof (usable_ge size).
  rewrite get_mk by (done || lia).
  assert (rdn (l ++ 0 :: rest) 0 (zlen l + 1) = Ok (l ++ [0])) as ->.
  { replace (zlen l + 1) with (zlen (l ++ [0])) by (zlen_simpl; lia).
    rewrite <- (snoc_app l 0 rest). apply (rdn_app []). }
  cbn [mbind res_bind]. destruct (zmalloc_raw nty size) as (h1 & h2 & f & body & E & L1 & L2 & Lb & W1 & W2 & _); [lia..|].
  destruct (split_room body (zlen l + 1) (usable size - sdsHdrSize nty - zlen l - 1)) as (b1 & b2 & -> & Lb1 & Lb2); [lia..|].
  rewrite E. unfold put at 1. unfold with_mem. cbn [s_mem s_off].
  rewrite (wide_size nty) in * by done.
  replace (h1 ++ h2 ++ f :: b1 ++ b2) with ((h1 ++ h2 ++ [f]) ++ b1 ++ b2) by (by rewrite <- !app_assoc).
  replace (_ + 0) with (zlen (h1 ++ h2 ++ [f])) by (zlen_simpl; lia).
  rewrite wrn_app by (apply zlen_length; zlen_simpl; lia). cbn [mbind res_bind].
  replace ((h1 ++ h2 ++ [f]) ++ (l ++ [0]) ++ b2) with (h1 ++ h2 ++ f :: (l ++ 0 :: b2))
    by (by rewrite snoc_app, <- !app_assoc).
  rewrite <- (wide_size nty) in * by done.
  rewrite (put_type_raw (width nty)) by (done || by apply wide_size). cbn [mbind res_bind].
  rewrite sdssetlen_mk; [|unfold valid_type; lia|..|lia].
  - eexists _, b2. split; [done|]. zlen_simpl. lia.
  - pose proof (le_val_range h1 W1) as Hr. rewrite L1 in Hr. by apply bound_type.
Qed.

(** [sdsMakeRoomFor]: the content is kept and there is room. *)
Lemma make_room_spec s l n g :
  repr s l -> 0 <= n -> zlen l + n <= max_size ->
  exists s', _sdsMakeRoomFor s n g = Ok s' /\ roomy s' l n.
Proof.
  intros (ty & alloc & rest & HR) Hn Hmax. destruct (Repr_lens _ _ _ _ _ HR) as [Hl Ha].
  pose proof HR as HR0. destruct HR as [-> Hv Hla Hm Hr Hs Hwf].
  unfold _sdsMakeRoomFor, max_size in *.
  rewrite sdsavail_mk by (done || lia). cbn [mbind res_bind]. rewrite flags_mk by done. cbn [mbind res_bind].
  rewrite type_of_flags by done.
  rewrite (Repr_cap _ _ _ _ _ HR0).
  destruct (Z.leb_spec n (alloc - zlen l)) as [Hfit|Hgrow].
  { eexists. split; [done|]. exists ty, alloc, rest. split; [done|lia]. }
  rewrite sdslen_mk by done. cbn [mbind res_bind]. rewrite (wrapu_small 64 (zlen l + n)) by lia.
  rewrite (proj2 (Z.ltb_lt (zlen l) (zlen l + n))) by lia. cbn [cassert mbind res_bind].
  set (newlen := if g then _ else _).
  assert (zlen l + n <= newlen <= 2 ^ 63) as Hnew.
  { unfold newlen, SDS_MAX_PREALLOC. destruct g; [|lia].
    destruct (Z.ltb_spec (zlen l + n) (1024 * 1024)); rewrite wrapu_small; lia. }
  destruct (sdsReqType_spec newlen) as [Hnv Hnm]; [unfold UINT64_MAX; lia|].
  set (nty := if sdsReqType newlen =? SDS_TYPE_5 then _ else _).
  assert (0 < nty <= 4 /\ newlen <= sdsTypeMaxSize nty) as [Hnt Hnm'].
  { unfold nty. destruct (Z.eqb_spec (sdsReqType newlen) SDS_TYPE_5) as [E|E]; unfold valid_type, SDS_TYPE_5 in *.
    - rewrite E in Hnm. split; [done|]. change (sdsTypeMaxSize 0) with 31 in Hnm.
      change (newlen <= 255). lia.
    - split; [lia|done]. }
  assert (valid_type nty) as Hnv' by (unfold valid_type; lia).
  pose proof (hdr_size_range nty Hnv') as Hhs.
  rewrite (wrapu_small 64 (sdsHdrSize nty + newlen + 1)) by lia.
  rewrite (proj2 (Z.ltb_lt (zlen l + n) _)) by lia. cbn [cassert mbind res_bind].
  set (size := sdsHdrSize nty + newlen + 1).
  destruct (clip_spec nty newlen size Hnm' ltac:(lia)) as [Hclip Hclip'].
  fold (clip nty size).
  set (grown := if ty =? nty then _ else _).
  assert (exists alloc' rest', zlen l + zlen rest' + 1 = usable size - sdsHdrSize nty /\
    grown = Ok (mk nty (zlen l) alloc' (l ++ 0 :: rest'))) as (alloc' & rest' & Hrest & ->).
  { unfold grown. destruct (Z.eqb_spec ty nty) as [->|].
    - destruct (realloc_body nty alloc l rest size) as (rest' & -> & ?); [done|lia|]. eauto.
    - destruct (move_body ty alloc l rest nty size) as (alloc' & rest' & E & ?); [done|done|lia|lia|].
      exists alloc', rest'. split; [done|exact E]. }
  cbn [mbind res_bind]. rewrite sdssetalloc_mk by (done || lia). eexists. split; [done|].
  exists nty, (clip nty size), rest'. split; [|lia]. split; [done|done|lia|lia|lia|lia|done].
Qed.

(** ** Creation *)

(** The header written by [sdsnewlen], for a body to be filled. *)
Lemma new_header type n sh body :
  valid_type type -> 0 <= n <= sdsTypeMaxSize type ->
  (type = 0 -> exists f, sh = f :: body) ->
  (0 < type -> exists h1 h2 f, sh = h1 ++ h2 ++ f :: body /\
     zlen h1 = Z.of_nat (width type) /\ zlen h2 = Z.of_nat (width type)) ->
  forall alloc, let s := {| s_mem := sh; s_off := sdsHdrSize type |} in
  switch_type type (put1 s (-1) (Z.lor type (Z.shiftl n SDS_TYPE_BITS)))
    (init_header 1 type n alloc s) (init_header 2 type n alloc s)
    (init_header 4 type n alloc s) (init_header 8 type n alloc s) (Ok s) = Ok (mk type n alloc body).
Proof.
  intros Hv Hn H5 Hw alloc s.
  assert (type = 0 \/ 0 < type <= 4) as [->|Ht] by (unfold valid_type in *; lia).
  - destruct (H5 eq_refl) as [f ->]. change (sdsTypeMaxSize 0) with 31 in Hn.
    change (put1 s (-1) (Z.shiftl n 3) = Ok (mk 0 n alloc body)). unfold put1, s. cbn [s_mem s_off].
    change (sdsHdrSize 0 + -1) with 0. rewrite wr_0. cbn [mbind res_bind].
    by rewrite Z.shiftl_mul_pow2, u8_small by (unfold is_byte; lia).
  - destruct (Hw ltac:(lia)) as (h1 & h2 & f & -> & L1 & L2). unfold s. clear s H5 Hw.
    pose proof (wide_size type Ht) as Hs.
    type_cases type; [lia|..]; rewrite ?switch_0, ?switch_1, ?switch_2, ?switch_3, ?switch_4.
    + by apply (init_header_raw 1 1).
    + by apply (init_header_raw 2 2).
    + by apply (init_header_raw 4 3).
    + by apply (init_header_raw 8 4).
Qed.

#[local] Instance init_arg_eq_dec : EqDecision init_arg.
Proof. solve_decision. Defined.

(** Header bytes of an allocation. *)
Lemma split_header type (hh : bytes) :
  valid_type type -> zlen hh = sdsHdrSize type ->
  (type = 0 -> exists f, hh = [f]) /\
  (0 < type -> exists h1 h2 f, hh = h1 ++ h2 ++ [f] /\
     zlen h1 = Z.of_nat (width type) /\ zlen h2 = Z.of_nat (width type)).
Proof.
  intros Hv Hl. split.
  - intros ->. destruct hh as [|f [|? hh]]; [done|by exists f|]. zlen_simpl. pose proof (zlen_nonneg hh).
    change (sdsHdrSize 0) with 1 in Hl. lia.
  - intros Ht. rewrite wide_size in Hl by (unfold valid_type in *; lia).
    destruct (split_room hh (Z.of_nat (width type)) (Z.of_nat (width type) + 1)) as (h1 & r & -> & L1 & Lr); [lia..|].
    destruct (split_room r (Z.of_nat (width type)) 1) as (h2 & f & -> & L2 & Lf); [lia..|].
    destruct f as [|f [|? g]]; [done| |zlen_simpl; pose proof (zlen_nonneg g); lia].
    by exists h1, h2, f.
Qed.

(** The allocation of a fresh string: header, [n] bytes, and at least one more. *)
Lemma new_memory init hdrlen n :
  1 <= hdrlen <= 17 -> 0 <= n -> let size := hdrlen + n + 1 in
  exists hh b0 x rest,
    match init with InitNull => wrn (zmalloc size) 0 (replicate (Z.to_nat size) 0) | _ => Ok (zmalloc size) end
      = Ok (hh ++ b0 ++ x :: rest) /\
    zlen hh = hdrlen /\ zlen b0 = n /\ zlen rest = usable size - size /\ wf_bytes b0 /\
    (init = InitNull -> b0 = replicate (Z.to_nat n) 0).
Proof.
  intros Hh Hn size. pose proof (usable_ge size). pose proof (zlen_zmalloc_eq size ltac:(lia)) as Hl.
  destruct (decide (init = InitNull)) as [->|Hne].
  - destruct (split_room (zmalloc size) size (usable size - size)) as (a & rest & E & La & Lr); [lia..|].
    rewrite E, wrn_0 by (rewrite length_replicate; unfold zlen in *; lia).
    exists (replicate (Z.to_nat hdrlen) 0), (replicate (Z.to_nat n) 0), 0, rest. unfold zlen.
    rewrite !length_replicate. split_and!; [|lia|lia|done| |done].
    + f_equal. replace (Z.to_nat size) with (Z.to_nat hdrlen + (Z.to_nat n + 1))%nat by lia.
      by rewrite !replicate_add, <- !app_assoc.
    + apply Forall_replicate. unfold is_byte. lia.
  - pose proof (wf_zmalloc size) as Hwf.
    destruct (split_room (zmalloc size) hdrlen (usable size - hdrlen)) as (hh & r & E & Lh & Lr); [lia..|].
    destruct (split_room r n (usable size - hdrlen - n)) as (b0 & r' & -> & Lb & Lr'); [lia..|].
    destruct r' as [|x rest]; [change (zlen []) with 0 in Lr'; lia|]. zlen_simpl.
    exists hh, b0, x, rest. rewrite E in Hwf. apply Forall_app in Hwf as [_ [? _]%Forall_app].
    destruct init; [..|]; try done; rewrite E; split_and!; done || lia.
Qed.

(** A fresh string: [n] unset bytes, or zeros, or the start of [b]. *)
Lemma sdsnewlen_gen init n :
  0 <= n <= max_size -> (forall b, init = Init b -> n <= zlen b /\ wf_bytes (take (Z.to_nat n) b)) ->
  exists s l, sdsnewlen init n = Ok s /\ repr s l /\ zlen l = n /\
    (forall b, init = Init b -> l = take (Z.to_nat n) b) /\
    (init = InitNull -> l = replicate (Z.to_nat n) 0).
Proof.
  intros Hn Hb. unfold max_size in Hn. unfold sdsnewlen.
  destruct (sdsReqType_spec n) as [Hv Hm]; [unfold UINT64_MAX; lia|].
  set (type := if (sdsReqType n =? SDS_TYPE_5) && (n =? 0) then SDS_TYPE_8 else sdsReqType n).
  assert (valid_type type /\ n <= sdsTypeMaxSize type) as [Hv' Hm'].
  { unfold type. destruct (_ && _) eqn:E; [|done]. apply andb_true_iff in E as [_ ->%Z.eqb_eq]. done. }
  pose proof (hdr_size_range type Hv') as Hh.
  rewrite (wrapu_small 64) by lia. rewrite (proj2 (Z.ltb_lt n _)) by lia. cbn [cassert mbind res_bind].
  destruct (new_memory init (sdsHdrSize type) n Hh) as (hh & b0 & x & rest & Hsh & Lh & Lb & Lr & Hw & Hz); [lia|].
  cbn zeta in Hsh. rewrite Hsh. cbn [mbind res_bind].
  destruct (clip_spec type n (sdsHdrSize type + n + 1) Hm' ltac:(lia)) as [Hc Hc'].
  fold (clip type (sdsHdrSize type + n + 1)). set (alloc := clip _ _) in *.
  destruct (split_header type hh Hv' Lh) as [H5 Hwide].
  rewrite (new_header type n (hh ++ b0 ++ x :: rest) (b0 ++ x :: rest));
    [cbn [mbind res_bind]|done|lia|intros ->; destruct (H5 eq_refl) as [f ->]; by exists f
    |intros Ht; destruct (Hwide Ht) as (h1 & h2 & f & -> & ? & ?); exists h1, h2, f; by rewrite <- !app_assoc].
  assert (forall l, zlen l = n -> wf_bytes l -> exists s,
    put1 (mk type n alloc (l ++ x :: rest)) n 0 = Ok s /\ repr s l) as Hfin.
  { intros l Ll Hwl. eexists. rewrite <- Ll. split; [by apply terminate|].
    apply repr_intro; [done|lia..|done]. }
  destruct init as [| |b].
  1, 2: destruct (Hfin b0 Lb Hw) as (s & Hs & Hr); exists s, b0; split_and!; by try apply Hz.
  destruct (Hb b eq_refl) as [Hnb Hwb]. destruct (Hfin (take (Z.to_nat n) b)) as (s & Hs & Hr);
    [rewrite zlen_take; lia|done|]. exists s, (take (Z.to_nat n) b).
  assert ((if negb (n =? 0) then t ← rdn b 0 n; put (mk type n alloc (b0 ++ x :: rest)) 0 t
           else Ok (mk type n alloc (b0 ++ x :: rest))) = Ok (mk type n alloc (take (Z.to_nat n) b ++ x :: rest))) as ->.
  { destruct (Z.eqb_spec n 0) as [E0|E0]; cbn [negb].
    - rewrite E0 in *. apply zlen_nil_inv in Lb as ->. done.
    - unfold rdn. rewrite (proj2 (Z.leb_le 0 n)), (proj2 (Z.leb_le (0 + n) (zlen b))) by lia. cbn [andb Z.leb Z.compare mbind res_bind].
      rewrite put_mk by (done || lia). rewrite drop_0, wrn_0; [done|]. apply zlen_length. rewrite zlen_take; lia. }
  split_and!; [done|done|rewrite zlen_take; lia|by intros ? [= <-]|done].
Qed.

Lemma sdsnewlen_spec b n :
  0 <= n <= max_size -> n <= zlen b -> wf_bytes (take (Z.to_nat n) b) ->
  exists s, sdsnewlen (Init b) n = Ok s /\ repr s (take (Z.to_nat n) b).
Proof.
  intros Hn Hb Hw. destruct (sdsnewlen_gen (Init b) n) as (s & l & Hs & Hr & _ & Hl & _); [done|by intros ? [= <-]|].
  exists s. split; [done|]. by rewrite <- (Hl b eq_refl).
Qed.

Lemma sdsnewlen_all b :
  zlen b <= max_size -> wf_bytes b -> exists s, sdsnewlen (Init b) (zlen b) = Ok s /\ repr s b.
Proof.
  intros Hm Hw. pose proof (zlen_nonneg b). destruct (sdsnewlen_spec b (zlen b)) as (s & Hs & Hr); [lia|lia|..].
  - by rewrite to_nat_zlen, take_ge.
  - rewrite to_nat_zlen, take_ge in Hr by done. eauto.
Qed.

Lemma sdsempty_spec : exists s, sdsempty = Ok s /\ repr s [].
Proof. apply (sdsnewlen_spec [0] 0); [unfold max_size; lia|zlen_simpl; lia|constructor]. Qed.

Lemma sdsdup_spec s l : repr s l -> zlen l <= max_size -> exists s', sdsdup s = Ok s' /\ repr s' l.
Proof.
  intros Hr Hm. unfold sdsdup. rewrite (sdslen_spec s l) by done. cbn [mbind res_bind].
  destruct Hr as (ty & alloc & rest & [-> ? ? ? ? ? ?]). rewrite drop_mk by done.
  pose proof (zlen_nonneg l). pose proof (zlen_nonneg rest).
  destruct (sdsnewlen_spec (l ++ 0 :: rest) (zlen l)) as (s & Hs & Hr); [lia|zlen_simpl; lia|..].
  - by rewrite to_nat_zlen, take_app_length.
  - rewrite to_nat_zlen, take_app_length in Hr. eauto.
Qed.

(** ** Contents *)

(** Overwriting [n] bytes from offset [zlen a] on, in a body that has them. *)
Lemma put_body ty len alloc a (r t : bytes) :
  valid_type ty -> zlen t <= zlen r ->
  put (mk ty len alloc (a ++ r)) (zlen a) t = Ok (mk ty len alloc (a ++ t ++ drop (length t) r)).
Proof.
  intros Hv Hl. rewrite put_mk by (done || apply zlen_nonneg).
  rewrite <- (take_drop (length t) r) at 1. rewrite wrn_app; [done|].
  rewrite length_take. unfold zlen in *. lia.
Qed.

Lemma put_body_0 ty len alloc (r t : bytes) :
  valid_type ty -> zlen t <= zlen r ->
  put (mk ty len alloc r) 0 t = Ok (mk ty len alloc (t ++ drop (length t) r)).
Proof. apply (put_body ty len alloc []). Qed.

(** The end of a body with its terminator left: at least one byte. *)
Lemma drop_nonempty (r : bytes) n :
  (n < length r)%nat -> exists x r', drop n r = x :: r' /\ zlen r' = zlen r - Z.of_nat n - 1.
Proof.
  intros Hn. destruct (drop n r) as [|x r'] eqn:E.
  - apply (f_equal length) in E. rewrite length_drop in E. cbn in E. lia.
  - exists x, r'. split; [done|]. apply (f_equal length) in E. rewrite length_drop in E. cbn in E.
    unfold zlen. lia.
Qed.

Lemma sdsclear_spec s l : repr s l -> exists s', sdsclear s = Ok s' /\ repr s' [].
Proof.
  intros (ty & alloc & rest & HR). destruct (Repr_lens _ _ _ _ _ HR). destruct HR as [-> Hv ? ? ? ? ?].
  pose proof (zlen_nonneg l). pose proof (zlen_nonneg rest).
  unfold sdsclear. rewrite sdssetlen_mk by (done || lia). cbn [mbind res_bind].
  destruct (drop_nonempty (l ++ 0 :: rest) 0) as (x & r & E & Lr); [rewrite length_app; cbn; lia|].
  rewrite drop_0 in E. rewrite E. eexists. split; [by apply (terminate ty 0 alloc [])|].
  zlen_simpl. apply (repr_intro ty alloc []); [done|zlen_simpl; lia..|constructor].
Qed.

Lemma sdscatlen_spec s l t :
  repr s l -> wf_bytes t -> zlen l + zlen t <= max_size ->
  exists s', sdscatlen s t = Ok s' /\ repr s' (l ++ t).
Proof.
  intros Hr Hw Hm. unfold sdscatlen. rewrite (sdslen_spec s l) by done. cbn [mbind res_bind].
  pose proof (zlen_nonneg t) as Ht.
  destruct (make_room_spec s l (zlen t) true Hr Ht Hm) as (s1 & Hs1 & ty & alloc & rest & HR & Hroom).
  unfold sdsMakeRoomFor. rewrite Hs1. cbn [mbind res_bind].
  destruct (Repr_lens _ _ _ _ _ HR). destruct HR as [-> Hv ? ? ? Hs ?].
  rewrite put_body by (done || (zlen_simpl; lia)). cbn [mbind res_bind].
  destruct (drop_nonempty (0 :: rest) (length t)) as (x & r & E & Lr); [unfold zlen in *; cbn; lia|].
  rewrite E, sdssetlen_mk by (done || (pose proof (zlen_nonneg l); lia)). cbn [mbind res_bind].
  rewrite app_assoc, <- zlen_app, terminate by done. eexists. split; [done|].
  zlen_simpl. rewrite <- zlen_app. apply repr_intro; [done|zlen_simpl; unfold zlen in *; lia..|by apply Forall_app].
Qed.

Lemma sdscatsds_spec s l s2 t :
  repr s l -> repr s2 t -> zlen l + zlen t <= max_size -> exists s', sdscatsds s s2 = Ok s' /\ repr s' (l ++ t).
Proof.
  intros Hr Ht Hm. unfold sdscatsds. rewrite (contents_spec s2 t) by done. cbn [mbind res_bind].
  apply sdscatlen_spec; [done| |done]. by destruct Ht as (? & ? & ? & []).
Qed.

Lemma sdscpylen_spec s l t :
  repr s l -> wf_bytes t -> zlen l + zlen t <= max_size ->
  exists s', sdscpylen s t = Ok s' /\ repr s' t.
Proof.
  intros Hr Hw Hm. unfold sdscpylen. pose proof (zlen_nonneg t). pose proof (zlen_nonneg l).
  assert (exists s1 l1 ty alloc rest, (a ← sdsalloc s; if a <? zlen t then l ← sdslen s; sdsMakeRoomFor s (zlen t - l) else Ok s) = Ok s1 /\
    Repr s1 l1 ty alloc rest /\ zlen t <= alloc) as (s1 & l1 & ty & alloc & rest & Hs1 & HR & Hroom).
  { pose proof Hr as (ty & alloc & rest & HR). rewrite (sdslen_spec s l), (sdsalloc_spec _ _ _ _ _ HR) by done.
    cbn [mbind res_bind]. pose proof (r_len _ _ _ _ _ HR).
    destruct (Z.ltb_spec alloc (zlen t)); [|by exists s, l, ty, alloc, rest].
    destruct (make_room_spec s l (zlen t - zlen l) true Hr) as (s1 & Hs1 & ty1 & alloc1 & rest1 & HR1 & Hroom); [lia..|].
    exists s1, l, ty1, alloc1, rest1. split; [done|]. split; [done|lia]. }
  destruct (sdsalloc s) as [a|]; [|done]. cbn [mbind res_bind] in Hs1 |- *. rewrite Hs1. cbn [mbind res_bind].
  destruct (Repr_lens _ _ _ _ _ HR). destruct HR as [-> Hv ? ? ? Hs ?].
  rewrite put_body_0 by (done || (zlen_simpl; lia)). cbn [mbind res_bind].
  destruct (drop_nonempty (l1 ++ 0 :: rest) (length t)) as (x & r & E & Lr);
    [rewrite length_app; unfold zlen in *; cbn; lia|].
  rewrite E, terminate by done. cbn [mbind res_bind]. zlen_simpl.
  apply store_content; [done|lia|lia|lia|unfold zlen in *; lia|done].
Qed.

Lemma sdsgrowzero_spec s l n :
  repr s l -> n <= max_size ->
  exists s', sdsgrowzero s n = Ok s' /\ repr s' (l ++ replicate (Z.to_nat (n - zlen l)) 0).
Proof.
  intros Hr Hm. unfold sdsgrowzero. rewrite (sdslen_spec s l) by done. cbn [mbind res_bind].
  destruct (Z.leb_spec n (zlen l)) as [Hle|Hgt].
  { exists s. replace (Z.to_nat (n - zlen l)) with 0%nat by lia. cbn [replicate]. by rewrite app_nil_r. }
  destruct (make_room_spec s l (n - zlen l) true Hr) as (s1 & Hs1 & ty & alloc & rest & HR & Hroom); [lia..|].
  unfold sdsMakeRoomFor. rewrite Hs1. cbn [mbind res_bind].
  destruct (Repr_lens _ _ _ _ _ HR). destruct HR as [-> Hv ? ? ? Hs ?].
  replace (Z.to_nat (n - zlen l + 1)) with (Z.to_nat (n - zlen l) + 1)%nat by lia. rewrite replicate_add.
  set (z := replicate (Z.to_nat (n - zlen l)) 0).
  assert (zlen z = n - zlen l) as Hz by (unfold z; rewrite zlen_replicate; lia).
  rewrite put_body by (done || (zlen_simpl; cbn; zlen_simpl; lia)). cbn [mbind res_bind replicate].
  rewrite <- !app_assoc, app_assoc. cbn [app].
  replace n with (zlen (l ++ z)) by (zlen_simpl; lia).
  apply store_content; [done|lia|zlen_simpl; lia|lia| |].
  - zlen_simpl. unfold zlen. rewrite length_drop, length_app. cbn [length]. unfold zlen in *. lia.
  - apply Forall_app. split; [done|]. apply Forall_replicate. unfold is_byte. lia.
Qed.

(** The terminator and the length of a content already in place. *)
Lemma finish_content ty len0 alloc t r :
  valid_type ty -> 0 <= len0 <= sdsTypeMaxSize ty -> zlen t <= alloc -> alloc <= sdsTypeMaxSize ty ->
  alloc + 1 <= zlen t + zlen r -> wf_bytes t ->
  exists s', (s ← put1 (mk ty len0 alloc (t ++ r)) (zlen t) 0; sdssetlen s (zlen t)) = Ok s' /\ repr s' t.
Proof.
  intros Hv Hl Ht Ha Hr Hw. destruct r as [|x r]; [zlen_simpl; lia|]. zlen_simpl.
  rewrite terminate by done. cbn [mbind res_bind]. apply store_content; done || lia.
Qed.

(** Keeping a part of the content, moved to the front. *)
Lemma shift_spec s l start len :
  repr s l -> 0 <= start -> 0 <= len -> start + len <= zlen l ->
  exists s', (s ← (if negb (len =? 0) then t ← get s start len; put s 0 t else Ok s);
    s ← put1 s len 0; sdssetlen s len) = Ok s' /\ repr s' (take (Z.to_nat len) (drop (Z.to_nat start) l)).
Proof.
  intros (ty & alloc & rest & HR) Hst Hl Hle. destruct (Repr_lens _ _ _ _ _ HR).
  destruct HR as [-> Hv ? ? ? Hs Hwf]. set (t := take (Z.to_nat len) (drop (Z.to_nat start) l)).
  assert (zlen t = len) as Ht by (apply zlen_take; unfold zlen in *; rewrite length_drop; lia).
  assert (wf_bytes t) as Hwt by (apply Forall_take, Forall_drop; done).
  pose proof (zlen_nonneg rest).
  assert (exists r, zlen r = zlen l + 1 + zlen rest - len /\
    (if negb (len =? 0) then t ← get (mk ty (zlen l) alloc (l ++ 0 :: rest)) start len;
        put (mk ty (zlen l) alloc (l ++ 0 :: rest)) 0 t else Ok (mk ty (zlen l) alloc (l ++ 0 :: rest)))
    = Ok (mk ty (zlen l) alloc (t ++ r))) as (r & Lr & ->).
  { destruct (Z.eqb_spec len 0) as [E|E]; cbn [negb].
    - rewrite E in Ht. apply zlen_nil_inv in Ht as ->. eexists. split; [|done]. zlen_simpl. lia.
    - rewrite get_mk by (done || lia). unfold rdn.
      rewrite (proj2 (Z.leb_le 0 start)), (proj2 (Z.leb_le 0 len)), (proj2 (Z.leb_le (start + len) _))
        by (zlen_simpl; lia). cbn [andb mbind res_bind].
      assert (take (Z.to_nat len) (drop (Z.to_nat start) (l ++ 0 :: rest)) = t) as ->.
      { rewrite drop_app_le, take_app_le; [done|..]; rewrite ?length_drop; unfold zlen in *; lia. }
      rewrite put_body_0 by (done || (zlen_simpl; lia)). eexists. split; [|done].
      unfold zlen. rewrite length_drop, length_app. cbn [length]. unfold zlen in *. lia. }
  cbn [mbind res_bind]. clearbody t. subst len. apply finish_content; done || lia.
Qed.

Lemma sdssubstr_spec s l start len :
  repr s l -> 0 <= start -> 0 <= len ->
  exists s', sdssubstr s start len = Ok s' /\ repr s' (take (Z.to_nat len) (drop (Z.to_nat start) l)).
Proof.
  intros Hr Hst Hl. unfold sdssubstr. rewrite (sdslen_spec s l) by done. cbn [mbind res_bind].
  pose proof (zlen_nonneg l).
  destruct (Z.leb_spec (zlen l) start) as [Hout|Hin].
  - destruct (Z.ltb_spec (zlen l - 0) 0); [lia|].
    destruct (shift_spec s l 0 0 Hr) as (s' & Hs & Hr'); [lia..|]. exists s'. split; [done|].
    rewrite drop_ge by (unfold zlen in *; lia). by rewrite take_nil.
  - destruct (Z.ltb_spec (zlen l - start) len).
    + destruct (shift_spec s l start (zlen l - start) Hr) as (s' & Hs & Hr'); [lia..|]. exists s'. split; [done|].
      rewrite take_ge in Hr' |- * by (rewrite length_drop; unfold zlen in *; lia). done.
    + apply shift_spec; [done|lia..].
Qed.

(** The part of [l] between two indexes, negative ones counted from the end;
    nothing when the first one is before the start. *)
Definition range (l : bytes) (start end_ : Z) : bytes :=
  let n := zlen l in
  let a := if start <? 0 then n + start else start in
  let b := if end_ <? 0 then n + end_ else end_ in
  if a <? 0 then [] else take (Z.to_nat (b - a + 1)) (drop (Z.to_nat a) l).

Lemma norm_index n i :
  0 <= n <= 2 ^ 62 -> - 2 ^ 63 <= i ->
  (if i <? 0 then i64 (n + i) else i) = (if i <? 0 then n + i else i).
Proof. intros. destruct (Z.ltb_spec i 0); [|done]. apply wraps_small; change (64 - 1) with 63; lia. Qed.

Lemma sdsrange_spec s l start end_ :
  repr s l -> zlen l <= max_size -> is_i64 start -> is_i64 end_ ->
  exists s', sdsrange s start end_ = Ok s' /\ repr s' (range l start end_).
Proof.
  intros Hr Hm Ha Hb. unfold sdsrange. rewrite (sdslen_spec s l) by done. cbn [mbind res_bind].
  unfold is_i64, INT64_MIN, INT64_MAX, max_size in *. pose proof (zlen_nonneg l). unfold range.
  destruct (Z.eqb_spec (zlen l) 0) as [Hz|Hz].
  { apply zlen_nil_inv in Hz as ->. exists s. split; [done|].
    destruct (_ <? 0); [done|]. by rewrite drop_nil, take_nil. }
  rewrite !norm_index by lia.
  set (a := if start <? 0 then _ else _). set (b := if end_ <? 0 then _ else _).
  assert (- 2 ^ 63 <= a < 2 ^ 63) by (unfold a; destruct (Z.ltb_spec start 0); lia).
  set (n := if b <? a then 0 else b - a + 1).
  assert (0 <= n) by (unfold n; destruct (Z.ltb_spec b a); lia).
  assert (Z.to_nat n = Z.to_nat (b - a + 1)) as Hn by (unfold n; destruct (Z.ltb_spec b a); lia).
  destruct (Z.ltb_spec a 0) as [Hneg|Hpos].
  - assert (u64 a = a + 2 ^ 64) as -> by (unfold wrapu; symmetry; apply Z.mod_unique with (-1); lia).
    destruct (sdssubstr_spec s l (a + 2 ^ 64) n Hr) as (s' & Hs & Hr'); [lia..|]. exists s'. split; [done|].
    rewrite drop_ge, take_nil in Hr' by (unfold zlen in *; lia). done.
  - rewrite wrapu_small by lia. destruct (sdssubstr_spec s l a n Hr) as (s' & Hs & Hr'); [lia..|].
    exists s'. split; [done|]. by rewrite Hn in Hr'.
Qed.

(** [sdsIncrLen] on a body that has the bytes. *)
Lemma incr_field_mk w cp cn ty len alloc body incr :
  0 < ty <= 4 -> width ty = w -> sdsHdrSize ty = 1 + 2 * Z.of_nat w ->
  0 <= len <= sdsTypeMaxSize ty -> 0 <= alloc <= sdsTypeMaxSize ty -> 0 <= len + incr <= alloc ->
  (0 <= incr -> cp incr = incr) -> (incr < 0 -> cn (- incr) = - incr) ->
  incr_field w cp cn incr (mk ty len alloc body) = Ok (mk ty (len + incr) alloc body, len + incr).
Proof.
  intros Ht Hw Hs Hl Ha Hi Hcp Hcn. unfold incr_field.
  assert (0 < ty) as Ht' by lia.
  assert (forall x, 0 <= x <= sdsTypeMaxSize ty -> 0 <= x < 2 ^ (8 * Z.of_nat w)) as Hb
    by (intros x Hx; rewrite <- Hw; by apply type_bound).
  rewrite hdr_alloc_mk, hdr_len_mk by (done || by apply Hb). cbn [mbind res_bind].
  assert ((0 <=? incr) && (cp incr <=? alloc - len) || (incr <? 0) && (cn (- incr) <=? len) = true) as ->.
  { destruct (Z.leb_spec 0 incr) as [Hp|Hn].
    - rewrite Hcp by done. by rewrite (proj2 (Z.leb_le incr _)) by lia.
    - rewrite (proj2 (Z.ltb_lt incr 0)), Hcn by done. by rewrite (proj2 (Z.leb_le (- incr) _)) by lia. }
  cbn [cassert mbind res_bind]. rewrite set_hdr_len_mk by done. cbn [mbind res_bind].
  rewrite hdr_len_mk by (done || (apply Hb; lia)). done.
Qed.

Lemma sdsIncrLen_mk ty alloc l x rest len incr :
  valid_type ty -> 0 <= len <= sdsTypeMaxSize ty -> 0 <= alloc <= sdsTypeMaxSize ty ->
  zlen l = len + incr -> zlen l <= alloc -> alloc <= zlen l + zlen rest -> wf_bytes l -> (ty = 0 -> incr <> 0) ->
  exists s', sdsIncrLen (mk ty len alloc (l ++ x :: rest)) incr = Ok s' /\ repr s' l.
Proof.
  intros Hv Hl Ha Hi Hr1 Hr2 Hw H5. unfold sdsIncrLen. pose proof (zlen_nonneg l) as Hl0.
  assert (forall w cp cn, 0 < ty <= 4 -> width ty = w -> sdsHdrSize ty = 1 + 2 * Z.of_nat w ->
    (0 <= incr -> cp incr = incr) -> (incr < 0 -> cn (- incr) = - incr) ->
    exists s', (r ← incr_field w cp cn incr (mk ty len alloc (l ++ x :: rest)); let '(s, len) := r in put1 s len 0) = Ok s' /\ repr s' l)
    as Hwide.
  { intros w cp cn Ht Hw' Hs Hcp Hcn. rewrite incr_field_mk by (done || lia). cbn [mbind res_bind].
    rewrite <- Hi, terminate by done. eexists. split; [done|]. apply repr_intro; [done|lia..|done]. }
  dispatch ty.
  - change (sdsTypeMaxSize 0) with 31 in *. unfold SDS_TYPE_5_LEN, SDS_TYPE_BITS.
    change (0 =? 0) with true. cbn iota. rewrite (proj2 (type5_flags len ltac:(lia))).
    assert ((0 <? incr) && (len + incr <? 32) || (incr <? 0) && (u32 (- incr) <=? len) = true) as ->.
    { destruct (Z.ltb_spec 0 incr); [by rewrite (proj2 (Z.ltb_lt (len + incr) 32)) by lia|].
      rewrite (proj2 (Z.ltb_lt incr 0)), (wrapu_small 32) by (specialize (H5 eq_refl); lia).
      by rewrite (proj2 (Z.leb_le _ len)) by lia. }
    cbn [cassert mbind res_bind]. rewrite put1_flags5, <- Hi by lia. cbn [mbind res_bind].
    rewrite terminate by done. eexists. split; [done|]. apply repr_intro; [done|lia|change (alloc <= 31); lia|lia|done].
  - apply (Hwide 1%nat); [done..|]. change (sdsTypeMaxSize 1) with 255 in *. intros. apply wrapu_small. lia.
  - apply (Hwide 2%nat); [done..|]. change (sdsTypeMaxSize 2) with 65535 in *. intros. apply wrapu_small. lia.
  - change (sdsTypeMaxSize 3) with (2 ^ 32 - 1) in *. apply (Hwide 4%nat); [done|done|done|..]; intros; apply wrapu_small; lia.
  - change (sdsTypeMaxSize 4) with (2 ^ 64 - 1) in *. apply (Hwide 8%nat); [done|done|done|..]; intros; apply wrapu_small; lia.
Qed.

(** Cutting the end off. *)
Lemma sdsIncrLen_cut s l t :
  repr s (l ++ t) -> t <> [] -> exists s', sdsIncrLen s (- zlen t) = Ok s' /\ repr s' l.
Proof.
  intros (ty & alloc & rest & HR) Ht. destruct (Repr_lens _ _ _ _ _ HR). destruct HR as [-> Hv ? ? ? ? Hw].
  destruct t as [|x t]; [done|]. apply Forall_app in Hw as [Hwl _].
  rewrite <- app_assoc. cbn [app].
  pose proof (zlen_nonneg t). apply sdsIncrLen_mk; try done; zlen_simpl; lia.
Qed.

(** [for (j = 0; j < len; j++) s[j] = f(s[j])] *)
Lemma map_chars_spec f ty len alloc b l c :
  valid_type ty ->
  map_chars (length l) f (zlen b) (mk ty len alloc (b ++ l ++ c))
  = Ok (mk ty len alloc (b ++ ((fun x => u8 (f x)) <$> l) ++ c)).
Proof.
  intros Hv. revert b. induction l as [|x l IH]; intros b; [done|]. cbn [length map_chars fmap list_fmap].
  pose proof (zlen_nonneg b). rewrite get1_mk by done. cbn [app]. rewrite rd_here. cbn [mbind res_bind].
  rewrite put1_mk, wr_app by done. cbn [mbind res_bind].
  replace (zlen b + 1) with (zlen (b ++ [u8 (f x)])) by (zlen_simpl; lia).
  rewrite <- (snoc_app b _ (l ++ c)), IH, snoc_app. done.
Qed.

Lemma map_content s l f :
  repr s l -> exists s', (n ← sdslen s; map_chars (Z.to_nat n) f 0 s) = Ok s' /\ repr s' ((fun x => u8 (f x)) <$> l).
Proof.
  intros Hr. rewrite (sdslen_spec s l) by done. cbn [mbind res_bind]. rewrite to_nat_zlen.
  destruct Hr as (ty & alloc & rest & HR). destruct HR as [-> Hv ? ? ? ? Hw].
  pose proof (map_chars_spec f ty (zlen l) alloc [] l (0 :: rest) Hv) as E. cbn [app] in E.
  change (zlen []) with 0 in E. rewrite E. eexists. split; [done|].
  assert (zlen l = zlen ((fun x => u8 (f x)) <$> l)) as El by (unfold zlen; by rewrite length_fmap).
  rewrite El at 1. apply repr_intro; [done|lia..|]. apply Forall_fmap, Forall_true. intros x. apply u8_byte.
Qed.

(** ** Comparison *)

(** Lexicographic order on bytes, a prefix first: the sign of [sdscmp]. *)
Fixpoint lex (a b : bytes) : comparison :=
  match a, b with
  | [], [] => Eq
  | [], _ => Lt
  | _, [] => Gt
  | x :: a, y :: b => match Z.compare x y with Eq => lex a b | c => c end
  end.

Definition sign_of (c : comparison) : Z := match c with Lt => -1 | Eq => 0 | Gt => 1 end.

Lemma memcmp_lex a b :
  Z.sgn (let cmp := memcmp (take (Nat.min (length a) (length b)) a) (take (Nat.min (length a) (length b)) b) in
         if cmp =? 0 then (if zlen b <? zlen a then 1 else if zlen a <? zlen b then -1 else 0) else cmp)
  = sign_of (lex a b).
Proof.
  revert b. induction a as [|x a IH]; intros [|y b]; try done. cbn [length Nat.min take memcmp lex].
  specialize (IH b). destruct (Z.eqb_spec x y) as [->|Hne].
  - rewrite Z.compare_refl. rewrite <- IH. zlen_simpl. cbn zeta.
    destruct (_ =? 0); [|done].
    destruct (Z.ltb_spec (1 + zlen b) (1 + zlen a)), (Z.ltb_spec (zlen b) (zlen a)),
      (Z.ltb_spec (1 + zlen a) (1 + zlen b)), (Z.ltb_spec (zlen a) (zlen b)); done || lia.
  - cbn zeta. rewrite (proj2 (Z.eqb_neq (x - y) 0)) by lia.
    destruct (Z.compare_spec x y); [lia|..]; cbn; lia.
Qed.

Lemma sdscmp_spec s1 l1 s2 l2 :
  repr s1 l1 -> repr s2 l2 -> exists c, sdscmp s1 s2 = Ok c /\ Z.sgn c = sign_of (lex l1 l2).
Proof.
  intros H1 H2. unfold sdscmp. rewrite (sdslen_spec s1 l1), (sdslen_spec s2 l2) by done. cbn [mbind res_bind].
  set (m := if zlen l1 <? zlen l2 then zlen l1 else zlen l2).
  assert (m = Z.of_nat (Nat.min (length l1) (length l2))) as Hm
    by (unfold m; destruct (Z.ltb_spec (zlen l1) (zlen l2)); unfold zlen in *; lia).
  assert (forall s l, repr s l -> m <= zlen l -> get s 0 m = Ok (take (Nat.min (length l1) (length l2)) l)) as Hget.
  { intros s l (ty & alloc & rest & [-> Hv _ _ _ _ _]) Hle. rewrite get_mk by (done || lia).
    pose proof (zlen_nonneg rest). unfold rdn.
    rewrite (proj2 (Z.leb_le 0 m)), (proj2 (Z.leb_le (0 + m) _)) by (zlen_simpl; lia). cbn [andb Z.leb Z.compare].
    rewrite drop_0, take_app_le by (unfold zlen in *; lia). by rewrite Hm, Nat2Z.id. }
  rewrite (Hget s1 l1), (Hget s2 l2) by (done || (unfold zlen; lia)). cbn [mbind res_bind].
  pose proof (memcmp_lex l1 l2) as Hlex. cbn zeta in Hlex. destruct (_ =? 0); eauto.
Qed.

(** ** Resizing *)

(** The flags byte of a fresh allocation: a header of the type, whatever its
    other fields say. *)
Lemma put_type_fresh type hh body :
  valid_type type -> zlen hh = sdsHdrSize type -> wf_bytes hh ->
  exists len0 alloc0, put1 {| s_mem := hh ++ body; s_off := sdsHdrSize type |} (-1) type
    = Ok (mk type len0 alloc0 body) /\ 0 <= len0 <= sdsTypeMaxSize type.
Proof.
  intros Hv Hl Hw. destruct (split_header type hh Hv Hl) as [H5 Hwide].
  assert (type = 0 \/ 0 < type <= 4) as [->|Ht] by (unfold valid_type in *; lia).
  - destruct (H5 eq_refl) as [f ->]. exists 0, 0. split; [|done].
    unfold put1, with_mem. cbn [s_mem s_off app]. change (sdsHdrSize 0 + -1) with 0. by rewrite wr_0.
  - destruct (Hwide ltac:(lia)) as (h1 & h2 & f & -> & L1 & L2). rewrite <- !app_assoc.
    apply Forall_app in Hw as [W1 [W2 _]%Forall_app].
    exists (le_val h1), (le_val h2). split; [by apply (put_type_raw (width type)); try done; apply wide_size|].
    apply bound_type; [done|]. pose proof (le_val_range h1 W1) as Hr. by rewrite L1 in Hr.
Qed.

(** The new memory of [sdsResize], before its header is set. *)
Lemma resize_memory ty alloc l rest type (use_realloc : bool) len size :
  valid_type ty -> valid_type type -> 0 <= len <= zlen l -> len <= size <= max_size ->
  zlen l <= sdsTypeMaxSize ty ->
  let nty := if use_realloc then ty else type in
  let n := u64 (sdsHdrSize nty + size + 1) in
  exists len0 alloc0 x r,
    (if use_realloc then
       Ok {| s_mem := zrealloc (s_mem (mk ty (zlen l) alloc (l ++ 0 :: rest))) n; s_off := sdsHdrSize nty |}
     else
       data ← get (mk ty (zlen l) alloc (l ++ 0 :: rest)) 0 len;
       let s := {| s_mem := zmalloc n; s_off := sdsHdrSize nty |} in
       s ← put s 0 data; put1 s (-1) nty)
    = Ok (mk nty len0 alloc0 (take (Z.to_nat len) l ++ x :: r)) /\
    0 <= len0 <= sdsTypeMaxSize nty /\ size <= len + zlen r.
Proof.
  intros Hv Hv' Hlen Hsize Hm nty n. unfold max_size in Hsize. pose proof (zlen_nonneg rest).
  assert (valid_type nty) as Hn by (by destruct use_realloc). pose proof (hdr_size_range nty Hn) as Hh.
  assert (n = sdsHdrSize nty + size + 1) as En by (apply wrapu_small; lia).
  assert (zlen (take (Z.to_nat len) l) = len) as Lt by (apply zlen_take; lia).
  pose proof (usable_ge n). destruct use_realloc; subst nty.
  - unfold mk. cbn [s_mem]. set (h := hdr ty (zlen l) alloc).
    assert (zlen h = sdsHdrSize ty) as Lh by (by apply zlen_sds_hdr).
    replace (h ++ l ++ 0 :: rest) with ((h ++ take (Z.to_nat len) l) ++ drop (Z.to_nat len) l ++ 0 :: rest)
      by (rewrite <- app_assoc, (app_assoc (take _ _)), take_drop; done).
    destruct (zrealloc_prefix (h ++ take (Z.to_nat len) l) (drop (Z.to_nat len) l ++ 0 :: rest) n) as [r E];
      [zlen_simpl; lia|].
    assert (zlen (zrealloc ((h ++ take (Z.to_nat len) l) ++ drop (Z.to_nat len) l ++ 0 :: rest) n) = usable n) as Hl
      by (apply realloc_length; lia).
    rewrite E in *. zlen_simpl. destruct r as [|x r]; [zlen_simpl; lia|]. zlen_simpl.
    exists (zlen l), alloc, x, r. split; [by rewrite <- app_assoc|]. pose proof (zlen_nonneg l). lia.
  - rewrite get_mk by (done || lia).
    assert (rdn (l ++ 0 :: rest) 0 len = Ok (take (Z.to_nat len) l)) as ->.
    { unfold rdn. rewrite (proj2 (Z.leb_le 0 len)), (proj2 (Z.leb_le (0 + len) _)) by (zlen_simpl; lia).
      cbn [andb Z.leb Z.compare]. by rewrite drop_0, take_app_le by (unfold zlen in *; lia). }
    cbn [mbind res_bind]. pose proof (zlen_zmalloc_eq n ltac:(lia)) as Hl. pose proof (wf_zmalloc n) as Hw.
    destruct (split_room (zmalloc n) (sdsHdrSize type) (usable n - sdsHdrSize type)) as (hh & r & E & Lh & Lr); [lia..|].
    destruct (split_room r len (usable n - sdsHdrSize type - len)) as (a & b & -> & La & Lb); [lia..|].
    destruct b as [|x b]; [change (zlen []) with 0 in Lb; lia|]. zlen_simpl.
    rewrite E in *. apply Forall_app in Hw as [Hw _]. unfold put, with_mem. cbn [s_mem s_off].
    replace (sdsHdrSize type + 0) with (zlen hh) by lia.
    rewrite wrn_app by (apply zlen_length; lia). cbn [mbind res_bind].
    destruct (put_type_fresh type hh (take (Z.to_nat len) l ++ x :: b) Hv' Lh Hw) as (len0 & alloc0 & -> & Hl0).
    exists len0, alloc0, x, b. split; [done|lia].
Qed.

Lemma sdsResize_spec s l size would_regrow :
  repr s l -> zlen l <= max_size -> 0 <= size <= max_size ->
  exists s', sdsResize s size would_regrow = Ok s' /\ repr s' (take (Z.to_nat size) l).
Proof.
  intros Hr Hlm Hsz. unfold sdsResize. pose proof Hr as (ty & alloc & rest & HR).
  rewrite (sdslen_spec s l), (sdsalloc_spec _ _ _ _ _ HR) by done.
  destruct (Repr_lens _ _ _ _ _ HR). destruct HR as [-> Hv ? ? ? Hs5 Hw].
  rewrite flags_mk by done. cbn [mbind res_bind]. rewrite type_of_flags by done.
  destruct (Z.eqb_spec alloc size) as [->|Hne].
  { eexists. split; [done|]. rewrite take_ge by (unfold zlen in *; lia). done. }
  set (len := if size <? zlen l then size else zlen l).
  assert (0 <= len <= zlen l /\ len <= size /\ take (Z.to_nat size) l = take (Z.to_nat len) l) as (Hlen & Hls & ->).
  { unfold len. destruct (Z.ltb_spec size (zlen l)); [split; [lia|split; [lia|done]]|].
    split; [lia|]. split; [lia|]. by rewrite !take_ge by (unfold zlen in *; lia). }
  destruct (sdsReqType_spec size) as [Hrv Hrm]; [unfold max_size, UINT64_MAX in *; lia|].
  set (type := if would_regrow && _ then _ else _).
  assert (valid_type type /\ size <= sdsTypeMaxSize type) as [Hv' Hm'].
  { unfold type. destruct (would_regrow && _) eqn:E; [|done]. apply andb_true_iff in E as [_ E%Z.eqb_eq].
    rewrite E in Hrm. change (size <= 31) in Hrm. split; [done|]. change (size <= 255). lia. }
  set (ur := (ty =? type) || _). 
  assert (size <= sdsTypeMaxSize (if ur then ty else type)) as Hmax.
  { unfold ur. destruct (Z.eqb_spec ty type) as [->|]; [done|]. cbn [orb].
    destruct (Z.ltb_spec type ty); [|done]. cbn [andb]. destruct (_ <? type); [|done].
    pose proof (sdsTypeMaxSize_mono type ty Hv' Hv). lia. }
  destruct (resize_memory ty alloc l rest type ur len size) as (len0 & alloc0 & x & r & Hmem & Hl0 & Hroom);
    [done|done|done|lia|lia|].
  set (nty := if ur then ty else type) in *. assert (valid_type nty) as Hnv by (unfold nty; by destruct ur).
  assert (zlen (take (Z.to_nat len) l) = len) as Lt by (apply zlen_take; lia).
  set (mem := if ur then Ok {| s_mem := _ |} else _).
  replace mem with (@Ok sds (mk nty len0 alloc0 (take (Z.to_nat len) l ++ x :: r)))
    by (symmetry; unfold mem; rewrite <- Hmem; unfold nty; by destruct ur).
  cbn [mbind res_bind].
  pose proof (terminate nty len0 alloc0 (take (Z.to_nat len) l) x r Hnv) as Ht. rewrite Lt in Ht.
  rewrite Ht. cbn [mbind res_bind].
  rewrite sdssetlen_mk by (done || lia). cbn [mbind res_bind]. rewrite sdssetalloc_mk by (done || lia).
  eexists. split; [done|]. pose proof (repr_intro nty size (take (Z.to_nat len) l) r) as Hi. rewrite Lt in Hi.
  apply Hi; [done|lia|done|lia|by apply Forall_take].
Qed.

(** ** Trimming *)

Fixpoint drop_while (f : Z -> bool) (l : bytes) : bytes :=
  match l with
  | [] => []
  | x :: r => if f x then drop_while f r else l
  end.

Definition rtrim (f : Z -> bool) (l : bytes) : bytes := reverse (drop_while f (reverse l)).

(** [strchr(cset, c)] finds the characters of the set, and the terminator. *)
Definition in_cset (cs : bytes) (c : Z) : bool := (c =? 0) || existsb (Z.eqb c) cs.

Definition trim (cs : bytes) (l : bytes) : bytes := rtrim (in_cset cs) (drop_while (in_cset cs) l).

Lemma strchr_cset cs c :
  Forall (fun x => x <> 0) cs ->
  exists r, strchr (cs ++ [0]) c = Ok r /\ (if in_cset cs c then exists p, r = Some p else r = None).
Proof.
  unfold in_cset. induction 1 as [|x cs Hx Hcs (r & Hr & Hin)]; cbn [app strchr existsb].
  - rewrite (Z.eqb_sym 0 c). destruct (Z.eqb_spec c 0); cbn [orb]; eauto.
  - rewrite (Z.eqb_sym x c). destruct (Z.eqb_spec c x) as [->|Hne]; cbn [orb].
    + rewrite orb_true_r. eauto.
    + rewrite (proj2 (Z.eqb_neq x 0)), Hr by done. cbn [mbind res_bind]. eexists. split; [done|].
      destruct ((c =? 0) || existsb (Z.eqb c) cs); [|by rewrite Hin]. destruct Hin as [p ->]. eexists. done.
Qed.

Lemma rtrim_nil f : rtrim f [] = [].
Proof. done. Qed.

Lemma rtrim_snoc f l x : rtrim f (l ++ [x]) = if f x then rtrim f l else l ++ [x].
Proof.
  unfold rtrim. rewrite reverse_snoc. cbn [drop_while]. destruct (f x); [done|]. by rewrite reverse_cons, reverse_involutive.
Qed.

Lemma drop_while_suffix f l : exists p, l = p ++ drop_while f l.
Proof.
  induction l as [|x l [p IH]]; [by exists []|]. cbn. destruct (f x); [|by exists []].
  exists (x :: p). cbn. by rewrite <- IH.
Qed.

Lemma drop_while_head f l x r : drop_while f l = x :: r -> f x = false.
Proof. induction l as [|y l IH]; [done|]. cbn. destruct (f y) eqn:E; [done|]. by intros [= <- <-]. Qed.

Lemma rtrim_prefix f l : exists q, l = rtrim f l ++ q.
Proof.
  induction l as [|x l [q IH]] using rev_ind; [by exists []|]. rewrite rtrim_snoc.
  destruct (f x); [|exists []; by rewrite app_nil_r]. exists (q ++ [x]). by rewrite app_assoc, <- IH.
Qed.

Section trim.
Context (ty len alloc : Z) (l rest cs : bytes).
Hypothesis Hty : valid_type ty.
Hypothesis Hcs : Forall (fun x => x <> 0) cs.
Let s : sds := mk ty len alloc (l ++ 0 :: rest).

(** One test of the loops. *)
Lemma trim_test p x q :
  l = p ++ x :: q -> get1 s (zlen p) = Ok x.
Proof.
  intros E. unfold s. rewrite get1_mk by (done || apply zlen_nonneg). rewrite E, <- app_assoc. apply rd_here.
Qed.

Lemma trim_left_spec fuel p q :
  l = p ++ q -> (length q < fuel)%nat ->
  exists p', q = p' ++ drop_while (in_cset cs) q /\
    trim_left fuel s (cs ++ [0]) (zlen p) (zlen l - 1) = Ok (zlen (p ++ p')).
Proof.
  revert p q. induction fuel as [|fuel IH]; intros p q E Hf; [lia|]. cbn [trim_left].
  destruct q as [|x q].
  { exists []. split; [done|]. rewrite E, !app_nil_r. destruct (Z.leb_spec (zlen p) (zlen p - 1)); [lia|done]. }
  destruct (Z.leb_spec (zlen p) (zlen l - 1)) as [_|Hle]; [|rewrite E in Hle; zlen_simpl; pose proof (zlen_nonneg q); lia].
  rewrite (trim_test p x q) by done. cbn [mbind res_bind].
  destruct (strchr_cset cs x Hcs) as (r & -> & Hin). cbn [mbind res_bind drop_while].
  destruct (in_cset cs x).
  - destruct Hin as [pos ->]. destruct (IH (p ++ [x]) q) as (p' & E' & Hrun); [by rewrite <- app_assoc|cbn in Hf; lia|].
    exists (x :: p'). split; [cbn; by rewrite <- E'|].
    replace (zlen p + 1) with (zlen (p ++ [x])) by (zlen_simpl; lia). rewrite Hrun. by rewrite <- app_assoc.
  - rewrite Hin. exists []. split; [done|]. by rewrite app_nil_r.
Qed.

Lemma trim_right_spec fuel p m c :
  l = p ++ m ++ c -> (length m < fuel)%nat -> (forall x r, m = x :: r -> in_cset cs x = false) ->
  trim_right fuel s (cs ++ [0]) (zlen p) (zlen (p ++ m) - 1) = Ok (zlen (p ++ rtrim (in_cset cs) m) - 1).
Proof.
  revert m c. induction fuel as [|fuel IH]; intros m c E Hf Hhd; [lia|]. cbn [trim_right].
  destruct m as [|x m' _] using rev_ind.
  { rewrite rtrim_nil, app_nil_r. destruct (Z.ltb_spec (zlen p) (zlen p - 1)); [lia|done]. }
  rewrite rtrim_snoc. pose proof (zlen_nonneg m') as Hm'.
  destruct (Z.ltb_spec (zlen p) (zlen (p ++ m' ++ [x]) - 1)) as [Hlt|Hle]; zlen_simpl.
  - replace (zlen p + (zlen m' + (1 + 0)) - 1) with (zlen (p ++ m')) by (zlen_simpl; lia).
    rewrite (trim_test (p ++ m') x c) by (rewrite E, <- !app_assoc; done). cbn [mbind res_bind].
    destruct (strchr_cset cs x Hcs) as (r & -> & Hin). cbn [mbind res_bind].
    destruct (in_cset cs x).
    + destruct Hin as [pos ->]. rewrite <- zlen_app. apply (IH m' (x :: c)).
      * by rewrite E, <- !app_assoc.
      * rewrite length_app in Hf. cbn in Hf. lia.
      * intros y r -> . by apply (Hhd y (r ++ [x])).
    + rewrite Hin. f_equal. zlen_simpl. lia.
  - assert (m' = []) as -> by (apply zlen_nil_inv; lia). rewrite (Hhd x []) by done. done.
Qed.

End trim.

Lemma sdstrim_spec s l cs :
  repr s l -> Forall (fun x => x <> 0) cs -> exists s', sdstrim s (cs ++ [0]) = Ok s' /\ repr s' (trim cs l).
Proof.
  intros Hr Hcs. unfold sdstrim. rewrite (sdslen_spec s l) by done. cbn [mbind res_bind].
  destruct (drop_while_suffix (in_cset cs) l) as [p Ep]. set (m := drop_while (in_cset cs) l) in *.
  destruct (rtrim_prefix (in_cset cs) m) as [c Ec]. set (t := rtrim (in_cset cs) m) in *.
  pose proof Hr as (ty & alloc & rest & HR). destruct (Repr_lens _ _ _ _ _ HR). destruct HR as [-> Hv ? ? ? ? Hw].
  destruct (trim_left_spec ty (zlen l) alloc l rest cs Hv Hcs (S (Z.to_nat (zlen l))) [] l) as (p' & Ep' & Hl);
    [done|rewrite to_nat_zlen; lia|].
  assert (p' = p) as -> by (fold m in Ep'; rewrite Ep in Ep' at 1; by apply app_inv_tail in Ep').
  change (zlen []) with 0 in Hl. rewrite Hl. cbn [mbind res_bind app].
  pose proof (trim_right_spec ty (zlen l) alloc l rest cs Hv Hcs (S (Z.to_nat (zlen l))) p m []) as Hrt.
  rewrite app_nil_r, <- Ep in Hrt. rewrite Hrt;
    [|done|rewrite to_nat_zlen, Ep at 1; rewrite length_app; lia|intros x r; apply drop_while_head].
  cbn [mbind res_bind]. fold t. zlen_simpl. replace (zlen p + zlen t - 1 - zlen p + 1) with (zlen t) by lia.
  assert (l = p ++ t ++ c) as El by (by rewrite <- Ec, <- Ep).
  pose proof (zlen_nonneg p). pose proof (zlen_nonneg t). pose proof (zlen_nonneg c).
  assert (take (Z.to_nat (zlen t)) (drop (Z.to_nat (zlen p)) l) = trim cs l) as Et.
  { unfold trim. fold m t. by rewrite El, !to_nat_zlen, drop_app_length, take_app_length. }
  assert (zlen p + zlen t <= zlen l) as Hle by (rewrite El; zlen_simpl; lia).
  destruct (Z.eqb_spec (zlen p) 0) as [Hz|Hz]; cbn [negb].
  - rewrite <- Et, Hz. cbn [mbind res_bind].
    apply zlen_nil_inv in Hz. subst p. cbn [app] in El. rewrite El, <- app_assoc.
    destruct (finish_content ty (zlen (t ++ c)) alloc t (c ++ 0 :: rest)) as (s' & Hs & Hr');
      [done|rewrite <- El; lia|rewrite El in *; zlen_simpl; lia|done|rewrite El in *; zlen_simpl; lia|rewrite El in Hw; by apply Forall_app in Hw as [? _]|].
    exists s'. split; [done|]. by rewrite to_nat_zlen, drop_0, take_app_length.
  - destruct (shift_spec (mk ty (zlen l) alloc (l ++ 0 :: rest)) l (zlen p) (zlen t)) as (s' & Hs & Hr'); [done|lia..|].
    rewrite Et in Hr'. exists s'. split; [|done]. rewrite <- Hs. f_equal.
    destruct (Z.eqb_spec (zlen t) 0) as [Hz'|]; [|done]. cbn [negb].
    rewrite Hz', get_mk by (done || lia). unfold rdn.
    rewrite (proj2 (Z.leb_le 0 (zlen p))), (proj2 (Z.leb_le (zlen p + 0) _)) by (zlen_simpl; pose proof (zlen_nonneg rest); lia).
    cbn [andb Z.leb Z.compare mbind res_bind Z.to_nat take].
    rewrite put_body_0 by (done || (zlen_simpl; pose proof (zlen_nonneg rest); lia)). done.
Qed.

End alloc.

End SdsTheory.
