(* ===== verification/SdsSpec.v ===== *)
(** * Dynamic strings: what the library promises.

    Two results.  Any sequence of operations on a string behaves as the same
    sequence on a plain list of bytes, with the invariants of the header kept;
    and [sdssplitargs] reads back what [sdscatrepr] writes. *)

From S2P Require Import Prelude Cstring Util Sds SdsTheory.
#[local] Open Scope Z_scope.

Module SdsSpec.
Import Cstring Sds SdsTheory.

(** ** Operations and their meaning on bytes *)

Inductive op : Type :=
| Cat (t : bytes)
| Cpy (t : bytes)
| Range (start end_ : Z)
| Substr (start len : Z)
| Trim (cset : bytes)
| Clear
| GrowZero (n : Z)
| MakeRoom (n : Z) (greedy : bool)
| Resize (n : Z) (would_regrow : bool)
| Cut (n : Z)
| Lower
| Upper
| Dup.

Definition spec_op (o : op) (l : bytes) : bytes :=
  match o with
  | Cat t => l ++ t
  | Cpy t => t
  | Range a b => range l a b
  | Substr a n => take (Z.to_nat n) (drop (Z.to_nat a) l)
  | Trim cs => trim cs l
  | Clear => []
  | GrowZero n => l ++ replicate (Z.to_nat (n - zlen l)) 0
  | MakeRoom _ _ => l
  | Resize n _ => take (Z.to_nat n) l
  | Cut n => take (Z.to_nat (zlen l - n)) l
  | Lower => tolower <$> l
  | Upper => toupper <$> l
  | Dup => l
  end.

Definition run_op `{Allocator} (s : sds) (o : op) : res sds :=
  match o with
  | Cat t => sdscatlen s t
  | Cpy t => sdscpylen s t
  | Range a b => sdsrange s a b
  | Substr a n => sdssubstr s a n
  | Trim cs => sdstrim s (cs ++ [0])
  | Clear => sdsclear s
  | GrowZero n => sdsgrowzero s n
  | MakeRoom n g => _sdsMakeRoomFor s n g
  | Resize n r => sdsResize s n r
  | Cut n => sdsIncrLen s (- n)
  | Lower => sdstolower s
  | Upper => sdstoupper s
  | Dup => sdsdup s
  end.

(** The arguments of the calls: bytes, 64 bit integers, and sizes below
    [max_size] = 2^62. *)
Definition valid_op (o : op) (l : bytes) : Prop :=
  zlen l <= max_size /\
  match o with
  | Cat t | Cpy t => wf_bytes t /\ zlen l + zlen t <= max_size
  | Range a b => is_i64 a /\ is_i64 b
  | Substr a n => 0 <= a /\ 0 <= n
  | Trim cs => Forall (fun x => x <> 0) cs
  | GrowZero n => n <= max_size
  | MakeRoom n _ => 0 <= n /\ zlen l + n <= max_size
  | Resize n _ => 0 <= n <= max_size
  | Cut n => 0 < n <= zlen l
  | Clear | Lower | Upper | Dup => True
  end.

Fixpoint run `{Allocator} (os : list op) (s : sds) : res sds :=
  match os with
  | [] => Ok s
  | o :: os => s ← run_op s o; run os s
  end.

Fixpoint spec_run (os : list op) (l : bytes) : bytes :=
  match os with
  | [] => l
  | o :: os => spec_run os (spec_op o l)
  end.

Fixpoint valid_run (os : list op) (l : bytes) : Prop :=
  match os with
  | [] => True
  | o :: os => valid_op o l /\ valid_run os (spec_op o l)
  end.

Section refinement.
Context `{Allocator}.

Lemma fmap_byte (f : Z -> Z) l :
  (forall x, is_byte x -> is_byte (f x)) -> wf_bytes l -> (fun x => u8 (f x)) <$> l = f <$> l.
Proof.
  intros Hf Hw. apply list_fmap_ext. intros i x Hx. apply u8_small, Hf.
  eapply Forall_lookup_1 in Hx; eauto.
Qed.

Lemma tolower_byte x : is_byte x -> is_byte (tolower x).
Proof. unfold is_byte, tolower. intros. destruct (_ && _) eqn:E; [|done]. lia. Qed.

Lemma toupper_byte x : is_byte x -> is_byte (toupper x).
Proof. unfold is_byte, toupper. intros. destruct (_ && _) eqn:E; [|done]. lia. Qed.

Lemma repr_wf s l : repr s l -> wf_bytes l.
Proof. by intros (? & ? & ? & []). Qed.

Lemma run_sds_op_spec s l o :
  repr s l -> valid_op o l -> exists s', run_op s o = Ok s' /\ repr s' (spec_op o l).
Proof.
  intros Hr [Hm Hv]. destruct o; cbn [run_op spec_op]; cbn in Hv.
  - apply sdscatlen_spec; naive_solver.
  - eapply sdscpylen_spec; naive_solver.
  - apply sdsrange_spec; naive_solver.
  - apply sdssubstr_spec; naive_solver.
  - by apply sdstrim_spec.
  - by eapply sdsclear_spec.
  - by apply sdsgrowzero_spec.
  - destruct Hv as [? ?]. destruct (make_room_spec s l n greedy) as (s' & ? & ?); [done..|].
    exists s'. split; [done|]. by eapply roomy_repr.
  - by apply sdsResize_spec.
  - rewrite <- (take_drop (Z.to_nat (zlen l - n)) l) in Hr at 1.
    assert (zlen (drop (Z.to_nat (zlen l - n)) l) = n) as E by (unfold zlen in *; rewrite length_drop; lia).
    replace (- n) with (- zlen (drop (Z.to_nat (zlen l - n)) l)) by (by rewrite E). apply sdsIncrLen_cut; [done|]. intros E0. rewrite E0 in E. change (zlen []) with 0 in E. lia.
  - rewrite <- (fmap_byte tolower) by (apply tolower_byte || by eapply repr_wf). by apply map_content.
  - rewrite <- (fmap_byte toupper) by (apply toupper_byte || by eapply repr_wf). by apply map_content.
  - by apply sdsdup_spec.
Qed.

Lemma run_sds_ops_spec os : forall s l,
  repr s l -> valid_run os l -> exists s', run os s = Ok s' /\ repr s' (spec_run os l).
Proof.
  induction os as [|o os IH]; intros s l Hr Hv; cbn [run spec_run]; [eauto|].
  destruct Hv as [Ho Hv]. destruct (run_sds_op_spec s l o Hr Ho) as (s1 & -> & Hr1). by apply IH.
Qed.

End refinement.

(** C7. A dynamic string is a list of bytes.  Whatever the allocator, any
    sequence of appends, copies, ranges, trims, growths, resizes, cuts, case
    changes and duplications from [sdsnewlen] returns without an access outside
    the allocation or a failed assertion; the string then holds exactly the
    bytes the same operations give on a list, with a zero after them, and its
    header states that length and at least as much room. *)
Theorem sds_refines_bytes (A : Allocator) (init : bytes) (os : list op) :
  wf_bytes init -> zlen init <= max_size -> valid_run os init ->
  exists s0 s, sdsnewlen (Init init) (zlen init) = Ok s0 /\ run os s0 = Ok s /\
    contents s = Ok (spec_run os init) /\ sdslen s = Ok (zlen (spec_run os init)) /\
    get1 s (zlen (spec_run os init)) = Ok 0 /\
    exists alloc, sdsalloc s = Ok alloc /\ zlen (spec_run os init) <= alloc.
Proof.
  intros Hw Hm Hv. destruct (sdsnewlen_all init Hm Hw) as (s0 & Hs0 & Hr0).
  destruct (run_sds_ops_spec os s0 init Hr0 Hv) as (s & Hs & Hr). exists s0, s.
  split_and!; [done|done|by apply contents_spec|by apply sdslen_spec|..];
    destruct Hr as (ty & alloc & rest & HR).
  - destruct HR as [-> Hty _ _ _ _ _]. rewrite get1_mk by (done || apply zlen_nonneg). apply rd_here.
  - exists alloc. split; [by eapply sdsalloc_spec|]. by apply HR.
Qed.

Lemma sds_refines_bytes_witness :
  exists s0 s, @sdsnewlen calloc8 (Init (bytes_of_string "  Hello ")) 8 = Ok s0 /\
    @run calloc8 [Trim [32]; Cat (replicate 300 97); Lower; Range 0 4; Resize 2 false; Cat [0; 33]] s0 = Ok s /\
    contents s = Ok [104; 101; 0; 33].
Proof.
  destruct (sds_refines_bytes calloc8 (bytes_of_string "  Hello ")
    [Trim [32]; Cat (replicate 300 97); Lower; Range 0 4; Resize 2 false; Cat [0; 33]])
    as (s0 & s & H0 & Hs & Hc & _).
  - apply (bool_decide_unpack _). vm_compute. exact I.
  - vm_compute. discriminate.
  - apply (bool_decide_unpack _). vm_compute. exact I.
  - exists s0, s. split; [exact H0|]. split; [exact Hs|exact Hc].
Defined.

(** ** Escaped form *)

(** What [sdscatrepr] writes for one byte. *)
Definition esc (c : Z) : bytes :=
  if (c =? 92) || (c =? 34) then [92; c] else
  if c =? 10 then [92; 110] else if c =? 13 then [92; 114] else if c =? 9 then [92; 116] else
  if c =? 7 then [92; 97] else if c =? 8 then [92; 98] else
  if isprint c then [c] else [92; 120] ++ fmt_02x c.

Definition quoted (p : bytes) : bytes := 34 :: concat (esc <$> p) ++ [34].

(** A command line of quoted arguments. *)
Fixpoint quoted_line (args : list bytes) : bytes :=
  match args with
  | [] => []
  | [a] => quoted a
  | a :: args => quoted a ++ 32 :: quoted_line args
  end.

Section escapes.
Context `{Allocator}.

(** Facts on single bytes, by computation. *)
Definition esc_ok (c : Z) : bool :=
  bool_decide (Forall (fun x => 0 < x < 256) (esc c)) && (zlen (esc c) <=? 4).

Lemma esc_facts c : is_byte c -> Forall (fun x => 0 < x < 256) (esc c) /\ zlen (esc c) <= 4.
Proof.
  intros Hc. pose proof (byte_forall esc_ok ltac:(vm_compute; reflexivity) c Hc) as E.
  unfold esc_ok in E. apply andb_true_iff in E as [E1%bool_decide_eq_true E2%Z.leb_le]. done.
Qed.

Lemma zlen_esc p : wf_bytes p -> zlen (concat (esc <$> p)) <= 4 * zlen p.
Proof.
  induction 1 as [|c p Hc Hp IH]; [done|]. cbn [fmap list_fmap concat]. zlen_simpl.
  pose proof (esc_facts c Hc). lia.
Qed.

Lemma wf_esc p : wf_bytes p -> wf_bytes (concat (esc <$> p)).
Proof.
  induction 1 as [|c p Hc Hp IH]; [constructor|]. cbn [fmap list_fmap concat]. apply Forall_app. split; [|done].
  eapply Forall_impl; [|exact (proj1 (esc_facts c Hc))]. unfold is_byte. cbn. lia.
Qed.

Lemma repr_char_spec s l c :
  repr s l -> is_byte c -> zlen l + 4 <= max_size ->
  exists s', repr_char s c = Ok s' /\ repr s' (l ++ esc c).
Proof.
  intros Hr Hc Hm. destruct (esc_facts c Hc) as [Hw Hl].
  assert (repr_char s c = sdscatlen s (esc c)) as -> by (unfold repr_char, esc, sdscatprintf; repeat case_match; done).
  apply sdscatlen_spec; [done| |lia]. eapply Forall_impl; [|exact Hw]. unfold is_byte. cbn. lia.
Qed.

Lemma repr_loop_spec p : forall s l,
  repr s l -> wf_bytes p -> zlen l + 4 * zlen p <= max_size ->
  exists s', repr_loop p s = Ok s' /\ repr s' (l ++ concat (esc <$> p)).
Proof.
  induction p as [|c p IH]; intros s l Hr Hw Hm; cbn [repr_loop fmap list_fmap concat].
  { rewrite app_nil_r. eauto. }
  apply Forall_cons_1 in Hw as [Hc Hw]. zlen_simpl. pose proof (zlen_nonneg p).
  destruct (repr_char_spec s l c Hr Hc) as (s1 & -> & Hr1); [lia|]. cbn [mbind res_bind].
  rewrite app_assoc. apply IH; [done|done|]. zlen_simpl. pose proof (esc_facts c Hc). lia.
Qed.

Lemma sdscatrepr_spec s l p :
  repr s l -> wf_bytes p -> zlen l + 4 * zlen p + 2 <= max_size ->
  exists s', sdscatrepr s p = Ok s' /\ repr s' (l ++ quoted p).
Proof.
  intros Hr Hw Hm. pose proof (zlen_nonneg p). pose proof (zlen_esc p Hw).
  assert (wf_bytes [34]) as Hq by (solve_wf; unfold is_byte; lia). unfold sdscatrepr, sdsMakeRoomFor.
  destruct (make_room_spec s l (zlen p + 2) true Hr) as (s1 & -> & Hr1); [lia..|]. cbn [mbind res_bind].
  destruct (sdscatlen_spec s1 l [34] (roomy_repr _ _ _ Hr1) Hq) as (s2 & -> & Hr2); [zlen_simpl; lia|]. cbn [mbind res_bind].
  destruct (repr_loop_spec p s2 (l ++ [34]) Hr2 Hw) as (s3 & -> & Hr3); [zlen_simpl; lia|]. cbn [mbind res_bind].
  destruct (sdscatlen_spec s3 _ [34] Hr3 Hq) as (s4 & -> & Hr4); [zlen_simpl; lia|].
  exists s4. split; [done|]. unfold quoted. by rewrite <- !app_assoc in Hr4.
Qed.

(** ** Reading back *)

(** One escaped byte inside quotes. *)
Lemma hex_facts c :
  is_byte c -> is_hex_digit (hex_lower (c / 16)) = true /\ is_hex_digit (hex_lower (c mod 16)) = true /\
  u8 (hex_digit_to_int (hex_lower (c / 16)) * 16 + hex_digit_to_int (hex_lower (c mod 16))) = c.
Proof.
  intros Hc. pose (f c := is_hex_digit (hex_lower (c / 16)) && is_hex_digit (hex_lower (c mod 16)) &&
    (u8 (hex_digit_to_int (hex_lower (c / 16)) * 16 + hex_digit_to_int (hex_lower (c mod 16))) =? c)).
  pose proof (byte_forall f ltac:(vm_compute; reflexivity) c Hc) as E. unfold f in E.
  apply andb_true_iff in E as [[? ?]%andb_true_iff ?%Z.eqb_eq]. done.
Qed.

Lemma advance_here pre x q b cur quo :
  x <> 0 -> advance (pre ++ x :: q) cur quo b (zlen pre) = Ok (Some (cur, quo, b, zlen (pre ++ [x]))).
Proof.
  intros Hx. unfold advance. rewrite rd_here. cbn [mbind res_bind]. rewrite (proj2 (Z.eqb_neq x 0)) by done.
  do 4 f_equal. zlen_simpl. lia.
Qed.

(** A two-byte escape. *)
Lemma step_escape pre x q cur l c :
  repr cur l -> zlen l < max_size -> 0 < x < 256 -> x <> 120 -> unescape x = c -> is_byte c ->
  exists cur', step_inq (pre ++ 92 :: x :: q) cur (zlen pre)
      = Ok (Some (cur', InQ, false, zlen (pre ++ [92; x]))) /\ repr cur' (l ++ [c]).
Proof.
  intros Hr Hm Hx H120 Hu Hc. unfold step_inq, is_hex_escape. rewrite rd_here. cbn [mbind res_bind Z.eqb Pos.eqb negb].
  assert (rd (pre ++ 92 :: x :: q) (zlen pre + 1) = Ok x) as Hx1 by (by rewrite rd_app_off by lia).
  rewrite Hx1. cbn [mbind res_bind]. rewrite (proj2 (Z.eqb_neq x 120)) by done. cbn [negb mbind res_bind].
  rewrite (proj2 (Z.eqb_neq x 0)) by lia. cbn [negb mbind res_bind]. rewrite Hu.
  destruct (sdscatlen_spec cur l [c] Hr) as (cur' & -> & Hr'); [solve_wf|zlen_simpl; lia|]. cbn [mbind res_bind].
  exists cur'. split; [|done].
  replace (zlen pre + 1) with (zlen (pre ++ [92])) by (zlen_simpl; lia). rewrite <- (snoc_app pre 92).
  rewrite advance_here by lia. by rewrite <- app_assoc.
Qed.

(** A hexadecimal escape. *)
Lemma step_hex pre c q cur l :
  repr cur l -> zlen l < max_size -> is_byte c ->
  exists cur', step_inq (pre ++ ([92; 120] ++ fmt_02x c) ++ q) cur (zlen pre)
      = Ok (Some (cur', InQ, false, zlen (pre ++ [92; 120] ++ fmt_02x c))) /\ repr cur' (l ++ [c]).
Proof.
  intros Hr Hm Hc. destruct (hex_facts c Hc) as (Hd1 & Hd2 & Hv). unfold fmt_02x. cbn [app].
  set (a := hex_lower (c / 16)) in *. set (b := hex_lower (c mod 16)) in *.
  set (line := pre ++ _). unfold step_inq, is_hex_escape.
  assert (rd line (zlen pre) = Ok 92) as -> by apply rd_here.
  assert (rd line (zlen pre + 1) = Ok 120) as -> by (unfold line; by rewrite rd_app_off by lia).
  assert (rd line (zlen pre + 2) = Ok a) as -> by (unfold line; by rewrite rd_app_off by lia).
  assert (rd line (zlen pre + 3) = Ok b) as -> by (unfold line; by rewrite rd_app_off by lia).
  cbn [mbind res_bind Z.eqb Pos.eqb negb]. rewrite Hd1. cbn [negb mbind res_bind]. rewrite Hd2. cbn [mbind res_bind].
  rewrite Hv. destruct (sdscatlen_spec cur l [c] Hr) as (cur' & -> & Hr'); [solve_wf|zlen_simpl; lia|]. cbn [mbind res_bind].
  exists cur'. split; [|done]. unfold line.
  replace (zlen pre + 3) with (zlen (pre ++ [92; 120; a])) by (zlen_simpl; lia).
  replace (pre ++ 92 :: 120 :: a :: b :: q) with ((pre ++ [92; 120; a]) ++ b :: q) by (by rewrite <- app_assoc).
  rewrite advance_here by (intros E0; rewrite E0 in Hd2; done). by rewrite <- app_assoc.
Qed.

(** An ordinary character. *)
Lemma step_char pre c q cur l :
  repr cur l -> zlen l < max_size -> is_byte c -> c <> 92 -> c <> 34 -> c <> 0 ->
  exists cur', step_inq (pre ++ c :: q) cur (zlen pre) = Ok (Some (cur', InQ, false, zlen (pre ++ [c]))) /\ repr cur' (l ++ [c]).
Proof.
  intros Hr Hm Hc H92 H34 H0. unfold step_inq, is_hex_escape. rewrite !rd_here. cbn [mbind res_bind].
  rewrite (proj2 (Z.eqb_neq c 92)) by done. cbn [negb mbind res_bind].
  rewrite (proj2 (Z.eqb_neq c 34)), (proj2 (Z.eqb_neq c 0)) by done. cbn [mbind res_bind].
  destruct (sdscatlen_spec cur l [c] Hr) as (cur' & -> & Hr'); [solve_wf|zlen_simpl; lia|]. cbn [mbind res_bind].
  exists cur'. split; [|done]. by rewrite advance_here.
Qed.

Lemma step_esc pre c q cur l :
  repr cur l -> zlen l < max_size -> is_byte c ->
  exists cur', step_inq (pre ++ esc c ++ q) cur (zlen pre) = Ok (Some (cur', InQ, false, zlen (pre ++ esc c))) /\ repr cur' (l ++ [c]).
Proof.
  intros Hr Hm Hc. unfold esc.
  destruct (Z.eqb_spec c 92) as [->|H92]; [by apply step_escape|]. cbn [orb].
  destruct (Z.eqb_spec c 34) as [->|H34]; [by apply step_escape|].
  destruct (Z.eqb_spec c 10) as [->|]; [by apply step_escape|].
  destruct (Z.eqb_spec c 13) as [->|]; [by apply step_escape|].
  destruct (Z.eqb_spec c 9) as [->|]; [by apply step_escape|].
  destruct (Z.eqb_spec c 7) as [->|]; [by apply step_escape|].
  destruct (Z.eqb_spec c 8) as [->|]; [by apply step_escape|].
  destruct (isprint c) eqn:Hp; [|by apply step_hex].
  apply step_char; try done. intros ->. done.
Qed.

(** The bytes between the quotes. *)
Lemma token_loop_quoted p : forall fuel pre q cur l,
  repr cur l -> wf_bytes p -> zlen l + zlen p <= max_size -> (length p < fuel)%nat ->
  exists cur' fuel', (0 < fuel')%nat /\
    token_loop fuel (pre ++ concat (esc <$> p) ++ q) cur InQ (zlen pre)
    = token_loop fuel' (pre ++ concat (esc <$> p) ++ q) cur' InQ (zlen (pre ++ concat (esc <$> p))) /\
    repr cur' (l ++ p).
Proof.
  induction p as [|c p IH]; intros fuel pre q cur l Hr Hw Hm Hf; cbn [fmap list_fmap concat].
  { exists cur, fuel. rewrite !app_nil_r. split; [lia|done]. }
  apply Forall_cons_1 in Hw as [Hc Hw]. rewrite zlen_cons in Hm. pose proof (zlen_nonneg p).
  destruct fuel as [|fuel]; [lia|]. cbn [token_loop]. cbn in Hf. rewrite <- app_assoc.
  destruct (step_esc pre c (concat (esc <$> p) ++ q) cur l Hr) as (cur1 & -> & Hr1); [lia|done|].
  cbn [mbind res_bind]. rewrite (app_assoc pre (esc c)).
  destruct (IH fuel (pre ++ esc c) q cur1 (l ++ [c]) Hr1 Hw) as (cur' & fuel' & Hf' & -> & Hr'); [zlen_simpl; lia|lia|].
  exists cur', fuel'. rewrite <- !app_assoc in *. done.
Qed.

(** A quoted argument is one token. *)
Lemma token_loop_token fuel pre a q cur :
  repr cur [] -> wf_bytes a -> zlen a <= max_size -> (length a + 1 < fuel)%nat ->
  (exists x r, q = x :: r /\ (x = 0 \/ x = 32)) ->
  exists cur', token_loop fuel (pre ++ quoted a ++ q) cur NoQuote (zlen pre)
    = Ok (Some (cur', zlen (pre ++ quoted a))) /\ repr cur' a.
Proof.
  intros Hr Hw Hm Hf (x & r & -> & Hx). destruct fuel as [|fuel]; [lia|]. cbn [token_loop].
  unfold quoted. cbn [app]. unfold step_plain. rewrite rd_here. cbn [mbind res_bind Z.eqb Pos.eqb orb].
  rewrite advance_here by lia. cbn [mbind res_bind].
  rewrite <- app_assoc, <- (snoc_app pre 34).
  destruct (token_loop_quoted a fuel (pre ++ [34]) ([34] ++ x :: r) cur [] Hr Hw) as (cur' & fuel' & Hf' & -> & Hr');
    [zlen_simpl; lia|lia|]. exists cur'. split; [|done].
  destruct fuel' as [|fuel']; [lia|]. cbn [token_loop]. rewrite app_assoc. set (pre' := (pre ++ [34]) ++ _). cbn [app].
  unfold step_inq, is_hex_escape, bad_close. rewrite !rd_here.
  assert (rd (pre' ++ 34 :: x :: r) (zlen pre' + 1) = Ok x) as -> by (by rewrite rd_app_off by lia).
  cbn [mbind res_bind Z.eqb Pos.eqb negb].
  assert (negb (x =? 0) && negb (isspace x) = false) as -> by (by destruct Hx as [-> | ->]).
  rewrite advance_here by lia. cbn [mbind res_bind]. unfold pre'. by rewrite <- !app_assoc.
Qed.

Lemma skip_blanks_stop fuel line p c :
  rd line p = Ok c -> (c =? 0) || negb (isspace c) = true -> skip_blanks (S fuel) line p = Ok p.
Proof.
  intros Hc Hs. cbn [skip_blanks]. rewrite Hc. cbn [mbind res_bind].
  destruct (c =? 0); [done|]. cbn in Hs. destruct (isspace c); done.
Qed.

(** At most one blank before a token. *)
Lemma skip_blank line pre sp :
  sp = [] \/ sp = [32] -> forall c q, line = (pre ++ sp) ++ c :: q -> isspace c = false ->
  skip_blanks (S (length line)) line (zlen pre) = Ok (zlen (pre ++ sp)).
Proof.
  intros Hsp c q E Hc.
  assert (forall fuel, skip_blanks (S fuel) line (zlen (pre ++ sp)) = Ok (zlen (pre ++ sp))) as Hstop.
  { intros fuel. apply (skip_blanks_stop _ _ _ c); [rewrite E; apply rd_here|]. rewrite Hc. apply orb_true_r. }
  destruct Hsp as [-> | ->]; [rewrite app_nil_r in *; apply Hstop|]. cbn [skip_blanks].
  assert (rd line (zlen pre) = Ok 32) as -> by (rewrite E, snoc_app; apply rd_here).
  cbn [mbind res_bind Z.eqb negb andb]. change (isspace 32) with true. cbn iota.
  replace (zlen pre + 1) with (zlen (pre ++ [32])) by (zlen_simpl; lia).
  destruct (length line) as [|n] eqn:El; [|apply Hstop].
  apply (f_equal length) in E. rewrite El, length_app in E. cbn in E. lia.
Qed.

Lemma esc_nonempty a : wf_bytes a -> (length a <= length (concat (esc <$> a)))%nat.
Proof.
  induction 1 as [|c a Hc Ha IH]; [done|]. cbn [fmap list_fmap concat length]. rewrite length_app.
  enough (0 < length (esc c))%nat by lia. unfold esc. repeat case_match; cbn; lia.
Qed.

(** The loop over the arguments; [sp] is the blank before the next one. *)
Lemma splitargs_loop_spec rest args : forall fuel pre sp vec done_,
  Forall wf_bytes args -> Forall (fun a => zlen a <= max_size) args ->
  (sp = [] \/ sp = [32]) -> Forall2 repr vec done_ -> (length args < fuel)%nat ->
  exists vec', splitargs_loop fuel (pre ++ sp ++ quoted_line args ++ 0 :: rest) (zlen pre) vec = Ok (Some vec') /\
    Forall2 repr vec' (done_ ++ args).
Proof.
  induction args as [|a args IH]; intros fuel pre sp vec done_ Hw Hm Hsp Hv Hf;
    (destruct fuel as [|fuel]; [lia|]); cbn [splitargs_loop].
  all: set (line := pre ++ sp ++ _).
  all: pose proof (skip_blank line pre sp Hsp) as Hskip.
  - assert (line = (pre ++ sp) ++ 0 :: rest) as E by (unfold line; by rewrite <- app_assoc).
    rewrite (Hskip 0 rest E eq_refl). cbn [mbind res_bind].
    assert (rd line (zlen (pre ++ sp)) = Ok 0) as -> by (rewrite E; apply rd_here). cbn [mbind res_bind Z.eqb negb].
    exists vec. rewrite app_nil_r. done.
  - apply Forall_cons_1 in Hw as [Ha Hw]. apply Forall_cons_1 in Hm as [Hma Hm]. cbn in Hf.
    assert (exists q sp', line = (pre ++ sp) ++ quoted a ++ q /\ q = sp' ++ quoted_line args ++ 0 :: rest /\
      (sp' = [] \/ sp' = [32]) /\ exists x r, q = x :: r /\ (x = 0 \/ x = 32)) as (q & sp' & E & Eq & Hsp' & Hq).
    { destruct args as [|b args].
      - exists (0 :: rest), []. unfold line. cbn [quoted_line]. rewrite <- !app_assoc. split_and!; eauto.
      - exists (32 :: quoted_line (b :: args) ++ 0 :: rest), [32]. unfold line.
        change (quoted_line (a :: b :: args)) with (quoted a ++ 32 :: quoted_line (b :: args)).
        rewrite <- !app_assoc. split_and!; eauto. }
    rewrite (Hskip 34 (concat (esc <$> a) ++ [34] ++ q)); [|rewrite E; unfold quoted; cbn [app]; by rewrite <- (app_assoc (concat _))|done].
    cbn [mbind res_bind].
    assert (rd line (zlen (pre ++ sp)) = Ok 34) as -> by (rewrite E; apply rd_here). cbn [mbind res_bind Z.eqb negb].
    destruct sdsempty_spec as (cur & -> & Hr). cbn [mbind res_bind].
    destruct (token_loop_token (S (length line)) (pre ++ sp) a q cur Hr Ha Hma) as (cur' & Ht & Hr');
      [rewrite E, !length_app; unfold quoted; cbn; rewrite length_app; cbn; pose proof (esc_nonempty a Ha); lia|done|].
    rewrite <- E in Ht. rewrite Ht. cbn [mbind res_bind].
    assert (line = ((pre ++ sp) ++ quoted a) ++ sp' ++ quoted_line args ++ 0 :: rest) as -> by (by rewrite E, Eq, (app_assoc (pre ++ sp))).
    destruct (IH fuel ((pre ++ sp) ++ quoted a) sp' (vec ++ [cur']) (done_ ++ [a]) Hw Hm Hsp') as (vec' & -> & Hv');
      [apply Forall2_app; [done|by constructor]|lia|].
    exists vec'. split; [done|]. by rewrite <- app_assoc in Hv'.
Qed.

(** Quoting the arguments and joining them with spaces. *)
Fixpoint quote_all (args : list bytes) : res (list sds) :=
  match args with
  | [] => Ok []
  | a :: args => s ← sdsempty; s ← sdscatrepr s a; ss ← quote_all args; Ok (s :: ss)
  end.

(** Every byte takes at most four characters, every argument three more. *)
Definition line_bound (args : list bytes) : Z := foldr (fun a n => 4 * zlen a + 3 + n) 0 args.

Lemma line_bound_nonneg args : 0 <= line_bound args.
Proof. induction args as [|a args IH]; cbn; [lia|]. pose proof (zlen_nonneg a). unfold line_bound in *. lia. Qed.

Lemma quote_all_spec args :
  Forall wf_bytes args -> line_bound args <= max_size ->
  exists ss, quote_all args = Ok ss /\ Forall2 repr ss (quoted <$> args).
Proof.
  induction 1 as [|a args Ha Hargs IH]; intros Hm; cbn [quote_all]; [by exists []|].
  pose proof (line_bound_nonneg args). change (line_bound (a :: args)) with (4 * zlen a + 3 + line_bound args) in Hm.
  pose proof (zlen_nonneg a). destruct sdsempty_spec as (s0 & -> & Hr0). cbn [mbind res_bind].
  destruct (sdscatrepr_spec s0 [] a Hr0 Ha) as (s1 & -> & Hr1); [zlen_simpl; lia|]. cbn [mbind res_bind].
  destruct IH as (ss & -> & Hss); [lia|]. cbn [mbind res_bind]. exists (s1 :: ss). split; [done|]. by constructor.
Qed.

Lemma zlen_quoted a : wf_bytes a -> zlen (quoted a) <= 4 * zlen a + 2.
Proof. intros Ha. unfold quoted. zlen_simpl. pose proof (zlen_esc a Ha). lia. Qed.

Lemma join_loop_spec args : forall ss join j,
  Forall2 repr ss (quoted <$> args) -> Forall wf_bytes args -> repr join j ->
  zlen j + line_bound args <= max_size ->
  exists s, join_loop ss [32] join = Ok s /\ repr s (j ++ quoted_line args).
Proof.
  induction args as [|a args IH]; intros ss join j Hss Hw Hj Hm.
  { apply Forall2_nil_inv_r in Hss as ->. exists join. cbn. by rewrite app_nil_r. }
  cbn [fmap list_fmap] in Hss. apply Forall2_cons_inv_r in Hss as (s1 & ss1 & Hs1 & Hss & ->).
  apply Forall_cons_1 in Hw as [Ha Hw]. pose proof (line_bound_nonneg args). pose proof (zlen_quoted a Ha).
  change (line_bound (a :: args)) with (4 * zlen a + 3 + line_bound args) in Hm.
  destruct (sdscatsds_spec join j s1 (quoted a) Hj Hs1) as (s2 & Hs2 & Hr2); [lia|].
  destruct args as [|b args].
  - apply Forall2_nil_inv_r in Hss as ->. exists s2. done.
  - destruct ss1 as [|t ss1]; [by inversion Hss|].
    change (join_loop (s1 :: t :: ss1) [32] join) with
      (join ← sdscatsds join s1; join ← sdscatlen join [32]; join_loop (t :: ss1) [32] join).
    rewrite Hs2. cbn [mbind res_bind].
    destruct (sdscatlen_spec s2 _ [32] Hr2) as (s3 & -> & Hr3); [solve_wf; unfold is_byte; lia|zlen_simpl; lia|].
    cbn [mbind res_bind]. destruct (IH _ s3 _ Hss Hw Hr3) as (s & Hs & Hr); [zlen_simpl; lia|].
    exists s. split; [done|].
    change (quoted_line (a :: b :: args)) with (quoted a ++ 32 :: quoted_line (b :: args)).
    by rewrite <- !app_assoc in Hr.
Qed.

End escapes.

(** [sdssplitargs] reads what [sdscatrepr] writes.  For any arguments, of
    any bytes, quoting each with [sdscatrepr], joining them with [sdsjoinsds]
    and a space and splitting the line with [sdssplitargs] returns, with no
    access outside the buffers, exactly the arguments. *)
Theorem splitargs_catrepr_roundtrip (A : Allocator) (args : list bytes) :
  Forall wf_bytes args -> line_bound args <= max_size ->
  exists ss line toks, quote_all args = Ok ss /\ sdsjoinsds ss [32] = Ok line /\
    sdssplitargs (drop (Z.to_nat (s_off line)) (s_mem line)) = Ok (Some toks) /\
    Forall2 (fun t a => contents t = Ok a) toks args.
Proof.
  intros Hw Hm. destruct (quote_all_spec args Hw Hm) as (ss & Hss & Hrs).
  destruct sdsempty_spec as (s0 & Hs0 & Hr0).
  destruct (join_loop_spec args ss s0 [] Hrs Hw Hr0) as (line & Hline & Hrl); [zlen_simpl; lia|].
  pose proof Hrl as (ty & alloc & rest & [El Hty _ _ _ _ _]). cbn [app] in El.
  destruct (splitargs_loop_spec rest args (S (length (quoted_line args ++ 0 :: rest))) [] [] [] [] Hw) as (toks & Ht & Hrt);
    [..|constructor| |].
  - clear -Hm. induction args as [|a args IH]; constructor.
    + pose proof (line_bound_nonneg args). pose proof (zlen_nonneg a).
      change (line_bound (a :: args)) with (4 * zlen a + 3 + line_bound args) in Hm. lia.
    + apply IH. pose proof (zlen_nonneg a).
      change (line_bound (a :: args)) with (4 * zlen a + 3 + line_bound args) in Hm. lia.
  - by left.
  - rewrite length_app. cbn [length]. clear. induction args as [|a [|b args] IH]; [cbn; lia|cbn; lia|].
    change (quoted_line (a :: b :: args)) with (quoted a ++ 32 :: quoted_line (b :: args)).
    rewrite length_app. cbn [length] in *. lia.
  - exists ss, line, toks. split; [done|]. split; [unfold sdsjoinsds; rewrite Hs0; exact Hline|].
    split; [rewrite El, drop_mk by done; exact Ht|].
    eapply Forall2_impl; [|exact Hrt]. intros t a. apply contents_spec.
Qed.

Lemma splitargs_catrepr_roundtrip_witness :
  exists ss line toks, @quote_all calloc8 [[34; 0; 255]; []; [32; 92; 120]] = Ok ss /\
    @sdsjoinsds calloc8 ss [32] = Ok line /\
    @sdssplitargs calloc8 (drop (Z.to_nat (s_off line)) (s_mem line)) = Ok (Some toks) /\
    Forall2 (fun t a => contents t = Ok a) toks [[34; 0; 255]; []; [32; 92; 120]].
Proof.
  apply (splitargs_catrepr_roundtrip calloc8 [[34; 0; 255]; []; [32; 92; 120]]).
  - repeat constructor; vm_compute; discriminate || reflexivity.
  - vm_compute. discriminate.
Defined.

End SdsSpec.
