(* ===== verification/SdsSplit.v ===== *)
(** * The meaning of [sdssplitargs] on any line.

    A pure description of how a line is cut into arguments, as a recursion
    over its characters, and the proof that [sdssplitargs] computes it on any
    C string: it always returns, and its result depends on the characters
    before the terminator only. *)

From S2P Require Import Prelude Cstring Util Sds SdsTheory.
#[local] Open Scope Z_scope.

Module SdsSplit.
Import Cstring Sds SdsTheory.

Definition is_blank (c : Z) : bool := (c =? 32) || (c =? 10) || (c =? 13) || (c =? 9).

(** A closing quote must end the line or be followed by a space. *)
Definition closes (q : bytes) : bool := match q with [] => true | c :: _ => isspace c end.

(** The token that starts with [cur], and the rest of the line; [None] for an
    unterminated or badly closed quote. *)
Fixpoint token (q cur : bytes) (quo : quoting) : option (bytes * bytes) :=
  match quo with
  | NoQuote =>
    match q with
    | [] => Some (cur, [])
    | c :: r =>
      if is_blank c then Some (cur, r) else
      if c =? 34 then token r cur InQ else
      if c =? 39 then token r cur InSQ else token r (cur ++ [c]) NoQuote
    end
  | InSQ =>
    match q with
    | [] => None
    | c :: r =>
      match r with
      | c1 :: r1 =>
        if (c =? 92) && (c1 =? 39) then token r1 (cur ++ [39]) InSQ else
        if c =? 39 then if closes r then Some (cur, r) else None else token r (cur ++ [c]) InSQ
      | [] => if c =? 39 then Some (cur, []) else None
      end
    end
  | InQ =>
    match q with
    | [] => None
    | c :: r =>
      if c =? 92 then
        match r with
        | [] => None
        | c1 :: r1 =>
          match r1 with
          | a :: r2 =>
            match r2 with
            | b :: r3 =>
              if (c1 =? 120) && is_hex_digit a && is_hex_digit b
              then token r3 (cur ++ [u8 (hex_digit_to_int a * 16 + hex_digit_to_int b)]) InQ
              else token r1 (cur ++ [unescape c1]) InQ
            | [] => token r1 (cur ++ [unescape c1]) InQ
            end
          | [] => token r1 (cur ++ [unescape c1]) InQ
          end
        end
      else if c =? 34 then if closes r then Some (cur, r) else None
      else token r (cur ++ [c]) InQ
    end
  end.

(** The arguments of a line; every token takes at least one character. *)
Fixpoint split_fuel (fuel : nat) (q : bytes) (acc : list bytes) : option (list bytes) :=
  match fuel with
  | O => Some acc
  | S fuel =>
    match drop_while isspace q with
    | [] => Some acc
    | q => match token q [] NoQuote with
           | None => None
           | Some (t, r) => split_fuel fuel r (acc ++ [t])
           end
    end
  end.

Definition splitargs (q : bytes) : option (list bytes) := split_fuel (S (length q)) q [].

(** ** Reading the line *)

Definition plain (q : bytes) : Prop := Forall (fun c => 0 < c < 256) q.

Lemma plain_cons c q : plain (c :: q) <-> 0 < c < 256 /\ plain q.
Proof. split; [intros Hp; by inversion Hp|intros [? ?]; by constructor]. Qed.

Lemma rd_line pre q rest i :
  (i <= length q)%nat -> rd (pre ++ q ++ 0 :: rest) (zlen pre + Z.of_nat i) = Ok (nth i q 0).
Proof.
  intros Hi. rewrite rd_app_off by lia. destruct (decide (i = length q)) as [->|Hne].
  - rewrite nth_overflow by done. change (Z.of_nat (length q)) with (zlen q). apply rd_here.
  - apply rd_lookup; [lia|]. rewrite Nat2Z.id, lookup_app_l by lia.
    destruct (lookup_lt_is_Some_2 q i) as [x Hx]; [lia|]. rewrite Hx. f_equal. symmetry.
    by apply nth_lookup_Some.
Qed.

Section split.
Context `{Allocator}.

(** Appending a character to the token. *)
Lemma cat1 cur l c :
  repr cur l -> zlen l < max_size -> is_byte c -> exists cur', sdscatlen cur [c] = Ok cur' /\ repr cur' (l ++ [c]).
Proof. intros. apply sdscatlen_spec; [done|solve_wf|zlen_simpl; lia]. Qed.

Section line.
Context (line rest : bytes).

(** [at_ pre q]: [pre] is read and [q] is left before the terminator. *)
Definition at_ (pre q : bytes) : Prop := line = pre ++ q ++ 0 :: rest.

Lemma at_rd pre q i : at_ pre q -> (i <= length q)%nat -> rd line (zlen pre + Z.of_nat i) = Ok (nth i q 0).
Proof. intros -> Hi. by apply rd_line. Qed.

Lemma at_shift pre a q : at_ pre (a ++ q) -> at_ (pre ++ a) q.
Proof. unfold at_. intros ->. by rewrite <- !app_assoc. Qed.

Lemma at_rd0 pre q : at_ pre q -> rd line (zlen pre) = Ok (nth 0 q 0).
Proof. intros Ha. rewrite <- (Z.add_0_r (zlen pre)). apply (at_rd pre q 0 Ha). lia. Qed.

Lemma at_rd1 pre q : at_ pre q -> (1 <= length q)%nat -> rd line (zlen pre + 1) = Ok (nth 1 q 0).
Proof. apply (at_rd pre q 1). Qed.
Lemma at_rd2 pre q : at_ pre q -> (2 <= length q)%nat -> rd line (zlen pre + 2) = Ok (nth 2 q 0).
Proof. apply (at_rd pre q 2). Qed.
Lemma at_rd3 pre q : at_ pre q -> (3 <= length q)%nat -> rd line (zlen pre + 3) = Ok (nth 3 q 0).
Proof. apply (at_rd pre q 3). Qed.

Lemma at_advance pre c q quo b cur :
  at_ pre (c :: q) -> 0 < c < 256 -> advance line cur quo b (zlen pre) = Ok (Some (cur, quo, b, zlen (pre ++ [c]))).
Proof.
  intros Ha Hc. unfold advance. rewrite (at_rd0 pre (c :: q)) by done. cbn [nth mbind res_bind].
  rewrite (proj2 (Z.eqb_neq c 0)) by lia. do 4 f_equal. zlen_simpl. lia.
Qed.

Definition outcome (r : res (option (sds * Z))) (o : option (bytes * bytes)) : Prop :=
  match o with
  | None => r = Ok None
  | Some (t, q) => exists cur pre, r = Ok (Some (cur, zlen pre)) /\ at_ pre q /\ repr cur t
  end.

(** The loop from here on, for every shorter rest. *)
Definition loop_ok (fuel : nat) (n : nat) : Prop := forall pre q cur l quo,
  at_ pre q -> plain q -> repr cur l -> zlen l + zlen q <= max_size -> (length q < fuel)%nat -> (length q <= n)%nat ->
  outcome (token_loop fuel line cur quo (zlen pre)) (token q l quo).

Lemma step_plain_ok fuel n pre q cur l :
  loop_ok fuel n -> at_ pre q -> plain q -> repr cur l -> zlen l + zlen q <= max_size ->
  (length q < S fuel)%nat -> (length q <= S n)%nat ->
  outcome (token_loop (S fuel) line cur NoQuote (zlen pre)) (token q l NoQuote).
Proof.
  intros IH Ha Hp Hr Hm Hf Hn. cbn [token_loop]. unfold step_plain. rewrite (at_rd0 pre q) by done.
  destruct q as [|c q]; cbn [nth mbind res_bind token].
  { cbn [Z.eqb orb]. unfold advance. rewrite (at_rd0 pre []) by done. cbn [nth mbind res_bind Z.eqb].
    exists cur, pre. done. }
  apply plain_cons in Hp as [Hc Hp]. zlen_simpl. pose proof (zlen_nonneg q). cbn [length] in *.
  pose proof (at_shift pre [c] q Ha) as Ha'.
  rewrite (proj2 (Z.eqb_neq c 0)), orb_false_r by lia. fold (is_blank c).
  destruct (is_blank c) eqn:Hb.
  { rewrite (at_advance pre c q) by done. cbn [mbind res_bind]. exists cur, (pre ++ [c]). done. }
  destruct (c =? 34).
  { rewrite (at_advance pre c q) by done. cbn [mbind res_bind]. apply IH; done || lia. }
  destruct (c =? 39).
  { rewrite (at_advance pre c q) by done. cbn [mbind res_bind]. apply IH; done || lia. }
  destruct (cat1 cur l c Hr) as (cur' & -> & Hr'); [lia|unfold is_byte; lia|]. cbn [mbind res_bind].
  rewrite (at_advance pre c q) by done. cbn [mbind res_bind]. apply IH; try done; zlen_simpl; lia.
Qed.

(** The character after a closing quote. *)
Lemma bad_close_ok pre c q : at_ pre (c :: q) -> plain q -> bad_close line (zlen pre) = Ok (negb (closes q)).
Proof.
  intros Ha Hp. unfold bad_close. rewrite (at_rd1 pre (c :: q)) by (done || (cbn; lia)).
  destruct q as [|d q]; [done|]. cbn [nth mbind res_bind closes].
  apply plain_cons in Hp as [Hd _]. by rewrite (proj2 (Z.eqb_neq d 0)) by lia.
Qed.

Lemma step_insq_ok fuel n pre q cur l :
  loop_ok fuel n -> at_ pre q -> plain q -> repr cur l -> zlen l + zlen q <= max_size ->
  (length q < S fuel)%nat -> (length q <= S n)%nat ->
  outcome (token_loop (S fuel) line cur InSQ (zlen pre)) (token q l InSQ).
Proof.
  intros IH Ha Hp Hr Hm Hf Hn. cbn [token_loop]. unfold step_insq. rewrite (at_rd0 pre q) by done.
  destruct q as [|c q]; cbn [nth mbind res_bind token]; [done|].
  apply plain_cons in Hp as [Hc Hp]. zlen_simpl. pose proof (zlen_nonneg q). cbn [length] in *.
  pose proof (at_shift pre [c] q Ha) as Ha'.
  rewrite (at_rd1 pre (c :: q)) by (done || (cbn; lia)). cbn [nth].
  rewrite (bad_close_ok pre c q) by done.
  destruct (cat1 cur l c Hr) as (cur' & Hcat & Hr'); [lia|unfold is_byte; lia|].
  destruct q as [|d q].
  - cbn [nth]. assert ((if c =? 92 then Ok (0 =? 39) else Ok false) = Ok false) as E by (by destruct (c =? 92)).
    cbn [mbind res_bind] in *. rewrite E. cbn [mbind res_bind].
    destruct (c =? 39).
    + cbn [closes negb mbind res_bind]. rewrite (at_advance pre c []) by done. cbn [mbind res_bind].
      exists cur, (pre ++ [c]). done.
    + rewrite (proj2 (Z.eqb_neq c 0)) by lia. rewrite Hcat. cbn [mbind res_bind].
      rewrite (at_advance pre c []) by done. cbn [mbind res_bind].
      specialize (IH (pre ++ [c]) [] cur' (l ++ [c]) InSQ Ha' Hp Hr'). cbn [token] in IH.
      apply IH; cbn; try lia. zlen_simpl. lia.
  - cbn [nth mbind res_bind]. apply plain_cons in Hp as [Hd Hp]. zlen_simpl. cbn [length] in *.
    pose proof (zlen_nonneg q). pose proof (at_shift (pre ++ [c]) [d] q Ha') as Ha2.
    destruct (Z.eqb_spec c 92) as [->|H92]; cbn [mbind res_bind andb].
    + destruct (Z.eqb_spec d 39) as [->|H39]; cbn [mbind res_bind].
      * destruct (cat1 cur l 39 Hr) as (cur2 & -> & Hr2); [lia|unfold is_byte; lia|]. cbn [mbind res_bind].
        replace (zlen pre + 1) with (zlen (pre ++ [92])) by (zlen_simpl; lia).
        rewrite (at_advance (pre ++ [92]) 39 q) by (done || lia). cbn [mbind res_bind].
        apply IH; try done; zlen_simpl; lia.
      * cbn [Z.eqb Pos.eqb]. rewrite Hcat. cbn [mbind res_bind]. rewrite (at_advance pre 92 (d :: q)) by (done || lia).
        cbn [mbind res_bind]. apply IH; try done; [by apply plain_cons|zlen_simpl; lia|cbn; lia..].
    + destruct (c =? 39).
      * destruct (closes (d :: q)); cbn [negb mbind res_bind]; [|done].
        rewrite (at_advance pre c (d :: q)) by done. cbn [mbind res_bind]. exists cur, (pre ++ [c]). done.
      * rewrite (proj2 (Z.eqb_neq c 0)) by lia. rewrite Hcat. cbn [mbind res_bind].
        rewrite (at_advance pre c (d :: q)) by done. cbn [mbind res_bind].
        apply IH; try done; [by apply plain_cons|zlen_simpl; lia|cbn; lia..].
Qed.

(** The hexadecimal escape test. *)
Lemma is_hex_escape_ok pre q :
  at_ pre q -> plain q ->
  is_hex_escape line (zlen pre) = Ok
    match q with
    | c :: c1 :: a :: b :: _ => (c =? 92) && (c1 =? 120) && is_hex_digit a && is_hex_digit b
    | _ => false
    end.
Proof.
  intros Ha Hp. unfold is_hex_escape. rewrite (at_rd0 pre q) by done. cbn [mbind res_bind].
  destruct q as [|c q]; [done|]. cbn [nth]. rewrite (at_rd1 pre (c :: q)) by (done || (cbn; lia)).
  apply plain_cons in Hp as [_ Hp]. destruct (c =? 92); cbn [negb andb mbind res_bind]; [|by destruct q as [|? [|? [|? ?]]]].
  destruct q as [|c1 q]; [done|]. cbn [nth]. rewrite (at_rd2 pre (c :: c1 :: q)) by (done || (cbn; lia)).
  destruct (c1 =? 120); cbn [negb andb mbind res_bind]; [|by destruct q as [|? [|? ?]]].
  destruct q as [|a q]; [done|]. cbn [nth]. rewrite (at_rd3 pre (c :: c1 :: a :: q)) by (done || (cbn; lia)).
  destruct (is_hex_digit a); cbn [negb andb mbind res_bind]; [|by destruct q]. by destruct q.
Qed.

Lemma step_inq_ok fuel n pre q cur l :
  loop_ok fuel n -> at_ pre q -> plain q -> repr cur l -> zlen l + zlen q <= max_size ->
  (length q < S fuel)%nat -> (length q <= S n)%nat ->
  outcome (token_loop (S fuel) line cur InQ (zlen pre)) (token q l InQ).
Proof.
  intros IH Ha Hp Hr Hm Hf Hn. cbn [token_loop]. unfold step_inq. rewrite (is_hex_escape_ok pre q) by done.
  rewrite (at_rd0 pre q) by done.
  destruct q as [|c q]; [done|]. cbn [token nth mbind res_bind].
  pose proof Hp as [Hc Hp']%plain_cons. zlen_simpl. pose proof (zlen_nonneg q). cbn [length] in *.
  pose proof (at_shift pre [c] q Ha) as Ha'.
  rewrite (at_rd1 pre (c :: q)) by (done || (cbn; lia)). cbn [nth].
  destruct (cat1 cur l c Hr) as (cur' & Hcat & Hr'); [lia|unfold is_byte; lia|].
  destruct (Z.eqb_spec c 92) as [->|H92].
  2: { assert (match q with c1 :: a :: b :: _ => false && (c1 =? 120) && is_hex_digit a && is_hex_digit b | _ => false end = false)
         as -> by (by destruct q as [|? [|? [|? ?]]]).
       cbn [mbind res_bind]. rewrite (bad_close_ok pre c q) by done. destruct (c =? 34).
       - destruct (closes q); cbn [negb mbind res_bind]; [|done].
         rewrite (at_advance pre c q) by done. cbn [mbind res_bind]. exists cur, (pre ++ [c]). done.
       - rewrite (proj2 (Z.eqb_neq c 0)) by lia. rewrite Hcat. cbn [mbind res_bind].
         rewrite (at_advance pre c q) by done. cbn [mbind res_bind]. apply IH; try done; zlen_simpl; lia. }
  destruct q as [|c1 q].
  { cbn [nth mbind res_bind Z.eqb negb Pos.eqb]. rewrite Hcat. cbn [mbind res_bind].
    rewrite (at_advance pre 92 []) by (done || lia). cbn [mbind res_bind].
    specialize (IH (pre ++ [92]) [] cur' (l ++ [92]) InQ Ha' Hp' Hr'). cbn [token] in IH.
    apply IH; cbn; try lia. zlen_simpl. lia. }
  pose proof Hp' as [Hc1 Hp1]%plain_cons. zlen_simpl. cbn [length nth] in *. pose proof (zlen_nonneg q).
  pose proof (at_shift (pre ++ [92]) [c1] q Ha') as Ha2.
  assert (outcome (r ← (current ← sdscatlen cur [unescape c1]; advance line current InQ false (zlen pre + 1));
     match r with None => Ok None | Some (cur, _, true, p) => Ok (Some (cur, p))
     | Some (cur, q0, false, p) => token_loop fuel line cur q0 p end) (token q (l ++ [unescape c1]) InQ)) as Hesc.
  { destruct (cat1 cur l (unescape c1) Hr) as (cur2 & -> & Hr2);
      [lia|unfold unescape; repeat case_match; unfold is_byte; lia|]. cbn [mbind res_bind].
    replace (zlen pre + 1) with (zlen (pre ++ [92])) by (zlen_simpl; lia).
    rewrite (at_advance (pre ++ [92]) c1 q) by done. cbn [mbind res_bind]. apply IH; try done; zlen_simpl; lia. }
  destruct q as [|a [|b q]].
  1, 2: cbn [mbind res_bind]; rewrite (proj2 (Z.eqb_neq c1 0)) by lia; exact Hesc.
  cbn [andb]. destruct ((c1 =? 120) && is_hex_digit a && is_hex_digit b) eqn:Hhex.
  2: { cbn [mbind res_bind]. rewrite (proj2 (Z.eqb_neq c1 0)) by lia. exact Hesc. }
  cbn [mbind res_bind]. rewrite (at_rd2 pre (92 :: c1 :: a :: b :: q)) by (done || (cbn; lia)).
  rewrite (at_rd3 pre (92 :: c1 :: a :: b :: q)) by (done || (cbn; lia)). cbn [nth mbind res_bind].
  destruct (cat1 cur l (u8 (hex_digit_to_int a * 16 + hex_digit_to_int b)) Hr) as (cur2 & -> & Hr2);
    [lia|apply u8_byte|]. cbn [mbind res_bind].
  apply plain_cons in Hp1 as [Hca Hp1]. pose proof Hp1 as [Hcb Hp2]%plain_cons. zlen_simpl. cbn [length] in *.
  pose proof (zlen_nonneg q). pose proof (at_shift _ [a] (b :: q) Ha2) as Ha3. pose proof (at_shift _ [b] q Ha3) as Ha4.
  replace (zlen pre + 3) with (zlen (((pre ++ [92]) ++ [c1]) ++ [a])) by (zlen_simpl; lia).
  rewrite (at_advance _ b q) by done. cbn [mbind res_bind]. apply IH; try done; zlen_simpl; lia.
Qed.

Lemma token_loop_ok n : forall fuel, (n < fuel)%nat -> loop_ok fuel n.
Proof.
  induction n as [|n IH]; intros [|fuel] Hf; try lia; intros pre q cur l quo Ha Hp Hr Hm Hlf Hln.
  - assert (loop_ok fuel 0 \/ q = []) as [Hl|Hq] by (right; destruct q; [done|cbn in Hln; lia]).
    + destruct quo; eauto using step_plain_ok, step_insq_ok, step_inq_ok.
    + subst q. cbn [token_loop]. destruct quo; cbn [token].
      * unfold step_plain, advance. rewrite (at_rd0 pre []) by done. cbn [nth mbind res_bind Z.eqb orb].
        exists cur, pre. done.
      * unfold step_inq. rewrite (is_hex_escape_ok pre []) by done. cbn [mbind res_bind].
        rewrite (at_rd0 pre []) by done. done.
      * unfold step_insq. rewrite (at_rd0 pre []) by done. done.
  - assert (loop_ok fuel n) as Hl by (apply IH; lia).
    destruct quo; eauto using step_plain_ok, step_insq_ok, step_inq_ok.
Qed.

Lemma skip_blanks_ok fuel pre q :
  at_ pre q -> plain q -> (length q < fuel)%nat ->
  exists pre', skip_blanks fuel line (zlen pre) = Ok (zlen pre') /\ at_ pre' (drop_while isspace q).
Proof.
  revert pre q. induction fuel as [|fuel IH]; intros pre q Ha Hp Hf; [lia|]. cbn [skip_blanks].
  rewrite (at_rd0 pre q) by done. destruct q as [|c q]; cbn [nth mbind res_bind drop_while]; [by exists pre|].
  apply plain_cons in Hp as [Hc Hp]. rewrite (proj2 (Z.eqb_neq c 0)) by lia. cbn [negb andb].
  destruct (isspace c); [|by exists pre].
  replace (zlen pre + 1) with (zlen (pre ++ [c])) by (zlen_simpl; lia).
  apply IH; [by apply at_shift|done|cbn in Hf; lia].
Qed.

Lemma plain_drop_while f q : plain q -> plain (drop_while f q).
Proof. destruct (drop_while_suffix f q) as [p E]. rewrite E at 1. by intros [_ ?]%Forall_app. Qed.

Lemma length_drop_while f (q : bytes) : (length (drop_while f q) <= length q)%nat.
Proof. destruct (drop_while_suffix f q) as [p E]. rewrite E at 2. rewrite length_app. lia. Qed.

(** A token is read off the front of the line. *)
Lemma token_suffix q : forall cur quo t r,
  token q cur quo = Some (t, r) -> exists p, q = p ++ r /\ (q <> [] -> p <> []).
Proof.
  induction q as [q IH] using (induction_ltof1 _ (@length Z)). unfold ltof in IH. intros cur quo t r Ht.
  destruct q as [|c q].
  { destruct quo; try done. injection Ht as _ <-. by exists []. }
  assert (forall a q1 cur quo, c :: q = a ++ q1 -> a <> [] -> token q1 cur quo = Some (t, r) ->
    exists p, c :: q = p ++ r /\ (c :: q <> [] -> p <> [])) as Hrec.
  { intros a q1 cur0 quo0 E Ha Ht1.
    destruct (IH q1 ltac:(rewrite E, length_app; destruct a; [done|cbn; lia]) _ _ _ _ Ht1) as (p & -> & _).
    exists (a ++ p). split; [by rewrite E, app_assoc|]. by destruct a. }
  assert (forall t', Some (t', q) = Some (t, r) -> exists p, c :: q = p ++ r /\ (c :: q <> [] -> p <> [])) as Hend.
  { intros t' [= _ <-]. by exists [c]. }
  destruct quo; cbn [token] in Ht.
  - repeat case_match; try (by eapply Hend); by eapply (Hrec [c]).
  - destruct (c =? 92); [|repeat case_match; try done; try (by eapply Hend); by eapply (Hrec [c])].
    destruct q as [|c1 [|a [|b q]]]; [done|by apply (Hrec [c; c1]) in Ht..|].
    destruct (_ && _ && _); [by apply (Hrec [c; c1; a; b]) in Ht|by apply (Hrec [c; c1]) in Ht].
  - destruct q as [|c1 q]; [repeat case_match; try done; by eapply Hend|].
    destruct (_ && _); [by apply (Hrec [c; c1]) in Ht|].
    repeat case_match; try done; try (by eapply Hend); by eapply (Hrec [c]).
Qed.

Lemma split_loop_ok fuel : forall pre q vec acc,
  at_ pre q -> plain q -> zlen q <= max_size -> (length q < fuel)%nat -> Forall2 repr vec acc ->
  exists o, splitargs_loop fuel line (zlen pre) vec = Ok o /\
    match split_fuel fuel q acc with
    | None => o = None
    | Some args => exists vec', o = Some vec' /\ Forall2 repr vec' args
    end.
Proof.
  induction fuel as [|fuel IH]; intros pre q vec acc Ha Hp Hm Hf Hv; [lia|]. cbn [splitargs_loop split_fuel].
  assert (length q < S (length line))%nat as Hql by (rewrite Ha, !length_app; cbn; lia).
  destruct (skip_blanks_ok (S (length line)) pre q Ha Hp Hql) as (pre1 & -> & Ha1). cbn [mbind res_bind].
  pose proof (plain_drop_while isspace q Hp) as Hp1. pose proof (length_drop_while isspace q) as Hl1.
  rewrite (at_rd0 pre1 _ Ha1). cbn [mbind res_bind].
  destruct (drop_while isspace q) as [|c q1] eqn:Eq; cbn [nth]; [eexists; split; [done|eauto]|].
  pose proof Hp1 as [Hc _]%plain_cons. rewrite (proj2 (Z.eqb_neq c 0)) by lia. cbn [negb].
  destruct sdsempty_spec as (cur & -> & Hr). cbn [mbind res_bind].
  pose proof (token_loop_ok (length (c :: q1)) (S (length line)) ltac:(cbn in *; lia)
    pre1 (c :: q1) cur [] NoQuote Ha1 Hp1 Hr) as Ht.
  pose proof (token_suffix (c :: q1) [] NoQuote) as Hsuf.
  assert (zlen (c :: q1) <= zlen q) as Hzl by (unfold zlen; cbn in *; lia).
  destruct (token (c :: q1) [] NoQuote) as [[t r]|].
  - destruct Ht as (cur' & pre' & -> & Ha2 & Hr2); [change (zlen []) with 0; lia|cbn in *; lia|done|]. cbn [mbind res_bind].
    destruct (Hsuf t r eq_refl) as (p & Ep & Hp0). specialize (Hp0 ltac:(done)).
    apply (IH pre' r (vec ++ [cur']) (acc ++ [t]) Ha2).
    + rewrite Ep in Hp1. by apply Forall_app in Hp1 as [_ ?].
    + apply (f_equal zlen) in Ep. rewrite zlen_app in Ep. pose proof (zlen_nonneg p). lia.
    + apply (f_equal length) in Ep. rewrite length_app in Ep. destruct p; [done|]. cbn in *. lia.
    + apply Forall2_app; [done|by constructor].
  - unfold outcome in Ht. rewrite Ht; [|change (zlen []) with 0; lia|cbn in *; lia|done]. cbn [mbind res_bind]. by eexists.
Qed.

End line.

(** [sdssplitargs] on a C string: it returns, and the arguments are those of
    [splitargs] on the characters before the terminator. *)
Lemma split_fuel_enough q : forall n m acc,
  (length q < n)%nat -> (length q < m)%nat -> split_fuel n q acc = split_fuel m q acc.
Proof.
  induction q as [q IH] using (induction_ltof1 _ (@length Z)). unfold ltof in IH. intros [|n] [|m] acc Hn Hm; try lia.
  cbn [split_fuel]. pose proof (length_drop_while isspace q) as Hl.
  destruct (drop_while isspace q) as [|c q1]; [done|].
  destruct (token (c :: q1) [] NoQuote) as [[t r]|] eqn:Et; [|done].
  apply token_suffix in Et as (p & Ep & Hp0). specialize (Hp0 ltac:(done)).
  apply (f_equal length) in Ep. rewrite length_app in Ep. destruct p; [done|]. cbn in *.
  apply IH; lia.
Qed.

Lemma sdssplitargs_spec q rest :
  plain q -> zlen q <= max_size ->
  exists o, sdssplitargs (q ++ 0 :: rest) = Ok o /\
    match splitargs q with
    | None => o = None
    | Some args => exists vec, o = Some vec /\ Forall2 repr vec args
    end.
Proof.
  intros Hp Hm. unfold sdssplitargs, splitargs.
  assert (length q < S (length (q ++ 0%Z :: rest)))%nat as Hl by (rewrite length_app; lia).
  destruct (split_loop_ok (q ++ 0 :: rest) rest (S (length (q ++ 0 :: rest))) [] q [] []) as (o & Ho & Hs);
    [done|done|done|done|done|].
  exists o. split; [done|]. by rewrite (split_fuel_enough q _ (S (length q))) in Hs by lia.
Qed.

End split.

End SdsSplit.
