(* ===== verification/Networking.v ===== *)
(** * The request parser of a client connection (networking.c).

    The state machine that turns the bytes of a connection into commands:
    [readQueryFromClient] appends what the socket gives to the query buffer,
    [processInputBuffer] decides between the inline and the RESP protocol and
    runs every complete command, and [processInlineBuffer] and
    [processMultibulkBuffer] parse one command, keeping in the client what a
    partial command has given so far.

    The query buffer is a dynamic string of [Sds], so the trimming, the growth
    for large arguments and the reuse of the buffer as an argument are calls of
    that library.  An argument is the content of its string object.

    What lies outside this file is the interface [Server]: the state [X] of
    the rest of the server and of the client, how a command changes it, and
    the flags of the client the parser asks for.  Replies to protocol errors
    are the values of [proto_error]. *)

From S2P Require Import Prelude Cstring Util Sds.
#[local] Open Scope Z_scope.

Module Networking.
Import Cstring Sds.

Definition PROTO_IOBUF_LEN : Z := 1024 * 16.
Definition PROTO_INLINE_MAX_SIZE : Z := 1024 * 64.
Definition PROTO_MBULK_BIG_ARG : Z := 1024 * 32.
Definition PROTO_REQ_INLINE : Z := 1.
Definition PROTO_REQ_MULTIBULK : Z := 2.
Definition INT_MAX : Z := INT32_MAX.

(** ** The rest of the server *)

Class Server (X : Type) : Type := {
  (** [authRequired(c)] *)
  authRequired : X -> bool;
  (** the flags [CLIENT_BLOCKED], [CLIENT_CLOSE_AFTER_REPLY|CLIENT_CLOSE_ASAP]
      and [CLIENT_MULTI] as commands set them *)
  blocked : X -> bool;
  closing : X -> bool;
  in_multi : X -> bool;
  (** [isInsideYieldingLongCommand()] *)
  inside_yielding : X -> bool;
  (** [processCommand(c)] on an argument vector: the new state, whether it
      returned [C_OK], and whether it freed the client *)
  processCommand : X -> list bytes -> X * bool * bool;
  (** it returns [C_ERR] only when the client was destroyed *)
  processCommand_err x args x' dead : processCommand x args = (x', false, dead) -> dead = true;
  (** whether a query buffer of that length, with what MULTI has queued,
      exceeds client-query-buffer-limit or, before authentication, 1 MB *)
  over_query_limit : X -> Z -> bool;
  (** [replicationFeedStreamFromMasterStream] *)
  replicationFeed : X -> bytes -> X;
  (** the configuration proto-max-bulk-len *)
  proto_max_bulk_len : Z;
  proto_max_bulk_len_range : 0 <= proto_max_bulk_len <= 2 ^ 61
}.

(** ** Clients *)

Inductive proto_error : Type :=
| TooBigInline | UnbalancedQuotes | MasterInline
| TooBigMbulkCount | InvalidMbulkCount | UnauthMbulkCount
| TooBigBulkCount | ExpectedDollar (got : Z) | InvalidBulkLen | UnauthBulkLen.

(** The command being read. *)
Record parser : Type := {
  reqtype : Z;
  multibulklen : Z;
  bulklen : Z;
  argv : list bytes;
  argv_len : Z;
  argv_len_sum : Z
}.

(** Replication offsets of a master client. *)
Record repl : Type := { read_reploff : Z; reploff : Z; repl_applied : Z }.

Record client (X : Type) : Type := {
  querybuf : sds;
  qb_pos : Z;
  querybuf_peak : Z;
  is_master : bool;
  pars : parser;
  rep : repl;
  perror : option proto_error;
  pending_command : bool;
  freed : bool;
  srv : X
}.
Arguments querybuf {X} c. Arguments qb_pos {X} c. Arguments querybuf_peak {X} c. Arguments is_master {X} c.
Arguments pars {X} c. Arguments rep {X} c. Arguments perror {X} c. Arguments pending_command {X} c.
Arguments freed {X} c. Arguments srv {X} c.

(** What [connRead] finds: nothing for now, the end of the connection or an
    error, or at most [limit] bytes of what the socket holds. *)
Inductive conn_read : Type :=
| Again
| Closed
| Avail (limit : Z).

Definition argc (p : parser) : Z := zlen (argv p).

Section net.
Context `{Allocator} {X : Type} `{Server X}.
Implicit Types c : client X.

Definition set_buf c (q : sds) (pos peak : Z) : client X :=
  {| querybuf := q; qb_pos := pos; querybuf_peak := peak; is_master := is_master c; pars := pars c; rep := rep c;
     perror := perror c; pending_command := pending_command c; freed := freed c; srv := srv c |}.
Definition set_pos c (pos : Z) : client X := set_buf c (querybuf c) pos (querybuf_peak c).
Definition set_pars c (p : parser) : client X :=
  {| querybuf := querybuf c; qb_pos := qb_pos c; querybuf_peak := querybuf_peak c; is_master := is_master c; pars := p;
     rep := rep c; perror := perror c; pending_command := pending_command c; freed := freed c; srv := srv c |}.
Definition set_rep c (r : repl) (x : X) : client X :=
  {| querybuf := querybuf c; qb_pos := qb_pos c; querybuf_peak := querybuf_peak c; is_master := is_master c;
     pars := pars c; rep := r; perror := perror c; pending_command := pending_command c; freed := freed c; srv := x |}.
Definition set_srv c (x : X) (dead : bool) : client X :=
  {| querybuf := querybuf c; qb_pos := qb_pos c; querybuf_peak := querybuf_peak c; is_master := is_master c;
     pars := pars c; rep := rep c; perror := perror c; pending_command := pending_command c; freed := dead; srv := x |}.
Definition set_pending c (b : bool) : client X :=
  {| querybuf := querybuf c; qb_pos := qb_pos c; querybuf_peak := querybuf_peak c; is_master := is_master c;
     pars := pars c; rep := rep c; perror := perror c; pending_command := b; freed := freed c; srv := srv c |}.

(** [setProtocolError], with the error reply that comes with it: the client
    is closed after the reply. *)
Definition setProtocolError c (e : proto_error) : client X :=
  {| querybuf := querybuf c; qb_pos := qb_pos c; querybuf_peak := querybuf_peak c; is_master := is_master c;
     pars := pars c; rep := rep c; perror := Some e; pending_command := pending_command c; freed := freed c; srv := srv c |}.

(** [freeClientArgv] and the parser's part of [resetClient]. *)
Definition freeClientArgv (p : parser) : parser :=
  {| reqtype := reqtype p; multibulklen := multibulklen p; bulklen := bulklen p;
     argv := []; argv_len := 0; argv_len_sum := 0 |}.

Definition resetClient c : client X :=
  let p := freeClientArgv (pars c) in
  set_pars c {| reqtype := 0; multibulklen := 0; bulklen := -1;
                argv := argv p; argv_len := argv_len p; argv_len_sum := argv_len_sum p |}.

(** [createClient]: the fields of the parser, on a server in state [x]. *)
Definition createClient (x : X) : res (client X) :=
  q ← sdsempty;
  Ok {| querybuf := q; qb_pos := 0; querybuf_peak := 0; is_master := false;
        pars := {| reqtype := 0; multibulklen := 0; bulklen := -1; argv := []; argv_len := 0; argv_len_sum := 0 |};
        rep := {| read_reploff := 0; reploff := 0; repl_applied := 0 |};
        perror := None; pending_command := false; freed := false; srv := x |}.

(** [strchr(c->querybuf + c->qb_pos, x)], as an offset from [c->querybuf]. *)
Definition find_char c (x : Z) : res (option Z) :=
  r ← strchr_from (s_mem (querybuf c)) (s_off (querybuf c) + qb_pos c) x;
  Ok (option_map (fun i => i - s_off (querybuf c)) r).

(** ** The inline protocol *)

(** The contents of the strings of an array. *)
Fixpoint contents_all (l : list sds) : res (list bytes) :=
  match l with
  | [] => Ok []
  | s :: l => b ← contents s; r ← contents_all l; Ok (b :: r)
  end.

(** The client, and whether the result is [C_OK]. *)
Definition processInlineBuffer c : res (client X * bool) :=
  newline ← find_char c 10;
  qlen ← sdslen (querybuf c);
  match newline with
  | None =>
    if PROTO_INLINE_MAX_SIZE <? u64 (qlen - qb_pos c) then Ok (setProtocolError c TooBigInline, false)
    else Ok (c, false)
  | Some newline =>
    r ← (if negb (newline =? qb_pos c) then
           ch ← get1 (querybuf c) (newline - 1);
           if ch =? 13 then Ok (newline - 1, 2) else Ok (newline, 1)
         else Ok (newline, 1));
    let '(newline, linefeed_chars) := r in
    let querylen := newline - qb_pos c in
    b ← get (querybuf c) (qb_pos c) querylen;
    aux ← sdsnewlen (Init b) querylen;
    args ← sdssplitargs (drop (Z.to_nat (s_off aux)) (s_mem aux));
    match args with
    | None => Ok (setProtocolError c UnbalancedQuotes, false)
    | Some args =>
      args ← contents_all args;
      if negb (querylen =? 0) && is_master c then Ok (setProtocolError c MasterInline, false) else
      let c := set_pos c (qb_pos c + (querylen + linefeed_chars)) in
      let p := pars c in
      Ok (set_pars c {| reqtype := reqtype p; multibulklen := multibulklen p; bulklen := bulklen p;
            argv := args;
            argv_len := if negb (zlen args =? 0) then zlen args else argv_len p;
            argv_len_sum := (if negb (zlen args =? 0) then 0 else argv_len_sum p) + foldr (fun a n => zlen a + n) 0 args |},
          true)
    end
  end.

(** ** The RESP protocol *)

(** [newline-(c->querybuf+c->qb_pos) > (ssize_t)(sdslen(c->querybuf)-c->qb_pos-2)] *)
Definition line_incomplete c (newline qlen : Z) : bool :=
  i64 (u64 (qlen - qb_pos c - 2)) <? newline - qb_pos c.

(** [string2ll(c->querybuf+1+c->qb_pos, newline-(c->querybuf+1+c->qb_pos), &ll)] *)
Definition read_count c (newline : Z) : res (option Z) :=
  b ← get (querybuf c) (qb_pos c + 1) (newline - (qb_pos c + 1));
  Util.string2ll b (newline - (qb_pos c + 1)).

(** The first part of [processMultibulkBuffer]: the number of arguments.
    [inl] is an early return. *)
Definition read_multibulklen c : res ((client X * bool) + client X) :=
  _ ← cassert (argc (pars c) =? 0);
  newline ← find_char c 13;
  qlen ← sdslen (querybuf c);
  match newline with
  | None =>
    if PROTO_INLINE_MAX_SIZE <? u64 (qlen - qb_pos c) then Ok (inl (setProtocolError c TooBigMbulkCount, false))
    else Ok (inl (c, false))
  | Some newline =>
    if line_incomplete c newline qlen then Ok (inl (c, false)) else
    ch ← get1 (querybuf c) (qb_pos c);
    _ ← cassert (ch =? 42);
    ok ← read_count c newline;
    match ok with
    | None => Ok (inl (setProtocolError c InvalidMbulkCount, false))
    | Some ll =>
      if INT_MAX <? ll then Ok (inl (setProtocolError c InvalidMbulkCount, false)) else
      if (10 <? ll) && authRequired (srv c) then Ok (inl (setProtocolError c UnauthMbulkCount, false)) else
      let c := set_pos c (newline + 2) in
      if ll <=? 0 then Ok (inl (c, true)) else
      let p := pars c in
      Ok (inr (set_pars c {| reqtype := reqtype p; multibulklen := ll; bulklen := bulklen p;
                             argv := argv p; argv_len := Z.min ll 1024; argv_len_sum := 0 |}))
    end
  end.

(** What an iteration of the loop over the arguments does. *)
Inductive iter : Type :=
| Break (c : client X)
| ReturnErr (c : client X)
| Continue (c : client X).

(** Reading the length of the next argument, when it is unknown. *)
Definition read_bulklen c : res iter :=
  newline ← find_char c 13;
  qlen ← sdslen (querybuf c);
  match newline with
  | None =>
    if PROTO_INLINE_MAX_SIZE <? u64 (qlen - qb_pos c) then Ok (ReturnErr (setProtocolError c TooBigBulkCount))
    else Ok (Break c)
  | Some newline =>
    if line_incomplete c newline qlen then Ok (Break c) else
    ch ← get1 (querybuf c) (qb_pos c);
    if negb (ch =? 36) then Ok (ReturnErr (setProtocolError c (ExpectedDollar ch))) else
    ok ← read_count c newline;
    match ok with
    | None => Ok (ReturnErr (setProtocolError c InvalidBulkLen))
    | Some ll =>
      if (ll <? 0) || (negb (is_master c) && (proto_max_bulk_len <? ll))
      then Ok (ReturnErr (setProtocolError c InvalidBulkLen)) else
      if (16384 <? ll) && authRequired (srv c) then Ok (ReturnErr (setProtocolError c UnauthBulkLen)) else
      let c := set_pos c (newline + 2) in
      c ← (if negb (is_master c) && (PROTO_MBULK_BIG_ARG <=? ll) && (u64 (qlen - qb_pos c) <=? u64 ll + 2) then
             q ← sdsrange (querybuf c) (qb_pos c) (-1);
             n ← sdslen q;
             q ← sdsMakeRoomForNonGreedy q (u64 (ll + 2 - n));
             Ok (set_buf c q 0 (if querybuf_peak c <? u64 ll + 2 then ll + 2 else querybuf_peak c))
           else Ok c);
      let p := pars c in
      Ok (Continue (set_pars c {| reqtype := reqtype p; multibulklen := multibulklen p; bulklen := ll;
                                  argv := argv p; argv_len := argv_len p; argv_len_sum := argv_len_sum p |}))
    end
  end.

(** [c->argv[c->argc++] = o], with the growth of the array and the counters. *)
Definition push_arg (p : parser) (a : bytes) : res parser :=
  let cap := if argv_len p <=? argc p then
               Z.min (if argv_len p <? INT_MAX / 2 then argv_len p * 2 else INT_MAX) (argc p + multibulklen p)
             else argv_len p in
  _ ← (if argc p <? cap then Ok tt else Fault OutOfBounds);
  Ok {| reqtype := reqtype p; multibulklen := multibulklen p - 1; bulklen := -1;
        argv := argv p ++ [a]; argv_len := cap; argv_len_sum := argv_len_sum p + bulklen p |}.

(** Reading the argument itself. *)
Definition read_bulk c : res iter :=
  qlen ← sdslen (querybuf c);
  let p := pars c in
  if u64 (qlen - qb_pos c) <? u64 (bulklen p + 2) then Ok (Break c) else
  if negb (is_master c) && (qb_pos c =? 0) && (PROTO_MBULK_BIG_ARG <=? bulklen p) && (qlen =? u64 (bulklen p + 2)) then
    o ← sdsIncrLen (querybuf c) (-2);
    a ← contents o;
    p ← push_arg p a;
    q ← sdsnewlen NoInit (bulklen (pars c) + 2);
    q ← sdsclear q;
    Ok (Continue (set_pars (set_buf c q (qb_pos c) (querybuf_peak c)) p))
  else
    a ← get (querybuf c) (qb_pos c) (bulklen p);
    p' ← push_arg p a;
    Ok (Continue (set_pars (set_pos c (qb_pos c + (bulklen p + 2))) p')).

(** [while(c->multibulklen)]: [inl] for the return of an error. *)
Fixpoint bulk_loop (fuel : nat) c : res (client X + client X) :=
  match fuel with
  | O => Fault OutOfFuel
  | S fuel =>
    if multibulklen (pars c) =? 0 then Ok (inr c) else
    r ← (if bulklen (pars c) =? -1 then read_bulklen c else Ok (Continue c));
    match r with
    | Break c => Ok (inr c)
    | ReturnErr c => Ok (inl c)
    | Continue c =>
      r ← read_bulk c;
      match r with
      | Break c => Ok (inr c)
      | ReturnErr c => Ok (inl c)
      | Continue c => bulk_loop fuel c
      end
    end
  end.

Definition processMultibulkBuffer c : res (client X * bool) :=
  r ← (if multibulklen (pars c) =? 0 then read_multibulklen c else Ok (inr c));
  match r with
  | inl r => Ok r
  | inr c =>
    _ ← cassert (0 <? multibulklen (pars c));
    qlen ← sdslen (querybuf c);
    r ← bulk_loop (S (S (Z.to_nat qlen))) c;
    match r with
    | inl c => Ok (c, false)
    | inr c => Ok (c, multibulklen (pars c) =? 0)
    end
  end.

(** ** Commands *)

Definition commandProcessed c : res (client X) :=
  if blocked (srv c) then Ok c else
  let c := resetClient c in
  let prev_offset := reploff (rep c) in
  qlen ← sdslen (querybuf c);
  let r := rep c in
  let r := if is_master c && negb (in_multi (srv c)) then
             {| read_reploff := read_reploff r; reploff := read_reploff r - qlen + qb_pos c; repl_applied := repl_applied r |}
           else r in
  if is_master c then
    let applied := reploff r - prev_offset in
    if negb (applied =? 0) then
      b ← get (querybuf c) (repl_applied r) applied;
      Ok (set_rep c {| read_reploff := read_reploff r; reploff := reploff r; repl_applied := repl_applied r + applied |}
            (replicationFeed (srv c) b))
    else Ok (set_rep c r (srv c))
  else Ok c.

(** The client, and whether it is still valid. *)
Definition processCommandAndResetClient c : res (client X * bool) :=
  let '(x, ok, dead) := processCommand (srv c) (argv (pars c)) in
  let c := set_srv c x dead in
  c ← (if ok : bool then commandProcessed c else Ok c);
  Ok (c, negb dead).

(** [while(c->qb_pos < sdslen(c->querybuf))]; [io_read] when an I/O thread
    runs it.  [inl] is the return of [C_ERR]. *)
Fixpoint input_loop (fuel : nat) (io_read : bool) c : res (client X + client X) :=
  match fuel with
  | O => Fault OutOfFuel
  | S fuel =>
    qlen ← sdslen (querybuf c);
    if negb (qb_pos c <? qlen) then Ok (inr c) else
    if blocked (srv c) then Ok (inr c) else
    if pending_command c then Ok (inr c) else
    if inside_yielding (srv c) && is_master c then Ok (inr c) else
    if closing (srv c) || bool_decide (is_Some (perror c)) then Ok (inr c) else
    ch ← get1 (querybuf c) (qb_pos c);
    let p := pars c in
    let c := if reqtype p =? 0 then
               set_pars c {| reqtype := if ch =? 42 then PROTO_REQ_MULTIBULK else PROTO_REQ_INLINE;
                             multibulklen := multibulklen p; bulklen := bulklen p;
                             argv := argv p; argv_len := argv_len p; argv_len_sum := argv_len_sum p |}
             else c in
    r ← (if reqtype (pars c) =? PROTO_REQ_INLINE then processInlineBuffer c
         else _ ← cassert (reqtype (pars c) =? PROTO_REQ_MULTIBULK); processMultibulkBuffer c);
    let '(c, ok) := r in
    if negb ok then Ok (inr c) else
    if argc (pars c) =? 0 then input_loop fuel io_read (resetClient c) else
    if io_read then Ok (inr (set_pending c true)) else
    r ← processCommandAndResetClient c;
    let '(c, valid) := r in
    if negb valid then Ok (inl c) else input_loop fuel io_read c
  end.

(** The end of [processInputBuffer]: the buffer of a master keeps what was not
    applied, the one of another client what was not consumed. *)
Definition trim_querybuf c : res (client X) :=
  if is_master c then
    let r := rep c in
    if negb (repl_applied r =? 0) then
      q ← sdsrange (querybuf c) (repl_applied r) (-1);
      Ok (set_rep (set_buf c q (qb_pos c - repl_applied r) (querybuf_peak c))
            {| read_reploff := read_reploff r; reploff := reploff r; repl_applied := 0 |} (srv c))
    else Ok c
  else if negb (qb_pos c =? 0) then
    q ← sdsrange (querybuf c) (qb_pos c) (-1);
    Ok (set_buf c q 0 (querybuf_peak c))
  else Ok c.

(** The client, and whether the result is [C_OK]. *)
Definition processInputBuffer (io_read : bool) c : res (client X * bool) :=
  qlen ← sdslen (querybuf c);
  r ← input_loop (S (S (Z.to_nat qlen))) io_read c;
  match r with
  | inl c => Ok (c, false)
  | inr c =>
    c ← trim_querybuf c;
    Ok (c, true)
  end.

(** [processPendingCommandAndInputBuffer]: what the main thread does after an
    I/O thread has read and parsed. *)
Definition processPendingCommandAndInputBuffer c : res (client X * bool) :=
  r ← (if pending_command c then processCommandAndResetClient (set_pending c false) else Ok (c, true));
  let '(c, valid) := r in
  if negb valid then Ok (c, false) else
  qlen ← sdslen (querybuf c);
  if 0 <? qlen then processInputBuffer false c else Ok (c, true).

(** How much [readQueryFromClient] asks for: [big_arg] and [readlen]. *)
Definition read_size c (qlen : Z) : bool * Z :=
  let p := pars c in
  if (reqtype p =? PROTO_REQ_MULTIBULK) && negb (multibulklen p =? 0) && negb (bulklen p =? -1)
     && (PROTO_MBULK_BIG_ARG <=? bulklen p) then
    let remaining := i64 (u64 (bulklen p + 2) - u64 (qlen - qb_pos c)) in
    let readlen := if 0 <? remaining then remaining else PROTO_IOBUF_LEN in
    (true, if is_master c && (readlen <? PROTO_IOBUF_LEN) then PROTO_IOBUF_LEN else readlen)
  else (false, PROTO_IOBUF_LEN).

(** The room made in the query buffer, the size of the read and the peak. *)
Definition make_read_room c : res (sds * Z * Z) :=
  qblen ← sdslen (querybuf c);
  let '(big_arg, readlen) := read_size c qblen in
  alloc ← sdsalloc (querybuf c);
  if negb (is_master c) && (big_arg || (alloc <? PROTO_IOBUF_LEN)) then
    q ← sdsMakeRoomForNonGreedy (querybuf c) readlen;
    Ok (q, readlen, if querybuf_peak c <? qblen + readlen then qblen + readlen else querybuf_peak c)
  else
    q ← sdsMakeRoomFor (querybuf c) readlen;
    readlen ← sdsavail q;
    Ok (q, readlen, querybuf_peak c).

(** [freeClientAsync]: the client is served no more. *)
Definition freeClientAsync c : client X := set_srv c (srv c) true.

(** [readQueryFromClient]: [sock] is what the peer has sent and the socket
    holds; the result is the client and what is left in the socket.  A client
    to be freed is not read any more. *)
Definition readQueryFromClient c (ev : conn_read) (sock : bytes) : res (client X * bytes) :=
  if freed c then Ok (c, sock) else
  qblen ← sdslen (querybuf c);
  r ← make_read_room c;
  let '(q, readlen, peak) := r in
  match ev with
  | Again => Ok (set_buf c q (qb_pos c) peak, sock)
  | Closed => Ok (freeClientAsync (set_buf c q (qb_pos c) peak), sock)
  | Avail limit =>
    let nread := Z.min (Z.min readlen limit) (zlen sock) in
    if nread <=? 0 then Ok (set_buf c q (qb_pos c) peak, sock) else
    q ← put q qblen (take (Z.to_nat nread) sock);
    q ← sdsIncrLen q nread;
    qblen ← sdslen q;
    let c := set_buf c q (qb_pos c) (if peak <? qblen then qblen else peak) in
    let r := rep c in
    let c := if is_master c then
               set_rep c {| read_reploff := read_reploff r + nread; reploff := reploff r; repl_applied := repl_applied r |} (srv c)
             else c in
    if negb (is_master c) && over_query_limit (srv c) qblen then Ok (freeClientAsync c, drop (Z.to_nat nread) sock) else
    r ← processInputBuffer false c;
    Ok (fst r, drop (Z.to_nat nread) sock)
  end.

End net.
Arguments iter X : clear implicits.

End Networking.
