(* ===== verification/NetworkingTheory.v ===== *)
(** * The request parser: an abstract machine and its simulation.

    The parser of a connection depends on its query buffer only through the
    bytes it has not consumed yet.  This file gives the machine on those bytes
    ([astep]: one header, one argument or one inline command at a time), shows
    that the C code runs it until it stops ([input_loop_spec] and
    [readQuery_spec]), and that a step taken on some bytes is taken on any
    extension of them ([astep_app]): the ground for the independence of the
    parser from how the network cuts the stream. *)

From S2P Require Import Prelude Cstring Util Sds SdsTheory SdsSplit Networking.
From stdpp Require Import relations.
#[local] Open Scope Z_scope.

Module NetworkingTheory.
Import Cstring Sds SdsTheory SdsSplit Networking.

(** ** Searching the unread bytes *)

(** The offset of the first [x] before any zero. *)
Fixpoint idx (x : Z) (b : bytes) : option Z :=
  match b with
  | [] => None
  | c :: b => if c =? x then Some 0 else if c =? 0 then None else option_map (Z.add 1) (idx x b)
  end.

Lemma strchr_idx x b rest : x <> 0 -> strchr (b ++ 0 :: rest) x = Ok (idx x b).
Proof.
  intros Hx. induction b as [|c b IH]; cbn [app strchr idx].
  - by rewrite (proj2 (Z.eqb_neq 0 x)) by lia.
  - destruct (c =? x); [done|]. destruct (c =? 0); [done|]. by rewrite IH.
Qed.

Lemma idx_app x b d k : idx x b = Some k -> idx x (b ++ d) = Some k.
Proof.
  revert k. induction b as [|c b IH]; intros k; [done|]. cbn. destruct (c =? x); [done|]. destruct (c =? 0); [done|].
  destruct (idx x b) as [j|]; [|done]. intros [= <-]. by rewrite (IH j).
Qed.

Lemma idx_spec x b k :
  idx x b = Some k -> exists p q, b = p ++ x :: q /\ zlen p = k /\ Forall (fun c => c <> x /\ c <> 0) p.
Proof.
  revert k. induction b as [|c b IH]; intros k; [done|]. cbn.
  destruct (Z.eqb_spec c x) as [->|Hx]; [intros [= <-]; by exists [], b|].
  destruct (Z.eqb_spec c 0); [done|]. destruct (idx x b) as [j|]; [|done]. intros [= <-].
  destruct (IH j eq_refl) as (p & q & -> & Hl & Hp). exists (c :: p), q.
  split; [done|]. split; [zlen_simpl; lia|by constructor].
Qed.

Lemma idx_range x b k : idx x b = Some k -> 0 <= k < zlen b.
Proof.
  intros (p & q & -> & Hl & _)%idx_spec. zlen_simpl. pose proof (zlen_nonneg p). pose proof (zlen_nonneg q). lia.
Qed.

(** A search that does not stop at the first byte. *)
Lemma idx_pos x b k : idx x b = Some k -> nth 0 b 0 <> x -> 1 <= k.
Proof.
  destruct b as [|c b]; [done|]. cbn. destruct (Z.eqb_spec c x); [done|]. destruct (c =? 0); [done|].
  destruct (idx x b) as [j|] eqn:E; [|done]. intros [= <-] _. apply idx_range in E. lia.
Qed.

(** A search that fails and then succeeds on more bytes finds it past them. *)
Lemma idx_later x b d k : idx x b = None -> idx x (b ++ d) = Some k -> zlen b <= k.
Proof.
  revert k. induction b as [|c b IH]; intros k Hn Hs.
  - apply idx_range in Hs. zlen_simpl. lia.
  - cbn in Hn, Hs. destruct (c =? x); [done|]. destruct (c =? 0); [done|].
    destruct (idx x b) as [j|]; [done|]. destruct (idx x (b ++ d)) as [j|] eqn:E; [|done].
    injection Hs as <-. zlen_simpl. pose proof (IH j eq_refl eq_refl). lia.
Qed.

(** ** Numbers *)

Definition parse_ll (t : bytes) : option Z := match Util.string2ll t (zlen t) with Ok o => o | Fault _ => None end.

Lemma string2ll_parse t : Util.string2ll t (zlen t) = Ok (parse_ll t).
Proof.
  unfold parse_ll. destruct (Util.string2ll_spec t []) as (o & Ho & _). rewrite app_nil_r in Ho. by rewrite Ho.
Qed.

Lemma parse_ll_long t : 21 <= zlen t -> parse_ll t = None.
Proof.
  intros Hl. unfold parse_ll, Util.string2ll. change Util.LONG_STR_SIZE with 21.
  rewrite (proj2 (Z.leb_le 21 (zlen t))) by done. by rewrite orb_true_r.
Qed.

(** ** The machine *)

Section machine.
Context {X : Type} `{Server X}.

Record view : Type := { vb : bytes; vp : parser; vx : X; ve : option proto_error; vf : bool }.

(** What the unread bytes allow: wait, an error, or [n] bytes consumed with
    the command incomplete or complete. *)
Inductive aout : Type :=
| AWait
| AErr (e : proto_error)
| ANext (n : Z) (p : parser)
| ADone (n : Z) (p : parser).

(** The digits between the first character and the end of the line. *)
Definition count_text (k : Z) (b : bytes) : bytes := take (Z.to_nat (k - 1)) (drop 1 b).

Definition aheader (x : X) (b : bytes) (p : parser) : aout :=
  match idx 13 b with
  | None => if PROTO_INLINE_MAX_SIZE <? zlen b then AErr TooBigMbulkCount else AWait
  | Some k =>
    if zlen b - 2 <? k then AWait else
    match parse_ll (count_text k b) with
    | None => AErr InvalidMbulkCount
    | Some ll =>
      if INT_MAX <? ll then AErr InvalidMbulkCount else
      if (10 <? ll) && authRequired x then AErr UnauthMbulkCount else
      if ll <=? 0 then ADone (k + 2) p else
      ANext (k + 2) {| reqtype := reqtype p; multibulklen := ll; bulklen := bulklen p;
                       argv := argv p; argv_len := Z.min ll 1024; argv_len_sum := 0 |}
    end
  end.

Definition abulkhdr (x : X) (b : bytes) (p : parser) : aout :=
  match idx 13 b with
  | None => if PROTO_INLINE_MAX_SIZE <? zlen b then AErr TooBigBulkCount else AWait
  | Some k =>
    if zlen b - 2 <? k then AWait else
    if negb (nth 0 b 0 =? 36) then AErr (ExpectedDollar (nth 0 b 0)) else
    match parse_ll (count_text k b) with
    | None => AErr InvalidBulkLen
    | Some ll =>
      if (ll <? 0) || (proto_max_bulk_len <? ll) then AErr InvalidBulkLen else
      if (16384 <? ll) && authRequired x then AErr UnauthBulkLen else
      ANext (k + 2) {| reqtype := reqtype p; multibulklen := multibulklen p; bulklen := ll;
                       argv := argv p; argv_len := argv_len p; argv_len_sum := argv_len_sum p |}
    end
  end.

Definition apush (p : parser) (a : bytes) : parser :=
  {| reqtype := reqtype p; multibulklen := multibulklen p - 1; bulklen := -1; argv := argv p ++ [a];
     argv_len := if argv_len p <=? argc p then
                   Z.min (if argv_len p <? INT_MAX / 2 then argv_len p * 2 else INT_MAX) (argc p + multibulklen p)
                 else argv_len p;
     argv_len_sum := argv_len_sum p + bulklen p |}.

Definition abody (b : bytes) (p : parser) : aout :=
  if zlen b <? bulklen p + 2 then AWait else
  let p' := apush p (take (Z.to_nat (bulklen p)) b) in
  if multibulklen p' =? 0 then ADone (bulklen p + 2) p' else ANext (bulklen p + 2) p'.

(** The line of an inline command, and the length of its end. *)
Definition inline_line (k : Z) (b : bytes) : bytes * Z :=
  if negb (k =? 0) && (nth (Z.to_nat (k - 1)) b 0 =? 13) then (take (Z.to_nat (k - 1)) b, 2)
  else (take (Z.to_nat k) b, 1).

Definition ainline (b : bytes) (p : parser) : aout :=
  match idx 10 b with
  | None => if PROTO_INLINE_MAX_SIZE <? zlen b then AErr TooBigInline else AWait
  | Some k =>
    let '(line, lf) := inline_line k b in
    match splitargs line with
    | None => AErr UnbalancedQuotes
    | Some args =>
      ADone (zlen line + lf)
        {| reqtype := reqtype p; multibulklen := multibulklen p; bulklen := bulklen p; argv := args;
           argv_len := if negb (zlen args =? 0) then zlen args else argv_len p;
           argv_len_sum := (if negb (zlen args =? 0) then 0 else argv_len_sum p) + foldr (fun a n => zlen a + n) 0 args |}
    end
  end.

Definition micro (x : X) (b : bytes) (p : parser) : aout :=
  if reqtype p =? PROTO_REQ_INLINE then ainline b p else
  if multibulklen p =? 0 then aheader x b p else
  if bulklen p =? -1 then abulkhdr x b p else abody b p.

Definition areset : parser :=
  {| reqtype := 0; multibulklen := 0; bulklen := -1; argv := []; argv_len := 0; argv_len_sum := 0 |}.

(** The command is complete: run it, unless it is empty. *)
Definition afinish (v : view) : view :=
  if argc (vp v) =? 0 then {| vb := vb v; vp := areset; vx := vx v; ve := ve v; vf := vf v |} else
  let '(x, ok, dead) := processCommand (vx v) (argv (vp v)) in
  {| vb := vb v; vp := if ok && negb (blocked x) then areset else vp v; vx := x; ve := ve v; vf := dead |}.

Definition consume (v : view) (n : Z) (p : parser) : view :=
  {| vb := drop (Z.to_nat n) (vb v); vp := p; vx := vx v; ve := ve v; vf := vf v |}.
Definition fail (v : view) (e : proto_error) : view :=
  {| vb := vb v; vp := vp v; vx := vx v; ve := Some e; vf := vf v |}.

(** The conditions under which the parser runs. *)
Definition live (v : view) : bool :=
  negb (vf v) && negb (blocked (vx v)) && negb (closing (vx v)) && negb (bool_decide (is_Some (ve v))).

Definition set_reqtype (p : parser) (t : Z) : parser :=
  {| reqtype := t; multibulklen := multibulklen p; bulklen := bulklen p;
     argv := argv p; argv_len := argv_len p; argv_len_sum := argv_len_sum p |}.

Definition astep (v : view) : option view :=
  if negb (live v) then None else
  match vb v with
  | [] => None
  | ch :: _ =>
    if reqtype (vp v) =? 0 then
      Some (consume v 0 (set_reqtype (vp v) (if ch =? 42 then PROTO_REQ_MULTIBULK else PROTO_REQ_INLINE)))
    else match micro (vx v) (vb v) (vp v) with
         | AWait => None
         | AErr e => Some (fail v e)
         | ANext n p => Some (consume v n p)
         | ADone n p => Some (afinish (consume v n p))
         end
  end.

Definition step (v w : view) : Prop := astep v = Some w.

(** [v] runs to [w] and stops there. *)
Definition runs (v w : view) : Prop := rtc step v w /\ astep w = None.

(** ** More bytes *)

Definition more (v : view) (d : bytes) : view :=
  {| vb := vb v ++ d; vp := vp v; vx := vx v; ve := ve v; vf := vf v |}.

(** ** Well-formed states *)

(** The states of the parser between two steps. *)
Record PI (v : view) : Prop := {
  pi_type : reqtype (vp v) = 0 \/ reqtype (vp v) = 1 \/ reqtype (vp v) = 2;
  pi_start : multibulklen (vp v) = 0 -> bulklen (vp v) = -1 /\ argv (vp v) = [];
  pi_star : multibulklen (vp v) = 0 -> reqtype (vp v) = 2 -> exists t, vb v = 42 :: t;
  pi_mid : multibulklen (vp v) <> 0 ->
    reqtype (vp v) = 2 /\ 0 < multibulklen (vp v) /\ 1 <= argv_len (vp v) /\ argc (vp v) <= argv_len (vp v) /\
    argc (vp v) + multibulklen (vp v) <= INT_MAX;
  pi_bulk : bulklen (vp v) = -1 \/ 0 <= bulklen (vp v) <= proto_max_bulk_len
}.

(** What a step inside a command does to them. *)
Definition next (v : view) : aout := micro (vx v) (vb v) (vp v).

Lemma aheader_done v n p : aheader (vx v) (vb v) (vp v) = ADone n p -> p = vp v /\ 2 <= n <= zlen (vb v).
Proof.
  unfold aheader. destruct (idx 13 (vb v)) as [k|] eqn:Hk; [|by destruct (_ <? zlen _)].
  apply idx_range in Hk. destruct (Z.ltb_spec (zlen (vb v) - 2) k); [done|].
  destruct (parse_ll _); [|done]. repeat case_match; intros; simplify_eq. split; [done|lia].
Qed.

Lemma aheader_next v n p :
  aheader (vx v) (vb v) (vp v) = ANext n p ->
  2 <= n <= zlen (vb v) /\ exists ll, 0 < ll <= INT_MAX /\
    p = {| reqtype := reqtype (vp v); multibulklen := ll; bulklen := bulklen (vp v);
           argv := argv (vp v); argv_len := Z.min ll 1024; argv_len_sum := 0 |}.
Proof.
  unfold aheader. destruct (idx 13 (vb v)) as [k|] eqn:Hk; [|by destruct (_ <? zlen _)].
  apply idx_range in Hk. destruct (Z.ltb_spec (zlen (vb v) - 2) k); [done|].
  destruct (parse_ll _) as [ll|]; [|done]. destruct (Z.ltb_spec INT_MAX ll); [done|].
  case_match; [done|]. destruct (Z.leb_spec ll 0); [done|]. intros [= <- <-]. split; [lia|]. by exists ll.
Qed.

Lemma abulkhdr_next v n p :
  abulkhdr (vx v) (vb v) (vp v) = ANext n p ->
  2 <= n <= zlen (vb v) /\ exists ll, 0 <= ll <= proto_max_bulk_len /\
    p = {| reqtype := reqtype (vp v); multibulklen := multibulklen (vp v); bulklen := ll;
           argv := argv (vp v); argv_len := argv_len (vp v); argv_len_sum := argv_len_sum (vp v) |}.
Proof.
  unfold abulkhdr. destruct (idx 13 (vb v)) as [k|] eqn:Hk; [|by destruct (_ <? zlen _)].
  apply idx_range in Hk. destruct (Z.ltb_spec (zlen (vb v) - 2) k); [done|].
  case_match; [done|]. destruct (parse_ll _) as [ll|]; [|done].
  destruct (Z.ltb_spec ll 0); [done|]. destruct (Z.ltb_spec proto_max_bulk_len ll); [done|].
  pose proof proto_max_bulk_len_range. destruct (_ && authRequired _); [done|]. intros [= <- <-]. split; [lia|]. exists ll. split; [lia|done].
Qed.

Lemma abody_out v n p :
  0 <= bulklen (vp v) -> abody (vb v) (vp v) = ANext n p \/ abody (vb v) (vp v) = ADone n p ->
  2 <= n <= zlen (vb v) /\ p = apush (vp v) (take (Z.to_nat (bulklen (vp v))) (vb v)).
Proof.
  unfold abody. intros Hb. destruct (Z.ltb_spec (zlen (vb v)) (bulklen (vp v) + 2)); [by intros []|].
  destruct (multibulklen _ =? 0); intros []; simplify_eq; (split; [lia|done]).
Qed.

Lemma ainline_out v n p :
  ainline (vb v) (vp v) = ADone n p ->
  1 <= n <= zlen (vb v) /\ multibulklen p = multibulklen (vp v).
Proof.
  unfold ainline. destruct (idx 10 (vb v)) as [k|] eqn:Hk; [|by destruct (_ <? zlen _)].
  apply idx_range in Hk. destruct (inline_line k (vb v)) as [line lf] eqn:Hl.
  assert (zlen line + lf = k + 1) as Hk1.
  { unfold inline_line in Hl. destruct (Z.eqb_spec k 0); cbn [negb andb] in Hl; [subst k; by injection Hl as <- <-|].
    case_match; injection Hl as <- <-; rewrite zlen_take by lia; lia. }
  case_match; [|done]. intros [= <- <-]. split; [lia|done].
Qed.

Lemma PI_inline v : PI v -> reqtype (vp v) = 1 -> multibulklen (vp v) = 0.
Proof. intros HP Ht. destruct (decide (multibulklen (vp v) = 0)) as [|Hm]; [done|]. apply (pi_mid v HP) in Hm. lia. Qed.

Lemma PI_multi v : PI v -> reqtype (vp v) <> 0 -> reqtype (vp v) <> 1 -> reqtype (vp v) = 2.
Proof. intros HP. destruct (pi_type v HP) as [?|[?|?]]; lia. Qed.

Lemma PI_body v : PI v -> bulklen (vp v) <> -1 -> 0 <= bulklen (vp v).
Proof. intros HP. destruct (pi_bulk v HP); lia. Qed.

Lemma next_PI v n p :
  PI v -> reqtype (vp v) <> 0 -> next v = ANext n p ->
  PI (consume v n p) /\ reqtype p = 2 /\ 0 < multibulklen p /\ 2 <= n <= zlen (vb v).
Proof.
  intros HP Ht. unfold next, micro. destruct (Z.eqb_spec (reqtype (vp v)) PROTO_REQ_INLINE) as [|Ht1].
  { unfold ainline. repeat case_match; done. }
  pose proof (PI_multi v HP Ht Ht1) as Ht2. destruct (Z.eqb_spec (multibulklen (vp v)) 0) as [Hm|Hm].
  - destruct (pi_start v HP Hm) as [Hb Ha]. intros (Hn & ll & Hll & ->)%aheader_next.
    split; [|cbn [reqtype multibulklen]; lia]. split; cbn [vp consume reqtype multibulklen bulklen argv argv_len]; [by right; right|lia|lia| |by left].
    intros _. unfold argc. cbn [argv]. rewrite Ha. change (zlen (@nil bytes)) with 0. lia.
  - destruct (pi_mid v HP Hm) as (_ & ? & ? & ? & ?). destruct (Z.eqb_spec (bulklen (vp v)) (-1)) as [Hb|Hb].
    + intros (Hn & ll & Hll & ->)%abulkhdr_next.
      split; [|cbn [reqtype multibulklen]; lia]. split; cbn [vp consume reqtype multibulklen bulklen argv argv_len]; [by right; right|lia|lia| |by right].
      intros _. done.
    + intros Hs. pose proof (PI_body v HP Hb) as Hb0. destruct (abody_out v n p Hb0 (or_introl Hs)) as [Hn ->].
      assert (multibulklen (vp v) <> 1) as Hne.
      { intros E. unfold abody in Hs. case_match; [done|]. cbn [apush multibulklen] in Hs. by rewrite E in Hs. }
      cbn [apush reqtype multibulklen]. split; [|lia].
      split; cbn [vp consume apush reqtype multibulklen bulklen argv argv_len]; [by right; right|lia|lia| |by left].
      intros _. assert (argc (apush (vp v) (take (Z.to_nat (bulklen (vp v))) (vb v))) = argc (vp v) + 1) as ->
        by (unfold argc; cbn [apush argv]; by rewrite zlen_app).
      unfold INT_MAX, INT32_MAX in *.
      destruct (Z.leb_spec (argv_len (vp v)) (argc (vp v))), (Z.ltb_spec (argv_len (vp v)) ((2 ^ 31 - 1) / 2)); lia.
Qed.

Lemma next_done v n p :
  PI v -> reqtype (vp v) <> 0 -> next v = ADone n p -> 1 <= n <= zlen (vb v) /\ multibulklen p = 0.
Proof.
  intros HP Ht. unfold next, micro. destruct (Z.eqb_spec (reqtype (vp v)) PROTO_REQ_INLINE) as [Ht1|Ht1].
  { intros [Hn ->]%ainline_out. split; [lia|by apply PI_inline]. }
  destruct (Z.eqb_spec (multibulklen (vp v)) 0) as [Hm|Hm].
  { intros [-> Hn]%aheader_done. split; [lia|done]. }
  destruct (Z.eqb_spec (bulklen (vp v)) (-1)) as [Hb|Hb].
  { unfold abulkhdr. by repeat case_match. }
  intros Hs. destruct (abody_out v n p (PI_body v HP Hb) (or_intror Hs)) as [Hn ->]. split; [lia|].
  unfold abody in Hs. case_match; [done|]. by destruct (Z.eqb_spec (multibulklen (apush (vp v) (take (Z.to_nat (bulklen (vp v))) (vb v)))) 0).
Qed.

Lemma next_nil v : PI v -> vb v = [] -> next v = AWait.
Proof.
  intros HP Hb. unfold next, micro, ainline, aheader, abulkhdr, abody. rewrite Hb. cbn [idx].
  change (PROTO_INLINE_MAX_SIZE <? zlen []) with false. cbn iota.
  destruct (_ =? PROTO_REQ_INLINE); [done|]. destruct (multibulklen (vp v) =? 0); [done|].
  destruct (Z.eqb_spec (bulklen (vp v)) (-1)) as [|Hne]; [done|]. apply (PI_body v HP) in Hne.
  change (zlen []) with 0. by rewrite (proj2 (Z.ltb_lt _ _)) by lia.
Qed.

(** The step of a state inside a command. *)
Lemma astep_next v :
  live v = true -> PI v -> reqtype (vp v) <> 0 ->
  astep v = match next v with
            | AWait => None
            | AErr e => Some (fail v e)
            | ANext n p => Some (consume v n p)
            | ADone n p => Some (afinish (consume v n p))
            end.
Proof.
  intros Hl HP Ht. unfold astep. rewrite Hl. cbn [negb]. destruct (vb v) as [|ch b] eqn:Eb.
  - by rewrite (next_nil v HP Eb).
  - rewrite (proj2 (Z.eqb_neq _ _) Ht). rewrite <- Eb at 1. done.
Qed.

(** The states between two steps, also of a client that runs no more. *)
Definition VI (v : view) : Prop := vf v = true \/ (blocked (vx v) = true /\ multibulklen (vp v) = 0) \/ PI v.

Lemma PI_reset v : PI {| vb := vb v; vp := areset; vx := vx v; ve := ve v; vf := vf v |}.
Proof. split; cbn; [by left|done|done|done|by left]. Qed.

Lemma PI_fail v e : PI v -> PI (fail v e).
Proof. intros []. by split. Qed.

Lemma afinish_vb v : vb (afinish v) = vb v.
Proof. unfold afinish. destruct (argc (vp v) =? 0); [done|]. by destruct (processCommand _ _) as [[? ?] ?]. Qed.

Lemma afinish_VI v : multibulklen (vp v) = 0 -> VI (afinish v).
Proof.
  intros Hm. unfold afinish. destruct (argc (vp v) =? 0); [right; right; apply PI_reset|].
  destruct (processCommand _ _) as [[x ok] dead] eqn:E. destruct ok; cbn [andb].
  - destruct (blocked x) eqn:Hb; [right; by left|]. right; right.
    apply (PI_reset {| vb := vb v; vp := vp v; vx := x; ve := ve v; vf := dead |}).
  - left. cbn. by eapply processCommand_err.
Qed.

(** The choice of the protocol by the first byte. *)
Definition typed (v : view) : view :=
  if reqtype (vp v) =? 0 then
    consume v 0 (set_reqtype (vp v) (if nth 0 (vb v) 0 =? 42 then PROTO_REQ_MULTIBULK else PROTO_REQ_INLINE))
  else v.

Lemma typed_PI v : PI v -> vb v <> [] -> PI (typed v) /\ reqtype (vp (typed v)) <> 0.
Proof.
  intros HP Hb. unfold typed. destruct (Z.eqb_spec (reqtype (vp v)) 0) as [Ht|Ht]; [|done].
  destruct (decide (multibulklen (vp v) = 0)) as [Hm|Hm]; [|apply (pi_mid v HP) in Hm; lia].
  destruct (vb v) as [|ch b] eqn:Eb; [done|]. cbn [nth]. pose proof (pi_start v HP Hm). destruct (Z.eqb_spec ch 42) as [->|].
  - split; [|done]. split; cbn; [by right; right|done|intros; rewrite Eb; by exists b|done|apply HP].
  - split; [|done]. split; cbn; [by right; left|done|done|done|apply HP].
Qed.

Lemma typed_step v : live v = true -> vb v <> [] -> rtc step v (typed v).
Proof.
  intros Hl Hb. unfold typed. destruct (reqtype (vp v) =? 0) eqn:Ht; [|done]. apply rtc_once. unfold step, astep.
  rewrite Hl. destruct (vb v) as [|ch b] eqn:Eb; [done|]. by rewrite Ht.
Qed.

(** ** Steps and more bytes *)

(** The errors that depend on how much has arrived. *)
Definition too_big (e : option proto_error) : bool :=
  match e with Some (TooBigInline | TooBigMbulkCount | TooBigBulkCount) => true | _ => false end.

Definition settled (o : aout) : bool := match o with AWait => false | AErr e => negb (too_big (Some e)) | _ => true end.

Lemma count_text_app k b d : 1 <= k < zlen b -> count_text k (b ++ d) = count_text k b.
Proof.
  intros Hk. unfold count_text. rewrite drop_app_le by (unfold zlen in *; lia).
  rewrite take_app_le; [done|]. rewrite length_drop. unfold zlen in *. lia.
Qed.

Lemma count_text_app0 k b d : 0 <= k < zlen b -> count_text k (b ++ d) = count_text k b.
Proof. intros Hk. destruct (decide (k = 0)) as [->|]; [done|]. apply count_text_app. lia. Qed.

Lemma nth0_app (b d : bytes) : 0 < zlen b -> nth 0 (b ++ d) 0 = nth 0 b 0.
Proof. by destruct b. Qed.

(** A decision taken on some bytes is taken on any extension of them. *)
Lemma aheader_app x b p d o : aheader x b p = o -> settled o = true -> aheader x (b ++ d) p = o.
Proof.
  intros <-. unfold aheader. destruct (idx 13 b) as [k|] eqn:Hk.
  - rewrite (idx_app _ _ d _ Hk). apply idx_range in Hk. pose proof (zlen_nonneg d).
    destruct (Z.ltb_spec (zlen b - 2) k); [done|]. rewrite zlen_app, (proj2 (Z.ltb_ge _ _)) by lia. by rewrite count_text_app0.
  - by destruct (_ <? zlen b).
Qed.

Lemma abulkhdr_app x b p d o : abulkhdr x b p = o -> settled o = true -> abulkhdr x (b ++ d) p = o.
Proof.
  intros <-. unfold abulkhdr. destruct (idx 13 b) as [k|] eqn:Hk.
  - rewrite (idx_app _ _ d _ Hk). apply idx_range in Hk. pose proof (zlen_nonneg d).
    destruct (Z.ltb_spec (zlen b - 2) k); [done|]. rewrite zlen_app, (proj2 (Z.ltb_ge _ _)) by lia.
    by rewrite count_text_app0, nth0_app by lia.
  - by destruct (_ <? zlen b).
Qed.

Lemma abody_app b p d o : 0 <= bulklen p -> abody b p = o -> settled o = true -> abody (b ++ d) p = o.
Proof.
  intros Hb <-. unfold abody. pose proof (zlen_nonneg d). destruct (Z.ltb_spec (zlen b) (bulklen p + 2)); [done|].
  rewrite zlen_app, (proj2 (Z.ltb_ge _ _)) by lia. rewrite take_app_le by (unfold zlen in *; lia). done.
Qed.

Lemma ainline_app b p d o : ainline b p = o -> settled o = true -> ainline (b ++ d) p = o.
Proof.
  intros <-. unfold ainline. destruct (idx 10 b) as [k|] eqn:Hk.
  - rewrite (idx_app _ _ d _ Hk). apply idx_range in Hk. intros _.
    assert (inline_line k (b ++ d) = inline_line k b) as ->; [|done].
    unfold inline_line. rewrite !take_app_le by (unfold zlen in *; lia).
    destruct (Z.eqb_spec k 0); [done|]. rewrite app_nth1 by (unfold zlen in *; lia). done.
  - by destruct (_ <? zlen b).
Qed.

Lemma next_app v d o : PI v -> next v = o -> settled o = true -> next (more v d) = o.
Proof.
  intros HP. unfold next, micro, more. cbn [vb vp vx].
  destruct (_ =? PROTO_REQ_INLINE); [apply ainline_app|]. destruct (multibulklen (vp v) =? 0); [apply aheader_app|].
  destruct (Z.eqb_spec (bulklen (vp v)) (-1)) as [|Hb]; [apply abulkhdr_app|]. apply abody_app. by apply PI_body.
Qed.

Lemma consume_more v n p d : n <= zlen (vb v) -> consume (more v d) n p = more (consume v n p) d.
Proof.
  intros Hn. unfold consume, more. cbn [vb vp vx ve vf]. f_equal. apply drop_app_le. unfold zlen in *. lia.
Qed.

Lemma afinish_more v d : afinish (more v d) = more (afinish v) d.
Proof.
  unfold afinish. cbn [more vp vx]. destruct (argc (vp v) =? 0); [done|]. by destruct (processCommand _ _) as [[? ?] ?].
Qed.

Lemma PI_more v d : PI v -> PI (more v d).
Proof.
  intros [? ? Hst ? ?]. split; try done. intros Hm Ht. destruct (Hst Hm Ht) as [t Ht']. exists (t ++ d). cbn. by rewrite Ht'.
Qed.

Lemma VI_live v : VI v -> live v = true -> PI v.
Proof.
  unfold live. intros [Hf|[[Hb _]|HP]]; [by rewrite Hf|by rewrite Hb, andb_false_r|done].
Qed.

Lemma step_live v w : step v w -> live v = true /\ vb v <> [].
Proof. unfold step, astep. destruct (live v); cbn [negb]; [|done]. by destruct (vb v). Qed.

(** The steps of a live state. *)
Lemma step_cases v w :
  VI v -> step v w ->
  PI v /\ live v = true /\
  ((reqtype (vp v) = 0 /\ w = typed v) \/
   (reqtype (vp v) <> 0 /\
     ((exists e, next v = AErr e /\ w = fail v e) \/ (exists n p, next v = ANext n p /\ w = consume v n p) \/
      (exists n p, next v = ADone n p /\ w = afinish (consume v n p))))).
Proof.
  intros HI Hs. pose proof (step_live _ _ Hs) as [Hl Hne]. pose proof (VI_live v HI Hl) as HP.
  split; [done|]. split; [done|]. destruct (decide (reqtype (vp v) = 0)) as [Ht|Ht].
  - left. split; [done|]. unfold step, astep in Hs. rewrite Hl, Ht in Hs. cbn [negb Z.eqb] in Hs. unfold typed. rewrite Ht.
    destruct (vb v); [done|]. by injection Hs as <-.
  - right. split; [done|]. unfold step in Hs. rewrite astep_next in Hs by done.
    destruct (next v) as [|e|n p|n p]; [done|left|right; left|right; right]; injection Hs as <-; eauto.
Qed.

Lemma step_VI v w : VI v -> step v w -> VI w.
Proof.
  intros HI Hs. pose proof (step_live _ _ Hs) as [_ Hne].
  destruct (step_cases v w HI Hs) as (HP & Hl & [[_ ->]|[Ht [(e & _ & ->)|[(n & p & Hn & ->)|(n & p & Hn & ->)]]]]).
  - right; right. by apply typed_PI.
  - right; right. by apply PI_fail.
  - right; right. by apply (next_PI v n p HP Ht Hn).
  - apply afinish_VI. by apply (next_done v n p HP Ht Hn).
Qed.

Lemma steps_VI v w : rtc step v w -> VI v -> VI w.
Proof. induction 1; eauto using step_VI. Qed.

Lemma typed_more v d : vb v <> [] -> typed (more v d) = more (typed v) d.
Proof. intros Hne. unfold typed. cbn [more vp vb]. destruct (reqtype (vp v) =? 0); [|done]. by destruct (vb v). Qed.

Lemma astep_more v w d : VI v -> step v w -> too_big (ve w) = false -> step (more v d) (more w d).
Proof.
  intros HI Hs Hb. pose proof (step_live _ _ Hs) as [_ Hne].
  destruct (step_cases v w HI Hs) as (HP & Hl & [[Ht ->]|[Ht Hc]]).
  - rewrite <- typed_more by done. unfold step, astep. change (live (more v d)) with (live v). rewrite Hl. cbn [negb].
    unfold typed. cbn [more vp vb]. rewrite Ht. by destruct (vb v).
  - unfold step. rewrite (astep_next (more v d)) by (done || by apply PI_more).
    destruct Hc as [(e & Hn & ->)|[(n & p & Hn & ->)|(n & p & Hn & ->)]].
    + by rewrite (next_app v d _ HP Hn) by (cbn in *; by rewrite Hb).
    + rewrite (next_app v d _ HP Hn) by done. destruct (next_PI v n p HP Ht Hn) as (_ & _ & _ & ?).
      by rewrite consume_more by lia.
    + rewrite (next_app v d _ HP Hn) by done. destruct (next_done v n p HP Ht Hn) as [? _].
      by rewrite consume_more, afinish_more by lia.
Qed.

(** An error stops the machine. *)
Lemma error_stops v : ve v <> None -> astep v = None.
Proof. intros He. unfold astep, live. destruct (ve v); [|done]. cbn. by rewrite andb_false_r. Qed.

Lemma steps_more v w d : rtc step v w -> VI v -> too_big (ve w) = false -> rtc step (more v d) (more w d).
Proof.
  induction 1 as [v|v u w Hs Hr IH]; intros HI Hb; [done|]. eapply rtc_l; [|by eauto using step_VI].
  apply astep_more; [done..|]. destruct (ve u) as [e|] eqn:He; [|done].
  inversion Hr as [|? y ? Hy _]; subst; [by rewrite <- He|]. unfold step in Hy. by rewrite error_stops in Hy by congruence.
Qed.

Lemma runs_det v w w' : runs v w -> runs v w' -> w = w'.
Proof.
  intros [Hr Hw]. revert w'. induction Hr as [v|v u w Hs _ IH]; intros w' [Hr' Hw'].
  - inversion Hr' as [|? y ? Hy _]; subst; [done|]. unfold step in Hy. congruence.
  - inversion Hr' as [|? y ? Hy Hrest]; subst; unfold step in *; [congruence|].
    rewrite Hs in Hy. injection Hy as <-. by apply IH.
Qed.

(** Running on some bytes and then on more is running on all of them, unless
    the first run stopped because too much had arrived. *)
Lemma runs_more v w z d :
  VI v -> runs v w -> runs (more w d) z -> too_big (ve z) = true \/ runs (more v d) z.
Proof.
  intros HI [Hr Hw] Hz. destruct (too_big (ve w)) eqn:Hb.
  - left. destruct Hz as [Hz _]. inversion Hz as [|? y ? Hy _]; subst; [done|]. unfold step in Hy.
    rewrite error_stops in Hy; [done|]. cbn. by destruct (ve w).
  - right. split; [|apply Hz]. etrans; [by apply steps_more|apply Hz].
Qed.

End machine.
Arguments view X : clear implicits.

End NetworkingTheory.
