(* ===== verification/NetworkingSim.v ===== *)
(** * The request parser: the C code runs the machine.

    [V c v]: the client [c], not a master, is in the state [v] of the machine
    of [NetworkingTheory].  Each function of networking.c returns on such a
    client, and what it does are steps of the machine. *)

From S2P Require Import Prelude Cstring Util Sds SdsTheory SdsSplit Networking NetworkingTheory.
From stdpp Require Import relations.
#[local] Open Scope Z_scope.

Module NetworkingSim.
Import Cstring Sds SdsTheory SdsSplit Networking NetworkingTheory.

(** The longest stream considered: lengths stay far from wrapping. *)
Definition stream_max : Z := 2 ^ 60.

Section sim.
Context `{Allocator} {X : Type} `{Server X}.
Implicit Types (c : client X) (v w : view X).

(** ** The query buffer *)

(** The bytes of the query buffer not consumed yet are [b]. *)
Definition unread (q : sds) (pos : Z) (b : bytes) : Prop :=
  exists pre, repr q (pre ++ b) /\ pos = zlen pre /\ zlen (pre ++ b) <= stream_max.

Lemma unread_len q pos b :
  unread q pos b -> exists n, sdslen q = Ok n /\ n = pos + zlen b /\ 0 <= pos /\ n <= stream_max.
Proof.
  intros (pre & Hr & -> & Hm). exists (zlen (pre ++ b)). rewrite (sdslen_spec _ _ Hr).
  zlen_simpl. pose proof (zlen_nonneg pre). done.
Qed.

Lemma unread_wf q pos b : unread q pos b -> wf_bytes b.
Proof. intros (pre & (ty & al & rest & [_ _ _ _ _ _ Hw]) & _ & _). by apply Forall_app in Hw as [_ ?]. Qed.

Lemma unread_find c b x :
  unread (querybuf c) (qb_pos c) b -> x <> 0 -> find_char c x = Ok (option_map (Z.add (qb_pos c)) (idx x b)).
Proof.
  intros (pre & (ty & al & rest & [Hq Hv _ _ _ _ _]) & Hp & _) Hx. unfold find_char, strchr_from. rewrite Hq, Hp.
  unfold mk. cbn [s_mem s_off].
  rewrite <- (zlen_sds_hdr ty (zlen (pre ++ b)) al) by done. set (h := hdr _ _ _).
  rewrite <- app_assoc, (app_assoc h pre). rewrite <- zlen_app. set (hp := h ++ pre).
  pose proof (zlen_nonneg hp). pose proof (zlen_nonneg (b ++ 0 :: rest)).
  rewrite (proj2 (Z.leb_le 0 _)), (proj2 (Z.leb_le (zlen hp) _)) by (rewrite ?zlen_app in *; lia). cbn [andb].
  rewrite to_nat_zlen, drop_app_length, strchr_idx by done. cbn [mbind res_bind].
  destruct (idx x b); [|done]. cbn. do 2 f_equal. unfold hp. zlen_simpl. lia.
Qed.

Lemma unread_get c b i n :
  unread (querybuf c) (qb_pos c) b -> 0 <= i -> 0 <= n -> i + n <= zlen b ->
  get (querybuf c) (qb_pos c + i) n = Ok (take (Z.to_nat n) (drop (Z.to_nat i) b)).
Proof.
  intros (pre & (ty & al & rest & [-> Hv _ _ _ _ _]) & -> & _) Hi Hn Hb. pose proof (zlen_nonneg pre).
  rewrite get_mk by (done || lia). rewrite <- app_assoc, rdn_app_off by done.
  unfold rdn. rewrite zlen_app. pose proof (zlen_nonneg (0 :: rest)).
  rewrite !(proj2 (Z.leb_le _ _)) by lia. cbn [andb]. f_equal.
  rewrite drop_app_le by (unfold zlen in *; lia). rewrite take_app_le; [done|].
  rewrite length_drop. unfold zlen in *. lia.
Qed.

Lemma unread_get1 c b i :
  unread (querybuf c) (qb_pos c) b -> 0 <= i < zlen b -> get1 (querybuf c) (qb_pos c + i) = Ok (nth (Z.to_nat i) b 0).
Proof.
  intros (pre & (ty & al & rest & [-> Hv _ _ _ _ _]) & -> & _) Hi. pose proof (zlen_nonneg pre).
  rewrite get1_mk by (done || lia). rewrite <- app_assoc, rd_app_off, rd_app_l by lia.
  apply rd_lookup; [lia|]. unfold zlen in *.
  destruct (lookup_lt_is_Some_2 b (Z.to_nat i)) as [y Hy]; [lia|]. by rewrite Hy, (nth_lookup_Some _ _ _ _ Hy).
Qed.

Lemma unread_skip q pos b n : unread q pos b -> 0 <= n <= zlen b -> unread q (pos + n) (drop (Z.to_nat n) b).
Proof.
  intros (pre & Hr & -> & Hm) Hn. exists (pre ++ take (Z.to_nat n) b). rewrite <- app_assoc, take_drop.
  rewrite zlen_app, zlen_take by done. done.
Qed.

Lemma unread_start q b : repr q b -> zlen b <= stream_max -> unread q 0 b.
Proof. intros Hr Hm. by exists []. Qed.

(** [sdsrange(c->querybuf, c->qb_pos, -1)] *)
Lemma unread_trim q pos b : unread q pos b -> exists q', sdsrange q pos (-1) = Ok q' /\ repr q' b.
Proof.
  intros (pre & Hr & -> & Hm). pose proof (zlen_nonneg pre). pose proof (zlen_nonneg b).
  unfold stream_max in Hm. rewrite zlen_app in Hm.
  destruct (sdsrange_spec q (pre ++ b) (zlen pre) (-1) Hr) as (q' & Hq & Hr').
  - rewrite zlen_app. unfold max_size. lia.
  - unfold is_i64, INT64_MIN, INT64_MAX. lia.
  - unfold is_i64, INT64_MIN, INT64_MAX. lia.
  - exists q'. split; [done|]. unfold range in Hr'. rewrite (proj2 (Z.ltb_ge (zlen pre) 0)) in Hr' by lia.
    rewrite (proj2 (Z.ltb_ge (zlen pre) 0)) in Hr' by lia. change (-1 <? 0) with true in Hr'. cbn iota in Hr'.
    rewrite to_nat_zlen, drop_app_length, take_ge in Hr'; [done|]. rewrite zlen_app. unfold zlen. lia.
Qed.

(** ** Clients and views *)

Record V c v : Prop := {
  V_master : is_master c = false;
  V_pending : pending_command c = false;
  V_unread : unread (querybuf c) (qb_pos c) (vb v);
  V_pars : pars c = vp v;
  V_srv : srv c = vx v;
  V_perror : perror c = ve v;
  V_freed : freed c = vf v
}.

Lemma V_len c v : V c v -> exists n, sdslen (querybuf c) = Ok n /\ n = qb_pos c + zlen (vb v) /\ 0 <= qb_pos c /\ n <= stream_max.
Proof. intros HV. apply unread_len, HV. Qed.

Lemma V_error c v e : V c v -> V (setProtocolError c e) (fail v e).
Proof. intros []. by split. Qed.

Lemma V_consume c v n p :
  V c v -> 0 <= n <= zlen (vb v) -> V (set_pars (set_pos c (qb_pos c + n)) p) (consume v n p).
Proof. intros [] Hn. split; try done. by apply unread_skip. Qed.

Lemma V_set_pars c v n p q : V c (consume v n q) -> V (set_pars c p) (consume v n p).
Proof. intros []. by split. Qed.

Lemma V_find c v x : V c v -> x <> 0 -> find_char c x = Ok (option_map (Z.add (qb_pos c)) (idx x (vb v))).
Proof. intros HV. apply unread_find, HV. Qed.

Lemma i64_u64 x : - 2 ^ 63 <= x < 2 ^ 63 -> i64 (u64 x) = x.
Proof. intros Hx. by apply (wraps_wrapu 64). Qed.

Lemma u64_small x : 0 <= x < 2 ^ 64 -> u64 x = x.
Proof. apply wrapu_small. Qed.

(** The tests on the length of what is unread. *)
Lemma V_rest c v n : V c v -> sdslen (querybuf c) = Ok n -> u64 (n - qb_pos c) = zlen (vb v).
Proof.
  intros HV Hn. destruct (V_len c v HV) as (n' & Hn' & -> & Hp & Hm). rewrite Hn' in Hn. injection Hn as <-.
  pose proof (zlen_nonneg (vb v)). unfold stream_max in Hm. rewrite u64_small by lia. lia.
Qed.

Lemma V_incomplete c v n k :
  V c v -> sdslen (querybuf c) = Ok n -> line_incomplete c (qb_pos c + k) n = (zlen (vb v) - 2 <? k).
Proof.
  intros HV Hn. destruct (V_len c v HV) as (n' & Hn' & -> & Hp & Hm). rewrite Hn' in Hn. injection Hn as <-.
  pose proof (zlen_nonneg (vb v)). unfold stream_max in Hm. unfold line_incomplete. rewrite i64_u64 by lia. f_equal; lia.
Qed.

Lemma V_count c v k :
  V c v -> 1 <= k < zlen (vb v) -> read_count c (qb_pos c + k) = Ok (parse_ll (count_text k (vb v))).
Proof.
  intros HV Hk. unfold read_count. replace (qb_pos c + k - (qb_pos c + 1)) with (k - 1) by lia.
  rewrite (unread_get c (vb v)) by (apply HV || lia). cbn [mbind res_bind].
  change (take _ (drop _ (vb v))) with (count_text k (vb v)).
  rewrite <- string2ll_parse. f_equal. unfold count_text. rewrite zlen_take; [done|].
  unfold zlen in *. rewrite length_drop. lia.
Qed.

Lemma V_head c v : V c v -> 0 < zlen (vb v) -> get1 (querybuf c) (qb_pos c) = Ok (nth 0 (vb v) 0).
Proof.
  intros HV Hl. rewrite <- (Z.add_0_r (qb_pos c)). rewrite (unread_get1 c (vb v)); [done|apply HV|lia].
Qed.

(** ** The number of arguments *)

Lemma read_multibulklen_spec c v :
  V c v -> PI v -> multibulklen (vp v) = 0 -> reqtype (vp v) = 2 ->
  exists r, read_multibulklen c = Ok r /\
    match aheader (vx v) (vb v) (vp v) with
    | AWait => r = inl (c, false)
    | AErr e => exists c', r = inl (c', false) /\ V c' (fail v e)
    | ADone n p => exists c', r = inl (c', true) /\ V c' (consume v n p)
    | ANext n p => exists c', r = inr c' /\ V c' (consume v n p)
    end.
Proof.
  intros HV HP Hm Ht. destruct (pi_start v HP Hm) as [_ Ha]. destruct (pi_star v HP Hm Ht) as [t Hb].
  destruct (V_len c v HV) as (n & Hn & _ & Hpos & _).
  unfold read_multibulklen, aheader. rewrite (V_pars _ _ HV), (V_srv _ _ HV).
  unfold argc. rewrite Ha. cbn [cassert mbind res_bind]. change (zlen (@nil bytes) =? 0) with true. cbn [cassert mbind res_bind].
  rewrite (V_find c v 13 HV), Hn by done. cbn [mbind res_bind].
  destruct (idx 13 (vb v)) as [k|] eqn:Hk; cbn [option_map].
  2: { rewrite (V_rest c v n HV Hn). destruct (_ <? _); [|by eexists]. eexists. split; [done|]. eauto using V_error. }
  rewrite (V_incomplete c v n k HV Hn). destruct (Z.ltb_spec (zlen (vb v) - 2) k); [by eexists|].
  assert (1 <= k) by (apply (idx_pos 13 (vb v)); [done|by rewrite Hb]).
  rewrite (V_head c v HV) by lia. replace (nth 0 (vb v) 0) with 42 by (by rewrite Hb). cbn [mbind res_bind]. change (42 =? 42) with true. cbn [cassert mbind res_bind].
  rewrite (V_count c v k HV) by lia. cbn [mbind res_bind].
  destruct (parse_ll _) as [ll|]; [|eexists; split; [done|]; eauto using V_error].
  destruct (INT_MAX <? ll); [eexists; split; [done|]; eauto using V_error|].
  destruct (_ && _); [eexists; split; [done|]; eauto using V_error|].
  rewrite <- Z.add_assoc. destruct (ll <=? 0).
  - eexists. split; [done|]. eexists. split; [done|].
    pose proof (V_consume c v (k + 2) (pars c) HV ltac:(lia)) as Hc. rewrite (V_pars _ _ HV) in Hc at 2.
    destruct Hc. by split.
  - eexists. split; [done|]. eexists. split; [done|]. cbn [pars set_pos set_buf]. rewrite (V_pars _ _ HV), Ha.
    apply V_consume; [done|lia].
Qed.

(** ** The length of an argument *)

(** The growth of the buffer for a big argument keeps what is unread. *)
Lemma V_grow c v ll peak :
  V c v -> 0 <= ll <= 2 ^ 61 -> zlen (vb v) <= ll + 2 ->
  exists q n q', sdsrange (querybuf c) (qb_pos c) (-1) = Ok q /\ sdslen q = Ok n /\
    sdsMakeRoomForNonGreedy q (u64 (ll + 2 - n)) = Ok q' /\ V (set_buf c q' 0 peak) v.
Proof.
  intros HV Hl Hb. destruct (unread_trim _ _ _ (V_unread _ _ HV)) as (q & Hq & Hr).
  destruct (V_len c v HV) as (n0 & _ & -> & Hp & Hm). pose proof (zlen_nonneg (vb v)). unfold stream_max in Hm.
  destruct (make_room_spec q (vb v) (ll + 2 - zlen (vb v)) false Hr) as (q' & Hq' & ty & al & rest & HR & _).
  { lia. } { unfold max_size. lia. }
  exists q, (zlen (vb v)), q'. rewrite (sdslen_spec _ _ Hr), u64_small by lia.
  split_and!; [done..|]. destruct HV. split; try done. apply unread_start; [|unfold stream_max; cbn [vb] in *; lia].
  by exists ty, al, rest.
Qed.

Lemma read_bulklen_spec c v :
  V c v ->
  exists r, read_bulklen c = Ok r /\
    match abulkhdr (vx v) (vb v) (vp v) with
    | AWait => r = Break c
    | AErr e => exists c', r = ReturnErr c' /\ V c' (fail v e)
    | ADone _ _ => False
    | ANext n p => exists c', r = Continue c' /\ V c' (consume v n p)
    end.
Proof.
  intros HV. destruct (V_len c v HV) as (n & Hn & Hnb & Hpos & Hmax). unfold stream_max in Hmax.
  unfold read_bulklen, abulkhdr. rewrite (V_master _ _ HV), (V_srv _ _ HV). cbn [negb andb].
  rewrite (V_find c v 13 HV), Hn by done. cbn [mbind res_bind].
  destruct (idx 13 (vb v)) as [k|] eqn:Hk; cbn [option_map].
  2: { rewrite (V_rest c v n HV Hn). destruct (_ <? _); [|by eexists]. eexists. split; [done|]. eauto using V_error. }
  rewrite (V_incomplete c v n k HV Hn). destruct (Z.ltb_spec (zlen (vb v) - 2) k); [by eexists|].
  apply idx_range in Hk as Hk0. rewrite (V_head c v HV) by lia. cbn [mbind res_bind].
  destruct (Z.eqb_spec (nth 0 (vb v) 0) 36) as [H36|]; cbn [negb]; [|eexists; split; [done|]; eauto using V_error].
  assert (1 <= k) by (apply (idx_pos 13 (vb v)); [done|by rewrite H36]).
  rewrite (V_count c v k HV) by lia. cbn [mbind res_bind].
  destruct (parse_ll _) as [ll|]; [|eexists; split; [done|]; eauto using V_error].
  destruct (Z.ltb_spec ll 0), (Z.ltb_spec proto_max_bulk_len ll); cbn [orb];
    try (eexists; split; [done|]; by eauto using V_error).
  pose proof proto_max_bulk_len_range.
  destruct (_ && authRequired _); [eexists; split; [done|]; eauto using V_error|].
  rewrite <- Z.add_assoc. set (c1 := set_pos c (qb_pos c + (k + 2))).
  assert (V c1 (consume v (k + 2) (vp v))) as HV1.
  { rewrite <- (V_pars _ _ HV). destruct (V_consume c v (k + 2) (pars c) HV ltac:(lia)). by split. }
  change (querybuf_peak c1) with (querybuf_peak c). rewrite (V_master _ _ HV1). cbn [negb andb].
  change (qb_pos c1) with (qb_pos c + (k + 2)).
  assert (zlen (drop (Z.to_nat (k + 2)) (vb v)) = zlen (vb v) - (k + 2)) as Hd
    by (unfold zlen in *; rewrite length_drop; lia).
  rewrite (u64_small (n - _)), (u64_small ll) by lia.
  destruct (Z.leb_spec PROTO_MBULK_BIG_ARG ll); cbn [andb]; [destruct (Z.leb_spec (n - (qb_pos c + (k + 2))) (ll + 2))|].
  - destruct (V_grow c1 _ ll (if querybuf_peak c <? ll + 2 then ll + 2 else querybuf_peak c) HV1) as (q & m & q' & Hq & Hm & Hq' & HV2).
    { lia. } { cbn [vb consume]. lia. }
    change (qb_pos c1) with (qb_pos c + (k + 2)) in Hq. rewrite Hq. cbn [mbind res_bind]. rewrite Hm. cbn [mbind res_bind].
    rewrite Hq'. cbn [mbind res_bind]. eexists. split; [done|]. eexists. split; [done|].
    rewrite (V_pars _ _ HV2). by eapply V_set_pars.
  - eexists. split; [done|]. eexists. split; [done|]. rewrite (V_pars _ _ HV1). by eapply V_set_pars.
  - eexists. split; [done|]. eexists. split; [done|]. rewrite (V_pars _ _ HV1). by eapply V_set_pars.
Qed.

(** ** An argument *)

Lemma push_arg_spec v a : PI v -> multibulklen (vp v) <> 0 -> push_arg (vp v) a = Ok (apush (vp v) a).
Proof.
  intros HP Hm. destruct (pi_mid v HP Hm) as (_ & ? & ? & ? & ?). unfold push_arg, apush.
  destruct (Z.leb_spec (argv_len (vp v)) (argc (vp v))), (Z.ltb_spec (argv_len (vp v)) (INT_MAX / 2)); cbn iota;
    by rewrite (proj2 (Z.ltb_lt (argc (vp v)) _)) by lia.
Qed.

Lemma contents_body q b : repr q b -> 2 <= zlen b ->
  exists o, sdsIncrLen q (-2) = Ok o /\ contents o = Ok (take (Z.to_nat (zlen b - 2)) b).
Proof.
  intros Hr Hb. rewrite <- (take_drop (Z.to_nat (zlen b - 2)) b) in Hr.
  assert (zlen (drop (Z.to_nat (zlen b - 2)) b) = 2) as Hd by (unfold zlen in *; rewrite length_drop; lia).
  destruct (sdsIncrLen_cut _ _ _ Hr) as (o & Ho & Hro); [by intros E; rewrite E in Hd|].
  rewrite Hd in Ho. exists o. split; [done|]. by apply contents_spec.
Qed.

Lemma read_bulk_spec c v :
  V c v -> PI v -> multibulklen (vp v) <> 0 -> 0 <= bulklen (vp v) ->
  exists r, read_bulk c = Ok r /\
    match abody (vb v) (vp v) with
    | AWait => r = Break c
    | AErr _ => False
    | ADone n p | ANext n p => exists c', r = Continue c' /\ V c' (consume v n p)
    end.
Proof.
  intros HV HP Hm Hb. destruct (pi_bulk v HP) as [|Hb61]; [lia|]. pose proof proto_max_bulk_len_range.
  destruct (V_len c v HV) as (n & Hn & Hnb & Hpos & Hmax). unfold stream_max in Hmax.
  unfold read_bulk, abody. rewrite (V_master _ _ HV), Hn. cbn [mbind res_bind negb andb].
  rewrite (V_pars _ _ HV), (V_rest c v n HV Hn), (u64_small (_ + 2)) by lia.
  destruct (Z.ltb_spec (zlen (vb v)) (bulklen (vp v) + 2)); [by eexists|].
  destruct ((qb_pos c =? 0) && _ && (n =? _)) eqn:Ebig.
  - apply andb_true_iff in Ebig as [[Hp0%Z.eqb_eq Hbig%Z.leb_le]%andb_true_iff Hlen%Z.eqb_eq].
    destruct (V_unread _ _ HV) as (pre & Hr & Hpre & _). rewrite Hp0 in Hpre. symmetry in Hpre.
    apply zlen_nil_inv in Hpre as ->. cbn [app] in Hr.
    destruct (contents_body _ _ Hr) as (o & -> & Ho); [lia|]. cbn [mbind res_bind]. rewrite Ho. cbn [mbind res_bind].
    replace (zlen (vb v) - 2) with (bulklen (vp v)) by lia.
    rewrite (push_arg_spec v _ HP Hm). cbn [mbind res_bind].
    destruct (sdsnewlen_gen NoInit (bulklen (vp v) + 2)) as (q & l & -> & Hql & _); [unfold max_size; lia|done|].
    cbn [mbind res_bind]. destruct (sdsclear_spec q l Hql) as (q' & -> & Hq'). cbn [mbind res_bind].
    eexists. split; [done|].
    assert (V (set_pars (set_buf c q' (qb_pos c) (querybuf_peak c)) (apush (vp v) (take (Z.to_nat (bulklen (vp v))) (vb v))))
              (consume v (bulklen (vp v) + 2) (apush (vp v) (take (Z.to_nat (bulklen (vp v))) (vb v))))) as HV'.
    { destruct HV. split; try done. cbn [querybuf qb_pos set_pars set_buf vb consume].
      rewrite drop_ge by (unfold zlen in *; lia). rewrite Hp0. by apply unread_start. }
    destruct (multibulklen _ =? 0); eauto.
  - pose proof (unread_get c (vb v) 0 (bulklen (vp v)) (V_unread _ _ HV) ltac:(done) ltac:(done) ltac:(lia)) as Hg.
    rewrite Z.add_0_r in Hg. rewrite Hg. cbn [mbind res_bind].
    rewrite drop_0, (push_arg_spec v _ HP Hm). cbn [mbind res_bind]. eexists. split; [done|].
    pose proof (V_consume c v (bulklen (vp v) + 2) (apush (vp v) (take (Z.to_nat (bulklen (vp v))) (vb v))) HV ltac:(lia)).
    destruct (multibulklen _ =? 0); eauto.
Qed.

(** ** One command *)

(** A step inside a command. *)
Definition mstep v w : Prop := exists n p, next v = ANext n p /\ w = consume v n p.

(** The outcome of parsing a command from the state [v]: steps inside it, then
    its end, or the wait for more bytes, or an error. *)
Definition parsed v c' (ok : bool) : Prop :=
  exists w, rtc mstep v w /\ PI w /\ reqtype (vp w) <> 0 /\
    if ok then exists n p, next w = ADone n p /\ V c' (consume w n p)
    else (next w = AWait /\ V c' w) \/ (exists e, next w = AErr e /\ V c' (fail w e)).

Lemma parsed_step v w c' ok : mstep v w -> parsed w c' ok -> parsed v c' ok.
Proof. intros Hs (u & Hu & Hrest). exists u. split; [by eapply rtc_l|done]. Qed.

Lemma mstep_PI v w : PI v -> reqtype (vp v) <> 0 -> mstep v w -> PI w /\ reqtype (vp w) = 2 /\ 0 < multibulklen (vp w) /\ zlen (vb w) < zlen (vb v).
Proof.
  intros HP Ht (n & p & Hn & ->). destruct (next_PI v n p HP Ht Hn) as (? & ? & ? & ?). split_and!; [done..|].
  cbn [vb consume]. unfold zlen in *. rewrite length_drop. lia.
Qed.

(** The argument itself, once its length is known. *)
Lemma next_body v : PI v -> multibulklen (vp v) <> 0 -> bulklen (vp v) <> -1 -> next v = abody (vb v) (vp v).
Proof.
  intros HP Hm Hb. destruct (pi_mid v HP Hm) as (Ht & _). unfold next, micro.
  by rewrite Ht, (proj2 (Z.eqb_neq _ _) Hm), (proj2 (Z.eqb_neq _ _) Hb).
Qed.

Lemma next_hdr v : PI v -> multibulklen (vp v) <> 0 -> bulklen (vp v) = -1 -> next v = abulkhdr (vx v) (vb v) (vp v).
Proof.
  intros HP Hm Hb. destruct (pi_mid v HP Hm) as (Ht & _). unfold next, micro.
  by rewrite Ht, (proj2 (Z.eqb_neq _ _) Hm), Hb.
Qed.

(** The result of the loop: the state of the client and whether it returned
    normally. *)
Definition loop_out (r : client X + client X) : client X * bool :=
  match r with inl c => (c, false) | inr c => (c, multibulklen (pars c) =? 0) end.

Lemma waiting v : PI v -> multibulklen (vp v) <> 0 -> next v = AWait -> forall c, V c v -> parsed v c (multibulklen (pars c) =? 0).
Proof.
  intros HP Hm Hn c HV. destruct (pi_mid v HP Hm) as (Ht & _). rewrite (V_pars _ _ HV), (proj2 (Z.eqb_neq _ _) Hm).
  exists v. split_and!; [done|done|lia|by left].
Qed.

Lemma bulk_loop_spec fuel : forall c v,
  V c v -> PI v -> multibulklen (vp v) <> 0 -> zlen (vb v) < Z.of_nat fuel ->
  exists r, bulk_loop fuel c = Ok r /\ parsed v (loop_out r).1 (loop_out r).2.
Proof.
  induction fuel as [|fuel IH]; intros c v HV HP Hm Hf; [pose proof (zlen_nonneg (vb v)); lia|].
  assert (forall c v, V c v -> PI v -> multibulklen (vp v) <> 0 -> bulklen (vp v) <> -1 -> zlen (vb v) < Z.of_nat (S fuel) ->
    exists r, (r ← read_bulk c; match r with Break c => Ok (inr c) | ReturnErr c => Ok (inl c) | Continue c => bulk_loop fuel c end) = Ok r /\
      parsed v (loop_out r).1 (loop_out r).2) as Hbody.
  { clear c v HV HP Hm Hf. intros c v HV HP Hm Hb Hf. destruct (pi_mid v HP Hm) as (Ht & _).
    destruct (read_bulk_spec c v HV HP Hm (PI_body v HP Hb)) as (r & -> & Hr). cbn [mbind res_bind].
    pose proof (next_body v HP Hm Hb) as Hn. destruct (abody (vb v) (vp v)) as [|e|n p|n p].
    - subst r. eexists. split; [done|]. by apply waiting.
    - done.
    - destruct Hr as (c' & -> & HV'). assert (mstep v (consume v n p)) as Hs by (by exists n, p).
      destruct (mstep_PI _ _ HP ltac:(lia) Hs) as (HP' & _ & Hm' & Hl).
      destruct (IH c' _ HV' HP') as (r & Hr & Hp); [lia|lia|]. exists r. split; [done|]. by eapply parsed_step.
    - destruct Hr as (c' & -> & HV'). destruct (next_done v n p HP ltac:(lia) Hn) as [Hl Hp].
      destruct fuel as [|fuel]; [lia|]. cbn [bulk_loop]. rewrite (V_pars _ _ HV'). cbn [vp consume]. rewrite Hp.
      eexists. split; [done|]. cbn [loop_out fst snd]. rewrite (V_pars _ _ HV'). cbn [vp consume]. rewrite Hp.
      exists v. split_and!; [done|done|lia|by exists n, p]. }
  cbn [bulk_loop]. rewrite (V_pars _ _ HV), (proj2 (Z.eqb_neq _ _) Hm).
  destruct (Z.eqb_spec (bulklen (vp v)) (-1)) as [Hb|Hb]; [|by apply Hbody].
  destruct (pi_mid v HP Hm) as (Ht & _).
  destruct (read_bulklen_spec c v HV) as (r & -> & Hr). cbn [mbind res_bind]. pose proof (next_hdr v HP Hm Hb) as Hn.
  destruct (abulkhdr _ _ _) as [|e|n p|n p] eqn:Eh.
  - subst r. eexists. split; [done|]. by apply waiting.
  - destruct Hr as (c' & -> & HV'). eexists. split; [done|]. exists v. split_and!; [done|done|lia|]. right. by exists e.
  - destruct Hr as (c' & -> & HV'). assert (mstep v (consume v n p)) as Hs by (by exists n, p).
    destruct (mstep_PI _ _ HP ltac:(lia) Hs) as (HP' & _ & Hm' & Hl).
    destruct (Hbody c' _ HV' HP') as (r & Hr & Hp); [lia| |lia|].
    { apply abulkhdr_next in Eh as (_ & ll & Hll & ->). cbn [vp consume bulklen]. lia. }
    exists r. split; [done|]. by eapply parsed_step.
  - done.
Qed.

Lemma processMultibulkBuffer_spec c v :
  V c v -> PI v -> reqtype (vp v) = 2 -> exists c' ok, processMultibulkBuffer c = Ok (c', ok) /\ parsed v c' ok.
Proof.
  intros HV HP Ht. unfold processMultibulkBuffer.
  assert (forall c v, V c v -> PI v -> multibulklen (vp v) <> 0 ->
    exists c' ok, (_ ← cassert (0 <? multibulklen (pars c)); qlen ← sdslen (querybuf c);
       r ← bulk_loop (S (S (Z.to_nat qlen))) c;
       match r with inl c => Ok (c, false) | inr c => Ok (c, multibulklen (pars c) =? 0) end) = Ok (c', ok) /\ parsed v c' ok) as Hgo.
  { clear c v HV HP Ht. intros c v HV HP Hm. destruct (pi_mid v HP Hm) as (_ & Hpos & _).
    rewrite (V_pars _ _ HV), (proj2 (Z.ltb_lt _ _) Hpos). cbn [cassert mbind res_bind].
    destruct (V_len c v HV) as (n & -> & -> & Hp & _). cbn [mbind res_bind]. pose proof (zlen_nonneg (vb v)).
    destruct (bulk_loop_spec (S (S (Z.to_nat (qb_pos c + zlen (vb v))))) c v HV HP Hm) as (r & -> & Hr); [lia|].
    cbn [mbind res_bind]. destruct r as [c'|c']; eauto. }
  rewrite (V_pars _ _ HV). destruct (Z.eqb_spec (multibulklen (vp v)) 0) as [Hm|Hm]; [|by apply Hgo].
  destruct (read_multibulklen_spec c v HV HP Hm Ht) as (r & -> & Hr). cbn [mbind res_bind].
  assert (next v = aheader (vx v) (vb v) (vp v)) as Hn by (unfold next, micro; by rewrite Ht, Hm).
  destruct (aheader _ _ _) as [|e|n p|n p].
  - subst r. exists c, false. split; [done|]. exists v. split_and!; [done|done|lia|by left].
  - destruct Hr as (c' & -> & HV'). exists c', false. split; [done|]. exists v. split_and!; [done|done|lia|right; by exists e].
  - destruct Hr as (c' & -> & HV'). assert (mstep v (consume v n p)) as Hs by (by exists n, p).
    destruct (mstep_PI _ _ HP ltac:(lia) Hs) as (HP' & _ & Hm' & _).
    destruct (Hgo c' _ HV' HP') as (c2 & ok & Hr & Hp); [lia|]. exists c2, ok. split; [done|]. by eapply parsed_step.
  - destruct Hr as (c' & -> & HV'). exists c', true. split; [done|]. exists v. split_and!; [done|done|lia|]. by exists n, p.
Qed.

(** ** The inline protocol *)

Lemma contents_all_spec vec args : Forall2 repr vec args -> contents_all vec = Ok args.
Proof.
  induction 1 as [|s a vec args Hs _ IH]; [done|]. cbn [contents_all].
  rewrite (contents_spec _ _ Hs). cbn [mbind res_bind]. by rewrite IH.
Qed.

(** The copy of the line and its split into arguments. *)
Lemma split_line line :
  plain line -> zlen line <= max_size ->
  exists aux o, sdsnewlen (Init line) (zlen line) = Ok aux /\
    sdssplitargs (drop (Z.to_nat (s_off aux)) (s_mem aux)) = Ok o /\
    match splitargs line with
    | None => o = None
    | Some args => exists vec, o = Some vec /\ contents_all vec = Ok args
    end.
Proof.
  intros Hp Hm. destruct (sdsnewlen_all line Hm) as (aux & Haux & ty & al & rest & [-> Hty _ _ _ _ _]).
  { unfold plain, wf_bytes in *. rewrite Forall_forall in Hp |- *. intros y Hy. specialize (Hp y Hy). unfold is_byte. lia. }
  exists (mk ty (zlen line) al (line ++ 0 :: rest)). rewrite drop_mk by done.
  destruct (sdssplitargs_spec line rest Hp Hm) as (o & Ho & Hs). exists o. split_and!; [done..|].
  destruct (splitargs line); [|done]. destruct Hs as (vec & -> & Hv). eauto using contents_all_spec.
Qed.

Lemma plain_before x b k : wf_bytes b -> idx x b = Some k -> plain (take (Z.to_nat k) b).
Proof.
  intros Hw (p & q & -> & <- & Hp)%idx_spec. rewrite to_nat_zlen, take_app_length.
  apply Forall_app in Hw as [Hw _]. unfold plain. rewrite Forall_forall in Hw, Hp |- *. intros y Hy.
  destruct (Hp y Hy). pose proof (Hw y Hy) as Hb. unfold is_byte in Hb. lia.
Qed.

(** The end of the line, with or without a carriage return. *)
Lemma inline_end c v k :
  V c v -> idx 10 (vb v) = Some k ->
  exists line lf, inline_line k (vb v) = (line, lf) /\ plain line /\ zlen line + lf = k + 1 /\
    (if negb (qb_pos c + k =? qb_pos c) then
       ch ← get1 (querybuf c) (qb_pos c + k - 1);
       if ch =? 13 then Ok (qb_pos c + k - 1, 2) else Ok (qb_pos c + k, 1)
     else Ok (qb_pos c + k, 1)) = Ok (qb_pos c + zlen line, lf) /\
    get (querybuf c) (qb_pos c) (zlen line) = Ok line /\ 0 <= zlen line.
Proof.
  intros HV Hk. pose proof (plain_before _ _ _ (unread_wf _ _ _ (V_unread _ _ HV)) Hk) as Hp. apply idx_range in Hk.
  assert (forall j, 0 <= j <= k -> get (querybuf c) (qb_pos c) (zlen (take (Z.to_nat j) (vb v))) = Ok (take (Z.to_nat j) (vb v))) as Hget.
  { intros j Hj. rewrite zlen_take by lia.
    pose proof (unread_get c (vb v) 0 j (V_unread _ _ HV) ltac:(done) ltac:(lia) ltac:(lia)) as Hg. by rewrite Z.add_0_r in Hg. }
  unfold inline_line. replace (qb_pos c + k =? qb_pos c) with (k =? 0)
    by (destruct (Z.eqb_spec k 0), (Z.eqb_spec (qb_pos c + k) (qb_pos c)); lia || done).
  destruct (Z.eqb_spec k 0) as [->|Hk0]; cbn [negb andb].
  { exists [], 1. split_and!; try done. apply (Hget 0). lia. }
  replace (qb_pos c + k - 1) with (qb_pos c + (k - 1)) by lia.
  rewrite (unread_get1 c (vb v)) by (apply HV || lia). cbn [mbind res_bind]. destruct (_ =? 13).
  - exists (take (Z.to_nat (k - 1)) (vb v)), 2. rewrite (Hget (k - 1)), zlen_take by lia. split_and!; try done; try lia.
    eapply (Forall_take _ (Z.to_nat (k - 1))) in Hp. by rewrite take_take, Nat.min_l in Hp by lia.
  - exists (take (Z.to_nat k) (vb v)), 1. rewrite (Hget k), zlen_take by lia. split_and!; try done; lia.
Qed.

Lemma processInlineBuffer_spec c v :
  V c v -> PI v -> reqtype (vp v) = 1 -> exists c' ok, processInlineBuffer c = Ok (c', ok) /\ parsed v c' ok.
Proof.
  intros HV HP Ht. assert (next v = ainline (vb v) (vp v)) as Hn by (unfold next, micro; by rewrite Ht).
  assert (reqtype (vp v) <> 0) as Ht0 by lia. unfold ainline in Hn.
  destruct (V_len c v HV) as (n & Hlen & Hnb & Hpos & Hmax). unfold stream_max in Hmax.
  unfold processInlineBuffer. rewrite (V_find c v 10 HV), Hlen by done. cbn [mbind res_bind].
  destruct (idx 10 (vb v)) as [k|] eqn:Hk; cbn [option_map].
  2: { rewrite (V_rest c v n HV Hlen). destruct (_ <? _); eexists _, false; (split; [done|]); exists v; (split_and!; [done..|]).
       - right. eexists. split; [done|by apply V_error].
       - by left. }
  destruct (inline_end c v k HV Hk) as (line & lf & El & Hpl & Hlf & Hend & Hget & Hl0). rewrite El in Hn. cbv zeta in Hn.
  apply idx_range in Hk. assert (0 < lf) by (unfold inline_line in El; destruct (_ && _); simplify_eq; lia).
  rewrite Hend. cbn [mbind res_bind]. replace (qb_pos c + zlen line - qb_pos c) with (zlen line) by lia.
  rewrite Hget. cbn [mbind res_bind].
  destruct (split_line line Hpl) as (aux & o & -> & Ho & Hargs); [unfold max_size; lia|]. cbn [mbind res_bind].
  rewrite Ho. cbn [mbind res_bind]. destruct (splitargs line) as [args|].
  - destruct Hargs as (vec & -> & ->). cbn [mbind res_bind]. rewrite (V_master _ _ HV), andb_false_r.
    eexists _, true. split; [done|]. exists v. split_and!; [done..|]. eexists _, _. split; [done|].
    cbn [pars set_pos set_buf]. rewrite (V_pars _ _ HV). apply V_consume; [done|lia].
  - subst o. eexists _, false. split; [done|]. exists v. split_and!; [done..|]. right. eexists. split; [done|by apply V_error].
Qed.

(** ** The loop over the commands *)

Lemma mstep_live v w : mstep v w -> live w = live v.
Proof. by intros (n & p & _ & ->). Qed.

Lemma msteps_steps v w :
  rtc mstep v w -> live v = true -> PI v -> reqtype (vp v) <> 0 ->
  rtc step v w /\ live w = true /\ zlen (vb w) <= zlen (vb v).
Proof.
  induction 1 as [v|v u w Hs _ IH]; intros Hl HP Ht; [done|].
  destruct (mstep_PI _ _ HP Ht Hs) as (HPu & Htu & _ & Hlen).
  destruct IH as (? & ? & ?); [by rewrite (mstep_live _ _ Hs)|done|lia|].
  split_and!; [|done|lia]. eapply rtc_l; [|done]. destruct Hs as (n & p & Hn & ->). unfold step.
  by rewrite astep_next, Hn.
Qed.

(** A command that is not complete: the machine stops there. *)
Lemma parsed_stop v c' :
  live v = true -> PI v -> reqtype (vp v) <> 0 -> parsed v c' false ->
  exists w, runs v w /\ V c' w /\ PI w /\ vf w = false.
Proof.
  intros Hl HP Ht (w & Hs & HPw & Htw & Hend). destruct (msteps_steps _ _ Hs Hl HP Ht) as (Hst & Hlw & _).
  assert (vf w = false) as Hf by (unfold live in Hlw; by destruct (vf w)).
  destruct Hend as [[Hn HV]|(e & Hn & HV)].
  - exists w. split; [|done]. split; [done|]. by rewrite astep_next, Hn.
  - exists (fail w e). split; [|by split_and!; try apply PI_fail].
    split; [|unfold astep, live; cbn; by rewrite !andb_false_r].
    eapply rtc_r; [exact Hst|]. unfold step. by rewrite astep_next, Hn.
Qed.

(** A complete command: the machine is about to run it. *)
Lemma parsed_cmd v c' :
  live v = true -> PI v -> reqtype (vp v) <> 0 -> parsed v c' true ->
  exists u, V c' u /\ rtc step v (afinish u) /\ zlen (vb u) < zlen (vb v) /\ vf u = false /\ multibulklen (vp u) = 0.
Proof.
  intros Hl HP Ht (w & Hs & HPw & Htw & n & p & Hn & HV). destruct (msteps_steps _ _ Hs Hl HP Ht) as (Hst & Hlw & Hlen).
  exists (consume w n p). destruct (next_done w n p HPw Htw Hn) as [Hr Hm]. split_and!; [done| | | |done].
  - eapply rtc_r; [exact Hst|]. unfold step. by rewrite astep_next, Hn.
  - cbn [vb consume]. unfold zlen in *. rewrite length_drop. lia.
  - unfold live in Hlw. cbn. by destruct (vf w).
Qed.

Lemma V_reset c v : V c v -> V (resetClient c) {| vb := vb v; vp := areset; vx := vx v; ve := ve v; vf := vf v |}.
Proof. intros []. by split. Qed.

Lemma processCommandAndResetClient_spec c v :
  V c v -> argc (vp v) <> 0 -> exists c', processCommandAndResetClient c = Ok (c', negb (vf (afinish v))) /\ V c' (afinish v).
Proof.
  intros HV Ha. unfold processCommandAndResetClient, afinish. rewrite (V_srv _ _ HV), (V_pars _ _ HV), (proj2 (Z.eqb_neq _ _) Ha).
  destruct (processCommand _ _) as [[x ok] dead].
  assert (V (set_srv c x dead) {| vb := vb v; vp := vp v; vx := x; ve := ve v; vf := dead |}) as HV1 by (destruct HV; by split).
  destruct ok; cbn [andb]; [|by exists (set_srv c x dead)].
  unfold commandProcessed. cbn [srv set_srv]. destruct (blocked x); cbn [mbind res_bind negb]; [by exists (set_srv c x dead)|].
  apply V_reset in HV1. cbn [vb vx ve vf] in HV1. destruct (V_len _ _ HV1) as (n & -> & _). cbn [mbind res_bind].
  rewrite (V_master _ _ HV1). by eexists.
Qed.

Lemma V_typed c v ch :
  V c v -> nth 0 (vb v) 0 = ch ->
  V (if reqtype (vp v) =? 0 then
       set_pars c {| reqtype := if ch =? 42 then PROTO_REQ_MULTIBULK else PROTO_REQ_INLINE;
                     multibulklen := multibulklen (vp v); bulklen := bulklen (vp v);
                     argv := argv (vp v); argv_len := argv_len (vp v); argv_len_sum := argv_len_sum (vp v) |}
     else c) (typed v).
Proof. intros HV <-. unfold typed. destruct (reqtype (vp v) =? 0); [|done]. destruct HV. by split. Qed.

Lemma process_spec c v :
  V c v -> PI v -> reqtype (vp v) <> 0 ->
  exists c' ok, (if reqtype (pars c) =? PROTO_REQ_INLINE then processInlineBuffer c
     else _ ← cassert (reqtype (pars c) =? PROTO_REQ_MULTIBULK); processMultibulkBuffer c) = Ok (c', ok) /\ parsed v c' ok.
Proof.
  intros HV HP Ht. rewrite (V_pars _ _ HV). destruct (Z.eqb_spec (reqtype (vp v)) PROTO_REQ_INLINE) as [E|E].
  - by apply processInlineBuffer_spec.
  - pose proof (PI_multi v HP Ht E) as E2. rewrite E2. by apply processMultibulkBuffer_spec.
Qed.

Lemma runs_l v u w : rtc step v u -> runs u w -> runs v w.
Proof. intros Hs [Hr Hw]. split; [by etrans|done]. Qed.

Lemma live_cases v :
  vf v = false -> blocked (vx v) = false -> closing (vx v) || bool_decide (is_Some (ve v)) = false -> live v = true.
Proof. intros Hf Hb [Hc He]%orb_false_iff. unfold live. by rewrite Hf, Hb, Hc, He. Qed.

(** One iteration of the loop: the machine stops within it, or a command is
    complete. *)
Definition iteration fuel io c v : Prop :=
  (exists w c', runs v w /\ V c' w /\ VI w /\ vf w = false /\ input_loop (S fuel) io c = Ok (inr c')) \/
  (exists u c', V c' u /\ rtc step v (afinish u) /\ zlen (vb u) < zlen (vb v) /\ vf u = false /\ multibulklen (vp u) = 0 /\
     input_loop (S fuel) io c =
       if argc (vp u) =? 0 then input_loop fuel io (resetClient c') else
       if io then Ok (inr (set_pending c' true)) else
       r ← processCommandAndResetClient c';
       let '(c, valid) := r in if negb valid then Ok (inl c) else input_loop fuel io c).

Lemma input_iteration fuel io c v : V c v -> VI v -> vf v = false -> iteration fuel io c v.
Proof.
  intros HV HI Hf. unfold iteration. cbn [input_loop]. destruct (V_len c v HV) as (n & -> & -> & Hp & _). cbn [mbind res_bind].
  assert (astep v = None -> exists w c', runs v w /\ V c' w /\ VI w /\ vf w = false /\ @Ok (client X + client X) (inr c) = Ok (inr c')) as Hstop.
  { intros Hs. exists v, c. split_and!; try done. }
  destruct (vb v) as [|ch0 b0] eqn:Eb.
  { change (zlen []) with 0. rewrite Z.add_0_r, Z.ltb_irrefl. cbn [negb]. left. apply Hstop. unfold astep. rewrite Eb. by destruct (negb _). }
  rewrite <- Eb in *. assert (vb v <> []) as Hne by (by rewrite Eb).
  assert (0 < zlen (vb v)) as Hz by (rewrite Eb, zlen_cons; pose proof (zlen_nonneg b0); lia).
  rewrite (proj2 (Z.ltb_lt _ _)) by lia. cbn [negb]. rewrite (V_srv _ _ HV), (V_pending _ _ HV), (V_master _ _ HV), (V_perror _ _ HV), andb_false_r.
  destruct (blocked (vx v)) eqn:Hbl; [left; apply Hstop; unfold astep, live; by rewrite Hbl, !andb_false_r|].
  destruct (closing (vx v) || _) eqn:Hcl.
  { left. apply Hstop. unfold astep, live. apply orb_true_iff in Hcl as [-> | ->]; by rewrite !andb_false_r. }
  pose proof (live_cases v Hf Hbl Hcl) as Hl. destruct HI as [|[[??]|HP]]; [congruence..|].
  rewrite (V_head c v HV Hz). cbn [mbind res_bind]. rewrite (V_pars _ _ HV).
  pose proof (V_typed c v _ HV eq_refl) as HV1. destruct (typed_PI v HP Hne) as [HP1 Ht1].
  pose proof (typed_step v Hl Hne) as Hs1.
  assert (live (typed v) = true /\ zlen (vb (typed v)) = zlen (vb v)) as [Hl1 Hz1] by (unfold typed; by destruct (_ =? 0)).
  set (c1 := if _ =? 0 then _ else _) in HV1 |- *.
  destruct (process_spec c1 _ HV1 HP1 Ht1) as (c2 & ok & -> & Hpar). cbn [mbind res_bind]. destruct ok; cbn [negb].
  - right. destruct (parsed_cmd _ _ Hl1 HP1 Ht1 Hpar) as (u & HVu & Hsu & Hzu & Hfu & Hmu). exists u, c2. rewrite (V_pars _ _ HVu).
    split; [done|]. split; [by etrans|]. split; [lia|done].
  - left. destruct (parsed_stop _ _ Hl1 HP1 Ht1 Hpar) as (w & Hr & HVw & HPw & Hfw). exists w, c2.
    split; [by eapply runs_l|]. split; [done|]. split; [by right; right|done].
Qed.

(** An empty command. *)
Lemma V_empty c u : V c u -> argc (vp u) = 0 -> V (resetClient c) (afinish u) /\ vf (afinish u) = vf u.
Proof.
  intros HV Ha. unfold afinish. rewrite (proj2 (Z.eqb_eq _ _) Ha). split; [by apply V_reset|done].
Qed.

Lemma input_loop_spec fuel : forall c v,
  V c v -> VI v -> vf v = false -> zlen (vb v) < Z.of_nat fuel ->
  exists w c', runs v w /\ V c' w /\ VI w /\ input_loop fuel false c = Ok (if vf w then inl c' else inr c').
Proof.
  induction fuel as [|fuel IH]; intros c v HV HI Hf Hfuel; [pose proof (zlen_nonneg (vb v)); lia|].
  destruct (input_iteration fuel false c v HV HI Hf) as [(w & c' & Hr & HVw & HIw & Hfw & ->)|(u & c' & HVu & Hsu & Hzu & Hfu & Hmu & ->)].
  { exists w, c'. by rewrite Hfw. }
  pose proof (afinish_vb u) as Ebu. destruct (Z.eqb_spec (argc (vp u)) 0) as [Ha|Ha].
  - destruct (V_empty _ _ HVu Ha) as [HVf Hff].
    destruct (IH _ _ HVf (afinish_VI u Hmu)) as (w & c2 & Hr & Hrest); [congruence|rewrite Ebu; lia|].
    exists w, c2. split; [by eapply runs_l|done].
  - destruct (processCommandAndResetClient_spec c' u HVu Ha) as (c3 & -> & HV3). cbn [mbind res_bind].
    destruct (vf (afinish u)) eqn:Hfa; cbn [negb].
    + exists (afinish u), c3. rewrite Hfa. split; [|split; [done|split; [by left|done]]].
      split; [done|]. unfold astep, live. by rewrite Hfa.
    + destruct (IH _ _ HV3 (afinish_VI u Hmu) Hfa) as (w & c2 & Hr & Hrest); [rewrite Ebu; lia|].
      exists w, c2. split; [by eapply runs_l|done].
Qed.

(** In an I/O thread: the loop stops at the first command that is not empty,
    and leaves it pending. *)
Lemma input_loop_io fuel : forall c v,
  V c v -> VI v -> vf v = false -> zlen (vb v) < Z.of_nat fuel ->
  (exists w c', runs v w /\ V c' w /\ VI w /\ vf w = false /\ input_loop fuel true c = Ok (inr c')) \/
  (exists u c', rtc step v (afinish u) /\ V c' u /\ argc (vp u) <> 0 /\ multibulklen (vp u) = 0 /\ vf u = false /\
     input_loop fuel true c = Ok (inr (set_pending c' true))).
Proof.
  induction fuel as [|fuel IH]; intros c v HV HI Hf Hfuel; [pose proof (zlen_nonneg (vb v)); lia|].
  destruct (input_iteration fuel true c v HV HI Hf) as [?|(u & c' & HVu & Hsu & Hzu & Hfu & Hmu & ->)]; [by left|].
  destruct (Z.eqb_spec (argc (vp u)) 0) as [Ha|Ha].
  - destruct (V_empty _ _ HVu Ha) as [HVf Hff].
    destruct (IH _ _ HVf (afinish_VI u Hmu)) as [(w & c2 & Hr & Hrest)|(u2 & c2 & Hr & Hrest)]; [congruence|rewrite afinish_vb; lia|..].
    + left. exists w, c2. split; [by eapply runs_l|done].
    + right. exists u2, c2. split; [by etrans|done].
  - right. exists u, c'. done.
Qed.

(** ** Reading *)

(** A client between two reads: stopped, and its buffer trimmed. *)
Record ready c v : Prop := {
  rd_V : V c v;
  rd_VI : VI v;
  rd_stop : astep v = None;
  rd_pos : vf v = false -> qb_pos c = 0
}.

Lemma trim_spec c b :
  is_master c = false -> unread (querybuf c) (qb_pos c) b ->
  exists q, trim_querybuf c = Ok (set_buf c q 0 (querybuf_peak c)) /\ unread q 0 b.
Proof.
  intros Hma Hb. unfold trim_querybuf. rewrite Hma. destruct (Z.eqb_spec (qb_pos c) 0) as [Hz|Hz]; cbn [negb].
  - exists (querybuf c). rewrite Hz in Hb. split; [|done]. rewrite <- Hz. by destruct c.
  - destruct (unread_trim _ _ _ Hb) as (q & -> & Hq). exists q. split; [done|]. apply unread_start; [done|].
    destruct Hb as (pre & _ & _ & Hm). rewrite zlen_app in Hm. pose proof (zlen_nonneg pre). lia.
Qed.

Lemma processInputBuffer_spec c v :
  V c v -> VI v -> vf v = false ->
  exists w c', runs v w /\ ready c' w /\ processInputBuffer false c = Ok (c', negb (vf w)).
Proof.
  intros HV HI Hf. unfold processInputBuffer. destruct (V_len c v HV) as (n & -> & -> & Hp & _). cbn [mbind res_bind].
  pose proof (zlen_nonneg (vb v)).
  destruct (input_loop_spec (S (S (Z.to_nat (qb_pos c + zlen (vb v))))) c v HV HI Hf) as (w & c' & Hr & HVw & HIw & ->); [lia|].
  cbn [mbind res_bind]. exists w. destruct (vf w) eqn:Hfw.
  - exists c'. split; [done|]. split; [|done]. split; [done|done|apply Hr|congruence].
  - destruct (trim_spec c' _ (V_master _ _ HVw) (V_unread _ _ HVw)) as (q & -> & Hq). cbn [mbind res_bind].
    eexists. split; [done|]. split; [|done]. split; [|done|apply Hr|done]. destruct HVw. by split.
Qed.

(** An I/O thread that parses and the main thread that then runs the pending
    command and goes on have the effect of the main thread alone. *)
Lemma io_thread_spec c v :
  V c v -> VI v -> vf v = false ->
  exists w c1 c2, runs v w /\ ready c2 w /\ processInputBuffer true c = Ok (c1, true) /\
    processPendingCommandAndInputBuffer c1 = Ok (c2, negb (vf w)).
Proof.
  intros HV HI Hf. unfold processInputBuffer at 1. destruct (V_len c v HV) as (n & -> & -> & Hp & _). cbn [mbind res_bind].
  pose proof (zlen_nonneg (vb v)).
  assert (forall c u, V c u -> VI u -> vf u = false -> qb_pos c = 0 -> exists w c2, runs u w /\ ready c2 w /\
    (qlen ← sdslen (querybuf c); if 0 <? qlen then processInputBuffer false c else Ok (c, true)) = Ok (c2, negb (vf w))) as Hrest.
  { clear c v HV HI Hf Hp H1. intros c u HV HI Hf Hpos. destruct (V_len c u HV) as (n & -> & Hn & _). cbn [mbind res_bind].
    destruct (Z.ltb_spec 0 n); [by apply processInputBuffer_spec|]. exists u, c. rewrite Hf.
    assert (vb u = []) as Hb by (apply zlen_nil_inv; pose proof (zlen_nonneg (vb u)); lia).
    assert (astep u = None) as Hs by (unfold astep; rewrite Hb; by destruct (negb _)).
    split; [done|]. split; [by split|done]. }
  destruct (input_loop_io (S (S (Z.to_nat (qb_pos c + zlen (vb v))))) c v HV HI Hf)
    as [(w & c' & Hr & HVw & HIw & Hfw & ->)|(u & c' & Hr & HVu & Ha & Hm & Hfu & ->)]; [lia| |]; cbn [mbind res_bind].
  - destruct (trim_spec c' _ (V_master _ _ HVw) (V_unread _ _ HVw)) as (q & -> & Hq). cbn [mbind res_bind].
    set (c1 := set_buf c' q 0 (querybuf_peak c')). assert (V c1 w) as HV1 by (destruct HVw; by split).
    destruct (Hrest c1 w HV1 HIw Hfw eq_refl) as (w' & c2 & Hr' & Hready & Heq). exists w', c1, c2.
    split; [eapply runs_l; [apply Hr|done]|]. split; [done|]. split; [done|].
    unfold processPendingCommandAndInputBuffer. rewrite (V_pending _ _ HV1). done.
  - destruct (trim_spec (set_pending c' true) _ (V_master _ _ HVu) (V_unread _ _ HVu)) as (q & -> & Hq). cbn [mbind res_bind].
    set (c1 := set_buf _ q 0 _). assert (V (set_pending c1 false) u) as HV1 by (destruct HVu; by split).
    destruct (processCommandAndResetClient_spec _ u HV1 Ha) as (c3 & Hc3 & HV3).
    assert (processPendingCommandAndInputBuffer c1 =
      if negb (negb (vf (afinish u))) then Ok (c3, false) else
      qlen ← sdslen (querybuf c3); if 0 <? qlen then processInputBuffer false c3 else Ok (c3, true)) as Hpp.
    { unfold processPendingCommandAndInputBuffer. change (pending_command c1) with true. cbn iota. by rewrite Hc3. }
    destruct (vf (afinish u)) eqn:Hfa; cbn [negb] in Hpp.
    + exists (afinish u), c1, c3. rewrite Hfa, Hpp. assert (astep (afinish u) = None) as Hs by (unfold astep, live; by rewrite Hfa).
      split; [by split|]. split; [|done]. split; [done|by left|done|congruence].
    + assert (qb_pos c3 = 0) as Hpos.
      { unfold processCommandAndResetClient in Hc3. destruct (processCommand _ _) as [[x ok] dead]. destruct ok; cbn [mbind res_bind] in Hc3;
          [|by injection Hc3 as <- _].
        unfold commandProcessed in Hc3. cbn [srv set_srv] in Hc3. destruct (blocked x); cbn [mbind res_bind] in Hc3; [by injection Hc3 as <- _|].
        change (is_master (resetClient _)) with (is_master c1) in Hc3. change (is_master c1) with (is_master (set_pending c1 false)) in Hc3.
        rewrite (V_master _ _ HV1) in Hc3. cbn [andb] in Hc3. destruct (sdslen _); [|done]. by injection Hc3 as <- _. }
      destruct (Hrest c3 _ HV3 (afinish_VI u Hm) Hfa Hpos) as (w & c2 & Hr' & Hready & Heq). exists w, c1, c2.
      split; [by eapply runs_l|]. split; [done|]. split; [done|]. by rewrite Hpp.
Qed.

(** How much is asked for. *)
Lemma read_size_spec c v n :
  V c v -> VI v -> vf v = false -> sdslen (querybuf c) = Ok n -> 0 < snd (read_size c n) <= 2 ^ 61 + 2.
Proof.
  intros HV HI Hf Hn. destruct (V_len c v HV) as (n' & Hn' & -> & Hp & Hmax). rewrite Hn' in Hn. injection Hn as <-.
  pose proof (zlen_nonneg (vb v)). unfold stream_max in Hmax. unfold read_size. rewrite (V_pars _ _ HV), (V_master _ _ HV).
  destruct (_ && _ && _ && _) eqn:E; [|cbn; unfold PROTO_IOBUF_LEN; lia].
  apply andb_true_iff in E as [[[_ Hm%negb_true_iff%Z.eqb_neq]%andb_true_iff Hb%negb_true_iff%Z.eqb_neq]%andb_true_iff _].
  destruct HI as [|[[_ ?]|HP]]; [congruence|done|]. pose proof (PI_body v HP Hb). destruct (pi_bulk v HP); [done|]. pose proof proto_max_bulk_len_range.
  cbn [andb snd]. rewrite (u64_small (_ + 2)), (u64_small (_ - _)) by lia.
  rewrite wraps_small by lia. unfold PROTO_IOBUF_LEN. destruct (Z.ltb_spec 0 (bulklen (vp v) + 2 - (qb_pos c + zlen (vb v) - qb_pos c))); lia.
Qed.

Lemma sdsavail_spec s l ty alloc rest : Repr s l ty alloc rest -> sdsavail s = Ok (alloc - zlen l).
Proof.
  intros HR. pose proof (Repr_cap _ _ _ _ _ HR) as Hc. destruct HR as [-> ? ? ? _ _ _]. pose proof (zlen_nonneg l).
  rewrite sdsavail_mk by (done || lia). by rewrite Hc.
Qed.

Lemma make_read_room_spec c v :
  V c v -> VI v -> vf v = false -> qb_pos c = 0 ->
  exists q readlen peak, make_read_room c = Ok (q, readlen, peak) /\ roomy q (vb v) readlen /\ 0 < readlen.
Proof.
  intros HV HI Hf Hpos. destruct (V_len c v HV) as (n & Hn & Hnb & _ & Hmax). unfold stream_max in Hmax.
  pose proof (read_size_spec c v n HV HI Hf Hn) as Hs. unfold make_read_room. rewrite Hn. cbn [mbind res_bind].
  destruct (read_size c n) as [big readlen]. cbn [snd] in Hs.
  destruct (V_unread _ _ HV) as (pre & Hr & Hpre & _). rewrite Hpos in Hpre. symmetry in Hpre.
  apply zlen_nil_inv in Hpre as ->. cbn [app] in Hr. destruct Hr as (ty & al & rest & HR).
  rewrite (sdsalloc_spec _ _ _ _ _ HR), (V_master _ _ HV). cbn [mbind res_bind negb andb].
  assert (repr (querybuf c) (vb v)) as Hr by (by exists ty, al, rest).
  assert (zlen (vb v) + readlen <= max_size) as Hmx by (unfold max_size; lia).
  destruct (big || _).
  - destruct (make_room_spec _ _ readlen false Hr ltac:(lia) Hmx) as (q & Hq & Hroom).
    unfold sdsMakeRoomForNonGreedy. rewrite Hq. cbn [mbind res_bind]. eexists _, _, _. split_and!; [done..|lia].
  - destruct (make_room_spec _ _ readlen true Hr ltac:(lia) Hmx) as (q & Hq & ty' & al' & rest' & HR' & Hal).
    unfold sdsMakeRoomFor. rewrite Hq. cbn [mbind res_bind]. rewrite (sdsavail_spec _ _ _ _ _ HR'). cbn [mbind res_bind].
    eexists _, _, _. split; [done|]. split; [|lia]. exists ty', al', rest'. split; [done|lia].
Qed.

(** The bytes read are appended. *)
Lemma append_read q l t n :
  roomy q l n -> 0 < zlen t <= n -> wf_bytes t ->
  exists q1 q2, put q (zlen l) t = Ok q1 /\ sdsIncrLen q1 (zlen t) = Ok q2 /\ repr q2 (l ++ t).
Proof.
  intros (ty & al & rest & HR & Hal) Ht Hw. destruct (Repr_lens _ _ _ _ _ HR) as [Hl Ha]. destruct HR as [-> Hv ? ? Hroom Hsh Hwl].
  pose proof (zlen_nonneg rest).
  rewrite put_body by (done || (rewrite zlen_cons; lia)).
  destruct (drop_nonempty (0 :: rest) (length t)) as (x & r & E & Lr); [unfold zlen in *; cbn; lia|].
  rewrite E. assert (zlen r = zlen rest - zlen t) as Hr.
  { apply (f_equal length) in E. rewrite length_drop in E. unfold zlen in *. cbn in *. lia. }
  destruct (sdsIncrLen_mk ty al (l ++ t) x r (zlen l) (zlen t)) as (s & Hs & Hrs); try done; try (rewrite ?zlen_app; lia).
  - by apply Forall_app_2.
  - rewrite <- app_assoc in Hs. eauto.
Qed.

(** No query buffer of at most [lim] bytes is over the limits. *)
Definition within (lim : Z) : Prop := lim <= stream_max /\ forall (x : X) n, n <= lim -> over_query_limit x n = false.

Lemma more_nil v : more v [] = v.
Proof. destruct v. unfold more. cbn. by rewrite app_nil_r. Qed.

Lemma VI_more v d : VI v -> VI (more v d).
Proof. intros [?|[?|HP]]; [by left|right; by left|]. right; right. by apply PI_more. Qed.

Lemma V_read c v q peak d :
  V c v -> repr q (vb v ++ d) -> zlen (vb v ++ d) <= stream_max -> qb_pos c = 0 -> V (set_buf c q (qb_pos c) peak) (more v d).
Proof. intros [] Hr Hm Hp. split; try done. cbn. rewrite Hp. by apply unread_start. Qed.

(** One read: some of what the socket holds is appended, and the machine runs. *)
Lemma readQuery_spec lim c v limit sock :
  within lim -> ready c v -> wf_bytes sock -> zlen (vb v) + zlen sock <= lim ->
  exists k c' w, readQueryFromClient c (Avail limit) sock = Ok (c', drop k sock) /\
    runs (more v (take k sock)) w /\ ready c' w /\
    (vf v = false -> 0 < limit -> sock <> [] -> (0 < k)%nat).
Proof.
  intros [Hlm Hlim] [HV HI Hstop Hpos] Hw Hsz. unfold readQueryFromClient. rewrite (V_freed _ _ HV).
  assert (runs (more v []) v) as Hrun0 by (rewrite more_nil; by split).
  destruct (vf v) eqn:Hf.
  { exists O, c, v. split; [done|]. split; [done|]. split; [|congruence]. by split; rewrite ?Hf. }
  specialize (Hpos eq_refl). destruct (V_len c v HV) as (n & -> & Hn & _). cbn [mbind res_bind].
  rewrite Hpos, Z.add_0_l in Hn. subst n.
  destruct (make_read_room_spec c v HV HI Hf Hpos) as (q & readlen & peak & -> & Hroom & Hrl). cbn [mbind res_bind].
  pose proof (zlen_nonneg sock). destruct (Z.leb_spec (Z.min (Z.min readlen limit) (zlen sock)) 0) as [Hz|Hz].
  { eexists O, _, v. split; [done|]. split; [done|]. split.
    - destruct Hroom as (ty & al & rest & HR & _). destruct (V_len c v HV) as (n & _ & -> & _ & Hm).
      split; [|done|done|done]. rewrite <- (more_nil v). apply V_read; rewrite ?app_nil_r; try done; [by exists ty, al, rest|lia].
    - intros _ ? Hne. destruct sock; [done|]. rewrite zlen_cons in *. pose proof (zlen_nonneg sock). lia. }
  set (nread := Z.min _ _) in *. assert (nread <= readlen /\ nread <= zlen sock) as [Hn1 Hn2] by lia.
  set (d := take (Z.to_nat nread) sock). assert (zlen d = nread) as Hd by (unfold d; by rewrite zlen_take by lia).
  rewrite <- Hd in Hz, Hn1 |- *. clearbody nread. rewrite Hd.
  destruct (append_read q (vb v) d readlen Hroom) as (q1 & q2 & Hq1 & Hq2 & Hr2); [lia|by apply Forall_take|].
  rewrite Hd in Hq2. rewrite Hq1. cbn [mbind res_bind]. rewrite Hq2. cbn [mbind res_bind].
  rewrite (sdslen_spec _ _ Hr2). cbn [mbind res_bind].
  assert (zlen (vb v ++ d) <= lim) as Hall by (rewrite zlen_app; lia).
  set (peak' := if peak <? _ then _ else _). set (c1 := set_buf c q2 (qb_pos c) peak').
  assert (V c1 (more v d)) as HV1 by (apply V_read; [done..|lia|done]).
  rewrite (V_master _ _ HV1). cbn iota. rewrite (V_master _ _ HV1), Hlim by done. cbn [negb andb].
  destruct (processInputBuffer_spec c1 _ HV1 (VI_more _ d HI) Hf) as (w & c' & Hruns & Hready & ->). cbn [mbind res_bind fst].
  exists (Z.to_nat nread), c', w. split; [done|]. split; [done|]. split; [done|lia].
Qed.

End sim.

End NetworkingSim.
