(* ===== verification/Aof.v ===== *)
(** * The encoding of commands (aof.c).

    [catAppendOnlyGenericCommand], which writes a command in the RESP form
    that the append only file holds, and the text it writes. *)

From S2P Require Import Prelude Util Sds SdsTheory.
#[local] Open Scope Z_scope.

Module Aof.
Import Sds SdsTheory.

Section aof.
Context `{Allocator}.

(** [buf[0] = ch; len = 1+ll2string(buf+1,sizeof(buf)-1,n)] and the end of the
    line: the array and the number of bytes it holds. *)
Definition count_line (buf : bytes) (ch n : Z) : res (bytes * Z) :=
  buf ← wr buf 0 ch;
  r ← Util.ll2string buf 1 (zlen buf - 1) n;
  let '(buf, k) := r in
  let len := 1 + k in
  buf ← wr buf len 13;
  buf ← wr buf (len + 1) 10;
  Ok (buf, len + 2).

(** [for (j = 0; j < argc; j++)]; an argument is the content of its decoded
    object. *)
Fixpoint cat_args (buf : bytes) (dst : sds) (argv : list bytes) : res sds :=
  match argv with
  | [] => Ok dst
  | o :: argv =>
    r ← count_line buf 36 (zlen o);
    let '(buf, len) := r in
    line ← rdn buf 0 len;
    dst ← sdscatlen dst line;
    dst ← sdscatlen dst o;
    dst ← sdscatlen dst [13; 10];
    cat_args buf dst argv
  end.

(** [buf] is the uninitialised array of 32 bytes. *)
Definition catAppendOnlyGenericCommand (buf : bytes) (dst : sds) (argv : list bytes) : res sds :=
  r ← count_line buf 42 (zlen argv);
  let '(buf, len) := r in
  line ← rdn buf 0 len;
  dst ← sdscatlen dst line;
  cat_args buf dst argv.

(** ** The text *)

Definition arg_text (a : bytes) : bytes := 36 :: Util.decimal (zlen a) ++ 13 :: 10 :: a ++ [13; 10].
Definition args_text (l : list bytes) : bytes := concat (map arg_text l).
Definition command_text (l : list bytes) : bytes := 42 :: Util.decimal (zlen l) ++ 13 :: 10 :: args_text l.

Lemma args_text_cons a l : args_text (a :: l) = arg_text a ++ args_text l.
Proof. done. Qed.

Lemma decimal_digits n : 0 <= n < 2 ^ 63 -> Forall (fun c => 48 <= c <= 57) (Util.decimal n).
Proof.
  intros Hn. unfold Util.decimal. rewrite (proj2 (Z.ltb_ge n 0)) by lia. rewrite Util.udecimal_decs by lia.
  apply Util.decs_digits.
Qed.

Lemma count_line_spec buf ch n :
  zlen buf = 32 -> is_byte ch -> 0 <= n < 2 ^ 63 ->
  exists buf' len, count_line buf ch n = Ok (buf', len) /\ zlen buf' = 32 /\
    rdn buf' 0 len = Ok (ch :: Util.decimal n ++ [13; 10]).
Proof.
  intros Hb Hch Hn. assert (is_i64 n) as Hi by (unfold is_i64, INT64_MIN, INT64_MAX; lia).
  pose proof (Util.decimal_length n Hi) as Hd. set (t := Util.decimal n) in *.
  destruct buf as [|x buf]; [done|]. rewrite zlen_cons in Hb. unfold count_line. rewrite wr_0. cbn [mbind res_bind].
  rewrite u8_small by done.
  destruct (split_room buf (zlen t + 1) (30 - zlen t)) as (r & suf & -> & Lr & Ls); [lia..|].
  destruct suf as [|y suf]; [rewrite zlen_nil in Ls; lia|].
  pose proof (Util.ll2string_spec [ch] r (y :: suf) (zlen (ch :: r ++ y :: suf) - 1) n Hi) as Hs. cbn [app] in Hs. fold t in Hs.
  change (zlen [ch]) with 1 in Hs. pose proof (zlen_nonneg suf).
  rewrite Hs; [|rewrite zlen_cons, zlen_app, zlen_cons; lia|lia]. cbn [mbind res_bind].
  replace (1 + zlen t) with (zlen (ch :: t)) by (rewrite zlen_cons; lia).
  change (ch :: t ++ 0 :: y :: suf) with ((ch :: t) ++ 0 :: y :: suf).
  rewrite (wr_app (ch :: t) 0 13 (y :: suf)). cbn [mbind res_bind].
  change (u8 13) with 13. replace ((ch :: t) ++ 13 :: y :: suf) with ((ch :: t ++ [13]) ++ y :: suf) by (cbn [app]; by rewrite <- app_assoc).
  replace (zlen (ch :: t) + 1) with (zlen (ch :: t ++ [13])) by (zlen_simpl; lia). rewrite wr_app. cbn [mbind res_bind].
  change (u8 10) with 10. eexists _, _. split; [done|]. split; [rewrite zlen_cons in Ls; rewrite ?zlen_app, ?zlen_cons, ?zlen_app, ?zlen_cons, ?zlen_nil; lia|].
  replace ((ch :: t ++ [13]) ++ 10 :: suf) with ((ch :: t ++ [13; 10]) ++ suf) by (cbn [app]; by rewrite <- !app_assoc).
  replace (zlen (ch :: t) + 2) with (zlen (ch :: t ++ [13; 10])) by (zlen_simpl; lia).
  apply (rdn_app [] (ch :: t ++ [13; 10]) suf).
Qed.

Lemma line_wf ch n : is_byte ch -> 0 <= n < 2 ^ 63 -> wf_bytes (ch :: Util.decimal n ++ [13; 10]).
Proof.
  intros Hc Hn. constructor; [done|]. apply Forall_app_2; [|by repeat constructor].
  pose proof (decimal_digits n Hn) as Hd. unfold is_byte. rewrite Forall_forall in *. intros y Hy. specialize (Hd y Hy). lia.
Qed.

Lemma zlen_bound {A} (l : list A) m : zlen l <= m -> m < 2 ^ 63 -> 0 <= zlen l < 2 ^ 63.
Proof. pose proof (zlen_nonneg l). lia. Qed.

Lemma cat_args_spec argv : forall buf dst l,
  zlen buf = 32 -> repr dst l -> Forall wf_bytes argv -> zlen l + zlen (args_text argv) <= max_size ->
  exists dst', cat_args buf dst argv = Ok dst' /\ repr dst' (l ++ args_text argv).
Proof.
  induction argv as [|o argv IH]; intros buf dst l Hb Hr Hw Hm; cbn [cat_args].
  { exists dst. split; [done|]. by rewrite app_nil_r. }
  apply Forall_cons_1 in Hw as [Ho Hw]. rewrite args_text_cons in Hm |- *. unfold arg_text in Hm |- *. unfold max_size in Hm.
  rewrite ?zlen_app, ?zlen_cons, ?zlen_app, ?zlen_cons, ?zlen_app, ?zlen_cons in Hm. change (zlen (@nil Z)) with 0 in Hm.
  pose proof (zlen_nonneg l). pose proof (zlen_nonneg o). pose proof (zlen_nonneg (args_text argv)).
  pose proof (zlen_nonneg (Util.decimal (zlen o))).
  assert (0 <= zlen o < 2 ^ 63) as Hol by lia.
  destruct (count_line_spec buf 36 (zlen o) Hb) as (buf' & len & -> & Hb' & Hline); [unfold is_byte; lia|done|]. cbn [mbind res_bind].
  rewrite Hline. cbn [mbind res_bind].
  destruct (sdscatlen_spec dst l (36 :: Util.decimal (zlen o) ++ [13; 10]) Hr) as (d1 & -> & Hr1);
    [by apply line_wf|rewrite ?zlen_cons, ?zlen_app, ?zlen_cons, ?zlen_nil; unfold max_size; lia|]. cbn [mbind res_bind].
  destruct (sdscatlen_spec d1 _ o Hr1 Ho) as (d2 & -> & Hr2);
    [rewrite ?zlen_app, ?zlen_cons, ?zlen_app, ?zlen_cons, ?zlen_nil; unfold max_size; lia|]. cbn [mbind res_bind].
  destruct (sdscatlen_spec d2 _ [13; 10] Hr2) as (d3 & -> & Hr3);
    [by repeat constructor|rewrite ?zlen_app, ?zlen_cons, ?zlen_app, ?zlen_cons, ?zlen_nil; unfold max_size; lia|]. cbn [mbind res_bind].
  destruct (IH buf' d3 _ Hb' Hr3 Hw) as (d4 & -> & Hr4).
  { rewrite ?zlen_app, ?zlen_cons, ?zlen_app, ?zlen_cons, ?zlen_nil. unfold max_size. lia. }
  exists d4. split; [done|]. revert Hr4. by repeat (rewrite <- ?app_assoc; cbn [app]).
Qed.

Lemma catAppendOnlyGenericCommand_spec buf dst l argv :
  zlen buf = 32 -> repr dst l -> Forall wf_bytes argv -> zlen argv < 2 ^ 31 -> zlen l + zlen (command_text argv) <= max_size ->
  exists dst', catAppendOnlyGenericCommand buf dst argv = Ok dst' /\ repr dst' (l ++ command_text argv).
Proof.
  intros Hb Hr Hw Hn Hm. unfold catAppendOnlyGenericCommand. pose proof (zlen_nonneg argv).
  destruct (count_line_spec buf 42 (zlen argv) Hb) as (buf' & len & -> & Hb' & Hline); [unfold is_byte; lia|lia|]. cbn [mbind res_bind].
  rewrite Hline. cbn [mbind res_bind]. unfold command_text in Hm |- *.
  replace (42 :: Util.decimal (zlen argv) ++ 13 :: 10 :: args_text argv)
    with ((42 :: Util.decimal (zlen argv) ++ [13; 10]) ++ args_text argv) in Hm |- * by (cbn [app]; by rewrite <- app_assoc).
  rewrite zlen_app in Hm. pose proof (zlen_nonneg (args_text argv)).
  destruct (sdscatlen_spec dst l _ Hr (line_wf 42 (zlen argv) ltac:(unfold is_byte; lia) ltac:(lia))) as (d1 & -> & Hr1); [lia|].
  cbn [mbind res_bind]. rewrite app_assoc. apply cat_args_spec; [done..|]. rewrite zlen_app. lia.
Qed.

End aof.

End Aof.
