(* ===== verification/Kvstore.v ===== *)
(** * Arrays of hash tables (kvstore.c).

    The key space of a database: an array of [2^num_dicts_bits] dicts, one per
    cluster slot, with the number of keys of each dict kept in a binary indexed
    tree, from which the dict of the n-th key and the next dict that is not
    empty are found, and a scan whose cursor carries the dict index in its low
    bits.

    The list of rehashing dicts and the bucket counts, which the rehashing
    callbacks maintain, are left out, as are the iterators and the statistics.
    A NULL dict is [None]. *)

From S2P Require Import Prelude Dict.
#[local] Open Scope Z_scope.

Module Kvstore.
Import Dict.

Definition KVSTORE_ALLOCATE_DICTS_ON_DEMAND : Z := 1.
Definition KVSTORE_FREE_EMPTY_DICTS : Z := 2.

(** The lowest set bit, [idx & -idx]. *)
Definition lowbit (idx : Z) : Z := Z.land idx (- idx).

(** An access to [dict_size_index]. *)
Definition index_get (t : list Z) (i : Z) : res Z :=
  if 0 <=? i then match t !! Z.to_nat i with Some x => Ok x | None => Fault OutOfBounds end
  else Fault OutOfBounds.

Definition index_set (t : list Z) (i x : Z) : res (list Z) :=
  if (0 <=? i) && (i <? zlen t) then Ok (<[Z.to_nat i := x]> t) else Fault OutOfBounds.

(** The loops over the binary indexed tree. *)
Fixpoint bit_read (fuel : nat) (t : list Z) (idx sum : Z) : res Z :=
  match fuel with
  | O => Fault OutOfFuel
  | S fuel =>
    if 0 <? idx then
      x ← index_get t idx;
      bit_read fuel t (idx - lowbit idx) (u64 (sum + x))
    else Ok sum
  end.

Fixpoint bit_add (fuel : nat) (num_dicts : Z) (t : list Z) (idx delta : Z) : res (list Z) :=
  match fuel with
  | O => Fault OutOfFuel
  | S fuel =>
    if idx <=? num_dicts then
      x ← index_get t idx;
      _ ← (if delta <? 0 then cassert (u64 (Z.abs delta) <=? x) else Ok tt);
      t ← index_set t idx (u64 (x + delta));
      bit_add fuel num_dicts t (idx + lowbit idx) delta
    else Ok t
  end.

Fixpoint bit_find (fuel : nat) (t : list Z) (i result target : Z) : res Z :=
  match fuel with
  | O => Fault OutOfFuel
  | S fuel =>
    if i =? 0 then Ok result else
    let current := result + i in
    x ← index_get t current;
    if x <? target then bit_find fuel t (Z.shiftr i 1) current (u64 (target - x))
    else bit_find fuel t (Z.shiftr i 1) result target
  end.

Section kvstore.
Context {K V : Type}.
#[local] Abbreviation dict := (@dict K V).

Record kvstore : Type := {
  flags : Z;
  dicts : list (option dict);
  num_dicts : Z;
  num_dicts_bits : Z;
  resize_cursor : Z;
  allocated_dicts : Z;
  non_empty_dicts : Z;
  key_count : Z;
  dict_size_index : list Z
}.

Definition set_dicts (kvs : kvstore) (ds : list (option dict)) : kvstore :=
  {| flags := flags kvs; dicts := ds; num_dicts := num_dicts kvs; num_dicts_bits := num_dicts_bits kvs;
     resize_cursor := resize_cursor kvs; allocated_dicts := allocated_dicts kvs;
     non_empty_dicts := non_empty_dicts kvs; key_count := key_count kvs; dict_size_index := dict_size_index kvs |}.

Definition set_counts (kvs : kvstore) (allocated non_empty keys : Z) (t : list Z) : kvstore :=
  {| flags := flags kvs; dicts := dicts kvs; num_dicts := num_dicts kvs; num_dicts_bits := num_dicts_bits kvs;
     resize_cursor := resize_cursor kvs; allocated_dicts := allocated;
     non_empty_dicts := non_empty; key_count := keys; dict_size_index := t |}.

Definition set_resize_cursor (kvs : kvstore) (c : Z) : kvstore :=
  {| flags := flags kvs; dicts := dicts kvs; num_dicts := num_dicts kvs; num_dicts_bits := num_dicts_bits kvs;
     resize_cursor := c; allocated_dicts := allocated_dicts kvs;
     non_empty_dicts := non_empty_dicts kvs; key_count := key_count kvs; dict_size_index := dict_size_index kvs |}.

(** [kvs->dicts[didx]], read and written. *)
Definition kvstoreGetDict (kvs : kvstore) (didx : Z) : res (option dict) :=
  if 0 <=? didx then
    match dicts kvs !! Z.to_nat didx with Some d => Ok d | None => Fault OutOfBounds end
  else Fault OutOfBounds.

Definition put_dict (kvs : kvstore) (didx : Z) (d : option dict) : res kvstore :=
  if (0 <=? didx) && (didx <? zlen (dicts kvs))
  then Ok (set_dicts kvs (<[Z.to_nat didx := d]> (dicts kvs))) else Fault OutOfBounds.

Definition kvstoreDictIsRehashingPaused (kvs : kvstore) (didx : Z) : res bool :=
  d ← kvstoreGetDict kvs didx;
  Ok (match d with Some d => 0 <? pauserehash d | None => false end).

Definition kvstoreDictSize (kvs : kvstore) (didx : Z) : res Z :=
  d ← kvstoreGetDict kvs didx;
  Ok (match d with Some d => dictSize d | None => 0 end).

Definition kvstoreSize (kvs : kvstore) : res Z :=
  if negb (num_dicts kvs =? 1) then Ok (key_count kvs) else kvstoreDictSize kvs 0.

(** ** Cumulative key counts *)

Definition cumulativeKeyCountRead (kvs : kvstore) (didx : Z) : res Z :=
  if num_dicts kvs =? 1 then _ ← cassert (didx =? 0); kvstoreSize kvs
  else bit_read (S (S (Z.to_nat didx))) (dict_size_index kvs) (didx + 1) 0.

Definition addDictIndexToCursor (kvs : kvstore) (didx cursor : Z) : Z :=
  if num_dicts kvs =? 1 then cursor else
  if didx <? 0 then cursor else Z.lor (u64 (Z.shiftl cursor (num_dicts_bits kvs))) didx.

Definition getAndClearDictIndexFromCursor (kvs : kvstore) (cursor : Z) : Z * Z :=
  if num_dicts kvs =? 1 then (0, cursor)
  else (Z.land cursor (num_dicts kvs - 1), Z.shiftr cursor (num_dicts_bits kvs)).

Definition cumulativeKeyCountAdd (kvs : kvstore) (didx delta : Z) : res kvstore :=
  let key_count' := u64 (key_count kvs + delta) in
  d ← kvstoreGetDict kvs didx;
  d ← (match d with Some d => Ok d | None => Fault OutOfBounds end);
  let dsize := dictSize d in
  let non_empty_dicts_delta := if (dsize =? 1) && (0 <? delta) then 1 else if dsize =? 0 then -1 else 0 in
  let non_empty := non_empty_dicts kvs + non_empty_dicts_delta in
  if num_dicts kvs =? 1 then Ok (set_counts kvs (allocated_dicts kvs) non_empty key_count' (dict_size_index kvs))
  else
    t ← bit_add (S (Z.to_nat (num_dicts kvs - didx))) (num_dicts kvs) (dict_size_index kvs) (didx + 1) delta;
    Ok (set_counts kvs (allocated_dicts kvs) non_empty key_count' t).

Definition createDictIfNeeded (kvs : kvstore) (didx : Z) : res (kvstore * dict) :=
  d ← kvstoreGetDict kvs didx;
  match d with
  | Some d => Ok (kvs, d)
  | None =>
    kvs ← put_dict kvs didx (Some dictCreate);
    Ok (set_counts kvs (allocated_dicts kvs + 1) (non_empty_dicts kvs) (key_count kvs) (dict_size_index kvs), dictCreate)
  end.

Definition freeDictIfNeeded (kvs : kvstore) (didx : Z) : res kvstore :=
  if Z.land (flags kvs) KVSTORE_FREE_EMPTY_DICTS =? 0 then Ok kvs else
  d ← kvstoreGetDict kvs didx;
  match d with
  | None => Ok kvs
  | Some _ =>
    n ← kvstoreDictSize kvs didx;
    if negb (n =? 0) then Ok kvs else
    p ← kvstoreDictIsRehashingPaused kvs didx;
    if (p : bool) then Ok kvs else
    kvs ← put_dict kvs didx None;
    Ok (set_counts kvs (allocated_dicts kvs - 1) (non_empty_dicts kvs) (key_count kvs) (dict_size_index kvs))
  end.

(** ** Creation *)

(** [for (int i = 0; i < kvs->num_dicts; i++) createDictIfNeeded(kvs, i);] *)
Fixpoint create_all (n : nat) (kvs : kvstore) (i : Z) : res kvstore :=
  match n with
  | O => Ok kvs
  | S n => r ← createDictIfNeeded kvs i; create_all n (fst r) (i + 1)
  end.

Definition kvstoreCreate (bits fl : Z) : res kvstore :=
  _ ← cassert (bits <=? 16);
  let n := Z.shiftl 1 bits in
  let kvs := {| flags := fl; dicts := replicate (Z.to_nat n) None; num_dicts := n; num_dicts_bits := bits;
                resize_cursor := 0; allocated_dicts := 0; non_empty_dicts := 0; key_count := 0;
                dict_size_index := [] |} in
  kvs ← (if Z.land fl KVSTORE_ALLOCATE_DICTS_ON_DEMAND =? 0 then create_all (Z.to_nat n) kvs 0 else Ok kvs);
  Ok (set_counts kvs (allocated_dicts kvs) 0 0 (if 1 <? n then replicate (Z.to_nat (n + 1)) 0 else [])).

(** [kvstoreEmpty]: every dict is emptied, and freed if it is to be. *)
Fixpoint empty_all (n : nat) (kvs : kvstore) (didx : Z) : res kvstore :=
  match n with
  | O => Ok kvs
  | S n =>
    d ← kvstoreGetDict kvs didx;
    match d with
    | None => empty_all n kvs (didx + 1)
    | Some d =>
      kvs ← put_dict kvs didx (Some (dictEmpty d));
      kvs ← freeDictIfNeeded kvs didx;
      empty_all n kvs (didx + 1)
    end
  end.

Definition kvstoreEmpty (kvs : kvstore) : res kvstore :=
  kvs ← empty_all (Z.to_nat (num_dicts kvs)) kvs 0;
  let kvs := set_resize_cursor kvs 0 in
  Ok (set_counts kvs (allocated_dicts kvs) 0 0 ((fun _ => 0) <$> dict_size_index kvs)).

(** ** Finding dicts *)

Definition kvstoreFindDictIndexByKeyIndex (kvs : kvstore) (target : Z) : res Z :=
  if num_dicts kvs =? 1 then Ok 0 else
  sz ← kvstoreSize kvs;
  if sz =? 0 then Ok 0 else
  _ ← cassert (target <=? sz);
  bit_find 64 (dict_size_index kvs) (Z.shiftl 1 (num_dicts_bits kvs)) 0 target.

Definition kvstoreGetFirstNonEmptyDictIndex (kvs : kvstore) : res Z := kvstoreFindDictIndexByKeyIndex kvs 1.

(** [random] is the number [randomULong] returns. *)
Definition kvstoreGetFairRandomDictIndex (kvs : kvstore) (random : Z) : res Z :=
  sz ← kvstoreSize kvs;
  kvstoreFindDictIndexByKeyIndex kvs (if negb (sz =? 0) then random mod sz + 1 else 0).

Definition kvstoreGetNextNonEmptyDictIndex (kvs : kvstore) (didx : Z) : res Z :=
  if num_dicts kvs =? 1 then _ ← cassert (didx =? 0); Ok (-1) else
  n ← cumulativeKeyCountRead kvs didx;
  let next_key := u64 (n + 1) in
  sz ← kvstoreSize kvs;
  if next_key <=? sz then kvstoreFindDictIndexByKeyIndex kvs next_key else Ok (-1).

Definition kvstoreNumNonEmptyDicts (kvs : kvstore) : Z := non_empty_dicts kvs.
Definition kvstoreNumAllocatedDicts (kvs : kvstore) : Z := allocated_dicts kvs.
Definition kvstoreNumDicts (kvs : kvstore) : Z := num_dicts kvs.

(** ** Scanning *)

(** [kvstoreScan] without a skip callback: the state, the cursor and the
    reported entries.  [onlydidx] restricts the scan to one dict. *)
Definition kvstoreScan (kvs : kvstore) (cursor onlydidx : Z) : res (kvstore * Z * list dictEntry) :=
  let '(didx, cursor) := getAndClearDictIndexFromCursor kvs cursor in
  if (0 <=? onlydidx) && (onlydidx <? didx) then Ok (kvs, 0, []) else
  _ ← (if (0 <=? onlydidx) && (didx <? onlydidx) then cassert (onlydidx <? num_dicts kvs) else Ok tt);
  let '(didx, cursor) := if (0 <=? onlydidx) && (didx <? onlydidx) then (onlydidx, 0) else (didx, cursor) in
  d ← kvstoreGetDict kvs didx;
  r ← (match d with
       | None => Ok (kvs, 0, [])
       | Some d =>
         r ← dictScan d cursor;
         kvs ← freeDictIfNeeded kvs didx;
         Ok (kvs, fst r, snd r)
       end);
  let '(kvs, _cursor, out) := r in
  if _cursor =? 0 then
    if 0 <=? onlydidx then Ok (kvs, 0, out) else
    didx ← kvstoreGetNextNonEmptyDictIndex kvs didx;
    if didx =? -1 then Ok (kvs, 0, out) else Ok (kvs, addDictIndexToCursor kvs didx _cursor, out)
  else Ok (kvs, addDictIndexToCursor kvs didx _cursor, out).

(** ** Operations on one dict *)

Section operations.
Context (ty : @dictType K) (dict_can_resize : dictResizeEnable).

Definition kvstoreDictFind (kvs : kvstore) (didx : Z) (key : K) : res (kvstore * option dictEntry) :=
  d ← kvstoreGetDict kvs didx;
  match d with
  | None => Ok (kvs, None)
  | Some d =>
    r ← dictFind ty dict_can_resize d key;
    kvs ← put_dict kvs didx (Some (fst r));
    Ok (kvs, snd r)
  end.

Definition kvstoreDictFetchValue (kvs : kvstore) (didx : Z) (key : K) : res (kvstore * option V) :=
  d ← kvstoreGetDict kvs didx;
  match d with
  | None => Ok (kvs, None)
  | Some d =>
    r ← dictFetchValue ty dict_can_resize d key;
    kvs ← put_dict kvs didx (Some (fst r));
    Ok (kvs, snd r)
  end.

(** The new entry's position, or the existing entry. *)
Definition kvstoreDictAddRaw (kvs : kvstore) (didx : Z) (key : K)
  : res (kvstore * (bool * Z + bool * Z * dictEntry)) :=
  r ← createDictIfNeeded kvs didx;
  let '(kvs, d) := r in
  r ← dictAddRaw ty dict_can_resize d key;
  kvs ← put_dict kvs didx (Some (fst r));
  match snd r with
  | inl position => kvs ← cumulativeKeyCountAdd kvs didx 1; Ok (kvs, inl position)
  | inr existing => Ok (kvs, inr existing)
  end.

Definition kvstoreDictSetVal (kvs : kvstore) (didx : Z) (position : bool * Z) (key : K) (val : V) : res kvstore :=
  d ← kvstoreGetDict kvs didx;
  d ← (match d with Some d => Ok d | None => Fault OutOfBounds end);
  d ← dictSetVal ty d position key val;
  put_dict kvs didx (Some d).

Definition kvstoreDictDelete (kvs : kvstore) (didx : Z) (key : K) : res (kvstore * bool) :=
  d ← kvstoreGetDict kvs didx;
  match d with
  | None => Ok (kvs, false)
  | Some d =>
    r ← dictDelete ty dict_can_resize d key;
    kvs ← put_dict kvs didx (Some (fst r));
    if (snd r : bool) then
      kvs ← cumulativeKeyCountAdd kvs didx (-1);
      kvs ← freeDictIfNeeded kvs didx;
      Ok (kvs, true)
    else Ok (kvs, false)
  end.

Definition kvstoreDictTwoPhaseUnlinkFind (kvs : kvstore) (didx : Z) (key : K)
  : res (kvstore * option (bool * Z * dictEntry)) :=
  d ← kvstoreGetDict kvs didx;
  match d with
  | None => Ok (kvs, None)
  | Some d =>
    r ← dictTwoPhaseUnlinkFind ty dict_can_resize d key;
    kvs ← put_dict kvs didx (Some (fst r));
    Ok (kvs, snd r)
  end.

Definition kvstoreDictTwoPhaseUnlinkFree (kvs : kvstore) (didx : Z) (he : bool * Z * dictEntry) : res kvstore :=
  d ← kvstoreGetDict kvs didx;
  d ← (match d with Some d => Ok d | None => Fault OutOfBounds end);
  d ← dictTwoPhaseUnlinkFree ty dict_can_resize d (Some he);
  kvs ← put_dict kvs didx (Some d);
  kvs ← cumulativeKeyCountAdd kvs didx (-1);
  freeDictIfNeeded kvs didx.

(** [kvstoreExpand]: [skip_cb] tells the dicts to leave, [alloc_ok] whether the
    allocation of [dictTryExpand] for a dict succeeds; [false] is failure. *)
Fixpoint expand_all (n : nat) (kvs : kvstore) (newsize : Z) (try_expand : bool) (skip_cb alloc_ok : Z -> bool) (i : Z)
  : res (kvstore * bool) :=
  match n with
  | O => Ok (kvs, true)
  | S n =>
    d ← kvstoreGetDict kvs i;
    match d with
    | Some d =>
      if skip_cb i then expand_all n kvs newsize try_expand skip_cb alloc_ok (i + 1) else
      r ← (if try_expand then dictTryExpand d newsize (alloc_ok i) else dictExpand d newsize);
      kvs ← put_dict kvs i (Some (fst r));
      if try_expand && negb (snd r) then Ok (kvs, false)
      else expand_all n kvs newsize try_expand skip_cb alloc_ok (i + 1)
    | None => expand_all n kvs newsize try_expand skip_cb alloc_ok (i + 1)
    end
  end.

Definition kvstoreExpand (kvs : kvstore) (newsize : Z) (try_expand : bool) (skip_cb alloc_ok : Z -> bool)
  : res (kvstore * bool) :=
  expand_all (Z.to_nat (num_dicts kvs)) kvs newsize try_expand skip_cb alloc_ok 0.

(** [kvstoreTryResizeDicts] *)
Fixpoint resize_loop (n : nat) (kvs : kvstore) : res kvstore :=
  match n with
  | O => Ok kvs
  | S n =>
    let didx := resize_cursor kvs in
    d ← kvstoreGetDict kvs didx;
    kvs ← (match d with
           | None => Ok kvs
           | Some d =>
             r ← dictShrinkIfNeeded ty dict_can_resize d;
             let '(d, ok) := r in
             d ← (if (ok : bool) then Ok d else r ← dictExpandIfNeeded ty dict_can_resize d; Ok (fst r));
             put_dict kvs didx (Some d)
           end);
    resize_loop n (set_resize_cursor kvs ((didx + 1) mod num_dicts kvs))
  end.

Definition kvstoreTryResizeDicts (kvs : kvstore) (limit : Z) : res kvstore :=
  let limit := if num_dicts kvs <? limit then num_dicts kvs else limit in
  resize_loop (Z.to_nat limit) kvs.

End operations.

End kvstore.

End Kvstore.
