(* ===== verification/KvstoreTheory.v ===== *)
(** * Arrays of hash tables: the binary indexed tree and the invariant.

    [bit_ok] says what each node of the tree holds; reading, updating and
    searching the tree are described by prefix sums of the dict sizes.
    [kvs_ok] is the invariant of a kvstore, kept by every operation. *)

From stdpp Require Import gmap.
From S2P Require Import Prelude Dict DictTheory Kvstore.
#[local] Open Scope Z_scope.

Module KvstoreTheory.
Import Dict DictTheory Kvstore.

(** ** The lowest set bit *)

Lemma land_double a b : Z.land (2 * a) (2 * b) = 2 * Z.land a b.
Proof.
  apply Z.bits_inj'. intros i Hi. rewrite Z.land_spec.
  destruct (decide (i = 0)) as [->|]; [by rewrite !Z.testbit_even_0|].
  replace i with (Z.succ (i - 1)) by lia. rewrite !Z.testbit_even_succ, Z.land_spec by lia. done.
Qed.

Lemma lowbit_odd m : lowbit (2 * m + 1) = 1.
Proof.
  unfold lowbit. replace (- (2 * m + 1)) with (Z.lnot (2 * m)) by (unfold Z.lnot; lia).
  apply Z.bits_inj'. intros i Hi. rewrite Z.land_spec, Z.lnot_spec by lia.
  destruct (decide (i = 0)) as [->|]; [by rewrite Z.testbit_odd_0, Z.testbit_even_0|].
  replace i with (Z.succ (i - 1)) by lia. rewrite Z.testbit_odd_succ, Z.testbit_even_succ by lia.
  rewrite andb_negb_r. change 1 with (2 * 0 + 1). rewrite Z.testbit_odd_succ by lia. by rewrite Z.bits_0.
Qed.

Lemma lowbit_double x : lowbit (2 * x) = 2 * lowbit x.
Proof. unfold lowbit. replace (- (2 * x)) with (2 * - x) by lia. apply land_double. Qed.

Lemma lowbit_pow k m : 0 <= k -> lowbit (2 ^ k * (2 * m + 1)) = 2 ^ k.
Proof.
  intros Hk. revert k Hk. apply natlike_ind; [rewrite Z.mul_1_l; apply lowbit_odd|].
  intros k Hk IH. rewrite Z.pow_succ_r, <- Z.mul_assoc, lowbit_double, IH by done. done.
Qed.

(** Every positive number is a power of two times an odd number. *)
Lemma lowbit_decomp x : 0 < x -> exists k m, 0 <= k /\ 0 <= m /\ x = 2 ^ k * (2 * m + 1) /\ lowbit x = 2 ^ k.
Proof.
  intros Hx. assert (Hd : exists k m, 0 <= k /\ 0 <= m /\ x = 2 ^ k * (2 * m + 1)).
  { revert Hx. pattern x. apply (well_founded_induction (Z.lt_wf 0)). clear x. intros x IH Hx.
    destruct (Z.Even_or_Odd x) as [[y Hy]|[y Hy]].
    - destruct (IH y) as (k & m & Hk & Hm & Heq); [lia|lia|]. exists (k + 1), m.
      rewrite Z.pow_add_r by lia. lia.
    - exists 0, y. lia. }
  destruct Hd as (k & m & Hk & Hm & ->). exists k, m. by rewrite lowbit_pow.
Qed.

Lemma lowbit_bounds x : 0 < x -> 1 <= lowbit x <= x.
Proof.
  intros Hx. destruct (lowbit_decomp x Hx) as (k & m & Hk & Hm & Heq & ->).
  pose proof (Z.pow_pos_nonneg 2 k). nia.
Qed.

(** Nodes between a node and its successor cover later positions only. *)
Lemma lowbit_between x i : 0 < x -> x < i < x + lowbit x -> x <= i - lowbit i.
Proof.
  intros Hx Hi. destruct (lowbit_decomp x Hx) as (k & m & Hk & Hm & Heq & Hlow). rewrite Hlow in Hi.
  destruct (lowbit_decomp (i - x) ltac:(lia)) as (l & n & Hl & Hn & Heqi & _).
  pose proof (Z.pow_pos_nonneg 2 l ltac:(lia) Hl) as Hlpos.
  assert (Hlk : l < k) by (apply (Z.pow_lt_mono_r_iff 2); nia).
  assert (Hi2 : i = 2 ^ l * (2 * (n + 2 ^ (k - l - 1) * (2 * m + 1)) + 1)).
  { replace i with (x + (i - x)) by lia. rewrite Heqi, Heq.
    assert (Hpow : 2 ^ k = 2 ^ l * (2 * 2 ^ (k - l - 1))).
    { rewrite <- Z.pow_succ_r, <- Z.pow_add_r by lia. f_equal. lia. }
    rewrite Hpow. ring. }
  rewrite Hi2 at 2. rewrite lowbit_pow by done. nia.
Qed.

(** The successor of a node covers what the node covers. *)
Lemma lowbit_next x : 0 < x -> (x + lowbit x) - lowbit (x + lowbit x) <= x - lowbit x.
Proof.
  intros Hx. destruct (lowbit_decomp x Hx) as (k & m & Hk & Hm & Heq & Hlow). rewrite Hlow.
  pose proof (Z.pow_pos_nonneg 2 k ltac:(lia) Hk).
  replace (x + 2 ^ k) with (2 ^ k * (2 * (m + 1))) by (rewrite Heq; ring).
  destruct (lowbit_decomp (m + 1) ltac:(lia)) as (l & n & Hl & Hn & Heqm & _). rewrite Heqm at 2.
  replace (2 ^ k * (2 * (2 ^ l * (2 * n + 1)))) with (2 ^ (k + 1 + l) * (2 * n + 1))
    by (rewrite Z.pow_add_r, (Z.pow_add_r 2 k 1), Z.pow_1_r by lia; ring).
  rewrite lowbit_pow by lia. rewrite Z.pow_add_r, (Z.pow_add_r 2 k 1), Z.pow_1_r by lia. pose proof (Z.pow_pos_nonneg 2 l ltac:(lia) Hl). nia.
Qed.

(** A node with a given power below it. *)
Lemma lowbit_add r k : 0 <= k -> 0 <= r -> (2 ^ (k + 1) | r) -> lowbit (r + 2 ^ k) = 2 ^ k.
Proof.
  intros Hk Hr [q Hq]. replace (r + 2 ^ k) with (2 ^ k * (2 * q + 1)); [by apply lowbit_pow|].
  rewrite Hq, Z.pow_add_r, Z.pow_1_r by lia. ring.
Qed.

(** ** Prefix sums *)

Fixpoint zsum (f : list Z) : Z := match f with [] => 0 | x :: f => x + zsum f end.
Definition psum (f : list Z) (n : Z) : Z := zsum (take (Z.to_nat n) f).

Lemma zsum_app f g : zsum (f ++ g) = zsum f + zsum g.
Proof. induction f as [|x f IH]; cbn; [done|]. rewrite IH. lia. Qed.

Definition nonneg (f : list Z) : Prop := Forall (fun x => 0 <= x) f.

Lemma zsum_nonneg f : nonneg f -> 0 <= zsum f.
Proof. induction 1; cbn; [done|lia]. Qed.

Lemma psum_0 f : psum f 0 = 0.
Proof. done. Qed.

Lemma psum_all f n : zlen f <= n -> psum f n = zsum f.
Proof. intros Hn. unfold psum. rewrite take_ge; [done|]. unfold zlen in Hn. lia. Qed.

Lemma psum_mono f a b : nonneg f -> 0 <= a <= b -> psum f a <= psum f b.
Proof.
  intros Hf Hab. unfold psum. replace (take (Z.to_nat a) f) with (take (Z.to_nat a) (take (Z.to_nat b) f))
    by (rewrite take_take; f_equal; lia).
  rewrite <- (take_drop (Z.to_nat a) (take (Z.to_nat b) f)) at 2. rewrite zsum_app.
  assert (0 <= zsum (drop (Z.to_nat a) (take (Z.to_nat b) f))); [|lia].
  by apply zsum_nonneg, Forall_drop, Forall_take.
Qed.

Lemma psum_nonneg f n : nonneg f -> 0 <= psum f n.
Proof. intros Hf. by apply zsum_nonneg, Forall_take. Qed.

Lemma psum_le f n : nonneg f -> psum f n <= zsum f.
Proof.
  intros Hf. unfold psum. rewrite <- (take_drop (Z.to_nat n) f) at 2. rewrite zsum_app.
  assert (0 <= zsum (drop (Z.to_nat n) f)) by by apply zsum_nonneg, Forall_drop. lia.
Qed.

Lemma psum_succ f j x : f !! Z.to_nat j = Some x -> 0 <= j -> psum f (j + 1) = psum f j + x.
Proof.
  intros Hx Hj. unfold psum. replace (Z.to_nat (j + 1)) with (S (Z.to_nat j)) by lia.
  rewrite (take_S_r _ _ _ Hx), zsum_app. cbn. lia.
Qed.

Lemma psum_insert f j x n :
  (j < length f)%nat -> psum (<[j := x]> f) n = psum f n + (if Z.of_nat j <? n then x - (nth j f 0) else 0).
Proof.
  intros Hj. unfold psum. destruct (Z.ltb_spec (Z.of_nat j) n).
  - destruct (lookup_lt_is_Some_2 f j Hj) as [y Hy]. rewrite (nth_lookup_Some _ _ _ _ Hy).
    assert (Ht : take (Z.to_nat n) f !! j = Some y) by (rewrite lookup_take_lt by lia; done).
    rewrite take_insert_lt by lia. rewrite <- (take_drop_middle _ _ _ Ht) at 2.
    rewrite insert_take_drop by (by eapply lookup_lt_Some). rewrite !zsum_app. cbn. lia.
  - rewrite take_insert_ge by lia. lia.
Qed.

(** ** The tree *)

(** Node [i] holds the sum of the [lowbit i] sizes before position [i]. *)
Definition bit_ok (N : Z) (f : list Z) (t : list Z) : Prop :=
  zlen t = N + 1 /\ forall i, 1 <= i <= N -> t !! Z.to_nat i = Some (psum f i - psum f (i - lowbit i)).

Lemma index_get_ok N f t i :
  bit_ok N f t -> 1 <= i <= N -> index_get t i = Ok (psum f i - psum f (i - lowbit i)).
Proof. intros [_ Ht] Hi. unfold index_get. by rewrite (proj2 (Z.leb_le 0 i)), Ht by lia. Qed.

Lemma bit_read_spec N f t fuel : forall idx sum,
  bit_ok N f t -> nonneg f -> zsum f < 2 ^ 64 -> 0 <= idx <= N -> (Z.to_nat idx < fuel)%nat ->
  0 <= sum -> sum + psum f idx <= zsum f -> bit_read fuel t idx sum = Ok (sum + psum f idx).
Proof.
  induction fuel as [|fuel IH]; intros idx sum Ht Hf Hmax Hi Hfuel Hs Hsum; [lia|]. cbn [bit_read].
  destruct (Z.ltb_spec 0 idx).
  - pose proof (lowbit_bounds idx ltac:(lia)). rewrite (index_get_ok N f t) by (done || lia). cbn [mbind res_bind].
    pose proof (psum_mono f (idx - lowbit idx) idx Hf ltac:(lia)). pose proof (psum_nonneg f (idx - lowbit idx) Hf).
    rewrite wrapu_small by lia. rewrite IH; try done; try lia. f_equal. lia.
  - assert (idx = 0) as -> by lia. rewrite psum_0. f_equal. lia.
Qed.

(** What a node holds. *)
Definition node (f : list Z) (i : Z) : Z := psum f i - psum f (i - lowbit i).

Lemma node_bounds f i : nonneg f -> 1 <= i -> 0 <= node f i <= zsum f.
Proof.
  intros Hf Hi. unfold node. pose proof (lowbit_bounds i ltac:(lia)).
  pose proof (psum_mono f (i - lowbit i) i Hf ltac:(lia)). pose proof (psum_nonneg f (i - lowbit i) Hf).
  pose proof (psum_le f i Hf). lia.
Qed.

(** Changing the size at [p] changes the nodes that cover it. *)
Lemma node_change f (p : Z) x i :
  0 <= p < zlen f -> 1 <= i ->
  node (<[Z.to_nat p := x]> f) i =
  node f i + (if (i - lowbit i <=? p) && (p <? i) then x - nth (Z.to_nat p) f 0 else 0).
Proof.
  intros Hp Hi. unfold node. pose proof (lowbit_bounds i ltac:(lia)). rewrite !psum_insert by (unfold zlen in Hp; lia).
  rewrite Z2Nat.id by lia. destruct (Z.ltb_spec p i), (Z.ltb_spec p (i - lowbit i)), (Z.leb_spec (i - lowbit i) p);
    cbn [andb]; lia.
Qed.

(** The tree while the update is at [idx]: new nodes below, old ones above. *)
Definition bit_mid (N : Z) (f f' : list Z) (idx : Z) (t : list Z) : Prop :=
  zlen t = N + 1 /\ forall i, 1 <= i <= N -> t !! Z.to_nat i = Some (if i <? idx then node f' i else node f i).

Lemma bit_add_spec N f p x fuel : forall idx t,
  let f' := <[Z.to_nat p := x]> f in let delta := x - nth (Z.to_nat p) f 0 in
  0 <= p < N -> zlen f = N -> nonneg f -> nonneg f' -> zsum f < 2 ^ 64 -> zsum f' < 2 ^ 64 -> Z.abs delta < 2 ^ 64 ->
  bit_mid N f f' idx t -> idx - lowbit idx <= p < idx -> N + 2 - idx <= Z.of_nat fuel -> fuel <> O ->
  exists t', bit_add fuel N t idx delta = Ok t' /\ bit_ok N f' t'.
Proof.
  induction fuel as [|fuel IH]; intros idx t f' delta Hp HN Hf Hf' Hs Hs' Hd Hmid Hcov Hfuel Hne; [done|].
  cbn [bit_add]. destruct Hmid as [Hlen Hmid]. destruct (Z.leb_spec idx N) as [Hle|Hgt].
  2: { exists t. split; [done|]. split; [done|]. intros i Hi. rewrite (Hmid i Hi), (proj2 (Z.ltb_lt i idx)) by lia. done. }
  pose proof (lowbit_bounds idx ltac:(lia)) as Hlb. unfold index_get.
  rewrite (proj2 (Z.leb_le 0 idx)), (Hmid idx), (proj2 (Z.ltb_ge idx idx)) by lia. cbn [mbind res_bind].
  assert (Hnode : node f' idx = node f idx + delta).
  { unfold f'. rewrite node_change by lia. rewrite (proj2 (Z.leb_le _ _)), (proj2 (Z.ltb_lt _ _)) by lia. done. }
  pose proof (node_bounds f' idx Hf' ltac:(lia)) as Hb'. pose proof (node_bounds f idx Hf ltac:(lia)) as Hb.
  rewrite (wrapu_small 64 (Z.abs delta)) by lia.
  assert (Hass : (if delta <? 0 then cassert (Z.abs delta <=? node f idx) else Ok tt) = Ok tt).
  { destruct (Z.ltb_spec delta 0); [|done]. apply cassert_ok, Z.leb_le. lia. }
  rewrite Hass. cbn [mbind res_bind]. rewrite <- Hnode, wrapu_small by lia. unfold index_set.
  rewrite (proj2 (Z.leb_le 0 idx)), (proj2 (Z.ltb_lt idx _)) by lia. cbn [andb mbind res_bind].
  pose proof (lowbit_next idx ltac:(lia)). apply IH; try done; try lia. split; [by rewrite zlen_insert|].
  intros i Hi. destruct (decide (i = idx)) as [->|Hni].
  - rewrite list_lookup_insert_eq by (unfold zlen in Hlen; lia). by rewrite (proj2 (Z.ltb_lt idx _)) by lia.
  - rewrite list_lookup_insert_ne by lia. rewrite (Hmid i Hi). f_equal.
    destruct (Z.ltb_spec i idx), (Z.ltb_spec i (idx + lowbit idx)); [done|lia| |done].
    pose proof (lowbit_between idx i ltac:(lia) ltac:(lia)). unfold f'. rewrite node_change by lia.
    rewrite (proj2 (Z.leb_gt (i - lowbit i) p)) by lia. cbn [andb]. lia.
Qed.

(** The whole update. *)
Lemma bit_add_ok N f t p x :
  let f' := <[Z.to_nat p := x]> f in let delta := x - nth (Z.to_nat p) f 0 in
  0 <= p < N -> zlen f = N -> nonneg f -> nonneg f' -> zsum f < 2 ^ 64 -> zsum f' < 2 ^ 64 -> Z.abs delta < 2 ^ 64 ->
  bit_ok N f t -> exists t', bit_add (S (Z.to_nat (N - p))) N t (p + 1) delta = Ok t' /\ bit_ok N f' t'.
Proof.
  intros f' delta Hp HN Hf Hf' Hs Hs' Hd [Hlen Ht]. pose proof (lowbit_bounds (p + 1) ltac:(lia)).
  apply bit_add_spec; try done; try lia. split; [done|]. intros i Hi. rewrite (Ht i Hi). f_equal. fold (node f i).
  destruct (Z.ltb_spec i (p + 1)); [|done]. unfold f'. rewrite node_change by lia.
  rewrite (proj2 (Z.ltb_ge p i)) by lia. rewrite andb_false_r. lia.
Qed.

(** Searching: the position that contains the [target]-th key. *)
Lemma bit_find_spec N f t (fuel : nat) : forall k result target,
  bit_ok N f t -> nonneg f -> zsum f < 2 ^ 64 -> 0 <= k -> 0 <= result -> (2 ^ (k + 1) | result) ->
  result + 2 ^ (k + 1) <= N -> 0 < target -> psum f result + target <= psum f (result + 2 ^ (k + 1)) ->
  k + 2 <= Z.of_nat fuel ->
  exists r, bit_find fuel t (2 ^ k) result target = Ok r /\ 0 <= r < N /\
    psum f r < psum f result + target <= psum f (r + 1).
Proof.
  induction fuel as [|fuel IH]; intros k result target Ht Hf Hs Hk Hr Hdiv HN Htgt Hle Hfuel; [lia|].
  pose proof (Z.pow_pos_nonneg 2 k ltac:(lia) Hk) as Hpow.
  assert (Hpow1 : 2 ^ (k + 1) = 2 * 2 ^ k) by (rewrite Z.pow_add_r by lia; lia).
  cbn [bit_find]. rewrite (proj2 (Z.eqb_neq (2 ^ k) 0)) by lia.
  rewrite (index_get_ok N f t) by (done || lia). rewrite (lowbit_add result k) by done. cbn [mbind res_bind].
  replace (result + 2 ^ k - 2 ^ k) with result by lia.
  pose proof (psum_mono f result (result + 2 ^ k) Hf ltac:(lia)). pose proof (psum_nonneg f result Hf).
  pose proof (psum_le f (result + 2 ^ (k + 1)) Hf). rewrite Z.shiftr_div_pow2 by lia. change (2 ^ 1) with 2.
  assert (Hdone : forall r, psum f r < psum f result + target <= psum f (r + 1) -> 0 <= r < N -> k = 0 ->
    exists r', bit_find fuel t 0 r (target - (psum f r - psum f result)) = Ok r' /\ 0 <= r' < N /\
      psum f r' < psum f result + target <= psum f (r' + 1)).
  { intros r Hb Hrn ->. exists r. destruct fuel; [lia|]. done. }
  destruct (decide (k = 0)) as [->|Hk0].
  - change (2 ^ 0 / 2) with 0. change (2 ^ 0) with 1 in *. change (2 ^ (0 + 1)) with 2 in *.
    destruct (Z.ltb_spec (psum f (result + 1) - psum f result) target).
    + rewrite wrapu_small by lia. apply (Hdone (result + 1)); try lia. replace (result + 1 + 1) with (result + 2) by lia. lia.
    + destruct (Hdone result) as (r & E & Hb); [lia|lia|done|]. exists r.
      replace (target - (psum f result - psum f result)) with target in E by lia. done.
  - assert (Hhalf : 2 ^ k / 2 = 2 ^ (k - 1)).
    { replace (2 ^ k) with (2 ^ (k - 1) * 2); [by apply Z.div_mul|]. rewrite Z.mul_comm, <- Z.pow_succ_r by lia. f_equal. lia. }
    rewrite Hhalf. destruct (Z.ltb_spec (psum f (result + 2 ^ k) - psum f result) target).
    + rewrite wrapu_small by lia.
      destruct (IH (k - 1) (result + 2 ^ k) (target - (psum f (result + 2 ^ k) - psum f result))) as (r & E & Hb);
        try done; try lia; replace (k - 1 + 1) with k by lia; try lia.
      * apply Z.divide_add_r; [|done]. rewrite Hpow1 in Hdiv. destruct Hdiv as [q ->]. exists (q * 2). lia.
      * replace (result + 2 ^ k + 2 ^ k) with (result + 2 ^ (k + 1)) by lia. lia.
      * exists r. split; [done|]. lia.
    + destruct (IH (k - 1) result target) as (r & E & Hb); try done; try lia; replace (k - 1 + 1) with k by lia; try lia.
      * rewrite Hpow1 in Hdiv. destruct Hdiv as [q ->]. exists (q * 2). lia.
      * by exists r.
Qed.

Lemma zsum_insert f j x y : f !! j = Some y -> zsum (<[j := x]> f) = zsum f + x - y.
Proof.
  intros Hy. rewrite <- (take_drop_middle f j y Hy) at 2. rewrite insert_take_drop by (by eapply lookup_lt_Some).
  rewrite !zsum_app. cbn. lia.
Qed.

(** ** The invariant *)

Section theory.
Context {K V : Type} (ty : @dictType K) {Hty : DictTypeOk ty} (dict_can_resize : dictResizeEnable).
#[local] Abbreviation dict := (@dict K V).
#[local] Abbreviation kvstore := (@kvstore K V).

Definition size_of (d : option dict) : Z := match d with Some d => dictSize d | None => 0 end.
Definition sizes (kvs : kvstore) : list Z := size_of <$> dicts kvs.
Definition one_if_some (d : option dict) : Z := match d with Some _ => 1 | None => 0 end.
Definition one_if_full (d : option dict) : Z := if size_of d =? 0 then 0 else 1.

(** A dict of the array: in order and nothing paused. *)
Definition sub_ok (d : dict) : Prop := dict_ok ty d /\ pauserehash d = 0 /\ pauseAutoResize d = 0.

Definition slot_ok (d : option dict) : Prop := match d with Some d => sub_ok d | None => True end.

Record kvs_ok (kvs : kvstore) : Prop := {
  kvs_bits : 0 <= num_dicts_bits kvs <= 16;
  kvs_num : num_dicts kvs = 2 ^ num_dicts_bits kvs;
  kvs_len : zlen (dicts kvs) = num_dicts kvs;
  kvs_dicts : Forall slot_ok (dicts kvs);
  kvs_room : zsum (sizes kvs) <= max_entries;
  kvs_keys : key_count kvs = zsum (sizes kvs);
  kvs_allocated : allocated_dicts kvs = zsum (one_if_some <$> dicts kvs);
  kvs_non_empty : non_empty_dicts kvs = zsum (one_if_full <$> dicts kvs);
  kvs_cursor : 0 <= resize_cursor kvs < num_dicts kvs;
  kvs_tree : num_dicts kvs <> 1 -> bit_ok (num_dicts kvs) (sizes kvs) (dict_size_index kvs)
}.

Lemma size_of_nonneg d : slot_ok d -> 0 <= size_of d.
Proof.
  destruct d as [d|]; cbn; [|done]. intros (Hok & _). rewrite (dictSize_spec ty) by done. apply zlen_nonneg.
Qed.

Lemma sizes_nonneg kvs : kvs_ok kvs -> nonneg (sizes kvs).
Proof.
  intros Hk. apply Forall_fmap. eapply Forall_impl; [|apply (kvs_dicts _ Hk)]. intros d Hd. by apply size_of_nonneg.
Qed.

Lemma zlen_sizes (kvs : kvstore) : zlen (sizes kvs) = zlen (dicts kvs).
Proof. apply zlen_fmap. Qed.

Lemma get_dict_spec kvs didx :
  kvs_ok kvs -> 0 <= didx < num_dicts kvs ->
  exists d, kvstoreGetDict kvs didx = Ok d /\ dicts kvs !! Z.to_nat didx = Some d /\ slot_ok d.
Proof.
  intros Hk Hi. unfold kvstoreGetDict. rewrite (proj2 (Z.leb_le 0 didx)) by lia.
  destruct (lookup_lt_is_Some_2 (dicts kvs) (Z.to_nat didx)) as [d Hd].
  { pose proof (kvs_len _ Hk) as Hl. unfold zlen in Hl. lia. }
  exists d. rewrite Hd. split; [done|]. split; [done|]. pose proof (kvs_dicts _ Hk) as Hall.
  rewrite list.Forall_forall in Hall. apply Hall. by eapply list_elem_of_lookup_2.
Qed.

Lemma put_dict_spec (kvs : kvstore) didx d :
  0 <= didx < zlen (dicts kvs) -> put_dict kvs didx d = Ok (set_dicts kvs (<[Z.to_nat didx := d]> (dicts kvs))).
Proof. intros Hi. unfold put_dict. by rewrite (proj2 (Z.leb_le 0 didx)), (proj2 (Z.ltb_lt didx _)) by lia. Qed.

Lemma sizes_lookup (kvs : kvstore) j d : dicts kvs !! j = Some d -> sizes kvs !! j = Some (size_of d).
Proof. intros Hd. unfold sizes. by rewrite list_lookup_fmap, Hd. Qed.

(** The new state after replacing a dict, for given counts. *)
Lemma kvs_ok_put kvs didx d d' allocated non_empty keys t :
  kvs_ok kvs -> 0 <= didx < num_dicts kvs -> dicts kvs !! Z.to_nat didx = Some d -> slot_ok d' ->
  zsum (sizes kvs) + size_of d' - size_of d <= max_entries ->
  allocated = allocated_dicts kvs + one_if_some d' - one_if_some d ->
  non_empty = non_empty_dicts kvs + one_if_full d' - one_if_full d ->
  keys = key_count kvs + size_of d' - size_of d ->
  (num_dicts kvs <> 1 -> bit_ok (num_dicts kvs) (<[Z.to_nat didx := size_of d']> (sizes kvs)) t) ->
  kvs_ok (set_counts (set_dicts kvs (<[Z.to_nat didx := d']> (dicts kvs))) allocated non_empty keys t).
Proof.
  intros Hk Hi Hd Hd' Hroom Ha Hn Hkeys Ht. pose proof (sizes_lookup _ _ _ Hd) as Hs.
  assert (Hsz : size_of <$> <[Z.to_nat didx := d']> (dicts kvs) = <[Z.to_nat didx := size_of d']> (sizes kvs)).
  { unfold sizes. by rewrite list_fmap_insert. }
  split; cbn; unfold sizes in *; cbn [dicts set_dicts]; try apply Hk.
  - rewrite zlen_insert. apply Hk.
  - apply Forall_insert; [apply Hk|done].
  - rewrite Hsz, (zsum_insert _ _ _ _ Hs). lia.
  - rewrite Hsz, (zsum_insert _ _ _ _ Hs), Hkeys, (kvs_keys _ Hk). done.
  - rewrite list_fmap_insert, (zsum_insert _ _ _ (one_if_some d)), Ha, (kvs_allocated _ Hk); [done|].
    by rewrite list_lookup_fmap, Hd.
  - rewrite list_fmap_insert, (zsum_insert _ _ _ (one_if_full d)), Hn, (kvs_non_empty _ Hk); [done|].
    by rewrite list_lookup_fmap, Hd.
  - intros Hne. rewrite Hsz. by apply Ht.
Qed.

(** What every operation leaves alone. *)
Definition same_frame (kvs kvs' : kvstore) : Prop :=
  num_dicts kvs' = num_dicts kvs /\ num_dicts_bits kvs' = num_dicts_bits kvs /\ flags kvs' = flags kvs.

(** Replacing a dict by one of the same size. *)
Lemma kvs_ok_same kvs didx d d' :
  kvs_ok kvs -> 0 <= didx < num_dicts kvs -> dicts kvs !! Z.to_nat didx = Some (Some d) -> sub_ok d' ->
  dictSize d' = dictSize d -> exists kvs', put_dict kvs didx (Some d') = Ok kvs' /\ kvs_ok kvs' /\
  dicts kvs' = <[Z.to_nat didx := Some d']> (dicts kvs) /\ same_frame kvs kvs'.
Proof.
  intros Hk Hi Hd Hd' Hsz. rewrite put_dict_spec by (rewrite (kvs_len _ Hk); done). eexists. split; [done|].
  split; [|done]. pose proof (sizes_lookup _ _ _ Hd) as Hs.
  assert (Hold : kvs_ok (set_counts (set_dicts kvs (<[Z.to_nat didx := Some d']> (dicts kvs)))
    (allocated_dicts kvs) (non_empty_dicts kvs) (key_count kvs) (dict_size_index kvs))).
  { apply (kvs_ok_put kvs didx (Some d)); try done; unfold one_if_full; cbn; rewrite ?Hsz; try lia.
    - pose proof (kvs_room _ Hk). lia.
    - intros Hne. rewrite list_insert_id by done. by apply Hk. }
  by destruct kvs.
Qed.

Lemma non_empty_delta n n' delta :
  0 <= n -> 0 <= n' -> n' = n + delta -> delta = 1 \/ delta = -1 ->
  (if (n' =? 1) && (0 <? delta) then 1 else if n' =? 0 then -1 else 0) =
  (if n' =? 0 then 0 else 1) - (if n =? 0 then 0 else 1).
Proof.
  intros Hn Hn' Heq Hd. destruct (Z.eqb_spec n' 1), (Z.ltb_spec 0 delta), (Z.eqb_spec n' 0), (Z.eqb_spec n 0);
    cbn [andb]; lia.
Qed.

(** One key more or less in a dict. *)
Lemma count_add_spec kvs didx d d' delta :
  kvs_ok kvs -> 0 <= didx < num_dicts kvs -> dicts kvs !! Z.to_nat didx = Some (Some d) -> sub_ok d' ->
  dictSize d' = dictSize d + delta -> delta = 1 \/ delta = -1 -> zsum (sizes kvs) + delta <= max_entries ->
  exists kvs1 kvs', put_dict kvs didx (Some d') = Ok kvs1 /\ cumulativeKeyCountAdd kvs1 didx delta = Ok kvs' /\
    kvs_ok kvs' /\ dicts kvs' = <[Z.to_nat didx := Some d']> (dicts kvs) /\ same_frame kvs kvs'.
Proof.
  intros Hk Hi Hd Hd' Hsz Hdelta Hroom. pose proof (kvs_len _ Hk) as Hlen.
  rewrite put_dict_spec by (rewrite Hlen; done).
  exists (set_dicts kvs (<[Z.to_nat didx := Some d']> (dicts kvs))). unfold cumulativeKeyCountAdd, kvstoreGetDict.
  cbn [set_dicts dicts num_dicts key_count non_empty_dicts dict_size_index allocated_dicts].
  rewrite (proj2 (Z.leb_le 0 didx)), list_lookup_insert_eq by (unfold zlen in Hlen; lia). cbn [mbind res_bind].
  pose proof (sizes_lookup _ _ _ Hd) as Hs. cbn in Hs. pose proof (sizes_nonneg _ Hk) as Hnn.
  pose proof (size_of_nonneg (Some d') Hd') as Hn'. cbn in Hn'.
  assert (Hn : 0 <= dictSize d).
  { unfold nonneg in Hnn. rewrite list.Forall_forall in Hnn. apply Hnn. by eapply list_elem_of_lookup_2. }
  assert (Hsum' : zsum (<[Z.to_nat didx := dictSize d']> (sizes kvs)) = zsum (sizes kvs) + delta)
    by (rewrite (zsum_insert _ _ _ _ Hs); lia).
  assert (Hnn' : nonneg (<[Z.to_nat didx := dictSize d']> (sizes kvs))) by by apply Forall_insert.
  pose proof (zsum_nonneg _ Hnn). pose proof (zsum_nonneg _ Hnn') as Hpos'. pose proof (kvs_room _ Hk).
  unfold max_entries in *.
  rewrite wrapu_small by (rewrite (kvs_keys _ Hk); lia).
  rewrite (non_empty_delta (dictSize d) (dictSize d') delta) by lia.
  assert (Hput : forall t, (num_dicts kvs <> 1 -> bit_ok (num_dicts kvs) (<[Z.to_nat didx := dictSize d']> (sizes kvs)) t) ->
    kvs_ok (set_counts (set_dicts kvs (<[Z.to_nat didx := Some d']> (dicts kvs))) (allocated_dicts kvs)
      (non_empty_dicts kvs + ((if dictSize d' =? 0 then 0 else 1) - (if dictSize d =? 0 then 0 else 1)))
      (key_count kvs + delta) t)).
  { intros t Ht. apply (kvs_ok_put kvs didx (Some d)); try done; unfold one_if_full, max_entries; cbn; lia. }
  destruct (Z.eqb_spec (num_dicts kvs) 1) as [H1|H1].
  - eexists. split; [done|]. split; [done|]. split; [by apply Hput|done].
  - pose proof (bit_add_ok (num_dicts kvs) (sizes kvs) (dict_size_index kvs) didx (dictSize d')) as Hadd. cbv zeta in Hadd.
    rewrite (nth_lookup_Some _ _ _ _ Hs) in Hadd. replace (dictSize d' - dictSize d) with delta in Hadd by lia.
    destruct Hadd as (t' & E & Ht'); try done; try lia; [by rewrite zlen_sizes|by apply Hk|].
    rewrite E. cbn [mbind res_bind]. eexists. split; [done|]. split; [done|]. split; [by apply Hput|done].
Qed.

Lemma create_dict_spec kvs didx :
  kvs_ok kvs -> 0 <= didx < num_dicts kvs ->
  exists kvs' d, createDictIfNeeded kvs didx = Ok (kvs', d) /\ kvs_ok kvs' /\ same_frame kvs kvs' /\ sub_ok d /\
    dicts kvs' !! Z.to_nat didx = Some (Some d) /\ sizes kvs' = sizes kvs /\
    (dicts kvs' = dicts kvs \/ dicts kvs !! Z.to_nat didx = Some None /\ d = dictCreate /\
                               dicts kvs' = <[Z.to_nat didx := Some d]> (dicts kvs)).
Proof.
  intros Hk Hi. unfold createDictIfNeeded. destruct (get_dict_spec kvs didx Hk Hi) as (d & -> & Hd & Hok). cbn [mbind res_bind].
  destruct d as [d|]; [exists kvs, d; split_and!; try done; by left|].
  pose proof (kvs_len _ Hk) as Hlen. rewrite put_dict_spec by (rewrite Hlen; done). cbn [mbind res_bind].
  pose proof (sizes_lookup _ _ _ Hd) as Hs. cbn in Hs.
  assert (Hsub : sub_ok dictCreate).
  { split; [|done]. split; [constructor|]. split; [by cbn|]. left. split; [done|]. split; [done|by left]. }
  eexists _, _. split; [done|]. split.
  { assert (Hz : dictSize (@dictCreate K V) = 0) by done.
    apply (kvs_ok_put kvs didx None); try done; unfold one_if_full; cbn; rewrite ?Hz; cbn; try lia.
    - pose proof (kvs_room _ Hk). lia.
    - intros Hne. rewrite list_insert_id by done. by apply Hk. }
  split; [done|]. split; [done|]. split; [cbn; apply list_lookup_insert_eq; by eapply lookup_lt_Some|].
  split; [|right; done]. unfold sizes. cbn. rewrite list_fmap_insert. by apply list_insert_id.
Qed.

Lemma free_dict_spec kvs didx :
  kvs_ok kvs -> 0 <= didx < num_dicts kvs ->
  exists kvs', freeDictIfNeeded kvs didx = Ok kvs' /\ kvs_ok kvs' /\ same_frame kvs kvs' /\ sizes kvs' = sizes kvs /\
    (dicts kvs' = dicts kvs \/ exists d, dicts kvs !! Z.to_nat didx = Some (Some d) /\ dictSize d = 0 /\
                               dicts kvs' = <[Z.to_nat didx := None]> (dicts kvs)).
Proof.
  intros Hk Hi. unfold freeDictIfNeeded.
  assert (Hsame : exists kvs', Ok kvs = Ok kvs' /\ kvs_ok kvs' /\ same_frame kvs kvs' /\ sizes kvs' = sizes kvs /\
    (dicts kvs' = dicts kvs \/ exists d, dicts kvs !! Z.to_nat didx = Some (Some d) /\ dictSize d = 0 /\
                               dicts kvs' = <[Z.to_nat didx := None]> (dicts kvs))).
  { exists kvs. split_and!; try done. by left. }
  destruct (_ =? 0); [done|]. unfold kvstoreDictSize, kvstoreDictIsRehashingPaused.
  destruct (get_dict_spec kvs didx Hk Hi) as (d & -> & Hd & Hok). cbn [mbind res_bind].
  destruct d as [d|]; [|done]. destruct (Z.eqb_spec (dictSize d) 0) as [Hz|]; cbn [negb]; [|done].
  destruct (0 <? pauserehash d); [done|]. pose proof (kvs_len _ Hk) as Hlen.
  rewrite put_dict_spec by (rewrite Hlen; done). cbn [mbind res_bind].
  pose proof (sizes_lookup _ _ _ Hd) as Hs. cbn in Hs.
  eexists. split; [done|]. split.
  { apply (kvs_ok_put kvs didx (Some d)); try done; unfold one_if_full; cbn; rewrite ?Hz; cbn; try lia.
    - pose proof (kvs_room _ Hk). lia.
    - intros Hne. rewrite <- Hz, list_insert_id by done. by apply Hk. }
  split; [done|]. split; [|right; by exists d]. unfold sizes. cbn. rewrite list_fmap_insert. cbn.
  rewrite <- Hz. by apply list_insert_id.
Qed.

(** ** Finding dicts *)

Lemma kvstoreSize_spec kvs : kvs_ok kvs -> kvstoreSize kvs = Ok (zsum (sizes kvs)).
Proof.
  intros Hk. unfold kvstoreSize. destruct (Z.eqb_spec (num_dicts kvs) 1) as [H1|H1]; cbn [negb].
  - unfold kvstoreDictSize. destruct (get_dict_spec kvs 0 Hk ltac:(lia)) as (d & -> & Hd & _). cbn [mbind res_bind].
    pose proof (kvs_len _ Hk) as Hlen. unfold zlen in Hlen. unfold sizes.
    destruct (dicts kvs) as [|d0 [|? ?]]; cbn in Hd, Hlen; [lia| |lia]. injection Hd as ->. f_equal. cbn. by rewrite Z.add_0_r.
  - by rewrite (kvs_keys _ Hk).
Qed.

Lemma num_dicts_pos kvs : kvs_ok kvs -> 1 <= num_dicts kvs <= 2 ^ 16.
Proof.
  intros Hk. rewrite (kvs_num _ Hk). pose proof (kvs_bits _ Hk).
  pose proof (Z.pow_pos_nonneg 2 (num_dicts_bits kvs)). pose proof (Z.pow_le_mono_r 2 (num_dicts_bits kvs) 16). lia.
Qed.

Lemma sum_bound kvs : kvs_ok kvs -> 0 <= zsum (sizes kvs) < 2 ^ 63.
Proof.
  intros Hk. pose proof (kvs_room _ Hk). pose proof (zsum_nonneg _ (sizes_nonneg _ Hk)). unfold max_entries in *. lia.
Qed.

Lemma bit_find_S fuel t i result target : bit_find (S fuel) t i result target =
  if i =? 0 then Ok result else
  x ← index_get t (result + i);
  if x <? target then bit_find fuel t (Z.shiftr i 1) (result + i) (u64 (target - x))
  else bit_find fuel t (Z.shiftr i 1) result target.
Proof. reflexivity. Qed.

Lemma find_index_spec kvs target :
  kvs_ok kvs -> 1 <= target <= zsum (sizes kvs) ->
  exists r, kvstoreFindDictIndexByKeyIndex kvs target = Ok r /\ 0 <= r < num_dicts kvs /\
    psum (sizes kvs) r < target <= psum (sizes kvs) (r + 1).
Proof.
  intros Hk Ht. pose proof (num_dicts_pos _ Hk) as HN. pose proof (kvs_len _ Hk) as Hlen.
  assert (Hall : psum (sizes kvs) (num_dicts kvs) = zsum (sizes kvs)) by (apply psum_all; rewrite zlen_sizes; lia).
  unfold kvstoreFindDictIndexByKeyIndex. destruct (Z.eqb_spec (num_dicts kvs) 1) as [H1|H1].
  { exists 0. split; [done|]. split; [lia|]. rewrite H1 in Hall. change (0 + 1) with 1. rewrite psum_0, Hall. lia. }
  rewrite (kvstoreSize_spec _ Hk). cbn [mbind res_bind]. rewrite (proj2 (Z.eqb_neq (zsum _) 0)) by lia.
  rewrite (proj2 (Z.leb_le target _)) by lia. cbn [cassert mbind res_bind].
  pose proof (kvs_bits _ Hk) as Hb. pose proof (kvs_num _ Hk) as Hnum. pose proof (kvs_tree _ Hk H1) as Htree.
  pose proof (sum_bound _ Hk). pose proof (sizes_nonneg _ Hk) as Hnn.
  assert (Hb1 : 1 <= num_dicts_bits kvs).
  { destruct (decide (num_dicts_bits kvs = 0)) as [E|]; [|lia]. rewrite E in Hnum. done. }
  rewrite Z.shiftl_mul_pow2, Z.mul_1_l by lia. rewrite <- Hnum. rewrite (bit_find_S 63).
  rewrite (proj2 (Z.eqb_neq (num_dicts kvs) 0)) by lia. rewrite Z.add_0_l.
  rewrite (index_get_ok (num_dicts kvs) (sizes kvs)) by (done || lia). cbn [mbind res_bind].
  assert (Hlow : lowbit (num_dicts kvs) = num_dicts kvs).
  { rewrite Hnum at 1. replace (2 ^ num_dicts_bits kvs) with (2 ^ num_dicts_bits kvs * (2 * 0 + 1)) by lia.
    rewrite lowbit_pow by lia. by rewrite Hnum. }
  rewrite Hlow, Z.sub_diag, psum_0, Z.sub_0_r, Hall, (proj2 (Z.ltb_ge _ _)) by lia.
  assert (Hhalf : num_dicts kvs = 2 * 2 ^ (num_dicts_bits kvs - 1)).
  { rewrite Hnum, <- Z.pow_succ_r by lia. f_equal. lia. }
  rewrite Z.shiftr_div_pow2 by lia. change (2 ^ 1) with 2. 
  replace (num_dicts kvs / 2) with (2 ^ (num_dicts_bits kvs - 1)) by (rewrite Hhalf, Z.mul_comm, Z.div_mul by lia; done).
  destruct (bit_find_spec (num_dicts kvs) (sizes kvs) (dict_size_index kvs) 63 (num_dicts_bits kvs - 1) 0 target)
    as (r & E & Hr & Hps); try done; try lia;
    rewrite ?psum_0; replace (num_dicts_bits kvs - 1 + 1) with (num_dicts_bits kvs) by lia; rewrite <- ?Hnum; try lia.
  { apply Z.divide_0_r. }
  { rewrite !Z.add_0_l, Hall. lia. }
  exists r. split; [exact E|]. split; [done|]. rewrite psum_0 in Hps. lia.
Qed.

Lemma read_spec kvs didx :
  kvs_ok kvs -> 0 <= didx < num_dicts kvs -> cumulativeKeyCountRead kvs didx = Ok (psum (sizes kvs) (didx + 1)).
Proof.
  intros Hk Hi. pose proof (kvs_len _ Hk) as Hlen. unfold cumulativeKeyCountRead.
  destruct (Z.eqb_spec (num_dicts kvs) 1) as [H1|H1].
  - rewrite (proj2 (Z.eqb_eq didx 0)) by lia. cbn [cassert mbind res_bind]. rewrite (kvstoreSize_spec _ Hk).
    rewrite psum_all; [done|]. rewrite zlen_sizes. lia.
  - pose proof (sum_bound _ Hk). pose proof (sizes_nonneg _ Hk) as Hnn.
    rewrite (bit_read_spec (num_dicts kvs) (sizes kvs)); [done|by apply Hk|done|lia|lia|lia|lia|].
    pose proof (psum_le (sizes kvs) (didx + 1) Hnn). lia.
Qed.

(** The next dict with keys after [didx]. *)
Lemma next_index_spec kvs didx :
  kvs_ok kvs -> 0 <= didx < num_dicts kvs ->
  exists r, kvstoreGetNextNonEmptyDictIndex kvs didx = Ok r /\
  (r = -1 /\ psum (sizes kvs) (didx + 1) = zsum (sizes kvs) \/
   didx < r < num_dicts kvs /\ psum (sizes kvs) r = psum (sizes kvs) (didx + 1) /\
   psum (sizes kvs) (didx + 1) < psum (sizes kvs) (r + 1)).
Proof.
  intros Hk Hi. unfold kvstoreGetNextNonEmptyDictIndex. pose proof (kvs_len _ Hk) as Hlen.
  destruct (Z.eqb_spec (num_dicts kvs) 1) as [H1|H1].
  { rewrite (proj2 (Z.eqb_eq didx 0)) by lia. exists (-1). split; [done|]. left. split; [done|].
    apply psum_all. rewrite zlen_sizes. lia. }
  rewrite (read_spec _ _ Hk Hi), (kvstoreSize_spec _ Hk). cbn [mbind res_bind].
  pose proof (sum_bound _ Hk). pose proof (sizes_nonneg _ Hk) as Hnn.
  pose proof (psum_le (sizes kvs) (didx + 1) Hnn). pose proof (psum_nonneg (sizes kvs) (didx + 1) Hnn).
  rewrite wrapu_small by lia. destruct (Z.leb_spec (psum (sizes kvs) (didx + 1) + 1) (zsum (sizes kvs))).
  - destruct (find_index_spec kvs (psum (sizes kvs) (didx + 1) + 1) Hk ltac:(lia)) as (r & E & Hr & Hp).
    exists r. split; [done|]. right.
    assert (didx < r).
    { destruct (Z.lt_ge_cases didx r); [done|]. pose proof (psum_mono (sizes kvs) (r + 1) (didx + 1) Hnn ltac:(lia)). lia. }
    pose proof (psum_mono (sizes kvs) (didx + 1) r Hnn ltac:(lia)). lia.
  - exists (-1). split; [done|]. left. lia.
Qed.

(** From equal prefix sums to empty dicts. *)
Lemma empty_between f a b j x :
  nonneg f -> 0 <= a -> a <= j < b -> psum f a = psum f b -> f !! Z.to_nat j = Some x -> x = 0.
Proof.
  intros Hf Ha Hj Heq Hx. pose proof (psum_succ f j x Hx ltac:(lia)).
  pose proof (psum_mono f a j Hf ltac:(lia)). pose proof (psum_mono f (j + 1) b Hf ltac:(lia)).
  unfold nonneg in Hf. rewrite list.Forall_forall in Hf. pose proof (Hf x (list_elem_of_lookup_2 _ _ _ Hx)). lia.
Qed.

End theory.

End KvstoreTheory.
