(* ===== verification/KvstoreSpec.v ===== *)
(** * Arrays of hash tables: refinement and scanning.

    The abstract kvstore is an array of finite maps.  Any sequence of operations
    answers as the array does, the counters and the tree stay exact, the n-th
    key and the next dict that is not empty are found, and a scan over all dicts
    reports every key that stays. *)

From stdpp Require Import gmap.
From S2P Require Import Prelude Dict DictTheory DictSpec DictScan Kvstore KvstoreTheory.
#[local] Open Scope Z_scope.

Module KvstoreSpec.
Import Dict DictTheory DictSpec Kvstore KvstoreTheory.

Section spec.
Context `{Countable K} {V : Type}.
Context (ty : @dictType K) {Hty : DictTypeOk ty}.
#[local] Abbreviation dict := (@dict K V).
#[local] Abbreviation kvstore := (@kvstore K V).
#[local] Abbreviation dictEntry := (@dictEntry K V).
#[local] Abbreviation kmap := (gmap K (option V)).

Definition map_of (d : option dict) : kmap := match d with Some d => dict_map d | None => ∅ end.
Definition maps (kvs : kvstore) : list kmap := map_of <$> dicts kvs.

(** ** Slots *)

Lemma maps_insert (kvs kvs' : kvstore) j d :
  dicts kvs' = <[j := d]> (dicts kvs) -> maps kvs' = <[j := map_of d]> (maps kvs).
Proof. intros Hd. unfold maps. by rewrite Hd, list_fmap_insert. Qed.

Lemma maps_lookup (kvs : kvstore) j d : dicts kvs !! j = Some d -> maps kvs !! j = Some (map_of d).
Proof. intros Hd. unfold maps. by rewrite list_lookup_fmap, Hd. Qed.

Lemma map_empty (d : dict) : dict_ok ty d -> dictSize d = 0 -> dict_map d = ∅.
Proof.
  intros Hok Hz. rewrite (dictSize_spec ty) in Hz by done. apply zlen_nil_inv in Hz. unfold dict_map. by rewrite Hz.
Qed.

(** A kvstore operation has run: the state is in order, only the frame is
    fixed, and the maps are the given ones. *)
Definition stepped (kvs kvs' : kvstore) (ms : list kmap) : Prop :=
  kvs_ok ty kvs' /\ same_frame kvs kvs' /\ maps kvs' = ms.

Lemma create_maps (kvs kvs' : kvstore) j d :
  dicts kvs' = dicts kvs \/ dicts kvs !! j = Some None /\ d = dictCreate /\ dicts kvs' = <[j := Some d]> (dicts kvs) ->
  maps kvs' = maps kvs.
Proof.
  intros [Hd|(Hn & -> & Hd)]; [unfold maps; by rewrite Hd|]. rewrite (maps_insert _ _ _ _ Hd).
  apply list_insert_id. by rewrite (maps_lookup _ _ _ Hn).
Qed.

Lemma free_maps (kvs kvs' : kvstore) j :
  kvs_ok ty kvs ->
  dicts kvs' = dicts kvs \/ (exists d, dicts kvs !! j = Some (Some d) /\ dictSize d = 0 /\ dicts kvs' = <[j := None]> (dicts kvs)) ->
  maps kvs' = maps kvs.
Proof.
  intros Hk [Hd|(d & Hl & Hz & Hd)]; [unfold maps; by rewrite Hd|]. rewrite (maps_insert _ _ _ _ Hd).
  apply list_insert_id. rewrite (maps_lookup _ _ _ Hl). cbn. f_equal. apply map_empty; [|done].
  pose proof (kvs_dicts _ _ Hk) as Hall. rewrite list.Forall_forall in Hall.
  destruct (Hall (Some d)) as [Hok _]; [by eapply list_elem_of_lookup_2|done].
Qed.

Lemma same_frame_trans (a b c : kvstore) : same_frame a b -> same_frame b c -> same_frame a c.
Proof. intros (H1 & H2 & H3) (H1' & H2' & H3'). repeat split; congruence. Qed.

(** Replacing the dict of a slot by one with the same contents. *)
Lemma slot_keeps (kvs : kvstore) didx d d' :
  kvs_ok ty kvs -> 0 <= didx < num_dicts kvs -> dicts kvs !! Z.to_nat didx = Some (Some d) -> sub_ok ty d ->
  keeps ty d d' -> exists kvs', put_dict kvs didx (Some d') = Ok kvs' /\ stepped kvs kvs' (maps kvs).
Proof.
  intros Hk Hi Hl (Hok & Hp & Ha) Hkeep. pose proof (keeps_ok ty d d' Hok Hkeep) as Hok'.
  pose proof Hkeep as (Hperm & [Hf1 Hf2] & _).
  destruct (kvs_ok_same ty kvs didx d d' Hk Hi Hl) as (kvs' & E & Hk' & Hd & Hfr).
  { split; [done|]. split; congruence. }
  { rewrite !(dictSize_spec ty) by done. by apply zlen_perm. }
  exists kvs'. split; [done|]. split; [done|]. split; [done|].
  rewrite (maps_insert _ _ _ _ Hd). apply list_insert_id. rewrite (maps_lookup _ _ _ Hl). cbn. f_equal.
    symmetry. by apply (map_perm ty).
Qed.

(** The size of a dict is part of the total. *)
Lemma slot_size (kvs : kvstore) j d : kvs_ok ty kvs -> dicts kvs !! j = Some (Some d) -> 0 <= dictSize d <= zsum (sizes kvs).
Proof.
  intros Hk Hl. pose proof (sizes_nonneg ty _ Hk) as Hnn. pose proof (sizes_lookup _ _ _ Hl) as Hs. cbn in Hs.
  pose proof (psum_succ (sizes kvs) (Z.of_nat j) (dictSize d)) as Hps. rewrite Nat2Z.id in Hps. specialize (Hps Hs ltac:(lia)).
  pose proof (psum_nonneg (sizes kvs) (Z.of_nat j) Hnn). pose proof (psum_le (sizes kvs) (Z.of_nat j + 1) Hnn).
  unfold nonneg in Hnn. rewrite list.Forall_forall in Hnn. pose proof (Hnn _ (list_elem_of_lookup_2 _ _ _ Hs)). lia.
Qed.

(** ** Operations *)

Inductive kv_op : Type :=
  | KAdd (didx : Z) (k : K) (v : V)
  | KDelete (didx : Z) (k : K)
  | KUnlink (didx : Z) (k : K)
  | KFind (didx : Z) (k : K)
  | KFetch (didx : Z) (k : K)
  | KResize (limit : Z)
  | KExpand (newsize : Z) (try_expand : bool) (skip_cb alloc_ok : Z -> bool)
  | KEmpty.

Definition op_in (num : Z) (op : kv_op) : Prop :=
  match op with
  | KAdd didx _ _ | KDelete didx _ | KUnlink didx _ | KFind didx _ => 0 <= didx < num
  | KFetch didx _ => 0 <= didx < num /\ no_value ty = false
  | KExpand newsize _ _ _ => 0 <= newsize <= 2 ^ 60
  | KResize _ | KEmpty => True
  end.

(** Adding a key and its value, as a database does it: [kvstoreDictAddRaw],
    then [kvstoreDictSetVal] on the new entry.  Unlinking is the two-phase
    one. *)
Definition run_kv (can : dictResizeEnable) (op : kv_op) (kvs : kvstore) : res (kvstore * @answer V) :=
  match op with
  | KAdd didx k v =>
    r ← kvstoreDictAddRaw ty can kvs didx k;
    match r with
    | (kvs, inl position) =>
      if no_value ty then Ok (kvs, ABool true)
      else kvs ← kvstoreDictSetVal ty kvs didx position k v; Ok (kvs, ABool true)
    | (kvs, inr _) => Ok (kvs, ABool false)
    end
  | KDelete didx k => r ← kvstoreDictDelete ty can kvs didx k; Ok (fst r, ABool (snd r))
  | KUnlink didx k =>
    r ← kvstoreDictTwoPhaseUnlinkFind ty can kvs didx k;
    match r with
    | (kvs, Some he) => kvs ← kvstoreDictTwoPhaseUnlinkFree ty can kvs didx he; Ok (kvs, AFound (Some (de_val (snd he))))
    | (kvs, None) => Ok (kvs, AFound None)
    end
  | KFind didx k => r ← kvstoreDictFind ty can kvs didx k; Ok (fst r, AFound (found (snd r)))
  | KFetch didx k => r ← kvstoreDictFetchValue ty can kvs didx k; Ok (fst r, AVal (snd r))
  | KResize limit => kvs ← kvstoreTryResizeDicts ty can kvs limit; Ok (kvs, AUnit)
  | KExpand newsize try_expand skip_cb alloc_ok =>
    r ← kvstoreExpand kvs newsize try_expand skip_cb alloc_ok; Ok (fst r, AUnit)
  | KEmpty => kvs ← kvstoreEmpty kvs; Ok (kvs, AUnit)
  end.

(** The same on an array of maps. *)
Definition at_map (ms : list kmap) (didx : Z) : kmap := default ∅ (ms !! Z.to_nat didx).

Definition spec_kv (op : kv_op) (ms : list kmap) : list kmap * @answer V :=
  match op with
  | KAdd didx k v =>
    if decide (is_Some (at_map ms didx !! k)) then (ms, ABool false)
    else (<[Z.to_nat didx := <[k := stored ty v]> (at_map ms didx)]> ms, ABool true)
  | KDelete didx k =>
    (<[Z.to_nat didx := delete k (at_map ms didx)]> ms, ABool (bool_decide (is_Some (at_map ms didx !! k))))
  | KUnlink didx k => (<[Z.to_nat didx := delete k (at_map ms didx)]> ms, AFound (at_map ms didx !! k))
  | KFind didx k => (ms, AFound (at_map ms didx !! k))
  | KFetch didx k => (ms, AVal (mjoin (at_map ms didx !! k)))
  | KResize _ | KExpand _ _ _ _ => (ms, AUnit)
  | KEmpty => ((fun _ => ∅) <$> ms, AUnit)
  end.

(** One operation simulates its meaning. *)
Definition kv_simulates (can : dictResizeEnable) (op : kv_op) (kvs : kvstore) : Prop :=
  exists kvs' a, run_kv can op kvs = Ok (kvs', a) /\ kvs_ok ty kvs' /\ same_frame kvs kvs' /\
  spec_kv op (maps kvs) = (maps kvs', a).

Lemma at_maps (kvs : kvstore) didx d : dicts kvs !! Z.to_nat didx = Some d -> at_map (maps kvs) didx = map_of d.
Proof. intros Hd. unfold at_map. by rewrite (maps_lookup _ _ _ Hd). Qed.

Lemma same_maps_delete (kvs : kvstore) didx d k :
  dicts kvs !! Z.to_nat didx = Some d -> map_of d !! k = None ->
  <[Z.to_nat didx := delete k (at_map (maps kvs) didx)]> (maps kvs) = maps kvs.
Proof.
  intros Hd Hn. rewrite (at_maps _ _ _ Hd), delete_id by done. apply list_insert_id. by apply maps_lookup.
Qed.

Lemma keeps_kv can op (kvs kvs' : kvstore) a :
  run_kv can op kvs = Ok (kvs', a) -> stepped kvs kvs' (maps kvs) -> spec_kv op (maps kvs) = (maps kvs, a) ->
  kv_simulates can op kvs.
Proof.
  intros E (Hk & Hf & Hm) Hs. exists kvs', a. split; [done|]. split; [done|]. split; [done|]. by rewrite Hm.
Qed.

(** ** Counting on the maps *)

Definition total (ms : list kmap) : Z := zsum ((fun m : kmap => Z.of_nat (size m)) <$> ms).

Lemma sizes_maps (kvs : kvstore) : kvs_ok ty kvs -> sizes kvs = (fun m : kmap => Z.of_nat (size m)) <$> maps kvs.
Proof.
  intros Hk. unfold sizes, maps. rewrite <- list_fmap_compose. apply list_fmap_ext. intros i d Hd. cbn.
  pose proof (kvs_dicts _ _ Hk) as Hall. rewrite list.Forall_forall in Hall.
  pose proof (Hall d (list_elem_of_lookup_2 _ _ _ Hd)) as Hok. destruct d as [d|]; cbn; [|done].
  destruct Hok as (Hok & _). by apply (map_size ty).
Qed.

Lemma total_insert ms j m m' : ms !! j = Some m -> total (<[j := m']> ms) = total ms + Z.of_nat (size m') - Z.of_nat (size m).
Proof.
  intros Hm. unfold total. rewrite list_fmap_insert. apply zsum_insert. by rewrite list_lookup_fmap, Hm.
Qed.

Lemma total_update ms didx m' n :
  (Z.of_nat (size m') <= Z.of_nat (size (at_map ms didx)) + n) -> 0 <= n ->
  total (<[Z.to_nat didx := m']> ms) <= total ms + n.
Proof.
  unfold at_map. destruct (ms !! Z.to_nat didx) as [m|] eqn:E; cbn; intros Hle Hn.
  - rewrite (total_insert _ _ _ _ E). lia.
  - rewrite list_insert_ge by (by apply lookup_ge_None). lia.
Qed.

Lemma spec_total op ms : total (fst (spec_kv op ms)) <= total ms + 1.
Proof.
  destruct op as [didx k v|didx k|didx k| | | | |]; cbn [spec_kv fst]; try lia.
  - case_decide as Hd; cbn [fst]; [lia|]. apply total_update; [|lia].
    rewrite map_size_insert_None; [lia|]. by apply eq_None_not_Some.
  - apply total_update; [|lia]. rewrite map_size_delete. case_match; unfold id; lia.
  - apply total_update; [|lia]. rewrite map_size_delete. case_match; unfold id; lia.
  - assert (Hpos : 0 <= total ms) by (apply zsum_nonneg, Forall_fmap, list.Forall_forall; intros; cbn; lia).
    assert (Hz : total ((fun _ => ∅) <$> ms) = 0); [|lia]. unfold total. rewrite <- list_fmap_compose.
    clear Hpos. induction ms as [|m ms IH]; [done|]. cbn [fmap list_fmap zsum]. rewrite IH. cbn. by rewrite map_size_empty.
Qed.

(** ** Simulation *)

Lemma entry_kv (d : dict) k v : dict_ok ty d -> (k, v) ∈ contents d -> map_of (Some d) !! k = Some v.
Proof. apply map_found. Qed.

Lemma find_kv can (kvs : kvstore) didx k :
  kvs_ok ty kvs -> 0 <= didx < num_dicts kvs -> kv_simulates can (KFind didx k) kvs.
Proof.
  intros Hk Hi. destruct (get_dict_spec ty kvs didx Hk Hi) as (d & E & Hl & Hok). destruct d as [d|].
  - pose proof Hok as (Hd & _). destruct (dictFind_spec ty can d k Hd) as (d' & r & Ef & Hkeep & _ & Hres).
    destruct (slot_keeps kvs didx d d' Hk Hi Hl Hok Hkeep) as (kvs' & Ep & Hst).
    assert (Hv : at_map (maps kvs) didx !! k = found r).
    { rewrite (at_maps _ _ _ Hl). destruct r as [de|]; [|by apply map_absent]. destruct Hres as [<- Hin]. by apply entry_kv. }
    eapply (keeps_kv can _ kvs kvs'); [cbn; unfold kvstoreDictFind; rewrite E;
      cbn [mbind res_bind]; rewrite Ef; cbn [mbind res_bind fst snd]; rewrite Ep; done|done|]. cbn. by rewrite Hv.
  - assert (Hv : at_map (maps kvs) didx !! k = None) by by rewrite (at_maps _ _ _ Hl).
    eapply (keeps_kv can _ kvs kvs); [cbn; unfold kvstoreDictFind; by rewrite E|done|]. cbn. by rewrite Hv.
Qed.

Lemma fetch_kv can (kvs : kvstore) didx k :
  kvs_ok ty kvs -> 0 <= didx < num_dicts kvs -> no_value ty = false -> kv_simulates can (KFetch didx k) kvs.
Proof.
  intros Hk Hi Hnv. destruct (get_dict_spec ty kvs didx Hk Hi) as (d & E & Hl & Hok). destruct d as [d|].
  - pose proof Hok as (Hd & _). pose proof (dictFetchValue_spec ty can k d Hd) as Hf. rewrite Hnv in Hf.
    pose proof (at_maps _ _ _ Hl) as Hat. cbn [map_of] in Hat.
    destruct (dict_map d !! k) as [v|] eqn:Hv; destruct Hf as (d' & Ef & Hkeep);
      destruct (slot_keeps kvs didx d d' Hk Hi Hl Hok Hkeep) as (kvs' & Ep & Hst);
      (eapply (keeps_kv can _ kvs kvs'); [cbn; unfold kvstoreDictFetchValue; rewrite E; cbn [mbind res_bind];
        rewrite Ef; cbn [mbind res_bind fst snd]; rewrite Ep; done|done|cbn; by rewrite Hat, Hv]).
  - assert (Hv : at_map (maps kvs) didx !! k = None) by by rewrite (at_maps _ _ _ Hl).
    eapply (keeps_kv can _ kvs kvs); [cbn; unfold kvstoreDictFetchValue; by rewrite E|done|]. cbn. by rewrite Hv.
Qed.

Lemma add_kv can (kvs : kvstore) didx k v :
  kvs_ok ty kvs -> 0 <= didx < num_dicts kvs -> zsum (sizes kvs) < max_entries -> kv_simulates can (KAdd didx k v) kvs.
Proof.
  intros Hk Hi Hroom. unfold kv_simulates. cbn [run_kv spec_kv]. unfold kvstoreDictAddRaw.
  destruct (create_dict_spec ty kvs didx Hk Hi) as (kvs1 & d & -> & Hk1 & Hf1 & Hok & Hl & Hsz & Hmaps).
  cbn [mbind res_bind]. pose proof (create_maps _ _ _ _ Hmaps) as Hm1. pose proof Hf1 as (Hn1 & _).
  pose proof Hok as (Hd & Hp & Ha). pose proof (slot_size kvs1 _ _ Hk1 Hl) as Hs1. rewrite Hsz in Hs1.
  rewrite (dictSize_spec ty) in Hs1 by done.
  destruct (addRaw_spec ty can d k Hd ltac:(left; lia) ltac:(lia)) as (d1 & r & -> & Hd1 & [Hfl1 Hfl2] & Ht1 & Hr).
  cbn [mbind res_bind fst snd]. pose proof (at_maps _ _ _ Hl) as Hat. rewrite Hm1 in Hat. cbn in Hat. rewrite Hat.
  assert (Hsub1 : sub_ok ty d1) by (split; [done|split; congruence]).
  rewrite <- Hm1.
  destruct r as [[t i]|[[t i] de]].
  - destruct Hr as (Hnew & Hperm & Htt & Hpos & b & de & Hb & Hfind & Hkv).
    destruct (count_add_spec ty kvs1 didx d d1 1 Hk1 ltac:(rewrite Hn1; lia) Hl Hsub1) as (kvs2 & kvs3 & Ep & Ec & Hk3 & Hd3 & Hf3).
    { rewrite !(dictSize_spec ty) by done. rewrite (zlen_perm _ _ Hperm), zlen_cons. lia. }
    { by left. }
    { rewrite Hsz. lia. }
    rewrite Ep. cbn [mbind res_bind]. rewrite Ec. cbn [mbind res_bind].
    rewrite decide_False by (rewrite (map_absent d k Hnew); by intros [? ?]).
    unfold stored. destruct (no_value ty) eqn:Hnv.
    + exists kvs3, (ABool true). split; [done|]. split; [done|]. split; [by eapply same_frame_trans|].
      rewrite (maps_insert _ _ _ _ Hd3). cbn. by rewrite (map_cons ty d1 _ _ _ Hd1 Hperm).
    + destruct (setVal_spec ty d1 k v t i de Hd1 Hnv Htt Hpos) as (d2 & rest & E2 & Hp1 & Hp2 & Hs2 & [Hfl1' Hfl2'] & _); [by exists b|].
      rewrite Hkv in Hp1. pose proof (replaced_ok ty d1 d2 k _ _ rest Hd1 Hp1 Hp2 Hs2) as Hd2.
      assert (Hrest : contents d2 ≡ₚ (k, Some v) :: contents d).
      { rewrite Hp2. constructor. apply (Permutation_cons_inv (a := (k, None))). by rewrite <- Hperm, Hp1. }
      pose proof Hf3 as (Hn3 & _). unfold kvstoreDictSetVal.
      assert (Hl3 : dicts kvs3 !! Z.to_nat didx = Some (Some d1))
        by (rewrite Hd3; apply list_lookup_insert_eq; by eapply lookup_lt_Some).
      destruct (get_dict_spec ty kvs3 didx Hk3 ltac:(lia)) as (dd & -> & Hdd & _). rewrite Hl3 in Hdd. injection Hdd as <-.
      cbn [mbind res_bind]. rewrite E2. cbn [mbind res_bind].
      destruct (kvs_ok_same ty kvs3 didx d1 d2 Hk3 ltac:(lia) Hl3) as (kvs4 & -> & Hk4 & Hd4 & Hf4).
      { split; [done|]. destruct Hsub1 as (_ & ? & ?). split; congruence. }
      { rewrite !(dictSize_spec ty) by done. by rewrite (zlen_perm _ _ Hp1), (zlen_perm _ _ Hp2), !zlen_cons. }
      cbn [mbind res_bind]. exists kvs4, (ABool true). split; [done|]. split; [done|].
      split; [eapply same_frame_trans; [exact Hf1|by eapply same_frame_trans]|].
      rewrite (maps_insert _ _ _ _ Hd4), (maps_insert _ _ _ _ Hd3), list_insert_insert_eq. cbn.
      by rewrite (map_cons ty d2 _ _ _ Hd2 Hrest).
  - destruct Hr as (Hperm & (_ & _ & Hkey & _) & Hin).
    destruct (slot_keeps kvs1 didx d d1 Hk1 ltac:(lia) Hl Hok) as (kvs2 & -> & Hk2 & Hf2 & Hm2).
    { split; [done|]. split; [done|apply Hd1]. }
    cbn [mbind res_bind]. exists kvs2, (ABool false). split; [done|]. split; [done|].
    split; [by eapply same_frame_trans|]. rewrite Hm2. rewrite decide_True; [done|].
    apply map_present. apply (list_elem_of_fmap_2 fst) in Hin. by rewrite <- Hkey.
Qed.

(** Taking a key out of a slot: count it and free the dict if it is empty. *)
Lemma remove_slot (kvs : kvstore) didx d d' k v :
  kvs_ok ty kvs -> 0 <= didx < num_dicts kvs -> dicts kvs !! Z.to_nat didx = Some (Some d) -> dict_ok ty d -> sub_ok ty d' ->
  contents d ≡ₚ (k, v) :: contents d' ->
  exists kvs1 kvs2 kvs3, put_dict kvs didx (Some d') = Ok kvs1 /\ cumulativeKeyCountAdd kvs1 didx (-1) = Ok kvs2 /\
    freeDictIfNeeded kvs2 didx = Ok kvs3 /\ at_map (maps kvs) didx !! k = Some v /\
    stepped kvs kvs3 (<[Z.to_nat didx := delete k (at_map (maps kvs) didx)]> (maps kvs)).
Proof.
  intros Hk Hi Hl Hd Hd' Hperm. pose proof Hd' as (Hok' & _). pose proof (kvs_room _ _ Hk).
  destruct (count_add_spec ty kvs didx d d' (-1) Hk Hi Hl Hd') as (kvs1 & kvs2 & E1 & E2 & Hk2 & Hd2 & Hf2).
  { rewrite !(dictSize_spec ty) by done. rewrite (zlen_perm _ _ Hperm), zlen_cons. lia. }
  { by right. }
  { lia. }
  pose proof Hf2 as (Hn2 & _). destruct (free_dict_spec ty kvs2 didx Hk2 ltac:(lia)) as (kvs3 & E3 & Hk3 & Hf3 & _ & Hm3).
  exists kvs1, kvs2, kvs3. split; [done|]. split; [done|]. split; [done|].
  rewrite (at_maps _ _ _ Hl). cbn [map_of]. destruct (map_removed ty d d' _ _ Hd Hperm) as [Hv Hdel].
  split; [done|]. split; [done|]. split; [by eapply same_frame_trans|].
  rewrite (free_maps _ _ _ Hk2 Hm3), (maps_insert _ _ _ _ Hd2). cbn [map_of]. by rewrite Hdel.
Qed.

Lemma delete_kv can (kvs : kvstore) didx k :
  kvs_ok ty kvs -> 0 <= didx < num_dicts kvs -> kv_simulates can (KDelete didx k) kvs.
Proof.
  intros Hk Hi. destruct (get_dict_spec ty kvs didx Hk Hi) as (d & E & Hl & Hok). destruct d as [d|].
  - pose proof Hok as (Hd & Hp & Ha). destruct (dictGenericDelete_spec ty can d k Hd) as (d' & r & Ed & Hd' & [Hf1 Hf2] & _ & Hres).
    assert (Hsub' : sub_ok ty d') by (split; [done|split; congruence]).
    unfold kv_simulates. cbn [run_kv spec_kv]. unfold kvstoreDictDelete, dictDelete. rewrite E. cbn [mbind res_bind].
    rewrite Ed. cbn [mbind res_bind fst snd]. destruct r as [de|]; destruct Hres as [Hkey Hperm].
    + unfold kv in Hperm. rewrite Hkey in Hperm.
      destruct (remove_slot kvs didx d d' _ _ Hk Hi Hl Hd Hsub' Hperm) as (kvs1 & kvs2 & kvs3 & -> & E2 & E3 & Hv & Hk3 & Hf3 & Hm3).
      cbn [mbind res_bind]. rewrite E2. cbn [mbind res_bind]. rewrite E3. cbn [mbind res_bind fst snd].
      exists kvs3, (ABool true). split; [done|]. split; [done|]. split; [done|]. by rewrite Hm3, Hv.
    + destruct (slot_keeps kvs didx d d' Hk Hi Hl Hok) as (kvs1 & -> & Hk1 & Hf & Hm1).
      { split; [done|]. split; [done|apply Hd']. }
      cbn [mbind res_bind fst snd]. exists kvs1, (ABool false). split; [done|]. split; [done|]. split; [done|].
      rewrite Hm1. rewrite (same_maps_delete _ _ _ _ Hl) by by apply map_absent.
      rewrite (at_maps _ _ _ Hl). cbn [map_of]. by rewrite (map_absent d k Hkey).
  - eapply (keeps_kv can _ kvs kvs); [cbn; unfold kvstoreDictDelete; by rewrite E|done|]. cbn [spec_kv].
    rewrite (same_maps_delete _ _ _ _ Hl) by done. by rewrite (at_maps _ _ _ Hl).
Qed.

Lemma unlink_kv can (kvs : kvstore) didx k :
  kvs_ok ty kvs -> 0 <= didx < num_dicts kvs -> kv_simulates can (KUnlink didx k) kvs.
Proof.
  intros Hk Hi. destruct (get_dict_spec ty kvs didx Hk Hi) as (d & E & Hl & Hok).
  unfold kv_simulates. cbn [run_kv spec_kv]. unfold kvstoreDictTwoPhaseUnlinkFind. rewrite E. cbn [mbind res_bind].
  destruct d as [d|].
  - pose proof Hok as (Hd & Hp & Ha). destruct (twoPhaseFind_spec ty can d k Hd) as (d1 & r & -> & Hres).
    cbn [mbind res_bind fst snd]. pose proof (kvs_len _ _ Hk) as Hlen. destruct r as [[[t i] de]|].
    + destruct Hres as (d0 & -> & Hm & Hok0 & Hf & Hin). pose proof Hm as (Hpm & [Hf1 Hf2] & _).
      pose proof Hf as (_ & _ & Hkey & _).
      destruct (twoPhaseFree_spec ty can d0 k t i de Hok0 Hf ltac:(lia)) as (d2 & E2 & Hok2 & Hc & [Hf1' Hf2']).
      assert (Hsub2 : sub_ok ty d2) by (split; [done|split; congruence]).
      assert (Hperm : contents d ≡ₚ (k, de_val de) :: contents d2) by (rewrite <- Hpm, Hc; unfold kv; by rewrite Hkey).
      rewrite put_dict_spec by lia. cbn [mbind res_bind]. unfold kvstoreDictTwoPhaseUnlinkFree, kvstoreGetDict.
      cbn [dicts set_dicts]. rewrite (proj2 (Z.leb_le 0 didx)), list_lookup_insert_eq by (unfold zlen in Hlen; lia).
      cbn [mbind res_bind]. rewrite E2. cbn [mbind res_bind].
      destruct (remove_slot kvs didx d d2 _ _ Hk Hi Hl Hd Hsub2 Hperm) as (kvs1 & kvs2 & kvs3 & E1 & E3 & E4 & Hv & Hk3 & Hf3 & Hm3).
      rewrite put_dict_spec in E1 |- * by (cbn; rewrite ?zlen_insert; lia). cbn [mbind res_bind].
      cbn [dicts set_dicts]. rewrite list_insert_insert_eq. injection E1 as <-.
      change (set_dicts (set_dicts kvs ?a) ?b) with (set_dicts kvs b). rewrite E3. cbn [mbind res_bind]. rewrite E4.
      cbn [mbind res_bind snd]. exists kvs3, (AFound (Some (de_val de))). split; [done|]. split; [done|]. split; [done|].
      by rewrite Hm3, Hv.
    + destruct Hres as [Hkeep Hn]. destruct (slot_keeps kvs didx d d1 Hk Hi Hl Hok Hkeep) as (kvs1 & -> & Hk1 & Hf & Hm1).
      cbn [mbind res_bind]. exists kvs1, (AFound None). split; [done|]. split; [done|]. split; [done|].
      rewrite Hm1. rewrite (same_maps_delete _ _ _ _ Hl) by by apply map_absent.
      rewrite (at_maps _ _ _ Hl). cbn [map_of]. by rewrite (map_absent d k Hn).
  - exists kvs, (AFound None). split; [done|]. split; [done|]. split; [done|].
    rewrite (same_maps_delete _ _ _ _ Hl) by done. by rewrite (at_maps _ _ _ Hl).
Qed.

Lemma cursor_ok (kvs : kvstore) c : kvs_ok ty kvs -> 0 <= c < num_dicts kvs -> kvs_ok ty (set_resize_cursor kvs c).
Proof. intros Hk Hc. split; try apply Hk. exact Hc. Qed.

(** Resizing one dict: shrink it if needed, otherwise grow it if needed. *)
Lemma resize_one_keeps can (d : dict) :
  dict_ok ty d -> exists d', (r ← dictShrinkIfNeeded ty can d; let '(d, ok) := r in
    (if (ok : bool) then Ok d else r ← dictExpandIfNeeded ty can d; Ok (fst r))) = Ok d' /\ keeps ty d d'.
Proof.
  intros Hd. destruct (shrinkIfNeeded_resizes ty can d Hd) as (d1 & ok & -> & Hk1 & _). cbn [mbind res_bind].
  destruct ok; [by exists d1|].
  destruct (expandIfNeeded_resizes ty can d1 (keeps_ok ty _ _ Hd Hk1)) as (d2 & ok & -> & (Hk2 & _) & _).
  exists d2. split; [done|by eapply keeps_trans].
Qed.

Lemma resize_loop_spec can n : forall (kvs : kvstore), kvs_ok ty kvs ->
  exists kvs', resize_loop ty can n kvs = Ok kvs' /\ stepped kvs kvs' (maps kvs).
Proof.
  induction n as [|n IH]; intros kvs Hk; [by exists kvs|]. cbn [resize_loop].
  pose proof (kvs_cursor _ _ Hk) as Hc. destruct (get_dict_spec ty kvs _ Hk Hc) as (d & -> & Hl & Hok). cbn [mbind res_bind].
  assert (Hone : exists kvs1, match d with
      | None => Ok kvs
      | Some d => r ← dictShrinkIfNeeded ty can d; let '(d, ok) := r in
          d ← (if (ok : bool) then Ok d else r ← dictExpandIfNeeded ty can d; Ok (fst r));
          put_dict kvs (resize_cursor kvs) (Some d)
      end = Ok kvs1 /\ stepped kvs kvs1 (maps kvs)).
  { destruct d as [d|]; [|by exists kvs]. destruct (resize_one_keeps can d (proj1 Hok)) as (d' & E & Hkeep).
    destruct (slot_keeps kvs _ d d' Hk Hc Hl Hok Hkeep) as (kvs1 & E1 & Hst). exists kvs1. split; [|done].
    destruct (dictShrinkIfNeeded ty can d) as [[d1 ok]|]; [|done]. cbn [mbind res_bind] in E |- *. rewrite E. exact E1. }
  destruct Hone as (kvs1 & -> & Hk1 & Hf1 & Hm1). cbn [mbind res_bind]. pose proof Hf1 as (Hn1 & _).
  pose proof (num_dicts_pos ty _ Hk).
  destruct (IH (set_resize_cursor kvs1 ((resize_cursor kvs + 1) mod num_dicts kvs1))) as (kvs2 & -> & Hk2 & Hf2 & Hm2).
  { apply cursor_ok; [done|]. apply Z.mod_pos_bound. lia. }
  exists kvs2. split; [done|]. split; [done|]. split; [by eapply same_frame_trans; [exact Hf1|exact Hf2]|].
  rewrite Hm2. exact Hm1.
Qed.

Lemma zsum_replicate n x : zsum (replicate n x) = Z.of_nat n * x.
Proof. induction n as [|n IH]; [done|]. cbn [replicate zsum]. rewrite IH. lia. Qed.

Lemma const_replicate {A B} (x : B) (l : list A) : (fun _ => x) <$> l = replicate (length l) x.
Proof. induction l as [|y l IH]; [done|]. cbn. by f_equal. Qed.

Lemma zero_tree n : bit_ok (Z.of_nat n) (replicate n 0) (replicate (S n) 0).
Proof.
  assert (Hps : forall i, psum (replicate n 0) i = 0).
  { intros i. unfold psum. rewrite take_replicate, zsum_replicate. lia. }
  split; [unfold zlen; rewrite length_replicate; lia|]. intros i Hi. rewrite !Hps. apply lookup_replicate. split; [done|lia].
Qed.

(** Emptying: what is left of each dict. *)
Definition emptied (fl : Z) (d : option dict) : option dict :=
  match d with
  | None => None
  | Some d => if Z.land fl KVSTORE_FREE_EMPTY_DICTS =? 0 then Some (dictEmpty d) else None
  end.

Definition put_counts (kvs : kvstore) (ds : list (option dict)) (allocated : Z) : kvstore :=
  set_counts (set_dicts kvs ds) allocated (non_empty_dicts kvs) (key_count kvs) (dict_size_index kvs).

Lemma free_emptied (kvs : kvstore) pre d rest :
  dicts kvs = pre ++ Some (dictEmpty d) :: rest ->
  freeDictIfNeeded kvs (zlen pre) = Ok (put_counts kvs (pre ++ emptied (flags kvs) (Some d) :: rest)
    (allocated_dicts kvs + one_if_some (emptied (flags kvs) (Some d)) - 1)).
Proof.
  intros Hd. unfold freeDictIfNeeded, emptied, put_counts. pose proof (zlen_nonneg pre). destruct (_ =? 0).
  { cbn. rewrite <- Hd. replace (allocated_dicts kvs + 1 - 1) with (allocated_dicts kvs) by lia. by destruct kvs. }
  unfold kvstoreDictSize, kvstoreDictIsRehashingPaused, kvstoreGetDict.
  assert (Hl : dicts kvs !! Z.to_nat (zlen pre) = Some (Some (dictEmpty d))) by by rewrite Hd, to_nat_zlen, list_lookup_middle.
  rewrite (proj2 (Z.leb_le 0 (zlen pre))), Hl by done. cbn [mbind res_bind].
  change (dictSize (dictEmpty d)) with 0. change (pauserehash (dictEmpty d)) with 0. cbn [Z.eqb negb Z.ltb Z.compare].
  rewrite put_dict_spec by (rewrite Hd, zlen_app, zlen_cons; pose proof (zlen_nonneg rest); lia). cbn [mbind res_bind one_if_some].
  rewrite Hd, to_nat_zlen, insert_app_r_alt, Nat.sub_diag by lia. cbn. by rewrite Z.add_0_r.
Qed.

Lemma empty_all_spec rest : forall (kvs : kvstore) pre,
  dicts kvs = pre ++ rest -> exists kvs', empty_all (length rest) kvs (zlen pre) = Ok kvs' /\
    kvs' = put_counts kvs (pre ++ (emptied (flags kvs) <$> rest))
      (allocated_dicts kvs + zsum (one_if_some <$> (emptied (flags kvs) <$> rest)) - zsum (one_if_some <$> rest)).
Proof.
  induction rest as [|d rest IH]; intros kvs pre Hd.
  { exists kvs. split; [done|]. unfold put_counts. cbn. rewrite <- Hd, Z.add_0_r, Z.sub_0_r. by destruct kvs. }
  pose proof (zlen_nonneg pre). pose proof (zlen_nonneg rest). cbn [length empty_all]. unfold kvstoreGetDict.
  assert (Hl : dicts kvs !! Z.to_nat (zlen pre) = Some d) by by rewrite Hd, to_nat_zlen, list_lookup_middle.
  rewrite (proj2 (Z.leb_le 0 (zlen pre))), Hl by done. cbn [mbind res_bind].
  assert (Hsnoc : forall x : option dict, zlen (pre ++ [x]) = zlen pre + 1) by (intros; by rewrite zlen_app).
  destruct d as [d|].
  - rewrite put_dict_spec by (rewrite Hd, zlen_app, zlen_cons; lia). cbn [mbind res_bind].
    rewrite Hd, to_nat_zlen, insert_app_r_alt, Nat.sub_diag by lia. cbn [insert list_insert].
    rewrite (free_emptied _ pre d rest) by done. cbn [mbind res_bind flags set_dicts allocated_dicts].
    set (e := emptied (flags kvs) (Some d)). rewrite <- (Hsnoc e).
    destruct (IH (put_counts (set_dicts kvs (pre ++ Some (dictEmpty d) :: rest)) (pre ++ e :: rest) (allocated_dicts kvs + one_if_some e - 1))
      (pre ++ [e])) as (kvs' & E & Heq); [cbn; by rewrite <- app_assoc|].
    exists kvs'. split; [exact E|]. rewrite Heq. unfold put_counts. cbn [fmap list_fmap zsum flags set_counts set_dicts allocated_dicts].
    fold e. rewrite <- app_assoc. cbn [app one_if_some]. f_equal; lia.
  - rewrite <- (Hsnoc None). destruct (IH kvs (pre ++ [None])) as (kvs' & E & Heq); [by rewrite <- app_assoc|].
    exists kvs'. split; [exact E|]. rewrite Heq. unfold put_counts. cbn [fmap list_fmap zsum emptied one_if_some].
    rewrite <- app_assoc. cbn [app]. f_equal; lia.
Qed.

Lemma empty_slots (kvs : kvstore) :
  size_of <$> (emptied (flags kvs) <$> dicts kvs) = replicate (length (dicts kvs)) 0 /\
  map_of <$> (emptied (flags kvs) <$> dicts kvs) = (fun _ => ∅) <$> maps kvs /\
  Forall (slot_ok ty) (emptied (flags kvs) <$> dicts kvs).
Proof.
  unfold maps. induction (dicts kvs) as [|d ds IH]; [done|]. destruct IH as (IH1 & IH2 & IH3).
  assert (Hd : size_of (emptied (flags kvs) d) = 0 /\ map_of (emptied (flags kvs) d) = ∅ /\ slot_ok ty (emptied (flags kvs) d)).
  { destruct d as [d|]; [|done]. cbn. destruct (_ =? 0); [|done]. split; [done|]. split; [done|]. cbn. split; [|done].
    split; [constructor|]. split; [by cbn|]. left. split; [done|]. split; [done|by left]. }
  destruct Hd as (Hd1 & Hd2 & Hd3). cbn [fmap list_fmap length replicate].
  split; [by f_equal|]. split; [by f_equal|by constructor].
Qed.

Lemma empty_kv can (kvs : kvstore) : kvs_ok ty kvs -> kv_simulates can KEmpty kvs.
Proof.
  intros Hk. pose proof (kvs_len _ _ Hk) as Hlen. unfold kv_simulates. cbn [run_kv spec_kv]. unfold kvstoreEmpty.
  destruct (empty_all_spec (dicts kvs) kvs [] eq_refl) as (kvs1 & E & Heq). rewrite zlen_nil in E.
  rewrite <- Hlen. unfold zlen at 1. rewrite Nat2Z.id, E. cbn [mbind res_bind]. eexists _, _. split; [done|].
  destruct (empty_slots kvs) as (Hs & Hm & Hok). subst kvs1. pose proof (num_dicts_pos ty _ Hk).
  split; [|split; [done|by rewrite <- Hm]].
  assert (Hfull : forall ds : list (option dict), size_of <$> ds = replicate (length ds) 0 -> zsum (one_if_full <$> ds) = 0).
  { induction ds as [|d ds IHd]; [done|]. cbn [fmap list_fmap length replicate]. intros [= Hd Hds]. cbn [zsum].
    rewrite IHd by done. unfold one_if_full. by rewrite Hd. }
  assert (Hlen' : length (emptied (flags kvs) <$> dicts kvs) = length (dicts kvs)) by apply length_fmap.
  split; cbn; unfold sizes; cbn [dicts set_counts set_resize_cursor set_dicts put_counts app]; try apply Hk; try lia.
  - unfold zlen in *. rewrite length_fmap. lia.
  - done.
  - rewrite Hs, zsum_replicate. unfold max_entries. lia.
  - rewrite Hs, zsum_replicate. lia.
  - rewrite (kvs_allocated _ _ Hk). lia.
  - rewrite Hfull; [done|]. by rewrite Hs, Hlen'.
  - intros HN. rewrite Hs. destruct (kvs_tree _ _ Hk HN) as [Htl _].
    assert (Hidx : (fun _ : Z => 0) <$> dict_size_index kvs = replicate (S (length (dicts kvs))) 0).
    { replace (S (length (dicts kvs))) with (length (dict_size_index kvs)) by (unfold zlen in *; lia).
      apply const_replicate. }
    rewrite Hidx, <- Hlen. apply zero_tree.
Qed.

Lemma expand_all_spec newsize try_expand skip_cb alloc_ok (Hs : 0 <= newsize <= 2 ^ 60) n : forall (kvs : kvstore) i,
  kvs_ok ty kvs -> 0 <= i -> i + Z.of_nat n <= num_dicts kvs ->
  exists kvs' r, expand_all n kvs newsize try_expand skip_cb alloc_ok i = Ok (kvs', r) /\ stepped kvs kvs' (maps kvs).
Proof.
  induction n as [|n IH]; intros kvs i Hk Hi Hn; [by exists kvs, true|]. cbn [expand_all].
  destruct (get_dict_spec ty kvs i Hk ltac:(lia)) as (d & -> & Hl & Hok). cbn [mbind res_bind].
  destruct d as [d|]; [|apply IH; [done|lia|lia]]. destruct (skip_cb i); [apply IH; [done|lia|lia]|].
  assert (Hone : exists d' ok, (if try_expand then dictTryExpand d newsize (alloc_ok i) else dictExpand d newsize) = Ok (d', ok) /\
    keeps ty d d') by (destruct try_expand; [by apply try_expand_keeps, Hs; apply Hok|by apply expand_any, Hs; apply Hok]).
  destruct Hone as (d' & ok & -> & Hkeep). cbn [mbind res_bind fst snd].
  destruct (slot_keeps kvs i d d' Hk ltac:(lia) Hl Hok Hkeep) as (kvs1 & -> & Hst). cbn [mbind res_bind].
  destruct (try_expand && negb ok); [by exists kvs1, false|]. destruct Hst as (Hk1 & Hf1 & Hm1). pose proof Hf1 as (Hn1 & _).
  destruct (IH kvs1 (i + 1) Hk1 ltac:(lia) ltac:(lia)) as (kvs2 & r & -> & Hk2 & Hf2 & Hm2).
  exists kvs2, r. split; [done|]. split; [done|]. split; [by eapply same_frame_trans|]. by rewrite Hm2, Hm1.
Qed.

Lemma run_kv_simulates can op (kvs : kvstore) :
  kvs_ok ty kvs -> op_in (num_dicts kvs) op -> zsum (sizes kvs) < max_entries -> kv_simulates can op kvs.
Proof.
  intros Hk Hop Hroom. destruct op as [didx k v|didx k|didx k|didx k|didx k|limit|newsize try_expand skip_cb alloc_ok|].
  - by apply add_kv.
  - by apply delete_kv.
  - by apply unlink_kv.
  - by apply find_kv.
  - destruct Hop. by apply fetch_kv.
  - destruct (resize_loop_spec can (Z.to_nat (if num_dicts kvs <? limit then num_dicts kvs else limit)) kvs Hk)
      as (kvs' & E & Hst).
    eapply (keeps_kv can _ kvs kvs'); [cbn; unfold kvstoreTryResizeDicts; by rewrite E|done|done].
  - destruct (expand_all_spec newsize try_expand skip_cb alloc_ok Hop (Z.to_nat (num_dicts kvs)) kvs 0 Hk)
      as (kvs' & r & E & Hst); [lia|pose proof (num_dicts_pos ty _ Hk); lia|].
    eapply (keeps_kv can _ kvs kvs'); [cbn; unfold kvstoreExpand; by rewrite E|done|done].
  - by apply empty_kv.
Qed.

Fixpoint run_kvs (ops : list (dictResizeEnable * kv_op)) (kvs : kvstore) : res (kvstore * list (@answer V)) :=
  match ops with
  | [] => Ok (kvs, [])
  | (can, op) :: ops =>
    r ← run_kv can op kvs;
    s ← run_kvs ops (fst r);
    Ok (fst s, snd r :: snd s)
  end.

Fixpoint spec_kvs (ops : list (dictResizeEnable * kv_op)) (ms : list kmap) : list kmap * list (@answer V) :=
  match ops with
  | [] => (ms, [])
  | (_, op) :: ops =>
    let r := spec_kv op ms in
    let s := spec_kvs ops (fst r) in
    (fst s, snd r :: snd s)
  end.

Lemma total_sizes (kvs : kvstore) : kvs_ok ty kvs -> zsum (sizes kvs) = total (maps kvs).
Proof. intros Hk. unfold total. by rewrite (sizes_maps kvs Hk). Qed.

Lemma run_kvs_simulates ops : forall (kvs : kvstore),
  kvs_ok ty kvs -> Forall (op_in (num_dicts kvs)) ops.*2 -> zsum (sizes kvs) + zlen ops <= max_entries ->
  exists kvs' answers, run_kvs ops kvs = Ok (kvs', answers) /\ kvs_ok ty kvs' /\ same_frame kvs kvs' /\
    spec_kvs ops (maps kvs) = (maps kvs', answers).
Proof.
  induction ops as [|[can op] ops IH]; intros kvs Hk Hops Hroom; [by exists kvs, []|].
  cbn in Hops. apply Forall_cons_1 in Hops as [Hop Hops]. rewrite zlen_cons in Hroom. pose proof (zlen_nonneg ops).
  destruct (run_kv_simulates can op kvs Hk Hop ltac:(lia)) as (kvs1 & a & E & Hk1 & Hf1 & Hs).
  pose proof (spec_total op (maps kvs)) as Htot. rewrite Hs in Htot. cbn [fst] in Htot. rewrite <- !total_sizes in Htot by done.
  pose proof Hf1 as (Hn1 & _).
  destruct (IH kvs1 Hk1) as (kvs2 & answers & E2 & Hk2 & Hf2 & Hs2); [by rewrite Hn1|lia|].
  exists kvs2, (a :: answers). cbn. rewrite E. cbn [mbind res_bind fst snd]. rewrite E2. split; [done|].
  split; [done|]. split; [by eapply same_frame_trans|]. rewrite Hs. cbn [fst snd]. by rewrite Hs2.
Qed.

(** ** Creation *)

Lemma create_all_spec n : forall (kvs : kvstore) i,
  kvs_ok ty kvs -> 0 <= i -> i + Z.of_nat n <= num_dicts kvs ->
  exists kvs', create_all n kvs i = Ok kvs' /\ stepped kvs kvs' (maps kvs).
Proof.
  induction n as [|n IH]; intros kvs i Hk Hi Hn; [by exists kvs|]. cbn [create_all].
  destruct (create_dict_spec ty kvs i Hk ltac:(lia)) as (kvs1 & d & -> & Hk1 & Hf1 & _ & _ & _ & Hm). cbn [mbind res_bind fst].
  pose proof Hf1 as (Hn1 & _). destruct (IH kvs1 (i + 1) Hk1 ltac:(lia) ltac:(lia)) as (kvs2 & -> & Hk2 & Hf2 & Hm2).
  exists kvs2. split; [done|]. split; [done|]. split; [by eapply same_frame_trans|]. rewrite Hm2. by eapply create_maps.
Qed.

(** The tree is allocated after the dicts; they do not depend on it. *)
Definition with_index (kvs : kvstore) (t : list Z) : kvstore :=
  set_counts kvs (allocated_dicts kvs) (non_empty_dicts kvs) (key_count kvs) t.

Lemma create_all_index n : forall (kvs : kvstore) t i,
  create_all n (with_index kvs t) i = (kvs' ← create_all n kvs i; Ok (with_index kvs' t)).
Proof.
  induction n as [|n IH]; intros kvs t i; [done|]. cbn [create_all]. unfold createDictIfNeeded.
  change (kvstoreGetDict (with_index kvs t) i) with (kvstoreGetDict kvs i).
  destruct (kvstoreGetDict kvs i) as [[d|]|]; cbn [mbind res_bind fst]; [apply IH| |done].
  unfold put_dict. change (dicts (with_index kvs t)) with (dicts kvs). destruct (_ && _); [|done]. cbn [mbind res_bind fst].
  rewrite <- IH. done.
Qed.

Lemma create_all_counts n : forall (kvs : kvstore) i kvs',
  create_all n kvs i = Ok kvs' -> non_empty_dicts kvs' = non_empty_dicts kvs /\ key_count kvs' = key_count kvs.
Proof.
  induction n as [|n IH]; intros kvs i kvs'; cbn [create_all]; [by intros [= ->]|]. unfold createDictIfNeeded.
  destruct (kvstoreGetDict kvs i) as [[d|]|]; cbn [mbind res_bind fst]; [apply IH| |done].
  unfold put_dict. destruct (_ && _); [|done]. cbn [mbind res_bind fst]. intros Hc. by apply IH in Hc.
Qed.

Lemma fmap_replicate_none {A} (g : option dict -> A) n : g <$> replicate n None = replicate n (g None).
Proof. apply fmap_replicate. Qed.

Lemma create_spec bits fl :
  0 <= bits <= 16 -> exists kvs, kvstoreCreate bits fl = Ok kvs /\ kvs_ok ty kvs /\ num_dicts kvs = 2 ^ bits /\
    num_dicts_bits kvs = bits /\ flags kvs = fl /\ maps kvs = replicate (Z.to_nat (2 ^ bits)) ∅.
Proof.
  intros Hb. unfold kvstoreCreate. rewrite (proj2 (Z.leb_le bits 16)) by lia. cbn [cassert mbind res_bind].
  rewrite Z.shiftl_mul_pow2, Z.mul_1_l by lia. pose proof (Z.pow_pos_nonneg 2 bits ltac:(lia) ltac:(lia)) as Hpos.
  set (N := 2 ^ bits) in *. set (kvs0 := {| flags := fl |}).
  set (t := if 1 <? N then replicate (Z.to_nat (N + 1)) 0 else []).
  assert (Hk0 : kvs_ok ty (with_index kvs0 t)).
  { split; cbn; unfold sizes; cbn; rewrite ?fmap_replicate_none; cbn; rewrite ?zsum_replicate; try lia; try done.
    - unfold zlen. rewrite length_replicate. lia.
    - apply Forall_replicate. done.
    - unfold max_entries. lia.
    - intros HN. unfold t. rewrite (proj2 (Z.ltb_lt 1 N)) by lia. pose proof (zero_tree (Z.to_nat N)) as Ht.
      rewrite Z2Nat.id in Ht by lia. replace (Z.to_nat (N + 1)) with (S (Z.to_nat N)) by lia. exact Ht. }
  assert (Hm0 : maps (with_index kvs0 t) = replicate (Z.to_nat N) ∅) by (unfold maps; cbn; apply fmap_replicate_none).
  assert (Hcr : exists kvs1, (if Z.land fl KVSTORE_ALLOCATE_DICTS_ON_DEMAND =? 0 then create_all (Z.to_nat N) kvs0 0 else Ok kvs0) = Ok kvs1 /\
    stepped (with_index kvs0 t) (with_index kvs1 t) (maps (with_index kvs0 t)) /\ non_empty_dicts kvs1 = 0 /\ key_count kvs1 = 0).
  { destruct (_ =? 0); [|by exists kvs0].
    destruct (create_all_spec (Z.to_nat N) (with_index kvs0 t) 0 Hk0 ltac:(lia)) as (kvs1 & E & Hst); [cbn; lia|].
    rewrite create_all_index in E. destruct (create_all (Z.to_nat N) kvs0 0) as [kvs2|] eqn:E2; [|done].
    apply create_all_counts in E2. cbn in E. injection E as <-. by exists kvs2. }
  destruct Hcr as (kvs1 & -> & (Hk1 & (Hn1 & Hb1 & Hf1) & Hm1) & Hz1 & Hz2). cbn [mbind res_bind].
  exists (with_index kvs1 t). split; [|by rewrite Hm1, Hm0].
  unfold with_index. by rewrite Hz1, Hz2.
Qed.

(** ** Scanning *)

Definition holds (kvs : kvstore) (j : Z) (k : K) : Prop :=
  0 <= j /\ exists d, dicts kvs !! Z.to_nat j = Some (Some d) /\ k ∈ (contents d).*1.

(** Tables small enough for the dict cursor to fit above the dict index. *)
Definition tables_fit (kvs : kvstore) : Prop :=
  Forall (fun d => match d with
                   | Some d => Z.max (ht_size_exp (ht0 d)) (ht_size_exp (ht1 d)) <= 64 - num_dicts_bits kvs
                   | None => True end) (dicts kvs).

(** A key still ahead of the cursor. *)
Definition ahead (at_ : Z * Z) (j : Z) (k : K) : Prop :=
  fst at_ < j \/ fst at_ = j /\ rev (snd at_) <= rev (hashFunction ty k).

Lemma aligned_small e m v : 0 <= v < 2 ^ 64 -> m <= e -> 0 <= e <= 64 -> DictScan.aligned m v -> v < 2 ^ e.
Proof.
  intros Hv Hm He Ha. destruct (Z.lt_ge_cases m 0).
  - unfold DictScan.aligned in Ha. pose proof (DictScan.rev_range v) as Hr.
    assert (2 ^ 64 <= 2 ^ (64 - m)) by (apply Z.pow_le_mono_r; lia). rewrite Z.mod_small in Ha by lia.
    apply DictScan.rev_0 in Ha as ->; [|done]. apply Z.pow_pos_nonneg; lia.
  - apply (DictScan.aligned_le m e) in Ha; [|lia|lia]. unfold DictScan.aligned in Ha.
    apply DictScan.range_bits; [lia|lia|]. intros i Hi. destruct (Z.lt_ge_cases i 64).
    + rewrite <- (DictScan.rev_rev v) by done. rewrite DictScan.rev_bit by lia.
      rewrite <- (Z.mod_pow2_bits_low _ (64 - e)) by lia. by rewrite Ha, Z.bits_0.
    + apply (DictScan.testbit_high v 64); [done|lia].
Qed.

(** The cursor keeps its two parts. *)
Lemma cursor_parts (kvs : kvstore) didx c :
  kvs_ok ty kvs -> 0 <= didx < num_dicts kvs -> 0 <= c < 2 ^ (64 - num_dicts_bits kvs) ->
  let cursor := addDictIndexToCursor kvs didx c in
  0 <= cursor < 2 ^ 64 /\ getAndClearDictIndexFromCursor kvs cursor = (didx, c) /\ (cursor = 0 -> didx = 0 /\ c = 0).
Proof.
  intros Hk Hi Hc. unfold addDictIndexToCursor, getAndClearDictIndexFromCursor. pose proof (kvs_num _ _ Hk) as Hn.
  pose proof (kvs_bits _ _ Hk) as Hb. set (b := num_dicts_bits kvs) in *.
  destruct (Z.eqb_spec (num_dicts kvs) 1) as [H1|H1]; cbv zeta.
  { assert (b = 0) as Hb0.
    { destruct (Z.lt_ge_cases 0 b); [|lia]. pose proof (Z.pow_gt_1 2 b). lia. }
    rewrite Hb0 in Hc. split; [done|]. split; [f_equal; lia|lia]. }
  rewrite (proj2 (Z.ltb_ge didx 0)) by lia.
  assert (Htot : 2 ^ 64 = 2 ^ (64 - b) * 2 ^ b) by (rewrite <- Z.pow_add_r by lia; f_equal; lia).
  pose proof (Z.pow_pos_nonneg 2 b ltac:(lia) ltac:(lia)).
  rewrite Z.shiftl_mul_pow2, (wrapu_small 64 (c * 2 ^ b)) by nia.
  rewrite <- Z.shiftl_mul_pow2, lor_shiftl_add by lia.
  split; [nia|]. split; [|nia]. rewrite Hn, land_ones_mod, Z.shiftr_div_pow2 by lia.
  rewrite Z.add_comm, Z.mod_add, Z.mod_small, Z.div_add, Z.div_small by lia. done.
Qed.

Lemma decode_range (kvs : kvstore) cursor :
  kvs_ok ty kvs -> 0 <= cursor < 2 ^ 64 ->
  let '(didx, c) := getAndClearDictIndexFromCursor kvs cursor in 0 <= didx < num_dicts kvs /\ 0 <= c < 2 ^ 64.
Proof.
  intros Hk Hc. unfold getAndClearDictIndexFromCursor. pose proof (num_dicts_pos ty _ Hk). pose proof (kvs_num _ _ Hk) as Hn.
  pose proof (kvs_bits _ _ Hk). destruct (Z.eqb_spec (num_dicts kvs) 1); [lia|].
  rewrite Hn, land_ones_mod, Z.shiftr_div_pow2 by lia.
  pose proof (Z.pow_pos_nonneg 2 (num_dicts_bits kvs)) as Hp. split; [apply Z.mod_pos_bound; lia|].
  split; [apply Z.div_pos; lia|]. apply Z.div_lt_upper_bound; [lia|]. nia.
Qed.

(** A dict with a key counts in the prefix sums. *)
Lemma holds_sum (kvs : kvstore) j k :
  kvs_ok ty kvs -> holds kvs j k -> j < num_dicts kvs /\ psum (sizes kvs) j < psum (sizes kvs) (j + 1).
Proof.
  intros Hk (Hj & d & Hl & Hin). pose proof (kvs_len _ _ Hk) as Hlen. pose proof (lookup_lt_Some _ _ _ Hl).
  split; [unfold zlen in Hlen; lia|]. pose proof (sizes_lookup _ _ _ Hl) as Hs. rewrite (psum_succ _ _ _ Hs Hj). cbn.
  pose proof (kvs_dicts _ _ Hk) as Hall. rewrite list.Forall_forall in Hall.
  destruct (Hall _ (list_elem_of_lookup_2 _ _ _ Hl)) as [Hd _]. rewrite (dictSize_spec ty) by done.
  destruct (contents d) as [|? l]; [by apply elem_of_nil in Hin|]. rewrite zlen_cons. pose proof (zlen_nonneg l). lia.
Qed.

(** What a call reports and where the next cursor stands. *)
Definition advanced (kvs : kvstore) (at_ : Z * Z) (cursor' : Z) (out : list dictEntry) : Prop :=
  forall j k, holds kvs j k -> ahead at_ j k ->
  k ∈ de_key <$> out \/ cursor' <> 0 /\ ahead (getAndClearDictIndexFromCursor kvs cursor') j k.

(** Moving on to the next dict that is not empty. *)
Lemma next_dict_advanced (kvs kvs' : kvstore) didx c out :
  kvs_ok ty kvs -> kvs_ok ty kvs' -> same_frame kvs kvs' -> sizes kvs' = sizes kvs -> 0 <= didx < num_dicts kvs ->
  (forall k, holds kvs didx k -> rev c <= rev (hashFunction ty k) -> k ∈ de_key <$> out) ->
  exists r, (n ← kvstoreGetNextNonEmptyDictIndex kvs' didx;
    if n =? -1 then Ok (kvs', 0, out) else Ok (kvs', addDictIndexToCursor kvs' n 0, out)) = Ok (kvs', r, out) /\
    0 <= r < 2 ^ 64 /\ advanced kvs (didx, c) r out.
Proof.
  intros Hk Hk' (Hn & Hb & _) Hsz Hi Hcov. pose proof (sizes_nonneg ty _ Hk) as Hnn.
  destruct (next_index_spec ty kvs' didx Hk' ltac:(lia)) as (n & -> & Hnext). cbn [mbind res_bind]. rewrite Hsz in Hnext.
  assert (Hlater : forall j k, holds kvs j k -> didx < j -> psum (sizes kvs) (didx + 1) < psum (sizes kvs) (j + 1)).
  { intros j k Hh Hlt. destruct (holds_sum kvs j k Hk Hh) as [_ Hs].
    pose proof (psum_mono (sizes kvs) (didx + 1) j Hnn ltac:(lia)). lia. }
  assert (Hhere : forall j k, holds kvs j k -> ahead (didx, c) j k -> ~ didx < j -> k ∈ de_key <$> out).
  { intros j k Hh Ha Hnlt. unfold ahead in Ha. cbn in Ha. destruct Ha as [|[-> Hle]]; [done|]. by apply Hcov. }
  destruct Hnext as [[-> Hall]|(Hr & Heq & Hgt)].
  - exists 0. split; [done|]. split; [lia|]. intros j k Hh Ha. left. destruct (decide (didx < j)) as [Hlt|]; [|by eapply Hhere].
    pose proof (Hlater j k Hh Hlt). pose proof (psum_le (sizes kvs) (j + 1) Hnn). lia.
  - rewrite (proj2 (Z.eqb_neq n (-1))) by lia. pose proof (Z.pow_pos_nonneg 2 (64 - num_dicts_bits kvs')) as Hp.
    pose proof (kvs_bits _ _ Hk'). destruct (cursor_parts kvs' n 0 Hk' ltac:(lia) ltac:(lia)) as (Hrange & Hdec & Hzero).
    cbv zeta in *. eexists. split; [done|]. split; [done|]. intros j k Hh Ha.
    destruct (decide (didx < j)) as [Hlt|]; [|left; by eapply Hhere]. right. split; [intros Hz; apply Hzero in Hz; lia|].
    assert (Hdec' : getAndClearDictIndexFromCursor kvs (addDictIndexToCursor kvs' n 0) = (n, 0)).
    { rewrite <- Hdec. unfold getAndClearDictIndexFromCursor. by rewrite Hn, Hb. }
    rewrite Hdec'. unfold ahead. cbn [fst snd]. destruct (Z.lt_trichotomy n j) as [|[->|Hgtj]]; [by left| |].
    + right. split; [done|]. rewrite DictScan.rev_zero. apply DictScan.rev_range.
    + pose proof (Hlater j k Hh Hlt). pose proof (psum_mono (sizes kvs) (j + 1) n Hnn ltac:(destruct Hh; lia)). lia.
Qed.

Lemma scan_entries (d : dict) k :
  k ∈ (contents d).*1 -> exists de, de_key de = k /\ (de ∈ concat (ht_table (ht0 d)) \/ de ∈ concat (ht_table (ht1 d))).
Proof. apply DictScan.key_entry. Qed.

Lemma kvstoreScan_spec (kvs : kvstore) cursor :
  kvs_ok ty kvs -> tables_fit kvs -> 0 <= cursor < 2 ^ 64 ->
  exists kvs' cursor' out, kvstoreScan kvs cursor (-1) = Ok (kvs', cursor', out) /\ kvs_ok ty kvs' /\
    maps kvs' = maps kvs /\ 0 <= cursor' < 2 ^ 64 /\
    advanced kvs (getAndClearDictIndexFromCursor kvs cursor) cursor' out.
Proof.
  intros Hk Hfit Hc. unfold kvstoreScan. pose proof (decode_range kvs cursor Hk Hc) as Hdec.
  destruct (getAndClearDictIndexFromCursor kvs cursor) as [didx c]. destruct Hdec as [Hi Hcr]. cbn [Z.leb Z.compare andb].
  destruct (get_dict_spec ty kvs didx Hk Hi) as (d & E & Hl & Hok). cbn [mbind res_bind]. rewrite E. cbn [mbind res_bind].
  assert (Hunique : forall d' k, d = Some d' -> holds kvs didx k -> k ∈ (contents d').*1).
  { intros d' k -> (_ & d0 & Hl0 & Hin). rewrite Hl in Hl0. by injection Hl0 as <-. }
  destruct d as [d|].
  2: { cbn [mbind res_bind Z.eqb]. destruct (next_dict_advanced kvs kvs didx c [] Hk Hk) as (r & E2 & Hr & Hadv); try done.
       { intros k (_ & d0 & Hl0 & _). congruence. }
       exists kvs, r, []. done. }
  destruct Hok as (Hd & _). destruct (DictScan.dictScan_spec ty d c Hd Hcr) as (c' & out & E1 & Hc' & Hprog & Hcov & Hsub).
  rewrite E1. cbn [mbind res_bind fst snd].
  destruct (free_dict_spec ty kvs didx Hk Hi) as (kvs1 & -> & Hk1 & Hf1 & Hsz1 & Hm1). cbn [mbind res_bind fst snd].
  pose proof (free_maps kvs kvs1 _ Hk Hm1) as Hmaps. pose proof Hf1 as (Hn1 & Hb1 & _).
  assert (Hemit : forall k, holds kvs didx k -> rev c <= rev (hashFunction ty k) ->
    c' = 0 \/ rev (hashFunction ty k) < rev c' -> k ∈ de_key <$> out).
  { intros k Hh Hle Hend. destruct (scan_entries d k (Hunique d k eq_refl Hh)) as (de & <- & Hde).
    apply list_elem_of_fmap. exists de. split; [done|]. by apply Hcov. }
  destruct (Z.eqb_spec c' 0) as [Hz|Hz].
  - destruct (next_dict_advanced kvs kvs1 didx c out Hk Hk1 Hf1 Hsz1 Hi) as (r & E2 & Hr & Hadv).
    { intros k Hh Hle. apply Hemit; [done|done|by left]. }
    exists kvs1, r, out. rewrite Hz. done.
  - destruct Hprog as [|[Hlt Hal]]; [done|].
    assert (Hsmall : c' < 2 ^ (64 - num_dicts_bits kvs)).
    { eapply aligned_small; [done| | |exact Hal]; [|pose proof (kvs_bits _ _ Hk); lia].
      unfold tables_fit in Hfit. rewrite list.Forall_forall in Hfit. apply (Hfit (Some d)). by eapply list_elem_of_lookup_2. }
    destruct (cursor_parts kvs1 didx c' Hk1 ltac:(lia) ltac:(rewrite Hb1; lia)) as (Hrange & Hdec & Hzero). cbv zeta in *.
    exists kvs1, (addDictIndexToCursor kvs1 didx c'), out. split; [done|]. split; [done|]. split; [done|]. split; [done|].
    intros j k Hh Ha.
    assert (Hdec' : getAndClearDictIndexFromCursor kvs (addDictIndexToCursor kvs1 didx c') = (didx, c')).
    { rewrite <- Hdec. unfold getAndClearDictIndexFromCursor. by rewrite Hn1, Hb1. }
    rewrite Hdec'. unfold ahead in *. cbn [fst snd] in *.
    assert (Hnz : addDictIndexToCursor kvs1 didx c' <> 0) by (intros H0; apply Hzero in H0; lia).
    destruct Ha as [Hlt'|[-> Hle]]; [right; split; [done|by left]|].
    destruct (Z.lt_ge_cases (rev (hashFunction ty k)) (rev c')); [left; apply Hemit; auto|right; auto].
Qed.

(** The calls of a scan over the whole kvstore, each on its state by then. *)
Fixpoint kv_scan_calls (kss : list kvstore) (cursor : Z) : res (Z * list dictEntry) :=
  match kss with
  | [] => Ok (cursor, [])
  | kvs :: kss =>
    r ← kvstoreScan kvs cursor (-1);
    let '(_, cursor, out) := r in
    s ← kv_scan_calls kss cursor;
    Ok (fst s, out ++ snd s)
  end.

Lemma kv_scan_covers bits kss : forall cursor,
  Forall (fun kvs => kvs_ok ty kvs /\ num_dicts_bits kvs = bits /\ tables_fit kvs) kss -> 0 <= cursor < 2 ^ 64 ->
  exists cursor' out, kv_scan_calls kss cursor = Ok (cursor', out) /\
  forall j k, (forall kvs, head kss = Some kvs -> ahead (getAndClearDictIndexFromCursor kvs cursor) j k) ->
    Forall (fun kvs => holds kvs j k) kss -> kss <> [] -> cursor' = 0 -> k ∈ de_key <$> out.
Proof.
  induction kss as [|kvs kss IH]; intros cursor Hok Hc; [by eexists _, _|]. cbn [kv_scan_calls].
  apply Forall_cons_1 in Hok as [(Hk & Hb & Hfit) Hok].
  destruct (kvstoreScan_spec kvs cursor Hk Hfit Hc) as (kvs' & c1 & out & -> & _ & _ & Hc1 & Hadv). cbn [mbind res_bind].
  destruct (IH c1 Hok Hc1) as (c2 & out2 & E2 & Hcov). rewrite E2. cbn [mbind res_bind fst snd]. eexists _, _. split; [done|].
  intros j k Ha Hall _ Hz. apply Forall_cons_1 in Hall as [Hh Hall]. rewrite fmap_app, elem_of_app.
  destruct (Hadv j k Hh (Ha kvs eq_refl)) as [Hin|[Hnz Ha']]; [by left|right].
  destruct kss as [|kvs2 kss]; [cbn in E2; congruence|].
  apply (Hcov j k); try done. intros kvs0 [= <-].
  apply Forall_cons_1 in Hok as [(Hk2 & Hb2 & _) _].
  assert (Hsame : getAndClearDictIndexFromCursor kvs2 c1 = getAndClearDictIndexFromCursor kvs c1).
  { unfold getAndClearDictIndexFromCursor. by rewrite (kvs_num _ _ Hk2), (kvs_num _ _ Hk), Hb, Hb2. }
  by rewrite Hsame.
Qed.

End spec.

(** ** Results *)

(** How many maps hold a key. *)
Definition count_full {K V} `{Countable K} (ms : list (gmap K (option V))) : Z :=
  zsum ((fun m : gmap K (option V) => if Z.of_nat (size m) =? 0 then 0 else 1) <$> ms).

Lemma count_full_spec `{Countable K} {V} (ty : @dictType K) {Hty : DictTypeOk ty} (kvs : @kvstore K V) :
  kvs_ok ty kvs -> kvstoreNumNonEmptyDicts kvs = count_full (maps kvs).
Proof.
  intros Hk. unfold kvstoreNumNonEmptyDicts, count_full. rewrite (kvs_non_empty _ _ Hk).
  assert (Hf : one_if_full <$> dicts kvs = (fun x => if x =? 0 then 0 else 1) <$> sizes kvs)
    by (unfold sizes; by rewrite <- list_fmap_compose).
  rewrite Hf, (sizes_maps ty kvs Hk), <- list_fmap_compose. done.
Qed.

(** C2. A kvstore of up to 2^16 dicts is an array of finite maps: from
    [kvstoreCreate], any sequence of additions, deletions, two-phase unlinks,
    lookups, value fetches (in stores whose dict type has values), expansions
    to at most 2^60 buckets, background resizes and emptyings, on dict indexes
    in range, under any resize policy, runs without fault and answers as the array of maps does, and [kvstoreSize] and
    [kvstoreNumNonEmptyDicts] count its keys and its non-empty maps, whatever
    the flags for allocating and freeing dicts. *)
Theorem kvstore_refines_maps `{Countable K} {V : Type} (ty : @dictType K) {Hty : DictTypeOk ty}
    (bits fl : Z) (ops : list (dictResizeEnable * @kv_op K V)) :
  0 <= bits <= 16 -> Forall (op_in ty (2 ^ bits)) ops.*2 -> zlen ops <= max_entries ->
  exists kvs0 kvs answers, kvstoreCreate bits fl = Ok kvs0 /\ run_kvs ty ops kvs0 = Ok (kvs, answers) /\
    spec_kvs ty ops (replicate (Z.to_nat (2 ^ bits)) ∅) = (maps kvs, answers) /\ kvs_ok ty kvs /\
    kvstoreSize kvs = Ok (total (maps kvs)) /\ kvstoreNumNonEmptyDicts kvs = count_full (maps kvs).
Proof.
  intros Hb Hops Hlen. destruct (create_spec (V := V) ty bits fl Hb) as (kvs0 & E0 & Hk0 & Hn0 & _ & _ & Hm0).
  assert (Hz : zsum (sizes kvs0) = 0).
  { rewrite (sizes_maps ty kvs0 Hk0), Hm0, fmap_replicate, zsum_replicate, map_size_empty. lia. }
  destruct (run_kvs_simulates ty ops kvs0 Hk0) as (kvs & a & E & Hk & _ & Hs); [by rewrite Hn0|lia|].
  exists kvs0, kvs, a. rewrite Hm0 in Hs. split; [done|]. split; [done|]. split; [done|]. split; [done|].
  rewrite (kvstoreSize_spec ty kvs Hk), (total_sizes ty kvs Hk). split; [done|]. by apply (count_full_spec ty).
Qed.

Definition kv_sample : list (dictResizeEnable * @kv_op Z Z) :=
  (fun i => (DICT_RESIZE_ENABLE, KAdd (i mod 3) i (i + 100))) <$> seqZ 0 14.
Definition kv_more : list (dictResizeEnable * @kv_op Z Z) :=
  [(DICT_RESIZE_AVOID, KUnlink 1 4); (DICT_RESIZE_ENABLE, KDelete 2 5); (DICT_RESIZE_ENABLE, KFetch 0 9);
   (DICT_RESIZE_ENABLE, KAdd 0 9 1); (DICT_RESIZE_ENABLE, KResize 4)].

Lemma kv_sample_in : Forall (op_in numbers (2 ^ 2)) (kv_sample ++ kv_more).*2.
Proof. repeat constructor; vm_compute; congruence. Qed.

Lemma kvstore_refines_maps_witness :
  exists kvs0 kvs answers, kvstoreCreate 2 3 = Ok kvs0 /\ run_kvs numbers (kv_sample ++ kv_more) kvs0 = Ok (kvs, answers) /\
    spec_kvs numbers (kv_sample ++ kv_more) (replicate (Z.to_nat (2 ^ 2)) ∅) = (maps kvs, answers) /\ kvs_ok numbers kvs /\
    kvstoreSize kvs = Ok (total (maps kvs)) /\ kvstoreNumNonEmptyDicts kvs = count_full (maps kvs).
Proof. apply (kvstore_refines_maps numbers 2 3); [lia|exact kv_sample_in|vm_compute; congruence]. Defined.

(** A kvstore of four dicts with 5, 5, 4 and no keys. *)
Definition kv_sample_store : @kvstore Z Z :=
  match kvs ← kvstoreCreate 2 3; run_kvs numbers kv_sample kvs with
  | Ok r => fst r
  | Fault _ => Build_kvstore 0 [] 0 0 0 0 0 0 []
  end.

Lemma kv_sample_store_ok : kvs_ok numbers kv_sample_store.
Proof.
  destruct (create_spec (V := Z) numbers 2 3 ltac:(lia)) as (kvs0 & E0 & Hk0 & Hn0 & _ & _ & Hm0).
  assert (Hz : zsum (sizes kvs0) = 0).
  { rewrite (sizes_maps numbers kvs0 Hk0), Hm0, fmap_replicate, zsum_replicate, map_size_empty. lia. }
  destruct (run_kvs_simulates numbers kv_sample kvs0 Hk0) as (kvs & a & E & Hk & _).
  - rewrite Hn0. pose proof kv_sample_in as Hin. rewrite fmap_app in Hin. by apply Forall_app in Hin as [? _].
  - rewrite Hz. vm_compute. congruence.
  - unfold kv_sample_store. rewrite E0. cbn [mbind res_bind]. by rewrite E.
Qed.

(** The binary indexed tree finds keys by their number: for a target
    between 1 and the number of keys, the dict returned is the one that holds
    the target-th key when the dicts are counted through in order. *)
Theorem kvstoreFindDictIndex_finds `{Countable K} {V : Type} (ty : @dictType K) {Hty : DictTypeOk ty}
    (kvs : @kvstore K V) (target : Z) :
  kvs_ok ty kvs -> 1 <= target <= zsum (sizes kvs) ->
  exists r, kvstoreFindDictIndexByKeyIndex kvs target = Ok r /\ 0 <= r < num_dicts kvs /\
    zsum (take (Z.to_nat r) (sizes kvs)) < target <= zsum (take (Z.to_nat (r + 1)) (sizes kvs)).
Proof. exact (find_index_spec ty kvs target). Qed.

Lemma kvstoreFindDictIndex_finds_witness :
  sizes kv_sample_store = [5; 5; 4; 0] /\
  exists r, kvstoreFindDictIndexByKeyIndex kv_sample_store 11 = Ok r /\ 0 <= r < num_dicts kv_sample_store /\
    zsum (take (Z.to_nat r) (sizes kv_sample_store)) < 11 <= zsum (take (Z.to_nat (r + 1)) (sizes kv_sample_store)).
Proof.
  split; [vm_compute; reflexivity|]. apply (kvstoreFindDictIndex_finds numbers); [exact kv_sample_store_ok|].
  split; vm_compute; congruence.
Defined.

(** The next dict to visit: [kvstoreGetNextNonEmptyDictIndex] returns the
    first dict after the given one that has keys, and -1 exactly when none of
    the later dicts has. *)
Theorem kvstoreGetNext_next `{Countable K} {V : Type} (ty : @dictType K) {Hty : DictTypeOk ty}
    (kvs : @kvstore K V) (didx : Z) :
  kvs_ok ty kvs -> 0 <= didx < num_dicts kvs ->
  exists r, kvstoreGetNextNonEmptyDictIndex kvs didx = Ok r /\
  (r = -1 /\ (forall j n, didx < j -> sizes kvs !! Z.to_nat j = Some n -> n = 0) \/
   didx < r < num_dicts kvs /\ (exists n, sizes kvs !! Z.to_nat r = Some n /\ 0 < n) /\
   (forall j n, didx < j < r -> sizes kvs !! Z.to_nat j = Some n -> n = 0)).
Proof.
  intros Hk Hi. pose proof (sizes_nonneg ty kvs Hk) as Hnn. pose proof (kvs_len _ _ Hk) as Hlen.
  destruct (next_index_spec ty kvs didx Hk Hi) as (r & E & Hr). exists r. split; [done|].
  destruct Hr as [[-> Hall]|(Hr & Heq & Hlt)]; [left|right].
  - split; [done|]. intros j n Hj Hn. pose proof (lookup_lt_Some _ _ _ Hn).
    apply (empty_between (sizes kvs) (didx + 1) (j + 1) j n); try done; try lia.
    pose proof (psum_mono (sizes kvs) (didx + 1) (j + 1) Hnn ltac:(lia)). pose proof (psum_le (sizes kvs) (j + 1) Hnn). lia.
  - split; [done|]. split; [|intros j n Hj Hn; by apply (empty_between (sizes kvs) (didx + 1) r j n); try done; lia].
    destruct (lookup_lt_is_Some_2 (sizes kvs) (Z.to_nat r)) as [n Hn].
    { pose proof (zlen_sizes kvs) as Hz. unfold zlen in *. lia. }
    exists n. split; [done|]. rewrite (psum_succ _ _ _ Hn) in Hlt by lia. lia.
Qed.

Lemma kvstoreGetNext_next_witness :
  exists r, kvstoreGetNextNonEmptyDictIndex kv_sample_store 0 = Ok r /\
  (r = -1 /\ (forall j n, 0 < j -> sizes kv_sample_store !! Z.to_nat j = Some n -> n = 0) \/
   0 < r < num_dicts kv_sample_store /\ (exists n, sizes kv_sample_store !! Z.to_nat r = Some n /\ 0 < n) /\
   (forall j n, 0 < j < r -> sizes kv_sample_store !! Z.to_nat j = Some n -> n = 0)).
Proof.
  apply (kvstoreGetNext_next numbers); [exact kv_sample_store_ok|]. split; vm_compute; congruence.
Defined.

(** C15. Scanning the whole key space misses nothing that stays: across any
    changes, resizes and freed dicts between the calls, when the cursor is
    back at 0 every key that was in a given dict at every call has been
    reported, as long as the dict cursors fit above the dict index ([tables_fit]: a table of
    a store of 2^b dicts has at most 2^(64-b) buckets). *)
Theorem kvstoreScan_complete `{Countable K} {V : Type} (ty : @dictType K) {Hty : DictTypeOk ty}
    (bits : Z) (kss : list (@kvstore K V)) :
  Forall (fun kvs => kvs_ok ty kvs /\ num_dicts_bits kvs = bits /\ tables_fit kvs) kss -> kss <> [] ->
  exists cursor out, kv_scan_calls kss 0 = Ok (cursor, out) /\
  (cursor = 0 -> forall j k, Forall (fun kvs => holds kvs j k) kss -> k ∈ de_key <$> out).
Proof.
  intros Hok Hne. destruct (kv_scan_covers ty bits kss 0 Hok ltac:(lia)) as (c & out & E & Hcov).
  exists c, out. split; [done|]. intros Hz j k Hall. apply (Hcov j k); try done.
  intros kvs Hhd. destruct kss as [|kvs' kss]; [done|]. injection Hhd as ->.
  apply Forall_cons_1 in Hall as [(Hj & _) _]. unfold getAndClearDictIndexFromCursor, ahead.
  assert (Hrev : rev 0 <= rev (hashFunction ty k)) by (rewrite DictScan.rev_zero; apply DictScan.rev_range).
  destruct (num_dicts kvs =? 1); cbn [fst snd]; rewrite ?Z.land_0_l, ?Z.shiftr_0_l; lia.
Qed.

Lemma kvstoreScan_complete_witness :
  exists cursor out, kv_scan_calls (replicate 30 kv_sample_store) 0 = Ok (cursor, out) /\
  (cursor = 0 -> forall j k, Forall (fun kvs => holds kvs j k) (replicate 30 kv_sample_store) -> k ∈ de_key <$> out).
Proof.
  apply (kvstoreScan_complete numbers 2); [|done]. apply Forall_replicate. split; [exact kv_sample_store_ok|].
  split; [vm_compute; reflexivity|]. unfold tables_fit. vm_compute. repeat constructor; congruence.
Defined.

End KvstoreSpec.
