(* ===== verification/Lzf.v ===== *)
(** * LZF compression (lzf_c.c, lzf_d.c).

    The compressor and decompressor that Redis uses for strings in RDB files
    and for the inner nodes of quicklists, in the configuration of lzfP.h:
    [VERY_FAST], an unaligned 16 bit comparison, a hash table that is not
    initialised ([INIT_HTAB 0]) and checked input ([CHECK_INPUT 1]).

    Pointers into the input and the output are offsets from their start; an
    access outside the buffers is a fault.  A slot of the hash table holds a
    pointer, so an offset that may be anything: the initial table is an
    argument. *)

From S2P Require Import Prelude.
#[local] Open Scope Z_scope.

Module Lzf.

Definition HLOG : Z := 16.
Definition HSIZE : Z := Z.shiftl 1 HLOG.
Definition MAX_LIT : Z := Z.shiftl 1 5.
Definition MAX_OFF : Z := Z.shiftl 1 13.
Definition MAX_REF : Z := Z.shiftl 1 8 + Z.shiftl 1 3.

(** ** Compression *)

Section compress.
Context (inp : bytes) (out_len : Z).

Definition in_len : Z := zlen inp.

Definition FRST (p : Z) : res Z :=
  a ← rd inp p; b ← rd inp (p + 1); Ok (Z.lor (Z.shiftl a 8) b).

Definition NEXT (v p : Z) : res Z :=
  c ← rd inp (p + 2); Ok (Z.lor (u32 (Z.shiftl v 8)) c).

Definition IDX (h : Z) : Z :=
  Z.land (u32 (Z.shiftr h (3 * 8 - HLOG) - u32 (h * 5))) (HSIZE - 1).

Definition hash_table : Type := Z -> Z.
Definition hset (htab : hash_table) (i v : Z) : hash_table := fun j => if j =? i then v else htab j.

(** The test for a match at [ref]; [off] is a [size_t]. *)
Definition is_match (ip ref : Z) : res (option Z) :=
  let off := u64 (ip - ref - 1) in
  if negb (off <? MAX_OFF) then Ok None else
  if negb (0 <? ref) then Ok None else
  r2 ← rd inp (ref + 2); i2 ← rd inp (ip + 2);
  if negb (r2 =? i2) then Ok None else
  r ← rdn inp ref 2; i ← rdn inp ip 2;
  if bool_decide (r = i) then Ok (Some off) else Ok None.

(** The sixteen unrolled comparisons: [inl len] where one fails, [inr len]
    when all succeed. *)
Fixpoint unrolled (n : nat) (ip ref len : Z) : res (Z + Z) :=
  match n with
  | O => Ok (inr len)
  | S n =>
    let len := len + 1 in
    r ← rd inp (ref + len); i ← rd inp (ip + len);
    if negb (r =? i) then Ok (inl len) else unrolled n ip ref len
  end.

(** [do len++; while (len < maxlen && ref[len] == ip[len]);] *)
Fixpoint extend (fuel : nat) (ip ref maxlen len : Z) : res Z :=
  match fuel with
  | O => Fault OutOfFuel
  | S fuel =>
    let len := len + 1 in
    if len <? maxlen then
      r ← rd inp (ref + len); i ← rd inp (ip + len);
      if r =? i then extend fuel ip ref maxlen len else Ok len
    else Ok len
  end.

Definition match_length (ip ref : Z) : res Z :=
  let len := 2 in
  let maxlen := in_len - ip - len in
  let maxlen := if MAX_REF <? maxlen then MAX_REF else maxlen in
  r ← (if 16 <? maxlen then unrolled 16 ip ref len else Ok (inr len));
  match r with
  | inl len => Ok len
  | inr len => extend (S (length inp)) ip ref maxlen len
  end.

(** [op [- lit - 1] = lit - 1] *)
Definition stop_run (out : bytes) (op lit : Z) : res bytes := wr out (op - lit - 1) (lit - 1).

Record state : Type := { c_ip : Z; c_op : Z; c_lit : Z; c_hval : Z; c_htab : hash_table; c_out : bytes }.

(** The body of the main loop: [None] for [return 0], otherwise the state and
    whether the loop goes on. *)
Definition compress_match (s : state) (ref off : Z) (htab : hash_table) (hval : Z) : res (option (state * bool)) :=
  let ip := c_ip s in let op := c_op s in let lit := c_lit s in
  let nolit := if lit =? 0 then 1 else 0 in
  if (out_len <=? op + 3 + 1) && (out_len <=? op - nolit + 3 + 1) then Ok None else
  out ← stop_run (c_out s) op lit;
  let op := op - nolit in
  len ← match_length ip ref;
  let len := len - 2 in
  let ip := ip + 1 in
  r ← (if len <? 7 then
         out ← wr out op (Z.shiftr off 8 + Z.shiftl len 5); Ok (out, op + 1)
       else
         out ← wr out op (Z.shiftr off 8 + Z.shiftl 7 5);
         out ← wr out (op + 1) (len - 7); Ok (out, op + 2));
  let '(out, op) := r in
  out ← wr out op off;
  let op := op + 1 in
  let lit := 0 in let op := op + 1 in
  let ip := ip + (len + 1) in
  if in_len - 2 <=? ip then
    Ok (Some ({| c_ip := ip; c_op := op; c_lit := lit; c_hval := hval; c_htab := htab; c_out := out |}, false))
  else
    let ip := ip - 1 in let ip := ip - 1 in
    hval ← FRST ip;
    hval ← NEXT hval ip;
    let htab := hset htab (IDX hval) ip in
    let ip := ip + 1 in
    hval ← NEXT hval ip;
    let htab := hset htab (IDX hval) ip in
    let ip := ip + 1 in
    Ok (Some ({| c_ip := ip; c_op := op; c_lit := lit; c_hval := hval; c_htab := htab; c_out := out |}, true)).

(** One literal byte: [lit++; *op++ = *ip++;] and the end of a full run. *)
Definition literal (s : state) (htab : hash_table) (hval : Z) : res state :=
  c ← rd inp (c_ip s);
  let lit := c_lit s + 1 in
  out ← wr (c_out s) (c_op s) c;
  let op := c_op s + 1 in
  let ip := c_ip s + 1 in
  if lit =? MAX_LIT then
    out ← stop_run out op lit;
    Ok {| c_ip := ip; c_op := op + 1; c_lit := 0; c_hval := hval; c_htab := htab; c_out := out |}
  else Ok {| c_ip := ip; c_op := op; c_lit := lit; c_hval := hval; c_htab := htab; c_out := out |}.

(** [while (ip < in_end - 2)]: [inl out] for [return 0]. *)
Fixpoint compress_loop (fuel : nat) (s : state) : res (bytes + state) :=
  match fuel with
  | O => Fault OutOfFuel
  | S fuel =>
    if c_ip s <? in_len - 2 then
      hval ← NEXT (c_hval s) (c_ip s);
      let i := IDX hval in
      let ref := c_htab s i in
      let htab := hset (c_htab s) i (c_ip s) in
      m ← is_match (c_ip s) ref;
      match m with
      | Some off =>
        r ← compress_match s ref off htab hval;
        match r with
        | None => Ok (inl (c_out s))
        | Some (s, true) => compress_loop fuel s
        | Some (s, false) => Ok (inr s)
        end
      | None =>
        if out_len <=? c_op s then Ok (inl (c_out s)) else
        s ← literal s htab hval;
        compress_loop fuel s
      end
    else Ok (inr s)
  end.

(** [while (ip < in_end)] *)
Fixpoint tail_loop (fuel : nat) (s : state) : res state :=
  match fuel with
  | O => Fault OutOfFuel
  | S fuel =>
    if c_ip s <? in_len then s ← literal s (c_htab s) (c_hval s); tail_loop fuel s
    else Ok s
  end.

(** [lzf_compress] into the buffer [out] of [out_len] bytes: the number of
    bytes written, 0 when they do not fit, and the buffer. *)
Definition lzf_compress (htab : hash_table) (out : bytes) : res (Z * bytes) :=
  if (in_len =? 0) || (out_len =? 0) then Ok (0, out) else
  hval ← FRST 0;
  r ← compress_loop (S (length inp))
        {| c_ip := 0; c_op := 1; c_lit := 0; c_hval := hval; c_htab := htab; c_out := out |};
  match r with
  | inl out => Ok (0, out)
  | inr s =>
    if out_len <? c_op s + 3 then Ok (0, c_out s) else
    s ← tail_loop (S (length inp)) s;
    out ← stop_run (c_out s) (c_op s) (c_lit s);
    Ok (c_op s - (if c_lit s =? 0 then 1 else 0), out)
  end.

End compress.

(** ** Decompression *)

Section decompress.
Context (inp : bytes) (in_end out_end : Z).

(** [do *op++ = *ref++; while (--len);], and the unrolled copies. *)
Fixpoint copy_out (n : nat) (out : bytes) (op ref : Z) : res bytes :=
  match n with
  | O => Ok out
  | S n => c ← rd out ref; out ← wr out op c; copy_out n out (op + 1) (ref + 1)
  end.

Fixpoint copy_in (n : nat) (out : bytes) (op ip : Z) : res bytes :=
  match n with
  | O => Ok out
  | S n => c ← rd inp ip; out ← wr out op c; copy_in n out (op + 1) (ip + 1)
  end.

(** [switch (len)] of a back reference: short ones byte by byte, long ones with
    [memcpy] where the areas do not overlap. *)
Definition copy_ref (out : bytes) (op ref len : Z) : res bytes :=
  let n := len + 2 in
  if len <=? 9 then copy_out (Z.to_nat n) out op ref
  else if ref + n <=? op then s ← rdn out ref n; wrn out op s
  else copy_out (Z.to_nat n) out op ref.

(** [while (ip < in_end)]; 0 is the error return. *)
Fixpoint decompress_loop (fuel : nat) (ip op : Z) (out : bytes) : res (Z * bytes) :=
  match fuel with
  | O => Fault OutOfFuel
  | S fuel =>
    if ip <? in_end then
      ctrl ← rd inp ip;
      let ip := ip + 1 in
      if ctrl <? Z.shiftl 1 5 then
        let ctrl := ctrl + 1 in
        if out_end <? op + ctrl then Ok (0, out) else
        if in_end <? ip + ctrl then Ok (0, out) else
        out ← copy_in (Z.to_nat ctrl) out op ip;
        decompress_loop fuel (ip + ctrl) (op + ctrl) out
      else
        let len := Z.shiftr ctrl 5 in
        let ref := op - Z.shiftl (Z.land ctrl 0x1f) 8 - 1 in
        if in_end <=? ip then Ok (0, out) else
        r ← (if len =? 7 then
               c ← rd inp ip;
               let len := len + c in let ip := ip + 1 in
               if in_end <=? ip then Ok None else Ok (Some (len, ip))
             else Ok (Some (len, ip)));
        match r with
        | None => Ok (0, out)
        | Some (len, ip) =>
          c ← rd inp ip;
          let ref := ref - c in let ip := ip + 1 in
          if out_end <? op + len + 2 then Ok (0, out) else
          if ref <? 0 then Ok (0, out) else
          out ← copy_ref out op ref len;
          decompress_loop fuel ip (op + len + 2) out
        end
    else Ok (op, out)
  end.

(** [lzf_decompress] into the buffer [out] of [out_end] bytes. *)
Definition lzf_decompress (out : bytes) : res (Z * bytes) :=
  decompress_loop (S (Z.to_nat in_end)) 0 0 out.

End decompress.

End Lzf.
