(* ===== verification/LzfSpec.v ===== *)
(** * LZF compression: the round trip and the safety of the decompressor.

    The compressed format is given by the inductive relation [Enc]: [Enc d c]
    says that the bytes [c] are a sequence of literal runs and back references
    that stands for [d].  The decompressor is shown to produce [d] from any
    [c] with [Enc d c], and the compressor to keep an [Enc] of what it has
    consumed in front of the run it is building.  The round trip is the
    composition of the two; it does not depend on the hash function nor on
    the initial contents of the hash table. *)

From S2P Require Import Prelude Lzf.
#[local] Open Scope Z_scope.

Module LzfSpec.
Import Lzf.

(** ** The format *)

(** A back reference of [n] bytes at distance [off + 1]. *)
Definition ref_code (off n : Z) : bytes :=
  let len := n - 2 in
  if len <? 7 then [off / 256 + len * 32; off mod 256]
  else [off / 256 + 7 * 32; len - 7; off mod 256].

Inductive Enc : bytes -> bytes -> Prop :=
| Enc_nil : Enc [] []
| Enc_lit d c s :
    Enc d c -> 1 <= zlen s <= 32 -> Enc (d ++ s) (c ++ (zlen s - 1) :: s)
| Enc_ref d c s off :
    Enc d c -> 3 <= zlen s <= 264 -> 0 <= off < 8192 -> off + 1 <= zlen d ->
    (forall i, 0 <= i < zlen s -> rd s i = rd (d ++ s) (zlen d - off - 1 + i)) ->
    Enc (d ++ s) (c ++ ref_code off (zlen s)).

Lemma Enc_nil_inv d : Enc d [] -> d = [].
Proof.
  intros H. remember [] as c eqn:Hc. destruct H as [|? c' ?|? c' ? off]; [done|..].
  - by destruct c'.
  - exfalso. assert (ref_code off (zlen s) = []) as Hr by (by destruct c').
    unfold ref_code in Hr. by destruct (_ <? _).
Qed.

(** ** Generic facts *)

Lemma wr_in_range b i v :
  0 <= i < zlen b -> exists b', wr b i v = Ok b' /\ zlen b' = zlen b.
Proof.
  intros Hi. unfold wr. rewrite (proj2 (Z.leb_le 0 i)), (proj2 (Z.ltb_lt i (zlen b))) by lia.
  cbn [andb]. eexists. split; [done|]. by zlen_simpl.
Qed.

Lemma wr_front a x r v : is_byte v -> wr (a ++ x :: r) (zlen a) v = Ok ((a ++ [v]) ++ r).
Proof. intros Hv. rewrite wr_app, u8_small by done. by rewrite snoc_app. Qed.

Lemma zlen_pos {A} (l : list A) : 0 < zlen l -> exists x r, l = x :: r /\ zlen r = zlen l - 1.
Proof. destruct l as [|x r]; [done|]. intros _. exists x, r. zlen_simpl. split; [done|lia]. Qed.

Lemma rd_ext a b : zlen a = zlen b -> (forall i, 0 <= i < zlen a -> rd a i = rd b i) -> a = b.
Proof.
  intros Hl H. apply list_eq_same_length with (length b); [done|by apply zlen_length|].
  intros i x y Hi Hx Hy. specialize (H (Z.of_nat i)). unfold zlen in *.
  rewrite (rd_lookup a _ x), (rd_lookup b _ y) in H by (rewrite ?Nat2Z.id; lia || done).
  assert (Ok x = Ok y) as [= ->] by (apply H; lia). done.
Qed.

Lemma rd_slice b i n k :
  0 <= i -> 0 <= k < n -> i + n <= zlen b ->
  rd (take (Z.to_nat n) (drop (Z.to_nat i) b)) k = rd b (i + k).
Proof.
  intros Hi Hk Hn. unfold rd. rewrite (proj2 (Z.leb_le 0 k)), (proj2 (Z.leb_le 0 (i + k))) by lia.
  rewrite lookup_take_lt, lookup_drop by lia.
  by replace (Z.to_nat i + Z.to_nat k)%nat with (Z.to_nat (i + k)) by lia.
Qed.

Lemma slice_eq b i n : 
  0 <= i -> 0 <= n -> i + n <= zlen b -> rdn b i n = Ok (take (Z.to_nat n) (drop (Z.to_nat i) b)).
Proof.
  intros. unfold rdn. rewrite (proj2 (Z.leb_le 0 i)), (proj2 (Z.leb_le 0 n)) by done.
  by rewrite (proj2 (Z.leb_le (i + n) (zlen b))).
Qed.

Lemma zlen_slice (b : bytes) i n :
  0 <= i -> 0 <= n -> i + n <= zlen b -> zlen (take (Z.to_nat n) (drop (Z.to_nat i) b)) = n.
Proof. intros. apply zlen_take. unfold zlen in *. rewrite length_drop. lia. Qed.

(** ** The decompressor on a valid encoding *)

Section decode.
Context (src : bytes).

Lemma copy_in_spec s a r o1 o2 o3 :
  src = a ++ s ++ r -> wf_bytes s -> zlen o2 = zlen s ->
  copy_in src (length s) (o1 ++ o2 ++ o3) (zlen o1) (zlen a) = Ok (o1 ++ s ++ o3).
Proof.
  revert a o1 o2. induction s as [|x s IH]; intros a o1 o2 Hsrc Hwf Ho.
  { apply zlen_nil_inv in Ho as ->. done. }
  destruct (zlen_pos o2) as (y & o2' & -> & Hl); [zlen_simpl; pose proof (zlen_nonneg s); lia|].
  inversion_clear Hwf as [|? ? Hx Hs]. cbn [length copy_in app].
  assert (rd src (zlen a) = Ok x) as Hrd by (rewrite Hsrc; apply rd_here).
  res_step Hrd. res_step (wr_front o1 y (o2' ++ o3) x Hx).
  replace (zlen o1 + 1) with (zlen (o1 ++ [x])) by (zlen_simpl; lia).
  replace (zlen a + 1) with (zlen (a ++ [x])) by (zlen_simpl; lia).
  rewrite (IH (a ++ [x]) (o1 ++ [x]) o2'); [by rewrite snoc_app|..|done|].
  - rewrite Hsrc. by rewrite <- app_assoc.
  - zlen_simpl. lia.
Qed.

(** Copying forward byte by byte from [ref] repeats the bytes at that distance. *)
Lemma copy_out_spec s o1 o2 o3 ref :
  wf_bytes s -> zlen o2 = zlen s -> 0 <= ref < zlen o1 ->
  (forall i, 0 <= i < zlen s -> rd s i = rd (o1 ++ s) (ref + i)) ->
  copy_out (length s) (o1 ++ o2 ++ o3) (zlen o1) ref = Ok (o1 ++ s ++ o3).
Proof.
  revert o1 o2 ref. induction s as [|x s IH]; intros o1 o2 ref Hwf Ho Hr Heq.
  { apply zlen_nil_inv in Ho as ->. done. }
  pose proof (zlen_nonneg s).
  destruct (zlen_pos o2) as (y & o2' & -> & Hl); [zlen_simpl; lia|].
  inversion_clear Hwf as [|? ? Hx Hs]. cbn [length copy_out app].
  pose proof (Heq 0 ltac:(zlen_simpl; lia)) as H0. rewrite Z.add_0_r, rd_app_l in H0 by lia.
  rewrite rd_app_l, <- H0 by lia. change (rd (x :: s) 0) with (@Ok Z x). cbn [mbind res_bind].
  res_step (wr_front o1 y (o2' ++ o3) x Hx).
  replace (zlen o1 + 1) with (zlen (o1 ++ [x])) by (zlen_simpl; lia).
  rewrite (IH (o1 ++ [x]) o2'); [by rewrite snoc_app|done|zlen_simpl; lia|zlen_simpl; lia|].
  intros i Hi. specialize (Heq (i + 1) ltac:(zlen_simpl; lia)).
  rewrite snoc_app. replace (ref + 1 + i) with (ref + (i + 1)) by lia. rewrite <- Heq.
  change (x :: s) with ([x] ++ s). rewrite Z.add_comm. change 1 with (zlen [x]).
  by rewrite rd_app_off by lia.
Qed.

Lemma copy_ref_spec s o1 o2 o3 ref :
  wf_bytes s -> 3 <= zlen s -> zlen o2 = zlen s -> 0 <= ref < zlen o1 ->
  (forall i, 0 <= i < zlen s -> rd s i = rd (o1 ++ s) (ref + i)) ->
  copy_ref (o1 ++ o2 ++ o3) (zlen o1) ref (zlen s - 2) = Ok (o1 ++ s ++ o3).
Proof.
  intros Hwf Hn Ho Hr Heq. unfold copy_ref.
  replace (zlen s - 2 + 2) with (zlen s) by lia. rewrite to_nat_zlen.
  destruct (zlen s - 2 <=? 9); [by apply copy_out_spec|].
  destruct (Z.leb_spec (ref + zlen s) (zlen o1)) as [Hd|]; [|by apply copy_out_spec].
  pose proof (zlen_nonneg (o2 ++ o3)).
  rewrite slice_eq by (zlen_simpl; lia). cbn [mbind res_bind].
  rewrite (wrn_app o1 o2); [do 3 f_equal|rewrite length_take, length_drop, !length_app; unfold zlen in *; lia].
  apply rd_ext; [apply zlen_slice; zlen_simpl; lia|].
  rewrite zlen_slice by (zlen_simpl; lia). intros i Hi.
  rewrite rd_slice by (zlen_simpl; lia). rewrite Heq by done.
  by rewrite !rd_app_l by lia.
Qed.

(** One literal run. *)
Lemma decompress_lit a s r o1 o2 o3 fuel :
  src = a ++ (zlen s - 1) :: s ++ r -> wf_bytes s -> 1 <= zlen s <= 32 -> zlen o2 = zlen s ->
  decompress_loop src (zlen src) (zlen (o1 ++ o2 ++ o3)) (S fuel) (zlen a) (zlen o1) (o1 ++ o2 ++ o3)
  = decompress_loop src (zlen src) (zlen (o1 ++ o2 ++ o3)) fuel
      (zlen (a ++ (zlen s - 1) :: s)) (zlen (o1 ++ s)) (o1 ++ s ++ o3).
Proof.
  intros Hsrc Hwf Hn Ho. cbn [decompress_loop].
  pose proof (zlen_nonneg r). pose proof (zlen_nonneg a). pose proof (zlen_nonneg o3).
  assert (zlen src = zlen a + 1 + zlen s + zlen r) as Hlen by (rewrite Hsrc; zlen_simpl; lia).
  rewrite (proj2 (Z.ltb_lt (zlen a) _)) by lia.
  assert (rd src (zlen a) = Ok (zlen s - 1)) as Hrd by (rewrite Hsrc; apply rd_here).
  res_step Hrd. change (Z.shiftl 1 5) with 32.
  rewrite (proj2 (Z.ltb_lt (zlen s - 1) 32)) by lia.
  replace (zlen s - 1 + 1) with (zlen s) by lia.
  rewrite (proj2 (Z.ltb_ge (zlen (o1 ++ o2 ++ o3)) _)) by (zlen_simpl; lia).
  rewrite (proj2 (Z.ltb_ge (zlen src) _)) by lia.
  rewrite to_nat_zlen. replace (zlen a + 1) with (zlen (a ++ [zlen s - 1])) by (zlen_simpl; lia).
  rewrite (copy_in_spec s (a ++ [zlen s - 1]) r) by (done || (rewrite Hsrc; by rewrite <- app_assoc)).
  cbn [mbind res_bind]. f_equal; zlen_simpl; lia.
Qed.

Lemma ref_code_short off n : 3 <= n -> 32 * zlen (ref_code off n) + 32 <= 33 * n.
Proof. unfold ref_code. intros. destruct (Z.ltb_spec (n - 2) 7); zlen_simpl; lia. Qed.

Lemma zlen_ref_code off n : 2 <= zlen (ref_code off n) <= 3.
Proof. unfold ref_code. destruct (_ <? _); zlen_simpl; lia. Qed.

(** The control byte of a back reference. *)
Lemma ctrl_fields h l :
  0 <= h < 32 -> 1 <= l <= 7 ->
  is_byte (h + l * 32) /\ (h + l * 32 <? 32) = false /\
  Z.shiftr (h + l * 32) 5 = l /\ Z.shiftl (Z.land (h + l * 32) 31) 8 = h * 256.
Proof.
  intros Hh Hl. split; [unfold is_byte; lia|]. split; [apply Z.ltb_ge; lia|].
  rewrite Z.shiftr_div_pow2 by lia. change (2 ^ 5) with 32. change 31 with (2 ^ 5 - 1).
  rewrite land_ones_mod by lia. change (2 ^ 5) with 32. rewrite Z.shiftl_mul_pow2 by lia.
  rewrite Z.div_add, Z.mod_add by lia. rewrite Z.div_small, Z.mod_small by lia. lia.
Qed.

(** One back reference. *)
Lemma decompress_ref a s r o1 o2 o3 off fuel :
  src = a ++ ref_code off (zlen s) ++ r -> wf_bytes s ->
  3 <= zlen s <= 264 -> 0 <= off < 8192 -> off + 1 <= zlen o1 -> zlen o2 = zlen s ->
  (forall i, 0 <= i < zlen s -> rd s i = rd (o1 ++ s) (zlen o1 - off - 1 + i)) ->
  decompress_loop src (zlen src) (zlen (o1 ++ o2 ++ o3)) (S fuel) (zlen a) (zlen o1) (o1 ++ o2 ++ o3)
  = decompress_loop src (zlen src) (zlen (o1 ++ o2 ++ o3)) fuel
      (zlen (a ++ ref_code off (zlen s))) (zlen (o1 ++ s)) (o1 ++ s ++ o3).
Proof.
  intros Hsrc Hwf Hn Hoff Hd Ho Heq. cbn [decompress_loop].
  pose proof (zlen_nonneg r). pose proof (zlen_nonneg a). pose proof (zlen_nonneg o3).
  pose proof (zlen_ref_code off (zlen s)) as Hrc.
  assert (zlen src = zlen a + zlen (ref_code off (zlen s)) + zlen r) as Hlen
    by (rewrite Hsrc; zlen_simpl; lia).
  rewrite (proj2 (Z.ltb_lt (zlen a) _)) by lia. change (Z.shiftl 1 5) with 32.
  assert (0 <= off / 256 < 32) as Hhi by (split; [apply Z.div_pos; lia|apply Z.div_lt_upper_bound; lia]).
  pose proof (Z.div_mod off 256 ltac:(lia)) as Hdm.
  rewrite zlen_app. pose proof (copy_ref_spec s o1 o2 o3 (zlen o1 - off - 1) Hwf ltac:(lia) Ho ltac:(lia) Heq) as Hcp.
  unfold ref_code in *. destruct (Z.ltb_spec (zlen s - 2) 7) as [H7|H7]; zlen_simpl.
  - destruct (ctrl_fields (off / 256) (zlen s - 2)) as (Hb & Hc & Hs5 & Hl5); [lia..|].
    assert (rd src (zlen a) = Ok (off / 256 + (zlen s - 2) * 32)) as ->
      by (rewrite Hsrc; apply rd_here). cbn [mbind res_bind].
    rewrite Hc, Hs5, Hl5, (proj2 (Z.leb_gt (zlen src) _)), (proj2 (Z.eqb_neq _ 7)) by lia.
    cbn [mbind res_bind].
    assert (rd src (zlen a + 1) = Ok (off mod 256)) as -> by (rewrite Hsrc, rd_app_off by lia; done).
    cbn [mbind res_bind].
    rewrite (proj2 (Z.ltb_ge _ (zlen o1 + _ + 2))), (proj2 (Z.ltb_ge _ 0)) by lia.
    replace (zlen o1 - off / 256 * 256 - 1 - off mod 256) with (zlen o1 - off - 1) by lia.
    rewrite Hcp. cbn [mbind res_bind]. f_equal; lia.
  - destruct (ctrl_fields (off / 256) 7) as (Hb & Hc & Hs5 & Hl5); [lia..|].
    assert (rd src (zlen a) = Ok (off / 256 + 7 * 32)) as -> by (rewrite Hsrc; apply rd_here).
    cbn [mbind res_bind].
    rewrite Hc, Hs5, Hl5, (proj2 (Z.leb_gt (zlen src) _)) by lia. cbn [Z.eqb Pos.eqb].
    assert (rd src (zlen a + 1) = Ok (zlen s - 2 - 7)) as -> by (rewrite Hsrc, rd_app_off by lia; done).
    cbn [mbind res_bind]. rewrite (proj2 (Z.leb_gt (zlen src) _)) by lia. cbn [mbind res_bind].
    assert (rd src (zlen a + 1 + 1) = Ok (off mod 256)) as ->
      by (rewrite Hsrc, <- Z.add_assoc, rd_app_off by lia; done).
    cbn [mbind res_bind].
    rewrite (proj2 (Z.ltb_ge _ (zlen o1 + _ + 2))), (proj2 (Z.ltb_ge _ 0)) by lia.
    replace (zlen o1 - off / 256 * 256 - 1 - off mod 256) with (zlen o1 - off - 1) by lia.
    replace (7 + (zlen s - 2 - 7)) with (zlen s - 2) by lia.
    rewrite Hcp. cbn [mbind res_bind]. f_equal; lia.
Qed.

End decode.

(** What the decompressor does with the encoding of [d]. *)
Lemma decompress_run src out d c :
  Enc d c -> forall r, src = c ++ r -> wf_bytes d -> zlen d <= zlen out ->
  exists k, (k <= length c)%nat /\ forall fuel,
    decompress_loop src (zlen src) (zlen out) (k + fuel) 0 0 out
    = decompress_loop src (zlen src) (zlen out) fuel (zlen c) (zlen d) (d ++ drop (length d) out).
Proof.
  induction 1 as [|d c s Henc IH Hs|d c s off Henc IH Hs Hoff Hd Heq]; intros r Hsrc Hwf Hl.
  { exists 0%nat. split; [done|]. intros fuel. cbn [app]. by rewrite drop_0. }
  all: apply Forall_app in Hwf as [Hwd Hws]; rewrite zlen_app in Hl; pose proof (zlen_nonneg s);
    rewrite <- app_assoc in Hsrc; destruct (IH _ Hsrc Hwd ltac:(lia)) as (k & Hk & Hrun);
    exists (S k); (split; [rewrite length_app|]).
  all: destruct (split_room (drop (length d) out) (zlen s) (zlen out - zlen d - zlen s))
      as (o2 & o3 & Hdrop & Ho2 & Ho3); [lia|lia|unfold zlen in *; rewrite length_drop; lia|].
  all: assert (zlen out = zlen (d ++ o2 ++ o3)) as Hout by (zlen_simpl; lia).
  all: assert (drop (length (d ++ s)) out = o3) as Hd3
      by (rewrite length_app, <- drop_drop, Hdrop; apply drop_app_length'; unfold zlen in *; lia).
  - cbn [length]. lia.
  - intros fuel. rewrite (Nat.add_succ_comm k fuel : (S k + fuel = k + S fuel)%nat), Hrun.
    rewrite Hdrop, Hd3, Hout, (decompress_lit src c s r) by done. by rewrite <- app_assoc.
  - pose proof (zlen_ref_code off (zlen s)). unfold zlen in *. lia.
  - intros fuel. rewrite (Nat.add_succ_comm k fuel : (S k + fuel = k + S fuel)%nat), Hrun.
    rewrite Hdrop, Hd3, Hout, (decompress_ref src c s r _ _ _ off) by done. by rewrite <- app_assoc.
Qed.

(** The decompressor inverts the format. *)
Lemma decompress_enc d c out :
  Enc d c -> wf_bytes d -> zlen d <= zlen out ->
  lzf_decompress c (zlen c) (zlen out) out = Ok (zlen d, d ++ drop (length d) out).
Proof.
  intros Henc Hwf Hl. unfold lzf_decompress. rewrite to_nat_zlen.
  destruct (decompress_run c out d c Henc [] ltac:(by rewrite app_nil_r) Hwf Hl) as (k & Hk & Hrun).
  replace (S (length c)) with (k + S (length c - k))%nat by lia. rewrite Hrun.
  cbn [decompress_loop]. by rewrite Z.ltb_irrefl.
Qed.

(** ** The decompressor on arbitrary bytes *)

Lemma copy_in_safe src n out op ip :
  0 <= ip -> ip + Z.of_nat n <= zlen src -> 0 <= op -> op + Z.of_nat n <= zlen out ->
  exists out', copy_in src n out op ip = Ok out' /\ zlen out' = zlen out.
Proof.
  revert out op ip. induction n as [|n IH]; intros out op ip Hi Hin Ho Hon; cbn [copy_in]; [eauto|].
  destruct (rd_in_range src ip) as [c Hc]; [lia|]. res_step Hc.
  destruct (wr_in_range out op c) as (out1 & Hw & Hl); [lia|]. res_step Hw.
  rewrite <- Hl. apply IH; lia.
Qed.

Lemma copy_out_safe n out op ref :
  0 <= ref < op -> op + Z.of_nat n <= zlen out ->
  exists out', copy_out n out op ref = Ok out' /\ zlen out' = zlen out.
Proof.
  revert out op ref. induction n as [|n IH]; intros out op ref Hr Hon; cbn [copy_out]; [eauto|].
  destruct (rd_in_range out ref) as [c Hc]; [lia|]. res_step Hc.
  destruct (wr_in_range out op c) as (out1 & Hw & Hl); [lia|]. res_step Hw.
  rewrite <- Hl. apply IH; lia.
Qed.

Lemma copy_ref_safe out op ref len :
  0 <= ref < op -> 0 <= len -> op + len + 2 <= zlen out ->
  exists out', copy_ref out op ref len = Ok out' /\ zlen out' = zlen out.
Proof.
  intros Hr Hl Hn. unfold copy_ref. destruct (len <=? 9); [apply copy_out_safe; lia|].
  destruct (Z.leb_spec (ref + (len + 2)) op); [|apply copy_out_safe; lia].
  rewrite slice_eq by lia. cbn [mbind res_bind]. rewrite wrn_in_range; [|lia|rewrite zlen_slice; lia].
  eexists. split; [done|]. zlen_simpl. rewrite zlen_slice, zlen_take by lia.
  unfold zlen. rewrite length_drop, length_take, length_drop. unfold zlen in *. lia.
Qed.

Lemma decompress_loop_safe src out_end fuel ip op out :
  wf_bytes src -> 0 <= ip <= zlen src -> zlen src - ip < Z.of_nat fuel -> 0 <= op <= out_end -> zlen out = out_end ->
  exists n out', decompress_loop src (zlen src) out_end fuel ip op out = Ok (n, out') /\
    0 <= n <= out_end /\ zlen out' = out_end.
Proof.
  intros Hwf. revert ip op out. induction fuel as [|fuel IH]; intros ip op out Hip Hfuel Hop Hout; [lia|].
  assert (exists n out', Ok (0, out) = Ok (n, out') /\ 0 <= n <= out_end /\ zlen out' = out_end) as Herr
    by (exists 0, out; split; [done|lia]).
  cbn [decompress_loop]. destruct (Z.ltb_spec ip (zlen src)) as [Hlt|]; [|eauto 10].
  destruct (rd_in_range src ip) as [ctrl Hc]; [lia|]. res_step Hc.
  pose proof (rd_byte _ _ _ Hwf Hc) as Hb. unfold is_byte in Hb. change (Z.shiftl 1 5) with 32.
  destruct (Z.ltb_spec ctrl 32) as [H32|H32].
  - destruct (Z.ltb_spec out_end (op + (ctrl + 1))); [done|].
    destruct (Z.ltb_spec (zlen src) (ip + 1 + (ctrl + 1))); [done|].
    destruct (copy_in_safe src (Z.to_nat (ctrl + 1)) out op (ip + 1)) as (out1 & Hw & Hl); [lia..|].
    res_step Hw. apply IH; lia.
  - destruct (Z.leb_spec (zlen src) (ip + 1)); [done|].
    rewrite Z.shiftr_div_pow2 by lia. change (2 ^ 5) with 32. set (len := ctrl / 32).
    assert (1 <= len) by (apply Z.div_le_lower_bound; lia).
    destruct (rd_in_range src (ip + 1)) as [c1 Hc1]; [lia|].
    pose proof (rd_byte _ _ _ Hwf Hc1) as Hb1. unfold is_byte in Hb1.
    set (hdr := if len =? 7 then _ else _).
    assert (hdr = Ok None \/ exists len' ip', hdr = Ok (Some (len', ip')) /\ 1 <= len' /\ ip < ip' < zlen src) as Hhdr.
    { unfold hdr. destruct (len =? 7); [|right; exists len, (ip + 1); split; [done|lia]].
      res_step Hc1. destruct (Z.leb_spec (zlen src) (ip + 1 + 1)); [by left|].
      right. eexists _, _. split; [done|lia]. }
    destruct Hhdr as [->|(len' & ip' & -> & Hl1 & Hip')]; cbn [mbind res_bind]; [done|].
    destruct (rd_in_range src ip') as [c2 Hc2]; [lia|]. res_step Hc2.
    pose proof (rd_byte _ _ _ Hwf Hc2) as Hb2. unfold is_byte in Hb2.
    destruct (Z.ltb_spec out_end (op + len' + 2)); [done|]. set (ref := _ - c2).
    destruct (Z.ltb_spec ref 0); [done|].
    assert (ref < op).
    { unfold ref. pose proof (Z.land_nonneg ctrl 31) as Hn. rewrite Z.shiftl_mul_pow2 by lia. change (2 ^ 8) with 256.
      assert (0 <= Z.land ctrl 31) by (apply Hn; lia). lia. }
    destruct (copy_ref_safe out op ref len') as (out1 & Hw & Hl); [lia..|]. res_step Hw.
    apply IH; lia.
Qed.

(** What is written to the output are bytes. *)
Lemma wr_wf b i v b' : wr b i v = Ok b' -> wf_bytes b -> wf_bytes b'.
Proof. intros Hw Hb. unfold wr in Hw. destruct (_ && _); simplify_res; subst. apply Forall_insert; [done|apply u8_byte]. Qed.

Lemma rdn_wf b i n c : rdn b i n = Ok c -> wf_bytes b -> wf_bytes c.
Proof. intros Hr Hb. unfold rdn in Hr. destruct (_ && _); simplify_res; subst. by apply Forall_take, Forall_drop. Qed.

Lemma wrn_wf b i c b' : wrn b i c = Ok b' -> wf_bytes b -> wf_bytes c -> wf_bytes b'.
Proof.
  intros Hw Hb Hc. unfold wrn in Hw. destruct (_ && _); simplify_res; subst. apply Forall_app. split; [by apply Forall_take|].
  apply Forall_app. split; [done|by apply Forall_drop].
Qed.

Lemma copy_in_wf src n : forall out op ip out', copy_in src n out op ip = Ok out' -> wf_bytes out -> wf_bytes out'.
Proof. induction n as [|n IH]; intros out op ip out' He Ho; cbn [copy_in] in He; simplify_res; [by subst|]. eauto using wr_wf. Qed.

Lemma copy_out_wf n : forall out op ref out', copy_out n out op ref = Ok out' -> wf_bytes out -> wf_bytes out'.
Proof. induction n as [|n IH]; intros out op ref out' He Ho; cbn [copy_out] in He; simplify_res; [by subst|]. eauto using wr_wf. Qed.

Lemma copy_ref_wf out op ref len out' : copy_ref out op ref len = Ok out' -> wf_bytes out -> wf_bytes out'.
Proof.
  intros He Ho. unfold copy_ref in He. repeat case_match; simplify_res; eauto using copy_out_wf, wrn_wf, rdn_wf.
Qed.

Lemma decompress_loop_wf src in_end out_end fuel : forall ip op out n out',
  decompress_loop src in_end out_end fuel ip op out = Ok (n, out') -> wf_bytes out -> wf_bytes out'.
Proof.
  induction fuel as [|fuel IH]; intros ip op out n out' He Ho; cbn [decompress_loop] in He; [done|].
  repeat first [case_match | progress simplify_res]; simplify_eq; eauto using copy_in_wf, copy_ref_wf.
Qed.

(** ** The compressor *)

(** Offsets of pointers of a 64 bit address space to an input that does not
    start in its first 8 KiB. *)
Definition valid_htab (htab : hash_table) : Prop := forall i, htab i < 2 ^ 64 - MAX_OFF.

Section compressor.
Context (inp : bytes) (out_len : Z).
Hypothesis wf_inp : wf_bytes inp.
Hypothesis inp_fits : zlen inp < 2 ^ 63.

Lemma valid_hset htab i v : valid_htab htab -> v < 2 ^ 63 -> valid_htab (hset htab i v).
Proof. intros Hv Hb j. unfold hset. destruct (j =? i); [|apply Hv]. change MAX_OFF with 8192. lia. Qed.

Lemma NEXT_ok v p : 0 <= p -> p + 2 < zlen inp -> exists h, NEXT inp v p = Ok h.
Proof.
  intros Hp Hl. unfold NEXT. destruct (rd_in_range inp (p + 2)) as [c Hc]; [lia|].
  res_step Hc. eauto.
Qed.

Lemma FRST_ok p : 0 <= p -> p + 1 < zlen inp -> exists h, FRST inp p = Ok h.
Proof.
  intros Hp Hl. unfold FRST. destruct (rd_in_range inp p) as [a Ha]; [lia|]. res_step Ha.
  destruct (rd_in_range inp (p + 1)) as [b Hb]; [lia|]. res_step Hb. eauto.
Qed.

(** [eq_run ip ref n]: the [n] bytes at [ref] and at [ip] are the same. *)
Definition eq_run (ip ref n : Z) : Prop := forall i, 0 <= i < n -> rd inp (ref + i) = rd inp (ip + i).

Lemma eq_run_snoc ip ref n :
  eq_run ip ref n -> rd inp (ref + n) = rd inp (ip + n) -> eq_run ip ref (n + 1).
Proof. intros H Hn i Hi. destruct (decide (i = n)) as [->|]; [done|]. apply H. lia. Qed.

Lemma eq_run_slice ip ref n :
  0 <= ref -> 0 <= ip -> 0 <= n -> ref + n <= zlen inp -> ip + n <= zlen inp ->
  take (Z.to_nat n) (drop (Z.to_nat ref) inp) = take (Z.to_nat n) (drop (Z.to_nat ip) inp) ->
  eq_run ip ref n.
Proof.
  intros Hr Hi Hn Hrl Hil Heq i Hin.
  by rewrite <- (rd_slice inp ref n i), Heq, (rd_slice inp ip n i) by lia.
Qed.

Lemma is_match_spec ip ref :
  0 <= ip -> ip + 2 < zlen inp -> ref < 2 ^ 64 - MAX_OFF ->
  exists m, is_match inp ip ref = Ok m /\
    forall off, m = Some off -> off = ip - ref - 1 /\ 0 <= off < 8192 /\ 0 < ref /\ eq_run ip ref 3.
Proof.
  intros Hip Hl Hr. unfold is_match. change MAX_OFF with 8192 in *.
  destruct (Z.ltb_spec (u64 (ip - ref - 1)) 8192) as [Hoff|]; cbn [negb]; [|by eexists].
  destruct (Z.ltb_spec 0 ref) as [H0|]; cbn [negb]; [|by eexists].
  assert (0 <= ip - ref - 1 < 8192 /\ u64 (ip - ref - 1) = ip - ref - 1) as [Hd Hu].
  { unfold wrapu in *. Z.div_mod_to_equations. lia. }
  destruct (rd_in_range inp (ref + 2)) as [r2 Hr2]; [lia|]. res_step Hr2.
  destruct (rd_in_range inp (ip + 2)) as [i2 Hi2]; [lia|]. res_step Hi2.
  destruct (Z.eqb_spec r2 i2) as [->|]; cbn [negb]; [|by eexists].
  rewrite !slice_eq by lia. cbn [mbind res_bind].
  case_bool_decide as Heq; [|by eexists].
  eexists. split; [done|]. intros off [= <-]. rewrite Hu. split_and!; [done|lia..|].
  apply (eq_run_snoc ip ref 2); [|congruence]. apply eq_run_slice; [lia..|done].
Qed.

Lemma unrolled_spec n ip ref len :
  0 <= ref < ip -> 2 <= len -> ip + len + Z.of_nat n < zlen inp -> eq_run ip ref (len + 1) ->
  exists r, unrolled inp n ip ref len = Ok r /\
    match r with
    | inl l => len < l <= len + Z.of_nat n /\ eq_run ip ref l
    | inr l => l = len + Z.of_nat n /\ eq_run ip ref (l + 1)
    end.
Proof.
  revert len. induction n as [|n IH]; intros len Hr Hl Hb Heq; cbn [unrolled].
  { eexists. split; [done|]. split; [lia|done]. }
  destruct (rd_in_range inp (ref + (len + 1))) as [r Hrd]; [lia|]. res_step Hrd.
  destruct (rd_in_range inp (ip + (len + 1))) as [i Hid]; [lia|]. res_step Hid.
  destruct (Z.eqb_spec r i) as [->|]; cbn [negb].
  - destruct (IH (len + 1)) as (x & Hx & Hm); [lia..| |].
    { apply eq_run_snoc; [done|congruence]. }
    exists x. split; [done|]. destruct x; destruct Hm as [? ?]; (split; [lia|done]).
  - eexists. split; [done|]. split; [lia|done].
Qed.

Lemma extend_spec fuel ip ref maxlen len :
  0 <= ref < ip -> 2 <= len -> ip + maxlen <= zlen inp -> ip + len < zlen inp ->
  maxlen - len < Z.of_nat fuel -> (0 < fuel)%nat -> eq_run ip ref (len + 1) ->
  exists l, extend inp fuel ip ref maxlen len = Ok l /\ len < l /\ (l <= maxlen \/ l = len + 1) /\ eq_run ip ref l.
Proof.
  revert len. induction fuel as [|fuel IH]; intros len Hr Hl Hm Hin Hf Hf0 Heq; [lia|]. cbn [extend].
  destruct (Z.ltb_spec (len + 1) maxlen) as [Hlt|]; [|eexists; split; [done|split_and!; [lia|lia|done]]].
  destruct (rd_in_range inp (ref + (len + 1))) as [r Hrd]; [lia|]. res_step Hrd.
  destruct (rd_in_range inp (ip + (len + 1))) as [i Hid]; [lia|]. res_step Hid.
  destruct (Z.eqb_spec r i) as [->|].
  - destruct (IH (len + 1)) as (x & Hx & Hlx & Hmx & Hex); [lia..| |].
    { apply eq_run_snoc; [done|congruence]. }
    exists x. split; [done|]. split_and!; [lia|lia|done].
  - eexists. split; [done|]. split_and!; [lia|lia|done].
Qed.

Lemma match_length_spec ip ref :
  0 <= ref < ip -> ip + 2 < zlen inp -> eq_run ip ref 3 ->
  exists l, match_length inp ip ref = Ok l /\ 3 <= l <= 264 /\ ip + l <= zlen inp /\ eq_run ip ref l.
Proof.
  intros Hr Hip Heq. unfold match_length, in_len. change MAX_REF with 264.
  set (maxlen := if 264 <? _ then _ else _).
  assert (maxlen <= 264 /\ ip + 2 + maxlen <= zlen inp /\ 0 < maxlen) as (H1 & H2 & H3)
    by (unfold maxlen; destruct (Z.ltb_spec 264 (zlen inp - ip - 2)); lia).
  destruct (Z.ltb_spec 16 maxlen) as [H16|H16].
  - destruct (unrolled_spec 16 ip ref 2) as ([l|l] & Hu & Hlen & Hl); [lia..|done| |]; res_step Hu.
    + exists l. split; [done|]. split_and!; [lia..|done].
    + destruct (extend_spec (S (length inp)) ip ref maxlen l) as (x & -> & Hx1 & Hx2 & Hx3);
        [lia..|unfold zlen in *; lia|lia|done|].
      exists x. split; [done|]. split_and!; [lia..|done].
  - cbn [mbind res_bind].
    destruct (extend_spec (S (length inp)) ip ref maxlen 2) as (x & -> & Hx1 & Hx2 & Hx3);
      [lia..|unfold zlen in *; lia|lia|done|].
    exists x. split; [done|]. split_and!; [lia..|done].
Qed.

(** The compressor between two steps: [d] is consumed and encoded by [c],
    [lits] is the literal run under construction, whose header byte [c_op]
    has left free after [c]. *)
Record RunInv (s : state) (d lits c : bytes) : Prop := {
  inv_inp : exists r, inp = d ++ lits ++ r;
  inv_ip : c_ip s = zlen d + zlen lits;
  inv_lit : c_lit s = zlen lits;
  inv_short : zlen lits < 32;
  inv_op : c_op s = zlen c + 1 + zlen lits;
  inv_enc : Enc d c;
  inv_bound : 32 * zlen c <= 33 * zlen d;
  inv_htab : valid_htab (c_htab s);
  inv_len : zlen (c_out s) = out_len;
  inv_out : exists room, c_out s = c ++ room /\ (lits = [] \/ exists h o, room = h :: lits ++ o)
}.

(** Room for the input as literal runs only. *)
Definition ample : Prop := 33 * zlen inp + 128 <= 32 * out_len.

Definition Inv (s : state) : Prop := exists d lits c, RunInv s d lits c.

(** A state whose run is fresh after the code [c] of [d]. *)
Lemma RunInv_fresh d c o ip op hval htab r :
  inp = d ++ r -> Enc d c -> 32 * zlen c <= 33 * zlen d ->
  ip = zlen d -> op = zlen c + 1 -> valid_htab htab -> zlen (c ++ o) = out_len ->
  Inv {| c_ip := ip; c_op := op; c_lit := 0; c_hval := hval; c_htab := htab; c_out := c ++ o |}.
Proof.
  intros Hi He Hbd -> -> Hv Hl. exists d, [], c. split; cbn; try done; zlen_simpl; try lia.
  - by exists r.
  - exists o. split; [done|]. by left.
Qed.

(** The compressor only gives up near the end of a buffer that is not ample. *)
Lemma full_not_ample s d lits c :
  RunInv s d lits c -> c_ip s < zlen inp - 2 -> out_len <= c_op s + 4 -> ~ ample.
Proof. intros [_ Hip _ _ Hop _ Hbd _ _ _] Hlt Hle. unfold ample. pose proof (zlen_nonneg lits). lia. Qed.

(** Inside the buffer, the header byte and the run are there. *)
Lemma run_room s d lits c :
  RunInv s d lits c -> c_op s <= out_len ->
  exists h o, c_out s = c ++ h :: lits ++ o /\ zlen o = out_len - c_op s.
Proof.
  intros [_ _ _ _ Hop _ _ _ Hlen (room & Hout & Hroom)] Hle. rewrite Hout in Hlen. zlen_simpl.
  destruct Hroom as [->|(h & o & ->)]; zlen_simpl.
  - destruct (zlen_pos room) as (h & o & -> & Hl); [lia|]. exists h, o. split; [done|lia].
  - exists h, o. split; [done|lia].
Qed.

Lemma stop_run_spec c h lits o lit op :
  lit = zlen lits -> op = zlen c + 1 + zlen lits ->
  stop_run (c ++ h :: lits ++ o) op lit = Ok (c ++ u8 (lit - 1) :: lits ++ o).
Proof.
  intros -> ->. unfold stop_run. replace (_ - _ - 1) with (zlen c) by lia. apply wr_app.
Qed.

Lemma wf_lits s d lits c : RunInv s d lits c -> wf_bytes d /\ wf_bytes lits.
Proof.
  intros [[r Hr] _ _ _ _ _ _ _ _ _]. pose proof wf_inp as Hwf. rewrite Hr in Hwf.
  apply Forall_app in Hwf as [? [? ?]%Forall_app]. done.
Qed.

Lemma rd_next d r x : inp = d ++ r -> rd inp (zlen d) = Ok x -> exists r', r = x :: r'.
Proof.
  intros Hi Hr. rewrite Hi, rd_app_r, Z.sub_diag in Hr by lia.
  destruct r as [|y r]; [done|]. injection Hr as ->. by exists r.
Qed.

Lemma literal_spec s htab hval :
  Inv s -> valid_htab htab -> c_ip s < zlen inp -> c_op s < out_len ->
  exists s', literal inp s htab hval = Ok s' /\ Inv s' /\ c_ip s' = c_ip s + 1 /\
    (c_op s' = c_op s + 1 /\ c_lit s' = c_lit s + 1 \/
     c_lit s = 31 /\ c_op s' = c_op s + 2 /\ c_lit s' = 0).
Proof.
  intros (d & lits & c & HI) Hv Hip Hop. pose proof (run_room _ _ _ _ HI ltac:(lia)) as (h & o & Hout & Ho).
  destruct HI as [[r Hr] Hipd Hlit Hsh Hopd He Hbd _ Hlen _].
  destruct (rd_in_range inp (c_ip s)) as [x Hx]; [pose proof (zlen_nonneg d); pose proof (zlen_nonneg lits); lia|].
  pose proof (rd_byte _ _ _ wf_inp Hx) as Hb.
  destruct (zlen_pos o) as (y & o' & -> & Ho'); [lia|].
  destruct (rd_next (d ++ lits) r x) as [r' ->]; [by rewrite <- app_assoc|zlen_simpl; congruence|].
  assert (wr (c ++ h :: lits ++ y :: o') (zlen c + 1 + zlen lits) x = Ok (c ++ h :: (lits ++ [x]) ++ o')) as Hw.
  { rewrite app_comm_cons, app_assoc.
    replace (zlen c + 1 + zlen lits) with (zlen (c ++ h :: lits)) by (zlen_simpl; lia).
    rewrite wr_front by done. f_equal. by rewrite <- !app_assoc. }
  unfold literal. res_step Hx. rewrite Hout, Hopd. res_step Hw.
  assert (inp = (d ++ lits ++ [x]) ++ r') as Hr' by (rewrite Hr; rewrite <- !app_assoc; done).
  change MAX_LIT with 32. rewrite Hlit. destruct (Z.eqb_spec (zlen lits + 1) 32) as [H32|H32].
  - rewrite (stop_run_spec c h (lits ++ [x]) o') by (zlen_simpl; lia).
    cbn [mbind res_bind]. eexists. split; [done|]. rewrite app_comm_cons, app_assoc.
    replace (u8 (zlen lits + 1 - 1)) with (zlen (lits ++ [x]) - 1)
      by (rewrite H32; zlen_simpl; change (u8 _) with 31; lia).
    split; [|cbn; rewrite ?Hlit, ?Hopd; split; [lia|right; lia]].
    eapply RunInv_fresh; [exact Hr'|apply Enc_lit; [done|zlen_simpl; lia]|zlen_simpl; lia..|done|].
    rewrite Hout in Hlen. zlen_simpl. lia.
  - eexists. split; [done|]. split; [|cbn; rewrite ?Hlit, ?Hopd; split; [lia|left; lia]].
    exists d, (lits ++ [x]), c. split; cbn; zlen_simpl; try done; try lia.
    + exists r'. by rewrite Hr', <- !app_assoc.
    + exists (h :: (lits ++ [x]) ++ o'). split; [done|]. right. by exists h, o'.
Qed.

(** Ending the run before a back reference: what is consumed is encoded up to
    the new write position, and the buffer has room for it. *)
Lemma end_run s d lits c :
  RunInv s d lits c -> c_op s <= out_len ->
  exists c' o, stop_run (c_out s) (c_op s) (c_lit s) = Ok (c' ++ o) /\ Enc (d ++ lits) c' /\
    32 * zlen c' <= 33 * zlen (d ++ lits) + 32 /\ c_op s - (if c_lit s =? 0 then 1 else 0) = zlen c' /\ zlen (c' ++ o) = out_len.
Proof.
  intros HI Hroom. pose proof (run_room _ _ _ _ HI ltac:(lia)) as (h & o & Hout & Ho).
  destruct HI as [_ _ Hlit Hsh Hopd He Hbd _ Hlen _]. rewrite Hout in Hlen. rewrite Hout.
  rewrite (stop_run_spec c h lits o) by done. rewrite Hlit in *.
  destruct (Z.eqb_spec (zlen lits) 0) as [H0|H0].
  - apply zlen_nil_inv in H0 as ->. eexists c, _. split; [done|]. rewrite app_nil_r.
    zlen_simpl. split_and!; [done|lia..].
  - pose proof (zlen_nonneg lits). rewrite u8_small by (unfold is_byte; lia).
    exists (c ++ (zlen lits - 1) :: lits), o. split; [by rewrite <- app_assoc|].
    split; [apply Enc_lit; [done|lia]|]. zlen_simpl. lia.
Qed.

(** Writing a back reference at the end of the code. *)
Lemma write_ref c o off l :
  3 <= l <= 264 -> 0 <= off < 8192 -> 3 <= zlen o ->
  exists out op o',
    (if l - 2 <? 7 then
       out ← wr (c ++ o) (zlen c) (Z.shiftr off 8 + Z.shiftl (l - 2) 5); Ok (out, zlen c + 1)
     else
       out ← wr (c ++ o) (zlen c) (Z.shiftr off 8 + Z.shiftl 7 5);
       out ← wr out (zlen c + 1) (l - 2 - 7); Ok (out, zlen c + 2)) = Ok (out, op) /\
    wr out op off = Ok ((c ++ ref_code off l) ++ o') /\
    op + 1 = zlen (c ++ ref_code off l) /\ zlen ((c ++ ref_code off l) ++ o') = zlen (c ++ o).
Proof.
  intros Hl Hoff Ho. rewrite Z.shiftr_div_pow2, !Z.shiftl_mul_pow2 by lia.
  change (2 ^ 8) with 256. change (2 ^ 5) with 32.
  assert (0 <= off / 256 < 32) by (split; [apply Z.div_pos; lia|apply Z.div_lt_upper_bound; lia]).
  destruct (zlen_pos o) as (x & o1 & -> & Ho1); [lia|].
  destruct (zlen_pos o1) as (y & o2 & -> & Ho2); [zlen_simpl; lia|].
  destruct (zlen_pos o2) as (z & o3 & -> & Ho3); [zlen_simpl; lia|].
  unfold ref_code. destruct (Z.ltb_spec (l - 2) 7).
  - rewrite wr_front by (unfold is_byte; lia). cbn [mbind res_bind].
    eexists _, _, (z :: o3). split; [done|].
    replace (zlen c + 1) with (zlen (c ++ [off / 256 + (l - 2) * 32])) by (zlen_simpl; lia).
    rewrite wr_app, <- !app_assoc. split; [done|]. zlen_simpl. lia.
  - rewrite wr_front by (unfold is_byte; lia). cbn [mbind res_bind].
    replace (zlen c + 1) with (zlen (c ++ [off / 256 + 7 * 32])) by (zlen_simpl; lia).
    rewrite wr_front by (unfold is_byte; lia). cbn [mbind res_bind].
    eexists _, _, o3. split; [done|].
    replace (zlen c + 2) with (zlen ((c ++ [off / 256 + 7 * 32]) ++ [l - 2 - 7])) by (zlen_simpl; lia).
    rewrite wr_app, <- !app_assoc. split; [done|]. zlen_simpl. lia.
Qed.

(** The bytes of a match, as the relation [Enc] asks for them. *)
Lemma match_enc d c r ip ref l :
  inp = d ++ r -> Enc d c -> ip = zlen d -> 0 < ref -> 0 <= ip - ref - 1 < 8192 ->
  3 <= l <= 264 -> ip + l <= zlen inp -> eq_run ip ref l ->
  Enc (d ++ take (Z.to_nat l) r) (c ++ ref_code (ip - ref - 1) l) /\ zlen (take (Z.to_nat l) r) = l.
Proof.
  intros Hi He -> Hr Hoff Hl Hlen Heq.
  assert (zlen (take (Z.to_nat l) r) = l) as Hs
    by (apply zlen_take; rewrite Hi, zlen_app in Hlen; lia).
  split; [|done]. rewrite <- Hs at 2. apply Enc_ref; [done|lia..|].
  rewrite Hs. intros i Hil. specialize (Heq i Hil).
  replace (zlen d - (zlen d - ref - 1) - 1 + i) with (ref + i) by lia.
  assert (inp = (d ++ take (Z.to_nat l) r) ++ drop (Z.to_nat l) r) as Hi'
    by (rewrite <- app_assoc, take_drop; done).
  rewrite Hi', (rd_app_l _ _ (ref + i)), (rd_app_l _ _ (zlen d + i)), rd_app_off in Heq by (zlen_simpl; lia).
  done.
Qed.

(** The whole treatment of a match. *)
Lemma compress_match_spec s ref off htab hval :
  Inv s -> valid_htab htab -> c_ip s + 2 < zlen inp -> 0 < ref ->
  off = c_ip s - ref - 1 -> 0 <= off < 8192 -> eq_run (c_ip s) ref 3 ->
  exists x, compress_match inp out_len s ref off htab hval = Ok x /\
    match x with
    | None => ~ ample
    | Some (s', go) => Inv s' /\ c_ip s < c_ip s' <= zlen inp /\ (go = false -> zlen inp - 2 <= c_ip s')
    end.
Proof.
  intros (d & lits & c & HI) Hv Hip Hr Hoff Hofr Heq. unfold compress_match, in_len.
  set (nolit := if c_lit s =? 0 then 1 else 0).
  destruct ((out_len <=? c_op s + 3 + 1) && (out_len <=? c_op s - nolit + 3 + 1)) eqn:Hfit.
  { exists None. split; [done|]. apply andb_true_iff in Hfit as [?%Z.leb_le _].
    apply (full_not_ample s d lits c); [done|lia..]. }
  assert (c_op s - nolit + 4 < out_len) as Hroom.
  { apply andb_false_iff in Hfit as [?%Z.leb_gt|?%Z.leb_gt]; unfold nolit in *; case_match; lia. }
  destruct (end_run s d lits c HI ltac:(unfold nolit in Hroom; case_match; lia)) as (c' & o & Hstop & He & Hbd & Hop & Hlen). res_step Hstop.
  destruct HI as [[r Hr'] Hipd _ _ _ _ _ _ _ _]. fold nolit in Hop. rewrite Hop.
  destruct (match_length_spec (c_ip s) ref) as (l & Hl & Hl3 & Hlin & Hrun); [lia|lia|done|]. res_step Hl.
  destruct (write_ref c' o off l Hl3 Hofr) as (out & op & o' & Hw1 & Hw2 & Hop' & Hlen').
  { rewrite <- Hlen, zlen_app in Hroom. lia. }
  res_step Hw1. res_step Hw2. rewrite Hop'.
  destruct (match_enc (d ++ lits) c' r (c_ip s) ref l) as [Henc Hs];
    [by rewrite <- app_assoc|done|zlen_simpl; lia|done|lia|done..|]. rewrite <- Hoff in Henc.
  assert (inp = ((d ++ lits) ++ take (Z.to_nat l) r) ++ drop (Z.to_nat l) r) as Hi
    by (rewrite <- !app_assoc, take_drop; done).
  assert (32 * zlen (c' ++ ref_code off l) <= 33 * zlen ((d ++ lits) ++ take (Z.to_nat l) r)) as Hbd'
    by (rewrite (zlen_app c'), (zlen_app (d ++ lits)), Hs; pose proof (ref_code_short off l); lia).
  destruct (Z.leb_spec (zlen inp - 2) (c_ip s + 1 + (l - 2 + 1))).
  - eexists. split; [done|]. split; [|cbn; lia].
    eapply RunInv_fresh; [exact Hi|exact Henc|exact Hbd'|zlen_simpl; lia|done|done|congruence].
  - destruct (FRST_ok (c_ip s + 1 + (l - 2 + 1) - 1 - 1)) as [h1 H1]; [lia..|]. res_step H1.
    destruct (NEXT_ok h1 (c_ip s + 1 + (l - 2 + 1) - 1 - 1)) as [h2 H2]; [lia..|]. res_step H2.
    destruct (NEXT_ok h2 (c_ip s + 1 + (l - 2 + 1) - 1 - 1 + 1)) as [h3 H3]; [lia..|]. res_step H3.
    eexists. split; [done|]. split; [|cbn; lia].
    eapply RunInv_fresh; [exact Hi|exact Henc|exact Hbd'|zlen_simpl; lia|done| |congruence].
    apply valid_hset; [apply valid_hset; [done|]|]; lia.
Qed.

Lemma compress_loop_spec fuel s :
  Inv s -> zlen inp - c_ip s < Z.of_nat fuel -> c_ip s <= zlen inp ->
  exists x, compress_loop inp out_len fuel s = Ok x /\
    match x with inl out => zlen out = out_len /\ ~ ample | inr s' => Inv s' /\ zlen inp - 2 <= c_ip s' <= zlen inp end.
Proof.
  revert s. induction fuel as [|fuel IH]; intros s HI Hf Hle; [lia|]. cbn [compress_loop]. unfold in_len.
  destruct (Z.ltb_spec (c_ip s) (zlen inp - 2)) as [Hlt|]; [|eexists; split; [done|split; [done|lia]]].
  assert (0 <= c_ip s /\ valid_htab (c_htab s) /\ zlen (c_out s) = out_len) as (H0 & Hv & Hlen).
  { destruct HI as (d & lits & c & [_ -> _ _ _ _ _ Hv Hlen _]).
    pose proof (zlen_nonneg d). pose proof (zlen_nonneg lits). split_and!; [lia|done..]. }
  destruct (NEXT_ok (c_hval s) (c_ip s)) as [hval Hn]; [lia..|]. res_step Hn.
  set (ref := c_htab s (IDX hval)). set (htab := hset _ _ _).
  assert (valid_htab htab) as Hv' by (apply valid_hset; [done|lia]).
  destruct (is_match_spec (c_ip s) ref) as (m & Hm & Hms); [lia..|apply Hv|]. res_step Hm.
  destruct m as [off|].
  - destruct (Hms off eq_refl) as (Hoff & Hofr & Hr & Heq).
    destruct (compress_match_spec s ref off htab hval) as (x & Hx & Hsp); [done|done|lia|done..|]. res_step Hx.
    destruct x as [[s' []]|]; [|eexists; split; [done|]; destruct Hsp as (? & ? & ?); split; [done|]..|by eexists].
    + destruct Hsp as (? & ? & ?). apply IH; [done|lia..].
    + naive_solver lia.
  - destruct (Z.leb_spec out_len (c_op s)).
    { eexists. split; [done|]. split; [done|]. destruct HI as (d & lits & c & HI).
      apply (full_not_ample s d lits c); [done|lia..]. }
    destruct (literal_spec s htab hval) as (s' & Hs & HI' & Hip & _); [done|done|lia|lia|].
    res_step Hs. apply IH; [done|lia..].
Qed.

(** The last bytes, at most two, always fit after the check before the loop. *)
Lemma tail_loop_spec fuel s :
  Inv s -> zlen inp - 2 <= c_ip s <= zlen inp -> zlen inp - c_ip s < Z.of_nat fuel ->
  c_op s + (zlen inp - c_ip s) + (if 32 <=? c_lit s + (zlen inp - c_ip s) then 1 else 0) <= out_len ->
  exists s', tail_loop inp fuel s = Ok s' /\ Inv s' /\ c_ip s' = zlen inp /\ c_op s' <= out_len.
Proof.
  revert s. induction fuel as [|fuel IH]; intros s HI Hip Hf Hop; [lia|]. cbn [tail_loop]. unfold in_len.
  destruct (Z.ltb_spec (c_ip s) (zlen inp)) as [Hlt|].
  - assert (c_op s < out_len) as Hop' by (case_match; lia).
    assert (valid_htab (c_htab s)) as Hv by (destruct HI as (? & ? & ? & []); done).
    destruct (literal_spec s (c_htab s) (c_hval s) HI Hv Hlt Hop') as (s' & Hs & HI' & Hip' & Hcase).
    res_step Hs. apply IH; [done|lia..|].
    destruct (Z.leb_spec 32 (c_lit s + (zlen inp - c_ip s))), (Z.leb_spec 32 (c_lit s' + (zlen inp - c_ip s'))); lia.
  - exists s. split; [done|]. split; [done|]. destruct (_ <=? _) in Hop; lia.
Qed.

(** The compressor returns; what it returns encodes the input. *)
Lemma lzf_compress_enc htab out :
  2 <= zlen inp -> zlen out = out_len -> valid_htab htab ->
  exists n out', lzf_compress inp out_len htab out = Ok (n, out') /\ zlen out' = out_len /\
    (n = 0 /\ ~ ample \/ exists c o, out' = c ++ o /\ n = zlen c /\ 0 < n /\ Enc inp c).
Proof.
  intros Hin Hout Hv. unfold lzf_compress, in_len.
  rewrite (proj2 (Z.eqb_neq (zlen inp) 0)) by lia. cbn [orb].
  destruct (Z.eqb_spec out_len 0) as [->|H0].
  { eexists 0, out. split; [done|]. split; [done|]. left. split; [done|]. unfold ample. lia. }
  destruct (FRST_ok 0) as [hval Hh]; [lia..|]. res_step Hh.
  set (s0 := {| c_ip := 0 |}).
  assert (Inv s0) as HI0 by (by apply (RunInv_fresh [] [] out 0 1 hval htab inp); try constructor).
  destruct (compress_loop_spec (S (length inp)) s0) as ([out1|s] & Hs & Hsp);
    [done|unfold zlen in *; cbn; lia|cbn; lia|res_step Hs..].
  { destruct Hsp as [? ?]. exists 0, out1. split; [done|]. split; [done|]. by left. }
  destruct Hsp as [HI Hip]. assert (c_lit s < 32 /\ zlen (c_out s) = out_len) as [H32 Hlen].
  { destruct HI as (? & ? & ? & [_ _ -> ? _ _ _ _ ? _]). done. }
  destruct (Z.ltb_spec out_len (c_op s + 3)) as [Hfull|Hfit].
  - exists 0, (c_out s). split; [done|]. split; [done|]. left. split; [done|].
    destruct HI as (d & lits & c & [_ Hipd _ _ Hop _ Hbd _ _ _]). unfold ample.
    pose proof (zlen_nonneg lits). lia.
  - destruct (tail_loop_spec (S (length inp)) s) as (s' & Hs' & (d & lits & c & HI') & Hip' & Hop');
      [done|lia|unfold zlen in *; lia|case_match; lia|]. res_step Hs'.
    destruct (end_run s' d lits c HI' Hop') as (c' & o & Hst & He & _ & Hop2 & Hl2). res_step Hst.
    exists (zlen c'), (c' ++ o). split; [by rewrite Hop2|]. split; [done|]. right. exists c', o.
    destruct HI' as [[r Hr] Hipd _ _ _ _ _ _ _ _]. assert (d ++ lits = inp) as Hdl.
    { rewrite Hr, Hipd in *. zlen_simpl. assert (zlen r = 0) as ->%zlen_nil_inv by lia. by rewrite app_nil_r. }
    rewrite Hdl in He. split_and!; [done|done| |done].
    pose proof (zlen_nonneg c'). destruct (decide (zlen c' = 0)) as [->%zlen_nil_inv|]; [|lia].
    apply Enc_nil_inv in He as ->. change (zlen []) with 0 in Hin. lia.
Qed.

End compressor.

Lemma Enc_wf d c : Enc d c -> wf_bytes d -> wf_bytes c.
Proof.
  induction 1 as [|d c s He IH Hs|d c s off He IH Hs Ho Hd Hc]; intros Hw; [constructor|..];
    apply Forall_app in Hw as [Hwd Hws]; (apply Forall_app_2; [by apply IH|]).
  - constructor; [unfold is_byte; lia|done].
  - unfold ref_code. destruct (Z.ltb_spec (zlen s - 2) 7); repeat constructor; unfold is_byte; Z.div_mod_to_equations; lia.
Qed.

(** The compressor and the decompressor together. *)
Lemma lzf_pair inp out htab :
  wf_bytes inp -> 2 <= zlen inp < 2 ^ 63 -> valid_htab htab ->
  exists n out', lzf_compress inp (zlen out) htab out = Ok (n, out') /\
    0 <= n <= zlen out /\ zlen out' = zlen out /\
    (33 * zlen inp + 128 <= 32 * zlen out -> n <> 0) /\
    (n <> 0 -> wf_bytes (take (Z.to_nat n) out') /\ forall dst, zlen inp <= zlen dst ->
       lzf_decompress (take (Z.to_nat n) out') n (zlen dst) dst = Ok (zlen inp, inp ++ drop (length inp) dst)).
Proof.
  intros Hwf [Hin Hfit] Hv.
  destruct (lzf_compress_enc inp (zlen out) Hwf Hfit htab out Hin eq_refl Hv)
    as (n & out' & Hc & Hl & [[-> Ha]|(c & o & -> & -> & Hpos & He)]); eexists _, _; (split; [exact Hc|]).
  - pose proof (zlen_nonneg out). split_and!; [lia|lia|done|intros ?; by destruct Ha|done].
  - rewrite <- Hl, to_nat_zlen, take_app_length. pose proof (zlen_nonneg o). zlen_simpl.
    split_and!; [lia..|intros _]. split; [by apply (Enc_wf inp)|]. intros dst Hd. by apply decompress_enc.
Qed.

Lemma lzf_decompress_wf src in_end out_end out n out' :
  lzf_decompress src in_end out_end out = Ok (n, out') -> wf_bytes out -> wf_bytes out'.
Proof. apply decompress_loop_wf. Qed.

Lemma lzf_decompress_total src out :
  wf_bytes src ->
  exists n out', lzf_decompress src (zlen src) (zlen out) out = Ok (n, out') /\
    0 <= n <= zlen out /\ zlen out' = zlen out.
Proof.
  intros Hwf. pose proof (zlen_nonneg src). pose proof (zlen_nonneg out).
  apply decompress_loop_safe; [done|lia|rewrite to_nat_zlen; unfold zlen; lia|lia|done].
Qed.

(** ** Properties *)

(** C14. Compressing with [lzf_compress] and decompressing with
    [lzf_decompress] gives the input back.  On every input of at least two
    bytes, for every content of the uninitialised hash table, the compressor
    returns without an access outside its buffers; it returns 0 only when
    the output buffer is smaller than the input plus one byte per 32 and four
    more; and any other result is the length of a prefix of the output that
    the decompressor expands, into any buffer large enough, to the input. *)
Theorem lzf_roundtrip inp out htab :
  wf_bytes inp -> 2 <= zlen inp < 2 ^ 63 -> valid_htab htab ->
  exists n out', lzf_compress inp (zlen out) htab out = Ok (n, out') /\
    0 <= n <= zlen out /\ zlen out' = zlen out /\
    (33 * zlen inp + 128 <= 32 * zlen out -> n <> 0) /\
    (n <> 0 -> forall dst, zlen inp <= zlen dst ->
       lzf_decompress (take (Z.to_nat n) out') n (zlen dst) dst = Ok (zlen inp, inp ++ drop (length inp) dst)).
Proof.
  intros Hwf Hl Hv. destruct (lzf_pair inp out htab Hwf Hl Hv) as (n & out' & Hc & Hn & Ho & Ha & Hd).
  exists n, out'. split_and!; [done|lia|lia|done|done|]. intros Hne. apply (Hd Hne).
Qed.

(** A table of null pointers, and a sample with a long match. *)
Definition sample : bytes := replicate 20 97 ++ bytes_of_string "xyz" ++ replicate 20 97.

Lemma lzf_roundtrip_witness :
  exists n out', lzf_compress sample 100 (fun _ => - 2 ^ 32) (replicate 100 0) = Ok (n, out') /\
    n <> 0 /\ lzf_decompress (take (Z.to_nat n) out') n 50 (replicate 50 1) = Ok (43, sample ++ replicate 7 1).
Proof.
  destruct (lzf_roundtrip sample (replicate 100 0) (fun _ => - 2 ^ 32)) as (n & out' & Hc & _ & _ & Hn & Hd).
  - vm_compute. repeat constructor; discriminate.
  - vm_compute. split; [discriminate|reflexivity].
  - intros i. vm_compute. reflexivity.
  - exists n, out'. assert (n <> 0) as Hn0 by (apply Hn; vm_compute; discriminate).
    split; [exact Hc|]. split; [exact Hn0|].
    exact (Hd Hn0 (replicate 50 1) ltac:(vm_compute; discriminate)).
Defined.

(** C27. The decompressor is safe on untrusted input: on any bytes and any
    output buffer, [lzf_decompress] returns without reading outside the input
    or the output and without writing outside the output, after at most one
    iteration per input byte, and the length it reports fits the buffer. *)
Theorem lzf_decompress_safe src out :
  wf_bytes src ->
  exists n out', lzf_decompress src (zlen src) (zlen out) out = Ok (n, out') /\
    0 <= n <= zlen out /\ zlen out' = zlen out.
Proof. apply lzf_decompress_total. Qed.

(** A back reference before the start of the output is refused. *)
Lemma lzf_decompress_safe_witness :
  exists n out', lzf_decompress [0; 65; 64; 7] 4 8 (replicate 8 0) = Ok (n, out') /\
    0 <= n <= 8 /\ zlen out' = 8.
Proof.
  apply (lzf_decompress_safe [0; 65; 64; 7] (replicate 8 0)).
  repeat constructor; vm_compute; discriminate.
Defined.

(** The compressor hashes the first two bytes before any check of the
    length: an input of one byte is read past its end. *)
Theorem lzf_compress_short_read b out htab :
  out <> [] -> lzf_compress [b] (zlen out) htab out = Fault OutOfBounds.
Proof.
  intros Ho. unfold lzf_compress, in_len. change (zlen [b] =? 0) with false. cbn [orb].
  destruct (Z.eqb_spec (zlen out) 0) as [H0%zlen_nil_inv|]; done.
Qed.

Lemma lzf_compress_short_read_witness :
  [0; 0; 0] <> @nil Z /\ lzf_compress [65] 3 (fun _ => 0) [0; 0; 0] = Fault OutOfBounds.
Proof.
  split; [discriminate|]. apply (lzf_compress_short_read 65 [0; 0; 0]). discriminate.
Defined.

End LzfSpec.
