(* ===== verification/Rio.v ===== *)
(** * Stream input and output (rio.h, rio.c).

    A [rio] is a device with flags for past errors, a limit on the size of one
    call of the device and a running checksum.  [RioDevice] is what rio.c asks
    of a device; [Stream] is what a device promises to the code that writes or
    reads through it: what was written is stored in order unless the write is
    refused, and reads give what is pending.  The buffer device, whose memory
    is a dynamic string, is an instance. *)

From S2P Require Import Prelude Sds SdsTheory.
#[local] Open Scope Z_scope.

Module Rio.
Import Sds SdsTheory.

(** ** Devices *)

(** [r->write] and [r->read]: the new state of the device, and whether it
    succeeded or what was read. *)
Class RioDevice (D : Type) : Type := {
  dev_write : D -> bytes -> res (D * bool);
  dev_read : D -> Z -> res (D * option bytes)
}.

Record rio (D : Type) : Type := {
  io : D;
  write_error : bool;
  read_error : bool;
  max_processing_chunk : Z;
  processed_bytes : Z;
  update_cksum : option (Z -> bytes -> Z);
  cksum : Z
}.
Arguments io {D} r. Arguments write_error {D} r. Arguments read_error {D} r. Arguments max_processing_chunk {D} r.
Arguments processed_bytes {D} r. Arguments update_cksum {D} r. Arguments cksum {D} r.

Section rio.
Context {D : Type} `{RioDevice D}.
Implicit Types r : rio D.

Definition set_io r (d : D) : rio D :=
  {| io := d; write_error := write_error r; read_error := read_error r; max_processing_chunk := max_processing_chunk r;
     processed_bytes := processed_bytes r; update_cksum := update_cksum r; cksum := cksum r |}.
Definition set_errors r (w e : bool) : rio D :=
  {| io := io r; write_error := w; read_error := e; max_processing_chunk := max_processing_chunk r;
     processed_bytes := processed_bytes r; update_cksum := update_cksum r; cksum := cksum r |}.
Definition add_processed r (n : Z) : rio D :=
  {| io := io r; write_error := write_error r; read_error := read_error r; max_processing_chunk := max_processing_chunk r;
     processed_bytes := processed_bytes r + n; update_cksum := update_cksum r; cksum := cksum r |}.
(** [if (r->update_cksum) r->update_cksum(r,buf,n)] *)
Definition checksummed r (b : bytes) : rio D :=
  {| io := io r; write_error := write_error r; read_error := read_error r; max_processing_chunk := max_processing_chunk r;
     processed_bytes := processed_bytes r; update_cksum := update_cksum r;
     cksum := match update_cksum r with Some f => f (cksum r) b | None => cksum r end |}.

(** The size of the next call of the device, for [len] bytes. *)
Definition chunk r (len : Z) : Z :=
  if negb (max_processing_chunk r =? 0) && (max_processing_chunk r <? len) then max_processing_chunk r else len.

Fixpoint rioWrite_loop (fuel : nat) r (buf : bytes) : res (rio D * bool) :=
  match fuel with
  | O => Fault OutOfFuel
  | S fuel =>
    if zlen buf =? 0 then Ok (r, true) else
    let bytes_to_write := chunk r (zlen buf) in
    let part := take (Z.to_nat bytes_to_write) buf in
    let r := checksummed r part in
    w ← dev_write (io r) part;
    let r := set_io r (fst w) in
    if negb (snd w) then Ok (set_errors r true (read_error r), false) else
    rioWrite_loop fuel (add_processed r bytes_to_write) (drop (Z.to_nat bytes_to_write) buf)
  end.

Definition rioWrite r (buf : bytes) : res (rio D * bool) :=
  if write_error r then Ok (r, false) else rioWrite_loop (S (length buf)) r buf.

(** The bytes read so far are in [buf]; [None] for a failure. *)
Fixpoint rioRead_loop (fuel : nat) r (buf : bytes) (len : Z) : res (rio D * option bytes) :=
  match fuel with
  | O => Fault OutOfFuel
  | S fuel =>
    if len =? 0 then Ok (r, Some buf) else
    let bytes_to_read := chunk r len in
    w ← dev_read (io r) bytes_to_read;
    let r := set_io r (fst w) in
    match snd w with
    | None => Ok (set_errors r (write_error r) true, None)
    | Some b => rioRead_loop fuel (add_processed (checksummed r b) bytes_to_read) (buf ++ b) (len - bytes_to_read)
    end
  end.

Definition rioRead r (len : Z) : res (rio D * option bytes) :=
  if read_error r then Ok (r, None) else rioRead_loop (S (Z.to_nat len)) r [] len.

Definition rioGetReadError r : bool := read_error r.
Definition rioGetWriteError r : bool := write_error r.
Definition rioClearErrors r : rio D := set_errors r false false.

End rio.

(** ** Buffers *)

Section buffer.
Context `{Allocator}.

Record rio_buffer : Type := { ptr : sds; pos : Z }.

Definition rioBufferWrite (d : rio_buffer) (buf : bytes) : res (rio_buffer * bool) :=
  p ← sdscatlen (ptr d) buf; Ok ({| ptr := p; pos := pos d + zlen buf |}, true).

Definition rioBufferRead (d : rio_buffer) (len : Z) : res (rio_buffer * option bytes) :=
  l ← sdslen (ptr d);
  if u64 (l - pos d) <? len then Ok (d, None) else
  b ← get (ptr d) (pos d) len;
  Ok ({| ptr := ptr d; pos := pos d + len |}, Some b).

#[export] Instance rioBufferIO : RioDevice rio_buffer := {| dev_write := rioBufferWrite; dev_read := rioBufferRead |}.

Definition rioInitWithBuffer (s : sds) : rio rio_buffer :=
  {| io := {| ptr := s; pos := 0 |}; write_error := false; read_error := false; max_processing_chunk := 0;
     processed_bytes := 0; update_cksum := None; cksum := 0 |}.

End buffer.

(** ** What devices promise *)

(** [stored d l]: [l] was written so far; [pending d l]: [l] is left to read.
    A write may be refused, except within the capacity of the device. *)
Class Stream (D : Type) `{RioDevice D} : Type := {
  stored : D -> bytes -> Prop;
  pending : D -> bytes -> Prop;
  capacity : D -> Z;
  write_spec d l b :
    stored d l -> wf_bytes b -> zlen l + zlen b <= max_size ->
    exists d' ok, dev_write d b = Ok (d', ok) /\ capacity d' = capacity d /\
      (ok = true -> stored d' (l ++ b)) /\ (zlen l + zlen b <= capacity d -> ok = true);
  read_spec d l n :
    pending d l -> 0 <= n <= zlen l -> exists d', dev_read d n = Ok (d', Some (take (Z.to_nat n) l)) /\ pending d' (drop (Z.to_nat n) l);
  read_short d l n : pending d l -> zlen l < n -> exists d', dev_read d n = Ok (d', None);
  pending_wf d l : pending d l -> wf_bytes l
}.

Section stream.
Context {D : Type} `{Stream D}.
Implicit Types r : rio D.

(** The state of a stream that is written to, and of one that is read. *)
Definition writes r (l : bytes) : Prop := write_error r = false /\ 0 <= max_processing_chunk r /\ stored (io r) l.
Definition gives r (l : bytes) : Prop := read_error r = false /\ 0 <= max_processing_chunk r /\ pending (io r) l.

Lemma chunk_range r len : 0 < len -> 0 <= max_processing_chunk r -> 0 < chunk r len <= len.
Proof.
  intros Hl Hm. unfold chunk. destruct (Z.eqb_spec (max_processing_chunk r) 0), (Z.ltb_spec (max_processing_chunk r) len);
    cbn [negb andb]; lia.
Qed.

Lemma rioWrite_loop_spec fuel : forall r l b,
  writes r l -> wf_bytes b -> zlen l + zlen b <= max_size -> zlen b < Z.of_nat fuel ->
  exists r' ok, rioWrite_loop fuel r b = Ok (r', ok) /\ capacity (io r') = capacity (io r) /\
    (ok = true -> writes r' (l ++ b)) /\ (ok = false -> write_error r' = true) /\ (zlen l + zlen b <= capacity (io r) -> ok = true).
Proof.
  induction fuel as [|fuel IH]; intros r l b (He & Hm & Hs) Hw Hmax Hf; [pose proof (zlen_nonneg b); lia|]. cbn [rioWrite_loop].
  destruct (Z.eqb_spec (zlen b) 0) as [Hz|Hz].
  { apply zlen_nil_inv in Hz as ->. exists r, true. rewrite app_nil_r. split_and!; try done. }
  pose proof (zlen_nonneg b). destruct (chunk_range r (zlen b)) as [Hc1 Hc2]; [lia|done|]. set (n := chunk r (zlen b)) in *.
  destruct (write_spec (io r) l (take (Z.to_nat n) b) Hs) as (d & ok & Hd & Hcap & Hok & Hroom); [by apply Forall_take|rewrite zlen_take; lia|].
  change (io (checksummed r (take (Z.to_nat n) b))) with (io r). rewrite Hd. cbn [mbind res_bind fst snd].
  rewrite zlen_take in Hroom by lia. destruct ok; cbn [negb].
  - set (r1 := add_processed _ n). destruct (IH r1 (l ++ take (Z.to_nat n) b) (drop (Z.to_nat n) b)) as (r' & ok & Hr & Hc & Hy & Hno & Hfit).
    { split; [done|]. split; [done|]. by apply Hok. }
    { by apply Forall_drop. }
    { rewrite zlen_app, zlen_take by lia. unfold zlen in *. rewrite length_drop. lia. }
    { unfold zlen in *. rewrite length_drop. lia. }
    exists r', ok. rewrite <- app_assoc, take_drop in Hy. split; [done|]. split; [by rewrite Hc|]. split; [done|]. split; [done|].
    intros Hcp. apply Hfit. change (io r1) with d. rewrite Hcap, zlen_app, zlen_take by lia.
    assert (zlen (drop (Z.to_nat n) b) = zlen b - n) by (unfold zlen in *; rewrite length_drop; lia). lia.
  - eexists _, false. split; [done|]. split; [done|]. split; [done|]. split; [done|]. intros Hcp. apply Hroom. lia.
Qed.

Lemma rioWrite_spec r l b :
  writes r l -> wf_bytes b -> zlen l + zlen b <= max_size ->
  exists r' ok, rioWrite r b = Ok (r', ok) /\ capacity (io r') = capacity (io r) /\
    (ok = true -> writes r' (l ++ b)) /\ (ok = false -> write_error r' = true) /\ (zlen l + zlen b <= capacity (io r) -> ok = true).
Proof.
  intros Hr Hw Hmax. unfold rioWrite. destruct (Hr) as [-> _]. apply rioWrite_loop_spec; [done..|]. unfold zlen. lia.
Qed.

(** Once a write has failed, all later ones do. *)
Lemma rioWrite_failed r b : write_error r = true -> rioWrite r b = Ok (r, false).
Proof. intros He. unfold rioWrite. by rewrite He. Qed.

Lemma rioRead_loop_spec fuel : forall r l n b,
  gives r l -> 0 <= n -> n < Z.of_nat fuel ->
  exists r', rioRead_loop fuel r b n = Ok (r', if n <=? zlen l then Some (b ++ take (Z.to_nat n) l) else None) /\
    (n <= zlen l -> gives r' (drop (Z.to_nat n) l)) /\ (zlen l < n -> read_error r' = true).
Proof.
  induction fuel as [|fuel IH]; intros r l n b (He & Hm & Hp) Hn Hf; [lia|]. cbn [rioRead_loop]. pose proof (zlen_nonneg l).
  destruct (Z.eqb_spec n 0) as [->|Hz].
  { exists r. rewrite (proj2 (Z.leb_le 0 _)), app_nil_r by lia. split; [done|]. split; [done|lia]. }
  destruct (chunk_range r n) as [Hc1 Hc2]; [lia|done|]. set (k := chunk r n) in *.
  destruct (decide (k <= zlen l)) as [Hk|Hk].
  - destruct (read_spec (io r) l k Hp) as (d & -> & Hd); [lia|]. cbn [mbind res_bind fst snd].
    set (r1 := add_processed _ k). destruct (IH r1 (drop (Z.to_nat k) l) (n - k) (b ++ take (Z.to_nat k) l)) as (r' & Hr & Hy & Hno); [done|lia|lia|].
    assert (zlen (drop (Z.to_nat k) l) = zlen l - k) as Hdl by (unfold zlen in *; rewrite length_drop; lia). rewrite Hdl in *.
    exists r'. rewrite Hr. split.
    + f_equal. f_equal. destruct (Z.leb_spec (n - k) (zlen l - k)), (Z.leb_spec n (zlen l)); try lia; [|done].
      rewrite <- app_assoc, take_take_drop. do 4 f_equal. lia.
    + rewrite drop_drop in Hy. split; [|intros; apply Hno; lia]. intros Hle. replace (Z.to_nat n) with (Z.to_nat k + Z.to_nat (n - k))%nat by lia.
      apply Hy. lia.
  - destruct (read_short (io r) l k Hp) as (d & ->); [lia|]. cbn [mbind res_bind fst snd]. eexists.
    rewrite (proj2 (Z.leb_gt n _)) by lia. split; [done|]. split; [lia|done].
Qed.

Lemma rioRead_spec r l n :
  gives r l -> 0 <= n ->
  exists r', rioRead r n = Ok (r', if n <=? zlen l then Some (take (Z.to_nat n) l) else None) /\
    (n <= zlen l -> gives r' (drop (Z.to_nat n) l)) /\ (zlen l < n -> read_error r' = true).
Proof.
  intros Hr Hn. unfold rioRead. destruct (Hr) as [-> _]. apply (rioRead_loop_spec _ r l n []); [done..|]. lia.
Qed.

(** Reading what is known to come first. *)
Lemma rioRead_app r b l : gives r (b ++ l) -> exists r', rioRead r (zlen b) = Ok (r', Some b) /\ gives r' l.
Proof.
  intros Hr. destruct (rioRead_spec r (b ++ l) (zlen b) Hr (zlen_nonneg b)) as (r' & Hq & Hy & _). exists r'.
  rewrite zlen_app in Hq, Hy. pose proof (zlen_nonneg l). rewrite (proj2 (Z.leb_le _ _)) in Hq by lia.
  rewrite to_nat_zlen, take_app_length in Hq. rewrite to_nat_zlen, drop_app_length in Hy. split; [done|]. apply Hy. lia.
Qed.

(** A read that fails leaves the error flag set, and all later ones fail. *)
Lemma rioRead_failed r n : read_error r = true -> rioRead r n = Ok (r, None).
Proof. intros He. unfold rioRead. by rewrite He. Qed.

End stream.

(** ** The buffer device keeps its promise *)

Section buffer_stream.
Context `{Allocator}.

Definition buffer_stored (d : rio_buffer) (l : bytes) : Prop := repr (ptr d) l.
Definition buffer_pending (d : rio_buffer) (l : bytes) : Prop :=
  exists pre, repr (ptr d) (pre ++ l) /\ pos d = zlen pre /\ zlen (pre ++ l) < 2 ^ 63.

#[export] Instance buffer_stream : Stream rio_buffer.
Proof.
  refine {| stored := buffer_stored; pending := buffer_pending; capacity := fun _ => max_size |}.
  - intros d l b Hs Hw Hm. destruct (sdscatlen_spec (ptr d) l b Hs Hw Hm) as (p & Hp & Hr).
    exists {| ptr := p; pos := pos d + zlen b |}, true. cbn. unfold rioBufferWrite. rewrite Hp. done.
  - intros d l n (pre & Hr & Hp & Hm) Hn. cbn. unfold rioBufferRead. rewrite (sdslen_spec _ _ Hr). cbn [mbind res_bind].
    rewrite zlen_app in *. pose proof (zlen_nonneg pre). pose proof (zlen_nonneg l).
    rewrite wrapu_small by lia. rewrite (proj2 (Z.ltb_ge _ _)) by lia.
    assert (get (ptr d) (pos d) n = Ok (take (Z.to_nat n) l)) as ->.
    { destruct Hr as (ty & al & rest & [-> Hv _ _ _ _ _]). rewrite get_mk by (done || lia). rewrite Hp, <- app_assoc.
      pose proof (rdn_app pre (take (Z.to_nat n) l) (drop (Z.to_nat n) l ++ 0 :: rest)) as Hx.
      by rewrite zlen_take, (app_assoc (take _ l)), take_drop in Hx by done. }
    eexists. split; [done|]. exists (pre ++ take (Z.to_nat n) l). rewrite <- app_assoc, take_drop. cbn [ptr pos].
    rewrite !zlen_app, zlen_take by done. split_and!; [done|lia|lia].
  - intros d l n (pre & Hr & Hp & Hm) Hn. cbn. unfold rioBufferRead. rewrite (sdslen_spec _ _ Hr). cbn [mbind res_bind].
    rewrite zlen_app in *. pose proof (zlen_nonneg pre). pose proof (zlen_nonneg l).
    rewrite wrapu_small by lia. rewrite (proj2 (Z.ltb_lt _ _)) by lia. eauto.
  - intros d l (pre & (ty & al & rest & [_ _ _ _ _ _ Hw]) & _). by apply Forall_app in Hw as [_ ?].
Defined.

Lemma rioInitWithBuffer_writes s l : repr s l -> writes (rioInitWithBuffer s) l.
Proof. intros Hr. by split. Qed.

Lemma rioInitWithBuffer_gives s l : repr s l -> zlen l < 2 ^ 63 -> gives (rioInitWithBuffer s) l.
Proof. intros Hr Hl. split; [done|]. split; [done|]. by exists []. Qed.

End buffer_stream.

End Rio.
