(* ===== verification/Rdb.v ===== *)
(** * Lengths and strings of the RDB format (rdb.c).

    The encodings every value of an RDB file and of a DUMP payload is made of:
    lengths of 6, 14, 32 or 64 bits, strings that are numbers stored as
    integers of 8, 16 or 32 bits, strings compressed with LZF, and plain
    strings.  A function that saves takes the stream, or [None] for the NULL
    with which a size is computed without writing, and returns the bytes
    written or -1. *)

From S2P Require Import Prelude Util Sds Lzf Rio.
#[local] Open Scope Z_scope.

Module Rdb.
Import Sds Rio.

Definition RDB_6BITLEN : Z := 0.
Definition RDB_14BITLEN : Z := 1.
Definition RDB_32BITLEN : Z := 0x80.
Definition RDB_64BITLEN : Z := 0x81.
Definition RDB_ENCVAL : Z := 3.
Definition RDB_LENERR : Z := UINT64_MAX.
Definition RDB_ENC_INT8 : Z := 0.
Definition RDB_ENC_INT16 : Z := 1.
Definition RDB_ENC_INT32 : Z := 2.
Definition RDB_ENC_LZF : Z := 3.
Definition OBJ_ENCODING_EMBSTR_SIZE_LIMIT : Z := 44.

(** Integers in network order. *)
Definition be_bytes (n : nat) (x : Z) : bytes := reverse (le_bytes n x).
Definition be_val (b : bytes) : Z := le_val (reverse b).

(** What a load returns: a string, or an object with an integer in it. *)
Inductive loaded : Type := Str (b : bytes) | Int (v : Z).

(** The flags of a load; the code tests them as bits and no caller passes two.
    The last two ask for a hash field, an [mstr], without and with room for
    the metadata of a TTL. *)
Inductive load_flags : Type :=
  RDB_LOAD_NONE | RDB_LOAD_ENC | RDB_LOAD_PLAIN | RDB_LOAD_SDS | RDB_LOAD_HFLD | RDB_LOAD_HFLD_TTL.

(** A string object, as [rdbSaveStringObject] sees it. *)
Inductive robj : Type := IntObj (v : Z) | SdsObj (b : bytes).

Section rdb.
Context `{Allocator} {D : Type} `{RioDevice D}.

(** Whether [malloc] finds memory, the initial contents of the hash table of
    the compressor, and the configuration [rdbcompression]. *)
Context (can_malloc : Z -> bool) (htab : Lzf.hash_table) (rdb_compression : bool).

Definition saver : Type := option (rio D) -> res (option (rio D) * Z).

(** ** Writing *)

Definition rdbWriteRaw (p : bytes) : saver := fun rdb =>
  match rdb with
  | None => Ok (None, zlen p)
  | Some r => w ← rioWrite r p; Ok (Some (fst w), if snd w : bool then zlen p else -1)
  end.

(** [if ((n = f(rdb)) == -1) return -1; nwritten += n;] before [g]. *)
Definition and_then (f g : saver) : saver := fun rdb =>
  w ← f rdb;
  let '(rdb, n) := w in
  if n =? -1 then Ok (rdb, -1) else
  w ← g rdb;
  let '(rdb, m) := w in
  if m =? -1 then Ok (rdb, -1) else Ok (rdb, n + m).

Definition rdbSaveType (type : Z) : saver := rdbWriteRaw [type].

Definition rdbSaveMillisecondTime (t : Z) : saver := rdbWriteRaw (le_bytes 8 (u64 t)).

Definition rdbSaveLen (len : Z) : saver :=
  if len <? Z.shiftl 1 6 then
    rdbWriteRaw [Z.lor (Z.land len 0xFF) (Z.shiftl RDB_6BITLEN 6)]
  else if len <? Z.shiftl 1 14 then
    rdbWriteRaw [Z.lor (Z.land (Z.shiftr len 8) 0xFF) (Z.shiftl RDB_14BITLEN 6); Z.land len 0xFF]
  else if len <=? UINT32_MAX then
    and_then (rdbWriteRaw [RDB_32BITLEN]) (rdbWriteRaw (be_bytes 4 len))
  else
    and_then (rdbWriteRaw [RDB_64BITLEN]) (rdbWriteRaw (be_bytes 8 len)).

(** The array [enc] and the number of bytes written there, 0 when the value
    needs more than 32 bits. *)
Definition rdbEncodeInteger (value : Z) (enc : bytes) : res (bytes * Z) :=
  let byte k := Z.land (Z.shiftr value k) 0xFF in
  if (- 2 ^ 7 <=? value) && (value <=? 2 ^ 7 - 1) then
    enc ← wr enc 0 (Z.lor (Z.shiftl RDB_ENCVAL 6) RDB_ENC_INT8);
    enc ← wr enc 1 (byte 0); Ok (enc, 2)
  else if (- 2 ^ 15 <=? value) && (value <=? 2 ^ 15 - 1) then
    enc ← wr enc 0 (Z.lor (Z.shiftl RDB_ENCVAL 6) RDB_ENC_INT16);
    enc ← wr enc 1 (byte 0); enc ← wr enc 2 (byte 8); Ok (enc, 3)
  else if (- 2 ^ 31 <=? value) && (value <=? 2 ^ 31 - 1) then
    enc ← wr enc 0 (Z.lor (Z.shiftl RDB_ENCVAL 6) RDB_ENC_INT32);
    enc ← wr enc 1 (byte 0); enc ← wr enc 2 (byte 8); enc ← wr enc 3 (byte 16); enc ← wr enc 4 (byte 24); Ok (enc, 5)
  else Ok (enc, 0).

Definition rdbTryIntegerEncoding (s : bytes) (len : Z) (enc : bytes) : res (bytes * Z) :=
  o ← Util.string2ll s len;
  match o with
  | Some value => rdbEncodeInteger value enc
  | None => Ok (enc, 0)
  end.

Definition rdbSaveLzfBlob (data : bytes) (original_len : Z) : saver :=
  and_then (rdbWriteRaw [Z.lor (Z.shiftl RDB_ENCVAL 6) RDB_ENC_LZF])
    (and_then (rdbSaveLen (zlen data)) (and_then (rdbSaveLen original_len) (rdbWriteRaw data))).

(** The compressor gets [outlen] of the [outlen+1] bytes allocated; 0 when the
    string is not worth compressing. *)
Definition rdbSaveLzfStringObject (s : bytes) : saver := fun rdb =>
  let len := zlen s in
  if len <=? 4 then Ok (rdb, 0) else
  let outlen := len - 4 in
  r ← Lzf.lzf_compress s outlen htab (uninit outlen);
  let '(comprlen, out) := r in
  if comprlen =? 0 then Ok (rdb, 0) else
  data ← rdn out 0 comprlen;
  rdbSaveLzfBlob data len rdb.

Definition rdbSaveRawString (s : bytes) : saver := fun rdb =>
  let len := zlen s in
  r ← (if len <=? 11 then rdbTryIntegerEncoding s len (uninit 5) else Ok ([], 0));
  let '(buf, enclen) := r in
  if 0 <? enclen then
    b ← rdn buf 0 enclen;
    w ← rdbWriteRaw b rdb;
    let '(rdb, n) := w in if n =? -1 then Ok (rdb, -1) else Ok (rdb, enclen)
  else
  w ← (if rdb_compression && (20 <? len) then rdbSaveLzfStringObject s rdb else Ok (rdb, 0));
  let '(rdb, n) := w in
  if n =? -1 then Ok (rdb, -1) else
  if 0 <? n then Ok (rdb, n) else
  and_then (rdbSaveLen len) (fun rdb => if 0 <? len then rdbWriteRaw s rdb else Ok (rdb, 0)) rdb.

Definition rdbSaveLongLongAsStringObject (value : Z) : saver := fun rdb =>
  r ← rdbEncodeInteger value (uninit 32);
  let '(buf, enclen) := r in
  if 0 <? enclen then b ← rdn buf 0 enclen; rdbWriteRaw b rdb else
  r ← Util.ll2string buf 0 32 value;
  let '(buf, enclen) := r in
  _ ← cassert (enclen <? 32);
  b ← rdn buf 0 enclen;
  and_then (rdbSaveLen enclen) (rdbWriteRaw b) rdb.

Definition rdbSaveStringObject (obj : robj) : saver :=
  match obj with
  | IntObj v => rdbSaveLongLongAsStringObject v
  | SdsObj b => rdbSaveRawString b
  end.

(** ** Reading *)

(** -1 on a short read. *)
Definition rdbLoadType (r : rio D) : res (rio D * Z) :=
  w ← rioRead r 1;
  match snd w with
  | None => Ok (fst w, -1)
  | Some b => x ← rd b 0; Ok (fst w, x)
  end.

(** [LLONG_MAX] on a short read; the byte order of the host is little-endian,
    so the version of the file makes no difference. *)
Definition rdbLoadMillisecondTime (r : rio D) : res (rio D * Z) :=
  w ← rioRead r 8;
  match snd w with
  | None => Ok (fst w, INT64_MAX)
  | Some b => Ok (fst w, i64 (le_val b))
  end.

(** [None] is the result -1; otherwise [*isencoded] and [*lenptr].
    [rdbReportCorruptRDB] is taken to return, as it does for RESTORE. *)
Definition rdbLoadLenByRef (r : rio D) : res (rio D * option (bool * Z)) :=
  w ← rioRead r 1;
  let r := fst w in
  match snd w with
  | None => Ok (r, None)
  | Some b =>
    b0 ← rd b 0;
    let type := Z.shiftr (Z.land b0 0xC0) 6 in
    if type =? RDB_ENCVAL then Ok (r, Some (true, Z.land b0 0x3F)) else
    if type =? RDB_6BITLEN then Ok (r, Some (false, Z.land b0 0x3F)) else
    if type =? RDB_14BITLEN then
      w ← rioRead r 1;
      match snd w with
      | None => Ok (fst w, None)
      | Some b => b1 ← rd b 0; Ok (fst w, Some (false, Z.lor (Z.shiftl (Z.land b0 0x3F) 8) b1))
      end
    else if b0 =? RDB_32BITLEN then
      w ← rioRead r 4;
      Ok (fst w, option_map (fun b => (false, be_val b)) (snd w))
    else if b0 =? RDB_64BITLEN then
      w ← rioRead r 8;
      Ok (fst w, option_map (fun b => (false, be_val b)) (snd w))
    else Ok (r, None)
  end.

Definition rdbLoadLen (r : rio D) : res (rio D * bool * Z) :=
  w ← rdbLoadLenByRef r;
  Ok (match snd w with Some (isencoded, len) => (fst w, isencoded, len) | None => (fst w, false, RDB_LENERR) end).

(** The text of an integer, in an array of [LONG_STR_SIZE] bytes. *)
Definition int_text (val : Z) : res bytes :=
  r ← Util.ll2string (uninit Util.LONG_STR_SIZE) 0 Util.LONG_STR_SIZE val;
  rdn (fst r) 0 (snd r).

(** A plain string, an sds, a hash field and a string object hold the text of
    the number (the memory for these at most 20 bytes is taken to be there);
    only [RDB_LOAD_ENC] asks for an object with the integer itself. *)
Definition rdbLoadIntegerObject (r : rio D) (enctype : Z) (flags : load_flags) : res (rio D * option loaded) :=
  let result (r : rio D) (val : Z) :=
    match flags with
    | RDB_LOAD_ENC => Ok (r, Some (Int val))
    | _ => t ← int_text val; Ok (r, Some (Str t))
    end in
  let read n convert :=
    w ← rioRead r n;
    match snd w with None => Ok (fst w, None) | Some enc => result (fst w) (convert (le_val enc)) end in
  if enctype =? RDB_ENC_INT8 then read 1 (wraps 8) else
  if enctype =? RDB_ENC_INT16 then read 2 i16 else
  if enctype =? RDB_ENC_INT32 then read 4 i32 else
  Ok (r, None).

(** [ztrymalloc] refuses sizes of half the address space and more. *)
Definition ztrymalloc (size : Z) : bool := (size <? UINT64_MAX / 2) && can_malloc size.

(** [sdstrynewlen(SDS_NOINIT, len)]: whether it returned a string. *)
Definition sdstrynewlen (initlen : Z) : res bool :=
  let type := sdsReqType initlen in
  let type := if (type =? SDS_TYPE_5) && (initlen =? 0) then SDS_TYPE_8 else type in
  let hdrlen := sdsHdrSize type in
  _ ← cassert (initlen <? u64 (initlen + hdrlen + 1));
  Ok (ztrymalloc (hdrlen + initlen + 1)).

(** ** Hash fields (mstr.c, t_hash.c) *)

Definition MSTR_TYPE_5 : Z := 0.
Definition MSTR_TYPE_8 : Z := 1.
Definition MSTR_TYPE_16 : Z := 2.
Definition MSTR_TYPE_64 : Z := 3.

Definition mstrReqType (string_size : Z) : Z :=
  if string_size <? Z.shiftl 1 5 then MSTR_TYPE_5
  else if string_size <? Z.shiftl 1 8 then MSTR_TYPE_8
  else if string_size <? Z.shiftl 1 16 then MSTR_TYPE_16
  else MSTR_TYPE_64.

(** The sizes of the packed structs [mstrhdr5], [mstrhdr8], [mstrhdr16] and
    [mstrhdr64]. *)
Definition mstrHdrSize (type : Z) : Z :=
  if type =? MSTR_TYPE_5 then 1
  else if type =? MSTR_TYPE_8 then 3
  else if type =? MSTR_TYPE_16 then 3
  else if type =? MSTR_TYPE_64 then 9
  else 0.

(** [mstrNew(NULL, lenStr, 1)]: whether it returned a string. *)
Definition mstrNew (lenStr : Z) : res bool :=
  let mstrHdr := mstrHdrSize (mstrReqType lenStr) in
  _ ← cassert (lenStr <? u64 (lenStr + mstrHdr + 1));
  Ok (ztrymalloc (mstrHdr + lenStr + 1)).

(** [metaSize[HFIELD_META_EXPIRE]] and [sizeof(mstrFlags)]. *)
Definition sizeof_ExpireMeta : Z := 16.
Definition sizeof_mstrFlags : Z := 2.

(** [mstrNewWithMeta(&mstrFieldKind, NULL, lenStr, 1 << HFIELD_META_EXPIRE, 1)]:
    nothing checks that the size of the allocation does not wrap around; the
    header and the flags are written in the bytes before the string and the
    terminator after it, all of which must be in the allocation. *)
Definition mstrNewWithMeta (lenStr : Z) : res bool :=
  let mstrHdr := mstrHdrSize (mstrReqType lenStr) in
  let allocLen := u64 (sizeof_ExpireMeta + sizeof_mstrFlags + mstrHdr + lenStr + 1) in
  if negb (ztrymalloc allocLen) then Ok false else
  let mstrPtr := sizeof_ExpireMeta + sizeof_mstrFlags + mstrHdr in
  if allocLen <? mstrPtr then Fault OutOfBounds else
  if allocLen <=? mstrPtr + lenStr then Fault OutOfBounds else
  Ok true.

Definition hfieldTryNew (fieldlen : Z) (withExpireMeta : bool) : res bool :=
  if negb withExpireMeta then mstrNew fieldlen else mstrNewWithMeta fieldlen.

(** The memory for a string of [len] bytes, loaded plainly or decompressed. *)
Definition target (flags : load_flags) (len : Z) (embed : bool) : res bool :=
  match flags with
  | RDB_LOAD_PLAIN => Ok (ztrymalloc len)
  | RDB_LOAD_SDS => sdstrynewlen len
  | RDB_LOAD_HFLD => hfieldTryNew len false
  | RDB_LOAD_HFLD_TTL => hfieldTryNew len true
  | RDB_LOAD_NONE | RDB_LOAD_ENC => if embed && (len <=? OBJ_ENCODING_EMBSTR_SIZE_LIMIT) then Ok true else sdstrynewlen len
  end.

Definition rdbLoadLzfStringObject (r : rio D) (flags : load_flags) : res (rio D * option loaded) :=
  w ← rdbLoadLen r;
  let '(r, _, clen) := w in
  if clen =? RDB_LENERR then Ok (r, None) else
  w ← rdbLoadLen r;
  let '(r, _, len) := w in
  if len =? RDB_LENERR then Ok (r, None) else
  if negb (ztrymalloc clen) then Ok (r, None) else
  ok ← target flags len false;
  if negb ok then Ok (r, None) else
  w ← rioRead r clen;
  match snd w with
  | None => Ok (fst w, None)
  | Some c =>
    d ← Lzf.lzf_decompress c clen len (uninit len);
    if negb (fst d =? len) then Ok (fst w, None) else Ok (fst w, Some (Str (snd d)))
  end.

Definition rdbGenericLoadStringObject (r : rio D) (flags : load_flags) : res (rio D * option loaded) :=
  w ← rdbLoadLen r;
  let '(r, isencoded, len) := w in
  if len =? RDB_LENERR then Ok (r, None) else
  if isencoded : bool then
    if (len =? RDB_ENC_INT8) || (len =? RDB_ENC_INT16) || (len =? RDB_ENC_INT32) then rdbLoadIntegerObject r len flags else
    if len =? RDB_ENC_LZF then rdbLoadLzfStringObject r flags else
    Ok (r, None)
  else
  ok ← target flags len true;
  if negb ok then Ok (r, None) else
  w ← (if negb (len =? 0) then rioRead r len else Ok (r, Some []));
  match snd w with
  | None => Ok (fst w, None)
  | Some b => Ok (fst w, Some (Str b))
  end.

End rdb.

End Rdb.
