(* ===== verification/RdbSpec.v ===== *)
(** * RDB strings: round trips and safety.

    [Saves f t]: the saver [f] writes the text [t], and returns its length or
    reports that the device refused it.  [Loads t s]: loading from a stream
    that starts with [t] gives the string [s] and leaves the rest. *)

From S2P Require Import Prelude Util Sds SdsTheory Lzf LzfSpec Rio Rdb.
#[local] Open Scope Z_scope.

Module RdbSpec.
Import Sds SdsTheory Rio Rdb.

(** ** Integers in network order *)

Lemma zlen_be n x : zlen (be_bytes n x) = Z.of_nat n.
Proof. unfold be_bytes, zlen. by rewrite length_reverse, length_le_bytes. Qed.

Lemma be_val_bytes n x : be_val (be_bytes n x) = x mod 2 ^ (8 * Z.of_nat n).
Proof. unfold be_val, be_bytes. rewrite reverse_involutive. apply le_val_bytes. Qed.

Lemma wf_be n x : wf_bytes (be_bytes n x).
Proof. apply Forall_reverse, wf_le_bytes. Qed.

(** ** The text of a length *)

Definition len_text (n : Z) : bytes :=
  if n <? 64 then [n] else
  if n <? 16384 then [64 + n / 256; n mod 256] else
  if n <=? UINT32_MAX then 128 :: be_bytes 4 n else 129 :: be_bytes 8 n.

Lemma len_text_short n : 0 <= n -> 1 <= zlen (len_text n) <= 9.
Proof. intros Hn. unfold len_text. repeat case_match; unfold zlen, be_bytes; cbn [length]; rewrite ?length_reverse, ?length_le_bytes; lia. Qed.

Lemma len_text_wf n : 0 <= n -> wf_bytes (len_text n).
Proof.
  intros Hn. unfold len_text. destruct (Z.ltb_spec n 64); [by repeat constructor; unfold is_byte; lia|].
  destruct (Z.ltb_spec n 16384).
  - repeat constructor; unfold is_byte; try apply Z.mod_pos_bound; Z.div_mod_to_equations; lia.
  - case_match; (constructor; [unfold is_byte; lia|apply wf_be]).
Qed.

Section spec.
Context `{Allocator} {D : Type} `{Stream D}.
Context (can_malloc : Z -> bool) (htab : Lzf.hash_table) (rdb_compression : bool).

(** ** Saving *)

Definition Saves (f : saver) (t : bytes) : Prop :=
  f None = Ok (None, zlen t) /\
  forall r l, writes r l -> zlen l + zlen t <= max_size ->
    exists r' k, f (Some r) = Ok (Some r', k) /\ capacity (io r') = capacity (io r) /\
      (zlen l + zlen t <= capacity (io r) -> k <> -1) /\
      (k = -1 /\ write_error r' = true \/ k = zlen t /\ writes r' (l ++ t)).

Lemma rdbWriteRaw_saves b : wf_bytes b -> Saves (rdbWriteRaw b) b.
Proof.
  intros Hw. split; [done|]. intros r l Hr Hm. destruct (rioWrite_spec r l b Hr Hw Hm) as (r' & ok & Hq & Hc & Hy & Hno & Hfit).
  cbn [rdbWriteRaw]. rewrite Hq. cbn [mbind res_bind fst snd]. pose proof (zlen_nonneg b). exists r', (if ok then zlen b else -1).
  split; [done|]. split; [done|]. split; [intros Hcp; rewrite (Hfit Hcp); lia|]. destruct ok; [right|left]; auto.
Qed.

Lemma and_then_saves f g t u : Saves f t -> Saves g u -> Saves (and_then f g) (t ++ u).
Proof.
  intros [Hf0 Hf] [Hg0 Hg]. pose proof (zlen_nonneg t). pose proof (zlen_nonneg u). split.
  - unfold and_then. rewrite Hf0. cbn [mbind res_bind]. rewrite (proj2 (Z.eqb_neq _ _)) by lia. rewrite Hg0. cbn [mbind res_bind].
    rewrite (proj2 (Z.eqb_neq _ _)) by lia. by rewrite zlen_app.
  - intros r l Hr Hm. rewrite zlen_app in *. unfold and_then.
    destruct (Hf r l Hr) as (r1 & k1 & -> & Hc1 & Hfit1 & [[-> He]|[-> Hw]]); [lia| |]; cbn [mbind res_bind].
    { exists r1, (-1). split; [done|]. split; [done|]. split; [|by left]. intros. apply Hfit1. lia. }
    rewrite (proj2 (Z.eqb_neq _ _)) by lia.
    destruct (Hg r1 (l ++ t) Hw) as (r2 & k2 & -> & Hc2 & Hfit2 & [[-> He]|[-> Hw2]]); [rewrite zlen_app; lia| |]; cbn [mbind res_bind].
    { exists r2, (-1). split; [done|]. split; [congruence|]. split; [|by left]. intros. apply Hfit2. rewrite zlen_app, Hc1. lia. }
    rewrite (proj2 (Z.eqb_neq _ _)) by lia. exists r2, (zlen t + zlen u). rewrite app_assoc. split; [done|]. split; [congruence|].
    split; [lia|by right].
Qed.

Lemma Saves_ext f g t : (forall r, f r = g r) -> Saves f t -> Saves g t.
Proof.
  intros E [Hnull Hr]. split; [by rewrite <- E|]. intros r l Hw Hm. destruct (Hr r l Hw Hm) as (r' & k & Hq & Hrest). exists r', k. by rewrite <- E.
Qed.

Lemma and_then_nil_saves f t : Saves f t -> Saves (and_then f (fun rdb => Ok (rdb, 0))) t.
Proof.
  intros Hf. rewrite <- (app_nil_r t). apply and_then_saves; [done|]. split; [done|]. intros r l Hw Hm. exists r, 0.
  rewrite app_nil_r. split; [done|]. split; [done|]. split; [lia|by right].
Qed.

Lemma land_255 x : Z.land x 0xFF = x mod 256.
Proof. change 0xFF with (2 ^ 8 - 1). by rewrite land_ones_mod. Qed.

Lemma rdbSaveLen_saves n : 0 <= n < 2 ^ 64 -> Saves (rdbSaveLen n) (len_text n).
Proof.
  intros Hn. unfold rdbSaveLen, len_text. change (Z.shiftl 1 6) with 64. change (Z.shiftl 1 14) with 16384.
  destruct (Z.ltb_spec n 64).
  { rewrite land_255, Z.mod_small by lia. change (Z.shiftl RDB_6BITLEN 6) with 0. rewrite Z.lor_0_r.
    apply rdbWriteRaw_saves. repeat constructor; unfold is_byte; lia. }
  destruct (Z.ltb_spec n 16384).
  { rewrite !land_255, Z.shiftr_div_pow2, (Z.mod_small (n / 2 ^ 8)) by (lia || (Z.div_mod_to_equations; lia)). change (Z.shiftl RDB_14BITLEN 6) with 64.
    assert (Z.lor (n / 2 ^ 8) 64 = 64 + n / 256) as ->.
    { rewrite Z.lor_comm. change 64 with (Z.shiftl 1 6). rewrite lor_shiftl_add by (lia || (Z.div_mod_to_equations; lia)). done. }
    apply rdbWriteRaw_saves. repeat constructor; unfold is_byte; try apply Z.mod_pos_bound; Z.div_mod_to_equations; lia. }
  destruct (n <=? UINT32_MAX).
  - apply (and_then_saves _ _ [RDB_32BITLEN] (be_bytes 4 n)); apply rdbWriteRaw_saves; [by repeat constructor|apply wf_be].
  - apply (and_then_saves _ _ [RDB_64BITLEN] (be_bytes 8 n)); apply rdbWriteRaw_saves; [by repeat constructor|apply wf_be].
Qed.

(** ** Loading lengths *)

Lemma type_bits b : is_byte b -> Z.shiftr (Z.land b 0xC0) 6 = b / 64.
Proof.
  intros Hb. unfold is_byte in Hb. rewrite Z.shiftr_land. change (Z.shiftr 0xC0 6) with (2 ^ 2 - 1). rewrite land_ones_mod, Z.shiftr_div_pow2 by lia.
  apply Z.mod_small. Z.div_mod_to_equations; lia.
Qed.

Lemma land_63 b : Z.land b 0x3F = b mod 64.
Proof. change 0x3F with (2 ^ 6 - 1). by rewrite land_ones_mod. Qed.

Lemma rd_single b : rd [b] 0 = Ok b.
Proof. done. Qed.

(** The first byte decides. *)
Lemma rioRead_byte r b l : gives r (b :: l) -> exists r', rioRead r 1 = Ok (r', Some [b]) /\ gives r' l.
Proof. apply (rioRead_app r [b] l). Qed.

Lemma rdbLoadLen_spec r n rest :
  0 <= n < 2 ^ 64 -> gives r (len_text n ++ rest) -> exists r', rdbLoadLen r = Ok (r', false, n) /\ gives r' rest.
Proof.
  intros Hn Hg. unfold rdbLoadLen, rdbLoadLenByRef. unfold len_text in Hg. unfold UINT32_MAX in Hg.
  destruct (Z.ltb_spec n 64); [|destruct (Z.ltb_spec n 16384); [|destruct (Z.leb_spec n (2 ^ 32 - 1))]];
    apply rioRead_byte in Hg as (r1 & -> & Hg); cbn [mbind res_bind fst snd]; rewrite rd_single; cbn [mbind res_bind].
  - rewrite type_bits, land_63 by (unfold is_byte; lia). rewrite Z.div_small, Z.mod_small by lia. cbn. eauto.
  - rewrite type_bits, land_63 by (unfold is_byte; Z.div_mod_to_equations; lia).
    replace ((64 + n / 256) / 64) with 1 by (Z.div_mod_to_equations; lia). cbn [Z.eqb Pos.eqb RDB_ENCVAL RDB_6BITLEN RDB_14BITLEN].
    apply rioRead_byte in Hg as (r2 & -> & Hg). cbn [mbind res_bind fst snd]; rewrite rd_single; cbn [mbind res_bind].
    replace ((64 + n / 256) mod 64) with (n / 256) by (Z.div_mod_to_equations; lia).
    rewrite lor_shiftl_add by (lia || apply Z.mod_pos_bound; lia). exists r2. split; [|done]. do 3 f_equal. Z.div_mod_to_equations; lia.
  - change (Z.shiftr (Z.land 128 0xC0) 6) with 2. cbn [Z.eqb Pos.eqb RDB_ENCVAL RDB_6BITLEN RDB_14BITLEN RDB_32BITLEN].
    apply rioRead_app in Hg as (r2 & Hq & Hg). rewrite zlen_be in Hq. change (Z.of_nat 4) with 4 in Hq. rewrite Hq. cbn [mbind res_bind fst snd option_map].
    rewrite be_val_bytes, Z.mod_small by (change (8 * Z.of_nat 4) with 32; lia). eauto.
  - change (Z.shiftr (Z.land 129 0xC0) 6) with 2. cbn [Z.eqb Pos.eqb RDB_ENCVAL RDB_6BITLEN RDB_14BITLEN RDB_32BITLEN RDB_64BITLEN].
    apply rioRead_app in Hg as (r2 & Hq & Hg). rewrite zlen_be in Hq. change (Z.of_nat 8) with 8 in Hq. rewrite Hq. cbn [mbind res_bind fst snd option_map].
    rewrite be_val_bytes, Z.mod_small by (change (8 * Z.of_nat 8) with 64; lia). eauto.
Qed.

Lemma rdbLoadLen_encoded r e rest :
  0 <= e < 64 -> gives r (192 + e :: rest) -> exists r', rdbLoadLen r = Ok (r', true, e) /\ gives r' rest.
Proof.
  intros He Hg. unfold rdbLoadLen, rdbLoadLenByRef. apply rioRead_byte in Hg as (r1 & -> & Hg).
  cbn [mbind res_bind fst snd]; rewrite rd_single; cbn [mbind res_bind].
  rewrite type_bits, land_63 by (unfold is_byte; lia). replace ((192 + e) / 64) with 3 by (Z.div_mod_to_equations; lia).
  replace ((192 + e) mod 64) with e by (Z.div_mod_to_equations; lia). cbn. eauto.
Qed.

(** ** Integers *)

(** The bytes of the integer encodings. *)
Definition int_enc (v : Z) : bytes :=
  if (- 2 ^ 7 <=? v) && (v <=? 2 ^ 7 - 1) then 192 :: le_bytes 1 v else
  if (- 2 ^ 15 <=? v) && (v <=? 2 ^ 15 - 1) then 193 :: le_bytes 2 v else
  if (- 2 ^ 31 <=? v) && (v <=? 2 ^ 31 - 1) then 194 :: le_bytes 4 v else [].

Lemma byte_at v k : 0 <= k -> u8 (Z.land (Z.shiftr v k) 0xFF) = v / 2 ^ k mod 256.
Proof. intros Hk. rewrite land_255, Z.shiftr_div_pow2 by done. apply u8_small. unfold is_byte. apply Z.mod_pos_bound. lia. Qed.

Lemma wr_1 a b c v : wr (a :: b :: c) 1 v = Ok (a :: u8 v :: c).
Proof. exact (wr_app [a] b v c). Qed.
Lemma wr_2 a b c d v : wr (a :: b :: c :: d) 2 v = Ok (a :: b :: u8 v :: d).
Proof. exact (wr_app [a; b] c v d). Qed.
Lemma wr_3 a b c d e v : wr (a :: b :: c :: d :: e) 3 v = Ok (a :: b :: c :: u8 v :: e).
Proof. exact (wr_app [a; b; c] d v e). Qed.
Lemma wr_4 a b c d e f v : wr (a :: b :: c :: d :: e :: f) 4 v = Ok (a :: b :: c :: d :: u8 v :: f).
Proof. exact (wr_app [a; b; c; d] e v f). Qed.

Lemma rdbEncodeInteger_spec v enc :
  5 <= zlen enc ->
  exists enc', rdbEncodeInteger v enc = Ok (enc', zlen (int_enc v)) /\ zlen enc' = zlen enc /\ rdn enc' 0 (zlen (int_enc v)) = Ok (int_enc v) /\
    (int_enc v = [] -> enc' = enc).
Proof.
  intros Hl. do 5 (destruct enc as [|? enc]; [unfold zlen in Hl; cbn [length] in Hl; lia|]). unfold rdbEncodeInteger, int_enc.
  change (Z.lor (Z.shiftl RDB_ENCVAL 6) RDB_ENC_INT8) with 192. change (Z.lor (Z.shiftl RDB_ENCVAL 6) RDB_ENC_INT16) with 193.
  change (Z.lor (Z.shiftl RDB_ENCVAL 6) RDB_ENC_INT32) with 194. cbn [le_bytes]. rewrite !Z.div_div by lia.
  change (256 * 256 * 256) with (2 ^ 24). change (256 * 256) with (2 ^ 16).
  repeat case_match; rewrite ?wr_0; cbn [mbind res_bind]; rewrite ?wr_1; cbn [mbind res_bind]; rewrite ?wr_2; cbn [mbind res_bind];
    rewrite ?wr_3; cbn [mbind res_bind]; rewrite ?wr_4; cbn [mbind res_bind]; rewrite ?byte_at by lia.
  all: rewrite ?Z.div_1_r; change (2 ^ 0) with 1; change (2 ^ 8) with 256; rewrite ?Z.div_1_r.
  all: eexists; split; [reflexivity|]; split; [reflexivity|]; split; [|done].
  - exact (rdn_app [] [192; v mod 256] (z1 :: z2 :: z3 :: enc)).
  - exact (rdn_app [] [193; v mod 256; v / 256 mod 256] (z2 :: z3 :: enc)).
  - exact (rdn_app [] [194; v mod 256; v / 256 mod 256; v / 2 ^ 16 mod 256; v / 2 ^ 24 mod 256] enc).
  - done.
Qed.

Lemma int_text_spec v : is_i64 v -> int_text v = Ok (Util.decimal v).
Proof.
  intros Hv. unfold int_text. change Util.LONG_STR_SIZE with 21. pose proof (Util.decimal_length v Hv) as Hd.
  pose proof (zlen_uninit 21 ltac:(lia)) as Hu. set (t := Util.decimal v) in *.
  destruct (split_room (uninit 21) (zlen t + 1) (20 - zlen t)) as (r & suf & -> & Lr & _); [lia..|].
  pose proof (Util.ll2string_spec [] r suf 21 v Hv) as Hs. cbn [app] in Hs. fold t in Hs. change (zlen []) with 0 in Hs.
  rewrite Hs by lia. cbn [mbind res_bind fst snd]. apply (rdn_app [] t (0 :: suf)).
Qed.

Lemma wraps_le w v : - 2 ^ (8 * Z.of_nat (S w) - 1) <= v < 2 ^ (8 * Z.of_nat (S w) - 1) -> wraps (8 * Z.of_nat (S w)) (le_val (le_bytes (S w) v)) = v.
Proof. intros Hv. rewrite le_val_bytes. apply wraps_wrapu; [lia|done]. Qed.

(** ** Strings *)

Definition text (o : loaded) : bytes := match o with Str b => b | Int v => Util.decimal v end.

Definition Loads (t s : bytes) : Prop :=
  forall r rest flags, gives r (t ++ rest) ->
  exists r' o, rdbGenericLoadStringObject can_malloc r flags = Ok (r', Some o) /\ text o = s /\ gives r' rest.

Lemma result_text (r : rio D) v flags :
  is_i64 v -> exists o, match flags with
    | RDB_LOAD_ENC => Ok (r, Some (Int v))
    | _ => t ← int_text v; Ok (r, Some (Str t))
    end = Ok (r, Some o) /\ text o = Util.decimal v.
Proof. intros Hv. destruct flags; rewrite ?int_text_spec by done; eexists; (split; [reflexivity|done]). Qed.

Lemma int_enc_inv v : int_enc v <> [] ->
  exists e w, int_enc v = 192 + e :: le_bytes (S w) v /\ - 2 ^ (8 * Z.of_nat (S w) - 1) <= v < 2 ^ (8 * Z.of_nat (S w) - 1) /\
    ((e = 0 /\ w = 0%nat) \/ (e = 1 /\ w = 1%nat) \/ (e = 2 /\ w = 3%nat)).
Proof.
  unfold int_enc. intros Hne.
  destruct ((- 2 ^ 7 <=? v) && (v <=? 2 ^ 7 - 1)) eqn:E1; [exists 0, 0%nat|
    destruct ((- 2 ^ 15 <=? v) && (v <=? 2 ^ 15 - 1)) eqn:E2; [exists 1, 1%nat|
      destruct ((- 2 ^ 31 <=? v) && (v <=? 2 ^ 31 - 1)) eqn:E3; [exists 2, 3%nat|done]]];
    (split; [done|]); match goal with E : _ = true |- _ => apply andb_true_iff in E as [?%Z.leb_le ?%Z.leb_le] end; (split; [lia|]); lia.
Qed.

Lemma int_enc_len v : int_enc v <> [] -> 0 < zlen (int_enc v) <= 5.
Proof.
  intros (e & w & -> & _ & Hew)%int_enc_inv. rewrite zlen_cons, zlen_le_bytes_nat. destruct Hew as [[_ ->]|[[_ ->]|[_ ->]]]; lia.
Qed.

Lemma decimal_wf v : is_i64 v -> wf_bytes (Util.decimal v).
Proof.
  intros Hv. unfold is_i64, INT64_MIN, INT64_MAX in Hv. unfold Util.decimal.
  assert (forall n, 0 <= n < 2 ^ 64 -> wf_bytes (Util.udecimal n)) as Hu.
  { intros n Hn. rewrite Util.udecimal_decs by done. pose proof (Util.decs_digits (Z.to_nat (Util.digits10 n)) n) as Hd.
    unfold wf_bytes, is_byte. rewrite Forall_forall in Hd |- *. intros y Hy. specialize (Hd y Hy). lia. }
  destruct (Z.ltb_spec v 0); [constructor; [done|]|]; apply Hu; lia.
Qed.

Lemma int_loads v : int_enc v <> [] -> Loads (int_enc v) (Util.decimal v).
Proof.
  intros (e & w & -> & Hv & Hew)%int_enc_inv r rest flags Hg. unfold rdbGenericLoadStringObject.
  destruct (rdbLoadLen_encoded r e (le_bytes (S w) v ++ rest)) as (r1 & -> & Hg1); [lia|done|]. cbn [mbind res_bind].
  assert (is_i64 v) as Hi by (unfold is_i64, INT64_MIN, INT64_MAX; destruct Hew as [[_ ->]|[[_ ->]|[_ ->]]]; cbn in Hv; lia).
  apply rioRead_app in Hg1 as (r2 & Hq & Hg2). rewrite zlen_le_bytes_nat in Hq. pose proof (wraps_le w v Hv) as Hwr.
  destruct (result_text r2 v flags Hi) as (o & Ho & Ht). exists r2, o. split; [|done].
  destruct Hew as [[-> ->]|[[-> ->]|[-> ->]]]; cbn [Z.eqb Pos.eqb orb]; unfold rdbLoadIntegerObject; cbn [Z.eqb Pos.eqb];
    [change (8 * Z.of_nat 1) with 8 in Hwr; change (Z.of_nat 1) with 1 in Hq
    |change (8 * Z.of_nat 2) with 16 in Hwr; change (Z.of_nat 2) with 2 in Hq
    |change (8 * Z.of_nat 4) with 32 in Hwr; change (Z.of_nat 4) with 4 in Hq];
    rewrite Hq; cbn [mbind res_bind fst snd]; rewrite Hwr; exact Ho.
Qed.


(** A saver whose result is checked once more. *)
Lemma checked_saves f t h :
  Saves f t -> t <> [] ->
  Saves (fun rdb => w ← f rdb; let '(rdb, n) := w in if n =? -1 then Ok (rdb, -1) else if 0 <? n then Ok (rdb, n) else h rdb) t.
Proof.
  intros [Hnull Hf] Hne. assert (0 < zlen t) as Ht by (destruct t; [done|]; rewrite zlen_cons; pose proof (zlen_nonneg t); lia). split.
  - rewrite Hnull. cbn [mbind res_bind]. by rewrite (proj2 (Z.eqb_neq _ _)), (proj2 (Z.ltb_lt _ _)) by lia.
  - intros r l Hw Hm. destruct (Hf r l Hw Hm) as (r' & k & -> & Hc & Hfit & Hk). cbn [mbind res_bind]. exists r', k. split; [|done].
    destruct Hk as [[-> _]|[-> _]]; [done|]. by rewrite (proj2 (Z.eqb_neq _ _)), (proj2 (Z.ltb_lt _ _)) by lia.
Qed.

Lemma int_enc_wf v : wf_bytes (int_enc v).
Proof.
  destruct (decide (int_enc v = [])) as [->|Hne]; [constructor|]. apply int_enc_inv in Hne as (e & w & -> & _ & He).
  constructor; [unfold is_byte; lia|apply wf_le_bytes].
Qed.

(** ** Memory *)

(** Allocations up to [lim] bytes succeed. *)
Definition plenty (lim : Z) : Prop := lim < 2 ^ 63 - 1 /\ forall n, n <= lim -> can_malloc n = true.

Lemma ztrymalloc_plenty lim n : plenty lim -> n <= lim -> ztrymalloc can_malloc n = true.
Proof. intros [Hl Hm] Hn. unfold ztrymalloc, UINT64_MAX. rewrite (Hm n Hn), (proj2 (Z.ltb_lt _ _)); [done|]. change ((2 ^ 64 - 1) / 2) with (2 ^ 63 - 1). lia. Qed.

Lemma string_hdr_range n : 1 <= sdsHdrSize (let type := sdsReqType n in if (type =? SDS_TYPE_5) && (n =? 0) then SDS_TYPE_8 else type) <= 17.
Proof. cbv zeta. unfold sdsReqType. repeat case_match; split; by vm_compute. Qed.

Lemma sdstrynewlen_plenty lim n : plenty lim -> 0 <= n -> n + 18 <= lim -> sdstrynewlen can_malloc n = Ok true.
Proof.
  intros Hp Hn Hl. destruct Hp as [Hb Hm]. unfold sdstrynewlen. pose proof (string_hdr_range n) as Hh. cbv zeta in Hh |- *.
  rewrite wrapu_small by lia. rewrite (proj2 (Z.ltb_lt _ _)) by lia. cbn [cassert mbind res_bind].
  f_equal. apply (ztrymalloc_plenty lim); [done|lia].
Qed.

Lemma mstr_hdr_range n : 1 <= mstrHdrSize (mstrReqType n) <= 9.
Proof. unfold mstrReqType. repeat case_match; split; by vm_compute. Qed.

(** Away from the end of the address space the allocation of a hash field with
    metadata does not wrap around and holds what is written. *)
Lemma mstrNewWithMeta_small n : 0 <= n < 2 ^ 64 - 28 ->
  mstrNewWithMeta can_malloc n = Ok (ztrymalloc can_malloc (19 + mstrHdrSize (mstrReqType n) + n)).
Proof.
  intros Hn. unfold mstrNewWithMeta, sizeof_ExpireMeta, sizeof_mstrFlags. pose proof (mstr_hdr_range n) as Hh. cbv zeta.
  rewrite wrapu_small by lia. replace (16 + 2 + mstrHdrSize (mstrReqType n) + n + 1) with (19 + mstrHdrSize (mstrReqType n) + n) by lia.
  destruct (ztrymalloc _ _); cbn [negb]; [|done]. by rewrite (proj2 (Z.ltb_ge _ _)), (proj2 (Z.leb_gt _ _)) by lia.
Qed.

Lemma hfieldTryNew_plenty lim n ttl : plenty lim -> 0 <= n -> n + 28 <= lim -> hfieldTryNew can_malloc n ttl = Ok true.
Proof.
  intros Hp Hn Hl. destruct (Hp) as [Hb Hm]. pose proof (mstr_hdr_range n) as Hh. unfold hfieldTryNew. destruct ttl; cbn [negb].
  - rewrite mstrNewWithMeta_small by lia. f_equal. apply (ztrymalloc_plenty lim); [done|lia].
  - unfold mstrNew. cbv zeta. rewrite wrapu_small, (proj2 (Z.ltb_lt _ _)) by lia. cbn [cassert mbind res_bind].
    f_equal. apply (ztrymalloc_plenty lim); [done|lia].
Qed.

Lemma target_plenty lim flags n e : plenty lim -> 0 <= n -> n + 28 <= lim -> target can_malloc flags n e = Ok true.
Proof.
  intros Hp Hn Hl. unfold target. rewrite (sdstrynewlen_plenty lim) by (done || lia). rewrite !(hfieldTryNew_plenty lim) by done. rewrite (ztrymalloc_plenty lim) by (done || lia).
  destruct flags; repeat case_match; done.
Qed.

Lemma lenerr n : 0 <= n < 2 ^ 63 -> (n =? RDB_LENERR) = false.
Proof. intros Hn. apply Z.eqb_neq. unfold RDB_LENERR, UINT64_MAX. lia. Qed.

Lemma plain_loads lim s : plenty lim -> zlen s + 28 <= lim -> Loads (len_text (zlen s) ++ s) s.
Proof.
  intros Hp Hl r rest flags Hg. pose proof (zlen_nonneg s). destruct Hp as [Hb Hm]. rewrite <- app_assoc in Hg.
  unfold rdbGenericLoadStringObject. destruct (rdbLoadLen_spec r (zlen s) (s ++ rest)) as (r1 & -> & Hg1); [lia|done|]. cbn [mbind res_bind].
  rewrite lenerr by lia. rewrite (target_plenty lim) by (done || lia). cbn [mbind res_bind negb].
  destruct (Z.eqb_spec (zlen s) 0) as [Hz|Hz]; cbn [negb].
  - apply zlen_nil_inv in Hz as ->. cbn [mbind res_bind fst snd]. eauto.
  - destruct (rioRead_app r1 s rest Hg1) as (r2 & -> & Hg2). cbn [mbind res_bind fst snd]. eauto.
Qed.

Lemma lzf_loads lim c s :
  plenty lim -> zlen s + 28 <= lim -> zlen c <= lim ->
  Lzf.lzf_decompress c (zlen c) (zlen s) (uninit (zlen s)) = Ok (zlen s, s) ->
  Loads (195 :: len_text (zlen c) ++ len_text (zlen s) ++ c) s.
Proof.
  intros Hp Hl Hc Hd r rest flags Hg. pose proof (zlen_nonneg s). pose proof (zlen_nonneg c). destruct (Hp) as [Hb Hm].
  change (195 :: ?l) with (192 + 3 :: l) in Hg. cbn [app] in Hg. rewrite <- !app_assoc in Hg. unfold rdbGenericLoadStringObject.
  apply rdbLoadLen_encoded in Hg as (r1 & -> & Hg); [|lia]. cbn [mbind res_bind]. cbn [Z.eqb Pos.eqb orb].
  change (3 =? RDB_LENERR) with false. change (3 =? RDB_ENC_LZF) with true. cbn iota.
  change ((3 =? RDB_ENC_INT8) || (3 =? RDB_ENC_INT16) || (3 =? RDB_ENC_INT32)) with false. cbn iota. unfold rdbLoadLzfStringObject.
  destruct (rdbLoadLen_spec r1 (zlen c) _ ltac:(lia) Hg) as (r2 & -> & Hg2). cbn [mbind res_bind]. rewrite lenerr by lia.
  destruct (rdbLoadLen_spec r2 (zlen s) _ ltac:(lia) Hg2) as (r3 & -> & Hg3). cbn [mbind res_bind]. rewrite lenerr by lia.
  rewrite (ztrymalloc_plenty lim), (target_plenty lim) by (done || lia). cbn [mbind res_bind negb].
  destruct (rioRead_app r3 c rest Hg3) as (r4 & -> & Hg4). cbn [mbind res_bind fst snd]. rewrite Hd. cbn [mbind res_bind fst snd].
  rewrite Z.eqb_refl. cbn [negb]. eauto.
Qed.


(** ** Saving strings *)

(** What a saver of a string writes can be loaded back, and is short. *)
Definition Stores (f : saver) (s : bytes) : Prop :=
  exists t, Saves f t /\ zlen t <= zlen s + 15 /\ wf_bytes t /\ forall lim, plenty lim -> zlen s + 28 <= lim -> Loads t s.

Lemma Stores_ext f g s : (forall rdb, f rdb = g rdb) -> Stores f s -> Stores g s.
Proof. intros E (t & Hf & Hrest). exists t. split; [by eapply Saves_ext|done]. Qed.

Lemma plain_stores s : wf_bytes s -> zlen s < 2 ^ 62 ->
  Stores (and_then (rdbSaveLen (zlen s)) (fun rdb => if 0 <? zlen s then rdbWriteRaw s rdb else Ok (rdb, 0))) s.
Proof.
  intros Hw Hl. pose proof (zlen_nonneg s). pose proof (len_text_short (zlen s) ltac:(lia)). exists (len_text (zlen s) ++ s).
  split; [|split; [rewrite zlen_app; lia|split; [apply Forall_app_2; [apply len_text_wf; lia|done]|]]].
  - destruct (Z.ltb_spec 0 (zlen s)) as [Hp|Hz].
    + apply and_then_saves; [apply rdbSaveLen_saves; lia|by apply rdbWriteRaw_saves].
    + assert (s = []) as -> by (apply zlen_nil_inv; lia). rewrite app_nil_r. apply and_then_nil_saves, rdbSaveLen_saves. cbn. lia.
  - intros lim Hp Hb. by apply (plain_loads lim).
Qed.

(** The compressed form, or nothing. *)
Lemma lzf_stores s :
  wf_bytes s -> zlen s < 2 ^ 62 -> LzfSpec.valid_htab htab ->
  (forall rdb, rdbSaveLzfStringObject htab s rdb = Ok (rdb, 0)) \/
  (exists t, Saves (rdbSaveLzfStringObject htab s) t /\ t <> [] /\ zlen t <= zlen s + 15 /\ wf_bytes t /\
     forall lim, plenty lim -> zlen s + 28 <= lim -> Loads t s).
Proof.
  intros Hw Hl Hv. unfold rdbSaveLzfStringObject. destruct (Z.leb_spec (zlen s) 4) as [Hs|Hs]; [by left|].
  destruct (LzfSpec.lzf_pair s (uninit (zlen s - 4)) htab Hw) as (n & out & Hc & Hn & Ho & _ & Hrt); [lia|done|].
  rewrite zlen_uninit in Hc, Hn, Ho by lia. rewrite Hc. cbn [mbind res_bind].
  destruct (Z.eqb_spec n 0) as [->|Hne]; [by left|]. right.
  assert (rdn out 0 n = Ok (take (Z.to_nat n) out)) as ->.
  { pose proof (rdn_app [] (take (Z.to_nat n) out) (drop (Z.to_nat n) out)) as Hr. cbn [app] in Hr. by rewrite take_drop, zlen_take in Hr by lia. }
  cbn [mbind res_bind]. set (c := take (Z.to_nat n) out) in *. assert (zlen c = n) as Hcl by (unfold c; by rewrite zlen_take by lia).
  destruct (Hrt Hne) as [Hwf Hrt']. clear Hrt. specialize (Hrt' (uninit (zlen s))). rename Hrt' into Hrt. rewrite zlen_uninit in Hrt by lia. specialize (Hrt ltac:(lia)).
  assert (drop (length s) (uninit (zlen s)) = []) as Hdr.
  { apply drop_ge. pose proof (zlen_uninit (zlen s) ltac:(lia)) as Hz. unfold zlen in Hz |- *. lia. }
  rewrite Hdr, app_nil_r in Hrt. exists (195 :: len_text n ++ len_text (zlen s) ++ c). rewrite <- Hcl in *.
  pose proof (len_text_short (zlen c) ltac:(lia)). pose proof (len_text_short (zlen s) ltac:(lia)).
  split; [|split; [done|split; [rewrite zlen_cons, !zlen_app; lia|split]]].
  - unfold rdbSaveLzfBlob. change (Z.lor (Z.shiftl RDB_ENCVAL 6) RDB_ENC_LZF) with 195.
    apply (and_then_saves _ _ [195]); [apply rdbWriteRaw_saves; by repeat constructor|].
    apply and_then_saves; [apply rdbSaveLen_saves; lia|]. apply and_then_saves; [apply rdbSaveLen_saves; lia|]. by apply rdbWriteRaw_saves.
  - constructor; [done|]. repeat apply Forall_app_2; [apply len_text_wf; lia|apply len_text_wf; lia|done].
  - intros lim Hp Hb. apply (lzf_loads lim); [done|done|lia|done].
Qed.

Lemma rdbSaveRawString_stores s :
  wf_bytes s -> zlen s < 2 ^ 62 -> LzfSpec.valid_htab htab -> Stores (rdbSaveRawString htab rdb_compression s) s.
Proof.
  intros Hw Hl Hv. unfold rdbSaveRawString.
  assert (exists buf enclen, (if zlen s <=? 11 then rdbTryIntegerEncoding s (zlen s) (uninit 5) else Ok ([], 0)) = Ok (buf, enclen) /\
    (enclen = 0 \/ exists v, s = Util.decimal v /\ is_i64 v /\ int_enc v <> [] /\ enclen = zlen (int_enc v) /\ rdn buf 0 enclen = Ok (int_enc v)))
    as (buf & enclen & Henc & Hcase).
  { destruct (zlen s <=? 11); [|eauto]. unfold rdbTryIntegerEncoding.
    destruct (Util.string2ll_spec s []) as (o & Ho & Hs). rewrite app_nil_r in Ho. rewrite Ho. cbn [mbind res_bind].
    destruct o as [v|]; [|eauto]. destruct (proj1 (Hs v) eq_refl) as [Hi Hd].
    destruct (rdbEncodeInteger_spec v (uninit 5)) as (enc & He & _ & Hr & _); [by rewrite zlen_uninit|].
    exists enc, (zlen (int_enc v)). split; [done|]. destruct (decide (int_enc v = [])) as [E|Hne]; [left; by rewrite E|right; exists v; done]. }
  destruct Hcase as [->|(v & -> & Hi & Hne & -> & Hr)].
  - assert (Stores (fun rdb => w ← (if rdb_compression && (20 <? zlen s) then rdbSaveLzfStringObject htab s rdb else Ok (rdb, 0));
       let '(rdb, n) := w in if n =? -1 then Ok (rdb, -1) else if 0 <? n then Ok (rdb, n) else
       and_then (rdbSaveLen (zlen s)) (fun rdb => if 0 <? zlen s then rdbWriteRaw s rdb else Ok (rdb, 0)) rdb) s) as Hgo.
    { destruct (rdb_compression && _); [|exact (plain_stores s Hw Hl)].
      destruct (lzf_stores s Hw Hl Hv) as [Hz|(t & Ht & Hne & Hrest)].
      - eapply Stores_ext; [|exact (plain_stores s Hw Hl)]. intros rdb. by rewrite Hz.
      - exists t. split; [|done]. apply (checked_saves _ t); done. }
    revert Hgo. apply Stores_ext. intros rdb. by rewrite Henc.
  - exists (int_enc v). pose proof (int_enc_len v Hne) as Hlen.
    pose proof (zlen_nonneg (Util.decimal v)). split; [|split; [lia|split; [apply int_enc_wf|intros; by apply int_loads]]].
    destruct (rdbWriteRaw_saves (int_enc v) (int_enc_wf v)) as [Hnull Hsv]. split.
    + rewrite Henc. cbn [mbind res_bind]. rewrite (proj2 (Z.ltb_lt _ _)) by lia. rewrite Hr. cbn [mbind res_bind]. rewrite Hnull. cbn [mbind res_bind].
      by rewrite (proj2 (Z.eqb_neq _ _)) by lia.
    + intros r l Hwr Hm. destruct (Hsv r l Hwr Hm) as (r' & k & Hq & Hc & Hfit & Hk). exists r', k. split; [|done].
      rewrite Henc. cbn [mbind res_bind]. rewrite (proj2 (Z.ltb_lt _ _)) by lia. rewrite Hr. cbn [mbind res_bind]. rewrite Hq. cbn [mbind res_bind].
      destruct Hk as [[-> _]|[-> _]]; [done|]. by rewrite (proj2 (Z.eqb_neq _ _)) by lia.
Qed.


Lemma rdbSaveLongLong_stores v : is_i64 v -> Stores (rdbSaveLongLongAsStringObject v) (Util.decimal v).
Proof.
  intros Hv. pose proof (Util.decimal_length v Hv) as Hd. unfold rdbSaveLongLongAsStringObject.
  destruct (rdbEncodeInteger_spec v (uninit 32)) as (enc & He & Hel & Hr & Hnil); [by rewrite zlen_uninit|]. rewrite zlen_uninit in Hel by lia.
  destruct (decide (int_enc v = [])) as [E|Hne].
  - specialize (Hnil E) as ->. rewrite E in He. change (zlen (@nil Z)) with 0 in He. set (t := Util.decimal v) in *.
    destruct (split_room (uninit 32) (zlen t + 1) (31 - zlen t)) as (a & suf & Hu & La & _); [lia..|].
    pose proof (Util.ll2string_spec [] a suf 32 v Hv) as Hs. cbn [app] in Hs. fold t in Hs. change (zlen []) with 0 in Hs. rewrite <- Hu in Hs.
    assert (forall rdb, and_then (rdbSaveLen (zlen t)) (fun rdb => if 0 <? zlen t then rdbWriteRaw t rdb else Ok (rdb, 0)) rdb =
      (r ← rdbEncodeInteger v (uninit 32); let '(buf, enclen) := r in
       if 0 <? enclen then b ← rdn buf 0 enclen; rdbWriteRaw b rdb else
       r0 ← Util.ll2string buf 0 32 v; let '(buf0, enclen0) := r0 in
       _ ← cassert (enclen0 <? 32); b ← rdn buf0 0 enclen0; and_then (rdbSaveLen enclen0) (rdbWriteRaw b) rdb)) as Heq.
    { intros rdb. rewrite He. cbn [mbind res_bind]. change (0 <? 0) with false. cbn iota. rewrite Hs by lia. cbn [mbind res_bind].
      rewrite (proj2 (Z.ltb_lt (zlen t) 32)) by lia. cbn [cassert mbind res_bind]. pose proof (rdn_app [] t (0 :: suf)) as Hrd. cbn [app] in Hrd.
      change (zlen []) with 0 in Hrd. rewrite Hrd. cbn [mbind res_bind]. unfold and_then. destruct (rdbSaveLen (zlen t) rdb) as [[rdb' n]|]; [|done].
      cbn [mbind res_bind]. rewrite (proj2 (Z.ltb_lt 0 _)) by lia. done. }
    eapply Stores_ext; [exact Heq|]. apply plain_stores; [|lia].
    by apply decimal_wf.
  - exists (int_enc v). pose proof (int_enc_len v Hne) as Hlen.
    split; [|split; [lia|split; [apply int_enc_wf|intros; by apply int_loads]]].
    eapply Saves_ext; [|apply rdbWriteRaw_saves, int_enc_wf]. intros rdb. rewrite He. cbn [mbind res_bind].
    rewrite (proj2 (Z.ltb_lt 0 _)) by lia. by rewrite Hr.
Qed.


(** ** Objects *)

Definition obj_text (o : robj) : bytes := match o with IntObj v => Util.decimal v | SdsObj b => b end.
Definition obj_ok (o : robj) : Prop := match o with IntObj v => is_i64 v | SdsObj b => wf_bytes b /\ zlen b < 2 ^ 62 end.

Lemma rdbSaveStringObject_stores o :
  LzfSpec.valid_htab htab -> obj_ok o -> Stores (rdbSaveStringObject htab rdb_compression o) (obj_text o).
Proof. intros Hv Ho. destruct o; [by apply rdbSaveLongLong_stores|]. destruct Ho. by apply rdbSaveRawString_stores. Qed.

(** A number of strings, one after the other. *)
Fixpoint save_all (os : list robj) : saver (D := D) :=
  match os with
  | [] => fun rdb => Ok (rdb, 0)
  | o :: os => and_then (rdbSaveStringObject htab rdb_compression o) (save_all os)
  end.

Fixpoint load_all (n : nat) (flags : load_flags) (r : rio D) : res (rio D * option (list bytes)) :=
  match n with
  | O => Ok (r, Some [])
  | S n =>
    w ← rdbGenericLoadStringObject can_malloc r flags;
    match snd w with
    | None => Ok (fst w, None)
    | Some o => w ← load_all n flags (fst w); Ok (fst w, option_map (cons (text o)) (snd w))
    end
  end.

Definition total (os : list robj) : Z := foldr (fun o n => zlen (obj_text o) + 15 + n) 0 os.

Lemma save_all_stores os :
  LzfSpec.valid_htab htab -> Forall obj_ok os ->
  exists t, Saves (save_all os) t /\ zlen t <= total os /\
    forall lim, plenty lim -> Forall (fun o => zlen (obj_text o) + 28 <= lim) os ->
    forall flags r rest, gives r (t ++ rest) ->
    exists r', load_all (length os) flags r = Ok (r', Some (obj_text <$> os)) /\ gives r' rest.
Proof.
  intros Hv. induction 1 as [|o os Ho _ (u & Hu & Hlu & Hload)]; cbn [save_all load_all length total foldr].
  - exists []. split; [|split; [done|eauto]]. split; [done|]. intros r l Hw _. exists r, 0. rewrite app_nil_r.
    split; [done|]. split; [done|]. split; [lia|by right].
  - destruct (rdbSaveStringObject_stores o Hv Ho) as (t & Ht & Hlt & _ & Hlo). exists (t ++ u).
    split; [by apply and_then_saves|]. split; [rewrite zlen_app; fold (total os); lia|].
    intros lim Hp [Hsz Hall]%Forall_cons_1 flags r rest Hg. rewrite <- app_assoc in Hg.
    destruct (Hlo lim Hp Hsz r _ flags Hg) as (r1 & x & -> & Hx & Hg1). cbn [mbind res_bind fst snd].
    destruct (Hload lim Hp Hall flags r1 rest Hg1) as (r2 & -> & Hg2). cbn [mbind res_bind fst snd option_map].
    rewrite Hx. eauto.
Qed.

(** C38. Saving a string object to any device either appends to it exactly the
    bytes of one encoding of the object, which every load with enough memory
    reads back as the text of the object, and returns their number, which is
    the one computed without a stream; or it returns -1 and leaves the error
    recorded in the stream.  It does not fail on a device that has room. *)
Theorem rdbSave_complete_or_error o r l :
  LzfSpec.valid_htab htab -> obj_ok o -> writes r l -> zlen l + zlen (obj_text o) + 15 <= max_size ->
  exists n r' k t, rdbSaveStringObject htab rdb_compression o None = Ok (None (A := rio D), n) /\
    rdbSaveStringObject htab rdb_compression o (Some r) = Ok (Some r', k) /\
    zlen t = n /\ (forall lim, plenty lim -> zlen (obj_text o) + 28 <= lim -> Loads t (obj_text o)) /\
    ((k = n /\ writes r' (l ++ t)) \/ (k = -1 /\ write_error r' = true)) /\
    (zlen l + zlen (obj_text o) + 15 <= capacity (io r) -> k = n).
Proof.
  intros Hv Ho Hw Hm. destruct (rdbSaveStringObject_stores o Hv Ho) as (t & [Hnull Ht] & Hlt & _ & Hload).
  destruct (Ht r l Hw) as (r' & k & Hk & _ & Hfit & Hres); [lia|]. exists (zlen t), r', k, t. split_and!; [done..| |].
  - destruct Hres as [?|[-> Hw']]; [by right|by left].
  - intros Hc. destruct Hres as [[-> _]|[-> _]]; [destruct Hfit; lia|done].
Qed.

(** ** Untrusted input *)

Definition huge (l : bytes) : Prop := exists p q, l = p ++ replicate 7 255 ++ q.

Lemma huge_app a b : huge b -> huge (a ++ b).
Proof. intros (p & q & ->). exists (a ++ p), q. by rewrite <- app_assoc. Qed.

Lemma huge_app_l a b : huge a -> huge (a ++ b).
Proof. intros (p & q & ->). exists p, (q ++ b). by rewrite <- !app_assoc. Qed.

Lemma be_val_huge b : wf_bytes b -> zlen b = 8 -> 2 ^ 64 - 28 <= be_val b -> huge b.
Proof.
  intros Hw Hl Hv. do 8 (destruct b as [|? b]; [unfold zlen in Hl; cbn [length] in Hl; lia|]).
  destruct b; [|unfold zlen in Hl; cbn [length] in Hl; lia].
  unfold wf_bytes in Hw. repeat (apply Forall_cons_1 in Hw as [? Hw]). unfold is_byte in *. unfold be_val in Hv. cbn in Hv.
  exists [], [z6]. cbn. repeat f_equal; lia.
Qed.

Lemma be_val_range b k : wf_bytes b -> zlen b = k -> 0 <= be_val b < 2 ^ (8 * k).
Proof.
  intros Hw <-. unfold be_val. assert (zlen b = zlen (reverse b)) as -> by (unfold zlen; by rewrite length_reverse).
  apply le_val_range. by apply Forall_reverse.
Qed.

Lemma gives_wf r l : gives r l -> wf_bytes l.
Proof. intros (_ & _ & Hp). by eapply pending_wf. Qed.

(** A read of [k] bytes from anything. *)
Lemma rioRead_cases r l k :
  gives r l -> 0 <= k ->
  (exists r', rioRead r k = Ok (r', None)) \/
  (exists r' b l', rioRead r k = Ok (r', Some b) /\ l = b ++ l' /\ zlen b = k /\ wf_bytes b /\ gives r' l').
Proof.
  intros Hg Hk. destruct (rioRead_spec r l k Hg Hk) as (r' & Hr & Hy & _). destruct (Z.leb_spec k (zlen l)) as [Hle|]; [right|by left; exists r'].
  exists r', (take (Z.to_nat k) l), (drop (Z.to_nat k) l). rewrite take_drop, zlen_take by lia.
  split_and!; [done|done|done|apply Forall_take; by eapply gives_wf|by apply Hy..].
Qed.

Lemma rdbLoadLen_any r l :
  gives r l ->
  exists r' e n, rdbLoadLen r = Ok (r', e, n) /\ 0 <= n < 2 ^ 64 /\
    (n = RDB_LENERR \/ exists l1 l2, l = l1 ++ l2 /\ gives r' l2 /\ (2 ^ 64 - 28 <= n -> huge l1)).
Proof.
  intros Hg. unfold rdbLoadLen, rdbLoadLenByRef.
  assert (forall (r' : rio D) l1 l2 (e : bool) (n : Z), l = l1 ++ l2 -> gives r' l2 -> 0 <= n < 2 ^ 63 ->
    exists r'' e' n', Ok (r', e, n) = Ok (r'', e', n') /\ 0 <= n' < 2 ^ 64 /\
      (n' = RDB_LENERR \/ exists l1 l2, l = l1 ++ l2 /\ gives r'' l2 /\ (2 ^ 64 - 28 <= n' -> huge l1))) as Hsmall.
  { intros r' l1 l2 e n Hl Hg' Hn. exists r', e, n. split; [done|]. split; [lia|]. right. exists l1, l2. split_and!; [done|apply Hg'..|lia]. }
  assert (forall r', exists r'' e' n', @Ok (rio D * bool * Z) (r', false, RDB_LENERR) = Ok (r'', e', n') /\ 0 <= n' < 2 ^ 64 /\
      (n' = RDB_LENERR \/ exists l1 l2, l = l1 ++ l2 /\ gives r'' l2 /\ (2 ^ 64 - 28 <= n' -> huge l1))) as Herr.
  { intros r'. exists r', false, RDB_LENERR. split; [done|]. split; [unfold RDB_LENERR, UINT64_MAX; lia|by left]. }
  destruct (rioRead_cases r l 1 Hg) as [(r1 & ->)|(r1 & b & l1 & -> & -> & Hb & Hwb & Hg1)]; [lia|apply Herr|]. cbn [mbind res_bind fst snd].
  destruct b as [|b0 [|? ?]]; [done| |unfold zlen in Hb; cbn [length] in Hb; lia]. apply Forall_cons_1 in Hwb as [Hb0 _].
  rewrite rd_single. cbn [mbind res_bind]. rewrite land_63. pose proof (Z.mod_pos_bound b0 64 ltac:(lia)).
  destruct (_ =? RDB_ENCVAL); [apply (Hsmall r1 [b0] l1); [done|done|lia]|].
  destruct (_ =? RDB_6BITLEN); [apply (Hsmall r1 [b0] l1); [done|done|lia]|].
  destruct (_ =? RDB_14BITLEN).
  - destruct (rioRead_cases r1 l1 1 Hg1) as [(r2 & ->)|(r2 & b & l2 & -> & -> & Hb1 & Hwb & Hg2)]; [lia|apply Herr|]. cbn [mbind res_bind fst snd].
    destruct b as [|b1 [|? ?]]; [done| |unfold zlen in Hb1; cbn [length] in Hb1; lia]. apply Forall_cons_1 in Hwb as [Hb1' _]. unfold is_byte in Hb1'.
    rewrite rd_single. cbn [mbind res_bind fst snd]. rewrite lor_shiftl_add by lia. apply (Hsmall r2 ([b0] ++ [b1]) l2); [by rewrite <- app_assoc|done|lia].
  - destruct (b0 =? RDB_32BITLEN); [|destruct (b0 =? RDB_64BITLEN); [|apply Herr]].
    + destruct (rioRead_cases r1 l1 4 Hg1) as [(r2 & ->)|(r2 & b & l2 & -> & -> & Hb1 & Hwb & Hg2)]; [lia|apply Herr|]. cbn [mbind res_bind fst snd option_map].
      pose proof (be_val_range b 4 Hwb Hb1). apply (Hsmall r2 ([b0] ++ b) l2); [by rewrite <- app_assoc|done|lia].
    + destruct (rioRead_cases r1 l1 8 Hg1) as [(r2 & ->)|(r2 & b & l2 & -> & -> & Hb1 & Hwb & Hg2)]; [lia|apply Herr|]. cbn [mbind res_bind fst snd option_map].
      pose proof (be_val_range b 8 Hwb Hb1). exists r2, false, (be_val b). split; [done|]. split; [lia|]. right. exists ([b0] ++ b), l2.
      split; [by rewrite <- app_assoc|]. split; [done|]. intros Hbig. apply huge_app. by apply be_val_huge.
Qed.

(** What a length near 2^64 leads to: the overflow assertions of
    [sdstrynewlen] and [mstrNew], and a write outside the allocation in
    [mstrNewWithMeta], which has none. *)
Definition target_fault (flags : load_flags) : fault :=
  match flags with RDB_LOAD_HFLD_TTL => OutOfBounds | _ => AssertFailed end.

Lemma hfieldTryNew_cases n ttl :
  0 <= n < 2 ^ 64 ->
  (exists ok, hfieldTryNew can_malloc n ttl = Ok ok) \/
  (hfieldTryNew can_malloc n ttl = Fault (if ttl then OutOfBounds else AssertFailed) /\ 2 ^ 64 - 28 <= n).
Proof.
  intros Hn. pose proof (mstr_hdr_range n) as Hh. unfold hfieldTryNew. destruct ttl; cbn [negb].
  - destruct (decide (2 ^ 64 - 28 <= n)) as [Hbig|]; [|left; rewrite mstrNewWithMeta_small by lia; eauto].
    unfold mstrNewWithMeta. cbv zeta. destruct (negb _); [left; eauto|]. repeat case_match; [right; eauto|right; eauto|left; eauto].
  - unfold mstrNew. cbv zeta. destruct (Z.ltb_spec n (u64 (n + mstrHdrSize (mstrReqType n) + 1))) as [|Hge]; cbn [cassert mbind res_bind]; [left; eauto|].
    right. split; [done|]. destruct (decide (2 ^ 64 - 28 <= n)); [done|]. rewrite wrapu_small in Hge by lia. lia.
Qed.

(** An allocation for a string of a length that came from outside. *)
Lemma target_cases flags n e :
  0 <= n < 2 ^ 64 ->
  (exists ok, target can_malloc flags n e = Ok ok) \/
  (target can_malloc flags n e = Fault (target_fault flags) /\ flags <> RDB_LOAD_PLAIN /\ 2 ^ 64 - 28 <= n).
Proof.
  intros Hn. assert ((exists ok, sdstrynewlen can_malloc n = Ok ok) \/ (sdstrynewlen can_malloc n = Fault AssertFailed /\ 2 ^ 64 - 28 <= n)) as Hs.
  { unfold sdstrynewlen. pose proof (string_hdr_range n) as Hh. cbv zeta in Hh |- *. destruct (Z.ltb_spec n (u64 (n + sdsHdrSize (if (sdsReqType n =? SDS_TYPE_5) && (n =? 0) then SDS_TYPE_8 else sdsReqType n) + 1))) as [|Hge].
    - cbn [cassert mbind res_bind]. left. eauto.
    - right. split; [done|]. destruct (decide (2 ^ 64 - 28 <= n)); [done|]. rewrite wrapu_small in Hge by lia. lia. }
  pose proof (hfieldTryNew_cases n false Hn) as Hf. pose proof (hfieldTryNew_cases n true Hn) as Ht.
  unfold target, target_fault. destruct flags; try (destruct (e && _); [by left; eauto|]);
    repeat match goal with H : _ \/ (_ /\ _) |- _ => destruct H as [?|[? ?]] end; first [by left; eauto | by right].
Qed.

(** No allocation of more than [lim] bytes succeeds. *)
Definition bounded (lim : Z) : Prop := forall n, can_malloc n = true -> n <= lim.

Definition loaded_ok (lim : Z) (x : loaded) : Prop := match x with Str b => wf_bytes b /\ zlen b <= lim | Int v => is_i64 v end.

Definition loads_ok (o : option loaded) : Prop :=
  forall lim, bounded lim -> OBJ_ENCODING_EMBSTR_SIZE_LIMIT <= lim -> forall x, o = Some x -> loaded_ok lim x.

Lemma loads_none : loads_ok None.
Proof. by intros lim _ _ x ?. Qed.

Lemma loads_str b : wf_bytes b -> (forall lim, bounded lim -> OBJ_ENCODING_EMBSTR_SIZE_LIMIT <= lim -> zlen b <= lim) -> loads_ok (Some (Str b)).
Proof. intros Hw Hl lim Hb He x [= <-]. split; [done|by apply Hl]. Qed.

Lemma ztrymalloc_bounded lim n : bounded lim -> ztrymalloc can_malloc n = true -> n <= lim.
Proof. intros Hb [_ Hm]%andb_true_iff. by apply Hb. Qed.

(** What fits into the memory that was allocated for a hash field. *)
Lemma hfieldTryNew_bounded lim n ttl : bounded lim -> 0 <= n < 2 ^ 64 -> hfieldTryNew can_malloc n ttl = Ok true -> n <= lim.
Proof.
  intros Hb Hn Ht. pose proof (mstr_hdr_range n) as Hh. unfold hfieldTryNew in Ht. destruct ttl; cbn [negb] in Ht.
  - unfold mstrNewWithMeta, sizeof_ExpireMeta, sizeof_mstrFlags in Ht. cbv zeta in Ht.
    destruct (ztrymalloc _ _) eqn:Hz; cbn [negb] in Ht; [|done]. apply (ztrymalloc_bounded lim) in Hz; [|done].
    destruct (_ <? _); [done|]. destruct (Z.leb_spec (u64 (16 + 2 + mstrHdrSize (mstrReqType n) + n + 1)) (16 + 2 + mstrHdrSize (mstrReqType n) + n)); [done|lia].
  - unfold mstrNew in Ht. simplify_res. apply (ztrymalloc_bounded lim) in Ht; [lia|done].
Qed.

Lemma target_bounded flags n e lim :
  bounded lim -> OBJ_ENCODING_EMBSTR_SIZE_LIMIT <= lim -> 0 <= n < 2 ^ 64 -> target can_malloc flags n e = Ok true -> n <= lim.
Proof.
  intros Hb He Hn Ht. pose proof (string_hdr_range n) as Hh.
  assert (sdstrynewlen can_malloc n = Ok true -> n <= lim) as Hs.
  { intros Hs. unfold sdstrynewlen in Hs. cbv zeta in Hs, Hh. simplify_res. apply (ztrymalloc_bounded lim) in Hs; [lia|done]. }
  unfold target in Ht. destruct flags; try (by apply Hs); try (by eapply hfieldTryNew_bounded);
    [..|simplify_res; by apply (ztrymalloc_bounded lim)]; (destruct (e && _) eqn:Hc; [apply andb_true_iff in Hc as [_ Hc%Z.leb_le]; lia|by apply Hs]).
Qed.

Lemma rdbLoadIntegerObject_total r l e flags : gives r l -> exists r' o, rdbLoadIntegerObject r e flags = Ok (r', o) /\ loads_ok o.
Proof.
  intros Hg. unfold rdbLoadIntegerObject.
  assert (forall k w, 0 <= k -> 0 < w <= 32 -> exists r' o,
    (x ← rioRead r k; match snd x with
     | None => Ok (fst x, None)
     | Some enc => match flags with RDB_LOAD_ENC => Ok (fst x, Some (Int (wraps w (le_val enc))))
                   | _ => t ← int_text (wraps w (le_val enc)); Ok (fst x, Some (Str t)) end
     end) = Ok (r', o) /\ loads_ok o) as Hread.
  { intros k w Hk Hw. destruct (rioRead_cases r l k Hg Hk) as [(r1 & ->)|(r1 & b & l1 & -> & _)]; cbn [mbind res_bind fst snd]; [eauto using loads_none|].
    pose proof (wraps_range w (le_val b) ltac:(lia)) as Hr. assert (2 ^ (w - 1) <= 2 ^ 31) by (apply Z.pow_le_mono_r; lia).
    assert (is_i64 (wraps w (le_val b))) as Hi by (unfold is_i64, INT64_MIN, INT64_MAX; lia).
    destruct (result_text r1 (wraps w (le_val b)) flags Hi) as (o & Ho & Ht). exists r1, (Some o). split; [exact Ho|].
    intros lim Hb He x [= ->]. destruct x as [t|v]; cbn [text] in Ht.
    - subst t. split; [by apply decimal_wf|]. pose proof (Util.decimal_length _ Hi). unfold OBJ_ENCODING_EMBSTR_SIZE_LIMIT in He. lia.
    - destruct flags; cbn in Ho; rewrite ?int_text_spec in Ho by done; cbn in Ho; by simplify_eq. }
  repeat case_match; solve [apply Hread; lia|eauto using loads_none].
Qed.

Lemma rdbLoadLzf_cases r l flags :
  gives r l ->
  (exists r' o, rdbLoadLzfStringObject can_malloc r flags = Ok (r', o) /\ loads_ok o) \/
  (rdbLoadLzfStringObject can_malloc r flags = Fault (target_fault flags) /\ flags <> RDB_LOAD_PLAIN /\ huge l).
Proof.
  intros Hg. unfold rdbLoadLzfStringObject. destruct (rdbLoadLen_any r l Hg) as (r1 & e & clen & -> & Hc & Hcase). cbn [mbind res_bind].
  destruct (Z.eqb_spec clen RDB_LENERR); [by left; eauto using loads_none|]. destruct Hcase as [?|(l1 & l2 & -> & Hg1 & _)]; [done|].
  destruct (rdbLoadLen_any r1 l2 Hg1) as (r2 & e2 & len & -> & Hl & Hcase). cbn [mbind res_bind].
  destruct (Z.eqb_spec len RDB_LENERR); [by left; eauto using loads_none|]. destruct Hcase as [?|(l3 & l4 & -> & Hg2 & Hhuge)]; [done|].
  destruct (ztrymalloc can_malloc clen); cbn [negb]; [|by left; eauto using loads_none].
  destruct (target_cases flags len false Hl) as [[ok Hok]|(-> & Hf & Hbig)]; [rewrite Hok|]; cbn [mbind res_bind];
    [|right; split; [done|]; split; [done|]; apply huge_app, huge_app_l; by apply Hhuge].
  left. destruct ok; cbn [negb]; [|eauto using loads_none].
  destruct (rioRead_cases r2 l4 clen Hg2) as [(r3 & ->)|(r3 & b & l5 & -> & _ & Hb & Hwb & _)]; [lia| |]; cbn [mbind res_bind fst snd]; [eauto using loads_none|].
  destruct (LzfSpec.lzf_decompress_total b (uninit len) Hwb) as (m & out & Hd & _ & Hlo). rewrite zlen_uninit in Hlo by lia. rewrite zlen_uninit, Hb in Hd by lia. rewrite Hd.
  cbn [mbind res_bind fst snd]. destruct (negb _); [eauto using loads_none|]. eexists _, _. split; [done|]. apply loads_str.
  - by eapply LzfSpec.lzf_decompress_wf, wf_uninit.
  - intros lim Hbd He. rewrite Hlo. by eapply target_bounded.
Qed.

(** Loading a string from untrusted bytes returns, but for a length near 2^64
    ([target_fault]); what it returns are bytes that fit into the memory. *)
Lemma rdbLoadString_cases r l flags :
  gives r l ->
  (exists r' o, rdbGenericLoadStringObject can_malloc r flags = Ok (r', o) /\ loads_ok o) \/
  (rdbGenericLoadStringObject can_malloc r flags = Fault (target_fault flags) /\ flags <> RDB_LOAD_PLAIN /\ huge l).
Proof.
  intros Hg. unfold rdbGenericLoadStringObject. destruct (rdbLoadLen_any r l Hg) as (r1 & e & n & -> & Hn & Hcase). cbn [mbind res_bind].
  destruct (Z.eqb_spec n RDB_LENERR) as [|Hne]; [by left; eauto using loads_none|]. destruct Hcase as [?|(l1 & l2 & -> & Hg1 & Hhuge)]; [done|].
  destruct e.
  - destruct (_ || _ || _); [left; by eapply rdbLoadIntegerObject_total|]. destruct (_ =? RDB_ENC_LZF); [|by left; eauto using loads_none].
    destruct (rdbLoadLzf_cases r1 l2 flags Hg1) as [?|(? & ? & ?)]; [by left|right; auto using huge_app].
  - destruct (target_cases flags n true Hn) as [[ok Hok]|(-> & Hf & Hbig)]; [rewrite Hok|]; cbn [mbind res_bind]; [|right; auto using huge_app_l].
    left. destruct ok; cbn [negb]; [|eauto using loads_none].
    destruct (n =? 0); cbn [negb mbind res_bind fst snd].
    { eexists _, _. split; [done|]. apply loads_str; [constructor|]. intros lim _ He. unfold OBJ_ENCODING_EMBSTR_SIZE_LIMIT in He. rewrite zlen_nil. lia. }
    destruct (rioRead_cases r1 l2 n Hg1) as [(r3 & ->)|(r3 & b & l5 & -> & _ & Hlb & Hwb & _)]; [lia| |]; cbn [mbind res_bind fst snd]; [eauto using loads_none|].
    eexists _, _. split; [done|]. apply loads_str; [done|]. intros lim Hbd He. rewrite Hlb. by eapply target_bounded.
Qed.

(** Loading a string from untrusted bytes, as RESTORE does, never reads or
    writes outside a buffer and always returns, for every device, allocator
    and flag, but for a length field among the last 28 values below 2^64 in
    the input: it stops at the overflow checks of [sdstrynewlen] and [mstrNew],
    and writes outside the allocation of [mstrNewWithMeta], which has none. *)
Theorem rdbLoadString_safe r l flags :
  gives r l ->
  (exists r' o, rdbGenericLoadStringObject can_malloc r flags = Ok (r', o)) \/
  (rdbGenericLoadStringObject can_malloc r flags = Fault (target_fault flags) /\ flags <> RDB_LOAD_PLAIN /\ huge l).
Proof. intros Hg. destruct (rdbLoadString_cases r l flags Hg) as [(r' & o & ? & _)|?]; eauto. Qed.

(** C39. The overflow assertion of [sdstrynewlen] is reached from outside: a
    string whose length field is 2^64 - 2 stops the server, where a length
    that cannot be allocated is otherwise an error of the caller.  The same
    holds of [mstrNew] for hash fields without a TTL; plain strings have no such
    check, and hash fields with a TTL are treated below. *)
Theorem rdbLoadString_asserts r rest flags :
  gives r (129 :: replicate 7 255 ++ 254 :: rest) -> flags <> RDB_LOAD_PLAIN -> flags <> RDB_LOAD_HFLD_TTL ->
  rdbGenericLoadStringObject can_malloc r flags = Fault AssertFailed.
Proof.
  intros Hg Hf Hf'. change (129 :: replicate 7 255 ++ 254 :: rest) with (len_text (2 ^ 64 - 2) ++ rest) in Hg. unfold rdbGenericLoadStringObject.
  destruct (rdbLoadLen_spec r (2 ^ 64 - 2) rest ltac:(lia) Hg) as (r1 & -> & _). cbn [mbind res_bind].
  destruct flags; done.
Qed.

(** C31. A hash field with a TTL whose length field is 2^64 - 2 makes
    [mstrNewWithMeta] allocate 26 bytes, because the sum of the sizes wraps
    around unchecked, and write its header past the end of them: the load of
    any stream that starts so faults, whatever follows, when [malloc] finds 26
    bytes. *)
Theorem rdbLoadString_ttl_overflow r rest :
  gives r (129 :: replicate 7 255 ++ 254 :: rest) -> can_malloc 26 = true ->
  rdbGenericLoadStringObject can_malloc r RDB_LOAD_HFLD_TTL = Fault OutOfBounds.
Proof.
  intros Hg Hm. change (129 :: replicate 7 255 ++ 254 :: rest) with (len_text (2 ^ 64 - 2) ++ rest) in Hg. unfold rdbGenericLoadStringObject.
  destruct (rdbLoadLen_spec r (2 ^ 64 - 2) rest ltac:(lia) Hg) as (r1 & -> & _). cbn [mbind res_bind].
  change (2 ^ 64 - 2 =? RDB_LENERR) with false. cbn iota. unfold target, hfieldTryNew, mstrNewWithMeta, ztrymalloc. cbn [negb].
  change (u64 _) with 26. rewrite Hm. reflexivity.
Qed.


End spec.

(** C30. What the RDB encoding stores in a buffer is loaded back: any objects,
    integers or strings of any bytes, with or without compression, whatever
    the uninitialised memory, saved one after the other with
    [rdbSaveStringObject] and loaded with [rdbGenericLoadStringObject] under
    any of its six flags (as objects, plain strings, sds or hash fields), where
    the allocator has 28 bytes more than each string needs, are the same strings in the same order, and nothing is left. *)
Theorem rdb_strings_roundtrip `{Allocator} can_malloc htab compression os flags lim :
  LzfSpec.valid_htab htab -> Forall obj_ok os -> total os <= max_size ->
  plenty can_malloc lim -> Forall (fun o => zlen (obj_text o) + 28 <= lim) os ->
  exists d w n r, sdsempty = Ok d /\ save_all htab compression os (Some (rioInitWithBuffer d)) = Ok (Some w, n) /\
    sdslen (ptr (io w)) = Ok n /\
    load_all can_malloc (length os) flags (rioInitWithBuffer (ptr (io w))) = Ok (r, Some (obj_text <$> os)) /\ gives r [].
Proof.
  intros Hv Hos Hm Hp Hsz. destruct sdsempty_spec as (d & Hd & Hr).
  destruct (save_all_stores (D := rio_buffer) can_malloc htab compression os Hv Hos) as (t & [_ Ht] & Hlt & Hload).
  destruct (Ht (rioInitWithBuffer d) [] (rioInitWithBuffer_writes d [] Hr)) as (w & k & Hk & _ & Hfit & Hres); [rewrite zlen_nil; lia|].
  destruct Hres as [[-> _]|[-> Hw]]; [destruct Hfit; [rewrite zlen_nil; cbn; lia|done]|]. cbn [app] in Hw. destruct Hw as (_ & _ & Hst).
  destruct (Hload lim Hp Hsz flags (rioInitWithBuffer (ptr (io w))) []) as (r & Hl & Hg).
  { rewrite app_nil_r. apply rioInitWithBuffer_gives; [exact Hst|unfold max_size in Hm; lia]. }
  exists d, w, (zlen t), r. split_and!; [done|done|by apply sdslen_spec|done|apply Hg..].
Qed.

(** ** A device that fills up *)

Record disk : Type := { data : bytes; room : Z }.

#[export] Instance disk_device : RioDevice disk := {|
  dev_write := fun d b => Ok (if zlen (data d) + zlen b <=? room d then ({| data := data d ++ b; room := room d |}, true) else (d, false));
  dev_read := fun d n => Ok (if n <=? zlen (data d) then ({| data := drop (Z.to_nat n) (data d); room := room d |}, Some (take (Z.to_nat n) (data d)))
                             else (d, None))
|}.

#[export] Instance disk_stream : Stream disk.
Proof.
  refine {| stored := fun d l => data d = l; pending := fun d l => data d = l /\ wf_bytes l; capacity := room |}.
  - intros d l b <- Hw _. cbn. destruct (Z.leb_spec (zlen (data d) + zlen b) (room d)); eexists _, _; (split; [reflexivity|]); split_and!; done || lia.
  - intros d l n [<- Hw] Hn. cbn. rewrite (proj2 (Z.leb_le _ _)) by lia. eexists. split; [reflexivity|]. split; [done|by apply Forall_drop].
  - intros d l n [<- Hw] Hn. cbn. rewrite (proj2 (Z.leb_gt _ _)) by lia. eauto.
  - intros d l [_ ?]. done.
Defined.

Definition on_disk (room : Z) : rio disk :=
  {| io := {| data := []; room := room |}; write_error := false; read_error := false; max_processing_chunk := 4;
     processed_bytes := 0; update_cksum := None; cksum := 0 |}.

Lemma rdbSave_complete_or_error_witness :
  exists n r' k t, rdbSaveStringObject (H := calloc8) (D := disk) (fun _ => - 2 ^ 32) true (SdsObj (replicate 40 97)) None = Ok (None, n) /\
    rdbSaveStringObject (H := calloc8) (fun _ => - 2 ^ 32) true (SdsObj (replicate 40 97)) (Some (on_disk 60)) = Ok (Some r', k) /\
    zlen t = n /\ Loads (H := calloc8) (D := disk) (fun _ => true) t (replicate 40 97) /\
    ((k = n /\ writes r' ([] ++ t)) \/ (k = -1 /\ write_error r' = true)) /\ k = n.
Proof.
  destruct (rdbSave_complete_or_error (H := calloc8) (D := disk) (fun _ => true) (fun _ => - 2 ^ 32) true (SdsObj (replicate 40 97)) (on_disk 60) [])
    as (n & r' & k & t & H1 & H2 & H3 & H4 & H5 & H6).
  - intros i. vm_compute. reflexivity.
  - split; [apply (bool_decide_unpack _); vm_compute; exact I|vm_compute; reflexivity].
  - split; [reflexivity|]. split; [vm_compute; discriminate|reflexivity].
  - vm_compute. discriminate.
  - exists n, r', k, t. split; [exact H1|]. split; [exact H2|]. split; [exact H3|]. split; [|split; [exact H5|apply H6; vm_compute; discriminate]].
    apply (H4 1000); [|vm_compute; discriminate]. split; [vm_compute; reflexivity|intros m _; reflexivity].
Defined.

#[local] Existing Instance calloc8.

Definition some_objects : list robj := [IntObj (-7); SdsObj (bytes_of_string "12345"); SdsObj (replicate 40 97); SdsObj []; SdsObj [0; 255]; IntObj (2 ^ 40)].

Lemma rdb_strings_roundtrip_witness :
  exists d w n r, @sdsempty calloc8 = Ok d /\ save_all (H := calloc8) (fun _ => - 2 ^ 32) true some_objects (Some (rioInitWithBuffer d)) = Ok (Some w, n) /\
    sdslen (ptr (io w)) = Ok n /\
    load_all (H := calloc8) (fun _ => true) 6 RDB_LOAD_ENC (rioInitWithBuffer (ptr (io w))) = Ok (r, Some (obj_text <$> some_objects)).
Proof.
  destruct (rdb_strings_roundtrip (H := calloc8) (fun _ => true) (fun _ => - 2 ^ 32) true some_objects RDB_LOAD_ENC 1000) as (d & w & n & r & H1 & H2 & H3 & H4 & _).
  - intros i. vm_compute. reflexivity.
  - repeat constructor; vm_compute; discriminate || reflexivity.
  - vm_compute. discriminate.
  - split; [vm_compute; reflexivity|]. intros n _. reflexivity.
  - repeat constructor; vm_compute; discriminate.
  - exists d, w, n, r. split; [exact H1|]. split; [exact H2|]. split; [exact H3|exact H4].
Defined.

Definition bad_lzf : bytes := [195; 5; 10; 1; 2; 3; 64; 200].

Definition bad_length : bytes := 129 :: replicate 7 255 ++ [254].

Lemma rdbLoadString_asserts_witness :
  rdbGenericLoadStringObject (H := calloc8) (fun _ => true)
    {| io := {| data := bad_length; room := 0 |}; write_error := false; read_error := false; max_processing_chunk := 0;
       processed_bytes := 0; update_cksum := None; cksum := 0 |} RDB_LOAD_ENC = Fault AssertFailed.
Proof.
  apply (rdbLoadString_asserts (H := calloc8) (D := disk) (fun _ => true) _ [] RDB_LOAD_ENC); [|discriminate|discriminate].
  split; [reflexivity|]. split; [vm_compute; discriminate|]. split; [reflexivity|]. apply (bool_decide_unpack _). vm_compute. exact I.
Defined.

Lemma rdbLoadString_ttl_overflow_witness :
  rdbGenericLoadStringObject (H := calloc8) (fun _ => true)
    {| io := {| data := bad_length; room := 0 |}; write_error := false; read_error := false; max_processing_chunk := 0;
       processed_bytes := 0; update_cksum := None; cksum := 0 |} RDB_LOAD_HFLD_TTL = Fault OutOfBounds.
Proof.
  apply (rdbLoadString_ttl_overflow (H := calloc8) (D := disk) (fun _ => true) _ []); [|reflexivity].
  split; [reflexivity|]. split; [vm_compute; discriminate|]. split; [reflexivity|]. apply (bool_decide_unpack _). vm_compute. exact I.
Defined.

Lemma rdbLoadString_safe_witness :
  exists r, gives r bad_lzf /\
    ((exists r' o, rdbGenericLoadStringObject (H := calloc8) (D := disk) (fun _ => true) r RDB_LOAD_NONE = Ok (r', o)) \/
     (rdbGenericLoadStringObject (H := calloc8) (fun _ => true) r RDB_LOAD_NONE = Fault AssertFailed /\ RDB_LOAD_NONE <> RDB_LOAD_PLAIN /\ huge bad_lzf)).
Proof.
  exists {| io := {| data := bad_lzf; room := 0 |}; write_error := false; read_error := false; max_processing_chunk := 4;
            processed_bytes := 0; update_cksum := None; cksum := 0 |}.
  assert (gives {| io := {| data := bad_lzf; room := 0 |}; write_error := false; read_error := false; max_processing_chunk := 4;
            processed_bytes := 0; update_cksum := None; cksum := 0 |} bad_lzf) as Hg.
  { split; [reflexivity|]. split; [vm_compute; discriminate|]. split; [reflexivity|]. apply (bool_decide_unpack _). vm_compute. exact I. }
  split; [exact Hg|]. apply (rdbLoadString_safe (H := calloc8) (fun _ => true) _ bad_lzf RDB_LOAD_NONE). exact Hg.
Defined.

End RdbSpec.
