(* ===== verification/Crc.v ===== *)
(** * Checksums (crc64.c, crcspeed.c, crc16.c, cluster.h).

    The 64-bit checksum of RDB files and DUMP payloads, computed eight bytes at
    a time with eight tables that [crc64_init] fills from a bit-by-bit
    function, on little-endian and on big-endian hosts; and the 16-bit checksum
    that maps keys to the slots of a cluster. *)

From S2P Require Import Prelude.
#[local] Open Scope Z_scope.

Module Crc.

(** ** Bit by bit (crc64.c) *)

Definition POLY : Z := 0xad93d23594c935a9.

Fixpoint reflect_loop (n : nat) (data ret : Z) : Z :=
  match n with
  | O => ret
  | S n =>
    let data := Z.shiftr data 1 in
    reflect_loop n data (Z.lor (u64 (Z.shiftl ret 1)) (Z.land data 0x01))
  end.

Definition crc_reflect (data data_len : Z) : Z :=
  reflect_loop (Z.to_nat (data_len - 1)) data (Z.land data 0x01).

(** The body of the loop over the bits [i] of the byte [c]. *)
Definition crc_bit (c crc i : Z) : Z :=
  let bit := negb (Z.land crc 0x8000000000000000 =? 0) in
  let bit := if negb (Z.land c i =? 0) then negb bit else bit in
  let crc := u64 (Z.shiftl crc 1) in
  if bit then Z.lxor crc POLY else crc.

Definition crc_byte (crc c : Z) : Z :=
  u64 (fold_left (crc_bit c) [0x01; 0x02; 0x04; 0x08; 0x10; 0x20; 0x40; 0x80] crc).

Definition _crc64 (crc : Z) (data : bytes) : Z :=
  Z.lxor (crc_reflect (u64 (fold_left crc_byte data crc)) 64) 0.

(** ** Tables (crcspeed.c) *)

(** [uint64_t table[8][256]] *)
Definition table : Type := list (list Z).

Definition tget (t : table) (k n : Z) : res Z :=
  if k <? 0 then Fault OutOfBounds else
  match t !! Z.to_nat k with Some row => rd row n | None => Fault OutOfBounds end.

Definition tset (t : table) (k n v : Z) : res table :=
  if k <? 0 then Fault OutOfBounds else
  match t !! Z.to_nat k with
  | Some row => if (0 <=? n) && (n <? zlen row) then Ok (<[Z.to_nat k := <[Z.to_nat n := v]> row]> t) else Fault OutOfBounds
  | None => Fault OutOfBounds
  end.

(** [for (x in l) a = f(a,x)] *)
Fixpoint for_each {A} (f : A -> Z -> res A) (l : list Z) (a : A) : res A :=
  match l with
  | [] => Ok a
  | x :: l => a ← f a x; for_each f l a
  end.

(** [crc = table[0][crc & 0xff] ^ (crc >> 8); table[k][n] = crc;] *)
Definition fill_next (n : Z) (s : table * Z) (k : Z) : res (table * Z) :=
  let '(t, crc) := s in
  x ← tget t 0 (Z.land crc 0xff);
  let crc := Z.lxor x (Z.shiftr crc 8) in
  t ← tset t k n crc; Ok (t, crc).

Definition fill_column (t : table) (n : Z) : res table :=
  crc ← tget t 0 n;
  s ← for_each (fill_next n) [1; 2; 3; 4; 5; 6; 7] (t, crc); Ok (fst s).

Definition crcspeed64little_init (crcfn : Z -> bytes -> Z) (t : table) : res table :=
  t ← for_each (fun t n => tset t 0 n (crcfn 0 [u8 n])) (seqZ 0 256) t;
  for_each fill_column (seqZ 0 256) t.

(** Reverse the bytes in a 64-bit word. *)
Definition rev8 (a : Z) : Z := le_val (reverse (le_bytes 8 a)).

Definition crcspeed64big_init (fn : Z -> bytes -> Z) (t : table) : res table :=
  t ← crcspeed64little_init fn t;
  for_each (fun t k => for_each (fun t n => x ← tget t k n; tset t k n (rev8 x)) (seqZ 0 256) t) (seqZ 0 8) t.

(** ** Eight bytes at a time *)

Section endian.
(** How one byte, and eight bytes, change the checksum. *)
Context (byte_step : Z -> Z -> res Z) (word_step : Z -> bytes -> res Z).

(** Bytes until an address that is a multiple of 8; what is left. *)
Fixpoint head_loop (crc next : Z) (buf : bytes) : res (Z * bytes) :=
  match buf with
  | [] => Ok (crc, [])
  | c :: rest =>
    if Z.land next 7 =? 0 then Ok (crc, buf) else
    crc ← byte_step crc c; head_loop crc (next + 1) rest
  end.

Fixpoint word_loop (crc : Z) (buf : bytes) : res (Z * bytes) :=
  match buf with
  | b0 :: b1 :: b2 :: b3 :: b4 :: b5 :: b6 :: b7 :: rest =>
    crc ← word_step crc [b0; b1; b2; b3; b4; b5; b6; b7]; word_loop crc rest
  | _ => Ok (crc, buf)
  end.

Fixpoint tail_loop (crc : Z) (buf : bytes) : res Z :=
  match buf with
  | [] => Ok crc
  | c :: rest => crc ← byte_step crc c; tail_loop crc rest
  end.

(** [next] is the address of the buffer. *)
Definition crc_loops (crc next : Z) (buf : bytes) : res Z :=
  r ← head_loop crc next buf;
  r ← word_loop (fst r) (snd r);
  tail_loop (fst r) (snd r).

End endian.

Definition little_byte (t : table) (crc c : Z) : res Z :=
  x ← tget t 0 (Z.land (Z.lxor crc c) 0xff); Ok (Z.lxor x (Z.shiftr crc 8)).

Definition little_word (t : table) (crc : Z) (w : bytes) : res Z :=
  let crc := Z.lxor crc (le_val w) in
  x7 ← tget t 7 (Z.land crc 0xff);
  x6 ← tget t 6 (Z.land (Z.shiftr crc 8) 0xff);
  x5 ← tget t 5 (Z.land (Z.shiftr crc 16) 0xff);
  x4 ← tget t 4 (Z.land (Z.shiftr crc 24) 0xff);
  x3 ← tget t 3 (Z.land (Z.shiftr crc 32) 0xff);
  x2 ← tget t 2 (Z.land (Z.shiftr crc 40) 0xff);
  x1 ← tget t 1 (Z.land (Z.shiftr crc 48) 0xff);
  x0 ← tget t 0 (Z.shiftr crc 56);
  Ok (Z.lxor (Z.lxor (Z.lxor (Z.lxor (Z.lxor (Z.lxor (Z.lxor x7 x6) x5) x4) x3) x2) x1) x0).

Definition crcspeed64little (t : table) (crc next : Z) (buf : bytes) : res Z :=
  crc_loops (little_byte t) (little_word t) crc next buf.

Definition big_byte (t : table) (crc c : Z) : res Z :=
  x ← tget t 0 (Z.lxor (Z.shiftr crc 56) c); Ok (Z.lxor x (u64 (Z.shiftl crc 8))).

(** The eight bytes are read as a big-endian word. *)
Definition big_word (t : table) (crc : Z) (w : bytes) : res Z :=
  let crc := Z.lxor crc (le_val (reverse w)) in
  x0 ← tget t 0 (Z.land crc 0xff);
  x1 ← tget t 1 (Z.land (Z.shiftr crc 8) 0xff);
  x2 ← tget t 2 (Z.land (Z.shiftr crc 16) 0xff);
  x3 ← tget t 3 (Z.land (Z.shiftr crc 24) 0xff);
  x4 ← tget t 4 (Z.land (Z.shiftr crc 32) 0xff);
  x5 ← tget t 5 (Z.land (Z.shiftr crc 40) 0xff);
  x6 ← tget t 6 (Z.land (Z.shiftr crc 48) 0xff);
  x7 ← tget t 7 (Z.shiftr crc 56);
  Ok (Z.lxor (Z.lxor (Z.lxor (Z.lxor (Z.lxor (Z.lxor (Z.lxor x0 x1) x2) x3) x4) x5) x6) x7).

Definition crcspeed64big (t : table) (crc next : Z) (buf : bytes) : res Z :=
  crc ← crc_loops (big_byte t) (big_word t) (rev8 crc) next buf; Ok (rev8 crc).

(** [*(char * )&n] for [n = 1] *)
Inductive endianness : Type := Little | Big.

Definition crcspeed64native (host : endianness) (t : table) (crc next : Z) (buf : bytes) : res Z :=
  match host with Little => crcspeed64little t crc next buf | Big => crcspeed64big t crc next buf end.

Definition crcspeed64native_init (host : endianness) (fn : Z -> bytes -> Z) (t : table) : res table :=
  match host with Little => crcspeed64little_init fn t | Big => crcspeed64big_init fn t end.

(** The static table before and after [crc64_init]. *)
Definition crc64_table : table := replicate 8 (replicate 256 0).

Definition crc64_init (host : endianness) (t : table) : res table := crcspeed64native_init host _crc64 t.

(** [s] is at the address [next]. *)
Definition crc64 (host : endianness) (t : table) (crc next : Z) (s : bytes) : res Z :=
  crcspeed64native host t crc next s.

(** ** 16 bits (crc16.c) *)

Definition crc16tab : list Z :=
  [0x0000; 0x1021; 0x2042; 0x3063; 0x4084; 0x50a5; 0x60c6; 0x70e7;
   0x8108; 0x9129; 0xa14a; 0xb16b; 0xc18c; 0xd1ad; 0xe1ce; 0xf1ef;
   0x1231; 0x0210; 0x3273; 0x2252; 0x52b5; 0x4294; 0x72f7; 0x62d6;
   0x9339; 0x8318; 0xb37b; 0xa35a; 0xd3bd; 0xc39c; 0xf3ff; 0xe3de;
   0x2462; 0x3443; 0x0420; 0x1401; 0x64e6; 0x74c7; 0x44a4; 0x5485;
   0xa56a; 0xb54b; 0x8528; 0x9509; 0xe5ee; 0xf5cf; 0xc5ac; 0xd58d;
   0x3653; 0x2672; 0x1611; 0x0630; 0x76d7; 0x66f6; 0x5695; 0x46b4;
   0xb75b; 0xa77a; 0x9719; 0x8738; 0xf7df; 0xe7fe; 0xd79d; 0xc7bc;
   0x48c4; 0x58e5; 0x6886; 0x78a7; 0x0840; 0x1861; 0x2802; 0x3823;
   0xc9cc; 0xd9ed; 0xe98e; 0xf9af; 0x8948; 0x9969; 0xa90a; 0xb92b;
   0x5af5; 0x4ad4; 0x7ab7; 0x6a96; 0x1a71; 0x0a50; 0x3a33; 0x2a12;
   0xdbfd; 0xcbdc; 0xfbbf; 0xeb9e; 0x9b79; 0x8b58; 0xbb3b; 0xab1a;
   0x6ca6; 0x7c87; 0x4ce4; 0x5cc5; 0x2c22; 0x3c03; 0x0c60; 0x1c41;
   0xedae; 0xfd8f; 0xcdec; 0xddcd; 0xad2a; 0xbd0b; 0x8d68; 0x9d49;
   0x7e97; 0x6eb6; 0x5ed5; 0x4ef4; 0x3e13; 0x2e32; 0x1e51; 0x0e70;
   0xff9f; 0xefbe; 0xdfdd; 0xcffc; 0xbf1b; 0xaf3a; 0x9f59; 0x8f78;
   0x9188; 0x81a9; 0xb1ca; 0xa1eb; 0xd10c; 0xc12d; 0xf14e; 0xe16f;
   0x1080; 0x00a1; 0x30c2; 0x20e3; 0x5004; 0x4025; 0x7046; 0x6067;
   0x83b9; 0x9398; 0xa3fb; 0xb3da; 0xc33d; 0xd31c; 0xe37f; 0xf35e;
   0x02b1; 0x1290; 0x22f3; 0x32d2; 0x4235; 0x5214; 0x6277; 0x7256;
   0xb5ea; 0xa5cb; 0x95a8; 0x8589; 0xf56e; 0xe54f; 0xd52c; 0xc50d;
   0x34e2; 0x24c3; 0x14a0; 0x0481; 0x7466; 0x6447; 0x5424; 0x4405;
   0xa7db; 0xb7fa; 0x8799; 0x97b8; 0xe75f; 0xf77e; 0xc71d; 0xd73c;
   0x26d3; 0x36f2; 0x0691; 0x16b0; 0x6657; 0x7676; 0x4615; 0x5634;
   0xd94c; 0xc96d; 0xf90e; 0xe92f; 0x99c8; 0x89e9; 0xb98a; 0xa9ab;
   0x5844; 0x4865; 0x7806; 0x6827; 0x18c0; 0x08e1; 0x3882; 0x28a3;
   0xcb7d; 0xdb5c; 0xeb3f; 0xfb1e; 0x8bf9; 0x9bd8; 0xabbb; 0xbb9a;
   0x4a75; 0x5a54; 0x6a37; 0x7a16; 0x0af1; 0x1ad0; 0x2ab3; 0x3a92;
   0xfd2e; 0xed0f; 0xdd6c; 0xcd4d; 0xbdaa; 0xad8b; 0x9de8; 0x8dc9;
   0x7c26; 0x6c07; 0x5c64; 0x4c45; 0x3ca2; 0x2c83; 0x1ce0; 0x0cc1;
   0xef1f; 0xff3e; 0xcf5d; 0xdf7c; 0xaf9b; 0xbfba; 0x8fd9; 0x9ff8;
   0x6e17; 0x7e36; 0x4e55; 0x5e74; 0x2e93; 0x3eb2; 0x0ed1; 0x1ef0].

(** Only the low byte of the sign-extended [*buf] is used. *)
Definition crc16_step (crc c : Z) : res Z :=
  x ← rd crc16tab (Z.land (Z.lxor (Z.shiftr crc 8) c) 0x00FF); Ok (wrapu 16 (Z.lxor (Z.shiftl crc 8) x)).

Definition crc16 (buf : bytes) : res Z := for_each crc16_step buf 0.

(** ** Slots (cluster.h) *)

(** The first [i] from [s] on with [key[i] == c], or [keylen]. *)
Fixpoint find_char (fuel : nat) (key : bytes) (s keylen c : Z) : res Z :=
  match fuel with
  | O => Fault OutOfFuel
  | S fuel =>
    if s <? keylen then
      x ← rd key s;
      if x =? c then Ok s else find_char fuel key (s + 1) keylen c
    else Ok s
  end.

Definition keyHashSlot (key : bytes) (keylen : Z) : res Z :=
  let whole := k ← rdn key 0 keylen; h ← crc16 k; Ok (Z.land h 0x3FFF) in
  s ← find_char (S (Z.to_nat keylen)) key 0 keylen 123;
  if s =? keylen then whole else
  e ← find_char (S (Z.to_nat keylen)) key (s + 1) keylen 125;
  if (e =? keylen) || (e =? s + 1) then whole else
  tag ← rdn key (s + 1) (e - s - 1);
  h ← crc16 tag; Ok (Z.land h 0x3FFF).

Example crc16_check : crc16 (bytes_of_string "123456789") = Ok 0x31C3.
Proof. reflexivity. Qed.

End Crc.
