(* ===== verification/CrcTheory.v ===== *)
(** * The checksums as polynomial remainders.

    [lstep] divides by the polynomial, one bit at a time, with the bits in the
    order in which the code keeps them.  It is linear over exclusive or, which
    makes the bit-by-bit function, the table-driven one and its big-endian
    variant all equal to [crc_of], the remainder of the whole message seen as
    one number. *)

From S2P Require Import Prelude Crc.
#[local] Open Scope Z_scope.

Module CrcTheory.
Import Crc.

(** ** Bits *)

Lemma testbit_beyond x n k : 0 <= x < 2 ^ n -> n <= k -> Z.testbit x k = false.
Proof.
  intros Hx Hk. destruct (Z.eq_dec x 0) as [->|]; [apply Z.bits_0|]. apply Z.bits_above_log2; [lia|].
  apply Z.log2_lt_pow2; [lia|]. eapply Z.lt_le_trans; [apply Hx|]. destruct (Z.le_gt_cases 0 n); [apply Z.pow_le_mono_r; lia|].
  rewrite (Z.pow_neg_r 2 n) in * by lia. lia.
Qed.

Lemma bits_small x n : 0 <= n -> 0 <= x -> (forall k, n <= k -> Z.testbit x k = false) -> x < 2 ^ n.
Proof.
  intros Hn Hx Hk. destruct (Z.eq_dec x 0) as [->|]; [lia|]. apply Z.log2_lt_pow2; [lia|].
  destruct (Z.lt_ge_cases (Z.log2 x) n) as [|Hl]; [done|]. specialize (Hk _ Hl). rewrite Z.bit_log2 in Hk by lia. done.
Qed.

Lemma lxor_range a b n : 0 <= n -> 0 <= a < 2 ^ n -> 0 <= b < 2 ^ n -> 0 <= Z.lxor a b < 2 ^ n.
Proof.
  intros Hn Ha Hb. assert (0 <= Z.lxor a b) by (apply Z.lxor_nonneg; lia). split; [done|]. apply bits_small; [done..|].
  intros k Hk. by rewrite Z.lxor_spec, (testbit_beyond a n), (testbit_beyond b n).
Qed.

Lemma testbit_u64 x k : Z.testbit (u64 x) k = (k <? 64) && Z.testbit x k.
Proof.
  unfold wrapu. destruct (Z.ltb_spec k 64); cbn [andb].
  - destruct (Z.le_gt_cases 0 k); [rewrite Z.mod_pow2_bits_low by lia; done|rewrite !Z.testbit_neg_r by lia; done].
  - by rewrite Z.mod_pow2_bits_high by lia.
Qed.

Lemma testbit_land255 x k : Z.testbit (Z.land x 255) k = (k <? 8) && Z.testbit x k.
Proof.
  rewrite Z.land_spec. change 255 with (Z.ones 8). destruct (Z.le_gt_cases 0 k); [|by rewrite !Z.testbit_neg_r, !andb_false_r by lia].
  destruct (Z.ltb_spec k 8); [rewrite Z.ones_spec_low by lia|rewrite Z.ones_spec_high by lia]; cbn [andb]; by rewrite ?andb_true_r, ?andb_false_r.
Qed.

(** Splitting off the low byte. *)
Lemma split_byte c : c = Z.lxor (Z.land c 255) (Z.shiftl (Z.shiftr c 8) 8).
Proof.
  apply Z.bits_inj'. intros k Hk. rewrite Z.lxor_spec, testbit_land255, Z.shiftl_spec by lia.
  destruct (Z.ltb_spec k 8); cbn [andb].
  - rewrite (Z.testbit_neg_r _ (k - 8)), xorb_false_r by lia. done.
  - rewrite Z.shiftr_spec, xorb_false_l by lia. f_equal. lia.
Qed.

Lemma split_bit c : c = Z.lxor (Z.b2z (Z.testbit c 0)) (Z.shiftl (Z.shiftr c 1) 1).
Proof.
  apply Z.bits_inj'. intros k Hk. rewrite Z.lxor_spec, Z.shiftl_spec by lia. destruct (Z.eq_dec k 0) as [->|].
  - rewrite (Z.testbit_neg_r _ (0 - 1)), xorb_false_r by lia. by destruct (Z.testbit c 0).
  - rewrite Z.shiftr_spec by lia. replace (Z.testbit (Z.b2z _) k) with false; [rewrite xorb_false_l; f_equal; lia|].
    symmetry. apply (testbit_beyond _ 1); [destruct (Z.testbit c 0); cbn; lia|lia].
Qed.

Lemma land255_byte x : is_byte (Z.land x 255).
Proof. change 255 with (Z.ones 8). rewrite Z.land_ones by lia. unfold is_byte. apply Z.mod_pos_bound. lia. Qed.

Lemma land255_small x : is_byte x -> Z.land x 255 = x.
Proof. intros Hx. change 255 with (Z.ones 8). rewrite Z.land_ones by lia. apply Z.mod_small. apply Hx. Qed.

Lemma lxor_byte a b : is_byte a -> is_byte b -> is_byte (Z.lxor a b).
Proof. intros Ha Hb. apply (lxor_range a b 8); done. Qed.

Lemma shiftr_byte_0 b : is_byte b -> Z.shiftr b 8 = 0.
Proof. intros Hb. rewrite Z.shiftr_div_pow2 by lia. apply Z.div_small. apply Hb. Qed.

Lemma shiftr_range x n m : 0 <= n -> 0 <= m -> 0 <= x < 2 ^ (n + m) -> 0 <= Z.shiftr x n < 2 ^ m.
Proof.
  intros Hn Hm Hx. rewrite Z.shiftr_div_pow2 by lia. rewrite Z.pow_add_r in Hx by lia.
  split; [apply Z.div_pos; lia|]. apply Z.div_lt_upper_bound; lia.
Qed.

Lemma add_lxor_byte b x : is_byte b -> b + 256 * x = Z.lxor b (Z.shiftl x 8).
Proof.
  intros Hb. rewrite <- Z.add_nocarry_lxor.
  - rewrite Z.shiftl_mul_pow2 by lia. lia.
  - apply Z.bits_inj'. intros k Hk. rewrite Z.land_spec, Z.bits_0, Z.shiftl_spec by lia. destruct (Z.lt_ge_cases k 8).
    + by rewrite (Z.testbit_neg_r _ (k - 8)), andb_false_r by lia.
    + by rewrite (testbit_beyond b 8).
Qed.

(** ** Division, bit by bit *)

Definition RPOLY : Z := 0x95ac9329ac4bc9b5.

Definition lstep (x : Z) : Z := Z.lxor (Z.shiftr x 1) (if Z.testbit x 0 then RPOLY else 0).
Definition lsteps (n : nat) : Z -> Z := Nat.iter n lstep.

Lemma lstep_lxor a b : lstep (Z.lxor a b) = Z.lxor (lstep a) (lstep b).
Proof.
  unfold lstep. rewrite Z.shiftr_lxor, Z.lxor_spec.
  destruct (Z.testbit a 0), (Z.testbit b 0); cbn [xorb]; rewrite ?Z.lxor_0_r, ?Z.lxor_assoc; try done; f_equal.
  - rewrite <- (Z.lxor_assoc RPOLY), (Z.lxor_comm RPOLY), Z.lxor_assoc, Z.lxor_nilpotent, Z.lxor_0_r. done.
  - apply Z.lxor_comm.
Qed.

Lemma lsteps_O x : lsteps 0 x = x.
Proof. done. Qed.

Lemma lsteps_S n x : lsteps (S n) x = lstep (lsteps n x).
Proof. done. Qed.

Lemma lsteps_lxor n a b : lsteps n (Z.lxor a b) = Z.lxor (lsteps n a) (lsteps n b).
Proof. induction n as [|n IH]; [done|]. by rewrite !lsteps_S, IH, lstep_lxor. Qed.

Lemma lsteps_add n m x : lsteps (n + m) x = lsteps n (lsteps m x).
Proof. apply Nat.iter_add. Qed.

Lemma lstep_shiftl x : lstep (Z.shiftl x 1) = x.
Proof.
  unfold lstep. rewrite Z.shiftl_spec_low by lia. rewrite Z.lxor_0_r, Z.shiftr_shiftl_l by lia. by rewrite Z.shiftl_0_r.
Qed.

Lemma lsteps_shiftl n x : lsteps n (Z.shiftl x (Z.of_nat n)) = x.
Proof.
  induction n as [|n IH]; [apply Z.shiftl_0_r|]. replace (S n) with (n + 1)%nat by lia. rewrite lsteps_add.
  replace (Z.of_nat (n + 1)) with (Z.of_nat n + 1) by lia. rewrite <- Z.shiftl_shiftl by lia.
  change (lsteps 1 ?x) with (lstep x). by rewrite lstep_shiftl.
Qed.

Lemma lsteps_0 n : lsteps n 0 = 0.
Proof. induction n as [|n IH]; [done|]. by rewrite lsteps_S, IH. Qed.

(** The low byte and the rest. *)
Lemma lsteps_byte m c : lsteps (m + 8) c = Z.lxor (lsteps (m + 8) (Z.land c 255)) (lsteps m (Z.shiftr c 8)).
Proof.
  rewrite (split_byte c) at 1. rewrite lsteps_lxor, (lsteps_add m 8 (Z.shiftl _ _)). f_equal. f_equal. apply (lsteps_shiftl 8).
Qed.

Lemma lstep_range x : 0 <= x < 2 ^ 64 -> 0 <= lstep x < 2 ^ 64.
Proof.
  intros Hx. apply lxor_range; [lia| |by destruct (Z.testbit x 0); unfold RPOLY; lia].
  assert (0 <= Z.shiftr x 1 < 2 ^ 63) by (apply shiftr_range; [lia..|]; change (1 + 63) with 64; lia). lia.
Qed.

Lemma lsteps_range n x : 0 <= x < 2 ^ 64 -> 0 <= lsteps n x < 2 ^ 64.
Proof. intros Hx. induction n as [|n IH]; [done|]. rewrite lsteps_S. by apply lstep_range. Qed.

(** No remainder is lost: the polynomial has a constant term. *)
Lemma lstep_nonzero x : 0 < x < 2 ^ 64 -> lstep x <> 0.
Proof.
  intros Hx H0. unfold lstep in H0. apply Z.lxor_eq in H0. assert (0 <= Z.shiftr x 1 < 2 ^ 63) as Hr by (apply shiftr_range; [lia..|]; change (1 + 63) with 64; lia).
  destruct (Z.testbit x 0) eqn:Hb.
  - unfold RPOLY in H0. lia.
  - pose proof (split_bit x) as Hs. rewrite Hb, H0 in Hs. change (x = 0) in Hs. lia.
Qed.

Lemma lsteps_nonzero n x : 0 < x < 2 ^ 64 -> 0 < lsteps n x < 2 ^ 64.
Proof.
  intros Hx. induction n as [|n IH]; [done|]. pose proof (lstep_nonzero _ IH). pose proof (lstep_range (lsteps n x)).
  rewrite lsteps_S. lia.
Qed.

(** The remainder of a message, given as one number. *)
Definition crc_of (crc : Z) (s : bytes) : Z := lsteps (8 * length s) (Z.lxor crc (le_val s)).

Definition byte_of (crc c : Z) : Z := lsteps 8 (Z.lxor crc c).

Lemma crc_of_cons crc c s : is_byte c -> crc_of crc (c :: s) = crc_of (byte_of crc c) s.
Proof.
  intros Hc. unfold crc_of, byte_of. cbn [length le_val]. replace (8 * S (length s))%nat with (8 * length s + 8)%nat by lia.
  rewrite lsteps_add, add_lxor_byte by done. f_equal. rewrite <- Z.lxor_assoc, lsteps_lxor. f_equal. apply (lsteps_shiftl 8).
Qed.

Lemma crc_of_nil crc : crc_of crc [] = crc.
Proof. apply Z.lxor_0_r. Qed.

Lemma crc_of_app s1 : forall crc s2, wf_bytes s1 -> crc_of crc (s1 ++ s2) = crc_of (crc_of crc s1) s2.
Proof.
  induction s1 as [|c s1 IH]; intros crc s2 Hw; [by rewrite crc_of_nil|]. apply Forall_cons_1 in Hw as [Hc Hw]. cbn [app].
  rewrite !crc_of_cons by done. by apply IH.
Qed.

Lemma byte_of_range crc c : 0 <= crc < 2 ^ 64 -> is_byte c -> 0 <= byte_of crc c < 2 ^ 64.
Proof. intros Hr Hc. apply lsteps_range, lxor_range; [lia|done|]. unfold is_byte in Hc. lia. Qed.

Lemma crc_of_range s : forall crc, 0 <= crc < 2 ^ 64 -> wf_bytes s -> 0 <= crc_of crc s < 2 ^ 64.
Proof.
  induction s as [|c s IH]; intros crc Hr Hw; [by rewrite crc_of_nil|]. apply Forall_cons_1 in Hw as [Hc Hw].
  rewrite crc_of_cons by done. apply IH; [|done]. by apply byte_of_range.
Qed.

(** ** The bit-by-bit function *)

Lemma land_1 d : Z.land d 1 = Z.b2z (Z.testbit d 0).
Proof. change 1 with (Z.ones 1). rewrite Z.land_ones by lia. symmetry. apply Z.bit0_mod. Qed.

(** One more bit at the low end. *)
Lemma push_bit ret d : Z.lor (Z.shiftl ret 1) (Z.land d 1) = 2 * ret + Z.b2z (Z.testbit d 0).
Proof. rewrite land_1, lor_shiftl_add; [lia|lia|]. destruct (Z.testbit d 0); cbn; lia. Qed.

Lemma testbit_reflect_loop n : forall data ret k,
  0 <= k -> 0 <= ret < 2 ^ (64 - Z.of_nat n) -> Z.of_nat n <= 64 ->
  Z.testbit (reflect_loop n data ret) k =
    if k <? Z.of_nat n then Z.testbit data (Z.of_nat n - k) else Z.testbit ret (k - Z.of_nat n).
Proof.
  induction n as [|n IH]; intros data ret k Hk Hr Hn.
  { cbn [reflect_loop]. rewrite (proj2 (Z.ltb_ge k (Z.of_nat 0))) by lia. f_equal. lia. }
  replace (64 - Z.of_nat (S n)) with (63 - Z.of_nat n) in Hr by lia.
  assert (2 ^ (64 - Z.of_nat n) = 2 * 2 ^ (63 - Z.of_nat n)) as Hp by (rewrite <- Z.pow_succ_r by lia; f_equal; lia).
  assert (2 ^ (64 - Z.of_nat n) <= 2 ^ 64) by (apply Z.pow_le_mono_r; lia).
  cbn [reflect_loop]. rewrite (wrapu_small 64 (Z.shiftl ret 1)) by (rewrite Z.shiftl_mul_pow2 by lia; lia).
  rewrite push_bit, Z.shiftr_spec by lia. set (b := Z.testbit data (0 + 1)).
  rewrite IH; [|done|destruct b; cbn [Z.b2z]; lia|lia].
  destruct (Z.ltb_spec k (Z.of_nat n)), (Z.ltb_spec k (Z.of_nat (S n))); try lia.
  - rewrite Z.shiftr_spec by lia. f_equal. lia.
  - replace (k - Z.of_nat n) with 0 by lia. rewrite Z.testbit_0_r. unfold b. f_equal. lia.
  - replace (k - Z.of_nat n) with (Z.succ (k - Z.of_nat (S n))) by lia. rewrite Z.testbit_succ_r by lia. done.
Qed.

Lemma testbit_reflect x k : 0 <= k < 64 -> Z.testbit (crc_reflect x 64) k = Z.testbit x (63 - k).
Proof.
  intros Hk. unfold crc_reflect. change (Z.to_nat (64 - 1)) with 63%nat. rewrite land_1.
  rewrite testbit_reflect_loop; [|lia|destruct (Z.testbit x 0); cbn; lia|lia].
  destruct (Z.ltb_spec k (Z.of_nat 63)); [f_equal; lia|]. replace k with 63 by lia. change (63 - Z.of_nat 63) with 0. change (63 - 63) with 0.
  by destruct (Z.testbit x 0).
Qed.

Lemma reflect_nonneg n : forall data ret, 0 <= data -> 0 <= ret -> 0 <= reflect_loop n data ret.
Proof.
  induction n as [|n IH]; intros data ret Hd Hr; [done|]. apply IH; [by apply Z.shiftr_nonneg|].
  apply Z.lor_nonneg. split; [apply wrapu_range; lia|]. apply Z.land_nonneg. lia.
Qed.

Lemma reflect_range x : 0 <= x -> 0 <= crc_reflect x 64 < 2 ^ 64.
Proof.
  intros Hx. assert (0 <= crc_reflect x 64) by (apply reflect_nonneg; [done|]; apply Z.land_nonneg; lia).
  split; [done|]. apply bits_small; [lia|done|]. intros k Hk. unfold crc_reflect. change (Z.to_nat (64 - 1)) with 63%nat. rewrite land_1.
  rewrite testbit_reflect_loop; [|lia|destruct (Z.testbit x 0); cbn; lia|lia]. rewrite (proj2 (Z.ltb_ge k (Z.of_nat 63))) by lia.
  apply (testbit_beyond _ 1); [destruct (Z.testbit x 0); cbn; lia|lia].
Qed.

(** Two 64-bit words with the same bits. *)
Lemma word_ext x y : 0 <= x < 2 ^ 64 -> 0 <= y < 2 ^ 64 -> (forall k, 0 <= k < 64 -> Z.testbit x k = Z.testbit y k) -> x = y.
Proof.
  intros Hx Hy He. apply Z.bits_inj'. intros k Hk. destruct (Z.lt_ge_cases k 64); [by apply He|].
  by rewrite (testbit_beyond x 64), (testbit_beyond y 64).
Qed.

#[local] Opaque crc_reflect.

Lemma reflect_lxor x y : 0 <= x < 2 ^ 64 -> 0 <= y < 2 ^ 64 -> crc_reflect (Z.lxor x y) 64 = Z.lxor (crc_reflect x 64) (crc_reflect y 64).
Proof.
  intros Hx Hy. pose proof (lxor_range x y 64). apply word_ext; [apply reflect_range; lia|apply lxor_range; [lia|apply reflect_range; lia..]|].
  intros k Hk. by rewrite Z.lxor_spec, !testbit_reflect, Z.lxor_spec.
Qed.

Lemma reflect_shiftl x : 0 <= x < 2 ^ 64 -> crc_reflect (u64 (Z.shiftl x 1)) 64 = Z.shiftr (crc_reflect x 64) 1.
Proof.
  intros Hx. pose proof (reflect_range x) as Hr. pose proof (wrapu_range 64 (Z.shiftl x 1)).
  apply word_ext; [apply reflect_range; lia| |].
  - assert (0 <= Z.shiftr (crc_reflect x 64) 1 < 2 ^ 63) by (apply shiftr_range; [lia..|]; change (1 + 63) with 64; lia). lia.
  - intros k Hk. rewrite testbit_reflect, testbit_u64, Z.shiftl_spec, Z.shiftr_spec by lia. rewrite (proj2 (Z.ltb_lt _ 64)) by lia. cbn [andb].
    destruct (Z.eq_dec k 63) as [->|].
    + rewrite (Z.testbit_neg_r x) by lia. by rewrite (testbit_beyond (crc_reflect x 64) 64) by lia.
    + rewrite testbit_reflect by lia. f_equal. lia.
Qed.

Lemma reflect_invol x : 0 <= x < 2 ^ 64 -> crc_reflect (crc_reflect x 64) 64 = x.
Proof.
  intros Hx. pose proof (reflect_range x). apply word_ext; [apply reflect_range; lia|done|]. intros k Hk.
  rewrite !testbit_reflect by lia. f_equal. lia.
Qed.

Lemma land_pow2 x k : 0 <= k -> negb (Z.land x (2 ^ k) =? 0) = Z.testbit x k.
Proof.
  intros Hk. destruct (Z.eqb_spec (Z.land x (2 ^ k)) 0) as [He|Hne]; cbn [negb].
  - apply (f_equal (fun y => Z.testbit y k)) in He. rewrite Z.land_spec, Z.pow2_bits_true, andb_true_r, Z.bits_0 in He by done. done.
  - destruct (Z.testbit x k) eqn:Hb; [done|]. destruct Hne. apply Z.bits_inj'. intros j Hj. rewrite Z.land_spec, Z.bits_0, Z.pow2_bits_eqb by done.
    destruct (Z.eqb_spec k j) as [->|]; [by rewrite Hb|apply andb_false_r].
Qed.

Lemma crc_bit_range c crc i : 0 <= crc_bit c crc i < 2 ^ 64.
Proof.
  unfold crc_bit. pose proof (wrapu_range 64 (Z.shiftl crc 1)). destruct (if negb (Z.land c i =? 0) then _ else _); [apply lxor_range; [lia|lia|unfold POLY; lia]|lia].
Qed.

Lemma crc_bit_step c crc j :
  0 <= j -> 0 <= crc < 2 ^ 64 ->
  crc_reflect (crc_bit c crc (2 ^ j)) 64 = lstep (Z.lxor (crc_reflect crc 64) (Z.b2z (Z.testbit c j))).
Proof.
  intros Hj Hc. unfold crc_bit, lstep. change 0x8000000000000000 with (2 ^ 63). rewrite !land_pow2 by lia.
  assert (Z.testbit (Z.lxor (crc_reflect crc 64) (Z.b2z (Z.testbit c j))) 0 = xorb (Z.testbit crc 63) (Z.testbit c j)) as ->.
  { rewrite Z.lxor_spec, testbit_reflect by lia. f_equal. by destruct (Z.testbit c j). }
  assert (Z.shiftr (Z.lxor (crc_reflect crc 64) (Z.b2z (Z.testbit c j))) 1 = crc_reflect (u64 (Z.shiftl crc 1)) 64) as ->.
  { rewrite Z.shiftr_lxor, reflect_shiftl by done. destruct (Z.testbit c j); by rewrite Z.lxor_0_r. }
  pose proof (wrapu_range 64 (Z.shiftl crc 1)).
  destruct (Z.testbit c j), (Z.testbit crc 63); cbn [negb xorb]; rewrite ?Z.lxor_0_r; try done;
    (rewrite reflect_lxor; [done|lia|unfold POLY; lia]).
Qed.

Lemma lstep_next r c : lstep (Z.lxor r c) = Z.lxor (lstep (Z.lxor r (Z.b2z (Z.testbit c 0)))) (Z.shiftr c 1).
Proof. rewrite (split_bit c) at 1. by rewrite <- Z.lxor_assoc, lstep_lxor, lstep_shiftl. Qed.

Lemma crc_bits_fold c n : forall crc j,
  0 <= crc < 2 ^ 64 -> 0 <= j ->
  0 <= fold_left (crc_bit c) (Z.pow 2 <$> seqZ j (Z.of_nat n)) crc < 2 ^ 64 /\
  Z.lxor (crc_reflect (fold_left (crc_bit c) (Z.pow 2 <$> seqZ j (Z.of_nat n)) crc) 64) (Z.shiftr c (j + Z.of_nat n)) =
    lsteps n (Z.lxor (crc_reflect crc 64) (Z.shiftr c j)).
Proof.
  induction n as [|n IH]; intros crc j Hc Hj.
  { rewrite (seqZ_nil j (Z.of_nat 0)), Z.add_0_r by lia. cbn [fmap list_fmap fold_left]. rewrite lsteps_O. split; [exact Hc|reflexivity]. }
  rewrite seqZ_cons by lia. cbn [fmap list_fmap fold_left]. replace (Z.pred (Z.of_nat (S n))) with (Z.of_nat n) by lia.
  destruct (IH (crc_bit c crc (2 ^ j)) (Z.succ j) (crc_bit_range _ _ _)) as [Hr He]; [lia|]. split; [done|].
  replace (j + Z.of_nat (S n)) with (Z.succ j + Z.of_nat n) by lia. rewrite He, crc_bit_step by done.
  replace (S n) with (n + 1)%nat by lia. rewrite lsteps_add. f_equal. change (lsteps 1 ?x) with (lstep x).
  rewrite (lstep_next _ (Z.shiftr c j)), Z.shiftr_spec, Z.shiftr_shiftr by lia. done.
Qed.

Lemma crc_byte_step crc c :
  0 <= crc < 2 ^ 64 -> is_byte c -> 0 <= crc_byte crc c < 2 ^ 64 /\ crc_reflect (crc_byte crc c) 64 = byte_of (crc_reflect crc 64) c.
Proof.
  intros Hr Hc. pose proof (crc_bits_fold c 8 crc 0 Hr (Z.le_refl 0)) as [Hf He].
  replace (Z.pow 2 <$> seqZ 0 (Z.of_nat 8)) with [1; 2; 4; 8; 16; 32; 64; 128] in Hf, He by reflexivity.
  unfold crc_byte. rewrite wrapu_small by exact Hf. split; [exact Hf|].
  replace (0 + Z.of_nat 8) with 8 in He by reflexivity. rewrite (shiftr_byte_0 c Hc), Z.lxor_0_r, Z.shiftr_0_r in He. exact He.
Qed.

Lemma crc64_fold s : forall crc, 0 <= crc < 2 ^ 64 -> wf_bytes s ->
  0 <= fold_left crc_byte s crc < 2 ^ 64 /\ crc_reflect (fold_left crc_byte s crc) 64 = crc_of (crc_reflect crc 64) s.
Proof.
  induction s as [|c s IH]; intros crc Hr Hw; [by rewrite crc_of_nil|]. apply Forall_cons_1 in Hw as [Hc Hw]. cbn [fold_left].
  destruct (crc_byte_step crc c Hr Hc) as [Hr' He]. destruct (IH _ Hr' Hw) as [? ->]. split; [done|]. by rewrite crc_of_cons, He.
Qed.

(** The bit-by-bit function takes the checksum in the order of the polynomial
    and returns it reflected. *)
Lemma _crc64_spec crc s : 0 <= crc < 2 ^ 64 -> wf_bytes s -> _crc64 crc s = crc_of (crc_reflect crc 64) s.
Proof.
  intros Hr Hw. destruct (crc64_fold s crc Hr Hw) as [Hf He]. unfold _crc64. by rewrite wrapu_small, Z.lxor_0_r.
Qed.

Lemma _crc64_0 s : wf_bytes s -> _crc64 0 s = crc_of 0 s.
Proof. intros Hw. by rewrite _crc64_spec. Qed.

(** ** Tables *)

Lemma for_each_inv {A} (f : A -> Z -> res A) (P : list Z -> A -> Prop) l a :
  P [] a ->
  (forall pre x post a, l = pre ++ x :: post -> P pre a -> exists a', f a x = Ok a' /\ P (pre ++ [x]) a') ->
  exists a', for_each f l a = Ok a' /\ P l a'.
Proof.
  intros H0 Hf. cut (forall l2 l1 a, l = l1 ++ l2 -> P l1 a -> exists a', for_each f l2 a = Ok a' /\ P l a').
  { intros Hc. by apply (Hc l []). }
  clear a H0. induction l2 as [|x l2 IH]; intros l1 a -> Hp; [rewrite app_nil_r; eauto|]. cbn [for_each].
  destruct (Hf l1 x l2 a eq_refl Hp) as (a' & -> & Ha). cbn [mbind res_bind]. apply (IH (l1 ++ [x])); [by rewrite <- app_assoc|done].
Qed.

(** The element after [pre] in a range. *)
Lemma seqZ_split m n pre x post : seqZ m n = pre ++ x :: post -> x = m + zlen pre /\ 0 <= zlen pre < n.
Proof.
  intros He. assert (seqZ m n !! length pre = Some x) as Hl by (rewrite He; by apply list_lookup_middle).
  apply lookup_seqZ in Hl. unfold zlen. lia.
Qed.

Definition shape (t : table) : Prop := length t = 8%nat /\ Forall (fun row => length row = 256%nat) t.

(** Entries [k,n] of the table inside its shape. *)
Definition inside (k n : Z) : Prop := 0 <= k < 8 /\ is_byte n.

Lemma shape_row t k : shape t -> 0 <= k < 8 -> exists row, t !! Z.to_nat k = Some row /\ zlen row = 256.
Proof.
  intros [Hl Hrow] Hk. destruct (lookup_lt_is_Some_2 t (Z.to_nat k)) as [row Hr]; [lia|]. exists row. split; [done|].
  unfold zlen. by rewrite (Forall_lookup_1 _ _ _ _ Hrow Hr).
Qed.

Lemma tget_inside t k n : shape t -> inside k n -> is_ok (tget t k n).
Proof.
  intros Hs [Hk Hn]. destruct (shape_row t k Hs Hk) as (row & Hr & Hl). unfold tget.
  rewrite (proj2 (Z.ltb_ge k 0)), Hr by lia. apply rd_in_range. unfold is_byte in Hn. lia.
Qed.

Lemma tset_spec t k n v : shape t -> inside k n ->
  exists t', tset t k n v = Ok t' /\ shape t' /\
    (forall k' n', inside k' n' -> tget t' k' n' = if (k' =? k) && (n' =? n) then Ok v else tget t k' n').
Proof.
  intros Hs [Hk Hn]. destruct (shape_row t k Hs Hk) as (row & Hr & Hl). unfold tset, is_byte, table in *.
  rewrite (proj2 (Z.ltb_ge k 0)), Hr by lia. rewrite (proj2 (Z.leb_le 0 n)), (proj2 (Z.ltb_lt n _)) by lia. cbn [andb].
  eexists. split; [done|]. pose proof (lookup_lt_Some _ _ _ Hr) as Hlt. split.
  - destruct Hs as [Ht Hrow]. split; [by rewrite length_insert|]. apply Forall_insert; [done|]. rewrite length_insert.
    exact (Forall_lookup_1 _ _ _ _ Hrow Hr).
  - intros k' n' [Hk' Hn']. unfold tget, is_byte, table in *. rewrite (proj2 (Z.ltb_ge k' 0)) by lia. destruct (Z.eqb_spec k' k) as [->|Hne]; cbn [andb].
    + rewrite list_lookup_insert_eq by done. rewrite Hr. unfold rd. rewrite (proj2 (Z.leb_le 0 n')) by lia. destruct (Z.eqb_spec n' n) as [->|].
      * rewrite list_lookup_insert_eq; [done|]. unfold zlen in Hl. lia.
      * rewrite list_lookup_insert_ne by lia. done.
    + rewrite list_lookup_insert_ne by lia. done.
Qed.

(** The contents of the tables: what [k] zero bytes make of the byte [n]. *)
Definition entry (k n : Z) : Z := lsteps (8 * S (Z.to_nat k)) n.

Definition filled (t : table) : Prop := shape t /\ forall k n, inside k n -> tget t k n = Ok (entry k n).

Lemma entry_next k n : 0 <= k -> is_byte n -> Z.lxor (entry 0 (Z.land (entry k n) 255)) (Z.shiftr (entry k n) 8) = entry (k + 1) n.
Proof.
  intros Hk Hn. transitivity (lsteps 8 (entry k n)).
  - symmetry. apply (lsteps_byte 0).
  - unfold entry. rewrite <- lsteps_add. f_equal. lia.
Qed.

Lemma shape_zeros : shape crc64_table.
Proof. split; [done|]. by repeat constructor. Qed.

Lemma seqZ_byte x : x ∈ seqZ 0 256 <-> is_byte x.
Proof. rewrite elem_of_seqZ. done. Qed.

Lemma seqZ_split_byte pre x post : seqZ 0 256 = pre ++ x :: post -> is_byte x.
Proof. intros He. apply seqZ_split in He. unfold is_byte. lia. Qed.

(** The first row holds the remainders of the single bytes. *)
Lemma fill_first t : shape t ->
  exists t', for_each (fun t n => tset t 0 n (_crc64 0 [u8 n])) (seqZ 0 256) t = Ok t' /\ shape t' /\
    forall n, is_byte n -> tget t' 0 n = Ok (entry 0 n).
Proof.
  intros Hs.
  destruct (for_each_inv (fun t n => tset t 0 n (_crc64 0 [u8 n]))
    (fun pre t => shape t /\ forall n, n ∈ pre -> is_byte n -> tget t 0 n = Ok (entry 0 n)) (seqZ 0 256) t) as (t' & He & Hs' & Hg).
  - split; [done|]. intros n Hn. by apply elem_of_nil in Hn.
  - intros pre n post t1 Hn%seqZ_split_byte [Hs1 Hp]. destruct (tset_spec t1 0 n (_crc64 0 [u8 n]) Hs1) as (t2 & -> & Hs2 & Hg2); [by split; [lia|]|].
    exists t2. split; [done|]. split; [done|]. intros m Hm Hb. rewrite Hg2 by (by split; [lia|]). cbn [Z.eqb andb].
    destruct (Z.eqb_spec m n) as [->|Hne].
    + rewrite _crc64_0, u8_small by (repeat constructor; apply u8_byte) || done. unfold crc_of, entry. cbn [le_val length].
      by rewrite Z.mul_0_r, Z.add_0_r, Z.lxor_0_l.
    + apply Hp; [|done]. rewrite elem_of_app, list_elem_of_singleton in Hm. by destruct Hm.
  - exists t'. split; [done|]. split; [done|]. intros n Hn. apply Hg; [|done]. by apply seqZ_byte.
Qed.

(** One column: the rows below the first. *)
Lemma fill_column_spec t n : shape t -> is_byte n -> (forall m, is_byte m -> tget t 0 m = Ok (entry 0 m)) ->
  exists t', fill_column t n = Ok t' /\ shape t' /\ (forall k, 0 <= k < 8 -> tget t' k n = Ok (entry k n)) /\
    (forall k m, inside k m -> m <> n -> tget t' k m = tget t k m) /\ (forall m, is_byte m -> tget t' 0 m = tget t 0 m).
Proof.
  intros Hs Hn H0. unfold fill_column. rewrite H0 by done. cbn [mbind res_bind].
  replace [1; 2; 3; 4; 5; 6; 7] with (seqZ 1 7) by reflexivity.
  destruct (for_each_inv (fill_next n) (fun pre s => shape s.1 /\ s.2 = entry (zlen pre) n /\
      (forall k, 0 <= k <= zlen pre -> tget s.1 k n = Ok (entry k n)) /\
      (forall k m, inside k m -> m <> n \/ k = 0 -> tget s.1 k m = tget t k m)) (seqZ 1 7) (t, entry 0 n))
    as ([t' crc] & -> & Hs' & _ & Hc & Hg).
  - split; [done|]. split; [done|]. split; [|done]. intros k Hk. replace k with 0 by (unfold zlen in Hk; cbn in Hk; lia). by apply H0.
  - intros pre x post [t1 crc] [-> Hlen]%seqZ_split (Hs1 & Hcrc & Hc & Hg). cbn [fst snd] in *. subst crc. unfold fill_next.
    rewrite Hg by (split; [lia|apply land255_byte]) || auto. rewrite H0 by apply land255_byte. cbn [mbind res_bind].
    rewrite entry_next by (done || lia). set (k := zlen pre) in *.
    destruct (tset_spec t1 (1 + k) n (entry (k + 1) n) Hs1) as (t2 & -> & Hs2 & Hg2); [by split; [lia|]|]. cbn [mbind res_bind].
    eexists. split; [done|]. cbn [fst snd]. assert (zlen (pre ++ [1 + k]) = k + 1) as -> by (rewrite zlen_app; done).
    split; [done|]. split; [done|]. split.
    + intros j Hj. rewrite Hg2 by (split; [lia|done]). rewrite Z.eqb_refl, andb_true_r. destruct (Z.eqb_spec j (1 + k)) as [->|]; [|apply Hc; lia].
      do 2 f_equal. lia.
    + intros j m Hj Hor. rewrite Hg2 by done. destruct (Z.eqb_spec j (1 + k)), (Z.eqb_spec m n); cbn [andb]; try (by apply Hg). lia.
  - cbn [mbind res_bind fst snd] in *. exists t'. split; [done|]. split; [done|]. split; [intros k Hk; apply Hc|].
    + change (zlen (seqZ 1 7)) with 7. lia.
    + split; [intros; apply Hg; auto|]. intros m Hm. apply Hg; [by split; [lia|]|auto].
Qed.

Lemma little_init_filled t : shape t -> exists t', crcspeed64little_init _crc64 t = Ok t' /\ filled t'.
Proof.
  intros Hs. unfold crcspeed64little_init. destruct (fill_first t Hs) as (t1 & -> & Hs1 & H1). cbn [mbind res_bind].
  destruct (for_each_inv fill_column (fun pre t => shape t /\ (forall m, is_byte m -> tget t 0 m = Ok (entry 0 m)) /\
      forall k n, n ∈ pre -> inside k n -> tget t k n = Ok (entry k n)) (seqZ 0 256) t1) as (t' & He & Hs' & _ & Hg).
  - split; [done|]. split; [done|]. intros k n Hn. by apply elem_of_nil in Hn.
  - intros pre n post t2 Hn%seqZ_split_byte (Hs2 & H2 & Hp). destruct (fill_column_spec t2 n Hs2 Hn H2) as (t3 & He & Hs3 & Hn3 & Hne & H0).
    exists t3. split; [done|]. split; [done|]. split; [intros m Hm; by rewrite H0, H2|]. intros k m Hm Hin.
    destruct (decide (m = n)) as [->|Hd]; [apply Hn3, Hin|]. rewrite Hne by done. apply Hp; [|done].
    rewrite elem_of_app, list_elem_of_singleton in Hm. by destruct Hm.
  - exists t'. split; [done|]. split; [done|]. intros k n Hin. apply Hg; [by apply seqZ_byte, Hin|done].
Qed.

(** ** Reversed bytes *)

Lemma testbit_le_val b : forall k, wf_bytes b -> 0 <= k ->
  Z.testbit (le_val b) k = match b !! Z.to_nat (k / 8) with Some x => Z.testbit x (k mod 8) | None => false end.
Proof.
  induction b as [|x b IH]; intros k Hw Hk; [apply Z.bits_0|]. apply Forall_cons_1 in Hw as [Hx Hw]. cbn [le_val].
  rewrite add_lxor_byte, Z.lxor_spec, Z.shiftl_spec by done. destruct (Z.lt_ge_cases k 8).
  - rewrite (Z.testbit_neg_r _ (k - 8)), xorb_false_r by lia. by rewrite (Z.div_small k 8), Z.mod_small by lia.
  - rewrite (testbit_beyond x 8), xorb_false_l by done. rewrite IH by (done || lia).
    assert ((k - 8) / 8 = k / 8 - 1) as -> by (replace (k - 8) with (k + (-1) * 8) by lia; rewrite Z.div_add by lia; lia).
    assert ((k - 8) mod 8 = k mod 8) as -> by (replace (k - 8) with (k + (-1) * 8) by lia; rewrite Z.mod_add by lia; lia).
    assert (1 <= k / 8) by (apply Z.div_le_lower_bound; lia).
    replace (Z.to_nat (k / 8)) with (S (Z.to_nat (k / 8 - 1))) by lia. done.
Qed.

Lemma testbit_le_bytes n x k : 0 <= k -> Z.testbit (le_val (le_bytes n x)) k = (k <? 8 * Z.of_nat n) && Z.testbit x k.
Proof.
  intros Hk. rewrite le_val_bytes. destruct (Z.ltb_spec k (8 * Z.of_nat n)); cbn [andb];
    [by rewrite Z.mod_pow2_bits_low by lia|by rewrite Z.mod_pow2_bits_high by lia].
Qed.

(** The bit [k] of a byte-reversed word. *)
Definition mirror (k : Z) : Z := 8 * (7 - k / 8) + k mod 8.

Lemma mirror_range k : 0 <= k < 64 -> 0 <= mirror k < 64.
Proof. intros Hk. unfold mirror. pose proof (Z.mod_pos_bound k 8). assert (0 <= k / 8 < 8) by (split; [apply Z.div_pos|apply Z.div_lt_upper_bound]; lia). lia. Qed.

Lemma mirror_div k : 0 <= k < 64 -> mirror k / 8 = 7 - k / 8 /\ mirror k mod 8 = k mod 8.
Proof.
  intros Hk. pose proof (Z.mod_pos_bound k 8). unfold mirror. rewrite (Z.mul_comm 8), Z.add_comm, Z.div_add, Z.mod_add by lia.
  rewrite Z.mod_mod by lia. rewrite (Z.div_small (k mod 8)) by lia. lia.
Qed.

Lemma testbit_reverse w k : wf_bytes w -> length w = 8%nat -> 0 <= k < 64 -> Z.testbit (le_val (reverse w)) k = Z.testbit (le_val w) (mirror k).
Proof.
  intros Hw Hl Hk. pose proof (mirror_range k Hk). destruct (mirror_div k Hk) as [Hd Hm].
  assert (0 <= k / 8 < 8) by (split; [apply Z.div_pos|apply Z.div_lt_upper_bound]; lia).
  rewrite !testbit_le_val by (done || (by apply Forall_reverse) || lia). rewrite Hd, Hm, reverse_lookup by lia. rewrite Hl.
  by replace (8 - S (Z.to_nat (k / 8)))%nat with (Z.to_nat (7 - k / 8)) by lia.
Qed.

Lemma rev8_range x : 0 <= rev8 x < 2 ^ 64.
Proof.
  unfold rev8. pose proof (le_val_range (reverse (le_bytes 8 x))) as Hr. unfold zlen in Hr. rewrite length_reverse, length_le_bytes in Hr.
  apply Hr, Forall_reverse, wf_le_bytes.
Qed.

Lemma testbit_rev8 x k : 0 <= k < 64 -> Z.testbit (rev8 x) k = Z.testbit x (mirror k).
Proof.
  intros Hk. pose proof (mirror_range k Hk). unfold rev8. rewrite testbit_reverse by (apply wf_le_bytes || apply length_le_bytes || done).
  rewrite testbit_le_bytes by lia. rewrite (proj2 (Z.ltb_lt _ _)) by lia. done.
Qed.

Lemma rev8_word w : wf_bytes w -> length w = 8%nat -> le_val (reverse w) = rev8 (le_val w).
Proof. intros Hw Hl. unfold rev8. rewrite <- Hl, le_bytes_val by done. done. Qed.

Lemma rev8_invol x : 0 <= x < 2 ^ 64 -> rev8 (rev8 x) = x.
Proof.
  intros Hx. apply word_ext; [apply rev8_range|done|]. intros k Hk. pose proof (mirror_range k Hk). rewrite !testbit_rev8 by done. f_equal.
  destruct (mirror_div k Hk) as [Hd Hm]. unfold mirror at 1. rewrite Hd, Hm. pose proof (Z.div_mod k 8). lia.
Qed.

Lemma rev8_lxor x y : 0 <= x < 2 ^ 64 -> 0 <= y < 2 ^ 64 -> rev8 (Z.lxor x y) = Z.lxor (rev8 x) (rev8 y).
Proof.
  intros Hx Hy. apply word_ext; [apply rev8_range|apply lxor_range; [lia|apply rev8_range..]|].
  intros k Hk. by rewrite Z.lxor_spec, !testbit_rev8, Z.lxor_spec.
Qed.

(** The byte [i] of the reversed word is the byte [7-i] of the word. *)
Lemma rev8_byte x i : 0 <= i < 8 -> Z.land (Z.shiftr (rev8 x) (8 * i)) 255 = Z.land (Z.shiftr x (8 * (7 - i))) 255.
Proof.
  intros Hi. apply Z.bits_inj'. intros k Hk. rewrite !testbit_land255. destruct (Z.ltb_spec k 8); cbn [andb]; [|done].
  rewrite !Z.shiftr_spec, testbit_rev8 by lia. f_equal. unfold mirror.
  rewrite (Z.mul_comm 8 i), Z.div_add, Z.mod_add, Z.div_small, Z.mod_small by lia. lia.
Qed.

Lemma rev8_shiftr x : 0 <= x < 2 ^ 64 -> rev8 (Z.shiftr x 8) = u64 (Z.shiftl (rev8 x) 8).
Proof.
  intros Hx. apply word_ext; [apply rev8_range|apply wrapu_range; lia|]. intros k Hk. pose proof (mirror_range k Hk).
  rewrite testbit_rev8, testbit_u64, Z.shiftr_spec, Z.shiftl_spec by lia. rewrite (proj2 (Z.ltb_lt k 64)) by lia. cbn [andb].
  destruct (Z.lt_ge_cases k 8).
  - rewrite (Z.testbit_neg_r _ (k - 8)) by lia. apply (testbit_beyond x 64); [done|]. unfold mirror. rewrite Z.div_small, Z.mod_small by lia. lia.
  - rewrite testbit_rev8 by lia. f_equal. unfold mirror. replace (k - 8) with (k + (-1) * 8) by lia. rewrite Z.div_add, Z.mod_add by lia. lia.
Qed.

(** ** The fast loops *)

#[local] Opaque lsteps.

Section loops.
(** [R crc] is how the loops keep the checksum [crc]. *)
Context (R : Z -> Z) (byte_step : Z -> Z -> res Z) (word_step : Z -> bytes -> res Z).
Hypothesis byte_ok : forall crc c, 0 <= crc < 2 ^ 64 -> is_byte c -> byte_step (R crc) c = Ok (R (byte_of crc c)).
Hypothesis word_ok : forall crc w, 0 <= crc < 2 ^ 64 -> wf_bytes w -> length w = 8%nat -> word_step (R crc) w = Ok (R (crc_of crc w)).

Lemma crc_tail_spec s : forall crc, 0 <= crc < 2 ^ 64 -> wf_bytes s -> tail_loop byte_step (R crc) s = Ok (R (crc_of crc s)).
Proof using byte_ok.
  induction s as [|c s IH]; intros crc Hr Hw; [by rewrite crc_of_nil|]. apply Forall_cons_1 in Hw as [Hc Hw]. cbn [tail_loop].
  rewrite byte_ok by done. cbn [mbind res_bind]. rewrite crc_of_cons by done. apply IH; [by apply byte_of_range|done].
Qed.

Lemma crc_head_spec s : forall crc next, 0 <= crc < 2 ^ 64 -> wf_bytes s ->
  exists s1 s2, s = s1 ++ s2 /\ head_loop byte_step (R crc) next s = Ok (R (crc_of crc s1), s2).
Proof using byte_ok.
  induction s as [|c s IH]; intros crc next Hr Hw; [exists [], []; by rewrite crc_of_nil|]. cbn [head_loop].
  destruct (_ =? 0); [exists [], (c :: s); by rewrite crc_of_nil|]. apply Forall_cons_1 in Hw as [Hc Hw].
  rewrite byte_ok by done. cbn [mbind res_bind]. destruct (IH (byte_of crc c) (next + 1)) as (s1 & s2 & -> & ->); [by apply byte_of_range|done|].
  exists (c :: s1), s2. by rewrite crc_of_cons.
Qed.

Lemma crc_word_spec n : forall s crc, (length s <= n)%nat -> 0 <= crc < 2 ^ 64 -> wf_bytes s ->
  exists s1 s2, s = s1 ++ s2 /\ word_loop word_step (R crc) s = Ok (R (crc_of crc s1), s2).
Proof using word_ok.
  induction n as [|n IH]; intros s crc Hn Hr Hw.
  { destruct s; [|cbn in Hn; lia]. exists [], []. by rewrite crc_of_nil. }
  destruct s as [|b0 [|b1 [|b2 [|b3 [|b4 [|b5 [|b6 [|b7 rest]]]]]]]]; try (eexists [], _; rewrite crc_of_nil; by split).
  set (w := [b0; b1; b2; b3; b4; b5; b6; b7]). change (b0 :: b1 :: b2 :: b3 :: b4 :: b5 :: b6 :: b7 :: rest) with (w ++ rest) in *. apply Forall_app in Hw as [Hw Hrest].
  change (word_loop word_step (R crc) (w ++ rest)) with (crc ← word_step (R crc) w; word_loop word_step crc rest).
  rewrite word_ok by done. cbn [mbind res_bind].
  destruct (IH rest (crc_of crc w)) as (s1 & s2 & -> & ->); [rewrite length_app in Hn; cbn in Hn; lia|by apply crc_of_range|done|].
  exists (w ++ s1), s2. by rewrite crc_of_app, <- app_assoc.
Qed.

Lemma crc_loops_spec s crc next : 0 <= crc < 2 ^ 64 -> wf_bytes s -> crc_loops byte_step word_step (R crc) next s = Ok (R (crc_of crc s)).
Proof using byte_ok word_ok.
  intros Hr Hw. unfold crc_loops. destruct (crc_head_spec s crc next Hr Hw) as (s1 & s2 & -> & ->). cbn [mbind res_bind fst snd].
  apply Forall_app in Hw as [H1 H2]. assert (0 <= crc_of crc s1 < 2 ^ 64) as Hr1 by by apply crc_of_range.
  destruct (crc_word_spec _ s2 (crc_of crc s1) (Nat.le_refl _) Hr1 H2) as (s3 & s4 & -> & ->). cbn [mbind res_bind fst snd].
  apply Forall_app in H2 as [H3 H4]. rewrite !crc_of_app by done. apply crc_tail_spec; [by apply crc_of_range|done].
Qed.

End loops.

Lemma little_byte_spec t crc c : filled t -> is_byte c -> little_byte t crc c = Ok (byte_of crc c).
Proof.
  intros [_ Hg] Hc. unfold little_byte. rewrite Hg by (split; [lia|apply land255_byte]). cbn [mbind res_bind]. f_equal.
  unfold byte_of. rewrite (lsteps_byte 0). f_equal. rewrite Z.shiftr_lxor, (shiftr_byte_0 c Hc), Z.lxor_0_r. done.
Qed.

(** Eight bytes taken apart, the lowest first. *)
Lemma lsteps_word x : 0 <= x < 2 ^ 64 ->
  let byte i := Z.land (Z.shiftr x (8 * i)) 255 in
  lsteps 64 x = Z.lxor (Z.lxor (Z.lxor (Z.lxor (Z.lxor (Z.lxor (Z.lxor (entry 7 (byte 0)) (entry 6 (byte 1))) (entry 5 (byte 2)))
    (entry 4 (byte 3))) (entry 3 (byte 4))) (entry 2 (byte 5))) (entry 1 (byte 6))) (entry 0 (byte 7)).
Proof.
  intros Hx byte.
  assert (forall n m i j, n = (m + 8)%nat -> 0 <= i -> j = i + 1 ->
    lsteps n (Z.shiftr x (8 * i)) = Z.lxor (lsteps n (byte i)) (lsteps m (Z.shiftr x (8 * j)))) as Hs.
  { intros n m i j -> Hi ->. rewrite lsteps_byte, Z.shiftr_shiftr by lia. do 3 f_equal. lia. }
  rewrite <- (Z.shiftr_0_r x) at 1. change 0 with (8 * 0) at 1.
  rewrite (Hs 64%nat 56%nat 0 1), (Hs 56%nat 48%nat 1 2), (Hs 48%nat 40%nat 2 3), (Hs 40%nat 32%nat 3 4), (Hs 32%nat 24%nat 4 5),
    (Hs 24%nat 16%nat 5 6), (Hs 16%nat 8%nat 6 7), (Hs 8%nat 0%nat 7 8) by lia.
  change (8 * 8) with 64. rewrite (Z.shiftr_div_pow2 x 64), Z.div_small by lia.
  rewrite !Z.lxor_assoc, lsteps_0, Z.lxor_0_r. reflexivity.
Qed.

Lemma word_range w : wf_bytes w -> length w = 8%nat -> 0 <= le_val w < 2 ^ 64.
Proof. intros Hw Hl. pose proof (le_val_range w Hw) as Hr. unfold zlen in Hr. by rewrite Hl in Hr. Qed.

Lemma crc_of_word crc w : length w = 8%nat -> crc_of crc w = lsteps 64 (Z.lxor crc (le_val w)).
Proof. intros Hl. unfold crc_of. by rewrite Hl. Qed.

(** The highest byte needs no mask. *)
Lemma top_byte x : 0 <= x < 2 ^ 64 -> Z.shiftr x 56 = Z.land (Z.shiftr x 56) 255.
Proof. intros Hx. symmetry. apply land255_small. apply (shiftr_range x 56 8); [lia..|]. exact Hx. Qed.

Lemma little_word_spec t crc w :
  filled t -> 0 <= crc < 2 ^ 64 -> wf_bytes w -> length w = 8%nat -> little_word t crc w = Ok (crc_of crc w).
Proof.
  intros [_ Hg] Hr Hw Hl. rewrite crc_of_word by done. unfold little_word. set (x := Z.lxor crc (le_val w)).
  assert (0 <= x < 2 ^ 64) as Hx by (apply lxor_range; [lia|done|by apply word_range]). rewrite (top_byte x Hx).
  rewrite !Hg by (split; [lia|apply land255_byte]). cbn [mbind res_bind]. rewrite (lsteps_word x Hx).
  change (8 * 0) with 0. rewrite Z.shiftr_0_r. reflexivity.
Qed.

Lemma crcspeed64little_spec t crc next s :
  filled t -> 0 <= crc < 2 ^ 64 -> wf_bytes s -> crcspeed64little t crc next s = Ok (crc_of crc s).
Proof.
  intros Ht. apply (crc_loops_spec (fun crc => crc)); intros; [by apply little_byte_spec|by apply little_word_spec].
Qed.

(** ** Big-endian hosts *)

Definition filled_big (t : table) : Prop := shape t /\ forall k n, inside k n -> tget t k n = Ok (rev8 (entry k n)).

Lemma reverse_row t k : shape t -> 0 <= k < 8 ->
  exists t', for_each (fun t n => x ← tget t k n; tset t k n (rev8 x)) (seqZ 0 256) t = Ok t' /\ shape t' /\
    forall j n, inside j n -> tget t' j n = if j =? k then (x ← tget t j n; Ok (rev8 x)) else tget t j n.
Proof.
  intros Hs Hk.
  destruct (for_each_inv (fun t n => x ← tget t k n; tset t k n (rev8 x))
    (fun pre t' => shape t' /\ forall j n, inside j n ->
       tget t' j n = if (j =? k) && (n <? zlen pre) then (x ← tget t j n; Ok (rev8 x)) else tget t j n) (seqZ 0 256) t) as (t' & He & Hs' & Hg).
  - split; [done|]. intros j n [_ Hn]. rewrite (proj2 (Z.ltb_ge n _)), andb_false_r; [done|]. apply Hn.
  - intros pre n post t1 [-> Hlen]%seqZ_split [Hs1 Hg]. rewrite Z.add_0_l. set (n := zlen pre) in *.
    assert (inside k n) as Hin by (split; [lia|]; unfold is_byte; lia). rewrite Hg by done. rewrite Z.ltb_irrefl, andb_false_r.
    destruct (tget_inside t k n Hs Hin) as [x Hx]. rewrite Hx. cbn [mbind res_bind].
    destruct (tset_spec t1 k n (rev8 x) Hs1 Hin) as (t2 & -> & Hs2 & Hg2). exists t2. split; [done|]. split; [done|].
    assert (zlen (pre ++ [n]) = n + 1) as -> by (rewrite zlen_app; done). intros j m Hj. rewrite Hg2, Hg by done.
    destruct (Z.eqb_spec j k) as [->|]; cbn [andb]; [|done]. destruct (Z.eqb_spec m n) as [->|].
    + rewrite Hx. by rewrite (proj2 (Z.ltb_lt n (n + 1))) by lia.
    + destruct (Z.ltb_spec m n), (Z.ltb_spec m (n + 1)); (done || lia).
  - exists t'. split; [done|]. split; [done|]. intros j n Hj. rewrite Hg by done. change (zlen (seqZ 0 256)) with 256.
    rewrite (proj2 (Z.ltb_lt n 256)), andb_true_r by apply Hj. done.
Qed.

Lemma big_init_filled t : shape t -> exists t', crcspeed64big_init _crc64 t = Ok t' /\ filled_big t'.
Proof.
  intros Hs. unfold crcspeed64big_init. destruct (little_init_filled t Hs) as (t1 & -> & Hs1 & H1). cbn [mbind res_bind].
  destruct (for_each_inv (fun t k => for_each (fun t n => x ← tget t k n; tset t k n (rev8 x)) (seqZ 0 256) t)
    (fun pre t => shape t /\ forall k n, inside k n -> tget t k n = Ok (if k <? zlen pre then rev8 (entry k n) else entry k n))
    (seqZ 0 8) t1) as (t' & He & Hs' & Hg).
  - split; [done|]. intros k n Hin. rewrite (proj2 (Z.ltb_ge k _)); [by apply H1|]. apply Hin.
  - intros pre k post t2 [-> Hlen]%seqZ_split [Hs2 Hg]. rewrite Z.add_0_l. set (k := zlen pre) in *.
    destruct (reverse_row t2 k Hs2) as (t3 & -> & Hs3 & Hg3); [lia|]. exists t3. split; [done|]. split; [done|].
    assert (zlen (pre ++ [k]) = k + 1) as -> by (rewrite zlen_app; done). intros j n Hin. rewrite Hg3, Hg by done.
    destruct (Z.eqb_spec j k), (Z.ltb_spec j k), (Z.ltb_spec j (k + 1)); cbn [mbind res_bind]; (done || lia).
  - exists t'. split; [done|]. split; [done|]. intros k n Hin. rewrite Hg by done. change (zlen (seqZ 0 8)) with 8.
    by rewrite (proj2 (Z.ltb_lt k 8)) by apply Hin.
Qed.

Lemma entry_range k n : is_byte n -> 0 <= entry k n < 2 ^ 64.
Proof. intros Hn. apply lsteps_range. unfold is_byte in Hn. lia. Qed.

Lemma big_byte_spec t crc c : filled_big t -> 0 <= crc < 2 ^ 64 -> is_byte c -> big_byte t (rev8 crc) c = Ok (rev8 (byte_of crc c)).
Proof.
  intros [_ Hg] Hr Hc. pose proof (rev8_range crc) as Hv. unfold big_byte. rewrite (top_byte _ Hv).
  change 56 with (8 * 7). rewrite (rev8_byte crc 7) by lia. change (8 * (7 - 7)) with 0. rewrite Z.shiftr_0_r.
  rewrite Hg by (split; [lia|apply lxor_byte; [apply land255_byte|done]]). cbn [mbind res_bind]. f_equal.
  rewrite <- rev8_shiftr by done. rewrite <- rev8_lxor.
  - f_equal. unfold byte_of. rewrite (lsteps_byte 0), Z.shiftr_lxor, (shiftr_byte_0 c Hc), Z.lxor_0_r, lsteps_O. f_equal.
    unfold entry. change (8 * S (Z.to_nat 0))%nat with (0 + 8)%nat. f_equal. rewrite <- (land255_small c Hc) at 1.
    apply Z.bits_inj'. intros k Hk. rewrite Z.lxor_spec, !testbit_land255, Z.lxor_spec. by destruct (k <? 8).
  - apply entry_range, lxor_byte; [apply land255_byte|done].
  - assert (0 <= Z.shiftr crc 8 < 2 ^ 56) by (apply shiftr_range; [lia..|]; exact Hr). lia.
Qed.

Lemma lxor8_reverse a b c d e f g h :
  Z.lxor (Z.lxor (Z.lxor (Z.lxor (Z.lxor (Z.lxor (Z.lxor a b) c) d) e) f) g) h =
  Z.lxor (Z.lxor (Z.lxor (Z.lxor (Z.lxor (Z.lxor (Z.lxor h g) f) e) d) c) b) a.
Proof.
  apply Z.bits_inj'. intros k _. rewrite !Z.lxor_spec.
  by destruct (Z.testbit a k), (Z.testbit b k), (Z.testbit c k), (Z.testbit d k), (Z.testbit e k), (Z.testbit f k), (Z.testbit g k), (Z.testbit h k).
Qed.

Lemma big_word_spec t crc w :
  filled_big t -> 0 <= crc < 2 ^ 64 -> wf_bytes w -> length w = 8%nat -> big_word t (rev8 crc) w = Ok (rev8 (crc_of crc w)).
Proof.
  intros [_ Hg] Hr Hw Hl. pose proof (word_range w Hw Hl) as Hwr. rewrite crc_of_word by done. unfold big_word.
  rewrite rev8_word, <- rev8_lxor by done. set (x := Z.lxor crc (le_val w)).
  assert (0 <= x < 2 ^ 64) as Hx by (apply lxor_range; [lia|done..]). rewrite (top_byte _ (rev8_range x)).
  rewrite <- (Z.shiftr_0_r (rev8 x)) at 1.
  change 56 with (8 * 7). change 48 with (8 * 6). change 40 with (8 * 5). change 32 with (8 * 4). change 24 with (8 * 3).
  change 16 with (8 * 2). change (Z.shiftr (rev8 x) 8) with (Z.shiftr (rev8 x) (8 * 1)). change (Z.shiftr (rev8 x) 0) with (Z.shiftr (rev8 x) (8 * 0)).
  rewrite !rev8_byte by lia. rewrite !Hg by (split; [lia|apply land255_byte]). cbn [mbind res_bind]. f_equal.
  rewrite (lsteps_word x Hx), lxor8_reverse.
  repeat (rewrite rev8_lxor; [|repeat (apply lxor_range; [lia| |]); apply entry_range, land255_byte|apply entry_range, land255_byte]). reflexivity.
Qed.

Lemma crcspeed64big_spec t crc next s :
  filled_big t -> 0 <= crc < 2 ^ 64 -> wf_bytes s -> crcspeed64big t crc next s = Ok (crc_of crc s).
Proof.
  intros Ht Hr Hw. unfold crcspeed64big. rewrite (crc_loops_spec rev8) by (intros; (by apply big_byte_spec) || (by apply big_word_spec) || done).
  cbn [mbind res_bind]. rewrite rev8_invol; [done|]. by apply crc_of_range.
Qed.

(** ** Both hosts *)

Definition ready (host : endianness) (t : table) : Prop := match host with Little => filled t | Big => filled_big t end.

Lemma crc64_init_ready host t : shape t -> exists t', crc64_init host t = Ok t' /\ ready host t'.
Proof. intros Hs. destruct host; [by apply little_init_filled|by apply big_init_filled]. Qed.

Lemma crc64_spec host t crc next s : ready host t -> 0 <= crc < 2 ^ 64 -> wf_bytes s -> crc64 host t crc next s = Ok (crc_of crc s).
Proof. destruct host; [apply crcspeed64little_spec|apply crcspeed64big_spec]. Qed.

(** ** Bursts *)

(** Messages that differ in up to 64 consecutive bits have different checksums. *)
Lemma crc_of_burst crc s s' w j :
  length s' = length s -> le_val s' = Z.lxor (le_val s) (Z.shiftl w j) -> 0 < w < 2 ^ 64 -> 0 <= j <= 8 * zlen s ->
  crc_of crc s' <> crc_of crc s.
Proof.
  intros Hl He Hw Hj Heq. unfold crc_of in Heq. rewrite Hl, He, <- Z.lxor_assoc, (lsteps_lxor _ (Z.lxor _ _)) in Heq.
  rewrite <- (Z.lxor_0_r (lsteps _ (Z.lxor crc (le_val s)))) in Heq at 2.
  apply (f_equal (Z.lxor (lsteps (8 * length s) (Z.lxor crc (le_val s))))) in Heq.
  rewrite <- !Z.lxor_assoc, Z.lxor_nilpotent, !Z.lxor_0_l in Heq. unfold zlen in Hj.
  replace (8 * length s)%nat with ((8 * length s - Z.to_nat j) + Z.to_nat j)%nat in Heq by lia.
  rewrite lsteps_add in Heq. replace j with (Z.of_nat (Z.to_nat j)) in Heq at 3 by lia. rewrite lsteps_shiftl in Heq.
  pose proof (lsteps_nonzero (8 * length s - Z.to_nat j) w Hw). lia.
Qed.

End CrcTheory.
