(* ===== verification/CrcSpec.v ===== *)
(** * What the checksums promise.

    The table-driven 64-bit checksum is the bit-by-bit one, on both byte
    orders, at every address and however the data is cut; the 16-bit one is
    the remainder by its polynomial, and the slot of a key depends only on its
    hash tag. *)

From stdpp Require Import sets.
From S2P Require Import Prelude Crc CrcTheory.
#[local] Open Scope Z_scope.

Module CrcSpec.
Import Crc CrcTheory.

(** ** 64 bits *)

(** C21. On little-endian and big-endian hosts, the tables filled by
    [crc64_init] make [crc64] the bit-by-bit [_crc64], wherever the buffer
    lies; the latter takes its start value in reflected order.  A buffer may
    be processed in parts, the result of one part being the start of the
    next. *)
Theorem crc64_bit_by_bit host :
  exists t, crc64_init host crc64_table = Ok t /\
    forall crc next s, 0 <= crc < 2 ^ 64 -> wf_bytes s ->
      crc64 host t crc next s = Ok (_crc64 (crc_reflect crc 64) s) /\
      forall next' s', wf_bytes s' -> (c ← crc64 host t crc next s; crc64 host t c next' s') = crc64 host t crc next (s ++ s').
Proof.
  destruct (crc64_init_ready host crc64_table shape_zeros) as (t & Ht & Hr). exists t. split; [done|]. intros crc next s Hc Hs. split.
  - rewrite crc64_spec, _crc64_spec, reflect_invol; [done|done|apply reflect_range; lia|done..].
  - intros next' s' Hs'. rewrite !crc64_spec by (done || by apply Forall_app). cbn [mbind res_bind].
    rewrite crc64_spec by (done || by apply crc_of_range). by rewrite crc_of_app.
Qed.

(** The start value of [_crc64] is not the value it returns: feeding one
    result to the next call, as its comment suggests, gives another checksum. *)
Lemma _crc64_not_incremental : _crc64 (_crc64 0 [1]) [2] <> _crc64 0 [1; 2].
Proof. vm_compute. discriminate. Qed.

(** ** 16 bits *)

(** Division by x^16 + x^12 + x^5 + 1, one bit at a time, the highest first. *)
Definition hstep (x : Z) : Z := wrapu 16 (Z.lxor (Z.shiftl x 1) (if Z.testbit x 15 then 0x1021 else 0)).
Definition hsteps (n : nat) : Z -> Z := Nat.iter n hstep.
Definition crc16_from (crc : Z) (s : bytes) : Z := fold_left (fun crc c => hsteps 8 (Z.lxor crc (Z.shiftl c 8))) s crc.
Definition crc16_of (s : bytes) : Z := crc16_from 0 s.

Lemma wrapu_lxor n a b : 0 <= n -> wrapu n (Z.lxor a b) = Z.lxor (wrapu n a) (wrapu n b).
Proof.
  intros Hn. unfold wrapu. apply Z.bits_inj'. intros k Hk. rewrite Z.lxor_spec. destruct (Z.lt_ge_cases k n).
  - by rewrite !Z.mod_pow2_bits_low, Z.lxor_spec by lia.
  - by rewrite !Z.mod_pow2_bits_high by lia.
Qed.

Lemma hstep_lxor a b : hstep (Z.lxor a b) = Z.lxor (hstep a) (hstep b).
Proof.
  unfold hstep. rewrite Z.shiftl_lxor, Z.lxor_spec, <- wrapu_lxor by lia. f_equal.
  destruct (Z.testbit a 15), (Z.testbit b 15); cbn [xorb]; apply Z.bits_inj'; intros k _; rewrite !Z.lxor_spec, ?Z.bits_0;
    destruct (Z.testbit (Z.shiftl a 1) k), (Z.testbit (Z.shiftl b 1) k), (Z.testbit 0x1021 k); done.
Qed.

Lemma hsteps_lxor n a b : hsteps n (Z.lxor a b) = Z.lxor (hsteps n a) (hsteps n b).
Proof. induction n as [|n IH]; [done|]. change (hsteps (S n) ?x) with (hstep (hsteps n x)). by rewrite IH, hstep_lxor. Qed.

Lemma hsteps_range n x : 0 <= x < 2 ^ 16 -> 0 <= hsteps n x < 2 ^ 16.
Proof. intros Hx. destruct n; [done|]. apply wrapu_range. lia. Qed.

(** The table, and what it leaves out. *)
Lemma crc16tab_spec n : is_byte n -> rd crc16tab n = Ok (hsteps 8 (Z.shiftl n 8)) /\ hsteps 8 n = Z.shiftl n 8.
Proof.
  intros Hn. pose proof (byte_forall (fun n => match rd crc16tab n with Ok x => (x =? hsteps 8 (Z.shiftl n 8)) | _ => false end && (hsteps 8 n =? Z.shiftl n 8))) as Hall.
  specialize (Hall ltac:(vm_compute; reflexivity) n Hn). cbn beta in Hall. destruct (rd crc16tab n) as [x|]; [|done].
  apply andb_true_iff in Hall as [->%Z.eqb_eq Hs%Z.eqb_eq]. done.
Qed.

Lemma crc16_step_spec crc c : 0 <= crc < 2 ^ 16 -> is_byte c -> crc16_step crc c = Ok (hsteps 8 (Z.lxor crc (Z.shiftl c 8))).
Proof.
  intros Hr Hc. unfold crc16_step.
  assert (is_byte (Z.lxor (Z.shiftr crc 8) c)) as Hb by (apply lxor_byte; [apply (shiftr_range crc 8 8); [lia..|exact Hr]|done]).
  rewrite land255_small by done. destruct (crc16tab_spec _ Hb) as [-> _]. cbn [mbind res_bind]. f_equal.
  rewrite wrapu_lxor by lia. rewrite (wrapu_small 16 (hsteps _ _)).
  2:{ apply hsteps_range. rewrite Z.shiftl_mul_pow2 by lia. unfold is_byte in Hb. lia. }
  rewrite (split_byte crc) at 3. destruct (crc16tab_spec (Z.land crc 255) (land255_byte crc)) as [_ Hlow].
  rewrite Z.lxor_assoc, <- Z.shiftl_lxor, hsteps_lxor, Hlow. f_equal. unfold wrapu. apply Z.bits_inj'. intros k Hk.
  rewrite Z.shiftl_spec by lia. rewrite testbit_land255. destruct (Z.lt_ge_cases k 16).
  - rewrite Z.mod_pow2_bits_low, Z.shiftl_spec by lia. rewrite (proj2 (Z.ltb_lt (k - 8) 8)) by lia. done.
  - rewrite Z.mod_pow2_bits_high by lia. by rewrite (proj2 (Z.ltb_ge (k - 8) 8)) by lia.
Qed.

#[local] Opaque hsteps crc16_step.

Lemma crc16_fold s : forall crc, 0 <= crc < 2 ^ 16 -> wf_bytes s ->
  for_each crc16_step s crc = Ok (crc16_from crc s) /\ 0 <= crc16_from crc s < 2 ^ 16.
Proof.
  induction s as [|c s IH]; intros crc Hr Hw; [done|]. apply Forall_cons_1 in Hw as [Hc Hw].
  change (for_each crc16_step (c :: s) crc) with (crc ← crc16_step crc c; for_each crc16_step s crc).
  change (crc16_from crc (c :: s)) with (crc16_from (hsteps 8 (Z.lxor crc (Z.shiftl c 8))) s).
  rewrite crc16_step_spec by done. apply IH; [|done]. apply hsteps_range, lxor_range; [lia|done|].
  rewrite Z.shiftl_mul_pow2 by lia. unfold is_byte in Hc. lia.
Qed.

Lemma crc16_spec s : wf_bytes s -> crc16 s = Ok (crc16_of s) /\ 0 <= crc16_of s < 2 ^ 16.
Proof. apply (crc16_fold s 0). lia. Qed.

(** ** Slots *)

(** The part of a key between its first opening brace and the first closing
    one after it, when it is not empty. *)
Definition hash_tag (key tag : bytes) : Prop :=
  exists pre post, key = pre ++ [123] ++ tag ++ [125] ++ post /\ (123 ∉ pre) /\ (125 ∉ tag) /\ tag <> [].

Lemma find_char_spec c l : forall fuel pre,
  (length l < fuel)%nat ->
  (exists l1 l2, l = l1 ++ c :: l2 /\ (c ∉ l1) /\ find_char fuel (pre ++ l) (zlen pre) (zlen (pre ++ l)) c = Ok (zlen (pre ++ l1))) \/
  ((c ∉ l) /\ find_char fuel (pre ++ l) (zlen pre) (zlen (pre ++ l)) c = Ok (zlen (pre ++ l))).
Proof.
  induction l as [|x l IH]; intros fuel pre Hf; destruct fuel as [|fuel]; try (cbn in Hf; lia); cbn [find_char].
  { right. split; [apply not_elem_of_nil|]. by rewrite app_nil_r, Z.ltb_irrefl. }
  rewrite (proj2 (Z.ltb_lt _ _)), rd_here by (rewrite zlen_app, zlen_cons; pose proof (zlen_nonneg l); lia). cbn [mbind res_bind].
  destruct (Z.eqb_spec x c) as [->|Hne].
  - left. exists [], l. rewrite app_nil_r. split; [done|]. split; [apply not_elem_of_nil|done].
  - rewrite <- snoc_app. replace (zlen pre + 1) with (zlen (pre ++ [x])) by (rewrite zlen_app; done).
    destruct (IH fuel (pre ++ [x])) as [(l1 & l2 & -> & Hn & He)|[Hn He]]; [cbn in Hf; lia| |].
    + left. exists (x :: l1), l2. rewrite He. split; [done|]. split; [apply not_elem_of_cons; auto|].
      by rewrite snoc_app.
    + right. rewrite He. split; [apply not_elem_of_cons; auto|done].
Qed.

(** The slot of some bytes, without looking for a tag. *)
Definition slot_of (s : bytes) : Z := crc16_of s mod 2 ^ 14.

Lemma slot_spec s : wf_bytes s -> (h ← crc16 s; Ok (Z.land h 0x3FFF)) = Ok (slot_of s).
Proof. intros Hs. destruct (crc16_spec s Hs) as [-> _]. cbn [mbind res_bind]. f_equal. apply (land_ones_mod _ 14). lia. Qed.

(** An empty pair of braces, or an opening one that is not closed. *)
Lemma hash_tag_first key pre l tag :
  key = pre ++ 123 :: l -> (123 ∉ pre) -> hash_tag key tag -> exists post, l = tag ++ 125 :: post /\ (125 ∉ tag) /\ tag <> [].
Proof.
  intros -> Hn (pre' & post & He & Hn' & Ht & Hne). exists post. split; [|done].
  assert (pre = pre') as <-; [|by simplify_list_eq].
  revert pre' He Hn'. induction pre as [|x pre IH]; intros [|y pre'] He Hn'; cbn in He; simplify_eq; [done| | |].
  - by destruct Hn'; left.
  - by destruct Hn; left.
  - f_equal. apply not_elem_of_cons in Hn as [_ Hn], Hn' as [_ Hn']. by apply IH.
Qed.

(** The code's scan for the braces finds exactly the tag. *)
Lemma keyHashSlot_cases key : wf_bytes key ->
  (exists tag, hash_tag key tag /\ keyHashSlot key (zlen key) = Ok (slot_of tag)) \/
  ((forall tag, ~ hash_tag key tag) /\ keyHashSlot key (zlen key) = Ok (slot_of key)).
Proof.
  intros Hw. unfold keyHashSlot. rewrite to_nat_zlen, rdn_all. cbn [mbind res_bind]. rewrite (slot_spec key Hw).
  pose proof (find_char_spec 123 key (S (length key)) [] ltac:(lia)) as Hfind. cbn [app] in Hfind. change (zlen (@nil Z)) with 0 in Hfind.
  destruct Hfind as [(pre & l & Hk & Hn & He)|[Hn He]]; rewrite He; clear He; cbn [mbind res_bind].
  2:{ right. rewrite Z.eqb_refl. split; [|done]. intros tag (p & q & -> & _). apply Hn. set_solver. }
  assert (zlen key = zlen pre + 1 + zlen l) as Hlen by (subst key; rewrite zlen_app, zlen_cons; lia). pose proof (zlen_nonneg l).
  rewrite (proj2 (Z.eqb_neq (zlen pre) _)) by lia.
  destruct (find_char_spec 125 l (S (length key)) (pre ++ [123])) as [(tag & post & Hl & Ht & He)|[Ht He]];
    [subst key; rewrite length_app; cbn; lia| |];
    rewrite snoc_app, <- Hk, zlen_app in He; change (zlen [123]) with 1 in He; rewrite He; clear He; cbn [mbind res_bind].
  - rewrite zlen_app, zlen_app. change (zlen [123]) with 1. assert (zlen l = zlen tag + 1 + zlen post) as Hll by (subst l; rewrite zlen_app, zlen_cons; lia).
    pose proof (zlen_nonneg tag). pose proof (zlen_nonneg post). rewrite (proj2 (Z.eqb_neq _ (zlen key))) by lia. cbn [orb].
    destruct (Z.eqb_spec (zlen pre + 1 + zlen tag) (zlen pre + 1)) as [Hz|Hz].
    + right. split; [|done]. intros tag' Htag. destruct (hash_tag_first _ _ _ _ Hk Hn Htag) as (p & Hp & Hni & Hne).
      assert (tag = []) as -> by (apply zlen_nil_inv; lia). subst l. destruct tag' as [|y tag']; [done|]. simplify_list_eq. apply Hni. by left.
    + left. exists tag. split.
      { exists pre, post. subst key l. split; [done|]. split; [done|]. split; [done|]. intros ->. unfold zlen in Hz; cbn in Hz; lia. }
      assert (rdn key (zlen pre + 1) (zlen pre + 1 + zlen tag - zlen pre - 1) = Ok tag) as ->.
      { replace (zlen pre + 1 + zlen tag - zlen pre - 1) with (zlen tag) by lia.
        replace (zlen pre + 1) with (zlen (pre ++ [123])) by (rewrite zlen_app; done). subst key l. rewrite <- snoc_app. apply (rdn_app _ tag (125 :: post)). }
      cbn [mbind res_bind]. apply slot_spec. subst key l. by apply Forall_app in Hw as [_ [_ [? _]%Forall_app]%Forall_cons_1].
  - right. rewrite Z.eqb_refl. cbn [orb]. split; [|done].
    intros tag Htag. destruct (hash_tag_first _ _ _ _ Hk Hn Htag) as (p & -> & _). apply Ht. set_solver.
Qed.

(** C32. Keys are mapped to slots by their hash tags: the slot of a key is a
    number below 16384, the 16-bit checksum (XMODEM polynomial) of the text
    between the first opening brace and the first closing brace after it when
    there is one and it is not empty, and of the whole key otherwise.  Keys
    with the same tag share a slot. *)
Theorem keyHashSlot_by_tag key :
  wf_bytes key -> zlen key < 2 ^ 31 ->
  (forall tag, hash_tag key tag -> keyHashSlot key (zlen key) = Ok (slot_of tag)) /\
  ((forall tag, ~ hash_tag key tag) -> keyHashSlot key (zlen key) = Ok (slot_of key)) /\
  (exists slot, keyHashSlot key (zlen key) = Ok slot /\ 0 <= slot < 16384).
Proof.
  intros Hw _. assert (forall s, 0 <= slot_of s < 16384) as Hr by (intros s; apply Z.mod_pos_bound; lia).
  destruct (keyHashSlot_cases key Hw) as [(tag & Ht & He)|[Hno He]]; rewrite He.
  - split; [|split; [intros Hno; by destruct (Hno tag)|eauto]]. intros tag' Ht'. do 2 f_equal.
    destruct Ht as (pre & post & -> & Hn & Hc & Hne). destruct (hash_tag_first _ _ _ _ eq_refl Hn Ht') as (p & Hp & Hc' & _).
    clear -Hp Hc Hc'. revert tag' Hp Hc Hc'. induction tag as [|x tag IH]; intros [|y tag'] Hp Hc Hc'; cbn in Hp; simplify_eq; [done| | |].
    + destruct Hc'. by left.
    + destruct Hc. by left.
    + f_equal. apply not_elem_of_cons in Hc as [_ ?], Hc' as [_ ?]. by apply IH.
  - split; [intros tag Ht; by destruct (Hno tag)|]. split; [done|]. eauto.
Qed.

Lemma keyHashSlot_by_tag_witness :
  keyHashSlot (bytes_of_string "user{1000}.following") 20 = keyHashSlot (bytes_of_string "1000") 4.
Proof.
  destruct (keyHashSlot_by_tag (bytes_of_string "user{1000}.following")) as [Ht _]; [repeat constructor; lia|vm_compute; reflexivity|].
  transitivity (Ok (slot_of (bytes_of_string "1000"))); [|vm_compute; reflexivity]. apply Ht.
  exists (bytes_of_string "user"), (bytes_of_string ".following"). split; [reflexivity|]. cbn. set_solver.
Defined.

End CrcSpec.
