(* ===== verification/Zskiplist.v ===== *)
(** * Skip lists (t_zset.c)

    A sorted set of the skip list encoding keeps its elements in a linked list
    ordered by score and element, with forward pointers at up to 32 levels and
    the number of elements each of them spans.  The nodes live in a heap, a
    finite map from locations to nodes: reading or writing through a location
    that is not allocated, or a level the node does not have, is a fault.

    Scores are IEEE doubles ([spec_float] of the Standard Library, with its
    comparisons and addition for 53 bits of precision); elements are byte
    strings compared as [sdscmp] compares them. *)

From stdpp Require Import gmap fin_maps.
From Stdlib Require Import SpecFloat.
From S2P Require Import Prelude Cstring Dict.
#[local] Open Scope Z_scope.

Module Zskiplist.
Import Cstring Dict.

(** ** Scores *)

Definition double : Type := spec_float.
Definition isnan (x : double) : bool := match x with S754_nan => true | _ => false end.
Definition dlt (x y : double) : bool := SFltb x y.
Definition dle (x y : double) : bool := SFleb x y.
Definition deq (x y : double) : bool := SFeqb x y.
Definition dadd (x y : double) : double := SFadd 53 1024 x y.

(** ** Elements *)

(** [sdscmp] on the contents of two strings. *)
Definition elecmp (a b : bytes) : Z :=
  let l1 := zlen a in
  let l2 := zlen b in
  let minlen := if l1 <? l2 then l1 else l2 in
  let cmp := memcmp (take (Z.to_nat minlen) a) (take (Z.to_nat minlen) b) in
  if cmp =? 0 then (if l2 <? l1 then 1 else if l1 <? l2 then -1 else 0) else cmp.

(** ** Data *)

Definition ZSKIPLIST_MAXLEVEL : nat := 32.
Definition ZSKIPLIST_MAX_SEARCH : Z := 10.

Abbreviation loc := positive.

Record zskiplistLevel : Type := { forward : option loc; span : Z }.

Record zskiplistNode : Type := {
  ele : option bytes;
  score : double;
  backward : option loc;
  levels : list zskiplistLevel
}.

Record zskiplist : Type := {
  header : loc;
  tail : option loc;
  zlength : Z;
  level : nat
}.

Abbreviation heap := (gmap loc zskiplistNode).

Definition set_tail (z : zskiplist) (t : option loc) : zskiplist :=
  {| header := header z; tail := t; zlength := zlength z; level := level z |}.
Definition set_zlength (z : zskiplist) (n : Z) : zskiplist :=
  {| header := header z; tail := tail z; zlength := n; level := level z |}.
Definition set_zlevel (z : zskiplist) (n : nat) : zskiplist :=
  {| header := header z; tail := tail z; zlength := zlength z; level := n |}.

(** ** Accesses *)

(** [*x] *)
Definition node (h : heap) (x : loc) : res zskiplistNode :=
  match h !! x with Some n => Ok n | None => Fault OutOfBounds end.

(** [*x] for a pointer that must not be NULL *)
Definition deref (x : option loc) : res loc :=
  match x with Some x => Ok x | None => Fault OutOfBounds end.

(** [a[i]] *)
Definition nth_ {A} (a : list A) (i : nat) : res A :=
  match a !! i with Some v => Ok v | None => Fault OutOfBounds end.

(** [x->level[i]] *)
Definition level_at (h : heap) (x : loc) (i : nat) : res zskiplistLevel :=
  n ← node h x; nth_ (levels n) i.

Definition with_levels (n : zskiplistNode) (l : list zskiplistLevel) : zskiplistNode :=
  {| ele := ele n; score := score n; backward := backward n; levels := l |}.

Definition put_level (h : heap) (x : loc) (i : nat) (v : zskiplistLevel) : res heap :=
  n ← node h x;
  _ ← nth_ (levels n) i;
  Ok (<[x := with_levels n (<[i := v]> (levels n))]> h).

(** [x->level[i].forward = f] *)
Definition set_forward (h : heap) (x : loc) (i : nat) (f : option loc) : res heap :=
  v ← level_at h x i; put_level h x i {| forward := f; span := span v |}.

(** [x->level[i].span = s] *)
Definition set_span (h : heap) (x : loc) (i : nat) (s : Z) : res heap :=
  v ← level_at h x i; put_level h x i {| forward := forward v; span := s |}.

(** [x->backward = b] *)
Definition set_backward (h : heap) (x : loc) (b : option loc) : res heap :=
  n ← node h x;
  Ok (<[x := {| ele := ele n; score := score n; backward := b; levels := levels n |}]> h).

(** [x->score = s] *)
Definition set_score (h : heap) (x : loc) (s : double) : res heap :=
  n ← node h x;
  Ok (<[x := {| ele := ele n; score := s; backward := backward n; levels := levels n |}]> h).

(** [for (i = from; i < from + n; i++)] *)
Fixpoint for_up {S} (n from : nat) (body : nat -> S -> res S) (s : S) : res S :=
  match n with
  | O => Ok s
  | S n => s ← body from s; for_up n (Datatypes.S from) body s
  end.

(** [x->ele], which must not be NULL *)
Definition ele_of (n : zskiplistNode) : res bytes :=
  match ele n with Some e => Ok e | None => Fault OutOfBounds end.

(** ** Creation *)

Section with_junk.

(** What a fresh allocation holds before it is written. *)
Context (junk_backward : option loc) (junk_level : nat -> zskiplistLevel).

Definition zslCreateNode (h : heap) (lv : nat) (sc : double) (e : option bytes) : heap * loc :=
  let x := fresh (dom h) in
  (<[x := {| ele := e; score := sc; backward := junk_backward; levels := junk_level <$> seq 0 lv |}]> h, x).

Definition zslCreate (h : heap) : res (heap * zskiplist) :=
  let '(h, x) := zslCreateNode h ZSKIPLIST_MAXLEVEL (S754_zero false) None in
  h ← for_up ZSKIPLIST_MAXLEVEL 0 (fun j h => h ← set_forward h x j None; set_span h x j 0) h;
  h ← set_backward h x None;
  Ok (h, {| header := x; tail := None; zlength := 0; level := 1 |}).

(** [zfree]: releasing what is not allocated is a fault. *)
Definition zslFreeNode (h : heap) (x : loc) : res heap :=
  _ ← node h x; Ok (delete x h).

Fixpoint free_loop (fuel : nat) (h : heap) (x : option loc) : res heap :=
  match x with
  | None => Ok h
  | Some x =>
    match fuel with
    | O => Fault OutOfFuel
    | S fuel =>
      v ← level_at h x 0;
      h ← zslFreeNode h x;
      free_loop fuel h (forward v)
    end
  end.

Definition zslFree (h : heap) (zsl : zskiplist) : res heap :=
  v ← level_at h (header zsl) 0;
  h ← zslFreeNode h (header zsl);
  free_loop (size h) h (forward v).

(** [random() < ZSKIPLIST_P*RAND_MAX], the product converted to [int]; the
    numbers drawn are a list that ends the loop before it is used up. *)
Definition threshold : Z := 536870911.

Fixpoint random_loop (draws : list Z) (lv : nat) : res nat :=
  match draws with
  | [] => Fault OutOfFuel
  | r :: draws => if r <? threshold then random_loop draws (lv + 1) else Ok lv
  end.

Definition zslRandomLevel (draws : list Z) : res nat :=
  lv ← random_loop draws 1;
  Ok (if (lv <? ZSKIPLIST_MAXLEVEL)%nat then lv else ZSKIPLIST_MAXLEVEL).

(** ** Searching *)

(** [while (x->level[i].forward && cond) { rank += x->level[i].span; x = x->level[i].forward; }]
    where the condition looks at the rank so far, the span and the next node. *)
Fixpoint walk (fuel : nat) (h : heap) (cond : Z -> Z -> zskiplistNode -> res bool) (i : nat) (x : loc) (rank : Z)
  : res (loc * Z) :=
  match fuel with
  | O => Fault OutOfFuel
  | S fuel =>
    v ← level_at h x i;
    match forward v with
    | None => Ok (x, rank)
    | Some y =>
      n ← node h y;
      b ← cond rank (span v) n;
      if b : bool then walk fuel h cond i y (u64 (rank + span v)) else Ok (x, rank)
    end
  end.

(** [for (i = n - 1; i >= 0; i--) { ...; update[i] = x; }]: where the walk at
    each level stopped, and the rank there. *)
Fixpoint descend (h : heap) (cond : Z -> Z -> zskiplistNode -> res bool) (n : nat) (x : loc) (rank : Z)
  : res (list (loc * Z)) :=
  match n with
  | O => Ok []
  | S i =>
    r ← walk (size h) h cond i x rank;
    rest ← descend h cond i (fst r) (snd r);
    Ok (rest ++ [r])
  end.

(** The node after the search: [update[0]]. *)
Definition stopped (u : list (loc * Z)) (x : loc) : loc :=
  match u with (y, _) :: _ => y | [] => x end.

(** [n->score < score || (n->score == score && sdscmp(n->ele,ele) < 0)] *)
Definition before (sc : double) (e : bytes) (n : zskiplistNode) : res bool :=
  if dlt (score n) sc then Ok true else
  if deq (score n) sc then b ← ele_of n; Ok (elecmp b e <? 0) else Ok false.

(** the same with [<= 0] *)
Definition before_or_at (sc : double) (e : bytes) (n : zskiplistNode) : res bool :=
  if dlt (score n) sc then Ok true else
  if deq (score n) sc then b ← ele_of n; Ok (elecmp b e <=? 0) else Ok false.

(** ** Insertion *)

(** [for (i = zsl->level; i < level; i++)] of the levels the new node adds. *)
Definition raise_levels (h : heap) (zsl : zskiplist) (lv : nat) (u : list (loc * Z))
  : res (heap * zskiplist * list (loc * Z)) :=
  if (level zsl <? lv)%nat then
    h ← for_up (lv - level zsl) (level zsl) (fun i h => set_span h (header zsl) i (zlength zsl)) h;
    Ok (h, set_zlevel zsl lv, u ++ replicate (lv - level zsl) (header zsl, 0))
  else Ok (h, zsl, u).

(** One level of the new node [x]. *)
Definition link_level (x : loc) (u : list (loc * Z)) (rank0 : Z) (i : nat) (h : heap) : res heap :=
  ur ← nth_ u i;
  v ← level_at h (fst ur) i;
  h ← set_forward h x i (forward v);
  h ← set_forward h (fst ur) i (Some x);
  v ← level_at h (fst ur) i;
  h ← set_span h x i (u64 (span v - u64 (rank0 - snd ur)));
  set_span h (fst ur) i (u64 (u64 (rank0 - snd ur) + 1)).

(** [update[i]->level[i].span++] *)
Definition bump_level (u : list (loc * Z)) (i : nat) (h : heap) : res heap :=
  ur ← nth_ u i;
  v ← level_at h (fst ur) i;
  set_span h (fst ur) i (u64 (span v + 1)).

(** The part of [zslInsert] that puts the new node [x] into the list. *)
Definition link_node (h : heap) (zsl : zskiplist) (x : loc) (lv : nat) (u : list (loc * Z)) : res (heap * zskiplist) :=
  u0 ← nth_ u 0;
  h ← for_up lv 0 (link_level x u (snd u0)) h;
  h ← for_up (level zsl - lv) lv (bump_level u) h;
  h ← set_backward h x (if decide (fst u0 = header zsl) then None else Some (fst u0));
  v ← level_at h x 0;
  r ← match forward v with
      | Some y => h ← set_backward h y (Some x); Ok (h, zsl)
      | None => Ok (h, set_tail zsl (Some x))
      end;
  Ok (fst r, set_zlength (snd r) (u64 (zlength (snd r) + 1))).

Definition zslInsert (h : heap) (zsl : zskiplist) (sc : double) (e : bytes) (draws : list Z)
  : res (heap * zskiplist * loc) :=
  _ ← cassert (negb (isnan sc));
  u ← descend h (fun _ _ n => before sc e n) (level zsl) (header zsl) 0;
  lv ← zslRandomLevel draws;
  '(h, zsl, u) ← raise_levels h zsl lv u;
  let '(h, x) := zslCreateNode h lv sc (Some e) in
  r ← link_node h zsl x lv u;
  Ok (fst r, snd r, x).

(** ** Deletion *)

(** One level of [zslDeleteNode]. *)
Definition unlink_level (x : loc) (u : list loc) (i : nat) (h : heap) : res heap :=
  y ← nth_ u i;
  v ← level_at h y i;
  if decide (forward v = Some x) then
    w ← level_at h x i;
    h ← set_span h y i (u64 (span v + u64 (span w - 1)));
    w ← level_at h x i;
    set_forward h y i (forward w)
  else set_span h y i (u64 (span v - 1)).

(** [while (zsl->level > 1 && zsl->header->level[zsl->level-1].forward == NULL) zsl->level--;] *)
Fixpoint drop_levels (h : heap) (x : loc) (lv : nat) : res nat :=
  match lv with
  | S (S _ as i) => v ← level_at h x i; match forward v with None => drop_levels h x i | Some _ => Ok lv end
  | _ => Ok lv
  end.

Definition zslDeleteNode (h : heap) (zsl : zskiplist) (x : loc) (u : list loc) : res (heap * zskiplist) :=
  h ← for_up (level zsl) 0 (unlink_level x u) h;
  v ← level_at h x 0;
  n ← node h x;
  r ← match forward v with
      | Some y => h ← set_backward h y (backward n); Ok (h, zsl)
      | None => Ok (h, set_tail zsl (backward n))
      end;
  lv ← drop_levels (fst r) (header zsl) (level zsl);
  Ok (fst r, set_zlength (set_zlevel (snd r) lv) (u64 (zlength zsl - 1))).

(** [score == x->score && sdscmp(x->ele,ele) == 0] *)
Definition is_at (sc : double) (e : bytes) (n : zskiplistNode) : res bool :=
  if deq sc (score n) then b ← ele_of n; Ok (elecmp b e =? 0) else Ok false.

(** The result is the deleted node, which is kept when [keep] (the caller
    passes a pointer for it) and freed otherwise. *)
Definition zslDelete (h : heap) (zsl : zskiplist) (sc : double) (e : bytes) (keep : bool)
  : res (heap * zskiplist * option loc) :=
  u ← descend h (fun _ _ n => before sc e n) (level zsl) (header zsl) 0;
  v ← level_at h (stopped u (header zsl)) 0;
  match forward v with
  | None => Ok (h, zsl, None)
  | Some x =>
    n ← node h x;
    b ← is_at sc e n;
    if b : bool then
      '(h, zsl) ← zslDeleteNode h zsl x u.*1;
      if keep then Ok (h, zsl, Some x) else h ← zslFreeNode h x; Ok (h, zsl, Some x)
    else Ok (h, zsl, None)
  end.

Definition zslUpdateScore (h : heap) (zsl : zskiplist) (curscore : double) (e : bytes) (newscore : double)
  (draws : list Z) : res (heap * zskiplist * loc) :=
  u ← descend h (fun _ _ n => before curscore e n) (level zsl) (header zsl) 0;
  v ← level_at h (stopped u (header zsl)) 0;
  x ← match forward v with Some x => Ok x | None => Fault AssertFailed end;
  n ← node h x;
  b ← is_at curscore e n;
  _ ← cassert b;
  after_prev ← match backward n with
               | None => Ok true
               | Some y => p ← node h y; Ok (dlt (score p) newscore)
               end;
  in_place ← (if after_prev : bool then
                w ← nth_ (levels n) 0;
                match forward w with
                | None => Ok true
                | Some y => p ← node h y; Ok (dlt newscore (score p))
                end
              else Ok false);
  if in_place : bool then
    h ← set_score h x newscore;
    Ok (h, zsl, x)
  else
    '(h, zsl) ← zslDeleteNode h zsl x u.*1;
    e ← ele_of n;
    '(h, zsl, y) ← zslInsert h zsl newscore e draws;
    h ← zslFreeNode h x;
    Ok (h, zsl, y).

End with_junk.

(** ** Ranges *)

Record zrangespec : Type := { min : double; max : double; minex : bool; maxex : bool }.

Definition zslValueGteMin (value : double) (spec : zrangespec) : bool :=
  if minex spec then dlt (min spec) value else dle (min spec) value.

Definition zslValueLteMax (value : double) (spec : zrangespec) : bool :=
  if maxex spec then dlt value (max spec) else dle value (max spec).

(** A bound of a lexicographic range: [shared.minstring], [shared.maxstring] or
    another string. *)
Inductive lexbound : Type := MinString | MaxString | Str (s : bytes).

Record zlexrangespec : Type := { lmin : lexbound; lmax : lexbound; lminex : bool; lmaxex : bool }.

Definition sdscmplex (a b : lexbound) : Z :=
  match a, b with
  | MinString, MinString | MaxString, MaxString => 0
  | MinString, _ | _, MaxString => -1
  | MaxString, _ | _, MinString => 1
  | Str a, Str b => elecmp a b
  end.

Definition zslLexValueGteMin (value : bytes) (spec : zlexrangespec) : bool :=
  if lminex spec then 0 <? sdscmplex (Str value) (lmin spec) else 0 <=? sdscmplex (Str value) (lmin spec).

Definition zslLexValueLteMax (value : bytes) (spec : zlexrangespec) : bool :=
  if lmaxex spec then sdscmplex (Str value) (lmax spec) <? 0 else sdscmplex (Str value) (lmax spec) <=? 0.

(** A bound as its first byte says; [None] is [C_ERR], and the flag is [*ex]. *)
Definition zslParseLexRangeItem (item : bytes) : option (lexbound * bool) :=
  match item with
  | 43 :: rest => match rest with [] => Some (MaxString, true) | c :: _ => if c =? 0 then Some (MaxString, true) else None end
  | 45 :: rest => match rest with [] => Some (MinString, true) | c :: _ => if c =? 0 then Some (MinString, true) else None end
  | 40 :: rest => Some (Str rest, true)
  | 91 :: rest => Some (Str rest, false)
  | _ => None
  end.

(** An integer-encoded object ([None]) is refused. *)
Definition zslParseLexRange (min max : option bytes) : option zlexrangespec :=
  match min, max with
  | Some min, Some max =>
    match zslParseLexRangeItem min, zslParseLexRangeItem max with
    | Some (a, aex), Some (b, bex) => Some {| lmin := a; lmax := b; lminex := aex; lmaxex := bex |}
    | _, _ => None
    end
  | _, _ => None
  end.

(** ** Ranks *)

Fixpoint rank_loop (h : heap) (sc : double) (e : bytes) (n : nat) (x : loc) (rank : Z) : res Z :=
  match n with
  | O => Ok 0
  | S i =>
    r ← walk (size h) h (fun _ _ n => before_or_at sc e n) i x rank;
    y ← node h (fst r);
    b ← match ele y with None => Ok false | Some b => Ok (deq (score y) sc && (elecmp b e =? 0)) end;
    if b : bool then Ok (snd r) else rank_loop h sc e i (fst r) (snd r)
  end.

Definition zslGetRank (h : heap) (zsl : zskiplist) (sc : double) (e : bytes) : res Z :=
  rank_loop h sc e (level zsl) (header zsl) 0.

(** [for (i = start_level; i >= 0; i--)] with [start_level = n - 1] *)
Fixpoint zslGetElementByRankFromNode (h : heap) (n : nat) (x : loc) (traversed rank : Z) : res (option loc) :=
  match n with
  | O => Ok None
  | S i =>
    r ← walk (size h) h (fun traversed span _ => Ok (u64 (traversed + span) <=? rank)) i x traversed;
    if snd r =? rank then Ok (Some (fst r)) else zslGetElementByRankFromNode h i (fst r) (snd r) rank
  end.

Definition zslGetElementByRank (h : heap) (zsl : zskiplist) (rank : Z) : res (option loc) :=
  zslGetElementByRankFromNode h (level zsl) (header zsl) 0 rank.

(** ** The n-th element of a range *)

(** [for (i = 0; i < n; i++) x = x->level[0].forward;] *)
Fixpoint steps_forward (h : heap) (n : nat) (x : option loc) : res (option loc) :=
  match n with
  | O => Ok x
  | S n => x ← deref x; v ← level_at h x 0; steps_forward h n (forward v)
  end.

(** [for (i = 0; i < n; i++) x = x->backward;] *)
Fixpoint steps_backward (h : heap) (n : nat) (x : option loc) : res (option loc) :=
  match n with
  | O => Ok x
  | S n => x ← deref x; v ← node h x; steps_backward h n (backward v)
  end.

(** [zslIsInRange] and [zslIsInLexRange] after the test for empty ranges, and
    [zslNthInRange] and [zslNthInLexRange], which have the same text: [gte] and
    [lte] are the tests of a node against the two ends. *)
Section range.
Context (gte lte : zskiplistNode -> res bool).

Definition ends_in_range (h : heap) (zsl : zskiplist) : res bool :=
  match tail zsl with
  | None => Ok false
  | Some x =>
    n ← node h x;
    b ← gte n;
    if negb b then Ok false else
    v ← level_at h (header zsl) 0;
    match forward v with
    | None => Ok false
    | Some x => n ← node h x; lte n
    end
  end.

(** [if (x && !lte(x)) return NULL; return x;] *)
Definition unless_out (test : zskiplistNode -> res bool) (h : heap) (x : option loc) : res (option loc) :=
  match x with
  | None => Ok None
  | Some y => n ← node h y; b ← test n; Ok (if b : bool then Some y else None)
  end.

Definition nth_in_range (h : heap) (zsl : zskiplist) (in_range : bool) (n : Z) : res (option loc) :=
  if negb in_range then Ok None else
  let out _ _ nd := b ← gte nd; Ok (negb b) in
  let top := (level zsl - 1)%nat in
  last ← walk (size h) h out top (header zsl) 0;
  if 0 <=? n then
    u ← descend h out top (fst last) (snd last);
    let x := stopped u (fst last) in
    let edge_rank := i64 (match u with (_, r) :: _ => r | [] => snd last end) in
    if zlength zsl <=? u64 (i64 (edge_rank + n)) then Ok None else
    x ← (if n <? ZSKIPLIST_MAX_SEARCH then steps_forward h (Z.to_nat (n + 1)) (Some x)
         else zslGetElementByRankFromNode h (level zsl) (fst last) 0 (u64 (edge_rank + 1 + n - i64 (snd last))));
    unless_out lte h x
  else
    u ← descend h (fun _ _ nd => lte nd) (level zsl) (fst last) (snd last);
    let x := stopped u (fst last) in
    let edge_rank := i64 (match u with (_, r) :: _ => r | [] => snd last end) in
    if edge_rank <? - n then Ok None else
    x ← (if - ZSKIPLIST_MAX_SEARCH <? n + 1 then steps_backward h (Z.to_nat (- n - 1)) (Some x)
         else zslGetElementByRankFromNode h (level zsl) (fst last) 0 (u64 (edge_rank + 1 + n - i64 (snd last))));
    unless_out gte h x.

End range.

Definition zslIsInRange (h : heap) (zsl : zskiplist) (range : zrangespec) : res bool :=
  if dlt (max range) (min range) || (deq (min range) (max range) && (minex range || maxex range)) then Ok false else
  ends_in_range (fun n => Ok (zslValueGteMin (score n) range)) (fun n => Ok (zslValueLteMax (score n) range)) h zsl.

Definition zslNthInRange (h : heap) (zsl : zskiplist) (range : zrangespec) (n : Z) : res (option loc) :=
  b ← zslIsInRange h zsl range;
  nth_in_range (fun n => Ok (zslValueGteMin (score n) range)) (fun n => Ok (zslValueLteMax (score n) range)) h zsl b n.

Definition lex_gte (range : zlexrangespec) (n : zskiplistNode) : res bool :=
  e ← ele_of n; Ok (zslLexValueGteMin e range).
Definition lex_lte (range : zlexrangespec) (n : zskiplistNode) : res bool :=
  e ← ele_of n; Ok (zslLexValueLteMax e range).

Definition zslIsInLexRange (h : heap) (zsl : zskiplist) (range : zlexrangespec) : res bool :=
  let cmp := sdscmplex (lmin range) (lmax range) in
  if (0 <? cmp) || ((cmp =? 0) && (lminex range || lmaxex range)) then Ok false else
  ends_in_range (lex_gte range) (lex_lte range) h zsl.

Definition zslNthInLexRange (h : heap) (zsl : zskiplist) (range : zlexrangespec) (n : Z) : res (option loc) :=
  b ← zslIsInLexRange h zsl range;
  nth_in_range (lex_gte range) (lex_lte range) h zsl b n.

(** ** Deleting ranges *)

Section with_dict.

(** The dict of the sorted set: a value is the node that holds the score. *)
Context (ty : @dictType bytes) (can : dictResizeEnable).
#[local] Abbreviation zdict := (@dict bytes loc).

(** [while (x && cond) { next; zslDeleteNode; dictDelete; zslFreeNode; removed++; traversed++; x = next; }] *)
Fixpoint delete_while (fuel : nat) (h : heap) (zsl : zskiplist) (d : zdict) (u : list loc)
  (cond : Z -> zskiplistNode -> res bool) (x : option loc) (traversed removed : Z)
  : res (heap * zskiplist * zdict * Z) :=
  match x with
  | None => Ok (h, zsl, d, removed)
  | Some x =>
    n ← node h x;
    b ← cond traversed n;
    if b : bool then
      match fuel with
      | O => Fault OutOfFuel
      | S fuel =>
        v ← nth_ (levels n) 0;
        '(h, zsl) ← zslDeleteNode h zsl x u;
        e ← ele_of n;
        r ← dictDelete ty can d e;
        h ← zslFreeNode h x;
        delete_while fuel h zsl (fst r) u cond (forward v) (u64 (traversed + 1)) (u64 (removed + 1))
      end
    else Ok (h, zsl, d, removed)
  end.

(** The search before it and the loop, with [stop] for the search. *)
Definition delete_range (h : heap) (zsl : zskiplist) (d : zdict) (stop : Z -> Z -> zskiplistNode -> res bool)
  (cond : Z -> zskiplistNode -> res bool) : res (heap * zskiplist * zdict * Z) :=
  u ← descend h stop (level zsl) (header zsl) 0;
  v ← level_at h (stopped u (header zsl)) 0;
  let traversed := match u with (_, r) :: _ => r | [] => 0 end in
  delete_while (size h) h zsl d u.*1 cond (forward v) (u64 (traversed + 1)) 0.

Definition zslDeleteRangeByScore (h : heap) (zsl : zskiplist) (range : zrangespec) (d : zdict) :=
  delete_range h zsl d (fun _ _ n => Ok (negb (zslValueGteMin (score n) range)))
    (fun _ n => Ok (zslValueLteMax (score n) range)).

Definition zslDeleteRangeByLex (h : heap) (zsl : zskiplist) (range : zlexrangespec) (d : zdict) :=
  delete_range h zsl d (fun _ _ n => b ← lex_gte range n; Ok (negb b)) (fun _ n => lex_lte range n).

Definition zslDeleteRangeByRank (h : heap) (zsl : zskiplist) (start stop : Z) (d : zdict) :=
  delete_range h zsl d (fun traversed span _ => Ok (u64 (traversed + span) <? start))
    (fun traversed _ => Ok (traversed <=? stop)).

End with_dict.
End Zskiplist.
