(* ===== verification/ZskiplistOrder.v ===== *)
(** * Skip lists: the order of the elements.

    Comparisons of doubles that are not NaN form a total preorder in which the
    two zeros are equal; [sdscmp] is a total order on strings; elements of a
    sorted set are ordered by score and then by string. *)

From Stdlib Require Import SpecFloat Sorting.Sorted.
From S2P Require Import Prelude Cstring Sds SdsTheory Zskiplist.
From stdpp Require Import list gmap fin_maps.
#[local] Open Scope Z_scope.

Module ZskiplistOrder.
Import Zskiplist.

(** ** Doubles *)

(** A number that is not NaN as a triple in lexicographic order. *)
Definition dkey (x : double) : Z * Z * Z :=
  match x with
  | S754_infinity s => (if s then -2 else 2, 0, 0)
  | S754_nan | S754_zero _ => (0, 0, 0)
  | S754_finite true m e => (-1, - e, - Zpos m)
  | S754_finite false m e => (1, e, Zpos m)
  end.

Definition key_lt (a b : Z * Z * Z) : Prop :=
  let '(a1, a2, a3) := a in
  let '(b1, b2, b3) := b in
  a1 < b1 \/ a1 = b1 /\ (a2 < b2 \/ a2 = b2 /\ a3 < b3).

Lemma compare_key x y :
  isnan x = false -> isnan y = false ->
  match SFcompare x y with
  | Some Lt => key_lt (dkey x) (dkey y)
  | Some Eq => dkey x = dkey y
  | Some Gt => key_lt (dkey y) (dkey x)
  | None => False
  end.
Proof.
  intros Hx Hy. destruct x as [[]|[]| |s m e], y as [[]|[]| |t m' e']; try done; try (left; cbn; lia);
    try (destruct s; left; cbn; lia); try (destruct t; left; cbn; lia).
  destruct s, t; try (left; cbn; lia); cbn; change (Pos.compare_cont Eq m m') with (Pos.compare m m').
  - destruct (Z.compare_spec e e') as [->|?|?]; try (right; split; [done|]; left; lia).
    destruct (Pos.compare_spec m m') as [->|?|?]; cbn; [done|right; split; [done|]; right; lia..].
  - destruct (Z.compare_spec e e') as [->|?|?]; try (right; split; [done|]; left; lia).
    destruct (Pos.compare_spec m m') as [->|?|?]; cbn; [done|right; split; [done|]; right; lia..].
Qed.

Lemma key_lt_trans a b c : key_lt a b -> key_lt b c -> key_lt a c.
Proof. destruct a as [[]], b as [[]], c as [[]]. cbn. lia. Qed.

Lemma key_lt_irrefl a : ~ key_lt a a.
Proof. destruct a as [[]]. cbn. lia. Qed.

Lemma dlt_key x y : isnan x = false -> isnan y = false -> dlt x y = true <-> key_lt (dkey x) (dkey y).
Proof.
  intros Hx Hy. unfold dlt, SFltb. pose proof (compare_key x y Hx Hy) as H. destruct (SFcompare x y) as [[]|]; try done.
  - rewrite H. split; [done|]. by intros ?%key_lt_irrefl.
  - split; [done|]. intros H'. by destruct (key_lt_irrefl _ (key_lt_trans _ _ _ H H')).
Qed.

Lemma deq_key x y : isnan x = false -> isnan y = false -> deq x y = true <-> dkey x = dkey y.
Proof.
  intros Hx Hy. unfold deq, SFeqb. pose proof (compare_key x y Hx Hy) as H. destruct (SFcompare x y) as [[]|]; try done.
  all: split; [done|]; intros E; rewrite E in H; by apply key_lt_irrefl in H.
Qed.

Lemma dle_key x y : isnan x = false -> isnan y = false -> dle x y = true <-> ~ key_lt (dkey y) (dkey x).
Proof.
  intros Hx Hy. unfold dle, SFleb. pose proof (compare_key x y Hx Hy) as H. destruct (SFcompare x y) as [[]|]; try done.
  - rewrite H. split; [|done]. intros _. apply key_lt_irrefl.
  - split; [|done]. intros _ H'. by destruct (key_lt_irrefl _ (key_lt_trans _ _ _ H H')).
Qed.

Lemma key_total a b : key_lt a b \/ a = b \/ key_lt b a.
Proof.
  destruct a as [[a1 a2] a3], b as [[b1 b2] b3]. cbn.
  destruct (Z.lt_trichotomy a1 b1) as [?|[->|?]]; [tauto| |tauto].
  destruct (Z.lt_trichotomy a2 b2) as [?|[->|?]]; [tauto| |tauto].
  destruct (Z.lt_trichotomy a3 b3) as [?|[->|?]]; tauto.
Qed.

(** Comparisons with NaN are false. *)
Lemma dlt_nan x y : dlt x y = true -> isnan x = false /\ isnan y = false.
Proof. unfold dlt, SFltb. by destruct x as [[]|[]| |[]], y as [[]|[]| |[]]. Qed.

Lemma deq_nan x y : deq x y = true -> isnan x = false /\ isnan y = false.
Proof. unfold deq, SFeqb. by destruct x as [[]|[]| |[]], y as [[]|[]| |[]]. Qed.

Lemma dle_nan x y : dle x y = true -> isnan x = false /\ isnan y = false.
Proof. unfold dle, SFleb. by destruct x as [[]|[]| |[]], y as [[]|[]| |[]]. Qed.

(** ** Strings *)

Lemma elecmp_lex a b : Z.sgn (elecmp a b) = SdsTheory.sign_of (SdsTheory.lex a b).
Proof.
  rewrite <- SdsTheory.memcmp_lex. cbn zeta. unfold elecmp.
  replace (Z.to_nat (if zlen a <? zlen b then zlen a else zlen b)) with (Nat.min (length a) (length b)); [done|].
  destruct (Z.ltb_spec (zlen a) (zlen b)); unfold zlen in *; lia.
Qed.

(** [elecmp] is what [sdscmp] returns for strings with these contents. *)
Lemma sdscmp_elecmp s1 l1 s2 l2 :
  SdsTheory.repr s1 l1 -> SdsTheory.repr s2 l2 -> exists c, Sds.sdscmp s1 s2 = Ok c /\ Z.sgn c = Z.sgn (elecmp l1 l2).
Proof.
  intros H1 H2. destruct (SdsTheory.sdscmp_spec s1 l1 s2 l2 H1 H2) as (c & E & Hc). exists c. split; [done|].
  by rewrite elecmp_lex.
Qed.

Lemma lex_eq a b : SdsTheory.lex a b = Eq <-> a = b.
Proof.
  revert b. induction a as [|x a IH]; intros [|y b]; try done. cbn.
  destruct (Z.compare_spec x y) as [->|?|?]; [rewrite IH; split; [by intros ->|congruence]|..]; (split; [done|]); intros [= -> ->]; lia.
Qed.

Lemma lex_opp a b : SdsTheory.lex b a = CompOpp (SdsTheory.lex a b).
Proof.
  revert b. induction a as [|x a IH]; intros [|y b]; try done. cbn. rewrite (Z.compare_antisym x y).
  destruct (Z.compare_spec x y); cbn; done.
Qed.

Lemma lex_trans a b c : SdsTheory.lex a b = Lt -> SdsTheory.lex b c = Lt -> SdsTheory.lex a c = Lt.
Proof.
  revert b c. induction a as [|x a IH]; intros [|y b] [|z c]; try done. cbn.
  destruct (Z.compare_spec x y) as [->|?|?]; [|intros _|done].
  - destruct (y ?= z); [apply IH|done..].
  - destruct (Z.compare_spec y z) as [->|?|?]; [|intros _|done].
    + intros _. by rewrite (proj2 (Z.compare_lt_iff x z)).
    + rewrite (proj2 (Z.compare_lt_iff x z)); [done|lia].
Qed.

Lemma elecmp_lt a b : elecmp a b < 0 <-> SdsTheory.lex a b = Lt.
Proof. pose proof (elecmp_lex a b) as H. destruct (SdsTheory.lex a b); cbn in H; (split; [try done; lia|]); intros; done || lia. Qed.

Lemma elecmp_zero a b : elecmp a b = 0 <-> a = b.
Proof.
  rewrite <- lex_eq. pose proof (elecmp_lex a b) as H. destruct (SdsTheory.lex a b); cbn in H; (split; [try done; lia|]); intros; done || lia.
Qed.

Lemma elecmp_gt a b : 0 < elecmp a b <-> elecmp b a < 0.
Proof.
  pose proof (elecmp_lex a b) as H. pose proof (elecmp_lex b a) as H'. rewrite lex_opp in H'.
  destruct (SdsTheory.lex a b); cbn in H, H'; lia.
Qed.

Lemma elecmp_trans a b c : elecmp a b < 0 -> elecmp b c < 0 -> elecmp a c < 0.
Proof. rewrite !elecmp_lt. apply lex_trans. Qed.
(** ** Items: a score and an element *)

Definition item : Type := double * bytes.

Definition ilt (a b : item) : bool := dlt a.1 b.1 || (deq a.1 b.1 && (elecmp a.2 b.2 <? 0)).
Definition ile (a b : item) : bool := dlt a.1 b.1 || (deq a.1 b.1 && (elecmp a.2 b.2 <=? 0)).

Definition is_number (a : item) : Prop := isnan a.1 = false.

Lemma ilt_spec a b : ilt a b = true <->
  is_number a /\ is_number b /\ (key_lt (dkey a.1) (dkey b.1) \/ dkey a.1 = dkey b.1 /\ elecmp a.2 b.2 < 0).
Proof.
  unfold ilt, is_number. rewrite orb_true_iff, andb_true_iff, Z.ltb_lt. split.
  - intros [H|[H H2]]; [pose proof (dlt_nan _ _ H) as [? ?]|pose proof (deq_nan _ _ H) as [? ?]]; (split; [done|]); (split; [done|]).
    + left. by apply dlt_key.
    + right. split; [|done]. by apply deq_key.
  - intros (Ha & Hb & [H|[H H2]]); [left; by apply dlt_key|right; split; [by apply deq_key|done]].
Qed.

Lemma ile_spec a b : ile a b = true <->
  is_number a /\ is_number b /\ (key_lt (dkey a.1) (dkey b.1) \/ dkey a.1 = dkey b.1 /\ elecmp a.2 b.2 <= 0).
Proof.
  unfold ile, is_number. rewrite orb_true_iff, andb_true_iff, Z.leb_le. split.
  - intros [H|[H H2]]; [pose proof (dlt_nan _ _ H) as [? ?]|pose proof (deq_nan _ _ H) as [? ?]]; (split; [done|]); (split; [done|]).
    + left. by apply dlt_key.
    + right. split; [|done]. by apply deq_key.
  - intros (Ha & Hb & [H|[H H2]]); [left; by apply dlt_key|right; split; [by apply deq_key|done]].
Qed.

Lemma ilt_trans a b c : ilt a b = true -> ilt b c = true -> ilt a c = true.
Proof.
  rewrite !ilt_spec. intros (Ha & _ & H1) (_ & Hc & H2). split; [done|]. split; [done|].
  destruct H1 as [H1|[-> H1]], H2 as [H2|[E2 H2]]; rewrite <- ?E2; eauto using key_lt_trans, elecmp_trans.
Qed.

Lemma ilt_ile_trans a b c : ilt a b = true -> ile b c = true -> ile a c = true.
Proof.
  rewrite ilt_spec, !ile_spec. intros (Ha & _ & H1) (_ & Hc & H2). split; [done|]. split; [done|].
  destruct H1 as [H1|[-> H1]], H2 as [H2|[E2 H2]]; rewrite <- ?E2; eauto using key_lt_trans.
  right. split; [done|]. destruct (Z.eq_dec (elecmp b.2 c.2) 0) as [Hz|?].
  - apply elecmp_zero in Hz. rewrite <- Hz. lia.
  - assert (elecmp a.2 c.2 < 0); [|lia]. apply (elecmp_trans _ b.2); lia.
Qed.

Lemma ilt_irrefl a : ilt a a = false.
Proof.
  apply not_true_iff_false. rewrite ilt_spec. intros (_ & _ & [H|[_ H]]); [by apply key_lt_irrefl in H|].
  rewrite (proj2 (elecmp_zero a.2 a.2)) in H; [lia|done].
Qed.

Lemma ilt_asym a b : ilt a b = true -> ilt b a = false.
Proof. intros H. apply not_true_iff_false. intros H'. pose proof (ilt_trans a b a H H') as E. by rewrite ilt_irrefl in E. Qed.

(** Equal up to the sign of a zero score. *)
Definition same (a b : item) : bool := deq a.1 b.1 && (elecmp a.2 b.2 =? 0).

Lemma ilt_total a b : is_number a -> is_number b -> ilt a b = false -> same a b = false -> ilt b a = true.
Proof.
  intros Ha Hb. rewrite <- !not_true_iff_false, !ilt_spec. unfold same. rewrite andb_true_iff, (deq_key a.1 b.1) by done.
  rewrite Z.eqb_eq. intros H1 H2. split; [done|]. split; [done|].
  destruct (key_total (dkey a.1) (dkey b.1)) as [H|[H|H]]; [tauto| |tauto].
  right. split; [done|]. apply elecmp_gt. destruct (Z.lt_trichotomy (elecmp a.2 b.2) 0) as [?|[?|?]]; tauto.
Qed.

Lemma ile_same a b : ile a b = ilt a b || same a b.
Proof.
  unfold ile, ilt, same. destruct (dlt a.1 b.1); [done|]. cbn. destruct (deq a.1 b.1); [|done]. cbn.
  destruct (Z.leb_spec (elecmp a.2 b.2) 0), (Z.ltb_spec (elecmp a.2 b.2) 0), (Z.eqb_spec (elecmp a.2 b.2) 0); done || lia.
Qed.

Lemma same_eq a b : same a b = true -> a.2 = b.2.
Proof. unfold same. rewrite andb_true_iff, Z.eqb_eq, elecmp_zero. tauto. Qed.

(** ** Sorted lists *)

Definition sorted (l : list item) : Prop := StronglySorted (fun a b => ilt a b = true) l.

(** A predicate that holds on a prefix of every sorted list. *)
Definition downward (p : item -> bool) : Prop := forall a b, ilt a b = true -> p b = true -> p a = true.

Lemma sorted_cons a l : sorted (a :: l) <-> Forall (fun b => ilt a b = true) l /\ sorted l.
Proof. split; [intros H; by inversion H|intros [H1 H2]; by constructor]. Qed.

Lemma sorted_app l k : sorted (l ++ k) <-> sorted l /\ sorted k /\ Forall (fun a => Forall (fun b => ilt a b = true) k) l.
Proof.
  induction l as [|a l IH]; cbn [app].
  - split; [intros H; split; [constructor|]; by split; [|constructor]|tauto].
  - rewrite !sorted_cons, IH, Forall_app, list.Forall_cons. tauto.
Qed.

Lemma sorted_split (p : item -> bool) l :
  sorted l -> downward p -> exists A B, l = A ++ B /\ Forall (fun a => p a = true) A /\ Forall (fun a => p a = false) B.
Proof.
  intros Hs Hd. induction l as [|a l IH]; [by exists [], []|]. apply sorted_cons in Hs as [Ha Hs].
  destruct (p a) eqn:E.
  - destruct (IH Hs) as (A & B & -> & HA & HB). exists (a :: A), B. split; [done|]. by split; [constructor|].
  - exists [], (a :: l). split; [done|]. split; [constructor|]. constructor; [done|].
    eapply Forall_impl; [exact Ha|]. cbn. intros b Hb. destruct (p b) eqn:Eb; [|done]. by rewrite <- E, (Hd a b).
Qed.

Lemma downward_ilt b : downward (fun a => ilt a b).
Proof. intros a c H1 H2. by eapply ilt_trans. Qed.

Lemma downward_ile b : downward (fun a => ile a b).
Proof. intros a c H1 H2. by eapply ilt_ile_trans. Qed.

Lemma ilt_score a b : ilt a b = true -> is_number a /\ is_number b /\ ~ key_lt (dkey b.1) (dkey a.1).
Proof.
  rewrite ilt_spec. intros (Ha & Hb & H). split; [done|]. split; [done|]. intros Hn. destruct H as [H|[H _]].
  - by destruct (key_lt_irrefl _ (key_lt_trans _ _ _ H Hn)).
  - rewrite H in Hn. by apply key_lt_irrefl in Hn.
Qed.

(** [~ b < a] and [b < c] give [a < c], and the like. *)
Lemma key_le_lt a b c : ~ key_lt b a -> key_lt b c -> key_lt a c.
Proof. intros H1 H2. destruct (key_total a b) as [?|[->|?]]; [by eapply key_lt_trans|done..]. Qed.

Lemma key_lt_le a b c : key_lt a b -> ~ key_lt c b -> key_lt a c.
Proof. intros H1 H2. destruct (key_total b c) as [?|[<-|?]]; [by eapply key_lt_trans|done..]. Qed.

Lemma downward_below spec : isnan (min spec) = false -> downward (fun a => negb (zslValueGteMin a.1 spec)).
Proof.
  intros Hm a b H. destruct (ilt_score a b H) as (Ha & Hb & Hn). unfold zslValueGteMin.
  rewrite !negb_true_iff, <- !not_true_iff_false. intros H1 H2. apply H1. destruct (minex spec).
  - rewrite (dlt_key) in H2 |- * by done. by eapply key_lt_le.
  - rewrite (dle_key) in H2 |- * by done. intros H3. apply H2. by eapply key_le_lt.
Qed.

Lemma downward_upto spec : isnan (max spec) = false -> downward (fun a => zslValueLteMax a.1 spec).
Proof.
  intros Hm a b H. destruct (ilt_score a b H) as (Ha & Hb & Hn). unfold zslValueLteMax. destruct (maxex spec).
  - rewrite !dlt_key by done. by apply key_le_lt.
  - rewrite !dle_key by done. intros H1 H2. apply H1. by eapply key_lt_le.
Qed.

Lemma same_spec a b : same a b = true <-> is_number a /\ is_number b /\ dkey a.1 = dkey b.1 /\ a.2 = b.2.
Proof.
  unfold same. rewrite andb_true_iff, Z.eqb_eq, elecmp_zero. split.
  - intros [H1 H2]. pose proof (deq_nan _ _ H1) as [Ha Hb]. split; [done|]. split; [done|]. split; [by apply deq_key|done].
  - intros (Ha & Hb & H1 & H2). split; [by apply deq_key|done].
Qed.

Lemma same_sym a b : same a b = same b a.
Proof. apply eq_true_iff_eq. rewrite !same_spec. split; intros (? & ? & ? & ?); done. Qed.

Lemma ilt_not_same a b : ilt a b = true -> same a b = false.
Proof.
  rewrite ilt_spec, <- not_true_iff_false, same_spec. intros (_ & _ & H) (_ & _ & E1 & E2). rewrite E1, E2 in H.
  destruct H as [H|[_ H]]; [by apply key_lt_irrefl in H|]. rewrite (proj2 (elecmp_zero _ _) eq_refl) in H. lia.
Qed.

(** A sorted list holds at most one item like [k], right after the smaller ones. *)
Lemma place_of k A B :
  sorted (A ++ B) -> Forall is_number (A ++ B) -> Forall (fun a => ilt a k = true) A -> Forall (fun a => ilt a k = false) B ->
  match B with
  | b :: _ => same b k = false -> Forall (fun a => same a k = false) (A ++ B)
  | [] => Forall (fun a => same a k = false) A
  end.
Proof.
  intros Hs Hn HA HB. assert (Forall (fun a => same a k = false) A) as HsA.
  { eapply Forall_impl; [exact HA|]. intros a. apply ilt_not_same. }
  destruct B as [|b B]; [done|]. intros Hb. apply Forall_app. split; [done|]. constructor; [done|].
  destruct (isnan k.1) eqn:Hk.
  { apply Forall_true. intros a. apply not_true_iff_false. rewrite same_spec. unfold is_number. rewrite Hk. by intros (_ & ? & _). }
  apply Forall_app in Hn as [_ Hn]. apply sorted_app in Hs as (_ & Hs & _). apply sorted_cons in Hs as [Hs _].
  apply list.Forall_cons_1 in HB as [HB _]. apply list.Forall_cons_1 in Hn as [Hn _].
  assert (ilt k b = true) as Hkb by by apply ilt_total.
  eapply Forall_impl; [exact Hs|]. cbn. intros a Ha. rewrite same_sym. apply ilt_not_same. by eapply ilt_trans.
Qed.

Lemma sorted_between A B k :
  sorted (A ++ B) -> (forall a, last A = Some a -> ilt a k = true) -> (forall b, head B = Some b -> ilt k b = true) -> sorted (A ++ k :: B).
Proof.
  intros (HA & HB & HAB)%sorted_app Hl Hh. apply sorted_app. split; [done|].
  assert (Forall (fun b => ilt k b = true) B) as HkB.
  { destruct B as [|b B]; [constructor|]. specialize (Hh b eq_refl). apply sorted_cons in HB as [HB _]. constructor; [done|].
    eapply Forall_impl; [exact HB|]. cbn. intros c. by apply ilt_trans. }
  split; [by apply sorted_cons|]. destruct A as [|a A _] using rev_ind; [constructor|]. rewrite last_snoc in Hl. specialize (Hl a eq_refl).
  apply sorted_app in HA as (_ & _ & HA). apply Forall_app in HAB as [HAB1 HAB2]. apply Forall_app. split.
  - rewrite Forall_forall in HA, HAB1 |- *. intros c Hc. specialize (HA c Hc). apply list.Forall_cons_1 in HA as [HA _].
    constructor; [by eapply ilt_trans|by apply HAB1].
  - apply list.Forall_cons_1 in HAB2 as [HAB2 _]. by repeat constructor.
Qed.

Lemma ilt_same_r a b c : same b c = true -> ilt a b = ilt a c.
Proof.
  rewrite same_spec. intros (Hb & Hc & E1 & E2). apply eq_true_iff_eq. rewrite !ilt_spec, E1, E2. tauto.
Qed.

Lemma ilt_same_l a b c : same a b = true -> ilt a c = ilt b c.
Proof.
  rewrite same_spec. intros (Hb & Hc & E1 & E2). apply eq_true_iff_eq. rewrite !ilt_spec, E1, E2. tauto.
Qed.

(** ** Ranges by score *)

Definition range_empty (r : zrangespec) : bool := dlt (max r) (min r) || (deq (min r) (max r) && (minex r || maxex r)).

(** What is below a range that can hold something is not above it. *)
Lemma range_order r s : isnan (min r) = false -> isnan (max r) = false -> isnan s = false -> range_empty r = false ->
  zslValueGteMin s r = false -> zslValueLteMax s r = true.
Proof.
  intros Hmin Hmax Hs. unfold range_empty, zslValueGteMin, zslValueLteMax.
  rewrite orb_false_iff, andb_false_iff, <- !not_true_iff_false, (dlt_key (max r)), (deq_key (min r)) by done. intros [He Hx] Hg.
  destruct (key_total (dkey s) (dkey (min r))) as [Hlt|[Heq|Hgt]].
  - assert (key_lt (dkey s) (dkey (max r))) by by eapply key_lt_le. destruct (maxex r); [by apply dlt_key|apply dle_key; [done..|]].
    intros H'. by apply (key_lt_irrefl (dkey s)), (key_lt_trans _ _ _ H H').
  - destruct (minex r); [|destruct Hg; apply dle_key; [done..|]; rewrite Heq; apply key_lt_irrefl].
    destruct (key_total (dkey (min r)) (dkey (max r))) as [H|[H|H]]; [|by destruct Hx as [Hx|Hx]; [|destruct Hx]|done].
    rewrite <- Heq in H. destruct (maxex r); [by apply dlt_key|apply dle_key; [done..|]].
    intros H'. by apply (key_lt_irrefl (dkey s)), (key_lt_trans _ _ _ H H').
  - exfalso. apply Hg. destruct (minex r); [by apply dlt_key|apply dle_key; [done..|]]. intros H'.
    by apply (key_lt_irrefl (dkey s)), (key_lt_trans _ _ _ H' Hgt).
Qed.

Lemma range_empty_none r s : isnan (min r) = false -> isnan (max r) = false -> isnan s = false -> range_empty r = true ->
  zslValueGteMin s r && zslValueLteMax s r = false.
Proof.
  intros Hmin Hmax Hs. unfold range_empty, zslValueGteMin, zslValueLteMax.
  rewrite orb_true_iff, andb_true_iff, (dlt_key (max r)), (deq_key (min r)) by done. intros He. apply not_true_iff_false.
  rewrite andb_true_iff. intros [Hg Hl].
  assert (~ key_lt (dkey s) (dkey (min r))) as Hg'.
  { destruct (minex r); rewrite ?dlt_key, ?dle_key in Hg by done; [|done]. intros H. by apply (key_lt_irrefl (dkey s)), (key_lt_trans _ _ _ H Hg). }
  assert (~ key_lt (dkey (max r)) (dkey s)) as Hl'.
  { destruct (maxex r); rewrite ?dlt_key, ?dle_key in Hl by done; [|done]. intros H. by apply (key_lt_irrefl (dkey s)), (key_lt_trans _ _ _ Hl H). }
  destruct He as [He|[He Hx]]; [by apply Hg', (key_le_lt _ _ _ Hl' He)|].
  apply orb_true_iff in Hx as [Hx|Hx]; rewrite Hx in *.
  - rewrite dlt_key, He in Hg by done. done.
  - rewrite dlt_key, <- He in Hl by done. done.
Qed.

(** ** Ranges by element *)

(** A test of strings, as a test of items among those with score [s]. *)
Definition among (s : double) (p : bytes -> bool) (a : item) : bool := dlt a.1 s || (deq a.1 s && p a.2).

Lemma downward_among s p : (forall a b, elecmp a b < 0 -> p b = true -> p a = true) -> downward (among s p).
Proof.
  intros Hp a b. rewrite ilt_spec. intros (Ha & Hb & H). unfold among. rewrite !orb_true_iff, !andb_true_iff.
  destruct (isnan s) eqn:Hs.
  { intros [Hlt|[Heq _]]; [apply dlt_nan in Hlt as [_ ?]|apply deq_nan in Heq as [_ ?]]; congruence. }
  rewrite !dlt_key, !deq_key by done. intros [Hlt|[Heq Hpb]].
  - left. destruct H as [H|[-> _]]; [by eapply key_lt_trans|done].
  - rewrite <- Heq. destruct H as [H|[-> H]]; [by left|right]. split; [done|]. by eapply Hp.
Qed.

Lemma among_here s p a : deq a.1 s = true -> among s p a = p a.2.
Proof.
  intros H. pose proof (deq_nan _ _ H) as [Ha Hs]. unfold among. rewrite H. destruct (dlt a.1 s) eqn:E; [|done].
  apply dlt_key in E; [|done..]. apply deq_key in H; [|done..]. rewrite H in E. by apply key_lt_irrefl in E.
Qed.

Lemma lex_below r : forall a b, elecmp a b < 0 -> negb (zslLexValueGteMin b r) = true -> negb (zslLexValueGteMin a r) = true.
Proof.
  intros a b Hab. unfold zslLexValueGteMin. rewrite !negb_true_iff. destruct (lmin r) as [| |m]; cbn; try (by destruct (lminex r)).
  assert (elecmp b m <= 0 -> elecmp a m < 0) as Ht.
  { intros H. destruct (Z.eq_dec (elecmp b m) 0) as [Hz|?]; [apply elecmp_zero in Hz; by rewrite <- Hz|]. apply (elecmp_trans _ b); lia. }
  destruct (lminex r); rewrite ?Z.ltb_ge, ?Z.leb_gt; lia.
Qed.

Lemma lex_upto r : forall a b, elecmp a b < 0 -> zslLexValueLteMax b r = true -> zslLexValueLteMax a r = true.
Proof.
  intros a b Hab. unfold zslLexValueLteMax. destruct (lmax r) as [| |m]; cbn; try (by destruct (lmaxex r)).
  assert (elecmp b m <= 0 -> elecmp a m < 0) as Ht.
  { intros H. destruct (Z.eq_dec (elecmp b m) 0) as [Hz|?]; [apply elecmp_zero in Hz; by rewrite <- Hz|]. apply (elecmp_trans _ b); lia. }
  destruct (lmaxex r); rewrite ?Z.ltb_lt, ?Z.leb_le; lia.
Qed.

Definition lex_empty (r : zlexrangespec) : bool :=
  (0 <? sdscmplex (lmin r) (lmax r)) || ((sdscmplex (lmin r) (lmax r) =? 0) && (lminex r || lmaxex r)).

Lemma lex_order r a : lex_empty r = false -> zslLexValueGteMin a r = false -> zslLexValueLteMax a r = true.
Proof.
  unfold lex_empty, zslLexValueGteMin, zslLexValueLteMax. rewrite orb_false_iff, andb_false_iff, Z.ltb_ge, Z.eqb_neq.
  destruct (lmin r) as [| |m], (lmax r) as [| |m']; cbn; intros [He Hx] Hg; try lia; try (by destruct (lminex r)); try (by destruct (lmaxex r)).
  assert (elecmp a m <= 0) as Ham by (destruct (lminex r); [apply Z.ltb_ge in Hg|apply Z.leb_gt in Hg]; lia).
  destruct (Z.eq_dec (elecmp a m) 0) as [Hz|Hn].
  - apply elecmp_zero in Hz as ->. destruct (lminex r); [|rewrite (proj2 (elecmp_zero m m) eq_refl) in Hg; done].
    destruct Hx as [Hx|Hx]; [|done]. destruct (lmaxex r); [apply Z.ltb_lt|apply Z.leb_le]; lia.
  - assert (elecmp a m' < 0); [|destruct (lmaxex r); [apply Z.ltb_lt|apply Z.leb_le]; lia].
    destruct (Z.eq_dec (elecmp m m') 0) as [Hz|Hn']; [apply elecmp_zero in Hz as <-; lia|]. apply (elecmp_trans _ m); lia.
Qed.

Lemma lex_empty_none r a : lex_empty r = true -> zslLexValueGteMin a r && zslLexValueLteMax a r = false.
Proof.
  unfold lex_empty, zslLexValueGteMin, zslLexValueLteMax. rewrite orb_true_iff, andb_true_iff, Z.ltb_lt, Z.eqb_eq.
  intros He. apply not_true_iff_false. rewrite andb_true_iff.
  destruct (lmin r) as [| |m], (lmax r) as [| |m']; cbn in *; try (destruct (lminex r), (lmaxex r); cbn in *; naive_solver lia).
  intros [Hg Hl].
  assert (0 <= elecmp a m) as Ham by (destruct (lminex r); [apply Z.ltb_lt in Hg|apply Z.leb_le in Hg]; lia).
  assert (elecmp a m' <= 0) as Ham' by (destruct (lmaxex r); [apply Z.ltb_lt in Hl|apply Z.leb_le in Hl]; lia).
  assert (elecmp m m' <= 0) as Hmm.
  { destruct (Z.eq_dec (elecmp a m) 0) as [Hz|Hn]; [apply elecmp_zero in Hz as <-; done|].
    destruct (Z.eq_dec (elecmp a m') 0) as [Hz|Hn']; [apply elecmp_zero in Hz as <-; assert (elecmp m a < 0) by (apply elecmp_gt; lia); lia|].
    assert (elecmp m m' < 0); [|lia]. apply (elecmp_trans _ a); [apply elecmp_gt|]; lia. }
  destruct He as [He|[He Hx]]; [lia|]. apply elecmp_zero in He as <-. assert (elecmp a m = 0) as Hz by lia. rewrite Hz in *.
  apply orb_true_iff in Hx as [Hx|Hx]; rewrite Hx in *; done.
Qed.

End ZskiplistOrder.
