(* ===== verification/ZskiplistTheory.v ===== *)
(** * Skip lists: the heap.

    [repr h lv x0 es] says that the heap holds a skip list with header [x0] and
    the entries [es] in order, each with its location and height, in which
    every pointer and span of the levels below [lv] is the one the list
    determines.  The lemmas show where searches stop, and that linking and
    unlinking a node change the list as they should. *)

From Stdlib Require Import SpecFloat.
From S2P Require Import Prelude Zskiplist.
From stdpp Require Import list gmap fin_maps.
#[local] Open Scope Z_scope.

Module ZskiplistTheory.
Import Zskiplist.

(** ** Changing levels all over the heap *)

Definition change (g : loc -> nat -> zskiplistLevel -> zskiplistLevel) (x : loc) (n : zskiplistNode) : zskiplistNode :=
  with_levels n (imap (g x) (levels n)).

(** Every level [i] of every node [x] replaced by [g x i] of it. *)
Definition upd (g : loc -> nat -> zskiplistLevel -> zskiplistLevel) (h : heap) : heap :=
  map_imap (fun x n => Some (change g x n)) h.

(** [g] with the result at level [i] of [x] set to [v]. *)
Definition override (g : loc -> nat -> zskiplistLevel -> zskiplistLevel) (x : loc) (i : nat) (v : zskiplistLevel)
  : loc -> nat -> zskiplistLevel -> zskiplistLevel :=
  fun y j w => if decide (y = x /\ j = i) then v else g y j w.

Definition keep : loc -> nat -> zskiplistLevel -> zskiplistLevel := fun _ _ v => v.

Lemma upd_lookup g h x : upd g h !! x = change g x <$> h !! x.
Proof. unfold upd. rewrite map_lookup_imap. by destruct (h !! x). Qed.

Lemma level_at_ok h x i v : level_at h x i = Ok v <-> exists n, h !! x = Some n /\ levels n !! i = Some v.
Proof.
  unfold level_at, node, nth_. destruct (h !! x) as [n|]; cbn; [|naive_solver].
  destruct (levels n !! i) eqn:E; naive_solver.
Qed.

Lemma upd_ext g g' h :
  (forall x i v, level_at h x i = Ok v -> g x i v = g' x i v) -> upd g h = upd g' h.
Proof.
  intros Hg. apply map_eq. intros x. rewrite !upd_lookup. destruct (h !! x) as [n|] eqn:E; [|done]. cbn. f_equal.
  unfold change. f_equal. apply list_eq. intros i. rewrite !list_lookup_imap.
  destruct (levels n !! i) as [v|] eqn:Ei; [|done]. cbn. f_equal. apply Hg. apply level_at_ok. eauto.
Qed.

Lemma upd_keep h : upd keep h = h.
Proof.
  apply map_eq. intros x. rewrite upd_lookup. destruct (h !! x) as [n|] eqn:E; [|done]. cbn. f_equal.
  unfold change. destruct n as [? ? ? ls]. unfold with_levels. cbn. f_equal. apply list_eq. intros i.
  rewrite list_lookup_imap. by destruct (ls !! i).
Qed.

Lemma upd_level_at g h x i v : level_at h x i = Ok v -> level_at (upd g h) x i = Ok (g x i v).
Proof.
  rewrite !level_at_ok. intros (n & Hn & Hv). exists (change g x n). rewrite upd_lookup, Hn. split; [done|].
  cbn. by rewrite list_lookup_imap, Hv.
Qed.

Lemma upd_put g h x i v w : level_at h x i = Ok v -> put_level (upd g h) x i w = Ok (upd (override g x i w) h).
Proof.
  intros Hl. pose proof Hl as (n & Hn & Hv)%level_at_ok. unfold put_level, node. rewrite upd_lookup, Hn. cbn [fmap option_fmap option_map mbind res_bind].
  unfold nth_. cbn [levels change with_levels]. rewrite list_lookup_imap, Hv. cbn [fmap option_fmap option_map mbind res_bind]. f_equal.
  apply map_eq. intros y. rewrite upd_lookup. destruct (decide (y = x)) as [->|Hne].
  - rewrite lookup_insert_eq, Hn. cbn. f_equal. unfold change, with_levels. cbn. f_equal. apply list_eq. intros j.
    rewrite list_lookup_imap. destruct (decide (j = i)) as [->|Hj].
    + rewrite list_lookup_insert_eq by (rewrite length_imap; by eapply lookup_lt_Some). rewrite Hv. cbn.
      unfold override. by rewrite decide_True.
    + rewrite list_lookup_insert_ne, list_lookup_imap by done. destruct (levels n !! j); [|done]. cbn.
      unfold override. rewrite decide_False; [done|]. naive_solver.
  - rewrite lookup_insert_ne, upd_lookup by done. destruct (h !! y) as [m|]; [|done]. cbn. f_equal.
    unfold change. f_equal. apply list_eq. intros j. rewrite !list_lookup_imap. destruct (levels m !! j); [|done]. cbn.
    unfold override. rewrite decide_False; [done|]. naive_solver.
Qed.

Lemma upd_set_forward g h x i v f :
  level_at h x i = Ok v ->
  set_forward (upd g h) x i f = Ok (upd (override g x i {| forward := f; span := span (g x i v) |}) h).
Proof. intros Hl. unfold set_forward. rewrite (upd_level_at g h x i v Hl). cbn [mbind res_bind]. by eapply upd_put. Qed.

Lemma upd_set_span g h x i v s :
  level_at h x i = Ok v ->
  set_span (upd g h) x i s = Ok (upd (override g x i {| forward := forward (g x i v); span := s |}) h).
Proof. intros Hl. unfold set_span. rewrite (upd_level_at g h x i v Hl). cbn [mbind res_bind]. by eapply upd_put. Qed.

(** A loop that turns each level [i] it reaches from [g] into [g']. *)
Definition between (lo hi : nat) (g' g : loc -> nat -> zskiplistLevel -> zskiplistLevel)
  : loc -> nat -> zskiplistLevel -> zskiplistLevel :=
  fun x i v => if decide (lo <= i < hi)%nat then g' x i v else g x i v.

Lemma override_other g x i v y j w : j <> i -> override g x i v y j w = g y j w.
Proof. intros Hj. unfold override. rewrite decide_False; [done|]. by intros [_ ?]. Qed.

Lemma override_ne g x i v y j w : y <> x -> override g x i v y j w = g y j w.
Proof. intros Hj. unfold override. rewrite decide_False; [done|]. by intros [? _]. Qed.

Lemma override_eq g x i v w : override g x i v x i w = v.
Proof. unfold override. by rewrite decide_True. Qed.

Lemma between_other lo hi g' g x i v : i <> hi -> between lo (S hi) g' g x i v = between lo hi g' g x i v.
Proof. intros Hi. unfold between. destruct (decide (lo <= i < S hi)%nat), (decide (lo <= i < hi)%nat); done || lia. Qed.

Lemma between_next lo hi g' g x v : (lo <= hi)%nat -> between lo (S hi) g' g x hi v = g' x hi v.
Proof. intros Hi. unfold between. by rewrite decide_True by lia. Qed.

Lemma between_last lo hi g' g x v : between lo hi g' g x hi v = g x hi v.
Proof. unfold between. by rewrite decide_False by lia. Qed.

Lemma for_up_upd body g' g h n : forall i,
  (forall j, (i <= j < i + n)%nat -> body j (upd (between i j g' g) h) = Ok (upd (between i (S j) g' g) h)) ->
  for_up n i body (upd g h) = Ok (upd (between i (i + n) g' g) h).
Proof.
  assert (forall n i0 i, (i0 <= i)%nat ->
    (forall j, (i <= j < i + n)%nat -> body j (upd (between i0 j g' g) h) = Ok (upd (between i0 (S j) g' g) h)) ->
    for_up n i body (upd (between i0 i g' g) h) = Ok (upd (between i0 (i + n) g' g) h)) as Hloop.
  { clear n. induction n as [|n IH]; intros i0 i Hi Hb; cbn [for_up]; [by rewrite Nat.add_0_r|].
    rewrite Hb by lia. cbn [mbind res_bind]. rewrite IH; [f_equal; f_equal; f_equal; lia|lia|]. intros j Hj. apply Hb. lia. }
  intros i Hb. rewrite <- (Hloop n i i (le_n i) Hb). f_equal. apply upd_ext. intros x j v _.
  unfold between. rewrite decide_False; [done|lia].
Qed.

Lemma upd_dom g h : dom (upd g h) = dom h.
Proof. apply set_eq. intros x. rewrite !elem_of_dom, upd_lookup. by rewrite fmap_is_Some. Qed.

Lemma upd_size g h : size (upd g h) = size h.
Proof. rewrite <- !size_dom. by rewrite upd_dom. Qed.
(** ** The list a heap represents *)

Record entry : Type := { e_loc : loc; e_score : double; e_ele : bytes; e_height : nat }.

(** The pointer and the span of level [l] of a node with [rest] after it. *)
Fixpoint link (l : nat) (rest : list entry) : option loc * Z :=
  match rest with
  | [] => (None, 0)
  | e :: rest =>
    if (l <? e_height e)%nat then (Some (e_loc e), 1) else (fst (link l rest), 1 + snd (link l rest))
  end.

(** No entry of [rest] reaches level [l]. *)
Definition low (l : nat) (rest : list entry) : Prop := Forall (fun e => (e_height e <= l)%nat) rest.

Lemma link_low l rest : low l rest -> link l rest = (None, zlen rest).
Proof.
  induction 1 as [|e rest He _ IH]; [done|]. cbn [link]. rewrite IH, zlen_cons. destruct (Nat.ltb_spec l (e_height e)); [lia|done].
Qed.

Lemma link_high l S e T : low l S -> (l < e_height e)%nat -> link l (S ++ e :: T) = (Some (e_loc e), zlen S + 1).
Proof.
  intros HS He. induction HS as [|e' S He' _ IH]; cbn [link app].
  - destruct (Nat.ltb_spec l (e_height e)); [done|lia].
  - rewrite IH, zlen_cons. destruct (Nat.ltb_spec l (e_height e')); [lia|]. cbn. f_equal. lia.
Qed.

Lemma link_app_low l S T : low l S -> link l (S ++ T) = (fst (link l T), zlen S + snd (link l T)).
Proof.
  intros HS. induction HS as [|e' S He' _ IH]; cbn [link app].
  - rewrite zlen_nil. by destruct (link l T).
  - rewrite IH, zlen_cons. destruct (Nat.ltb_spec l (e_height e')); [lia|]. cbn. f_equal. lia.
Qed.

Lemma low_dec l R : low l R \/ exists S e T, R = S ++ e :: T /\ low l S /\ (l < e_height e)%nat.
Proof.
  induction R as [|e R IH]; [left; constructor|]. destruct (Nat.lt_ge_cases l (e_height e)) as [He|He].
  - right. exists [], e, R. split; [done|]. by split; [constructor|].
  - destruct IH as [IH|(S & e' & T & -> & HS & He')]; [left; by constructor|].
    right. exists (e :: S), e', T. split; [done|]. by split; [constructor|].
Qed.

(** Whatever comes after an entry that reaches level [l] does not matter. *)
Lemma link_app_high l S T T' : ~ low l S -> link l (S ++ T) = link l (S ++ T').
Proof.
  intros Hn. destruct (low_dec l S) as [?|(S1 & e & S2 & -> & HS & He)]; [done|].
  by rewrite <- !app_assoc, <- !app_comm_cons, !link_high.
Qed.

Lemma link_snd l R : 0 <= snd (link l R) <= zlen R.
Proof. induction R as [|e R IH]; [done|]. cbn [link]. rewrite zlen_cons. pose proof (zlen_nonneg R). destruct (_ <? _)%nat; cbn; lia. Qed.

Lemma link_fst l R x : fst (link l R) = Some x -> x ∈ e_loc <$> R.
Proof.
  induction R as [|e R IH]; [done|]. cbn [link]. destruct (_ <? _)%nat; cbn; [intros [= <-]; by left|]. intros H. right. by apply IH.
Qed.

(** The node a prefix of the entries ends with, the header for none. *)
Definition node_at (x0 : loc) (pre : list entry) : loc :=
  match last pre with Some e => e_loc e | None => x0 end.
Definition height_at (pre : list entry) : nat :=
  match last pre with Some e => e_height e | None => ZSKIPLIST_MAXLEVEL end.

(** The levels of a node with [rest] after it; spans are right below [lv]. *)
Definition levels_ok (lv : nat) (n : zskiplistNode) (rest : list entry) : Prop :=
  forall l v, levels n !! l = Some v -> forward v = fst (link l rest) /\ ((l < lv)%nat -> span v = snd (link l rest)).

Definition holds (n : zskiplistNode) (e : entry) : Prop := ele n = Some (e_ele e) /\ score n = e_score e.

(** The node after the prefix [pre] of the entries. *)
Definition node_ok (h : heap) (lv : nat) (x0 : loc) (pre rest : list entry) : Prop :=
  exists n, h !! node_at x0 pre = Some n /\ length (levels n) = height_at pre /\ levels_ok lv n rest /\
  match last pre with
  | Some e => holds n e
  | None => ele n = None
  end.

Definition back_ok (h : heap) (pre : list entry) (e : entry) : Prop :=
  exists n, h !! e_loc e = Some n /\ backward n = e_loc <$> last pre.

Record repr (h : heap) (lv : nat) (x0 : loc) (es : list entry) : Prop := {
  repr_nodup : NoDup (x0 :: (e_loc <$> es));
  repr_node pre rest : es = pre ++ rest -> node_ok h lv x0 pre rest;
  repr_back pre e rest : es = pre ++ e :: rest -> back_ok h pre e;
  repr_levels : (1 <= lv <= ZSKIPLIST_MAXLEVEL)%nat;
  repr_heights : Forall (fun e => (1 <= e_height e <= lv)%nat) es;
  repr_short : zlen es < 2 ^ 62
}.

Lemma node_at_snoc x0 pre e : node_at x0 (pre ++ [e]) = e_loc e.
Proof. unfold node_at. by rewrite last_snoc. Qed.

Lemma height_at_snoc pre e : height_at (pre ++ [e]) = e_height e.
Proof. unfold height_at. by rewrite last_snoc. Qed.

Lemma height_at_bounds h lv x0 pre rest : repr h lv x0 (pre ++ rest) -> (1 <= height_at pre <= ZSKIPLIST_MAXLEVEL)%nat.
Proof.
  intros H. pose proof (repr_heights _ _ _ _ H) as Hh. pose proof (repr_levels _ _ _ _ H) as Hl.
  destruct pre as [|e pre _] using rev_ind; [cbn; unfold ZSKIPLIST_MAXLEVEL; lia|]. rewrite height_at_snoc.
  apply Forall_app in Hh as [Hh _]. apply Forall_app in Hh as [_ Hh]. apply Forall_cons_1 in Hh as [Hh _]. lia.
Qed.

(** The level [l] of a node. *)
Lemma repr_level_at h lv x0 pre rest l :
  repr h lv x0 (pre ++ rest) -> (l < height_at pre)%nat ->
  exists v, level_at h (node_at x0 pre) l = Ok v /\ forward v = fst (link l rest) /\ ((l < lv)%nat -> span v = snd (link l rest)).
Proof.
  intros Hr Hl. destruct (repr_node _ _ _ _ Hr pre rest eq_refl) as (n & Hn & Hlen & Hok & _).
  destruct (lookup_lt_is_Some_2 (levels n) l) as [v Hv]; [lia|]. exists v. split; [apply level_at_ok; eauto|]. by apply Hok.
Qed.

Lemma repr_entry h lv x0 pre e rest :
  repr h lv x0 (pre ++ e :: rest) -> exists n, node h (e_loc e) = Ok n /\ holds n e.
Proof.
  intros Hr. destruct (repr_node _ _ _ _ Hr (pre ++ [e]) rest) as (n & Hn & _ & _ & He); [by rewrite <- app_assoc|].
  rewrite node_at_snoc in Hn. rewrite last_snoc in He. exists n. unfold node. by rewrite Hn.
Qed.

Lemma repr_size h lv x0 es : repr h lv x0 es -> (length es < size h)%nat.
Proof.
  intros Hr. pose proof (repr_nodup _ _ _ _ Hr) as Hnd.
  assert (list_to_set (x0 :: (e_loc <$> es)) ⊆ dom h) as Hsub.
  { intros x Hx. apply elem_of_list_to_set in Hx. apply list_elem_of_In in Hx. apply elem_of_dom. destruct Hx as [<-|Hx].
    - destruct (repr_node _ _ _ _ Hr [] es eq_refl) as (n & Hn & _). eauto.
    - apply list_elem_of_In, list_elem_of_fmap in Hx as (e & -> & He). apply list_elem_of_split in He as (pre & rest & ->).
      destruct (repr_entry _ _ _ _ _ _ Hr) as (n & Hn & _). unfold node in Hn. destruct (h !! e_loc e); [eauto|done]. }
  apply subseteq_size in Hsub. rewrite size_list_to_set, size_dom in Hsub by done. cbn in Hsub. rewrite length_fmap in Hsub. lia.
Qed.

(** ** Where searches stop *)

(** A condition that holds exactly up to the [k]-th entry; ranks are counted
    from [base]. *)
Definition cond_ok (es : list entry) (base : Z) (k : nat) (cond : Z -> Z -> zskiplistNode -> res bool) : Prop :=
  forall r s n pre e post, es = pre ++ e :: post -> holds n e -> 0 <= r -> 0 <= s -> r + s = zlen pre + 1 - base ->
  cond r s n = Ok (bool_decide (length pre < k)%nat).

(** [P] is the longest prefix of [A] whose last node reaches level [l]. *)
Definition stops (l : nat) (A P : list entry) : Prop :=
  (l < height_at P)%nat /\ exists Q, A = P ++ Q /\ low l Q.

Lemma stops_unique l A P P' : stops l A P -> stops l A P' -> P = P'.
Proof.
  assert (forall P Q P' Q', low l Q -> (l < height_at P')%nat -> P ++ Q = P' ++ Q' -> (length P' <= length P)%nat) as Hlen.
  { clear. intros P Q P' Q' HQ HP' E. destruct (Nat.le_gt_cases (length P') (length P)) as [?|Hlt]; [done|exfalso].
    assert (P' = P ++ take (length P' - length P) Q) as EP.
    { pose proof (f_equal (take (length P')) E) as ET. by rewrite take_app_length, take_app, take_ge in ET by lia. }
    destruct (take (length P' - length P) Q) as [|e R _] eqn:ER using rev_ind.
    - rewrite app_nil_r in EP. subst P'. lia.
    - rewrite EP, app_assoc, height_at_snoc in HP'. apply (Forall_take _ (length P' - length P)%nat) in HQ.
      rewrite ER in HQ. apply Forall_app in HQ as [_ HQ]. apply Forall_cons_1 in HQ as [HQ _]. lia. }
  intros (H1 & Q & EQ & HQ) (H2 & Q' & EQ' & HQ'). rewrite EQ in EQ'.
  pose proof (Hlen P Q P' Q' HQ H2 EQ'). pose proof (Hlen P' Q' P Q HQ' H1 (eq_sym EQ')).
  apply (app_inj_1 P P' Q Q'); [lia|done].
Qed.

Section search.
Context (h : heap) (lv : nat) (x0 : loc) (es : list entry) (Hr : repr h lv x0 es).

Lemma walk_spec cond l base B : forall fuel P Q,
  es = P ++ Q ++ B -> (l < lv)%nat -> (l < height_at P)%nat -> cond_ok es base (length (P ++ Q)) cond -> 0 <= base <= zlen P ->
  (length (Q ++ B) < fuel)%nat ->
  exists P', stops l (P ++ Q) P' /\ (exists S, P' = P ++ S) /\
    walk fuel h cond l (node_at x0 P) (zlen P - base) = Ok (node_at x0 P', zlen P' - base).
Proof.
  induction fuel as [|fuel IH]; intros P Q E Hl HP Hc Hb Hf; [lia|]. cbn [walk].
  destruct (repr_level_at h lv x0 P (Q ++ B) l) as (v & -> & Hv & Hs); [by rewrite <- E|done|]. cbn [mbind res_bind].
  specialize (Hs Hl). rewrite Hv. destruct (low_dec l (Q ++ B)) as [Hlow|(S & e & T & ES & HS & He)].
  - rewrite link_low by done. cbn [fst]. exists P. split; [|split; [by exists []; rewrite app_nil_r|done]].
    split; [done|]. exists Q. split; [done|]. by apply Forall_app in Hlow as [? _].
  - rewrite ES, link_high in Hs |- * by done. cbn [fst snd] in *.
    assert (es = (P ++ S) ++ e :: T) as E' by by rewrite <- app_assoc, <- ES.
    destruct (repr_entry h lv x0 (P ++ S) e T) as (n & -> & Hn); [by rewrite <- E'|]. cbn [mbind res_bind].
    pose proof (zlen_nonneg S).
    rewrite (Hc _ _ n (P ++ S) e T E' Hn) by (rewrite ?zlen_app; lia). cbn [mbind res_bind].
    case_bool_decide as Hk.
    + rewrite !length_app in Hk. assert (exists Q', Q = S ++ e :: Q') as [Q' ->].
      { exists (drop (length S + 1) Q). assert (take (length S + 1) Q = S ++ [e]) as ET.
        { rewrite <- (take_app_le Q B), ES by lia. rewrite take_app, take_ge by lia. f_equal.
          replace (length S + 1 - length S)%nat with 1%nat by lia. done. }
        rewrite <- (take_drop (length S + 1) Q) at 1. by rewrite ET, <- app_assoc. }
      assert (P ++ S ++ e :: Q' = (P ++ S ++ [e]) ++ Q') as EP by by rewrite <- !app_assoc.
      replace (e_loc e) with (node_at x0 (P ++ S ++ [e])) by by rewrite app_assoc, node_at_snoc.
      pose proof (repr_short _ _ _ _ Hr) as Hshort. rewrite E' in Hshort. pose proof (zlen_nonneg T).
      rewrite zlen_app, zlen_cons, zlen_app in Hshort.
      replace (u64 (zlen P - base + span v)) with (zlen (P ++ S ++ [e]) - base)
        by (rewrite !zlen_app, Hs, wrapu_small by lia; change (zlen [e]) with 1; lia).
      rewrite EP. destruct (IH (P ++ S ++ [e]) Q') as (P' & Hst & (S' & ->) & ->).
      * by rewrite E, <- !app_assoc.
      * done.
      * by rewrite app_assoc, height_at_snoc.
      * by rewrite <- EP.
      * rewrite !zlen_app. change (zlen [e]) with 1. lia.
      * rewrite <- app_assoc in Hf. cbn in Hf. rewrite length_app in Hf. cbn in Hf. lia.
      * eexists. split; [done|]. split; [|done]. exists (S ++ [e] ++ S'). by rewrite <- !app_assoc.
    + exists P. split; [|split; [by exists []; rewrite app_nil_r|done]]. split; [done|]. exists Q. split; [done|].
      rewrite !length_app in Hk. assert (Q = take (length Q) S) as ->.
      { rewrite <- (take_app_length Q B) at 1. rewrite ES, take_app_le by lia. done. }
      by apply Forall_take.
Qed.

(** The search down the levels: where it stops at each of them. *)
Lemma descend_spec cond base B : forall n P Q,
  es = P ++ Q ++ B -> (n <= lv)%nat -> (n <= height_at P)%nat -> cond_ok es base (length (P ++ Q)) cond -> 0 <= base <= zlen P ->
  exists u, descend h cond n (node_at x0 P) (zlen P - base) = Ok u /\ length u = n /\
    forall l, (l < n)%nat -> exists P', stops l (P ++ Q) P' /\ u !! l = Some (node_at x0 P', zlen P' - base).
Proof.
  induction n as [|n IH]; intros P Q E Hn HP Hc Hb; cbn [descend]; [exists []; split; [done|]; split; [done|lia]|].
  destruct (walk_spec cond n base B (size h) P Q E) as (P' & Hst & (S & EP') & ->); try done.
  { pose proof (repr_size h lv x0 es Hr) as Hs. rewrite E, length_app in Hs. lia. }
  cbn [mbind res_bind fst snd]. pose proof Hst as (HP' & Q' & EQ & HQ').
  destruct (IH P' Q') as (u & -> & Hlen & Hu).
  - by rewrite E, !app_assoc, EQ.
  - lia.
  - lia.
  - by rewrite <- EQ.
  - subst P'. rewrite zlen_app. pose proof (zlen_nonneg S). lia.
  - cbn [mbind res_bind]. eexists. split; [done|]. split; [rewrite length_app; cbn; lia|].
    intros l Hl. destruct (Nat.eq_dec l n) as [->|Hne].
    + exists P'. split; [done|]. by rewrite lookup_app_r, Hlen, Nat.sub_diag by lia.
    + destruct (Hu l) as (P1 & H1 & H2); [lia|]. exists P1. rewrite EQ. split; [done|].
      rewrite lookup_app_l by lia. done.
Qed.
End search.

End ZskiplistTheory.
