(* ===== verification/ZskiplistLink.v ===== *)
(** * Skip lists: linking and unlinking nodes.

    The loops of [zslInsert] and [zslDeleteNode] over the levels, as changes of
    the heap, and what they do to the list it represents. *)

From Stdlib Require Import SpecFloat.
From S2P Require Import Prelude Zskiplist ZskiplistTheory.
From stdpp Require Import list gmap fin_maps.
#[local] Open Scope Z_scope.

Module ZskiplistLink.
Import Zskiplist ZskiplistTheory.

(** ** Locations *)

Lemma node_at_inj x0 es P P' R R' :
  NoDup (x0 :: (e_loc <$> es)) -> es = P ++ R -> es = P' ++ R' -> node_at x0 P = node_at x0 P' -> P = P'.
Proof.
  intros Hnd E E' H.
  assert (forall P R, es = P ++ R -> (x0 :: (e_loc <$> es)) !! length P = Some (node_at x0 P)) as Hl.
  { clear. intros P R ->. destruct P as [|e P _] using rev_ind; [done|]. rewrite node_at_snoc, length_app. cbn [length].
    replace (length P + 1)%nat with (S (length P)) by lia. rewrite lookup_cons.
    rewrite list_lookup_fmap, <- app_assoc. cbn [app]. by rewrite list_lookup_middle. }
  assert (length P = length P') as Hlen.
  { eapply NoDup_lookup; [exact Hnd|by eapply Hl|]. rewrite H. by eapply Hl. }
  apply (app_inj_1 P P' R R'); [done|congruence].
Qed.

Lemma node_at_in x0 P R : node_at x0 P ∈ x0 :: (e_loc <$> P ++ R).
Proof.
  destruct P as [|e P _] using rev_ind; [by left|]. rewrite node_at_snoc. right. rewrite <- app_assoc, fmap_app. apply elem_of_app.
  right. by left.
Qed.

(** Where an entry of [A ++ e :: B] is: at [e], right after it, or elsewhere,
    where it has the same predecessor without [e]. *)
Lemma split_cases (A B pre rest : list entry) (e e1 : entry) :
  A ++ e :: B = pre ++ e1 :: rest ->
  pre = A /\ e1 = e /\ rest = B \/
  pre = A ++ [e] /\ B = e1 :: rest \/
  (pre <> A ++ [e] /\ exists pre0 rest0, A ++ B = pre0 ++ e1 :: rest0 /\ last pre0 = last pre).
Proof.
  intros E. apply app_eq_inv in E as [(k & EA & E)|(k & -> & E)].
  - destruct k as [|e2 k]; cbn in E; injection E as -> ->; [left; by rewrite app_nil_r in EA|].
    right. right. split; [intros ->; apply (f_equal length) in EA; rewrite !length_app in EA; cbn in EA; lia|].
    exists pre, (k ++ B). by rewrite EA, <- app_assoc.
  - destruct k as [|e2 k]; cbn in E; [injection E as -> ->; left; by rewrite app_nil_r|].
    injection E as <- EB. right. destruct k as [|e3 k _] using rev_ind; [by left|]. right. split.
    { intros EA. apply (f_equal length) in EA. rewrite !length_app in EA. cbn in EA. rewrite length_app in EA. cbn in EA. lia. }
    exists (A ++ k ++ [e3]), rest. rewrite EB, <- !app_assoc. split; [done|]. by rewrite app_comm_cons, !app_assoc, !last_snoc.
Qed.

Lemma entry_inj x0 es pre e rest pre' e' rest' :
  NoDup (x0 :: (e_loc <$> es)) -> es = pre ++ e :: rest -> es = pre' ++ e' :: rest' -> e_loc e = e_loc e' -> pre = pre'.
Proof.
  intros Hnd E E' Hl. assert (pre ++ [e] = pre' ++ [e']) as Hs.
  { eapply (node_at_inj x0 es _ _ rest rest'); [done|by rewrite <- app_assoc..|by rewrite !node_at_snoc]. }
  by apply app_inj_tail in Hs as [? _].
Qed.

(** ** Nodes under changes of the heap *)

(** What one level must be. *)
Definition level_ok (lv : nat) (rest : list entry) (l : nat) (v : zskiplistLevel) : Prop :=
  forward v = fst (link l rest) /\ ((l < lv)%nat -> span v = snd (link l rest)).

Definition set_back (b : option loc) (n : zskiplistNode) : zskiplistNode :=
  {| ele := ele n; score := score n; backward := b; levels := levels n |}.

Lemma upd_node_ok g h lv lv' x0 pre rest pre' rest' :
  node_ok h lv x0 pre rest -> last pre' = last pre ->
  (forall l v, (l < height_at pre)%nat -> level_ok lv rest l v -> level_ok lv' rest' l (g (node_at x0 pre) l v)) ->
  node_ok (upd g h) lv' x0 pre' rest'.
Proof.
  intros (n & Hn & Hlen & Hok & Hd) El Hg.
  assert (node_at x0 pre' = node_at x0 pre) as Ex by (unfold node_at; by rewrite El).
  assert (height_at pre' = height_at pre) as Eh by (unfold height_at; by rewrite El).
  exists (change g (node_at x0 pre) n). rewrite Ex, Eh, upd_lookup, Hn. split; [done|].
  split; [cbn; by rewrite length_imap|]. split; [|by rewrite El]. intros l v Hv. cbn in Hv. rewrite list_lookup_imap in Hv.
  destruct (levels n !! l) as [w|] eqn:E; [|done]. cbn in Hv. injection Hv as <-. apply Hg; [|by apply Hok].
  rewrite <- Hlen. by eapply lookup_lt_Some.
Qed.

Lemma upd_back_ok g h pre e : back_ok h pre e -> back_ok (upd g h) pre e.
Proof. intros (n & Hn & Hb). exists (change g (e_loc e) n). by rewrite upd_lookup, Hn. Qed.

Lemma alter_node_ok b y h lv x0 pre rest : node_ok h lv x0 pre rest -> node_ok (alter (set_back b) y h) lv x0 pre rest.
Proof.
  intros (n & Hn & H). destruct (decide (y = node_at x0 pre)) as [->|Hne].
  - exists (set_back b n). by rewrite lookup_alter_eq, Hn.
  - exists n. by rewrite lookup_alter_ne.
Qed.

Lemma insert_node_ok y m h lv x0 pre rest : h !! y = None -> node_ok h lv x0 pre rest -> node_ok (<[y := m]> h) lv x0 pre rest.
Proof.
  intros Hy (n & Hn & H). exists n. rewrite lookup_insert_ne; [done|]. intros ->. congruence.
Qed.

Lemma insert_back_ok y m h pre e : h !! y = None -> back_ok h pre e -> back_ok (<[y := m]> h) pre e.
Proof. intros Hy (n & Hn & H). exists n. rewrite lookup_insert_ne; [done|]. intros ->. congruence. Qed.

Lemma set_backward_alter h y b n : h !! y = Some n -> set_backward h y b = Ok (alter (set_back b) y h).
Proof.
  intros Hn. unfold set_backward, node. rewrite Hn. cbn [mbind res_bind]. f_equal. apply map_eq. intros z.
  destruct (decide (z = y)) as [->|Hne]; [by rewrite lookup_insert_eq, lookup_alter_eq, Hn|].
  by rewrite lookup_insert_ne, lookup_alter_ne.
Qed.

Lemma alter_level_at b y h x l : level_at (alter (set_back b) y h) x l = level_at h x l.
Proof.
  unfold level_at, node. destruct (decide (y = x)) as [->|Hne]; [|by rewrite lookup_alter_ne].
  rewrite lookup_alter_eq. by destruct (h !! x).
Qed.

Lemma alter_dom b y (h : heap) : dom (alter (set_back b) y h) = dom h.
Proof. apply dom_alter_L. Qed.

(** ** The path of a search *)

(** What [update] and [rank] hold after a search for the place after [A]. *)
Definition updates (x0 : loc) (lv : nat) (A : list entry) (u : list (loc * Z)) : Prop :=
  length u = lv /\ forall l, (l < lv)%nat -> exists P, stops l A P /\ u !! l = Some (node_at x0 P, zlen P).

Lemma stops_zero h lv x0 A B P : repr h lv x0 (A ++ B) -> stops 0 A P -> P = A.
Proof.
  intros Hr (_ & Q & -> & HQ). pose proof (repr_heights _ _ _ _ Hr) as Hh. rewrite <- app_assoc in Hh.
  apply Forall_app in Hh as [_ Hh]. apply Forall_app in Hh as [Hh _]. destruct Q as [|e Q]; [by rewrite app_nil_r|].
  apply Forall_cons_1 in Hh as [? _]. apply Forall_cons_1 in HQ as [? _]. lia.
Qed.

Lemma updates_zero h lv x0 A B u : repr h lv x0 (A ++ B) -> updates x0 lv A u -> u !! 0%nat = Some (node_at x0 A, zlen A).
Proof.
  intros Hr (Hlen & Hu). destruct (Hu 0%nat) as (P & Hst & ->); [apply (repr_levels _ _ _ _ Hr)|].
  by rewrite (stops_zero h lv x0 A B P Hr Hst).
Qed.
Lemma heights_low lv l R : (lv <= l)%nat -> Forall (fun e => 1 <= e_height e <= lv)%nat R -> low l R.
Proof. intros Hl H. eapply Forall_impl; [exact H|]. cbn. lia. Qed.

(** ** New levels *)

Lemma upd_repr g h lv lv' x0 es :
  repr h lv x0 es -> (lv <= lv' <= ZSKIPLIST_MAXLEVEL)%nat ->
  (forall pre rest l v, es = pre ++ rest -> (l < height_at pre)%nat -> level_ok lv rest l v ->
    level_ok lv' rest l (g (node_at x0 pre) l v)) ->
  repr (upd g h) lv' x0 es.
Proof.
  intros [Hnd Hn Hb Hl Hh Hs] Hlv Hg. split; [done| | |lia| |done].
  - intros pre rest E. eapply upd_node_ok; [by apply Hn|done|]. intros l v. by apply Hg.
  - intros pre e rest E. eapply upd_back_ok, Hb, E.
  - eapply Forall_impl; [exact Hh|]. cbn. lia.
Qed.

(** [zsl->level] going up to that of the new node. *)
Lemma raise_levels_spec h zsl A B u lv' :
  repr h (level zsl) (header zsl) (A ++ B) -> zlength zsl = zlen (A ++ B) -> updates (header zsl) (level zsl) A u ->
  (lv' <= ZSKIPLIST_MAXLEVEL)%nat ->
  let lv := Nat.max (level zsl) lv' in
  exists h' u', raise_levels h zsl lv' u = Ok (h', set_zlevel zsl lv, u') /\ repr h' lv (header zsl) (A ++ B) /\
    updates (header zsl) lv A u' /\ dom h' = dom h.
Proof.
  intros Hr Hz Hu Hlv lv. unfold raise_levels. destruct (Nat.ltb_spec (level zsl) lv') as [Hlt|Hge].
  2: { exists h, u. replace lv with (level zsl) by lia. by destruct zsl. }
  replace lv with lv' by lia. clear lv. set (lv := level zsl) in *. set (x0 := header zsl) in *.
  set (g' := fun y (i : nat) v => if decide (y = x0) then {| forward := forward v; span := zlength zsl |} else v).
  assert (for_up (lv' - lv) lv (fun i h => set_span h x0 i (zlength zsl)) h = Ok (upd (between lv lv' g' keep) h)) as ->.
  { rewrite <- (upd_keep h) at 1. replace lv' with (lv + (lv' - lv))%nat at 2 by lia. apply for_up_upd. intros j Hj.
    destruct (repr_level_at h lv x0 [] (A ++ B) j Hr) as (v & Hv & _); [cbn; lia|]. cbn in Hv.
    rewrite (upd_set_span _ _ _ _ _ _ Hv). f_equal. apply upd_ext. intros y i w Hw.
    destruct (decide (i = j)) as [->|Hij]; [|by rewrite override_other, between_other].
    rewrite between_next by lia. unfold g'. destruct (decide (y = x0)) as [->|Hy].
    - rewrite override_eq, between_last. cbn. by assert (w = v) as -> by congruence.
    - rewrite override_ne, between_last by done. done. }
  cbn [mbind res_bind]. eexists _, _. split; [done|]. split; [|split; [|apply upd_dom]].
  - apply upd_repr with (lv := lv); [done|lia|]. intros pre rest l v E Hl [Hf Hs]. unfold between, g', keep.
    pose proof (repr_heights _ _ _ _ Hr) as Hh. destruct (decide (lv <= l < lv')%nat) as [Hin|Hout].
    + assert (low l rest) as Hlow.
      { rewrite E in Hh. apply Forall_app in Hh as [_ Hh]. eapply Forall_impl; [exact Hh|]. cbn. lia. }
      destruct pre as [|e pre _] using rev_ind.
      * rewrite decide_True by done. split; [done|]. intros _. rewrite link_low by done. cbn. by rewrite Hz, E.
      * exfalso. rewrite height_at_snoc in Hl. rewrite E in Hh. apply Forall_app in Hh as [Hh _].
        apply Forall_app in Hh as [_ Hh]. apply Forall_cons_1 in Hh as [Hh _]. lia.
    + split; [done|]. intros Hl'. apply Hs. lia.
  - destruct Hu as [Hlen Hu]. split; [rewrite length_app, length_replicate; lia|]. intros l Hl.
    destruct (Nat.lt_ge_cases l lv) as [Hl'|Hl'].
    + destruct (Hu l Hl') as (P & ? & HP). exists P. split; [done|]. rewrite lookup_app_l; [done|lia].
    + exists []. split.
      * split; [cbn; unfold ZSKIPLIST_MAXLEVEL in *; lia|]. exists A. split; [done|].
        pose proof (repr_heights _ _ _ _ Hr) as Hh. apply Forall_app in Hh as [Hh _]. eapply Forall_impl; [exact Hh|]. cbn. lia.
      * rewrite lookup_app_r by lia. apply lookup_replicate. split; [done|lia].
Qed.

(** ** Linking a node *)

Section link.
Context (h : heap) (lv : nat) (x0 : loc) (A B : list entry) (u : list (loc * Z)).
Context (Hr : repr h lv x0 (A ++ B)) (Hu : updates x0 lv A u).
Context (e : entry) (n0 : zskiplistNode).
#[local] Abbreviation x := (e_loc e).
#[local] Abbreviation ht := (e_height e).
Context (Hx : h !! x = None) (Hht : (1 <= ht <= lv)%nat) (Hn0 : length (levels n0) = ht) (Hd0 : holds n0 e).

Definition prev_level (l : nat) : zskiplistLevel :=
  match u !! l with
  | Some (y, _) => match level_at h y l with Ok w => w | Fault _ => {| forward := None; span := 0 |} end
  | None => {| forward := None; span := 0 |}
  end.

Definition linked (y : loc) (l : nat) (v : zskiplistLevel) : zskiplistLevel :=
  match u !! l with
  | Some (y', r) =>
    if decide (y = x) then
      {| forward := forward (prev_level l); span := u64 (span (prev_level l) - u64 (zlen A - r)) |}
    else if decide (y = y') then {| forward := Some x; span := u64 (u64 (zlen A - r) + 1) |}
    else v
  | None => v
  end.

Definition bumped (y : loc) (l : nat) (v : zskiplistLevel) : zskiplistLevel :=
  match u !! l with
  | Some (y', r) => if decide (y = y') then {| forward := forward v; span := u64 (span v + 1) |} else v
  | None => v
  end.

#[local] Abbreviation h1 := (<[x := n0]> h).

Lemma new_level l : (l < ht)%nat -> exists v, level_at h1 x l = Ok v.
Proof.
  intros Hl. destruct (lookup_lt_is_Some_2 (levels n0) l) as [v Hv]; [lia|]. exists v. apply level_at_ok.
  exists n0. by rewrite lookup_insert_eq.
Qed.

Lemma old_level y l v : level_at h y l = Ok v -> y <> x /\ level_at h1 y l = Ok v.
Proof.
  rewrite !level_at_ok. intros (n & Hn & Hv). assert (y <> x) as Hne by congruence. split; [done|].
  exists n. by rewrite lookup_insert_ne.
Qed.

Lemma path_level l : (l < lv)%nat ->
  exists P w, stops l A P /\ u !! l = Some (node_at x0 P, zlen P) /\ level_at h (node_at x0 P) l = Ok w /\
    prev_level l = w /\ node_at x0 P <> x /\ level_at h1 (node_at x0 P) l = Ok w.
Proof.
  intros Hl. destruct Hu as [_ Hu']. destruct (Hu' l Hl) as (P & Hst & HP). pose proof Hst as (Hh & Q & EQ & _).
  destruct (repr_level_at h lv x0 P (Q ++ B) l) as (w & Hw & _); [by rewrite app_assoc, <- EQ|done|].
  exists P, w. destruct (old_level _ _ _ Hw). split; [done|]. split; [done|]. split; [done|].
  split; [|done]. unfold prev_level. by rewrite HP, Hw.
Qed.

Lemma link_loop : for_up ht 0 (link_level x u (zlen A)) h1 = Ok (upd (between 0 ht linked keep) h1).
Proof.
  rewrite <- (upd_keep h1) at 1. apply (for_up_upd _ linked keep h1 ht 0). intros j Hj.
  destruct (path_level j) as (P & w & _ & Hj' & _ & Ep & Hne & Hw); [lia|]. set (y := node_at x0 P) in *.
  destruct (new_level j) as [v Hv]; [lia|]. unfold link_level, nth_. rewrite Hj'. cbn [mbind res_bind fst snd].
  rewrite (upd_level_at _ _ _ _ _ Hw). cbn [mbind res_bind].
  rewrite (upd_set_forward _ _ _ _ _ _ Hv). cbn [mbind res_bind].
  rewrite (upd_set_forward _ _ _ _ _ _ Hw). cbn [mbind res_bind].
  rewrite (upd_level_at _ _ _ _ _ Hw). cbn [mbind res_bind].
  rewrite (upd_set_span _ _ _ _ _ _ Hv). cbn [mbind res_bind].
  rewrite (upd_set_span _ _ _ _ _ _ Hw). f_equal. apply upd_ext. intros z i t Ht.
  destruct (decide (i = j)) as [->|Hij]; [|by rewrite !override_other, between_other].
  rewrite between_next by lia. destruct (decide (z = y)) as [->|Hz].
  - rewrite override_eq, override_ne, override_eq by done. unfold linked. by rewrite Hj', decide_False, decide_True by done.
  - rewrite override_ne by done. destruct (decide (z = x)) as [->|Hzx].
    + rewrite override_eq, (override_ne _ y), override_eq by done. rewrite override_eq, override_ne, !between_last by done.
      unfold linked. by rewrite Hj', Ep, decide_True by done.
    + rewrite !override_ne, between_last by done. unfold linked. by rewrite Hj', !decide_False by done.
Qed.

Lemma bump_loop g : (forall y l v, (ht <= l)%nat -> g y l v = v) ->
  for_up (lv - ht) ht (bump_level u) (upd g h1) = Ok (upd (between ht lv bumped g) h1).
Proof.
  intros Hg. replace lv with (ht + (lv - ht))%nat at 2 by lia. apply for_up_upd. intros j Hj.
  destruct (path_level j) as (P & w & _ & Hj' & _ & Ep & Hne & Hw); [lia|].
  unfold bump_level, nth_. rewrite Hj'. cbn [mbind res_bind fst snd].
  rewrite (upd_level_at _ _ _ _ _ Hw). cbn [mbind res_bind].
  rewrite (upd_set_span _ _ _ _ _ _ Hw). f_equal. apply upd_ext. intros z i t Ht.
  destruct (decide (i = j)) as [->|Hij]; [|by rewrite override_other, between_other].
  rewrite between_next by lia. unfold bumped. rewrite Hj'. destruct (decide (z = node_at x0 P)) as [->|Hz].
  - rewrite override_eq, between_last, Hg by lia. by assert (t = w) as -> by congruence.
  - rewrite override_ne, between_last by done. apply Hg. lia.
Qed.
Definition inserted : loc -> nat -> zskiplistLevel -> zskiplistLevel := between ht lv bumped (between 0 ht linked keep).

Lemma inserted_spec y l v :
  inserted y l v = if decide (l < ht)%nat then linked y l v else if decide (l < lv)%nat then bumped y l v else v.
Proof.
  unfold inserted, between, keep. destruct (decide (l < ht)%nat).
  - by rewrite decide_False, decide_True by lia.
  - rewrite (decide_False (P := (0 <= l < ht)%nat)) by lia. destruct (decide (l < lv)%nat); [by rewrite decide_True by lia|by rewrite decide_False by lia].
Qed.

(** The path stops at [P] exactly when no later node before the place reaches the level. *)
Lemma path_here l P S : (l < lv)%nat -> A = P ++ S -> (l < height_at P)%nat ->
  low l S /\ u !! l = Some (node_at x0 P, zlen P) \/
  ~ low l S /\ exists y r, u !! l = Some (y, r) /\ y <> node_at x0 P /\ y <> x.
Proof.
  intros Hl EA HP. destruct (path_level l Hl) as (P' & w & Hst & Hu' & _ & _ & Hne & _).
  destruct (decide (node_at x0 P' = node_at x0 P)) as [E|Hn].
  - left. pose proof Hst as (_ & Q & EQ & HQ).
    assert (P' = P) as -> by (eapply (node_at_inj x0 (A ++ B) P' P (Q ++ B) (S ++ B));
      [apply (repr_nodup _ _ _ _ Hr)|by rewrite app_assoc, <- EQ|by rewrite app_assoc, <- EA|done]).
    split; [|done]. rewrite EA in EQ. by apply app_inv_head in EQ as ->.
  - right. split; [|eauto]. intros Hlow. apply Hn. f_equal. apply (stops_unique l A); [done|]. split; [done|]. by exists S.
Qed.

Lemma inserted_before P S l v :
  A = P ++ S -> (l < height_at P)%nat -> level_ok lv (S ++ B) l v -> level_ok lv (S ++ e :: B) l (inserted (node_at x0 P) l v).
Proof.
  intros EA HP [Hf Hs]. rewrite inserted_spec. pose proof (repr_short _ _ _ _ Hr) as Hshort.
  assert (Hall : low l B -> low l S -> fst (link l (S ++ e :: B)) = if (l <? ht)%nat then Some x else None).
  { intros HB HS. rewrite link_app_low by done. cbn [link fst snd]. destruct (l <? ht)%nat; [done|]. by rewrite (link_low l B). }
  assert (node_at x0 P <> x) as Hne.
  { intros E. destruct (repr_node _ _ _ _ Hr P (S ++ B)) as (n & Hn & _); [by rewrite app_assoc, EA|]. congruence. }
  destruct (decide (l < lv)%nat) as [Hl|Hl].
  - specialize (Hs Hl). destruct (path_here l P S Hl EA HP) as [[Hlow Hu']|(Hlow & y & r & Hu' & Hy & Hyx)].
    + rewrite link_app_low in Hf, Hs by done. unfold level_ok. rewrite (link_app_low l S (e :: B)) by done. cbn [link].
      pose proof (link_snd l B). pose proof (zlen_nonneg P). pose proof (zlen_nonneg S). rewrite EA, !zlen_app in Hshort. pose proof (zlen_nonneg B).
      destruct (decide (l < ht)%nat) as [Hlt|Hlt].
      * rewrite (proj2 (Nat.ltb_lt _ _) Hlt). unfold linked. rewrite Hu', decide_False, decide_True by done.
        rewrite EA, zlen_app. split; [done|]. intros _. cbn [span snd]. rewrite (wrapu_small 64 (zlen P + zlen S - zlen P)) by lia. rewrite wrapu_small; lia.
      * rewrite (proj2 (Nat.ltb_ge _ _)) by lia. unfold bumped. rewrite Hu', decide_True by done. split; [done|]. intros _. cbn [span snd] in *.
        rewrite Hs, wrapu_small by lia. lia.
    + unfold level_ok. rewrite (link_app_high l S (e :: B) B) by done.
      destruct (decide (l < ht)%nat); [unfold linked|unfold bumped]; rewrite Hu', ?decide_False by done; by split.
  - destruct (decide (l < ht)%nat); [lia|]. split; [|done]. pose proof (repr_heights _ _ _ _ Hr) as Hh.
    rewrite EA, <- app_assoc in Hh. apply Forall_app in Hh as [_ Hh]. apply Forall_app in Hh as [HS HB].
    rewrite Hf, Hall by (apply (heights_low lv); [lia|done]). rewrite (proj2 (Nat.ltb_ge _ _)) by lia.
    rewrite link_low; [done|]. apply Forall_app. split; (apply (heights_low lv); [lia|done]).
Qed.

Lemma inserted_after P e' R l v : B = P ++ e' :: R -> inserted (e_loc e') l v = v.
Proof.
  intros EB. rewrite inserted_spec. pose proof (repr_nodup _ _ _ _ Hr) as Hnd.
  assert (e_loc e' <> x) as Hne.
  { intros E. destruct (repr_entry h lv x0 (A ++ P) e' R) as (n & Hn & _); [rewrite <- app_assoc, <- EB; done|].
    unfold node in Hn. by rewrite E, Hx in Hn. }
  destruct (decide (l < lv)%nat) as [Hl|Hl]; [|by destruct (decide (l < ht)%nat); [lia|]].
  destruct (path_level l Hl) as (P' & w & (_ & Q & EQ & _) & Hu' & _).
  assert (e_loc e' <> node_at x0 P') as Hne'.
  { intros E. assert (P' = A ++ P ++ [e']) as EP.
    { eapply (node_at_inj x0 (A ++ B) _ _ (Q ++ B) R); [done|by rewrite app_assoc, <- EQ|by rewrite EB, <- !app_assoc|].
      by rewrite app_assoc, node_at_snoc. }
    apply (f_equal length) in EP. apply (f_equal length) in EQ. rewrite length_app in EQ. rewrite !length_app in EP. cbn in EP. lia. }
  destruct (decide (l < ht)%nat); [unfold linked|unfold bumped]; by rewrite Hu', !decide_False by done.
Qed.

Lemma inserted_new l v : (l < ht)%nat -> level_ok lv B l (inserted x l v).
Proof.
  intros Hl. rewrite inserted_spec, decide_True by done. destruct (path_level l) as (P & w & (HP & Q & EQ & HQ) & Hu' & Hw & Ep & _); [lia|].
  unfold linked. rewrite Hu', Ep, decide_True by done.
  destruct (repr_level_at h lv x0 P (Q ++ B) l) as (w' & Hw' & Hf & Hs); [by rewrite app_assoc, <- EQ|done|].
  assert (w' = w) as -> by congruence. rewrite link_app_low in Hf, Hs by done. cbn [fst snd] in *. split; [done|]. intros _. cbn [span].
  pose proof (repr_short _ _ _ _ Hr) as Hshort. rewrite EQ in Hshort |- *. rewrite !zlen_app in Hshort. rewrite zlen_app. rewrite Hs by lia. cbn [snd]. pose proof (link_snd l B).
  pose proof (zlen_nonneg P). pose proof (zlen_nonneg Q). rewrite (wrapu_small 64 (zlen P + zlen Q - zlen P)) by lia. rewrite wrapu_small; lia.
Qed.

Lemma inserted_nodes pre rest : A ++ e :: B = pre ++ rest -> node_ok (upd inserted h1) lv x0 pre rest.
Proof.
  assert (forall P S, A = P ++ S -> node_ok (upd inserted h1) lv x0 P (S ++ e :: B)) as Hbefore.
  { intros P S EA. eapply upd_node_ok; [apply insert_node_ok; [done|]|done|].
    - apply (repr_node _ _ _ _ Hr P (S ++ B)). by rewrite app_assoc, <- EA.
    - intros l v. by apply inserted_before. }
  intros E. apply app_eq_inv in E as [(k & EA & ->)|(k & -> & E)]; [by apply Hbefore|].
  destruct k as [|e1 k]; cbn in E.
  { subst rest. rewrite app_nil_r. apply (Hbefore A []). by rewrite app_nil_r. }
  injection E as <- EB. destruct k as [|e' k _] using rev_ind.
  - cbn in EB. subst rest. exists (change inserted x n0). rewrite node_at_snoc, height_at_snoc, upd_lookup, lookup_insert_eq.
    split; [done|]. split; [cbn; by rewrite length_imap|]. split; [|by rewrite last_snoc].
    intros l v Hv. cbn in Hv. rewrite list_lookup_imap in Hv. destruct (levels n0 !! l) as [w|] eqn:El; [|done]. injection Hv as <-.
    apply inserted_new. rewrite <- Hn0. by eapply lookup_lt_Some.
  - rewrite <- app_assoc in EB. eapply (upd_node_ok _ _ lv lv x0 (A ++ k ++ [e']) rest); [apply insert_node_ok; [done|]|..].
    + apply (repr_node _ _ _ _ Hr). by rewrite EB, <- !app_assoc.
    + rewrite !app_comm_cons, !app_assoc, !last_snoc. done.
    + intros l v _. rewrite app_assoc, node_at_snoc. by rewrite (inserted_after k e' rest).
Qed.

(** The pointers back: of the new node, and of the one after it. *)
Definition relinked : heap :=
  let h2 := alter (set_back (e_loc <$> last A)) x (upd inserted h1) in
  match B with b :: _ => alter (set_back (Some x)) (e_loc b) h2 | [] => h2 end.

Lemma fresh_loc_entries : NoDup (x0 :: (e_loc <$> A ++ e :: B)).
Proof.
  pose proof (repr_nodup _ _ _ _ Hr) as Hnd. rewrite fmap_app in Hnd |- *. cbn [fmap list_fmap].
  rewrite <- Permutation_middle, Permutation_swap. constructor; [|done].
  intros Hin. rewrite <- fmap_app in Hin. apply elem_of_cons in Hin as [Hin|Hin].
  - destruct (repr_node _ _ _ _ Hr [] (A ++ B) eq_refl) as (n & Hn & _). cbn in Hn. congruence.
  - apply list_elem_of_fmap in Hin as (e' & E & Hin). apply list_elem_of_split in Hin as (P & R & ER). pose proof Hr as Hr'. rewrite ER in Hr'.
    destruct (repr_entry _ _ _ _ _ _ Hr') as (n & Hn & _). unfold node in Hn. by rewrite <- E, Hx in Hn.
Qed.

Lemma relinked_old y n : h !! y = Some n -> (forall b B', B = b :: B' -> y <> e_loc b) ->
  exists m, relinked !! y = Some m /\ backward m = backward n.
Proof.
  intros Hn Hb. exists (change inserted y n). assert (x <> y) as Hne by congruence.
  assert (upd inserted h1 !! y = Some (change inserted y n)) as Hu' by by rewrite upd_lookup, lookup_insert_ne, Hn.
  split; [|done]. unfold relinked. destruct B as [|b B']; [by rewrite lookup_alter_ne|].
  rewrite !lookup_alter_ne; [done|done|]. specialize (Hb b B' eq_refl). done.
Qed.

Lemma relinked_back pre e1 rest : A ++ e :: B = pre ++ e1 :: rest -> back_ok relinked pre e1.
Proof.
  intros E. pose proof fresh_loc_entries as Hnd. pose proof E as [(-> & -> & ->)|[[-> EB]|(Hpre & pre0 & rest0 & E0 & Hlast)]]%split_cases.
  - exists (set_back (e_loc <$> last A) (change inserted x n0)). split; [|done]. unfold relinked.
    assert (alter (set_back (e_loc <$> last A)) x (upd inserted h1) !! x = Some (set_back (e_loc <$> last A) (change inserted x n0))) as Hn.
    { by rewrite lookup_alter_eq, upd_lookup, lookup_insert_eq. }
    destruct B as [|b B']; [done|]. rewrite lookup_alter_ne; [done|]. intros Eb.
    pose proof (entry_inj x0 _ A e (b :: B') (A ++ [e]) b B' Hnd eq_refl (app_assoc _ [e] _) (eq_sym Eb)) as EA.
    apply (f_equal length) in EA. rewrite length_app in EA. cbn in EA. lia.
  - destruct (repr_entry h lv x0 A e1 rest) as (n & Hn & _); [by rewrite <- EB|]. unfold node in Hn.
    destruct (h !! e_loc e1) as [m|] eqn:Em; [|done]. assert (e_loc e1 <> x) as Hne by congruence.
    exists (set_back (Some x) (change inserted (e_loc e1) m)). rewrite last_snoc. split; [|done]. unfold relinked. rewrite EB.
    by rewrite lookup_alter_eq, lookup_alter_ne, upd_lookup, lookup_insert_ne, Em.
  - destruct (repr_back _ _ _ _ Hr pre0 e1 rest0 E0) as (n & Hn & Hb). destruct (relinked_old _ n Hn) as (m & Hm & Em).
    { intros b B' -> Eb. apply Hpre. eapply (entry_inj x0); [exact Hnd|exact E|by rewrite <- app_assoc|done]. }
    exists m. split; [done|]. by rewrite Em, Hb, Hlast.
Qed.

Lemma relinked_repr : zlen (A ++ e :: B) < 2 ^ 62 -> repr relinked lv x0 (A ++ e :: B).
Proof.
  intros Hlen. split; [apply fresh_loc_entries| |apply relinked_back|apply (repr_levels _ _ _ _ Hr)| |done].
  - intros pre rest E. pose proof (inserted_nodes pre rest E) as Hok. unfold relinked.
    destruct B; [by apply alter_node_ok|by apply alter_node_ok, alter_node_ok].
  - pose proof (repr_heights _ _ _ _ Hr) as Hh. apply Forall_app in Hh as [HA HB]. apply Forall_app. split; [done|]. by constructor.
Qed.

Lemma relinked_dom : dom relinked = {[x]} ∪ dom h.
Proof. unfold relinked. destruct B; rewrite ?alter_dom, upd_dom, dom_insert_L; done. Qed.
End link.

(** ** Unlinking a node *)

(** The nodes of a path, without ranks. *)
Definition path (x0 : loc) (lv : nat) (A : list entry) (u : list loc) : Prop :=
  forall l, (l < lv)%nat -> exists P, stops l A P /\ u !! l = Some (node_at x0 P).

Lemma updates_path x0 lv A u : updates x0 lv A u -> path x0 lv A u.*1.
Proof. intros [_ Hu] l Hl. destruct (Hu l Hl) as (P & Hst & HP). exists P. by rewrite list_lookup_fmap, HP. Qed.

Section unlink.
Context (h : heap) (lv : nat) (x0 : loc) (A B : list entry) (e : entry) (u : list loc).
Context (Hr : repr h lv x0 (A ++ e :: B)) (Hu : path x0 lv A u).
#[local] Abbreviation x := (e_loc e).
#[local] Abbreviation ht := (e_height e).

Definition own_level (l : nat) : zskiplistLevel :=
  match level_at h x l with Ok w => w | Fault _ => {| forward := None; span := 0 |} end.

Definition unlinked (y : loc) (l : nat) (v : zskiplistLevel) : zskiplistLevel :=
  match u !! l with
  | Some y' =>
    if decide (y = y') then
      if decide (forward v = Some x) then
        {| forward := forward (own_level l); span := u64 (span v + u64 (span (own_level l) - 1)) |}
      else {| forward := forward v; span := u64 (span v - 1) |}
    else v
  | None => v
  end.

Lemma own_level_spec l : (l < ht)%nat -> level_at h x l = Ok (own_level l) /\ level_ok lv B l (own_level l).
Proof.
  intros Hl. destruct (repr_level_at h lv x0 (A ++ [e]) B l) as (v & Hv & Hf & Hs);
    [by rewrite <- app_assoc|by rewrite height_at_snoc|]. rewrite node_at_snoc in Hv. unfold own_level. by rewrite Hv.
Qed.

(** A prefix of [A] does not end with [e], nor with an entry of [B]. *)
Lemma prefix_ne P Q pre e1 rest : A = P ++ Q -> A ++ e :: B = pre ++ e1 :: rest -> (length A <= length pre)%nat -> node_at x0 P <> e_loc e1.
Proof.
  intros EA E Hlen H. assert (P = pre ++ [e1]) as EP.
  { eapply (node_at_inj x0 (A ++ e :: B) _ _ (Q ++ e :: B) rest); [apply (repr_nodup _ _ _ _ Hr)|by rewrite app_assoc, <- EA|
      by rewrite <- app_assoc|by rewrite node_at_snoc]. }
  apply (f_equal length) in EP, EA. rewrite length_app in EP, EA. cbn in EP. lia.
Qed.

Lemma path_point l : (l < lv)%nat ->
  exists P Q w, A = P ++ Q /\ low l Q /\ u !! l = Some (node_at x0 P) /\ level_at h (node_at x0 P) l = Ok w /\
    level_ok lv (Q ++ e :: B) l w /\ node_at x0 P <> x /\ (forward w = Some x <-> (l < ht)%nat).
Proof.
  intros Hl. destruct (Hu l Hl) as (P & (HP & Q & EQ & HQ) & Hul).
  destruct (repr_level_at h lv x0 P (Q ++ e :: B) l) as (w & Hw & Hok); [by rewrite app_assoc, <- EQ|done|].
  exists P, Q, w. split; [done|]. split; [done|]. split; [done|]. split; [done|]. split; [done|].
  split; [by eapply (prefix_ne P Q A e B)|]. destruct Hok as [-> _]. rewrite link_app_low by done. cbn [link fst].
  destruct (Nat.ltb_spec l ht) as [Hlt|Hge]; [done|]. split; [|lia]. cbn. intros Hin%link_fst.
  pose proof (repr_nodup _ _ _ _ Hr) as Hnd. rewrite fmap_app in Hnd. cbn [fmap list_fmap] in Hnd.
  apply list.NoDup_cons in Hnd as [_ Hnd]. apply list.NoDup_app in Hnd as (_ & _ & Hnd). by apply list.NoDup_cons in Hnd as [? _].
Qed.

Lemma unlink_loop : for_up lv 0 (unlink_level x u) h = Ok (upd (between 0 lv unlinked keep) h).
Proof.
  rewrite <- (upd_keep h) at 1. apply (for_up_upd _ unlinked keep h lv 0). intros j Hj.
  destruct (path_point j) as (P & Q & w & _ & _ & Hj' & Hw & _ & Hne & Hiff); [lia|]. set (y := node_at x0 P) in *.
  unfold unlink_level, nth_. rewrite Hj'. cbn [mbind res_bind].
  rewrite (upd_level_at _ _ _ _ _ Hw). cbn [mbind res_bind]. rewrite between_last. unfold keep at 1.
  assert (forall z i t f, level_at h z i = Ok t -> (i <> j -> f z i t = between 0 j unlinked keep z i t) ->
    (z <> y -> f z j t = t) -> f y j w = unlinked y j w -> f z i t = between 0 (S j) unlinked keep z i t) as Hfin.
  { intros z i t f Ht H1 H2 H3. destruct (decide (i = j)) as [->|Hij]; [|by rewrite between_other, H1].
    rewrite between_next by lia. destruct (decide (z = y)) as [->|Hz].
    - by assert (t = w) as -> by congruence.
    - rewrite H2 by done. unfold unlinked. by rewrite Hj', decide_False. }
  destruct (decide (forward w = Some x)) as [Hf|Hf].
  - destruct (own_level_spec j) as [Hx _]; [by apply Hiff|]. rewrite (upd_level_at _ _ _ _ _ Hx). cbn [mbind res_bind].
    rewrite (upd_set_span _ _ _ _ _ _ Hw). cbn [mbind res_bind]. rewrite (upd_level_at _ _ _ _ _ Hx). cbn [mbind res_bind].
    rewrite (upd_set_forward _ _ _ _ _ _ Hw). f_equal. apply upd_ext. intros z i t Ht.
    apply Hfin; [done|intros; by rewrite !override_other|intros ?; by rewrite !override_ne, between_last|].
    rewrite !override_eq, override_ne, !between_last by done. unfold unlinked. by rewrite Hj', !decide_True by done.
  - rewrite (upd_set_span _ _ _ _ _ _ Hw). f_equal. apply upd_ext. intros z i t Ht.
    apply Hfin; [done|intros; by rewrite !override_other|intros ?; by rewrite !override_ne, between_last|].
    rewrite override_eq, between_last. unfold unlinked. by rewrite Hj', decide_True, decide_False by done.
Qed.
Definition removed : loc -> nat -> zskiplistLevel -> zskiplistLevel := between 0 lv unlinked keep.

Lemma removed_before P S l v :
  A = P ++ S -> (l < height_at P)%nat -> level_ok lv (S ++ e :: B) l v -> level_ok lv (S ++ B) l (removed (node_at x0 P) l v).
Proof.
  intros EA HP [Hf Hs]. unfold removed, between, keep. pose proof (repr_short _ _ _ _ Hr) as Hshort.
  rewrite EA, !zlen_app, zlen_cons in Hshort.
  pose proof (zlen_nonneg P). pose proof (zlen_nonneg S). pose proof (link_snd l B).
  destruct (Nat.lt_ge_cases l lv) as [Hl|Hl].
  - rewrite decide_True by lia. specialize (Hs Hl).
    destruct (path_point l Hl) as (P' & Q & w & EQ & HQ & Hul & Hw & _ & Hne & Hiff).
    unfold unlinked. rewrite Hul. destruct (decide (node_at x0 P = node_at x0 P')) as [Eq|Hn].
    + assert (P = P') as <- by (eapply (node_at_inj x0 (A ++ e :: B) P P' (S ++ e :: B) (Q ++ e :: B));
        [apply (repr_nodup _ _ _ _ Hr)|by rewrite app_assoc, <- EA|by rewrite app_assoc, <- EQ|done]).
      rewrite EA in EQ. apply app_inv_head in EQ as <-. rewrite link_app_low in Hf, Hs by done. cbn [link] in Hf, Hs.
      unfold level_ok. rewrite (link_app_low l S B) by done.
      destruct (repr_level_at h lv x0 P (S ++ e :: B) l) as (w' & Hw' & Hfw & _); [by rewrite app_assoc, <- EA|done|].
      assert (w' = w) as -> by congruence. rewrite link_app_low in Hfw by done. cbn [link] in Hfw.
      assert (forward v = Some x <-> (l < ht)%nat) as Hiff' by (rewrite <- Hiff, Hf, Hfw; done).
      destruct (Nat.ltb_spec l ht) as [Hlt|Hge].
      * rewrite decide_True by tauto. destruct (own_level_spec l Hlt) as [_ [Hof Hos]]. split; [done|]. intros _.
        cbn [span]. rewrite Hs, Hos by done. cbn [snd]. pose proof (repr_heights _ _ _ _ Hr) as Hh.
        assert (0 < snd (link l B) \/ snd (link l B) = 0) as [Hpos|Hz] by lia.
        -- rewrite (wrapu_small 64 (snd (link l B) - 1)) by lia. rewrite wrapu_small; lia.
        -- rewrite Hz. unfold wrapu. rewrite Zplus_mod_idemp_r. rewrite Z.mod_small; lia.
      * rewrite decide_False by (rewrite Hiff'; lia). split; [done|]. intros _. cbn [span]. rewrite Hs. cbn [snd]. rewrite wrapu_small; lia.
    + assert (~ low l S) as Hnl.
      { intros Hlow. apply Hn. f_equal. apply (stops_unique l A); (split; [|by eexists]); [done|].
        destruct (Hu l Hl) as (P2 & Hst2 & Hu2). rewrite Hul in Hu2. injection Hu2 as Hu2. pose proof Hst2 as (Hh2 & Q2 & EQ2 & _).
        assert (P' = P2) as -> by (eapply (node_at_inj x0 (A ++ e :: B) P' P2 (Q ++ e :: B) (Q2 ++ e :: B));
          [apply (repr_nodup _ _ _ _ Hr)|by rewrite app_assoc, <- EQ|by rewrite app_assoc, <- EQ2|done]). done. }
      unfold level_ok. by rewrite (link_app_high l S B (e :: B)).
  - rewrite decide_False by lia. split; [|lia]. pose proof (repr_heights _ _ _ _ Hr) as Hh.
    rewrite EA, <- app_assoc in Hh. apply Forall_app in Hh as [_ Hh]. apply Forall_app in Hh as [HS HB].
    apply Forall_cons_1 in HB as [He HB]. rewrite Hf, !link_low; [done|..].
    + apply Forall_app. split; by apply (heights_low lv).
    + apply Forall_app. split; [by apply (heights_low lv)|]. constructor; [lia|by apply (heights_low lv)].
Qed.

Lemma removed_after P e' R l v : B = P ++ e' :: R -> removed (e_loc e') l v = v.
Proof.
  intros EB. unfold removed, between, keep. destruct (decide (0 <= l < lv)%nat) as [Hl|]; [|done].
  destruct (path_point l) as (P' & Q & w & EQ & _ & Hul & _); [lia|]. unfold unlinked. rewrite Hul, decide_False; [done|].
  intros E. eapply (prefix_ne P' Q (A ++ e :: P) e' R); [done|by rewrite EB, <- app_assoc|rewrite length_app; lia|done].
Qed.

Lemma removed_nodes pre rest : A ++ B = pre ++ rest -> node_ok (upd removed h) lv x0 pre rest.
Proof.
  assert (forall P S, A = P ++ S -> node_ok (upd removed h) lv x0 P (S ++ B)) as Hbefore.
  { intros P S EA. eapply upd_node_ok; [|done|].
    - apply (repr_node _ _ _ _ Hr P (S ++ e :: B)). by rewrite app_assoc, <- EA.
    - intros l v. by apply removed_before. }
  intros E. apply app_eq_inv in E as [(k & EA & ->)|(k & -> & EB)]; [by apply Hbefore|].
  destruct k as [|e' k _] using rev_ind.
  { cbn in EB. subst rest. rewrite app_nil_r. apply (Hbefore A []). by rewrite app_nil_r. }
  rewrite <- app_assoc in EB. eapply (upd_node_ok _ _ lv lv x0 (A ++ e :: k ++ [e']) rest).
  - apply (repr_node _ _ _ _ Hr). by rewrite EB; simplify_list_eq.
  - by rewrite !app_comm_cons, !app_assoc, !last_snoc.
  - intros l v _. rewrite app_comm_cons, app_assoc, node_at_snoc. by rewrite (removed_after k e' rest).
Qed.

(** The pointer back of the node after the one removed. *)
Definition bypassed : heap :=
  match B with b :: _ => alter (set_back (e_loc <$> last A)) (e_loc b) (upd removed h) | [] => upd removed h end.

Lemma bypassed_back pre e1 rest : A ++ B = pre ++ e1 :: rest -> back_ok bypassed pre e1.
Proof.
  intros E. pose proof (repr_nodup _ _ _ _ Hr) as Hnd.
  assert (forall pre0 rest0, A ++ e :: B = pre0 ++ e1 :: rest0 -> last pre0 = last pre -> pre0 <> A ++ [e] -> back_ok bypassed pre e1) as Hold.
  { intros pre0 rest0 E0 Hlast Hne. destruct (repr_back _ _ _ _ Hr pre0 e1 rest0 E0) as (n & Hn & Hb).
    exists (change removed (e_loc e1) n). split; [|by rewrite <- Hlast]. unfold bypassed.
    assert (upd removed h !! e_loc e1 = Some (change removed (e_loc e1) n)) as Hn' by by rewrite upd_lookup, Hn.
    destruct B as [|b B']; [done|]. rewrite lookup_alter_ne; [done|]. intros Eb. apply Hne.
    eapply (entry_inj x0); [exact Hnd|exact E0|by rewrite <- app_assoc|done]. }
  apply app_eq_inv in E as [(k & EA & E)|(k & -> & EB)].
  - destruct k as [|e2 k].
    + cbn in E. rewrite app_nil_r in EA. subst pre. unfold bypassed. rewrite <- E.
      destruct (repr_entry h lv x0 (A ++ [e]) e1 rest) as (n & Hn & _); [by rewrite <- app_assoc, E|]. unfold node in Hn.
      destruct (h !! e_loc e1) as [m|] eqn:Em; [|done]. exists (set_back (e_loc <$> last A) (change removed (e_loc e1) m)).
      by rewrite lookup_alter_eq, upd_lookup, Em.
    + injection E as -> ->. apply (Hold pre (k ++ e :: B)); [by rewrite EA, <- app_assoc|done|].
      intros ->. apply (f_equal length) in EA. rewrite !length_app in EA. cbn in EA. lia.
  - destruct k as [|e3 k _] using rev_ind.
    + cbn in EB. rewrite app_nil_r. unfold bypassed. rewrite EB.
      destruct (repr_entry h lv x0 (A ++ [e]) e1 rest) as (n & Hn & _); [by rewrite <- app_assoc, <- EB|]. unfold node in Hn.
      destruct (h !! e_loc e1) as [m|] eqn:Em; [|done]. exists (set_back (e_loc <$> last A) (change removed (e_loc e1) m)).
      by rewrite lookup_alter_eq, upd_lookup, Em.
    + apply (Hold (A ++ e :: k ++ [e3]) rest).
      * by rewrite EB; simplify_list_eq.
      * by rewrite !app_comm_cons, !app_assoc, !last_snoc.
      * intros EA. apply (f_equal length) in EA. rewrite !length_app in EA. cbn in EA. rewrite length_app in EA. cbn in EA. lia.
Qed.

Lemma without_nodup : NoDup (x0 :: (e_loc <$> A ++ B)).
Proof.
  pose proof (repr_nodup _ _ _ _ Hr) as Hnd. rewrite fmap_app in Hnd |- *. cbn [fmap list_fmap] in Hnd.
  rewrite <- Permutation_middle, Permutation_swap in Hnd. by apply list.NoDup_cons in Hnd as [_ ?].
Qed.

Lemma bypassed_repr : repr bypassed lv x0 (A ++ B).
Proof.
  split; [apply without_nodup| |apply bypassed_back|apply (repr_levels _ _ _ _ Hr)|..].
  - intros pre rest E. pose proof (removed_nodes pre rest E) as Hok. unfold bypassed. destruct B; [done|by apply alter_node_ok].
  - pose proof (repr_heights _ _ _ _ Hr) as Hh. apply Forall_app in Hh as [HA HB]. apply Forall_cons_1 in HB as [_ HB]. by apply Forall_app.
  - pose proof (repr_short _ _ _ _ Hr) as Hs. rewrite zlen_app, zlen_cons in Hs. rewrite zlen_app. lia.
Qed.

Lemma bypassed_dom : dom bypassed = dom h.
Proof. unfold bypassed. destruct B; rewrite ?alter_dom, upd_dom; done. Qed.

(** The removed node keeps its contents. *)
Lemma bypassed_own n : h !! x = Some n -> bypassed !! x = Some n.
Proof.
  intros Hn. assert (upd removed h !! x = Some n) as Hu'.
  { rewrite upd_lookup, Hn. cbn. f_equal. unfold change. destruct n as [? ? ? ls]. unfold with_levels. cbn. f_equal.
    apply list_eq. intros l. rewrite list_lookup_imap. destruct (ls !! l) as [v|]; [|done]. cbn. f_equal.
    unfold removed, between, keep. destruct (decide (0 <= l < lv)%nat) as [Hl|]; [|done].
    destruct (path_point l) as (P & Q & w & _ & _ & Hul & _ & _ & Hne & _); [lia|]. unfold unlinked. by rewrite Hul, decide_False. }
  unfold bypassed. destruct B as [|b B'] eqn:EB; [done|]. rewrite lookup_alter_ne; [done|]. intros Eb.
  pose proof (entry_inj x0 _ A e (b :: B') (A ++ [e]) b B' (repr_nodup _ _ _ _ Hr) eq_refl (app_assoc _ [e] _) (eq_sym Eb)) as EA.
  apply (f_equal length) in EA. rewrite length_app in EA. cbn in EA. lia.
Qed.

End unlink.

End ZskiplistLink.
