(* ===== verification/ZskiplistOps.v ===== *)
(** * Skip lists: the operations on the list.

    [zsl_inv h zsl es] is the invariant of a skip list that holds the entries
    [es]; [zsl_ok] says in addition that the heap holds nothing else.  Each operation of t_zset.c returns on such a list, keeps the
    invariant, and changes the entries or answers as the sorted list says. *)

From Stdlib Require Import SpecFloat Sorting.Sorted.
From S2P Require Import Prelude Zskiplist ZskiplistOrder ZskiplistTheory ZskiplistLink.
From stdpp Require Import list gmap fin_maps.
#[local] Open Scope Z_scope.

Module ZskiplistOps.
Import Zskiplist ZskiplistOrder ZskiplistTheory ZskiplistLink.

Definition it (e : entry) : item := (e_score e, e_ele e).

(** The highest level in use is that of the highest node. *)
Definition top_ok (lv : nat) (es : list entry) : Prop := lv = 1%nat \/ Exists (fun e => e_height e = lv) es.

Record zsl_inv (h : heap) (zsl : zskiplist) (es : list entry) : Prop := {
  ok_repr : repr h (level zsl) (header zsl) es;
  ok_tail : tail zsl = e_loc <$> last es;
  ok_length : zlength zsl = zlen es;
  ok_top : top_ok (level zsl) es;
  ok_sorted : sorted (it <$> es);
  ok_numbers : Forall (fun e => is_number (it e)) es
}.

(** The locations in use. *)
Definition owned (zsl : zskiplist) (es : list entry) : gset loc := list_to_set (header zsl :: (e_loc <$> es)).

(** The invariant, and nothing else is allocated. *)
Definition zsl_ok (h : heap) (zsl : zskiplist) (es : list entry) : Prop := zsl_inv h zsl es /\ dom h = owned zsl es.

(** ** Conditions *)

Definition reads (cond : zskiplistNode -> res bool) (p : item -> bool) : Prop :=
  forall n e, holds n e -> cond n = Ok (p (it e)).

Lemma before_reads sc b : reads (before sc b) (fun a => ilt a (sc, b)).
Proof.
  intros n e [He Hs]. unfold before, ele_of, ilt, it. rewrite He, Hs. cbn. destruct (dlt _ _); [done|]. by destruct (deq _ _).
Qed.

Lemma before_or_at_reads sc b : reads (before_or_at sc b) (fun a => ile a (sc, b)).
Proof.
  intros n e [He Hs]. unfold before_or_at, ele_of, ile, it. rewrite He, Hs. cbn. destruct (dlt _ _); [done|]. by destruct (deq _ _).
Qed.

Lemma is_at_reads sc b : reads (is_at sc b) (fun a => deq sc a.1 && (elecmp a.2 b =? 0)).
Proof. intros n e [He Hs]. unfold is_at, ele_of, it. rewrite He, Hs. cbn. by destruct (deq _ _). Qed.

(** The same on the entries of a list. *)
Definition reads_on (es : list entry) (cond : zskiplistNode -> res bool) (p : item -> bool) : Prop :=
  forall n e, e ∈ es -> holds n e -> cond n = Ok (p (it e)).

Lemma reads_reads_on es cond p : reads cond p -> reads_on es cond p.
Proof. intros H n e _. apply H. Qed.

Lemma reads_cond_ok cond p A B base :
  reads_on (A ++ B) cond p -> Forall (fun e => p (it e) = true) A -> Forall (fun e => p (it e) = false) B ->
  cond_ok (A ++ B) base (length A) (fun _ _ n => cond n).
Proof.
  intros Hc HA HB r s n pre e post E Hn _ _ _. rewrite (Hc n e); [|rewrite E; set_solver|done]. f_equal.
  assert ((A ++ B) !! length pre = Some e) as Hl by by rewrite E, list_lookup_middle.
  case_bool_decide as Hlt.
  - rewrite lookup_app_l in Hl by done. by eapply (Forall_lookup_1 _ _ _ _ HA).
  - rewrite lookup_app_r in Hl by lia. by eapply (Forall_lookup_1 _ _ _ _ HB).
Qed.

(** A search from the header for a predicate that holds on [A] alone. *)
Lemma zsl_search_spec h zsl A B cond :
  repr h (level zsl) (header zsl) (A ++ B) -> cond_ok (A ++ B) 0 (length A) cond ->
  exists u, descend h cond (level zsl) (header zsl) 0 = Ok u /\ updates (header zsl) (level zsl) A u /\
    stopped u (header zsl) = node_at (header zsl) A /\ u !! 0%nat = Some (node_at (header zsl) A, zlen A).
Proof.
  intros Hr Hc. pose proof (repr_levels _ _ _ _ Hr) as Hl.
  destruct (descend_spec h (level zsl) (header zsl) (A ++ B) Hr cond 0 B (level zsl) [] A) as (u & E & Hlen & Hu); try done.
  { cbn. lia. }
  change (node_at (header zsl) []) with (header zsl) in E. change (zlen [] - 0) with 0 in E.
  assert (updates (header zsl) (level zsl) A u) as Hup.
  { split; [done|]. intros l Hl'. destruct (Hu l Hl') as (P & ? & HP). exists P. by rewrite Z.sub_0_r in HP. }
  exists u. split; [done|]. split; [done|]. pose proof (updates_zero _ _ _ _ _ _ Hr Hup) as H0. split; [|done].
  destruct u as [|[y r] u]; [done|]. cbn in H0 |- *. congruence.
Qed.

Lemma link_zero lv B : Forall (fun e => 1 <= e_height e <= lv)%nat B -> fst (link 0 B) = e_loc <$> head B.
Proof. intros [|b B' Hb _]; [done|]. cbn. by destruct (e_height b); [lia|]. Qed.

(** The node after the place. *)
Lemma zsl_next_spec h lv x0 A B : repr h lv x0 (A ++ B) ->
  exists v, level_at h (node_at x0 A) 0 = Ok v /\ forward v = e_loc <$> head B.
Proof.
  intros Hr. destruct (repr_level_at h lv x0 A B 0 Hr) as (v & Hv & Hf & _).
  { apply (height_at_bounds _ _ _ _ _ Hr). }
  exists v. split; [done|]. rewrite Hf. apply (link_zero lv).
  pose proof (repr_heights _ _ _ _ Hr) as Hh. by apply Forall_app in Hh as [_ ?].
Qed.

(** ** Creation *)

Section with_junk.
Context (junk_backward : option loc) (junk_level : nat -> zskiplistLevel).

Lemma zslCreate_spec :
  exists h zsl, zslCreate junk_backward junk_level ∅ = Ok (h, zsl) /\ zsl_ok h zsl [].
Proof.
  unfold zslCreate, zslCreateNode. set (x := fresh (dom ∅)).
  set (n0 := {| ele := None; score := S754_zero false; backward := junk_backward; levels := junk_level <$> seq 0 ZSKIPLIST_MAXLEVEL |}).
  set (h0 := <[x := n0]> ∅).
  assert (forall j, (j < ZSKIPLIST_MAXLEVEL)%nat -> level_at h0 x j = Ok (junk_level j)) as Hl.
  { intros j Hj. apply level_at_ok. exists n0. split; [apply lookup_insert_eq|]. cbn [levels n0].
    by rewrite list_lookup_fmap, lookup_seq_lt by lia. }
  set (zero := fun (_ : loc) (_ : nat) (_ : zskiplistLevel) => {| forward := None; span := 0 |}).
  assert (for_up ZSKIPLIST_MAXLEVEL 0 (fun j h => h ← set_forward h x j None; set_span h x j 0) h0
    = Ok (upd (between 0 ZSKIPLIST_MAXLEVEL zero keep) h0)) as ->.
  { rewrite <- (upd_keep h0) at 1. apply (for_up_upd _ zero keep h0 ZSKIPLIST_MAXLEVEL 0). intros j Hj.
    assert (Hv : level_at h0 x j = Ok (junk_level j)) by (apply Hl; lia).
    rewrite (upd_set_forward _ _ _ _ _ _ Hv). cbn [mbind res_bind]. rewrite (upd_set_span _ _ _ _ _ _ Hv). f_equal.
    apply upd_ext. intros y i v Hy. assert (y = x) as ->.
    { apply level_at_ok in Hy as (n & Hn & _). unfold h0 in Hn. apply lookup_insert_Some in Hn as [[? _]|[_ Hn]]; [done|]. by rewrite lookup_empty in Hn. }
    destruct (decide (i = j)) as [->|Hij]; [|by rewrite !override_other, between_other].
    rewrite between_next by lia. by rewrite !override_eq. }
  cbn [mbind res_bind]. set (h1 := upd _ h0). assert (h1 !! x = Some (change (between 0 ZSKIPLIST_MAXLEVEL zero keep) x n0)) as Hx.
  { unfold h1. rewrite upd_lookup. unfold h0. by rewrite lookup_insert_eq. }
  rewrite (set_backward_alter h1 x None _ Hx). cbn [mbind res_bind]. eexists _, _. split; [done|].
  split; [split; cbn [level header tail zlength]; [|done|done|by left|constructor..]|].
  - split; [apply NoDup_singleton| | | |constructor|done].
    + intros [|] rest E; [|done]. cbn in E. subst rest. apply alter_node_ok. eexists. split; [exact Hx|]. split; [done|]. split; [|done].
      intros l v Hv. cbn [levels change with_levels] in Hv. rewrite list_lookup_imap in Hv.
      destruct (levels n0 !! l) as [w|] eqn:E; [|done]. cbn in Hv. injection Hv as <-. apply lookup_lt_Some in E. cbn in E.
      unfold between. rewrite decide_True by (unfold ZSKIPLIST_MAXLEVEL; lia). done.
    + intros [|] ? ? E; done.
    + unfold ZSKIPLIST_MAXLEVEL. lia.
  - rewrite alter_dom. unfold h1. rewrite upd_dom. unfold h0. rewrite dom_insert_L, dom_empty_L. done.
Qed.

(** A level between 1 and 32 whenever the draws end. *)
Lemma random_loop_spec draws lv : Exists (fun r => threshold <= r) draws -> exists n, random_loop draws lv = Ok n /\ (lv <= n)%nat.
Proof.
  intros H. revert lv. induction draws as [|r draws IH]; [by apply Exists_nil in H|]. intros lv. cbn.
  destruct (Z.ltb_spec r threshold).
  - apply Exists_cons in H as [H|H]; [lia|]. destruct (IH H (lv + 1)%nat) as (n & -> & Hn). exists n. split; [done|]. lia.
  - exists lv. split; [done|]. lia.
Qed.

Lemma zslRandomLevel_spec draws : Exists (fun r => threshold <= r) draws ->
  exists lv, zslRandomLevel draws = Ok lv /\ (1 <= lv <= ZSKIPLIST_MAXLEVEL)%nat.
Proof.
  intros H. unfold zslRandomLevel. destruct (random_loop_spec draws 1 H) as (n & -> & Hn). cbn [mbind res_bind].
  eexists. split; [done|]. destruct (Nat.ltb_spec n ZSKIPLIST_MAXLEVEL); [lia|]. unfold ZSKIPLIST_MAXLEVEL. lia.
Qed.
(** ** Insertion *)

Lemma sorted_place A B k :
  sorted (it <$> A ++ B) -> Forall (fun e => is_number (it e)) (A ++ B) -> is_number k ->
  Forall (fun e => same (it e) k = false) (A ++ B) ->
  Forall (fun e => ilt (it e) k = true) A -> Forall (fun e => ilt (it e) k = false) B ->
  forall e, it e = k -> sorted (it <$> A ++ e :: B).
Proof.
  intros Hs Hn Hk Hd HA HB e He. rewrite fmap_app in Hs |- *. cbn [fmap list_fmap]. rewrite He.
  apply sorted_app in Hs as (HsA & HsB & HAB). apply sorted_app. split; [done|].
  assert (Forall (fun b => ilt k b = true) (it <$> B)) as HkB.
  { apply Forall_fmap. apply Forall_app in Hn as [_ HnB]. apply Forall_app in Hd as [_ HdB].
    rewrite Forall_forall in HB, HnB, HdB |- *. intros b Hb. cbn. apply ilt_total; [by apply HnB|done|by apply HB|by apply HdB]. }
  split; [by apply sorted_cons|]. apply Forall_fmap. rewrite Forall_fmap in HAB. rewrite Forall_forall in HA, HAB |- *.
  intros a Ha. cbn. constructor; [by apply HA|by apply HAB].
Qed.

Lemma split_entries (p : item -> bool) es :
  sorted (it <$> es) -> downward p ->
  exists A B, es = A ++ B /\ Forall (fun e => p (it e) = true) A /\ Forall (fun e => p (it e) = false) B.
Proof.
  intros Hs Hp. destruct (sorted_split p _ Hs Hp) as (A' & B' & E & HA & HB).
  apply fmap_app_inv in E as (A & B & -> & -> & ->). exists A, B. by rewrite !Forall_fmap in HA, HB.
Qed.

Lemma top_ok_insert lv ht A B e :
  top_ok lv (A ++ B) -> e_height e = ht -> (1 <= ht)%nat -> top_ok (Nat.max lv ht) (A ++ e :: B).
Proof.
  intros Ht He Hh. destruct (Nat.le_gt_cases lv ht).
  - right. rewrite Nat.max_r by done. apply Exists_app. right. by apply Exists_cons_hd.
  - rewrite Nat.max_l by lia. destruct Ht as [?|Ht]; [by left|]. right. apply Exists_app in Ht as [?|?]; apply Exists_app; [by left|].
    right. by apply Exists_cons_tl.
Qed.

Lemma link_node_spec h zsl A B u e n0 :
  repr h (level zsl) (header zsl) (A ++ B) -> updates (header zsl) (level zsl) A u ->
  h !! e_loc e = None -> (1 <= e_height e <= level zsl)%nat -> length (levels n0) = e_height e -> holds n0 e ->
  tail zsl = e_loc <$> last (A ++ B) -> zlength zsl = zlen (A ++ B) -> zlen (A ++ e :: B) < 2 ^ 62 ->
  exists h' zsl', link_node (<[e_loc e := n0]> h) zsl (e_loc e) (e_height e) u = Ok (h', zsl') /\
    repr h' (level zsl) (header zsl) (A ++ e :: B) /\ dom h' = {[e_loc e]} ∪ dom h /\ header zsl' = header zsl /\
    level zsl' = level zsl /\ tail zsl' = e_loc <$> last (A ++ e :: B) /\ zlength zsl' = zlen (A ++ e :: B).
Proof.
  intros Hr Hu Hx Hht Hn0 Hd0 Ht Hl Hroom. unfold link_node, nth_. set (lv := level zsl) in *. set (x0 := header zsl) in *.
  rewrite (updates_zero h lv x0 A B u Hr Hu). cbn [mbind res_bind fst snd].
  rewrite (link_loop h lv x0 A B u Hr Hu e n0 Hx Hht Hn0). cbn [mbind res_bind].
  rewrite (bump_loop h lv x0 A B u Hr Hu e n0 Hx Hht Hn0).
  2: { intros y l v Hle. unfold between, keep. by rewrite decide_False by lia. }
  cbn [mbind res_bind]. fold (inserted h lv A u e). set (g := upd _ _).
  assert (g !! e_loc e = Some (change (inserted h lv A u e) (e_loc e) n0)) as Hg.
  { unfold g. by rewrite upd_lookup, lookup_insert_eq. }
  assert ((if decide (node_at x0 A = x0) then None else Some (node_at x0 A)) = e_loc <$> last A) as ->.
  { destruct A as [|a A' _] using rev_ind; [by rewrite decide_True|]. rewrite node_at_snoc, last_snoc, decide_False; [done|].
    intros E. pose proof (repr_nodup _ _ _ _ Hr) as Hnd. apply list.NoDup_cons in Hnd as [Hnd _]. apply Hnd. rewrite <- E, <- app_assoc, fmap_app.
    apply elem_of_app. right. by left. }
  rewrite (set_backward_alter g _ _ _ Hg). cbn [mbind res_bind]. rewrite alter_level_at.
  pose proof (relinked_repr h lv x0 A B u Hr Hu e n0 Hx Hht Hn0 Hd0 Hroom) as Hrel.
  assert (dom (relinked h lv A B u e n0) = {[e_loc e]} ∪ dom h) as Hdom by (eapply relinked_dom; eassumption).
  assert (u64 (zlen (A ++ B) + 1) = zlen (A ++ e :: B)) as Hlen.
  { rewrite !zlen_app, zlen_cons in *. pose proof (zlen_nonneg A). pose proof (zlen_nonneg B). rewrite wrapu_small; lia. }
  assert (exists v, level_at g (e_loc e) 0 = Ok v /\ forward v = e_loc <$> head B) as (v & -> & Hf).
  { destruct (inserted_nodes h lv x0 A B u Hr Hu e n0 Hx Hht Hn0 Hd0 (A ++ [e]) B) as (n & Hn & Hln & Hok & _); [by rewrite <- app_assoc|].
    rewrite node_at_snoc in Hn. rewrite height_at_snoc in Hln. destruct (lookup_lt_is_Some_2 (levels n) 0) as [v Hv]; [lia|].
    exists v. split; [apply level_at_ok; eauto|]. destruct (Hok 0%nat v Hv) as [-> _]. apply (link_zero lv).
    pose proof (repr_heights _ _ _ _ Hr) as Hh. by apply Forall_app in Hh as [_ ?]. }
  cbn [mbind res_bind]. rewrite Hf. destruct B as [|b B']; cbn [fmap option_fmap option_map head].
  - cbn [mbind res_bind fst snd]. eexists _, _. split; [done|]. cbn [set_tail set_zlength header level tail zlength]. rewrite Hl.
    split; [exact Hrel|]. split; [exact Hdom|]. split; [done|]. split; [done|]. split; [by rewrite last_snoc|done].
  - destruct (repr_entry h lv x0 A b B' Hr) as (m & Hm & _). unfold node in Hm. destruct (h !! e_loc b) as [m'|] eqn:Em; [|done].
    assert (e_loc b <> e_loc e) as Hne by congruence.
    rewrite (set_backward_alter _ (e_loc b) _ (change (inserted h lv A u e) (e_loc b) m')).
    2: { rewrite lookup_alter_ne by done. unfold g. by rewrite upd_lookup, lookup_insert_ne, Em. }
    cbn [mbind res_bind fst snd]. eexists _, _. split; [done|]. cbn [set_tail set_zlength header level tail zlength]. rewrite Hl.
    split; [exact Hrel|]. split; [exact Hdom|]. split; [done|]. split; [done|]. split; [|done].
    rewrite Ht. by rewrite !last_app_cons, last_cons_cons.
Qed.

Lemma zslInsert_spec h zsl es sc b draws :
  zsl_inv h zsl es -> isnan sc = false -> Forall (fun e => same (it e) (sc, b) = false) es -> zlen es + 1 < 2 ^ 62 ->
  Exists (fun r => threshold <= r) draws ->
  exists A B h' zsl' e, es = A ++ B /\ zslInsert junk_backward junk_level h zsl sc b draws = Ok (h', zsl', e_loc e) /\
    it e = (sc, b) /\ zsl_inv h' zsl' (A ++ e :: B) /\ header zsl' = header zsl /\ (e_loc e ∉ dom h) /\ dom h' = {[e_loc e]} ∪ dom h.
Proof.
  intros [Hr Htail Hlen Htop Hsort Hnum] Hsc Hnew Hroom Hd.
  destruct (split_entries (fun a => ilt a (sc, b)) es Hsort (downward_ilt _)) as (A & B & -> & HA & HB).
  unfold zslInsert. rewrite Hsc. cbn [negb cassert mbind res_bind].
  destruct (zsl_search_spec h zsl A B (fun _ _ n => before sc b n) Hr) as (u & -> & Hu & _).
  { eapply reads_cond_ok; [apply reads_reads_on, before_reads|done..]. }
  cbn [mbind res_bind]. destruct (zslRandomLevel_spec draws Hd) as (ht & -> & Hht). cbn [mbind res_bind].
  destruct (raise_levels_spec h zsl A B u ht Hr Hlen Hu) as (h1 & u1 & -> & Hr1 & Hu1 & Hdom1); [lia|].
  cbn [mbind res_bind]. set (lv := Nat.max (level zsl) ht) in *. unfold zslCreateNode.
  set (e := {| e_loc := fresh (dom h1); e_score := sc; e_ele := b; e_height := ht |}).
  set (n0 := {| ele := Some b; score := sc; backward := junk_backward; levels := junk_level <$> seq 0 ht |}).
  assert (h1 !! e_loc e = None) as Hx by apply not_elem_of_dom, is_fresh.
  assert (zlen (A ++ e :: B) < 2 ^ 62) as Hroom' by (rewrite zlen_app in Hroom |- *; rewrite zlen_cons; lia).
  destruct (link_node_spec h1 (set_zlevel zsl lv) A B u1 e n0 Hr1 Hu1 Hx) as (h2 & zsl2 & E & Hr2 & Hdom2 & Hh2 & Hl2 & Ht2 & Hz2); try done.
  { cbn. lia. }
  { cbn. by rewrite length_map, length_seq. }
  change (e_loc e) with (fresh (dom h1)) in E at 1 2. change (e_height e) with ht in E. rewrite E. cbn [mbind res_bind fst snd].
  exists A, B, h2, zsl2, e. split; [done|]. split; [done|]. split; [done|]. rewrite <- Hdom1. split; [|split; [done|split; [by apply is_fresh|done]]].
  split; try done.
  - by rewrite Hl2, Hh2.
  - rewrite Hl2. cbn. apply top_ok_insert; [done|done|lia].
  - by eapply (sorted_place A B (sc, b)).
  - apply Forall_app in Hnum as [? ?]. apply Forall_app. split; [done|]. by constructor.
Qed.

(** ** Deletion *)

Lemma drop_levels_spec h x0 es : forall lv, repr h lv x0 es ->
  exists lv', drop_levels h x0 lv = Ok lv' /\ repr h lv' x0 es /\ top_ok lv' es /\ (lv' <= lv)%nat.
Proof.
  assert (forall lv lv', repr h lv x0 es -> (1 <= lv' <= lv)%nat -> Forall (fun e => e_height e <= lv')%nat es -> repr h lv' x0 es) as Hlower.
  { intros lv lv' [Hnd Hn Hb Hl Hh Hs] Hlv Hlow. split; [done| |done|lia| |done].
    - intros pre rest E. destruct (Hn pre rest E) as (n & Hx & Hlen & Hok & Hd). exists n. split; [done|]. split; [done|]. split; [|done].
      intros l v Hv. destruct (Hok l v Hv) as [Hf Hsp]. split; [done|]. intros Hl'. apply Hsp. lia.
    - rewrite Forall_forall in Hh, Hlow |- *. intros e He. specialize (Hh e He). specialize (Hlow e He). cbn in *. lia. }
  induction lv as [|lv IH]; intros Hr; [pose proof (repr_levels _ _ _ _ Hr); lia|].
  destruct lv as [|lv]; [exists 1%nat; split; [done|]; split; [done|]; split; [by left|done]|]. cbn [drop_levels].
  pose proof (repr_levels _ _ _ _ Hr) as Hl.
  destruct (repr_level_at h _ x0 [] es (S lv) Hr) as (v & Hv & Hf & _); [cbn; lia|]. cbn in Hv. rewrite Hv. cbn [mbind res_bind].
  rewrite Hf. destruct (low_dec (S lv) es) as [Hlow|(S' & e & T & -> & HS & He)].
  - rewrite link_low by done. cbn [fst]. destruct (IH ltac:(eapply Hlower; [done|lia|done])) as (lv' & E & Hr' & Ht & Hle).
    exists lv'. split; [done|]. split; [done|]. split; [done|lia].
  - rewrite link_high by done. cbn [fst]. eexists. split; [done|]. split; [done|]. split; [|done]. right.
    apply Exists_app. right. apply Exists_cons_hd. pose proof (repr_heights _ _ _ _ Hr) as Hh.
    apply Forall_app in Hh as [_ Hh]. apply Forall_cons_1 in Hh as [Hh _]. lia.
Qed.

Lemma sorted_without A B e : sorted (it <$> A ++ e :: B) -> sorted (it <$> A ++ B).
Proof.
  rewrite !fmap_app. cbn [fmap list_fmap]. intros (HA & HB & HAB)%sorted_app. apply sorted_cons in HB as [_ HB]. apply sorted_app.
  split; [done|]. split; [done|]. eapply Forall_impl; [exact HAB|]. cbn. intros a H. by apply Forall_cons_1 in H as [_ ?].
Qed.

(** The node [zslDeleteNode] unlinks, once the levels are done. *)
Lemma unlink_facts h lv x0 A e B u :
  repr h lv x0 (A ++ e :: B) -> path x0 lv A u ->
  exists n v, h !! e_loc e = Some n /\ upd (removed h lv e u) h !! e_loc e = Some n /\
    bypassed h lv A B e u !! e_loc e = Some n /\ backward n = e_loc <$> last A /\
    level_at (upd (removed h lv e u) h) (e_loc e) 0 = Ok v /\ forward v = e_loc <$> head B.
Proof.
  intros Hr Hu. destruct (repr_back _ _ _ _ Hr A e B eq_refl) as (n & Ex & Hback). exists n.
  pose proof (bypassed_own h lv x0 A B e u Hr Hu n Ex) as Hown. pose proof (repr_heights _ _ _ _ Hr) as Hh.
  apply Forall_app in Hh as [_ Hh]. apply Forall_cons_1 in Hh as [He HB].
  destruct (own_level_spec h lv x0 A B e Hr 0) as [Hw [Hf _]]; [lia|]. rewrite (link_zero lv) in Hf by done.
  exists (own_level h e 0). set (g := upd _ _). assert (g !! e_loc e = Some n) as Hg.
  { revert Hown. unfold bypassed. fold g. destruct B as [|b B']; [done|]. intros Hown.
    destruct (decide (e_loc b = e_loc e)) as [E|Hne]; [|by rewrite lookup_alter_ne in Hown].
    pose proof (entry_inj x0 _ A e (b :: B') (A ++ [e]) b B' (repr_nodup _ _ _ _ Hr) eq_refl (app_assoc _ [e] _) (eq_sym E)) as EA.
    apply (f_equal length) in EA. rewrite length_app in EA. cbn in EA. lia. }
  split_and!; try done. rewrite <- Hw. unfold level_at, node. by rewrite Hg, Ex.
Qed.

Lemma zslDeleteNode_spec h zsl A e B u :
  zsl_inv h zsl (A ++ e :: B) -> path (header zsl) (level zsl) A u ->
  exists h' zsl' n, zslDeleteNode h zsl (e_loc e) u = Ok (h', zsl') /\ zsl_inv h' zsl' (A ++ B) /\ header zsl' = header zsl /\
    dom h' = dom h /\ h !! e_loc e = Some n /\ h' !! e_loc e = Some n /\ (level zsl' <= level zsl)%nat.
Proof.
  intros [Hr Htail Hlen Htop Hsort Hnum] Hu. unfold zslDeleteNode.
  set (lv := level zsl) in *. set (x0 := header zsl) in *.
  rewrite (unlink_loop h lv x0 A B e u Hr Hu). cbn [mbind res_bind]. fold (removed h lv e u).
  pose proof (bypassed_repr h lv x0 A B e u Hr Hu) as Hby.
  assert (dom (bypassed h lv A B e u) = dom h) as Hdom by (eapply bypassed_dom; eassumption).
  destruct (unlink_facts h lv x0 A e B u Hr Hu) as (n & v & Ex & Hg & Hown & Hback & -> & Hf). cbn [mbind res_bind].
  unfold node. rewrite Hg. cbn [mbind res_bind]. rewrite Hback, Hf.
  assert (u64 (zlength zsl - 1) = zlen (A ++ B)) as ->.
  { rewrite Hlen. pose proof (repr_short _ _ _ _ Hr) as Hs. rewrite !zlen_app, zlen_cons in *. pose proof (zlen_nonneg A).
    pose proof (zlen_nonneg B). rewrite wrapu_small; lia. }
  destruct (drop_levels_spec _ x0 (A ++ B) lv Hby) as (lv' & Hdrop & Hr' & Htop' & Hle).
  assert (forall zsl', header zsl' = x0 -> tail zsl' = e_loc <$> last (A ++ B) -> zlength zsl' = zlen (A ++ B) -> level zsl' = lv' ->
    zsl_inv (bypassed h lv A B e u) zsl' (A ++ B)) as Hinv.
  { intros zsl' E1 E2 E3 E4. split; rewrite ?E1, ?E2, ?E3, ?E4; try done; [by eapply sorted_without|].
    apply Forall_app in Hnum as [HA HB]. apply Forall_cons_1 in HB as [_ HB]. by apply Forall_app. }
  unfold bypassed in *. destruct B as [|b B']; cbn [fmap option_fmap option_map head].
  - cbn [mbind res_bind fst snd]. rewrite Hdrop. cbn [mbind res_bind]. eexists _, _, n. split; [done|].
    split; [apply Hinv; try done; cbn; by rewrite app_nil_r|]. done.
  - destruct (repr_entry h lv x0 (A ++ [e]) b B') as (m & Hm & _); [by rewrite <- app_assoc|]. unfold node in Hm.
    destruct (h !! e_loc b) as [m'|] eqn:Em; [|done].
    rewrite (set_backward_alter _ (e_loc b) _ (change (removed h lv e u) (e_loc b) m')) by by rewrite upd_lookup, Em.
    cbn [mbind res_bind fst snd]. rewrite Hdrop. cbn [mbind res_bind]. eexists _, _, n. split; [done|].
    split; [apply Hinv; try done; cbn; by rewrite Htail, !last_app_cons, last_cons_cons|]. done.
Qed.

(** The entry like [(sc, b)], or none. *)
Lemma find_place h zsl es sc b :
  zsl_inv h zsl es ->
  exists A B u v, es = A ++ B /\ descend h (fun _ _ n => before sc b n) (level zsl) (header zsl) 0 = Ok u /\
    updates (header zsl) (level zsl) A u /\ level_at h (stopped u (header zsl)) 0 = Ok v /\ forward v = e_loc <$> head B /\
    Forall (fun e => ilt (it e) (sc, b) = true) A /\ Forall (fun e => ilt (it e) (sc, b) = false) B /\
    match head B with
    | Some e => same (it e) (sc, b) = false -> Forall (fun e => same (it e) (sc, b) = false) es
    | None => Forall (fun e => same (it e) (sc, b) = false) es
    end.
Proof.
  intros [Hr _ _ _ Hsort Hnum]. destruct (split_entries (fun a => ilt a (sc, b)) es Hsort (downward_ilt _)) as (A & B & -> & HA & HB).
  destruct (zsl_search_spec h zsl A B (fun _ _ n => before sc b n) Hr) as (u & E & Hu & Hst & _).
  { eapply reads_cond_ok; [apply reads_reads_on, before_reads|done..]. }
  destruct (zsl_next_spec h _ _ A B Hr) as (v & Hv & Hf). exists A, B, u, v. rewrite Hst. split_and!; try done.
  pose proof (place_of (sc, b) (it <$> A) (it <$> B)) as Hp. rewrite <- fmap_app in Hp. rewrite !Forall_fmap in Hp.
  specialize (Hp Hsort Hnum HA HB). destruct B as [|e B]; cbn in Hp |- *; [rewrite app_nil_r; by apply Forall_fmap in Hp|].
  intros Hs. specialize (Hp Hs). by apply Forall_fmap in Hp.
Qed.

Lemma is_at_same sc b : reads (is_at sc b) (fun a => same a (sc, b)).
Proof.
  intros n e Hn. rewrite (is_at_reads sc b n e Hn). f_equal. unfold same. f_equal.
  apply eq_true_iff_eq. split; intros H; pose proof (deq_nan _ _ H) as [? ?]; apply deq_key in H; try done; by apply deq_key.
Qed.

Lemma owned_without zsl A e B : NoDup (header zsl :: (e_loc <$> A ++ e :: B)) -> owned zsl (A ++ e :: B) ∖ {[e_loc e]} = owned zsl (A ++ B).
Proof.
  intros Hnd. unfold owned. rewrite !fmap_app in *. cbn [fmap list_fmap] in *.
  rewrite <- Permutation_middle, Permutation_swap in Hnd. apply list.NoDup_cons in Hnd as [Hnd _].
  rewrite !list_to_set_cons, !list_to_set_app_L, list_to_set_cons. set_unfold. intros x. naive_solver.
Qed.

(** Freeing what is not in the list. *)
Lemma free_inv h zsl es x : zsl_inv h zsl es -> x ∉ header zsl :: (e_loc <$> es) -> zsl_inv (delete x h) zsl es.
Proof.
  intros [[Hnd Hn Hb Hl Hh Hs] Htail Hlen Htop Hsort Hnum] Hx. split; try done. split; try done.
  - intros pre rest E. destruct (Hn pre rest E) as (n & Hn' & H). exists n. rewrite lookup_delete_ne; [done|].
    intros ->. apply Hx. rewrite E. apply node_at_in.
  - intros pre e rest E. destruct (Hb pre e rest E) as (n & Hn' & H). exists n. rewrite lookup_delete_ne; [done|].
    intros ->. apply Hx. right. rewrite E, fmap_app. apply elem_of_app. right. by left.
Qed.

Lemma free_ok h h' zsl zsl' A e B n :
  zsl_inv h zsl (A ++ e :: B) -> dom h' = owned zsl (A ++ e :: B) -> header zsl' = header zsl -> h' !! e_loc e = Some n ->
  zsl_inv h' zsl' (A ++ B) -> zslFreeNode h' (e_loc e) = Ok (delete (e_loc e) h') /\ zsl_ok (delete (e_loc e) h') zsl' (A ++ B).
Proof.
  intros Hinv Hdom Hhd Hn Hinv'. unfold zslFreeNode, node. rewrite Hn. split; [done|].
  pose proof (repr_nodup _ _ _ _ (ok_repr _ _ _ Hinv)) as Hnd. split.
  - apply free_inv; [done|]. rewrite Hhd. rewrite fmap_app in Hnd |- *. cbn [fmap list_fmap] in Hnd.
    rewrite <- Permutation_middle, Permutation_swap in Hnd. by apply list.NoDup_cons in Hnd as [? _].
  - rewrite dom_delete_L, Hdom, owned_without by done. unfold owned. by rewrite Hhd.
Qed.

Lemma zslDelete_spec h zsl es sc b keep :
  zsl_ok h zsl es ->
  (exists A e B h' zsl', es = A ++ e :: B /\ same (it e) (sc, b) = true /\
     zslDelete h zsl sc b keep = Ok (h', zsl', Some (e_loc e)) /\ zsl_inv h' zsl' (A ++ B) /\ header zsl' = header zsl /\
     (if keep then dom h' = dom h else zsl_ok h' zsl' (A ++ B))) \/
  (Forall (fun e => same (it e) (sc, b) = false) es /\ zslDelete h zsl sc b keep = Ok (h, zsl, None)).
Proof.
  intros [Hinv Hdom]. destruct (find_place h zsl es sc b Hinv) as (A & B & u & v & -> & E & Hu & Ev & Hf & _ & _ & Hp).
  unfold zslDelete. rewrite E. cbn [mbind res_bind]. rewrite Ev. cbn [mbind res_bind]. rewrite Hf.
  destruct B as [|e B]; cbn [head fmap option_fmap option_map] in *; [by right|].
  destruct (repr_entry h (level zsl) (header zsl) A e B) as (n & Hn & Hd); [apply (ok_repr _ _ _ Hinv)|]. rewrite Hn. cbn [mbind res_bind].
  rewrite (is_at_same sc b n e Hd). cbn [mbind res_bind]. destruct (same (it e) (sc, b)) eqn:Hs; [|right; split; [by apply Hp|done]].
  left. destruct (zslDeleteNode_spec h zsl A e B u.*1 Hinv (updates_path _ _ _ _ Hu)) as (h' & zsl' & m & -> & Hinv' & Hhd & Hdom' & Hm & Hm' & _).
  cbn [mbind res_bind]. destruct keep; [by eexists A, e, B, h', zsl'|].
  destruct (free_ok h h' zsl zsl' A e B m Hinv) as [-> Hok]; [by rewrite Hdom'|done..|]. cbn [mbind res_bind].
  eexists A, e, B, _, zsl'. split_and!; try done. apply Hok.
Qed.

(** ** Changing a score *)

(** The entry at [x] with another score. *)
Definition rescore (x : loc) (sc : double) (e : entry) : entry :=
  if decide (e_loc e = x) then {| e_loc := e_loc e; e_score := sc; e_ele := e_ele e; e_height := e_height e |} else e.

Lemma rescore_loc x sc e : e_loc (rescore x sc e) = e_loc e.
Proof. unfold rescore. by case_decide. Qed.

Lemma rescore_height x sc e : e_height (rescore x sc e) = e_height e.
Proof. unfold rescore. by case_decide. Qed.

Lemma rescore_locs x sc (es : list entry) : e_loc <$> (rescore x sc <$> es) = e_loc <$> es.
Proof. rewrite <- list_fmap_compose. apply list_fmap_ext. intros _ e _. apply rescore_loc. Qed.

Lemma rescore_link l x sc rest : link l (rescore x sc <$> rest) = link l rest.
Proof. induction rest as [|e rest IH]; [done|]. cbn [fmap list_fmap link]. by rewrite rescore_height, rescore_loc, IH. Qed.

Lemma rescore_split x0 A e B sc :
  NoDup (x0 :: (e_loc <$> A ++ e :: B)) ->
  rescore (e_loc e) sc <$> A ++ e :: B = A ++ {| e_loc := e_loc e; e_score := sc; e_ele := e_ele e; e_height := e_height e |} :: B.
Proof.
  intros Hnd. rewrite fmap_app in Hnd. rewrite fmap_app. cbn [fmap list_fmap] in Hnd |- *. apply list.NoDup_cons in Hnd as [_ Hnd].
  rewrite <- Permutation_middle in Hnd. apply list.NoDup_cons in Hnd as [Hx _].
  assert (forall l : list entry, e_loc e ∉ e_loc <$> l -> rescore (e_loc e) sc <$> l = l) as Hid.
  { intros l Hl. rewrite <- (list_fmap_id l) at 2. apply list_fmap_ext. intros i a Ha. unfold rescore. rewrite decide_False; [done|].
    intros E. apply Hl. rewrite <- E. apply list_elem_of_fmap. exists a. split; [done|]. by eapply list_elem_of_lookup_2. }
  rewrite !Hid by set_solver. unfold rescore at 1. by rewrite decide_True.
Qed.

Lemma set_score_repr h lv x0 es x n sc :
  repr h lv x0 es -> x <> x0 -> h !! x = Some n ->
  repr (<[x := {| ele := ele n; score := sc; backward := backward n; levels := levels n |}]> h) lv x0 (rescore x sc <$> es).
Proof.
  intros [Hnd Hn Hb Hl Hh Hs] Hx0 Hx. set (m := Build_zskiplistNode _ _ _ _).
  assert (forall pre, last (rescore x sc <$> pre) = rescore x sc <$> last pre) as Hlast by (intros; apply fmap_last).
  split.
  - by rewrite rescore_locs.
  - intros pre' rest' (pre & rest & -> & -> & E)%fmap_app_inv. destruct (Hn pre rest E) as (n1 & Hn1 & Hlen & Hok & Hd).
    assert (node_at x0 (rescore x sc <$> pre) = node_at x0 pre) as Ex.
    { unfold node_at. rewrite Hlast. destruct (last pre); [|done]. cbn. apply rescore_loc. }
    assert (height_at (rescore x sc <$> pre) = height_at pre) as Eh.
    { unfold height_at. rewrite Hlast. destruct (last pre); [|done]. cbn. apply rescore_height. }
    assert (forall n2, levels n2 = levels n1 -> levels_ok lv n2 (rescore x sc <$> rest)) as Hok'.
    { intros n2 E2 l v. rewrite E2, rescore_link. apply Hok. }
    unfold node_ok. rewrite Ex, Eh, Hlast. destruct (decide (node_at x0 pre = x)) as [Exx|Hne].
    + rewrite Exx in *. assert (n1 = n) as -> by congruence. exists m. rewrite lookup_insert_eq. split_and!; [done|done|by apply Hok'|].
      unfold node_at in Exx. destruct (last pre) as [e|]; [|done]. cbn. unfold rescore. rewrite decide_True by done. destruct Hd as [? _]. done.
    + exists n1. rewrite lookup_insert_ne by done. split_and!; [done|done|by apply Hok'|].
      unfold node_at in Hne. destruct (last pre) as [e|]; [|done]. cbn. unfold rescore. by rewrite decide_False.
  - intros pre' e' rest' (pre & rest & -> & Er & E)%fmap_app_inv. destruct rest as [|e rest]; [done|]. cbn in Er. injection Er as -> ->.
    destruct (Hb pre e rest E) as (n1 & Hn1 & Hb1). unfold back_ok. rewrite rescore_loc, Hlast.
    assert (e_loc <$> (rescore x sc <$> last pre) = e_loc <$> last pre) as -> by (destruct (last pre); [cbn; by rewrite rescore_loc|done]).
    destruct (decide (e_loc e = x)) as [Ee|Hne]; [rewrite Ee in *; exists m; rewrite lookup_insert_eq; split; [done|]; cbn; congruence|].
    exists n1. by rewrite lookup_insert_ne.
  - done.
  - apply Forall_fmap. eapply Forall_impl; [exact Hh|]. intros e. cbn. by rewrite rescore_height.
  - unfold zlen. by rewrite length_fmap.
Qed.

Lemma split_unique (p : entry -> bool) A B A' B' :
  A ++ B = A' ++ B' -> Forall (fun e => p e = true) A -> Forall (fun e => p e = false) B ->
  Forall (fun e => p e = true) A' -> Forall (fun e => p e = false) B' -> A = A' /\ B = B'.
Proof.
  intros E HA HB HA' HB'. apply app_eq_inv in E as [(k & -> & ->)|(k & -> & ->)].
  - apply Forall_app in HA as [_ HA]. apply Forall_app in HB' as [HB' _]. destruct k as [|e k]; [by rewrite app_nil_r|].
    apply Forall_cons_1 in HA as [? _]. apply Forall_cons_1 in HB' as [? _]. congruence.
  - apply Forall_app in HA' as [_ HA']. apply Forall_app in HB as [HB _]. destruct k as [|e k]; [by rewrite app_nil_r|].
    apply Forall_cons_1 in HA' as [? _]. apply Forall_cons_1 in HB as [? _]. congruence.
Qed.

Lemma split_at_same A e B k :
  sorted (it <$> A ++ e :: B) -> same (it e) k = true ->
  Forall (fun a => ilt (it a) k = true) A /\ Forall (fun a => ilt (it a) k = false) (e :: B).
Proof.
  rewrite fmap_app. cbn [fmap list_fmap]. intros (_ & HB & HA)%sorted_app Hs. apply sorted_cons in HB as [HB _]. split.
  - rewrite Forall_fmap in HA. eapply Forall_impl; [exact HA|]. cbn. intros a Ha. apply Forall_cons_1 in Ha as [Ha _].
    by rewrite <- (ilt_same_r _ _ _ Hs).
  - constructor; [by rewrite <- (ilt_same_r _ _ _ Hs), ilt_irrefl|]. rewrite Forall_fmap in HB. eapply Forall_impl; [exact HB|]. cbn.
    intros a Ha. rewrite <- (ilt_same_r _ _ _ Hs). by apply ilt_asym.
Qed.

(** The neighbours' scores leave the place free. *)
Lemma in_place_spec h zsl A e B newscore :
  zsl_inv h zsl (A ++ e :: B) -> isnan newscore = false ->
  exists n b w, node h (e_loc e) = Ok n /\ holds n e /\
    match backward n with None => Ok true | Some y => p ← node h y; Ok (dlt (score p) newscore) end = Ok b /\
    nth_ (levels n) 0 = Ok w /\
    exists c, match forward w with None => Ok true | Some y => p ← node h y; Ok (dlt newscore (score p)) end = Ok c /\
    (b = true -> c = true -> sorted (it <$> A ++ {| e_loc := e_loc e; e_score := newscore; e_ele := e_ele e; e_height := e_height e |} :: B)).
Proof.
  intros [Hr _ _ _ Hsort Hnum] Hnan. set (lv := level zsl) in *. set (x0 := header zsl) in *.
  destruct (repr_back _ _ _ _ Hr A e B eq_refl) as (n & Hn & Hback).
  destruct (repr_entry h lv x0 A e B Hr) as (n' & Hn' & Hd). assert (n' = n) as -> by (unfold node in Hn'; rewrite Hn in Hn'; congruence).
  destruct (zsl_next_spec h lv x0 (A ++ [e]) B) as (w & Hw & Hf); [by rewrite <- app_assoc|].
  rewrite node_at_snoc in Hw. apply level_at_ok in Hw as (n2 & Hn2 & Hw). assert (n2 = n) as -> by congruence.
  set (k := (newscore, e_ele e)).
  assert (exists b, match backward n with None => Ok true | Some y => p ← node h y; Ok (dlt (score p) newscore) end = Ok b /\
    (b = true -> forall a, last (it <$> A) = Some a -> ilt a k = true)) as (b & Hb & Hbk).
  { rewrite Hback, fmap_last. destruct (last A) as [a|] eqn:Ea; cbn; [|by exists true]. apply last_Some in Ea as [A' ->].
    destruct (repr_entry h lv x0 A' a (e :: B)) as (p & -> & [_ Hs]); [by rewrite <- app_assoc in Hr|]. cbn. eexists. split; [done|].
    intros Hlt a' [= <-]. unfold ilt, it. cbn. by rewrite <- Hs, Hlt. }
  assert (exists c, match forward w with None => Ok true | Some y => p ← node h y; Ok (dlt newscore (score p)) end = Ok c /\
    (c = true -> forall a, head (it <$> B) = Some a -> ilt k a = true)) as (c & Hc & Hck).
  { rewrite Hf. destruct B as [|a B']; cbn; [by exists true|].
    destruct (repr_entry h lv x0 (A ++ [e]) a B') as (p & -> & [_ Hs]); [by rewrite <- app_assoc|]. cbn. eexists. split; [done|].
    intros Hlt a' [= <-]. unfold ilt, it. cbn. by rewrite <- Hs, Hlt. }
  exists n, b, w. split_and!; try done; [unfold nth_; by rewrite Hw|]. exists c. split; [done|]. intros Hbt Hct.
  rewrite fmap_app. cbn [fmap list_fmap]. apply sorted_between; [|by apply Hbk|by apply Hck].
  rewrite <- fmap_app. by eapply sorted_without.
Qed.

Lemma rescore_ok h zsl A e B n newscore :
  zsl_ok h zsl (A ++ e :: B) -> h !! e_loc e = Some n -> isnan newscore = false ->
  let e' := {| e_loc := e_loc e; e_score := newscore; e_ele := e_ele e; e_height := e_height e |} in
  sorted (it <$> A ++ e' :: B) ->
  zsl_ok (<[e_loc e := {| ele := ele n; score := newscore; backward := backward n; levels := levels n |}]> h) zsl (A ++ e' :: B).
Proof.
  intros [[Hr Htail Hlen Htop Hsort Hnum] Hdom] Hn Hnan e' Hs. pose proof (repr_nodup _ _ _ _ Hr) as Hnd.
  pose proof (rescore_split (header zsl) A e B newscore Hnd) as Er. fold e' in Er.
  assert (e_loc e <> header zsl) as Hne.
  { intros E. apply list.NoDup_cons in Hnd as [Hnd _]. apply Hnd. rewrite <- E, fmap_app. apply elem_of_app. right. by left. }
  split; [split|].
  - rewrite <- Er. by apply set_score_repr.
  - rewrite Htail, !last_app_cons. by destruct B.
  - rewrite Hlen, !zlen_app, !zlen_cons. done.
  - destruct Htop as [?|Ht]; [by left|]. right. rewrite <- Er. apply Exists_fmap. eapply Exists_impl; [exact Ht|]. intros a Ha. cbn. by rewrite rescore_height.
  - done.
  - apply Forall_app in Hnum as [HA HB]. apply Forall_cons_1 in HB as [_ HB]. apply Forall_app. split; [done|]. by constructor.
  - rewrite dom_insert_L, Hdom. unfold owned. rewrite <- Er, rescore_locs. rewrite !fmap_app. set_solver.
Qed.

(** Removing the node and inserting a new one for the element. *)
Lemma reinsert_spec h zsl A e B b u newscore draws :
  zsl_ok h zsl (A ++ e :: B) -> path (header zsl) (level zsl) A u -> isnan newscore = false ->
  Forall (fun e => e_ele e <> b) (A ++ B) -> Exists (fun r => threshold <= r) draws ->
  exists h1 zsl1 A' B' h2 zsl2 h3 e', zslDeleteNode h zsl (e_loc e) u = Ok (h1, zsl1) /\
    zslInsert junk_backward junk_level h1 zsl1 newscore b draws = Ok (h2, zsl2, e_loc e') /\
    zslFreeNode h2 (e_loc e) = Ok h3 /\ A ++ B = A' ++ B' /\ it e' = (newscore, b) /\
    zsl_ok h3 zsl2 (A' ++ e' :: B') /\ header zsl2 = header zsl.
Proof.
  intros [Hinv Hdom] Hu Hnan Hother Hd. pose proof (repr_nodup _ _ _ _ (ok_repr _ _ _ Hinv)) as Hnd.
  destruct (zslDeleteNode_spec h zsl A e B u Hinv Hu) as (h1 & zsl1 & m & E1 & Hinv1 & Hhd1 & Hdom1 & Hm & Hm1 & _).
  assert (Forall (fun e => same (it e) (newscore, b) = false) (A ++ B)) as Hdiff.
  { eapply Forall_impl; [exact Hother|]. cbn. intros a Ha. apply not_true_iff_false. by intros ?%same_eq. }
  destruct (zslInsert_spec h1 zsl1 (A ++ B) newscore b draws Hinv1 Hnan Hdiff) as (A' & B' & h2 & zsl2 & e' & EAB & E2 & He' & Hinv2 & Hhd2 & Hfresh & Hdom2); [|done|].
  { pose proof (repr_short _ _ _ _ (ok_repr _ _ _ Hinv)) as Hs. rewrite zlen_app in Hs |- *. rewrite zlen_cons in Hs. lia. }
  assert (e_loc e ∈ dom h1) as Hin by (apply elem_of_dom; eauto). assert (e_loc e <> e_loc e') as Hne by (intros E; rewrite E in Hin; done).
  assert (e_loc e ∈ dom h2) as Hin2 by (rewrite Hdom2; set_solver). apply elem_of_dom in Hin2 as [m2 Hm2].
  exists h1, zsl1, A', B', h2, zsl2, (delete (e_loc e) h2), e'. split; [done|]. split; [done|].
  split; [unfold zslFreeNode, node; by rewrite Hm2|]. split; [done|]. split; [done|]. split; [|congruence].
  assert (e_loc e ∉ header zsl :: (e_loc <$> A' ++ B')) as Hx.
  { rewrite <- EAB. rewrite fmap_app in Hnd |- *. cbn [fmap list_fmap] in Hnd. rewrite <- Permutation_middle, Permutation_swap in Hnd.
    by apply list.NoDup_cons in Hnd as [? _]. }
  split.
  - apply free_inv; [done|]. rewrite Hhd2, Hhd1. rewrite fmap_app in Hx |- *. cbn [fmap list_fmap]. set_solver.
  - rewrite dom_delete_L, Hdom2, Hdom1, Hdom. unfold owned. rewrite Hhd2, Hhd1.
    assert (list_to_set (C := gset loc) (header zsl :: (e_loc <$> A ++ e :: B)) = {[e_loc e]} ∪ list_to_set (header zsl :: (e_loc <$> A' ++ B'))) as ->.
    { rewrite <- EAB, !fmap_app. cbn [fmap list_fmap]. rewrite !list_to_set_cons, !list_to_set_app_L, list_to_set_cons. set_solver. }
    rewrite !fmap_app in *. cbn [fmap list_fmap] in *. rewrite !list_to_set_cons, !list_to_set_app_L, list_to_set_cons. set_solver.
Qed.

Lemma zslUpdateScore_spec h zsl A e B cur b newscore draws :
  zsl_ok h zsl (A ++ e :: B) -> same (it e) (cur, b) = true -> isnan newscore = false ->
  Forall (fun e => e_ele e <> b) (A ++ B) -> Exists (fun r => threshold <= r) draws ->
  exists A' B' h' zsl' e', A ++ B = A' ++ B' /\
    zslUpdateScore junk_backward junk_level h zsl cur b newscore draws = Ok (h', zsl', e_loc e') /\
    it e' = (newscore, b) /\ zsl_ok h' zsl' (A' ++ e' :: B') /\ header zsl' = header zsl.
Proof.
  intros [Hinv Hdom] Hsame Hnan Hother Hd. unfold zslUpdateScore.
  pose proof (same_eq _ _ Hsame) as Hele. cbn in Hele. set (es := A ++ e :: B) in *.
  destruct (find_place h zsl es cur b Hinv) as (A1 & B1 & u & v & Ees & E & Hu & Ev & Hf & HA1 & HB1 & _).
  destruct (split_at_same A e B (cur, b) (ok_sorted _ _ _ Hinv) Hsame) as [HA HB].
  destruct (split_unique (fun e => ilt (it e) (cur, b)) A (e :: B) A1 B1 Ees HA HB HA1 HB1) as [<- <-].
  rewrite E. cbn [mbind res_bind]. rewrite Ev. cbn [mbind res_bind]. rewrite Hf. cbn [head fmap option_fmap option_map mbind res_bind].
  destruct (in_place_spec h zsl A e B newscore Hinv Hnan) as (n & bp & w & Hn & Hh & Hbp & Hw & c & Hc & Hplace).
  rewrite Hn. cbn [mbind res_bind]. rewrite (is_at_same cur b n e Hh), Hsame. cbn [mbind res_bind cassert]. rewrite Hbp. cbn [mbind res_bind].
  destruct (decide (bp = true /\ c = true)) as [[-> ->]|Hmove].
  - rewrite Hw. cbn [mbind res_bind]. rewrite Hc. cbn [mbind res_bind]. unfold set_score. rewrite Hn. cbn [mbind res_bind].
    eexists A, B, _, zsl, {| e_loc := e_loc e; e_score := newscore; e_ele := e_ele e; e_height := e_height e |}.
    split; [done|]. split; [done|]. split; [unfold it; cbn; congruence|]. split; [|done].
    apply rescore_ok; [done| |done|by apply Hplace]. unfold node in Hn. destruct (h !! e_loc e); [congruence|done].
  - assert ((if bp then (w ← nth_ (levels n) 0; match forward w with None => Ok true | Some y => p ← node h y; Ok (dlt newscore (score p)) end)
      else Ok false) = Ok false) as ->.
    { destruct bp; [|done]. rewrite Hw. cbn [mbind res_bind]. rewrite Hc. destruct c; [tauto|done]. }
    cbn [mbind res_bind]. assert (ele_of n = Ok b) as Hele_n by (unfold ele_of; destruct Hh as [-> _]; congruence).
    destruct (reinsert_spec h zsl A e B b u.*1 newscore draws (conj Hinv Hdom) (updates_path _ _ _ _ Hu) Hnan Hother Hd)
      as (h1 & zsl1 & A' & B' & h2 & zsl2 & h3 & e' & -> & E2 & E3 & EAB & He' & Hok & Hhd).
    cbn [mbind res_bind]. rewrite Hele_n. cbn [mbind res_bind]. rewrite E2. cbn [mbind res_bind]. rewrite E3. cbn [mbind res_bind].
    by exists A', B', h3, zsl2, e'.
Qed.

End with_junk.

End ZskiplistOps.
