(* ===== verification/ZskiplistQuery.v ===== *)
(** * Skip lists: ranks and ranges.

    [zslGetRank], [zslGetElementByRank] and the functions that find the n-th
    element of a range, against the position in the sorted list and the part
    of it that is in the range; and the deletion of ranges. *)

From Stdlib Require Import SpecFloat Sorting.Sorted.
From S2P Require Import Prelude Zskiplist ZskiplistOrder ZskiplistTheory ZskiplistLink ZskiplistOps.
From stdpp Require Import list gmap fin_maps.
#[local] Open Scope Z_scope.

Module ZskiplistQuery.
Import Zskiplist ZskiplistOrder ZskiplistTheory ZskiplistLink ZskiplistOps.

Section query.
Context (h : heap) (zsl : zskiplist) (es : list entry) (Hinv : zsl_inv h zsl es).
#[local] Abbreviation x0 := (header zsl).
#[local] Abbreviation lv := (level zsl).

Let Hr : repr h lv x0 es := ok_repr _ _ _ Hinv.

Lemma fuel_enough P R : es = P ++ R -> (length R < size h)%nat.
Proof. intros E. pose proof (repr_size h lv x0 es Hr) as Hs. rewrite E, length_app in Hs. lia. Qed.

(** ** By rank *)

Lemma rank_cond_ok base rank k :
  0 <= base -> 0 <= rank < 2 ^ 64 -> Z.of_nat k = Z.min (zlen es) (base + rank) ->
  cond_ok es base k (fun traversed span _ => Ok (u64 (traversed + span) <=? rank)).
Proof.
  intros Hb Hrank Hk r s n pre e post E _ Hr0 Hs0 Hrs. pose proof (repr_short _ _ _ _ Hr) as Hs. rewrite E, zlen_app, zlen_cons in Hs.
  pose proof (zlen_nonneg pre). pose proof (zlen_nonneg post). rewrite wrapu_small by lia. f_equal.
  rewrite E, zlen_app, zlen_cons in Hk. unfold zlen in *. case_bool_decide; [apply Z.leb_le|apply Z.leb_gt]; lia.
Qed.

Lemma by_rank_spec base rank B : forall n P Q,
  es = P ++ Q ++ B -> (n <= lv)%nat -> (n <= height_at P)%nat -> (1 <= n)%nat -> 0 <= base <= zlen P -> 0 <= rank < 2 ^ 64 ->
  zlen (P ++ Q) = Z.min (zlen es) (base + rank) ->
  zslGetElementByRankFromNode h n (node_at x0 P) (zlen P - base) rank =
    Ok (if zlen (P ++ Q) =? base + rank then Some (node_at x0 (P ++ Q)) else None).
Proof.
  induction n as [|n IH]; intros P Q E Hn HP Hn1 Hb Hrank Hk; [lia|]. cbn [zslGetElementByRankFromNode].
  destruct (walk_spec h lv x0 es Hr _ n base B (size h) P Q E ltac:(lia) ltac:(lia) (rank_cond_ok base rank _ ltac:(lia) Hrank Hk) Hb)
    as (P' & Hst & (S & EP') & ->); [by eapply fuel_enough|].
  cbn [mbind res_bind fst snd]. pose proof Hst as (HP' & Q' & EQ & HQ').
  destruct (Z.eqb_spec (zlen P' - base) rank) as [Heq|Hne].
  - assert (Q' = []) as ->.
    { rewrite EQ, zlen_app in Hk. apply zlen_nil_inv. pose proof (zlen_nonneg Q'). lia. }
    rewrite app_nil_r in EQ. rewrite EQ. destruct (Z.eqb_spec (zlen P') (base + rank)); [done|lia].
  - rewrite EQ in *. destruct n as [|n].
    + assert (P' = P' ++ Q') as EP.
      { assert (es = (P' ++ Q') ++ B) as E' by by rewrite <- EQ, <- app_assoc. pose proof Hr as Hr'. rewrite E' in Hr'.
        by apply (stops_zero h lv x0 (P' ++ Q') B P' Hr'). }
      cbn [zslGetElementByRankFromNode]. rewrite <- EP. destruct (Z.eqb_spec (zlen P') (base + rank)); [lia|done].
    + apply IH; try done; try lia.
      * rewrite app_assoc, <- EQ, <- app_assoc. done.
      * subst P'. rewrite zlen_app. pose proof (zlen_nonneg S). lia.
Qed.

(** The node at a position, 1 for the first. *)
Lemma zslGetElementByRank_spec rank : 1 <= rank < 2 ^ 64 ->
  zslGetElementByRank h zsl rank = Ok (e_loc <$> es !! Z.to_nat (rank - 1)).
Proof.
  intros Hrank. unfold zslGetElementByRank. pose proof (repr_levels _ _ _ _ Hr) as Hl.
  set (k := Z.to_nat (Z.min (zlen es) rank)).
  pose proof (by_rank_spec 0 rank (drop k es) lv [] (take k es)) as H. change (node_at x0 []) with x0 in H.
  change (zlen [] - 0) with 0 in H. rewrite H; try (done || lia); cbn [app].
  - unfold zlen. rewrite length_take. destruct (Z.eqb_spec (Z.of_nat (k `min` length es)) (0 + rank)) as [Heq|Hne].
    + unfold zlen in *. assert (exists e, es !! (k - 1)%nat = Some e) as [e He] by (apply lookup_lt_is_Some_2; unfold zlen in *; lia).
      replace (Z.to_nat (rank - 1)) with (k - 1)%nat by (unfold zlen in *; lia). rewrite He. cbn. f_equal. f_equal.
      replace k with (S (k - 1)) at 1 by lia. rewrite (take_S_r _ _ _ He). apply node_at_snoc.
    + rewrite lookup_ge_None_2; [done|]. unfold zlen in *. lia.
  - by rewrite take_drop.
  - cbn. lia.
  - unfold zlen. rewrite length_take. unfold zlen in *. lia.
Qed.

(** ** The rank of an element *)

Lemma rank_loop_spec k B : forall n P Q,
  es = P ++ Q ++ B -> (n <= lv)%nat -> (n <= height_at P)%nat -> (1 <= n)%nat ->
  Forall (fun e => ile (it e) k = true) (P ++ Q) -> Forall (fun e => ile (it e) k = false) B ->
  rank_loop h k.1 k.2 n (node_at x0 P) (zlen P) =
    Ok (match last (P ++ Q) with Some e => if same (it e) k then zlen (P ++ Q) else 0 | None => 0 end).
Proof.
  induction n as [|n IH]; intros P Q E Hn HP Hn1 HA HB; [lia|]. cbn [rank_loop].
  destruct (walk_spec h lv x0 es Hr (fun _ _ nd => before_or_at k.1 k.2 nd) n 0 B (size h) P Q E) as (P' & Hst & (S & EP') & HW); try lia.
  { rewrite E, app_assoc. eapply reads_cond_ok; [apply reads_reads_on, before_or_at_reads|..]; by destruct k. }
  { pose proof (zlen_nonneg P). lia. }
  { by eapply fuel_enough. }
  rewrite !Z.sub_0_r in HW. rewrite HW. cbn [mbind res_bind fst snd]. pose proof Hst as (HP' & Q' & EQ & HQ').
  assert (es = P' ++ Q' ++ B) as E' by by rewrite E, !app_assoc, EQ.
  destruct (repr_node _ _ _ _ Hr P' (Q' ++ B) E') as (nd & Hnd & _ & _ & Hd). unfold node. rewrite Hnd. cbn [mbind res_bind].
  set (b := match last P' with Some e => same (it e) k | None => false end).
  assert (match ele nd with None => Ok false | Some c => Ok (deq (score nd) k.1 && (elecmp c k.2 =? 0)) end = Ok b) as ->.
  { unfold b. destruct (last P') as [e|]; [destruct Hd as [-> ->]; done|by rewrite Hd]. }
  cbn [mbind res_bind]. rewrite EQ in *. destruct b eqn:Eb; unfold b in Eb.
  - destruct (last P') as [e|] eqn:El; [|done]. pose proof El as [P1 EP1]%last_Some. destruct Q' as [|q Q'].
    { by rewrite app_nil_r, El, Eb. }
    exfalso. apply Forall_app in HA as [_ HA]. apply Forall_cons_1 in HA as [Hq _].
    pose proof (ok_sorted _ _ _ Hinv) as Hsort. rewrite E', EP1, <- app_assoc, fmap_app in Hsort. cbn [fmap list_fmap app] in Hsort.
    apply sorted_app in Hsort as (_ & Hsort & _). apply sorted_cons in Hsort as [Hsort _]. apply Forall_cons_1 in Hsort as [Hlt _].
    rewrite (ilt_same_l _ _ _ Eb) in Hlt. rewrite ile_same, orb_true_iff in Hq. destruct Hq as [Hq|Hq].
    + by rewrite (ilt_asym _ _ Hlt) in Hq.
    + rewrite same_sym in Hq. by rewrite (ilt_not_same _ _ Hlt) in Hq.
  - destruct n as [|n].
    + assert (es = (P' ++ Q') ++ B) as E2 by by rewrite <- app_assoc. pose proof Hr as Hr'. rewrite E2 in Hr'.
      pose proof (stops_zero h lv x0 (P' ++ Q') B P' Hr' Hst) as EP. cbn [rank_loop]. rewrite <- EP. destruct (last P'); [by rewrite Eb|done].
    + apply IH; try done; lia.
Qed.

Lemma zslGetRank_spec sc b :
  (exists A e B, es = A ++ e :: B /\ same (it e) (sc, b) = true /\ zslGetRank h zsl sc b = Ok (zlen A + 1)) \/
  (Forall (fun e => same (it e) (sc, b) = false) es /\ zslGetRank h zsl sc b = Ok 0).
Proof.
  destruct (split_entries (fun a => ile a (sc, b)) es (ok_sorted _ _ _ Hinv) (downward_ile _)) as (A & B & E & HA & HB).
  pose proof (repr_levels _ _ _ _ Hr) as Hl.
  pose proof (rank_loop_spec (sc, b) B lv [] A E ltac:(lia) ltac:(cbn; lia) ltac:(lia) HA HB) as H.
  change (node_at x0 []) with x0 in H. change (zlen []) with 0 in H. cbn [fst snd app] in H. unfold zslGetRank. rewrite H.
  assert (Forall (fun e => same (it e) (sc, b) = false) B) as HsB.
  { eapply Forall_impl; [exact HB|]. cbn. intros e. rewrite ile_same, orb_false_iff. tauto. }
  destruct A as [|e A _] using rev_ind; [right; by rewrite E|]. rewrite last_snoc. destruct (same (it e) (sc, b)) eqn:Es.
  - left. exists A, e, B. split; [by rewrite E, <- app_assoc|]. split; [done|]. rewrite zlen_app. done.
  - right. split; [|done]. rewrite E. apply Forall_app. split; [|done]. apply Forall_app. split; [|by repeat constructor].
    pose proof (ok_sorted _ _ _ Hinv) as Hsort. rewrite E, <- app_assoc, fmap_app in Hsort. cbn [fmap list_fmap app] in Hsort.
    apply sorted_app in Hsort as (_ & _ & Hsort). rewrite Forall_fmap in Hsort.
    apply Forall_app in HA as [_ HA]. apply Forall_cons_1 in HA as [He _]. rewrite ile_same, Es, orb_false_r in He.
    eapply Forall_impl; [exact Hsort|]. cbn. intros a Ha. apply Forall_cons_1 in Ha as [Ha _]. apply ilt_not_same. by eapply ilt_trans.
Qed.

(** ** Ranges *)

Lemma steps_forward_spec n : forall P R, es = P ++ R -> (n <= length R)%nat ->
  steps_forward h n (Some (node_at x0 P)) = Ok (Some (node_at x0 (P ++ take n R))).
Proof.
  induction n as [|n IH]; intros P R E Hn; cbn [steps_forward]; [by rewrite app_nil_r|]. cbn [deref mbind res_bind].
  pose proof Hr as Hr'. rewrite E in Hr'. destruct (zsl_next_spec h lv x0 P R Hr') as (v & -> & Hf). cbn [mbind res_bind]. rewrite Hf.
  destruct R as [|e R]; [cbn in Hn; lia|]. cbn [head fmap option_fmap option_map]. rewrite <- (node_at_snoc x0 P e).
  rewrite IH with (R := R); [|by rewrite <- app_assoc|cbn in Hn; lia]. cbn [take]. by rewrite <- app_assoc.
Qed.

Lemma steps_backward_spec n : forall P R, es = P ++ R -> (n < length P)%nat ->
  steps_backward h n (Some (node_at x0 P)) = Ok (Some (node_at x0 (take (length P - n) P))).
Proof.
  induction n as [|n IH]; intros P R E Hn; cbn [steps_backward]; [by rewrite take_ge by lia|]. cbn [deref mbind res_bind].
  destruct P as [|e P _] using rev_ind; [cbn in Hn; lia|]. rewrite node_at_snoc. rewrite length_app in Hn. cbn in Hn.
  rewrite <- app_assoc in E. destruct (repr_back _ _ _ _ Hr P e R E) as (nd & Hnd & Hb). unfold node. rewrite Hnd. cbn [mbind res_bind].
  rewrite Hb. destruct P as [|e' P _] using rev_ind; [cbn in Hn; lia|]. rewrite last_snoc. cbn [fmap option_fmap option_map].
  rewrite <- (node_at_snoc x0 P e'). rewrite IH with (R := e :: R); [|done|lia]. f_equal. f_equal. f_equal.
  rewrite (take_app_le (P ++ [e']) [e]); [f_equal|]; rewrite !length_app in *; cbn in *; lia.
Qed.

(** The walk at the top level, and the search below it. *)
Lemma edge_spec cond A B P : es = A ++ B -> cond_ok es 0 (length A) cond -> stops (lv - 1) A P ->
  exists u, descend h cond (lv - 1) (node_at x0 P) (zlen P) = Ok u /\ stopped u (node_at x0 P) = node_at x0 A /\
    match u with (_, r) :: _ => r | [] => zlen P end = zlen A.
Proof.
  intros E Hc Hst. pose proof Hst as (HP & Q & EA & HQ). pose proof (repr_levels _ _ _ _ Hr) as Hl.
  destruct (descend_spec h lv x0 es Hr cond 0 B (lv - 1) P Q) as (u & Eu & Hlen & Hu).
  { by rewrite E, EA, <- app_assoc. }
  { lia. }
  { lia. }
  { by rewrite <- EA. }
  { pose proof (zlen_nonneg P). lia. }
  rewrite Z.sub_0_r in Eu. exists u. split; [done|]. rewrite <- EA in Hu. pose proof Hr as Hr'. rewrite E in Hr'. destruct u as [|[y r] u].
  - cbn in Hlen |- *. rewrite <- Hlen in Hst. by rewrite (stops_zero h lv x0 A B P Hr' Hst).
  - destruct (Hu 0%nat) as (P0 & Hst0 & H0); [cbn in Hlen; lia|]. cbn in H0. injection H0 as -> ->.
    rewrite (stops_zero h lv x0 A B P0 Hr' Hst0). cbn. split; [done|lia].
Qed.

Lemma top_walk_spec cond A B : es = A ++ B -> cond_ok es 0 (length A) cond ->
  exists P, stops (lv - 1) A P /\ walk (size h) h cond (lv - 1) x0 0 = Ok (node_at x0 P, zlen P).
Proof.
  intros E Hc. pose proof (repr_levels _ _ _ _ Hr) as Hl.
  destruct (walk_spec h lv x0 es Hr cond (lv - 1) 0 B (size h) [] A E) as (P & Hst & _ & HW); try (done || lia).
  { cbn. lia. }
  { by apply (fuel_enough []). }
  exists P. split; [done|]. change (node_at x0 []) with x0 in HW. rewrite !Z.sub_0_r in HW. exact HW.
Qed.

Section range.
Context (gte lte : zskiplistNode -> res bool) (pg pl : item -> bool).
Context (Hgte : reads_on es gte pg) (Hlte : reads_on es lte pl).
Context (Hdg : downward (fun a => negb (pg a))) (Hdl : downward pl).

(** The entries in the range. *)
Definition in_range (e : entry) : bool := pg (it e) && pl (it e).

(** The entries below the range, in it, and above it. *)
Lemma range_parts : (forall e, e ∈ es -> pg (it e) = false -> pl (it e) = true) ->
  exists X Y Z, es = X ++ Y ++ Z /\ List.filter in_range es = Y /\
    Forall (fun e => negb (pg (it e)) = true) X /\ Forall (fun e => negb (pg (it e)) = false) (Y ++ Z) /\
    Forall (fun e => pl (it e) = true) (X ++ Y) /\ Forall (fun e => pl (it e) = false) Z.
Proof.
  intros Hsub. destruct (split_entries _ es (ok_sorted _ _ _ Hinv) Hdg) as (X & R & E & HX & HR).
  destruct (split_entries pl R) as (Y & Z & ER & HY & HZ); [|done|].
  { pose proof (ok_sorted _ _ _ Hinv) as Hs. rewrite E, fmap_app in Hs. by apply sorted_app in Hs as (_ & ? & _). }
  exists X, Y, Z. rewrite ER in *. split; [done|].
  assert (forall l, Forall (fun e => in_range e = false) l -> List.filter in_range l = []) as Hnone.
  { intros l Hl. induction Hl as [|e l He _ IH]; [done|]. cbn. by rewrite He. }
  assert (Forall (fun e => pl (it e) = true) X) as HXl.
  { rewrite Forall_forall in HX |- *. intros e He. apply Hsub; [rewrite E; set_solver|]. apply negb_true_iff. by apply HX. }
  apply Forall_app in HR as [HRY HRZ]. split; [|split_and!; [done|by apply Forall_app|by apply Forall_app|done]].
  rewrite E, !List.filter_app, (Hnone X), (Hnone Z), app_nil_r.
  - cbn. clear -HY HRY. induction Y as [|e Y IH]; [done|]. apply Forall_cons_1 in HY as [H1 HY]. apply Forall_cons_1 in HRY as [H2 HRY].
    cbn. unfold in_range at 1. rewrite H1. apply negb_false_iff in H2. rewrite H2. cbn. by rewrite IH.
  - eapply Forall_impl; [exact HZ|]. cbn. unfold in_range. intros e ->. apply andb_false_r.
  - eapply Forall_impl; [exact HX|]. cbn. unfold in_range. intros e H. apply negb_true_iff in H. by rewrite H.
Qed.
(** The [n]-th, counted from the end when negative. *)
Definition pick (n : Z) (l : list entry) : option entry :=
  if 0 <=? n then l !! Z.to_nat n else if zlen l + n <? 0 then None else l !! Z.to_nat (zlen l + n).

Lemma unless_out_spec test p i e : reads_on es test p -> es !! i = Some e ->
  unless_out test h (Some (node_at x0 (take (S i) es))) = Ok (if p (it e) then Some (e_loc e) else None).
Proof.
  intros Ht Hi. rewrite (take_S_r _ _ _ Hi), node_at_snoc. cbn [unless_out]. pose proof (take_drop_middle _ _ _ Hi) as E.
  pose proof Hr as Hr'. rewrite <- E in Hr'. destruct (repr_entry h lv x0 _ e _ Hr') as (n & -> & Hn). cbn [mbind res_bind].
  rewrite (Ht n e); [done| |done]. by eapply list_elem_of_lookup_2.
Qed.

(** The jump by rank from the last node of the top level before the range. *)
Lemma jump_spec P R pos : es = P ++ R -> (lv - 1 < height_at P)%nat -> 1 <= pos < 2 ^ 63 ->
  zslGetElementByRankFromNode h lv (node_at x0 P) 0 (u64 (pos - zlen P)) =
    Ok (if (zlen P <=? pos) && (pos <=? zlen es) then Some (node_at x0 (take (Z.to_nat pos) es)) else None).
Proof.
  intros E HP Hpos. pose proof (repr_levels _ _ _ _ Hr) as Hl. pose proof (repr_short _ _ _ _ Hr) as Hs.
  pose proof (zlen_nonneg P). pose proof (zlen_nonneg R). assert (zlen es = zlen P + zlen R) as Hlen by by rewrite E, zlen_app.
  set (rank := u64 (pos - zlen P)).
  set (k := Z.to_nat (Z.min (zlen R) rank)). assert (0 <= rank < 2 ^ 64) as Hrank by (apply wrapu_range; lia).
  assert (zlen (P ++ take k R) = Z.min (zlen es) (zlen P + rank)) as Hk.
  { rewrite zlen_app, Hlen. unfold zlen at 2. rewrite length_take. unfold zlen in *. lia. }
  pose proof (by_rank_spec (zlen P) rank (drop k R) lv P (take k R)) as Hby. rewrite Z.sub_diag in Hby.
  rewrite Hby by (done || lia || by rewrite take_drop). clear Hby. rewrite Hk.
  destruct (Z.leb_spec (zlen P) pos) as [Hle|Hgt]; cbn [andb].
  - assert (rank = pos - zlen P) as Er by (unfold rank; rewrite wrapu_small; lia).
    destruct (Z.leb_spec pos (zlen es)) as [Hle2|Hgt2].
    + rewrite (proj2 (Z.eqb_eq _ _)) by lia. f_equal. f_equal. f_equal. rewrite E, (take_app P), (take_ge P) by (unfold zlen in *; lia).
      f_equal. f_equal. unfold k. unfold zlen in *. lia.
    + rewrite (proj2 (Z.eqb_neq _ _)) by lia. done.
  - assert (rank = pos - zlen P + 2 ^ 64) as Er.
    { unfold rank, wrapu. rewrite <- (Z.mod_add _ 1) by lia. rewrite Z.mod_small; lia. }
    rewrite (proj2 (Z.eqb_neq _ _)) by lia. done.
Qed.

Lemma nth_in_range_from_start n X Y Z : es = X ++ Y ++ Z -> 0 <= n <= 2 ^ 62 ->
  Forall (fun e => negb (pg (it e)) = true) X -> Forall (fun e => negb (pg (it e)) = false) (Y ++ Z) ->
  Forall (fun e => pl (it e) = true) (X ++ Y) -> Forall (fun e => pl (it e) = false) Z ->
  nth_in_range gte lte h zsl true n = Ok (e_loc <$> Y !! Z.to_nat n).
Proof.
  intros E Hn HX HYZ HXY HZ. unfold nth_in_range. cbn [negb].
  set (out := fun _ _ nd => _). assert (cond_ok es 0 (length X) out) as Hc.
  { rewrite E. unfold out. apply (reads_cond_ok (fun nd => b ← gte nd; Ok (negb b)) (fun a => negb (pg a))); [|done..].
    intros nd e He Hnd. rewrite (Hgte nd e); [done|by rewrite E|done]. }
  destruct (top_walk_spec out X (Y ++ Z) E Hc) as (P & Hst & ->). cbn [mbind res_bind fst snd].
  rewrite (proj2 (Z.leb_le 0 n)) by lia.
  destruct (edge_spec out X (Y ++ Z) P E Hc Hst) as (u & -> & Hx & Hrk). cbn [mbind res_bind]. rewrite Hx, Hrk.
  pose proof (repr_short _ _ _ _ Hr) as Hs. pose proof (zlen_nonneg X). pose proof (zlen_nonneg Y). pose proof (zlen_nonneg Z).
  assert (zlen es = zlen X + zlen Y + zlen Z) as Hlen by (rewrite E, !zlen_app; lia).
  pose proof Hst as (HP & Q & EX & _). assert (zlen P <= zlen X) as HPX by (rewrite EX, zlen_app; pose proof (zlen_nonneg Q); lia).
  pose proof (zlen_nonneg P). rewrite (wraps_small 64 (zlen X)), (wraps_small 64 (zlen P)), (wraps_small 64 (zlen X + n)) by lia.
  rewrite (wrapu_small 64 (zlen X + n)), (ok_length _ _ _ Hinv) by lia.
  destruct (Z.leb_spec (zlen es) (zlen X + n)) as [Hge|Hlt].
  { rewrite lookup_ge_None_2; [done|]. unfold zlen in *. lia. }
  set (i := Z.to_nat (zlen X + n)). destruct (lookup_lt_is_Some_2 es i) as [e He]; [unfold i, zlen in *; lia|].
  assert ((if n <? ZSKIPLIST_MAX_SEARCH then steps_forward h (Z.to_nat (n + 1)) (Some (node_at x0 X))
    else zslGetElementByRankFromNode h lv (node_at x0 P) 0 (u64 (zlen X + 1 + n - zlen P))) = Ok (Some (node_at x0 (take (S i) es)))) as ->.
  { destruct (Z.ltb_spec n ZSKIPLIST_MAX_SEARCH).
    - rewrite (steps_forward_spec _ X (Y ++ Z) E) by (rewrite length_app; unfold zlen in *; lia). f_equal. f_equal. f_equal.
      rewrite E, (take_app X), (take_ge X) by (unfold i, zlen in *; lia). f_equal. f_equal. unfold i, zlen in *. lia.
    - rewrite (jump_spec P (Q ++ Y ++ Z)); [|by rewrite E, EX, <- app_assoc|done|lia].
      rewrite (proj2 (Z.leb_le _ _)), (proj2 (Z.leb_le _ _)) by lia. cbn [andb]. f_equal. f_equal. f_equal. f_equal. unfold i. lia. }
  cbn [mbind res_bind]. rewrite (unless_out_spec lte pl i e Hlte He). f_equal.
  rewrite E, lookup_app_r in He by (unfold i, zlen in *; lia). replace (i - length X)%nat with (Z.to_nat n) in He by (unfold i, zlen in *; lia).
  destruct (Nat.lt_ge_cases (Z.to_nat n) (length Y)) as [HnY|HnY].
  - rewrite lookup_app_l in He by done. rewrite He. apply Forall_app in HXY as [_ HY]. by rewrite (Forall_lookup_1 _ _ _ _ HY He).
  - rewrite lookup_app_r in He by done. rewrite (lookup_ge_None_2 Y) by done. by rewrite (Forall_lookup_1 _ _ _ _ HZ He).
Qed.

(** The search for the last entry that is not above the range, from [P]. *)
Lemma upper_spec A Z P : es = A ++ Z -> Forall (fun e => pl (it e) = true) A -> Forall (fun e => pl (it e) = false) Z ->
  (lv - 1 < height_at P)%nat -> (exists Q, A = P ++ Q) ->
  exists u, descend h (fun _ _ nd => lte nd) lv (node_at x0 P) (zlen P) = Ok u /\ stopped u (node_at x0 P) = node_at x0 A /\
    match u with (_, r) :: _ => r | [] => zlen P end = zlen A.
Proof.
  intros E HA HZ HP [Q EA]. pose proof (repr_levels _ _ _ _ Hr) as Hl. pose proof (zlen_nonneg P).
  destruct (descend_spec h lv x0 es Hr (fun _ _ nd => lte nd) 0 Z lv P Q) as (u & Eu & Hlen & Hu); [..|].
  { by rewrite E, EA, <- app_assoc. }
  { lia. }
  { lia. }
  { rewrite <- EA. pose proof Hlte as Hlte'. rewrite E in Hlte' |- *. by eapply reads_cond_ok. }
  { lia. }
  rewrite Z.sub_0_r in Eu. exists u. split; [done|]. rewrite <- EA in Hu.
  destruct u as [|[y r] u]; [cbn in Hlen; lia|]. destruct (Hu 0%nat) as (P0 & Hst0 & H0); [lia|]. cbn in H0. injection H0 as -> ->.
  pose proof Hr as Hr'. rewrite E in Hr'. rewrite (stops_zero h lv x0 A Z P0 Hr' Hst0). cbn. split; [done|lia].
Qed.

Lemma nth_in_range_from_end n X Y Z : es = X ++ Y ++ Z -> - 2 ^ 62 <= n < 0 ->
  Forall (fun e => negb (pg (it e)) = true) X -> Forall (fun e => negb (pg (it e)) = false) (Y ++ Z) ->
  Forall (fun e => pl (it e) = true) (X ++ Y) -> Forall (fun e => pl (it e) = false) Z ->
  nth_in_range gte lte h zsl true n = Ok (e_loc <$> if zlen Y + n <? 0 then None else Y !! Z.to_nat (zlen Y + n)).
Proof.
  intros E Hn HX HYZ HXY HZ. unfold nth_in_range. cbn [negb].
  set (out := fun _ _ nd => _). assert (cond_ok es 0 (length X) out) as Hc.
  { rewrite E. unfold out. apply (reads_cond_ok (fun nd => b ← gte nd; Ok (negb b)) (fun a => negb (pg a))); [|done..].
    intros nd e He Hnd. rewrite (Hgte nd e); [done|by rewrite E|done]. }
  destruct (top_walk_spec out X (Y ++ Z) E Hc) as (P & Hst & ->). cbn [mbind res_bind fst snd].
  rewrite (proj2 (Z.leb_gt 0 n)) by lia. pose proof Hst as (HP & Q & EX & _).
  assert (es = (X ++ Y) ++ Z) as E2 by by rewrite <- app_assoc.
  destruct (upper_spec (X ++ Y) Z P E2 HXY HZ HP) as (u & -> & Hx & Hrk); [exists (Q ++ Y); by rewrite EX, <- app_assoc|].
  cbn [mbind res_bind]. rewrite Hx, Hrk. pose proof (repr_short _ _ _ _ Hr) as Hs.
  pose proof (zlen_nonneg X). pose proof (zlen_nonneg Y). pose proof (zlen_nonneg Z). pose proof (zlen_nonneg P). pose proof (zlen_nonneg Q).
  assert (zlen es = zlen X + zlen Y + zlen Z) as Hlen by (rewrite E, !zlen_app; lia).
  assert (zlen X = zlen P + zlen Q) as HPX by by rewrite EX, zlen_app. rewrite zlen_app.
  rewrite (wraps_small 64 (zlen X + zlen Y)), (wraps_small 64 (zlen P)) by lia.
  destruct (Z.ltb_spec (zlen X + zlen Y) (- n)) as [Hshort|Hlong].
  { rewrite (proj2 (Z.ltb_lt _ _)) by lia. done. }
  set (i := Z.to_nat (zlen X + zlen Y + n)). destruct (lookup_lt_is_Some_2 es i) as [e He]; [unfold i, zlen in *; lia|].
  assert (i < length X \/ length X <= i)%nat as Hi by lia.
  assert (pg (it e) = false /\ (i < length X)%nat \/ pg (it e) = true /\ Y !! (i - length X)%nat = Some e /\ (length X <= i)%nat) as Hpg.
  { pose proof He as He'. rewrite E in He'. destruct Hi as [Hi|Hi].
    - left. split; [|done]. rewrite lookup_app_l in He' by done. apply negb_true_iff. by apply (Forall_lookup_1 _ _ _ _ HX He').
    - right. rewrite lookup_app_r in He' by done. pose proof (Forall_lookup_1 _ _ _ _ HYZ He') as Hpe. apply negb_false_iff in Hpe.
      split; [done|]. split; [|done]. rewrite lookup_app_l in He'; [done|]. unfold i, zlen in *. lia. }
  transitivity (Ok (if pg (it e) then Some (e_loc e) else None)).
  2: { destruct Hpg as [[-> Hlt]|(-> & HY & Hge)].
       - rewrite (proj2 (Z.ltb_lt _ _)); [done|]. unfold i, zlen in *. lia.
       - rewrite (proj2 (Z.ltb_ge _ _)) by (unfold i, zlen in *; lia).
         replace (Z.to_nat (zlen Y + n)) with (i - length X)%nat by (unfold i, zlen in *; lia). by rewrite HY. }
  destruct (Z.ltb_spec (- ZSKIPLIST_MAX_SEARCH) (n + 1)).
  - rewrite (steps_backward_spec _ (X ++ Y) Z E2) by (rewrite length_app; unfold zlen in *; lia). cbn [mbind res_bind].
    rewrite <- (unless_out_spec gte pg i e Hgte He). do 3 f_equal. rewrite E2, (take_app (X ++ Y)).
    replace (S i - length (X ++ Y))%nat with 0%nat by (rewrite length_app; unfold i, zlen in *; lia). rewrite take_0, app_nil_r. f_equal.
    rewrite length_app. unfold i, zlen in *. lia.
  - replace (zlen X + zlen Y + 1 + n - zlen P) with (Z.of_nat (S i) - zlen P) by (unfold i; lia).
    rewrite (jump_spec P (Q ++ Y ++ Z)); [|by rewrite E, EX, <- app_assoc|done|unfold i; lia].
    rewrite (proj2 (Z.leb_le (Z.of_nat (S i)) _)), Nat2Z.id by (unfold i; lia). rewrite andb_true_r.
    destruct (Z.leb_spec (zlen P) (Z.of_nat (S i))) as [Hle|Hgt]; cbn [mbind res_bind]; [by apply unless_out_spec|].
    destruct Hpg as [[-> _]|(_ & _ & Hge)]; [done|]. unfold zlen in *. lia.
Qed.

Lemma nth_in_range_spec n : (forall e, e ∈ es -> pg (it e) = false -> pl (it e) = true) -> - 2 ^ 62 <= n <= 2 ^ 62 ->
  nth_in_range gte lte h zsl true n = Ok (e_loc <$> pick n (List.filter in_range es)).
Proof.
  intros Hsub Hn. destruct (range_parts Hsub) as (X & Y & Z & E & EY & HX & HYZ & HXY & HZ). rewrite EY. unfold pick.
  destruct (Z.leb_spec 0 n); [apply (nth_in_range_from_start n X Y Z)|apply (nth_in_range_from_end n X Y Z)]; done || lia.
Qed.

(** [ends_in_range] is false only when nothing is in the range. *)
Lemma ends_in_range_spec : (forall e, e ∈ es -> pg (it e) = false -> pl (it e) = true) ->
  exists b, ends_in_range gte lte h zsl = Ok b /\ (b = false -> List.filter in_range es = []).
Proof.
  intros Hsub. destruct (range_parts Hsub) as (X & Y & Z & E & EY & HX & HYZ & HXY & HZ). rewrite EY.
  unfold ends_in_range. rewrite (ok_tail _ _ _ Hinv). destruct (last es) as [el|] eqn:El; cbn [fmap option_fmap option_map].
  2: { apply last_None in El. exists false. split; [done|]. intros _. rewrite El in E. destruct X, Y; done. }
  pose proof El as [es' Es']%last_Some. pose proof Hr as Hr'. rewrite Es' in Hr'. destruct (repr_entry h lv x0 es' el [] Hr') as (n & -> & Hnl).
  cbn [mbind res_bind]. rewrite (Hgte n el); [|rewrite Es'; set_solver|done]. cbn [mbind res_bind]. destruct (pg (it el)) eqn:Eg; cbn [negb].
  2: { exists false. split; [done|]. intros _. destruct (Y ++ Z) as [|b R _] eqn:EYZ using rev_ind; [by destruct Y|].
       rewrite Es' in E. rewrite app_assoc in E. apply app_inj_tail in E as [_ ->]. apply Forall_app in HYZ as [_ HYZ].
       apply Forall_cons_1 in HYZ as [HYZ _]. by rewrite Eg in HYZ. }
  destruct (zsl_next_spec h lv x0 [] es Hr) as (v & Hv & Hf). change (node_at x0 []) with x0 in Hv. rewrite Hv. cbn [mbind res_bind]. rewrite Hf.
  destruct es as [|ef es2] eqn:Ees; [by destruct es'|]. cbn [head fmap option_fmap option_map].
  destruct (repr_entry h lv x0 [] ef es2 Hr) as (n2 & -> & Hn2). cbn [mbind res_bind]. rewrite (Hlte n2 ef); [|by left|done]. eexists. split; [done|].
  intros Hpl. destruct X as [|x X]; [destruct Y as [|y Y]; [done|]|].
  - cbn in E. injection E as -> _. apply Forall_cons_1 in HXY as [HXY _]. congruence.
  - cbn in E. injection E as -> _. apply Forall_cons_1 in HXY as [HXY _]. congruence.
Qed.

End range.

Lemma filter_none (p : entry -> bool) l : (forall e, e ∈ l -> p e = false) -> List.filter p l = [].
Proof. induction l as [|e l IH]; [done|]. intros H. cbn. rewrite (H e) by left. apply IH. intros e' He'. apply H. by right. Qed.

Lemma pick_nil n : pick n [] = None.
Proof. unfold pick. destruct (0 <=? n); [done|]. by destruct (zlen [] + n <? 0). Qed.

Definition by_score (r : zrangespec) (e : entry) : bool := zslValueGteMin (e_score e) r && zslValueLteMax (e_score e) r.

Lemma score_reads r : reads (fun n => Ok (zslValueGteMin (score n) r)) (fun a => zslValueGteMin a.1 r) /\
  reads (fun n => Ok (zslValueLteMax (score n) r)) (fun a => zslValueLteMax a.1 r).
Proof. split; intros n e [_ ->]; done. Qed.

Lemma entry_number e : e ∈ es -> isnan (e_score e) = false.
Proof. intros He. pose proof (ok_numbers _ _ _ Hinv) as Hn. rewrite Forall_forall in Hn. by apply Hn. Qed.

Lemma zslNthInRange_spec r n : isnan (min r) = false -> isnan (max r) = false -> - 2 ^ 62 <= n <= 2 ^ 62 ->
  zslNthInRange h zsl r n = Ok (e_loc <$> pick n (List.filter (by_score r) es)).
Proof.
  intros Hmin Hmax Hn. unfold zslNthInRange, zslIsInRange. fold (range_empty r). destruct (score_reads r) as [Hg Hl].
  destruct (range_empty r) eqn:He.
  { cbn [mbind res_bind nth_in_range negb]. rewrite filter_none, pick_nil; [done|].
    intros e Hin. apply range_empty_none; [done..|by apply entry_number|done]. }
  assert (forall e, e ∈ es -> zslValueGteMin (it e).1 r = false -> zslValueLteMax (it e).1 r = true) as Hsub.
  { intros e Hin. apply range_order; [done..|by apply entry_number|done]. }
  pose proof (downward_below r Hmin) as Hdg. pose proof (downward_upto r Hmax) as Hdl.
  destruct (ends_in_range_spec _ _ _ _ (reads_reads_on es _ _ Hg) (reads_reads_on es _ _ Hl) Hdg Hdl Hsub) as (b & -> & Hb).
  cbn [mbind res_bind]. destruct b.
  - by apply (nth_in_range_spec _ _ _ _ (reads_reads_on es _ _ Hg) (reads_reads_on es _ _ Hl)).
  - cbn [nth_in_range negb]. change (List.filter (by_score r) es) with (List.filter (in_range (fun a => zslValueGteMin a.1 r) (fun a => zslValueLteMax a.1 r)) es).
    by rewrite Hb, pick_nil.
Qed.

Definition by_lex (r : zlexrangespec) (e : entry) : bool := zslLexValueGteMin (e_ele e) r && zslLexValueLteMax (e_ele e) r.

(** Ranges by element are meant for elements of one score. *)
Definition one_score (s : double) (l : list entry) : Prop := Forall (fun e => deq (e_score e) s = true) l.

Lemma lex_reads r s : one_score s es ->
  reads_on es (lex_gte r) (fun a => negb (among s (fun b => negb (zslLexValueGteMin b r)) a)) /\
  reads_on es (lex_lte r) (among s (fun b => zslLexValueLteMax b r)).
Proof.
  intros Hs. unfold one_score in Hs. rewrite Forall_forall in Hs.
  split; intros n e Hin [He _]; specialize (Hs e Hin); unfold lex_gte, lex_lte, ele_of; rewrite He; cbn [mbind res_bind];
    rewrite among_here by done; cbn; by rewrite ?negb_involutive.
Qed.

Lemma zslNthInLexRange_spec r s n : one_score s es -> - 2 ^ 62 <= n <= 2 ^ 62 ->
  zslNthInLexRange h zsl r n = Ok (e_loc <$> pick n (List.filter (by_lex r) es)).
Proof.
  intros Hs Hn. unfold zslNthInLexRange, zslIsInLexRange. fold (lex_empty r). destruct (lex_reads r s Hs) as [Hg Hl].
  destruct (lex_empty r) eqn:He.
  { cbn [mbind res_bind nth_in_range negb]. rewrite filter_none, pick_nil; [done|]. intros e _. by apply lex_empty_none. }
  set (pg := fun a => negb (among s (fun b => negb (zslLexValueGteMin b r)) a)) in *. set (pl := among s (fun b => zslLexValueLteMax b r)) in *.
  assert (forall e, e ∈ es -> pg (it e) = zslLexValueGteMin (e_ele e) r /\ pl (it e) = zslLexValueLteMax (e_ele e) r) as Hp.
  { intros e Hin. unfold one_score in Hs. rewrite Forall_forall in Hs. specialize (Hs e Hin). unfold pg, pl.
    rewrite !among_here by done. by rewrite negb_involutive. }
  assert (List.filter (by_lex r) es = List.filter (in_range pg pl) es) as ->.
  { apply filter_ext_in. intros e Hin. apply list_elem_of_In in Hin. unfold by_lex, in_range. by destruct (Hp e Hin) as [-> ->]. }
  assert (forall e, e ∈ es -> pg (it e) = false -> pl (it e) = true) as Hsub.
  { intros e Hin. destruct (Hp e Hin) as [-> ->]. by apply lex_order. }
  assert (downward (fun a => negb (pg a))) as Hdg.
  { intros a b. unfold pg. rewrite !negb_involutive. apply downward_among, lex_below. }
  assert (downward pl) as Hdl by apply downward_among, lex_upto.
  destruct (ends_in_range_spec _ _ _ _ Hg Hl Hdg Hdl Hsub) as (b & -> & Hb). cbn [mbind res_bind]. destruct b.
  - by apply (nth_in_range_spec _ _ _ _ Hg Hl).
  - cbn [nth_in_range negb]. by rewrite Hb, pick_nil.
Qed.

End query.

End ZskiplistQuery.
