(* ===== verification/Zset.v ===== *)
(** * Sorted sets of the skip list encoding (t_zset.c, object.c)

    A sorted set is a dict from elements to the nodes that hold their scores
    and a skip list of these nodes: a value of the dict is a pointer to
    [znode->score], so a score is read through the heap of the skip list.  The
    functions below are the skip list branches of the sorted set API and of the
    commands that read and remove ranges; what a command sends to the client or
    stores is the list of elements and scores it emits. *)

From stdpp Require Import gmap fin_maps.
From Stdlib Require Import SpecFloat.
From S2P Require Import Prelude Dict Zskiplist.
#[local] Open Scope Z_scope.

Module Zset.
Import Dict Zskiplist.

(** ** Flags *)

Definition ZADD_IN_INCR : Z := Z.shiftl 1 0.
Definition ZADD_IN_NX : Z := Z.shiftl 1 1.
Definition ZADD_IN_XX : Z := Z.shiftl 1 2.
Definition ZADD_IN_GT : Z := Z.shiftl 1 3.
Definition ZADD_IN_LT : Z := Z.shiftl 1 4.
Definition ZADD_OUT_NOP : Z := Z.shiftl 1 0.
Definition ZADD_OUT_NAN : Z := Z.shiftl 1 1.
Definition ZADD_OUT_ADDED : Z := Z.shiftl 1 2.
Definition ZADD_OUT_UPDATED : Z := Z.shiftl 1 3.

Definition flag (flags f : Z) : bool := negb (Z.land flags f =? 0).

(** ** The object *)

Record zset : Type := { zdict : @dict bytes loc; zsl : zskiplist }.

Definition set_dict (zs : zset) (d : @dict bytes loc) : zset := {| zdict := d; zsl := zsl zs |}.
Definition set_zsl (zs : zset) (z : zskiplist) : zset := {| zdict := zdict zs; zsl := z |}.

Section zset.
Context (junk_backward : option loc) (junk_level : nat -> zskiplistLevel).
Context (ty : @dictType bytes) (can : dictResizeEnable).

Definition createZsetObject : res (heap * zset) :=
  r ← zslCreate junk_backward junk_level ∅;
  Ok (fst r, {| zdict := dictCreate; zsl := snd r |}).

Definition freeZsetObject (h : heap) (zs : zset) : res heap := zslFree h (zsl zs).

Definition zsetLength (zs : zset) : Z := zlength (zsl zs).

(** [*(double * )dictGetVal(de)]: the type of the dict of a sorted set has
    values, and an entry without one has no pointer to follow. *)
Definition score_at (h : heap) (de : @dictEntry bytes loc) : res double :=
  x ← deref (de_val de); n ← node h x; Ok (score n).

Definition zsetScore (h : heap) (zs : zset) (member : bytes) : res (zset * option double) :=
  r ← dictFind ty can (zdict zs) member;
  match r with
  | (d, None) => Ok (set_dict zs d, None)
  | (d, Some de) => s ← score_at h de; Ok (set_dict zs d, Some s)
  end.

(** [dictSetVal(d, de, val)] for the entry [de] that [dictFind] has returned:
    it is where a search for its key ends. *)
Definition set_found (d : @dict bytes loc) (de : @dictEntry bytes loc) (val : loc) : res (@dict bytes loc) :=
  let h := hashFunction ty (de_key de) in
  r ← search_tables ty d h (Z.land h (DICTHT_SIZE_MASK (ht_size_exp (ht0 d)))) (de_key de);
  match fst r with
  | Some (t, i, _) => dictSetVal ty d (t, i) (de_key de) val
  | None => Fault OutOfBounds
  end.

(** The result: the return value, [*out_flags] and, where it was written,
    [*newscore]. *)
Record zadd_result : Type := { ret : bool; out_flags : Z; newscore : option double }.

(** The branch of [zsetAdd] for an element that is in the set. *)
Definition zsetAdd_existing (h : heap) (zs : zset) (sc : double) (e : bytes) (in_flags : Z) (de : @dictEntry bytes loc)
  (draws : list Z) : res (heap * zset * zadd_result) :=
  if flag in_flags ZADD_IN_NX then Ok (h, zs, {| ret := true; out_flags := ZADD_OUT_NOP; newscore := None |}) else
  curscore ← score_at h de;
  let sc := if flag in_flags ZADD_IN_INCR then dadd sc curscore else sc in
  if flag in_flags ZADD_IN_INCR && isnan sc then
    Ok (h, zs, {| ret := false; out_flags := ZADD_OUT_NAN; newscore := None |})
  else if (flag in_flags ZADD_IN_LT && dle curscore sc) || (flag in_flags ZADD_IN_GT && dle sc curscore) then
    Ok (h, zs, {| ret := true; out_flags := ZADD_OUT_NOP; newscore := None |})
  else if negb (deq sc curscore) then
    '(h, z, x) ← zslUpdateScore junk_backward junk_level h (zsl zs) curscore e sc draws;
    d ← set_found (zdict zs) de x;
    Ok (h, {| zdict := d; zsl := z |}, {| ret := true; out_flags := ZADD_OUT_UPDATED; newscore := Some sc |})
  else Ok (h, zs, {| ret := true; out_flags := 0; newscore := Some sc |}).

Definition zsetAdd (h : heap) (zs : zset) (sc : double) (e : bytes) (in_flags : Z) (draws : list Z)
  : res (heap * zset * zadd_result) :=
  if isnan sc then Ok (h, zs, {| ret := false; out_flags := ZADD_OUT_NAN; newscore := None |}) else
  r ← dictFind ty can (zdict zs) e;
  match r with
  | (d, Some de) => zsetAdd_existing h (set_dict zs d) sc e in_flags de draws
  | (d, None) =>
    if negb (flag in_flags ZADD_IN_XX) then
      '(h, z, x) ← zslInsert junk_backward junk_level h (zsl zs) sc e draws;
      r ← dictAdd ty can d e x;
      _ ← cassert (snd r);
      Ok (h, {| zdict := fst r; zsl := z |}, {| ret := true; out_flags := ZADD_OUT_ADDED; newscore := Some sc |})
    else Ok (h, set_dict zs d, {| ret := true; out_flags := ZADD_OUT_NOP; newscore := None |})
  end.

(** [dictFreeUnlinkedEntry] releases the entry, which the model has dropped. *)
Definition zsetRemoveFromSkiplist (h : heap) (zs : zset) (e : bytes) : res (heap * zset * bool) :=
  r ← dictUnlink ty can (zdict zs) e;
  match r with
  | (d, None) => Ok (h, set_dict zs d, false)
  | (d, Some de) =>
    s ← score_at h de;
    '(h, z, found) ← zslDelete h (zsl zs) s e false;
    _ ← cassert (match found with Some _ => true | None => false end);
    Ok (h, {| zdict := d; zsl := z |}, true)
  end.

Definition zsetDel (h : heap) (zs : zset) (e : bytes) : res (heap * zset * bool) := zsetRemoveFromSkiplist h zs e.

(** The rank, or -1; and the score where [*output_score] is written. *)
Definition zsetRank (h : heap) (zs : zset) (e : bytes) (reverse : bool) : res (zset * Z * option double) :=
  let llen := zsetLength zs in
  r ← dictFind ty can (zdict zs) e;
  match r with
  | (d, None) => Ok (set_dict zs d, -1, None)
  | (d, Some de) =>
    s ← score_at h de;
    rank ← zslGetRank h (zsl zs) s e;
    _ ← cassert (negb (rank =? 0));
    Ok (set_dict zs d, if reverse then i64 (u64 (llen - rank)) else i64 (u64 (rank - 1)), Some s)
  end.

(** ** Removing ranges *)

Inductive zremrange : Type :=
  | ZRANGE_RANK (start stop : Z)
  | ZRANGE_SCORE (range : zrangespec)
  | ZRANGE_LEX (range : zlexrangespec).

Definition dictPauseAutoResize (d : @dict bytes loc) : @dict bytes loc :=
  {| ht0 := ht0 d; ht1 := ht1 d; rehashidx := rehashidx d; pauserehash := pauserehash d; pauseAutoResize := i16 (pauseAutoResize d + 1) |}.
Definition dictResumeAutoResize (d : @dict bytes loc) : @dict bytes loc :=
  {| ht0 := ht0 d; ht1 := ht1 d; rehashidx := rehashidx d; pauserehash := pauserehash d; pauseAutoResize := i16 (pauseAutoResize d - 1) |}.

(** The sanitized indexes, or [None] when the range is empty. *)
Definition sanitize (start stop llen : Z) : option (Z * Z) :=
  let start := if start <? 0 then llen + start else start in
  let stop := if stop <? 0 then llen + stop else stop in
  let start := if start <? 0 then 0 else start in
  if (stop <? start) || (llen <=? start) then None
  else Some (start, if llen <=? stop then llen - 1 else stop).

(** The skip list branch of [zremrangeGenericCommand]: how many elements were
    deleted, and whether the key is to be removed because nothing is left. *)
Definition zremrangeGenericCommand (h : heap) (zs : zset) (range : zremrange) : res (heap * zset * Z * bool) :=
  let go (delete : heap -> zskiplist -> @dict bytes loc -> res (heap * zskiplist * @dict bytes loc * Z)) :=
    '(h, z, d, deleted) ← delete h (zsl zs) (dictPauseAutoResize (zdict zs));
    let d := dictResumeAutoResize d in
    if dictSize d =? 0 then Ok (h, {| zdict := d; zsl := z |}, deleted, true) else
    r ← dictShrinkIfNeeded ty can d;
    Ok (h, {| zdict := fst r; zsl := z |}, deleted, false) in
  match range with
  | ZRANGE_RANK start stop =>
    match sanitize start stop (zsetLength zs) with
    | None => Ok (h, zs, 0, false)
    | Some (start, stop) => go (fun h z d => zslDeleteRangeByRank ty can h z (u32 (start + 1)) (u32 (stop + 1)) d)
    end
  | ZRANGE_SCORE r => go (fun h z d => zslDeleteRangeByScore ty can h z r d)
  | ZRANGE_LEX r => go (fun h z d => zslDeleteRangeByLex ty can h z r d)
  end.

(** ** Reading ranges *)

(** [handler->emitResultFromCBuffer] *)
Definition emit (n : zskiplistNode) : res (double * bytes) := e ← ele_of n; Ok (score n, e).

(** [reverse ? ln->backward : ln->level[0].forward] *)
Definition next_node (reverse : bool) (n : zskiplistNode) : res (option loc) :=
  if reverse then Ok (backward n) else v ← nth_ (levels n) 0; Ok (forward v).

Fixpoint emit_count (h : heap) (n : nat) (reverse : bool) (ln : option loc) : res (list (double * bytes)) :=
  match n with
  | O => Ok []
  | S n =>
    _ ← cassert (match ln with Some _ => true | None => false end);
    x ← deref ln;
    nd ← node h x;
    a ← emit nd;
    ln ← next_node reverse nd;
    rest ← emit_count h n reverse ln;
    Ok (a :: rest)
  end.

Definition genericZrangebyrankCommand (h : heap) (zs : zset) (start stop : Z) (reverse : bool) : res (list (double * bytes)) :=
  let llen := zsetLength zs in
  match sanitize start stop llen with
  | None => Ok []
  | Some (start, stop) =>
    ln ← (if reverse then
            if 0 <? start then zslGetElementByRank h (zsl zs) (u64 (llen - start)) else Ok (tail (zsl zs))
          else
            if 0 <? start then zslGetElementByRank h (zsl zs) (u64 (start + 1))
            else v ← level_at h (header (zsl zs)) 0; Ok (forward v));
    emit_count h (Z.to_nat (stop - start + 1)) reverse ln
  end.

(** [while (ln && limit--) { if (out of range) break; emit; next }]; a
    negative limit does not run out. *)
Fixpoint emit_while (fuel : nat) (h : heap) (test : zskiplistNode -> res bool) (reverse : bool) (limit : Z) (ln : option loc)
  : res (list (double * bytes)) :=
  match ln with
  | None => Ok []
  | Some x =>
    if limit =? 0 then Ok [] else
    match fuel with
    | O => Fault OutOfFuel
    | S fuel =>
      nd ← node h x;
      b ← test nd;
      if negb b then Ok [] else
      a ← emit nd;
      ln ← next_node reverse nd;
      rest ← emit_while fuel h test reverse (limit - 1) ln;
      Ok (a :: rest)
    end
  end.

Definition genericZrangebyscoreCommand (h : heap) (zs : zset) (range : zrangespec) (offset limit : Z) (reverse : bool)
  : res (list (double * bytes)) :=
  if (0 <? offset) && (i64 (zsetLength zs) <=? offset) then Ok [] else
  ln ← zslNthInRange h (zsl zs) range (if reverse then - offset - 1 else offset);
  emit_while (size h) h
    (fun n => Ok (if reverse then zslValueGteMin (score n) range else zslValueLteMax (score n) range)) reverse limit ln.

Definition genericZrangebylexCommand (h : heap) (zs : zset) (range : zlexrangespec) (offset limit : Z) (reverse : bool)
  : res (list (double * bytes)) :=
  ln ← zslNthInLexRange h (zsl zs) range (if reverse then - offset - 1 else offset);
  emit_while (size h) h (if reverse then lex_gte range else lex_lte range) reverse limit ln.

(** The count of [zcountCommand] and [zlexcountCommand], from the first and the
    last node in the range. *)
Definition count_between (h : heap) (zs : zset) (nth : Z -> res (option loc)) : res Z :=
  first ← nth 0;
  match first with
  | None => Ok 0
  | Some x =>
    n ← node h x;
    e ← ele_of n;
    rank ← zslGetRank h (zsl zs) (score n) e;
    let count := u64 (zlength (zsl zs) - u64 (rank - 1)) in
    last ← nth (-1);
    match last with
    | None => Ok count
    | Some y =>
      n ← node h y;
      e ← ele_of n;
      rank ← zslGetRank h (zsl zs) (score n) e;
      Ok (u64 (count - u64 (zlength (zsl zs) - rank)))
    end
  end.

Definition zcountCommand (h : heap) (zs : zset) (range : zrangespec) : res Z :=
  count_between h zs (zslNthInRange h (zsl zs) range).

Definition zlexcountCommand (h : heap) (zs : zset) (range : zlexrangespec) : res Z :=
  count_between h zs (zslNthInLexRange h (zsl zs) range).

(** ** Popping *)

(** The [do ... while(--rangelen)] loop of [genericZpopCommand] on [rangelen]
    elements: what it replies. *)
Fixpoint pop_loop (h : heap) (zs : zset) (where_max : bool) (rangelen : nat) : res (heap * zset * list (double * bytes)) :=
  match rangelen with
  | O => Ok (h, zs, [])
  | S rangelen =>
    zln ← (if where_max then Ok (tail (zsl zs)) else v ← level_at h (header (zsl zs)) 0; Ok (forward v));
    _ ← cassert (match zln with Some _ => true | None => false end);
    x ← deref zln;
    n ← node h x;
    a ← emit n;
    '(h, zs, found) ← zsetDel h zs (snd a);
    _ ← cassert found;
    '(h, zs, rest) ← pop_loop h zs where_max rangelen;
    Ok (h, zs, a :: rest)
  end.

(** [count] is -1 for a plain pop (other negative counts are refused by the
    callers); the flag says that the key is to be removed. *)
Definition genericZpopCommand (h : heap) (zs : zset) (where_max : bool) (count : Z)
  : res (heap * zset * list (double * bytes) * bool) :=
  if count =? 0 then Ok (h, zs, [], false) else
  let count := if count =? -1 then 1 else count in
  let llen := zsetLength zs in
  let rangelen := if llen <? count then llen else count in
  '(h, zs, out) ← pop_loop h zs where_max (Z.to_nat (Z.max 1 rangelen));
  Ok (h, zs, out, zsetLength zs =? 0).

End zset.

End Zset.
