(* ===== verification/ZsetTheory.v ===== *)
(** * Sorted sets: the dict and the skip list together.

    [zset_ok h zs es]: the skip list holds the entries [es], their elements are
    distinct, and the dict maps each element to the node that holds its score.
    Every operation keeps this. *)

From Stdlib Require Import SpecFloat Sorting.Sorted.
From S2P Require Import Prelude Dict DictTheory DictSpec Zskiplist ZskiplistOrder ZskiplistTheory ZskiplistLink ZskiplistOps ZskiplistQuery Zset.
From stdpp Require Import list gmap fin_maps.
#[local] Open Scope Z_scope.

Module ZsetTheory.
Import Dict DictTheory DictSpec Zskiplist ZskiplistOrder ZskiplistTheory ZskiplistLink ZskiplistOps ZskiplistQuery Zset.

(** ** Sorted lists of items as an abstract sorted set *)

(** The score of an element. *)
Definition score_in (e : bytes) (l : list item) : option double :=
  match List.find (fun a => bool_decide (a.2 = e)) l with Some a => Some a.1 | None => None end.

Definition remove (e : bytes) (l : list item) : list item := List.filter (fun a => negb (bool_decide (a.2 = e))) l.

(** [k] where it belongs. *)
Definition place (k : item) (l : list item) : list item :=
  List.filter (fun a => ilt a k) l ++ k :: List.filter (fun a => negb (ilt a k)) l.

Lemma filter_all {A} (p : A -> bool) l : Forall (fun a => p a = true) l -> List.filter p l = l.
Proof. induction 1 as [|a l Ha _ IH]; [done|]. cbn. by rewrite Ha, IH. Qed.

Lemma filter_nothing {A} (p : A -> bool) l : Forall (fun a => p a = false) l -> List.filter p l = [].
Proof. induction 1 as [|a l Ha _ IH]; [done|]. cbn. by rewrite Ha, IH. Qed.

Lemma place_sorted A k B : sorted (A ++ k :: B) -> place k (A ++ B) = A ++ k :: B.
Proof.
  intros (HA & HB & HAB)%sorted_app. apply sorted_cons in HB as [HkB _]. unfold place. rewrite !List.filter_app.
  assert (Forall (fun a => ilt a k = true) A) as HAk.
  { eapply Forall_impl; [exact HAB|]. cbn. intros a Ha. by apply Forall_cons_1 in Ha as [? _]. }
  assert (Forall (fun a => ilt a k = false) B) as HBk.
  { eapply Forall_impl; [exact HkB|]. cbn. intros a Ha. by apply ilt_asym. }
  rewrite (filter_all _ A), (filter_nothing _ B), (filter_nothing _ A), (filter_all _ B) by
    (done || (eapply Forall_impl; [eassumption|]; cbn; intros a ->; done)). by rewrite app_nil_r.
Qed.

Lemma remove_absent e l : e ∉ l.*2 -> remove e l = l.
Proof.
  intros He. apply filter_all. rewrite Forall_forall. intros a Ha. rewrite bool_decide_false; [done|].
  intros <-. apply He. by apply list_elem_of_fmap_2.
Qed.

Lemma remove_split A x B : x.2 ∉ (A ++ B).*2 -> remove x.2 (A ++ x :: B) = A ++ B.
Proof.
  intros Hx. unfold remove. rewrite List.filter_app. cbn. rewrite bool_decide_true by done. cbn.
  rewrite <- List.filter_app. by apply remove_absent.
Qed.

Lemma score_in_split A x B : x.2 ∉ A.*2 -> score_in x.2 (A ++ x :: B) = Some x.1.
Proof.
  intros Hx. unfold score_in. induction A as [|a A IH]; cbn; [by rewrite bool_decide_true|].
  rewrite bool_decide_false; [apply IH|]; set_solver.
Qed.

Lemma score_in_absent e l : e ∉ l.*2 -> score_in e l = None.
Proof.
  intros Hx. unfold score_in. induction l as [|a l IH]; [done|]. cbn. rewrite bool_decide_false; [apply IH|]; set_solver.
Qed.

(** ** The map of a list of entries *)

Definition locs (es : list entry) : gmap bytes (option loc) := list_to_map ((fun e => (e_ele e, Some (e_loc e))) <$> es).

Lemma locs_keys es : ((fun e => (e_ele e, Some (e_loc e))) <$> es).*1 = e_ele <$> es.
Proof. by rewrite <- list_fmap_compose. Qed.

Lemma locs_middle A x B : NoDup (e_ele <$> A ++ x :: B) -> locs (A ++ x :: B) = <[e_ele x := Some (e_loc x)]> (locs (A ++ B)).
Proof.
  intros Hnd. unfold locs. rewrite !fmap_app. cbn [fmap list_fmap].
  rewrite (list_to_map_proper _ ((e_ele x, Some (e_loc x)) :: ((fun e => (e_ele e, Some (e_loc e))) <$> A) ++ ((fun e => (e_ele e, Some (e_loc e))) <$> B))); [done| |].
  - rewrite fmap_app, fmap_cons, !locs_keys. by rewrite fmap_app in Hnd.
  - by rewrite Permutation_middle.
Qed.

Lemma locs_absent es e : e ∉ e_ele <$> es -> locs es !! e = None.
Proof. intros H. apply not_elem_of_list_to_map_1. by rewrite locs_keys. Qed.

Lemma locs_size es : NoDup (e_ele <$> es) -> size (locs es) = length es.
Proof.
  intros Hnd. unfold locs. rewrite <- length_map_to_list. rewrite (Permutation_length (map_to_list_to_map _ ltac:(by rewrite locs_keys))).
  by rewrite length_fmap.
Qed.

Lemma nodup_middle {A B} (f : A -> B) (P : list A) x Q : NoDup (f <$> P ++ x :: Q) -> (f x ∉ f <$> P ++ Q) /\ NoDup (f <$> P ++ Q).
Proof.
  rewrite !fmap_app. cbn [fmap list_fmap]. rewrite <- Permutation_middle. intros [H1 H2]%list.NoDup_cons. done.
Qed.

Lemma nodup_insert {A B} (f : A -> B) (P : list A) x Q : f x ∉ f <$> P ++ Q -> NoDup (f <$> P ++ Q) -> NoDup (f <$> P ++ x :: Q).
Proof. rewrite !fmap_app. cbn [fmap list_fmap]. rewrite <- Permutation_middle. intros H1 H2. by constructor. Qed.

Lemma locs_delete A x B : NoDup (e_ele <$> A ++ x :: B) -> delete (e_ele x) (locs (A ++ x :: B)) = locs (A ++ B).
Proof.
  intros Hnd. rewrite locs_middle by done. apply nodup_middle in Hnd as [Hx _]. rewrite delete_insert_eq, delete_id; [done|].
  by apply locs_absent.
Qed.

(** The position of an element. *)
Fixpoint rank_in (e : bytes) (l : list item) : option Z :=
  match l with
  | [] => None
  | a :: l => if bool_decide (a.2 = e) then Some 0 else (Z.add 1) <$> rank_in e l
  end.

Lemma rank_in_split A x B : x.2 ∉ A.*2 -> rank_in x.2 (A ++ x :: B) = Some (zlen A).
Proof.
  intros Hx. induction A as [|a A IH]; cbn [rank_in app]; [by rewrite bool_decide_true|].
  rewrite bool_decide_false by set_solver. rewrite IH by set_solver. cbn. by rewrite zlen_cons, Z.add_comm.
Qed.

Lemma rank_in_absent e l : e ∉ l.*2 -> rank_in e l = None.
Proof.
  intros Hx. induction l as [|a l IH]; [done|]. cbn. rewrite bool_decide_false by set_solver. rewrite IH by set_solver. done.
Qed.

(** The items a sorted set holds. *)
Abbreviation items es := (it <$> (es : list entry)).

Lemma items_ele (es : list entry) : (items es).*2 = e_ele <$> es.
Proof. by rewrite <- list_fmap_compose. Qed.

Lemma score_in_entry A x B : NoDup (e_ele <$> A ++ x :: B) -> score_in (e_ele x) (items (A ++ x :: B)) = Some (e_score x).
Proof.
  intros Hnd. apply nodup_middle in Hnd as [Hx _]. rewrite fmap_app in Hx. rewrite fmap_app. cbn [fmap list_fmap].
  apply (score_in_split (items A) (it x)). rewrite items_ele. set_solver.
Qed.

Lemma rank_in_entry A x B : NoDup (e_ele <$> A ++ x :: B) -> rank_in (e_ele x) (items (A ++ x :: B)) = Some (zlen A).
Proof.
  intros Hnd. apply nodup_middle in Hnd as [Hx _]. rewrite fmap_app in Hx. rewrite fmap_app. cbn [fmap list_fmap].
  rewrite (rank_in_split (items A) (it x)); [by rewrite zlen_fmap|]. rewrite items_ele. set_solver.
Qed.

Lemma remove_entry A x B : NoDup (e_ele <$> A ++ x :: B) -> remove (e_ele x) (items (A ++ x :: B)) = items (A ++ B).
Proof.
  intros Hnd. apply nodup_middle in Hnd as [Hx _]. rewrite <- items_ele in Hx. rewrite fmap_app. cbn [fmap list_fmap].
  change (e_ele x) with (it x).2. rewrite remove_split; by rewrite <- fmap_app.
Qed.

Section theory.
Context (junk_backward : option loc) (junk_level : nat -> zskiplistLevel).
Context (ty : @dictType bytes) {Hty : DictTypeOk ty} (Hnv : no_value ty = false) (can : dictResizeEnable).

(** ** The dict *)

Lemma find_map (d : @dict bytes loc) k : ready ty d ->
  exists d' r, dictFind ty can d k = Ok (d', r) /\ ready ty d' /\ dict_map d' = dict_map d /\
  match r with
  | Some de => de_key de = k /\ dict_map d !! k = Some (de_val de)
  | None => dict_map d !! k = None
  end.
Proof.
  intros Hr. pose proof Hr as (Hok & _). destruct (dictFind_spec ty can d k Hok) as (d' & r & E & Hk & _ & Hres).
  exists d', r. split; [done|]. pose proof Hk as (Hp & Hf & _).
  split; [eapply ready_flags; [done|by eapply keeps_ok|done]|]. split; [by apply map_perm with (ty := ty)|]. destruct r as [de|].
  - destruct Hres as [Hke Hin]. split; [done|]. apply (map_found ty); [done|]. unfold kv in Hin. by rewrite Hke in Hin.
  - by apply map_absent.
Qed.

Lemma add_map (d : @dict bytes loc) k v : ready ty d -> zlen (contents d) < max_entries -> dict_map d !! k = None ->
  exists d', dictAdd ty can d k v = Ok (d', true) /\ ready ty d' /\ dict_map d' = <[k := Some v]> (dict_map d).
Proof.
  intros Hr Hroom Hn. pose proof Hr as (Hok & _ & Hpa).
  destruct (dictAdd_spec ty can d k v Hok ltac:(left; lia) Hroom) as (d' & r & E & Hok' & Hf & _ & Hres). destruct r.
  - exists d'. split; [done|]. split; [by eapply ready_flags|]. destruct Hres as [_ Hp]. unfold stored in Hp. rewrite Hnv in Hp.
    by rewrite (map_cons ty d' _ _ _ Hok' Hp).
  - destruct Hres as [Hin _]. apply map_present in Hin. rewrite Hn in Hin. by destruct Hin.
Qed.

Lemma delete_map (d : @dict bytes loc) k : dict_ok ty d ->
  exists d' r, dictGenericDelete ty can d k = Ok (d', r) /\ dict_ok ty d' /\ same_flags d d' /\
    dict_map d' = delete k (dict_map d) /\ found r = dict_map d !! k /\ zlen (contents d') <= zlen (contents d).
Proof.
  intros Hok. destruct (dictGenericDelete_spec ty can d k Hok) as (d' & r & E & Hok' & Hf & _ & Hres). exists d', r.
  destruct (removed_map ty d d' k r Hok Hres) as (H1 & H2 & _). split_and!; try done.
  destruct r; destruct Hres as [_ Hp]; rewrite (zlen_perm _ _ Hp), ?zlen_cons; lia.
Qed.

Lemma set_found_map (d : @dict bytes loc) de v : ready ty d -> dict_map d !! de_key de <> None ->
  exists d', set_found ty d de v = Ok d' /\ ready ty d' /\ dict_map d' = <[de_key de := Some v]> (dict_map d) /\
    zlen (contents d') = zlen (contents d).
Proof.
  intros Hr Hin. pose proof Hr as (Hok & _). unfold set_found.
  assert (dictSize d <> 0) as Hsz.
  { rewrite (map_size ty d Hok). intros Hz. assert (size (dict_map d) = 0%nat) as Hs by lia. apply map_size_empty_inv in Hs. rewrite Hs in Hin. done. }
  pose proof (nonempty_table ty d Hok Hsz) as H0.
  assert (search_pre ty d (de_key de) (slot (ht_size_exp (ht0 d)) (hashFunction ty (de_key de)))) as Hpre.
  { apply lookup_search_pre with (d := d); [done|done|]. apply moves_refl. apply Hok. }
  destruct (search_tables_spec ty d (de_key de) _ Hok Hpre) as (r & i & E & Hres). unfold slot in E. rewrite E. cbn [mbind res_bind fst].
  destruct r as [[[t j] de']|].
  2: { destruct Hres as [Hn _]. apply map_absent in Hn. done. }
  destruct Hres as [(Htt & -> & Hk & b & Hb & Hf) Hkv].
  destruct (setVal_spec ty d (de_key de) v t _ de' Hok Hnv Htt eq_refl) as (d' & rest & -> & Hp & Hp' & Hs & Hfl & _); [by exists b|].
  exists d'. unfold kv in Hp. rewrite Hk in Hp. pose proof (replaced_ok ty d d' _ _ _ _ Hok Hp Hp' Hs) as Hok'.
  split; [done|]. split; [by eapply ready_flags|]. split.
  - rewrite (map_cons ty d' _ _ _ Hok' Hp'), (map_cons ty d _ _ _ Hok Hp), insert_insert_eq. done.
  - by rewrite (zlen_perm _ _ Hp), (zlen_perm _ _ Hp'), !zlen_cons.
Qed.
(** ** The invariant *)

Definition zset_ok (h : heap) (zs : zset) (es : list entry) : Prop :=
  zsl_ok h (zsl zs) es /\ ready ty (zdict zs) /\ dict_map (zdict zs) = locs es /\ NoDup (e_ele <$> es).

Lemma contents_length (d : @dict bytes loc) es : dict_ok ty d -> dict_map d = locs es -> NoDup (e_ele <$> es) -> zlen (contents d) = zlen es.
Proof.
  intros Hok Hm Hnd. rewrite <- (dictSize_spec ty d Hok), (map_size ty d Hok), Hm, locs_size by done. done.
Qed.

Lemma zset_bound h zs es : zset_ok h zs es -> zlen es <= max_entries.
Proof. intros (_ & (Hok & _) & Hm & Hnd). rewrite <- (contents_length _ _ Hok Hm Hnd). apply Hok. Qed.

(** Looking an element up in the dict. *)
Lemma zset_find h zs es e : zset_ok h zs es ->
  exists d r, dictFind ty can (zdict zs) e = Ok (d, r) /\ zset_ok h (set_dict zs d) es /\
  ((exists A x B de, es = A ++ x :: B /\ e_ele x = e /\ r = Some de /\ de_key de = e /\ de_val de = Some (e_loc x) /\
      score_at h de = Ok (e_score x) /\ dict_map d !! e <> None) \/
   (r = None /\ e ∉ e_ele <$> es)).
Proof.
  intros (Hz & Hr & Hm & Hnd). destruct (find_map (zdict zs) e Hr) as (d & r & E & Hr' & Hm' & Hres).
  exists d, r. split; [done|]. split; [by rewrite <- Hm' in Hm|].
  destruct (decide (e ∈ e_ele <$> es)) as [Hin|Hout].
  - left. apply list_elem_of_fmap in Hin as (x & -> & Hin). apply list_elem_of_split in Hin as (A & B & ->).
    rewrite Hm, locs_middle, lookup_insert_eq in Hres by done. destruct r as [de|]; [|done]. destruct Hres as [Hk Hv].
    exists A, x, B, de. split_and!; try done; [congruence| |by rewrite Hm', Hm, locs_middle, lookup_insert_eq].
    unfold score_at. injection Hv as Hv. rewrite <- Hv. cbn [deref mbind res_bind].
    destruct (repr_entry h _ _ A x B (ok_repr _ _ _ (proj1 Hz))) as (n & -> & [_ Hs]). cbn [mbind res_bind]. by rewrite Hs.
  - right. rewrite Hm, locs_absent in Hres by done. destruct r as [de|]; [|done]. by destruct Hres.
Qed.

Lemma zsetScore_spec h zs es e : zset_ok h zs es ->
  exists zs', zsetScore ty can h zs e = Ok (zs', score_in e (items es)) /\ zset_ok h zs' es.
Proof.
  intros Hok. pose proof Hok as (_ & _ & _ & Hnd). unfold zsetScore.
  destruct (zset_find h zs es e Hok) as (d & r & -> & Hok' & [(A & x & B & de & -> & <- & -> & _ & _ & Hs & _)|[-> Hn]]); cbn [mbind res_bind].
  - rewrite Hs. cbn [mbind res_bind]. eexists. split; [|done]. by rewrite score_in_entry.
  - eexists. split; [|done]. rewrite score_in_absent; [done|]. by rewrite items_ele.
Qed.

(** ** Adding *)

Lemma zset_insert_spec h zs es sc e draws : zset_ok h zs es -> isnan sc = false -> e ∉ e_ele <$> es ->
  zlen es < max_entries -> Exists (fun r => threshold <= r) draws ->
  exists h' z x d es', zslInsert junk_backward junk_level h (zsl zs) sc e draws = Ok (h', z, x) /\
    dictAdd ty can (zdict zs) e x = Ok (d, true) /\ zset_ok h' {| zdict := d; zsl := z |} es' /\ items es' = place (sc, e) (items es).
Proof.
  intros ([Hinv Hdom] & Hr & Hm & Hnd) Hsc He Hroom Hd. unfold max_entries in Hroom.
  destruct (zslInsert_spec junk_backward junk_level h (zsl zs) es sc e draws Hinv Hsc) as (A & B & h' & z & x & -> & Eins & Hx & Hinv' & Hhd & Hfresh & Hdom'); [|lia|done|].
  { rewrite Forall_forall. intros a Ha. apply not_true_iff_false. intros Hs%same_eq. apply He. cbn in Hs. rewrite <- Hs. by apply list_elem_of_fmap_2. }
  assert (e_ele x = e) as Hex by (unfold it in Hx; congruence). pose proof Hr as (Hok & _).
  destruct (add_map (zdict zs) e (e_loc x) Hr) as (d & Eadd & Hr' & Hm').
  { rewrite (contents_length _ _ Hok Hm Hnd). done. }
  { by rewrite Hm, locs_absent. }
  assert (NoDup (e_ele <$> A ++ x :: B)) as Hnd' by (apply nodup_insert; [by rewrite Hex|done]).
  eexists _, _, _, d, (A ++ x :: B). split; [exact Eins|]. split; [exact Eadd|]. split.
  - split; [split|split; [done|split; [|done]]]; [done| |].
    + cbn [zsl]. rewrite Hdom', Hdom. unfold owned. rewrite Hhd, !fmap_app. cbn [fmap list_fmap].
      rewrite !list_to_set_cons, !list_to_set_app_L, list_to_set_cons. set_solver.
    + cbn [zdict]. by rewrite Hm', Hm, locs_middle, Hex.
  - pose proof (ok_sorted _ _ _ Hinv') as Hs. rewrite fmap_app in Hs |- *. cbn [fmap list_fmap] in Hs |- *. rewrite Hx in Hs |- *.
    rewrite fmap_app. by rewrite place_sorted.
Qed.

(** What [zsetAdd] does to a sorted list. *)
Definition spec_existing (l : list item) (sc : double) (e : bytes) (in_flags : Z) (cur : double) : list item * zadd_result :=
  if flag in_flags ZADD_IN_NX then (l, {| ret := true; out_flags := ZADD_OUT_NOP; newscore := None |}) else
  let sc := if flag in_flags ZADD_IN_INCR then dadd sc cur else sc in
  if isnan sc then (l, {| ret := false; out_flags := ZADD_OUT_NAN; newscore := None |}) else
  if (flag in_flags ZADD_IN_LT && negb (dlt sc cur)) || (flag in_flags ZADD_IN_GT && negb (dlt cur sc)) then
    (l, {| ret := true; out_flags := ZADD_OUT_NOP; newscore := None |}) else
  if deq sc cur then (l, {| ret := true; out_flags := 0; newscore := Some sc |}) else
  (place (sc, e) (remove e l), {| ret := true; out_flags := ZADD_OUT_UPDATED; newscore := Some sc |}).

Definition spec_add (l : list item) (sc : double) (e : bytes) (in_flags : Z) : list item * zadd_result :=
  if isnan sc then (l, {| ret := false; out_flags := ZADD_OUT_NAN; newscore := None |}) else
  match score_in e l with
  | Some cur => spec_existing l sc e in_flags cur
  | None =>
    if flag in_flags ZADD_IN_XX then (l, {| ret := true; out_flags := ZADD_OUT_NOP; newscore := None |})
    else (place (sc, e) l, {| ret := true; out_flags := ZADD_OUT_ADDED; newscore := Some sc |})
  end.

Lemma dle_dlt a b : isnan a = false -> isnan b = false -> dle a b = negb (dlt b a).
Proof.
  intros Ha Hb. apply eq_true_iff_eq. rewrite negb_true_iff, <- not_true_iff_false, dle_key, dlt_key by done. done.
Qed.

Lemma zset_update_spec h zs A x B de cur sc draws : zset_ok h zs (A ++ x :: B) -> de_key de = e_ele x -> cur = e_score x ->
  isnan sc = false -> dict_map (zdict zs) !! e_ele x <> None -> Exists (fun r => threshold <= r) draws ->
  exists h' z y d es', zslUpdateScore junk_backward junk_level h (zsl zs) cur (e_ele x) sc draws = Ok (h', z, y) /\
    set_found ty (zdict zs) de y = Ok d /\ zset_ok h' {| zdict := d; zsl := z |} es' /\
    items es' = place (sc, e_ele x) (remove (e_ele x) (items (A ++ x :: B))).
Proof.
  intros (Hz & Hr & Hm & Hnd) Hk -> Hsc Hin Hd. pose proof (nodup_middle e_ele A x B Hnd) as [Hx Hnd0].
  pose proof (ok_numbers _ _ _ (proj1 Hz)) as Hnum. apply Forall_app in Hnum as [_ Hnum]. apply Forall_cons_1 in Hnum as [Hnum _].
  destruct (zslUpdateScore_spec junk_backward junk_level h (zsl zs) A x B (e_score x) (e_ele x) sc draws Hz) as (A' & B' & h' & z & y & EAB & Eupd & Hy & Hz' & Hhd); try done.
  { rewrite same_spec. done. }
  { rewrite Forall_forall. intros a Ha E. apply Hx. rewrite <- E. by apply list_elem_of_fmap_2. }
  destruct (set_found_map (zdict zs) de (e_loc y) Hr) as (d & Eset & Hr' & Hm' & _); [by rewrite Hk|].
  assert (e_ele y = e_ele x) as Hyx by (unfold it in Hy; congruence).
  assert (NoDup (e_ele <$> A' ++ y :: B')) as Hnd' by (apply nodup_insert; rewrite <- EAB; [by rewrite Hyx|done]).
  eexists _, _, _, d, (A' ++ y :: B'). split; [exact Eupd|]. split; [exact Eset|]. split.
  - split; [done|]. split; [done|]. split; [|done]. cbn [zdict]. rewrite Hm', Hm, Hk, !locs_middle, insert_insert_eq, EAB, Hyx by done. done.
  - rewrite remove_entry, EAB, (fmap_app it A' B') by done.
    pose proof (ok_sorted _ _ _ (proj1 Hz')) as Hs. rewrite fmap_app in Hs |- *. cbn [fmap list_fmap] in Hs |- *. rewrite Hy in Hs |- *.
    by rewrite place_sorted.
Qed.

Lemma zsetAdd_spec h zs es sc e in_flags draws : zset_ok h zs es -> zlen es < max_entries -> Exists (fun r => threshold <= r) draws ->
  exists h' zs' es' r, zsetAdd junk_backward junk_level ty can h zs sc e in_flags draws = Ok (h', zs', r) /\ zset_ok h' zs' es' /\
    spec_add (items es) sc e in_flags = (items es', r).
Proof.
  intros Hok Hroom Hd. unfold zsetAdd, spec_add. destruct (isnan sc) eqn:Hsc; [by exists h, zs, es; eexists|].
  destruct (zset_find h zs es e Hok) as (d & r & -> & Hok' & [(A & x & B & de & -> & <- & -> & Hk & _ & Hs & Hin)|[-> Hn]]); cbn [mbind res_bind].
  - pose proof Hok as (Hz & _ & _ & Hnd). pose proof (nodup_middle e_ele A x B Hnd) as [Hx _].
    rewrite score_in_entry by done.
    pose proof (ok_numbers _ _ _ (proj1 Hz)) as Hnum. apply Forall_app in Hnum as [_ Hnum]. apply Forall_cons_1 in Hnum as [Hnum _].
    unfold zsetAdd_existing, spec_existing. destruct (flag in_flags ZADD_IN_NX); [by eexists _, _, _, _|].
    rewrite Hs. cbn [mbind res_bind]. set (new := if flag in_flags ZADD_IN_INCR then dadd sc (e_score x) else sc).
    assert (flag in_flags ZADD_IN_INCR && isnan new = isnan new) as -> by (unfold new; by destruct (flag in_flags ZADD_IN_INCR)).
    destruct (isnan new) eqn:Hnew; [by eexists _, _, _, _|]. rewrite !dle_dlt by done.
    destruct (_ || _); [by eexists _, _, _, _|]. destruct (deq new (e_score x)) eqn:Heq; cbn [negb]; [by eexists _, _, _, _|].
    destruct (zset_update_spec h (set_dict zs d) A x B de (e_score x) new draws Hok' Hk eq_refl Hnew Hin Hd) as (h' & z & y & d' & es' & E1 & E2 & Hok2 & Hit).
    rewrite E1. cbn [mbind res_bind]. rewrite E2. cbn [mbind res_bind].
    eexists _, _, es', _. split; [done|]. split; [done|]. by rewrite Hit.
  - rewrite score_in_absent by by rewrite items_ele. destruct (flag in_flags ZADD_IN_XX); cbn [negb]; [by eexists _, _, _, _|].
    destruct (zset_insert_spec h (set_dict zs d) es sc e draws Hok' Hsc Hn Hroom Hd) as (h' & z & x & d' & es' & E1 & E2 & Hok2 & Hit).
    cbn [zsl set_dict] in E1. cbn [zdict set_dict] in E2. rewrite E1. cbn [mbind res_bind]. rewrite E2. cbn [mbind res_bind cassert fst snd].
    eexists _, _, es', _. split; [done|]. split; [done|]. by rewrite Hit.
Qed.

(** ** Removing one element *)

Lemma entry_self h zs A x B : zset_ok h zs (A ++ x :: B) -> same (it x) (e_score x, e_ele x) = true.
Proof.
  intros (Hz & _). pose proof (ok_numbers _ _ _ (proj1 Hz)) as Hnum. apply Forall_app in Hnum as [_ Hnum].
  apply Forall_cons_1 in Hnum as [Hnum _]. by rewrite same_spec.
Qed.

Lemma entry_unique h zs A x B A' x' B' : zset_ok h zs (A ++ x :: B) -> A ++ x :: B = A' ++ x' :: B' ->
  same (it x') (e_score x, e_ele x) = true -> A' = A /\ B' = B.
Proof.
  intros Hok Es Hs'. pose proof (entry_self _ _ _ _ _ Hok) as Hs. destruct Hok as (Hz & _).
  pose proof (ok_sorted _ _ _ (proj1 Hz)) as Hsort. destruct (split_at_same _ _ _ _ Hsort Hs) as [H3 H4].
  rewrite Es in Hsort. destruct (split_at_same _ _ _ _ Hsort Hs') as [H1 H2].
  destruct (split_unique _ _ _ _ _ Es H3 H4 H1 H2) as [-> E]. by injection E as _ ->.
Qed.

Definition is_in (e : bytes) (l : list item) : bool := match score_in e l with Some _ => true | None => false end.

(** The dict after an element is unlinked from it. *)
Lemma unlink_map (d : @dict bytes loc) A x B : dict_ok ty d -> dict_map d = locs (A ++ x :: B) -> NoDup (e_ele <$> A ++ x :: B) ->
  exists d' de, dictGenericDelete ty can d (e_ele x) = Ok (d', Some de) /\ dict_ok ty d' /\ same_flags d d' /\
    dict_map d' = locs (A ++ B) /\ de_val de = Some (e_loc x).
Proof.
  intros Hok Hm Hnd. destruct (delete_map d (e_ele x) Hok) as (d' & r & E & Hok' & Hf & Hm' & Hr & _).
  rewrite Hm, locs_middle, lookup_insert_eq in Hr by done. destruct r as [de|]; [|done]. injection Hr as Hr.
  exists d', de. split_and!; try done. by rewrite Hm', Hm, locs_delete.
Qed.

Lemma zsetDel_spec h zs es e : zset_ok h zs es ->
  exists h' zs' es', zsetDel ty can h zs e = Ok (h', zs', is_in e (items es)) /\ zset_ok h' zs' es' /\ items es' = remove e (items es).
Proof.
  intros Hok0. pose proof Hok0 as (Hz & Hr & Hm & Hnd). unfold zsetDel, zsetRemoveFromSkiplist, dictUnlink, is_in. pose proof Hr as (Hok & _).
  destruct (decide (e ∈ e_ele <$> es)) as [Hin|Hout].
  - apply list_elem_of_fmap in Hin as (x & -> & Hin). apply list_elem_of_split in Hin as (A & B & ->).
    destruct (unlink_map (zdict zs) A x B Hok Hm Hnd) as (d & de & -> & Hok' & Hf & Hm' & Hde). cbn [mbind res_bind].
    unfold score_at. rewrite Hde. cbn [deref mbind res_bind].
    destruct (repr_entry h _ _ A x B (ok_repr _ _ _ (proj1 Hz))) as (n & -> & [_ Hs]). cbn [mbind res_bind]. rewrite Hs.
    rewrite score_in_entry, remove_entry by done. pose proof (nodup_middle e_ele A x B Hnd) as [Hx Hnd'].
    destruct (zslDelete_spec h (zsl zs) (A ++ x :: B) (e_score x) (e_ele x) false Hz) as
      [(A1 & x1 & B1 & h' & z & Es & Hsame & -> & _ & Hhd & Hz')|[Hnone _]].
    2: { apply Forall_app in Hnone as [_ Hnone]. apply Forall_cons_1 in Hnone as [Hnone _]. rewrite (entry_self h zs A x B Hok0) in Hnone. done. }
    cbn [mbind res_bind cassert]. eexists _, _, (A1 ++ B1). split; [done|].
    destruct (entry_unique h zs A x B A1 x1 B1 Hok0 Es Hsame) as [-> ->].
    split; [|done]. split; [done|]. split; [by eapply ready_flags|]. done.
  - destruct (delete_map (zdict zs) e Hok) as (d & r & -> & Hok' & Hf & Hm' & Hr' & _). rewrite Hm, locs_absent in Hr' by done.
    destruct r as [de|]; [done|]. cbn [mbind res_bind]. rewrite score_in_absent by by rewrite items_ele.
    eexists _, _, es. split; [done|]. split; [|by rewrite remove_absent by by rewrite items_ele].
    split; [done|]. split; [by eapply ready_flags|]. split; [|done]. cbn [zdict set_dict].
    rewrite Hm', Hm. apply delete_id. by apply locs_absent.
Qed.

(** ** Ranks *)

(** What [zsetRank] answers. *)
Definition spec_rank (l : list item) (e : bytes) (reverse : bool) : Z * option double :=
  match rank_in e l with
  | Some r => (if reverse then zlen l - 1 - r else r, score_in e l)
  | None => (-1, None)
  end.

Lemma zsetRank_spec h zs es e reverse : zset_ok h zs es ->
  exists zs', zsetRank ty can h zs e reverse = Ok (zs', fst (spec_rank (items es) e reverse), snd (spec_rank (items es) e reverse)) /\ zset_ok h zs' es.
Proof.
  intros Hok. pose proof Hok as (Hz & _ & _ & Hnd). unfold zsetRank, spec_rank, zsetLength. rewrite (ok_length _ _ _ (proj1 Hz)).
  destruct (zset_find h zs es e Hok) as (d & r & -> & Hok' & [(A & x & B & de & -> & <- & -> & _ & _ & Hs & _)|[-> Hn]]); cbn [mbind res_bind].
  2: { rewrite rank_in_absent by by rewrite items_ele. by eexists. }
  rewrite Hs, score_in_entry by done. cbn [mbind res_bind]. pose proof (repr_short _ _ _ _ (ok_repr _ _ _ (proj1 Hz))) as Hshort.
  rewrite rank_in_entry by done.
  destruct (zslGetRank_spec h (zsl zs) _ (proj1 Hz) (e_score x) (e_ele x)) as [(A1 & x1 & B1 & Es & Hsame & ->)|[Hnone _]].
  2: { apply Forall_app in Hnone as [_ Hnone]. apply Forall_cons_1 in Hnone as [Hnone _]. rewrite (entry_self h zs A x B Hok) in Hnone. done. }
  destruct (entry_unique h zs A x B A1 x1 B1 Hok Es Hsame) as [-> ->]. clear Es.
  pose proof (zlen_nonneg A). pose proof (zlen_nonneg B). rewrite zlen_app, zlen_cons in Hshort.
  cbn [mbind res_bind]. rewrite (proj2 (Z.eqb_neq (zlen A + 1) 0)) by lia. cbn [negb cassert mbind res_bind fst snd]. eexists. split; [|done]. repeat f_equal.
  rewrite zlen_fmap, zlen_app, zlen_cons. destruct reverse; rewrite wrapu_small by lia; rewrite wraps_small by lia; lia.
Qed.

End theory.

End ZsetTheory.
