(* ===== verification/ZsetRange.v ===== *)
(** * Sorted sets: ranges

    The operations that remove a range delete exactly the entries in it, from
    the skip list and from the dict; the operations that read a range emit its
    items in order, from either end; the counts are the numbers of items. *)

From Stdlib Require Import SpecFloat Sorting.Sorted.
From S2P Require Import Prelude Dict DictTheory DictSpec Zskiplist ZskiplistOrder ZskiplistTheory ZskiplistLink ZskiplistOps ZskiplistQuery Zset ZsetTheory.
From stdpp Require Import list gmap fin_maps.
#[local] Open Scope Z_scope.

Module ZsetRange.
Import Dict DictTheory DictSpec Zskiplist ZskiplistOrder ZskiplistTheory ZskiplistLink ZskiplistOps ZskiplistQuery Zset ZsetTheory.

Section range.
Context (ty : @dictType bytes) {Hty : DictTypeOk ty} (can : dictResizeEnable).
#[local] Abbreviation items es := (it <$> (es : list entry)).

(** ** Deleting a range *)

(** [cond] holds on [M] and not on what follows it. *)
Definition del_cond (M R : list entry) (t0 : Z) (cond : Z -> zskiplistNode -> res bool) : Prop :=
  forall n e pre post, M ++ R = pre ++ e :: post -> holds n e -> cond (t0 + zlen pre) n = Ok (bool_decide (length pre < length M)%nat).

Lemma del_cond_tail e M R t0 cond : del_cond (e :: M) R t0 cond -> del_cond M R (t0 + 1) cond.
Proof.
  intros H n e' pre post E Hn. specialize (H n e' (e :: pre) post). rewrite zlen_cons, Z.add_assoc in H. rewrite H; [|cbn; by rewrite E|done].
  f_equal. cbn. apply bool_decide_ext. lia.
Qed.

(** One turn of the loop. *)
Lemma delete_step h z d u A e R : zsl_ok h z (A ++ e :: R) -> path (header z) (level z) A u -> dict_ok ty d ->
  dict_map d = locs (A ++ e :: R) -> NoDup (e_ele <$> A ++ e :: R) ->
  exists n v h1 z1 h2 d', node h (e_loc e) = Ok n /\ holds n e /\ nth_ (levels n) 0 = Ok v /\ forward v = e_loc <$> head R /\
    zslDeleteNode h z (e_loc e) u = Ok (h1, z1) /\ dictDelete ty can d (e_ele e) = Ok (d', true) /\ zslFreeNode h1 (e_loc e) = Ok h2 /\
    zsl_ok h2 z1 (A ++ R) /\ path (header z1) (level z1) A u /\ dict_ok ty d' /\ same_flags d d' /\ dict_map d' = locs (A ++ R).
Proof.
  intros [Hinv Hdom] Hu Hok Hm Hnd. pose proof (ok_repr _ _ _ Hinv) as Hr.
  destruct (repr_entry h _ _ A e R Hr) as (n & En & Hn).
  pose proof Hr as Hr'. rewrite (app_assoc A [e] R : A ++ e :: R = (A ++ [e]) ++ R) in Hr'.
  destruct (zsl_next_spec h _ _ (A ++ [e]) R Hr') as (v & Hv & Hf). rewrite node_at_snoc in Hv. unfold level_at in Hv. rewrite En in Hv.
  destruct (zslDeleteNode_spec h z A e R u Hinv Hu) as (h1 & z1 & m & E1 & Hinv1 & Hhd & Hdom1 & _ & Hm1 & Hlv).
  destruct (free_ok h h1 z z1 A e R m Hinv ltac:(by rewrite Hdom1) Hhd Hm1 Hinv1) as [E2 Hok1].
  destruct (unlink_map ty can d A e R Hok Hm Hnd) as (d' & de & Ed & Hok' & Hfl & Hm' & _).
  exists n, v, h1, z1, (delete (e_loc e) h1), d'. split_and!; try done; [by unfold dictDelete; rewrite Ed|].
  intros l Hl. rewrite Hhd. apply Hu. lia.
Qed.

Lemma delete_while_spec cond M : forall A R h z d u fuel t0 removed,
  zsl_ok h z (A ++ M ++ R) -> path (header z) (level z) A u -> dict_ok ty d -> dict_map d = locs (A ++ M ++ R) ->
  NoDup (e_ele <$> A ++ M ++ R) -> del_cond M R t0 cond -> (length M <= fuel)%nat ->
  0 <= t0 -> t0 + zlen M < 2 ^ 64 -> 0 <= removed -> removed + zlen M < 2 ^ 64 ->
  exists h' z' d', delete_while ty can fuel h z d u cond (e_loc <$> head (M ++ R)) t0 removed = Ok (h', z', d', removed + zlen M) /\
    zsl_ok h' z' (A ++ R) /\ dict_ok ty d' /\ same_flags d d' /\ dict_map d' = locs (A ++ R).
Proof.
  induction M as [|e M IH]; intros A R h z d u fuel t0 removed Hz Hu Hok Hm Hnd Hc Hfuel Ht Ht' Hrem Hrem'.
  - exists h, z, d. split; [|done]. cbn [app] in *. rewrite zlen_nil, Z.add_0_r. destruct R as [|e R]; [by destruct fuel|].
    cbn [head fmap option_fmap option_map]. destruct (repr_entry h _ _ A e R (ok_repr _ _ _ (proj1 Hz))) as (n & En & Hn).
    specialize (Hc n e [] R eq_refl Hn). rewrite zlen_nil, Z.add_0_r in Hc.
    destruct fuel; cbn [delete_while]; rewrite En; cbn [mbind res_bind]; by rewrite Hc.
  - cbn [app head fmap option_fmap option_map] in *. destruct fuel as [|fuel]; [cbn in Hfuel; lia|].
    destruct (delete_step h z d u A e (M ++ R) Hz Hu Hok Hm Hnd) as (n & v & h1 & z1 & h2 & d1 & En & Hn & Ev & Hf & E1 & Ed & E2 & Hz1 & Hu1 & Hok1 & Hfl1 & Hm1).
    pose proof (Hc n e [] (M ++ R) eq_refl Hn) as Hb. rewrite zlen_nil, Z.add_0_r in Hb.
    cbn [delete_while]. rewrite En. cbn [mbind res_bind]. rewrite Hb. cbn [mbind res_bind]. rewrite bool_decide_true by (cbn; lia).
    rewrite Ev. cbn [mbind res_bind]. rewrite E1. cbn [mbind res_bind]. unfold ele_of. rewrite (proj1 Hn). cbn [mbind res_bind].
    rewrite Ed. cbn [mbind res_bind fst]. rewrite E2. cbn [mbind res_bind]. rewrite Hf.
    rewrite zlen_cons in *. pose proof (zlen_nonneg M). rewrite !wrapu_small by lia. apply nodup_middle in Hnd as [_ Hnd].
    destruct (IH A R h2 z1 d1 u fuel (t0 + 1) (removed + 1) Hz1 Hu1 Hok1 Hm1 Hnd (del_cond_tail _ _ _ _ _ Hc)) as (h' & z' & d' & -> & H1 & H2 & [H3 H3'] & H4);
      [cbn in Hfuel; lia..|].
    exists h', z', d'. split; [do 2 f_equal; lia|]. split; [done|]. split; [done|]. split; [|done]. destruct Hfl1. split; congruence.
Qed.

(** The search and the loop. *)
Lemma zsl_delete_range_spec h z d stop cond A M R : zsl_ok h z (A ++ M ++ R) -> dict_ok ty d -> dict_map d = locs (A ++ M ++ R) ->
  NoDup (e_ele <$> A ++ M ++ R) -> cond_ok (A ++ M ++ R) 0 (length A) stop -> del_cond M R (zlen A + 1) cond ->
  exists h' z' d', delete_range ty can h z d stop cond = Ok (h', z', d', zlen M) /\
    zsl_ok h' z' (A ++ R) /\ dict_ok ty d' /\ same_flags d d' /\ dict_map d' = locs (A ++ R).
Proof.
  intros Hz Hok Hm Hnd Hstop Hc. unfold delete_range. pose proof (ok_repr _ _ _ (proj1 Hz)) as Hr.
  destruct (zsl_search_spec h z A (M ++ R) stop Hr Hstop) as (u & -> & Hu & Hst & Hu0). cbn [mbind res_bind]. rewrite Hst.
  destruct (zsl_next_spec h _ _ A (M ++ R) Hr) as (v & -> & Hf). cbn [mbind res_bind]. rewrite Hf.
  destruct u as [|[y r] u]; [done|]. injection Hu0 as -> ->.
  pose proof (repr_short _ _ _ _ Hr) as Hs. rewrite !zlen_app in Hs. pose proof (zlen_nonneg A). pose proof (zlen_nonneg M). pose proof (zlen_nonneg R).
  rewrite wrapu_small by lia. apply (delete_while_spec cond M A R); try (done || lia); [by apply updates_path|].
  pose proof (repr_size _ _ _ _ Hr) as Hsz. rewrite !length_app in Hsz. lia.
Qed.

(** *** By score and by element *)

(** The skip list and the dict hold the same entries. *)
Definition held (h : heap) (z : zskiplist) (d : @dict bytes loc) (es : list entry) : Prop :=
  zsl_ok h z es /\ dict_ok ty d /\ dict_map d = locs es /\ NoDup (e_ele <$> es).

Lemma nodup_outer (A M R : list entry) : NoDup (e_ele <$> A ++ M ++ R) -> NoDup (e_ele <$> A ++ R).
Proof.
  rewrite !fmap_app, !list.NoDup_app. intros (H1 & H2 & H3 & H4 & H5). split_and!; try done. intros x Hx. specialize (H2 x Hx). set_solver.
Qed.

(** The entries below a range, in it, and the rest. *)
Lemma range_split (pg pl : item -> bool) es : sorted (items es) -> downward (fun a => negb (pg a)) -> downward pl ->
  exists X Y R, es = X ++ Y ++ R /\ List.filter (in_range pg pl) es = Y /\ List.filter (fun e => negb (in_range pg pl e)) es = X ++ R /\
    Forall (fun e => negb (pg (it e)) = true) X /\ Forall (fun e => negb (pg (it e)) = false) (Y ++ R) /\
    Forall (fun e => pl (it e) = true) Y /\ Forall (fun e => pl (it e) = false) R.
Proof.
  intros Hs Hdg Hdl. destruct (split_entries _ es Hs Hdg) as (X & B & -> & HX & HB).
  destruct (split_entries pl B) as (Y & R & -> & HY & HR); [|done|].
  { rewrite fmap_app in Hs. by apply sorted_app in Hs as (_ & ? & _). }
  exists X, Y, R. split; [done|].
  assert (Forall (fun e => in_range pg pl e = false) X) as HX'.
  { eapply Forall_impl; [exact HX|]. intros e. cbn. unfold in_range. rewrite negb_true_iff. by intros ->. }
  assert (Forall (fun e => in_range pg pl e = false) R) as HR'.
  { eapply Forall_impl; [exact HR|]. intros e. cbn. unfold in_range. intros ->. by rewrite andb_false_r. }
  assert (Forall (fun e => in_range pg pl e = true) Y) as HY'.
  { apply Forall_app in HB as [HB _]. rewrite Forall_forall in HB, HY |- *. intros e He. specialize (HB e He). specialize (HY e He). cbn in *.
    rewrite negb_false_iff in HB. unfold in_range. by rewrite HB, HY. }
  rewrite !List.filter_app. rewrite (filter_nothing _ X), (filter_all _ Y), (filter_nothing _ R), (filter_all _ X), (filter_nothing _ Y), (filter_all _ R)
    by (done || (eapply Forall_impl; [eassumption|]; cbn; intros a ->; done)).
  by rewrite app_nil_r.
Qed.

Lemma range_del_cond M R t0 lte pl : reads_on (M ++ R) lte pl -> Forall (fun e => pl (it e) = true) M ->
  Forall (fun e => pl (it e) = false) R -> del_cond M R t0 (fun _ n => lte n).
Proof.
  intros Hl HM HR n e pre post E Hn. apply (reads_cond_ok lte pl M R 0 Hl HM HR (zlen pre) 1 n pre e post); try done; [|lia].
  apply zlen_nonneg.
Qed.

Lemma delete_between h z d es gte lte pg pl : held h z d es -> reads_on es gte pg -> reads_on es lte pl ->
  downward (fun a => negb (pg a)) -> downward pl ->
  exists h' z' d', delete_range ty can h z d (fun _ _ n => b ← gte n; Ok (negb b)) (fun _ n => lte n) =
      Ok (h', z', d', zlen (List.filter (in_range pg pl) es)) /\
    held h' z' d' (List.filter (fun e => negb (in_range pg pl e)) es) /\ same_flags d d'.
Proof.
  intros (Hz & Hok & Hm & Hnd) Hg Hl Hdg Hdl.
  destruct (range_split pg pl es (ok_sorted _ _ _ (proj1 Hz)) Hdg Hdl) as (X & Y & R & -> & -> & -> & HX & HYR & HY & HR).
  destruct (zsl_delete_range_spec h z d (fun _ _ n => b ← gte n; Ok (negb b)) (fun _ n => lte n) X Y R Hz Hok Hm Hnd) as (h' & z' & d' & E & Hz' & Hok' & Hf & Hm').
  - apply (reads_cond_ok (fun n => b ← gte n; Ok (negb b)) (fun a => negb (pg a))); [|done|done].
    intros n e Hin Hn. by rewrite (Hg n e Hin Hn).
  - apply (range_del_cond Y R _ lte pl); [|done..]. intros n e Hin. apply Hl. set_solver.
  - exists h', z', d'. split; [done|]. split; [|done]. split_and!; try done. by eapply nodup_outer.
Qed.

Lemma zslDeleteRangeByScore_spec h z d es r : held h z d es -> isnan (min r) = false -> isnan (max r) = false ->
  exists h' z' d', zslDeleteRangeByScore ty can h z r d = Ok (h', z', d', zlen (List.filter (by_score r) es)) /\
    held h' z' d' (List.filter (fun e => negb (by_score r e)) es) /\ same_flags d d'.
Proof.
  intros Hh Hmin Hmax. destruct (score_reads r) as [Hg Hl].
  exact (delete_between h z d es _ _ _ _ Hh (reads_reads_on es _ _ Hg) (reads_reads_on es _ _ Hl) (downward_below r Hmin) (downward_upto r Hmax)).
Qed.

(** The two ends of a range by element, among elements of one score. *)
Lemma lex_ends r s es : one_score s es -> exists pg pl, reads_on es (lex_gte r) pg /\ reads_on es (lex_lte r) pl /\
  downward (fun a => negb (pg a)) /\ downward pl /\ forall e, e ∈ es -> in_range pg pl e = by_lex r e.
Proof.
  intros Hs. destruct (lex_reads es r s Hs) as [Hg Hl]. eexists _, _. split; [exact Hg|]. split; [exact Hl|]. split_and!.
  - intros a b. rewrite !negb_involutive. apply downward_among, lex_below.
  - apply downward_among, lex_upto.
  - intros e Hin. unfold one_score in Hs. rewrite Forall_forall in Hs. specialize (Hs e Hin). unfold in_range, by_lex.
    rewrite !among_here by done. by rewrite negb_involutive.
Qed.

Lemma zslDeleteRangeByLex_spec h z d es r s : held h z d es -> one_score s es ->
  exists h' z' d', zslDeleteRangeByLex ty can h z r d = Ok (h', z', d', zlen (List.filter (by_lex r) es)) /\
    held h' z' d' (List.filter (fun e => negb (by_lex r e)) es) /\ same_flags d d'.
Proof.
  intros Hh Hs. destruct (lex_ends r s es Hs) as (pg & pl & Hg & Hl & Hdg & Hdl & Hp).
  destruct (delete_between h z d es _ _ _ _ Hh Hg Hl Hdg Hdl) as (h' & z' & d' & E & H). exists h', z', d'.
  rewrite <- (filter_ext_in (in_range pg pl) (by_lex r)) by (intros e He; apply Hp; by apply list_elem_of_In).
  rewrite <- (filter_ext_in (fun e => negb (in_range pg pl e)) (fun e => negb (by_lex r e))) by (intros e He; f_equal; apply Hp; by apply list_elem_of_In).
  done.
Qed.

(** *** By rank, from 1 *)
Lemma zslDeleteRangeByRank_spec h z d es start stop : held h z d es -> 1 <= start -> start <= stop < 2 ^ 62 ->
  let X := take (Z.to_nat (start - 1)) es in let B := drop (Z.to_nat (start - 1)) es in
  exists h' z' d', zslDeleteRangeByRank ty can h z start stop d = Ok (h', z', d', zlen (take (Z.to_nat (stop - start + 1)) B)) /\
    held h' z' d' (X ++ drop (Z.to_nat (stop - start + 1)) B) /\ same_flags d d'.
Proof.
  intros (Hz & Hok & Hm & Hnd) Hst Hsp X B. set (k := Z.to_nat (stop - start + 1)).
  assert (es = X ++ take k B ++ drop k B) as Es by (unfold X, B; by rewrite !take_drop).
  pose proof (repr_short _ _ _ _ (ok_repr _ _ _ (proj1 Hz))) as Hs. rewrite Es in Hz, Hm, Hnd. unfold zlen in Hs.
  assert (length X = Nat.min (Z.to_nat (start - 1)) (length es)) as HX by (unfold X; by rewrite length_take).
  assert (length B = length es - Z.to_nat (start - 1))%nat as HB by (unfold B; by rewrite length_drop).
  assert (length (take k B) = Nat.min k (length B)) as HM by by rewrite length_take.
  destruct (zsl_delete_range_spec h z d (fun traversed span _ => Ok (u64 (traversed + span) <? start)) (fun traversed _ => Ok (traversed <=? stop)) X (take k B) (drop k B) Hz Hok Hm Hnd)
    as (h' & z' & d' & E & Hz' & Hok' & Hf & Hm').
  - intros r s n pre e post E Hn Hr0 Hs0 Hrs. apply (f_equal length) in E as Hl. rewrite <- Es, length_app in Hl. cbn in Hl.
    unfold zlen in Hrs. rewrite wrapu_small by lia. f_equal. apply eq_true_iff_eq.
    rewrite Z.ltb_lt, bool_decide_eq_true. lia.
  - intros n e pre post E Hn. apply (f_equal length) in E as Hl. rewrite take_drop, length_app in Hl. cbn in Hl.
    f_equal. apply eq_true_iff_eq. rewrite Z.leb_le, bool_decide_eq_true. unfold zlen. lia.
  - exists h', z', d'. split; [done|]. split; [|done]. split_and!; try done. by eapply nodup_outer.
Qed.

(** *** The command *)

Definition score_range (r : zrangespec) (a : item) : bool := zslValueGteMin a.1 r && zslValueLteMax a.1 r.
Definition lex_range (r : zlexrangespec) (a : item) : bool := zslLexValueGteMin a.2 r && zslLexValueLteMax a.2 r.

(** The items between two positions, and the others. *)
Definition slice (start stop : Z) (l : list item) : list item := take (Z.to_nat (stop - start + 1)) (drop (Z.to_nat start) l).
Definition cut (start stop : Z) (l : list item) : list item := take (Z.to_nat start) l ++ drop (Z.to_nat (stop + 1)) l.

(** What [zremrangeGenericCommand] keeps, how many items it deletes, and
    whether it removes the key. *)
Definition spec_remrange (range : zremrange) (l : list item) : list item * Z * bool :=
  match range with
  | ZRANGE_RANK start stop =>
    match sanitize start stop (zlen l) with
    | None => (l, 0, false)
    | Some (start, stop) => let l' := cut start stop l in (l', stop - start + 1, zlen l' =? 0)
    end
  | ZRANGE_SCORE r => let l' := List.filter (fun a => negb (score_range r a)) l in (l', zlen (List.filter (score_range r) l), zlen l' =? 0)
  | ZRANGE_LEX r => let l' := List.filter (fun a => negb (lex_range r a)) l in (l', zlen (List.filter (lex_range r) l), zlen l' =? 0)
  end.

(** Ranks fit an [unsigned int]; the ends of a range of scores are numbers;
    ranges by element are for elements of one score. *)
Definition remrange_ok (range : zremrange) (l : list item) : Prop :=
  match range with
  | ZRANGE_RANK _ _ => zlen l < 2 ^ 32
  | ZRANGE_SCORE r => isnan (min r) = false /\ isnan (max r) = false
  | ZRANGE_LEX _ => exists s, Forall (fun a => deq a.1 s = true) l
  end.

Lemma filter_items (p : item -> bool) (es : list entry) : items (List.filter (fun e => p (it e)) es) = List.filter p (items es).
Proof. induction es as [|e es IH]; [done|]. cbn. destruct (p (it e)); cbn; by rewrite IH. Qed.

Lemma sanitize_some start stop llen s e : 0 <= llen -> sanitize start stop llen = Some (s, e) -> 0 <= s <= e /\ e < llen.
Proof.
  intros Hl. unfold sanitize. set (s0 := if start <? 0 then llen + start else start). set (e0 := if stop <? 0 then llen + stop else stop).
  destruct (Z.ltb_spec s0 0); cbn; destruct (Z.ltb_spec e0 0) as [|]; try done; intros H'.
  all: repeat match type of H' with context [?a <? ?b] => destruct (Z.ltb_spec a b) | context [?a <=? ?b] => destruct (Z.leb_spec a b) end;
    cbn in H'; try done; injection H' as <- <-; lia.
Qed.

(** What the three branches share after the sanitizing. *)
Lemma zremrange_go h zs es (delete : heap -> zskiplist -> @dict bytes loc -> res (heap * zskiplist * @dict bytes loc * Z)) (es' : list entry) n :
  zset_ok ty h zs es ->
  (forall d, held h (zsl zs) d es -> exists h' z' d', delete h (zsl zs) d = Ok (h', z', d', n) /\ held h' z' d' es' /\ same_flags d d') ->
  exists h' zs', ('(h, z, d, deleted) ← delete h (zsl zs) (dictPauseAutoResize (zdict zs));
    let d := dictResumeAutoResize d in
    if dictSize d =? 0 then Ok (h, {| zdict := d; zsl := z |}, deleted, true) else
    r ← dictShrinkIfNeeded ty can d;
    Ok (h, {| zdict := fst r; zsl := z |}, deleted, false)) = Ok (h', zs', n, zlen es' =? 0) /\ zset_ok ty h' zs' es'.
Proof.
  intros (Hz & (Hok & Hpr & Hpa) & Hm & Hnd) Hdel.
  destruct (Hdel (dictPauseAutoResize (zdict zs))) as (h' & z' & d' & -> & (Hz' & Hok' & Hm' & Hnd') & [Hf1 Hf2]); [done|].
  cbn [mbind res_bind pauserehash pauseAutoResize dictPauseAutoResize] in *.
  assert (ready ty (dictResumeAutoResize d')) as Hr'.
  { split; [done|]. cbn [pauserehash pauseAutoResize dictResumeAutoResize]. rewrite Hf1, Hf2, Hpr, Hpa. done. }
  assert (dict_map (dictResumeAutoResize d') = locs es') as Hmr by done.
  rewrite (map_size ty _ (proj1 Hr')), Hmr, locs_size by done. change (Z.of_nat (length es')) with (zlen es').
  destruct (zlen es' =? 0); [by eexists _, _|].
  destruct (shrinkIfNeeded_resizes ty can _ (proj1 Hr')) as (d2 & r & -> & [Hk _]). cbn [mbind res_bind fst]. pose proof Hk as (Hp & Hf & _).
  eexists _, _. split; [done|]. split; [done|]. split; [apply (ready_flags ty (dictResumeAutoResize d')); [done|by apply (keeps_ok ty _ _ (proj1 Hr') Hk)|done]|]. split; [|done]. cbn [zdict].
  by rewrite (map_perm ty _ _ (proj1 Hr') Hp).
Qed.

Lemma zremrange_spec h zs es range : zset_ok ty h zs es -> remrange_ok range (items es) ->
  exists h' zs' es' n b, zremrangeGenericCommand ty can h zs range = Ok (h', zs', n, b) /\ zset_ok ty h' zs' es' /\
    spec_remrange range (items es) = (items es', n, b).
Proof.
  intros Hok Hr. pose proof Hok as (Hz & _). destruct range as [start stop|r|r]; cbn [zremrangeGenericCommand spec_remrange remrange_ok] in *.
  - unfold zsetLength. rewrite (ok_length _ _ _ (proj1 Hz)). rewrite zlen_fmap in *.
    destruct (sanitize start stop (zlen es)) as [[s e]|] eqn:Es; [|by eexists h, zs, es, _, _].
    pose proof (sanitize_some _ _ _ _ _ (zlen_nonneg es) Es) as [Hs He].
    destruct (zremrange_go h zs es (fun h z d => zslDeleteRangeByRank ty can h z (u32 (s + 1)) (u32 (e + 1)) d)
      (take (Z.to_nat s) es ++ drop (Z.to_nat (e + 1)) es) (e - s + 1) Hok) as (h' & zs' & E & Hok').
    { intros d Hd. rewrite !wrapu_small by lia.
      destruct (zslDeleteRangeByRank_spec h (zsl zs) d es (s + 1) (e + 1) Hd) as (h' & z' & d' & E & Hh & Hf); [lia..|].
      replace (s + 1 - 1) with s in E, Hh by lia. replace (e + 1 - (s + 1) + 1) with (e - s + 1) in E, Hh by lia.
      exists h', z', d'. rewrite drop_drop in Hh. replace (Z.to_nat s + Z.to_nat (e - s + 1))%nat with (Z.to_nat (e + 1)) in Hh by lia.
      split; [|done]. rewrite E. do 2 f_equal. unfold zlen in *. rewrite length_take, length_drop. lia. }
    eexists h', zs', _, _, _. split; [exact E|]. split; [exact Hok'|]. unfold cut.
    by rewrite <- fmap_take, <- fmap_drop, <- fmap_app, zlen_fmap.
  - destruct Hr as [Hmin Hmax].
    destruct (zremrange_go h zs es (fun h z d => zslDeleteRangeByScore ty can h z r d) (List.filter (fun e => negb (by_score r e)) es)
      (zlen (List.filter (by_score r) es)) Hok) as (h' & zs' & E & Hok').
    { intros d Hd. by apply zslDeleteRangeByScore_spec. }
    eexists h', zs', _, _, _. split; [exact E|]. split; [exact Hok'|]. change (by_score r) with (fun e => score_range r (it e)).
    rewrite <- (filter_items (fun a => negb (score_range r a))), <- filter_items, !zlen_fmap. done.
  - destruct Hr as [s Hs]. rewrite Forall_fmap in Hs.
    destruct (zremrange_go h zs es (fun h z d => zslDeleteRangeByLex ty can h z r d) (List.filter (fun e => negb (by_lex r e)) es)
      (zlen (List.filter (by_lex r) es)) Hok) as (h' & zs' & E & Hok').
    { intros d Hd. by apply zslDeleteRangeByLex_spec with (s := s). }
    eexists h', zs', _, _, _. split; [exact E|]. split; [exact Hok'|]. change (by_lex r) with (fun e => lex_range r (it e)).
    rewrite <- (filter_items (fun a => negb (lex_range r a))), <- filter_items, !zlen_fmap. done.
Qed.

(** ** Reading a range *)

(** [W] is what is left of the list on the way forward or backward. *)
Definition ahead (reverse : bool) (es W : list entry) : Prop :=
  if reverse then exists P R, es = P ++ R /\ W = List.rev P else exists P, es = P ++ W.

Lemma ahead_tail reverse es e W : ahead reverse es (e :: W) -> ahead reverse es W.
Proof.
  destruct reverse; cbn.
  - intros (P & R & -> & E). destruct P as [|e' P _] using rev_ind; [done|]. rewrite rev_app_distr in E. cbn in E. injection E as <- ->.
    exists P, (e :: R). by rewrite <- app_assoc.
  - intros (P & ->). exists (P ++ [e]). by rewrite <- app_assoc.
Qed.

Lemma head_rev {A} (l : list A) : head (List.rev l) = last l.
Proof. destruct l as [|a l _] using rev_ind; [done|]. by rewrite rev_app_distr, last_snoc. Qed.

(** Visiting a node: what it emits and where it leads. *)
Lemma visit h z es reverse e W : zsl_inv h z es -> ahead reverse es (e :: W) ->
  exists n, node h (e_loc e) = Ok n /\ holds n e /\ emit n = Ok (it e) /\ next_node reverse n = Ok (e_loc <$> head W).
Proof.
  intros Hinv Ha. pose proof (ok_repr _ _ _ Hinv) as Hr.
  assert (exists P R, es = P ++ e :: R /\ head W = if reverse then last P else head R) as (P & R & -> & HW).
  { destruct reverse; cbn in Ha.
    - destruct Ha as (P & R & -> & E). destruct P as [|e' P _] using rev_ind; [done|]. rewrite rev_app_distr in E. cbn in E. injection E as <- ->.
      exists P, R. by rewrite <- app_assoc, head_rev.
    - destruct Ha as (P & ->). by exists P, W. }
  destruct (repr_entry h _ _ P e R Hr) as (n & En & Hn). exists n. split; [done|]. split; [done|].
  destruct Hn as [He Hs]. unfold emit, ele_of. rewrite He, Hs. split; [done|]. rewrite HW. destruct reverse; cbn [next_node].
  - destruct (repr_back _ _ _ _ Hr P e R eq_refl) as (n' & En' & Hb). unfold node in En. rewrite En' in En. injection En as <-. by rewrite Hb.
  - rewrite (app_assoc P [e] R : P ++ e :: R = (P ++ [e]) ++ R) in Hr. destruct (zsl_next_spec h _ _ (P ++ [e]) R Hr) as (v & Hv & Hf).
    rewrite node_at_snoc in Hv. unfold level_at in Hv. rewrite En in Hv. cbn [mbind res_bind] in Hv. rewrite Hv. cbn [mbind res_bind]. by rewrite Hf.
Qed.

Lemma emit_count_spec h z es reverse n : forall W, zsl_inv h z es -> ahead reverse es W -> (n <= length W)%nat ->
  emit_count h n reverse (e_loc <$> head W) = Ok (items (take n W)).
Proof.
  induction n as [|n IH]; intros W Hinv Ha Hn; [done|]. destruct W as [|e W]; [cbn in Hn; lia|].
  destruct (visit h z es reverse e W Hinv Ha) as (nd & En & _ & Hemit & Hnext). cbn [emit_count head fmap option_fmap option_map cassert mbind res_bind deref].
  rewrite En. cbn [mbind res_bind]. rewrite Hemit. cbn [mbind res_bind]. rewrite Hnext. cbn [mbind res_bind].
  rewrite (IH W Hinv (ahead_tail _ _ _ _ Ha)) by (cbn in Hn; lia). done.
Qed.

Fixpoint take_while {A} (p : A -> bool) (l : list A) : list A :=
  match l with [] => [] | a :: l => if p a then a :: take_while p l else [] end.

(** A negative limit is no limit. *)
Definition limited {A} (limit : Z) (l : list A) : list A := if limit <? 0 then l else take (Z.to_nat limit) l.

Lemma limited_cons {A} limit (a : A) l : limit <> 0 -> limited limit (a :: l) = a :: limited (limit - 1) l.
Proof.
  intros Hl. unfold limited. destruct (Z.ltb_spec limit 0); destruct (Z.ltb_spec (limit - 1) 0); try lia; [done|].
  by replace (Z.to_nat limit) with (S (Z.to_nat (limit - 1))) by lia.
Qed.

Lemma limited_zero {A} (l : list A) : limited 0 l = [].
Proof. done. Qed.

Lemma limited_nil {A} limit : limited limit (@nil A) = [].
Proof. unfold limited. destruct (limit <? 0); [done|]. by rewrite take_nil. Qed.

Lemma emit_while_spec h z es test p reverse fuel : forall W limit, zsl_inv h z es -> reads_on es test p -> ahead reverse es W ->
  (length W <= fuel)%nat ->
  emit_while fuel h test reverse limit (e_loc <$> head W) = Ok (limited limit (take_while p (items W))).
Proof.
  induction fuel as [|fuel IH]; intros W limit Hinv Ht Ha Hf.
  { destruct W; [|cbn in Hf; lia]. cbn. by rewrite limited_nil. }
  destruct W as [|e W]; [cbn; by rewrite limited_nil|]. cbn [emit_while head fmap option_fmap option_map].
  destruct (Z.eqb_spec limit 0) as [->|Hl]; [done|].
  destruct (visit h z es reverse e W Hinv Ha) as (nd & En & Hn & Hemit & Hnext). rewrite En. cbn [mbind res_bind].
  assert (e ∈ es) as Hin. { destruct reverse; cbn in Ha; [destruct Ha as (P & R & -> & E)|destruct Ha as (P & ->); set_solver].
    apply elem_of_app. left. apply list_elem_of_In, in_rev. rewrite <- E. by left. }
  rewrite (Ht nd e Hin Hn). cbn [mbind res_bind list_fmap take_while]. destruct (p (it e)) eqn:Hp; cbn [negb]; [|by rewrite limited_nil].
  rewrite Hemit. cbn [mbind res_bind]. rewrite Hnext. cbn [mbind res_bind].
  rewrite (IH W (limit - 1) Hinv Ht (ahead_tail _ _ _ _ Ha)) by (cbn in Hf; lia). cbn [mbind res_bind]. by rewrite limited_cons.
Qed.

(** *** By rank *)

Definition facing {A} (reverse : bool) (l : list A) : list A := if reverse then List.rev l else l.

Lemma facing_fmap {A B} (f : A -> B) reverse (l : list A) : f <$> facing reverse l = facing reverse (f <$> l).
Proof. destruct reverse; cbn; [|done]. apply map_rev. Qed.

Lemma facing_length {A} reverse (l : list A) : length (facing reverse l) = length l.
Proof. destruct reverse; cbn; [apply length_rev|done]. Qed.

(** What is left after [n] nodes from one end. *)
Lemma ahead_drop reverse es n : ahead reverse es (drop n (facing reverse es)).
Proof.
  destruct reverse; cbn.
  - exists (take (length es - n) es), (drop (length es - n) es). by rewrite take_drop, skipn_rev.
  - exists (take n es). by rewrite take_drop.
Qed.

Lemma head_drop {A} (l : list A) n : head (drop n l) = l !! n.
Proof. revert l. induction n as [|n IH]; intros [|a l]; try done. cbn. apply IH. Qed.

Lemma rank_start h z (es : list entry) (reverse : bool) s : zsl_inv h z es -> 0 <= s < zlen es ->
  (if reverse then
     if 0 <? s then zslGetElementByRank h z (u64 (zlen es - s)) else Ok (tail z)
   else
     if 0 <? s then zslGetElementByRank h z (u64 (s + 1)) else v ← level_at h (header z) 0; Ok (forward v)) =
  Ok (e_loc <$> head (drop (Z.to_nat s) (facing reverse es))).
Proof.
  intros Hinv Hs. pose proof (ok_repr _ _ _ Hinv) as Hr. pose proof (repr_short _ _ _ _ Hr) as Hshort.
  destruct reverse; cbn [facing]; destruct (Z.ltb_spec 0 s); rewrite ?wrapu_small by lia.
  - rewrite (zslGetElementByRank_spec h z es Hinv) by lia. do 2 f_equal. unfold zlen in *. rewrite skipn_rev, head_rev, last_lookup, length_take.
    rewrite lookup_take_lt by lia. f_equal. lia.
  - rewrite (ok_tail _ _ _ Hinv). replace s with 0 by lia. change (drop (Z.to_nat 0) ?l) with l. by rewrite head_rev.
  - rewrite (zslGetElementByRank_spec h z es Hinv) by lia. rewrite head_drop. do 3 f_equal. lia.
  - replace s with 0 by lia. change (drop (Z.to_nat 0) ?l) with l. destruct (zsl_next_spec h _ _ [] es Hr) as (v & Hv & Hf).
    change (node_at (header z) []) with (header z) in Hv. rewrite Hv. cbn [mbind res_bind]. by rewrite Hf.
Qed.

Definition spec_by_rank (l : list item) (start stop : Z) (reverse : bool) : list item :=
  match sanitize start stop (zlen l) with None => [] | Some (s, e) => slice s e (facing reverse l) end.

Lemma zrangebyrank_spec h zs es start stop reverse : zset_ok ty h zs es ->
  genericZrangebyrankCommand h zs start stop reverse = Ok (spec_by_rank (items es) start stop reverse).
Proof.
  intros (Hz & _). unfold genericZrangebyrankCommand, spec_by_rank, zsetLength. rewrite (ok_length _ _ _ (proj1 Hz)), zlen_fmap.
  destruct (sanitize start stop (zlen es)) as [[s e]|] eqn:Es; [|done].
  pose proof (sanitize_some _ _ _ _ _ (zlen_nonneg es) Es) as [Hs He].
  rewrite (rank_start h (zsl zs) es reverse s (proj1 Hz)) by lia. cbn [mbind res_bind].
  rewrite (emit_count_spec h (zsl zs) es reverse _ _ (proj1 Hz) (ahead_drop _ _ _)).
  - unfold slice. by rewrite <- facing_fmap, <- fmap_drop, <- fmap_take.
  - rewrite length_drop, facing_length. unfold zlen in *. lia.
Qed.

(** *** By score and by element *)

(** [LIMIT offset limit] on the items in the range: the walk starts at the
    item of index [n], counted from the end when [n] is negative. *)
Definition paged (l : list item) (offset limit : Z) (reverse : bool) : list item :=
  let n := if reverse then - offset - 1 else offset in
  let i := if 0 <=? n then n else zlen l + n in
  limited limit (if (i <? 0) || (zlen l <=? i) then [] else if reverse then List.rev (take (S (Z.to_nat i)) l) else drop (Z.to_nat i) l).

(** For an offset that is not negative: skip so many, then take. *)
Lemma paged_offset l offset limit reverse : 0 <= offset -> paged l offset limit reverse = limited limit (drop (Z.to_nat offset) (facing reverse l)).
Proof.
  intros Ho. unfold paged. f_equal. destruct reverse; cbn [facing]; unfold zlen.
  - destruct (Z.leb_spec 0 (- offset - 1)); [lia|]. destruct (Z.ltb_spec (Z.of_nat (length l) + (- offset - 1)) 0); cbn [orb].
    + rewrite drop_ge; [done|]. rewrite length_rev. lia.
    + destruct (Z.leb_spec (Z.of_nat (length l)) (Z.of_nat (length l) + (- offset - 1))); [lia|]. rewrite skipn_rev. do 2 f_equal. lia.
  - destruct (Z.leb_spec 0 offset); [|lia]. destruct (Z.ltb_spec offset 0); [lia|]. cbn [orb].
    destruct (Z.leb_spec (Z.of_nat (length l)) offset); [|done]. rewrite drop_ge; [done|lia].
Qed.

Lemma take_while_app {A} (p : A -> bool) l k : Forall (fun a => p a = true) l -> Forall (fun a => p a = false) k -> take_while p (l ++ k) = l.
Proof.
  intros Hl Hk. induction Hl as [|a l Ha _ IH]; cbn; [destruct Hk as [|b k Hb _]; cbn; [done|by rewrite Hb]|]. by rewrite Ha, IH.
Qed.

(** The walk from an entry of the range [Y] between [X] and [R]. *)
Lemma walk_range h z (X Y R : list entry) gte lte pg pl limit (reverse : bool) i e : zsl_inv h z (X ++ Y ++ R) ->
  reads_on (X ++ Y ++ R) gte pg -> reads_on (X ++ Y ++ R) lte pl ->
  Forall (fun e => pg (it e) = false) X -> Forall (fun e => pg (it e) = true) Y -> Forall (fun e => pl (it e) = true) Y ->
  Forall (fun e => pl (it e) = false) R -> Y !! i = Some e ->
  emit_while (size h) h (if reverse then gte else lte) reverse limit (Some (e_loc e)) =
    Ok (limited limit (items (if reverse then List.rev (take (S i) Y) else drop i Y))).
Proof.
  intros Hinv Hg Hl HX HY HYl HR Hi. pose proof (repr_size _ _ _ _ (ok_repr _ _ _ Hinv)) as Hsz. rewrite !length_app in Hsz.
  pose proof (lookup_lt_Some _ _ _ Hi) as Hlt. destruct reverse.
  - pose proof (emit_while_spec h z (X ++ Y ++ R) gte pg true (size h) (List.rev (X ++ take (S i) Y)) limit Hinv Hg) as H.
    rewrite head_rev, last_app, (take_S_r _ _ _ Hi), last_snoc in H. cbn [fmap option_fmap option_map] in H. rewrite <- (take_S_r _ _ _ Hi) in H.
    rewrite H; clear H.
    + rewrite rev_app_distr, fmap_app. rewrite take_while_app; [done| |].
      * rewrite Forall_fmap. apply List.Forall_rev. by apply Forall_take.
      * rewrite Forall_fmap. by apply List.Forall_rev.
    + exists (X ++ take (S i) Y), (drop (S i) Y ++ R). split; [|done]. by rewrite <- app_assoc, (app_assoc (take _ _)), take_drop.
    + rewrite length_rev, length_app, length_take. lia.
  - pose proof (emit_while_spec h z (X ++ Y ++ R) lte pl false (size h) (drop i Y ++ R) limit Hinv Hl) as H.
    assert (head (drop i Y ++ R) = Some e) as Hh by by rewrite (drop_S _ _ _ Hi).
    rewrite Hh in H. cbn [fmap option_fmap option_map] in H. rewrite H; clear H.
    + rewrite fmap_app, take_while_app; [done| |].
      * rewrite Forall_fmap. by apply Forall_drop.
      * by rewrite Forall_fmap.
    + exists (X ++ take i Y). by rewrite <- app_assoc, (app_assoc (take _ _)), take_drop.
    + rewrite length_app, length_drop. lia.
Qed.

Lemma pick_some n (l : list entry) e : pick n l = Some e -> exists i, l !! i = Some e /\ Z.of_nat i = (if 0 <=? n then n else zlen l + n) /\ (i < length l)%nat.
Proof.
  unfold pick. destruct (Z.leb_spec 0 n); [|destruct (Z.ltb_spec (zlen l + n) 0); [done|]]; intros H'; pose proof (lookup_lt_Some _ _ _ H') as Hl; eexists; (split; [exact H'|]); lia.
Qed.

Lemma pick_none n (l : list entry) : pick n l = None -> let i := (if 0 <=? n then n else zlen l + n) in (i <? 0) || (zlen l <=? i) = true.
Proof.
  unfold pick, zlen. cbn zeta. destruct (Z.leb_spec 0 n); [|destruct (Z.ltb_spec (Z.of_nat (length l) + n) 0); [done|]];
    intros H'%lookup_ge_None; apply orb_true_iff; right; apply Z.leb_le; lia.
Qed.

Lemma paged_walk h z es gte lte pg pl offset limit (reverse : bool) : zsl_inv h z es -> reads_on es gte pg -> reads_on es lte pl ->
  downward (fun a => negb (pg a)) -> downward pl ->
  emit_while (size h) h (if reverse then gte else lte) reverse limit
    (e_loc <$> pick (if reverse then - offset - 1 else offset) (List.filter (in_range pg pl) es)) =
  Ok (paged (items (List.filter (in_range pg pl) es)) offset limit reverse).
Proof.
  intros Hinv Hg Hl Hdg Hdl.
  destruct (range_split pg pl es (ok_sorted _ _ _ Hinv) Hdg Hdl) as (X & Y & R & -> & -> & _ & HX & HYR & HY & HR).
  unfold paged. rewrite zlen_fmap. set (n := if reverse then - offset - 1 else offset). destruct (pick n Y) as [e|] eqn:Hp.
  - apply pick_some in Hp as (i & Hi & Ei & Hlt). rewrite <- Ei.
    rewrite (proj2 (Z.ltb_ge _ _)), (proj2 (Z.leb_gt _ _)) by (unfold zlen; lia). cbn [orb fmap option_fmap option_map].
    rewrite (walk_range h z X Y R gte lte pg pl limit reverse i e Hinv Hg Hl); [|..|done].
    + rewrite Nat2Z.id. do 2 f_equal. destruct reverse; [|by rewrite fmap_drop]. rewrite <- fmap_take. apply map_rev.
    + eapply Forall_impl; [exact HX|]. cbn. intros a. by rewrite negb_true_iff.
    + apply Forall_app in HYR as [H _]. eapply Forall_impl; [exact H|]. cbn. intros a. by rewrite negb_false_iff.
    + done.
    + done.
  - apply pick_none in Hp. cbn zeta in Hp. rewrite Hp, limited_nil. by destruct (size h).
Qed.

Lemma zrangebyscore_spec h zs es r offset limit reverse : zset_ok ty h zs es -> isnan (min r) = false -> isnan (max r) = false ->
  - 2 ^ 62 < offset < 2 ^ 63 ->
  genericZrangebyscoreCommand h zs r offset limit reverse = Ok (paged (List.filter (score_range r) (items es)) offset limit reverse).
Proof.
  intros (Hz & _) Hmin Hmax Hoff. unfold genericZrangebyscoreCommand, zsetLength. rewrite (ok_length _ _ _ (proj1 Hz)).
  pose proof (repr_short _ _ _ _ (ok_repr _ _ _ (proj1 Hz))) as Hshort. pose proof (zlen_nonneg es). rewrite wraps_small by lia.
  rewrite <- filter_items. change (fun e => score_range r (it e)) with (by_score r).
  assert (length (List.filter (by_score r) es) <= length es)%nat as Hle by apply filter_length_le.
  destruct (Z.ltb_spec 0 offset); destruct (Z.leb_spec (zlen es) offset); cbn [andb].
  { rewrite paged_offset, drop_ge, limited_nil; [done| |lia]. rewrite facing_length, length_fmap. unfold zlen in *. lia. }
  all: rewrite (zslNthInRange_spec h (zsl zs) es (proj1 Hz) r) by (done || (destruct reverse; lia)); cbn [mbind res_bind];
    destruct (score_reads r) as [Hg Hl]; change (by_score r) with (in_range (fun a => zslValueGteMin a.1 r) (fun a => zslValueLteMax a.1 r));
    rewrite <- (paged_walk h (zsl zs) es _ _ _ _ offset limit reverse (proj1 Hz) (reads_reads_on es _ _ Hg) (reads_reads_on es _ _ Hl)
      (downward_below r Hmin) (downward_upto r Hmax)); by destruct reverse.
Qed.

Lemma zrangebylex_spec h zs es r s offset limit (reverse : bool) : zset_ok ty h zs es -> one_score s es -> - 2 ^ 62 < offset < 2 ^ 62 ->
  genericZrangebylexCommand h zs r offset limit reverse = Ok (paged (List.filter (lex_range r) (items es)) offset limit reverse).
Proof.
  intros (Hz & _) Hs Hoff. unfold genericZrangebylexCommand.
  rewrite (zslNthInLexRange_spec h (zsl zs) es (proj1 Hz) r s) by (done || (destruct reverse; lia)). cbn [mbind res_bind].
  destruct (lex_ends r s es Hs) as (pg & pl & Hg & Hl & Hdg & Hdl & Hp).
  rewrite <- filter_items. change (fun e => lex_range r (it e)) with (by_lex r).
  rewrite <- (filter_ext_in (in_range pg pl) (by_lex r)) by (intros e He; apply Hp; by apply list_elem_of_In).
  by apply (paged_walk h (zsl zs)); [apply Hz|..].
Qed.

(** ** Counting *)

Lemma rank_of_entry h z A e B : zsl_inv h z (A ++ e :: B) -> zslGetRank h z (e_score e) (e_ele e) = Ok (zlen A + 1).
Proof.
  intros Hinv. pose proof (ok_numbers _ _ _ Hinv) as Hnum. apply Forall_app in Hnum as [_ Hnum]. apply Forall_cons_1 in Hnum as [Hnum _].
  assert (same (it e) (e_score e, e_ele e) = true) as Hs by by rewrite same_spec.
  destruct (zslGetRank_spec h z _ Hinv (e_score e) (e_ele e)) as [(A1 & e1 & B1 & Es & Hs1 & ->)|[Hnone _]].
  - pose proof (ok_sorted _ _ _ Hinv) as Hsort. destruct (split_at_same _ _ _ _ Hsort Hs) as [H3 H4].
    rewrite Es in Hsort. destruct (split_at_same _ _ _ _ Hsort Hs1) as [H1 H2]. by destruct (split_unique _ _ _ _ _ Es H3 H4 H1 H2) as [-> _].
  - apply Forall_app in Hnone as [_ Hnone]. apply Forall_cons_1 in Hnone as [Hnone _]. congruence.
Qed.

Lemma count_between_spec h zs X Y R nth : zsl_inv h (zsl zs) (X ++ Y ++ R) ->
  nth 0 = Ok (e_loc <$> head Y) -> nth (-1) = Ok (e_loc <$> last Y) -> count_between h zs nth = Ok (zlen Y).
Proof.
  intros Hinv H0 H1. unfold count_between. rewrite H0, H1. cbn [mbind res_bind]. rewrite (ok_length _ _ _ Hinv).
  pose proof (ok_repr _ _ _ Hinv) as Hr. pose proof (repr_short _ _ _ _ Hr) as Hs. rewrite !zlen_app in *.
  destruct Y as [|e Y]; [done|]. cbn [head fmap option_fmap option_map].
  destruct (repr_entry h _ _ X e (Y ++ R) Hr) as (n & -> & [He Hn]). cbn [mbind res_bind]. unfold ele_of. rewrite He. cbn [mbind res_bind]. rewrite Hn.
  cbn [app] in Hinv. rewrite (rank_of_entry h (zsl zs) X e (Y ++ R) Hinv). cbn [mbind res_bind].
  destruct (last (e :: Y)) as [e'|] eqn:El; [|by apply last_None in El]. apply last_Some in El as [Y' EY]. rewrite EY in *. cbn [fmap option_fmap option_map].
  assert (X ++ e :: Y ++ R = (X ++ Y') ++ e' :: R) as E by (rewrite app_comm_cons, EY, <- !app_assoc; done).
  rewrite E in Hinv. pose proof (ok_repr _ _ _ Hinv) as Hr'.
  destruct (repr_entry h _ _ (X ++ Y') e' R Hr') as (n' & -> & [He' Hn']). cbn [mbind res_bind]. rewrite He'. cbn [mbind res_bind]. rewrite Hn'.
  rewrite (rank_of_entry h (zsl zs) (X ++ Y') e' R Hinv). cbn [mbind res_bind]. rewrite zlen_app in *. rewrite (zlen_cons e' []), zlen_nil in *.
  pose proof (zlen_nonneg X). pose proof (zlen_nonneg Y'). pose proof (zlen_nonneg R). f_equal.
  rewrite (zlen_app X Y'), (wrapu_small _ (zlen X + 1 - 1)) by lia. rewrite !(wrapu_small _ (zlen X + _ - _)) by lia. rewrite wrapu_small by lia. lia.
Qed.

Lemma pick_ends (l : list entry) : pick 0 l = head l /\ pick (-1) l = last l.
Proof.
  unfold pick. split; [by destruct l|]. change (0 <=? -1) with false. cbn iota. destruct (Z.ltb_spec (zlen l + -1) 0) as [H|H].
  - destruct l; [done|]. rewrite zlen_cons in H. pose proof (zlen_nonneg l). lia.
  - rewrite last_lookup. f_equal. unfold zlen in *. lia.
Qed.

Lemma zcount_spec h zs es r : zset_ok ty h zs es -> isnan (min r) = false -> isnan (max r) = false ->
  zcountCommand h zs r = Ok (zlen (List.filter (score_range r) (items es))).
Proof.
  intros (Hz & _) Hmin Hmax. pose proof (fun n => zslNthInRange_spec h (zsl zs) es (proj1 Hz) r n Hmin Hmax) as Hnth.
  rewrite <- filter_items, zlen_fmap. change (fun e => score_range r (it e)) with (by_score r).
  destruct (range_split (fun a => zslValueGteMin a.1 r) (fun a => zslValueLteMax a.1 r) es (ok_sorted _ _ _ (proj1 Hz)) (downward_below r Hmin) (downward_upto r Hmax))
    as (X & Y & R & -> & EY & _). change (List.filter (by_score r) (X ++ Y ++ R) = Y) in EY. rewrite EY in *.
  destruct (pick_ends Y) as [H0 H1]. apply (count_between_spec h zs X Y R _ (proj1 Hz)); rewrite Hnth by lia; by rewrite ?H0, ?H1.
Qed.

Lemma zlexcount_spec h zs es r s : zset_ok ty h zs es -> one_score s es ->
  zlexcountCommand h zs r = Ok (zlen (List.filter (lex_range r) (items es))).
Proof.
  intros (Hz & _) Hs. pose proof (fun n => zslNthInLexRange_spec h (zsl zs) es (proj1 Hz) r s n Hs) as Hnth.
  rewrite <- filter_items, zlen_fmap. change (fun e => lex_range r (it e)) with (by_lex r).
  destruct (lex_ends r s es Hs) as (pg & pl & _ & _ & Hdg & Hdl & Hp).
  rewrite <- (filter_ext_in (in_range pg pl) (by_lex r)) in * by (intros e He; apply Hp; by apply list_elem_of_In).
  destruct (range_split pg pl es (ok_sorted _ _ _ (proj1 Hz)) Hdg Hdl) as (X & Y & R & -> & EY & _). rewrite EY in *.
  destruct (pick_ends Y) as [H0 H1]. apply (count_between_spec h zs X Y R _ (proj1 Hz)); rewrite Hnth by lia; by rewrite ?H0, ?H1.
Qed.

(** ** Popping *)

(** Without the first [n] items from one end. *)
Definition unpop (where_max : bool) (n : nat) (l : list item) : list item := facing where_max (drop n (facing where_max l)).

Lemma pop_start h z es (where_max : bool) : zsl_inv h z es ->
  (if where_max then Ok (tail z) else v ← level_at h (header z) 0; Ok (forward v)) = Ok (e_loc <$> head (facing where_max es)).
Proof.
  intros Hinv. destruct where_max; cbn [facing]; [by rewrite (ok_tail _ _ _ Hinv), head_rev|].
  destruct (zsl_next_spec h _ _ [] es (ok_repr _ _ _ Hinv)) as (v & Hv & Hf). change (node_at (header z) []) with (header z) in Hv.
  rewrite Hv. cbn [mbind res_bind]. by rewrite Hf.
Qed.

Lemma facing_twice {A} reverse (l : list A) : facing reverse (facing reverse l) = l.
Proof. destruct reverse; cbn; [apply rev_involutive|done]. Qed.

(** The first entry from one end. *)
Lemma facing_cons (es : list entry) where_max e W : facing where_max es = e :: W ->
  exists A B, es = A ++ e :: B /\ A ++ B = facing where_max W.
Proof.
  intros H. apply (f_equal (facing where_max)) in H. rewrite facing_twice in H. rewrite H. destruct where_max; cbn.
  - exists (List.rev W), []. by rewrite app_nil_r.
  - by exists [], W.
Qed.

Lemma pop_loop_spec where_max n : forall h zs es, zset_ok ty h zs es -> (n <= length es)%nat ->
  exists h' zs' es', pop_loop ty can h zs where_max n = Ok (h', zs', take n (facing where_max (items es))) /\
    zset_ok ty h' zs' es' /\ items es' = unpop where_max n (items es).
Proof.
  induction n as [|n IH]; intros h zs es Hok Hn.
  { exists h, zs, es. split; [done|]. split; [done|]. unfold unpop. rewrite drop_0. by rewrite facing_twice. }
  pose proof Hok as (Hz & _ & _ & Hnd). cbn [pop_loop]. rewrite (pop_start h (zsl zs) es where_max (proj1 Hz)). cbn [mbind res_bind].
  destruct (facing where_max es) as [|e W] eqn:Ef; [apply (f_equal length) in Ef; rewrite facing_length in Ef; cbn in Ef; lia|].
  cbn [head fmap option_fmap option_map cassert mbind res_bind deref].
  assert (ahead where_max es (e :: W)) as Ha by (rewrite <- Ef; apply (ahead_drop where_max es 0)).
  destruct (visit h (zsl zs) es where_max e W (proj1 Hz) Ha) as (nd & -> & _ & Hemit & _). cbn [mbind res_bind]. rewrite Hemit. cbn [mbind res_bind].
  destruct (facing_cons es where_max e W Ef) as (A & B & Es & EW).
  destruct (zsetDel_spec ty can h zs es (e_ele e) Hok) as (h1 & zs1 & es1 & E1 & Hok1 & Hit1). change (snd (it e)) with (e_ele e). rewrite E1.
  rewrite Es in Hit1, Hnd |- *. unfold is_in. rewrite score_in_entry by done. rewrite remove_entry, EW in Hit1 by done. cbn [mbind res_bind cassert].
  assert (length es1 = length W) as Hlen by (apply (f_equal length) in Hit1; by rewrite !length_fmap, facing_length in Hit1).
  assert (length es = S (length W)) as Hlen' by (apply (f_equal length) in Ef; by rewrite facing_length in Ef).
  destruct (IH h1 zs1 es1 Hok1 ltac:(lia)) as (h' & zs' & es' & -> & Hok' & Hit'). cbn [mbind res_bind].
  exists h', zs', es'. unfold unpop in Hit' |- *. assert (facing where_max (items es) = it e :: items W) as Hf by by rewrite <- facing_fmap, Ef.
  assert (facing where_max (items es1) = items W) as Hf1 by by rewrite Hit1, <- facing_fmap, facing_fmap, facing_fmap, facing_twice.
  unfold item in *. rewrite <- Es, Hf, Hf1. rewrite Hf1 in Hit'. done.
Qed.

Definition spec_pop (l : list item) (where_max : bool) (count : Z) : list item * list item * bool :=
  if count =? 0 then (l, [], false) else
  let n := Z.to_nat (Z.min (if count =? -1 then 1 else count) (zlen l)) in
  let l' := unpop where_max n l in (l', take n (facing where_max l), zlen l' =? 0).

(** A sorted set under a key is not empty. *)
Lemma zpop_spec h zs es where_max count : zset_ok ty h zs es -> es <> [] -> -1 <= count ->
  exists h' zs' es' out b, genericZpopCommand ty can h zs where_max count = Ok (h', zs', out, b) /\ zset_ok ty h' zs' es' /\
    spec_pop (items es) where_max count = (items es', out, b).
Proof.
  intros Hok Hne Hc. unfold genericZpopCommand, spec_pop. destruct (Z.eqb_spec count 0) as [->|Hc0]; [by eexists h, zs, es, _, _|].
  pose proof Hok as (Hz & _). unfold zsetLength. rewrite !(ok_length _ _ _ (proj1 Hz)), zlen_fmap. set (c := if count =? -1 then 1 else count).
  assert (1 <= c) as Hc1 by (unfold c; destruct (Z.eqb_spec count (-1)); lia).
  assert (1 <= zlen es) as Hl by (destruct es; [done|]; rewrite zlen_cons; pose proof (zlen_nonneg es); lia).
  replace (Z.max 1 (if zlen es <? c then zlen es else c)) with (Z.min c (zlen es)) by (destruct (Z.ltb_spec (zlen es) c); lia).
  destruct (pop_loop_spec where_max (Z.to_nat (Z.min c (zlen es))) h zs es Hok) as (h' & zs' & es' & -> & Hok' & Hit); [unfold zlen; lia|].
  cbn [mbind res_bind]. eexists h', zs', es', _, _. split; [done|]. split; [done|]. rewrite <- Hit.
  destruct Hok' as (Hz' & _). by rewrite (ok_length _ _ _ (proj1 Hz')), zlen_fmap.
Qed.

(** ** Freeing *)

(** The nodes of [R] are linked at level 0. *)
Definition chained (h : heap) (R : list entry) : Prop :=
  forall pre e post, R = pre ++ e :: post -> exists v, level_at h (e_loc e) 0 = Ok v /\ forward v = e_loc <$> head post.

Lemma chained_after h x R : chained h R -> x ∉ e_loc <$> R -> chained (delete x h) R.
Proof.
  intros Hc Hx pre e post E. destruct (Hc pre e post E) as (v & Hv & Hf). exists v. split; [|done].
  apply level_at_ok in Hv as (n & Hn & Hv). apply level_at_ok. exists n. rewrite lookup_delete_ne; [done|]. intros ->. apply Hx. rewrite E. set_solver.
Qed.

Lemma free_loop_spec R : forall h fuel, chained h R -> NoDup (e_loc <$> R) -> (length R <= fuel)%nat ->
  exists h', free_loop fuel h (e_loc <$> head R) = Ok h' /\ dom h' = dom h ∖ list_to_set (e_loc <$> R).
Proof.
  induction R as [|e R IH]; intros h fuel Hc Hnd Hf.
  { exists h. split; [by destruct fuel|]. cbn. set_solver. }
  destruct fuel as [|fuel]; [cbn in Hf; lia|]. destruct (Hc [] e R eq_refl) as (v & Hv & Hfw). cbn [head fmap option_fmap option_map free_loop].
  rewrite Hv. cbn [mbind res_bind]. pose proof Hv as (n & Hn & _)%level_at_ok. unfold zslFreeNode, node. rewrite Hn. cbn [mbind res_bind]. rewrite Hfw.
  cbn in Hnd. apply list.NoDup_cons in Hnd as [Hx Hnd].
  destruct (IH (delete (e_loc e) h) fuel) as (h' & E & Hd); [|done|cbn in Hf; lia|].
  - apply chained_after; [|done]. intros pre e' post E. apply (Hc (e :: pre) e' post). by rewrite E.
  - exists h'. split; [done|]. rewrite Hd, dom_delete_L. cbn. set_solver.
Qed.

(** Freeing a sorted set frees every node once, and nothing is left. *)
Lemma freeZsetObject_empty h zs es : zset_ok ty h zs es -> freeZsetObject h zs = Ok ∅.
Proof.
  intros ([Hinv Hdom] & _). pose proof (ok_repr _ _ _ Hinv) as Hr. pose proof (repr_nodup _ _ _ _ Hr) as Hnd. apply list.NoDup_cons in Hnd as [Hx Hnd].
  unfold freeZsetObject, zslFree. destruct (zsl_next_spec h _ _ [] es Hr) as (v & Hv & Hf). change (node_at (header (zsl zs)) []) with (header (zsl zs)) in Hv.
  rewrite Hv. cbn [mbind res_bind]. pose proof Hv as (n & Hn & _)%level_at_ok. unfold zslFreeNode, node. rewrite Hn. cbn [mbind res_bind]. rewrite Hf.
  destruct (free_loop_spec es (delete (header (zsl zs)) h) (size (delete (header (zsl zs)) h))) as (h' & -> & Hd); [|done| |].
  - apply chained_after; [|done]. intros pre e post E. pose proof Hr as Hr'. rewrite E, (app_assoc pre [e] post : pre ++ e :: post = (pre ++ [e]) ++ post) in Hr'.
    destruct (zsl_next_spec h _ _ (pre ++ [e]) post Hr') as (w & Hw & Hfw). rewrite node_at_snoc in Hw. by exists w.
  - pose proof (repr_size _ _ _ _ Hr) as Hs. rewrite map_size_delete_Some by done. lia.
  - f_equal. apply dom_empty_iff_L. rewrite Hd, dom_delete_L, Hdom. unfold owned. cbn. set_solver.
Qed.

End range.

End ZsetRange.
