(* ===== verification/ZsetSpec.v ===== *)
(** * Sorted sets: refinement to sorted lists

    The abstract sorted set is a list of items (a score and an element) in the
    order of [ilt], by score and then by element.  Any sequence of operations on
    a new sorted set in the skip list encoding, with any choice of the random
    levels and of the resizing policy, gives the answers of the sorted list;
    the skip list and the dict stay in step, every node stays well typed, and
    freeing the object frees every node once. *)

From Stdlib Require Import SpecFloat Sorting.Sorted.
From S2P Require Import Prelude Dict DictTheory DictSpec Zskiplist ZskiplistOrder ZskiplistTheory ZskiplistLink ZskiplistOps ZskiplistQuery Zset ZsetTheory ZsetRange.
From stdpp Require Import list gmap fin_maps.
#[local] Open Scope Z_scope.

Module ZsetSpec.
Import Dict DictTheory DictSpec Zskiplist ZskiplistOrder ZskiplistTheory ZskiplistLink ZskiplistOps ZskiplistQuery Zset ZsetTheory ZsetRange.

(** ** Operations and their meaning on sorted lists *)

Inductive zop : Type :=
  | ZAdd (sc : double) (e : bytes) (in_flags : Z) (draws : list Z)
  | ZDel (e : bytes)
  | ZScore (e : bytes)
  | ZRank (e : bytes) (reverse : bool)
  | ZCard
  | ZRemRange (range : zremrange)
  | ZPop (where_max : bool) (count : Z)
  | ZRangeByRank (start stop : Z) (reverse : bool)
  | ZRangeByScore (range : zrangespec) (offset limit : Z) (reverse : bool)
  | ZRangeByLex (range : zlexrangespec) (offset limit : Z) (reverse : bool)
  | ZCount (range : zrangespec)
  | ZLexCount (range : zlexrangespec).

Inductive zanswer : Type :=
  | AAdd (r : zadd_result)
  | AFound (b : bool)
  | AScore (s : option double)
  | ARank (rank : Z) (s : option double)
  | ANumber (n : Z)
  | ARemoved (n : Z) (keyremoved : bool)
  | APopped (l : list item) (keyremoved : bool)
  | AItems (l : list item).

Definition spec_op (op : zop) (l : list item) : list item * zanswer :=
  match op with
  | ZAdd sc e in_flags _ => let r := spec_add l sc e in_flags in (fst r, AAdd (snd r))
  | ZDel e => (remove e l, AFound (is_in e l))
  | ZScore e => (l, AScore (score_in e l))
  | ZRank e reverse => let r := spec_rank l e reverse in (l, ARank (fst r) (snd r))
  | ZCard => (l, ANumber (zlen l))
  | ZRemRange range => let '(l', n, b) := spec_remrange range l in (l', ARemoved n b)
  | ZPop where_max count => let '(l', out, b) := spec_pop l where_max count in (l', APopped out b)
  | ZRangeByRank start stop reverse => (l, AItems (spec_by_rank l start stop reverse))
  | ZRangeByScore range offset limit reverse => (l, AItems (paged (List.filter (score_range range) l) offset limit reverse))
  | ZRangeByLex range offset limit reverse => (l, AItems (paged (List.filter (lex_range range) l) offset limit reverse))
  | ZCount range => (l, ANumber (zlen (List.filter (score_range range) l)))
  | ZLexCount range => (l, ANumber (zlen (List.filter (lex_range range) l)))
  end.

Fixpoint spec_run (ops : list zop) (l : list item) : list item * list zanswer :=
  match ops with
  | [] => (l, [])
  | op :: ops => let '(l, a) := spec_op op l in let '(l, answers) := spec_run ops l in (l, a :: answers)
  end.

Definition one_score_items (l : list item) : Prop := exists s, Forall (fun a => deq a.1 s = true) l.

(** What the callers of an operation respect.  The draws end the choice of a
    level; ranges by score have numbers for ends, as the parser of ranges
    ensures, and ranges by element are for elements of one score, as the
    documentation of the commands demands. *)
Definition op_ok (op : zop) (l : list item) : Prop :=
  match op with
  | ZAdd _ _ _ draws => zlen l < max_entries /\ Exists (fun r => threshold <= r) draws
  | ZRemRange range => remrange_ok range l
  | ZPop _ count => l <> [] /\ -1 <= count
  | ZRangeByScore r offset _ _ => isnan (min r) = false /\ isnan (max r) = false /\ - 2 ^ 62 < offset < 2 ^ 63
  | ZRangeByLex _ offset _ _ => one_score_items l /\ - 2 ^ 62 < offset < 2 ^ 62
  | ZCount r => isnan (min r) = false /\ isnan (max r) = false
  | ZLexCount _ => one_score_items l
  | ZDel _ | ZScore _ | ZRank _ _ | ZCard | ZRangeByRank _ _ _ => True
  end.

Fixpoint admissible (ops : list zop) (l : list item) : Prop :=
  match ops with
  | [] => True
  | op :: ops => op_ok op l /\ admissible ops (fst (spec_op op l))
  end.

Section run.
Context (junk_backward : option loc) (junk_level : nat -> zskiplistLevel).
Context (ty : @dictType bytes) {Hty : DictTypeOk ty} (Hnv : no_value ty = false).

(** ** The operations of the program *)

Definition run_op (can : dictResizeEnable) (op : zop) (h : heap) (zs : zset) : res (heap * zset * zanswer) :=
  match op with
  | ZAdd sc e in_flags draws => '(h, zs, r) ← zsetAdd junk_backward junk_level ty can h zs sc e in_flags draws; Ok (h, zs, AAdd r)
  | ZDel e => '(h, zs, b) ← zsetDel ty can h zs e; Ok (h, zs, AFound b)
  | ZScore e => '(zs, s) ← zsetScore ty can h zs e; Ok (h, zs, AScore s)
  | ZRank e reverse => '(zs, r, s) ← zsetRank ty can h zs e reverse; Ok (h, zs, ARank r s)
  | ZCard => Ok (h, zs, ANumber (zsetLength zs))
  | ZRemRange range => '(h, zs, n, b) ← zremrangeGenericCommand ty can h zs range; Ok (h, zs, ARemoved n b)
  | ZPop where_max count => '(h, zs, out, b) ← genericZpopCommand ty can h zs where_max count; Ok (h, zs, APopped out b)
  | ZRangeByRank start stop reverse => l ← genericZrangebyrankCommand h zs start stop reverse; Ok (h, zs, AItems l)
  | ZRangeByScore range offset limit reverse => l ← genericZrangebyscoreCommand h zs range offset limit reverse; Ok (h, zs, AItems l)
  | ZRangeByLex range offset limit reverse => l ← genericZrangebylexCommand h zs range offset limit reverse; Ok (h, zs, AItems l)
  | ZCount range => n ← zcountCommand h zs range; Ok (h, zs, ANumber n)
  | ZLexCount range => n ← zlexcountCommand h zs range; Ok (h, zs, ANumber n)
  end.

Fixpoint run (ops : list (dictResizeEnable * zop)) (h : heap) (zs : zset) : res (heap * zset * list zanswer) :=
  match ops with
  | [] => Ok (h, zs, [])
  | (can, op) :: ops =>
    '(h, zs, a) ← run_op can op h zs;
    '(h, zs, answers) ← run ops h zs;
    Ok (h, zs, a :: answers)
  end.

(** ** Simulation *)

#[local] Abbreviation items es := (it <$> (es : list entry)).

Lemma one_score_entries es : one_score_items (items es) -> exists s, one_score s es.
Proof. intros [s Hs]. exists s. by rewrite Forall_fmap in Hs. Qed.

(** One operation gives the answer of the list and keeps the two in step. *)
Lemma zop_simulates can op h zs es : zset_ok ty h zs es -> op_ok op (items es) ->
  exists h' zs' es' a, run_op can op h zs = Ok (h', zs', a) /\ zset_ok ty h' zs' es' /\ spec_op op (items es) = (items es', a).
Proof.
  intros Hok Hop. destruct op as [sc e in_flags draws|e|e|e rev| |range|where_max count|start stop rev|range offset limit rev|range offset limit rev|range|range]; cbn [run_op spec_op op_ok] in *.
  - destruct Hop as [Hroom Hd]. rewrite zlen_fmap in Hroom.
    destruct (zsetAdd_spec junk_backward junk_level ty Hnv can h zs es sc e in_flags draws Hok Hroom Hd) as (h' & zs' & es' & r & -> & Hok' & ->).
    by eexists h', zs', es', _.
  - destruct (zsetDel_spec ty can h zs es e Hok) as (h' & zs' & es' & -> & Hok' & <-). by eexists h', zs', es', _.
  - destruct (zsetScore_spec ty can h zs es e Hok) as (zs' & -> & Hok'). by eexists h, zs', es, _.
  - destruct (zsetRank_spec ty can h zs es e rev Hok) as (zs' & -> & Hok'). by eexists h, zs', es, _.
  - eexists h, zs, es, _. split; [done|]. split; [done|]. destruct Hok as (Hz & _). unfold zsetLength. by rewrite (ok_length _ _ _ (proj1 Hz)), zlen_fmap.
  - destruct (zremrange_spec ty can h zs es range Hok Hop) as (h' & zs' & es' & n & b & -> & Hok' & ->). by eexists h', zs', es', _.
  - destruct Hop as [Hne Hc]. destruct (zpop_spec ty can h zs es where_max count Hok) as (h' & zs' & es' & out & b & -> & Hok' & ->); [|done|].
    + intros ->. by apply Hne.
    + by eexists h', zs', es', _.
  - rewrite (zrangebyrank_spec ty h zs es start stop rev Hok). by eexists h, zs, es, _.
  - destruct Hop as (Hmin & Hmax & Ho). rewrite (zrangebyscore_spec ty h zs es range offset limit rev Hok Hmin Hmax Ho). by eexists h, zs, es, _.
  - destruct Hop as [[s Hs]%one_score_entries Ho]. rewrite (zrangebylex_spec ty h zs es range s offset limit rev Hok Hs Ho). by eexists h, zs, es, _.
  - destruct Hop as [Hmin Hmax]. rewrite (zcount_spec ty h zs es range Hok Hmin Hmax). by eexists h, zs, es, _.
  - apply one_score_entries in Hop as [s Hs]. rewrite (zlexcount_spec ty h zs es range s Hok Hs). by eexists h, zs, es, _.
Qed.

Lemma zrun_simulates ops : forall h zs es, zset_ok ty h zs es -> admissible ops.*2 (items es) ->
  exists h' zs' es' answers, run ops h zs = Ok (h', zs', answers) /\ zset_ok ty h' zs' es' /\
    spec_run ops.*2 (items es) = (items es', answers).
Proof.
  induction ops as [|[can op] ops IH]; intros h zs es Hok Hadm; [by eexists h, zs, es, _|]. cbn [fmap list_fmap snd admissible spec_run run] in *.
  destruct Hadm as [Hop Hadm]. destruct (zop_simulates can op h zs es Hok Hop) as (h1 & zs1 & es1 & a & -> & Hok1 & E). rewrite E in *.
  cbn [mbind res_bind fst] in *. destruct (IH h1 zs1 es1 Hok1 Hadm) as (h2 & zs2 & es2 & answers & -> & Hok2 & E2). rewrite E2.
  by eexists h2, zs2, es2, _.
Qed.

Lemma create_ok : exists h zs, createZsetObject junk_backward junk_level = Ok (h, zs) /\ zset_ok ty h zs [].
Proof.
  unfold createZsetObject. destruct (zslCreate_spec junk_backward junk_level) as (h & z & -> & Hz). eexists h, _. split; [done|].
  split; [done|]. split; [apply ready_create|]. split; [done|]. constructor.
Qed.

(** A new object after some operations. *)
Definition after (ops : list (dictResizeEnable * zop)) : res (heap * zset * list zanswer) :=
  r ← createZsetObject junk_backward junk_level; run ops (fst r) (snd r).

Lemma after_simulates ops : admissible ops.*2 [] ->
  exists h zs es answers, after ops = Ok (h, zs, answers) /\ zset_ok ty h zs es /\ spec_run ops.*2 [] = (items es, answers).
Proof.
  intros Hadm. unfold after. destruct create_ok as (h & zs & -> & Hok). cbn [mbind res_bind fst snd].
  exact (zrun_simulates ops h zs [] Hok Hadm).
Qed.

End run.

(** ** Types of the nodes *)

(** What the C types and the allocations leave open: which pointers may be
    null, how many levels a node was allocated with, and that a pointer of
    level [i] leads to a node that has that level. *)
Record well_typed (h : heap) (z : zskiplist) : Prop := {
  wt_level : (1 <= level z <= ZSKIPLIST_MAXLEVEL)%nat;
  wt_header : exists n, h !! header z = Some n /\ ele n = None /\ length (levels n) = ZSKIPLIST_MAXLEVEL;
  wt_node x n : h !! x = Some n -> x <> header z ->
    is_Some (ele n) /\ isnan (score n) = false /\ (1 <= length (levels n) <= level z)%nat;
  wt_forward x n i v y : h !! x = Some n -> levels n !! i = Some v -> forward v = Some y ->
    y <> header z /\ exists m, h !! y = Some m /\ (i < length (levels m))%nat;
  wt_backward x n y : h !! x = Some n -> x <> header z -> backward n = Some y ->
    y <> header z /\ exists v, level_at h y 0 = Ok v /\ forward v = Some x;
  wt_tail : match tail z with
            | None => dom h = {[header z]}
            | Some y => y <> header z /\ exists v, level_at h y 0 = Ok v /\ forward v = None
            end
}.

Lemma link_target l R x : fst (link l R) = Some x -> exists S e T, R = S ++ e :: T /\ (l < e_height e)%nat /\ x = e_loc e.
Proof.
  destruct (low_dec l R) as [Hlow|(S & e & T & -> & HS & He)]; [by rewrite link_low|]. rewrite link_high by done. intros [= <-]. by exists S, e, T.
Qed.

(** A node in use is the header or the last of a prefix of the entries. *)
Lemma owned_prefix h z es x n : zsl_ok h z es -> h !! x = Some n ->
  exists pre rest, es = pre ++ rest /\ x = node_at (header z) pre /\ (x <> header z -> pre <> []).
Proof.
  intros [_ Hdom] Hn. assert (x ∈ dom h) as Hx by (apply elem_of_dom; eauto). rewrite Hdom in Hx. unfold owned in Hx.
  apply elem_of_list_to_set, list_elem_of_In in Hx as [<-|Hx]; [by exists [], es|]. apply list_elem_of_In, list_elem_of_fmap in Hx as (e & -> & Hin).
  apply list_elem_of_split in Hin as (A & B & ->). exists (A ++ [e]), B. rewrite <- app_assoc, node_at_snoc. split; [done|]. split; [done|].
  intros _ E. by destruct A.
Qed.

Lemma entry_not_header h z A e B : zsl_inv h z (A ++ e :: B) -> e_loc e <> header z.
Proof.
  intros Hinv E. pose proof (repr_nodup _ _ _ _ (ok_repr _ _ _ Hinv)) as Hnd. apply list.NoDup_cons in Hnd as [Hx _]. apply Hx.
  rewrite <- E, fmap_app. cbn. set_solver.
Qed.

Lemma zsl_well_typed h z es : zsl_ok h z es -> well_typed h z.
Proof.
  intros Hok. pose proof Hok as [Hinv Hdom]. pose proof (ok_repr _ _ _ Hinv) as Hr. split.
  - apply (repr_levels _ _ _ _ Hr).
  - destruct (repr_node _ _ _ _ Hr [] es eq_refl) as (n & Hn & Hl & _ & He). by exists n.
  - intros x n Hn Hx. destruct (owned_prefix h z es x n Hok Hn) as (pre & rest & -> & -> & Hpre).
    destruct (repr_node _ _ _ _ Hr pre rest eq_refl) as (n' & Hn' & Hl & _ & He). rewrite Hn in Hn'. injection Hn' as <-.
    destruct pre as [|e pre _] using rev_ind; [by destruct (Hpre Hx)|]. rewrite last_snoc in He. rewrite height_at_snoc in Hl. destruct He as [He Hs].
    pose proof (ok_numbers _ _ _ Hinv) as Hnum. pose proof (repr_heights _ _ _ _ Hr) as Hh. rewrite <- app_assoc in Hnum, Hh.
    apply Forall_app in Hnum as [_ Hnum]. apply Forall_app in Hh as [_ Hh]. apply Forall_cons_1 in Hnum as [Hnum _]. apply Forall_cons_1 in Hh as [Hh _].
    rewrite He, Hs, Hl. split; [by eexists|]. split; [exact Hnum|exact Hh].
  - intros x n i v y Hn Hv Hf. destruct (owned_prefix h z es x n Hok Hn) as (pre & rest & -> & -> & _).
    destruct (repr_node _ _ _ _ Hr pre rest eq_refl) as (n' & Hn' & _ & Hlv & _). rewrite Hn in Hn'. injection Hn' as <-.
    destruct (Hlv i v Hv) as [Hfw _]. rewrite Hfw in Hf. apply link_target in Hf as (S & e & T & -> & Hi & ->).
    rewrite app_assoc in Hinv, Hr. split; [by apply (entry_not_header h z (pre ++ S) e T)|].
    destruct (repr_node _ _ _ _ Hr ((pre ++ S) ++ [e]) T) as (m & Hm & Hl & _); [by rewrite <- !app_assoc|].
    rewrite node_at_snoc in Hm. rewrite height_at_snoc in Hl. exists m. split; [done|]. lia.
  - intros x n y Hn Hx Hb. destruct (owned_prefix h z es x n Hok Hn) as (pre & rest & -> & -> & Hpre).
    destruct pre as [|e pre _] using rev_ind; [by destruct (Hpre Hx)|]. rewrite node_at_snoc in *. rewrite <- app_assoc in Hr, Hinv.
    destruct (repr_back _ _ _ _ Hr pre e rest eq_refl) as (n' & Hn' & Hb'). rewrite Hn in Hn'. injection Hn' as <-. rewrite Hb' in Hb.
    destruct pre as [|e' pre _] using rev_ind; [done|]. rewrite last_snoc in Hb. injection Hb as <-.
    destruct (zsl_next_spec h _ _ _ _ Hr) as (v & Hv & Hf). rewrite node_at_snoc in Hv. rewrite <- app_assoc in Hinv.
    split; [by apply (entry_not_header h z pre e' ([e] ++ rest))|]. by exists v.
  - rewrite (ok_tail _ _ _ Hinv). destruct es as [|e es _] using rev_ind.
    + cbn. rewrite Hdom. unfold owned. cbn. set_solver.
    + rewrite last_snoc. cbn. split; [by apply (entry_not_header h z es e [])|].
      pose proof Hr as Hr'. rewrite <- (app_nil_r (es ++ [e])) in Hr'. destruct (zsl_next_spec h _ _ _ _ Hr') as (v & Hv & Hf). rewrite node_at_snoc in Hv. by exists v.
Qed.

(** ** The properties *)

(** C4. Sorted sets refine sorted lists: any sequence of operations on a new
    sorted set ([admissible]: at most 2^58 elements, the ends of score ranges are
    numbers, removal by rank below 2^32 elements, ranges of elements in a set of
    one score, offsets of ranges below 2^62, pops on a set that is not empty)
    returns, and its answers are those of the list of items sorted
    by score and element; the elements stay distinct, and the skip list and the
    dict hold the items of the list. *)
Theorem zset_refines_sorted junk_backward junk_level (ty : @dictType bytes) {Hty : DictTypeOk ty} ops :
  no_value ty = false -> admissible ops.*2 [] ->
  exists h zs es answers, after junk_backward junk_level ty ops = Ok (h, zs, answers) /\ zset_ok ty h zs es /\
    spec_run ops.*2 [] = (it <$> es, answers) /\ sorted (it <$> es) /\ NoDup (it <$> es).*2.
Proof.
  intros Hnv Hadm. destruct (after_simulates junk_backward junk_level ty Hnv ops Hadm) as (h & zs & es & answers & E & Hok & Hs).
  exists h, zs, es, answers. split; [exact E|]. split; [exact Hok|]. split; [exact Hs|]. destruct Hok as (Hz & _ & _ & Hnd).
  split; [apply (ok_sorted _ _ _ (proj1 Hz))|]. by rewrite items_ele.
Qed.

(** Keys compared by content, with a polynomial hash. *)
Definition strings : @dictType bytes := {|
  hashFunction k := u64 (foldr (fun b a => a * 33 + b) 5381 k);
  keyCompare a b := bool_decide (a = b);
  no_value := false;
  keys_are_odd := false;
  odd_key _ := false;
  resizeAllowed := None
|}.

#[export] Instance strings_ok : DictTypeOk strings.
Proof. split; [intros a b; apply bool_decide_eq_true|intros; by apply wrapu_range|done]. Qed.

(** A whole number as a double. *)
Definition whole (n : Z) : double := binary_normalize 53 1024 n 0 false.

Definition sample_draws : list Z := [0; 5; 1000000000].
Definition sample_add (n : Z) (c : Z) : dictResizeEnable * zop :=
  (DICT_RESIZE_ENABLE, ZAdd (whole n) [c] 0 (if n <? 3 then sample_draws else [2000000000])).
Definition upto_two : zrangespec := {| min := S754_infinity true; max := whole 2; minex := false; maxex := false |}.
Definition from_two : zrangespec := {| min := whole 2; max := S754_infinity false; minex := true; maxex := false |}.

(** Eight elements, two of them moved; reads; a range by score removed; the
    largest popped. *)
Definition sample : list (dictResizeEnable * zop) :=
  [sample_add 5 101; sample_add 1 97; sample_add 4 100; sample_add 2 98; sample_add 2 99; sample_add 9 120; sample_add 7 121; sample_add 8 122;
   sample_add 3 120; (DICT_RESIZE_AVOID, ZAdd (whole 3) [98] ZADD_IN_INCR sample_draws);
   (DICT_RESIZE_ENABLE, ZRank [100] true); (DICT_RESIZE_ENABLE, ZRangeByScore from_two 1 2 false);
   (DICT_RESIZE_ENABLE, ZRemRange (ZRANGE_SCORE upto_two)); (DICT_RESIZE_ENABLE, ZPop true (-1)); (DICT_RESIZE_ENABLE, ZDel [100])].

Example zset_sample_answers :
  exists h zs, after None (fun _ => {| forward := None; span := 0 |}) strings sample = Ok (h, zs, snd (spec_run sample.*2 [])) /\
    fst (spec_run sample.*2 []) = [(whole 3, [120]); (whole 5, [98]); (whole 5, [101]); (whole 7, [121])].
Proof. eexists _, _. split; vm_compute; reflexivity. Qed.

(** Conditions of operations on a concrete list. *)
Ltac check_draws := repeat first [apply Exists_cons_hd; vm_compute; congruence | apply Exists_cons_tl].
Ltac check_op := first
  [ exact I
  | split; [vm_compute; reflexivity | solve [check_draws]]
  | split; [vm_compute; congruence | vm_compute; congruence]
  | vm_compute; repeat split; congruence ].

Lemma sample_admissible : admissible sample.*2 [].
Proof. unfold sample. cbn [fmap list_fmap snd sample_add admissible]. repeat (split; [check_op|]). exact I. Qed.

Lemma zset_refines_sorted_witness :
  exists h zs es answers, after None (fun _ => {| forward := None; span := 0 |}) strings sample = Ok (h, zs, answers) /\ zset_ok strings h zs es /\
    spec_run sample.*2 [] = (it <$> es, answers) /\ sorted (it <$> es) /\ NoDup (it <$> es).*2.
Proof. apply (zset_refines_sorted _ _ strings); [reflexivity|exact sample_admissible]. Defined.

(** C19. Freeing is complete: after any sequence of operations, freeing the
    sorted set frees every node that was allocated exactly once, and nothing
    stays allocated. *)
Theorem zset_free_complete junk_backward junk_level (ty : @dictType bytes) {Hty : DictTypeOk ty} ops :
  no_value ty = false -> admissible ops.*2 [] ->
  exists h zs answers, after junk_backward junk_level ty ops = Ok (h, zs, answers) /\ freeZsetObject h zs = Ok ∅.
Proof.
  intros Hnv Hadm. destruct (after_simulates junk_backward junk_level ty Hnv ops Hadm) as (h & zs & es & answers & E & Hok & _).
  exists h, zs, answers. split; [exact E|]. by apply (freeZsetObject_empty ty h zs es).
Qed.

Lemma zset_free_complete_witness :
  exists h zs answers, after None (fun _ => {| forward := None; span := 0 |}) strings sample = Ok (h, zs, answers) /\ freeZsetObject h zs = Ok ∅.
Proof. apply (zset_free_complete _ _ strings); [reflexivity|exact sample_admissible]. Defined.

(** C20. Ranks and positions agree: after any sequence of operations, following
    the spans to a rank from 1 to the length finds a node, that node holds the
    item of the sorted list at that rank, and the rank of its item is the rank
    it was found at; ranks beyond the length find no node. *)
Theorem zsl_rank_roundtrip junk_backward junk_level (ty : @dictType bytes) {Hty : DictTypeOk ty} ops :
  no_value ty = false -> admissible ops.*2 [] ->
  exists h zs answers l, after junk_backward junk_level ty ops = Ok (h, zs, answers) /\ spec_run ops.*2 [] = (l, answers) /\
    forall r, 1 <= r < 2 ^ 64 ->
      if r <=? zlen l then
        exists x n e, zslGetElementByRank h (zsl zs) r = Ok (Some x) /\ node h x = Ok n /\ ele_of n = Ok e /\
          l !! Z.to_nat (r - 1) = Some (score n, e) /\ zslGetRank h (zsl zs) (score n) e = Ok r
      else zslGetElementByRank h (zsl zs) r = Ok None.
Proof.
  intros Hnv Hadm. destruct (after_simulates junk_backward junk_level ty Hnv ops Hadm) as (h & zs & es & answers & E & ([Hinv _] & _) & Hs).
  exists h, zs, answers, (it <$> es). split; [exact E|]. split; [exact Hs|]. intros r Hr. rewrite (zslGetElementByRank_spec h (zsl zs) es Hinv r Hr), zlen_fmap.
  destruct (Z.leb_spec r (zlen es)) as [Hle|Hgt]; unfold zlen in *; [|by rewrite lookup_ge_None_2 by lia].
  destruct (lookup_lt_is_Some_2 es (Z.to_nat (r - 1))) as [e He]; [lia|]. rewrite He, list_lookup_fmap, He.
  pose proof (take_drop_middle _ _ _ He) as Es. rewrite <- Es in Hinv.
  destruct (repr_entry h _ _ _ e _ (ok_repr _ _ _ Hinv)) as (n & En & [Hele Hsc]). exists (e_loc e), n, (e_ele e).
  split; [done|]. split; [exact En|]. unfold ele_of. rewrite Hele, Hsc. split; [done|]. split; [done|].
  rewrite (rank_of_entry h (zsl zs) _ e _ Hinv). unfold zlen. rewrite length_take. f_equal. lia.
Qed.

Lemma zsl_rank_roundtrip_witness :
  exists h zs answers l, after None (fun _ => {| forward := None; span := 0 |}) strings sample = Ok (h, zs, answers) /\ spec_run sample.*2 [] = (l, answers) /\
    forall r, 1 <= r < 2 ^ 64 ->
      if r <=? zlen l then
        exists x n e, zslGetElementByRank h (zsl zs) r = Ok (Some x) /\ node h x = Ok n /\ ele_of n = Ok e /\
          l !! Z.to_nat (r - 1) = Some (score n, e) /\ zslGetRank h (zsl zs) (score n) e = Ok r
      else zslGetElementByRank h (zsl zs) r = Ok None.
Proof. apply (zsl_rank_roundtrip _ _ strings); [reflexivity|exact sample_admissible]. Defined.

(** A negative offset counts from the end in this encoding: with [LIMIT -k]
    a forward range by score emits the last [k] items of the range. *)
Theorem zrangebyscore_negative_offset junk_backward junk_level (ty : @dictType bytes) {Hty : DictTypeOk ty} ops :
  no_value ty = false -> admissible ops.*2 [] ->
  exists h zs answers l, after junk_backward junk_level ty ops = Ok (h, zs, answers) /\ spec_run ops.*2 [] = (l, answers) /\
    forall range k, isnan (min range) = false -> isnan (max range) = false -> 1 <= k < 2 ^ 62 ->
      let found := List.filter (score_range range) l in
      genericZrangebyscoreCommand h zs range (- k) (-1) false = Ok (if k <=? zlen found then drop (length found - Z.to_nat k) found else []).
Proof.
  intros Hnv Hadm. destruct (after_simulates junk_backward junk_level ty Hnv ops Hadm) as (h & zs & es & answers & E & Hok & Hs).
  exists h, zs, answers, (it <$> es). split; [exact E|]. split; [exact Hs|]. intros range k Hmin Hmax Hk found.
  rewrite (zrangebyscore_spec ty h zs es range (- k) (-1) false Hok Hmin Hmax) by lia. fold found. unfold paged, limited. cbn iota. f_equal.
  change (-1 <? 0) with true. cbn iota. destruct (Z.leb_spec 0 (- k)); [lia|]. pose proof (zlen_nonneg found).
  destruct (Z.leb_spec k (zlen found)).
  - rewrite (proj2 (Z.ltb_ge _ _)), (proj2 (Z.leb_gt _ _)) by lia. cbn [orb]. f_equal. unfold zlen in *. lia.
  - by rewrite (proj2 (Z.ltb_lt _ _)) by lia.
Qed.

Lemma zrangebyscore_negative_offset_witness :
  exists h zs answers l, after None (fun _ => {| forward := None; span := 0 |}) strings sample = Ok (h, zs, answers) /\ spec_run sample.*2 [] = (l, answers) /\
    genericZrangebyscoreCommand h zs from_two (-1) (-1) false = Ok [(whole 7, [121])].
Proof.
  destruct (zrangebyscore_negative_offset None (fun _ => {| forward := None; span := 0 |}) strings sample eq_refl sample_admissible) as (h & zs & answers & l & E & Hs & H).
  exists h, zs, answers, l. split; [exact E|]. split; [exact Hs|]. specialize (H from_two 1 eq_refl eq_refl ltac:(lia)).
  cbn zeta in H. change (- (1)) with (-1) in H. rewrite H. assert (l = fst (spec_run sample.*2 [])) as -> by by rewrite Hs. vm_compute. reflexivity.
Defined.

(** C18. The nodes of a skip list stay well typed under every sequence of
    operations: a node has between 1 and as many levels as are in use, a forward
    pointer of level [i] leads to a node that has level [i], backward pointers
    invert forward pointers, no score is NaN, and the header is never reached. *)
Theorem zset_well_typed junk_backward junk_level (ty : @dictType bytes) {Hty : DictTypeOk ty} ops :
  no_value ty = false -> admissible ops.*2 [] ->
  exists h zs answers, after junk_backward junk_level ty ops = Ok (h, zs, answers) /\ well_typed h (zsl zs).
Proof.
  intros Hnv Hadm. destruct (after_simulates junk_backward junk_level ty Hnv ops Hadm) as (h & zs & es & answers & E & (Hz & _) & _).
  exists h, zs, answers. split; [exact E|]. by apply (zsl_well_typed h (zsl zs) es).
Qed.

Lemma zset_well_typed_witness :
  exists h zs answers, after None (fun _ => {| forward := None; span := 0 |}) strings sample = Ok (h, zs, answers) /\ well_typed h (zsl zs).
Proof. apply (zset_well_typed _ _ strings); [reflexivity|exact sample_admissible]. Defined.

End ZsetSpec.
