(* ===== verification/Convert.v ===== *)
(** * Conversions to the general encodings (t_set.c, t_zset.c, t_hash.c).

    A set, sorted set or hash that has outgrown the compact encoding, an
    integer set or a listpack, is converted to a dict or to a dict with a skip
    list: [setTypeConvertAndExpand], [zsetConvertAndExpand] and
    [hashTypeConvertListpack], for the target encodings that loading a value
    asks for.  Each walks the compact encoding with the iterators of its type
    and adds what it reads; an element that is there already, an odd number of
    entries and a score that is not a number are failed assertions.

    What is not in the repository is in [runtime]: the siphash of a key under
    the seed of the process, [strtod] of the C library, the numbers [random]
    draws, the resize policy of the moment and what fresh memory holds. *)

From Stdlib Require Import SpecFloat.
From S2P Require Import Prelude Util Intset ListpackEnc Listpack Rdb Dict Zskiplist Zset.
From stdpp Require Import gmap fin_maps.
#[local] Open Scope Z_scope.

Module Convert.
Import Dict Zskiplist Zset.

Record runtime : Type := {
  siphash : bytes -> Z;
  dict_can_resize : dictResizeEnable;
  strtod : bytes -> double;
  random_draws : nat -> list Z;
  junk_backward : option loc;
  junk_level : nat -> zskiplistLevel
}.

Section convert.
Context `{Allocator} (rt : runtime).

(** ** The dict types *)

(** An sds is at an odd address, which marks an entry that is only a key. *)
Definition setDictType : @dictType bytes := {|
  hashFunction := siphash rt;
  keyCompare a b := bool_decide (a = b);
  no_value := true;
  keys_are_odd := true;
  odd_key _ := true;
  resizeAllowed := None
|}.

Definition zsetDictType : @dictType bytes := {|
  hashFunction := siphash rt;
  keyCompare a b := bool_decide (a = b);
  no_value := false;
  keys_are_odd := false;
  odd_key _ := true;
  resizeAllowed := None
|}.

(** Hash fields are stored as [mstr] and looked up as sds; their hash and
    comparison are those of the bytes. *)
Definition mstrHashDictType : @dictType bytes := {|
  hashFunction := siphash rt;
  keyCompare a b := bool_decide (a = b);
  no_value := false;
  keys_are_odd := false;
  odd_key _ := true;
  resizeAllowed := None
|}.

(** ** Values of a listpack *)

(** [lpGetValue] and the string that [sdsnewlen], [sdsfromlonglong] or
    [hfieldNew] makes of it. *)
Definition value_text (lp : bytes) (p : Z) : res bytes :=
  v ← LP.lpGetValue lp p;
  match v with
  | inl (vstr, vlen) => rdn lp vstr vlen
  | inr vlong => Rdb.int_text vlong
  end.

(** The copy of at most 127 bytes and its terminator, read by [strtod]. *)
Definition zzlStrtod (lp : bytes) (vstr vlen : Z) : res double :=
  let vlen := if 127 <? vlen then 127 else vlen in
  b ← rdn lp vstr vlen;
  Ok (strtod rt (b ++ [0])).

(** [(double)vlong] *)
Definition double_of_longlong (v : Z) : double := binary_normalize 53 1024 v 0 false.

Definition zzlGetScore (lp : bytes) (sptr : option Z) : res double :=
  match sptr with
  | None => Fault AssertFailed
  | Some sptr =>
    v ← LP.lpGetValue lp sptr;
    match v with
    | inl (vstr, vlen) => zzlStrtod lp vstr vlen
    | inr vlong => Ok (double_of_longlong vlong)
    end
  end.

(** ** Sets *)

(** [serverAssert(dictAdd(d,element,NULL) == DICT_OK)] *)
Definition set_add (d : @dict bytes unit) (element : bytes) : res (@dict bytes unit) :=
  r ← dictAdd setDictType (dict_can_resize rt) d element tt;
  _ ← cassert (snd r);
  Ok (fst r).

(** The loop over [setTypeNextObject], from the listpack entry or the index
    the iterator moves to. *)
Fixpoint set_from_listpack (fuel : nat) (lp : bytes) (lpi : option Z) (d : @dict bytes unit) : res (@dict bytes unit) :=
  match lpi with
  | None => Ok d
  | Some p =>
    match fuel with
    | O => Fault OutOfFuel
    | S fuel =>
      element ← value_text lp p;
      d ← set_add d element;
      lpi ← Listpack.lpNext lp p;
      set_from_listpack fuel lp lpi d
    end
  end.

Fixpoint set_from_intset (fuel : nat) (is_ : Intset.intset) (ii : Z) (d : @dict bytes unit) : res (@dict bytes unit) :=
  v ← Intset.intsetGet is_ ii;
  match v with
  | None => Ok d
  | Some llele =>
    match fuel with
    | O => Fault OutOfFuel
    | S fuel =>
      element ← Rdb.int_text llele;
      d ← set_add d element;
      set_from_intset fuel is_ (u32 (ii + 1)) d
    end
  end.

(** [setTypeConvertAndExpand(setobj, OBJ_ENCODING_HT, cap, 1)] *)
Definition setTypeConvertListpack (lp : bytes) (cap : Z) : res (@dict bytes unit) :=
  r ← dictExpand dictCreate cap;
  lpi ← Listpack.lpFirst lp;
  set_from_listpack (S (length lp)) lp lpi (fst r).

Definition setTypeConvertIntset (is_ : Intset.intset) (cap : Z) : res (@dict bytes unit) :=
  r ← dictExpand dictCreate cap;
  set_from_intset (S (Z.to_nat (Intset.length_ is_))) is_ 0 (fst r).

(** ** Hashes *)

(** The loop over [hashTypeNext] of a listpack, from the field [fptr] it moves
    to; a field that is in the dict already is a panic. *)
Fixpoint hash_from_listpack (fuel : nat) (lp : bytes) (fptr : option Z) (d : @dict bytes bytes) : res (@dict bytes bytes) :=
  match fptr with
  | None => Ok d
  | Some f =>
    match fuel with
    | O => Fault OutOfFuel
    | S fuel =>
      vptr ← Listpack.lpNext lp f;
      match vptr with
      | None => Fault AssertFailed
      | Some v =>
        key ← value_text lp f;
        value ← value_text lp v;
        r ← dictAdd mstrHashDictType (dict_can_resize rt) d key value;
        _ ← cassert (snd r);
        fptr ← Listpack.lpNext lp v;
        hash_from_listpack fuel lp fptr (fst r)
      end
    end
  end.

Definition hashTypeConvertListpack (lp : bytes) (len : Z) : res (@dict bytes bytes) :=
  r ← dictExpand dictCreate len;
  fptr ← Listpack.lpFirst lp;
  hash_from_listpack (S (length lp)) lp fptr (fst r).

(** ** Sorted sets *)

(** The score entry of the element entry [eptr], which must be there. *)
Definition score_entry (lp : bytes) (eptr : option Z) : res (option Z) :=
  match eptr with
  | None => Ok None
  | Some e =>
    sptr ← Listpack.lpNext lp e;
    _ ← cassert (match sptr with Some _ => true | None => false end);
    Ok sptr
  end.

Definition zzlNext (lp : bytes) (eptr sptr : option Z) : res (option Z * option Z) :=
  match eptr, sptr with
  | Some _, Some s =>
    _eptr ← Listpack.lpNext lp s;
    _sptr ← score_entry lp _eptr;
    Ok (_eptr, _sptr)
  | _, _ => Fault AssertFailed
  end.

(** [while (eptr != NULL)]; [i] is the number of insertions so far. *)
Fixpoint zset_from_listpack (fuel : nat) (lp : bytes) (eptr sptr : option Z) (i : nat) (h : heap) (zs : zset) : res (heap * zset) :=
  match eptr with
  | None => Ok (h, zs)
  | Some e =>
    match fuel with
    | O => Fault OutOfFuel
    | S fuel =>
      score ← zzlGetScore lp sptr;
      ele ← value_text lp e;
      '(h, z, x) ← zslInsert (junk_backward rt) (junk_level rt) h (zsl zs) score ele (random_draws rt i);
      r ← dictAdd zsetDictType (dict_can_resize rt) (zdict zs) ele x;
      _ ← cassert (snd r);
      n ← zzlNext lp eptr sptr;
      zset_from_listpack fuel lp (fst n) (snd n) (S i) h {| zdict := fst r; zsl := z |}
    end
  end.

(** [zsetConvertAndExpand(zobj, OBJ_ENCODING_SKIPLIST, cap)] *)
Definition zsetConvertListpack (lp : bytes) (cap : Z) : res (heap * zset) :=
  c ← createZsetObject (junk_backward rt) (junk_level rt);
  r ← dictExpand (zdict (snd c)) cap;
  eptr ← Listpack.lpSeek lp 0;
  sptr ← score_entry lp eptr;
  zset_from_listpack (S (length lp)) lp eptr sptr 0 (fst c) (set_dict (snd c) (fst r)).

End convert.

End Convert.
