(* ===== verification/ConvertSpec.v ===== *)
(** * What the conversions promise.

    On a listpack whose entries can be walked ([holds]), with distinct texts
    where the type asks for them, the conversions end and give a dict, or a
    dict and a skip list, with exactly the elements of the listpack; the
    conversion of a sorted set fails an assertion exactly when a score is not a
    number. *)

From Stdlib Require Import SpecFloat.
From S2P Require Import Prelude Util Intset ListpackEnc Listpack ListpackTheory Rdb RdbSpec Dict DictTheory DictSpec Zskiplist ZskiplistOrder ZskiplistTheory Zset ZsetTheory ZsetSpec Convert.
From stdpp Require Import list gmap fin_maps.
#[local] Open Scope Z_scope.

Module ConvertSpec.
Import Dict DictTheory DictSpec Zskiplist ZskiplistOrder ZskiplistTheory Zset ZsetTheory Convert.

(** What the parameters must satisfy: hashes are 64 bit numbers, and the
    numbers drawn end the loop of [zslRandomLevel]. *)
Definition runtime_ok (rt : runtime) : Prop :=
  (forall k, 0 <= siphash rt k < 2 ^ 64) /\ (forall i, Exists (fun x => threshold <= x) (random_draws rt i)).

(** ** Adding to a dict *)

Lemma add_new {V} (ty : @dictType bytes) {Hty : DictTypeOk ty} can (d : @dict bytes V) k v :
  ready ty d -> zlen (contents d) < max_entries -> dict_map d !! k = None ->
  exists d', dictAdd ty can d k v = Ok (d', true) /\ ready ty d' /\ dict_map d' = <[k := stored ty v]> (dict_map d) /\
    zlen (contents d') = zlen (contents d) + 1.
Proof.
  intros Hr Hroom Hn. pose proof Hr as (Hok & _ & Hpa).
  destruct (dictAdd_spec ty can d k v Hok ltac:(left; lia) Hroom) as (d' & r & E & Hok' & Hf & _ & Hres). destruct r.
  - exists d'. split; [done|]. split; [by eapply ready_flags|]. destruct Hres as [_ Hp].
    split; [by rewrite (map_cons ty d' _ _ _ Hok' Hp)|]. rewrite (zlen_perm _ _ Hp), zlen_cons. lia.
  - destruct Hres as [Hin _]. apply map_present in Hin. rewrite Hn in Hin. by destruct Hin.
Qed.

(** A dict made for [cap] elements. *)
Lemma expand_new {V} (ty : @dictType bytes) cap : 0 <= cap <= 2 ^ 60 ->
  exists (d : @dict bytes V) ok, dictExpand dictCreate cap = Ok (d, ok) /\ ready ty d /\ dict_map d = ∅ /\ contents d = [].
Proof.
  intros Hc. pose proof (ready_create (V := V) ty) as Hr. destruct (expand_any ty (@dictCreate bytes V) cap (proj1 Hr) Hc) as (d & ok & E & Hk).
  exists d, ok. split; [done|]. pose proof Hk as (Hp & Hf & _). split; [eapply ready_flags; [done|by eapply keeps_ok; [apply Hr|]|done]|].
  change (contents dictCreate) with (@nil (bytes * option V)) in Hp. symmetry in Hp. apply Permutation_nil in Hp. unfold dict_map. by rewrite Hp.
Qed.

(** Maps built by adding elements in order. *)
Lemma union_insert {V} (k : bytes) (v : V) (l : list (bytes * V)) (m : gmap bytes V) :
  k ∉ l.*1 -> list_to_map l ∪ <[k := v]> m = list_to_map ((k, v) :: l) ∪ m.
Proof. intros Hk. cbn [list_to_map foldr]. rewrite <- insert_union_l, insert_union_r; [done|]. by apply not_elem_of_list_to_map_1. Qed.

(** ** Walking a listpack *)

(** The entry at [p] holds [e]. *)
Definition value_at (lp : bytes) (p : Z) (e : LP.elem) : Prop :=
  exists v, LP.lpGetValue lp p = Ok v /\
  match v, e with
  | inl (q, n), LP.EStr s => rdn lp q n = Ok s /\ n = zlen s
  | inr z, LP.EInt z' => z' = z /\ is_i64 z
  | _, _ => False
  end.

(** From the entries [ps] on, [lpNext] leads through entries that hold [es]. *)
Fixpoint trail (lp : bytes) (ps : list Z) (es : list LP.elem) : Prop :=
  match ps, es with
  | [], [] => True
  | p :: ps, e :: es => value_at lp p e /\ Listpack.lpNext lp p = Ok (list.head ps) /\ trail lp ps es
  | _, _ => False
  end.

Definition holds (lp : bytes) (ps : list Z) (es : list LP.elem) : Prop :=
  Listpack.lpFirst lp = Ok (list.head ps) /\ trail lp ps es /\ (length ps <= length lp)%nat /\
  exists num, Listpack.lpGetNumElements lp = Ok num /\ (num = zlen ps \/ num = LP.LP_HDR_NUMELE_UNKNOWN).

Lemma trail_length lp ps : forall es, trail lp ps es -> length es = length ps.
Proof. induction ps as [|p ps IH]; intros [|e es] Ht; try done. cbn. f_equal. by apply IH, Ht. Qed.

(** The positions of the elements [r] that [l] precedes. *)
Fixpoint positions (l r : list LP.elem) : list Z :=
  match r with [] => [] | e :: r => ListpackTheory.pos l :: positions (l ++ [e]) r end.

Lemma positions_head l r : list.head (positions l r) = match r with [] => None | _ => Some (ListpackTheory.pos l) end.
Proof. by destruct r. Qed.

Lemma positions_length r : forall l, length (positions l r) = length r.
Proof. induction r as [|e r IH]; intros l; [done|]. cbn. by rewrite IH. Qed.

Lemma value_at_repr lp l e r : ListpackTheory.repr lp (l ++ e :: r) -> value_at lp (ListpackTheory.pos l) e.
Proof.
  intros (num & slack & -> & Hn & Hok & Ht). assert (LP.elem_ok e) as He by (apply Forall_app in Hok as [_ Hok]; by inversion Hok).
  rewrite ListpackTheory.lpenc_cursor, <- (ListpackTheory.zlen_before (ListpackTheory.total (l ++ e :: r)) num l).
  unfold value_at, LP.lpGetValue, LP.lpGet, LP.entry. rewrite <- app_assoc. destruct e as [z|s].
  - rewrite LP.get_int_spec by done. cbn [mbind res_bind fst]. by exists (inr z).
  - edestruct (LP.get_str_spec s) as (hh & es & Hd & -> & _); [done|]. cbn [mbind res_bind fst]. eexists. split; [done|]. destruct He as [_ He].
    assert (u32 (zlen s) = zlen s) as -> by (pose proof (zlen_nonneg s); apply wrapu_small; lia). split; [|done].
    rewrite Hd, <- app_assoc, (app_assoc (ListpackTheory.before _ _ _)). apply rdn_app.
Qed.

Lemma trail_repr lp r : forall l, ListpackTheory.repr lp (l ++ r) -> trail lp (positions l r) r.
Proof.
  induction r as [|e r IH]; intros l Hr; [done|]. cbn [positions trail]. split; [by eapply value_at_repr|]. split.
  - rewrite positions_head. destruct Hr as (num & slack & -> & _ & Hok & Ht). by apply ListpackTheory.next_spec.
  - apply IH. by rewrite snoc_app.
Qed.

Lemma holds_repr lp es : ListpackTheory.repr lp es -> holds lp (positions [] es) es.
Proof.
  intros Hr. split; [rewrite positions_head; destruct Hr as (num & slack & -> & _ & Hok & Ht); by apply ListpackTheory.first_spec|].
  split; [by apply trail_repr|]. unfold zlen. rewrite positions_length. destruct Hr as (num & slack & -> & Hn & Hok & Ht).
  pose proof (ListpackTheory.length_lpenc num es slack Hok). split; [lia|]. exists num.
  split; [by apply ListpackTheory.num_spec|]. destruct Hn as [[-> _]|?]; [by left|by right].
Qed.

Lemma int_text_ok `{Allocator} v : is_i64 v -> Rdb.int_text v = Ok (Util.decimal v).
Proof. apply RdbSpec.int_text_spec. Qed.

Lemma decimal_inj x y : is_i64 x -> is_i64 y -> Util.decimal x = Util.decimal y -> x = y.
Proof.
  intros Hx Hy E. destruct (Util.string2ll_spec (Util.decimal x) []) as (o & _ & Hs).
  pose proof (proj2 (Hs x) (conj Hx eq_refl)) as H1. pose proof (proj2 (Hs y) (conj Hy E)) as H2. congruence.
Qed.

Lemma value_text_at `{Allocator} lp p e : value_at lp p e -> value_text lp p = Ok (LP.text e).
Proof.
  intros (v & Hv & Hm). unfold value_text. rewrite Hv. cbn [mbind res_bind]. destruct v as [[q n]|z], e as [z'|s]; try done.
  - apply Hm.
  - destruct Hm as [-> Hz]. by apply int_text_ok.
Qed.

(** The score an entry stands for. *)
Definition score_of (rt : runtime) (e : LP.elem) : double :=
  match e with
  | LP.EInt v => double_of_longlong v
  | LP.EStr s => strtod rt (take 127 s ++ [0])
  end.

Lemma zzlGetScore_at rt lp p e : value_at lp p e -> zzlGetScore rt lp (Some p) = Ok (score_of rt e).
Proof.
  intros (v & Hv & Hm). unfold zzlGetScore. rewrite Hv. cbn [mbind res_bind]. destruct v as [[q n]|z], e as [z'|s]; try done.
  - destruct Hm as [Hr ->]. unfold zzlStrtod, score_of. unfold rdn in Hr |- *. pose proof (zlen_nonneg s).
    destruct ((0 <=? q) && (0 <=? zlen s) && (q + zlen s <=? zlen lp)) eqn:E; [|done]. injection Hr as Hr.
    apply andb_true_iff in E as [[Hq%Z.leb_le _]%andb_true_iff Hl%Z.leb_le].
    destruct (Z.ltb_spec 127 (zlen s)); rewrite !(proj2 (Z.leb_le _ _)) by lia; cbn [andb mbind res_bind]; do 3 f_equal.
    + rewrite <- Hr, take_take. f_equal. unfold zlen in *. lia.
    + rewrite Hr. symmetry. apply take_ge. unfold zlen in *. lia.
  - by destruct Hm as [-> _].
Qed.

Lemma lpSeek_first lp ps es : holds lp ps es -> Listpack.lpSeek lp 0 = Ok (list.head ps).
Proof.
  intros (Hf & _ & Hl & num & Hn & Hcase). unfold Listpack.lpSeek. rewrite Hn. cbn [mbind res_bind].
  assert (Listpack.lpSeek_scan lp true 0 = Ok (list.head ps)) as Hs.
  { unfold Listpack.lpSeek_scan. rewrite Hf. cbn [mbind res_bind Listpack.lpSeek_forward]. by destruct (list.head ps). }
  destruct (Z.eqb_spec num LP.LP_HDR_NUMELE_UNKNOWN); cbn [negb]; [exact Hs|]. destruct Hcase as [->|?]; [|done].
  change (0 <? 0) with false. cbn iota. destruct ps as [|p ps]; [done|]. rewrite zlen_cons. pose proof (zlen_nonneg ps).
  rewrite (proj2 (Z.leb_gt _ 0)) by lia. pose proof (Z.div_pos (1 + zlen ps) 2 ltac:(lia) ltac:(lia)).
  rewrite (proj2 (Z.ltb_ge ((1 + zlen ps) / 2) 0)) by lia. exact Hs.
Qed.

(** ** Sets *)

Section conversions.
Context `{Allocator} (rt : runtime) (Hrt : runtime_ok rt).

#[local] Instance set_type_ok : DictTypeOk (setDictType rt).
Proof using Hrt. split; [intros a b; apply bool_decide_eq_true|apply Hrt|done]. Qed.

#[local] Instance zset_type_ok : DictTypeOk (zsetDictType rt).
Proof using Hrt. split; [intros a b; apply bool_decide_eq_true|apply Hrt|done]. Qed.

#[local] Instance hash_type_ok : DictTypeOk (mstrHashDictType rt).
Proof using Hrt. split; [intros a b; apply bool_decide_eq_true|apply Hrt|done]. Qed.

(** The map of a set: its members, without values. *)
Definition members (ts : list bytes) : gmap bytes (option unit) := list_to_map ((fun t => (t, None)) <$> ts).

Lemma members_keys (ts : list bytes) : ((fun t => (t, @None unit)) <$> ts).*1 = ts.
Proof. rewrite <- list_fmap_compose. apply list_fmap_id. Qed.

(** Fresh texts [ts] are added to [d] and give [d']. *)
Definition adds (d d' : @dict bytes unit) (ts : list bytes) : Prop :=
  ready (setDictType rt) d' /\ dict_map d' = members ts ∪ dict_map d.

Lemma set_add_new (d : @dict bytes unit) t ts :
  ready (setDictType rt) d -> NoDup (t :: ts) -> (forall x, x ∈ t :: ts -> dict_map d !! x = None) ->
  zlen (contents d) + zlen (t :: ts) <= max_entries ->
  exists d1, set_add rt d t = Ok d1 /\ ready (setDictType rt) d1 /\ (forall x, x ∈ ts -> dict_map d1 !! x = None) /\
    zlen (contents d1) + zlen ts <= max_entries /\ (forall d', adds d1 d' ts -> adds d d' (t :: ts)).
Proof using Hrt.
  intros Hr [Hn Hnd]%list.NoDup_cons Hfresh Hroom. rewrite zlen_cons in Hroom. pose proof (zlen_nonneg ts).
  destruct (add_new (setDictType rt) (dict_can_resize rt) d t tt Hr ltac:(lia) (Hfresh t ltac:(by left))) as (d1 & E & Hr1 & Hm & Hl).
  exists d1. unfold set_add. rewrite E. split; [done|]. split; [done|]. unfold stored in Hm. cbn [no_value setDictType] in Hm. split; [|split; [lia|]].
  - intros x Hx. rewrite Hm, lookup_insert_ne by (by intros <-). apply Hfresh. by right.
  - intros d' [Hr' Hm']. split; [done|]. rewrite Hm', Hm. unfold members. rewrite union_insert; [done|]. by rewrite members_keys.
Qed.

Lemma adds_nil (d : @dict bytes unit) : ready (setDictType rt) d -> adds d d [].
Proof. intros Hr. split; [done|]. unfold members. cbn. by rewrite (left_id_L ∅ (∪)). Qed.

Lemma set_loop lp es : forall fuel ps (d : @dict bytes unit),
  trail lp ps es -> (length ps <= fuel)%nat -> ready (setDictType rt) d -> NoDup (LP.text <$> es) ->
  (forall x, x ∈ LP.text <$> es -> dict_map d !! x = None) -> zlen (contents d) + zlen es <= max_entries ->
  exists d', set_from_listpack rt fuel lp (list.head ps) d = Ok d' /\ adds d d' (LP.text <$> es).
Proof using Hrt.
  induction es as [|e es IH]; intros fuel [|p ps] d Ht Hf Hr Hnd Hfresh Hroom; try done.
  { exists d. split; [by destruct fuel|by apply adds_nil]. }
  destruct fuel as [|fuel]; [cbn in Hf; lia|]. destruct Ht as (Hv & Hnext & Ht). cbn [list.head set_from_listpack].
  rewrite (value_text_at lp p e Hv). cbn [mbind res_bind].
  destruct (set_add_new d (LP.text e) (fmap (M := list) LP.text es) Hr Hnd Hfresh) as (d1 & -> & Hr1 & Hf1 & Hroom1 & Hadds).
  { rewrite zlen_cons in Hroom. rewrite zlen_cons, zlen_fmap. lia. }
  cbn [mbind res_bind]. rewrite Hnext. cbn [mbind res_bind]. rewrite zlen_fmap in Hroom1. cbn in Hf.
  destruct (IH fuel ps d1 Ht ltac:(lia) Hr1) as (d' & -> & Ha); [by apply list.NoDup_cons in Hnd as [_ ?]|done|done|]. exists d'. split; [done|]. by apply Hadds.
Qed.

(** A set in a listpack becomes the dict of its members. *)
Lemma convert_set_listpack lp ps es cap : holds lp ps es -> NoDup (LP.text <$> es) -> 0 <= cap <= 2 ^ 60 -> zlen es <= max_entries ->
  exists d, setTypeConvertListpack rt lp cap = Ok d /\ ready (setDictType rt) d /\ dict_map d = members (LP.text <$> es).
Proof using Hrt.
  intros (Hf & Ht & Hl & _) Hnd Hcap Hz. unfold setTypeConvertListpack.
  destruct (expand_new (V := unit) (setDictType rt) cap Hcap) as (d & ok & -> & Hr & Hm & Hc). cbn [mbind res_bind fst]. rewrite Hf. cbn [mbind res_bind].
  destruct (set_loop lp es (S (length lp)) ps d Ht ltac:(lia) Hr Hnd) as (d' & -> & Hr' & Hm'); [by intros; rewrite Hm|rewrite Hc; done|].
  exists d'. split; [done|]. split; [done|]. by rewrite Hm', Hm, (right_id_L ∅ (∪)).
Qed.

Lemma set_intset_loop is_ vs r : forall fuel l (d : @dict bytes unit),
  Intset.stores is_ vs -> vs = l ++ r -> zlen vs < 2 ^ 31 -> (length r <= fuel)%nat -> Forall is_i64 vs -> ready (setDictType rt) d ->
  NoDup (Util.decimal <$> r) -> (forall x, x ∈ Util.decimal <$> r -> dict_map d !! x = None) -> zlen (contents d) + zlen r <= max_entries ->
  exists d', set_from_intset rt fuel is_ (zlen l) d = Ok d' /\ adds d d' (Util.decimal <$> r).
Proof using Hrt.
  induction r as [|v r IH]; intros fuel l d Hst Hvs Hlen Hf Hi Hr Hnd Hfresh Hroom.
  - rewrite app_nil_r in Hvs. subst l. exists d. split; [|by apply adds_nil].
    assert (Intset.intsetGet is_ (zlen vs) = Ok None) as Hg.
    { unfold Intset.intsetGet. pose proof Hst as (_ & -> & _). by rewrite (proj2 (Z.ltb_ge _ _)) by lia. }
    by destruct fuel; cbn [set_from_intset]; rewrite Hg.
  - destruct fuel as [|fuel]; [cbn in Hf; lia|]. cbn [set_from_intset].
    assert (is_i64 v) as Hv by (subst vs; apply Forall_app in Hi as [_ Hi]; by apply Forall_cons_1 in Hi as [? _]).
    pose proof (zlen_nonneg l). pose proof (zlen_nonneg r). assert (zlen vs = zlen l + 1 + zlen r) as Hz by (subst vs; rewrite zlen_app, zlen_cons; lia).
    assert (Intset.intsetGet is_ (zlen l) = Ok (Some v)) as ->.
    { unfold Intset.intsetGet. pose proof Hst as (_ & -> & _). rewrite (proj2 (Z.ltb_lt _ _)) by lia.
      rewrite wraps_small by lia. pose proof (Intset.get_stores is_ vs (length l) v Hst) as Hg. change (Z.of_nat (length l)) with (zlen l) in Hg.
      rewrite Hg; [done|]. subst vs. by apply list_lookup_middle. }
    cbn [mbind res_bind]. rewrite int_text_ok by done. cbn [mbind res_bind].
    destruct (set_add_new d (Util.decimal v) (fmap (M := list) Util.decimal r) Hr Hnd Hfresh) as (d1 & -> & Hr1 & Hf1 & Hroom1 & Hadds); [rewrite zlen_cons in Hroom; rewrite zlen_cons, zlen_fmap; lia|].
    cbn [mbind res_bind]. rewrite wrapu_small by lia. rewrite zlen_fmap in Hroom1. cbn in Hf.
    destruct (IH fuel (l ++ [v]) d1 Hst ltac:(by rewrite snoc_app) Hlen ltac:(lia) Hi Hr1) as (d' & Hd' & Ha); [by apply list.NoDup_cons in Hnd as [_ ?]|done|done|].
    rewrite zlen_app in Hd'. change (zlen [v]) with 1 in Hd'. rewrite Hd'. exists d'. split; [done|]. by apply Hadds.
Qed.

Lemma convert_set_intset is_ vs cap : Intset.stores is_ vs -> zlen vs < 2 ^ 31 -> Forall is_i64 vs -> NoDup vs -> 0 <= cap <= 2 ^ 60 ->
  exists d, setTypeConvertIntset rt is_ cap = Ok d /\ ready (setDictType rt) d /\ dict_map d = members (Util.decimal <$> vs).
Proof using Hrt.
  intros Hst Hlen Hi Hnd Hcap. unfold setTypeConvertIntset.
  destruct (expand_new (V := unit) (setDictType rt) cap Hcap) as (d & ok & -> & Hr & Hm & Hc). cbn [mbind res_bind fst].
  assert (NoDup (Util.decimal <$> vs)) as Hndd.
  { apply NoDup_fmap_2_strong; [|done]. rewrite list.Forall_forall in Hi. intros x y Hx Hy. apply decimal_inj; auto. }
  pose proof Hst as (_ & Hl & _).
  destruct (set_intset_loop is_ vs vs (S (Z.to_nat (Intset.length_ is_))) [] d Hst eq_refl Hlen) as (d' & Hd & Hr' & Hm'); try done.
  - rewrite Hl. unfold zlen. lia.
  - by intros; rewrite Hm.
  - rewrite Hc. change (zlen []) with 0. unfold max_entries. lia.
  - change (zlen []) with 0 in Hd. rewrite Hd. exists d'. split; [done|]. split; [done|]. by rewrite Hm', Hm, (right_id_L ∅ (∪)).
Qed.

End conversions.

(** ** Pairs of entries *)

(** A list of pairs as the entries of a listpack. *)
Definition flat {A} (prs : list (A * A)) : list A := concat ((fun x => [x.1; x.2]) <$> prs).

Lemma flat_cons {A} (x : A * A) prs : flat (x :: prs) = x.1 :: x.2 :: flat prs.
Proof. done. Qed.

Lemma flat_length {A} (prs : list (A * A)) : zlen (flat prs) = 2 * zlen prs.
Proof. induction prs as [|x prs IH]; [done|]. rewrite flat_cons, !zlen_cons, IH. lia. Qed.

Lemma flat_fmap {A B} (f : A -> B) prs : f <$> flat prs = flat ((fun x => (f x.1, f x.2)) <$> prs).
Proof. induction prs as [|x prs IH]; [done|]. cbn [fmap list_fmap]. rewrite !flat_cons. cbn. by rewrite IH. Qed.

Lemma even_flat {A} n : forall l : list A, (length l <= n)%nat -> zlen l mod 2 = 0 -> exists prs, l = flat prs.
Proof.
  induction n as [|n IH]; intros [|a [|b l]] Hn Hm; try (cbn in Hn; lia); [by exists []|by exists []|done|].
  destruct (IH l) as (prs & ->); [cbn in Hn; lia| |by exists ((a, b) :: prs)].
  rewrite !zlen_cons in Hm. replace (1 + (1 + zlen l)) with (zlen l + 1 * 2) in Hm by lia. by rewrite Z.mod_add in Hm by lia.
Qed.

Section pairs.
Context `{Allocator} (rt : runtime) (Hrt : runtime_ok rt).

#[local] Instance zset_dict_ok : DictTypeOk (zsetDictType rt) := zset_type_ok rt Hrt.
#[local] Instance hash_dict_ok : DictTypeOk (mstrHashDictType rt) := hash_type_ok rt Hrt.

(** ** Hashes *)

(** The map of a hash from the texts of its fields to those of its values. *)
Definition fields_of (prs : list (LP.elem * LP.elem)) : list (bytes * option bytes) := (fun x => (LP.text x.1, Some (LP.text x.2))) <$> prs.

Lemma fields_keys prs : (fields_of prs).*1 = LP.text <$> prs.*1.
Proof. unfold fields_of. by rewrite <- !list_fmap_compose. Qed.

Lemma hash_loop lp prs : forall fuel ps (d : @dict bytes bytes),
  trail lp ps (flat prs) -> (length ps <= fuel)%nat -> ready (mstrHashDictType rt) d -> NoDup (fields_of prs).*1 ->
  (forall x, x ∈ (fields_of prs).*1 -> dict_map d !! x = None) -> zlen (contents d) + zlen prs <= max_entries ->
  exists d', hash_from_listpack rt fuel lp (list.head ps) d = Ok d' /\ ready (mstrHashDictType rt) d' /\
    dict_map d' = list_to_map (fields_of prs) ∪ dict_map d.
Proof using Hrt.
  induction prs as [|[f v] prs IH]; intros fuel ps d Ht Hf Hr Hnd Hfresh Hroom.
  { destruct ps; [|done]. exists d. split; [by destruct fuel|]. split; [done|]. cbn. by rewrite (left_id_L ∅ (∪)). }
  rewrite flat_cons in Ht. destruct ps as [|p [|q ps]]; [done|by destruct Ht as (_ & _ & [])|]. destruct fuel as [|fuel]; [cbn in Hf; lia|].
  destruct Ht as (Hvf & Hn1 & Hvv & Hn2 & Ht). cbn [fst snd list.head] in *. cbn [hash_from_listpack]. rewrite Hn1. cbn [mbind res_bind list.head].
  rewrite (value_text_at lp p f Hvf), (value_text_at lp q v Hvv). cbn [mbind res_bind]. rewrite zlen_cons in Hroom. pose proof (zlen_nonneg prs).
  cbn [fields_of fmap list_fmap fst] in Hnd, Hfresh. fold (fields_of prs) in Hnd, Hfresh. apply list.NoDup_cons in Hnd as [Hx Hnd].
  destruct (add_new (mstrHashDictType rt) (dict_can_resize rt) d (LP.text f) (LP.text v) Hr ltac:(lia) (Hfresh _ ltac:(by left))) as (d1 & -> & Hr1 & Hm & Hl).
  cbn [mbind res_bind fst snd cassert]. rewrite Hn2. cbn [mbind res_bind]. unfold stored in Hm. cbn [no_value mstrHashDictType] in Hm. cbn in Hf.
  destruct (IH fuel ps d1 Ht ltac:(lia) Hr1 Hnd) as (d' & -> & Hr' & Hm'); [|lia|].
  { intros x Hin. rewrite Hm, lookup_insert_ne by (by intros <-). apply Hfresh. by right. }
  exists d'. split; [done|]. split; [done|]. rewrite Hm', Hm. by apply (union_insert (LP.text f) (Some (LP.text v)) (fields_of prs)).
Qed.

(** A hash in a listpack becomes the dict of its fields. *)
Lemma convert_hash lp ps prs cap : holds lp ps (flat prs) -> NoDup (fields_of prs).*1 -> 0 <= cap <= 2 ^ 60 -> zlen prs <= max_entries ->
  exists d, hashTypeConvertListpack rt lp cap = Ok d /\ ready (mstrHashDictType rt) d /\ dict_map d = list_to_map (fields_of prs).
Proof using Hrt.
  intros (Hf & Ht & Hl & _) Hnd Hcap Hz. unfold hashTypeConvertListpack.
  destruct (expand_new (V := bytes) (mstrHashDictType rt) cap Hcap) as (d & ok & -> & Hr & Hm & Hc). cbn [mbind res_bind fst]. rewrite Hf. cbn [mbind res_bind].
  destruct (hash_loop lp prs (S (length lp)) ps d Ht ltac:(lia) Hr Hnd) as (d' & -> & Hr' & Hm'); [by intros; rewrite Hm|rewrite Hc; done|].
  exists d'. split; [done|]. split; [done|]. by rewrite Hm', Hm, (right_id_L ∅ (∪)).
Qed.

(** ** Sorted sets *)

(** The items that pairs of an element and a score stand for. *)
Definition scored (prs : list (LP.elem * LP.elem)) : list item := (fun x => (score_of rt x.2, LP.text x.1)) <$> prs.

Definition nan_score (x : LP.elem * LP.elem) : Prop := isnan (score_of rt x.2) = true.

Lemma place_perm k l : place k l ≡ₚ k :: l.
Proof.
  unfold place. rewrite <- Permutation_middle. constructor. induction l as [|a l IH]; [done|]. cbn.
  destruct (ilt a k); cbn; [by rewrite IH|]. rewrite <- Permutation_middle. by rewrite IH.
Qed.

(** An element entry is followed by its score entry. *)
Lemma score_entry_trail lp (prs : list (LP.elem * LP.elem)) ps : trail lp ps (flat prs) -> score_entry lp (list.head ps) = Ok (list.head (tl ps)).
Proof.
  destruct ps as [|p ps]; [done|]. destruct prs as [|[e s] prs]; [done|]. rewrite flat_cons. intros (_ & Hn & Ht). cbn [list.head score_entry tl].
  rewrite Hn. cbn [mbind res_bind]. by destruct ps.
Qed.

Lemma zset_loop lp prs : forall fuel ps i h zs ents,
  trail lp ps (flat prs) -> (length ps <= fuel)%nat -> zset_ok (zsetDictType rt) h zs ents -> NoDup (LP.text <$> prs.*1) ->
  (forall x, x ∈ LP.text <$> prs.*1 -> x ∉ e_ele <$> ents) -> zlen ents + zlen prs <= max_entries ->
  (Forall (fun x => ~ nan_score x) prs -> exists h' zs' ents',
     zset_from_listpack rt fuel lp (list.head ps) (list.head (tl ps)) i h zs = Ok (h', zs') /\ zset_ok (zsetDictType rt) h' zs' ents' /\
     items ents' ≡ₚ scored prs ++ items ents) /\
  (Exists nan_score prs -> zset_from_listpack rt fuel lp (list.head ps) (list.head (tl ps)) i h zs = Fault AssertFailed).
Proof using Hrt.
  induction prs as [|[e s] prs IH]; intros fuel ps i h zs ents Ht Hf Hok Hnd Hfresh Hroom.
  { destruct ps; [|done]. split; [|by intros ?%Exists_nil]. intros _. exists h, zs, ents. split; [by destruct fuel|done]. }
  rewrite flat_cons in Ht. destruct ps as [|p [|q ps]]; [done|by destruct Ht as (_ & _ & [])|]. destruct fuel as [|fuel]; [cbn in Hf; lia|].
  destruct Ht as (Hve & Hn1 & Hvs & Hn2 & Ht). cbn [fst snd list.head tl] in *. cbn [zset_from_listpack].
  rewrite (zzlGetScore_at rt lp q s Hvs), (value_text_at lp p e Hve). cbn [mbind res_bind]. rewrite zlen_cons in Hroom. pose proof (zlen_nonneg prs).
  cbn [fmap list_fmap fst] in Hnd, Hfresh. apply list.NoDup_cons in Hnd as [Hx Hnd].
  destruct (isnan (score_of rt s)) eqn:Hs.
  { unfold zslInsert. rewrite Hs. split; [|done]. intros [Hno _]%Forall_cons_1. by destruct Hno. }
  destruct (zset_insert_spec (junk_backward rt) (junk_level rt) (zsetDictType rt) eq_refl (dict_can_resize rt) h zs ents (score_of rt s) (LP.text e) (random_draws rt i) Hok Hs)
    as (h1 & z1 & x1 & d1 & ents1 & E1 & E2 & Hok1 & Hi1); [by apply Hfresh; left|lia|apply Hrt|].
  rewrite E1. cbn [mbind res_bind]. rewrite E2. cbn [mbind res_bind fst snd cassert]. unfold zzlNext. rewrite Hn2. cbn [mbind res_bind].
  rewrite (score_entry_trail lp prs ps Ht). cbn [mbind res_bind fst snd]. assert (items ents1 ≡ₚ (score_of rt s, LP.text e) :: items ents) as Hp by (rewrite Hi1; apply place_perm).
  assert (e_ele <$> ents1 ≡ₚ LP.text e :: (e_ele <$> ents)) as Hele by (rewrite <- !items_ele, Hp; done).
  assert (zlen ents1 = zlen ents + 1) as Hz1 by (pose proof (zlen_perm _ _ Hele) as Hz; rewrite zlen_cons, !zlen_fmap in Hz; lia).
  destruct (IH fuel ps (S i) h1 {| zdict := d1; zsl := z1 |} ents1 Ht ltac:(cbn in Hf; lia) Hok1 Hnd) as [Hyes Hno]; [|lia|].
  { intros y Hy. rewrite Hele. intros [->|Hy']%elem_of_cons; [done|]. by apply (Hfresh y); [right|]. }
  split.
  - intros [_ Hall]%Forall_cons_1. destruct (Hyes Hall) as (h' & zs' & ents' & -> & Hok' & Hi'). exists h', zs', ents'. split; [done|]. split; [done|].
    rewrite Hi', Hp. unfold scored. cbn [fmap list_fmap app fst snd]. symmetry. apply Permutation_middle.
  - intros [Hbad|Hbad]%Exists_cons; [|by apply Hno]. unfold nan_score in Hbad. cbn in Hbad. congruence.
Qed.

(** A sorted set in a listpack becomes a skip list of its items, unless a score
    is not a number: then an assertion fails. *)
Lemma convert_zset lp ps prs cap : holds lp ps (flat prs) -> NoDup (LP.text <$> prs.*1) -> 0 <= cap <= 2 ^ 60 -> zlen prs <= max_entries ->
  (Forall (fun x => ~ nan_score x) prs -> exists h zs ents, zsetConvertListpack rt lp cap = Ok (h, zs) /\ zset_ok (zsetDictType rt) h zs ents /\
     items ents ≡ₚ scored prs) /\
  (Exists nan_score prs -> zsetConvertListpack rt lp cap = Fault AssertFailed).
Proof using Hrt.
  intros Hh Hnd Hcap Hz. pose proof Hh as (Hf & Ht & Hl & _). unfold zsetConvertListpack.
  destruct (ZsetSpec.create_ok (junk_backward rt) (junk_level rt) (zsetDictType rt)) as (h & zs & -> & Hok). cbn [mbind res_bind fst snd].
  pose proof Hok as (Hz0 & Hr & Hm & Hnd0). destruct (expand_any (zsetDictType rt) (zdict zs) cap (proj1 Hr) Hcap) as (d & ok & -> & Hk). cbn [mbind res_bind fst].
  pose proof Hk as (Hp & Hfl & _). assert (zset_ok (zsetDictType rt) h (set_dict zs d) []) as Hok1.
  { split; [done|]. split; [eapply ready_flags; [done|by eapply keeps_ok; [apply Hr|]|done]|]. split; [|done]. cbn [zdict set_dict]. rewrite <- Hm. by apply (map_perm (zsetDictType rt)); [apply Hr|]. }
  rewrite (lpSeek_first lp ps _ Hh). cbn [mbind res_bind].
  rewrite (score_entry_trail lp prs ps Ht). cbn [mbind res_bind]. destruct (zset_loop lp prs (S (length lp)) ps 0 h (set_dict zs d) [] Ht ltac:(lia) Hok1 Hnd) as [Hyes Hno]; [by intros ? _ ?%elem_of_nil|done|].
  split; [|done]. intros Hall. destruct (Hyes Hall) as (h' & zs' & ents' & E & Hok' & Hi). exists h', zs', ents'. split; [done|]. split; [done|]. by rewrite Hi, app_nil_r.
Qed.

End pairs.

End ConvertSpec.
