(* ===== verification/Dump.v ===== *)
(** * DUMP and RESTORE (cluster.c, rdb.c, object.c).

    A DUMP payload is a type byte, the value in RDB encoding, the RDB version
    and a checksum.  RESTORE checks version and checksum, loads the value and
    checks the integrity of the encodings it will use without decoding them:
    integer sets and listpacks; when they have more elements than the
    configuration allows them, it converts them to a dict or a skip list.  The
    values here are strings and the values kept in one block of memory;
    [load_other] stands for the branches of [rdbLoadObject] for the remaining
    types. *)

From S2P Require Import Prelude Util Intset ListpackEnc Listpack Sds Lzf Rio Rdb Crc Dict Zskiplist Zset Convert.
#[local] Open Scope Z_scope.

Module Dump.
Import Sds Rio Rdb Crc.

Definition RDB_VERSION : Z := 12.
Definition RDB_TYPE_STRING : Z := 0.
Definition RDB_TYPE_SET_INTSET : Z := 11.
Definition RDB_TYPE_HASH_LISTPACK : Z := 16.
Definition RDB_TYPE_ZSET_LISTPACK : Z := 17.
Definition RDB_TYPE_SET_LISTPACK : Z := 20.

Definition rdbIsObjectType (t : Z) : bool := ((0 <=? t) && (t <=? 7)) || ((9 <=? t) && (t <=? 25)).

(** Objects by type and encoding, that are saved as one string. *)
Inductive object : Type :=
| OString (o : robj)
| OSetIntset (is_ : Intset.intset)
| OSetListpack (lp : bytes)
| OZsetListpack (lp : bytes)
| OHashListpack (lp : bytes).

(** What a load returns: an object as it was saved, or what [setTypeConvert],
    [zsetConvert] or [hashTypeConvert] made of one that has more elements than
    its encoding may have. *)
Inductive loaded_object : Type :=
| Keep (o : object)
| SetHT (d : @Dict.dict bytes unit)
| ZsetSkiplist (h : Zskiplist.heap) (zs : Zset.zset)
| HashHT (d : @Dict.dict bytes bytes).

(** The limits in the configuration. *)
Record config : Type := {
  set_max_intset_entries : Z;
  set_max_listpack_entries : Z;
  zset_max_listpack_entries : Z;
  hash_max_listpack_entries : Z
}.

(** The memory of an integer set: header and contents. *)
Definition intset_bytes (is_ : Intset.intset) : bytes :=
  le_bytes 4 (Intset.encoding is_) ++ le_bytes 4 (Intset.length_ is_) ++ Intset.contents is_.

(** [tryObjectEncodingEx] on a loaded string: a text of a number becomes the number. *)
Definition tryObjectEncodingEx (o : robj) : res robj :=
  match o with
  | IntObj _ => Ok o
  | SdsObj s =>
    let len := zlen s in
    v ← (if len <=? 20 then Util.string2l s len else Ok None);
    match v with Some value => Ok (IntObj value) | None => Ok o end
  end.

(** ** Integrity of listpacks with unique fields *)

(** The state of the callback: the number of entries so far, the fields seen
    (a dict used as a set) and the last expiration time. *)
Record dups : Type := { tuple_len : Z; count : Z; fields : list bytes; last_expireat : Z }.

Definition EB_EXPIRE_TIME_MAX : Z := 0x0000FFFFFFFFFFFF.

Section rdb.
Context `{Allocator} {D : Type} `{RioDevice D}.
Context (can_malloc : Z -> bool) (htab : Lzf.hash_table) (rdb_compression : bool).

(** [lpGet(p,&slen,buf)] and the string [sdsnewlen] makes of it. *)
Definition field_text (lp : bytes) (p : Z) : res bytes :=
  v ← LP.lpGet lp p (Some (uninit LP.LP_INTBUF_SIZE));
  match v with
  | LP.LpPtr q n => rdn lp q n
  | LP.LpIntbuf buf n => rdn buf 0 n
  | LP.LpNull _ => Fault OutOfBounds
  end.

Definition _lpEntryValidation (lp : bytes) (data : dups) (p head_count : Z) : res (dups * bool) :=
  f ← (if count data mod tuple_len data =? 0 then
         field ← field_text lp p;
         if bool_decide (field ∈ fields data) then Ok None else Ok (Some (field :: fields data))
       else Ok (Some (fields data)));
  match f with
  | None => Ok (data, false)
  | Some fs =>
    t ← (if count data mod tuple_len data =? 2 then
           v ← LP.lpGetIntegerValue lp p;
           match v with
           | None => Ok None
           | Some expire_at =>
             if (expire_at <? 0) || (EB_EXPIRE_TIME_MAX <? expire_at) then Ok None else
             if negb (expire_at =? 0) && ((last_expireat data =? 0) || (expire_at <? last_expireat data)) then Ok None else
             Ok (Some expire_at)
           end
         else Ok (Some (last_expireat data)));
    match t with
    | None => Ok ({| tuple_len := tuple_len data; count := count data; fields := fs; last_expireat := last_expireat data |}, false)
    | Some last => Ok ({| tuple_len := tuple_len data; count := count data + 1; fields := fs; last_expireat := last |}, true)
    end
  end.

Definition lpValidateIntegrityAndDups (lp : bytes) (size : Z) (deep : bool) (tuple_len : Z) : res bool :=
  if negb deep then r ← Listpack.lpValidateIntegrity lp size false (None : option (unit -> Z -> Z -> res (unit * bool))) tt; Ok (snd r) else
  r ← Listpack.lpValidateIntegrity lp size true (Some (_lpEntryValidation lp))
        {| tuple_len := tuple_len; count := 0; fields := []; last_expireat := -1 |};
  if negb (count (fst r) mod tuple_len =? 0) then Ok false else Ok (snd r).

(** ** Saving *)

Definition rdbSaveObjectType (o : object) : saver :=
  rdbSaveType (match o with
    | OString _ => RDB_TYPE_STRING
    | OSetIntset _ => RDB_TYPE_SET_INTSET
    | OSetListpack _ => RDB_TYPE_SET_LISTPACK
    | OZsetListpack _ => RDB_TYPE_ZSET_LISTPACK
    | OHashListpack _ => RDB_TYPE_HASH_LISTPACK
    end).

(** The bytes [o->ptr] up to the length of the block, saved as a string. *)
Definition save_block (ptr : bytes) (l : Z) : saver := fun rdb =>
  b ← rdn ptr 0 l;
  w ← rdbSaveRawString htab rdb_compression b rdb;
  let '(rdb, n) := w in if n =? -1 then Ok (rdb, -1) else Ok (rdb, n).

Definition rdbSaveObject (o : object) : saver := fun rdb =>
  match o with
  | OString s => w ← rdbSaveStringObject htab rdb_compression s rdb; let '(rdb, n) := w in if n =? -1 then Ok (rdb, -1) else Ok (rdb, n)
  | OSetIntset is_ => save_block (intset_bytes is_) (Intset.intsetBlobLen is_) rdb
  | OSetListpack lp => l ← Listpack.lpBytes lp; save_block lp l rdb
  | OZsetListpack lp => l ← Listpack.lpBytes lp; save_block lp l rdb
  | OHashListpack lp => l ← Listpack.lpBytes lp; save_block lp l rdb
  end.

(** ** Loading *)

Definition rdbLoadObjectType (r : rio D) : res (rio D * Z) :=
  w ← rdbLoadType r;
  if snd w =? -1 then Ok (fst w, -1) else
  if negb (rdbIsObjectType (snd w)) then Ok (fst w, -1) else Ok w.

Context (rt : Convert.runtime).

Definition loaded_robj (x : loaded) : robj := match x with Str b => SdsObj b | Int v => IntObj v end.

(** The end of the branches for listpacks of [n] entries per element, the same
    for sets, sorted sets and hashes: nothing is loaded when there is no
    element; over the limit the object is converted.  The length is asked for
    once: the later calls of [setTypeSize], [zsetLength] or [hashTypeLength]
    find it in the header, or count the same entries again. *)
Definition within (limit n : Z) (mk : bytes -> object) (convert : bytes -> Z -> res loaded_object) (lp : bytes) : res (option loaded_object) :=
  r ← Listpack.lpLength lp;
  let '(lp, len) := r in
  let elements := len / n in
  if elements =? 0 then Ok None else
  if limit <? elements then o ← convert lp elements; Ok (Some o)
  else Ok (Some (Keep (mk lp))).

(** [setTypeConvert(o, OBJ_ENCODING_HT)], [zsetConvert(o, OBJ_ENCODING_SKIPLIST)]
    and [hashTypeConvert(o, OBJ_ENCODING_HT, NULL)] *)
Definition setTypeConvert (lp : bytes) (size : Z) : res loaded_object :=
  d ← Convert.setTypeConvertListpack rt lp size; Ok (SetHT d).
Definition zsetConvert (lp : bytes) (length : Z) : res loaded_object :=
  r ← Convert.zsetConvertListpack rt lp length; Ok (ZsetSkiplist (fst r) (snd r)).
Definition hashTypeConvert (lp : bytes) (length : Z) : res loaded_object :=
  d ← Convert.hashTypeConvertListpack rt lp length; Ok (HashHT d).

(** The branches of [rdbLoadObject]. *)
Definition load_string (r : rio D) : res (rio D * option loaded_object) :=
  w ← rdbGenericLoadStringObject can_malloc r RDB_LOAD_ENC;
  match snd w with
  | None => Ok (fst w, None)
  | Some x => o ← tryObjectEncodingEx (loaded_robj x); Ok (fst w, Some (Keep (OString o)))
  end.

Definition load_intset (deep : bool) (limit : Z) (r : rio D) : res (rio D * option loaded_object) :=
  w ← rdbGenericLoadStringObject can_malloc r RDB_LOAD_PLAIN;
  match snd w with
  | Some (Str encoded) =>
    ok ← Intset.intsetValidateIntegrity encoded (zlen encoded) deep;
    if negb ok then Ok (fst w, None) else
    is_ ← Intset.intset_of_blob encoded;
    if limit <? Intset.intsetLen is_ then
      d ← Convert.setTypeConvertIntset rt is_ (Intset.intsetLen is_); Ok (fst w, Some (SetHT d))
    else Ok (fst w, Some (Keep (OSetIntset is_)))
  | _ => Ok (fst w, None)
  end.

Definition load_lp (deep : bool) (tuple_len limit : Z) (mk : bytes -> object) (convert : bytes -> Z -> res loaded_object) (r : rio D) : res (rio D * option loaded_object) :=
  w ← rdbGenericLoadStringObject can_malloc r RDB_LOAD_PLAIN;
  match snd w with
  | Some (Str encoded) =>
    ok ← lpValidateIntegrityAndDups encoded (zlen encoded) deep tuple_len;
    if negb ok then Ok (fst w, None) else
    o ← within limit tuple_len mk convert encoded; Ok (fst w, o)
  | _ => Ok (fst w, None)
  end.

Definition rdbLoadObject (cfg : config) (deep : bool) (load_other : Z -> rio D -> res (rio D * option loaded_object))
    (rdbtype : Z) (r : rio D) : res (rio D * option loaded_object) :=
  if rdbtype =? RDB_TYPE_STRING then load_string r
  else if rdbtype =? RDB_TYPE_SET_INTSET then load_intset deep (set_max_intset_entries cfg) r
  else if rdbtype =? RDB_TYPE_SET_LISTPACK then load_lp deep 1 (set_max_listpack_entries cfg) OSetListpack setTypeConvert r
  else if rdbtype =? RDB_TYPE_ZSET_LISTPACK then load_lp deep 2 (zset_max_listpack_entries cfg) OZsetListpack zsetConvert r
  else if rdbtype =? RDB_TYPE_HASH_LISTPACK then load_lp deep 2 (hash_max_listpack_entries cfg) OHashListpack hashTypeConvert r
  else load_other rdbtype r.

End rdb.

(** ** Payloads *)

Section payload.
Context `{Allocator}.
Context (can_malloc : Z -> bool) (htab : Lzf.hash_table) (rdb_compression : bool) (rt : Convert.runtime).

(** The byte order of the host, the tables of [crc64] and the address of the payload. *)
Context (host : endianness) (crc_tables : table) (addr : Z).

Definition footer_version : bytes := [Z.land RDB_VERSION 0xff; Z.land (Z.shiftr RDB_VERSION 8) 0xff].

Definition createDumpPayload (o : object) : res sds :=
  e ← sdsempty;
  w ← rdbSaveObjectType o (Some (rioInitWithBuffer e));
  _ ← cassert (negb (snd w =? 0));
  w ← rdbSaveObject htab rdb_compression o (fst w);
  _ ← cassert (negb (snd w =? 0));
  match fst w with
  | None => Fault AssertFailed
  | Some payload =>
    p ← sdscatlen (ptr (io payload)) footer_version;
    l ← sdslen p;
    data ← get p 0 l;
    crc ← crc64 host crc_tables 0 addr data;
    sdscatlen p (le_bytes 8 crc)
  end.

(** The version in the payload, when it was read, and C_OK. *)
Definition verifyDumpPayload (skip_checksum_validation : bool) (p : bytes) (len : Z) : res (option Z * bool) :=
  if len <? 10 then Ok (None, false) else
  let footer := len - 10 in
  f1 ← rd p (footer + 1);
  f0 ← rd p footer;
  let rdbver := Z.lor (Z.shiftl f1 8) f0 in
  if RDB_VERSION <? rdbver then Ok (Some rdbver, false) else
  if skip_checksum_validation then Ok (Some rdbver, true) else
  data ← rdn p 0 (len - 8);
  crc ← crc64 host crc_tables 0 addr data;
  stored ← rdn p (footer + 2) 8;
  Ok (Some rdbver, bool_decide (le_bytes 8 crc = stored)).

(** The steps of [restoreCommand] between the argument checks and the change
    of the database: the errors "DUMP payload version or checksum are wrong"
    and "Bad data format", or the object. *)
Inductive restored : Type := BadChecksum | BadFormat | Restored (o : loaded_object).

Definition restore_object (cfg : config) (deep skip_checksum_validation : bool)
    (load_other : Z -> rio rio_buffer -> res (rio rio_buffer * option loaded_object)) (argv3 : sds) : res restored :=
  l ← sdslen argv3;
  p ← get argv3 0 l;
  v ← verifyDumpPayload skip_checksum_validation p l;
  if negb (snd v) then Ok BadChecksum else
  w ← rdbLoadObjectType (rioInitWithBuffer argv3);
  if snd w =? -1 then Ok BadFormat else
  w ← rdbLoadObject can_malloc rt cfg deep load_other (snd w) (fst w);
  Ok (match snd w with None => BadFormat | Some o => Restored o end).

End payload.

End Dump.
