(* ===== verification/DumpSpec.v ===== *)
(** * What DUMP and RESTORE promise.

    A payload that DUMP made is accepted and gives the value back; a payload
    changed within 64 consecutive bits is refused; and whatever the payload,
    RESTORE reads nothing outside its buffers, and the integer sets and
    listpacks it accepts are safe to use. *)

From stdpp Require Import sets gmap fin_maps.
From S2P Require Import Prelude Util Intset ListpackEnc Listpack ListpackTheory ListpackValidate ListpackSpec ListpackCount Sds SdsTheory Lzf LzfSpec Rio Rdb RdbSpec Crc CrcTheory Dict DictTheory DictSpec Zskiplist ZskiplistTheory ZskiplistOps Zset ZsetTheory Convert ConvertSpec Dump.
#[local] Open Scope Z_scope.

Module DumpSpec.
Import Sds SdsTheory Rio Rdb RdbSpec Crc CrcTheory Convert ConvertSpec Dump.

(** ** Integer sets *)

Lemma le_val_small n x : 0 <= x < 2 ^ (8 * Z.of_nat n) -> le_val (le_bytes n x) = x.
Proof. intros Hx. rewrite le_val_bytes. by apply Z.mod_small. Qed.

Lemma intset_of_bytes is_ : 0 <= Intset.encoding is_ < 2 ^ 32 -> 0 <= Intset.length_ is_ < 2 ^ 32 -> Intset.intset_of_blob (intset_bytes is_) = Ok is_.
Proof.
  intros He Hl. destruct is_ as [e n c]. cbn [Intset.encoding Intset.length_] in *. unfold Intset.intset_of_blob, intset_bytes.
  cbn [Intset.encoding Intset.length_ Intset.contents].
  pose proof (rdn_app [] (le_bytes 4 e) (le_bytes 4 n ++ c)) as H1. pose proof (rdn_app (le_bytes 4 e) (le_bytes 4 n) c) as H2.
  rewrite !zlen_le_bytes_nat in *. cbn [app] in H1. change (zlen (@nil Z)) with 0 in H1. change (Z.of_nat 4) with 4 in *. rewrite H1, H2. cbn [mbind res_bind].
  rewrite !le_val_small by done. reflexivity.
Qed.

Lemma intset_bytes_len is_ vs : Intset.repr is_ vs -> zlen vs < 2 ^ 31 ->
  zlen (intset_bytes is_) = 8 + zlen vs * Intset.encoding is_ /\ zlen (intset_bytes is_) = Intset.intsetBlobLen is_ /\ 2 <= Intset.encoding is_ <= 8.
Proof.
  intros [Hw Hl Hc _ _] Hv. assert (2 <= Intset.encoding is_ <= 8) as Hr by (unfold Intset.enc_ok in Hw; lia). pose proof (zlen_nonneg vs).
  assert (zlen (intset_bytes is_) = 8 + zlen vs * Intset.encoding is_) as He.
  { unfold intset_bytes. rewrite !zlen_app, !zlen_le_bytes_nat, Hc, Intset.zlen_E by lia. lia. }
  split; [done|]. split; [|done]. rewrite He. unfold Intset.intsetBlobLen, Intset.sizeof_intset. rewrite Hl, !wrapu_small by (rewrite ?wrapu_small; nia). done.
Qed.

Lemma intset_validate_complete is_ vs :
  Intset.repr is_ vs -> vs <> [] -> zlen vs < 2 ^ 31 ->
  Intset.intset_of_blob (intset_bytes is_) = Ok is_ /\
  Intset.intsetValidateIntegrity (intset_bytes is_) (zlen (intset_bytes is_)) true = Ok true.
Proof.
  intros Hr Hne Hv. destruct (intset_bytes_len is_ vs Hr Hv) as (Hlen & _ & Henc). destruct (Hr) as [Hw Hl Hc Hrange Hsort]. pose proof (zlen_nonneg vs).
  assert (Intset.intset_of_blob (intset_bytes is_) = Ok is_) as Hof by (apply intset_of_bytes; lia). split; [done|].
  unfold Intset.intsetValidateIntegrity, Intset.sizeof_intset. rewrite Hof, Hlen. cbn [mbind res_bind]. rewrite Hl.
  rewrite (proj2 (Z.ltb_ge _ 8)) by nia.
  assert ((Intset.encoding is_ =? Intset.INTSET_ENC_INT64) || (Intset.encoding is_ =? Intset.INTSET_ENC_INT32) || (Intset.encoding is_ =? Intset.INTSET_ENC_INT16) = true) as ->.
  { destruct Hw as [->|[->| ->]]; reflexivity. }
  cbn [negb]. rewrite wrapu_small, Z.eqb_refl by nia. cbn [negb]. destruct vs as [|x vs]; [done|]. rewrite zlen_cons in *. pose proof (zlen_nonneg vs).
  rewrite (proj2 (Z.eqb_neq _ 0)) by lia. assert (Intset.stores is_ (x :: vs)) as Hst by (split; [done|]; split; [by rewrite zlen_cons|done]).
  pose proof (Intset.get_stores is_ _ 0 x Hst eq_refl) as Hg. change (Z.of_nat 0) with 0 in Hg. rewrite Hg. cbn [mbind res_bind].
  destruct (Intset.validate_order_spec is_ (x :: vs) (S (Z.to_nat (1 + zlen vs))) [] x vs) as (r & Hq & Hs);
    [done|by rewrite zlen_cons|done|unfold zlen; lia|]. rewrite zlen_cons in Hq. change (zlen (@nil Z) + 1) with 1 in Hq. rewrite Hq.
  f_equal. by apply Hs.
Qed.

(** The values of an integer set are distinct 64 bit numbers. *)
Lemma intset_values is_ vs : Intset.repr is_ vs -> Forall is_i64 vs /\ NoDup vs.
Proof.
  intros [Hw _ _ Hrange Hsort]. split.
  - eapply Forall_impl; [|exact Hrange]. intros v. unfold Intset.in_width, is_i64, INT64_MIN, INT64_MAX.
    destruct Hw as [->|[->| ->]]; cbn; lia.
  - clear -Hsort. induction Hsort as [|x l Hl IH Hx]; constructor; [|done]. intros Hin. rewrite list.Forall_forall in Hx. specialize (Hx _ Hin). lia.
Qed.


(** ** Listpacks *)

(** The first of every [n] texts. *)
Definition keys (n : Z) (ts : list bytes) : list bytes := concat (imap (fun i t => if Z.of_nat i mod n =? 0 then [t] else []) ts).

Lemma keys_snoc n ts t : keys n (ts ++ [t]) = keys n ts ++ (if zlen ts mod n =? 0 then [t] else []).
Proof. unfold keys. rewrite imap_app, concat_app. cbn [imap concat]. by rewrite app_nil_r, Nat.add_0_r. Qed.

Lemma keys_1 ts : keys 1 ts = ts.
Proof. induction ts as [|t ts IH] using rev_ind; [done|]. by rewrite keys_snoc, Z.mod_1_r, IH. Qed.

Lemma keys_2 (prs : list (bytes * bytes)) : keys 2 (flat prs) = prs.*1.
Proof.
  induction prs as [|x prs IH] using rev_ind; [done|]. unfold flat. rewrite fmap_app, concat_app, fmap_app. fold (flat prs). cbn [fmap list_fmap concat app].
  rewrite <- (snoc_app (flat prs) x.1 [x.2]), !keys_snoc, zlen_app, flat_length, IH, (Z.mul_comm 2), Z.mod_mul by lia. cbn [Z.eqb].
  change (zlen [x.1]) with 1. rewrite Z.add_comm, Z.mod_add by lia. change (1 mod 2 =? 0) with false. by rewrite app_nil_r.
Qed.

Lemma keys_app_sublist n ts us : exists l, keys n (ts ++ us) = keys n ts ++ l.
Proof. unfold keys. rewrite imap_app, concat_app. eauto. Qed.

Section listpack.
Context `{Allocator} {D : Type} `{Stream D}.
Context (can_malloc : Z -> bool) (htab : Lzf.hash_table) (rdb_compression : bool).




(** What the callback has seen: the texts [ts] of the entries. *)
Definition seen (lp : bytes) (n : Z) (ps : list Z) (d : dups) : Prop :=
  tuple_len d = n /\ count d = zlen ps /\
  exists ts, Forall2 (fun p t => field_text lp p = Ok t) ps ts /\ fields d = reverse (keys n ts) /\ NoDup (keys n ts).

Lemma entry_validation_step lp n ps d p t head :
  n = 1 \/ n = 2 -> seen lp n ps d -> field_text lp p = Ok t ->
  exists d' ok, _lpEntryValidation lp d p head = Ok (d', ok) /\ (ok = true -> seen lp n (ps ++ [p]) d') /\
    (forall ts, Forall2 (fun p t => field_text lp p = Ok t) ps ts -> NoDup (keys n (ts ++ [t])) -> ok = true).
Proof.
  intros Hn (Hd & Hc & ts & Ht & Hf & Hnd) Hp. unfold _lpEntryValidation. rewrite Hd, Hc, Hp. cbn [mbind res_bind].
  pose proof (Forall2_length Ht) as Hlen. pose proof (Z.mod_pos_bound (zlen ps) n ltac:(lia)) as Hm.
  assert ((zlen ps mod n =? 2) = false) as -> by (apply Z.eqb_neq; lia).
  assert (zlen ps = zlen ts) as Hz by (unfold zlen; by rewrite Hlen).
  assert (forall us, Forall2 (fun p t => field_text lp p = Ok t) ps us -> us = ts) as Huniq.
  { intros us Hu. clear -Ht Hu. revert us Hu. induction Ht; intros us Hu; inversion Hu; subst; [done|]. f_equal; [congruence|eauto]. }
  assert (Forall2 (fun p t => field_text lp p = Ok t) (ps ++ [p]) (ts ++ [t])) as Ht' by (apply Forall2_app; [done|by repeat constructor]).
  pose proof (keys_snoc n ts t) as Hk. rewrite <- Hz in Hk. destruct (zlen ps mod n =? 0).
  - rewrite Hf. destruct (bool_decide_reflect (t ∈ reverse (keys n ts))) as [Hin|Hin]; cbn [mbind res_bind].
    + eexists _, false. split; [done|]. split; [done|]. intros us ->%Huniq Hnd'. rewrite Hk in Hnd'. apply list.NoDup_app in Hnd' as (_ & Hdis & _).
      rewrite elem_of_reverse in Hin. destruct (Hdis t Hin). by apply list_elem_of_singleton.
    + eexists _, true. split; [done|]. split; [|done]. intros _. split; [done|]. cbn [tuple_len count fields]. split; [by rewrite zlen_app|].
      exists (ts ++ [t]). split; [done|]. rewrite Hk, reverse_app. split; [done|]. apply list.NoDup_app. split; [done|]. split; [|apply NoDup_singleton].
      intros x Hx ->%list_elem_of_singleton. apply Hin. by apply elem_of_reverse.
  - cbn [mbind res_bind]. eexists _, true. split; [done|]. split; [|done]. intros _. split; [done|]. cbn [tuple_len count fields].
    split; [by rewrite zlen_app|]. exists (ts ++ [t]). rewrite Hk, app_nil_r. done.
Qed.


Lemma seen_start lp n : seen lp n [] {| tuple_len := n; count := 0; fields := []; last_expireat := -1 |}.
Proof. split; [done|]. split; [done|]. exists []. split; [constructor|]. split; [done|constructor]. Qed.





(** ** Loading *)

(** A string becomes the number it is the text of; the text stays. *)
Lemma try_encoding_spec s :
  (match s with IntObj v => is_i64 v | SdsObj b => True end) ->
  exists s', tryObjectEncodingEx s = Ok s' /\ obj_text s' = obj_text s /\
    match s' with IntObj v => is_i64 v | SdsObj b => s = SdsObj b end.
Proof.
  destruct s as [v|b]; cbn [tryObjectEncodingEx]; intros Hv; [by exists (IntObj v)|]. destruct (zlen b <=? 20); [|by exists (SdsObj b)].
  unfold Util.string2l. destruct (Util.string2ll_spec b []) as (o & Ho & Hs). rewrite app_nil_r in Ho. rewrite Ho. cbn [mbind res_bind].
  destruct o as [v|]; [|by exists (SdsObj b)]. destruct (proj1 (Hs v) eq_refl) as [Hi Ht]. pose proof Hi as Hi'. unfold is_i64 in Hi.
  rewrite (proj2 (Z.ltb_ge v _)), (proj2 (Z.ltb_ge _ v)) by lia. cbn [orb mbind res_bind].
  rewrite wraps_small by (unfold INT64_MIN, INT64_MAX in Hi; lia). by exists (IntObj v).
Qed.




Section load.
Context (rt : runtime) (Hrt : runtime_ok rt) (cfg : config) (load_other : Z -> rio D -> res (rio D * option loaded_object)).
Context (Hmem : bounded can_malloc (2 ^ 32)).














End load.

End listpack.

(** ** Payloads *)

Lemma get_all s l : repr s l -> get s 0 (zlen l) = Ok l.
Proof. intros (ty & al & rest & [-> Hv _ _ _ _ _]). rewrite get_mk by (done || lia). apply (rdn_app [] l (0 :: rest)). Qed.

Lemma byte_pair a b : is_byte a -> is_byte b -> Z.lor (Z.shiftl b 8) a = a + 256 * b.
Proof. intros Ha Hb. rewrite lor_shiftl_add; [lia|lia|exact Ha]. Qed.

(** The last eight bytes are the remainder exactly when the whole has none. *)
Lemma crc_of_residue body c : wf_bytes body -> wf_bytes c -> length c = 8%nat -> c = le_bytes 8 (crc_of 0 body) <-> crc_of 0 (body ++ c) = 0.
Proof.
  intros Hb Hc Hl. assert (0 <= crc_of 0 body < 2 ^ 64) as Hr by (apply crc_of_range; [lia|done]). pose proof (word_range c Hc Hl) as Hw.
  rewrite crc_of_app, (crc_of_word _ c Hl) by done. split.
  - intros ->. rewrite le_val_small by done. by rewrite Z.lxor_nilpotent, lsteps_0.
  - intros Hz. destruct (decide (Z.lxor (crc_of 0 body) (le_val c) = 0)) as [He|Hne].
    + apply Z.lxor_eq in He. rewrite He, <- Hl, le_bytes_val by done. done.
    + pose proof (lxor_range (crc_of 0 body) (le_val c) 64 ltac:(lia) Hr Hw). pose proof (lsteps_nonzero 64 (Z.lxor (crc_of 0 body) (le_val c))). lia.
Qed.

Section payload.
Context `{Allocator} (can_malloc : Z -> bool) (host : endianness) (t : table) (addr : Z) (Ht : ready host t).

(** The version in a payload. *)
Definition version (p : bytes) : Z :=
  match rd p (zlen p - 10 + 1), rd p (zlen p - 10) with Ok f1, Ok f0 => Z.lor (Z.shiftl f1 8) f0 | _, _ => 0 end.

Definition acceptable (skip : bool) (p : bytes) : bool := (10 <=? zlen p) && (version p <=? RDB_VERSION) && (skip || (crc_of 0 p =? 0)).

(** The check of version and checksum, on any bytes. *)
Lemma verify_spec skip p :
  wf_bytes p -> exists v, verifyDumpPayload host t addr skip p (zlen p) = Ok (v, acceptable skip p).
Proof using Ht.
  intros Hw. unfold verifyDumpPayload, acceptable, version. destruct (Z.ltb_spec (zlen p) 10) as [Hs|Hs].
  { exists None. by rewrite (proj2 (Z.leb_gt 10 _)) by lia. }
  rewrite (proj2 (Z.leb_le 10 _)) by lia. cbn [andb].
  destruct (rd_in_range p (zlen p - 10 + 1)) as [f1 Hf1]; [lia|]. destruct (rd_in_range p (zlen p - 10)) as [f0 Hf0]; [lia|].
  rewrite Hf1, Hf0. cbn [mbind res_bind]. exists (Some (Z.lor (Z.shiftl f1 8) f0)).
  destruct (Z.ltb_spec RDB_VERSION (Z.lor (Z.shiftl f1 8) f0)); [by rewrite (proj2 (Z.leb_gt _ RDB_VERSION)) by lia|].
  rewrite (proj2 (Z.leb_le _ RDB_VERSION)) by lia. cbn [andb]. destruct skip; cbn [orb]; [done|].
  set (body := take (Z.to_nat (zlen p - 8)) p). set (c := drop (Z.to_nat (zlen p - 8)) p).
  assert (length c = 8%nat) as Hc by (unfold c; rewrite length_drop; unfold zlen in *; lia).
  assert (p = body ++ c) as Hp by (unfold body, c; by rewrite take_drop).
  assert (wf_bytes body /\ wf_bytes c) as [Hwb Hwc] by (split; [by apply Forall_take|by apply Forall_drop]).
  assert (zlen body = zlen p - 8) as Hb by (unfold body; apply zlen_take; lia).
  assert (rdn p 0 (zlen p - 8) = Ok body) as -> by (rewrite <- Hb; rewrite Hp; apply (rdn_app [] body c)).
  cbn [mbind res_bind]. rewrite crc64_spec by (done || lia). cbn [mbind res_bind].
  assert (rdn p (zlen p - 10 + 2) 8 = Ok c) as ->.
  { replace (zlen p - 10 + 2) with (zlen body) by lia. replace 8 with (zlen c) by (unfold zlen; lia). rewrite Hp.
    pose proof (rdn_app body c []) as Hx. by rewrite app_nil_r in Hx. }
  cbn [mbind res_bind]. do 2 f_equal. pose proof (crc_of_residue body c Hwb Hwc Hc) as Hres. rewrite <- Hp in Hres.
  destruct (Z.eqb_spec (crc_of 0 p) 0) as [Hz|Hz].
  - apply bool_decide_eq_true. symmetry. by apply Hres.
  - apply bool_decide_eq_false. intros He. apply Hz, Hres. by symmetry.
Qed.

Section restore.
Context (rt : runtime) (cfg : config) (load_other : Z -> rio rio_buffer -> res (rio rio_buffer * option loaded_object)).

Lemma restore_checks deep skip argv3 p :
  repr argv3 p -> wf_bytes p ->
  restore_object can_malloc rt host t addr cfg deep skip load_other argv3 =
    if negb (acceptable skip p) then Ok BadChecksum else
    w ← rdbLoadObjectType (rioInitWithBuffer argv3);
    if snd w =? -1 then Ok BadFormat else
    w ← rdbLoadObject can_malloc rt cfg deep load_other (snd w) (fst w);
    Ok (match snd w with None => BadFormat | Some o => Restored o end).
Proof using Ht.
  intros Hr Hw. unfold restore_object. rewrite (sdslen_spec argv3 p Hr). cbn [mbind res_bind]. rewrite (get_all argv3 p Hr). cbn [mbind res_bind].
  destruct (verify_spec skip p Hw) as (v & ->). done.
Qed.

(** A payload that was accepted is refused once up to 64 consecutive bits of
    it are changed. *)
Lemma corruption_refused deep argv3 argv3' p p' w j :
  repr argv3 p -> repr argv3' p' -> wf_bytes p -> wf_bytes p' ->
  length p' = length p -> le_val p' = Z.lxor (le_val p) (Z.shiftl w j) -> 0 < w < 2 ^ 64 -> 0 <= j <= 8 * zlen p ->
  restore_object can_malloc rt host t addr cfg deep false load_other argv3 <> Ok BadChecksum ->
  restore_object can_malloc rt host t addr cfg deep false load_other argv3' = Ok BadChecksum.
Proof using Ht.
  intros Hr Hr' Hw Hw' Hl He Hb Hj Hok. rewrite (restore_checks deep false argv3' p' Hr' Hw').
  rewrite (restore_checks deep false argv3 p Hr Hw) in Hok. unfold acceptable in *. cbn [orb] in *. destruct (Z.eqb_spec (crc_of 0 p) 0) as [Hz|]; [|by rewrite andb_false_r in Hok].
  pose proof (crc_of_burst 0 p p' w j Hl He Hb Hj) as Hne. rewrite Hz in Hne. rewrite (proj2 (Z.eqb_neq _ 0)) by done. by rewrite andb_false_r.
Qed.



End restore.
End payload.

(** The tables after [crc64_init]. *)
Lemma init_ready host t : crc64_init host crc64_table = Ok t -> ready host t.
Proof.
  intros Hi. destruct (crc64_init_ready host crc64_table shape_zeros) as (t' & Ht' & Hr). rewrite Ht' in Hi. by injection Hi as ->.
Qed.

(** C28. RESTORE refuses damaged payloads: when a payload is accepted by the
    check of its version and checksum, then no payload that differs from it
    within 64 consecutive bits, wherever they are, is; on every host and at
    every address. *)
Theorem restore_detects_corruption `{Allocator} can_malloc rt host t addr cfg load_other deep argv3 argv3' p p' w j :
  crc64_init host crc64_table = Ok t -> repr argv3 p -> repr argv3' p' -> wf_bytes p -> wf_bytes p' ->
  length p' = length p -> le_val p' = Z.lxor (le_val p) (Z.shiftl w j) -> 0 < w < 2 ^ 64 -> 0 <= j <= 8 * zlen p ->
  restore_object can_malloc rt host t addr cfg deep false load_other argv3 <> Ok BadChecksum ->
  restore_object can_malloc rt host t addr cfg deep false load_other argv3' = Ok BadChecksum.
Proof.
  intros Hi. by apply corruption_refused, init_ready.
Qed.


(** ** Values that are saved *)

Definition block_listpack (n : Z) (lp : bytes) (es : list LP.elem) : Prop :=
  ListpackTheory.repr lp es /\ wf_bytes lp /\ es <> [] /\ zlen es mod n = 0 /\ NoDup (keys n (LP.text <$> es)).

Section values.
Context (rt : runtime) (cfg : config).

(** Objects that are saved as one string. *)
Definition saveable (o : object) : Prop :=
  match o with
  | OString s => obj_ok s
  | OSetIntset is_ => exists vs, Intset.repr is_ vs /\ vs <> [] /\ zlen vs < 2 ^ 31
  | OSetListpack lp => exists es, block_listpack 1 lp es
  | OZsetListpack lp | OHashListpack lp => exists prs, block_listpack 2 lp (flat prs)
  end.

(** Objects as the commands keep them: the scores of a sorted set are numbers. *)
Definition dumpable (o : object) : Prop :=
  match o with
  | OZsetListpack lp => exists prs, block_listpack 2 lp (flat prs) /\ Forall (fun x => ~ nan_score rt x) prs
  | _ => saveable o
  end.

(** A listpack with the same elements. *)
Definition kept (mk : bytes -> object) (es : list LP.elem) (x : loaded_object) : Prop :=
  exists lp, x = Keep (mk lp) /\ ListpackTheory.repr lp es.

(** The same value, in the general encoding when it exceeds the limit of its own. *)
Definition same_value (o : object) (x : loaded_object) : Prop :=
  match o with
  | OString s => exists s', x = Keep (OString s') /\ obj_text s' = obj_text s
  | OSetIntset is_ => exists vs, Intset.repr is_ vs /\
      if set_max_intset_entries cfg <? zlen vs
      then exists d, x = SetHT d /\ DictSpec.ready (setDictType rt) d /\ DictSpec.dict_map d = members (Util.decimal <$> vs)
      else x = Keep o
  | OSetListpack lp => exists es, ListpackTheory.repr lp es /\
      if set_max_listpack_entries cfg <? zlen es
      then exists d, x = SetHT d /\ DictSpec.ready (setDictType rt) d /\ DictSpec.dict_map d = members (LP.text <$> es)
      else kept OSetListpack es x
  | OZsetListpack lp => exists prs, ListpackTheory.repr lp (flat prs) /\
      if zset_max_listpack_entries cfg <? zlen prs
      then exists h zs ents, x = ZsetSkiplist h zs /\ ZsetTheory.zset_ok (zsetDictType rt) h zs ents /\ ZskiplistOps.it <$> ents ≡ₚ scored rt prs
      else kept OZsetListpack (flat prs) x
  | OHashListpack lp => exists prs, ListpackTheory.repr lp (flat prs) /\
      if hash_max_listpack_entries cfg <? zlen prs
      then exists d, x = HashHT d /\ DictSpec.ready (mstrHashDictType rt) d /\ DictSpec.dict_map d = list_to_map (fields_of prs)
      else kept OHashListpack (flat prs) x
  end.

Lemma dumpable_saveable o : dumpable o -> saveable o.
Proof. destruct o; try done. intros (prs & Hb & _). by exists prs. Qed.

End values.

(** The bytes that are saved as a string. *)
Definition payload_bytes (o : object) : res bytes :=
  match o with
  | OString s => Ok (obj_text s)
  | OSetIntset is_ => Ok (intset_bytes is_)
  | OSetListpack lp | OZsetListpack lp | OHashListpack lp => l ← Listpack.lpBytes lp; rdn lp 0 l
  end.

(** The elements of a listpack, as the check sees them. *)
Section complete.
Context `{Allocator} (num : Z) (es : list LP.elem) (n : Z).
Context (Hn : n = 1 \/ n = 2) (Hok : Forall LP.elem_ok es) (Hnd : NoDup (keys n (LP.text <$> es))).

Lemma field_text_at l e r : es = l ++ e :: r -> field_text (ListpackTheory.lpenc num es []) (ListpackTheory.pos l) = Ok (LP.text e).
Proof using Hok.
  intros Hes. unfold field_text. pose proof Hok as Hok'. rewrite Hes in Hok'. apply Forall_app in Hok' as [_ [He _]%Forall_cons_1].
  rewrite Hes, ListpackTheory.lpenc_cursor, <- (ListpackTheory.zlen_before (ListpackTheory.total (l ++ e :: r)) num l).
  destruct (ListpackSpec.get_text e (ListpackTheory.before (ListpackTheory.total (l ++ e :: r)) num l)
    (ListpackTheory.body r ++ LP.LP_EOF :: []) (Some (uninit LP.LP_INTBUF_SIZE)) He) as (v & Hv & Ht); [by rewrite zlen_uninit by (unfold LP.LP_INTBUF_SIZE; lia)|].
  pose proof Hv as Hv'. unfold LP.lpGet in Hv'. apply bind_ok in Hv' as ([v' z] & Hg & Hq). injection Hq as <-. cbn [fst] in *.
  rewrite Hv. cbn [mbind res_bind]. destruct v'; [done|done|]. exfalso. clear -Hg. unfold LP.lpGetWithSize in Hg. cbv zeta in Hg. simplify_res.
  repeat match type of Hg with (if ?c then _ else _) = _ => destruct c end; simplify_res; done.
Qed.

Definition checked (lp : bytes) (l : list LP.elem) (u : dups) : Prop :=
  exists ps, seen lp n ps u /\ Forall2 (fun p e => field_text lp p = Ok (LP.text e)) ps l.

Lemma checked_step l e r u :
  let lp := ListpackTheory.lpenc num es [] in
  es = l ++ e :: r -> checked lp l u ->
  exists u', _lpEntryValidation lp u (ListpackTheory.pos l) num = Ok (u', true) /\ checked lp (l ++ [e]) u'.
Proof using Hn Hok Hnd.
  intros lp Hes (ps & Hs & Hf). pose proof (field_text_at l e r Hes) as Ht'. fold lp in Ht'.
  destruct (entry_validation_step lp n ps u (ListpackTheory.pos l) (LP.text e) num Hn Hs Ht') as (d & ok & -> & Hd & Hyes).
  assert (ok = true) as ->.
  { apply (Hyes (LP.text <$> l)); [by apply Forall2_fmap_r|]. rewrite Hes, <- snoc_app, fmap_app in Hnd.
    destruct (keys_app_sublist n (LP.text <$> l ++ [e]) (LP.text <$> r)) as (k & Hk). rewrite Hk in Hnd.
    apply list.NoDup_app in Hnd as (Hnd' & _). by rewrite fmap_app in Hnd'. }
  exists d. split; [done|]. exists (ps ++ [ListpackTheory.pos l]). split; [by apply Hd|]. apply Forall2_app; [done|by repeat constructor].
Qed.

Lemma validate_dups_complete :
  ListpackTheory.num_ok num es -> ListpackTheory.total es < 2 ^ 32 -> zlen es mod n = 0 ->
  lpValidateIntegrityAndDups (ListpackTheory.lpenc num es []) (ListpackTheory.total es) true n = Ok true.
Proof using Hn Hok Hnd.
  intros Hnum Ht Hm. unfold lpValidateIntegrityAndDups. cbn [negb]. set (lp := ListpackTheory.lpenc num es []).
  assert (ListpackTheory.repr lp es) as Hr by (exists num, []; done).
  destruct (ListpackSpec.validate_integrity_complete (Some (_lpEntryValidation lp)) num es (checked lp) checked_step
    lp {| tuple_len := n; count := 0; fields := []; last_expireat := -1 |} Hr) as (u & Hu & ps & (_ & Hc & _) & Hf).
  - by apply ListpackTheory.num_spec.
  - exists []. split; [apply seen_start|constructor].
  - assert (take (Z.to_nat (ListpackTheory.total es)) lp = lp) as Htk.
    { apply take_ge. pose proof (ListpackTheory.zlen_lpenc num [] es) as Hz. rewrite zlen_nil in Hz. unfold lp, zlen in *. lia. }
    rewrite Htk in Hu. rewrite Hu. cbn [mbind res_bind fst snd]. rewrite Hc.
    assert (zlen ps = zlen es) as -> by (unfold zlen; by rewrite (Forall2_length Hf)). by rewrite Hm.
Qed.

End complete.

Lemma lp_payload lp es :
  ListpackTheory.repr lp es -> exists num, ListpackTheory.num_ok num es /\ Listpack.lpBytes lp = Ok (ListpackTheory.total es) /\
    rdn lp 0 (ListpackTheory.total es) = Ok (ListpackTheory.lpenc num es []) /\ zlen (ListpackTheory.lpenc num es []) = ListpackTheory.total es.
Proof.
  intros (num & slack & -> & Hn & Hok & Ht). exists num. split; [done|]. split; [by apply ListpackTheory.bytes_spec|].
  pose proof (ListpackTheory.zlen_lpenc num [] es) as Hz. rewrite zlen_nil, Z.add_0_r in Hz. split; [|done]. rewrite <- Hz.
  replace (ListpackTheory.lpenc num es slack) with ([] ++ ListpackTheory.lpenc num es [] ++ slack); [apply (rdn_app [])|].
  unfold ListpackTheory.lpenc. cbn [app]. by rewrite <- !app_assoc.
Qed.

Section dump.
Context `{Allocator} (can_malloc : Z -> bool) (htab : Lzf.hash_table) (rdb_compression : bool).
Context (Hv : LzfSpec.valid_htab htab).

Lemma recheck {A} (x : res (A * Z)) : (w ← x; let '(rdb, n) := w in if n =? -1 then Ok (rdb, -1) else Ok (rdb, n)) = x.
Proof. destruct x as [[a n]|]; cbn [mbind res_bind]; [|done]. by destruct (Z.eqb_spec n (-1)) as [->|]. Qed.

Lemma save_block_stores ptr l b :
  rdn ptr 0 l = Ok b -> wf_bytes b -> zlen b < 2 ^ 62 -> Stores (D := rio_buffer) can_malloc (save_block htab rdb_compression ptr l) b.
Proof using Hv.
  intros Hr Hw Hl. eapply Stores_ext; [|by apply (rdbSaveRawString_stores (D := rio_buffer) can_malloc htab rdb_compression b)].
  intros rdb. unfold save_block. rewrite Hr. cbn [mbind res_bind]. symmetry. apply recheck.
Qed.

Lemma save_listpack_stores lp es b :
  ListpackTheory.repr lp es -> wf_bytes lp -> (l ← Listpack.lpBytes lp; rdn lp 0 l) = Ok b ->
  Stores (D := rio_buffer) can_malloc (fun rdb => l ← Listpack.lpBytes lp; save_block htab rdb_compression lp l rdb) b.
Proof using Hv.
  intros Hr Hw Hb. destruct (lp_payload lp es Hr) as (num & _ & Hl & Hrd & Hz). destruct Hr as (_ & _ & _ & _ & _ & Ht). rewrite Hl in Hb |- *. cbn [mbind res_bind] in *.
  apply save_block_stores; [done| |].
  - eapply LzfSpec.rdn_wf; [exact Hb|done].
  - rewrite Hrd in Hb. injection Hb as <-. lia.
Qed.

Lemma intset_contents_wf is_ vs : Intset.repr is_ vs -> wf_bytes (intset_bytes is_).
Proof.
  intros [_ _ Hc _ _]. unfold intset_bytes. rewrite Hc. apply Forall_app. split; [apply wf_le_bytes|]. apply Forall_app. split; [apply wf_le_bytes|].
  unfold Intset.E. apply Forall_concat, Forall_fmap, Forall_true. intros. apply wf_le_bytes.
Qed.

Lemma rdbSaveObject_stores o b :
  saveable o -> payload_bytes o = Ok b -> zlen b < 2 ^ 62 -> Stores (D := rio_buffer) can_malloc (rdbSaveObject htab rdb_compression o) b.
Proof using Hv.
  intros Hd Hb Hl. destruct o as [s|is_|lp|lp|lp]; cbn [saveable payload_bytes] in *.
  - injection Hb as <-. eapply Stores_ext; [|by apply (rdbSaveStringObject_stores (D := rio_buffer) can_malloc htab rdb_compression s)].
    intros rdb. cbn [rdbSaveObject]. symmetry. apply recheck.
  - injection Hb as <-. destruct Hd as (vs & Hr & _ & Hlen). destruct (intset_bytes_len is_ vs Hr Hlen) as (_ & Hblob & _).
    eapply Stores_ext; [|apply (save_block_stores (intset_bytes is_) (Intset.intsetBlobLen is_))]; [done|rewrite <- Hblob; apply rdn_all|by eapply intset_contents_wf|done].
  - destruct Hd as (es & Hr & Hw & _). by eapply Stores_ext, save_listpack_stores.
  - destruct Hd as (es & Hr & Hw & _). by eapply Stores_ext, save_listpack_stores.
  - destruct Hd as (es & Hr & Hw & _). by eapply Stores_ext, save_listpack_stores.
Qed.

(** What is loaded has at least one byte before it. *)
Lemma Loads_nonempty s : ~ Loads (D := rio_buffer) can_malloc [] s.
Proof.
  intros Hl. destruct sdsempty_spec as (d & _ & Hr). destruct (Hl (rioInitWithBuffer d) [] RDB_LOAD_NONE) as (r' & o & He & _).
  { by apply rioInitWithBuffer_gives. }
  unfold rdbGenericLoadStringObject, rdbLoadLen, rdbLoadLenByRef in He.
  destruct (rioRead_cases (rioInitWithBuffer d) [] 1) as [(r1 & Hr1)|(r1 & b & l1 & _ & Hb & Hz & _)].
  - by apply rioInitWithBuffer_gives.
  - lia.
  - rewrite Hr1 in He. done.
  - symmetry in Hb. apply app_nil in Hb as [-> _]. done.
Qed.

Definition type_byte (o : object) : Z :=
  match o with
  | OString _ => RDB_TYPE_STRING
  | OSetIntset _ => RDB_TYPE_SET_INTSET
  | OSetListpack _ => RDB_TYPE_SET_LISTPACK
  | OZsetListpack _ => RDB_TYPE_ZSET_LISTPACK
  | OHashListpack _ => RDB_TYPE_HASH_LISTPACK
  end.

Context (host : endianness) (t : table) (addr : Z) (Ht : ready host t) (lim : Z) (Hp : plenty can_malloc lim).

Lemma createDumpPayload_spec o b :
  saveable o -> payload_bytes o = Ok b -> zlen b + 28 <= lim -> zlen b + 26 <= max_size ->
  exists s u, createDumpPayload htab rdb_compression host t addr o = Ok s /\
    let body := type_byte o :: u ++ footer_version in
    repr s (body ++ le_bytes 8 (crc_of 0 body)) /\ wf_bytes body /\ zlen u <= zlen b + 15 /\ Loads (D := rio_buffer) can_malloc u b.
Proof using Hv Ht Hp.
  intros Hd Hb Hl Hm. unfold max_size in Hm. destruct (rdbSaveObject_stores o b Hd Hb ltac:(lia)) as (u & [_ Hu] & Hlu & Hwu & Hload). specialize (Hload lim Hp Hl).
  assert (u <> []) as Hne by (intros ->; by eapply Loads_nonempty). assert (0 < zlen u) as Hpos by (destruct u; [done|rewrite zlen_cons; pose proof (zlen_nonneg u); lia]).
  destruct sdsempty_spec as (d & Hd0 & Hr0). unfold createDumpPayload. rewrite Hd0. cbn [mbind res_bind].
  assert (is_byte (type_byte o)) as Hty by (by destruct o).
  destruct (rdbWriteRaw_saves (D := rio_buffer) [type_byte o]) as [_ Hw]; [constructor; [exact Hty|constructor]|].
  destruct (Hw (rioInitWithBuffer d) [] (rioInitWithBuffer_writes d [] Hr0)) as (r1 & k & Hk & Hcap & Hfit & Hres);
    [unfold max_size; change (zlen [] + zlen [type_byte o]) with 1; lia|].
  assert (rdbSaveObjectType o (Some (rioInitWithBuffer d)) = Ok (Some r1, k)) as -> by (destruct o; exact Hk). cbn [mbind res_bind fst snd].
  destruct Hres as [[-> _]|[-> Hw1]];
    [destruct Hfit; [change (1 <= max_size); unfold max_size; lia|done]|]. cbn [app] in Hw1.
  change (zlen [type_byte o] =? 0) with false. cbn [negb cassert mbind res_bind].
  destruct (Hu r1 [type_byte o] Hw1) as (r2 & k & -> & _ & Hfit2 & Hres); [unfold max_size; change (zlen [type_byte o]) with 1; lia|]. cbn [mbind res_bind fst snd].
  destruct Hres as [[-> _]|[-> Hw2]]; 
    [destruct Hfit2; [rewrite Hcap; change (zlen [type_byte o] + zlen u <= max_size); unfold max_size; change (zlen [type_byte o]) with 1; lia|done]|].
  rewrite (proj2 (Z.eqb_neq (zlen u) 0)) by lia. cbn [negb cassert mbind res_bind]. destruct Hw2 as (_ & _ & Hst). cbn in Hst.
  assert (wf_bytes footer_version) as Hwf by (apply (bool_decide_unpack _); vm_compute; exact I).
  destruct (sdscatlen_spec (ptr (io r2)) _ footer_version Hst Hwf) as (p & -> & Hrp); [unfold max_size; rewrite zlen_cons; change (zlen footer_version) with 2; lia|].
  cbn [app] in Hrp. cbn [mbind res_bind]. rewrite (sdslen_spec _ _ Hrp). cbn [mbind res_bind]. rewrite (get_all _ _ Hrp). cbn [mbind res_bind].
  assert (wf_bytes (type_byte o :: u ++ footer_version)) as Hwb by (constructor; [done|by apply Forall_app]).
  rewrite crc64_spec by (done || lia). cbn [mbind res_bind].
  destruct (sdscatlen_spec p _ (le_bytes 8 (crc_of 0 (type_byte o :: u ++ footer_version))) Hrp (wf_le_bytes _ _)) as (s & -> & Hrs).
  { rewrite zlen_cons, zlen_app, zlen_le_bytes_nat. change (zlen footer_version) with 2. unfold max_size. lia. }
  exists s, u. split; [done|]. cbv zeta. split; [done|]. split; [done|]. split; [lia|done].
Qed.

(** What the deep checks accept, the others do. *)
Lemma shallow_listpack {U V} lp size cb (u : U) u' (v : V) :
  Listpack.lpValidateIntegrity lp size true cb u = Ok (u', true) -> Listpack.lpValidateIntegrity lp size false None v = Ok (v, true).
Proof.
  unfold Listpack.lpValidateIntegrity. destruct (_ <? _); [done|]. intros Hd. apply bind_ok in Hd as (b & -> & Hd). cbn [mbind res_bind].
  destruct (negb _); [done|]. apply bind_ok in Hd as (e & -> & Hd). cbn [mbind res_bind]. by destruct (negb _).
Qed.

Lemma validate_dups_any deep lp size n : lpValidateIntegrityAndDups lp size true n = Ok true -> lpValidateIntegrityAndDups lp size deep n = Ok true.
Proof.
  destruct deep; [done|]. unfold lpValidateIntegrityAndDups. cbn [negb]. intros Hd. apply bind_ok in Hd as ([u ok] & Hd & Hc). cbn [fst snd] in Hc.
  destruct (negb _); [done|]. injection Hc as ->. by rewrite (shallow_listpack _ _ _ _ _ tt Hd).
Qed.

Lemma intset_validate_any deep p size : Intset.intsetValidateIntegrity p size true = Ok true -> Intset.intsetValidateIntegrity p size deep = Ok true.
Proof.
  destruct deep; [done|]. unfold Intset.intsetValidateIntegrity. destruct (_ <? _); [done|]. intros Hd. apply bind_ok in Hd as (is_ & -> & Hd). cbn [mbind res_bind].
  by repeat case_match.
Qed.

Lemma plain_is_str (r : rio rio_buffer) r' x : rdbGenericLoadStringObject can_malloc r RDB_LOAD_PLAIN = Ok (r', Some x) -> exists b, x = Str b.
Proof.
  unfold rdbGenericLoadStringObject, rdbLoadIntegerObject, rdbLoadLzfStringObject, target. intros Hl. apply bind_ok in Hl as ([[r1 e] n] & _ & Hl).
  repeat first [case_match | progress simplify_res]; simplify_eq; eauto.
Qed.

Section load_back.
Context (rt : runtime) (cfg : config) (deep : bool) (load_other : Z -> rio rio_buffer -> res (rio rio_buffer * option loaded_object)).

(** A saved listpack passes the checks and is kept or converted. *)
Lemma load_listpack_back lp es b (r : rio rio_buffer) u rest n limit mk convert :
  n = 1 \/ n = 2 -> block_listpack n lp es -> (l ← Listpack.lpBytes lp; rdn lp 0 l) = Ok b ->
  Loads (D := rio_buffer) can_malloc u b -> gives r (u ++ rest) ->
  exists r' lp', ListpackTheory.repr lp' es /\ 0 <= zlen es / n <= 2 ^ 60 /\ zlen es <= DictTheory.max_entries /\
    load_lp can_malloc deep n limit mk convert r =
      if limit <? zlen es / n then o ← convert lp' (zlen es / n); Ok (r', Some o) else Ok (r', Some (Keep (mk lp'))).
Proof using.
  intros Hn (Hr & Hw & Hne & Hm & Hnd) Hb Hl Hg. unfold load_lp. destruct (Hl r rest RDB_LOAD_PLAIN Hg) as (r1 & o & Ho & Ht1 & _). rewrite Ho. cbn [mbind res_bind fst snd].
  destruct (plain_is_str _ _ _ Ho) as (b' & ->). cbn [text] in Ht1. subst b'. cbn [mbind res_bind].
  destruct (lp_payload lp es Hr) as (num & Hnum & Hbytes & Hrd & Hz). rewrite Hbytes in Hb. cbn [mbind res_bind] in Hb. rewrite Hrd in Hb. injection Hb as <-.
  pose proof Hr as (_ & _ & _ & _ & Hok & Htot). rewrite Hz.
  rewrite (validate_dups_any deep _ _ _ (validate_dups_complete num es n Hn Hok Hnd Hnum Htot Hm)). cbn [mbind res_bind negb].
  unfold within. assert (ListpackTheory.repr (ListpackTheory.lpenc num es []) es) as Hr' by (exists num, []; done).
  destruct (ListpackTheory.length_spec _ _ Hr') as (lp' & -> & Hr2 & _). cbn [mbind res_bind].
  assert (0 < zlen es) by (destruct es as [|e es']; [done|]; rewrite zlen_cons; pose proof (zlen_nonneg es'); lia).
  assert (zlen es / n <> 0) as Hdz.
  { intros Hz0. pose proof (Z.div_mod (zlen es) n ltac:(lia)) as Hdm. rewrite Hz0, Hm in Hdm. lia. }
  pose proof (ListpackTheory.length_lpenc num es [] Hok) as Hlen. unfold zlen in Hz at 1. assert (zlen es < 2 ^ 32) as Hs by (unfold zlen in *; lia).
  assert (0 <= zlen es / n <= zlen es) by (destruct Hn as [->| ->]; [rewrite Z.div_1_r|pose proof (Z.div_mod (zlen es) 2 ltac:(lia)); pose proof (Z.mod_pos_bound (zlen es) 2 ltac:(lia))]; lia).
  exists r1, lp'. split; [done|]. split; [lia|]. split; [unfold DictTheory.max_entries; lia|].
  rewrite (proj2 (Z.eqb_neq _ 0) Hdz). cbn [mbind res_bind]. destruct (_ <? _); [|done]. by destruct (convert lp' _).
Qed.

Context (Hrt : runtime_ok rt).

Lemma flat_half {A} (prs : list (A * A)) : zlen (flat prs) / 2 = zlen prs.
Proof. rewrite flat_length, Z.mul_comm. apply Z.div_mul. lia. Qed.

Lemma block_keys lp prs : block_listpack 2 lp (flat prs) -> NoDup (LP.text <$> prs.*1).
Proof.
  intros (_ & _ & _ & _ & Hnd). rewrite flat_fmap, keys_2, <- list_fmap_compose in Hnd. by rewrite <- list_fmap_compose.
Qed.

Lemma load_set_back lp es b (r : rio rio_buffer) u rest : block_listpack 1 lp es -> (l ← Listpack.lpBytes lp; rdn lp 0 l) = Ok b ->
  Loads (D := rio_buffer) can_malloc u b -> gives r (u ++ rest) ->
  exists r' x, load_lp can_malloc deep 1 (set_max_listpack_entries cfg) OSetListpack (setTypeConvert rt) r = Ok (r', Some x) /\ same_value rt cfg (OSetListpack lp) x.
Proof using Hrt.
  intros Hlp Hb Hl Hg. pose proof Hlp as (Hr & _ & _ & _ & Hnd). rewrite keys_1 in Hnd.
  destruct (load_listpack_back lp es b r u rest 1 (set_max_listpack_entries cfg) OSetListpack (setTypeConvert rt)) as (r' & lp' & Hr' & Hcap & Hroom & ->); [by left|done..|].
  rewrite Z.div_1_r in *. cbn [same_value]. destruct (_ <? _) eqn:E.
  - destruct (convert_set_listpack rt Hrt lp' _ es (zlen es) (holds_repr lp' es Hr') Hnd Hcap Hroom) as (d & Ed & Hd & Hm).
    unfold setTypeConvert. rewrite Ed. cbn [mbind res_bind]. eexists _, _. split; [done|]. exists es. rewrite E. split; [done|]. by exists d.
  - eexists _, _. split; [done|]. exists es. rewrite E. split; [done|]. by exists lp'.
Qed.

Lemma load_hash_back lp prs b (r : rio rio_buffer) u rest : block_listpack 2 lp (flat prs) -> (l ← Listpack.lpBytes lp; rdn lp 0 l) = Ok b ->
  Loads (D := rio_buffer) can_malloc u b -> gives r (u ++ rest) ->
  exists r' x, load_lp can_malloc deep 2 (hash_max_listpack_entries cfg) OHashListpack (hashTypeConvert rt) r = Ok (r', Some x) /\ same_value rt cfg (OHashListpack lp) x.
Proof using Hrt.
  intros Hlp Hb Hl Hg. pose proof Hlp as (Hr & _). pose proof (block_keys lp prs Hlp) as Hnd. pose proof (zlen_nonneg prs).
  destruct (load_listpack_back lp (flat prs) b r u rest 2 (hash_max_listpack_entries cfg) OHashListpack (hashTypeConvert rt)) as (r' & lp' & Hr' & Hcap & Hroom & ->); [by right|done..|].
  rewrite flat_half in *. rewrite flat_length in Hroom. cbn [same_value]. destruct (_ <? _) eqn:E.
  - destruct (convert_hash rt Hrt lp' _ prs (zlen prs) (holds_repr lp' _ Hr') ltac:(by rewrite fields_keys) Hcap ltac:(lia)) as (d & Ed & Hd & Hm).
    unfold hashTypeConvert. rewrite Ed. cbn [mbind res_bind]. eexists _, _. split; [done|]. exists prs. rewrite E. split; [done|]. by exists d.
  - eexists _, _. split; [done|]. exists prs. rewrite E. split; [done|]. by exists lp'.
Qed.

Lemma load_zset_back lp prs b (r : rio rio_buffer) u rest : block_listpack 2 lp (flat prs) -> (l ← Listpack.lpBytes lp; rdn lp 0 l) = Ok b ->
  Loads (D := rio_buffer) can_malloc u b -> gives r (u ++ rest) ->
  (Forall (fun x => ~ nan_score rt x) prs -> exists r' x,
    load_lp can_malloc deep 2 (zset_max_listpack_entries cfg) OZsetListpack (zsetConvert rt) r = Ok (r', Some x) /\ same_value rt cfg (OZsetListpack lp) x) /\
  (Exists (nan_score rt) prs -> zset_max_listpack_entries cfg < zlen prs ->
    load_lp can_malloc deep 2 (zset_max_listpack_entries cfg) OZsetListpack (zsetConvert rt) r = Fault AssertFailed).
Proof using Hrt.
  intros Hlp Hb Hl Hg. pose proof Hlp as (Hr & _). pose proof (block_keys lp prs Hlp) as Hnd. pose proof (zlen_nonneg prs).
  destruct (load_listpack_back lp (flat prs) b r u rest 2 (zset_max_listpack_entries cfg) OZsetListpack (zsetConvert rt)) as (r' & lp' & Hr' & Hcap & Hroom & ->); [by right|done..|].
  rewrite flat_half in *. rewrite flat_length in Hroom. cbn [same_value].
  destruct (convert_zset rt Hrt lp' _ prs (zlen prs) (holds_repr lp' _ Hr') Hnd Hcap ltac:(lia)) as [Hyes Hno]. unfold zsetConvert. split.
  - intros Hall. clear Hno. destruct (_ <? _) eqn:E.
    + destruct (Hyes Hall) as (h & zs & ents & Ez & Hok & Hi). rewrite Ez. cbn [mbind res_bind fst snd]. eexists _, _. split; [reflexivity|].
      exists prs. rewrite E. split; [exact Hr|]. exists h, zs, ents. split; [reflexivity|]. split; [exact Hok|exact Hi].
    + eexists _, _. split; [reflexivity|]. exists prs. rewrite E. split; [exact Hr|]. exists lp'. split; [reflexivity|exact Hr'].
  - intros Hbad Hlim. rewrite (proj2 (Z.ltb_lt _ _) Hlim). by rewrite (Hno Hbad).
Qed.

Lemma load_intset_back is_ (r : rio rio_buffer) u rest : saveable (OSetIntset is_) -> Loads (D := rio_buffer) can_malloc u (intset_bytes is_) -> gives r (u ++ rest) ->
  exists r' x, load_intset can_malloc rt deep (set_max_intset_entries cfg) r = Ok (r', Some x) /\ same_value rt cfg (OSetIntset is_) x.
Proof using Hrt.
  intros (vs & Hr & Hne & Hlen) Hl Hg. destruct (intset_validate_complete is_ vs Hr Hne Hlen) as [Hof Hval]. unfold load_intset.
  destruct (Hl r rest RDB_LOAD_PLAIN Hg) as (r1 & x & Hx & Ht1 & _). rewrite Hx. cbn [mbind res_bind fst snd].
  destruct (plain_is_str _ _ _ Hx) as (b' & ->). cbn [text] in Ht1. subst b'. rewrite (intset_validate_any deep _ _ Hval). cbn [mbind res_bind negb].
  rewrite Hof. cbn [mbind res_bind same_value]. pose proof (Intset.repr_len _ _ Hr) as Hn. unfold Intset.intsetLen. rewrite Hn. destruct (_ <? _) eqn:E.
  - destruct (intset_values is_ vs Hr) as [Hi Hnd]. pose proof (zlen_nonneg vs). destruct Hr as [Hw Hl' Hc Hrange Hs].
    destruct (convert_set_intset rt Hrt is_ vs (zlen vs) ltac:(done) Hlen Hi Hnd ltac:(lia)) as (d & -> & Hd & Hm). cbn [mbind res_bind].
    eexists _, _. split; [done|]. exists vs. rewrite E. split; [done|]. by exists d.
  - eexists _, _. split; [done|]. exists vs. by rewrite E.
Qed.

Lemma load_back o b (r : rio rio_buffer) u rest :
  dumpable rt o -> payload_bytes o = Ok b -> Loads (D := rio_buffer) can_malloc u b -> gives r (u ++ rest) ->
  exists r' x, rdbLoadObject can_malloc rt cfg deep load_other (type_byte o) r = Ok (r', Some x) /\ same_value rt cfg o x.
Proof using Hrt.
  intros Hd Hb Hl Hg. destruct o as [s|is_|lp|lp|lp]; cbn [dumpable payload_bytes type_byte] in *.
  - injection Hb as <-. unfold rdbLoadObject, load_string. rewrite Z.eqb_refl. destruct (Hl r rest RDB_LOAD_ENC Hg) as (r1 & x & -> & Hx & _). cbn [mbind res_bind fst snd].
    destruct x as [c|v]; cbn [text loaded_robj] in *.
    + destruct (try_encoding_spec (SdsObj c) I) as (s' & -> & Hs & _). cbn [mbind res_bind]. eexists _, _. split; [done|]. exists s'. split; [done|]. by rewrite Hs.
    + cbn [tryObjectEncodingEx mbind res_bind]. eexists _, _. split; [done|]. by exists (IntObj v).
  - injection Hb as <-. by apply (load_intset_back is_ r u rest).
  - destruct Hd as (es & Hlp). by apply (load_set_back lp es b r u rest).
  - destruct Hd as (prs & Hlp & Hnum). by apply (load_zset_back lp prs b r u rest).
  - destruct Hd as (prs & Hlp). by apply (load_hash_back lp prs b r u rest).
Qed.

End load_back.

End dump.

(** What DUMP wrote passes the checks of RESTORE, which then loads the object. *)
Lemma dump_then_load `{Allocator} can_malloc htab rdb_compression rt host t addr addr' cfg deep skip load_other lim o b :
  LzfSpec.valid_htab htab -> ready host t -> plenty can_malloc lim ->
  saveable o -> payload_bytes o = Ok b -> zlen b + 28 <= lim -> zlen b + 26 <= max_size ->
  exists s r u rest, createDumpPayload htab rdb_compression host t addr o = Ok s /\ Loads (D := rio_buffer) can_malloc u b /\ gives r (u ++ rest) /\
    restore_object can_malloc rt host t addr' cfg deep skip load_other s =
      (w ← rdbLoadObject can_malloc rt cfg deep load_other (type_byte o) r; Ok (match snd w with None => BadFormat | Some o => Restored o end)).
Proof.
  intros Hv Ht Hp Hd Hb Hl Hm.
  destruct (createDumpPayload_spec can_malloc htab rdb_compression Hv host t addr Ht lim Hp o b Hd Hb Hl Hm) as (s & u & Hs & Hr & Hw & Hlu & Hload). cbv zeta in Hr.
  set (body := type_byte o :: u ++ footer_version) in *. set (c := le_bytes 8 (crc_of 0 body)) in *.
  assert (wf_bytes (body ++ c)) as Hwp by (apply Forall_app; split; [done|apply wf_le_bytes]).
  assert (crc_of 0 (body ++ c) = 0) as Hz by (apply crc_of_residue; [done|apply wf_le_bytes|apply length_le_bytes|done]).
  assert (body ++ c = [type_byte o] ++ u ++ footer_version ++ c) as Hbc by (unfold body; cbn; by rewrite <- app_assoc).
  assert (zlen (body ++ c) = 11 + zlen u) as Hlen.
  { rewrite Hbc, !zlen_app. unfold c. rewrite zlen_le_bytes_nat. change (zlen [type_byte o]) with 1. change (zlen footer_version) with 2. lia. }
  assert (acceptable skip (body ++ c) = true) as Hacc.
  { pose proof (zlen_nonneg u). unfold acceptable. rewrite Hz, (proj2 (Z.leb_le 10 _)), orb_true_r, andb_true_r by lia. cbn [andb].
    unfold version. rewrite Hlen, Hbc, (app_assoc [type_byte o]). replace (11 + zlen u - 10) with (zlen ([type_byte o] ++ u) + 0) by (rewrite zlen_app; change (zlen [type_byte o]) with 1; lia).
    rewrite <- Z.add_assoc, !rd_app_off by lia. done. }
  assert (gives (rioInitWithBuffer s) (type_byte o :: u ++ footer_version ++ c)) as Hg.
  { change (type_byte o :: u ++ footer_version ++ c) with ([type_byte o] ++ u ++ footer_version ++ c). rewrite <- Hbc. apply rioInitWithBuffer_gives; [done|]. rewrite Hlen. unfold max_size in Hm. lia. }
  destruct (rioRead_byte _ _ _ Hg) as (r1 & Hr1 & Hg1). exists s, r1, u, (footer_version ++ c). split; [done|]. split; [done|]. split; [done|].
  rewrite (restore_checks can_malloc host t addr' Ht rt cfg load_other deep skip s (body ++ c) Hr Hwp), Hacc. cbn [negb].
  unfold rdbLoadObjectType, rdbLoadType. rewrite Hr1. cbn [mbind res_bind fst snd]. rewrite rd_single. cbn [mbind res_bind fst snd].
  assert ((type_byte o =? -1) = false) as Hnt by (by destruct o). assert (rdbIsObjectType (type_byte o) = true) as Hot by (by destruct o).
  rewrite Hnt, Hot. cbn [negb mbind res_bind fst snd]. by rewrite Hnt.
Qed.

Lemma dump_then_restore `{Allocator} can_malloc htab rdb_compression rt host t addr addr' cfg deep skip load_other lim o b :
  LzfSpec.valid_htab htab -> ready host t -> plenty can_malloc lim -> runtime_ok rt ->
  dumpable rt o -> payload_bytes o = Ok b -> zlen b + 28 <= lim -> zlen b + 26 <= max_size ->
  exists s x, createDumpPayload htab rdb_compression host t addr o = Ok s /\
    restore_object can_malloc rt host t addr' cfg deep skip load_other s = Ok (Restored x) /\ same_value rt cfg o x.
Proof.
  intros Hv Ht Hp Hrt Hd Hb Hl Hm.
  destruct (dump_then_load can_malloc htab rdb_compression rt host t addr addr' cfg deep skip load_other lim o b Hv Ht Hp (dumpable_saveable rt o Hd) Hb Hl Hm)
    as (s & r & u & rest & Hs & Hload & Hg & Hres).
  destruct (load_back can_malloc rt cfg deep load_other Hrt o b r u rest Hd Hb Hload Hg) as (r' & x & E & Hx).
  exists s, x. split; [done|]. rewrite Hres, E. done.
Qed.

(** C9. RESTORE gives back what DUMP wrote: for strings, integer sets and
    listpack-encoded sets, sorted sets (whose scores are numbers) and hashes,
    on hosts of either byte order, with any compression, initial hash table and
    depth of the checks, the payload that [createDumpPayload] makes passes the
    check of version and checksum, and loads as the same value: in its own
    encoding, or when it has more entries than the limit of that encoding as
    the dict, or the dict and skip list, of exactly its elements. *)
Theorem dump_restore_roundtrip `{Allocator} can_malloc htab rdb_compression rt host t addr addr' cfg deep skip load_other lim o b :
  LzfSpec.valid_htab htab -> crc64_init host crc64_table = Ok t -> plenty can_malloc lim -> runtime_ok rt ->
  dumpable rt o -> payload_bytes o = Ok b -> zlen b + 28 <= lim -> zlen b + 26 <= max_size ->
  exists s x, createDumpPayload htab rdb_compression host t addr o = Ok s /\
    restore_object can_malloc rt host t addr' cfg deep skip load_other s = Ok (Restored x) /\ same_value rt cfg o x.
Proof. intros Hv Hi. apply dump_then_restore; [done|by apply init_ready]. Qed.

(** C29. A sorted set in a listpack with more elements than the limit, one of
    them with a score that [strtod] reads as NaN, stops the server: its payload
    passes the check of version and checksum and, at any depth, the integrity
    check of the listpack, and the conversion to a skip list that follows fails
    the assertion of [zslInsert]. *)
Theorem restore_nan_asserts `{Allocator} can_malloc htab rdb_compression rt host t addr addr' cfg deep skip load_other lim lp prs b :
  LzfSpec.valid_htab htab -> crc64_init host crc64_table = Ok t -> plenty can_malloc lim -> runtime_ok rt ->
  block_listpack 2 lp (flat prs) -> Exists (nan_score rt) prs -> zset_max_listpack_entries cfg < zlen prs ->
  payload_bytes (OZsetListpack lp) = Ok b -> zlen b + 28 <= lim -> zlen b + 26 <= max_size ->
  exists s, createDumpPayload htab rdb_compression host t addr (OZsetListpack lp) = Ok s /\
    restore_object can_malloc rt host t addr' cfg deep skip load_other s = Fault AssertFailed.
Proof.
  intros Hv Hi Hp Hrt Hlp Hnan Hlim Hb Hl Hm.
  destruct (dump_then_load can_malloc htab rdb_compression rt host t addr addr' cfg deep skip load_other lim (OZsetListpack lp) b Hv (init_ready _ _ Hi) Hp
    (ex_intro _ prs Hlp) Hb Hl Hm) as (s & r & u & rest & Hs & Hload & Hg & Hres).
  destruct (load_zset_back can_malloc rt cfg deep Hrt lp prs b r u rest Hlp Hb Hload Hg) as [_ Hno].
  exists s. split; [done|]. rewrite Hres. cbn [type_byte]. unfold rdbLoadObject. cbn [Z.eqb Pos.eqb]. by rewrite (Hno Hnan Hlim).
Qed.

#[local] Existing Instance calloc8.

Definition some_config : config :=
  {| set_max_intset_entries := 512; set_max_listpack_entries := 128; zset_max_listpack_entries := 128; hash_max_listpack_entries := 128 |}.

(** A configuration where a sorted set of two elements is converted. *)
Definition small_config : config :=
  {| set_max_intset_entries := 1; set_max_listpack_entries := 1; zset_max_listpack_entries := 1; hash_max_listpack_entries := 1 |}.

(** A process whose [strtod] reads "nan" as NaN and other texts as 2.5. *)
Definition some_runtime : runtime := {|
  siphash k := u64 (foldr (fun b a => a * 33 + b) 5381 k);
  dict_can_resize := Dict.DICT_RESIZE_ENABLE;
  strtod b := if bool_decide (b = [110; 97; 110; 0]) then SpecFloat.S754_nan else SpecFloat.S754_finite false 5 (-1);
  random_draws i := [if Nat.even i then 0 else 2 ^ 30; 2 ^ 30];
  junk_backward := None;
  junk_level _ := {| Zskiplist.forward := None; Zskiplist.span := 0 |}
|}.

Lemma some_runtime_ok : runtime_ok some_runtime.
Proof.
  split; [intros k; by apply wrapu_range|]. intros i. cbn. right. left. vm_compute. discriminate.
Qed.

(** A sorted set of "a" with the score 7 and "b" with a score that is a text. *)
Definition two_scores (text : bytes) : list (LP.elem * LP.elem) := [(LP.EStr [97], LP.EInt 7); (LP.EStr [98], LP.EStr text)].
Definition some_zset (text : bytes) : bytes := ListpackTheory.lpenc 4 (flat (two_scores text)) [0; 0; 0].

(** What the samples need to know of their listpack. *)
Lemma block_sample es : zlen es = 4 -> Forall LP.elem_ok es -> ListpackTheory.total es < 2 ^ 32 -> wf_bytes (ListpackTheory.lpenc 4 es [0; 0; 0]) ->
  NoDup (keys 2 (LP.text <$> es)) -> block_listpack 2 (ListpackTheory.lpenc 4 es [0; 0; 0]) es.
Proof.
  intros Hz Hok Ht Hw Hnd. split; [|split; [exact Hw|split; [by intros ->|split; [by rewrite Hz|exact Hnd]]]].
  exists 4, [0; 0; 0]. split; [done|]. split; [left; split; [done|vm_compute; reflexivity]|]. done.
Qed.

Lemma some_zset_block text : text = [50; 46; 53] \/ text = [110; 97; 110] -> block_listpack 2 (some_zset text) (flat (two_scores text)).
Proof.
  intros [->| ->]; apply block_sample; (reflexivity || (repeat constructor; vm_compute; congruence) || (apply (bool_decide_unpack _); vm_compute; exact I)).
Qed.

(** A payload with one bit flipped. *)
Lemma restore_detects_corruption_witness :
  exists t argv3 argv3', crc64_init Big crc64_table = Ok t /\
    restore_object (H := calloc8) (fun _ => true) some_runtime Big t 5 some_config true false (fun _ r => Ok (r, None)) argv3 <> Ok BadChecksum /\
    restore_object (H := calloc8) (fun _ => true) some_runtime Big t 5 some_config true false (fun _ r => Ok (r, None)) argv3' = Ok BadChecksum.
Proof.
  destruct (crc64_init_ready Big crc64_table shape_zeros) as (t & Ht & Hr). exists t.
  destruct (createDumpPayload_spec (H := calloc8) (fun _ => true) (fun _ => - 2 ^ 32) true ltac:(intros i; vm_compute; reflexivity) Big t 3 Hr 1000
    ltac:(split; [vm_compute; reflexivity|intros n _; reflexivity]) (OString (IntObj 7)) [55]) as (s & u & Hs & Hrep & Hw & Hlu & _);
    [vm_compute; split; discriminate|reflexivity|vm_compute; discriminate|vm_compute; discriminate|].
  destruct (dump_then_restore (H := calloc8) (fun _ => true) (fun _ => - 2 ^ 32) true some_runtime Big t 3 5 some_config true false (fun _ r => Ok (r, None)) 1000
    (OString (IntObj 7)) [55]) as (s' & x & Hs' & Hx & _); [intros i; vm_compute; reflexivity|exact Hr|split; [vm_compute; reflexivity|intros n _; reflexivity]|exact some_runtime_ok|
    vm_compute; split; discriminate|reflexivity|vm_compute; discriminate|vm_compute; discriminate|].
  cbv zeta in Hrep. set (body := type_byte (OString (IntObj 7)) :: u ++ footer_version) in *. set (p := body ++ le_bytes 8 (crc_of 0 body)) in *.
  assert (Hwp : wf_bytes p) by (apply Forall_app; split; [exact Hw|apply wf_le_bytes]).
  set (q := le_bytes (length p) (Z.lxor (le_val p) (Z.shiftl 1 0))). rewrite Hs in Hs'. injection Hs' as <-.
  assert (Hlp : 11 <= zlen p <= 100).
  { unfold p, body. rewrite zlen_app, zlen_cons, zlen_app, zlen_le_bytes_nat. change (zlen footer_version) with 2. change (zlen [55]) with 1 in Hlu. pose proof (zlen_nonneg u). lia. }
  assert (Hlq : length q = length p) by apply length_le_bytes.
  assert (Hwq : wf_bytes (take (Z.to_nat (zlen p)) q)) by apply Forall_take, wf_le_bytes.
  destruct (sdsnewlen_spec (H := calloc8) q (zlen p)) as (sq & _ & Hq); [unfold max_size; lia|unfold zlen; lia|exact Hwq|].
  rewrite take_ge in Hq by (unfold zlen; lia). exists s, sq. split; [exact Ht|]. split; [rewrite Hx; discriminate|].
  apply (restore_detects_corruption (H := calloc8) (fun _ => true) some_runtime Big t 5 some_config (fun _ r => Ok (r, None)) true s sq p q 1 0);
    [exact Ht|exact Hrep|exact Hq|exact Hwp|apply wf_le_bytes|exact Hlq| |lia|lia|rewrite Hx; discriminate].
  unfold q. rewrite le_val_bytes. apply Z.mod_small. pose proof (le_val_range p Hwp) as Hr1. apply lxor_range; [lia|exact Hr1|].
  change (Z.shiftl 1 0) with 1. split; [lia|]. apply Z.pow_gt_1; unfold zlen in Hlp; lia.
Defined.



Lemma dump_restore_roundtrip_witness :
  exists t s x, crc64_init Little crc64_table = Ok t /\
    createDumpPayload (H := calloc8) (fun _ => - 2 ^ 32) true Little t 3 (OZsetListpack (some_zset [50; 46; 53])) = Ok s /\
    restore_object (H := calloc8) (fun _ => true) some_runtime Little t 5 small_config true false (fun _ r => Ok (r, None)) s = Ok (Restored x) /\
    same_value some_runtime small_config (OZsetListpack (some_zset [50; 46; 53])) x.
Proof.
  destruct (crc64_init_ready Little crc64_table shape_zeros) as (t & Ht & _). exists t.
  destruct (dump_restore_roundtrip (H := calloc8) (fun _ => true) (fun _ => - 2 ^ 32) true some_runtime Little t 3 5 small_config true false (fun _ r => Ok (r, None)) 1000
    (OZsetListpack (some_zset [50; 46; 53])) (ListpackTheory.lpenc 4 (flat (two_scores [50; 46; 53])) [])) as (s & x & H1 & H2 & H3).
  - intros i. vm_compute. reflexivity.
  - exact Ht.
  - split; [vm_compute; reflexivity|]. intros n _. reflexivity.
  - exact some_runtime_ok.
  - exists (two_scores [50; 46; 53]). split; [apply some_zset_block; left; reflexivity|]. repeat constructor; vm_compute; discriminate.
  - vm_compute. reflexivity.
  - vm_compute. discriminate.
  - vm_compute. discriminate.
  - exists s, x. split; [exact Ht|]. split; [exact H1|]. split; [exact H2|exact H3].
Defined.

Lemma restore_nan_asserts_witness :
  exists t s, crc64_init Little crc64_table = Ok t /\
    createDumpPayload (H := calloc8) (fun _ => - 2 ^ 32) true Little t 3 (OZsetListpack (some_zset [110; 97; 110])) = Ok s /\
    restore_object (H := calloc8) (fun _ => true) some_runtime Little t 5 small_config true false (fun _ r => Ok (r, None)) s = Fault AssertFailed.
Proof.
  destruct (crc64_init_ready Little crc64_table shape_zeros) as (t & Ht & _). exists t.
  destruct (restore_nan_asserts (H := calloc8) (fun _ => true) (fun _ => - 2 ^ 32) true some_runtime Little t 3 5 small_config true false (fun _ r => Ok (r, None)) 1000
    (some_zset [110; 97; 110]) (two_scores [110; 97; 110]) (ListpackTheory.lpenc 4 (flat (two_scores [110; 97; 110])) [])) as (s & H1 & H2).
  - intros i. vm_compute. reflexivity.
  - exact Ht.
  - split; [vm_compute; reflexivity|]. intros n _. reflexivity.
  - exact some_runtime_ok.
  - apply some_zset_block. right. reflexivity.
  - right. left. vm_compute. reflexivity.
  - vm_compute. reflexivity.
  - vm_compute. reflexivity.
  - vm_compute. discriminate.
  - vm_compute. discriminate.
  - exists s. split; [exact Ht|]. split; [exact H1|exact H2].
Defined.

End DumpSpec.
