(* ===== verification/Dll.v ===== *)
(** * Doubly linked nodes on a heap

    The nodes of adlist.c and quicklist.c have a pointer to the previous and to
    the next node beside their contents.  A heap maps locations to nodes;
    [chain h ns] says that the nodes [ns] (locations and contents) are linked in
    this order in both directions.  Linking, unlinking and changing a node keep
    the rest of the chain, and leave everything else on the heap alone. *)

From S2P Require Import Prelude.
From stdpp Require Import list gmap fin_maps.
#[local] Open Scope Z_scope.

Module Dll.

Definition loc : Type := positive.

Section dll.
Context {D : Type}.

Record dnode : Type := { prev : option loc; next : option loc; dat : D }.

#[local] Abbreviation dheap := (gmap loc dnode).

(** ** Access *)

Definition get (h : dheap) (x : loc) : res dnode :=
  match h !! x with Some n => Ok n | None => Fault OutOfBounds end.

(** A pointer that the code follows without a test. *)
Definition the (x : option loc) : res loc :=
  match x with Some x => Ok x | None => Fault OutOfBounds end.

Definition with_prev (p : option loc) (n : dnode) : dnode := {| prev := p; next := next n; dat := dat n |}.
Definition with_next (p : option loc) (n : dnode) : dnode := {| prev := prev n; next := p; dat := dat n |}.
Definition with_dat (d : D) (n : dnode) : dnode := {| prev := prev n; next := next n; dat := d |}.

Definition modify (f : dnode -> dnode) (h : dheap) (x : loc) : res dheap :=
  n ← get h x; Ok (<[x := f n]> h).

Definition set_prev (h : dheap) (x : loc) (p : option loc) : res dheap := modify (with_prev p) h x.
Definition set_next (h : dheap) (x : loc) (p : option loc) : res dheap := modify (with_next p) h x.
Definition set_dat (h : dheap) (x : loc) (d : D) : res dheap := modify (with_dat d) h x.

Definition alloc (h : dheap) (n : dnode) : dheap * loc := let x := fresh (dom h) in (<[x := n]> h, x).

Definition release (h : dheap) (x : loc) : res dheap := _ ← get h x; Ok (delete x h).

(** [if (p) p->next = v] and [if (p) p->prev = v] *)
Definition set_next_of (h : dheap) (p v : option loc) : res dheap :=
  match p with Some x => set_next h x v | None => Ok h end.
Definition set_prev_of (h : dheap) (p v : option loc) : res dheap :=
  match p with Some x => set_prev h x v | None => Ok h end.

(** ** Segments and chains *)

#[local] Abbreviation nodes := (list (loc * D)).

Definition or_else (o p : option loc) : option loc := match o with Some x => Some x | None => p end.
Definition first_of (ns : nodes) : option loc := fst <$> head ns.
Definition last_of (ns : nodes) : option loc := fst <$> last ns.

(** The nodes [ns] in this order, with [p] before the first and [q] after the
    last of them. *)
Fixpoint seg (h : dheap) (p : option loc) (ns : nodes) (q : option loc) : Prop :=
  match ns with
  | [] => True
  | (x, d) :: ns => h !! x = Some {| prev := p; next := or_else (first_of ns) q; dat := d |} /\ seg h (Some x) ns q
  end.

Definition chain (h : dheap) (ns : nodes) : Prop := NoDup ns.*1 /\ seg h None ns None.

(** A chain, and nothing else is allocated. *)
Definition whole (h : dheap) (ns : nodes) : Prop := chain h ns /\ dom h = list_to_set ns.*1.

Lemma last_of_snoc A x d : last_of (A ++ [(x, d)]) = Some x.
Proof. unfold last_of. by rewrite last_snoc. Qed.

Lemma last_of_cons A x d : last_of ((x, d) :: A) = or_else (last_of A) (Some x).
Proof. destruct A as [|[y e] A _] using rev_ind; [done|]. rewrite last_of_snoc, app_comm_cons. by rewrite last_of_snoc. Qed.

Lemma first_of_app A B : first_of (A ++ B) = or_else (first_of A) (first_of B).
Proof. by destruct A. Qed.

Lemma first_of_snoc A c : A <> [] -> first_of (A ++ [c]) = first_of A.
Proof. by destruct A. Qed.

Lemma last_of_app A B : last_of (A ++ B) = or_else (last_of B) (last_of A).
Proof. destruct B as [|[y e] B _] using rev_ind; [by rewrite app_nil_r|]. by rewrite app_assoc, !last_of_snoc. Qed.

Lemma or_else_assoc a b c : or_else (or_else a b) c = or_else a (or_else b c).
Proof. by destruct a. Qed.

Lemma or_else_none o : or_else o None = o.
Proof. by destruct o. Qed.

Lemma seg_app h p A B q : seg h p (A ++ B) q <-> seg h p A (or_else (first_of B) q) /\ seg h (or_else (last_of A) p) B q.
Proof.
  revert p. induction A as [|[x d] A IH]; intros p; cbn [app seg]; [tauto|].
  rewrite IH, first_of_app, or_else_assoc, last_of_cons, or_else_assoc. cbn. tauto.
Qed.

Lemma seg_frame h h' p ns q : seg h p ns q -> (forall x, x ∈ ns.*1 -> h' !! x = h !! x) -> seg h' p ns q.
Proof.
  revert p. induction ns as [|[x d] ns IH]; intros p Hs Hf; [done|]. destruct Hs as [Hx Hs]. split; [rewrite Hf; [done|by left]|].
  apply IH; [done|]. intros y Hy. apply Hf. by right.
Qed.

Lemma seg_first h p p' x d B q : seg h p ((x, d) :: B) q -> x ∉ B.*1 -> seg (alter (with_prev p') x h) p' ((x, d) :: B) q.
Proof.
  intros [Hx Hs] Hn. split; [by rewrite lookup_alter_eq, Hx|]. eapply seg_frame; [done|]. intros y Hy. apply lookup_alter_ne. by intros ->.
Qed.

Lemma seg_last h p A x d q q' : seg h p (A ++ [(x, d)]) q -> x ∉ A.*1 -> seg (alter (with_next q') x h) p (A ++ [(x, d)]) q'.
Proof.
  rewrite !seg_app. intros [HA [Hx _]] Hn. split.
  - eapply seg_frame; [done|]. intros y Hy. apply lookup_alter_ne. by intros ->.
  - split; [|done]. by rewrite lookup_alter_eq, Hx.
Qed.

(** Pointing the first node back to [p], or the last one on to [q]. *)
Definition aim_first (p : option loc) (ns : nodes) (h : dheap) : dheap :=
  match first_of ns with Some x => alter (with_prev p) x h | None => h end.
Definition aim_last (q : option loc) (ns : nodes) (h : dheap) : dheap :=
  match last_of ns with Some x => alter (with_next q) x h | None => h end.

Lemma aim_first_other p ns h x : x ∉ ns.*1 -> aim_first p ns h !! x = h !! x.
Proof. intros Hx. destruct ns as [|[y d] ns]; [done|]. apply lookup_alter_ne. set_solver. Qed.

Lemma aim_last_other q ns h x : x ∉ ns.*1 -> aim_last q ns h !! x = h !! x.
Proof.
  intros Hx. destruct ns as [|[y d] ns _] using rev_ind; [done|]. unfold aim_last. rewrite last_of_snoc. apply lookup_alter_ne.
  rewrite fmap_app in Hx. set_solver.
Qed.

Lemma aim_first_dom p ns h : dom (aim_first p ns h) = dom h.
Proof. unfold aim_first. destruct (first_of ns); [apply dom_alter_L|done]. Qed.

Lemma aim_last_dom p ns h : dom (aim_last p ns h) = dom h.
Proof. unfold aim_last. destruct (last_of ns); [apply dom_alter_L|done]. Qed.

Lemma aim_first_seg h p p' ns q : seg h p ns q -> NoDup ns.*1 -> seg (aim_first p' ns h) p' ns q.
Proof. destruct ns as [|[x d] ns]; [done|]. intros Hs [Hx _]%list.NoDup_cons. by eapply seg_first. Qed.

Lemma aim_last_seg h p ns q q' : seg h p ns q -> NoDup ns.*1 -> seg (aim_last q' ns h) p ns q'.
Proof.
  destruct ns as [|[x d] ns _] using rev_ind; [done|]. intros Hs Hnd. unfold aim_last. rewrite last_of_snoc. eapply seg_last; [done|].
  rewrite fmap_app in Hnd. apply list.NoDup_app in Hnd as (_ & H & _). intros Hx. apply (H x Hx). by left.
Qed.

(** ** Linking and unlinking *)

Definition apart (A B : nodes) : Prop := forall x, x ∈ A.*1 -> x ∉ B.*1.

Lemma chain_app h A B : chain h (A ++ B) <-> NoDup A.*1 /\ NoDup B.*1 /\ apart A B /\ seg h None A (first_of B) /\ seg h (last_of A) B None.
Proof.
  unfold chain. rewrite seg_app, fmap_app, list.NoDup_app, !or_else_none. unfold apart. tauto.
Qed.

(** Joining two segments. *)
Definition join (A B : nodes) (h : dheap) : dheap := aim_first (last_of A) B (aim_last (first_of B) A h).

Lemma join_dom A B h : dom (join A B h) = dom h.
Proof. unfold join. by rewrite aim_first_dom, aim_last_dom. Qed.

Lemma join_other A B h x : x ∉ (A ++ B).*1 -> join A B h !! x = h !! x.
Proof. rewrite fmap_app. intros Hx. unfold join. rewrite aim_first_other, aim_last_other; set_solver. Qed.

Lemma join_chain h A B q p : seg h None A q -> seg h p B None -> NoDup A.*1 -> NoDup B.*1 -> apart A B -> chain (join A B h) (A ++ B).
Proof.
  intros HA HB HndA HndB Hap. apply chain_app. split; [done|]. split; [done|]. split; [done|]. unfold join. split.
  - eapply seg_frame; [by eapply aim_last_seg|]. intros x Hx. apply aim_first_other. by apply Hap.
  - eapply aim_first_seg; [|done]. eapply seg_frame; [done|]. intros x Hx. apply aim_last_other. intros Hx'. by apply (Hap x).
Qed.

Lemma chain_unlink h A x d B : chain h (A ++ (x, d) :: B) -> chain (join A B h) (A ++ B).
Proof.
  intros (HA & HB & Hap & Hs1 & [_ Hs2])%chain_app. cbn in HB. apply list.NoDup_cons in HB as [_ HB].
  eapply join_chain; try done. intros y Hy Hy'. apply (Hap y Hy). by right.
Qed.

(** A new node between [A] and [B]. *)
Definition link (A : nodes) (y : loc) (d : D) (B : nodes) (h : dheap) : dheap :=
  aim_first (Some y) B (aim_last (Some y) A (<[y := {| prev := last_of A; next := first_of B; dat := d |}]> h)).

Lemma link_dom A y d B h : dom (link A y d B h) = {[y]} ∪ dom h.
Proof. unfold link. by rewrite aim_first_dom, aim_last_dom, dom_insert_L. Qed.

Lemma link_other A y d B h x : x <> y -> x ∉ (A ++ B).*1 -> link A y d B h !! x = h !! x.
Proof. rewrite fmap_app. intros Hy Hx. unfold link. rewrite aim_first_other, aim_last_other, lookup_insert_ne; set_solver. Qed.

Lemma chain_link h A y d B : chain h (A ++ B) -> y ∉ (A ++ B).*1 -> chain (link A y d B h) (A ++ (y, d) :: B).
Proof.
  intros (HA & HB & Hap & Hs1 & Hs2)%chain_app Hy. rewrite fmap_app in Hy. apply chain_app. split; [done|].
  split; [cbn; constructor; set_solver|]. split; [intros x Hx Hx'; cbn in Hx'; apply elem_of_cons in Hx' as [->|Hx']; [set_solver|by apply (Hap x)]|].
  unfold link. set (h1 := <[y := _]> h).
  assert (forall x, x <> y -> h1 !! x = h !! x) as Hh1 by (intros x Hx; by apply lookup_insert_ne). split.
  - apply (seg_frame (aim_last (Some y) A h1)).
    + apply (aim_last_seg h1 _ _ (first_of B)); [|done]. apply (seg_frame h); [done|]. intros x Hx. apply Hh1. intros ->. set_solver.
    + intros x Hx. apply aim_first_other. by apply Hap.
  - cbn [seg]. split.
    + rewrite aim_first_other, aim_last_other by set_solver. unfold h1. rewrite lookup_insert_eq. by rewrite or_else_none.
    + eapply aim_first_seg; [|done]. eapply seg_frame; [exact Hs2|]. intros x Hx. rewrite aim_last_other by (intros Hx'; by apply (Hap x)).
      apply Hh1. intros ->. set_solver.
Qed.

(** Other contents for a node. *)
Lemma chain_change h A x d d' B : chain h (A ++ (x, d) :: B) -> chain (alter (with_dat d') x h) (A ++ (x, d') :: B).
Proof.
  intros (HA & HB & Hap & Hs1 & [Hx Hs2])%chain_app. cbn in HB. pose proof HB as [HxB _]%list.NoDup_cons.
  apply chain_app. split; [done|]. split; [done|]. split; [done|]. split.
  - eapply seg_frame; [exact Hs1|]. intros y Hy. apply lookup_alter_ne. intros ->. apply (Hap y Hy). by left.
  - split; [by rewrite lookup_alter_eq, Hx|]. eapply seg_frame; [exact Hs2|]. intros y Hy. apply lookup_alter_ne. by intros ->.
Qed.

Lemma chain_release h ns x : chain h ns -> x ∉ ns.*1 -> chain (delete x h) ns.
Proof. intros [Hnd Hs] Hx. split; [done|]. eapply seg_frame; [done|]. intros y Hy. apply lookup_delete_ne. by intros ->. Qed.

(** ** Running the accesses *)

Lemma chain_get h A x d B : chain h (A ++ (x, d) :: B) -> get h x = Ok {| prev := last_of A; next := first_of B; dat := d |}.
Proof.
  intros (_ & _ & _ & _ & [Hx _])%chain_app. unfold get. rewrite Hx. by rewrite or_else_none.
Qed.

Lemma modify_ok f h x n : h !! x = Some n -> modify f h x = Ok (alter f x h).
Proof.
  intros Hx. unfold modify, get. rewrite Hx. cbn [mbind res_bind]. f_equal. apply map_eq. intros y.
  destruct (decide (y = x)) as [->|Hy]; [by rewrite lookup_insert_eq, lookup_alter_eq, Hx|by rewrite lookup_insert_ne, lookup_alter_ne].
Qed.

Lemma release_ok h x n : h !! x = Some n -> release h x = Ok (delete x h).
Proof. intros Hx. unfold release, get. by rewrite Hx. Qed.

Lemma chain_lookup h A x d B : chain h (A ++ (x, d) :: B) -> h !! x = Some {| prev := last_of A; next := first_of B; dat := d |}.
Proof. intros H. apply chain_get in H. unfold get in H. destruct (h !! x); [by injection H as ->|done]. Qed.

Lemma nodup_mid (A : nodes) x d B : NoDup (A ++ (x, d) :: B).*1 -> x ∉ (A ++ B).*1.
Proof. rewrite !fmap_app. cbn [fmap list_fmap]. rewrite <- Permutation_middle. by intros [? _]%list.NoDup_cons. Qed.

Lemma set_next_of_ok (h : dheap) A q : (forall x, last_of A = Some x -> is_Some (h !! x)) -> set_next_of h (last_of A) q = Ok (aim_last q A h).
Proof.
  intros H. unfold set_next_of, aim_last. destruct (last_of A) as [x|]; [|done]. destruct (H x eq_refl) as [n Hn]. by apply modify_ok with n.
Qed.

Lemma set_prev_of_ok (h : dheap) B p : (forall x, first_of B = Some x -> is_Some (h !! x)) -> set_prev_of h (first_of B) p = Ok (aim_first p B h).
Proof.
  intros H. unfold set_prev_of, aim_first. destruct (first_of B) as [x|]; [|done]. destruct (H x eq_refl) as [n Hn]. by apply modify_ok with n.
Qed.

Lemma first_in (h : dheap) (A B : nodes) x : chain h (A ++ B) -> first_of B = Some x -> is_Some (h !! x).
Proof. intros Hc. destruct B as [|[y d] B]; [done|]. intros [= <-]. rewrite (chain_lookup _ _ _ _ _ Hc). eauto. Qed.

Lemma last_in (h : dheap) (A B : nodes) x : chain h (A ++ B) -> last_of A = Some x -> is_Some (h !! x).
Proof.
  intros Hc. destruct A as [|[y d] A _] using rev_ind; [done|]. rewrite last_of_snoc. intros [= <-]. rewrite <- app_assoc in Hc.
  rewrite (chain_lookup _ _ _ _ _ Hc). eauto.
Qed.

Lemma aim_last_some (h : dheap) q (A : nodes) x : is_Some (h !! x) -> is_Some (aim_last q A h !! x).
Proof. rewrite <- !elem_of_dom, aim_last_dom. done. Qed.

Lemma alter_swap (f g : dnode -> dnode) (h : dheap) x y : x <> y -> alter f x (alter g y h) = alter g y (alter f x h).
Proof.
  intros Hxy. apply map_eq. intros z. rewrite !lookup_alter. destruct (decide (x = z)), (decide (y = z)); try congruence; by rewrite decide_False by congruence.
Qed.

Lemma whole_link h A y d B : whole h (A ++ B) -> y ∉ dom h -> whole (link A y d B h) (A ++ (y, d) :: B).
Proof.
  intros [Hc Hd] Hy. split; [apply chain_link; [done|]; rewrite Hd in Hy; set_solver|]. rewrite link_dom, Hd, !fmap_app. cbn. set_solver.
Qed.

Lemma whole_drop h A x d B : whole h (A ++ (x, d) :: B) -> whole (delete x (join A B h)) (A ++ B).
Proof.
  intros [Hc Hd]. pose proof (nodup_mid _ _ _ _ (proj1 Hc)) as Hx. split; [apply chain_release; [by eapply chain_unlink|done]|].
  rewrite dom_delete_L, join_dom, Hd. rewrite !fmap_app in *. cbn. set_solver.
Qed.

Lemma whole_change h A x d d' B : whole h (A ++ (x, d) :: B) -> whole (alter (with_dat d') x h) (A ++ (x, d') :: B).
Proof. intros [Hc Hd]. split; [by eapply chain_change|]. rewrite dom_alter_L, Hd, !fmap_app. done. Qed.

End dll.
Arguments dnode : clear implicits.
Abbreviation dheap D := (gmap loc (dnode D)).
End Dll.
