(* ===== verification/Adlist.v ===== *)
(** * Doubly linked lists (adlist.c, adlist.h)

    The generic list of the server: clients, replies, blocked keys and many
    other things are kept in it.  A value is opaque; the callbacks of a list are
    a function that copies a value and may fail, a function that compares a
    value with a key, and a function that frees a value, which is modelled by
    the list of the values it was called on, in order. *)

From S2P Require Import Prelude Dll.
From stdpp Require Import list gmap fin_maps.
#[local] Open Scope Z_scope.

Module Adlist.
Import Dll.

Section adlist.
Context {V : Type} `{EqDecision V}.
#[local] Abbreviation heap := (dheap V).

(** [struct list]: [free_] says whether a free method is set. *)
Record adlist : Type := {
  head_ : option loc;
  tail_ : option loc;
  dup : option (V -> option V);
  free_ : bool;
  match_ : option (V -> V -> bool);
  len : Z
}.

Definition set_ends (l : adlist) (hd tl : option loc) (n : Z) : adlist :=
  {| head_ := hd; tail_ := tl; dup := dup l; free_ := free_ l; match_ := match_ l; len := n |}.

Inductive direction : Type := AL_START_HEAD | AL_START_TAIL.

Record listIter : Type := { iter_next : option loc; iter_direction : direction }.

Definition listCreate : adlist :=
  {| head_ := None; tail_ := None; dup := None; free_ := false; match_ := None; len := 0 |}.

(** [listSetDupMethod], [listSetFreeMethod] and [listSetMatchMethod]. *)
Definition set_methods (l : adlist) (d : option (V -> option V)) (f : bool) (m : option (V -> V -> bool)) : adlist :=
  {| head_ := head_ l; tail_ := tail_ l; dup := d; free_ := f; match_ := m; len := len l |}.

(** A node as [zmalloc] leaves it, with the value stored: its pointers are
    written before they are read. *)
Definition new_node (h : heap) (value : V) : heap * loc := alloc h {| prev := None; next := None; dat := value |}.

(** [if (list->free) list->free(value)] *)
Definition freed (l : adlist) (value : V) : list V := if free_ l then [value] else [].

(** [while(len--) { next = current->next; free value; zfree(current); current = next; }] *)
Fixpoint empty_loop (n : nat) (h : heap) (l : adlist) (current : option loc) : res (heap * list V) :=
  match n with
  | O => Ok (h, [])
  | S n =>
    x ← the current;
    nd ← get h x;
    h ← release h x;
    r ← empty_loop n h l (next nd);
    Ok (fst r, freed l (dat nd) ++ snd r)
  end.

Definition listEmpty (h : heap) (l : adlist) : res (heap * adlist * list V) :=
  r ← empty_loop (Z.to_nat (len l)) h l (head_ l);
  Ok (fst r, set_ends l None None 0, snd r).

Definition listRelease (h : heap) (l : adlist) : res (heap * list V) :=
  '(h, l, vs) ← listEmpty h l; Ok (h, vs).

Definition listLinkNodeHead (h : heap) (l : adlist) (x : loc) : res (heap * adlist) :=
  if len l =? 0 then
    h ← set_next h x None;
    h ← set_prev h x None;
    Ok (h, set_ends l (Some x) (Some x) (u64 (len l + 1)))
  else
    h ← set_prev h x None;
    h ← set_next h x (head_ l);
    y ← the (head_ l);
    h ← set_prev h y (Some x);
    Ok (h, set_ends l (Some x) (tail_ l) (u64 (len l + 1))).

Definition listAddNodeHead (h : heap) (l : adlist) (value : V) : res (heap * adlist) :=
  let '(h, x) := new_node h value in listLinkNodeHead h l x.

Definition listLinkNodeTail (h : heap) (l : adlist) (x : loc) : res (heap * adlist) :=
  if len l =? 0 then
    h ← set_next h x None;
    h ← set_prev h x None;
    Ok (h, set_ends l (Some x) (Some x) (u64 (len l + 1)))
  else
    h ← set_prev h x (tail_ l);
    h ← set_next h x None;
    y ← the (tail_ l);
    h ← set_next h y (Some x);
    Ok (h, set_ends l (head_ l) (Some x) (u64 (len l + 1))).

Definition listAddNodeTail (h : heap) (l : adlist) (value : V) : res (heap * adlist) :=
  let '(h, x) := new_node h value in listLinkNodeTail h l x.

Definition listInsertNode (h : heap) (l : adlist) (old_node : loc) (value : V) (after : bool) : res (heap * adlist) :=
  let '(h, x) := new_node h value in
  old ← get h old_node;
  '(h, hd, tl) ←
    (if after then
       h ← set_prev h x (Some old_node);
       h ← set_next h x (next old);
       Ok (h, head_ l, if decide (tail_ l = Some old_node) then Some x else tail_ l)
     else
       h ← set_next h x (Some old_node);
       h ← set_prev h x (prev old);
       Ok (h, if decide (head_ l = Some old_node) then Some x else head_ l, tail_ l));
  n ← get h x;
  h ← set_next_of h (prev n) (Some x);
  n ← get h x;
  h ← set_prev_of h (next n) (Some x);
  Ok (h, set_ends l hd tl (u64 (len l + 1))).

Definition listUnlinkNode (h : heap) (l : adlist) (x : loc) : res (heap * adlist) :=
  n ← get h x;
  '(h, hd) ←
    match prev n with
    | Some p => h ← set_next h p (next n); Ok (h, head_ l)
    | None => Ok (h, next n)
    end;
  n ← get h x;
  '(h, tl) ←
    match next n with
    | Some q => h ← set_prev h q (prev n); Ok (h, tail_ l)
    | None => Ok (h, prev n)
    end;
  h ← set_next h x None;
  h ← set_prev h x None;
  Ok (h, set_ends l hd tl (u64 (len l - 1))).

Definition listDelNode (h : heap) (l : adlist) (x : loc) : res (heap * adlist * list V) :=
  '(h, l) ← listUnlinkNode h l x;
  n ← get h x;
  h ← release h x;
  Ok (h, l, freed l (dat n)).

(** ** Iterators *)

Definition listGetIterator (l : adlist) (d : direction) : listIter :=
  {| iter_next := match d with AL_START_HEAD => head_ l | AL_START_TAIL => tail_ l end; iter_direction := d |}.

Definition listRewind (l : adlist) : listIter := {| iter_next := head_ l; iter_direction := AL_START_HEAD |}.
Definition listRewindTail (l : adlist) : listIter := {| iter_next := tail_ l; iter_direction := AL_START_TAIL |}.

Definition listNext (h : heap) (iter : listIter) : res (listIter * option loc) :=
  let current := iter_next iter in
  match current with
  | None => Ok (iter, None)
  | Some x =>
    n ← get h x;
    Ok ({| iter_next := match iter_direction iter with AL_START_HEAD => next n | AL_START_TAIL => prev n end;
           iter_direction := iter_direction iter |}, current)
  end.

(** The loop of [listDup]; [None] when the copy of a value failed, with the
    values of the partial copy that were freed. *)
Fixpoint dup_loop (fuel : nat) (h : heap) (copy : adlist) (iter : listIter) : res (heap * option adlist * list V) :=
  match fuel with
  | O => Fault OutOfFuel
  | S fuel =>
    '(iter, node) ← listNext h iter;
    match node with
    | None => Ok (h, Some copy, [])
    | Some x =>
      n ← get h x;
      let value := match dup copy with Some f => f (dat n) | None => Some (dat n) end in
      match value with
      | None => '(h, vs) ← listRelease h copy; Ok (h, None, vs)
      | Some value => '(h, copy) ← listAddNodeTail h copy value; dup_loop fuel h copy iter
      end
    end
  end.

Definition listDup (h : heap) (orig : adlist) : res (heap * option adlist * list V) :=
  let copy := listCreate in
  let copy := {| head_ := head_ copy; tail_ := tail_ copy; dup := dup orig; free_ := free_ orig; match_ := match_ orig; len := len copy |} in
  dup_loop (S (size h)) h copy (listRewind orig).

Fixpoint search_loop (fuel : nat) (h : heap) (l : adlist) (key : V) (iter : listIter) : res (option loc) :=
  match fuel with
  | O => Fault OutOfFuel
  | S fuel =>
    '(iter, node) ← listNext h iter;
    match node with
    | None => Ok None
    | Some x =>
      n ← get h x;
      let found := match match_ l with Some f => f (dat n) key | None => bool_decide (key = dat n) end in
      if found : bool then Ok (Some x) else search_loop fuel h l key iter
    end
  end.

Definition listSearchKey (h : heap) (l : adlist) (key : V) : res (option loc) :=
  search_loop (S (size h)) h l key (listRewind l).

(** [while(index-- && n) n = n->next] (or [prev]) *)
Fixpoint index_loop (fuel : nat) (h : heap) (d : direction) (index : Z) (n : option loc) : res (option loc) :=
  if index =? 0 then Ok n else
  match n with
  | None => Ok None
  | Some x =>
    match fuel with
    | O => Fault OutOfFuel
    | S fuel => nd ← get h x; index_loop fuel h d (index - 1) (match d with AL_START_HEAD => next nd | AL_START_TAIL => prev nd end)
    end
  end.

Definition listIndex (h : heap) (l : adlist) (index : Z) : res (option loc) :=
  if index <? 0 then index_loop (size h) h AL_START_TAIL (i64 (i64 (- index) - 1)) (tail_ l)
  else index_loop (size h) h AL_START_HEAD index (head_ l).

(** ** Rotating and joining *)

Definition listRotateTailToHead (h : heap) (l : adlist) : res (heap * adlist) :=
  if len l <=? 1 then Ok (h, l) else
  x ← the (tail_ l);
  n ← get h x;
  let new_tail := prev n in
  t ← the new_tail;
  h ← set_next h t None;
  y ← the (head_ l);
  h ← set_prev h y (Some x);
  h ← set_prev h x None;
  h ← set_next h x (head_ l);
  Ok (h, set_ends l (Some x) new_tail (len l)).

Definition listRotateHeadToTail (h : heap) (l : adlist) : res (heap * adlist) :=
  if len l <=? 1 then Ok (h, l) else
  x ← the (head_ l);
  n ← get h x;
  let new_head := next n in
  t ← the new_head;
  h ← set_prev h t None;
  y ← the (tail_ l);
  h ← set_next h y (Some x);
  h ← set_next h x None;
  h ← set_prev h x (tail_ l);
  Ok (h, set_ends l new_head (Some x) (len l)).

(** [l] with the nodes of [o], and [o] empty. *)
Definition listJoin (h : heap) (l o : adlist) : res (heap * adlist * adlist) :=
  if len o =? 0 then Ok (h, l, o) else
  y ← the (head_ o);
  h ← set_prev h y (tail_ l);
  '(h, hd) ←
    match tail_ l with
    | Some t => h ← set_next h t (head_ o); Ok (h, head_ l)
    | None => Ok (h, head_ o)
    end;
  Ok (h, set_ends l hd (tail_ o) (u64 (len l + len o)), set_ends o None None 0).

Definition listInitNode (h : heap) (x : loc) (value : V) : res heap :=
  h ← set_prev h x None; h ← set_next h x None; set_dat h x value.

End adlist.
Arguments adlist : clear implicits.
End Adlist.
