(* ===== verification/AdlistTheory.v ===== *)
(** * Doubly linked lists: the operations on chains

    [lrep h l ns]: the list [l] holds the nodes [ns].  Every operation is
    characterised by the heap it leaves, a linked or a joined chain, from which
    what it keeps follows. *)

From S2P Require Import Prelude Dll Adlist.
From stdpp Require Import list gmap fin_maps.
#[local] Open Scope Z_scope.

Module AdlistTheory.
Import Dll Adlist.

Section theory.
Context {V : Type} `{EqDecision V}.
#[local] Abbreviation heap := (dheap V).
#[local] Abbreviation nodes := (list (loc * V)).

Record lrep (h : heap) (l : adlist V) (ns : nodes) : Prop := {
  lrep_chain : chain h ns;
  lrep_head : head_ l = first_of ns;
  lrep_tail : tail_ l = last_of ns;
  lrep_len : len l = zlen ns;
  lrep_short : zlen ns < 2 ^ 62
}.

Lemma modify_insert (f : dnode V -> dnode V) (h : heap) x n : modify f (<[x := n]> h) x = Ok (<[x := f n]> h).
Proof. unfold modify, get. rewrite lookup_insert_eq. cbn [mbind res_bind]. by rewrite insert_insert_eq. Qed.

Lemma get_ok (h : heap) x n : h !! x = Some n -> get h x = Ok n.
Proof. intros H. unfold get. by rewrite H. Qed.

Lemma new_fresh (h : heap) v : exists x, new_node h v = (<[x := {| prev := None; next := None; dat := v |}]> h, x) /\ x ∉ dom h.
Proof. eexists. split; [done|]. apply is_fresh. Qed.

(** A list with other ends has its chain. *)
Lemma lrep_ends h (l : adlist V) ns n : chain h ns -> zlen ns < 2 ^ 62 -> n = zlen ns -> lrep h (set_ends l (first_of ns) (last_of ns) n) ns.
Proof. intros Hc Hs ->. by split. Qed.

Lemma chain_fresh (h : heap) ns x : chain h ns -> x ∉ dom h -> x ∉ ns.*1.
Proof.
  intros Hc Hx Hin. apply list_elem_of_fmap in Hin as ([y d] & -> & Hin). apply list_elem_of_split in Hin as (A & B & ->).
  apply Hx, elem_of_dom. cbn. rewrite (chain_lookup _ _ _ _ _ Hc). eauto.
Qed.

(** ** Adding *)

Lemma addHead_spec h l ns v : lrep h l ns -> zlen ns + 1 < 2 ^ 62 ->
  exists x l', listAddNodeHead h l v = Ok (link [] x v ns h, l') /\ (x ∉ dom h) /\ lrep (link [] x v ns h) l' ((x, v) :: ns) /\
    dup l' = dup l /\ free_ l' = free_ l /\ match_ l' = match_ l.
Proof.
  intros [Hc Hh Ht Hl Hs] Hroom. unfold listAddNodeHead. destruct (new_fresh h v) as (x & -> & Hx). pose proof (zlen_nonneg ns).
  assert (chain (link [] x v ns h) ((x, v) :: ns)) as Hc' by (apply (chain_link h [] x v ns); [done|by apply chain_fresh with h]).
  assert (zlen ((x, v) :: ns) = zlen ns + 1) as Hlen by (rewrite zlen_cons; lia).
  unfold listLinkNodeHead, set_next, set_prev. rewrite Hl, Hh, Ht. destruct ns as [|[y d] ns].
  - cbn [Z.eqb]. rewrite !modify_insert. cbn [mbind res_bind]. rewrite modify_insert. cbn [mbind res_bind].
    eexists x, _. split; [done|]. split; [done|]. split; [|done]. by apply (lrep_ends _ l [(x, v)]).
  - rewrite (proj2 (Z.eqb_neq _ _)) by (rewrite zlen_cons; pose proof (zlen_nonneg ns); lia).
    rewrite modify_insert. cbn [mbind res_bind]. rewrite modify_insert. cbn [mbind res_bind the first_of fmap option_fmap option_map head fst].
    assert (y <> x) as Hyx. { intros ->. apply Hx, elem_of_dom. rewrite (chain_lookup h [] x d ns Hc). eauto. }
    rewrite (modify_ok _ _ y {| prev := None; next := first_of ns; dat := d |}) by (rewrite lookup_insert_ne by done; apply (chain_lookup h [] y d ns Hc)).
    cbn [mbind res_bind]. eexists x, _. split; [done|]. split; [done|]. split; [|done].
    replace (last_of ((y, d) :: ns)) with (last_of ((x, v) :: (y, d) :: ns)) by by rewrite (last_of_cons _ x), (last_of_cons _ y); destruct (last_of ns).
    apply (lrep_ends _ l ((x, v) :: (y, d) :: ns)); [done|lia|]. rewrite Hlen. apply wrapu_small; lia.
Qed.

Lemma addTail_spec h l ns v : lrep h l ns -> zlen ns + 1 < 2 ^ 62 ->
  exists x l', listAddNodeTail h l v = Ok (link ns x v [] h, l') /\ (x ∉ dom h) /\ lrep (link ns x v [] h) l' (ns ++ [(x, v)]) /\
    dup l' = dup l /\ free_ l' = free_ l /\ match_ l' = match_ l.
Proof.
  intros [Hc Hh Ht Hl Hs] Hroom. unfold listAddNodeTail. destruct (new_fresh h v) as (x & -> & Hx). pose proof (zlen_nonneg ns).
  assert (chain (link ns x v [] h) (ns ++ [(x, v)])) as Hc'.
  { apply chain_link; rewrite app_nil_r; [done|by apply chain_fresh with h]. }
  assert (zlen (ns ++ [(x, v)]) = zlen ns + 1) as Hlen by (rewrite zlen_app; done).
  unfold listLinkNodeTail, set_next, set_prev. rewrite Hl, Hh, Ht. destruct ns as [|[y d] ns _] using rev_ind.
  - cbn [Z.eqb]. rewrite !modify_insert. cbn [mbind res_bind]. rewrite modify_insert. cbn [mbind res_bind].
    eexists x, _. split; [done|]. split; [done|]. split; [|done]. by apply (lrep_ends _ l [(x, v)]).
  - rewrite (proj2 (Z.eqb_neq _ _)) by (rewrite zlen_app in *; pose proof (zlen_nonneg ns); change (zlen [(y, d)]) with 1 in *; lia).
    rewrite modify_insert. cbn [mbind res_bind]. rewrite modify_insert. cbn [mbind res_bind]. rewrite last_of_snoc. cbn [the mbind res_bind].
    assert (y <> x) as Hyx. { intros ->. apply Hx, elem_of_dom. rewrite (chain_lookup h ns x d [] Hc). eauto. }
    rewrite (modify_ok _ _ y {| prev := last_of ns; next := None; dat := d |}) by (rewrite lookup_insert_ne by done; apply (chain_lookup h ns y d [] Hc)).
    cbn [mbind res_bind]. eexists x, _. split.
    { unfold link, aim_last. rewrite last_of_snoc. done. }
    split; [done|]. split; [|done].
    rewrite <- (first_of_snoc (ns ++ [(y, d)]) (x, v)) by by destruct ns. rewrite <- (last_of_snoc (ns ++ [(y, d)]) x v).
    apply lrep_ends; [done|lia|]. rewrite Hlen. apply wrapu_small; lia.
Qed.

(** ** Inserting beside a node *)

(** The writes of [listInsertNode] after the pointers of the new node. *)
Lemma insert_links (h : heap) A B x v : chain h (A ++ B) -> x ∉ dom h ->
  let n := {| prev := last_of A; next := first_of B; dat := v |} in
  let h0 := <[x := n]> h in let h1 := aim_last (Some x) A h0 in
  get h0 x = Ok n /\ set_next_of h0 (last_of A) (Some x) = Ok h1 /\ get h1 x = Ok n /\ set_prev_of h1 (first_of B) (Some x) = Ok (link A x v B h).
Proof.
  intros Hc Hx n h0 h1. assert (forall y, is_Some (h !! y) -> is_Some (h0 !! y)) as H0.
  { intros y Hy. unfold h0. destruct (decide (x = y)) as [->|Hne]; [rewrite lookup_insert_eq; eauto|by rewrite lookup_insert_ne]. }
  split; [unfold get, h0; by rewrite lookup_insert_eq|]. split; [apply set_next_of_ok; intros y Hy; apply H0; by apply (last_in h A B)|]. split.
  - unfold get, h1. rewrite aim_last_other; [unfold h0; by rewrite lookup_insert_eq|].
    intros Hin. apply (chain_fresh h (A ++ B) x Hc Hx). rewrite fmap_app. set_solver.
  - rewrite set_prev_of_ok; [done|]. intros y Hy. apply aim_last_some, H0. by apply (first_in h A B).
Qed.

Lemma insert_rest (h : heap) P Q x v (l : adlist V) : chain h (P ++ Q) -> x ∉ dom h ->
  let h0 := <[x := {| prev := last_of P; next := first_of Q; dat := v |}]> h in
  (n ← get h0 x; h ← set_next_of h0 (prev n) (Some x); n ← get h x; h ← set_prev_of h (next n) (Some x); Ok (h, l)) = Ok (link P x v Q h, l).
Proof.
  intros Hc Hx h0. destruct (insert_links h P Q x v Hc Hx) as (E1 & E2 & E3 & E4). fold h0 in E1, E2, E3, E4.
  rewrite E1. cbn [mbind res_bind prev]. rewrite E2. cbn [mbind res_bind]. rewrite E3. cbn [mbind res_bind next]. rewrite E4. done.
Qed.

(** The list with the new node between [P] and [Q]. *)
Lemma insert_rep h (l : adlist V) P Q x v hd tl : chain h (P ++ Q) -> x ∉ dom h -> zlen (P ++ Q) + 1 < 2 ^ 62 -> len l = zlen (P ++ Q) ->
  hd = first_of (P ++ (x, v) :: Q) -> tl = last_of (P ++ (x, v) :: Q) ->
  lrep (link P x v Q h) (set_ends l hd tl (u64 (len l + 1))) (P ++ (x, v) :: Q).
Proof.
  intros Hc Hx Hroom Hl -> ->. assert (zlen (P ++ (x, v) :: Q) = zlen (P ++ Q) + 1) as Hlen by (rewrite !zlen_app, zlen_cons; lia).
  apply lrep_ends; [apply chain_link; [done|by apply chain_fresh with h]|lia|]. pose proof (zlen_nonneg (P ++ Q)). rewrite Hl, Hlen. apply wrapu_small; lia.
Qed.

Lemma last_of_same A (o : loc) (d : V) B : NoDup (A ++ (o, d) :: B).*1 -> last_of (A ++ (o, d) :: B) = Some o -> B = [].
Proof.
  intros Hnd. destruct B as [|[y e] B _] using rev_ind; [done|]. rewrite app_comm_cons, app_assoc, last_of_snoc. intros [= ->].
  apply nodup_mid in Hnd. exfalso. apply Hnd. rewrite !fmap_app. cbn. set_solver.
Qed.

Lemma first_of_same A (o : loc) (d : V) B : NoDup (A ++ (o, d) :: B).*1 -> first_of (A ++ (o, d) :: B) = Some o -> A = [].
Proof.
  intros Hnd. destruct A as [|[y e] A]; [done|]. cbn. intros [= ->]. apply nodup_mid in Hnd. exfalso. apply Hnd. by left.
Qed.

Lemma insertNode_spec h l A o d B v (after : bool) : lrep h l (A ++ (o, d) :: B) -> zlen (A ++ (o, d) :: B) + 1 < 2 ^ 62 ->
  let P := if after then A ++ [(o, d)] else A in let Q := if after then B else (o, d) :: B in
  exists x l', listInsertNode h l o v after = Ok (link P x v Q h, l') /\ (x ∉ dom h) /\ lrep (link P x v Q h) l' (P ++ (x, v) :: Q) /\
    dup l' = dup l /\ free_ l' = free_ l /\ match_ l' = match_ l.
Proof.
  intros [Hc Hh Ht Hl Hs] Hroom P Q. assert (A ++ (o, d) :: B = P ++ Q) as E by (unfold P, Q; destruct after; by rewrite <- ?app_assoc).
  unfold listInsertNode. destruct (new_fresh h v) as (x & -> & Hx). pose proof (proj1 Hc) as Hnd.
  assert (x <> o) as Hxo. { intros ->. apply Hx, elem_of_dom. rewrite (chain_lookup _ _ _ _ _ Hc). eauto. }
  rewrite (get_ok _ o {| prev := last_of A; next := first_of B; dat := d |}) by (rewrite lookup_insert_ne by done; by apply chain_lookup).
  cbn [mbind res_bind]. unfold set_prev, set_next. pose proof Hc as HcP. rewrite E in HcP. rewrite E in Hroom, Hl. destruct after; (rewrite modify_insert; cbn [mbind res_bind]; rewrite modify_insert;
    cbn [mbind res_bind]; unfold with_prev, with_next; cbn [prev next dat]).
  - rewrite <- (last_of_snoc A o d). change (A ++ [(o, d)]) with P. change B with Q. rewrite insert_rest by done.
    eexists x, _. split; [done|]. split; [done|]. split; [|done]. apply insert_rep; try done.
    + rewrite Hh, E, !first_of_app. unfold P. by rewrite !first_of_app; destruct (first_of A).
    + rewrite Ht. unfold P, Q. case_decide as Hd; rewrite last_of_snoc in Hd.
      * apply last_of_same in Hd as ->; [by rewrite last_of_snoc|done].
      * rewrite !last_of_app, !last_of_cons. destruct B as [|c B _] using rev_ind; [by rewrite last_of_snoc in Hd|]. destruct c. by rewrite last_of_snoc.
  - change (Some o) with (first_of ((o, d) :: B)). change ((o, d) :: B) with Q. change A with P. rewrite insert_rest by done.
    eexists x, _. split; [done|]. split; [done|]. split; [|done]. apply insert_rep; try done.
    + rewrite Hh. unfold P, Q. case_decide as Hd; cbn in Hd.
      * apply first_of_same in Hd as ->; [done|done].
      * rewrite !first_of_app. destruct A; [done|]. done.
    + rewrite Ht, E. unfold P, Q. rewrite !last_of_app, !last_of_cons. by destruct (last_of B).
Qed.

(** ** Removing *)

(** What [listUnlinkNode] leaves: the chain without the node, which points
    nowhere. *)
Lemma unlinkNode_spec h l A x d B : lrep h l (A ++ (x, d) :: B) ->
  exists h' l', listUnlinkNode h l x = Ok (h', l') /\ lrep h' l' (A ++ B) /\ h' !! x = Some {| prev := None; next := None; dat := d |} /\
    (forall y, y <> x -> h' !! y = join A B h !! y) /\ dup l' = dup l /\ free_ l' = free_ l /\ match_ l' = match_ l.
Proof.
  intros [Hc Hh Ht Hl Hs]. pose proof (proj1 Hc) as Hnd. pose proof (nodup_mid _ _ _ _ Hnd) as Hx. rewrite fmap_app in Hx.
  unfold listUnlinkNode. rewrite (chain_get _ _ _ _ _ Hc). cbn [mbind res_bind prev next].
  assert (match last_of A with Some p => h ← set_next h p (first_of B); Ok (h, head_ l) | None => Ok (h, first_of B) end =
    Ok (aim_last (first_of B) A h, first_of (A ++ B))) as ->.
  { pose proof (set_next_of_ok h A (first_of B) (fun y Hy => last_in h A ((x, d) :: B) y Hc Hy)) as E. unfold set_next_of in E.
    rewrite Hh. destruct A as [|c A _] using rev_ind; [done|]. destruct c. rewrite last_of_snoc in *. rewrite E. cbn [mbind res_bind]. by rewrite !first_of_app; destruct (first_of A). }
  cbn [mbind res_bind]. rewrite (get_ok _ x {| prev := last_of A; next := first_of B; dat := d |}) by (rewrite aim_last_other by set_solver; by apply chain_lookup). cbn [mbind res_bind prev next].
  assert (match first_of B with Some q => h ← set_prev (aim_last (first_of B) A h) q (last_of A); Ok (h, tail_ l) | None => Ok (aim_last (first_of B) A h, last_of A) end =
    Ok (join A B h, last_of (A ++ B))) as ->.
  { assert (forall y, first_of B = Some y -> is_Some (aim_last (first_of B) A h !! y)) as HB.
    { intros y Hy. apply aim_last_some. apply (first_in h (A ++ [(x, d)]) B y); [by rewrite <- app_assoc|done]. }
    pose proof (set_prev_of_ok (aim_last (first_of B) A h) B (last_of A) HB) as E. unfold set_prev_of in E.
    rewrite Ht. destruct B as [|c B]; [by rewrite app_nil_r|]. destruct c. cbn [first_of head fmap option_fmap option_map fst] in E |- *.
    rewrite E. cbn [mbind res_bind]. do 2 f_equal. rewrite !last_of_app, !last_of_cons. by destruct (last_of B). }
  cbn [mbind res_bind]. assert (join A B h !! x = Some {| prev := last_of A; next := first_of B; dat := d |}) as Hjx.
  { rewrite join_other by (rewrite fmap_app; set_solver). by apply chain_lookup. }
  unfold set_next, set_prev. rewrite (modify_ok _ _ _ _ Hjx). cbn [mbind res_bind].
  rewrite (modify_ok _ _ x {| prev := last_of A; next := None; dat := d |}) by by rewrite lookup_alter_eq, Hjx. cbn [mbind res_bind].
  eexists _, _. split; [done|]. split; [|split; [by rewrite !lookup_alter_eq, Hjx|split; [|done]]].
  - rewrite Hl. assert (zlen (A ++ (x, d) :: B) = zlen (A ++ B) + 1) as Hlen by (rewrite !zlen_app, zlen_cons; lia). pose proof (zlen_nonneg (A ++ B)).
    apply lrep_ends; [|lia|rewrite Hlen; rewrite wrapu_small; lia]. pose proof (chain_unlink _ _ _ _ _ Hc) as [Hnd' Hseg].
    split; [done|]. eapply seg_frame; [exact Hseg|]. intros y Hy. rewrite fmap_app in Hy. rewrite !lookup_alter_ne; [done|..]; intros <-; set_solver.
  - intros y Hy. by rewrite !lookup_alter_ne.
Qed.

(** A list, and nothing else on the heap. *)
Definition lwhole (h : heap) (l : adlist V) (ns : nodes) : Prop := lrep h l ns /\ dom h = list_to_set ns.*1.

Lemma delNode_spec h l A x d B : lrep h l (A ++ (x, d) :: B) ->
  exists h' l', listDelNode h l x = Ok (h', l', freed l d) /\ lrep h' l' (A ++ B) /\ dom h' = dom h ∖ {[x]} /\
    dup l' = dup l /\ free_ l' = free_ l /\ match_ l' = match_ l.
Proof.
  intros Hl. pose proof (nodup_mid _ _ _ _ (proj1 (lrep_chain _ _ _ Hl))) as Hx.
  destruct (unlinkNode_spec h l A x d B Hl) as (h1 & l' & E & [Hc Hh Ht Hn Hs] & Hx1 & Hf & Hd & Hfr & Hm). unfold listDelNode. rewrite E. cbn [mbind res_bind].
  rewrite (get_ok _ _ _ Hx1). cbn [mbind res_bind]. rewrite (release_ok _ _ _ Hx1). cbn [mbind res_bind dat]. eexists _, l'. split; [unfold freed; by rewrite Hfr|].
  split; [split; try done; by apply chain_release|]. split; [|done]. rewrite dom_delete_L. apply set_eq. intros y. rewrite !elem_of_difference, !elem_of_dom.
  destruct (decide (y = x)) as [->|Hy]; [set_solver|]. rewrite Hf by done. rewrite <- !elem_of_dom, join_dom. done.
Qed.

(** ** Emptying *)

Lemma empty_loop_spec (l : adlist V) ns : forall h p, seg h p ns None -> NoDup ns.*1 ->
  exists h', empty_loop (length ns) h l (first_of ns) = Ok (h', if free_ l then ns.*2 else []) /\
    dom h' = dom h ∖ list_to_set ns.*1 /\ (forall y, y ∉ ns.*1 -> h' !! y = h !! y).
Proof.
  induction ns as [|[x d] ns IH]; intros h p Hs Hnd.
  { exists h. split; [by destruct (free_ l)|]. split; [cbn; set_solver|done]. }
  destruct Hs as [Hx Hs]. cbn in Hnd. apply list.NoDup_cons in Hnd as [Hxn Hnd]. cbn [length empty_loop first_of head fmap option_fmap option_map fst the mbind res_bind].
  rewrite (get_ok _ _ _ Hx). cbn [mbind res_bind]. rewrite (release_ok _ _ _ Hx). cbn [mbind res_bind next dat]. rewrite or_else_none.
  destruct (IH (delete x h) (Some x)) as (h' & -> & Hd & Hf); [|done|].
  { eapply seg_frame; [exact Hs|]. intros y Hy. apply lookup_delete_ne. by intros ->. }
  cbn [mbind res_bind fst snd]. exists h'. split; [|split].
  - unfold freed. by destruct (free_ l).
  - rewrite Hd, dom_delete_L. cbn. set_solver.
  - intros y Hy. cbn in Hy. rewrite Hf by set_solver. apply lookup_delete_ne. set_solver.
Qed.

Lemma listEmpty_spec h l ns : lrep h l ns ->
  exists h', listEmpty h l = Ok (h', set_ends l None None 0, if free_ l then ns.*2 else []) /\ lrep h' (set_ends l None None 0) [] /\
    dom h' = dom h ∖ list_to_set ns.*1 /\ (forall y, y ∉ ns.*1 -> h' !! y = h !! y).
Proof.
  intros [[Hnd Hseg] Hh Ht Hl Hs]. unfold listEmpty. rewrite Hl, Hh. unfold zlen. rewrite Nat2Z.id.
  destruct (empty_loop_spec l ns h None Hseg Hnd) as (h' & -> & Hd & Hf). cbn [mbind res_bind fst snd]. exists h'. split; [done|]. split; [|done].
  apply (lrep_ends h' l []); [split; [constructor|done]|done|done].
Qed.

(** ** Finding *)

Lemma index_forward (h : heap) (B : nodes) : forall A i fuel, chain h (A ++ B) -> 0 <= i -> (length B <= fuel)%nat ->
  index_loop fuel h AL_START_HEAD i (first_of B) = Ok (fst <$> B !! Z.to_nat i).
Proof.
  induction B as [|[x d] B IH]; intros A i fuel Hc Hi Hf.
  { destruct fuel; cbn; destruct (i =? 0); by rewrite lookup_nil. }
  cbn [first_of head fmap option_fmap option_map fst]. destruct fuel as [|fuel]; [cbn in Hf; lia|]. cbn [index_loop].
  destruct (Z.eqb_spec i 0) as [->|Hi0]; [done|]. rewrite (chain_get _ _ _ _ _ Hc). cbn [mbind res_bind next].
  rewrite (IH (A ++ [(x, d)])); [|by rewrite <- app_assoc|lia|cbn in Hf; lia]. replace (Z.to_nat i) with (S (Z.to_nat (i - 1))) by lia. done.
Qed.

Lemma index_backward (h : heap) (A : nodes) : forall B i fuel, chain h (A ++ B) -> 0 <= i -> (length A <= fuel)%nat ->
  index_loop fuel h AL_START_TAIL i (last_of A) = Ok (fst <$> reverse A !! Z.to_nat i).
Proof.
  induction A as [|[x d] A IH] using rev_ind; intros B i fuel Hc Hi Hf.
  { destruct fuel; cbn; destruct (i =? 0); by rewrite lookup_nil. }
  rewrite last_of_snoc, reverse_snoc. rewrite length_app in Hf. cbn in Hf. destruct fuel as [|fuel]; [lia|]. cbn [index_loop].
  destruct (Z.eqb_spec i 0) as [->|Hi0]; [done|]. rewrite <- app_assoc in Hc. rewrite (chain_get _ _ _ _ _ Hc). cbn [mbind res_bind prev].
  rewrite (IH ([(x, d)] ++ B)) by (done || lia). replace (Z.to_nat i) with (S (Z.to_nat (i - 1))) by lia. done.
Qed.

Lemma chain_size (h : heap) (ns : nodes) : chain h ns -> (length ns <= size h)%nat.
Proof.
  intros Hc. rewrite <- (length_fmap fst), <- (size_list_to_set (C := gset loc)) by apply Hc. rewrite <- size_dom. apply subseteq_size. intros x Hx.
  apply elem_of_list_to_set in Hx. destruct (decide (x ∈ dom h)); [done|]. by destruct (chain_fresh h ns x Hc n).
Qed.

(** A negative index counts from the tail. *)
Definition at_index (ns : nodes) (i : Z) : option (loc * V) :=
  if i <? 0 then reverse ns !! Z.to_nat (- i - 1) else ns !! Z.to_nat i.

Lemma listIndex_spec h l ns i : lrep h l ns -> - 2 ^ 63 < i < 2 ^ 63 -> listIndex h l i = Ok (fst <$> at_index ns i).
Proof.
  intros [Hc Hh Ht Hl Hs] Hi. unfold listIndex, at_index. pose proof (chain_size h ns Hc). destruct (Z.ltb_spec i 0).
  - rewrite Ht, (wraps_small 64 (- i)), wraps_small by lia. apply (index_backward h ns []); [by rewrite app_nil_r|lia|done].
  - rewrite Hh. by apply (index_forward h ns []).
Qed.

Definition matches (l : adlist V) (key : V) (d : V) : bool := match match_ l with Some f => f d key | None => bool_decide (key = d) end.

Lemma search_nodes_spec (h : heap) l key (B : nodes) : forall A fuel, chain h (A ++ B) -> (length B < fuel)%nat ->
  search_loop fuel h l key {| iter_next := first_of B; iter_direction := AL_START_HEAD |} =
    Ok (fst <$> List.find (fun c => matches l key c.2) B).
Proof.
  induction B as [|[x d] B IH]; intros A fuel Hc Hf; (destruct fuel as [|fuel]; [cbn in Hf; lia|]); [done|].
  cbn [search_loop listNext iter_next iter_direction first_of head fmap option_fmap option_map fst]. rewrite !(chain_get _ _ _ _ _ Hc).
  cbn [mbind res_bind next]. rewrite (chain_get _ _ _ _ _ Hc). cbn [mbind res_bind dat List.find snd]. change (match match_ l with Some f => f d key | None => bool_decide (key = d) end) with (matches l key d).
  destruct (matches l key d); [done|]. apply (IH (A ++ [(x, d)])); [by rewrite <- app_assoc|cbn in Hf; lia].
Qed.

Lemma listSearchKey_spec h l ns key : lrep h l ns -> listSearchKey h l key = Ok (fst <$> List.find (fun c => matches l key c.2) ns).
Proof.
  intros [Hc Hh Ht Hl Hs]. unfold listSearchKey, listRewind. rewrite Hh. apply (search_nodes_spec h l key ns []); [done|].
  pose proof (chain_size h ns Hc). lia.
Qed.

(** ** Rotating and joining *)

(** Taking the last node to the front: the writes of [listRotateTailToHead]. *)
Lemma rotate_chain (h : heap) (A : nodes) x d : chain h (A ++ [(x, d)]) -> A <> [] ->
  let h1 := aim_last None A h in let h2 := aim_first (Some x) A h1 in
  let h4 := alter (with_next (first_of A)) x (alter (with_prev None) x h2) in
  chain h4 ((x, d) :: A) /\ (forall y, y ∈ A.*1 -> is_Some (h !! y) /\ is_Some (h1 !! y)) /\ is_Some (h !! x) /\ is_Some (h2 !! x) /\ dom h4 = dom h.
Proof.
  intros (HndA & _ & Hap & HsA & [Hx _])%chain_app HA h1 h2 h4.
  assert (x ∉ A.*1) as HxA by (intros Hin; apply (Hap x Hin); by left).
  assert (h2 !! x = h !! x) as Hx2 by (unfold h2, h1; by rewrite aim_first_other, aim_last_other).
  assert (forall y, y ∈ A.*1 -> is_Some (h !! y)) as Hin.
  { intros y Hy. apply list_elem_of_fmap in Hy as ([z e] & -> & Hy). apply list_elem_of_split in Hy as (P & Q & ->).
    rewrite seg_app in HsA. destruct HsA as [_ [Hz _]]. cbn. rewrite Hz. eauto. }
  split; [|split; [|split; [rewrite Hx; eauto|split; [rewrite Hx2, Hx; eauto|]]]].
  - apply (chain_app h4 [(x, d)] A). split; [apply NoDup_singleton|]. split; [done|].
    split; [intros y [->|Hy]%elem_of_cons; [done|by apply elem_of_nil in Hy]|]. split.
    + cbn. split; [|done]. unfold h4. rewrite !lookup_alter_eq, Hx2, Hx. cbn. unfold with_next, with_prev. cbn. done.
    + assert (seg h2 (Some x) A None) as H2.
      { unfold h2. eapply aim_first_seg; [|done]. unfold h1. by eapply aim_last_seg. }
      eapply seg_frame; [exact H2|]. intros y Hy. unfold h4. rewrite !lookup_alter_ne; [done|..]; by intros <-.
  - intros y Hy. split; [by apply Hin|]. unfold h1. by apply aim_last_some, Hin.
  - unfold h4. rewrite !dom_alter_L. unfold h2, h1. by rewrite aim_first_dom, aim_last_dom.
Qed.

Lemma rotateTail_spec h l A x d : lrep h l (A ++ [(x, d)]) ->
  exists h' l', listRotateTailToHead h l = Ok (h', l') /\ lrep h' l' ((x, d) :: A) /\ dom h' = dom h /\
    dup l' = dup l /\ free_ l' = free_ l /\ match_ l' = match_ l.
Proof.
  intros [Hc Hh Ht Hl Hs]. unfold listRotateTailToHead. rewrite Hl, Hh, Ht. destruct (Z.leb_spec (zlen (A ++ [(x, d)])) 1) as [Hle|Hgt].
  { assert (A = []) as ->. { rewrite zlen_app in Hle. destruct A; [done|]. rewrite zlen_cons in Hle. change (zlen [(x, d)]) with 1 in Hle. pose proof (zlen_nonneg A). lia. }
    exists h, l. split; [done|]. by split. }
  assert (A <> []) as HA by by intros ->. destruct (rotate_chain h A x d Hc HA) as (Hc' & Hin & [nx Hx] & [n2 Hx2] & Hd).
  rewrite last_of_snoc. cbn [the mbind res_bind]. rewrite (chain_get _ _ _ _ _ Hc). cbn [mbind res_bind prev]. rewrite first_of_app.
  assert (exists y, first_of A = Some y /\ y ∈ A.*1) as (y & Hy & HyA) by (destruct A as [|[y e] A]; [done|]; exists y; split; [done|by left]).
  assert (exists t, last_of A = Some t /\ t ∈ A.*1) as (t & Htl & HtA).
  { destruct A as [|[t e] A _] using rev_ind; [done|]. exists t. rewrite last_of_snoc, fmap_app. split; [done|]. apply elem_of_app. right. by left. }
  rewrite Htl, Hy. cbn [the mbind res_bind or_else]. destruct (Hin t HtA) as [[nt Hnt] _]. destruct (Hin y HyA) as [_ [ny Hny]].
  unfold set_next, set_prev. rewrite (modify_ok _ _ _ _ Hnt). cbn [mbind res_bind].
  assert (alter (with_next None) t h = aim_last None A h) as -> by (unfold aim_last; by rewrite Htl). rewrite (modify_ok _ _ _ _ Hny). cbn [mbind res_bind].
  assert (alter (with_prev (Some x)) y (aim_last None A h) = aim_first (Some x) A (aim_last None A h)) as -> by (unfold aim_first; by rewrite Hy).
  rewrite (modify_ok _ _ _ _ Hx2). cbn [mbind res_bind]. rewrite (modify_ok _ _ x (with_prev None n2)) by by rewrite lookup_alter_eq, Hx2. cbn [mbind res_bind].
  rewrite <- Hy. eexists _, _. split; [done|]. split; [|done]. rewrite <- Htl.
  assert (last_of A = last_of ((x, d) :: A)) as -> by by rewrite last_of_cons, Htl. change (Some x) with (first_of ((x, d) :: A)).
  rewrite zlen_app in *. change (zlen [(x, d)]) with 1 in *. apply lrep_ends; [done|rewrite zlen_cons; lia|rewrite zlen_cons; lia].
Qed.

(** Taking the first node to the end. *)
Lemma rotate_head_chain (h : heap) (A : nodes) x d : chain h ((x, d) :: A) -> A <> [] ->
  let h1 := aim_first None A h in let h2 := aim_last (Some x) A h1 in
  let h4 := alter (with_prev (last_of A)) x (alter (with_next None) x h2) in
  chain h4 (A ++ [(x, d)]) /\ (forall y, y ∈ A.*1 -> is_Some (h !! y) /\ is_Some (h1 !! y)) /\ is_Some (h2 !! x) /\ dom h4 = dom h.
Proof.
  intros Hc HA h1 h2 h4. pose proof Hc as (_ & HndA & Hap & [Hx _] & HsA)%(chain_app h [(x, d)] A).
  assert (x ∉ A.*1) as HxA by (apply (Hap x); by left).
  assert (h2 !! x = h !! x) as Hx2 by (unfold h2, h1; by rewrite aim_last_other, aim_first_other).
  assert (forall y, y ∈ A.*1 -> is_Some (h !! y)) as Hin.
  { intros y Hy. apply list_elem_of_fmap in Hy as ([z e] & -> & Hy). apply list_elem_of_split in Hy as (P & Q & ->).
    rewrite seg_app in HsA. destruct HsA as [_ [Hz _]]. cbn. rewrite Hz. eauto. }
  split; [|split; [|split; [rewrite Hx2, Hx; eauto|]]].
  - apply (chain_app h4 A [(x, d)]). split; [done|]. split; [apply NoDup_singleton|].
    split; [intros y Hy [->|Hy']%elem_of_cons; [done|by apply elem_of_nil in Hy']|]. split.
    + assert (seg h2 None A (Some x)) as H2.
      { unfold h2. eapply aim_last_seg; [|done]. unfold h1. by eapply aim_first_seg. }
      eapply seg_frame; [exact H2|]. intros y Hy. unfold h4. rewrite !lookup_alter_ne; [done|..]; by intros <-.
    + cbn. split; [|done]. unfold h4. rewrite !lookup_alter_eq, Hx2, Hx. done.
  - intros y Hy. split; [by apply Hin|]. rewrite <- elem_of_dom. unfold h1. rewrite aim_first_dom. by apply elem_of_dom, Hin.
  - unfold h4. rewrite !dom_alter_L. unfold h2, h1. by rewrite aim_last_dom, aim_first_dom.
Qed.

Lemma rotateHead_spec h l A x d : lrep h l ((x, d) :: A) ->
  exists h' l', listRotateHeadToTail h l = Ok (h', l') /\ lrep h' l' (A ++ [(x, d)]) /\ dom h' = dom h /\
    dup l' = dup l /\ free_ l' = free_ l /\ match_ l' = match_ l.
Proof.
  intros [Hc Hh Ht Hl Hs]. unfold listRotateHeadToTail. rewrite Hl, Hh, Ht. destruct (Z.leb_spec (zlen ((x, d) :: A)) 1) as [Hle|Hgt].
  { assert (A = []) as ->. { rewrite zlen_cons in Hle. destruct A; [done|]. rewrite zlen_cons in Hle. pose proof (zlen_nonneg A). lia. }
    exists h, l. split; [done|]. by split. }
  assert (A <> []) as HA by by intros ->. destruct (rotate_head_chain h A x d Hc HA) as (Hc' & Hin & [n2 Hx2] & Hd).
  cbn [the mbind res_bind first_of head fmap option_fmap option_map fst]. rewrite (chain_get h [] x d A Hc). cbn [mbind res_bind next].
  assert (exists y, first_of A = Some y /\ y ∈ A.*1) as (y & Hy & HyA) by (destruct A as [|[y e] A]; [done|]; exists y; split; [done|by left]).
  assert (exists t, last_of A = Some t /\ t ∈ A.*1) as (t & Htl & HtA).
  { destruct A as [|[t e] A _] using rev_ind; [done|]. exists t. rewrite last_of_snoc, fmap_app. split; [done|]. apply elem_of_app. right. by left. }
  rewrite Hy, last_of_cons, Htl. cbn [the mbind res_bind or_else]. destruct (Hin y HyA) as [[ny Hny] _]. destruct (Hin t HtA) as [_ [nt Hnt]].
  unfold set_next, set_prev. rewrite (modify_ok _ _ _ _ Hny). cbn [mbind res_bind].
  assert (alter (with_prev None) y h = aim_first None A h) as -> by (unfold aim_first; by rewrite Hy). rewrite (modify_ok _ _ _ _ Hnt). cbn [mbind res_bind].
  assert (alter (with_next (Some x)) t (aim_first None A h) = aim_last (Some x) A (aim_first None A h)) as -> by (unfold aim_last; by rewrite Htl).
  rewrite (modify_ok _ _ _ _ Hx2). cbn [mbind res_bind]. rewrite (modify_ok _ _ x (with_next None n2)) by by rewrite lookup_alter_eq, Hx2. cbn [mbind res_bind].
  rewrite <- Htl. eexists _, _. split; [done|]. split; [|done]. rewrite <- Hy.
  rewrite <- (first_of_snoc A (x, d)) by done. rewrite <- (last_of_snoc A x d). rewrite zlen_cons in *.
  apply lrep_ends; [by rewrite last_of_snoc|rewrite zlen_app; change (zlen [(x, d)]) with 1; lia..].
Qed.

Lemma listJoin_spec h l o A B : lrep h l A -> lrep h o B -> apart A B -> zlen (A ++ B) < 2 ^ 62 ->
  exists h' l', listJoin h l o = Ok (h', l', set_ends o None None 0) /\ lrep h' l' (A ++ B) /\ dom h' = dom h /\
    dup l' = dup l /\ free_ l' = free_ l /\ match_ l' = match_ l.
Proof.
  intros [[HndA HsA] Hh Ht Hl Hs] [[HndB HsB] Hh' Ht' Hl' Hs'] Hap Hroom. unfold listJoin. rewrite Hl', Hh', Ht', Hl, Hh, Ht. destruct B as [|[y e] B].
  { exists h, l. rewrite app_nil_r. split; [|by repeat split]. cbn. do 2 f_equal. unfold set_ends. destruct o. cbn in *. by subst. }
  rewrite (proj2 (Z.eqb_neq _ _)) by (rewrite zlen_cons; pose proof (zlen_nonneg B); lia). cbn [the mbind res_bind first_of head fmap option_fmap option_map fst].
  pose proof (join_chain h A ((y, e) :: B) _ _ HsA HsB HndA HndB Hap) as Hc'.
  assert (h !! y = Some {| prev := None; next := or_else (first_of B) None; dat := e |}) as Hy by apply HsB.
  unfold set_prev. rewrite (modify_ok _ _ _ _ Hy). cbn [mbind res_bind].
  assert (y ∉ A.*1) as HyA by (intros Hin; apply (Hap y Hin); by left).
  assert (match last_of A with Some t => h0 ← set_next (alter (with_prev (last_of A)) y h) t (Some y); Ok (h0, first_of A) | None => Ok (alter (with_prev (last_of A)) y h, Some y) end =
    Ok (join A ((y, e) :: B) h, first_of (A ++ (y, e) :: B))) as ->.
  { unfold join, aim_first. cbn [first_of head fmap option_fmap option_map fst]. destruct A as [|[t d] A _] using rev_ind; [done|]. rewrite last_of_snoc in *.
    rewrite fmap_app in HyA. assert (t <> y) as Hty by set_solver. rewrite seg_app in HsA. destruct HsA as [_ [Htn _]].
    unfold set_next. rewrite (modify_ok _ _ t {| prev := or_else (last_of A) None; next := None; dat := d |}) by (rewrite lookup_alter_ne by done; exact Htn).
    cbn [mbind res_bind]. do 2 f_equal; [|by destruct A]. unfold aim_last. rewrite last_of_snoc. by apply alter_swap. }
  cbn [mbind res_bind]. eexists _, _. split; [done|]. split; [|split; [apply join_dom|done]].
  replace (last_of ((y, e) :: B)) with (last_of (A ++ (y, e) :: B)) by (rewrite last_of_app, last_of_cons; by destruct (last_of B)).
  rewrite zlen_app in *. pose proof (zlen_nonneg A). pose proof (zlen_nonneg ((y, e) :: B)). apply lrep_ends; rewrite ?zlen_app; [done|lia|apply wrapu_small; lia].
Qed.

(** ** Copying *)

Definition copied (l : adlist V) (vs : list V) : option (list V) :=
  match dup l with Some f => mapM f vs | None => Some vs end.

Lemma chain_beside (h : heap) (ns ms : nodes) x v : chain h ns -> apart ns ms -> x ∉ dom h -> chain (link ms x v [] h) ns.
Proof.
  intros [Hnd Hs] Hap Hx. split; [done|]. eapply seg_frame; [exact Hs|]. intros y Hy. apply link_other.
  - intros ->. by apply (chain_fresh h ns x (conj Hnd Hs) Hx).
  - rewrite app_nil_r. by apply Hap.
Qed.

Lemma dup_loop_spec B : forall A h copy ms fuel, chain h (A ++ B) -> lrep h copy ms -> apart (A ++ B) ms -> zlen ms + zlen B < 2 ^ 62 ->
  (length B < fuel)%nat ->
  exists h' r vs, dup_loop fuel h copy {| iter_next := first_of B; iter_direction := AL_START_HEAD |} = Ok (h', r, vs) /\ chain h' (A ++ B) /\
  match copied copy B.*2 with
  | Some vs' => exists copy' ms', r = Some copy' /\ vs = [] /\ lrep h' copy' (ms ++ ms') /\ ms'.*2 = vs' /\ apart (A ++ B) (ms ++ ms') /\
      dom h' = dom h ∪ list_to_set ms'.*1 /\ dup copy' = dup copy /\ free_ copy' = free_ copy
  | None => r = None /\ dom h' = dom h ∖ list_to_set ms.*1 /\ exists k, vs = if free_ copy then ms.*2 ++ k else []
  end.
Proof.
  induction B as [|[x d] B IH]; intros A h copy ms fuel Hc Hm Hap Hroom Hf; (destruct fuel as [|fuel]; [cbn in Hf; lia|]).
  { assert (copied copy (@nil (loc * V)).*2 = Some []) as -> by (unfold copied; by destruct (dup copy)).
    exists h, (Some copy), []. split; [done|]. split; [done|]. exists copy, []. rewrite app_nil_r. split_and!; try done. cbn. set_solver. }
  set (value := match dup copy with Some f => f d | None => Some d end).
  assert (copied copy ((x, d) :: B).*2 = v ← value; vs ← copied copy B.*2; Some (v :: vs)) as ->.
  { unfold copied, value. cbn. destruct (dup copy); [|done]. cbn. destruct (o d); [|done]. cbn. done. }
  cbn [dup_loop listNext iter_next iter_direction first_of head fmap option_fmap option_map fst]. rewrite (chain_get _ _ _ _ _ Hc). cbn [mbind res_bind next].
  rewrite (chain_get _ _ _ _ _ Hc). cbn [mbind res_bind dat]. fold value.
  assert (forall v, exists y c', listAddNodeTail h copy v = Ok (link ms y v [] h, c') /\ (y ∉ dom h) /\ lrep (link ms y v [] h) c' (ms ++ [(y, v)]) /\ dup c' = dup copy /\ free_ c' = free_ copy /\ match_ c' = match_ copy) as Hadd.
  { intros v. apply addTail_spec; [done|]. rewrite zlen_cons in Hroom. pose proof (zlen_nonneg B). lia. }
  destruct value as [v|]; cbn [mbind option_bind].
  - destruct (Hadd v) as (y & c' & -> & Hy & Hm' & Hd & Hfr & _). cbn [mbind res_bind].
    pose proof (chain_fresh _ _ _ Hc Hy) as HyA.
    destruct (IH (A ++ [(x, d)]) (link ms y v [] h) c' (ms ++ [(y, v)]) fuel) as (h' & r & vs & -> & Hc' & Hres).
    + rewrite <- app_assoc. by apply chain_beside.
    + done.
    + rewrite <- app_assoc. intros z Hz Hz'. rewrite fmap_app in Hz'. apply elem_of_app in Hz' as [Hz'|Hz']; [by apply (Hap z Hz)|].
      cbn in Hz'. apply list_elem_of_singleton in Hz' as ->. done.
    + rewrite zlen_cons in Hroom. rewrite zlen_app. change (zlen [(y, v)]) with 1. lia.
    + cbn in Hf. lia.
    + rewrite <- app_assoc in Hc', Hres. exists h', r, vs. split; [done|]. split; [done|].
      assert (copied c' B.*2 = copied copy B.*2) as Hcop by (unfold copied; by rewrite Hd). rewrite Hcop in Hres.
      destruct (copied copy B.*2) as [vs'|]; cbn [mbind option_bind].
      * destruct Hres as (copy' & ms' & -> & -> & Hm2 & Hv & Hap2 & Hd2 & Hdd & Hff). exists copy', ((y, v) :: ms'). rewrite <- app_assoc in Hm2, Hap2.
        split_and!; try done; [cbn; by rewrite Hv| |congruence|congruence]. rewrite Hd2, link_dom. cbn. set_solver.
      * destruct Hres as (-> & Hd2 & k & ->). split; [done|]. split; [|exists (v :: k); rewrite Hfr, fmap_app; cbn; by rewrite <- app_assoc].
        rewrite Hd2, link_dom, fmap_app. cbn. pose proof (chain_fresh _ _ _ (lrep_chain _ _ _ Hm) Hy). set_solver.
  - unfold listRelease. destruct (listEmpty_spec h copy ms Hm) as (h' & -> & _ & Hd & Hfr). cbn [mbind res_bind]. eexists h', _, _. split; [done|]. split.
    + destruct Hc as [Hnd Hs]. split; [done|]. eapply seg_frame; [exact Hs|]. intros y Hy. apply Hfr. by apply Hap.
    + split; [done|]. split; [done|]. exists []. by rewrite app_nil_r.
Qed.

End theory.
End AdlistTheory.
