(* ===== verification/AdlistSpec.v ===== *)
(** * Doubly linked lists: refinement to sequences

    The abstract list is the sequence of its values.  Any sequence of
    operations, loops that delete the node they visit and copies included,
    answers as the sequence does; the values passed to the free method are
    exactly those of the removed nodes, and releasing the list frees every node
    once. *)

From S2P Require Import Prelude Dll Adlist AdlistTheory.
From stdpp Require Import list gmap fin_maps.
#[local] Open Scope Z_scope.

Module AdlistSpec.
Import Dll Adlist AdlistTheory.

Section spec.
Context {V : Type} `{EqDecision V}.
#[local] Abbreviation heap := (dheap V).
#[local] Abbreviation nodes := (list (loc * V)).

(** ** Operations *)

(** Nodes are named by their index, negative from the tail, as [listIndex]
    finds them.  [LDelIf] is the loop over an iterator that deletes the node it
    was given when its value satisfies a condition. *)
Inductive lop : Type :=
  | LAddHead (v : V)
  | LAddTail (v : V)
  | LInsert (i : Z) (v : V) (after : bool)
  | LDel (i : Z)
  | LDelIf (d : direction) (p : V -> bool)
  | LIndex (i : Z)
  | LSearch (key : V)
  | LRotateTailToHead
  | LRotateHeadToTail
  | LDupJoin
  | LLength
  | LEmpty.

Inductive lanswer : Type :=
  | LDone
  | LValue (v : option V)
  | LFreed (vs : list V)
  | LNumber (n : Z).

(** [while((ln = listNext(&li))) if (p(ln->value)) listDelNode(l,ln);] *)
Fixpoint del_if_loop (fuel : nat) (h : heap) (l : adlist V) (p : V -> bool) (iter : listIter) : res (heap * adlist V * list V) :=
  match fuel with
  | O => Fault OutOfFuel
  | S fuel =>
    '(iter, node) ← listNext h iter;
    match node with
    | None => Ok (h, l, [])
    | Some x =>
      n ← get h x;
      if p (dat n) then
        '(h, l, vs) ← listDelNode h l x;
        '(h, l, vs') ← del_if_loop fuel h l p iter;
        Ok (h, l, vs ++ vs')
      else del_if_loop fuel h l p iter
    end
  end.

Definition value_at (h : heap) (x : option loc) : res (option V) :=
  match x with None => Ok None | Some x => n ← get h x; Ok (Some (dat n)) end.

Definition run_lop (o : lop) (h : heap) (l : adlist V) : res (heap * adlist V * lanswer) :=
  match o with
  | LAddHead v => '(h, l) ← listAddNodeHead h l v; Ok (h, l, LDone)
  | LAddTail v => '(h, l) ← listAddNodeTail h l v; Ok (h, l, LDone)
  | LInsert i v after =>
    x ← listIndex h l i;
    match x with None => Ok (h, l, LDone) | Some x => '(h, l) ← listInsertNode h l x v after; Ok (h, l, LDone) end
  | LDel i =>
    x ← listIndex h l i;
    match x with None => Ok (h, l, LFreed []) | Some x => '(h, l, vs) ← listDelNode h l x; Ok (h, l, LFreed vs) end
  | LDelIf d p => '(h, l, vs) ← del_if_loop (S (size h)) h l p (listGetIterator l d); Ok (h, l, LFreed vs)
  | LIndex i => x ← listIndex h l i; v ← value_at h x; Ok (h, l, LValue v)
  | LSearch key => x ← listSearchKey h l key; v ← value_at h x; Ok (h, l, LValue v)
  | LRotateTailToHead => '(h, l) ← listRotateTailToHead h l; Ok (h, l, LDone)
  | LRotateHeadToTail => '(h, l) ← listRotateHeadToTail h l; Ok (h, l, LDone)
  | LDupJoin =>
    '(h, copy, vs) ← listDup h l;
    match copy with None => Ok (h, l, LDone) | Some copy => '(h, l, o) ← listJoin h l copy; Ok (h, l, LDone) end
  | LLength => Ok (h, l, LNumber (len l))
  | LEmpty => '(h, l, vs) ← listEmpty h l; Ok (h, l, LFreed vs)
  end.

Fixpoint run_lops (os : list lop) (h : heap) (l : adlist V) : res (heap * adlist V * list lanswer) :=
  match os with
  | [] => Ok (h, l, [])
  | o :: os => '(h, l, a) ← run_lop o h l; '(h, l, answers) ← run_lops os h l; Ok (h, l, a :: answers)
  end.

(** ** Their meaning *)

Section meaning.
Context (l : adlist V).

(** The position an index names. *)
Definition position (vs : list V) (i : Z) : Z := if i <? 0 then zlen vs + i else i.

Definition freed_all (vs : list V) : list V := if free_ l then vs else [].

Definition spec_lop (o : lop) (vs : list V) : list V * lanswer :=
  match o with
  | LAddHead v => (v :: vs, LDone)
  | LAddTail v => (vs ++ [v], LDone)
  | LInsert i v after =>
    let k := position vs i in
    if (0 <=? k) && (k <? zlen vs) then
      let k := Z.to_nat (if after then k + 1 else k) in (take k vs ++ v :: drop k vs, LDone)
    else (vs, LDone)
  | LDel i =>
    let k := position vs i in
    match (if 0 <=? k then vs !! Z.to_nat k else None) with
    | Some v => (delete (Z.to_nat k) vs, LFreed (freed_all [v]))
    | None => (vs, LFreed [])
    end
  | LDelIf d p =>
    let gone := List.filter p vs in
    (List.filter (fun v => negb (p v)) vs, LFreed (freed_all (match d with AL_START_HEAD => gone | AL_START_TAIL => reverse gone end)))
  | LIndex i => let k := position vs i in (vs, LValue (if 0 <=? k then vs !! Z.to_nat k else None))
  | LSearch key => (vs, LValue (List.find (matches l key) vs))
  | LRotateTailToHead => (match last vs with Some v => v :: take (length vs - 1) vs | None => vs end, LDone)
  | LRotateHeadToTail => (match vs with v :: vs => vs ++ [v] | [] => vs end, LDone)
  | LDupJoin => (vs ++ default [] (copied l vs), LDone)
  | LLength => (vs, LNumber (zlen vs))
  | LEmpty => ([], LFreed (freed_all vs))
  end.

Fixpoint spec_lops (os : list lop) (vs : list V) : list V * list lanswer :=
  match os with
  | [] => (vs, [])
  | o :: os => let '(vs, a) := spec_lop o vs in let '(vs, answers) := spec_lops os vs in (vs, a :: answers)
  end.

Definition lop_ok (o : lop) (vs : list V) : Prop :=
  2 * zlen vs + 2 < 2 ^ 62 /\
  match o with LInsert i _ _ | LDel i | LIndex i => - 2 ^ 63 < i < 2 ^ 63 | _ => True end.

Fixpoint lops_ok (os : list lop) (vs : list V) : Prop :=
  match os with [] => True | o :: os => lop_ok o vs /\ lops_ok os (fst (spec_lop o vs)) end.

End meaning.

(** ** Simulation *)

Definition same_methods (l l' : adlist V) : Prop := dup l' = dup l /\ free_ l' = free_ l /\ match_ l' = match_ l.

Lemma at_position (ns : nodes) i : - 2 ^ 63 < i -> at_index ns i = let k := position ns.*2 i in if 0 <=? k then ns !! Z.to_nat k else None.
Proof.
  intros Hi. unfold at_index, position. rewrite zlen_fmap. destruct (Z.ltb_spec i 0); cbn zeta; [|by destruct (Z.leb_spec 0 i); [|lia]].
  unfold zlen. destruct (Z.leb_spec 0 (Z.of_nat (length ns) + i)).
  - rewrite reverse_lookup by lia. f_equal. lia.
  - apply lookup_ge_None_2. rewrite length_reverse. lia.
Qed.

Lemma at_split (ns : nodes) i x d : - 2 ^ 63 < i -> at_index ns i = Some (x, d) ->
  let k := position ns.*2 i in 0 <= k < zlen ns.*2 /\ ns = take (Z.to_nat k) ns ++ (x, d) :: drop (S (Z.to_nat k)) ns /\ ns.*2 !! Z.to_nat k = Some d.
Proof.
  intros Hi H k. rewrite at_position in H by done. fold k in H. cbn zeta in H. destruct (Z.leb_spec 0 k); [|done].
  pose proof (lookup_lt_Some _ _ _ H). rewrite zlen_fmap, list_lookup_fmap, H. unfold zlen. split; [lia|]. split; [by rewrite take_drop_middle|done].
Qed.

Lemma at_none (ns : nodes) i : - 2 ^ 63 < i -> at_index ns i = None ->
  let k := position ns.*2 i in (0 <=? k) && (k <? zlen ns.*2) = false /\ (if 0 <=? k then ns.*2 !! Z.to_nat k else None) = None.
Proof.
  intros Hi H k. rewrite at_position in H by done. fold k in H. cbn zeta in H. rewrite zlen_fmap, list_lookup_fmap. destruct (Z.leb_spec 0 k); [|done].
  rewrite H. split; [|done]. apply lookup_ge_None in H. apply Z.ltb_ge. unfold zlen. lia.
Qed.

Lemma lwhole_link h (A B : nodes) x v l' : dom h = list_to_set (A ++ B).*1 -> lrep (link A x v B h) l' (A ++ (x, v) :: B) ->
  lwhole (link A x v B h) l' (A ++ (x, v) :: B).
Proof. intros Hd Hl. split; [done|]. rewrite link_dom, Hd, !fmap_app. cbn. set_solver. Qed.

Lemma lwhole_del h l A x d B : lwhole h l (A ++ (x, d) :: B) ->
  exists h' l', listDelNode h l x = Ok (h', l', freed l d) /\ lwhole h' l' (A ++ B) /\ same_methods l l'.
Proof.
  intros [Hl Hd]. pose proof (nodup_mid _ _ _ _ (proj1 (lrep_chain _ _ _ Hl))) as Hx.
  destruct (delNode_spec h l A x d B Hl) as (h' & l' & E & Hl' & Hd' & Hm). exists h', l'. split; [done|]. split; [|done]. split; [done|].
  rewrite Hd', Hd. rewrite !fmap_app in *. cbn. set_solver.
Qed.

Lemma del_forward p (B : nodes) : forall A h l fuel, lwhole h l (A ++ B) -> (length B < fuel)%nat ->
  exists h' l', del_if_loop fuel h l p {| iter_next := first_of B; iter_direction := AL_START_HEAD |} =
      Ok (h', l', freed_all l (List.filter p B.*2)) /\
    lwhole h' l' (A ++ List.filter (fun c => negb (p c.2)) B) /\ same_methods l l'.
Proof.
  induction B as [|[x d] B IH]; intros A h l fuel Hw Hf; (destruct fuel as [|fuel]; [cbn in Hf; lia|]).
  { exists h, l. split; [unfold freed_all; by destruct (free_ l)|]. by split. }
  pose proof Hw as [Hl _]. pose proof (lrep_chain _ _ _ Hl) as Hc. cbn in Hf.
  cbn [del_if_loop listNext iter_next iter_direction first_of head fmap option_fmap option_map fst]. rewrite (chain_get _ _ _ _ _ Hc). cbn [mbind res_bind next].
  rewrite (chain_get _ _ _ _ _ Hc). cbn [mbind res_bind dat list_fmap snd List.filter]. destruct (p d); cbn [negb].
  - destruct (lwhole_del h l A x d B Hw) as (h1 & l1 & -> & Hw1 & Hd1 & Hf1 & Hm1). cbn [mbind res_bind].
    destruct (IH A h1 l1 fuel Hw1 ltac:(lia)) as (h' & l' & -> & Hw' & Hd' & Hf' & Hm'). cbn [mbind res_bind]. exists h', l'.
    split; [unfold freed_all, freed; rewrite Hf1; by destruct (free_ l)|]. split; [done|]. split_and!; congruence.
  - destruct (IH (A ++ [(x, d)]) h l fuel) as (h' & l' & E & Hw' & Hm'); [by rewrite <- app_assoc|lia|]. exists h', l'. split; [exact E|].
    rewrite <- app_assoc in Hw'. done.
Qed.

Lemma del_backward p (A : nodes) : forall B h l fuel, lwhole h l (A ++ B) -> (length A < fuel)%nat ->
  exists h' l', del_if_loop fuel h l p {| iter_next := last_of A; iter_direction := AL_START_TAIL |} =
      Ok (h', l', freed_all l (reverse (List.filter p A.*2))) /\
    lwhole h' l' (List.filter (fun c => negb (p c.2)) A ++ B) /\ same_methods l l'.
Proof.
  induction A as [|[x d] A IH] using rev_ind; intros B h l fuel Hw Hf; (destruct fuel as [|fuel]; [cbn in Hf; lia|]).
  { exists h, l. split; [unfold freed_all; by destruct (free_ l)|]. by split. }
  rewrite <- app_assoc in Hw. pose proof Hw as [Hl _]. pose proof (lrep_chain _ _ _ Hl) as Hc. rewrite length_app in Hf. cbn in Hf.
  rewrite last_of_snoc, fmap_app, !List.filter_app, reverse_app. cbn [del_if_loop listNext iter_next iter_direction]. rewrite (chain_get _ _ _ _ _ Hc). cbn [mbind res_bind prev].
  rewrite (chain_get _ _ _ _ _ Hc). cbn [mbind res_bind dat fmap list_fmap snd List.filter]. destruct (p d); cbn [negb].
  - destruct (lwhole_del h l A x d B Hw) as (h1 & l1 & -> & Hw1 & Hd1 & Hf1 & Hm1). cbn [mbind res_bind].
    destruct (IH B h1 l1 fuel Hw1 ltac:(lia)) as (h' & l' & -> & Hw' & Hd' & Hf' & Hm'). cbn [mbind res_bind]. exists h', l'.
    split; [unfold freed_all, freed; rewrite Hf1; by destruct (free_ l)|]. rewrite app_nil_r. split; [done|]. split_and!; congruence.
  - destruct (IH ((x, d) :: B) h l fuel Hw ltac:(lia)) as (h' & l' & E & Hw' & Hm'). exists h', l'. split; [exact E|].
    rewrite <- app_assoc. done.
Qed.

Lemma filter_values (p : V -> bool) (ns : nodes) : (List.filter (fun c => p c.2) ns).*2 = List.filter p ns.*2.
Proof. induction ns as [|[x d] ns IH]; [done|]. cbn. destruct (p d); cbn; by rewrite IH. Qed.

Lemma find_values (p : V -> bool) (ns : nodes) : List.find p ns.*2 = snd <$> List.find (fun c => p c.2) ns.
Proof. induction ns as [|[x d] ns IH]; [done|]. cbn. by destruct (p d). Qed.

Lemma value_at_spec h (ns : nodes) c : chain h ns -> c ∈ ns -> value_at h (Some c.1) = Ok (Some c.2).
Proof. intros Hc Hin. destruct c as [x d]. apply list_elem_of_split in Hin as (A & B & ->). cbn. by rewrite (chain_get _ _ _ _ _ Hc). Qed.

(** [o] keeps the list whole and answers as the sequence does. *)
Definition simulated (o : lop) (h : heap) (l : adlist V) (ns : nodes) : Prop :=
  exists h' l' ns' a, run_lop o h l = Ok (h', l', a) /\ lwhole h' l' ns' /\ same_methods l l' /\ spec_lop l o ns.*2 = (ns'.*2, a).

Lemma add_simulated h l ns v (at_head : bool) : lwhole h l ns -> zlen ns + 1 < 2 ^ 62 ->
  simulated (if at_head then LAddHead v else LAddTail v) h l ns.
Proof.
  intros [Hl Hd] Hroom. destruct at_head; unfold simulated; cbn [run_lop spec_lop].
  - destruct (addHead_spec h l ns v Hl Hroom) as (x & l' & -> & Hx & Hl' & Hm). cbn [mbind res_bind].
    eexists _, _, ((x, v) :: ns), _. split; [done|]. split; [by apply (lwhole_link h [] ns)|]. by split.
  - destruct (addTail_spec h l ns v Hl Hroom) as (x & l' & -> & Hx & Hl' & Hm). cbn [mbind res_bind].
    eexists _, _, (ns ++ [(x, v)]), _. split; [done|]. split; [apply lwhole_link; [by rewrite app_nil_r|done]|]. split; [done|]. by rewrite fmap_app.
Qed.

Lemma insert_simulated h l ns i v (after : bool) : lwhole h l ns -> - 2 ^ 63 < i < 2 ^ 63 -> zlen ns + 1 < 2 ^ 62 ->
  simulated (LInsert i v after) h l ns.
Proof.
  intros Hw Hi Hroom. pose proof Hw as [Hl Hd]. unfold simulated. cbn [run_lop spec_lop]. rewrite (listIndex_spec h l ns i Hl Hi). cbn [mbind res_bind].
  destruct (at_index ns i) as [[x d]|] eqn:E; cbn [fmap option_fmap option_map fst].
  2:{ destruct (at_none ns i ltac:(lia) E) as [-> _]. by eexists _, _, ns, _. }
  destruct (at_split ns i x d ltac:(lia) E) as (Hk & Hns & _). set (k := position ns.*2 i) in *. set (A := take (Z.to_nat k) ns) in *. set (B := drop (S (Z.to_nat k)) ns) in *.
  rewrite Hns in Hl, Hroom. destruct (insertNode_spec h l A x d B v after Hl Hroom) as (y & l' & -> & Hy & Hl' & Hm). cbn [mbind res_bind].
  eexists _, _, _, _. split; [done|]. split; [apply lwhole_link; [|done]|].
  { rewrite Hd, Hns. destruct after; by rewrite <- ?app_assoc. }
  split; [done|]. rewrite (proj2 (Z.leb_le _ _)), (proj2 (Z.ltb_lt _ _)) by lia. cbn [andb]. f_equal. rewrite fmap_app. cbn [fmap list_fmap snd].
  rewrite <- fmap_take, <- fmap_drop. destruct after.
  - replace (Z.to_nat (k + 1)) with (S (Z.to_nat k)) by lia. rewrite zlen_fmap in Hk. unfold zlen in Hk. f_equal. f_equal.
    rewrite Hns at 1. unfold A. replace (S (Z.to_nat k)) with (length (take (Z.to_nat k) ns) + 1)%nat by (rewrite length_take; lia).
    by rewrite take_app_add'.
  - do 3 f_equal. rewrite Hns at 1. unfold A. rewrite drop_app_length'; [done|]. rewrite length_take. rewrite zlen_fmap in Hk. unfold zlen in Hk. lia.
Qed.

Lemma del_simulated h l ns i : lwhole h l ns -> - 2 ^ 63 < i < 2 ^ 63 -> simulated (LDel i) h l ns.
Proof.
  intros Hw Hi. pose proof Hw as [Hl Hd]. unfold simulated. cbn [run_lop spec_lop]. rewrite (listIndex_spec h l ns i Hl Hi). cbn [mbind res_bind].
  destruct (at_index ns i) as [[x d]|] eqn:E; cbn [fmap option_fmap option_map fst].
  2:{ destruct (at_none ns i ltac:(lia) E) as [_ ->]. by eexists _, _, ns, _. }
  destruct (at_split ns i x d ltac:(lia) E) as (Hk & Hns & Hd'). set (k := position ns.*2 i) in *. rewrite (proj2 (Z.leb_le _ _)), Hd' by lia.
  rewrite Hns in Hw. destruct (lwhole_del _ _ _ _ _ _ Hw) as (h' & l' & -> & Hw' & Hm). cbn [mbind res_bind]. eexists _, _, _, _. split; [done|]. split; [exact Hw'|].
  split; [done|]. f_equal. by rewrite delete_take_drop, fmap_app, fmap_take, fmap_drop.
Qed.

Lemma del_if_simulated h l ns d p : lwhole h l ns -> simulated (LDelIf d p) h l ns.
Proof.
  intros Hw. pose proof Hw as [[Hc Hh Ht Hl Hs] Hd]. unfold simulated. cbn [run_lop spec_lop listGetIterator]. unfold listGetIterator. rewrite Hh, Ht.
  pose proof (chain_size h ns Hc). destruct d.
  - destruct (del_forward p ns [] h l (S (size h)) Hw ltac:(lia)) as (h' & l' & -> & Hw' & Hm). cbn [mbind res_bind]. eexists _, _, _, _. split; [done|].
    split; [exact Hw'|]. split; [done|]. cbn [app]. by rewrite (filter_values (fun v => negb (p v))).
  - rewrite <- (app_nil_r ns) in Hw. destruct (del_backward p ns [] h l (S (size h)) Hw ltac:(lia)) as (h' & l' & -> & Hw' & Hm). cbn [mbind res_bind].
    rewrite app_nil_r in Hw'. eexists _, _, _, _. split; [done|]. split; [exact Hw'|]. split; [done|]. by rewrite (filter_values (fun v => negb (p v))).
Qed.

Lemma rotate_simulated h l ns (to_head : bool) : lwhole h l ns -> simulated (if to_head then LRotateTailToHead else LRotateHeadToTail) h l ns.
Proof.
  intros [Hl Hd]. assert (ns = [] -> (listRotateTailToHead h l = Ok (h, l) /\ listRotateHeadToTail h l = Ok (h, l))) as Hnil.
  { intros ->. unfold listRotateTailToHead, listRotateHeadToTail. by rewrite (lrep_len _ _ _ Hl). }
  destruct to_head; unfold simulated; cbn [run_lop spec_lop].
  - destruct ns as [|[x d] A _] using rev_ind.
    { destruct (Hnil eq_refl) as [-> _]. by exists h, l, [], LDone. }
    destruct (rotateTail_spec h l A x d Hl) as (h' & l' & -> & Hl' & Hd' & Hm). cbn [mbind res_bind]. eexists _, _, _, _. split; [done|].
    split; [split; [exact Hl'|rewrite Hd', Hd, fmap_app; cbn; set_solver]|]. split; [done|].
    rewrite fmap_app. cbn [fmap list_fmap snd]. rewrite last_snoc, length_app. cbn [length]. by rewrite Nat.add_sub, take_app_length.
  - destruct ns as [|[x d] A].
    { destruct (Hnil eq_refl) as [_ ->]. by exists h, l, [], LDone. }
    destruct (rotateHead_spec h l A x d Hl) as (h' & l' & -> & Hl' & Hd' & Hm). cbn [mbind res_bind]. eexists _, _, _, _. split; [done|].
    split; [split; [exact Hl'|rewrite Hd', Hd, fmap_app; cbn; set_solver]|]. split; [done|]. by rewrite fmap_app.
Qed.

Lemma dup_simulated h l ns : lwhole h l ns -> 2 * zlen ns + 2 < 2 ^ 62 -> simulated LDupJoin h l ns.
Proof.
  intros [Hl Hd] Hroom. pose proof Hl as [Hc Hh Ht Hn Hs]. unfold simulated. cbn [run_lop spec_lop]. unfold listDup, listRewind. rewrite Hh.
  pose proof (chain_size h ns Hc) as Hsz. set (copy := {| head_ := _; tail_ := _; dup := _; free_ := _; match_ := _; len := _ |}).
  assert (lrep h copy []) as H0 by (split; [|done..]; split; [apply NoDup_nil_2|done]).
  destruct (dup_loop_spec ns [] h copy [] (S (size h))) as (h1 & r & vs & -> & Hc1 & Hres); [done|done| |rewrite zlen_nil; pose proof (zlen_nonneg ns); lia|lia|].
  { intros x _ Hx. by apply elem_of_nil in Hx. }
  cbn [mbind res_bind]. assert (copied copy ns.*2 = copied l ns.*2) as Hcop by done. rewrite Hcop in Hres. assert (lrep h1 l ns) as Hl1 by by split.
  destruct (copied l ns.*2) as [vs'|] eqn:Ec; cbn [default].
  - destruct Hres as (copy' & ms & -> & -> & Hm & Hv & Hap & Hd1 & _). cbn [app] in *.
    assert (zlen ms = zlen ns) as Hlen.
    { rewrite <- (zlen_fmap snd ms), <- (zlen_fmap snd ns), Hv. unfold copied in Ec. destruct (dup l) as [f|]; [|by injection Ec as <-].
      apply length_mapM in Ec. unfold zlen. lia. }
    destruct (listJoin_spec h1 l copy' ns ms Hl1 Hm Hap) as (h2 & l2 & -> & Hl2 & Hd2 & Hm2); [rewrite zlen_app; lia|]. cbn [mbind res_bind].
    eexists _, _, _, _. split; [done|]. split; [split; [exact Hl2|rewrite Hd2, Hd1, Hd, fmap_app; set_solver]|]. split; [done|]. by rewrite fmap_app, Hv.
  - destruct Hres as (-> & Hd1 & _). eexists _, _, ns, _. split; [done|]. split; [split; [done|rewrite Hd1, Hd; cbn; set_solver]|]. split; [done|]. by rewrite app_nil_r.
Qed.

Lemma read_simulated h l ns : lwhole h l ns -> (forall i, - 2 ^ 63 < i < 2 ^ 63 -> simulated (LIndex i) h l ns) /\
  (forall key, simulated (LSearch key) h l ns) /\ simulated LLength h l ns.
Proof.
  intros Hw. pose proof Hw as [Hl Hd]. pose proof (lrep_chain _ _ _ Hl) as Hc. split; [|split].
  - intros i Hi. unfold simulated. cbn [run_lop spec_lop]. rewrite (listIndex_spec h l ns i Hl Hi). cbn [mbind res_bind].
    destruct (at_index ns i) as [[x d]|] eqn:E; cbn [fmap option_fmap option_map fst].
    + destruct (at_split ns i x d ltac:(lia) E) as (Hk & Hns & Hd'). rewrite (proj2 (Z.leb_le _ _)), Hd' by lia.
      pose proof (value_at_spec h ns (x, d) Hc ltac:(rewrite Hns; set_solver)) as Ev. cbn [fst snd] in Ev. rewrite Ev. by eexists _, _, ns, _.
    + destruct (at_none ns i ltac:(lia) E) as [_ ->]. by eexists _, _, ns, _.
  - intros key. unfold simulated. cbn [run_lop spec_lop]. rewrite (listSearchKey_spec h l ns key Hl), find_values. cbn [mbind res_bind].
    destruct (List.find _ ns) as [c|] eqn:E; cbn [fmap option_fmap option_map fst]; [|by eexists _, _, ns, _].
    apply List.find_some in E as [Hin _]. apply list_elem_of_In in Hin. rewrite (value_at_spec h ns c Hc Hin). by eexists _, _, ns, _.
  - eexists _, _, ns, _. split; [done|]. split; [done|]. split; [done|]. cbn [spec_lop]. by rewrite zlen_fmap, (lrep_len _ _ _ Hl).
Qed.

Lemma empty_simulated h l ns : lwhole h l ns -> simulated LEmpty h l ns.
Proof.
  intros [Hl Hd]. unfold simulated. cbn [run_lop spec_lop]. destruct (listEmpty_spec h l ns Hl) as (h' & -> & Hl' & Hd' & _). cbn [mbind res_bind].
  eexists _, _, [], _. split; [done|]. split; [split; [done|rewrite Hd', Hd; cbn; set_solver]|]. by split.
Qed.

Lemma lop_simulates o h l ns : lwhole h l ns -> lop_ok o ns.*2 -> simulated o h l ns.
Proof.
  intros Hw [Hroom Hi]. rewrite zlen_fmap in Hroom. pose proof (zlen_nonneg ns). destruct (read_simulated h l ns Hw) as (H1 & H2 & H3). destruct o.
  - apply (add_simulated h l ns v true); [done|lia].
  - apply (add_simulated h l ns v false); [done|lia].
  - apply insert_simulated; [done|done|lia].
  - by apply del_simulated.
  - by apply del_if_simulated.
  - by apply H1.
  - by apply H2.
  - by apply (rotate_simulated h l ns true).
  - by apply (rotate_simulated h l ns false).
  - by apply dup_simulated.
  - done.
  - by apply empty_simulated.
Qed.

Lemma spec_lop_methods l l' o vs : same_methods l l' -> spec_lop l' o vs = spec_lop l o vs.
Proof. intros (Hd & Hf & Hm). unfold spec_lop, freed_all, matches, copied. by rewrite Hd, Hf, Hm. Qed.

Lemma same_methods_trans l l1 l2 : same_methods l l1 -> same_methods l1 l2 -> same_methods l l2.
Proof. intros (? & ? & ?) (? & ? & ?). split_and!; congruence. Qed.

Lemma lops_simulate (l0 : adlist V) os : forall h l ns, lwhole h l ns -> same_methods l0 l -> lops_ok l0 os ns.*2 ->
  exists h' l' ns' answers, run_lops os h l = Ok (h', l', answers) /\ lwhole h' l' ns' /\ same_methods l0 l' /\ spec_lops l0 os ns.*2 = (ns'.*2, answers).
Proof.
  induction os as [|o os IH]; intros h l ns Hw Hm Hok; [by exists h, l, ns, []|]. destruct Hok as [Ho Hok].
  destruct (lop_simulates o h l ns Hw Ho) as (h1 & l1 & ns1 & a & E & Hw1 & Hm1 & Es). rewrite (spec_lop_methods l0 l o _ Hm) in Es. rewrite Es in Hok.
  destruct (IH h1 l1 ns1 Hw1 (same_methods_trans _ _ _ Hm Hm1) Hok) as (h2 & l2 & ns2 & answers & E2 & Hw2 & Hm2 & Es2).
  exists h2, l2, ns2, (a :: answers). cbn [run_lops spec_lops]. rewrite E. cbn [mbind res_bind]. rewrite E2, Es. cbn [mbind res_bind]. rewrite Es2. done.
Qed.

(** ** From creation to release *)

Lemma lwhole_created (dupf : option (V -> option V)) f m : lwhole (∅ : heap) (set_methods listCreate dupf f m) [].
Proof. split; [|by rewrite dom_empty_L]. split; [|done..]. split; [apply NoDup_nil_2|done]. Qed.

Lemma lwhole_released h l ns : lwhole h l ns -> listRelease h l = Ok (∅, freed_all l ns.*2).
Proof.
  intros [Hl Hd]. unfold listRelease. destruct (listEmpty_spec h l ns Hl) as (h' & -> & _ & Hd' & _). cbn [mbind res_bind].
  rewrite Hd, difference_diag_L in Hd'. by apply dom_empty_inv_L in Hd' as ->.
Qed.

(** C12. A list created with any copy, free and comparison methods answers
    every sequence of operations (adding at either end, inserting beside a node,
    deleting a node, deleting from within a loop over an iterator in either
    direction, indexing from either end, searching, rotating, appending a
    duplicate, emptying) as the sequence of its values does, calling the free
    method on the removed values in order; releasing it afterwards leaves no
    node allocated and frees exactly the values it still held. *)
Theorem adlist_refines_list (dupf : option (V -> option V)) f m (os : list lop) : let l0 := set_methods listCreate dupf f m in lops_ok l0 os [] ->
  exists h l, run_lops os ∅ l0 = Ok (h, l, snd (spec_lops l0 os [])) /\
    len l = zlen (fst (spec_lops l0 os [])) /\ listRelease h l = Ok (∅, freed_all l0 (fst (spec_lops l0 os []))).
Proof.
  intros l0 Hok. destruct (lops_simulate l0 os ∅ l0 [] (lwhole_created dupf f m) ltac:(done) Hok) as (h & l & ns & answers & E & Hw & Hm & Es).
  change (@nil (loc * V)).*2 with (@nil V) in Es. rewrite Es. cbn [fst snd]. exists h, l. split; [done|]. split; [by rewrite (lrep_len _ _ _ (proj1 Hw)), zlen_fmap|].
  rewrite (lwhole_released h l ns Hw). unfold freed_all. by destruct Hm as (_ & -> & _).
Qed.

End spec.

(** Values are numbers, copied by adding one hundred, which fails for 7: the
    loop deletes the odd values from the tail, and the copy of the even ones is
    appended. *)
Definition sample_dup (v : Z) : option Z := if v =? 7 then None else Some (v + 100).

Definition sample_ops : list (@lop Z) :=
  [LAddTail 1; LAddTail 2; LAddHead 3; LInsert (-1) 4 true; LInsert 0 7 false; LDupJoin; LDelIf AL_START_TAIL Z.odd; LDupJoin; LRotateTailToHead; LIndex (-1);
   LSearch 102; LDel 1; LLength].

Lemma adlist_refines_list_witness : exists h l,
  run_lops sample_ops ∅ (set_methods listCreate (Some sample_dup) true None) =
    Ok (h, l, [LDone; LDone; LDone; LDone; LDone; LDone; LFreed [1; 3; 7]; LDone; LDone; LValue (Some 102); LValue (Some 102); LFreed [2]; LNumber 3]) /\ len l = 3 /\ listRelease h l = Ok (∅, [104; 4; 102]).
Proof.
  destruct (adlist_refines_list (Some sample_dup) true None sample_ops) as (h & l & E1 & E2 & E3); [cbn; unfold lop_ok; repeat split; (vm_compute; congruence)|].
  exists h, l. split; [exact E1|]. split; [exact E2|exact E3].
Defined.

End AdlistSpec.
