(* ===== verification/Quicklist.v ===== *)
(** * Quicklists (quicklist.c, quicklist.h)

    The encoding of large lists: a doubly linked list of nodes, each a listpack
    of several elements or a plain byte string, whose inner nodes may be
    compressed.  Nodes live on a heap of their own ([Dll]); the entry of a node
    is NULL, a buffer, or the structure [quicklistLZF].  Pointers to an element
    are offsets into the buffer of its node.  The debugging print-out
    [quicklistRepr] is not modelled. *)

From S2P Require Import Prelude Util ListpackEnc Listpack Lzf Dll.
From stdpp Require Import list gmap fin_maps.
#[local] Open Scope Z_scope.

Module Quicklist.
Import Dll.

(** What the build and the stack leave open: [packed_threshold] (0 outside of
    tests) and the contents of the compressor's uninitialised hash table. *)
Class Environment : Type := { packed_threshold : Z; htab : Lzf.hash_table }.

(** ** Data *)

Inductive qencoding : Type := QUICKLIST_NODE_ENCODING_RAW | QUICKLIST_NODE_ENCODING_LZF.
Inductive qcontainer : Type := QUICKLIST_NODE_CONTAINER_PLAIN | QUICKLIST_NODE_CONTAINER_PACKED.

#[export] Instance qencoding_eq : EqDecision qencoding.
Proof. solve_decision. Defined.
#[export] Instance qcontainer_eq : EqDecision qcontainer.
Proof. solve_decision. Defined.

(** What [node->entry] points to. *)
Inductive qentry : Type :=
  | NULL
  | Buffer (b : bytes)
  | QuicklistLZF (sz : Z) (compressed : bytes).

(** A [quicklistNode] without its links. *)
Record qnode : Type := {
  entry : qentry;
  sz : Z;
  count : Z;
  encoding : qencoding;
  container : qcontainer;
  recompress : bool;
  dont_compress : bool
}.

Record quicklist : Type := {
  head_ : option loc;
  tail_ : option loc;
  total : Z;
  len : Z;
  fill : Z;
  compress : Z;
  bookmarks : list (bytes * loc)
}.

Abbreviation heap := (dheap qnode).

Definition with_ends (ql : quicklist) (hd tl : option loc) : quicklist :=
  {| head_ := hd; tail_ := tl; total := total ql; len := len ql; fill := fill ql; compress := compress ql; bookmarks := bookmarks ql |}.
Definition with_total (ql : quicklist) (n : Z) : quicklist :=
  {| head_ := head_ ql; tail_ := tail_ ql; total := u64 n; len := len ql; fill := fill ql; compress := compress ql; bookmarks := bookmarks ql |}.
Definition with_len (ql : quicklist) (n : Z) : quicklist :=
  {| head_ := head_ ql; tail_ := tail_ ql; total := total ql; len := u64 n; fill := fill ql; compress := compress ql; bookmarks := bookmarks ql |}.
Definition with_fill (ql : quicklist) (n : Z) : quicklist :=
  {| head_ := head_ ql; tail_ := tail_ ql; total := total ql; len := len ql; fill := n; compress := compress ql; bookmarks := bookmarks ql |}.
Definition with_compress (ql : quicklist) (n : Z) : quicklist :=
  {| head_ := head_ ql; tail_ := tail_ ql; total := total ql; len := len ql; fill := fill ql; compress := n; bookmarks := bookmarks ql |}.
Definition with_bookmarks (ql : quicklist) (l : list (bytes * loc)) : quicklist :=
  {| head_ := head_ ql; tail_ := tail_ ql; total := total ql; len := len ql; fill := fill ql; compress := compress ql; bookmarks := l |}.

(** Assignments to the fields of a node; [count] is a bit field of 16 bits. *)
Definition set_entry (e : qentry) (d : qnode) : qnode :=
  {| entry := e; sz := sz d; count := count d; encoding := encoding d; container := container d; recompress := recompress d; dont_compress := dont_compress d |}.
Definition set_sz (n : Z) (d : qnode) : qnode :=
  {| entry := entry d; sz := n; count := count d; encoding := encoding d; container := container d; recompress := recompress d; dont_compress := dont_compress d |}.
Definition set_count (n : Z) (d : qnode) : qnode :=
  {| entry := entry d; sz := sz d; count := u16 n; encoding := encoding d; container := container d; recompress := recompress d; dont_compress := dont_compress d |}.
Definition set_encoding (e : qencoding) (d : qnode) : qnode :=
  {| entry := entry d; sz := sz d; count := count d; encoding := e; container := container d; recompress := recompress d; dont_compress := dont_compress d |}.
Definition set_container (c : qcontainer) (d : qnode) : qnode :=
  {| entry := entry d; sz := sz d; count := count d; encoding := encoding d; container := c; recompress := recompress d; dont_compress := dont_compress d |}.
Definition set_recompress (b : bool) (d : qnode) : qnode :=
  {| entry := entry d; sz := sz d; count := count d; encoding := encoding d; container := container d; recompress := b; dont_compress := dont_compress d |}.
Definition set_dont_compress (b : bool) (d : qnode) : qnode :=
  {| entry := entry d; sz := sz d; count := count d; encoding := encoding d; container := container d; recompress := recompress d; dont_compress := b |}.

Definition node (h : heap) (x : loc) : res qnode := n ← get h x; Ok (dat n).
Definition upd (h : heap) (x : loc) (f : qnode -> qnode) : res heap := modify (fun n => with_dat (f (dat n)) n) h x.

(** The bytes [node->entry] points to: reading anything else is undefined. *)
Definition as_bytes (d : qnode) : res bytes :=
  match entry d with Buffer b => Ok b | _ => Fault OutOfBounds end.

(** What a listpack function returned, NULL included. *)
Definition lp_entry (o : option bytes) : qentry := match o with Some b => Buffer b | None => NULL end.

Definition is_plain (d : qnode) : bool := bool_decide (container d = QUICKLIST_NODE_CONTAINER_PLAIN).
Definition is_lzf (d : qnode) : bool := bool_decide (encoding d = QUICKLIST_NODE_ENCODING_LZF).

(** ** Creation and options *)

Definition quicklistCreate : quicklist :=
  {| head_ := None; tail_ := None; total := 0; len := 0; fill := -2; compress := 0; bookmarks := [] |}.

Definition COMPRESS_MAX : Z := Z.shiftl 1 16 - 1.
Definition quicklistSetCompressDepth (ql : quicklist) (compress : Z) : quicklist :=
  with_compress ql (if COMPRESS_MAX <? compress then COMPRESS_MAX else if compress <? 0 then 0 else compress).

Definition FILL_MAX : Z := Z.shiftl 1 15 - 1.
Definition quicklistSetFill (ql : quicklist) (fill : Z) : quicklist :=
  with_fill ql (if FILL_MAX <? fill then FILL_MAX else if fill <? -5 then -5 else fill).

Definition quicklistSetOptions (ql : quicklist) (fill compress : Z) : quicklist :=
  quicklistSetCompressDepth (quicklistSetFill ql fill) compress.

Definition quicklistNew (fill compress : Z) : quicklist := quicklistSetOptions quicklistCreate fill compress.

Definition new_qnode : qnode :=
  {| entry := NULL; sz := 0; count := 0; encoding := QUICKLIST_NODE_ENCODING_RAW; container := QUICKLIST_NODE_CONTAINER_PACKED;
     recompress := false; dont_compress := false |}.

Definition quicklistCreateNode (h : heap) : heap * loc := alloc h {| prev := None; next := None; dat := new_qnode |}.

Definition quicklistCount (ql : quicklist) : Z := total ql.

(** ** Bookmarks *)

Definition QL_MAX_BM : Z := Z.shiftl 1 4 - 1.

Definition _quicklistBookmarkFindByName (ql : quicklist) (name : bytes) : option nat :=
  fst <$> list_find (fun bm => fst bm = name) (bookmarks ql).

Definition _quicklistBookmarkFindByNode (ql : quicklist) (x : loc) : option nat :=
  fst <$> list_find (fun bm => snd bm = x) (bookmarks ql).

Definition _quicklistBookmarkDelete (ql : quicklist) (bm : nat) : quicklist := with_bookmarks ql (delete bm (bookmarks ql)).

Definition quicklistBookmarkCreate (ql : quicklist) (name : bytes) (x : loc) : quicklist * bool :=
  if QL_MAX_BM <=? zlen (bookmarks ql) then (ql, false) else
  match _quicklistBookmarkFindByName ql name with
  | Some bm => (with_bookmarks ql (alter (fun b => (fst b, x)) bm (bookmarks ql)), true)
  | None => (with_bookmarks ql (bookmarks ql ++ [(name, x)]), true)
  end.

Definition quicklistBookmarkFind (ql : quicklist) (name : bytes) : option loc :=
  bm ← _quicklistBookmarkFindByName ql name; snd <$> bookmarks ql !! bm.

Definition quicklistBookmarkDelete (ql : quicklist) (name : bytes) : quicklist * bool :=
  match _quicklistBookmarkFindByName ql name with
  | None => (ql, false)
  | Some bm => (_quicklistBookmarkDelete ql bm, true)
  end.

Definition quicklistBookmarksClear (ql : quicklist) : quicklist := with_bookmarks ql [].

(** The update in [__quicklistDelNode]: the bookmark of a node moves to the
    [next] one, and is deleted when there is none. *)
Definition move_bookmark (ql : quicklist) (x : loc) (next : option loc) : quicklist :=
  match _quicklistBookmarkFindByNode ql x with
  | None => ql
  | Some bm =>
    match next with
    | Some y => with_bookmarks ql (alter (fun b => (fst b, y)) bm (bookmarks ql))
    | None => _quicklistBookmarkDelete ql bm
    end
  end.

(** ** Limits *)

Definition SIZE_SAFETY_LIMIT : Z := 8192.
Definition SIZE_ESTIMATE_OVERHEAD : Z := 8.
Definition MIN_COMPRESS_BYTES : Z := 48.
Definition MIN_COMPRESS_IMPROVE : Z := 8.
Definition SIZE_MAX : Z := UINT64_MAX.
Definition UINT_MAX : Z := UINT32_MAX.

Definition optimization_level : list Z := [4096; 8192; 16384; 32768; 65536].

Definition quicklistNodeNegFillLimit (fill : Z) : res Z :=
  _ ← cassert (fill <? 0);
  let offset := u64 ((- fill) - 1) in
  let max_level := zlen optimization_level in
  let offset := if max_level <=? offset then max_level - 1 else offset in
  rd optimization_level offset.

Definition quicklistNodeLimit (fill : Z) : res (Z * Z) :=
  if 0 <=? fill then Ok (SIZE_MAX, if fill =? 0 then 1 else fill)
  else size ← quicklistNodeNegFillLimit fill; Ok (size, UINT_MAX).

Definition sizeMeetsSafetyLimit (sz : Z) : bool := sz <=? SIZE_SAFETY_LIMIT.

Definition quicklistNodeExceedsLimit (fill new_sz new_count : Z) : res bool :=
  '(sz_limit, count_limit) ← quicklistNodeLimit fill;
  if negb (sz_limit =? SIZE_MAX) then Ok (sz_limit <? new_sz)
  else if negb (count_limit =? UINT_MAX) then
    if negb (sizeMeetsSafetyLimit new_sz) then Ok true else Ok (count_limit <? new_count)
  else Fault AssertFailed.

Section quicklist.
Context `{Allocator} `{Environment}.

Definition isLargeElement (sz fill : Z) : res bool :=
  if negb (packed_threshold =? 0) then Ok (packed_threshold <=? sz)
  else if 0 <=? fill then Ok (negb (sizeMeetsSafetyLimit sz))
  else limit ← quicklistNodeNegFillLimit fill; Ok (limit <? sz).

Definition _quicklistNodeAllowInsert (h : heap) (x : option loc) (fill size : Z) : res bool :=
  match x with
  | None => Ok false
  | Some x =>
    d ← node h x;
    large ← isLargeElement size fill;
    if is_plain d || large then Ok false else
    let new_sz := u64 (sz d + size + SIZE_ESTIMATE_OVERHEAD) in
    exceeds ← quicklistNodeExceedsLimit fill new_sz (count d + 1);
    Ok (negb exceeds)
  end.

Definition _quicklistNodeAllowMerge (h : heap) (a b : option loc) (fill : Z) : res bool :=
  match a, b with
  | Some a, Some b =>
    da ← node h a;
    db ← node h b;
    if is_plain da || is_plain db then Ok false else
    let merge_sz := u32 (u64 (sz da + sz db - 7)) in
    exceeds ← quicklistNodeExceedsLimit fill merge_sz (count da + count db);
    Ok (negb exceeds)
  | _, _ => Ok false
  end.

(** ** Compression *)

Definition __quicklistCompressNode (h : heap) (x : loc) : res (heap * bool) :=
  n ← get h x;
  let d := dat n in
  if dont_compress d then Ok (h, false) else
  _ ← cassert (bool_decide (is_Some (prev n)) && bool_decide (is_Some (next n)));
  h ← upd h x (set_recompress false);
  if sz d <? MIN_COMPRESS_BYTES then Ok (h, false) else
  b ← as_bytes d;
  inp ← rdn b 0 (sz d);
  '(n, out) ← Lzf.lzf_compress inp (sz d) htab (uninit (sz d));
  if (n =? 0) || (sz d <=? u64 (n + MIN_COMPRESS_IMPROVE)) then Ok (h, false) else
  h ← upd h x (set_entry (QuicklistLZF n (take (Z.to_nat n) out)));
  h ← upd h x (set_encoding QUICKLIST_NODE_ENCODING_LZF);
  Ok (h, true).

Definition quicklistCompressNode (h : heap) (x : option loc) : res heap :=
  match x with
  | None => Ok h
  | Some x => d ← node h x; if is_lzf d then Ok h else '(h, _) ← __quicklistCompressNode h x; Ok h
  end.

Definition __quicklistDecompressNode (h : heap) (x : loc) : res (heap * bool) :=
  h ← upd h x (set_recompress false);
  d ← node h x;
  match entry d with
  | QuicklistLZF n compressed =>
    '(r, decompressed) ← Lzf.lzf_decompress compressed n (sz d) (uninit (sz d));
    if r =? 0 then Ok (h, false) else
    h ← upd h x (set_entry (Buffer decompressed));
    h ← upd h x (set_encoding QUICKLIST_NODE_ENCODING_RAW);
    Ok (h, true)
  | _ => Fault OutOfBounds
  end.

Definition quicklistDecompressNode (h : heap) (x : option loc) : res heap :=
  match x with
  | None => Ok h
  | Some x => d ← node h x; if is_lzf d then '(h, _) ← __quicklistDecompressNode h x; Ok h else Ok h
  end.

Definition quicklistDecompressNodeForUse (h : heap) (x : loc) : res heap :=
  d ← node h x;
  if is_lzf d then '(h, _) ← __quicklistDecompressNode h x; upd h x (set_recompress true) else Ok h.

Definition quicklistGetLzf (d : qnode) : res (bytes * Z) :=
  match entry d with QuicklistLZF n compressed => Ok (compressed, n) | _ => Fault OutOfBounds end.

(** The loop over [depth]: [None] when it returned, otherwise [in_depth] and the
    nodes one beyond the depth. *)
Fixpoint compress_loop (depth : nat) (h : heap) (x : option loc) (forward reverse : option loc) (in_depth : bool)
  : res (heap * option (bool * option loc * option loc)) :=
  match depth with
  | O => Ok (h, Some (in_depth, forward, reverse))
  | S depth =>
    h ← quicklistDecompressNode h forward;
    h ← quicklistDecompressNode h reverse;
    let in_depth := in_depth || bool_decide (forward = x) || bool_decide (reverse = x) in
    f ← the forward;
    nf ← get h f;
    if bool_decide (forward = reverse) || bool_decide (next nf = reverse) then Ok (h, None) else
    r ← the reverse;
    nr ← get h r;
    compress_loop depth h x (next nf) (prev nr) in_depth
  end.

Definition __quicklistCompress (h : heap) (ql : quicklist) (x : option loc) : res heap :=
  if len ql =? 0 then Ok h else
  hd ← the (head_ ql);
  dh ← node h hd;
  tl ← the (tail_ ql);
  dt ← node h tl;
  _ ← cassert (negb (recompress dh) && negb (recompress dt));
  if (compress ql =? 0) || (len ql <? compress ql * 2) then Ok h else
  '(h, r) ← compress_loop (Z.to_nat (compress ql)) h x (head_ ql) (tail_ ql) false;
  match r with
  | None => Ok h
  | Some (in_depth, forward, reverse) =>
    h ← (if negb in_depth then quicklistCompressNode h x else Ok h);
    h ← quicklistCompressNode h forward;
    quicklistCompressNode h reverse
  end.

Definition quicklistCompress (h : heap) (ql : quicklist) (x : loc) : res heap :=
  d ← node h x;
  if recompress d then quicklistCompressNode h (Some x) else __quicklistCompress h ql (Some x).

Definition quicklistRecompressOnly (h : heap) (x : loc) : res heap :=
  d ← node h x;
  if recompress d then quicklistCompressNode h (Some x) else Ok h.

(** ** Linking nodes *)

Definition __quicklistInsertNode (h : heap) (ql : quicklist) (old_node : option loc) (new_node : loc) (after : bool) : res (heap * quicklist) :=
  '(h, ql) ←
    (if after then
       h ← set_prev h new_node old_node;
       h ← match old_node with
           | None => Ok h
           | Some o =>
             no ← get h o;
             h ← set_next h new_node (next no);
             h ← set_prev_of h (next no) (Some new_node);
             set_next h o (Some new_node)
           end;
       Ok (h, if bool_decide (tail_ ql = old_node) then with_ends ql (head_ ql) (Some new_node) else ql)
     else
       h ← set_next h new_node old_node;
       h ← match old_node with
           | None => Ok h
           | Some o =>
             no ← get h o;
             h ← set_prev h new_node (prev no);
             h ← set_next_of h (prev no) (Some new_node);
             set_prev h o (Some new_node)
           end;
       Ok (h, if bool_decide (head_ ql = old_node) then with_ends ql (Some new_node) (tail_ ql) else ql));
  let ql := if len ql =? 0 then with_ends ql (Some new_node) (Some new_node) else ql in
  let ql := with_len ql (len ql + 1) in
  h ← match old_node with None => Ok h | Some o => quicklistCompress h ql o end;
  h ← quicklistCompress h ql new_node;
  Ok (h, ql).

Definition _quicklistInsertNodeBefore (h : heap) (ql : quicklist) (old_node : option loc) (new_node : loc) := __quicklistInsertNode h ql old_node new_node false.
Definition _quicklistInsertNodeAfter (h : heap) (ql : quicklist) (old_node : option loc) (new_node : loc) := __quicklistInsertNode h ql old_node new_node true.

Definition __quicklistDelNode (h : heap) (ql : quicklist) (x : loc) : res (heap * quicklist) :=
  n ← get h x;
  let ql := move_bookmark ql x (next n) in
  h ← set_prev_of h (next n) (prev n);
  h ← set_next_of h (prev n) (next n);
  let ql := if bool_decide (Some x = tail_ ql) then with_ends ql (head_ ql) (prev n) else ql in
  let ql := if bool_decide (Some x = head_ ql) then with_ends ql (next n) (tail_ ql) else ql in
  let ql := with_len ql (len ql - 1) in
  let ql := with_total ql (total ql - count (dat n)) in
  h ← __quicklistCompress h ql None;
  h ← release h x;
  Ok (h, ql).

(** ** Contents of nodes *)

Definition quicklistNodeUpdateSz (h : heap) (x : loc) : res heap :=
  d ← node h x;
  b ← as_bytes d;
  n ← Listpack.lpBytes b;
  upd h x (set_sz n).

Definition set_entry_of (h : heap) (x : loc) (e : qentry) : res heap := upd h x (set_entry e).

(** [node->count += k] *)
Definition add_count (h : heap) (x : loc) (k : Z) : res heap := d ← node h x; upd h x (set_count (count d + k)).

(** [lpPrepend(lpNew(0), value, sz)] *)
Definition lp_singleton (value : bytes) : res qentry :=
  lp ← Listpack.lpNew 0;
  o ← Listpack.lpPrepend lp value (zlen value);
  Ok (lp_entry o).

Definition __quicklistCreateNode (h : heap) (c : qcontainer) (value : bytes) : res (heap * loc) :=
  let '(h, x) := quicklistCreateNode h in
  h ← upd h x (set_container c);
  e ← match c with
      | QUICKLIST_NODE_CONTAINER_PLAIN => b ← wrn (zmalloc (zlen value)) 0 value; Ok (Buffer b)
      | QUICKLIST_NODE_CONTAINER_PACKED => lp_singleton value
      end;
  h ← set_entry_of h x e;
  h ← upd h x (set_sz (zlen value));
  h ← add_count h x 1;
  Ok (h, x).

Definition __quicklistInsertPlainNode (h : heap) (ql : quicklist) (old_node : option loc) (value : bytes) (after : bool) : res (heap * quicklist) :=
  '(h, x) ← __quicklistCreateNode h QUICKLIST_NODE_CONTAINER_PLAIN value;
  '(h, ql) ← __quicklistInsertNode h ql old_node x after;
  Ok (h, with_total ql (total ql + 1)).

(** ** Adding at the ends *)

(** [node->entry = lpPrepend(node->entry, value, sz)], and [lpAppend] *)
Definition prepend_to (h : heap) (x : loc) (value : bytes) : res heap :=
  d ← node h x; b ← as_bytes d; o ← Listpack.lpPrepend b value (zlen value); set_entry_of h x (lp_entry o).
Definition append_to (h : heap) (x : loc) (value : bytes) : res heap :=
  d ← node h x; b ← as_bytes d; o ← Listpack.lpAppend b value (zlen value); set_entry_of h x (lp_entry o).

Definition quicklistPushHead (h : heap) (ql : quicklist) (value : bytes) : res (heap * quicklist * bool) :=
  let orig_head := head_ ql in
  large ← isLargeElement (zlen value) (fill ql);
  if large : bool then
    '(h, ql) ← __quicklistInsertPlainNode h ql (head_ ql) value false;
    Ok (h, ql, true)
  else
    allow ← _quicklistNodeAllowInsert h (head_ ql) (fill ql) (zlen value);
    '(h, ql) ←
      (if allow : bool then
         x ← the (head_ ql);
         h ← prepend_to h x value;
         h ← quicklistNodeUpdateSz h x;
         Ok (h, ql)
       else
         let '(h, x) := quicklistCreateNode h in
         e ← lp_singleton value;
         h ← set_entry_of h x e;
         h ← quicklistNodeUpdateSz h x;
         _quicklistInsertNodeBefore h ql (head_ ql) x);
    let ql := with_total ql (total ql + 1) in
    x ← the (head_ ql);
    h ← add_count h x 1;
    Ok (h, ql, negb (bool_decide (orig_head = head_ ql))).

Definition quicklistPushTail (h : heap) (ql : quicklist) (value : bytes) : res (heap * quicklist * bool) :=
  let orig_tail := tail_ ql in
  large ← isLargeElement (zlen value) (fill ql);
  if large : bool then
    '(h, ql) ← __quicklistInsertPlainNode h ql (tail_ ql) value true;
    Ok (h, ql, true)
  else
    allow ← _quicklistNodeAllowInsert h (tail_ ql) (fill ql) (zlen value);
    '(h, ql) ←
      (if allow : bool then
         x ← the (tail_ ql);
         h ← append_to h x value;
         h ← quicklistNodeUpdateSz h x;
         Ok (h, ql)
       else
         let '(h, x) := quicklistCreateNode h in
         lp ← Listpack.lpNew 0;
         o ← Listpack.lpAppend lp value (zlen value);
         h ← set_entry_of h x (lp_entry o);
         h ← quicklistNodeUpdateSz h x;
         _quicklistInsertNodeAfter h ql (tail_ ql) x);
    let ql := with_total ql (total ql + 1) in
    x ← the (tail_ ql);
    h ← add_count h x 1;
    Ok (h, ql, negb (bool_decide (orig_tail = tail_ ql))).

Inductive qend : Type := QUICKLIST_HEAD | QUICKLIST_TAIL.

(** [if (node) assert(node->encoding != QUICKLIST_NODE_ENCODING_LZF)] *)
Definition assert_raw (h : heap) (x : option loc) : res unit :=
  match x with None => Ok tt | Some x => d ← node h x; cassert (negb (is_lzf d)) end.

Definition quicklistPush (h : heap) (ql : quicklist) (value : bytes) (where_ : qend) : res (heap * quicklist) :=
  _ ← assert_raw h (head_ ql);
  _ ← assert_raw h (tail_ ql);
  '(h, ql, _) ← match where_ with QUICKLIST_HEAD => quicklistPushHead h ql value | QUICKLIST_TAIL => quicklistPushTail h ql value end;
  Ok (h, ql).

Definition quicklistAppendListpack (h : heap) (ql : quicklist) (zl : bytes) : res (heap * quicklist) :=
  let '(h, x) := quicklistCreateNode h in
  '(zl, n) ← Listpack.lpLength zl;
  h ← set_entry_of h x (Buffer zl);
  h ← upd h x (set_count n);
  b ← Listpack.lpBytes zl;
  h ← upd h x (set_sz b);
  '(h, ql) ← _quicklistInsertNodeAfter h ql (tail_ ql) x;
  d ← node h x;
  Ok (h, with_total ql (total ql + count d)).

Definition quicklistAppendPlainNode (h : heap) (ql : quicklist) (data : bytes) (size : Z) : res (heap * quicklist) :=
  let '(h, x) := quicklistCreateNode h in
  h ← set_entry_of h x (Buffer data);
  h ← upd h x (set_count 1);
  h ← upd h x (set_sz size);
  h ← upd h x (set_container QUICKLIST_NODE_CONTAINER_PLAIN);
  '(h, ql) ← _quicklistInsertNodeAfter h ql (tail_ ql) x;
  d ← node h x;
  Ok (h, with_total ql (total ql + count d)).

(** ** Deleting an element *)

(** [p] is the offset of the element, unused for a plain node; the result is
    whether the node is gone, and the offset of the next element. *)
Definition quicklistDelIndex (h : heap) (ql : quicklist) (x : loc) (p : Z) : res (heap * quicklist * bool * option Z) :=
  d ← node h x;
  if is_plain d then '(h, ql) ← __quicklistDelNode h ql x; Ok (h, ql, true, Some p) else
  b ← as_bytes d;
  r ← Listpack.lpDelete b p true;
  h ← set_entry_of h x (lp_entry (option_map fst r));
  h ← add_count h x (-1);
  d ← node h x;
  '(h, ql, gone) ←
    (if count d =? 0 then '(h, ql) ← __quicklistDelNode h ql x; Ok (h, ql, true)
     else h ← quicklistNodeUpdateSz h x; Ok (h, ql, false));
  Ok (h, with_total ql (total ql - 1), gone, r ≫= snd).

(** ** Merging and splitting *)

(** The node that is kept gets the listpack [lp], the other one is emptied. *)
Definition merge_steps (h : heap) (keep nokeep : loc) (lp : bytes) : res heap :=
  '(lp, n) ← Listpack.lpLength lp;
  h ← set_entry_of h keep (Buffer lp);
  h ← upd h keep (set_count n);
  h ← quicklistNodeUpdateSz h keep;
  h ← upd h keep (set_recompress false);
  upd h nokeep (set_count 0).

Definition _quicklistListpackMerge (h : heap) (ql : quicklist) (a b : loc) : res (heap * quicklist * option loc) :=
  h ← quicklistDecompressNode h (Some a);
  h ← quicklistDecompressNode h (Some b);
  da ← node h a;
  db ← node h b;
  ba ← as_bytes da;
  bb ← as_bytes db;
  r ← Listpack.lpMerge (Some ba) (Some bb) false;
  match r with
  | None => Ok (h, ql, None)
  | Some (lp, first) =>
    h ← set_entry_of h a (if first then Buffer lp else NULL);
    h ← set_entry_of h b (if first then NULL else Buffer lp);
    let '(keep, nokeep) := if first : bool then (a, b) else (b, a) in
    h ← merge_steps h keep nokeep lp;
    '(h, ql) ← __quicklistDelNode h ql nokeep;
    h ← quicklistCompress h ql keep;
    Ok (h, ql, Some keep)
  end.

(** Merging [a] and [b] when this is allowed: whether it was, and the result. *)
Definition try_merge (h : heap) (ql : quicklist) (a b : option loc) : res (heap * quicklist * bool * option loc) :=
  allow ← _quicklistNodeAllowMerge h a b (fill ql);
  if allow : bool then
    a ← the a; b ← the b;
    '(h, ql, r) ← _quicklistListpackMerge h ql a b; Ok (h, ql, true, r)
  else Ok (h, ql, false, None).

(** [x->prev] and [x->next], where [x] may be NULL. *)
Definition prev_of (h : heap) (x : option loc) : res (option loc) := match x with None => Ok None | Some x => n ← get h x; Ok (prev n) end.
Definition next_of (h : heap) (x : option loc) : res (option loc) := match x with None => Ok None | Some x => n ← get h x; Ok (next n) end.

Definition _quicklistMergeNodes (h : heap) (ql : quicklist) (center : loc) : res (heap * quicklist * option loc) :=
  n ← get h center;
  prev_prev ← prev_of h (prev n);
  next_next ← next_of h (next n);
  '(h, ql, _, _) ← try_merge h ql prev_prev (prev n);
  '(h, ql, _, _) ← try_merge h ql (next n) next_next;
  n ← get h center;
  '(h, ql, merged, r) ← try_merge h ql (prev n) (Some center);
  let target := if merged : bool then r else Some center in
  t ← the target;
  n ← get h t;
  '(h, ql, merged, r) ← try_merge h ql target (next n);
  Ok (h, ql, if merged : bool then r else target).

Definition _quicklistSplitNode (h : heap) (x : loc) (offset : Z) (after : bool) : res (heap * loc) :=
  d ← node h x;
  let zl_sz := sz d in
  let '(h, y) := quicklistCreateNode h in
  b ← as_bytes d;
  src ← rdn b 0 zl_sz;
  nb ← wrn (zmalloc zl_sz) 0 src;
  let offset := if offset <? 0 then count d + offset else offset in
  let orig_start := if after then offset + 1 else 0 in
  let orig_extent := if after then -1 else offset in
  let new_start := if after then 0 else offset in
  let new_extent := if after then offset + 1 else -1 in
  b ← Listpack.lpDeleteRange b orig_start (u64 orig_extent);
  '(b, n) ← Listpack.lpLength b;
  h ← set_entry_of h x (Buffer b);
  h ← upd h x (set_count n);
  h ← quicklistNodeUpdateSz h x;
  nb ← Listpack.lpDeleteRange nb new_start (u64 new_extent);
  '(nb, n) ← Listpack.lpLength nb;
  h ← set_entry_of h y (Buffer nb);
  h ← upd h y (set_count n);
  h ← quicklistNodeUpdateSz h y;
  Ok (h, y).

(** ** Iterators *)

Inductive qdirection : Type := AL_START_HEAD | AL_START_TAIL.

(** An element pointer that is followed without a test. *)
Definition the_zi (p : option Z) : res Z := match p with Some p => Ok p | None => Fault OutOfBounds end.

Record quicklistIter : Type := { current : option loc; zi : option Z; offset : Z; direction : qdirection }.

(** [node], [zi], [value], [longval], [sz] and [offset] of a [quicklistEntry];
    [value] is an offset into the bytes of the node. *)
Record quicklistEntry : Type := {
  e_node : option loc;
  e_zi : option Z;
  e_value : option Z;
  e_longval : Z;
  e_sz : Z;
  e_offset : Z
}.

Definition initEntry : quicklistEntry :=
  {| e_node := None; e_zi := None; e_value := None; e_longval := -123456789; e_sz := 0; e_offset := 123456789 |}.

Definition resetIterator (iter : quicklistIter) : quicklistIter :=
  {| current := None; zi := None; offset := offset iter; direction := direction iter |}.

Definition quicklistGetIterator (ql : quicklist) (direction : qdirection) : quicklistIter :=
  {| current := match direction with AL_START_HEAD => head_ ql | AL_START_TAIL => tail_ ql end;
     zi := None;
     offset := match direction with AL_START_HEAD => 0 | AL_START_TAIL => -1 end;
     direction := direction |}.

Definition quicklistSetDirection (iter : quicklistIter) (direction : qdirection) : quicklistIter :=
  {| current := current iter; zi := zi iter; offset := offset iter; direction := direction |}.

(** The loop that skips the nodes before [seek_index]. *)
Fixpoint seek_loop (fuel : nat) (h : heap) (seek_forward : bool) (n : option loc) (accum seek_index : Z) : res (option loc * Z) :=
  match n with
  | None => Ok (None, accum)
  | Some x =>
    match fuel with
    | O => Fault OutOfFuel
    | S fuel =>
      nd ← get h x;
      if seek_index <? u64 (accum + count (dat nd)) then Ok (n, accum) else
      seek_loop fuel h seek_forward (if seek_forward then next nd else prev nd) (u64 (accum + count (dat nd))) seek_index
    end
  end.

Definition quicklistGetIteratorAtIdx (h : heap) (ql : quicklist) (direction : qdirection) (idx : Z) : res (option quicklistIter) :=
  let forward := negb (idx <? 0) in
  let index := u64 (if forward then idx else i64 (i64 (- idx) - 1)) in
  if total ql <=? index then Ok None else
  let shorter := u64 (total ql - 1) / 2 <? index in
  let seek_forward := if shorter then negb forward else forward in
  let seek_index := if shorter then u64 (total ql - 1 - index) else index in
  '(n, accum) ← seek_loop (S (size h)) h seek_forward (if seek_forward then head_ ql else tail_ ql) 0 seek_index;
  match n with
  | None => Ok None
  | Some x =>
    d ← node h x;
    let accum := if Bool.eqb seek_forward forward then accum else u64 (total ql - count d - accum) in
    let iter := quicklistGetIterator ql direction in
    Ok (Some {| current := n; zi := zi iter;
                offset := i64 (if forward then u64 (index - accum) else u64 (u64 (u64 (- index) - 1) + accum));
                direction := direction |})
  end.

Definition quicklistReleaseIterator (h : heap) (ql : quicklist) (iter : option quicklistIter) : res heap :=
  match iter with
  | None => Ok h
  | Some iter => match current iter with None => Ok h | Some x => quicklistCompress h ql x end
  end.

(** The value at the current position [p] of the node. *)
Definition current_entry (h : heap) (x : loc) (plain : bool) (p offset : Z) : res quicklistEntry :=
  d ← node h x;
  if plain then Ok {| e_node := Some x; e_zi := Some p; e_value := Some 0; e_longval := -123456789; e_sz := sz d; e_offset := i32 offset |}
  else
    b ← as_bytes d;
    v ← LP.lpGetValue b p;
    Ok match v with
       | inl (q, size) => {| e_node := Some x; e_zi := Some p; e_value := Some q; e_longval := -123456789; e_sz := size; e_offset := i32 offset |}
       | inr longval => {| e_node := Some x; e_zi := Some p; e_value := None; e_longval := longval; e_sz := 0; e_offset := i32 offset |}
       end.

(** One call of [quicklistNext] up to its recursive call: [inl] with the iterator
    for that call, [inr] with what it returned. *)
Definition next_step (h : heap) (ql : quicklist) (iter : quicklistIter)
  : res (heap * (quicklistIter + (quicklistIter * quicklistEntry * bool))) :=
  match current iter with
  | None => Ok (h, inr (iter, initEntry, false))
  | Some x =>
    d ← node h x;
    let plain := is_plain d in
    '(h, zi', offset') ←
      match zi iter with
      | None =>
        h ← quicklistDecompressNodeForUse h x;
        if plain then Ok (h, Some 0, offset iter) else
        d ← node h x;
        b ← as_bytes d;
        p ← Listpack.lpSeek b (offset iter);
        Ok (h, p, offset iter)
      | Some p =>
        if plain then Ok (h, None, offset iter) else
        b ← as_bytes d;
        match direction iter with
        | AL_START_HEAD => p ← Listpack.lpNext b p; Ok (h, p, i64 (offset iter + 1))
        | AL_START_TAIL => p ← Listpack.lpPrev b p; Ok (h, p, i64 (offset iter - 1))
        end
      end;
    match zi' with
    | Some p =>
      let iter := {| current := Some x; zi := zi'; offset := offset'; direction := direction iter |} in
      entry ← current_entry h x plain p offset';
      Ok (h, inr (iter, entry, true))
    | None =>
      h ← quicklistCompress h ql x;
      n ← get h x;
      Ok (h, inl (match direction iter with
        | AL_START_HEAD => {| current := next n; zi := None; offset := 0; direction := direction iter |}
        | AL_START_TAIL => {| current := prev n; zi := None; offset := -1; direction := direction iter |}
        end))
    end
  end.

Fixpoint next_loop (fuel : nat) (h : heap) (ql : quicklist) (iter : quicklistIter) : res (heap * quicklistIter * quicklistEntry * bool) :=
  match fuel with
  | O => Fault OutOfFuel
  | S fuel =>
    '(h, r) ← next_step h ql iter;
    match r with
    | inl iter => next_loop fuel h ql iter
    | inr (iter, entry, found) => Ok (h, iter, entry, found)
    end
  end.

(** [quicklistNext] for an iterator that is not NULL (it returns 0 for NULL).
    Every recursive call is at another node. *)
Definition quicklistNext (h : heap) (ql : quicklist) (iter : quicklistIter) : res (heap * quicklistIter * quicklistEntry * bool) :=
  next_loop (S (S (size h))) h ql iter.

Definition quicklistGetIteratorEntryAtIdx (h : heap) (ql : quicklist) (idx : Z) : res (heap * option (quicklistIter * quicklistEntry)) :=
  iter ← quicklistGetIteratorAtIdx h ql AL_START_TAIL idx;
  match iter with
  | None => Ok (h, None)
  | Some iter =>
    '(h, iter, entry, found) ← quicklistNext h ql iter;
    _ ← cassert found;
    Ok (h, Some (iter, entry))
  end.

Definition quicklistDelEntry (h : heap) (ql : quicklist) (iter : quicklistIter) (entry : quicklistEntry) : res (heap * quicklist * quicklistIter) :=
  x ← the (e_node entry);
  n ← get h x;
  '(h, ql, deleted_node, _) ← quicklistDelIndex h ql x (default 0 (e_zi entry));
  let iter :=
    if deleted_node : bool then
      match direction iter with
      | AL_START_HEAD => {| current := next n; zi := None; offset := 0; direction := direction iter |}
      | AL_START_TAIL => {| current := prev n; zi := None; offset := -1; direction := direction iter |}
      end
    else {| current := current iter; zi := None; offset := offset iter; direction := direction iter |} in
  Ok (h, ql, iter).

Definition quicklistCompare (h : heap) (entry : quicklistEntry) (p2 : bytes) : res bool :=
  x ← the (e_node entry);
  d ← node h x;
  b ← as_bytes d;
  if is_plain d then
    if e_sz entry =? zlen p2 then
      p ← the_zi (e_value entry); v ← rdn b p (zlen p2); Ok (bool_decide (v = p2))
    else Ok false
  else p ← the_zi (e_zi entry); LP.lpCompare b p p2 (zlen p2).

(** ** Inserting beside an element *)

(** The insertion into a node with room, at [p]. *)
Definition insert_here (h : heap) (x : loc) (value : bytes) (p : Z) (where_ : Listpack.lpwhere) : res heap :=
  h ← quicklistDecompressNodeForUse h x;
  d ← node h x;
  b ← as_bytes d;
  r ← Listpack.lpInsertString b value (zlen value) p where_ false;
  h ← set_entry_of h x (lp_entry (option_map fst r));
  h ← add_count h x 1;
  h ← quicklistNodeUpdateSz h x;
  quicklistRecompressOnly h x.

(** The insertion into the neighbour [y] of the full node [x]. *)
Definition insert_beside (h : heap) (x y : loc) (value : bytes) (at_head : bool) : res heap :=
  h ← quicklistDecompressNodeForUse h y;
  h ← (if at_head then prepend_to h y value else append_to h y value);
  h ← add_count h y 1;
  h ← quicklistNodeUpdateSz h y;
  h ← quicklistRecompressOnly h y;
  quicklistRecompressOnly h x.

(** A new node with the value beside [x]. *)
Definition insert_new (h : heap) (ql : quicklist) (x : loc) (value : bytes) (after : bool) : res (heap * quicklist) :=
  let '(h, y) := quicklistCreateNode h in
  e ← lp_singleton value;
  h ← set_entry_of h y e;
  h ← add_count h y 1;
  h ← quicklistNodeUpdateSz h y;
  __quicklistInsertNode h ql (Some x) y after.

(** Splitting the full node [x]; the value goes to the new half. *)
Definition insert_split (h : heap) (ql : quicklist) (x : loc) (value : bytes) (offset : Z) (after : bool) : res (heap * quicklist) :=
  h ← quicklistDecompressNodeForUse h x;
  '(h, y) ← _quicklistSplitNode h x offset after;
  h ← (if after then prepend_to h y value else append_to h y value);
  h ← add_count h y 1;
  h ← quicklistNodeUpdateSz h y;
  '(h, ql) ← __quicklistInsertNode h ql (Some x) y after;
  '(h, ql, _) ← _quicklistMergeNodes h ql x;
  Ok (h, ql).

(** A large value beside or within the node [x]. *)
Definition insert_large (h : heap) (ql : quicklist) (x : loc) (value : bytes) (offset : Z) (after at_end : bool) : res (heap * quicklist) :=
  d ← node h x;
  if is_plain d || at_end then __quicklistInsertPlainNode h ql (Some x) value after else
  h ← quicklistDecompressNodeForUse h x;
  '(h, y) ← _quicklistSplitNode h x offset after;
  '(h, z) ← __quicklistCreateNode h QUICKLIST_NODE_CONTAINER_PLAIN value;
  '(h, ql) ← __quicklistInsertNode h ql (Some x) z after;
  '(h, ql) ← __quicklistInsertNode h ql (Some z) y after;
  Ok (h, with_total ql (total ql + 1)).

(** With no reference node. *)
Definition insert_first (h : heap) (ql : quicklist) (value : bytes) (after : bool) : res (heap * quicklist) :=
  large ← isLargeElement (zlen value) (fill ql);
  if large : bool then __quicklistInsertPlainNode h ql (tail_ ql) value after else
  let '(h, y) := quicklistCreateNode h in
  e ← lp_singleton value;
  h ← set_entry_of h y e;
  '(h, ql) ← __quicklistInsertNode h ql None y after;
  h ← add_count h y 1;
  Ok (h, with_total ql (total ql + 1)).

Definition _quicklistInsert (h : heap) (ql : quicklist) (iter : quicklistIter) (entry : quicklistEntry) (value : bytes) (after : bool)
  : res (heap * quicklist * quicklistIter) :=
  match e_node entry with
  | None => '(h, ql) ← insert_first h ql value after; Ok (h, ql, iter)
  | Some x =>
    n ← get h x;
    let d := dat n in
    allow ← _quicklistNodeAllowInsert h (Some x) (fill ql) (zlen value);
    let full := negb allow in
    let at_tail := after && ((e_offset entry =? count d - 1) || (e_offset entry =? -1)) in
    avail_next ← (if at_tail then _quicklistNodeAllowInsert h (next n) (fill ql) (zlen value) else Ok false);
    let at_head := negb after && ((e_offset entry =? 0) || (e_offset entry =? - count d)) in
    avail_prev ← (if at_head then _quicklistNodeAllowInsert h (prev n) (fill ql) (zlen value) else Ok false);
    large ← isLargeElement (zlen value) (fill ql);
    if large : bool then
      '(h, ql) ← insert_large h ql x value (e_offset entry) after (at_tail || at_head);
      Ok (h, ql, iter)
    else
      '(h, ql) ←
        (if negb full then
           p ← the_zi (e_zi entry);
           h ← insert_here h x value p (if after then Listpack.LP_AFTER else Listpack.LP_BEFORE); Ok (h, ql)
         else if at_tail && avail_next then y ← the (next n); h ← insert_beside h x y value true; Ok (h, ql)
         else if at_head && avail_prev then y ← the (prev n); h ← insert_beside h x y value false; Ok (h, ql)
         else if at_tail || at_head then insert_new h ql x value after
         else insert_split h ql x value (e_offset entry) after);
      Ok (h, with_total ql (total ql + 1), resetIterator iter)
  end.

Definition quicklistInsertBefore (h : heap) (ql : quicklist) (iter : quicklistIter) (entry : quicklistEntry) (value : bytes) := _quicklistInsert h ql iter entry value false.
Definition quicklistInsertAfter (h : heap) (ql : quicklist) (iter : quicklistIter) (entry : quicklistEntry) (value : bytes) := _quicklistInsert h ql iter entry value true.

(** ** Replacing an element *)

(** A large value in place of an element of the packed node [x]: the value in a
    node of its own after [x], the elements after the replaced one in another. *)
Definition replace_split (h : heap) (ql : quicklist) (x : loc) (value : bytes) (offset : Z) : res (heap * quicklist) :=
  h ← upd h x (set_dont_compress true);
  d ← node h x;
  '(h, split_node) ←
    (if negb (offset =? count d - 1) && negb (offset =? -1)
     then '(h, y) ← _quicklistSplitNode h x offset true; Ok (h, Some y) else Ok (h, None));
  large ← isLargeElement (zlen value) (fill ql);
  '(h, z) ← __quicklistCreateNode h (if large : bool then QUICKLIST_NODE_CONTAINER_PLAIN else QUICKLIST_NODE_CONTAINER_PACKED) value;
  '(h, ql) ← __quicklistInsertNode h ql (Some x) z true;
  '(h, ql) ← match split_node with Some y => __quicklistInsertNode h ql (Some z) y true | None => Ok (h, ql) end;
  let ql := with_total ql (total ql + 1) in
  d ← node h x;
  if count d =? 1 then __quicklistDelNode h ql x else
  b ← as_bytes d;
  p ← Listpack.lpSeek b (-1);
  p ← the_zi p;
  '(h, ql, _, _) ← quicklistDelIndex h ql x p;
  h ← upd h x (set_dont_compress false);
  '(h, ql, c) ← _quicklistMergeNodes h ql z;
  c ← the c;
  h ← quicklistCompress h ql c;
  n ← get h c;
  p ← the (prev n);
  h ← quicklistCompress h ql p;
  n ← get h c;
  h ← match next n with Some y => quicklistCompress h ql y | None => Ok h end;
  Ok (h, ql).

Definition quicklistReplaceEntry (h : heap) (ql : quicklist) (iter : quicklistIter) (entry : quicklistEntry) (data : bytes)
  : res (heap * quicklist * quicklistIter) :=
  x ← the (e_node entry);
  d ← node h x;
  large ← isLargeElement (zlen data) (fill ql);
  newentry ←
    (if negb (is_plain d) && negb large then
       b ← as_bytes d; p ← the_zi (e_zi entry); Listpack.lpReplace b p data (zlen data)
     else Ok None);
  '(h, ql) ←
    match newentry with
    | Some (lp, _) =>
      h ← set_entry_of h x (Buffer lp);
      h ← quicklistNodeUpdateSz h x;
      h ← quicklistCompress h ql x;
      Ok (h, ql)
    | None =>
      if is_plain d then
        if large : bool then
          b ← wrn (zmalloc (zlen data)) 0 data;
          h ← set_entry_of h x (Buffer b);
          h ← upd h x (set_sz (zlen data));
          h ← quicklistCompress h ql x;
          Ok (h, ql)
        else
          '(h, ql, _) ← quicklistInsertAfter h ql iter entry data;
          __quicklistDelNode h ql x
      else replace_split h ql x data (e_offset entry)
    end;
  Ok (h, ql, resetIterator iter).

Definition quicklistReplaceAtIndex (h : heap) (ql : quicklist) (index : Z) (data : bytes) : res (heap * quicklist * bool) :=
  '(h, r) ← quicklistGetIteratorEntryAtIdx h ql index;
  match r with
  | Some (iter, entry) =>
    '(h, ql, iter) ← quicklistReplaceEntry h ql iter entry data;
    h ← quicklistReleaseIterator h ql (Some iter);
    Ok (h, ql, true)
  | None => Ok (h, ql, false)
  end.

(** ** Deleting a range *)

Fixpoint del_range_loop (fuel : nat) (h : heap) (ql : quicklist) (x : option loc) (offset extent : Z) : res (heap * quicklist) :=
  if extent =? 0 then Ok (h, ql) else
  match fuel with
  | O => Fault OutOfFuel
  | S fuel =>
    x ← the x;
    n ← get h x;
    let d := dat n in
    let '(entire, del) :=
      if (offset =? 0) && (count d <=? extent) then (true, count d)
      else if (0 <=? offset) && (count d <=? u64 (extent + offset)) then (false, u64 (count d - offset))
      else if offset <? 0 then (false, if extent <? u64 (- offset) then extent else u64 (- offset))
      else (false, extent) in
    '(h, ql) ←
      (if (entire : bool) || is_plain d then __quicklistDelNode h ql x
       else
         h ← quicklistDecompressNodeForUse h x;
         d ← node h x;
         b ← as_bytes d;
         b ← Listpack.lpDeleteRange b offset del;
         h ← set_entry_of h x (Buffer b);
         h ← quicklistNodeUpdateSz h x;
         h ← add_count h x (- del);
         let ql := with_total ql (total ql - del) in
         d ← node h x;
         if count d =? 0 then __quicklistDelNode h ql x
         else h ← quicklistRecompressOnly h x; Ok (h, ql));
    del_range_loop fuel h ql (next n) 0 (u64 (extent - del))
  end.

Definition quicklistDelRange (h : heap) (ql : quicklist) (start count : Z) : res (heap * quicklist * bool) :=
  if count <=? 0 then Ok (h, ql, false) else
  let extent := count in
  let extent :=
    if (0 <=? start) && (u64 (total ql - start) <? extent) then u64 (total ql - start)
    else if (start <? 0) && (u64 (- start) <? extent) then u64 (- start)
    else extent in
  iter ← quicklistGetIteratorAtIdx h ql AL_START_TAIL start;
  match iter with
  | None => Ok (h, ql, false)
  | Some it =>
    h ← quicklistReleaseIterator h ql iter;
    '(h, ql) ← del_range_loop (S (size h)) h ql (current it) (offset it) extent;
    Ok (h, ql, true)
  end.

(** ** Taking from the ends *)

(** [saver] makes the result from the bytes; a number is returned as such. *)
Definition quicklistPopCustom {A} (saver : bytes -> A) (h : heap) (ql : quicklist) (where_ : qend) : res (heap * quicklist * option (A + Z)) :=
  if total ql =? 0 then Ok (h, ql, None) else
  match (match where_ with QUICKLIST_HEAD => head_ ql | QUICKLIST_TAIL => tail_ ql end) with
  | None => Ok (h, ql, None)
  | Some x =>
    d ← node h x;
    _ ← cassert (negb (is_lzf d));
    b ← as_bytes d;
    if is_plain d then
      v ← rdn b 0 (sz d);
      '(h, ql, _, _) ← quicklistDelIndex h ql x 0;
      Ok (h, ql, Some (inl (saver v)))
    else
      p ← Listpack.lpSeek b (match where_ with QUICKLIST_HEAD => 0 | QUICKLIST_TAIL => -1 end);
      p ← the_zi p;
      v ← LP.lpGetValue b p;
      r ← match v with inl (q, vlen) => v ← rdn b q vlen; Ok (inl (saver v)) | inr vlong => Ok (inr vlong) end;
      '(h, ql, _, _) ← quicklistDelIndex h ql x p;
      Ok (h, ql, Some r)
  end.

Definition quicklistPop (h : heap) (ql : quicklist) (where_ : qend) : res (heap * quicklist * option (bytes + Z)) :=
  if total ql =? 0 then Ok (h, ql, None) else quicklistPopCustom (fun b => b) h ql where_.

(** ** Rotating *)

Definition quicklistRotatePlain (h : heap) (ql : quicklist) : res (heap * quicklist) :=
  new_head ← the (tail_ ql);
  n ← get h new_head;
  let new_tail := prev n in
  hd ← the (head_ ql);
  h ← set_prev h hd (Some new_head);
  t ← the new_tail;
  h ← set_next h t None;
  h ← set_next h new_head (head_ ql);
  h ← set_prev h new_head None;
  Ok (h, with_ends ql (Some new_head) new_tail).

Definition quicklistRotate (h : heap) (ql : quicklist) : res (heap * quicklist) :=
  if total ql <=? 1 then Ok (h, ql) else
  t ← the (tail_ ql);
  d ← node h t;
  if is_plain d then quicklistRotatePlain h ql else
  b ← as_bytes d;
  p ← Listpack.lpSeek b (-1);
  p ← the_zi p;
  v ← LP.lpGetValue b p;
  value ← match v with
          | inl (q, size) => rdn b q size
          | inr longval => r ← Util.ll2string (replicate 32 0) 0 32 longval; rdn (fst r) 0 (snd r)
          end;
  '(h, ql, _) ← quicklistPushHead h ql value;
  t ← the (tail_ ql);
  p ← (if len ql =? 1 then d ← node h t; b ← as_bytes d; p ← Listpack.lpSeek b (-1); the_zi p else Ok p);
  '(h, ql, _, _) ← quicklistDelIndex h ql t p;
  Ok (h, ql).

(** ** Copying and releasing *)

Fixpoint dup_loop (fuel : nat) (h : heap) (copy : quicklist) (current : option loc) : res (heap * quicklist) :=
  match current with
  | None => Ok (h, copy)
  | Some x =>
    match fuel with
    | O => Fault OutOfFuel
    | S fuel =>
      n ← get h x;
      let d := dat n in
      let '(h, y) := quicklistCreateNode h in
      e ← (if is_lzf d then
             match entry d with
             | QuicklistLZF size compressed => c ← rdn compressed 0 size; Ok (QuicklistLZF size c)
             | _ => Fault OutOfBounds
             end
           else b ← as_bytes d; src ← rdn b 0 (sz d); b ← wrn (zmalloc (sz d)) 0 src; Ok (Buffer b));
      h ← set_entry_of h y e;
      h ← upd h y (set_count (count d));
      let copy := with_total copy (total copy + count d) in
      h ← upd h y (set_sz (sz d));
      h ← upd h y (set_encoding (encoding d));
      h ← upd h y (set_container (container d));
      '(h, copy) ← _quicklistInsertNodeAfter h copy (tail_ copy) y;
      dup_loop fuel h copy (next n)
    end
  end.

Definition quicklistDup (h : heap) (orig : quicklist) : res (heap * quicklist) :=
  dup_loop (size h) h (quicklistNew (fill orig) (compress orig)) (head_ orig).

Fixpoint release_loop (n : nat) (h : heap) (ql : quicklist) (current : option loc) : res (heap * quicklist) :=
  match n with
  | O => Ok (h, ql)
  | S n =>
    x ← the current;
    nd ← get h x;
    let ql := with_total ql (total ql - count (dat nd)) in
    h ← release h x;
    release_loop n h (with_len ql (len ql - 1)) (next nd)
  end.

Definition quicklistRelease (h : heap) (ql : quicklist) : res (heap * quicklist) :=
  '(h, ql) ← release_loop (Z.to_nat (len ql)) h ql (head_ ql);
  Ok (h, quicklistBookmarksClear ql).

End quicklist.
End Quicklist.
