(* ===== verification/QuicklistNode.v ===== *)
(** * Quicklists: nodes and their contents

    [lay h ns F]: the heap consists of the linked nodes [ns], in order, and the
    other nodes [F].  [raw_ok d r]: the node [d] stands for the bytes [r],
    compressed or not.  Compressing and decompressing a node changes neither its
    bytes nor what the rest of the code reads of it ([sim]). *)

From S2P Require Import Prelude Lzf LzfSpec Dll Quicklist.
From stdpp Require Import list gmap fin_maps.
#[local] Open Scope Z_scope.

Module QuicklistNode.
Import Dll Quicklist.

#[local] Abbreviation nodes := (list (loc * qnode)).

(** ** The heap *)

Definition lay (h : heap) (ns : nodes) (F : heap) : Prop :=
  exists H, whole H ns /\ H ##ₘ F /\ h = H ∪ F.

(** The location of the node at an index, and of the one before it. *)
Definition loc_at (ns : nodes) (i : nat) : option loc := fst <$> ns !! i.
Definition before_at (ns : nodes) (i : nat) : option loc := match i with O => None | S j => loc_at ns j end.

Lemma first_of_drop (ns : nodes) i : first_of (drop i ns) = loc_at ns i.
Proof. unfold first_of, loc_at. by rewrite head_lookup, lookup_drop, Nat.add_0_r. Qed.

Lemma last_of_take (ns : nodes) i : (i <= length ns)%nat -> last_of (take i ns) = before_at ns i.
Proof.
  intros Hi. unfold last_of, before_at, loc_at. rewrite last_lookup, length_take, Nat.min_l by done. destruct i; [done|].
  cbn [Nat.pred]. by rewrite lookup_take_lt by lia.
Qed.

Lemma split_nodes (ns : nodes) i x d : ns !! i = Some (x, d) -> ns = take i ns ++ (x, d) :: drop (S i) ns.
Proof. intros Hi. by rewrite take_drop_middle. Qed.

Lemma insert_nodes (ns : nodes) i x d d' : ns !! i = Some (x, d) -> <[i := (x, d')]> ns = take i ns ++ (x, d') :: drop (S i) ns.
Proof. intros Hi. apply insert_take_drop. by eapply lookup_lt_Some. Qed.

Lemma lay_lookup h ns F i x d : lay h ns F -> ns !! i = Some (x, d) ->
  h !! x = Some {| prev := before_at ns i; next := loc_at ns (S i); dat := d |} /\ F !! x = None.
Proof.
  intros (H & [Hc Hd] & Hdis & ->) Hi. pose proof (lookup_lt_Some _ _ _ Hi). rewrite (split_nodes ns i x d Hi) in Hc.
  apply chain_lookup in Hc. rewrite last_of_take, first_of_drop in Hc by lia. split; [by apply lookup_union_Some_l|].
  rewrite map_disjoint_alt in Hdis. destruct (Hdis x) as [E|E]; [congruence|done].
Qed.

Lemma lay_get h ns F i x d : lay h ns F -> ns !! i = Some (x, d) -> get h x = Ok {| prev := before_at ns i; next := loc_at ns (S i); dat := d |}.
Proof. intros Hl Hi. unfold get. by rewrite (proj1 (lay_lookup _ _ _ _ _ _ Hl Hi)). Qed.

Lemma lay_node h ns F i x d : lay h ns F -> ns !! i = Some (x, d) -> node h x = Ok d.
Proof. intros Hl Hi. unfold node. by rewrite (lay_get _ _ _ _ _ _ Hl Hi). Qed.

Lemma lay_free_lookup h ns F y n : lay h ns F -> F !! y = Some n -> h !! y = Some n.
Proof. intros (H & _ & Hdis & ->) Hy. by apply lookup_union_Some_r. Qed.

Lemma lay_free_get h ns F y n : lay h ns F -> F !! y = Some n -> get h y = Ok n.
Proof. intros Hl Hy. unfold get. by rewrite (lay_free_lookup _ _ _ _ _ Hl Hy). Qed.

Lemma lay_nodup h ns F : lay h ns F -> NoDup ns.*1.
Proof. intros (H & [[Hnd _] _] & _). done. Qed.

Lemma lay_size h ns F : lay h ns F -> (length ns <= size h)%nat.
Proof.
  intros (H & [[Hnd _] Hd] & Hdis & ->). rewrite map_size_disj_union by done. rewrite <- (size_dom H), Hd, size_list_to_set by done. rewrite length_fmap. lia.
Qed.

(** ** Updating nodes *)

Lemma lay_upd h ns F i x d f : lay h ns F -> ns !! i = Some (x, d) ->
  exists h', upd h x f = Ok h' /\ lay h' (<[i := (x, f d)]> ns) F.
Proof.
  intros Hl Hi. destruct (lay_lookup _ _ _ _ _ _ Hl Hi) as [Hx HF]. destruct Hl as (H & Hw & Hdis & ->).
  unfold upd. rewrite (modify_ok _ _ _ _ Hx). eexists. split; [done|]. rewrite (insert_nodes ns i x d (f d) Hi).
  rewrite (split_nodes ns i x d Hi) in Hw. exists (alter (with_dat (f d)) x H). split; [by eapply whole_change|].
  split; [apply map_disjoint_dom; rewrite dom_alter; by apply map_disjoint_dom|].
  pose proof Hw as [Hc _]. apply chain_lookup in Hc. apply map_eq. intros y. destruct (decide (y = x)) as [->|Hy].
  - rewrite lookup_alter_eq, Hx. cbn. symmetry. apply lookup_union_Some_l. rewrite lookup_alter_eq, Hc. cbn. do 2 f_equal.
    apply lookup_union_Some_inv_l in Hx; [|done]. rewrite Hc in Hx. by injection Hx as <- <-.
  - rewrite lookup_alter_ne by done. rewrite !lookup_union, lookup_alter_ne by done. done.
Qed.

Lemma lay_upd_free h ns F y n f : lay h ns F -> F !! y = Some n ->
  exists h', upd h y f = Ok h' /\ lay h' ns (<[y := with_dat (f (dat n)) n]> F).
Proof.
  intros Hl Hy. pose proof (lay_free_lookup _ _ _ _ _ Hl Hy) as Hh. destruct Hl as (H & Hw & Hdis & ->).
  unfold upd, modify, get. rewrite Hh. cbn [mbind res_bind]. eexists. split; [done|]. exists H. split; [done|].
  assert (H !! y = None) as HH by (rewrite map_disjoint_alt in Hdis; destruct (Hdis y); congruence).
  split; [by apply map_disjoint_insert_r_2|]. by rewrite insert_union_r.
Qed.

Lemma lay_new h ns F : lay h ns F ->
  exists h' y, quicklistCreateNode h = (h', y) /\ lay h' ns (<[y := {| prev := None; next := None; dat := new_qnode |}]> F) /\ (y ∉ ns.*1) /\ F !! y = None.
Proof.
  intros (H & [Hc Hd] & Hdis & ->). unfold quicklistCreateNode, alloc. set (y := fresh (dom (H ∪ F))).
  assert (y ∉ dom (H ∪ F)) as Hy by apply is_fresh. rewrite dom_union_L, Hd, not_elem_of_union in Hy. destruct Hy as [Hy1 Hy2].
  rewrite elem_of_list_to_set in Hy1. apply not_elem_of_dom in Hy2. assert (H !! y = None) as HH by (apply not_elem_of_dom; by rewrite Hd, elem_of_list_to_set).
  eexists _, y. split; [done|]. split; [|done]. exists H. split; [done|]. split; [by apply map_disjoint_insert_r_2|].
  by rewrite insert_union_r.
Qed.

(** ** The bytes of a node *)

Section contents.
Context `{Allocator} `{Environment} (Hhtab : LzfSpec.valid_htab htab).

Record raw_ok (d : qnode) (r : bytes) : Prop := {
  raw_size : zlen r = sz d;
  raw_wf : wf_bytes r;
  raw_small : sz d < 2 ^ 32;
  raw_entry :
    match encoding d with
    | QUICKLIST_NODE_ENCODING_RAW => exists s, entry d = Buffer (r ++ s)
    | QUICKLIST_NODE_ENCODING_LZF =>
      exists c, entry d = QuicklistLZF (zlen c) c /\ MIN_COMPRESS_BYTES <= sz d /\ recompress d = false /\
        Lzf.lzf_decompress c (zlen c) (sz d) (uninit (sz d)) = Ok (sz d, r)
    end
}.

(** The same node in another encoding. *)
Record sim (d d' : qnode) : Prop := {
  sim_sz : sz d' = sz d;
  sim_count : count d' = count d;
  sim_container : container d' = container d;
  sim_dont : dont_compress d' = dont_compress d;
  sim_recompress : recompress d' = true -> recompress d = true;
  sim_held : dont_compress d = true -> is_lzf d' = true -> is_lzf d = true;
  sim_raw r : raw_ok d r -> raw_ok d' r
}.

Lemma sim_refl d : sim d d.
Proof. by split. Qed.

Lemma sim_trans d1 d2 d3 : sim d1 d2 -> sim d2 d3 -> sim d1 d3.
Proof. intros [] []. split; try congruence; eauto with congruence. Qed.

Lemma raw_flag d r b : raw_ok d r -> b = false \/ is_lzf d = false -> raw_ok (set_recompress b d) r.
Proof.
  intros [Hs Hw Hb He] Hl. split; [done..|]. unfold is_lzf in Hl. cbn [set_recompress encoding entry sz recompress]. destruct (encoding d); [done|].
  destruct Hl as [-> |]; [|done]. destruct He as (c & Hc & Hm & _ & Hd). by exists c.
Qed.

Lemma sim_unflag d : sim d (set_recompress false d).
Proof. split; try done. intros r Hr. apply raw_flag; [done|by left]. Qed.

Lemma raw_bytes d r : raw_ok d r -> is_lzf d = false -> exists s, entry d = Buffer (r ++ s).
Proof. intros [_ _ _ He] Hl. unfold is_lzf in Hl. by destruct (encoding d). Qed.

(** ** Compressing *)

Definition lzf_of (n : Z) (c : bytes) (d : qnode) : qnode :=
  set_encoding QUICKLIST_NODE_ENCODING_LZF (set_entry (QuicklistLZF n c) (set_recompress false d)).

Lemma compressed_sim d r : raw_ok d r -> is_lzf d = false -> dont_compress d = false -> MIN_COMPRESS_BYTES <= sz d ->
  exists n out, Lzf.lzf_compress r (sz d) htab (uninit (sz d)) = Ok (n, out) /\
    (n <> 0 -> sim d (lzf_of n (take (Z.to_nat n) out) d)).
Proof.
  intros Hr Hl Hdc Hm. pose proof Hr as [Hs Hw Hb _]. unfold MIN_COMPRESS_BYTES in Hm. pose proof (zlen_uninit (sz d) ltac:(lia)) as Hu.
  destruct (LzfSpec.lzf_pair r (uninit (sz d)) htab Hw ltac:(lia) Hhtab) as (n & out & Hc & Hn & Ho & _ & Hrt). rewrite Hu in *.
  exists n, out. split; [done|]. intros Hne. destruct (Hrt Hne) as [Hwc Hd]. split; try done; [congruence|]. intros r' Hr'.
  assert (r' = r) as ->.
  { destruct (raw_bytes d r Hr Hl) as [s Hs1]. destruct (raw_bytes d r' Hr' Hl) as [s' Hs2]. rewrite Hs1 in Hs2. injection Hs2 as E.
    apply app_inj_1 in E as [-> _]; [done|]. pose proof (raw_size _ _ Hr'). unfold zlen in *. lia. }
  split; [done|done|done|]. cbn [lzf_of set_encoding set_entry set_recompress encoding entry sz].
  assert (zlen (take (Z.to_nat n) out) = n) as Hz by (unfold zlen in *; rewrite length_take; lia).
  eexists. rewrite Hz. split; [done|]. split; [unfold MIN_COMPRESS_BYTES; lia|]. split; [done|].
  rewrite <- Hu at 1. rewrite Hd by lia. rewrite Hs. rewrite drop_ge, app_nil_r; [done|]. unfold zlen in *. lia.
Qed.

Lemma rdn_raw (r s : bytes) n : n = zlen r -> rdn (r ++ s) 0 n = Ok r.
Proof. intros ->. apply (rdn_app [] r s). Qed.

Lemma compressNode_spec h ns F i x d r : lay h ns F -> ns !! i = Some (x, d) -> raw_ok d r -> is_lzf d = false ->
  (dont_compress d = true \/ (0 < i)%nat /\ (S i < length ns)%nat) ->
  exists h' d' b, __quicklistCompressNode h x = Ok (h', b) /\ lay h' (<[i := (x, d')]> ns) F /\ sim d d' /\ (dont_compress d = false -> recompress d' = false).
Proof.
  intros Hl Hi Hr Hz Hpos. unfold __quicklistCompressNode. rewrite (lay_get _ _ _ _ _ _ Hl Hi). cbn [mbind res_bind dat prev next].
  destruct (dont_compress d) eqn:Edc; [exists h, d, false; rewrite list_insert_id by done; by split_and!|].
  destruct Hpos as [|[Hi0 Hi1]]; [done|].
  assert (is_Some (before_at ns i)) as Hp.
  { destruct i as [|j]; [lia|]. cbn. unfold loc_at. destruct (lookup_lt_is_Some_2 ns j) as [c ->]; [lia|]. eauto. }
  assert (is_Some (loc_at ns (S i))) as Hn by (unfold loc_at; destruct (lookup_lt_is_Some_2 ns (S i)) as [c ->]; [lia|]; eauto).
  rewrite !bool_decide_eq_true_2 by done. cbn [cassert andb mbind res_bind].
  destruct (lay_upd h ns F i x d (set_recompress false) Hl Hi) as (h1 & -> & Hl1). cbn [mbind res_bind].
  assert (forall b : bool, exists h' d' b0, Ok (h1, b) = Ok (h', b0) /\ lay h' (<[i := (x, d')]> ns) F /\ sim d d' /\ (false = false -> recompress d' = false)) as Hkeep.
  { intros b. exists h1, (set_recompress false d), b. split; [done|]. split; [done|]. split; [apply sim_unflag|done]. }
  destruct (Z.ltb_spec (sz d) MIN_COMPRESS_BYTES) as [|Hmin]; [apply Hkeep|].
  destruct (raw_bytes d r Hr Hz) as [s Hs]. unfold as_bytes. rewrite Hs. cbn [mbind res_bind].
  rewrite (rdn_raw r s) by (by rewrite (raw_size _ _ Hr)). cbn [mbind res_bind].
  destruct (compressed_sim d r Hr Hz Edc Hmin) as (n & out & -> & Hsim). cbn [mbind res_bind].
  destruct (Z.eqb_spec n 0) as [|Hne]; cbn [orb]; [apply Hkeep|]. destruct (_ <=? _); [apply Hkeep|].
  pose proof (lookup_lt_Some _ _ _ Hi) as Hlt.
  destruct (lay_upd h1 _ F i x _ (set_entry (QuicklistLZF n (take (Z.to_nat n) out))) Hl1 (list_lookup_insert_eq _ _ _ Hlt)) as (h2 & -> & Hl2).
  cbn [mbind res_bind]. rewrite list_insert_insert_eq in Hl2.
  destruct (lay_upd h2 _ F i x _ (set_encoding QUICKLIST_NODE_ENCODING_LZF) Hl2 (list_lookup_insert_eq _ _ _ Hlt)) as (h3 & -> & Hl3).
  cbn [mbind res_bind]. rewrite list_insert_insert_eq in Hl3. eexists h3, _, true. split; [done|]. split; [exact Hl3|]. split; [by apply Hsim|done].
Qed.

Lemma decompressNode_spec h ns F i x d r : lay h ns F -> ns !! i = Some (x, d) -> raw_ok d r -> is_lzf d = true ->
  exists h' d' b, __quicklistDecompressNode h x = Ok (h', b) /\ lay h' (<[i := (x, d')]> ns) F /\ sim d d' /\ is_lzf d' = false /\ recompress d' = false.
Proof.
  intros Hl Hi Hr Hz. unfold __quicklistDecompressNode. destruct (lay_upd h ns F i x d (set_recompress false) Hl Hi) as (h1 & -> & Hl1). cbn [mbind res_bind].
  pose proof (lookup_lt_Some _ _ _ Hi) as Hlt. rewrite (lay_node _ _ _ _ _ _ Hl1 (list_lookup_insert_eq _ _ _ Hlt)). cbn [mbind res_bind set_recompress entry sz].
  pose proof Hr as [Hs Hw Hb He]. pose proof Hz as Hz'. unfold is_lzf in Hz. apply bool_decide_eq_true_1 in Hz. rewrite Hz in He. destruct He as (c & -> & Hm & _ & Hd).
  rewrite Hd. cbn [mbind res_bind]. unfold MIN_COMPRESS_BYTES in Hm. rewrite (proj2 (Z.eqb_neq _ _)) by lia.
  destruct (lay_upd h1 _ F i x _ (set_entry (Buffer r)) Hl1 (list_lookup_insert_eq _ _ _ Hlt)) as (h2 & -> & Hl2).
  cbn [mbind res_bind]. rewrite list_insert_insert_eq in Hl2.
  destruct (lay_upd h2 _ F i x _ (set_encoding QUICKLIST_NODE_ENCODING_RAW) Hl2 (list_lookup_insert_eq _ _ _ Hlt)) as (h3 & -> & Hl3).
  cbn [mbind res_bind]. rewrite list_insert_insert_eq in Hl3. eexists h3, _, true. split; [done|]. split; [exact Hl3|]. split; [|done].
  split; try done. intros r' Hr'. assert (r' = r) as ->.
  { pose proof (raw_entry _ _ Hr') as He'. rewrite Hz in He'. pose proof (raw_entry _ _ Hr) as He. rewrite Hz in He.
    destruct He as (c1 & E1 & _ & _ & D1), He' as (c2 & E2 & _ & _ & D2). rewrite E1 in E2. injection E2 as _ <-. rewrite D1 in D2. by injection D2 as <-. }
  split; [done..|]. exists []. by rewrite app_nil_r.
Qed.

(** ** Nodes in another encoding, along the list *)

Definition sims (ns ns' : nodes) : Prop := Forall2 (fun c c' => c.1 = c'.1 /\ sim c.2 c'.2) ns ns'.
Definition goods (ns : nodes) : Prop := Forall (fun c => exists r, raw_ok c.2 r) ns.
Definition frozen (ns : nodes) (i : nat) : Prop := exists c, ns !! i = Some c /\ is_lzf c.2 = true.
Definition pending (ns : nodes) (i : nat) : Prop := exists c, ns !! i = Some c /\ recompress c.2 = true.

Lemma sims_refl ns : sims ns ns.
Proof. induction ns; constructor; [|done]. split; [done|apply sim_refl]. Qed.

Lemma sims_trans n1 n2 n3 : sims n1 n2 -> sims n2 n3 -> sims n1 n3.
Proof.
  intros H12. revert n3. induction H12 as [|c1 c2 n1 n2 [E1 S1] _ IH]; intros n3 H23; inversion H23 as [|? c3 ? n3' [E2 S2] H23']; subst; [constructor|].
  constructor; [split; [congruence|by eapply sim_trans]|by apply IH].
Qed.

Lemma sims_length ns ns' : sims ns ns' -> length ns' = length ns.
Proof. intros Hs. symmetry. by eapply Forall2_length. Qed.

Lemma sims_locs ns ns' : sims ns ns' -> ns'.*1 = ns.*1.
Proof. induction 1 as [|c c' ns ns' [E _] _ IH]; [done|]. cbn. by rewrite E, IH. Qed.

Lemma sims_loc_at ns ns' i : sims ns ns' -> loc_at ns' i = loc_at ns i.
Proof. intros Hs. unfold loc_at. by rewrite <- !list_lookup_fmap, (sims_locs _ _ Hs). Qed.

Lemma sims_before_at ns ns' i : sims ns ns' -> before_at ns' i = before_at ns i.
Proof. intros Hs. destruct i; [done|]. by apply sims_loc_at. Qed.

Lemma sims_lookup ns ns' i x d : sims ns ns' -> ns !! i = Some (x, d) -> exists d', ns' !! i = Some (x, d') /\ sim d d'.
Proof. intros Hs Hi. destruct (Forall2_lookup_l _ _ _ _ _ Hs Hi) as ([y d'] & Hi' & E & S). cbn in *. subst. eauto. Qed.

Lemma sims_lookup_r ns ns' i x d' : sims ns ns' -> ns' !! i = Some (x, d') -> exists d, ns !! i = Some (x, d) /\ sim d d'.
Proof. intros Hs Hi. destruct (Forall2_lookup_r _ _ _ _ _ Hs Hi) as ([y d] & Hi' & E & S). cbn in *. subst. eauto. Qed.

Lemma sims_set ns i x d d' : ns !! i = Some (x, d) -> sim d d' -> sims ns (<[i := (x, d')]> ns).
Proof.
  intros Hi S. pose proof (Forall2_insert _ _ _ (x, d) (x, d') i (sims_refl ns) (conj eq_refl S)) as Hs. by rewrite list_insert_id in Hs.
Qed.

Lemma sims_goods ns ns' : sims ns ns' -> goods ns -> goods ns'.
Proof.
  intros Hs Hg. apply Forall_lookup_2. intros i [x d'] Hi. destruct (sims_lookup_r _ _ _ _ _ Hs Hi) as (d & Hi' & S).
  destruct (Forall_lookup_1 _ _ _ _ Hg Hi') as [r Hr]. exists r. by apply (sim_raw _ _ S).
Qed.

Lemma sims_pending ns ns' i : sims ns ns' -> pending ns' i -> pending ns i.
Proof.
  intros Hs ([x d'] & Hi & Hp). destruct (sims_lookup_r _ _ _ _ _ Hs Hi) as (d & Hi' & S). exists (x, d). split; [done|]. by apply (sim_recompress _ _ S).
Qed.

Lemma good_at ns i x d : goods ns -> ns !! i = Some (x, d) -> exists r, raw_ok d r.
Proof. intros Hg Hi. apply (Forall_lookup_1 _ _ _ _ Hg Hi). Qed.

Lemma frozen_set ns i j x d d' : ns !! i = Some (x, d) -> (is_lzf d' = true -> is_lzf d = true) -> frozen (<[i := (x, d')]> ns) j -> frozen ns j.
Proof.
  intros Hi Hz (c & Hc & Hf). destruct (decide (j = i)) as [->|Hj].
  - rewrite list_lookup_insert_eq in Hc by (by eapply lookup_lt_Some). injection Hc as <-. exists (x, d). split; [done|]. by apply Hz.
  - rewrite list_lookup_insert_ne in Hc by done. by exists c.
Qed.

(** [quicklistDecompressNode] at an index. *)
Lemma thaw_spec h ns F i x : lay h ns F -> goods ns -> loc_at ns i = Some x ->
  exists h' ns', quicklistDecompressNode h (Some x) = Ok h' /\ lay h' ns' F /\ sims ns ns' /\ (~ frozen ns' i) /\ (forall j, frozen ns' j -> frozen ns j).
Proof.
  intros Hl Hg Hx. unfold loc_at in Hx. destruct (ns !! i) as [[y d]|] eqn:Hi; [|done]. injection Hx as ->. unfold quicklistDecompressNode.
  rewrite (lay_node _ _ _ _ _ _ Hl Hi). cbn [mbind res_bind]. destruct (is_lzf d) eqn:Hz.
  - destruct (good_at _ _ _ _ Hg Hi) as [r Hr]. destruct (decompressNode_spec h ns F i x d r Hl Hi Hr Hz) as (h' & d' & b & -> & Hl' & S & Hz' & _).
    cbn [mbind res_bind]. eexists h', _. split; [done|]. split; [exact Hl'|]. split; [by eapply sims_set|]. split.
    + intros (c & Hc & Hf). rewrite list_lookup_insert_eq in Hc by (by eapply lookup_lt_Some). injection Hc as <-. cbn in Hf. congruence.
    + intros j. eapply frozen_set; [done|]. congruence.
  - exists h, ns. split; [done|]. split; [done|]. split; [apply sims_refl|]. split; [|done]. intros (c & Hc & Hf). rewrite Hi in Hc. injection Hc as <-. cbn in Hf. congruence.
Qed.

(** [quicklistCompressNode] at an index. *)
Lemma freeze_spec h ns F i x d : lay h ns F -> goods ns -> ns !! i = Some (x, d) -> (dont_compress d = true \/ (0 < i)%nat /\ (S i < length ns)%nat) ->
  exists h' ns', quicklistCompressNode h (Some x) = Ok h' /\ lay h' ns' F /\ sims ns ns' /\ (forall j, frozen ns' j -> frozen ns j \/ j = i) /\
    (dont_compress d = false -> ~ pending ns' i).
Proof.
  intros Hl Hg Hi Hpos. unfold quicklistCompressNode. rewrite (lay_node _ _ _ _ _ _ Hl Hi). cbn [mbind res_bind].
  destruct (good_at _ _ _ _ Hg Hi) as [r Hr]. destruct (is_lzf d) eqn:Hz.
  - exists h, ns. split; [done|]. split; [done|]. split; [apply sims_refl|]. split; [by left|]. intros _ (c & Hc & Hp). rewrite Hi in Hc. injection Hc as <-.
    pose proof (raw_entry _ _ Hr) as He. apply bool_decide_eq_true_1 in Hz. rewrite Hz in He. destruct He as (c & _ & _ & E & _). cbn in Hp. congruence.
  - destruct (compressNode_spec h ns F i x d r Hl Hi Hr Hz Hpos) as (h' & d' & b & -> & Hl' & S & Hp). cbn [mbind res_bind]. pose proof (lookup_lt_Some _ _ _ Hi).
    eexists h', _. split; [done|]. split; [exact Hl'|]. split; [by eapply sims_set|]. split.
    + intros j (c & Hc & Hf). destruct (decide (j = i)) as [->|Hj]; [by right|]. left. rewrite list_lookup_insert_ne in Hc by done. by exists c.
    + intros Hdc (c & Hc & Hp'). rewrite list_lookup_insert_eq in Hc by done. injection Hc as <-. cbn in Hp'. rewrite Hp in Hp' by done. done.
Qed.

(** ** The compress depth *)

(** The index [i] has at least [k] nodes on either side. *)
Definition deep (k n i : nat) : Prop := (0 < k)%nat /\ (k <= i)%nat /\ (i + k < n)%nat.
Definition lzf_deep (k : nat) (ns : nodes) : Prop := forall i, frozen ns i -> deep k (length ns) i.
Definition rec_deep (k : nat) (ns : nodes) : Prop := forall i, pending ns i -> deep k (length ns) i.

Lemma loc_at_some (ns : nodes) i : (i < length ns)%nat -> exists x, loc_at ns i = Some x.
Proof. intros Hi. unfold loc_at. destruct (lookup_lt_is_Some_2 ns i Hi) as [c ->]. eauto. Qed.

Lemma loc_at_inj (ns : nodes) i j x : NoDup ns.*1 -> loc_at ns i = Some x -> loc_at ns j = Some x -> i = j.
Proof. unfold loc_at. rewrite <- !list_lookup_fmap. apply NoDup_lookup. Qed.

Lemma depth_loop_spec (x : option loc) m : forall h ns F i b n, n = length ns -> lay h ns F -> goods ns -> (2 * i + 1 <= n)%nat ->
  (forall j, frozen ns j -> (i <= j)%nat /\ (j + i < n)%nat) ->
  exists h' ns' r, compress_loop m h x (loc_at ns i) (loc_at ns (n - 1 - i)) b = Ok (h', r) /\ lay h' ns' F /\ sims ns ns' /\
  match r with
  | None => forall j, ~ frozen ns' j
  | Some (b', f, v) => f = loc_at ns (i + m) /\ v = loc_at ns (n - 1 - (i + m)) /\ (2 * (i + m) + 1 <= n)%nat /\
      (forall j, frozen ns' j -> (i + m <= j)%nat /\ (j + (i + m) < n)%nat) /\
      (b' = false -> b = false /\ forall j, loc_at ns j = x -> (i <= j)%nat -> (j + i < n)%nat -> (i + m <= j)%nat /\ (j + (i + m) < n)%nat)
  end.
Proof.
  induction m as [|m IH]; intros h ns F i b n Hn Hl Hg Hin Hfr; cbn [compress_loop].
  { exists h, ns, (Some (b, loc_at ns i, loc_at ns (n - 1 - i)%nat)). split; [done|]. split; [done|]. split; [apply sims_refl|]. rewrite Nat.add_0_r. by split_and!. }
  destruct (loc_at_some ns i ltac:(lia)) as [f Hf]. destruct (loc_at_some ns (n - 1 - i)%nat ltac:(lia)) as [v Hv]. rewrite Hf, Hv.
  destruct (thaw_spec h ns F i f Hl Hg Hf) as (h1 & ns1 & -> & Hl1 & S1 & Hnf1 & Hfr1). cbn [mbind res_bind].
  pose proof (sims_goods _ _ S1 Hg) as Hg1. pose proof (sims_length _ _ S1) as Hlen1.
  destruct (thaw_spec h1 ns1 F (n - 1 - i) v Hl1 Hg1) as (h2 & ns2 & -> & Hl2 & S2 & Hnf2 & Hfr2); [by rewrite (sims_loc_at _ _ _ S1)|]. cbn [mbind res_bind the].
  pose proof (sims_goods _ _ S2 Hg1) as Hg2. pose proof (sims_trans _ _ _ S1 S2) as S12. pose proof (sims_length _ _ S12) as Hlen2.
  assert (forall j, loc_at ns2 j = loc_at ns j) as Hloc by (intros j; by apply sims_loc_at).
  assert (forall j y, loc_at ns j = Some y -> get h2 y = Ok {| prev := before_at ns j; next := loc_at ns (S j); dat := default new_qnode (snd <$> ns2 !! j) |}) as Hget.
  { intros j y Hy. rewrite <- Hloc in Hy. unfold loc_at in Hy. destruct (ns2 !! j) as [[y' d]|] eqn:E; [|done]. injection Hy as ->.
    rewrite (lay_get _ _ _ _ _ _ Hl2 E). cbn. by rewrite Hloc, (sims_before_at _ _ _ S12). }
  rewrite (Hget i f Hf). cbn [mbind res_bind next]. pose proof (lay_nodup _ _ _ Hl) as Hnd.
  assert (forall j, frozen ns2 j -> (S i <= j)%nat /\ (j + S i < n)%nat) as Hfr'.
  { intros j Hj. destruct (Hfr j (Hfr1 j (Hfr2 j Hj))) as [Ha Hb]. assert (j <> i) by (intros ->; apply Hnf1, (Hfr2 _ Hj)). assert (j <> n - 1 - i)%nat by (by intros ->). lia. }
  destruct (bool_decide (Some f = Some v) || bool_decide (loc_at ns (S i) = Some v)) eqn:Emeet.
  - exists h2, ns2, None. split; [done|]. split; [done|]. split; [done|]. intros j Hj. destruct (Hfr' j Hj).
    apply orb_true_iff in Emeet as [E|E]; apply bool_decide_eq_true_1 in E.
    + injection E as ->. pose proof (loc_at_inj ns i (n - 1 - i) v Hnd Hf Hv). lia.
    + pose proof (loc_at_inj ns (S i) (n - 1 - i) v Hnd E Hv). lia.
  - apply orb_false_iff in Emeet as [E1 E2]. apply bool_decide_eq_false_1 in E1, E2.
    assert (i <> n - 1 - i)%nat by (intros E; rewrite <- E in Hv; congruence). assert (S i <> n - 1 - i)%nat by (intros E; rewrite <- E in Hv; congruence).
    rewrite (Hget _ v Hv). cbn [mbind res_bind prev].
    assert (before_at ns (n - 1 - i) = loc_at ns (n - 1 - S i)) as ->.
    { replace (n - 1 - i)%nat with (S (n - 1 - S i)) by lia. done. }
    rewrite <- !Hloc. destruct (IH h2 ns2 F (S i) (b || bool_decide (Some f = x) || bool_decide (Some v = x)) n) as (h3 & ns3 & r & E & Hl3 & S3 & Hr); [congruence|done|done|lia|done|].
    rewrite E. exists h3, ns3, r. split; [done|]. split; [done|]. split; [by eapply sims_trans|]. destruct r as [[[b' f'] v']|]; [|done].
    rewrite !Hloc in Hr. replace (S i + m)%nat with (i + S m)%nat in Hr by lia. destruct Hr as (-> & -> & Hm & Hfr3 & Hb). split_and!; try done.
    intros Hb'. destruct (Hb Hb') as [[[-> Nf]%orb_false_iff Nv]%orb_false_iff Hb2]. split; [done|]. intros j Hj Hj1 Hj2. apply bool_decide_eq_false_1 in Nf, Nv.
    apply Hb2; [by rewrite Hloc| |]; (destruct (decide (j = i)) as [->|]; [congruence|]; destruct (decide (j = n - 1 - i)%nat) as [->|]; [congruence|lia]).
Qed.

(** The fields of the list that describe its chain. *)
Record ends (ql : quicklist) (ns : nodes) : Prop := {
  ends_head : head_ ql = loc_at ns 0;
  ends_tail : tail_ ql = before_at ns (length ns);
  ends_len : len ql = zlen ns;
  ends_short : zlen ns < 2 ^ 62;
  ends_depth : 0 <= compress ql
}.

Definition depth (ql : quicklist) : nat := Z.to_nat (compress ql).

Lemma ends_sims ql ns ns' : ends ql ns -> sims ns ns' -> ends ql ns'.
Proof.
  intros [Hh Ht Hl Hs Hd] S. pose proof (sims_length _ _ S) as E. split; [by rewrite (sims_loc_at _ _ _ S)|by rewrite E, (sims_before_at _ _ _ S)| | |done].
  - unfold zlen in *. by rewrite E.
  - unfold zlen in *. by rewrite E.
Qed.

Lemma not_deep_end k ns i : rec_deep k ns -> (i = 0 \/ S i = length ns)%nat -> ~ pending ns i.
Proof. intros Hr Hi Hp. destruct (Hr i Hp). lia. Qed.

Lemma not_pending ns i x d : ~ pending ns i -> ns !! i = Some (x, d) -> recompress d = false.
Proof. intros Hp Hi. destruct (recompress d) eqn:E; [|done]. exfalso. apply Hp. by exists (x, d). Qed.

(** Freezing what is beyond the depth keeps to it. *)
Lemma freeze_deep h ns F k i x : lay h ns F -> goods ns -> loc_at ns i = Some x -> deep k (length ns) i -> lzf_deep k ns ->
  exists h' ns', quicklistCompressNode h (Some x) = Ok h' /\ lay h' ns' F /\ sims ns ns' /\ lzf_deep k ns'.
Proof.
  intros Hl Hg Hx Hi Hd. unfold loc_at in Hx. destruct (ns !! i) as [[y d]|] eqn:E; [|done]. injection Hx as ->. destruct Hi as (Hk & Hi1 & Hi2).
  destruct (freeze_spec h ns F i x d Hl Hg E) as (h' & ns' & -> & Hl' & S & Hf & _); [right; lia|]. exists h', ns'. split; [done|]. split; [done|]. split; [done|].
  intros j Hj. rewrite (sims_length _ _ S). destruct (Hf j Hj) as [H1| ->]; [by apply Hd|]. by split.
Qed.

(** [__quicklistCompress]: outside of its depth on either side nothing is left
    compressed; when the list is shorter than twice the depth nothing changes. *)
Lemma compress_spec h ns F ql y : lay h ns F -> goods ns -> ends ql ns -> rec_deep (depth ql) ns ->
  match y with None => True | Some x => exists i, loc_at ns i = Some x end ->
  exists h' ns', __quicklistCompress h ql y = Ok h' /\ lay h' ns' F /\ sims ns ns' /\
    (if decide (depth ql = 0%nat \/ (length ns < 2 * depth ql)%nat) then ns' = ns else lzf_deep (depth ql) ns').
Proof.
  intros Hl Hg [Hh Ht Hlen Hs Hd] Hr Hy. unfold __quicklistCompress. rewrite Hlen, Hh, Ht. set (n := length ns). set (k := depth ql).
  assert (Hkz : compress ql = Z.of_nat k) by (unfold k, depth; lia).
  destruct (decide (n = 0)%nat) as [Hn0|Hn0].
  { assert (ns = []) as -> by (by apply nil_length_inv). exists h, []. split; [done|]. split; [done|]. split; [apply sims_refl|].
    destruct (decide _) as [|Hno]; [done|]. cbn in Hno. lia. }
  rewrite (proj2 (Z.eqb_neq _ _)) by (unfold zlen; lia). destruct (loc_at_some ns 0 ltac:(lia)) as [hd Ehd]. rewrite Ehd.
  assert (before_at ns n = loc_at ns (n - 1)) as -> by (destruct n; [lia|]; cbn; by rewrite Nat.sub_0_r).
  destruct (loc_at_some ns (n - 1) ltac:(lia)) as [tl Etl]. rewrite Etl. cbn [the mbind res_bind].
  assert (forall i z, loc_at ns i = Some z -> exists d, ns !! i = Some (z, d)) as Hat.
  { intros i z Hz. unfold loc_at in Hz. destruct (ns !! i) as [[w d]|]; [|done]. injection Hz as ->. eauto. }
  destruct (Hat _ _ Ehd) as [dh Edh]. destruct (Hat _ _ Etl) as [dt Edt].
  rewrite (lay_node _ _ _ _ _ _ Hl Edh). cbn [mbind res_bind]. rewrite (lay_node _ _ _ _ _ _ Hl Edt). cbn [mbind res_bind].
  rewrite (not_pending ns 0 hd dh), (not_pending ns (n - 1) tl dt); [|eapply not_deep_end; [done|unfold n; lia]|done|eapply not_deep_end; [done|by left]|done].
  cbn [negb andb cassert mbind res_bind]. rewrite Hkz. unfold zlen. fold n.
  destruct (decide (k = 0%nat \/ (n < 2 * k)%nat)) as [Hshort|Hlong].
  { destruct (_ || _) eqn:E; [exists h, ns; split_and!; try done; apply sims_refl|]. apply orb_false_iff in E as [E1%Z.eqb_neq E2%Z.ltb_ge]. lia. }
  rewrite (proj2 (Z.eqb_neq _ _)), (proj2 (Z.ltb_ge _ _)) by lia. cbn [orb]. rewrite Nat2Z.id, <- Ehd, <- Etl.
  destruct (depth_loop_spec y k h ns F 0 false n eq_refl Hl Hg) as (h1 & ns1 & r & E & Hl1 & S1 & Hres); [lia| |].
  { intros j (c & Hc%lookup_lt_Some & _). unfold n. lia. }
  rewrite Nat.sub_0_r in E. rewrite E. cbn [mbind res_bind]. pose proof (sims_goods _ _ S1 Hg) as Hg1. pose proof (sims_length _ _ S1) as Hn1.
  destruct r as [[[b f] v]|].
  2:{ exists h1, ns1. split; [done|]. split; [done|]. split; [done|]. intros j Hj. by destruct (Hres j). }
  cbn [Nat.add] in Hres. destruct Hres as (-> & -> & Hk2 & Hfr & Hb).
  assert (lzf_deep k ns1) as D1 by (intros j Hj; destruct (Hfr j Hj); unfold deep; rewrite Hn1; fold n; lia).
  assert (exists h2 ns2, (if negb b then quicklistCompressNode h1 y else Ok h1) = Ok h2 /\ lay h2 ns2 F /\ sims ns1 ns2 /\ lzf_deep k ns2) as (h2 & ns2 & -> & Hl2 & S2 & D2).
  { destruct b; cbn [negb]; [exists h1, ns1; split_and!; try done; apply sims_refl|]. destruct y as [x|]; [|exists h1, ns1; split_and!; try done; apply sims_refl].
    destruct Hy as [i Hi]. pose proof Hi as Hi'. unfold loc_at in Hi'. destruct (ns !! i) as [c|] eqn:Ec; [|done]. pose proof (lookup_lt_Some _ _ _ Ec).
    destruct (Hb eq_refl) as [_ Hb2]. destruct (Hb2 i Hi ltac:(lia) ltac:(unfold n; lia)). apply (freeze_deep h1 ns1 F k i x); try done; [by rewrite (sims_loc_at _ _ _ S1)|].
    unfold deep. rewrite Hn1. fold n. lia. }
  cbn [mbind res_bind]. pose proof (sims_trans _ _ _ S1 S2) as S12. pose proof (sims_goods _ _ S2 Hg1) as Hg2. pose proof (sims_length _ _ S12) as Hn2.
  destruct (loc_at_some ns k ltac:(unfold n in *; lia)) as [f Ef]. destruct (loc_at_some ns (n - 1 - k) ltac:(unfold n in *; lia)) as [v Ev]. rewrite Ef, Ev.
  destruct (freeze_deep h2 ns2 F k k f Hl2 Hg2) as (h3 & ns3 & -> & Hl3 & S3 & D3); [by rewrite (sims_loc_at _ _ _ S12)|unfold deep; rewrite Hn2; fold n; lia|done|].
  cbn [mbind res_bind]. pose proof (sims_trans _ _ _ S12 S3) as S123. pose proof (sims_length _ _ S123) as Hn3.
  destruct (freeze_deep h3 ns3 F k (n - 1 - k) v Hl3 (sims_goods _ _ S3 Hg2)) as (h4 & ns4 & -> & Hl4 & S4 & D4); [by rewrite (sims_loc_at _ _ _ S123)|unfold deep; rewrite Hn3; fold n; lia|done|].
  exists h4, ns4. split; [done|]. split; [done|]. split; [by eapply sims_trans|done].
Qed.

End contents.
End QuicklistNode.
