(* ===== verification/QuicklistLink.v ===== *)
(** * Quicklists: linking, unlinking and the compress depth

    What the operations on whole nodes do to the list of nodes: inserting,
    deleting, and encoding them again.  [settled] is what holds of the nodes
    between the steps: nothing is compressed, or waiting to be compressed again,
    within the compress depth.  It implies the assertions of the code. *)

From S2P Require Import Prelude Lzf LzfSpec Dll Quicklist QuicklistNode.
From stdpp Require Import list gmap fin_maps.
#[local] Open Scope Z_scope.

Module QuicklistLink.
Import Dll Quicklist QuicklistNode.

#[local] Abbreviation nodes := (list (loc * qnode)).

(** ** Links and the rest of the heap *)

Lemma aim_first_union p (B : nodes) (H F : heap) : (forall x, first_of B = Some x -> is_Some (H !! x)) -> aim_first p B (H ∪ F) = aim_first p B H ∪ F.
Proof.
  intros HB. unfold aim_first. destruct (first_of B) as [x|]; [|done]. destruct (HB x eq_refl) as [n Hn]. apply map_eq. intros y.
  destruct (decide (y = x)) as [->|Hy].
  - rewrite lookup_alter_eq, (lookup_union_Some_l _ _ _ _ Hn). cbn. symmetry. apply lookup_union_Some_l. by rewrite lookup_alter_eq, Hn.
  - rewrite lookup_alter_ne by done. rewrite !lookup_union, lookup_alter_ne by done. done.
Qed.

Lemma aim_last_union p (A : nodes) (H F : heap) : (forall x, last_of A = Some x -> is_Some (H !! x)) -> aim_last p A (H ∪ F) = aim_last p A H ∪ F.
Proof.
  intros HA. unfold aim_last. destruct (last_of A) as [x|]; [|done]. destruct (HA x eq_refl) as [n Hn]. apply map_eq. intros y.
  destruct (decide (y = x)) as [->|Hy].
  - rewrite lookup_alter_eq, (lookup_union_Some_l _ _ _ _ Hn). cbn. symmetry. apply lookup_union_Some_l. by rewrite lookup_alter_eq, Hn.
  - rewrite lookup_alter_ne by done. rewrite !lookup_union, lookup_alter_ne by done. done.
Qed.

Lemma aims_swap p q (A B : nodes) (h : heap) : apart A B -> aim_first p B (aim_last q A h) = aim_last q A (aim_first p B h).
Proof.
  intros Hap. unfold aim_first, aim_last. destruct (first_of B) as [x|] eqn:EB; [|done]. destruct (last_of A) as [z|] eqn:EA; [|done]. apply alter_swap.
  intros ->. destruct B as [|[x d] B]; [done|]. injection EB as ->. destruct A as [|[w e] A _] using rev_ind; [done|]. rewrite last_of_snoc in EA. injection EA as ->.
  apply (Hap z); [rewrite fmap_app; set_solver|by left].
Qed.

Lemma lay_apart h (A B : nodes) F : lay h (A ++ B) F -> apart A B.
Proof. intros (H & [(_ & _ & Hap & _)%chain_app _] & _). done. Qed.

(** A free node linked between [A] and [B]. *)
Lemma lay_link h (A B : nodes) F y d n : lay h (A ++ B) F -> F !! y = Some n -> lay (link A y d B h) (A ++ (y, d) :: B) (delete y F).
Proof.
  intros (H & Hw & Hdis & ->) Hy. pose proof Hw as [Hc Hd].
  assert (H !! y = None) as HH by (rewrite map_disjoint_alt in Hdis; destruct (Hdis y); congruence).
  exists (link A y d B H). split; [apply whole_link; [done|by apply not_elem_of_dom]|]. split.
  - apply map_disjoint_dom. rewrite link_dom, dom_delete. apply map_disjoint_dom in Hdis. set_solver.
  - unfold link. set (n' := {| prev := _; next := _; dat := _ |}).
    assert (<[y := n']> (H ∪ F) = <[y := n']> H ∪ delete y F) as ->.
    { apply map_eq. intros z. destruct (decide (z = y)) as [->|Hz].
      - rewrite lookup_insert_eq. symmetry. apply lookup_union_Some_l, lookup_insert_eq.
      - by rewrite lookup_insert_ne, !lookup_union, lookup_insert_ne, lookup_delete_ne. }
    assert (forall x, is_Some (H !! x) -> is_Some (<[y := n']> H !! x)) as Hin by (intros x Hx; rewrite lookup_insert_is_Some'; by right).
    rewrite aim_last_union by (intros x Hx; apply Hin; by apply (last_in H A B)). rewrite aim_first_union; [done|].
    intros x Hx. apply aim_last_some, Hin. by apply (first_in H A B).
Qed.

(** A node taken out of the list, which keeps its old links. *)
Lemma lay_unlink h (A B : nodes) F x d : lay h (A ++ (x, d) :: B) F ->
  lay (join A B h) (A ++ B) (<[x := {| prev := last_of A; next := first_of B; dat := d |}]> F).
Proof.
  intros (H & Hw & Hdis & ->). pose proof Hw as [Hc Hd]. set (n := {| prev := _; next := _; dat := _ |}).
  pose proof (chain_lookup _ _ _ _ _ Hc : H !! x = Some n) as Hx. pose proof (nodup_mid _ _ _ _ (proj1 Hc)) as Hnx.
  assert (F !! x = None) as HF by (rewrite map_disjoint_alt in Hdis; destruct (Hdis x); congruence).
  exists (delete x (join A B H)). split; [by eapply whole_drop|]. split.
  - apply map_disjoint_dom. rewrite dom_delete, join_dom, dom_insert. apply map_disjoint_dom in Hdis. set_solver.
  - assert (join A B (H ∪ F) = join A B H ∪ F) as ->.
    { unfold join. rewrite aim_last_union by (intros y Hy; by apply (last_in H A ((x, d) :: B))). rewrite aim_first_union; [done|].
      intros y Hy. apply aim_last_some. apply (first_in H (A ++ [(x, d)]) B); [by rewrite <- app_assoc|done]. }
    assert (join A B H !! x = Some n) as Hj by (by rewrite join_other). rewrite <- insert_union_r by apply lookup_delete_eq. rewrite insert_union_l.
    f_equal. by rewrite insert_delete_eq, insert_id.
Qed.

Lemma lay_release h ns F x n : lay h ns (<[x := n]> F) -> F !! x = None -> exists h', release h x = Ok h' /\ lay h' ns F.
Proof.
  intros Hl HF. pose proof (lay_free_lookup _ _ _ x n Hl (lookup_insert_eq _ _ _)) as Hx. destruct Hl as (H & Hw & Hdis & ->).
  rewrite (release_ok _ _ _ Hx). eexists. split; [done|]. exists H. split; [done|].
  apply map_disjoint_insert_r in Hdis as [HH Hdis]. split; [done|]. rewrite delete_union, delete_insert_id by done. by rewrite delete_id.
Qed.

Section link.
Context `{Allocator} `{Environment} (Hhtab : LzfSpec.valid_htab htab).

(** ** Settled nodes *)

Record settled (ql : quicklist) (ns : nodes) : Prop := {
  settled_goods : goods ns;
  settled_lzf : lzf_deep (depth ql) ns;
  settled_rec : rec_deep (depth ql) ns
}.

Definition calm (ns : nodes) : Prop := forall i, ~ pending ns i.

Lemma calm_rec k ns : calm ns -> rec_deep k ns.
Proof. intros Hc i Hi. by destruct (Hc i). Qed.

Lemma rec_sims k ns ns' : sims ns ns' -> rec_deep k ns -> rec_deep k ns'.
Proof. intros S Hr i Hp. rewrite (sims_length _ _ S). apply Hr. by eapply sims_pending. Qed.

Lemma calm_sims ns ns' : sims ns ns' -> calm ns -> calm ns'.
Proof. intros S Hc i Hp. apply (Hc i). by eapply sims_pending. Qed.

(** [quicklistCompress] and [quicklistRecompressOnly] on a node of the list. *)
Lemma recompress_spec h ns F ql i x d : lay h ns F -> settled ql ns -> ns !! i = Some (x, d) -> recompress d = true ->
  exists h' ns', quicklistCompressNode h (Some x) = Ok h' /\ lay h' ns' F /\ sims ns ns' /\ settled ql ns' /\ (dont_compress d = false -> ~ pending ns' i).
Proof.
  intros Hl [Hg Hz Hr] Hi Hd. assert (deep (depth ql) (length ns) i) as (Hk & H1 & H2) by (apply Hr; by exists (x, d)).
  destruct (freeze_spec Hhtab h ns F i x d Hl Hg Hi) as (h' & ns' & E & Hl' & S & Hf & Hp); [right; lia|]. exists h', ns'. split_and!; try done.
  split; [by eapply sims_goods| |by eapply rec_sims]. intros j Hj. rewrite (sims_length _ _ S). destruct (Hf j Hj) as [Hj'| ->]; [by apply Hz|done].
Qed.

Lemma quicklistCompress_spec h ns F ql i x d : lay h ns F -> ends ql ns -> settled ql ns -> ns !! i = Some (x, d) ->
  exists h' ns', quicklistCompress h ql x = Ok h' /\ lay h' ns' F /\ sims ns ns' /\ settled ql ns' /\ (dont_compress d = false -> ~ pending ns' i).
Proof.
  intros Hl He Hst Hi. unfold quicklistCompress. rewrite (lay_node _ _ _ _ _ _ Hl Hi). cbn [mbind res_bind]. destruct (recompress d) eqn:Hd; [by eapply recompress_spec|].
  destruct Hst as [Hg Hz Hr]. destruct (compress_spec Hhtab h ns F ql (Some x) Hl Hg He Hr) as (h' & ns' & E & Hl' & S & Hz'); [exists i; unfold loc_at; by rewrite Hi|].
  exists h', ns'. split_and!; try done.
  - split; [by eapply sims_goods| |by eapply rec_sims]. destruct (decide _); [by subst|done].
  - intros _ Hp. apply (sims_pending _ _ _ S) in Hp as (c & Hc & Hp). rewrite Hi in Hc. injection Hc as <-. cbn in Hp. congruence.
Qed.

Lemma quicklistRecompressOnly_spec h ns F ql i x d : lay h ns F -> settled ql ns -> ns !! i = Some (x, d) ->
  exists h' ns', quicklistRecompressOnly h x = Ok h' /\ lay h' ns' F /\ sims ns ns' /\ settled ql ns' /\ (dont_compress d = false -> ~ pending ns' i).
Proof.
  intros Hl Hst Hi. unfold quicklistRecompressOnly. rewrite (lay_node _ _ _ _ _ _ Hl Hi). cbn [mbind res_bind]. destruct (recompress d) eqn:Hd; [by eapply recompress_spec|].
  exists h, ns. split_and!; try done; [apply sims_refl|]. intros _ (c & Hc & Hp). rewrite Hi in Hc. injection Hc as <-. cbn in Hp. congruence.
Qed.

(** ** Inserting a node *)

Lemma pending_insert (A B : nodes) c i : recompress c.2 = false -> pending (A ++ c :: B) i ->
  exists j, pending (A ++ B) j /\ (i = j \/ i = S j)%nat /\ loc_at (A ++ B) j = loc_at (A ++ c :: B) i.
Proof.
  unfold loc_at. intros Hc (c' & Hi & Hp). rewrite Hi. destruct (decide (i < length A)%nat) as [Hlt|Hge].
  - exists i. rewrite lookup_app_l in Hi by done. split; [exists c'; by rewrite lookup_app_l|]. split; [lia|]. by rewrite lookup_app_l, Hi.
  - rewrite lookup_app_r in Hi by lia. destruct (i - length A)%nat as [|j] eqn:E; [injection Hi as ->; congruence|].
    exists (length A + j)%nat. rewrite lookup_app_r by lia. replace (length A + j - length A)%nat with j by lia. change (B !! j = Some c') in Hi. rewrite Hi.
    split; [exists c'; rewrite lookup_app_r by lia; replace (length A + j - length A)%nat with j by lia; done|]. split; [lia|done].
Qed.

Lemma frozen_insert (A B : nodes) c i : is_lzf c.2 = false -> frozen (A ++ c :: B) i -> exists j, frozen (A ++ B) j /\ (i = j \/ i = S j)%nat.
Proof.
  intros Hc (c' & Hi & Hp). destruct (decide (i < length A)%nat) as [Hlt|Hge].
  - exists i. rewrite lookup_app_l in Hi by done. split; [exists c'; by rewrite lookup_app_l|lia].
  - rewrite lookup_app_r in Hi by lia. destruct (i - length A)%nat as [|j] eqn:E; [injection Hi as ->; congruence|].
    exists (length A + j)%nat. split; [exists c'; rewrite lookup_app_r by lia; replace (length A + j - length A)%nat with j by lia; done|lia].
Qed.

Lemma settled_insert ql (A B : nodes) y d r : settled ql (A ++ B) -> raw_ok d r -> is_lzf d = false -> recompress d = false -> settled ql (A ++ (y, d) :: B).
Proof.
  intros [Hg Hz Hr] Hd Hl Hp. split.
  - apply Forall_app in Hg as [HA HB]. apply Forall_app. split; [done|]. constructor; [by exists r|done].
  - intros i Hi. destruct (frozen_insert A B (y, d) i Hl Hi) as (j & Hj & Hij). apply Hz in Hj. unfold deep in *. rewrite length_app in *. cbn [length] in *. lia.
  - intros i Hi. destruct (pending_insert A B (y, d) i Hp Hi) as (j & Hj & Hij & _). apply Hr in Hj. unfold deep in *. rewrite length_app in *. cbn [length] in *. lia.
Qed.

(** The writes of [__quicklistInsertNode]. *)
Definition link_writes (h : heap) (old_node : option loc) (y : loc) (after : bool) : res heap :=
  if after then
    h ← set_prev h y old_node;
    match old_node with
    | None => Ok h
    | Some o => no ← get h o; h ← set_next h y (next no); h ← set_prev_of h (next no) (Some y); set_next h o (Some y)
    end
  else
    h ← set_next h y old_node;
    match old_node with
    | None => Ok h
    | Some o => no ← get h o; h ← set_prev h y (prev no); h ← set_next_of h (prev no) (Some y); set_prev h o (Some y)
    end.

Definition beside (A B : nodes) (after : bool) : Prop := if after then A = [] -> B = [] else B = [] -> A = [].

Lemma alter_some (f : dnode qnode -> dnode qnode) (h : heap) x n : h !! x = Some n -> alter f x h = <[x := f n]> h.
Proof. intros Hx. apply map_eq. intros z. destruct (decide (z = x)) as [->|Hz]; [by rewrite lookup_alter_eq, lookup_insert_eq, Hx|by rewrite lookup_alter_ne, lookup_insert_ne]. Qed.

Lemma link_writes_spec h (A B : nodes) F y d (after : bool) : lay h (A ++ B) F -> F !! y = Some {| prev := None; next := None; dat := d |} -> beside A B after ->
  exists h', link_writes h (if after then last_of A else first_of B) y after = Ok h' /\ lay h' (A ++ (y, d) :: B) (delete y F).
Proof.
  intros Hl Hy Hb. pose proof (lay_link h A B F y d _ Hl Hy) as Hl'. pose proof (lay_free_lookup _ _ _ _ _ Hl Hy) as Hhy. pose proof (lay_apart _ _ _ _ Hl) as Hap.
  pose proof Hl as (M & [Hc _] & Hdis & Hh). exists (link A y d B h). split; [|done]. unfold link_writes, set_prev, set_next.
  assert (forall x, is_Some (M !! x) -> is_Some (h !! x) /\ x <> y) as Hin.
  { intros x [n Hx]. split; [exists n; rewrite Hh; by apply lookup_union_Some_l|]. intros ->. rewrite map_disjoint_alt in Hdis. destruct (Hdis y); congruence. }
  destruct after; cbn [beside] in Hb.
  - rewrite (modify_ok _ _ _ _ Hhy). cbn [mbind res_bind]. destruct A as [|[o e] A _] using rev_ind.
    { rewrite Hb by done. unfold link. cbn [last_of first_of aim_first aim_last last head fmap option_fmap option_map]. f_equal. by rewrite (alter_some _ _ _ _ Hhy). }
    rewrite last_of_snoc. rewrite <- app_assoc in Hl, Hc. destruct (Hin o) as [_ Hoy]; [rewrite (chain_lookup _ _ _ _ _ Hc); eauto|].
    assert (h !! o = Some {| prev := last_of A; next := first_of B; dat := e |}) as Ho by (rewrite Hh; apply lookup_union_Some_l; by apply chain_lookup).
    unfold get. rewrite lookup_alter_ne, Ho by done. cbn [mbind res_bind next].
    erewrite modify_ok by (by rewrite lookup_alter_eq, Hhy). cbn [mbind res_bind]. set (h1 := alter _ y (alter _ y h)).
    assert (h1 = <[y := {| prev := Some o; next := first_of B; dat := d |}]> h) as Eh1.
    { unfold h1. erewrite (alter_some _ (alter _ y h)) by (by rewrite lookup_alter_eq, Hhy). rewrite (alter_some _ _ _ _ Hhy). by rewrite insert_insert_eq. }
    rewrite set_prev_of_ok.
    2:{ intros x Hx. rewrite Eh1, lookup_insert_is_Some'. right. apply Hin. apply (first_in M ((A ++ [(o, e)])) B); [by rewrite <- app_assoc|done]. }
    cbn [mbind res_bind]. unfold link. rewrite last_of_snoc, <- Eh1, aims_swap by done. unfold aim_last. rewrite last_of_snoc.
    assert (aim_first (Some y) B h1 !! o = h1 !! o) as Eo by (apply aim_first_other; apply Hap; rewrite fmap_app; set_solver).
    eapply modify_ok. rewrite Eo, Eh1, lookup_insert_ne by done. exact Ho.
  - rewrite (modify_ok _ _ _ _ Hhy). cbn [mbind res_bind]. destruct B as [|[o e] B].
    { rewrite Hb by done. unfold link. cbn [last_of first_of aim_first aim_last last head fmap option_fmap option_map]. f_equal. by rewrite (alter_some _ _ _ _ Hhy). }
    cbn [first_of head fmap option_fmap option_map fst]. destruct (Hin o) as [_ Hoy]; [rewrite (chain_lookup _ _ _ _ _ Hc); eauto|].
    assert (h !! o = Some {| prev := last_of A; next := first_of B; dat := e |}) as Ho by (rewrite Hh; apply lookup_union_Some_l; by apply chain_lookup).
    unfold get. rewrite lookup_alter_ne, Ho by done. cbn [mbind res_bind prev].
    erewrite modify_ok by (by rewrite lookup_alter_eq, Hhy). cbn [mbind res_bind]. set (h1 := alter _ y (alter _ y h)).
    assert (h1 = <[y := {| prev := last_of A; next := Some o; dat := d |}]> h) as Eh1.
    { unfold h1. erewrite (alter_some _ (alter _ y h)) by (by rewrite lookup_alter_eq, Hhy). rewrite (alter_some _ _ _ _ Hhy). by rewrite insert_insert_eq. }
    rewrite set_next_of_ok.
    2:{ intros x Hx. rewrite Eh1, lookup_insert_is_Some'. right. apply Hin. by apply (last_in M A ((o, e) :: B)). }
    cbn [mbind res_bind]. unfold link. cbn [first_of head fmap option_fmap option_map fst]. rewrite <- Eh1. unfold aim_first at 1. cbn [first_of head fmap option_fmap option_map fst].
    assert (aim_last (Some y) A h1 !! o = h1 !! o) as Eo by (apply aim_last_other; intros Hin'; apply (Hap o Hin'); by left).
    eapply modify_ok. rewrite Eo, Eh1, lookup_insert_ne by done. exact Ho.
Qed.

Lemma ends_first ql ns : ends ql ns -> head_ ql = first_of ns.
Proof. intros He. rewrite (ends_head _ _ He). by rewrite <- (first_of_drop ns 0). Qed.

Lemma ends_last ql ns : ends ql ns -> tail_ ql = last_of ns.
Proof. intros He. rewrite (ends_tail _ _ He), <- last_of_take by done. by rewrite firstn_all. Qed.

Lemma ends_of ql ns : head_ ql = first_of ns -> tail_ ql = last_of ns -> len ql = zlen ns -> zlen ns < 2 ^ 62 -> 0 <= compress ql -> ends ql ns.
Proof. intros Hh Ht. split; try done; [by rewrite Hh, <- (first_of_drop ns 0)|by rewrite Ht, <- last_of_take, firstn_all]. Qed.

(** What the operations on nodes leave alone. *)
Definition same_options (ql ql' : quicklist) : Prop := fill ql' = fill ql /\ compress ql' = compress ql.

Lemma settled_options ql ql' ns : same_options ql ql' -> settled ql ns -> settled ql' ns.
Proof. intros [_ Hc] [Hg Hz Hr]. unfold depth in *. split; [done|unfold depth; by rewrite Hc..]. Qed.

Definition linked_ends (ql : quicklist) (old_node : option loc) (y : loc) (after : bool) : quicklist :=
  let ql := if after then if bool_decide (tail_ ql = old_node) then with_ends ql (head_ ql) (Some y) else ql
            else if bool_decide (head_ ql = old_node) then with_ends ql (Some y) (tail_ ql) else ql in
  let ql := if len ql =? 0 then with_ends ql (Some y) (Some y) else ql in
  with_len ql (len ql + 1).

Lemma ends_insert ql (A B : nodes) y d (after : bool) : ends ql (A ++ B) -> NoDup (A ++ B).*1 -> zlen (A ++ B) + 1 < 2 ^ 62 -> beside A B after ->
  let ql' := linked_ends ql (if after then last_of A else first_of B) y after in
  ends ql' (A ++ (y, d) :: B) /\ same_options ql ql' /\ total ql' = total ql.
Proof.
  intros He Hnd Hroom Hb. pose proof (ends_first _ _ He) as Hh. pose proof (ends_last _ _ He) as Ht. destruct He as [_ _ Hl _ Hk]. pose proof (zlen_nonneg (A ++ B)).
  assert (zlen (A ++ (y, d) :: B) = zlen (A ++ B) + 1) as Hlen by (rewrite !zlen_app, zlen_cons; lia).
  assert (u64 (zlen (A ++ B) + 1) = zlen (A ++ B) + 1) as Hu by (apply wrapu_small; lia).
  destruct (decide (A ++ B = [])) as [[-> ->]%app_nil|Hne].
  { unfold linked_ends. cbn [app] in *. destruct after; rewrite ?Hh, ?Ht; rewrite bool_decide_eq_true_2 by done; cbn [len with_ends]; rewrite Hl; cbn [Z.eqb zlen length Z.of_nat];
      (split; [apply ends_of; try done; change (zlen (@nil (loc * qnode)) =? 0) with true; cbn [len with_len with_ends]; by rewrite Hl|done]). }
  assert (0 < zlen (A ++ B)) as Hpos by (destruct (A ++ B); [done|]; rewrite zlen_cons; pose proof (zlen_nonneg l); lia).
  unfold linked_ends. destruct after; cbn [beside] in Hb.
  - assert (A <> []) as HA by (intros ->; by rewrite Hb in Hne). rewrite Ht. destruct (bool_decide (last_of (A ++ B) = last_of A)) eqn:E; cbn [len with_ends]; rewrite Hl, (proj2 (Z.eqb_neq _ _)) by lia;
      (split; [|done]); apply ends_of; cbn [head_ tail_ with_len with_ends len]; rewrite ?Hl, ?Hu, ?Hlen; try done; try lia.
    + rewrite Hh, !first_of_app. by destruct A.
    + apply bool_decide_eq_true_1 in E. destruct B as [|[z e] B _] using rev_ind; [by rewrite last_of_snoc|]. exfalso. rewrite app_assoc, last_of_snoc in E.
      rewrite app_assoc, fmap_app in Hnd. apply list.NoDup_app in Hnd as (_ & Hnd & _). apply (Hnd z); [|by left].
      destruct A as [|[w e'] A _] using rev_ind; [done|]. rewrite last_of_snoc in E. injection E as ->. rewrite !fmap_app. set_solver.
    + rewrite Hh, !first_of_app. by destruct A.
    + rewrite Ht, !last_of_app, last_of_cons. apply bool_decide_eq_false_1 in E. rewrite last_of_app in E. by destruct (last_of B).
  - assert (B <> []) as HB by (intros ->; by rewrite Hb in Hne). rewrite Hh. destruct (bool_decide (first_of (A ++ B) = first_of B)) eqn:E; cbn [len with_ends]; rewrite Hl, (proj2 (Z.eqb_neq _ _)) by lia;
      (split; [|done]); apply ends_of; cbn [head_ tail_ with_len with_ends len]; rewrite ?Hl, ?Hu, ?Hlen; try done; try lia.
    + apply bool_decide_eq_true_1 in E. destruct A as [|[z e] A]; [done|]. exfalso. cbn in E, Hnd. apply list.NoDup_cons in Hnd as [Hz _].
      destruct B as [|[w e'] B]; [done|]. injection E as ->. apply Hz. rewrite fmap_app. set_solver.
    + rewrite Ht, !last_of_app, last_of_cons. destruct B as [|[w e] B _] using rev_ind; [done|]. by rewrite last_of_snoc.
    + rewrite Hh, !first_of_app. apply bool_decide_eq_false_1 in E. rewrite first_of_app in E. by destruct (first_of A).
    + rewrite Ht, !last_of_app, last_of_cons. destruct B as [|[w e] B _] using rev_ind; [done|]. by rewrite last_of_snoc.
Qed.

Lemma insertNode_unfold h h1 ql old y after : link_writes h old y after = Ok h1 ->
  __quicklistInsertNode h ql old y after =
    (let ql := linked_ends ql old y after in
     h ← match old with None => Ok h1 | Some o => quicklistCompress h1 ql o end; h ← quicklistCompress h ql y; Ok (h, ql)).
Proof.
  intros E. unfold __quicklistInsertNode, link_writes, linked_ends in *. destruct after.
  - destruct (set_prev h y old) as [h0|]; cbn [mbind res_bind] in *; [|done]. by rewrite E.
  - destruct (set_next h y old) as [h0|]; cbn [mbind res_bind] in *; [|done]. by rewrite E.
Qed.

(** The index of [old_node] after the insertion. *)
Definition old_index (A : nodes) (after : bool) : nat := if after then pred (length A) else S (length A).

Lemma old_at (A B : nodes) c o (after : bool) : (if after then last_of A else first_of B) = Some o -> exists d, (A ++ c :: B) !! old_index A after = Some (o, d).
Proof.
  destruct after; cbn [old_index].
  - destruct A as [|[z e] A _] using rev_ind; [done|]. rewrite last_of_snoc. intros [= ->]. exists e. rewrite length_app, lookup_app_l by (rewrite length_app; cbn; lia).
    rewrite lookup_app_r by (cbn; lia). cbn [length]. by replace (pred (length A + 1) - length A)%nat with 0%nat by lia.
  - destruct B as [|[z e] B]; [done|]. intros [= ->]. exists e. rewrite lookup_app_r by lia. by replace (S (length A) - length A)%nat with 1%nat by lia.
Qed.

Lemma qinsertNode_spec h (A B : nodes) F ql y d r (after : bool) : lay h (A ++ B) F -> F !! y = Some {| prev := None; next := None; dat := d |} -> beside A B after ->
  ends ql (A ++ B) -> zlen (A ++ B) + 1 < 2 ^ 62 -> settled ql (A ++ B) -> raw_ok d r -> is_lzf d = false -> recompress d = false ->
  exists h' ql' ns', __quicklistInsertNode h ql (if after then last_of A else first_of B) y after = Ok (h', ql') /\ lay h' ns' (delete y F) /\
    sims (A ++ (y, d) :: B) ns' /\ ends ql' ns' /\ settled ql' ns' /\ same_options ql ql' /\ total ql' = total ql /\
    (forall o, (A ++ (y, d) :: B) !! old_index A after = Some o -> dont_compress o.2 = false -> ~ pending ns' (old_index A after)).
Proof.
  intros Hl Hy Hb He Hroom Hst Hd Hz Hp. destruct (link_writes_spec h A B F y d after Hl Hy Hb) as (h1 & Ew & Hl1). rewrite (insertNode_unfold _ _ _ _ _ _ Ew). cbv zeta.
  destruct (ends_insert ql A B y d after He (lay_nodup _ _ _ Hl) Hroom Hb) as (He1 & Ho1 & Ht1). cbv zeta in He1, Ho1, Ht1. set (ql1 := linked_ends _ _ _ _) in *.
  pose proof (settled_options _ _ _ Ho1 (settled_insert ql A B y d r Hst Hd Hz Hp)) as Hst1. set (ns1 := A ++ (y, d) :: B) in *.
  assert (ns1 !! length A = Some (y, d)) as Hny by (unfold ns1; rewrite lookup_app_r by lia; by rewrite Nat.sub_diag).
  assert (exists h2 ns2, match (if after then last_of A else first_of B) with None => Ok h1 | Some o => quicklistCompress h1 ql1 o end = Ok h2 /\ lay h2 ns2 (delete y F) /\ sims ns1 ns2 /\ settled ql1 ns2 /\
    (forall o, ns1 !! old_index A after = Some o -> dont_compress o.2 = false -> ~ pending ns2 (old_index A after))) as (h2 & ns2 & -> & Hl2 & S2 & Hst2 & Hc2).
  { destruct (if after then last_of A else first_of B) as [o|] eqn:Eo.
    - destruct (old_at A B (y, d) o after Eo) as [e Hi]. fold ns1 in Hi. destruct (quicklistCompress_spec h1 ns1 _ ql1 _ o e Hl1 He1 Hst1 Hi) as (h2 & ns2 & -> & Hl2 & S2 & Hst2 & Hc2).
      exists h2, ns2. split_and!; try done. intros o' Ho'. rewrite Hi in Ho'. injection Ho' as <-. exact Hc2.
    - exists h1, ns1. split_and!; try done; [apply sims_refl|]. intros [o e] Hi _ (c & Hc & Hpc). destruct after; cbn [old_index] in *.
      + destruct A as [|[z e'] A _] using rev_ind; [|by rewrite last_of_snoc in Eo]. unfold ns1 in Hi, Hc. cbn in Hi, Hc. rewrite Hc in Hi. injection Hi as ->. injection Hc as <- <-. cbn in Hpc. congruence.
      + destruct B as [|[z e'] B]; [|done]. unfold ns1 in Hi. rewrite lookup_ge_None_2 in Hi; [done|]. rewrite length_app. cbn. lia. }
  cbn [mbind res_bind]. destruct (sims_lookup _ _ _ _ _ S2 Hny) as (d2 & Hny2 & Sd2).
  destruct (quicklistCompress_spec h2 ns2 _ ql1 _ y d2 Hl2 (ends_sims _ _ _ He1 S2) Hst2 Hny2) as (h3 & ns3 & -> & Hl3 & S3 & Hst3 & _). cbn [mbind res_bind].
  exists h3, ql1, ns3. split_and!; try done; [by eapply sims_trans|eapply ends_sims; [exact He1|by eapply sims_trans]|].
  intros o Ho Hdc Hpe. apply (Hc2 o Ho Hdc). by eapply sims_pending.
Qed.

(** ** Deleting a node *)

Definition unlinked_ends (ql : quicklist) (x : loc) (p q : option loc) : quicklist :=
  let ql := if bool_decide (Some x = tail_ ql) then with_ends ql (head_ ql) p else ql in
  let ql := if bool_decide (Some x = head_ ql) then with_ends ql q (tail_ ql) else ql in
  with_len ql (len ql - 1).

Lemma ends_delete ql (A B : nodes) x d : ends ql (A ++ (x, d) :: B) -> NoDup (A ++ (x, d) :: B).*1 ->
  let ql' := unlinked_ends ql x (last_of A) (first_of B) in ends ql' (A ++ B) /\ same_options ql ql' /\ total ql' = total ql.
Proof.
  intros He Hnd. pose proof (ends_first _ _ He) as Hh. pose proof (ends_last _ _ He) as Ht. destruct He as [_ _ Hl Hs Hk]. pose proof (nodup_mid _ _ _ _ Hnd) as Hx. rewrite fmap_app in Hx.
  assert (zlen (A ++ (x, d) :: B) = zlen (A ++ B) + 1) as Hlen by (rewrite !zlen_app, zlen_cons; lia). pose proof (zlen_nonneg (A ++ B)).
  assert (u64 (zlen (A ++ B) + 1 - 1) = zlen (A ++ B)) as Hu by (rewrite Z.add_simpl_r; apply wrapu_small; lia).
  assert (bool_decide (Some x = tail_ ql) = match B with [] => true | _ => false end) as Et.
  { rewrite Ht. destruct B as [|[z e] B _] using rev_ind; [by rewrite last_of_snoc, bool_decide_eq_true_2|]. rewrite app_comm_cons, app_assoc, last_of_snoc.
    rewrite bool_decide_eq_false_2; [by destruct B|]. intros [= ->]. apply Hx. rewrite fmap_app. set_solver. }
  assert (bool_decide (Some x = head_ ql) = match A with [] => true | _ => false end) as Eh.
  { rewrite Hh. destruct A as [|[z e] A]; [by rewrite bool_decide_eq_true_2|]. rewrite bool_decide_eq_false_2; [done|]. intros [= ->]. apply Hx. by left. }
  unfold unlinked_ends. rewrite Et. set (ql1 := if match B with [] => true | _ => false end then _ else _).
  assert (head_ ql1 = head_ ql /\ len ql1 = len ql /\ fill ql1 = fill ql /\ compress ql1 = compress ql /\ total ql1 = total ql /\ tail_ ql1 = match B with [] => last_of A | _ => tail_ ql end) as (E1 & E2 & E3 & E4 & E5 & E6)
    by (unfold ql1; by destruct B).
  cbv zeta. rewrite E1, Eh. split; [|destruct A; (split; [split; cbn; congruence|cbn; congruence])]. apply ends_of; (destruct A as [|[z e] A]; cbn [head_ tail_ len compress with_len with_ends]; rewrite ?E1, ?E2, ?E4, ?Hl, ?Hlen; try done; try lia).
  - rewrite E6. destruct B as [|c B]; [done|]. rewrite Ht. destruct c. cbn [app]. by rewrite !last_of_cons; destruct (last_of B).
  - rewrite E6. destruct B as [|c B]; [by rewrite app_nil_r|]. rewrite Ht. destruct c. rewrite !last_of_app, !last_of_cons. by destruct (last_of B).
Qed.

Lemma frozen_delete (A B : nodes) c j : frozen (A ++ B) j -> exists i, frozen (A ++ c :: B) i /\ (i = j \/ i = S j)%nat.
Proof.
  intros (c' & Hj & Hf). destruct (decide (j < length A)%nat).
  - exists j. rewrite lookup_app_l in Hj by done. split; [exists c'; by rewrite lookup_app_l|by left].
  - exists (S j). rewrite lookup_app_r in Hj by lia. split; [exists c'; rewrite lookup_app_r by lia|by right]. by replace (S j - length A)%nat with (S (j - length A)) by lia.
Qed.

Lemma pending_delete (A B : nodes) c j : pending (A ++ B) j ->
  exists i, pending (A ++ c :: B) i /\ (i = j \/ i = S j)%nat /\ loc_at (A ++ c :: B) i = loc_at (A ++ B) j.
Proof.
  unfold loc_at. intros (c' & Hj & Hf). rewrite Hj. destruct (decide (j < length A)%nat).
  - exists j. rewrite lookup_app_l in Hj by done. split; [exists c'; by rewrite lookup_app_l|]. split; [by left|]. by rewrite lookup_app_l, Hj.
  - exists (S j). rewrite lookup_app_r in Hj by lia. assert ((A ++ c :: B) !! S j = Some c') as E.
    { rewrite lookup_app_r by lia. by replace (S j - length A)%nat with (S (j - length A)) by lia. }
    split; [by exists c'|]. split; [by right|]. by rewrite E.
Qed.

Lemma calm_delete (A B : nodes) c : calm (A ++ c :: B) -> calm (A ++ B).
Proof. intros Hc j Hj. destruct (pending_delete A B c j Hj) as (i & Hi & _). by apply (Hc i). Qed.

(** [__quicklistDelNode], where the deleted node need not have contents any
    more. *)
Lemma qdelNode_spec h (A B : nodes) F ql x d : lay h (A ++ (x, d) :: B) F -> ends ql (A ++ (x, d) :: B) ->
  goods (A ++ B) -> lzf_deep (depth ql) (A ++ (x, d) :: B) -> rec_deep (depth ql) (A ++ B) ->
  exists h' ql' ns', __quicklistDelNode h ql x = Ok (h', ql') /\ lay h' ns' F /\ sims (A ++ B) ns' /\ ends ql' ns' /\ settled ql' ns' /\
    same_options ql ql' /\ total ql' = u64 (total ql - count d).
Proof.
  intros Hl He Hg Hz Hr. set (ns := A ++ (x, d) :: B) in *. assert (ns !! length A = Some (x, d)) as Hx by (unfold ns; by rewrite lookup_app_r, Nat.sub_diag).
  pose proof (lay_apart h A ((x, d) :: B) F Hl) as Hap. destruct (lay_lookup _ _ _ _ _ _ Hl Hx) as [_ HF].
  unfold __quicklistDelNode. rewrite (lay_get _ _ _ _ _ _ Hl Hx). cbn [mbind res_bind next prev dat].
  assert (before_at ns (length A) = last_of A) as Ep.
  { rewrite <- last_of_take by (unfold ns; rewrite length_app; lia). unfold ns. by rewrite take_app_length. }
  assert (loc_at ns (S (length A)) = first_of B) as En.
  { rewrite <- first_of_drop. unfold ns. rewrite drop_app_ge by lia. by replace (S (length A) - length A)%nat with 1%nat by lia. }
  rewrite Ep, En. pose proof Hl as (M & [Hc _] & _ & Hh). assert (forall y, is_Some (M !! y) -> is_Some (h !! y)) as Hin.
  { intros y [n Hy]. exists n. rewrite Hh. by apply lookup_union_Some_l. }
  rewrite set_prev_of_ok by (intros y Hy; apply Hin, (first_in M (A ++ [(x, d)]) B); [by rewrite <- app_assoc|done]). cbn [mbind res_bind].
  rewrite set_next_of_ok.
  2:{ intros y Hy. rewrite <- elem_of_dom, aim_first_dom. apply elem_of_dom, Hin. by apply (last_in M A ((x, d) :: B)). }
  cbn [mbind res_bind]. rewrite <- aims_swap by (intros y Hy Hy'; apply (Hap y Hy); by right). fold (join A B h). pose proof (lay_unlink h A B F x d Hl) as Hl1.
  set (ql0 := move_bookmark ql x (first_of B)). assert (head_ ql0 = head_ ql /\ tail_ ql0 = tail_ ql /\ len ql0 = len ql /\ same_options ql ql0 /\ total ql0 = total ql) as (E1 & E2 & E3 & E4 & E5).
  { unfold ql0, move_bookmark. destruct (_quicklistBookmarkFindByNode ql x); [|done]. by destruct (first_of B). }
  assert (ends ql0 ns) as He0. { destruct He. split; try congruence. destruct E4 as [_ E4]. rewrite E4. done. }
  destruct (ends_delete ql0 A B x d He0 (lay_nodup _ _ _ Hl)) as (He1 & Ho1 & Ht1). cbv zeta in He1, Ho1, Ht1. unfold unlinked_ends in He1, Ho1, Ht1. cbv zeta in He1, Ho1, Ht1.
  set (ql1 := with_len _ _) in *. set (ql2 := with_total ql1 _). assert (ends ql2 (A ++ B)) as He2 by (by destruct He1).
  assert (same_options ql ql2) as Ho2 by (destruct E4 as [F1 C1], Ho1 as [F2 C2]; split; [exact (eq_trans F2 F1)|exact (eq_trans C2 C1)]). assert (depth ql2 = depth ql) as Hdep by (destruct Ho2 as [_ Ho2]; unfold depth; by rewrite Ho2).
  destruct (compress_spec Hhtab _ _ _ ql2 None Hl1 Hg He2) as (h2 & ns2 & -> & Hl2 & S2 & Hz2); [by rewrite Hdep|done|]. cbn [mbind res_bind].
  destruct (lay_release _ _ _ _ _ Hl2 HF) as (h3 & -> & Hl3). cbn [mbind res_bind]. exists h3, ql2, ns2. split_and!; try done.
  - by eapply ends_sims.
  - split; [by eapply sims_goods| |rewrite Hdep; by eapply rec_sims]. rewrite Hdep in *. destruct (decide _) as [Hshort|]; [|done]. subst ns2. intros j Hj. exfalso.
    destruct (frozen_delete A B (x, d) j Hj) as (i & Hi & _). apply Hz in Hi. unfold deep, ns in Hi. rewrite length_app in *. cbn [length] in Hi. lia.
  - change (total ql2) with (u64 (total ql1 - count d)). by rewrite Ht1, E5.
Qed.

End link.

End QuicklistLink.
