(* ===== verification/QuicklistValues.v ===== *)
(** * Quicklists: the values of nodes

    [keeps d vs]: the node [d] stands for the byte strings [vs].  The steps on
    one node at a time, computed on any heap that has it. *)

From S2P Require Import Prelude Util ListpackEnc Listpack ListpackTheory ListpackSpec Lzf LzfSpec Dll Quicklist QuicklistNode QuicklistLink.
From stdpp Require Import list gmap fin_maps.
#[local] Open Scope Z_scope.

Module QuicklistValues.
Import Dll Quicklist QuicklistNode QuicklistLink.

#[local] Abbreviation nodes := (list (loc * qnode)).
#[local] Abbreviation repr := ListpackTheory.repr.
#[local] Abbreviation lptotal := ListpackTheory.total.
#[local] Abbreviation elem := LP.elem.
#[local] Abbreviation text := LP.text.

(** ** Sizes *)

(** What a list of values may take: every value with the room for its entry. *)
Definition weight (vs : list bytes) : Z := Z.of_nat (sum_list_with (fun v => 16 + length v)%nat vs).

Lemma weight_nil : weight [] = 0.
Proof. done. Qed.

Lemma weight_cons v vs : weight (v :: vs) = 16 + zlen v + weight vs.
Proof. unfold weight, zlen. cbn. lia. Qed.

Lemma weight_app vs ws : weight (vs ++ ws) = weight vs + weight ws.
Proof. unfold weight. rewrite sum_list_with_app. lia. Qed.

Lemma weight_nonneg vs : 0 <= weight vs.
Proof. unfold weight. lia. Qed.

Lemma weight_length vs : 16 * zlen vs <= weight vs.
Proof. induction vs as [|v vs IH]; [done|]. rewrite weight_cons, zlen_cons. pose proof (zlen_nonneg v). lia. Qed.

Lemma weight_room vs : weight vs < 2 ^ 31 -> 0 <= zlen vs < 2 ^ 27.
Proof. intros Hw. pose proof (weight_length vs). pose proof (zlen_nonneg vs). lia. Qed.

Lemma entry_size e : LP.elem_ok e -> zlen (LP.entry e) <= zlen (text e) + 10.
Proof.
  intros He. rewrite ListpackTheory.zlen_entry. pose proof (LP.backlen_size_range (zlen (LP.data e))). destruct e as [v|s]; cbn [text].
  - pose proof (Util.decimal_length v He). assert (zlen (LP.data (LP.EInt v)) <= 9 /\ LP.backlen_size (zlen (LP.data (LP.EInt v))) = 1) as [? ->]; [|lia].
    destruct (LP.data_int_form v He); zlen_simpl; rewrite ?zlen_le_bytes_nat; (split; [lia|reflexivity]).
  - set (b := LP.backlen_size _) in *. rewrite LP.zlen_data_str. repeat case_match; lia.
Qed.

Lemma body_weight es : Forall LP.elem_ok es -> zlen (ListpackTheory.body es) + 6 * zlen es <= weight (text <$> es).
Proof.
  induction 1 as [|e es He _ IH]; [done|]. rewrite ListpackTheory.body_cons, zlen_app, zlen_cons. cbn [fmap list_fmap]. rewrite weight_cons.
  pose proof (entry_size e He). lia.
Qed.

Lemma total_weight es : Forall LP.elem_ok es -> lptotal es <= weight (text <$> es) + 7.
Proof. intros He. pose proof (body_weight es He). pose proof (zlen_nonneg es). rewrite ListpackTheory.total_eq. lia. Qed.

Lemma text_of_elems (vs : list bytes) : text <$> (LP.elem_of <$> vs) = vs.
Proof. induction vs as [|v vs IH]; [done|]. cbn. by rewrite LP.text_elem_of, IH. Qed.

(** ** Listpacks without slack *)

Definition packs (r : bytes) (es : list elem) : Prop := repr r es /\ zlen r = lptotal es.

Lemma repr_split lp es : repr lp es -> exists r s, lp = r ++ s /\ packs r es /\ wf_bytes r.
Proof.
  intros (num & slack & -> & Hn & Hok & Ht). exists (ListpackTheory.lpenc num es []), slack. split; [unfold ListpackTheory.lpenc; by rewrite <- !app_assoc|].
  split; [split; [by exists num, []|]|].
  - rewrite ListpackTheory.zlen_lpenc. rewrite zlen_nil. lia.
  - unfold ListpackTheory.lpenc, ListpackTheory.hdr. unfold wf_bytes. rewrite !Forall_app. split; [split; apply wf_le_bytes|]. split; [|by repeat constructor].
    apply Forall_concat, Forall_fmap. eapply Forall_impl; [done|]. intros e He. cbn. unfold LP.entry. apply Forall_app. split; [by apply LP.wf_data|apply LP.wf_backlen].
Qed.

Lemma repr_slack r s es : repr r es -> repr (r ++ s) es.
Proof.
  intros (num & slack & -> & Hn & Hok & Ht). exists num, (slack ++ s). split; [|done]. unfold ListpackTheory.lpenc. by rewrite <- !app_assoc.
Qed.

Lemma repr_ok lp es : repr lp es -> Forall LP.elem_ok es.
Proof. by intros (num & slack & _ & _ & Hok & _). Qed.

Lemma lpBytes_spec lp es : repr lp es -> Listpack.lpBytes lp = Ok (lptotal es).
Proof. intros (num & slack & -> & _ & _ & Ht). unfold Listpack.lpBytes. by apply ListpackTheory.bytes_spec. Qed.

(** ** The values of a node *)

Section values.
Context `{Allocator} `{Environment} (Hhtab : LzfSpec.valid_htab htab).

Definition keeps (d : qnode) (vs : list bytes) : Prop :=
  exists r, raw_ok d r /\
  match container d with
  | QUICKLIST_NODE_CONTAINER_PLAIN => vs = [r]
  | QUICKLIST_NODE_CONTAINER_PACKED => exists es, packs r es /\ vs = text <$> es /\ 0 < zlen es < 2 ^ 16
  end.

Definition holds (d : qnode) (vs : list bytes) : Prop := keeps d vs /\ count d = zlen vs /\ dont_compress d = false.

Lemma sim_keeps d d' vs : sim d d' -> keeps d vs -> keeps d' vs.
Proof. intros S (r & Hr & Hc). exists r. split; [by apply (sim_raw _ _ S)|]. by rewrite (sim_container _ _ S). Qed.

Lemma sim_holds d d' vs : sim d d' -> holds d vs -> holds d' vs.
Proof. intros S (Hk & Hc & Hd). split; [by eapply sim_keeps|]. by rewrite (sim_count _ _ S), (sim_dont _ _ S). Qed.

Lemma keeps_length d vs : keeps d vs -> 0 < zlen vs < 2 ^ 16.
Proof.
  intros (r & _ & Hc). destruct (container d); [by subst|]. destruct Hc as (es & _ & -> & Hl). by rewrite zlen_fmap.
Qed.

Lemma keeps_raw d vs : keeps d vs -> exists r, raw_ok d r.
Proof. intros (r & Hr & _). eauto. Qed.

(** An uncompressed packed node is a listpack. *)
Lemma keeps_packed d vs : keeps d vs -> is_lzf d = false -> is_plain d = false ->
  exists lp es, entry d = Buffer lp /\ repr lp es /\ vs = text <$> es /\ 0 < zlen es < 2 ^ 16 /\ sz d = lptotal es.
Proof.
  intros (r & Hr & Hc) Hz Hp. destruct (raw_bytes d r Hr Hz) as [s Hs]. unfold is_plain in Hp. apply bool_decide_eq_false_1 in Hp. destruct (container d); [done|].
  destruct Hc as (es & [Hrep Hl] & -> & Hn). exists (r ++ s), es. split; [done|]. split; [by apply repr_slack|]. split; [done|]. split; [done|]. by rewrite <- Hl, (raw_size _ _ Hr).
Qed.

Lemma keeps_plain d vs : keeps d vs -> is_lzf d = false -> is_plain d = true -> exists r s, vs = [r] /\ entry d = Buffer (r ++ s) /\ sz d = zlen r.
Proof.
  intros (r & Hr & Hc) Hz Hp. destruct (raw_bytes d r Hr Hz) as [s Hs]. unfold is_plain in Hp. apply bool_decide_eq_true_1 in Hp. rewrite Hp in Hc.
  exists r, s. by rewrite (raw_size _ _ Hr).
Qed.

(** Storing a listpack in an uncompressed packed node. *)
Definition stored (lp : bytes) (es : list elem) (d : qnode) : qnode := set_sz (lptotal es) (set_entry (Buffer lp) d).

Lemma keeps_stored lp es d : repr lp es -> is_lzf d = false -> is_plain d = false -> 0 < zlen es < 2 ^ 16 -> keeps (stored lp es d) (text <$> es).
Proof.
  intros Hr Hz Hp Hn. destruct (repr_split lp es Hr) as (r & s & -> & Hpk & Hw). exists r. split.
  - pose proof Hpk as [(num & sl & _ & _ & _ & Ht) Hl]. split; cbn [stored set_sz set_entry sz encoding entry]; [done|done|done|]. unfold is_lzf in Hz. destruct (encoding d); [by exists s|done].
  - cbn [stored set_sz set_entry container]. unfold is_plain in Hp. destruct (container d); [done|]. by exists es.
Qed.

(** Storing a value in an uncompressed plain node. *)
Lemma keeps_plain_stored v s d : wf_bytes v -> zlen v < 2 ^ 32 -> is_lzf d = false -> is_plain d = true -> keeps (set_sz (zlen v) (set_entry (Buffer (v ++ s)) d)) [v].
Proof.
  intros Hw Hl Hz Hp. exists v. split.
  - split; [done..|]. cbn [set_sz set_entry encoding entry]. unfold is_lzf in Hz. destruct (encoding d); [by exists s|done].
  - cbn [set_sz set_entry container]. unfold is_plain in Hp. by destruct (container d).
Qed.

(** ** Steps on one node *)

Definition put (h : heap) (x : loc) (n : dnode qnode) (d : qnode) : heap := <[x := with_dat d n]> h.

Lemma put_here h x n : h !! x = Some n -> h = put h x n (dat n).
Proof. intros Hx. unfold put. rewrite insert_id; [done|]. rewrite Hx. by destruct n. Qed.

Lemma qupd_put h x n d f : upd (put h x n d) x f = Ok (put h x n (f d)).
Proof. unfold upd, modify, get, put. rewrite lookup_insert_eq. cbn [mbind res_bind]. by rewrite insert_insert_eq. Qed.

Lemma node_put h x n d : node (put h x n d) x = Ok d.
Proof. unfold node, get, put. by rewrite lookup_insert_eq. Qed.

Lemma get_put h x n d : get (put h x n d) x = Ok (with_dat d n).
Proof. unfold get, put. by rewrite lookup_insert_eq. Qed.

Lemma set_entry_put h x n d e : set_entry_of (put h x n d) x e = Ok (put h x n (set_entry e d)).
Proof. apply qupd_put. Qed.

Lemma add_count_put h x n d k : add_count (put h x n d) x k = Ok (put h x n (set_count (count d + k) d)).
Proof. unfold add_count. rewrite node_put. cbn [mbind res_bind]. apply qupd_put. Qed.

Lemma update_sz_put h x n d lp es : entry d = Buffer lp -> repr lp es -> quicklistNodeUpdateSz (put h x n d) x = Ok (put h x n (set_sz (lptotal es) d)).
Proof.
  intros He Hr. unfold quicklistNodeUpdateSz, as_bytes. rewrite node_put. cbn [mbind res_bind]. rewrite He. cbn [mbind res_bind]. rewrite (lpBytes_spec lp es Hr). cbn [mbind res_bind]. apply qupd_put.
Qed.

(** A value that fits. *)
Definition fits (es : list elem) : Prop := weight (text <$> es) < 2 ^ 31.

Lemma fits_total es : Forall LP.elem_ok es -> fits es -> lptotal es < 2 ^ 31 + 7.
Proof. intros He Hf. pose proof (total_weight es He). unfold fits in Hf. lia. Qed.

Lemma prepend_fits lp es v : repr lp es -> wf_bytes v -> fits (LP.elem_of v :: es) ->
  exists lp', Listpack.lpPrepend lp v (zlen v) = Ok (Some lp') /\ repr lp' (LP.elem_of v :: es).
Proof.
  intros Hr Hw Hf. pose proof Hf as Hf'. unfold fits in Hf'. cbn [fmap list_fmap] in Hf'. rewrite weight_cons, LP.text_elem_of in Hf'. pose proof (weight_nonneg (text <$> es)).
  pose proof (ListpackTheory.prepend_spec lp es v Hr Hw ltac:(lia)) as Hs. rewrite (proj2 (Z.ltb_lt _ _)) in Hs; [done|].
  pose proof (fits_total (LP.elem_of v :: es)) as Ht. assert (Forall LP.elem_ok (LP.elem_of v :: es)) as Hok by (constructor; [apply LP.elem_of_ok; [done|lia]|by apply repr_ok in Hr]).
  specialize (Ht Hok Hf). lia.
Qed.

Lemma append_fits lp es v : repr lp es -> wf_bytes v -> fits (es ++ [LP.elem_of v]) ->
  exists lp', Listpack.lpAppend lp v (zlen v) = Ok (Some lp') /\ repr lp' (es ++ [LP.elem_of v]).
Proof.
  intros Hr Hw Hf. pose proof Hf as Hf'. unfold fits in Hf'. rewrite fmap_app, weight_app in Hf'. cbn [fmap list_fmap] in Hf'. rewrite weight_cons, LP.text_elem_of, weight_nil in Hf'. pose proof (weight_nonneg (text <$> es)).
  pose proof (ListpackTheory.append_spec lp es v Hr Hw ltac:(lia)) as Hs. rewrite (proj2 (Z.ltb_lt _ _)) in Hs; [done|].
  pose proof (fits_total (es ++ [LP.elem_of v])) as Ht. assert (Forall LP.elem_ok (es ++ [LP.elem_of v])) as Hok.
  { apply Forall_app. split; [by apply repr_ok in Hr|]. constructor; [apply LP.elem_of_ok; [done|lia]|constructor]. }
  specialize (Ht Hok Hf). lia.
Qed.

Lemma prepend_put h x n d lp es v : entry d = Buffer lp -> repr lp es -> wf_bytes v -> fits (LP.elem_of v :: es) ->
  exists lp', prepend_to (put h x n d) x v = Ok (put h x n (set_entry (Buffer lp') d)) /\ repr lp' (LP.elem_of v :: es).
Proof.
  intros He Hr Hw Hf. destruct (prepend_fits lp es v Hr Hw Hf) as (lp' & E & Hr'). exists lp'. split; [|done]. unfold prepend_to, as_bytes. rewrite node_put. cbn [mbind res_bind].
  rewrite He. cbn [mbind res_bind]. rewrite E. cbn [mbind res_bind lp_entry]. apply set_entry_put.
Qed.

Lemma append_put h x n d lp es v : entry d = Buffer lp -> repr lp es -> wf_bytes v -> fits (es ++ [LP.elem_of v]) ->
  exists lp', append_to (put h x n d) x v = Ok (put h x n (set_entry (Buffer lp') d)) /\ repr lp' (es ++ [LP.elem_of v]).
Proof.
  intros He Hr Hw Hf. destruct (append_fits lp es v Hr Hw Hf) as (lp' & E & Hr'). exists lp'. split; [|done]. unfold append_to, as_bytes. rewrite node_put. cbn [mbind res_bind].
  rewrite He. cbn [mbind res_bind]. rewrite E. cbn [mbind res_bind lp_entry]. apply set_entry_put.
Qed.

Lemma singleton_spec v : wf_bytes v -> fits [LP.elem_of v] -> exists lp, lp_singleton v = Ok (Buffer lp) /\ repr lp [LP.elem_of v].
Proof.
  intros Hw Hf. unfold lp_singleton. destruct (ListpackTheory.new_spec 0) as (lp0 & -> & Hr0). cbn [mbind res_bind].
  destruct (prepend_fits lp0 [] v Hr0 Hw Hf) as (lp & -> & Hr). cbn [mbind res_bind lp_entry]. by exists lp.
Qed.

End values.
End QuicklistValues.
