(* ===== verification/QuicklistOps.v ===== *)
(** * Quicklists: the operations on values

    [qrep P F h ql ns vss]: the list [ql] on the heap [h] has the nodes [ns] with
    the values [vss]; only the node [P] may be waiting to be compressed again.
    Every operation keeps it and changes the values as its name says. *)

From S2P Require Import Prelude Util ListpackEnc Listpack ListpackTheory ListpackSpec Lzf LzfSpec Dll Quicklist QuicklistNode QuicklistLink QuicklistValues.
From stdpp Require Import list gmap fin_maps.
#[local] Open Scope Z_scope.

Module QuicklistOps.
Import Dll Quicklist QuicklistNode QuicklistLink QuicklistValues.

#[local] Abbreviation nodes := (list (loc * qnode)).
#[local] Abbreviation repr := ListpackTheory.repr.
#[local] Abbreviation lptotal := ListpackTheory.total.
#[local] Abbreviation text := LP.text.

(** ** Limits *)

Definition fill_ok (fill : Z) : Prop := -5 <= fill < 2 ^ 15.

Lemma neg_limit fill : fill_ok fill -> fill < 0 -> exists l, quicklistNodeNegFillLimit fill = Ok l /\ 4096 <= l <= 65536.
Proof.
  unfold fill_ok. intros Hf Hn. assert (fill = -1 \/ fill = -2 \/ fill = -3 \/ fill = -4 \/ fill = -5) as [-> |[-> |[-> |[-> | ->]]]] by lia;
    (eexists; split; [reflexivity|lia]).
Qed.

Lemma exceeds_spec fill size cnt : fill_ok fill ->
  exists b, quicklistNodeExceedsLimit fill size cnt = Ok b /\ (b = false -> (fill < 0 /\ size <= 65536) \/ (0 <= fill /\ cnt < 2 ^ 15)).
Proof.
  intros Hf. unfold quicklistNodeExceedsLimit, quicklistNodeLimit. destruct (Z.leb_spec 0 fill) as [Hp|Hn].
  - cbn [mbind res_bind]. rewrite Z.eqb_refl. cbn [negb]. set (l := if fill =? 0 then 1 else fill).
    assert (l < 2 ^ 15) as Hl by (unfold l, fill_ok in *; destruct (fill =? 0); lia). assert (l <> UINT_MAX) as Hne by (change UINT_MAX with (2 ^ 32 - 1); lia).
    rewrite (proj2 (Z.eqb_neq _ _) Hne). cbn [negb]. destruct (sizeMeetsSafetyLimit size); cbn [negb]; (eexists; split; [done|]); [|done].
    intros E%Z.ltb_ge. right. lia.
  - destruct (neg_limit fill Hf Hn) as (l & -> & Hl). cbn [mbind res_bind]. assert (l <> SIZE_MAX) as Hne by (change SIZE_MAX with (2 ^ 64 - 1); lia).
    rewrite (proj2 (Z.eqb_neq _ _) Hne). cbn [negb]. eexists. split; [done|]. intros E%Z.ltb_ge. left. lia.
Qed.

Section ops.
Context `{Allocator} `{Environment} (Hhtab : LzfSpec.valid_htab htab).

Lemma large_ok size fill : fill_ok fill -> exists b, isLargeElement size fill = Ok b.
Proof.
  intros Hf. unfold isLargeElement. destruct (negb _); [eauto|]. destruct (Z.leb_spec 0 fill); [eauto|].
  destruct (neg_limit fill Hf ltac:(lia)) as (l & -> & _). cbn. eauto.
Qed.

(** An insertion that is allowed keeps the count within its 16 bits. *)
Lemma allow_insert_spec h x d vs fill size : node h x = Ok d -> keeps d vs -> count d = zlen vs -> fill_ok fill -> 0 <= size < 2 ^ 32 ->
  exists b, _quicklistNodeAllowInsert h (Some x) fill size = Ok b /\
    (b = true -> is_plain d = false /\ isLargeElement size fill = Ok false /\ zlen vs + 1 < 2 ^ 16).
Proof.
  intros Hx Hk Hc Hf Hs. unfold _quicklistNodeAllowInsert. rewrite Hx. cbn [mbind res_bind]. destruct (large_ok size fill Hf) as [large Hlg]. rewrite Hlg. cbn [mbind res_bind].
  destruct (is_plain d) eqn:Ep; cbn [orb]; [by exists false|]. destruct large; cbn [orb]; [by exists false|].
  destruct (exceeds_spec fill (u64 (sz d + size + SIZE_ESTIMATE_OVERHEAD)) (count d + 1) Hf) as (b & -> & Hb). cbn [mbind res_bind]. exists (negb b). split; [done|].
  intros Hn. split; [done|]. split; [done|]. apply negb_true_iff in Hn. specialize (Hb Hn). destruct Hb as [[_ Hb]|[_ Hb]]; [|lia].
  destruct Hk as (r & Hr & Hk). unfold is_plain in Ep. destruct (container d); [done|]. destruct Hk as (es & [Hrep Hl] & -> & _).
  pose proof (ListpackTheory.zlen_body_ge es (repr_ok _ _ Hrep)). rewrite (raw_size _ _ Hr) in Hl. rewrite ListpackTheory.total_eq in Hl. pose proof (raw_small _ _ Hr). pose proof (zlen_nonneg es).
  unfold SIZE_ESTIMATE_OVERHEAD in Hb. rewrite wrapu_small in Hb by lia. rewrite zlen_fmap. lia.
Qed.

(** ** The invariant *)

Definition rep (ns : nodes) (vss : list (list bytes)) : Prop := Forall2 (fun c vs => holds c.2 vs) ns vss.

Record qrep (P : option loc) (F : heap) (h : heap) (ql : quicklist) (ns : nodes) (vss : list (list bytes)) : Prop := {
  q_lay : lay h ns F;
  q_ends : ends ql ns;
  q_settled : settled ql ns;
  q_rep : rep ns vss;
  q_total : total ql = zlen (concat vss);
  q_weight : weight (concat vss) < 2 ^ 31;
  q_pending : forall i, pending ns i -> loc_at ns i = P;
  q_fill : fill_ok (fill ql)
}.

(** The same where the counter of the list is not up to date. *)
Definition qbody (P : option loc) (F : heap) (h : heap) (ql : quicklist) (ns : nodes) (vss : list (list bytes)) : Prop := exists t, qrep P F h (with_total ql t) ns vss.

Lemma qb_lay P F h ql ns vss : qbody P F h ql ns vss -> lay h ns F.
Proof. by intros [t []]. Qed.

Lemma qb_rep P F h ql ns vss : qbody P F h ql ns vss -> rep ns vss.
Proof. by intros [t []]. Qed.

Lemma ends_total ql t ns : ends (with_total ql t) ns <-> ends ql ns.
Proof. split; intros []; by split. Qed.

Lemma settled_total ql t ns : settled (with_total ql t) ns <-> settled ql ns.
Proof. split; intros []; by split. Qed.

Lemma qbody_counted P F h ql ns vss : qbody P F h ql ns vss -> total ql = zlen (concat vss) -> qrep P F h ql ns vss.
Proof. intros [t []] Ht. split; try done; [by eapply ends_total|by eapply settled_total]. Qed.

Lemma qbody_recount P F h ql ns vss t : qbody P F h ql ns vss -> u64 t = zlen (concat vss) -> qrep P F h (with_total ql t) ns vss.
Proof. intros [t' []] Ht. split; try done; apply ends_total || apply settled_total; by eapply ends_total || by eapply settled_total. Qed.

Lemma rep_sims ns ns' vss : sims ns ns' -> rep ns vss -> rep ns' vss.
Proof.
  intros S. revert vss. induction S as [|c c' ns ns' [_ S] _ IH]; intros vss Hr; inversion Hr; subst; [constructor|]. constructor; [by eapply sim_holds|by apply IH].
Qed.

Lemma rep_length ns vss : rep ns vss -> zlen ns <= zlen (concat vss).
Proof.
  induction 1 as [|c vs ns vss [Hk _] _ IH]; [done|]. cbn. rewrite zlen_cons, zlen_app. pose proof (keeps_length _ _ Hk). lia.
Qed.

Lemma qrep_short P F h ql ns vss : qrep P F h ql ns vss -> zlen ns < 2 ^ 27.
Proof. intros Hq. pose proof (rep_length _ _ (q_rep _ _ _ _ _ _ Hq)). pose proof (weight_length (concat vss)). pose proof (q_weight _ _ _ _ _ _ Hq). lia. Qed.

Lemma qrep_body P F h ql ns vss : qrep P F h ql ns vss -> qbody P F h ql ns vss.
Proof.
  intros Hq. exists (total ql). pose proof (weight_room _ (q_weight _ _ _ _ _ _ Hq)). destruct Hq as [? ? ? ? Ht]. split; try done; [by apply ends_total|by apply settled_total|].
  cbn [total with_total]. rewrite Ht. apply wrapu_small. lia.
Qed.

Lemma pending_sims P ns ns' : sims ns ns' -> (forall i, pending ns i -> loc_at ns i = P) -> forall i, pending ns' i -> loc_at ns' i = P.
Proof. intros S Hp i Hi. rewrite (sims_loc_at _ _ _ S). apply Hp. by eapply sims_pending. Qed.

(** The nodes at the ends are uncompressed and not waiting. *)
Lemma end_raw ql ns i x d : settled ql ns -> ns !! i = Some (x, d) -> (i = 0 \/ S i = length ns)%nat -> is_lzf d = false /\ recompress d = false.
Proof.
  intros [_ Hz Hr] Hi He. split.
  - destruct (is_lzf d) eqn:E; [|done]. destruct (Hz i ltac:(by exists (x, d))). lia.
  - destruct (recompress d) eqn:E; [|done]. destruct (Hr i ltac:(by exists (x, d))). lia.
Qed.

Lemma holds_good ns vss : rep ns vss -> goods ns.
Proof. induction 1 as [|c vs ns vss [Hk _] _ IH]; constructor; [by eapply keeps_raw|done]. Qed.

(** ** Changing a node *)

Definition at_node (A : nodes) (d : qnode) (B : nodes) : dnode qnode := {| prev := last_of A; next := first_of B; dat := d |}.

Lemma lookup_mid (A B : nodes) c : (A ++ c :: B) !! length A = Some c.
Proof. by rewrite lookup_app_r, Nat.sub_diag. Qed.

Lemma insert_mid (A B : nodes) c c' : <[length A := c']> (A ++ c :: B) = A ++ c' :: B.
Proof. rewrite insert_app_r_alt by done. by rewrite Nat.sub_diag. Qed.

Lemma lay_here h (A : nodes) x d B F : lay h (A ++ (x, d) :: B) F -> h !! x = Some (at_node A d B).
Proof.
  intros Hl. destruct (lay_lookup _ _ _ _ _ _ Hl (lookup_mid A B (x, d))) as [Hx _]. rewrite Hx. unfold at_node.
  rewrite <- last_of_take, take_app_length by (rewrite length_app; lia). rewrite <- first_of_drop, drop_app_ge by lia. by replace (S (length A) - length A)%nat with 1%nat by lia.
Qed.

Lemma lay_put h (A : nodes) x d B F d' : lay h (A ++ (x, d) :: B) F -> lay (put h x (at_node A d B) d') (A ++ (x, d') :: B) F.
Proof.
  intros Hl. pose proof (lay_here _ _ _ _ _ _ Hl) as Hx. destruct (lay_upd _ _ _ _ _ _ (fun _ => d') Hl (lookup_mid A B (x, d))) as (h' & E & Hl').
  rewrite insert_mid in Hl'. rewrite (put_here h x _ Hx) in E at 1. rewrite qupd_put in E. by injection E as <-.
Qed.

Lemma lay_put_free h ns F y n d' : lay h ns F -> F !! y = Some n -> lay (put h y n d') ns (<[y := with_dat d' n]> F).
Proof.
  intros Hl Hy. pose proof (lay_free_lookup _ _ _ _ _ Hl Hy) as Hx. destruct (lay_upd_free _ _ _ _ _ (fun _ => d') Hl Hy) as (h' & E & Hl').
  rewrite (put_here h y n Hx) in E. rewrite qupd_put in E. by injection E as <-.
Qed.

Lemma ends_locs ql ns ns' : ends ql ns -> ns'.*1 = ns.*1 -> ends ql ns'.
Proof.
  intros [Hh Ht Hl Hs Hk] E. assert (length ns' = length ns) as El by (rewrite <- (length_fmap fst ns'), E; apply length_fmap).
  assert (forall i, loc_at ns' i = loc_at ns i) as Ea by (intros i; unfold loc_at; by rewrite <- !list_lookup_fmap, E).
  split; unfold zlen in *; rewrite ?El, ?Ea; try done. rewrite Ht. unfold before_at. by destruct (length ns).
Qed.

Lemma settled_change ql (A : nodes) x d d' B r : settled ql (A ++ (x, d) :: B) -> raw_ok d' r -> (is_lzf d' = true -> is_lzf d = true) -> (recompress d' = true -> recompress d = true) ->
  settled ql (A ++ (x, d') :: B).
Proof.
  intros [Hg Hz Hr] Hd Hl Hp. assert (forall (f : qnode -> bool), (f d' = true -> f d = true) -> forall i c, (A ++ (x, d') :: B) !! i = Some c -> f c.2 = true -> exists c0, (A ++ (x, d) :: B) !! i = Some c0 /\ f c0.2 = true) as Hch.
  { intros f Hf i c Hi Hc. destruct (decide (i = length A)) as [->|Hne].
    - rewrite lookup_mid in Hi. injection Hi as <-. exists (x, d). by rewrite lookup_mid; split; [|apply Hf].
    - exists c. split; [|done]. rewrite <- (insert_mid A B (x, d) (x, d')) in Hi. by rewrite list_lookup_insert_ne in Hi by done. }
  split.
  - apply Forall_app in Hg as [HA HB]. apply Forall_app. split; [done|]. apply Forall_cons_1 in HB as [_ HB]. constructor; [by exists r|done].
  - intros i (c & Hi & Hf). replace (length (A ++ (x, d') :: B)) with (length (A ++ (x, d) :: B)) by by rewrite !length_app. apply Hz. by apply (Hch is_lzf Hl i c).
  - intros i (c & Hi & Hf). replace (length (A ++ (x, d') :: B)) with (length (A ++ (x, d) :: B)) by by rewrite !length_app. apply Hr. by apply (Hch recompress Hp i c).
Qed.

Lemma concat_mid (VA VB : list (list bytes)) vs : concat (VA ++ vs :: VB) = concat VA ++ vs ++ concat VB.
Proof. by rewrite concat_app. Qed.

(** Other values in a node. *)
Lemma qbody_set P F F' h h' ql (A : nodes) x d B VA vs VB d' vs' : qbody P F h ql (A ++ (x, d) :: B) (VA ++ vs :: VB) -> length A = length VA -> lay h' (A ++ (x, d') :: B) F' ->
  holds d' vs' -> is_lzf d' = false -> (recompress d' = true -> recompress d = true) -> weight (concat (VA ++ vs' :: VB)) < 2 ^ 31 ->
  qbody P F' h' ql (A ++ (x, d') :: B) (VA ++ vs' :: VB).
Proof.
  intros [t [Hl He Hst Hr Ht Hw Hp Hf]] HA Hl' Hd Hz Hrec Hw'. exists (zlen (concat (VA ++ vs' :: VB))). rewrite ends_total in He. rewrite settled_total in Hst. pose proof Hd as (Hk & _). destruct (keeps_raw _ _ Hk) as [r Hrw]. split; try done.
  - apply ends_total. eapply ends_locs; [done|]. by rewrite !fmap_app.
  - apply settled_total. eapply (settled_change ql A x d d' B r Hst Hrw); [by rewrite Hz|done].
  - apply Forall2_app_inv in Hr as [HrA HrB]; [|done]. inversion HrB; subst. apply Forall2_app; [done|]. by constructor.
  - pose proof (weight_room _ Hw'). apply wrapu_small. lia.
  - intros i (c & Hi & Hc). replace (loc_at (A ++ (x, d') :: B) i) with (loc_at (A ++ (x, d) :: B) i) by (unfold loc_at; rewrite <- !list_lookup_fmap; by rewrite !fmap_app).
    apply Hp. destruct (decide (i = length A)) as [->|Hne].
    + rewrite lookup_mid in Hi. injection Hi as <-. exists (x, d). rewrite lookup_mid. split; [done|]. by apply Hrec.
    + exists c. split; [|done]. rewrite <- (insert_mid A B (x, d) (x, d')) in Hi. by rewrite list_lookup_insert_ne in Hi by done.
Qed.

Lemma qrep_change P F h ql (A : nodes) x d B VA vs VB d' vs' t : qrep P F h ql (A ++ (x, d) :: B) (VA ++ vs :: VB) -> length A = length VA ->
  holds d' vs' -> is_lzf d' = false -> (recompress d' = true -> recompress d = true) ->
  u64 t = zlen (concat (VA ++ vs' :: VB)) -> weight (concat (VA ++ vs' :: VB)) < 2 ^ 31 ->
  qrep P F (put h x (at_node A d B) d') (with_total ql t) (A ++ (x, d') :: B) (VA ++ vs' :: VB).
Proof. intros Hq HA Hd Hz Hrec Hu Hw. apply qbody_recount; [|done]. eapply qbody_set; try done; [by apply qrep_body|]. by apply lay_put, (q_lay _ _ _ _ _ _ Hq). Qed.

(** ** New nodes *)

Lemma copy_to_new (v : bytes) n : n = zlen v -> exists s, wrn (zmalloc n) 0 v = Ok (v ++ s).
Proof.
  intros ->. pose proof (zlen_zmalloc (zlen v) (zlen_nonneg v)) as Hz. rewrite wrn_in_range by lia. cbn [take app Z.to_nat]. eauto.
Qed.

Definition free_node (d : qnode) : dnode qnode := {| prev := None; next := None; dat := d |}.

(** A node that is neither compressed nor waiting for it. *)
Definition plainly (d : qnode) : Prop := is_lzf d = false /\ recompress d = false.

Lemma keeps_count n d vs : keeps d vs -> keeps (set_count n d) vs.
Proof. intros (r & [Hs Hw Hb He] & Hc). exists r. by split. Qed.

Lemma create_plain h ns F v : lay h ns F -> wf_bytes v -> zlen v < 2 ^ 32 ->
  exists h' y d, __quicklistCreateNode h QUICKLIST_NODE_CONTAINER_PLAIN v = Ok (h', y) /\ lay h' ns (<[y := free_node d]> F) /\ F !! y = None /\ holds d [v] /\ plainly d /\ is_plain d = true.
Proof.
  intros Hl Hw Hb. unfold __quicklistCreateNode. destruct (lay_new h ns F Hl) as (h1 & y & -> & Hl1 & _ & HF). fold (free_node new_qnode) in Hl1.
  pose proof (lay_free_lookup _ _ _ y _ Hl1 (lookup_insert_eq _ _ _)) as Hy. destruct (copy_to_new v (zlen v) eq_refl) as [s Hs].
  rewrite (put_here h1 y _ Hy). rewrite qupd_put. cbn [mbind res_bind]. rewrite Hs. cbn [mbind res_bind]. rewrite set_entry_put. cbn [mbind res_bind].
  rewrite qupd_put. cbn [mbind res_bind]. rewrite add_count_put. cbn [mbind res_bind]. set (d := set_count _ _).
  exists (put h1 y (free_node new_qnode) d), y, d. split; [done|]. split; [|split; [done|split; [|by split]]].
  - pose proof (lay_put_free _ _ _ _ _ d Hl1 (lookup_insert_eq _ _ _)) as Hl2. rewrite insert_insert_eq in Hl2. exact Hl2.
  - split; [|done]. apply keeps_count, (keeps_plain_stored v s (set_container QUICKLIST_NODE_CONTAINER_PLAIN new_qnode)); done.
Qed.

(** A new packed node as the code fills it, before or after it counts its
    element. *)
Lemma create_packed h ns F lp v k : lay h ns F -> repr lp [LP.elem_of v] ->
  exists h' y, quicklistCreateNode h = (h', y) /\
  exists h1 d, set_entry_of h' y (Buffer lp) = Ok h1 /\ quicklistNodeUpdateSz h1 y = Ok (put h' y (free_node new_qnode) d) /\
    (h2 ← add_count h1 y k; quicklistNodeUpdateSz h2 y) = Ok (put h' y (free_node new_qnode) (set_count k d)) /\
    F !! y = None /\ keeps d [v] /\ plainly d /\ count d = 0 /\ dont_compress d = false /\
    (forall d', lay (put h' y (free_node new_qnode) d') ns (<[y := free_node d']> F)).
Proof.
  intros Hl Hr. destruct (lay_new h ns F Hl) as (h1 & y & E & Hl1 & _ & HF). fold (free_node new_qnode) in Hl1. exists h1, y. split; [done|].
  pose proof (lay_free_lookup _ _ _ y _ Hl1 (lookup_insert_eq _ _ _)) as Hy. pose proof (put_here h1 y _ Hy) as Ep.
  eexists _, _. split; [rewrite Ep at 1; apply set_entry_put|]. split; [by eapply update_sz_put|]. split; [rewrite add_count_put; cbn [mbind res_bind]; by erewrite update_sz_put|].
  split; [done|]. split; [|split; [done|split; [done|split; [done|]]]].
  - pose proof (keeps_stored lp [LP.elem_of v] new_qnode Hr eq_refl eq_refl) as Hk. cbn [fmap list_fmap] in Hk. rewrite LP.text_elem_of in Hk. apply Hk. unfold zlen. cbn [length]. lia.
  - intros d'. pose proof (lay_put_free _ _ _ _ _ d' Hl1 (lookup_insert_eq _ _ _)) as Hl2. rewrite insert_insert_eq in Hl2. exact Hl2.
Qed.

(** ** Linking a new node *)

Lemma sims_mid (A B : nodes) c ns' : sims (A ++ c :: B) ns' -> exists A' d' B', ns' = A' ++ (c.1, d') :: B' /\ sims A A' /\ sim c.2 d' /\ sims B B'.
Proof.
  intros (A' & R & HA & HR & ->)%Forall2_app_inv_l. inversion HR as [|? c' ? B' [E S] HB]; subst. destruct c' as [z d']. cbn in *. subst. by exists A', d', B'.
Qed.

Lemma sim_plainly d d' : sim d d' -> recompress d = false -> recompress d' = false.
Proof. intros S Hp. destruct (recompress d') eqn:E; [|done]. apply (sim_recompress _ _ S) in E. congruence. Qed.

(** The node [y] with the values [vs] linked beside the node that was waiting, if
    any; [n] is what its count is set to afterwards. *)
Lemma qrep_insertNode P F h ql (A B : nodes) VA VB y d vs (after : bool) :
  qbody P F h ql (A ++ B) (VA ++ VB) -> length A = length VA -> F !! y = Some (free_node d) -> beside A B after ->
  P = None \/ P = (if after then last_of A else first_of B) ->
  keeps d vs -> plainly d -> dont_compress d = false -> weight (concat (VA ++ vs :: VB)) < 2 ^ 31 ->
  exists h' ql' A' d' B', __quicklistInsertNode h ql (if after then last_of A else first_of B) y after = Ok (h', ql') /\
    sims A A' /\ sim d d' /\ sims B B' /\ total ql' = total ql /\ same_options ql ql' /\ lay h' (A' ++ (y, d') :: B') (delete y F) /\
    head_ ql' = first_of (A' ++ (y, d') :: B') /\ tail_ ql' = last_of (A' ++ (y, d') :: B') /\
    (forall n t, u16 n = zlen vs -> u64 t = zlen (concat (VA ++ vs :: VB)) ->
      qrep None (delete y F) (put h' y (at_node A' d' B') (set_count n d')) (with_total ql' t) (A' ++ (y, set_count n d') :: B') (VA ++ vs :: VB)).
Proof.
  intros Hq HA Hy Hb HP Hk [Hz Hp] Hdc Hw. destruct Hq as [t0 Hq]. pose proof (qrep_short _ _ _ _ _ _ Hq) as Hshort. destruct Hq as [Hl He Hst Hr Ht _ Hpe Hf]. rewrite ends_total in He. rewrite settled_total in Hst. destruct (keeps_raw _ _ Hk) as [r Hrw].
  destruct (qinsertNode_spec Hhtab h A B F ql y d r after Hl Hy Hb He ltac:(lia) Hst Hrw Hz Hp) as (h' & ql' & ns' & E & Hl' & S & He' & Hst' & Ho & Ht' & Hold).
  destruct (sims_mid _ _ _ _ S) as (A' & d' & B' & -> & SA & Sd & SB). cbn [fst snd] in *.
  exists h', ql', A', d', B'. do 7 (split; [done|]).
  split; [by apply ends_first|]. split; [by apply ends_last|]. intros n t Hn Hu. pose proof (sim_keeps _ _ _ Sd Hk) as Hk'.
  assert (is_lzf (set_count n d') = is_lzf d') as Ez by done. split.
  - by apply lay_put.
  - assert (ends ql' (A' ++ (y, set_count n d') :: B')) as [] by (eapply ends_locs; [exact He'|]; by rewrite !fmap_app). by split.
  - destruct (keeps_raw _ _ (keeps_count n _ _ Hk')) as [r' Hr']. destruct (settled_change ql' A' y d' (set_count n d') B' r' Hst' Hr') as []; [done|done|]. by split.
  - apply Forall2_app_inv in Hr as [HrA HrB]; [|done]. apply Forall2_app; [by eapply rep_sims|]. constructor; [|by eapply rep_sims].
    split; [by apply keeps_count|]. split; [exact Hn|]. cbn. by rewrite (sim_dont _ _ Sd).
  - exact Hu.
  - done.
  - intros i Hi. exfalso.
    assert (pending (A' ++ (y, d') :: B') i) as Hi'.
    { destruct Hi as (c & Hi & Hc). destruct (decide (i = length A')) as [->|Hne].
      - rewrite lookup_mid in Hi. injection Hi as <-. exists (y, d'). by rewrite lookup_mid.
      - exists c. split; [|done]. rewrite <- (insert_mid A' B' (y, d') (y, set_count n d')) in Hi. by rewrite list_lookup_insert_ne in Hi by done. }
    pose proof (sims_pending _ _ _ S Hi') as Hi0. destruct (pending_insert A B (y, d) i Hp Hi0) as (j & Hj & _ & Eloc). apply Hpe in Hj. rewrite Eloc in Hj.
    destruct HP as [-> |HP]; [destruct Hi0 as (c & Hc & _); unfold loc_at in Hj; by rewrite Hc in Hj|].
    assert (is_Some P) as [o Eo] by (rewrite <- Hj; destruct Hi0 as (c & Hc & _); unfold loc_at; rewrite Hc; eauto). rewrite Eo in HP, Hj. symmetry in HP.
    destruct (old_at A B (y, d) o after HP) as [e Hoe].
    assert (i = old_index A after) as ->.
    { apply (loc_at_inj (A ++ (y, d) :: B) _ _ o); [rewrite <- (sims_locs _ _ S); by eapply lay_nodup|done|unfold loc_at; by rewrite Hoe]. }
    apply (Hold _ Hoe); [|done]. cbn. assert (e = d \/ (o, e) ∈ A ++ B) as [-> |Hin]; [|done|].
    { apply list_elem_of_lookup_2 in Hoe. rewrite elem_of_app, elem_of_cons in Hoe. rewrite elem_of_app. destruct Hoe as [|[[= _ ->]|]]; tauto. }
    apply list_elem_of_lookup in Hin as [k Hk0]. destruct (Forall2_lookup_l _ _ _ _ _ Hr Hk0) as (vs' & _ & _ & _ & Hd). exact Hd.
  - destruct Ho as [Hof _]. unfold with_total. cbn. by rewrite Hof.
Qed.

Lemma qrep_lay P F F' h h' ql ns vss : qrep P F h ql ns vss -> lay h' ns F' -> qrep P F' h' ql ns vss.
Proof. by intros [] ?. Qed.

Lemma qrep_insert_held P F h ql (A B : nodes) VA VB y d vs (after : bool) :
  qbody P F h ql (A ++ B) (VA ++ VB) -> length A = length VA -> F !! y = Some (free_node d) -> beside A B after ->
  P = None \/ P = (if after then last_of A else first_of B) ->
  holds d vs -> plainly d -> weight (concat (VA ++ vs :: VB)) < 2 ^ 31 ->
  exists h' ql' A' d' B', __quicklistInsertNode h ql (if after then last_of A else first_of B) y after = Ok (h', ql') /\
    sims A A' /\ sim d d' /\ sims B B' /\ total ql' = total ql /\ same_options ql ql' /\
    (forall t, u64 t = zlen (concat (VA ++ vs :: VB)) -> qrep None (delete y F) h' (with_total ql' t) (A' ++ (y, d') :: B') (VA ++ vs :: VB)).
Proof.
  intros Hq HA Hy Hb HP (Hk & Hc & Hdc) Hpl Hw.
  destruct (qrep_insertNode P F h ql A B VA VB y d vs after Hq HA Hy Hb HP Hk Hpl Hdc Hw) as (h' & ql' & A' & d' & B' & E & SA & Sd & SB & Ht & Ho & Hl & _ & _ & Hfin).
  exists h', ql', A', d', B'. split_and!; try done. intros t Hu.
  pose proof (keeps_length _ _ Hk). assert (u16 (count d') = zlen vs) as Hn by (rewrite (sim_count _ _ Sd), Hc; apply wrapu_small; lia).
  specialize (Hfin (count d') t Hn Hu). assert (set_count (count d') d' = d') as Es by (unfold set_count; rewrite Hn, <- Hc, <- (sim_count _ _ Sd); by destruct d').
  rewrite Es in Hfin. pose proof (put_here h' y _ (lay_here _ _ _ _ _ _ Hl)) as Ep. cbn [dat at_node] in Ep. by rewrite <- Ep in Hfin.
Qed.


(** [__quicklistInsertPlainNode] *)
Lemma insertPlain_spec P F h ql (A B : nodes) VA VB v (after : bool) :
  qrep P F h ql (A ++ B) (VA ++ VB) -> length A = length VA -> beside A B after -> P = None \/ P = (if after then last_of A else first_of B) ->
  wf_bytes v -> weight (concat (VA ++ [v] :: VB)) < 2 ^ 31 ->
  exists h' ql' A' c B', __quicklistInsertPlainNode h ql (if after then last_of A else first_of B) v after = Ok (h', ql') /\
    qrep None F h' ql' (A' ++ c :: B') (VA ++ [v] :: VB) /\ same_options ql ql' /\ sims A A' /\ sims B B'.
Proof.
  intros Hq HA Hb HP Hw Hwt. unfold __quicklistInsertPlainNode. assert (zlen v < 2 ^ 32) as Hv.
  { rewrite concat_mid, !weight_app, weight_cons in Hwt. pose proof (weight_nonneg (concat VA)). pose proof (weight_nonneg (concat VB)). pose proof (weight_nonneg []). lia. }
  destruct (create_plain h _ F v (q_lay _ _ _ _ _ _ Hq) Hw Hv) as (h1 & y & d & -> & Hl1 & HF & Hd & Hpl & _). cbn [mbind res_bind].
  destruct (qrep_insert_held P _ h1 ql A B VA VB y d [v] after (qrep_body _ _ _ _ _ _ (qrep_lay _ _ _ _ _ _ _ _ Hq Hl1)) HA (lookup_insert_eq _ _ _) Hb HP Hd Hpl Hwt) as (h2 & ql2 & A' & d' & B' & -> & SA & _ & SB & Ht & Ho & Hfin).
  cbn [mbind res_bind]. eexists _, _, A', _, B'. split; [done|]. rewrite delete_insert_id in Hfin by done. split; [apply Hfin|by split_and!].
  pose proof (weight_room _ Hwt) as Hroom. rewrite Ht, (q_total _ _ _ _ _ _ Hq). rewrite concat_mid, concat_app, !zlen_app, zlen_cons, zlen_nil in *. rewrite wrapu_small; lia.
Qed.

(** ** Adding at the ends *)

Lemma holds_stored d lp es n : is_lzf d = false -> is_plain d = false -> dont_compress d = false -> repr lp es -> 0 < zlen es < 2 ^ 16 -> u16 n = zlen es ->
  holds (set_count n (stored lp es d)) (text <$> es).
Proof. intros Hz Hp Hd Hr Hn Hu. split; [by apply keeps_count, keeps_stored|]. split; [cbn; by rewrite Hu, zlen_fmap|done]. Qed.

Lemma fits_within (VA VB : list (list bytes)) es : weight (concat (VA ++ (text <$> es) :: VB)) < 2 ^ 31 -> fits es.
Proof. rewrite concat_mid, !weight_app. intros Hw. unfold fits. pose proof (weight_nonneg (concat VA)). pose proof (weight_nonneg (concat VB)). lia. Qed.

Lemma elems_cons v (es : list LP.elem) : text <$> (LP.elem_of v :: es) = v :: (text <$> es).
Proof. cbn. by rewrite LP.text_elem_of. Qed.

Lemma elems_snoc v (es : list LP.elem) : text <$> (es ++ [LP.elem_of v]) = (text <$> es) ++ [v].
Proof. rewrite fmap_app. cbn. by rewrite LP.text_elem_of. Qed.

(** A value at the front of an uncompressed packed node: the steps of the code. *)
Lemma prepend_steps h x n d vs v lp es : entry d = Buffer lp -> repr lp es -> wf_bytes v -> fits (LP.elem_of v :: es) -> holds d vs -> vs = text <$> es ->
  is_lzf d = false -> is_plain d = false -> zlen vs + 1 < 2 ^ 16 ->
  exists h1 h2 d', prepend_to (put h x n d) x v = Ok h1 /\ quicklistNodeUpdateSz h1 x = Ok h2 /\ add_count h2 x 1 = Ok (put h x n d') /\
    (h3 ← add_count h1 x 1; quicklistNodeUpdateSz h3 x) = Ok (put h x n d') /\ holds d' (v :: vs) /\ is_lzf d' = false /\ recompress d' = recompress d /\ container d' = container d.
Proof.
  intros He Hr Hw Hf (Hk & Hc & Hdc) -> Hz Hp Hn. destruct (prepend_put h x n d lp es v He Hr Hw Hf) as (lp' & E & Hr'). rewrite zlen_fmap in *.
  eexists _, _, _. split; [exact E|]. split; [by eapply update_sz_put|]. split; [apply add_count_put|]. split.
  { rewrite add_count_put. cbn [mbind res_bind]. by erewrite update_sz_put. }
  split; [|done]. pose proof (zlen_nonneg es). rewrite <- elems_cons. apply (holds_stored d lp'); try done; [rewrite zlen_cons; lia|].
  rewrite zlen_cons. cbn [stored set_sz set_entry count]. rewrite Hc. rewrite wrapu_small; lia.
Qed.

Lemma append_steps h x n d vs v lp es : entry d = Buffer lp -> repr lp es -> wf_bytes v -> fits (es ++ [LP.elem_of v]) -> holds d vs -> vs = text <$> es ->
  is_lzf d = false -> is_plain d = false -> zlen vs + 1 < 2 ^ 16 ->
  exists h1 h2 d', append_to (put h x n d) x v = Ok h1 /\ quicklistNodeUpdateSz h1 x = Ok h2 /\ add_count h2 x 1 = Ok (put h x n d') /\
    (h3 ← add_count h1 x 1; quicklistNodeUpdateSz h3 x) = Ok (put h x n d') /\ holds d' (vs ++ [v]) /\ is_lzf d' = false /\ recompress d' = recompress d /\ container d' = container d.
Proof.
  intros He Hr Hw Hf (Hk & Hc & Hdc) -> Hz Hp Hn. destruct (append_put h x n d lp es v He Hr Hw Hf) as (lp' & E & Hr'). rewrite zlen_fmap in *.
  eexists _, _, _. split; [exact E|]. split; [by eapply update_sz_put|]. split; [apply add_count_put|]. split.
  { rewrite add_count_put. cbn [mbind res_bind]. by erewrite update_sz_put. }
  split; [|done]. pose proof (zlen_nonneg es). rewrite <- elems_snoc. apply (holds_stored d lp'); try done; [rewrite zlen_app; change (zlen [LP.elem_of v]) with 1; lia|].
  rewrite zlen_app. change (zlen [LP.elem_of v]) with 1. cbn [stored set_sz set_entry count]. rewrite Hc. rewrite wrapu_small; lia.
Qed.

Lemma lay_at P F h ql (A : nodes) x d B vss : qrep P F h ql (A ++ (x, d) :: B) vss -> h = put h x (at_node A d B) d.
Proof. intros Hq. exact (put_here h x _ (lay_here _ _ _ _ _ _ (q_lay _ _ _ _ _ _ Hq))). Qed.

Lemma rep_mid (A : nodes) x d B vss : rep (A ++ (x, d) :: B) vss -> exists VA vs VB, vss = VA ++ vs :: VB /\ length A = length VA /\ holds d vs /\ rep A VA /\ rep B VB.
Proof.
  intros (VA & R & HA & HR & ->)%Forall2_app_inv_l. inversion HR as [|? vs ? VB Hd HB]; subst. exists VA, vs, VB. split_and!; try done. by eapply Forall2_length.
Qed.

(** A new packed node with the value [v]. *)
Lemma push_new F h ql (A B : nodes) VA VB v lp (after : bool) :
  qrep None F h ql (A ++ B) (VA ++ VB) -> length A = length VA -> beside A B after -> wf_bytes v -> weight (concat (VA ++ [v] :: VB)) < 2 ^ 31 -> repr lp [LP.elem_of v] ->
  exists h1 y, quicklistCreateNode h = (h1, y) /\ exists h2, set_entry_of h1 y (Buffer lp) = Ok h2 /\ exists h3, quicklistNodeUpdateSz h2 y = Ok h3 /\
  exists h4 ql4 (A' B' : nodes), __quicklistInsertNode h3 ql (if after then last_of A else first_of B) y after = Ok (h4, ql4) /\ length A' = length A /\ length B' = length B /\
    same_options ql ql4 /\ total ql4 = total ql /\ (exists d', head_ ql4 = first_of (A' ++ (y, d') :: B') /\ tail_ ql4 = last_of (A' ++ (y, d') :: B')) /\
    exists h5 ns5, add_count h4 y 1 = Ok h5 /\ qrep None F h5 (with_total ql4 (total ql4 + 1)) ns5 (VA ++ [v] :: VB).
Proof.
  intros Hq HA Hb Hw Hwt Hr. destruct (create_packed h _ F lp v 1 (q_lay _ _ _ _ _ _ Hq) Hr) as (h1 & y & E1 & h2 & d & E2 & E3 & _ & HF & Hk & Hpl & Hc & Hdc & Hl).
  exists h1, y. split; [done|]. exists h2. split; [done|]. eexists. split; [exact E3|].
  destruct (qrep_insertNode None _ _ ql A B VA VB y d [v] after (qrep_body _ _ _ _ _ _ (qrep_lay _ _ _ _ _ _ _ _ Hq (Hl d))) HA (lookup_insert_eq _ _ _) Hb ltac:(by left) Hk Hpl Hdc Hwt)
    as (h4 & ql4 & A' & d' & B' & E4 & SA & Sd & SB & Ht & Ho & Hl4 & Hh & Htl & Hfin).
  exists h4, ql4, A', B'. split; [done|]. split; [by apply sims_length|]. split; [by apply sims_length|]. split; [done|]. split; [done|]. split; [by exists d'|].
  pose proof (put_here h4 y _ (lay_here _ _ _ _ _ _ Hl4)) as Ep. cbn [dat at_node] in Ep. exists (put h4 y (at_node A' d' B') (set_count (count d' + 1) d')). eexists. split; [rewrite Ep at 1; apply add_count_put|].
  rewrite delete_insert_id in Hfin by done. apply Hfin; [by rewrite (sim_count _ _ Sd), Hc|].
  pose proof (weight_room _ Hwt) as Hroom. rewrite Ht, (q_total _ _ _ _ _ _ Hq). rewrite concat_mid, concat_app, !zlen_app, zlen_cons, zlen_nil in *. rewrite wrapu_small; lia.
Qed.

Lemma total_plus P F h ql ns vss (ws : list bytes) : qrep P F h ql ns vss -> zlen ws = zlen (concat vss) + 1 -> weight ws < 2 ^ 31 -> u64 (total ql + 1) = zlen ws.
Proof. intros Hq Hz Hw. pose proof (weight_room _ Hw). rewrite (q_total _ _ _ _ _ _ Hq), Hz. rewrite wrapu_small; lia. Qed.

(** Whether a node, which need not exist, takes one more value. *)
Lemma allow_at P F h ql ns vss i (v : bytes) : qrep P F h ql ns vss -> zlen v < 2 ^ 32 ->
  exists b, _quicklistNodeAllowInsert h (loc_at ns i) (fill ql) (zlen v) = Ok b /\
    (b = true -> exists x d vs, ns !! i = Some (x, d) /\ vss !! i = Some vs /\ is_plain d = false /\ zlen vs + 1 < 2 ^ 16).
Proof.
  intros Hq Hv. unfold loc_at. destruct (ns !! i) as [[x d]|] eqn:Hi; cbn [fmap option_fmap option_map fst]; [|by exists false].
  destruct (Forall2_lookup_l _ _ _ _ _ (q_rep _ _ _ _ _ _ Hq) Hi) as (vs & Hvs & Hk & Hc & _). pose proof (zlen_nonneg v).
  destruct (allow_insert_spec h x d vs (fill ql) (zlen v) (lay_node _ _ _ _ _ _ (q_lay _ _ _ _ _ _ Hq) Hi) Hk Hc (q_fill _ _ _ _ _ _ Hq) ltac:(lia)) as (b & -> & Hb).
  exists b. split; [done|]. intros E. destruct (Hb E) as (Hp & _ & Hn). by exists x, d, vs.
Qed.

Lemma at_first (ns : nodes) x d : ns !! 0%nat = Some (x, d) -> exists B, ns = (x, d) :: B.
Proof. destruct ns as [|c B]; [done|]. intros [= ->]. by exists B. Qed.

Lemma at_last (ns : nodes) x d : ns !! pred (length ns) = Some (x, d) -> exists A, ns = A ++ [(x, d)].
Proof.
  destruct ns as [|c A _] using rev_ind; [done|]. rewrite length_app, lookup_app_r by (cbn; lia). cbn [length].
  replace (pred (length A + 1) - length A)%nat with 0%nat by lia. intros [= ->]. by exists A.
Qed.

Lemma last_of_at (ns : nodes) : last_of ns = loc_at ns (pred (length ns)).
Proof. unfold last_of, loc_at. by rewrite last_lookup. Qed.

Lemma room_for v vs : weight (v :: vs) < 2 ^ 31 -> zlen v < 2 ^ 32.
Proof. rewrite weight_cons. pose proof (weight_nonneg vs). lia. Qed.

Definition pushed F (ql : quicklist) (vs : list bytes) (r : heap * quicklist * bool) : Prop :=
  exists ns' vss', qrep None F r.1.1 r.1.2 ns' vss' /\ concat vss' = vs /\ same_options ql r.1.2.

Lemma pushHead_spec F h ql ns vss v : qrep None F h ql ns vss -> wf_bytes v -> weight (v :: concat vss) < 2 ^ 31 ->
  yields (quicklistPushHead h ql v) (pushed F ql (v :: concat vss)).
Proof.
  intros Hq Hw Hwt. pose proof Hq as [Hl He Hst Hr Ht _ Hpe Hf]. pose proof (room_for _ _ Hwt) as Hv.
  unfold quicklistPushHead. destruct (large_ok (zlen v) (fill ql) Hf) as [large Hlg]. rewrite Hlg. cbn [mbind res_bind]. rewrite (ends_head _ _ He). destruct large.
  { replace (loc_at ns 0) with (first_of ns) by by rewrite <- (first_of_drop ns 0).
    destruct (insertPlain_spec None F h ql [] ns [] vss v false Hq eq_refl) as (h' & ql' & A' & c & B' & E & Hq' & Ho & _); [by intros ->|by left|done|done|].
    rewrite E. apply yields_ok. by exists (A' ++ c :: B'), ([v] :: vss). }
  destruct (allow_at None F h ql ns vss 0 v Hq Hv) as (b & -> & Hb). cbn [mbind res_bind]. destruct b.
  - destruct (Hb eq_refl) as (x & d & vs & Hx & Hvs & Hp & Hn). destruct (at_first ns x d Hx) as [B ->]. destruct (rep_mid [] x d B vss Hr) as (VA & vs' & VB & -> & HA & Hd & _ & HB).
    destruct VA; [|done]. cbn [app] in *. injection Hvs as ->. destruct (end_raw ql _ 0 x d Hst Hx ltac:(by left)) as [Hz _].
    destruct (keeps_packed d vs (proj1 Hd) Hz Hp) as (lp & es & Hlp & Hrep & Evs & _). cbn [loc_at lookup list_lookup fmap option_fmap option_map fst the mbind res_bind].
    assert (weight (concat ((v :: vs) :: VB)) < 2 ^ 31) as Hwt' by done.
    assert (fits (LP.elem_of v :: es)) as Hfit by (apply (fits_within [] VB); rewrite elems_cons, <- Evs; exact Hwt').
    pose proof (lay_at _ _ _ _ [] _ _ _ _ Hq) as Ep.
    destruct (prepend_steps h x (at_node [] d B) d vs v lp es Hlp Hrep Hw Hfit Hd Evs Hz Hp Hn) as (h1 & h2 & d' & E1 & E2 & E3 & _ & Hd' & Hz' & Hrec & _).
    rewrite <- Ep in E1. rewrite E1. cbn [mbind res_bind]. rewrite E2. cbn [mbind res_bind head_ with_total]. rewrite (ends_head _ _ He). cbn [loc_at lookup list_lookup fmap option_fmap option_map fst the mbind res_bind].
    rewrite E3. cbn [mbind res_bind]. apply yields_ok. exists ((x, d') :: B), ((v :: vs) :: VB). split; [|by split].
    apply (qrep_change None F h ql [] x d B [] vs VB d' (v :: vs) _ Hq eq_refl Hd' Hz'); [by rewrite Hrec| |done].
    eapply total_plus; [exact Hq| |done]. cbn. rewrite zlen_cons, !zlen_app. lia.
  - destruct (singleton_spec v Hw) as (lp & Hs & Hrep). { unfold fits. rewrite elems_cons. cbn [fmap list_fmap]. rewrite weight_cons in *. pose proof (weight_nonneg (concat vss)). rewrite weight_nil. lia. }
    destruct (push_new F h ql [] ns [] vss v lp false Hq eq_refl ltac:(by intros ->) Hw Hwt Hrep) as (h1 & y & -> & h2 & E2 & h3 & E3 & h4 & ql4 & A' & B' & E4 & HA & HB & Ho & Ht4 & (d' & Hh4 & _) & h5 & ns5 & E5 & Hq5).
    rewrite Hs. cbn [mbind res_bind]. rewrite E2. cbn [mbind res_bind]. rewrite E3. cbn [mbind res_bind]. unfold _quicklistInsertNodeBefore.
    replace (loc_at ns 0) with (first_of ns) by by rewrite <- (first_of_drop ns 0). cbn [app] in E4. rewrite E4. cbn [mbind res_bind with_total head_]. rewrite Hh4. destruct A'; [|done].
    cbn [app first_of head fmap option_fmap option_map fst the mbind res_bind]. rewrite E5. cbn [mbind res_bind]. apply yields_ok. by exists ns5, ([v] :: vss).
Qed.

Lemma pushTail_spec F h ql ns vss v : qrep None F h ql ns vss -> wf_bytes v -> weight (concat vss ++ [v]) < 2 ^ 31 ->
  yields (quicklistPushTail h ql v) (pushed F ql (concat vss ++ [v])).
Proof.
  intros Hq Hw Hwt. pose proof Hq as [Hl He Hst Hr Ht _ Hpe Hf].
  assert (zlen v < 2 ^ 32 /\ weight [v] < 2 ^ 31) as [Hv Hv1] by (rewrite weight_app in Hwt; pose proof (weight_nonneg (concat vss)); pose proof (room_for v []); lia).
  assert (forall (VA : list (list bytes)) (vs : list bytes), concat (VA ++ vs :: []) = concat VA ++ vs) as Hcat by (intros; rewrite concat_app; cbn; by rewrite app_nil_r).
  assert (weight (concat (vss ++ [[v]])) < 2 ^ 31) as Hwt' by by rewrite Hcat.
  unfold quicklistPushTail. destruct (large_ok (zlen v) (fill ql) Hf) as [large Hlg]. rewrite Hlg. cbn [mbind res_bind]. rewrite (ends_last _ _ He).
  assert (qrep None F h ql (ns ++ []) (vss ++ [])) as Hq0 by by rewrite !app_nil_r. pose proof (Forall2_length _ _ _ Hr) as Hlen. destruct large.
  { destruct (insertPlain_spec None F h ql ns [] vss [] v true Hq0 Hlen) as (h' & ql' & A' & c & B' & E & Hq' & Ho & _); [done|by left|done|done|].
    rewrite E. apply yields_ok. exists (A' ++ c :: B'), (vss ++ [[v]]). by rewrite Hcat. }
  rewrite last_of_at. destruct (allow_at None F h ql ns vss (pred (length ns)) v Hq Hv) as (b & -> & Hb). cbn [mbind res_bind]. destruct b.
  - destruct (Hb eq_refl) as (x & d & vs & Hx & Hvs & Hp & Hn). destruct (at_last ns x d Hx) as [A ->]. destruct (rep_mid A x d [] vss Hr) as (VA & vs' & VB & -> & HA & Hd & _ & HB).
    inversion HB. subst VB. assert (vs' = vs) as ->. { rewrite Hlen, length_app, lookup_app_r in Hvs by (cbn; lia). cbn [length] in Hvs. replace (pred (length VA + 1) - length VA)%nat with 0%nat in Hvs by lia. by injection Hvs. }
    destruct (end_raw ql _ _ x d Hst Hx) as [Hz _]; [right; rewrite length_app; cbn; lia|].
    destruct (keeps_packed d vs (proj1 Hd) Hz Hp) as (lp & es & Hlp & Hrep & Evs & _). rewrite <- last_of_at, last_of_snoc. cbn [the mbind res_bind].
    assert (weight (concat (VA ++ (vs ++ [v]) :: [])) < 2 ^ 31) as Hwt2 by (rewrite Hcat; rewrite Hcat in Hwt; by rewrite app_assoc).
    assert (fits (es ++ [LP.elem_of v])) as Hfit by (apply (fits_within VA []); rewrite elems_snoc, <- Evs; exact Hwt2).
    pose proof (lay_at _ _ _ _ _ _ _ _ _ Hq) as Ep.
    destruct (append_steps h x (at_node A d []) d vs v lp es Hlp Hrep Hw Hfit Hd Evs Hz Hp Hn) as (h1 & h2 & d' & E1 & E2 & E3 & _ & Hd' & Hz' & Hrec & _).
    rewrite <- Ep in E1. rewrite E1. cbn [mbind res_bind]. rewrite E2. cbn [mbind res_bind tail_ with_total]. rewrite (ends_last _ _ He), last_of_snoc. cbn [the mbind res_bind].
    rewrite E3. cbn [mbind res_bind]. apply yields_ok. exists (A ++ [(x, d')]), (VA ++ [vs ++ [v]]). split; [|split; [by rewrite !Hcat, app_assoc|done]].
    apply (qrep_change None F h ql A x d [] VA vs [] d' (vs ++ [v]) _ Hq HA Hd' Hz'); [by rewrite Hrec| |done].
    eapply total_plus; [exact Hq| |done]. rewrite !Hcat, !zlen_app, zlen_cons, zlen_nil. lia.
  - destruct (ListpackTheory.new_spec 0) as (lp0 & -> & Hr0). cbn [mbind res_bind].
    destruct (append_fits lp0 [] v Hr0 Hw) as (lp & Hs & Hrep); [unfold fits; by rewrite elems_snoc|]. cbn [app] in Hrep.
    destruct (push_new F h ql ns [] vss [] v lp true Hq0 Hlen ltac:(done) Hw Hwt' Hrep) as (h1 & y & -> & h2 & E2 & h3 & E3 & h4 & ql4 & A' & B' & E4 & HA & HB & Ho & Ht4 & (d' & _ & Hh4) & h5 & ns5 & E5 & Hq5).
    rewrite Hs. cbn [mbind res_bind lp_entry]. rewrite E2. cbn [mbind res_bind]. rewrite E3. cbn [mbind res_bind]. unfold _quicklistInsertNodeAfter.
    rewrite <- last_of_at, E4. cbn [mbind res_bind with_total tail_]. rewrite Hh4. destruct B'; [|done].
    rewrite last_of_snoc. cbn [the mbind res_bind]. rewrite E5. cbn [mbind res_bind]. apply yields_ok. exists ns5, (vss ++ [[v]]). by rewrite Hcat.
Qed.

End ops.
End QuicklistOps.
