(* ===== verification/QuicklistEdit.v ===== *)
(** * Quicklists: deleting, merging, splitting, inserting and replacing

    The operations on an element of a node.  Each keeps the invariant of
    QuicklistOps.v and is characterised by the values it leaves. *)

From S2P Require Import Prelude Util ListpackEnc Listpack ListpackTheory ListpackSpec Lzf LzfSpec Dll Quicklist QuicklistNode QuicklistLink QuicklistValues QuicklistOps.
From stdpp Require Import list gmap fin_maps.
#[local] Open Scope Z_scope.

Module QuicklistEdit.
Import Dll Quicklist QuicklistNode QuicklistLink QuicklistValues QuicklistOps.

#[local] Abbreviation nodes := (list (loc * qnode)).
#[local] Abbreviation repr := ListpackTheory.repr.
#[local] Abbreviation lptotal := ListpackTheory.total.
#[local] Abbreviation text := LP.text.
#[local] Abbreviation lppos := ListpackTheory.pos.

Section edit.
Context `{Allocator} `{Environment} (Hhtab : LzfSpec.valid_htab htab).

(** ** Deleting a node *)

(** Nothing but the node [x], if any, is waiting to be compressed. *)
Definition waits (P : option loc) (x : loc) : Prop := P = None \/ P = Some x.

Lemma waits_others P F h ql (A : nodes) x d B vss : qrep P F h ql (A ++ (x, d) :: B) vss -> waits P x -> calm (A ++ B).
Proof.
  intros Hq HP j Hj. destruct (pending_delete A B (x, d) j Hj) as (i & Hi & _ & Eloc). pose proof (q_pending _ _ _ _ _ _ Hq i Hi) as E. rewrite Eloc in E.
  pose proof (nodup_mid _ _ _ _ (lay_nodup _ _ _ (q_lay _ _ _ _ _ _ Hq))) as Hx. destruct Hj as (c & Hc & _). unfold loc_at in E. rewrite Hc in E.
  destruct HP as [-> | ->]; [done|]. injection E as <-. apply Hx. apply list_elem_of_fmap. exists c. split; [done|]. by eapply list_elem_of_lookup_2.
Qed.

Lemma frozen_mid (A : nodes) x d d0 B i : (is_lzf d0 = true -> is_lzf d = true) -> frozen (A ++ (x, d0) :: B) i -> frozen (A ++ (x, d) :: B) i.
Proof. intros Hz Hf. rewrite <- (insert_mid A B (x, d) (x, d0)) in Hf. by eapply frozen_set; [apply lookup_mid| |]. Qed.

(** The list without the node [x], whose contents do not matter any more; [P] may
    still be waiting. *)
Definition deleted_to P F (ql : quicklist) (A B : nodes) (vss : list (list bytes)) (cnt : Z) (r : heap * quicklist) : Prop :=
  exists ns', sims (A ++ B) ns' /\ same_options ql r.2 /\ total r.2 = u64 (total ql - cnt) /\
    forall ql', same_options r.2 ql' -> head_ ql' = head_ r.2 -> tail_ ql' = tail_ r.2 -> len ql' = len r.2 -> total ql' = zlen (concat vss) -> qrep P F r.1 ql' ns' vss.

Definition deleted := deleted_to None.

Lemma delNode_wait P F h ql (A : nodes) x d0 B vss : lay h (A ++ (x, d0) :: B) F -> ends ql (A ++ (x, d0) :: B) -> lzf_deep (depth ql) (A ++ (x, d0) :: B) -> rec_deep (depth ql) (A ++ B) ->
  (forall i, pending (A ++ B) i -> loc_at (A ++ B) i = P) -> rep (A ++ B) vss ->
  weight (concat vss) < 2 ^ 31 -> fill_ok (fill ql) -> yields (__quicklistDelNode h ql x) (deleted_to P F ql A B vss (count d0)).
Proof.
  intros Hl He Hlz Hrec Hp Hr Hw Hf. destruct (qdelNode_spec Hhtab h A B F ql x d0 Hl He (holds_good _ _ Hr) Hlz Hrec) as (h' & ql1 & ns' & E & Hl' & S & He' & Hst' & Ho & Ht').
  rewrite E. apply yields_ok. exists ns'. cbn [fst snd]. split; [done|]. split; [done|]. split; [done|]. intros ql' Ho' E1 E2 E3 E4. split; try done.
  - destruct He' as [a b c e f]. split; try congruence. destruct Ho' as [_ ->]. done.
  - by eapply settled_options.
  - by eapply rep_sims.
  - by eapply pending_sims.
  - destruct Ho as [Ho _], Ho' as [Ho' _]. by rewrite Ho', Ho.
Qed.

Lemma delNode_core F h ql (A : nodes) x d0 B vss : lay h (A ++ (x, d0) :: B) F -> ends ql (A ++ (x, d0) :: B) -> lzf_deep (depth ql) (A ++ (x, d0) :: B) -> calm (A ++ B) -> rep (A ++ B) vss ->
  weight (concat vss) < 2 ^ 31 -> fill_ok (fill ql) -> yields (__quicklistDelNode h ql x) (deleted F ql A B vss (count d0)).
Proof. intros Hl He Hlz Hcalm Hr Hw Hf. apply delNode_wait; try done; [by apply calm_rec|]. intros i Hi. by destruct (Hcalm i). Qed.

(** The node [x], which may have lost its contents already, is deleted. *)
Lemma qrep_delNode P F h0 h ql (A : nodes) x d d0 B VA vs VB : qrep P F h0 ql (A ++ (x, d) :: B) (VA ++ vs :: VB) -> length A = length VA -> waits P x ->
  lay h (A ++ (x, d0) :: B) F -> (is_lzf d0 = true -> is_lzf d = true) -> yields (__quicklistDelNode h ql x) (deleted F ql A B (VA ++ VB) (count d0)).
Proof.
  intros Hq HA HP Hl Hz. pose proof (waits_others _ _ _ _ _ _ _ _ _ Hq HP) as Hcalm. destruct Hq as [_ He [Hg Hlz _] Hr Ht Hw _ Hf].
  apply Forall2_app_inv in Hr as [HrA HrB]; [|done]. inversion HrB as [|? ? ? ? _ HrB']; subst. apply delNode_core; try done.
  - eapply ends_locs; [exact He|]. by rewrite !fmap_app.
  - intros i Hi. replace (length (A ++ (x, d0) :: B)) with (length (A ++ (x, d) :: B)) by by rewrite !length_app. apply Hlz. by eapply frozen_mid.
  - by apply Forall2_app.
  - rewrite concat_mid, !weight_app in Hw. rewrite concat_app, weight_app. pose proof (weight_nonneg vs). lia.
Qed.

(** ** Deleting an element *)

(** The element of [d] at [p] is the one between [L] and [R]. *)
Definition points (d : qnode) (p : Z) (L : list bytes) (v : bytes) (R : list bytes) : Prop :=
  is_plain d = true \/ exists lp le e re, entry d = Buffer lp /\ repr lp (le ++ e :: re) /\ p = lppos le /\ L = text <$> le /\ v = text e /\ R = text <$> re.

Lemma stored_count lp (es : list LP.elem) d n : set_sz (lptotal es) (set_count n (set_entry (Buffer lp) d)) = set_count n (stored lp es d).
Proof. done. Qed.

(** Counting one value less. *)
Lemma total_minus P F h ql ns vss (vss' : list (list bytes)) : qrep P F h ql ns vss -> zlen (concat vss) = zlen (concat vss') + 1 -> u64 (total ql - 1) = zlen (concat vss').
Proof. intros Hq Hz. pose proof (weight_room _ (q_weight _ _ _ _ _ _ Hq)). pose proof (zlen_nonneg (concat vss')). rewrite (q_total _ _ _ _ _ _ Hq), Hz in *. rewrite wrapu_small; lia. Qed.

Lemma holds_at P F h ql (A : nodes) x d B VA vs VB : qrep P F h ql (A ++ (x, d) :: B) (VA ++ vs :: VB) -> length A = length VA -> holds d vs.
Proof. intros Hq HA. pose proof (q_rep _ _ _ _ _ _ Hq) as Hr. apply Forall2_app_inv in Hr as [_ Hr]; [|done]. by inversion Hr. Qed.

Lemma delIndex_spec P F h ql (A : nodes) x d B VA L v R VB p : qrep P F h ql (A ++ (x, d) :: B) (VA ++ (L ++ v :: R) :: VB) -> length A = length VA -> waits P x ->
  is_lzf d = false -> points d p L v R ->
  yields (quicklistDelIndex h ql x p) (fun '(h', ql', gone, _) => same_options ql ql' /\
    if gone : bool then L = [] /\ R = [] /\ exists ns', sims (A ++ B) ns' /\ qrep None F h' ql' ns' (VA ++ VB)
    else exists d', qrep P F h' ql' (A ++ (x, d') :: B) (VA ++ (L ++ R) :: VB) /\ is_lzf d' = false /\ recompress d' = recompress d /\ is_plain d' = false).
Proof.
  intros Hq HA HP Hz Hpt. pose proof (holds_at _ _ _ _ _ _ _ _ _ _ _ Hq HA) as (Hk & Hc & Hdc). unfold quicklistDelIndex.
  rewrite (lay_node _ _ _ _ _ _ (q_lay _ _ _ _ _ _ Hq) (lookup_mid A B (x, d))). cbn [mbind res_bind].
  destruct (is_plain d) eqn:Hp.
  { destruct (keeps_plain d _ Hk Hz Hp) as (r & s & Evs & _). assert (L = [] /\ R = []) as [-> ->].
    { destruct L as [|? [|]]; [by injection Evs as _ ->|done|done]. }
    eapply yields_bind; [by apply (qrep_delNode P F h h ql A x d d B VA _ VB Hq HA HP (q_lay _ _ _ _ _ _ Hq))|]. intros [h' ql'] (ns' & S & Ho & Ht' & Hfin). cbn [fst snd] in *. apply yields_ok. split; [done|]. split; [done|]. split; [done|].
    exists ns'. split; [done|]. apply Hfin; try done. rewrite Ht', Hc. change (zlen ([] ++ [v])) with 1. eapply total_minus; [exact Hq|]. rewrite concat_mid, concat_app. cbn [app]. rewrite !zlen_app, zlen_cons. lia. }
  destruct Hpt as [|(lp & le & e & re & Hlp & Hrep & -> & -> & -> & ->)]; [congruence|]. unfold as_bytes. rewrite Hlp. cbn [mbind res_bind].
  destruct (ListpackTheory.delete_spec lp le e re true Hrep) as (lp' & -> & Hrep'). cbn [mbind res_bind option_map fst lp_entry].
  pose proof (lay_at _ _ _ _ _ _ _ _ _ Hq) as Ep. rewrite Ep at 1. rewrite set_entry_put. cbn [mbind res_bind]. rewrite add_count_put. cbn [mbind res_bind]. rewrite node_put. cbn [mbind res_bind set_count count set_entry].
  assert (zlen (concat (VA ++ ((text <$> le) ++ text e :: (text <$> re)) :: VB)) = zlen (concat (VA ++ (text <$> (le ++ re)) :: VB)) + 1) as Hone.
  { rewrite !concat_mid, fmap_app. rewrite !zlen_app, zlen_cons. lia. }
  pose proof (total_minus _ _ _ _ _ _ _ Hq Hone) as Htot.
  assert (count d = zlen (le ++ re) + 1 /\ zlen (le ++ re) + 1 < 2 ^ 16) as [Hn Hn15].
  { pose proof (keeps_length _ _ Hk) as Hl15. rewrite Hc. rewrite zlen_app, zlen_cons, !zlen_fmap in *. rewrite zlen_app. lia. }
  pose proof (zlen_nonneg (le ++ re)) as Hpos. assert (u16 (count d + -1) = zlen (le ++ re)) as Hcnt by (rewrite Hn; rewrite wrapu_small; lia).
  rewrite Hcnt. destruct (Z.eqb_spec (zlen (le ++ re)) 0) as [Hzero|Hne].
  - apply zlen_nil_inv in Hzero. rewrite Hzero in *. apply app_nil in Hzero as [-> ->].
    destruct (qrep_delNode P F h _ ql A x d _ B VA _ VB Hq HA HP (lay_put _ _ _ _ _ _ (set_count (count d + -1) (set_entry (Buffer lp') d)) (q_lay _ _ _ _ _ _ Hq)))
      as ([h' ql'] & E & ns' & S & Ho & Ht' & Hfin); [by intros ?|]. rewrite E. cbn [mbind res_bind fst snd] in *.
    apply yields_ok. split; [done|]. split; [done|]. split; [done|]. exists ns'. split; [done|]. apply Hfin; try done.
    unfold with_total. cbn [total]. rewrite Ht'. cbn [set_count count set_entry]. rewrite Hcnt, zlen_nil, Z.sub_0_r. rewrite concat_mid in Htot. cbn [fmap list_fmap app] in Htot. rewrite concat_app, <- Htot.
    rewrite (wrapu_small 64 (total ql)); [done|]. rewrite (q_total _ _ _ _ _ _ Hq). pose proof (weight_room _ (q_weight _ _ _ _ _ _ Hq)). lia.
  - erewrite update_sz_put; [|reflexivity|exact Hrep']. cbn [mbind res_bind]. apply yields_ok. split; [done|]. rewrite stored_count. exists (set_count (count d + -1) (stored lp' (le ++ re) d)). split; [|by split]. rewrite <- fmap_app.
    apply (qrep_change P F h ql A x d B VA _ VB _ (text <$> (le ++ re)) _ Hq HA); [|done|done|exact Htot|].
    + apply holds_stored; try done. lia.
    + pose proof (q_weight _ _ _ _ _ _ Hq) as Hw. rewrite concat_mid, fmap_app in *. rewrite !weight_app, weight_cons in Hw. rewrite !weight_app. pose proof (zlen_nonneg (text e)). lia.
Qed.

(** ** Reading an element *)

(** The element [v] of an uncompressed packed node is an element of its listpack. *)
Lemma packed_at d L v R : keeps d (L ++ v :: R) -> is_lzf d = false -> is_plain d = false ->
  exists lp le e re, entry d = Buffer lp /\ repr lp (le ++ e :: re) /\ L = text <$> le /\ v = text e /\ R = text <$> re.
Proof.
  intros Hk Hz Hp. destruct (keeps_packed d _ Hk Hz Hp) as (lp & es & Hlp & Hrep & E & _). symmetry in E.
  apply fmap_app_inv in E as (le & er & -> & E & ->). symmetry in E. destruct er as [|e re]; [done|]. injection E as <- <-. by exists lp, le, e, re.
Qed.

Lemma seek_repr lp es i : repr lp es ->
  Listpack.lpSeek lp i = Ok (let j := ListpackTheory.norm_index es i in if (0 <=? j) && (j <? zlen es) then Some (lppos (take (Z.to_nat j) es)) else None).
Proof. intros (num & slack & -> & Hn & Hok & Ht). by apply ListpackTheory.seek_spec. Qed.

(** The index [i] of the element that [L] precedes and [R] follows. *)
Definition index_of {T} (L R : list T) (i : Z) : Prop := i = zlen L \/ i = - zlen R - 1.

Lemma index_fmap {T U} (f : T -> U) (L R : list T) i : index_of (f <$> L) (f <$> R) i -> index_of L R i.
Proof. unfold index_of. by rewrite !zlen_fmap. Qed.

Lemma seek_at lp (le : list LP.elem) e re i : repr lp (le ++ e :: re) -> index_of le re i -> Listpack.lpSeek lp i = Ok (Some (lppos le)).
Proof.
  intros Hr Hi. rewrite (seek_repr _ _ _ Hr). cbv zeta. unfold ListpackTheory.norm_index. pose proof (zlen_nonneg le). pose proof (zlen_nonneg re).
  assert (zlen (le ++ e :: re) = zlen le + 1 + zlen re) as El by (rewrite zlen_app, zlen_cons; lia).
  assert ((if i <? 0 then zlen (le ++ e :: re) + i else i) = zlen le) as -> by (rewrite El; destruct Hi as [-> | ->]; case_match; lia).
  rewrite (proj2 (Z.leb_le _ _)), (proj2 (Z.ltb_lt _ _)) by lia. cbn [andb]. by rewrite to_nat_zlen, take_app_length.
Qed.

(** What [lpGetValue] returned stands for [s]. *)
Definition reads (lp : bytes) (v : Z * Z + Z) (s : bytes) : Prop :=
  match v with inl (q, n) => rdn lp q n = Ok s /\ n = zlen s | inr z => is_i64 z /\ s = Util.decimal z end.

Lemma get_at lp (le : list LP.elem) e re : repr lp (le ++ e :: re) -> exists v, LP.lpGetValue lp (lppos le) = Ok v /\ reads lp v (text e).
Proof.
  intros (num & slack & -> & Hn & Hok & Ht). assert (LP.elem_ok e) as He by (apply Forall_app in Hok as [_ Hok]; by inversion Hok).
  rewrite ListpackTheory.lpenc_cursor, <- (ListpackTheory.zlen_before (lptotal (le ++ e :: re)) num le). unfold LP.lpGetValue, LP.lpGet, LP.entry. rewrite <- app_assoc. destruct e as [z|s].
  - rewrite LP.get_int_spec by done. cbn [mbind res_bind fst]. by exists (inr z).
  - edestruct (LP.get_str_spec s) as (hh & es & Hd & -> & _); [done|]. cbn [mbind res_bind fst]. eexists. split; [done|]. destruct He as [_ He].
    assert (u32 (zlen s) = zlen s) as -> by (pose proof (zlen_nonneg s); apply wrapu_small; lia). split; [|done]. cbn [text]. rewrite Hd, <- app_assoc, (app_assoc (ListpackTheory.before _ _ _)). apply rdn_app.
Qed.

(** ** Taking from the ends *)

(** A popped value is the bytes given to the saver, or a number. *)
Definition gives {T} (saver : bytes -> T) (r : T + Z) (v : bytes) : Prop := r = inl (saver v) \/ exists z, r = inr z /\ is_i64 z /\ v = Util.decimal z.

(** What is left of the nodes after the deletion. *)
Lemma deleted_left P F h ql ql' (A : nodes) x B VA (L R : list bytes) VB (gone : bool) rec : waits P x ->
  (if gone then L = [] /\ R = [] /\ exists ns', sims (A ++ B) ns' /\ qrep None F h ql' ns' (VA ++ VB)
   else exists d', qrep P F h ql' (A ++ (x, d') :: B) (VA ++ (L ++ R) :: VB) /\ is_lzf d' = false /\ recompress d' = rec /\ is_plain d' = false) -> same_options ql ql' ->
  exists P' ns' vss', qrep P' F h ql' ns' vss' /\ (P = None -> P' = None) /\ concat vss' = concat VA ++ (L ++ R) ++ concat VB /\ same_options ql ql'.
Proof.
  intros HP Hg Ho. destruct gone.
  - destruct Hg as (-> & -> & ns' & _ & Hq). exists None, ns', (VA ++ VB). by rewrite concat_app.
  - destruct Hg as (d' & Hq & _). exists P, (A ++ (x, d') :: B), (VA ++ (L ++ R) :: VB). by rewrite concat_mid.
Qed.

(** The steps of [quicklistPopCustom] at the element [v] of the node [x]. *)
Definition pop_at {T} (saver : bytes -> T) (h : heap) (ql : quicklist) (x : loc) (i : Z) : res (heap * quicklist * option (T + Z)) :=
  d ← node h x;
  _ ← cassert (negb (is_lzf d));
  b ← as_bytes d;
  if is_plain d then
    v ← rdn b 0 (sz d);
    '(h, ql, _, _) ← quicklistDelIndex h ql x 0;
    Ok (h, ql, Some (inl (saver v)))
  else
    p ← Listpack.lpSeek b i;
    p ← the_zi p;
    v ← LP.lpGetValue b p;
    r ← match v with inl (q, vlen) => v ← rdn b q vlen; Ok (inl (saver v)) | inr vlong => Ok (inr vlong) end;
    '(h, ql, _, _) ← quicklistDelIndex h ql x p;
    Ok (h, ql, Some r).

Lemma pop_at_spec {T} (saver : bytes -> T) F h ql (A : nodes) x d B VA L v R VB i : qrep None F h ql (A ++ (x, d) :: B) (VA ++ (L ++ v :: R) :: VB) -> length A = length VA ->
  is_lzf d = false -> index_of L R i ->
  yields (pop_at saver h ql x i) (fun '(h', ql', r) => exists ns' vss' r0, qrep None F h' ql' ns' vss' /\ same_options ql ql' /\ r = Some r0 /\ gives saver r0 v /\ concat vss' = concat VA ++ (L ++ R) ++ concat VB).
Proof.
  intros Hq HA Hz Hi. pose proof (holds_at _ _ _ _ _ _ _ _ _ _ _ Hq HA) as (Hk & Hc & Hdc). unfold pop_at.
  rewrite (lay_node _ _ _ _ _ _ (q_lay _ _ _ _ _ _ Hq) (lookup_mid A B (x, d))). cbn [mbind res_bind]. rewrite Hz. cbn [negb cassert mbind res_bind].
  assert (forall p r0, points d p L v R -> gives saver r0 v -> yields ('(h, ql, _, _) ← quicklistDelIndex h ql x p; Ok (h, ql, Some r0)) (fun '(h', ql', r) => exists ns' vss' r0,
    qrep None F h' ql' ns' vss' /\ same_options ql ql' /\ r = Some r0 /\ gives saver r0 v /\ concat vss' = concat VA ++ (L ++ R) ++ concat VB)) as Hdel.
  { intros p r0 Hp Hr. eapply yields_bind; [apply (delIndex_spec None F h ql A x d B VA L v R VB p Hq HA ltac:(by left) Hz Hp)|]. intros [[[h' ql'] gone] np] [Ho Hg]. apply yields_ok.
    destruct (deleted_left None F h' ql ql' A x B VA L R VB gone (recompress d) ltac:(by left) Hg Ho) as (P' & ns' & vss' & Hq' & HP & Hcat & _). rewrite HP in Hq' by done. by exists ns', vss', r0. }
  destruct (is_plain d) eqn:Hp.
  - destruct (keeps_plain d _ Hk Hz Hp) as (r & s & Evs & Hb & Hs). unfold as_bytes. rewrite Hb. cbn [mbind res_bind]. rewrite (rdn_raw r s _ Hs). cbn [mbind res_bind].
    apply Hdel; [by left|]. left. f_equal. f_equal. destruct L as [|? [|]]; [by injection Evs as -> _|done|done].
  - destruct (packed_at d L v R Hk Hz Hp) as (lp & le & e & re & Hlp & Hrep & -> & -> & ->). unfold as_bytes. rewrite Hlp. cbn [mbind res_bind].
    rewrite (seek_at lp le e re i Hrep (index_fmap _ _ _ _ Hi)). cbn [mbind res_bind the_zi]. destruct (get_at lp le e re Hrep) as (w & -> & Hw). cbn [mbind res_bind].
    assert (points d (lppos le) (text <$> le) (text e) (text <$> re)) as Hpt by (right; by exists lp, le, e, re).
    destruct w as [[q n]|z].
    + destruct Hw as [-> _]. cbn [mbind res_bind]. apply Hdel; [done|]. by left.
    + cbn [mbind res_bind]. apply Hdel; [done|]. right. by exists z.
Qed.

Definition popped {T} (saver : bytes -> T) F (ql : quicklist) (where_ : qend) (vs : list bytes) (r : heap * quicklist * option (T + Z)) : Prop :=
  exists ns' vss', qrep None F r.1.1 r.1.2 ns' vss' /\ same_options ql r.1.2 /\
  match r.2 with
  | None => vs = [] /\ concat vss' = []
  | Some r0 => exists v, gives saver r0 v /\ vs = match where_ with QUICKLIST_HEAD => v :: concat vss' | QUICKLIST_TAIL => concat vss' ++ [v] end
  end.

Lemma qrep_empty P F h ql ns vss : qrep P F h ql ns vss -> total ql = 0 -> ns = [] /\ vss = [].
Proof.
  intros Hq Ht. rewrite (q_total _ _ _ _ _ _ Hq) in Ht. pose proof (rep_length _ _ (q_rep _ _ _ _ _ _ Hq)) as Hl. pose proof (zlen_nonneg ns).
  assert (ns = []) as -> by (apply zlen_nil_inv; lia). split; [done|]. pose proof (q_rep _ _ _ _ _ _ Hq) as Hr. by inversion Hr.
Qed.

Lemma qrep_nonempty P F h ql ns vss : qrep P F h ql ns vss -> total ql <> 0 -> ns <> [].
Proof.
  intros Hq Ht ->. apply Ht. rewrite (q_total _ _ _ _ _ _ Hq). pose proof (q_rep _ _ _ _ _ _ Hq) as Hr. by inversion Hr.
Qed.

Lemma popCustom_spec {T} (saver : bytes -> T) F h ql ns vss where_ : qrep None F h ql ns vss ->
  yields (quicklistPopCustom saver h ql where_) (popped saver F ql where_ (concat vss)).
Proof.
  intros Hq. unfold quicklistPopCustom. destruct (Z.eqb_spec (total ql) 0) as [E|Hne].
  { apply yields_ok. exists ns, vss. split; [done|]. split; [done|]. by destruct (qrep_empty _ _ _ _ _ _ Hq E) as [_ ->]. }
  pose proof (qrep_nonempty _ _ _ _ _ _ Hq Hne) as Hns. pose proof (q_ends _ _ _ _ _ _ Hq) as He. destruct where_.
  - rewrite (ends_first _ _ He). destruct ns as [|[x d] B]; [done|]. cbn [first_of head fmap option_fmap option_map fst].
    destruct (rep_mid [] x d B vss (q_rep _ _ _ _ _ _ Hq)) as ([|] & vs & VB & -> & HA & Hd & _ & HB); [|done].
    destruct (end_raw ql _ 0 x d (q_settled _ _ _ _ _ _ Hq) eq_refl ltac:(by left)) as [Hz _]. destruct vs as [|v R]; [by destruct (keeps_length _ _ (proj1 Hd))|].
    eapply yields_mono; [apply (pop_at_spec saver F h ql [] x d B [] [] v R VB 0 Hq eq_refl Hz); by left|].
    intros [[h' ql'] r] (ns' & vss' & r0 & Hq' & Ho & -> & Hg & Hcat). exists ns', vss'. split; [done|]. split; [done|]. exists v. split; [done|]. cbn. by rewrite Hcat.
  - rewrite (ends_last _ _ He). destruct ns as [|[x d] A _] using rev_ind; [done|]. rewrite last_of_snoc.
    destruct (rep_mid A x d [] vss (q_rep _ _ _ _ _ _ Hq)) as (VA & vs & VB & -> & HA & Hd & _ & HB). inversion HB; subst VB.
    destruct (end_raw ql _ (length A) x d (q_settled _ _ _ _ _ _ Hq) (lookup_mid A [] (x, d))) as [Hz _]; [right; rewrite length_app; cbn; lia|].
    destruct vs as [|v L _] using rev_ind; [by destruct (keeps_length _ _ (proj1 Hd))|].
    eapply yields_mono; [apply (pop_at_spec saver F h ql A x d [] VA L v [] [] (-1) Hq HA Hz); by right|].
    intros [[h' ql'] r] (ns' & vss' & r0 & Hq' & Ho & -> & Hg & Hcat). exists ns', vss'. split; [done|]. split; [done|]. exists v. split; [done|]. cbn [snd]. rewrite Hcat, concat_mid. cbn. by rewrite !app_nil_r, app_assoc.
Qed.

Lemma pop_spec F h ql ns vss where_ : qrep None F h ql ns vss -> yields (quicklistPop h ql where_) (popped id F ql where_ (concat vss)).
Proof.
  intros Hq. unfold quicklistPop. destruct (Z.eqb_spec (total ql) 0) as [E|_]; [|by apply (popCustom_spec id F h ql ns vss)].
  apply yields_ok. exists ns, vss. split; [done|]. split; [done|]. by destruct (qrep_empty _ _ _ _ _ _ Hq E) as [_ ->].
Qed.

(** ** Adding at the ends, with the assertions *)

Lemma assert_raw_ends F h ql ns vss : qrep None F h ql ns vss -> assert_raw h (head_ ql) = Ok tt /\ assert_raw h (tail_ ql) = Ok tt.
Proof.
  intros Hq. pose proof (q_ends _ _ _ _ _ _ Hq) as He. pose proof (q_lay _ _ _ _ _ _ Hq) as Hl. rewrite (ends_head _ _ He), (ends_last _ _ He), last_of_at.
  assert (forall i, (i = 0 \/ S i = length ns \/ ns = [])%nat -> assert_raw h (loc_at ns i) = Ok tt) as Hi.
  { intros i Hi. unfold loc_at. destruct (ns !! i) as [[x d]|] eqn:E; [|done]. cbn [fmap option_fmap option_map fst assert_raw]. rewrite (lay_node _ _ _ _ _ _ Hl E). cbn [mbind res_bind].
    destruct (end_raw ql ns i x d (q_settled _ _ _ _ _ _ Hq) E) as [-> _]; [|done]. destruct Hi as [ | [ | -> ]]; [by left|by right|done]. }
  split; apply Hi; [by left|]. destruct ns; [by right; right|right; left; done].
Qed.

Definition pushed_at (where_ : qend) (v : bytes) (vs : list bytes) : list bytes := match where_ with QUICKLIST_HEAD => v :: vs | QUICKLIST_TAIL => vs ++ [v] end.

Lemma push_spec F h ql ns vss v where_ : qrep None F h ql ns vss -> wf_bytes v -> weight (v :: concat vss) < 2 ^ 31 ->
  yields (quicklistPush h ql v where_) (fun r => exists ns' vss', qrep None F r.1 r.2 ns' vss' /\ concat vss' = pushed_at where_ v (concat vss) /\ same_options ql r.2).
Proof.
  intros Hq Hw Hwt. unfold quicklistPush. destruct (assert_raw_ends _ _ _ _ _ Hq) as [-> ->]. cbn [mbind res_bind].
  assert (weight (concat vss ++ [v]) < 2 ^ 31) as Hwt' by (rewrite weight_app, weight_cons in *; rewrite weight_nil; lia).
  destruct where_.
  - eapply yields_bind; [by apply (pushHead_spec Hhtab F h ql ns vss)|]. intros [[h' ql'] b] Hp. apply yields_ok. exact Hp.
  - eapply yields_bind; [by apply (pushTail_spec Hhtab F h ql ns vss)|]. intros [[h' ql'] b] Hp. apply yields_ok. exact Hp.
Qed.

(** ** Releasing *)

(** The loop gives back every node of the list and nothing else. *)
Lemma release_loop_spec F (ns : nodes) : forall p M ql, seg M p ns None -> NoDup ns.*1 -> dom M = list_to_set ns.*1 -> M ##ₘ F ->
  yields (release_loop (length ns) (M ∪ F) ql (first_of ns)) (fun r => r.1 = F /\ bookmarks r.2 = bookmarks ql).
Proof.
  induction ns as [|[x d] ns IH]; intros p M ql Hs Hnd Hdom Hdis.
  - apply yields_ok. cbn in *. apply dom_empty_inv_L in Hdom as ->. by rewrite (left_id_L ∅ _).
  - destruct Hs as [Hx Hs]. apply list.NoDup_cons in Hnd as [Hnx Hnd]. cbn [length release_loop first_of head fmap option_fmap option_map fst the mbind res_bind].
    pose proof (lookup_union_Some_l M F x _ Hx) as Hxu. unfold get, release. rewrite Hxu. cbn [mbind res_bind]. unfold get. rewrite Hxu. cbn [mbind res_bind next dat].
    rewrite or_else_none, delete_union, (delete_id F x) by (by eapply map_disjoint_Some_l).
    eapply yields_mono; [apply (IH (Some x) (delete x M))|].
    + eapply seg_frame; [done|]. intros y Hy. apply lookup_delete_ne. by intros ->.
    + done.
    + rewrite dom_delete_L, Hdom. cbn [fmap list_fmap fst list_to_set]. set_solver.
    + by apply map_disjoint_delete_l.
    + done.
Qed.

Lemma lay_freed F h ql (ns : nodes) : lay h ns F -> ends ql ns -> yields (quicklistRelease h ql) (fun r => r.1 = F /\ bookmarks r.2 = []).
Proof.
  intros (M & [[Hnd Hs] Hdom] & Hdis & ->) He. unfold quicklistRelease. rewrite (ends_first _ _ He), (ends_len _ _ He), to_nat_zlen.
  eapply yields_bind; [by eapply release_loop_spec|]. intros [h' ql'] [E _]. by apply yields_ok.
Qed.

Lemma release_spec P F h ql ns vss : qrep P F h ql ns vss -> yields (quicklistRelease h ql) (fun r => r.1 = F /\ bookmarks r.2 = []).
Proof. intros Hq. eapply lay_freed; [by eapply q_lay|by eapply q_ends]. Qed.

End edit.
End QuicklistEdit.
