(* ===== verification/QuicklistIter.v ===== *)
(** * Quicklists: iterators

    An iterator stands between two values of the list: [quicklistNext] steps over
    one of them, decompressing the node it enters and compressing the one it
    leaves.  From these follow the element at an index, the deletion of the
    current element, and that an iteration visits the whole list in order. *)

From S2P Require Import Prelude Util ListpackEnc Listpack ListpackTheory ListpackSpec Lzf LzfSpec Dll Quicklist QuicklistNode QuicklistLink QuicklistValues QuicklistOps QuicklistEdit.
From stdpp Require Import list gmap fin_maps.
#[local] Open Scope Z_scope.

Module QuicklistIter.
Import Dll Quicklist QuicklistNode QuicklistLink QuicklistValues QuicklistOps QuicklistEdit.

#[local] Abbreviation nodes := (list (loc * qnode)).
#[local] Abbreviation repr := ListpackTheory.repr.
#[local] Abbreviation text := LP.text.
#[local] Abbreviation lppos := ListpackTheory.pos.

Section iter.
Context `{Allocator} `{Environment} (Hhtab : LzfSpec.valid_htab htab).

(** ** Opening and closing a node *)

Lemma qrep_wait F h ql ns vss x : qrep None F h ql ns vss -> qrep (Some x) F h ql ns vss.
Proof. intros [Hl He Hst Hr Ht Hw Hp Hf]. split; try done. intros i Hi. pose proof (Hp i Hi) as E. destruct Hi as (c & Hc & _). unfold loc_at in E. by rewrite Hc in E. Qed.

Lemma qrep_waits P F h ql ns vss x : waits P x -> qrep P F h ql ns vss -> qrep (Some x) F h ql ns vss.
Proof. intros [-> | ->]; [apply qrep_wait|done]. Qed.

(** Opening a node: it holds the same values, uncompressed, and may wait. *)
Record opened (d d' : qnode) : Prop := {
  o_raw : is_lzf d' = false;
  o_container : container d' = container d;
  o_sz : sz d' = sz d;
  o_holds vs : holds d vs -> holds d' vs
}.

Lemma use_settled F h ql (A : nodes) x d B : lay h (A ++ (x, d) :: B) F -> settled ql (A ++ (x, d) :: B) ->
  yields (quicklistDecompressNodeForUse h x) (fun h' => exists d', lay h' (A ++ (x, d') :: B) F /\ settled ql (A ++ (x, d') :: B) /\ opened d d').
Proof.
  intros Hl Hst. unfold quicklistDecompressNodeForUse. pose proof (lookup_mid A B (x, d)) as Hi. rewrite (lay_node _ _ _ _ _ _ Hl Hi). cbn [mbind res_bind].
  destruct (is_lzf d) eqn:Hz; [|apply yields_ok; exists d; split_and!; try done; by split].
  destruct (good_at _ _ _ _ (settled_goods _ _ Hst) Hi) as [r Hrw]. destruct (decompressNode_spec h _ F _ x d r Hl Hi Hrw Hz) as (h1 & d1 & b & -> & Hl1 & S & Hz1 & Hr1).
  cbn [mbind res_bind]. rewrite insert_mid in Hl1. destruct (lay_upd h1 _ F _ x d1 (set_recompress true) Hl1 (lookup_mid A B (x, d1))) as (h2 & -> & Hl2). rewrite insert_mid in Hl2. apply yields_ok.
  set (d' := set_recompress true d1) in *. pose proof (raw_flag d1 r true (sim_raw _ _ S r Hrw) ltac:(by right)) as Hrw'. fold d' in Hrw'. exists d'. split; [done|].
  assert (forall i c, i <> length A -> (A ++ (x, d') :: B) !! i = Some c -> (A ++ (x, d) :: B) !! i = Some c) as Hother.
  { intros i c Hne Hc. rewrite <- (insert_mid A B (x, d) (x, d')) in Hc. by rewrite list_lookup_insert_ne in Hc by done. }
  assert (length (A ++ (x, d') :: B) = length (A ++ (x, d) :: B)) as Elen by by rewrite !length_app. destruct Hst as [Hg Hlz Hrc]. split.
  - split.
    + apply Forall_app in Hg as [HA HB]. apply Forall_app. split; [done|]. apply Forall_cons_1 in HB as [_ HB]. constructor; [by exists r|done].
    + intros i (c & Hc & Hcz). rewrite Elen. apply Hlz. destruct (decide (i = length A)) as [->|Hne]; [rewrite lookup_mid in Hc; injection Hc as <-; unfold d' in Hcz; cbn in Hcz; unfold is_lzf in *; cbn in Hcz; congruence|].
      exists c. split; [by apply Hother|done].
    + intros i (c & Hc & Hcr). rewrite Elen. destruct (decide (i = length A)) as [->|Hne]; [apply Hlz; by exists (x, d)|]. apply Hrc. exists c. split; [by apply Hother|done].
  - split; [done|exact (sim_container _ _ S)|exact (sim_sz _ _ S)|]. intros vs Hd.
    pose proof (sim_holds _ _ _ S Hd) as (Hk & Hc & Hdc). split; [|done]. destruct Hk as (r1 & Hr1' & Hk). exists r1. split; [by apply raw_flag; [|right]|done].
Qed.

Lemma use_spec P F h ql (A : nodes) x d B vss : qrep P F h ql (A ++ (x, d) :: B) vss -> waits P x ->
  yields (quicklistDecompressNodeForUse h x) (fun h' => exists d', qrep (Some x) F h' ql (A ++ (x, d') :: B) vss /\ is_lzf d' = false /\ container d' = container d /\ sz d' = sz d).
Proof.
  intros Hq HP. apply (qrep_waits _ _ _ _ _ _ x HP) in Hq. destruct Hq as [Hl He Hst Hr Ht Hw Hp Hf]. eapply yields_mono; [by eapply use_settled|].
  intros h' (d' & Hl' & Hst' & [Hz' Hcon Hsz Hhold]). exists d'. split; [|done]. split; try done.
  - eapply ends_locs; [done|]. by rewrite !fmap_app.
  - apply Forall2_app_inv_l in Hr as (VA & VR & HA & HR & ->). apply Forall2_app; [done|]. inversion HR as [|? vs ? VB Hd HB]; subst. constructor; [|done]. by apply Hhold.
  - intros i Hi'. assert (loc_at (A ++ (x, d') :: B) i = loc_at (A ++ (x, d) :: B) i) as Eloc by (unfold loc_at; rewrite <- !list_lookup_fmap; by rewrite !fmap_app). rewrite Eloc.
    destruct (decide (i = length A)) as [->|Hne]; [unfold loc_at; by rewrite lookup_mid|]. destruct Hi' as (c & Hc & Hcr). apply Hp. exists c. split; [|done].
    rewrite <- (insert_mid A B (x, d) (x, d')) in Hc. by rewrite list_lookup_insert_ne in Hc by done.
Qed.

(** Anything that only changes encodings, and leaves [x] not waiting. *)
Lemma qrep_settle P F h h' ql (A : nodes) x d B ns' vss : qrep P F h ql (A ++ (x, d) :: B) vss -> waits P x -> lay h' ns' F -> sims (A ++ (x, d) :: B) ns' -> settled ql ns' ->
  (dont_compress d = false -> ~ pending ns' (length A)) -> qrep None F h' ql ns' vss.
Proof.
  intros Hq HP Hl' S Hst' Hnp. apply (qrep_waits _ _ _ _ _ _ x HP) in Hq. pose proof Hq as [Hl He Hst Hr Ht Hw Hp Hf]. pose proof (lookup_mid A B (x, d)) as Hx.
  split; try done; [by eapply ends_sims|by eapply rep_sims|]. intros i Hi. exfalso. pose proof (pending_sims _ _ _ S Hp i Hi) as E. rewrite (sims_loc_at _ _ _ S) in E.
  assert (i = length A) as ->. { eapply loc_at_inj; [by eapply lay_nodup|exact E|]. unfold loc_at. by rewrite Hx. }
  destruct (Forall2_lookup_l _ _ _ _ _ Hr Hx) as (vs & _ & _ & _ & Hdc). by apply Hnp.
Qed.

Lemma close_spec P F h ql (A : nodes) x d B vss : qrep P F h ql (A ++ (x, d) :: B) vss -> waits P x ->
  yields (quicklistCompress h ql x) (fun h' => exists ns', sims (A ++ (x, d) :: B) ns' /\ qrep None F h' ql ns' vss).
Proof.
  intros Hq HP. destruct (quicklistCompress_spec Hhtab h _ F ql _ x d (q_lay _ _ _ _ _ _ Hq) (q_ends _ _ _ _ _ _ Hq) (q_settled _ _ _ _ _ _ Hq) (lookup_mid A B (x, d))) as (h' & ns' & -> & Hl' & S & Hst' & Hnp).
  apply yields_ok. exists ns'. split; [done|]. by eapply qrep_settle.
Qed.

Lemma recompressOnly_spec P F h ql (A : nodes) x d B vss : qrep P F h ql (A ++ (x, d) :: B) vss -> waits P x ->
  yields (quicklistRecompressOnly h x) (fun h' => exists ns', sims (A ++ (x, d) :: B) ns' /\ qrep None F h' ql ns' vss).
Proof.
  intros Hq HP. destruct (quicklistRecompressOnly_spec Hhtab h _ F ql _ x d (q_lay _ _ _ _ _ _ Hq) (q_settled _ _ _ _ _ _ Hq) (lookup_mid A B (x, d))) as (h' & ns' & -> & Hl' & S & Hst' & Hnp).
  apply yields_ok. exists ns'. split; [done|]. by eapply qrep_settle.
Qed.

(** ** The node of an index *)

Lemma seek_forward_spec h ns F vss k : lay h ns F -> rep ns vss -> zlen (concat vss) < 2 ^ 62 -> 0 <= k < zlen (concat vss) ->
  forall (B : nodes) (A : nodes) (VA VB : list (list bytes)) fuel, ns = A ++ B -> vss = VA ++ VB -> length A = length VA -> zlen (concat VA) <= k -> (length B < fuel)%nat ->
  exists (A' : nodes) x d B' VA' vs VB', ns = A' ++ (x, d) :: B' /\ vss = VA' ++ vs :: VB' /\ length A' = length VA' /\
    zlen (concat VA') <= k < zlen (concat VA') + zlen vs /\ seek_loop fuel h true (first_of B) (zlen (concat VA)) k = Ok (Some x, zlen (concat VA')).
Proof.
  intros Hl Hr Hbig Hk. induction B as [|[x d] B IH]; intros A VA VB fuel -> -> HA Hge Hfuel.
  { apply Forall2_app_inv in Hr as [_ Hr]; [|done]. inversion Hr. subst VB. rewrite app_nil_r in Hk. lia. }
  destruct fuel as [|fuel]; [lia|]. apply Forall2_app_inv in Hr as Hr'; [|done]. destruct Hr' as [_ HrB]. inversion HrB as [|? vs ? VB' Hd HB]; subst. cbn [snd] in Hd. destruct Hd as (Hkp & Hc & _).
  cbn [first_of head fmap option_fmap option_map fst seek_loop]. rewrite (lay_get _ _ _ _ _ _ Hl (lookup_mid A B (x, d))). cbn [mbind res_bind dat next]. rewrite Hc.
  rewrite concat_mid, !zlen_app in Hk, Hbig. pose proof (zlen_nonneg (concat VA)). pose proof (zlen_nonneg (concat VB')). pose proof (keeps_length _ _ Hkp).
  rewrite (wrapu_small 64) by lia. destruct (Z.ltb_spec k (zlen (concat VA) + zlen vs)) as [Hlt|Hge'].
  - exists A, x, d, B, VA, vs, VB'. split_and!; try done.
  - destruct (IH (A ++ [(x, d)]) (VA ++ [vs]) VB' fuel) as (A' & x' & d' & B' & VA' & vs' & VB'' & E1 & E2 & E3 & E4 & E5); try (by rewrite <- app_assoc); [by rewrite !length_app, HA| |cbn in *; lia|].
    { rewrite concat_app, zlen_app. cbn. rewrite app_nil_r. lia. }
    exists A', x', d', B', VA', vs', VB''. split_and!; try done; try lia. rewrite concat_app, zlen_app in E5. cbn [concat] in E5. rewrite app_nil_r in E5.
    replace (loc_at (A ++ (x, d) :: B) (S (length A))) with (first_of B); [exact E5|]. rewrite <- first_of_drop, drop_app_ge by lia. by replace (S (length A) - length A)%nat with 1%nat by lia.
Qed.

Lemma seek_backward_spec h ns F vss k : lay h ns F -> rep ns vss -> zlen (concat vss) < 2 ^ 62 -> 0 <= k < zlen (concat vss) ->
  forall (A : nodes) (B : nodes) (VA VB : list (list bytes)) fuel, ns = A ++ B -> vss = VA ++ VB -> length A = length VA -> zlen (concat VB) <= k -> (length A < fuel)%nat ->
  exists (A' : nodes) x d B' VA' vs VB', ns = A' ++ (x, d) :: B' /\ vss = VA' ++ vs :: VB' /\ length A' = length VA' /\
    zlen (concat VB') <= k < zlen (concat VB') + zlen vs /\ seek_loop fuel h false (last_of A) (zlen (concat VB)) k = Ok (Some x, zlen (concat VB')).
Proof.
  intros Hl Hr Hbig Hk. induction A as [|[x d] A IH] using rev_ind; intros B VA VB fuel -> -> HA Hge Hfuel.
  { destruct VA; [|done]. cbn [app] in Hk. lia. }
  destruct VA as [|vs VA _] using rev_ind; [rewrite length_app in HA; cbn in HA; lia|]. rewrite !length_app in HA. cbn [length] in HA. assert (length A = length VA) as HA' by lia.
  destruct fuel as [|fuel]; [lia|]. rewrite length_app in Hfuel. cbn [length] in Hfuel. rewrite <- !app_assoc in *. cbn [app] in *.
  apply Forall2_app_inv in Hr as Hr'; [|done]. destruct Hr' as [_ HrB]. inversion HrB as [|? ? ? ? Hd HB]; subst. cbn [snd] in Hd. destruct Hd as (Hkp & Hc & _).
  rewrite last_of_snoc. cbn [seek_loop]. rewrite (lay_get _ _ _ _ _ _ Hl (lookup_mid A B (x, d))). cbn [mbind res_bind dat prev]. rewrite Hc.
  rewrite concat_mid, !zlen_app in Hk, Hbig. pose proof (zlen_nonneg (concat VA)). pose proof (zlen_nonneg (concat VB)). pose proof (keeps_length _ _ Hkp).
  rewrite (wrapu_small 64) by lia. destruct (Z.ltb_spec k (zlen (concat VB) + zlen vs)) as [Hlt|Hge'].
  - exists A, x, d, B, VA, vs, VB. split_and!; try done.
  - destruct (IH ((x, d) :: B) VA (vs :: VB) fuel) as (A' & x' & d' & B' & VA' & vs' & VB'' & E1 & E2 & E3 & E4 & E5); try done; [cbn [concat]; rewrite zlen_app; lia|lia|].
    exists A', x', d', B', VA', vs', VB''. split_and!; try done; try lia. cbn [concat] in E5. rewrite zlen_app, Z.add_comm in E5.
    replace (before_at (A ++ (x, d) :: B) (length A)) with (last_of A); [exact E5|]. rewrite <- last_of_take by (rewrite length_app; lia). by rewrite take_app_length.
Qed.

(** An index from the front, or from the back when negative. *)
Definition from_front (n i : Z) : Z := if i <? 0 then n + i else i.

Lemma split_values (vs : list bytes) k : 0 <= k < zlen vs -> exists L v R, vs = L ++ v :: R /\ zlen L = k.
Proof.
  intros Hk. destruct (lookup_lt_is_Some_2 vs (Z.to_nat k)) as [v Hv]; [unfold zlen in Hk; lia|]. exists (take (Z.to_nat k) vs), v, (drop (S (Z.to_nat k)) vs).
  split; [by rewrite take_drop_middle|]. by rewrite zlen_take by lia.
Qed.

Lemma qseek_spec h ns F vss ql (forward : bool) k : lay h ns F -> rep ns vss -> ends ql ns -> zlen (concat vss) < 2 ^ 62 -> 0 <= k < zlen (concat vss) ->
  exists (A : nodes) x d B VA vs VB, ns = A ++ (x, d) :: B /\ vss = VA ++ vs :: VB /\ length A = length VA /\
    let n := zlen (concat (if forward then VA else VB)) in
    n <= k < n + zlen vs /\ seek_loop (S (size h)) h forward (if forward then head_ ql else tail_ ql) 0 k = Ok (Some x, n).
Proof.
  intros Hl Hr He Hbig Hk. pose proof (lay_size _ _ _ Hl). destruct forward; cbv zeta.
  - rewrite (ends_first _ _ He). destruct (seek_forward_spec h ns F vss k Hl Hr Hbig Hk ns [] [] vss (S (size h))) as (A & x & d & B & VA & vs & VB & E1 & E2 & E3 & E4 & E5); try done; [cbn [concat]; rewrite zlen_nil; lia|lia|].
    by exists A, x, d, B, VA, vs, VB.
  - rewrite (ends_last _ _ He). destruct (seek_backward_spec h ns F vss k Hl Hr Hbig Hk ns [] vss [] (S (size h))) as (A & x & d & B & VA & vs & VB & E1 & E2 & E3 & E4 & E5); try (by rewrite ?app_nil_r); [by eapply Forall2_length|cbn [concat]; rewrite zlen_nil; lia|lia|].
    by exists A, x, d, B, VA, vs, VB.
Qed.

(** An offset from the end, computed in unsigned arithmetic. *)
Lemma offset_back index b : 0 <= b <= index -> index < 2 ^ 62 -> i64 (u64 (u64 (u64 (- index) - 1) + b)) = b - index - 1.
Proof.
  intros Hb Hi. destruct (decide (index = 0)) as [->|].
  - assert (b = 0) as -> by lia. reflexivity.
  - assert (forall x, - 2 ^ 63 <= x < 0 -> u64 x = x + 2 ^ 64) as Hneg by (intros x Hx; unfold wrapu; rewrite <- (Z_mod_plus_full x 1); apply Z.mod_small; lia).
    rewrite (Hneg (- index)) by lia. rewrite (wrapu_small 64 (_ - 1)) by lia. rewrite (wrapu_small 64) by lia. unfold wraps. replace (- index + 2 ^ 64 - 1 + b + 2 ^ (64 - 1)) with (b - index - 1 + 2 ^ 63 + 1 * 2 ^ 64) by lia.
    rewrite Z_mod_plus_full, Z.mod_small; lia.
Qed.

Lemma atIdx_spec P F h ql ns vss dir idx : qrep P F h ql ns vss -> is_i64 idx ->
  let j := from_front (zlen (concat vss)) idx in
  if (0 <=? j) && (j <? zlen (concat vss)) then
    exists (A : nodes) x d B VA L v R VB o, ns = A ++ (x, d) :: B /\ vss = VA ++ (L ++ v :: R) :: VB /\ length A = length VA /\ j = zlen (concat VA ++ L) /\ index_of L R o /\
      (o <? 0) = (idx <? 0) /\ quicklistGetIteratorAtIdx h ql dir idx = Ok (Some {| current := Some x; zi := None; offset := o; direction := dir |})
  else quicklistGetIteratorAtIdx h ql dir idx = Ok None.
Proof.
  intros Hq Hidx j. pose proof (weight_room _ (q_weight _ _ _ _ _ _ Hq)) as Hn. unfold quicklistGetIteratorAtIdx. rewrite (q_total _ _ _ _ _ _ Hq). set (n := zlen (concat vss)) in *.
  assert (- 2 ^ 63 <= idx < 2 ^ 63) as Hidx' by (unfold is_i64, INT64_MIN, INT64_MAX in Hidx; lia). set (index := u64 _). assert (index = if idx <? 0 then - idx - 1 else idx) as Ei.
  { unfold index. destruct (Z.ltb_spec idx 0); cbn [negb]; [|apply wrapu_small; lia]. destruct (decide (idx = - 2 ^ 63)) as [->|]; [reflexivity|]. rewrite !wraps_small by (rewrite ?wraps_small; lia). apply wrapu_small; lia. }
  assert (0 <= index) as Hi0 by (rewrite Ei; case_match; lia).
  assert ((0 <=? j) && (j <? n) = negb (n <=? index)) as -> by (rewrite Ei; unfold j, from_front; case_match; lia).
  destruct (Z.leb_spec n index) as [|Hlt]; cbn [negb]; [done|]. clearbody index. set (forward := negb (idx <? 0)) in *. set (shorter := u64 (n - 1) / 2 <? index).
  set (sf := if shorter then negb forward else forward). set (k := if shorter then u64 (n - 1 - index) else index).
  assert (k = if shorter then n - 1 - index else index) as Ek by (unfold k; destruct shorter; [apply wrapu_small; lia|done]).
  destruct (qseek_spec h ns F vss ql sf k (q_lay _ _ _ _ _ _ Hq) (q_rep _ _ _ _ _ _ Hq) (q_ends _ _ _ _ _ _ Hq) ltac:(lia)) as (A & x & d & B & VA & vs & VB & -> & -> & HA & Hb); [rewrite Ek; unfold n in *; destruct shorter; lia|].
  cbv zeta in Hb. destruct Hb as [Hb Es]. rewrite Es. cbn [mbind res_bind]. rewrite (lay_node _ _ _ _ _ _ (q_lay _ _ _ _ _ _ Hq) (lookup_mid A B (x, d))). cbn [mbind res_bind].
  pose proof (holds_at _ _ _ _ _ _ _ _ _ _ _ Hq HA) as (Hkp & Hc & _). rewrite Hc. pose proof (keeps_length _ _ Hkp). pose proof (zlen_nonneg (concat VA)). pose proof (zlen_nonneg (concat VB)).
  assert (n = zlen (concat VA) + zlen vs + zlen (concat VB)) as En by (unfold n; rewrite concat_mid, !zlen_app; lia).
  assert (0 <= j - zlen (concat VA) < zlen vs) as Hj. { unfold j, from_front. clear -Ek Hb Ei En. unfold sf, forward in *. destruct shorter, (idx <? 0); cbn [negb] in *; lia. }
  destruct (split_values vs _ Hj) as (L & v & R & -> & HL). rewrite zlen_app, zlen_cons in *. pose proof (zlen_nonneg L). pose proof (zlen_nonneg R).
  eexists A, x, d, B, VA, L, v, R, VB, (if idx <? 0 then - zlen R - 1 else zlen L). split; [done|]. split; [done|]. split; [done|]. split; [rewrite zlen_app; lia|]. split; [unfold index_of; destruct (idx <? 0); [by right|by left]|].
  split; [destruct (Z.ltb_spec idx 0); lia|]. cbn [quicklistGetIterator zi]. do 3 f_equal.
  assert ((if Bool.eqb sf forward then zlen (concat (if sf then VA else VB)) else u64 (n - (zlen L + (1 + zlen R)) - zlen (concat (if sf then VA else VB)))) = zlen (concat (if forward then VA else VB))) as ->.
  { destruct sf, forward; cbn [Bool.eqb]; try done; rewrite wrapu_small; lia. }
  unfold forward. unfold j, from_front in HL. destruct (Z.ltb_spec idx 0); cbn [negb].
  - rewrite offset_back; lia.
  - rewrite (wrapu_small 64) by lia. rewrite wraps_small; lia.
Qed.

(** ** Cursors *)

(** The bytes that an entry stands for. *)
Definition entry_reads (d : qnode) (ent : quicklistEntry) (v : bytes) : Prop :=
  match e_value ent with
  | Some q => exists b, entry d = Buffer b /\ rdn b q (e_sz ent) = Ok v /\ e_sz ent = zlen v
  | None => is_plain d = false /\ is_i64 (e_longval ent) /\ v = Util.decimal (e_longval ent)
  end.

(** The entry [ent] of the iterator is the value [v] of the node [x]. *)
Record located (iter : quicklistIter) (ent : quicklistEntry) (x : loc) (d : qnode) (L : list bytes) (v : bytes) (R : list bytes) : Prop := {
  l_raw : is_lzf d = false;
  l_current : current iter = Some x;
  l_node : e_node ent = Some x;
  l_zi : exists p, zi iter = Some p /\ e_zi ent = Some p /\ points d p L v R;
  l_index : index_of L R (offset iter);
  l_offset : e_offset ent = offset iter;
  l_reads : entry_reads d ent v
}.

(** The offset at which a node with the values [L ++ R] is entered, to go on
    from between them. *)
Definition enters (dir : qdirection) (d : qnode) (L R : list bytes) (o : Z) : Prop :=
  match dir with
  | AL_START_HEAD => match R with v :: R' => index_of L R' o | [] => o = zlen L /\ is_plain d = false end
  | AL_START_TAIL => match last L with Some v => exists L', L = L' ++ [v] /\ index_of L' R o | None => o = - zlen R - 1 /\ is_plain d = false end
  end.

(** The iterator stands between the values [before] and [after]. *)
Inductive cursor (P : option loc) (ns : nodes) (vss : list (list bytes)) (iter : quicklistIter) : list bytes -> list bytes -> Prop :=
  | cur_end : current iter = None -> P = None ->
      cursor P ns vss iter (match direction iter with AL_START_HEAD => concat vss | AL_START_TAIL => [] end) (match direction iter with AL_START_HEAD => [] | AL_START_TAIL => concat vss end)
  | cur_enter A x d B VA L R VB : ns = A ++ (x, d) :: B -> vss = VA ++ (L ++ R) :: VB -> length A = length VA -> waits P x ->
      current iter = Some x -> zi iter = None -> enters (direction iter) d L R (offset iter) -> cursor P ns vss iter (concat VA ++ L) (R ++ concat VB)
  | cur_at A x d B VA L v R VB p : ns = A ++ (x, d) :: B -> vss = VA ++ (L ++ v :: R) :: VB -> length A = length VA -> waits P x ->
      current iter = Some x -> zi iter = Some p -> is_lzf d = false -> points d p L v R -> index_of L R (offset iter) ->
      cursor P ns vss iter (concat VA ++ match direction iter with AL_START_HEAD => L ++ [v] | AL_START_TAIL => L end)
        (match direction iter with AL_START_HEAD => R | AL_START_TAIL => v :: R end ++ concat VB).

(** The entry at an element of a node that is open. *)
Lemma current_entry_spec h x d (L : list bytes) v R p o dir : node h x = Ok d -> keeps d (L ++ v :: R) -> is_lzf d = false -> points d p L v R -> index_of L R o ->
  yields (current_entry h x (is_plain d) p o) (fun ent => located {| current := Some x; zi := Some p; offset := o; direction := dir |} ent x d L v R).
Proof.
  intros Hx Hk Hz Hp Hi. unfold current_entry. rewrite Hx. cbn [mbind res_bind]. assert (i32 o = o) as Eo.
  { pose proof (keeps_length _ _ Hk) as Hl. rewrite zlen_app, zlen_cons in Hl. pose proof (zlen_nonneg L). pose proof (zlen_nonneg R). apply wraps_small; [lia|]. destruct Hi as [-> | ->]; lia. }
  destruct (is_plain d) eqn:Hpl.
  - apply yields_ok. destruct (keeps_plain d _ Hk Hz Hpl) as (r & s & Evs & Hb & Hs). split; try done; [by exists p|]. exists (r ++ s). split; [done|]. cbn [e_sz]. rewrite (rdn_raw r s _ Hs).
    destruct L as [|? [|]]; [|done|done]. injection Evs as -> _. done.
  - destruct Hp as [|(lp & le & e & re & Hlp & Hrep & -> & -> & -> & ->)]; [congruence|]. unfold as_bytes. rewrite Hlp. cbn [mbind res_bind]. destruct (get_at lp le e re Hrep) as (w & -> & Hw).
    cbn [mbind res_bind]. apply yields_ok. assert (points d (lppos le) (text <$> le) (text e) (text <$> re)) as Hpt by (right; by exists lp, le, e, re).
    destruct w as [[q n]|z]; (split; [done|done|done|by exists (lppos le)|done|done|]).
    + exists lp. by destruct Hw.
    + done.
Qed.

(** ** One step *)

Lemma plain_alone d (L : list bytes) v R : keeps d (L ++ v :: R) -> is_plain d = true -> L = [] /\ R = [].
Proof.
  intros (r & _ & Hc) Hp. unfold is_plain in Hp. apply bool_decide_eq_true_1 in Hp. rewrite Hp in Hc. destruct L as [|? [|]]; [by injection Hc as _ ->|done|done].
Qed.

(** Entering a node at the element [v]. *)
Lemma enter_step P F h ql (A : nodes) x d B VA L v R VB iter : qrep P F h ql (A ++ (x, d) :: B) (VA ++ (L ++ v :: R) :: VB) -> length A = length VA -> waits P x ->
  current iter = Some x -> zi iter = None -> index_of L R (offset iter) ->
  yields (next_step h ql iter) (fun r => exists d' iter' ent, r.2 = inr (iter', ent, true) /\ direction iter' = direction iter /\ (offset iter' <? 0) = (offset iter <? 0) /\
    qrep (Some x) F r.1 ql (A ++ (x, d') :: B) (VA ++ (L ++ v :: R) :: VB) /\ container d' = container d /\ located iter' ent x d' L v R).
Proof.
  intros Hq HA HP Hc Hz Hi. unfold next_step. rewrite Hc, Hz. rewrite (lay_node _ _ _ _ _ _ (q_lay _ _ _ _ _ _ Hq) (lookup_mid A B (x, d))). cbn [mbind res_bind].
  destruct (use_spec P F h ql A x d B _ Hq HP) as (h1 & -> & d' & Hq1 & Hz1 & Hcon & _). cbn [mbind res_bind].
  pose proof (lay_node _ _ _ _ _ _ (q_lay _ _ _ _ _ _ Hq1) (lookup_mid A B (x, d'))) as Hx. pose proof (holds_at _ _ _ _ _ _ _ _ _ _ _ Hq1 HA) as (Hk & _).
  assert (is_plain d = is_plain d') as Epl by (unfold is_plain; by rewrite Hcon). rewrite Epl.
  assert (exists p, points d' p L v R /\ (if is_plain d' then Ok (h1, Some 0, offset iter) else d ← node h1 x; b ← as_bytes d; p ← Listpack.lpSeek b (offset iter); Ok (h1, p, offset iter)) = Ok (h1, Some p, offset iter)) as (p & Hp & ->).
  { destruct (is_plain d') eqn:Hpl; [exists 0; split; [by left|done]|]. destruct (packed_at d' L v R Hk Hz1 Hpl) as (lp & le & e & re & Hlp & Hrep & -> & -> & ->). exists (lppos le). split; [right; by exists lp, le, e, re|].
    rewrite Hx. cbn [mbind res_bind]. unfold as_bytes. rewrite Hlp. cbn [mbind res_bind]. by rewrite (seek_at lp le e re _ Hrep (index_fmap _ _ _ _ Hi)). }
  cbn [mbind res_bind]. destruct (current_entry_spec h1 x d' L v R p (offset iter) (direction iter) Hx Hk Hz1 Hp Hi) as (ent & -> & Hloc). cbn [mbind res_bind]. apply yields_ok.
  by eexists d', _, ent.
Qed.

Lemma next_repr lp (l : list LP.elem) e r : repr lp (l ++ e :: r) -> Listpack.lpNext lp (lppos l) = Ok (match r with [] => None | _ => Some (lppos (l ++ [e])) end).
Proof. intros (num & slack & -> & Hn & Hok & Ht). by apply ListpackTheory.next_spec. Qed.

Lemma prev_repr lp (l : list LP.elem) e r : repr lp (l ++ e :: r) -> Listpack.lpPrev lp (lppos (l ++ [e])) = Ok (Some (lppos l)).
Proof. intros (num & slack & -> & Hn & Hok & Ht). by apply ListpackTheory.prev_spec. Qed.

Lemma prev_first_repr lp (es : list LP.elem) : repr lp es -> Listpack.lpPrev lp (lppos []) = Ok None.
Proof. intros (num & slack & -> & Hn & Hok & Ht). apply ListpackTheory.prev_first. Qed.

(** The position of the next element in the node, if there is one. *)
Definition neighbour (dir : qdirection) (L : list bytes) (v : bytes) (R : list bytes) : option (list bytes * bytes * list bytes) :=
  match dir with
  | AL_START_HEAD => match R with w :: R' => Some (L ++ [v], w, R') | [] => None end
  | AL_START_TAIL => match last L with Some w => Some (removelast L, w, v :: R) | None => None end
  end.

(** Moving the pointer of an open packed node. *)
Definition move (dir : qdirection) (b : bytes) (p o : Z) : res (option Z * Z) :=
  match dir with
  | AL_START_HEAD => p ← Listpack.lpNext b p; Ok (p, i64 (o + 1))
  | AL_START_TAIL => p ← Listpack.lpPrev b p; Ok (p, i64 (o - 1))
  end.

Lemma move_spec d p (L : list bytes) v R o dir b : keeps d (L ++ v :: R) -> is_plain d = false -> points d p L v R -> index_of L R o -> entry d = Buffer b ->
  yields (move dir b p o) (fun r =>
    match neighbour dir L v R with
    | Some (L', w, R') => L ++ v :: R = L' ++ w :: R' /\ exists p', r.1 = Some p' /\ points d p' L' w R' /\ index_of L' R' r.2
    | None => r.1 = None
    end).
Proof.
  intros Hk Hpl Hp Hi Hb. destruct Hp as [|(lp & le & e & re & Hlp & Hrep & -> & -> & -> & ->)]; [congruence|]. rewrite Hlp in Hb. injection Hb as <-.
  pose proof (keeps_length _ _ Hk) as Hl. rewrite zlen_app, zlen_cons, !zlen_fmap in Hl. apply index_fmap in Hi. pose proof (zlen_nonneg le). pose proof (zlen_nonneg re).
  assert (- 2 ^ 16 <= o < 2 ^ 16) as Ho by (destruct Hi as [-> | ->]; lia). unfold move. destruct dir; cbn [neighbour].
  - rewrite (next_repr lp le e re Hrep). cbn [mbind res_bind]. apply yields_ok. destruct re as [|e' re]; [done|]. cbn [fmap list_fmap fst snd]. split; [by rewrite <- app_assoc|].
    exists (lppos (le ++ [e])). split; [done|]. split; [right; exists lp, (le ++ [e]), e', re; rewrite fmap_app, <- app_assoc; by split_and!|].
    rewrite wraps_small by lia. unfold index_of. rewrite zlen_app, !zlen_fmap. change (zlen [text e]) with 1. unfold index_of in Hi. rewrite zlen_cons in Hi. destruct Hi as [-> | ->]; [left|right]; lia.
  - destruct le as [|e' le _] using rev_ind.
    + rewrite (prev_first_repr lp _ Hrep). by apply yields_ok.
    + rewrite <- app_assoc in Hrep. cbn [app] in Hrep. rewrite (prev_repr lp le e' _ Hrep). cbn [mbind res_bind]. apply yields_ok. rewrite fmap_app. cbn [fmap list_fmap]. rewrite last_snoc, removelast_last. cbn [fst snd].
      split; [by rewrite <- app_assoc|]. exists (lppos le). split; [done|]. split; [right; by exists lp, le, e', (e :: re)|].
      rewrite wraps_small by lia. unfold index_of. rewrite zlen_cons, !zlen_fmap. unfold index_of in Hi. rewrite zlen_app in Hi. change (zlen [e']) with 1 in Hi. destruct Hi as [-> | ->]; [left|right]; lia.
Qed.

(** An iterator before the nodes [B], or after the nodes [A]. *)
Definition at_border (dir : qdirection) (A B : nodes) : quicklistIter :=
  {| current := match dir with AL_START_HEAD => first_of B | AL_START_TAIL => last_of A end; zi := None;
     offset := match dir with AL_START_HEAD => 0 | AL_START_TAIL => -1 end; direction := dir |}.

Lemma cursor_border dir (A B : nodes) VA VB : rep (A ++ B) (VA ++ VB) -> length A = length VA -> cursor None (A ++ B) (VA ++ VB) (at_border dir A B) (concat VA) (concat VB).
Proof.
  intros Hr HA. pose proof Hr as Hr'. apply Forall2_app_inv in Hr' as [HrA HrB]; [|done]. destruct dir.
  - destruct HrB as [|[x d] vs B VB [Hk _] HrB].
    + pose proof (cur_end None (A ++ []) (VA ++ []) (at_border AL_START_HEAD A []) eq_refl eq_refl) as Hc. cbn [at_border direction] in Hc. by rewrite !app_nil_r in *.
    + destruct vs as [|v R]; [by destruct (keeps_length _ _ Hk)|].
      pose proof (cur_enter None (A ++ (x, d) :: B) (VA ++ (v :: R) :: VB) (at_border AL_START_HEAD A ((x, d) :: B)) A x d B VA [] (v :: R) VB eq_refl eq_refl HA ltac:(by left) eq_refl eq_refl) as Hc.
      rewrite app_nil_r in Hc. apply Hc. cbn. by left.
  - destruct A as [|[x d] A _] using rev_ind.
    + destruct VA; [|done]. exact (cur_end None B VB (at_border AL_START_TAIL [] B) eq_refl eq_refl).
    + apply Forall2_app_inv_l in HrA as (VA0 & VL & HrA & HrL & ->). inversion HrL as [|? vs ? VL' Hd HrL']; subst. inversion HrL'; subst. destruct Hd as [Hk _]. 
      destruct vs as [|v L _] using rev_ind; [by destruct (keeps_length _ _ Hk)|]. rewrite !length_app in HA. cbn [length] in HA.
      pose proof (cur_enter None ((A ++ [(x, d)]) ++ B) ((VA0 ++ [L ++ [v]]) ++ VB) (at_border AL_START_TAIL (A ++ [(x, d)]) B) A x d B VA0 (L ++ [v]) [] VB) as Hc.
      rewrite concat_app. cbn [concat]. rewrite app_nil_r. apply Hc; try done.
      * by rewrite <- app_assoc.
      * rewrite <- app_assoc. cbn [app]. by rewrite app_nil_r.
      * lia.
      * by left.
      * cbn [at_border current]. by rewrite last_of_snoc.
      * cbn [at_border direction offset enters]. rewrite last_snoc. exists L. split; [done|]. by right.
Qed.

(** Leaving a node. *)
Definition leave (h : heap) (ql : quicklist) (x : loc) (dir : qdirection) : res (heap * (quicklistIter + (quicklistIter * quicklistEntry * bool))) :=
  h ← quicklistCompress h ql x;
  n ← get h x;
  Ok (h, inl match dir with
             | AL_START_HEAD => {| current := next n; zi := None; offset := 0; direction := dir |}
             | AL_START_TAIL => {| current := prev n; zi := None; offset := -1; direction := dir |}
             end).

Lemma leave_spec P F h ql (A : nodes) x d B VA vs VB dir : qrep P F h ql (A ++ (x, d) :: B) (VA ++ vs :: VB) -> length A = length VA -> waits P x ->
  yields (leave h ql x dir) (fun r => exists (A' B' : nodes) VA' VB', r.2 = inl (at_border dir A' B') /\ qrep None F r.1 ql (A' ++ B') (VA' ++ VB') /\ length A' = length VA' /\
    VA' ++ VB' = VA ++ vs :: VB /\ match dir with AL_START_HEAD => VA' = VA ++ [vs] | AL_START_TAIL => VA' = VA end).
Proof.
  intros Hq HA HP. unfold leave. eapply yields_bind; [by eapply close_spec|]. intros h' (ns' & S & Hq'). destruct (sims_mid _ _ _ _ S) as (A' & d' & B' & -> & SA & _ & SB). cbn [fst snd] in *.
  pose proof (lay_here _ _ _ _ _ _ (q_lay _ _ _ _ _ _ Hq')) as Hx. unfold get. rewrite Hx. cbn [mbind res_bind next prev at_node]. apply yields_ok. pose proof (sims_length _ _ SA). destruct dir.
  - exists (A' ++ [(x, d')]), B', (VA ++ [vs]), VB. split; [done|]. rewrite <- !app_assoc. cbn [app]. split; [done|]. split; [rewrite !length_app; cbn; lia|done].
  - exists A', ((x, d') :: B'), VA, (vs :: VB). split; [done|]. split; [done|]. split; [lia|done].
Qed.

(** ** The next element *)

(** The value stepped over. *)
Definition stepped (dir : qdirection) (before after : list bytes) (VA : list (list bytes)) (L : list bytes) (v : bytes) (R : list bytes) (VB : list (list bytes)) : Prop :=
  match dir with
  | AL_START_HEAD => before = concat VA ++ L /\ after = v :: R ++ concat VB
  | AL_START_TAIL => before = (concat VA ++ L) ++ [v] /\ after = R ++ concat VB
  end.

Definition next_result F (ql : quicklist) (vss : list (list bytes)) (dir : qdirection) (before after : list bytes) (h : heap) (r : quicklistIter * quicklistEntry * bool) : Prop :=
  direction r.1.1 = dir /\
  if r.2 then exists (A : nodes) x d B VA L v R VB, qrep (Some x) F h ql (A ++ (x, d) :: B) vss /\ vss = VA ++ (L ++ v :: R) :: VB /\ length A = length VA /\
    located r.1.1 r.1.2 x d L v R /\ stepped dir before after VA L v R VB
  else current r.1.1 = None /\ (exists ns, qrep None F h ql ns vss) /\ match dir with AL_START_HEAD => after = [] | AL_START_TAIL => before = [] end.

Lemma border_step F h ql (A B : nodes) VA VB dir : qrep None F h ql (A ++ B) (VA ++ VB) -> length A = length VA ->
  yields (next_step h ql (at_border dir A B)) (fun r => exists r2, r.2 = inr r2 /\ next_result F ql (VA ++ VB) dir (concat VA) (concat VB) r.1 r2).
Proof.
  intros Hq HA. pose proof (q_rep _ _ _ _ _ _ Hq) as Hr. apply Forall2_app_inv in Hr as [HrA HrB]; [|done]. destruct dir.
  - destruct HrB as [|[x d] vs B VB [Hk _] HrB].
    { apply yields_ok. eexists. split; [done|]. split; [done|]. cbn. split; [done|]. split; [by exists (A ++ [])|done]. }
    destruct vs as [|v R]; [by destruct (keeps_length _ _ Hk)|]. eapply yields_mono; [apply (enter_step None F h ql A x d B VA [] v R VB _ Hq HA); [by left|done|done|by left]|].
    intros [h' r] (d' & iter' & ent & Er & Hdir & _ & Hq' & _ & Hloc). cbn [fst snd] in *. subst r. eexists. split; [done|]. split; [done|].
    exists A, x, d', B, VA, [], v, R, VB. split_and!; try done. split; [by rewrite app_nil_r|done].
  - destruct A as [|[x d] A _] using rev_ind.
    { destruct VA; [|done]. apply yields_ok. eexists. split; [done|]. split; [done|]. cbn. split; [done|]. split; [by exists B|done]. }
    apply Forall2_app_inv_l in HrA as (VA0 & VL & HrA & HrL & ->). inversion HrL as [|? vs ? VL' [Hk _] HrL']; subst. inversion HrL'; subst. rewrite !length_app in HA. cbn [length] in HA.
    destruct vs as [|v L _] using rev_ind; [by destruct (keeps_length _ _ Hk)|]. rewrite <- !app_assoc in *. cbn [app] in *.
    eapply yields_mono; [apply (enter_step None F h ql A x d B VA0 L v [] VB _ Hq ltac:(lia)); [by left|cbn; by rewrite last_of_snoc|done|by right]|].
    intros [h' r] (d' & iter' & ent & Er & Hdir & _ & Hq' & _ & Hloc). cbn [fst snd] in *. subst r. eexists. split; [done|]. split; [done|].
    exists A, x, d', B, VA0, L, v, [], VB. split_and!; try done; [lia|]. split; [|done]. rewrite concat_app. cbn. by rewrite app_nil_r, app_assoc.
Qed.

(** The iterator has moved to the border of a node. *)
Definition left_at F (ql : quicklist) (vss : list (list bytes)) (dir : qdirection) (before after : list bytes) (h : heap) (iter : quicklistIter) : Prop :=
  exists (A B : nodes) VA VB, iter = at_border dir A B /\ qrep None F h ql (A ++ B) (VA ++ VB) /\ length A = length VA /\ vss = VA ++ VB /\ before = concat VA /\ after = concat VB.

Definition step_result F ql vss dir before after (r : heap * (quicklistIter + quicklistIter * quicklistEntry * bool)) : Prop :=
  match r.2 with inl iter => left_at F ql vss dir before after r.1 iter | inr r2 => next_result F ql vss dir before after r.1 r2 end.

Lemma next_loop_spec F h ql iter vss dir before after n : yields (next_step h ql iter) (step_result F ql vss dir before after) ->
  yields (next_loop (S (S n)) h ql iter) (fun '(h', iter', ent, found) => next_result F ql vss dir before after h' (iter', ent, found)).
Proof.
  intros Hs. cbn [next_loop]. eapply yields_bind; [exact Hs|]. intros [h1 [iter1|[[iter1 ent] found]]] Hr; unfold step_result in Hr; cbn [fst snd] in Hr; [|by apply yields_ok].
  destruct Hr as (A & B & VA & VB & -> & Hq & HA & -> & -> & ->). eapply yields_bind; [by apply border_step|]. intros [h2 r] (r2 & Er & Hr2). cbn [fst snd] in *. subst r. destruct r2 as [[iter2 ent] found]. by apply yields_ok.
Qed.

(** Leaving the node after (or before) all of its values. *)
Lemma leave_result P F h ql (A : nodes) x d B VA vs VB dir : qrep P F h ql (A ++ (x, d) :: B) (VA ++ vs :: VB) -> length A = length VA -> waits P x ->
  yields (leave h ql x dir) (step_result F ql (VA ++ vs :: VB) dir (match dir with AL_START_HEAD => concat VA ++ vs | AL_START_TAIL => concat VA end)
    (match dir with AL_START_HEAD => concat VB | AL_START_TAIL => vs ++ concat VB end)).
Proof.
  intros Hq HA HP. eapply yields_mono; [by eapply leave_spec|]. intros [h' r] (A' & B' & VA' & VB' & Er & Hq' & HA' & Ev & Hdir). cbn [fst snd] in *. subst r.
  exists A', B', VA', VB'. split_and!; try done.
  - destruct dir; subst VA'; [|done]. rewrite concat_app. cbn. by rewrite app_nil_r.
  - destruct dir; subst VA'.
    + rewrite <- app_assoc in Ev. by apply app_inv_head in Ev as [= ->].
    + by apply app_inv_head in Ev as ->.
Qed.

(** Entering a packed node where it has no value ahead. *)
Lemma enter_empty P F h ql (A : nodes) x d B VA vs VB iter : qrep P F h ql (A ++ (x, d) :: B) (VA ++ vs :: VB) -> length A = length VA -> waits P x ->
  current iter = Some x -> zi iter = None -> is_plain d = false -> offset iter = match direction iter with AL_START_HEAD => zlen vs | AL_START_TAIL => - zlen vs - 1 end ->
  yields (next_step h ql iter) (step_result F ql (VA ++ vs :: VB) (direction iter) (match direction iter with AL_START_HEAD => concat VA ++ vs | AL_START_TAIL => concat VA end)
    (match direction iter with AL_START_HEAD => concat VB | AL_START_TAIL => vs ++ concat VB end)).
Proof.
  intros Hq HA HP Hc Hz Hpl Ho. unfold next_step. rewrite Hc, Hz. rewrite (lay_node _ _ _ _ _ _ (q_lay _ _ _ _ _ _ Hq) (lookup_mid A B (x, d))). cbn [mbind res_bind]. rewrite Hpl.
  destruct (use_spec P F h ql A x d B _ Hq HP) as (h1 & -> & d' & Hq1 & Hz1 & Hcon & _). cbn [mbind res_bind].
  rewrite (lay_node _ _ _ _ _ _ (q_lay _ _ _ _ _ _ Hq1) (lookup_mid A B (x, d'))). cbn [mbind res_bind]. pose proof (holds_at _ _ _ _ _ _ _ _ _ _ _ Hq1 HA) as (Hk & _).
  destruct (keeps_packed d' vs Hk Hz1) as (lp & es & Hlp & Hrep & Evs & _); [unfold is_plain in *; by rewrite Hcon|]. unfold as_bytes. rewrite Hlp. cbn [mbind res_bind].
  rewrite (seek_repr lp es _ Hrep). cbv zeta. assert ((0 <=? ListpackTheory.norm_index es (offset iter)) && (ListpackTheory.norm_index es (offset iter) <? zlen es) = false) as ->.
  { rewrite Ho, Evs. rewrite !zlen_fmap. unfold ListpackTheory.norm_index. pose proof (zlen_nonneg es). destruct (direction iter); case_match; lia. }
  cbn [mbind res_bind]. by apply (leave_result (Some x) F h1 ql A x d' B VA vs VB (direction iter) Hq1 HA ltac:(by right)).
Qed.

Lemma neighbour_stepped dir (L : list bytes) v R L' w R' VA VB : neighbour dir L v R = Some (L', w, R') ->
  stepped dir (concat VA ++ match dir with AL_START_HEAD => L ++ [v] | AL_START_TAIL => L end) (match dir with AL_START_HEAD => R | AL_START_TAIL => v :: R end ++ concat VB) VA L' w R' VB.
Proof.
  destruct dir; cbn [neighbour stepped].
  - destruct R as [|? R]; [done|]. by intros [= <- <- <-].
  - destruct L as [|? L _] using rev_ind; [done|]. rewrite last_snoc, removelast_last. intros [= <- <- <-]. by rewrite app_assoc.
Qed.

Lemma neighbour_none dir (L : list bytes) v R : neighbour dir L v R = None -> match dir with AL_START_HEAD => R = [] | AL_START_TAIL => L = [] end.
Proof. destruct dir; cbn [neighbour]; [by destruct R|]. destruct L as [|? L _] using rev_ind; [done|]. by rewrite last_snoc. Qed.

(** From an element of an open node. *)
Lemma at_step P F h ql (A : nodes) x d B VA L v R VB iter p : qrep P F h ql (A ++ (x, d) :: B) (VA ++ (L ++ v :: R) :: VB) -> length A = length VA -> waits P x ->
  current iter = Some x -> zi iter = Some p -> is_lzf d = false -> points d p L v R -> index_of L R (offset iter) ->
  yields (next_step h ql iter) (step_result F ql (VA ++ (L ++ v :: R) :: VB) (direction iter) (concat VA ++ match direction iter with AL_START_HEAD => L ++ [v] | AL_START_TAIL => L end)
    (match direction iter with AL_START_HEAD => R | AL_START_TAIL => v :: R end ++ concat VB)).
Proof.
  intros Hq HA HP Hc Hz Hlz Hp Hi. unfold next_step. rewrite Hc, Hz. pose proof (lay_node _ _ _ _ _ _ (q_lay _ _ _ _ _ _ Hq) (lookup_mid A B (x, d))) as Hx. rewrite Hx. cbn [mbind res_bind].
  pose proof (holds_at _ _ _ _ _ _ _ _ _ _ _ Hq HA) as (Hk & _).
  assert (neighbour (direction iter) L v R = None -> yields (leave h ql x (direction iter)) (step_result F ql (VA ++ (L ++ v :: R) :: VB) (direction iter)
    (concat VA ++ match direction iter with AL_START_HEAD => L ++ [v] | AL_START_TAIL => L end) (match direction iter with AL_START_HEAD => R | AL_START_TAIL => v :: R end ++ concat VB))) as Hleave.
  { intros Hn%neighbour_none. pose proof (leave_result P F h ql A x d B VA (L ++ v :: R) VB (direction iter) Hq HA HP) as Hl. destruct (direction iter); subst; cbn [app] in *; [exact Hl|by rewrite app_nil_r]. }
  destruct (is_plain d) eqn:Hpl.
  { cbn [mbind res_bind]. apply Hleave. destruct (plain_alone d L v R Hk Hpl) as [-> ->]. by destruct (direction iter). }
  pose proof Hp as Hp'. destruct Hp' as [|(lp & le & e & re & Hlp & _)]; [congruence|]. unfold as_bytes. rewrite Hlp. cbn [mbind res_bind].
  destruct (move_spec d p L v R (offset iter) (direction iter) lp Hk Hpl Hp Hi Hlp) as ([p' o'] & Em & Hmv). cbn [fst snd] in Hmv.
  assert ((match direction iter with
           | AL_START_HEAD => p0 ← Listpack.lpNext lp p; Ok (h, p0, i64 (offset iter + 1))
           | AL_START_TAIL => p0 ← Listpack.lpPrev lp p; Ok (h, p0, i64 (offset iter - 1))
           end) = Ok (h, p', o')) as ->.
  { unfold move in Em. destruct (direction iter); [destruct (Listpack.lpNext lp p)|destruct (Listpack.lpPrev lp p)]; cbn in Em |- *; congruence. }
  cbn [mbind res_bind]. destruct (neighbour (direction iter) L v R) as [[[L' w] R']|] eqn:En.
  - destruct Hmv as (Evs & p1 & -> & Hp1 & Hi1). rewrite Evs in Hk, Hq |- *.
    destruct (current_entry_spec h x d L' w R' p1 o' (direction iter) Hx Hk Hlz Hp1 Hi1) as (ent & E & Hloc). rewrite Hpl in E. rewrite E. cbn [mbind res_bind]. apply yields_ok. split; [done|].
    exists A, x, d, B, VA, L', w, R', VB. split; [by eapply qrep_waits|]. split_and!; try done. by apply neighbour_stepped.
  - subst p'. by apply Hleave.
Qed.

Lemma qnext_spec P F h ql ns vss iter before after : qrep P F h ql ns vss -> cursor P ns vss iter before after ->
  yields (quicklistNext h ql iter) (fun '(h', iter', ent, found) => next_result F ql vss (direction iter) before after h' (iter', ent, found)).
Proof.
  intros Hq Hc. unfold quicklistNext. apply next_loop_spec. destruct Hc as [Hc ->|A x d B VA L R VB -> -> HA HP Hc Hz He|A x d B VA L v R VB p -> -> HA HP Hc Hz Hlz Hp Hi].
  - unfold next_step. rewrite Hc. apply yields_ok. split; [done|]. cbn [fst snd]. split; [done|]. split; [by exists ns|by destruct (direction iter)].
  - assert (forall (L0 : list bytes) v R0, L ++ R = L0 ++ v :: R0 -> index_of L0 R0 (offset iter) -> stepped (direction iter) (concat VA ++ L) (R ++ concat VB) VA L0 v R0 VB ->
      yields (next_step h ql iter) (step_result F ql (VA ++ (L ++ R) :: VB) (direction iter) (concat VA ++ L) (R ++ concat VB))) as Hsome.
    { intros L0 v R0 Evs Hi Hst. rewrite Evs in *. eapply yields_mono; [by apply (enter_step P F h ql A x d B VA L0 v R0 VB iter Hq HA HP Hc Hz Hi)|].
      intros [h' r] (d' & iter' & ent & Er & Hdir & _ & Hq' & _ & Hloc). cbn [fst snd] in *. subst r. split; [done|]. by exists A, x, d', B, VA, L0, v, R0, VB. }
    destruct (direction iter) eqn:Hdir; cbn [enters] in He.
    + destruct R as [|v R]; [|by apply (Hsome L v R)]. destruct He as [Ho Hpl]. rewrite app_nil_r in *. pose proof (enter_empty P F h ql A x d B VA L VB iter Hq HA HP Hc Hz Hpl) as Hs. rewrite Hdir in Hs. by apply Hs.
    + destruct L as [|v L _] using rev_ind.
      * destruct He as [Ho Hpl]. cbn [app] in *. rewrite app_nil_r. pose proof (enter_empty P F h ql A x d B VA R VB iter Hq HA HP Hc Hz Hpl) as Hs. rewrite Hdir in Hs. by apply Hs.
      * rewrite last_snoc in He. destruct He as (L' & [<- _]%app_inj_2 & Hi); [|done]. apply (Hsome L v R); [by rewrite <- app_assoc|done|by rewrite app_assoc].
  - by apply (at_step P F h ql A x d B VA L v R VB iter p).
Qed.

(** ** Using the element *)

(** Where the iterator stands once it has stepped over its entry. *)
Lemma located_cursor iter ent (A : nodes) x d B VA L v R VB : length A = length VA -> located iter ent x d L v R ->
  cursor (Some x) (A ++ (x, d) :: B) (VA ++ (L ++ v :: R) :: VB) iter (concat VA ++ match direction iter with AL_START_HEAD => L ++ [v] | AL_START_TAIL => L end)
    (match direction iter with AL_START_HEAD => R | AL_START_TAIL => v :: R end ++ concat VB).
Proof. intros HA [Hz Hc Hn (p & Hzi & _ & Hp) Hi Ho Hr]. eapply cur_at; try done. by right. Qed.

(** The bytes of an entry, as a caller reads them. *)
Definition entry_bytes (h : heap) (ent : quicklistEntry) : res bytes :=
  match e_value ent with
  | Some q => x ← the (e_node ent); d ← node h x; b ← as_bytes d; rdn b q (e_sz ent)
  | None => Ok (Util.decimal (e_longval ent))
  end.

Lemma entry_bytes_spec P F h ql (A : nodes) x d B vss iter ent L v R : qrep P F h ql (A ++ (x, d) :: B) vss -> located iter ent x d L v R -> entry_bytes h ent = Ok v.
Proof.
  intros Hq Hloc. unfold entry_bytes. rewrite (l_node _ _ _ _ _ _ _ Hloc). pose proof (l_reads _ _ _ _ _ _ _ Hloc) as Hr. unfold entry_reads in Hr. destruct (e_value ent) as [q|]; [|by destruct Hr as (_ & _ & ->)].
  destruct Hr as (b & Hb & Hv & _). cbn [the mbind res_bind]. rewrite (lay_node _ _ _ _ _ _ (q_lay _ _ _ _ _ _ Hq) (lookup_mid A B (x, d))). cbn [mbind res_bind]. unfold as_bytes. rewrite Hb. cbn [mbind res_bind]. exact Hv.
Qed.

(** [quicklistGetIteratorEntryAtIdx] *)
Lemma entryAtIdx_spec F h ql ns vss idx : qrep None F h ql ns vss -> is_i64 idx ->
  let j := from_front (zlen (concat vss)) idx in
  yields (quicklistGetIteratorEntryAtIdx h ql idx) (fun r =>
    if (0 <=? j) && (j <? zlen (concat vss)) then
      exists iter ent (A : nodes) x d B VA L v R VB, r.2 = Some (iter, ent) /\ qrep (Some x) F r.1 ql (A ++ (x, d) :: B) vss /\ vss = VA ++ (L ++ v :: R) :: VB /\ length A = length VA /\
        located iter ent x d L v R /\ direction iter = AL_START_TAIL /\ j = zlen (concat VA ++ L)
    else r = (h, None)).
Proof.
  intros Hq Hi j. unfold quicklistGetIteratorEntryAtIdx. pose proof (atIdx_spec None F h ql ns vss AL_START_TAIL idx Hq Hi) as Ha. cbv zeta in Ha. fold j in Ha.
  destruct ((0 <=? j) && (j <? zlen (concat vss))); [|rewrite Ha; by apply yields_ok]. destruct Ha as (A & x & d & B & VA & L & v & R & VB & o & -> & -> & HA & Hj & Ho & _ & ->). cbn [mbind res_bind].
  set (iter := {| current := _ |}). destruct (enter_step None F h ql A x d B VA L v R VB iter Hq HA ltac:(by left) eq_refl eq_refl Ho) as ([h1 r1] & E & d' & iter' & ent & Er & Hdir & _ & Hq1 & _ & Hloc). cbn [fst snd] in *.
  unfold quicklistNext. cbn [next_loop]. rewrite E. cbn [mbind res_bind]. rewrite Er. cbn [mbind res_bind cassert]. apply yields_ok. by exists iter', ent, A, x, d', B, VA, L, v, R, VB.
Qed.

Lemma releaseIterator_spec P F h ql (A : nodes) x d B vss iter : qrep P F h ql (A ++ (x, d) :: B) vss -> waits P x -> current iter = Some x ->
  yields (quicklistReleaseIterator h ql (Some iter)) (fun h' => exists ns', sims (A ++ (x, d) :: B) ns' /\ qrep None F h' ql ns' vss).
Proof. intros Hq HP Hc. unfold quicklistReleaseIterator. rewrite Hc. by eapply close_spec. Qed.

Lemma first_of_at (ns : nodes) : first_of ns = loc_at ns 0.
Proof. by destruct ns. Qed.

(** [quicklistDelEntry] on an iterator that counts from its own end. *)
Lemma delEntry_spec F h ql (A : nodes) x d B VA L v R VB iter ent : qrep (Some x) F h ql (A ++ (x, d) :: B) (VA ++ (L ++ v :: R) :: VB) -> length A = length VA -> located iter ent x d L v R ->
  (offset iter <? 0) = match direction iter with AL_START_HEAD => false | AL_START_TAIL => true end ->
  yields (quicklistDelEntry h ql iter ent) (fun '(h', ql', iter') => same_options ql ql' /\ direction iter' = direction iter /\
    exists P' ns' vss', qrep P' F h' ql' ns' vss' /\ cursor P' ns' vss' iter' (concat VA ++ L) (R ++ concat VB)).
Proof.
  intros Hq HA Hloc Hoff. pose proof Hloc as [Hz Hc Hn (p & Hzi & Hezi & Hp) Hi _ _]. unfold quicklistDelEntry. rewrite Hn. cbn [the mbind res_bind].
  unfold get. rewrite (lay_here _ _ _ _ _ _ (q_lay _ _ _ _ _ _ Hq)). cbn [mbind res_bind next prev at_node]. rewrite Hezi. cbn [default].
  eapply yields_bind; [apply (delIndex_spec Hhtab (Some x) F h ql A x d B VA L v R VB p Hq HA ltac:(by right) Hz Hp)|]. intros [[[h' ql'] gone] np] [Ho Hg]. apply yields_ok. split; [done|].
  pose proof (zlen_nonneg L). pose proof (zlen_nonneg R). destruct gone.
  - destruct Hg as (-> & -> & ns' & S & Hq'). split; [by destruct (direction iter)|]. apply Forall2_app_inv_l in S as (A' & B' & SA & SB & ->). exists None, (A' ++ B'), (VA ++ VB). split; [done|].
    pose proof (cursor_border (direction iter) A' B' VA VB (q_rep _ _ _ _ _ _ Hq')) as Hcur. rewrite app_nil_r. cbn [app].
    assert ((match direction iter with AL_START_HEAD => {| current := first_of B; zi := None; offset := 0; direction := direction iter |} | AL_START_TAIL => {| current := last_of A; zi := None; offset := -1; direction := direction iter |} end) = at_border (direction iter) A' B') as ->.
    { unfold at_border. destruct (direction iter); f_equal; [by rewrite !first_of_at, (sims_loc_at _ _ _ SB)|].
      rewrite !last_of_at, (sims_length _ _ SA). by rewrite (sims_loc_at _ _ _ SA). }
    apply Hcur. rewrite (sims_length _ _ SA). done.
  - destruct Hg as (d' & Hq' & Hz' & _ & Hpl'). split; [done|]. exists (Some x), (A ++ (x, d') :: B), (VA ++ (L ++ R) :: VB). split; [done|]. eapply cur_enter; try done; [by right|]. cbn [direction offset].
    unfold index_of in Hi. destruct (direction iter) eqn:Hdir; cbn [enters].
    + apply Z.ltb_ge in Hoff. destruct Hi as [ -> | ]; [|lia]. destruct R; [done|by left].
    + apply Z.ltb_lt in Hoff. destruct Hi as [ | -> ]; [lia|]. destruct L as [|w L _] using rev_ind; [done|]. rewrite last_snoc. exists L. split; [done|by right].
Qed.

End iter.
End QuicklistIter.
