(* ===== verification/QuicklistRange.v ===== *)
(** * Quicklists: deleting a range

    [quicklistDelRange] walks over the nodes that the range covers, drops whole
    nodes, and shortens the first and the last one. *)

From S2P Require Import Prelude Util ListpackEnc Listpack ListpackTheory ListpackSpec Lzf LzfSpec Dll Quicklist QuicklistNode QuicklistLink QuicklistValues QuicklistOps QuicklistEdit QuicklistIter.
From stdpp Require Import list gmap fin_maps.
#[local] Open Scope Z_scope.

Module QuicklistRange.
Import Dll Quicklist QuicklistNode QuicklistLink QuicklistValues QuicklistOps QuicklistEdit QuicklistIter.

#[local] Abbreviation nodes := (list (loc * qnode)).
#[local] Abbreviation repr := ListpackTheory.repr.
#[local] Abbreviation lptotal := ListpackTheory.total.
#[local] Abbreviation text := LP.text.

Section range.
Context `{Allocator} `{Environment} (Hhtab : LzfSpec.valid_htab htab).

(** ** One node *)

(** The values [M] of a node follow the offset [o]. *)
Definition range_at (L M : list bytes) (o : Z) : Prop := M <> [] /\ (o = zlen L \/ o = - zlen M).

(** What the loop works out for a node: whether it goes as a whole, and how many
    elements it loses. *)
Definition plan (o extent cnt : Z) : bool * Z :=
  if (o =? 0) && (cnt <=? extent) then (true, cnt)
  else if (0 <=? o) && (cnt <=? u64 (extent + o)) then (false, u64 (cnt - o))
  else if o <? 0 then (false, if extent <? u64 (- o) then extent else u64 (- o))
  else (false, extent).

Lemma zlen_positive {T} (l : list T) : l <> [] -> 0 < zlen l.
Proof. destruct l; [done|]. rewrite zlen_cons. pose proof (zlen_nonneg l). lia. Qed.

Lemma plan_spec (L M : list bytes) o extent : range_at L M o -> zlen (L ++ M) < 2 ^ 16 -> 0 < extent < 2 ^ 62 ->
  let '(entire, del) := plan o extent (zlen (L ++ M)) in del = Z.min extent (zlen M) /\ (entire = true -> L = [] /\ del = zlen M).
Proof.
  intros [HM Ho] Hl He. apply zlen_positive in HM. rewrite zlen_app in *. pose proof (zlen_nonneg L). unfold plan.
  assert (- 2 ^ 16 < o < 2 ^ 16) as Hob by lia. destruct (Z.eqb_spec o 0) as [->|Hne]; cbn [andb].
  { assert (zlen L = 0) as EL by lia. destruct (Z.leb_spec (zlen L + zlen M) extent) as [Hc|Hc]; [split; [lia|]; intros _; split; [by apply zlen_nil_inv|lia]|].
    cbn [Z.leb Z.compare Z.ltb andb]. rewrite (wrapu_small 64) by lia. rewrite (proj2 (Z.leb_gt _ _)) by lia. cbn [andb]. split; [lia|done]. }
  destruct (Z.leb_spec 0 o) as [Hp|Hn]; cbn [andb].
  - rewrite (wrapu_small 64) by lia. destruct (Z.leb_spec (zlen L + zlen M) (extent + o)) as [Hc|Hc].
    + rewrite (wrapu_small 64) by lia. split; [lia|done].
    + rewrite (proj2 (Z.ltb_ge o 0)) by lia. split; [lia|done].
  - rewrite (proj2 (Z.ltb_lt o 0)) by lia. rewrite (wrapu_small 64) by lia. destruct (Z.ltb_spec extent (- o)); (split; [lia|done]).
Qed.

(** Removing the range from the listpack of the node. *)
Lemma remove_range_at (le me : list LP.elem) o k : me <> [] -> (o = zlen le \/ o = - zlen me) -> 0 <= k ->
  ListpackTheory.remove_range (le ++ me) o k = le ++ drop (Z.to_nat k) me.
Proof.
  intros Hm Ho Hk. apply zlen_positive in Hm. pose proof (zlen_nonneg le). unfold ListpackTheory.remove_range, ListpackTheory.norm_index. cbv zeta.
  assert ((if o <? 0 then zlen (le ++ me) + o else o) = zlen le) as -> by (rewrite zlen_app; destruct Ho as [-> | ->]; case_match; lia).
  rewrite (proj2 (Z.leb_le _ _)), (proj2 (Z.ltb_lt _ _)) by (rewrite ?zlen_app; lia). cbn [andb]. by rewrite to_nat_zlen, take_app_length, drop_app_length.
Qed.

(** The rest of the list after one node of the range: what precedes it, and the
    nodes after it as they were. *)
Definition range_step F (ql : quicklist) (B : nodes) VB (pre : list bytes) (r : heap * quicklist) : Prop :=
  exists (A' B' : nodes) VA', qrep None F r.1 r.2 (A' ++ B') (VA' ++ VB) /\ length A' = length VA' /\ sims B B' /\ concat VA' = pre /\ same_options ql r.2.

Lemma drop_node_spec F h ql (A : nodes) x d B VA vs VB : qrep None F h ql (A ++ (x, d) :: B) (VA ++ vs :: VB) -> length A = length VA ->
  yields (__quicklistDelNode h ql x) (range_step F ql B VB (concat VA)).
Proof.
  intros Hq HA. pose proof (holds_at _ _ _ _ _ _ _ _ _ _ _ Hq HA) as (Hk & Hc & _).
  eapply yields_mono; [apply (qrep_delNode Hhtab None F h h ql A x d d B VA vs VB Hq HA ltac:(by left) (q_lay _ _ _ _ _ _ Hq) ltac:(done))|]. intros [h' ql'] (ns' & S & Ho & Ht & Hfin). cbn [fst snd] in *.
  apply Forall2_app_inv_l in S as (A' & B' & SA & SB & ->). exists A', B', VA. cbn [fst snd]. split; [|split; [rewrite (sims_length _ _ SA); done|done]].
  apply Hfin; try done. rewrite Ht, Hc, (q_total _ _ _ _ _ _ Hq). pose proof (weight_room _ (q_weight _ _ _ _ _ _ Hq)) as Hr. pose proof (keeps_length _ _ Hk). rewrite concat_mid, !zlen_app in *. rewrite concat_app, zlen_app.
  pose proof (zlen_nonneg (concat VA)). pose proof (zlen_nonneg (concat VB)). rewrite wrapu_small; lia.
Qed.

Lemma stored_range lp es d n : set_count n (set_sz (lptotal es) (set_entry (Buffer lp) d)) = set_count n (stored lp es d).
Proof. done. Qed.

(** Shortening an open packed node. *)
Definition shorten (h : heap) (ql : quicklist) (x : loc) (o del : Z) : res (heap * quicklist) :=
  h ← quicklistDecompressNodeForUse h x;
  d ← node h x;
  b ← as_bytes d;
  b ← Listpack.lpDeleteRange b o del;
  h ← set_entry_of h x (Buffer b);
  h ← quicklistNodeUpdateSz h x;
  h ← add_count h x (- del);
  let ql := with_total ql (total ql - del) in
  d ← node h x;
  if count d =? 0 then __quicklistDelNode h ql x
  else h ← quicklistRecompressOnly h x; Ok (h, ql).

Lemma shorten_spec F h ql (A : nodes) x d B VA L M VB o k : qrep None F h ql (A ++ (x, d) :: B) (VA ++ (L ++ M) :: VB) -> length A = length VA -> is_plain d = false -> range_at L M o -> 0 < k <= zlen M ->
  yields (shorten h ql x o k) (range_step F ql B VB (concat VA ++ L ++ drop (Z.to_nat k) M)).
Proof.
  intros Hq HA Hpl [HM Ho] Hk. unfold shorten. destruct (use_spec None F h ql A x d B _ Hq ltac:(by left)) as (h1 & -> & d1 & Hq1 & Hz1 & Hcon & _). cbn [mbind res_bind].
  rewrite (lay_node _ _ _ _ _ _ (q_lay _ _ _ _ _ _ Hq1) (lookup_mid A B (x, d1))). cbn [mbind res_bind]. pose proof (holds_at _ _ _ _ _ _ _ _ _ _ _ Hq1 HA) as (Hkp & Hc & Hdc).
  assert (is_plain d1 = false) as Hpl1 by (unfold is_plain in *; by rewrite Hcon). destruct (keeps_packed d1 _ Hkp Hz1 Hpl1) as (lp & es & Hlp & Hrep & Evs & Hn & _). symmetry in Evs. apply fmap_app_inv in Evs as (le & me & -> & -> & ->).
  rewrite zlen_fmap in Hk. rewrite !zlen_fmap in Ho. pose proof (zlen_nonneg le). assert (me <> []) as Hme by (by intros ->). rewrite zlen_app in Hn. unfold as_bytes. rewrite Hlp. cbn [mbind res_bind].
  destruct (ListpackTheory.delete_range_spec lp (le ++ me) o k Hrep) as (lp' & -> & Hrep'); [unfold is_i64, INT64_MIN, INT64_MAX; lia|unfold is_u64, UINT64_MAX; lia|]. cbn [mbind res_bind].
  rewrite remove_range_at in Hrep' by (done || lia). set (es' := le ++ drop (Z.to_nat k) me) in *. rewrite (lay_at _ _ _ _ _ _ _ _ _ Hq1) at 1. rewrite set_entry_put. cbn [mbind res_bind].
  erewrite update_sz_put; [|reflexivity|exact Hrep']. cbn [mbind res_bind]. rewrite add_count_put. cbn [mbind res_bind]. rewrite node_put. cbn [mbind res_bind count set_count set_sz set_entry].
  assert (zlen es' = zlen le + zlen me - k) as El by (unfold es'; rewrite zlen_app; unfold zlen; rewrite length_drop; unfold zlen in *; lia).
  assert (u16 (count d1 + - k) = zlen es') as Ec by (rewrite Hc, zlen_app, !zlen_fmap; rewrite wrapu_small; lia). rewrite Ec.
  assert ((text <$> le) ++ drop (Z.to_nat k) (text <$> me) = text <$> es') as Et by (unfold es'; by rewrite fmap_app, fmap_drop). rewrite Et.
  pose proof (weight_room _ (q_weight _ _ _ _ _ _ Hq1)) as Hroom. pose proof (q_total _ _ _ _ _ _ Hq1) as Htot. rewrite concat_mid, !zlen_app, !zlen_fmap in Hroom, Htot. pose proof (zlen_nonneg (concat VA)). pose proof (zlen_nonneg (concat VB)).
  assert (weight (text <$> es') <= weight ((text <$> le) ++ (text <$> me))) as Hwle.
  { rewrite <- Et, !weight_app. pose proof (f_equal weight (take_drop (Z.to_nat k) (text <$> me))) as Etd. rewrite weight_app in Etd. pose proof (weight_nonneg (take (Z.to_nat k) (text <$> me))). lia. }
  assert (u64 (total ql - k) = zlen (concat VA) + zlen es' + zlen (concat VB)) as Hu by (rewrite wrapu_small; lia).
  destruct (Z.eqb_spec (zlen es') 0) as [Hzero|Hne].
  - apply zlen_nil_inv in Hzero. rewrite Hzero in *. set (d2 := set_count _ _). pose proof (waits_others _ _ _ _ _ _ _ _ _ Hq1 ltac:(by right)) as Hcalm. destruct Hq1 as [Hl1 He1 [Hg1 Hlz1 _] Hr1 _ Hw1 _ Hf1].
    apply Forall2_app_inv in Hr1 as [HrA HrB]; [|done]. inversion HrB as [|? ? ? ? _ HrB']; subst.
    eapply yields_mono; [apply (delNode_core Hhtab F _ (with_total ql (total ql - k)) A x d2 B (VA ++ VB))|].
    + by apply lay_put.
    + assert (ends ql (A ++ (x, d2) :: B)) as [] by (eapply ends_locs; [exact He1|]; by rewrite !fmap_app). by split.
    + intros i Hi. replace (length (A ++ (x, d2) :: B)) with (length (A ++ (x, d1) :: B)) by by rewrite !length_app. apply Hlz1. by apply (frozen_mid A x d1 d2 B i).
    + done.
    + by apply Forall2_app.
    + rewrite concat_mid, !weight_app in Hw1. rewrite concat_app, weight_app. pose proof (weight_nonneg (text <$> le)). pose proof (weight_nonneg (text <$> me)). lia.
    + done.
    + intros [h' ql'] (ns' & S & Ho' & Ht & Hfin). cbn [fst snd] in *. apply Forall2_app_inv_l in S as (A' & B' & SA & SB & ->). exists A', B', VA. cbn [fst snd].
      split; [|split; [rewrite (sims_length _ _ SA); done|split; [done|split; [by rewrite app_nil_r|done]]]]. apply Hfin; try done. rewrite Ht. cbn [total with_total]. unfold d2. cbn [count set_count set_sz set_entry]. rewrite Ec, Hu, zlen_nil, concat_app, zlen_app.
      rewrite wrapu_small; lia.
  - rewrite (stored_range lp' es' d1). pose proof (zlen_nonneg es') as Hnn.
    assert (qrep (Some x) F (put h1 x (at_node A d1 B) (set_count (count d1 + - k) (stored lp' es' d1))) (with_total ql (total ql - k)) (A ++ (x, set_count (count d1 + - k) (stored lp' es' d1)) :: B) (VA ++ (text <$> es') :: VB)) as Hq2.
    { apply (qrep_change (Some x) F h1 ql A x d1 B VA _ VB _ (text <$> es') _ Hq1 HA); [apply holds_stored; try done; lia|done|done| |].
      - rewrite Hu, concat_mid, !zlen_app, zlen_fmap. lia.
      - pose proof (q_weight _ _ _ _ _ _ Hq1) as Hw. rewrite concat_mid, !weight_app in *. lia. }
    eapply yields_bind; [apply (recompressOnly_spec Hhtab (Some x) F _ _ A x _ B _ Hq2 ltac:(by right))|]. intros h3 (ns' & S & Hq3). apply yields_ok. destruct (sims_mid _ _ _ _ S) as (A' & d' & B' & -> & SA & _ & SB). cbn [fst snd] in *.
    exists (A' ++ [(x, d')]), B', (VA ++ [text <$> es']). rewrite <- !app_assoc. cbn [app fst snd]. split; [done|]. split; [rewrite !length_app, (sims_length _ _ SA); cbn; lia|]. split; [done|]. split; [|done].
    rewrite concat_app. cbn. by rewrite app_nil_r.
Qed.

(** ** The loop *)

Lemma del_step_spec F h ql (A : nodes) x d B VA L M VB o extent : qrep None F h ql (A ++ (x, d) :: B) (VA ++ (L ++ M) :: VB) -> length A = length VA -> range_at L M o -> 0 < extent < 2 ^ 62 ->
  exists entire, plan o extent (count d) = (entire, Z.min extent (zlen M)) /\
    yields (if (entire : bool) || is_plain d then __quicklistDelNode h ql x else shorten h ql x o (Z.min extent (zlen M))) (range_step F ql B VB (concat VA ++ L ++ drop (Z.to_nat (Z.min extent (zlen M))) M)).
Proof.
  intros Hq HA HR He. pose proof (holds_at _ _ _ _ _ _ _ _ _ _ _ Hq HA) as (Hk & Hc & _). pose proof (keeps_length _ _ Hk) as Hl. pose proof (plan_spec L M o extent HR ltac:(lia) He) as Hp. rewrite Hc.
  destruct (plan o extent (zlen (L ++ M))) as [entire del]. destruct Hp as [-> Hent]. exists entire. split; [done|]. pose proof HR as [HM _]. pose proof (zlen_positive _ HM).
  assert (forall n, L = [] -> zlen M <= n -> yields (__quicklistDelNode h ql x) (range_step F ql B VB (concat VA ++ L ++ drop (Z.to_nat n) M))) as Hall.
  { intros n -> Hn. rewrite (drop_ge M) by (unfold zlen in Hn; lia). rewrite !app_nil_r. by apply (drop_node_spec F h ql A x d B VA M VB). }
  destruct entire; cbn [orb].
  - destruct (Hent eq_refl) as [EL Ed]. apply Hall; [done|lia].
  - destruct (is_plain d) eqn:Hpl; [|by apply (shorten_spec F h ql A x d B VA L M VB); [..|lia]].
    destruct M as [|v M]; [done|]. destruct (plain_alone d L v M Hk Hpl) as [-> ->]. apply Hall; [done|]. unfold zlen in *. cbn [length] in *. lia.
Qed.

Lemma del_range_loop_spec F n : forall fuel h ql (A : nodes) x d (B : nodes) VA L M VB o extent, qrep None F h ql (A ++ (x, d) :: B) (VA ++ (L ++ M) :: VB) -> length A = length VA -> range_at L M o ->
  0 < extent <= zlen (M ++ concat VB) -> length B = n -> (n < fuel)%nat ->
  yields (del_range_loop fuel h ql (Some x) o extent) (fun r => exists ns' vss', qrep None F r.1 r.2 ns' vss' /\ concat vss' = concat VA ++ L ++ drop (Z.to_nat extent) (M ++ concat VB) /\ same_options ql r.2).
Proof.
  induction n as [|n IH]; intros fuel h ql A x d B VA L M VB o extent Hq HA HR He HB Hfuel; (destruct fuel as [|fuel]; [lia|]); cbn [del_range_loop]; rewrite (proj2 (Z.eqb_neq extent 0)) by lia;
    pose proof (weight_room _ (q_weight _ _ _ _ _ _ Hq)) as Hroom; pose proof (zlen_nonneg (concat VA)); pose proof (zlen_nonneg L); rewrite concat_mid, !zlen_app in Hroom; rewrite zlen_app in He;
    cbn [the mbind res_bind]; unfold get; rewrite (lay_here _ _ _ _ _ _ (q_lay _ _ _ _ _ _ Hq)); cbn [mbind res_bind at_node dat next];
    destruct (del_step_spec F h ql A x d _ VA L M VB o extent Hq HA HR ltac:(lia)) as (entire & Ep & Hstep); fold (plan o extent (count d)); rewrite Ep;
    pose proof (Forall2_length _ _ _ (q_rep _ _ _ _ _ _ Hq)) as Hlen; rewrite !length_app in Hlen; cbn [length] in Hlen; pose proof HR as [HM _]; apply zlen_positive in HM;
    (eapply yields_bind; [exact Hstep|]); intros [h1 ql1] (A' & B' & VA' & Hq1 & HA' & SB & Hcat & Ho); cbn [fst snd] in *; rewrite (wrapu_small 64) by lia.
  - destruct B; [|done]. destruct VB; [|cbn in Hlen; lia]. pose proof (zlen_nil (A := bytes)). cbn [concat] in *. rewrite app_nil_r. replace (Z.min extent (zlen M)) with extent in * by lia.
    rewrite Z.sub_diag. destruct fuel; apply yields_ok; exists (A' ++ B'), (VA' ++ []); (split; [done|split; [|done]]); by rewrite app_nil_r.
  - destruct B as [|[y e] B]; [done|]. destruct VB as [|vs VB]; [cbn in Hlen; lia|].
    destruct (Z.le_gt_cases extent (zlen M)) as [Hle|Hgt].
    + replace (extent - Z.min extent (zlen M)) with 0 by lia. replace (Z.min extent (zlen M)) with extent in Hcat by lia.
      assert (del_range_loop fuel h1 ql1 (first_of ((y, e) :: B)) 0 0 = Ok (h1, ql1)) as -> by by destruct fuel. apply yields_ok. exists (A' ++ B'), (VA' ++ vs :: VB). split; [done|]. split; [|done].
      rewrite concat_app, Hcat. rewrite drop_app_le by (unfold zlen in Hle; lia). by rewrite <- !app_assoc.
    + replace (Z.min extent (zlen M)) with (zlen M) in * by lia. inversion SB as [|? [z e'] ? B1 [Ez _] SB']; subst. cbn [fst snd] in *. subst z. cbn [concat] in He. rewrite zlen_app in He.
      assert (vs <> []) as Hvs by (intros ->; destruct (holds_at _ _ _ _ _ _ _ _ _ _ _ Hq1 HA') as (Hk & _); by destruct (keeps_length _ _ Hk)).
      eapply yields_mono; [apply (IH fuel h1 ql1 A' y e' B1 VA' [] vs VB 0 (extent - zlen M))|].
      * done.
      * done.
      * split; [done|by left].
      * rewrite zlen_app. lia.
      * rewrite (sims_length _ _ SB'). cbn in HB. lia.
      * lia.
      * intros [h2 ql2] (ns' & vss' & Hq2 & Hcat2 & Ho2). cbn [fst snd] in *. exists ns', vss'. split; [done|]. split; [|destruct Ho as [], Ho2 as []; split; congruence].
        rewrite Hcat2, Hcat. rewrite to_nat_zlen, drop_all, app_nil_r. cbn [app concat]. rewrite <- app_assoc. f_equal. f_equal. rewrite (drop_app_ge M) by (unfold zlen in *; lia). f_equal. unfold zlen. lia.
Qed.

(** ** The whole range *)

(** The values that [quicklistDelRange] leaves, and whether it deleted any. *)
Definition without_range (vs : list bytes) (start n : Z) : list bytes * bool :=
  let j := from_front (zlen vs) start in
  if (0 <? n) && (0 <=? j) && (j <? zlen vs) then (take (Z.to_nat j) vs ++ drop (Z.to_nat (j + n)) vs, true) else (vs, false).

Lemma delRange_spec F h ql ns vss start n : qrep None F h ql ns vss -> is_i64 start -> is_i64 n ->
  yields (quicklistDelRange h ql start n) (fun r => exists ns' vss', qrep None F r.1.1 r.1.2 ns' vss' /\ (concat vss', r.2) = without_range (concat vss) start n /\ same_options ql r.1.2).
Proof.
  intros Hq Hs Hn. unfold quicklistDelRange, without_range. cbv zeta. destruct (Z.leb_spec n 0) as [Hle|Hgt].
  { apply yields_ok. exists ns, vss. rewrite (proj2 (Z.ltb_ge 0 n)) by lia. by cbn [andb]. }
  rewrite (proj2 (Z.ltb_lt 0 n)) by lia. cbn [andb]. pose proof (weight_room _ (q_weight _ _ _ _ _ _ Hq)) as Hroom. rewrite (q_total _ _ _ _ _ _ Hq). set (m := zlen (concat vss)) in *.
  pose proof (atIdx_spec None F h ql ns vss AL_START_TAIL start Hq Hs) as Ha. cbv zeta in Ha. fold m in Ha. set (j := from_front m start) in *.
  destruct ((0 <=? j) && (j <? m)) eqn:Ein; [|rewrite Ha; apply yields_ok; by exists ns, vss]. apply andb_true_iff in Ein as [Hj0%Z.leb_le Hj1%Z.ltb_lt].
  set (extent := if _ && _ then _ else _). assert (extent = Z.min n (m - j)) as Eext.
  { unfold extent, j, from_front in *. unfold is_i64, INT64_MIN, INT64_MAX in Hs. destruct (Z.ltb_spec start 0) as [Hneg|Hpos].
    - rewrite (proj2 (Z.leb_gt 0 start)) by lia. cbn [andb]. rewrite (wrapu_small 64 (- start)) by lia. destruct (Z.ltb_spec (- start) n); lia.
    - rewrite (proj2 (Z.leb_le 0 start)) by lia. cbn [andb]. rewrite (wrapu_small 64 (m - start)) by lia. destruct (Z.ltb_spec (m - start) n); lia. }
  clearbody extent. destruct Ha as (A & x & d & B & VA & L & v & R & VB & o & -> & -> & HA & Hj & Ho & _ & ->). cbn [mbind res_bind].
  destruct (releaseIterator_spec Hhtab None F h ql A x d B _ {| current := Some x; zi := None; offset := o; direction := AL_START_TAIL |} Hq ltac:(by left) eq_refl) as (h1 & -> & ns1 & HS & Hq1). cbn [mbind res_bind current offset].
  destruct (sims_mid _ _ _ _ HS) as (A' & d' & B' & -> & SA & _ & SB). cbn [fst snd] in *.
  assert (m = zlen (concat VA ++ L) + zlen (v :: R ++ concat VB)) as Em by (unfold m; rewrite concat_mid; rewrite <- app_assoc; cbn [app]; rewrite <- zlen_app; by rewrite app_assoc).
  pose proof (lay_size _ _ _ (q_lay _ _ _ _ _ _ Hq1)) as Hsize. rewrite length_app in Hsize. cbn [length] in Hsize.
  eapply yields_bind; [apply (del_range_loop_spec F (length B') (S (size h1)) h1 ql A' x d' B' VA L (v :: R) VB o extent Hq1)|].
  - rewrite (sims_length _ _ SA). done.
  - split; [done|]. unfold index_of in Ho. rewrite zlen_cons. destruct Ho as [-> | ->]; [by left|right; lia].
  - cbn [app]. lia.
  - done.
  - lia.
  - intros [h2 ql2] (ns' & vss' & Hq2 & Hcat & Ho2). cbn [fst snd] in *. apply yields_ok. exists ns', vss'. cbn [fst snd]. split; [done|]. split; [|done]. f_equal. rewrite Hcat.
    assert (concat (VA ++ (L ++ v :: R) :: VB) = (concat VA ++ L) ++ (v :: R) ++ concat VB) as Ec by (rewrite concat_mid; by rewrite <- !app_assoc). rewrite Ec.
    rewrite Hj, to_nat_zlen, take_app_length. rewrite Hj in Eext. pose proof (zlen_nonneg (concat VA ++ L)).
    replace (Z.to_nat (zlen (concat VA ++ L) + n)) with (length (concat VA ++ L) + Z.to_nat n)%nat by (unfold zlen; lia). rewrite drop_app_add. rewrite app_assoc. f_equal.
    destruct (Z.le_gt_cases n (m - zlen (concat VA ++ L))); [by replace extent with n by lia|]. rewrite !drop_ge; [done| |]; change ((v :: R) ++ concat VB) with (v :: R ++ concat VB); unfold zlen in *; lia.
Qed.

End range.
End QuicklistRange.
