(* ===== verification/QuicklistMerge.v ===== *)
(** * Quicklists: merging nodes

    [_quicklistMergeNodes] joins the neighbours of a node, and the node with its
    neighbours, where the limits allow it.  The values and their order stay. *)

From S2P Require Import Prelude Util ListpackEnc Listpack ListpackTheory ListpackSpec Lzf LzfSpec Dll Quicklist QuicklistNode QuicklistLink QuicklistValues QuicklistOps QuicklistEdit QuicklistIter.
From stdpp Require Import list gmap fin_maps.
#[local] Open Scope Z_scope.

Module QuicklistMerge.
Import Dll Quicklist QuicklistNode QuicklistLink QuicklistValues QuicklistOps QuicklistEdit QuicklistIter.

#[local] Abbreviation nodes := (list (loc * qnode)).
#[local] Abbreviation repr := ListpackTheory.repr.
#[local] Abbreviation lptotal := ListpackTheory.total.
#[local] Abbreviation text := LP.text.

Section merge.
Context `{Allocator} `{Environment} (Hhtab : LzfSpec.valid_htab htab).

(** ** Two nodes at a time *)

Lemma lay_upd_at h (A : nodes) x d B F f : lay h (A ++ (x, d) :: B) F -> exists h', upd h x f = Ok h' /\ lay h' (A ++ (x, f d) :: B) F.
Proof. intros Hl. destruct (lay_upd h _ F _ x d f Hl (lookup_mid A B (x, d))) as (h' & E & Hl'). rewrite insert_mid in Hl'. by exists h'. Qed.

Lemma lay_node_at h (A : nodes) x d B F : lay h (A ++ (x, d) :: B) F -> node h x = Ok d.
Proof. intros Hl. exact (lay_node _ _ _ _ _ _ Hl (lookup_mid A B (x, d))). Qed.

Lemma snoc_mid {T} (A : list T) c B : A ++ c :: B = (A ++ [c]) ++ B.
Proof. by rewrite <- app_assoc. Qed.

(** The list with two adjacent nodes, of which [x] is kept: the first or the
    second one. *)
Definition pair_of (A : nodes) (first : bool) (x : loc) (dx : qnode) (y : loc) (dy : qnode) (B : nodes) : nodes :=
  if first then A ++ (x, dx) :: (y, dy) :: B else A ++ (y, dy) :: (x, dx) :: B.

Lemma pair_upd h A first x dx y dy B F f : lay h (pair_of A first x dx y dy B) F -> exists h', upd h x f = Ok h' /\ lay h' (pair_of A first x (f dx) y dy B) F.
Proof.
  intros Hl. destruct first; cbn [pair_of] in *; [by apply lay_upd_at|]. rewrite snoc_mid in Hl. destruct (lay_upd_at _ _ _ _ _ _ f Hl) as (h' & E & Hl'). exists h'. by rewrite snoc_mid.
Qed.

Lemma pair_swap A first x dx y dy B : pair_of A first x dx y dy B = pair_of A (negb first) y dy x dx B.
Proof. by destruct first. Qed.

Lemma pair_node h A first x dx y dy B F : lay h (pair_of A first x dx y dy B) F -> node h x = Ok dx.
Proof. intros Hl. destruct first; cbn [pair_of] in *; [by eapply lay_node_at|]. rewrite snoc_mid in Hl. by eapply lay_node_at. Qed.

(** The node kept, with the listpack of both. *)
Definition merged (m : bytes) (es : list LP.elem) (d : qnode) : qnode := set_count (zlen es) (stored m es (set_recompress false d)).

Lemma merge_steps_spec h A first x dx y dy B F lp es : lay h (pair_of A first x dx y dy B) F -> repr lp es ->
  yields (merge_steps h x y lp) (fun h' => exists lp', repr lp' es /\ lay h' (pair_of A first x (merged lp' es dx) y (set_count 0 dy) B) F).
Proof.
  intros Hl Hr. unfold merge_steps, set_entry_of. destruct (ListpackTheory.length_spec lp es Hr) as (lp' & -> & Hr' & _). cbn [mbind res_bind].
  destruct (pair_upd _ _ _ _ _ _ _ _ _ (set_entry (Buffer lp')) Hl) as (h1 & -> & Hl1). cbn [mbind res_bind]. destruct (pair_upd _ _ _ _ _ _ _ _ _ (set_count (zlen es)) Hl1) as (h2 & -> & Hl2). cbn [mbind res_bind].
  unfold quicklistNodeUpdateSz, as_bytes. rewrite (pair_node _ _ _ _ _ _ _ _ _ Hl2). cbn [mbind res_bind set_count set_entry entry]. rewrite (lpBytes_spec lp' es Hr'). cbn [mbind res_bind].
  destruct (pair_upd _ _ _ _ _ _ _ _ _ (set_sz (lptotal es)) Hl2) as (h3 & -> & Hl3). cbn [mbind res_bind]. destruct (pair_upd _ _ _ _ _ _ _ _ _ (set_recompress false) Hl3) as (h4 & -> & Hl4). cbn [mbind res_bind].
  rewrite pair_swap in Hl4. destruct (pair_upd _ _ _ _ _ _ _ _ _ (set_count 0) Hl4) as (h5 & -> & Hl5). apply yields_ok. exists lp'. split; [done|]. by rewrite pair_swap.
Qed.

(** Merging leaves the options and the counter alone. *)
Definition kept (ql ql' : quicklist) : Prop := same_options ql ql' /\ (total ql' = total ql \/ total ql' = u64 (total ql)).

Lemma kept_refl ql : kept ql ql.
Proof. by repeat split; left. Qed.

Lemma kept_trans ql1 ql2 ql3 : kept ql1 ql2 -> kept ql2 ql3 -> kept ql1 ql3.
Proof.
  intros [[] K1] [[] K2]. split; [split; congruence|]. destruct K1 as [K1|K1], K2 as [K2|K2]; rewrite K2, K1; try (by left); right; [done|done|]. unfold wrapu. by rewrite Z.mod_mod.
Qed.

Lemma kept_count ql ql' : kept ql ql' -> u64 (total ql') = u64 (total ql).
Proof. intros [_ [ -> | -> ]]; [done|]. unfold wrapu. by rewrite Z.mod_mod. Qed.

Lemma kept_total ql t ql' : kept (with_total ql t) ql' -> total ql' = u64 t.
Proof. intros [_ [ -> | -> ]]; [done|]. cbn. unfold wrapu. by rewrite Z.mod_mod. Qed.

(** ** Merging two nodes *)

Lemma pair_split A (first : bool) x dx y dy B : exists A1 B1 : nodes, pair_of A first x dx y dy B = A1 ++ (y, dy) :: B1 /\ A1 ++ B1 = A ++ (x, dx) :: B.
Proof. destruct first; [exists (A ++ [(x, dx)]), B|exists A, ((x, dx) :: B)]; cbn [pair_of]; by rewrite <- ?app_assoc. Qed.

Lemma pair_lookup A (first : bool) x dx dx' y dy dy' B i c : pair_of A first x dx y dy B !! i = Some c ->
  pair_of A first x dx' y dy' B !! i = Some c \/ c = (x, dx) \/ c = (y, dy).
Proof.
  destruct first; cbn [pair_of]; rewrite !lookup_app; (destruct (A !! i); [by left|]); (destruct (i - length A)%nat as [|[|k]]; cbn; [|by intros [= <-]; auto|by left]); intros [= <-]; auto.
Qed.

(** Compressing any node of the list. *)
Lemma compress_any P F h ql (A : nodes) x d B vss : qrep P F h ql (A ++ (x, d) :: B) vss ->
  yields (quicklistCompress h ql x) (fun h' => exists ns', sims (A ++ (x, d) :: B) ns' /\ qrep P F h' ql ns' vss).
Proof.
  intros [Hl He Hst Hr Ht Hw Hp Hf]. destruct (quicklistCompress_spec Hhtab h _ F ql _ x d Hl He Hst (lookup_mid A B (x, d))) as (h' & ns' & -> & Hl' & S & Hst' & _). apply yields_ok. exists ns'. split; [done|].
  split; try done; [by eapply ends_sims|by eapply rep_sims|by eapply pending_sims].
Qed.

(** The node [y] goes, its values are in [x] now. *)
Lemma merge_finish P F h ql (A : nodes) first x dx y dy B VA vs VB dx0 dy0 :
  lay h (pair_of A first x dx y dy B) F -> ends ql (pair_of A first x dx0 y dy0 B) -> lzf_deep (depth ql) (pair_of A first x dx0 y dy0 B) ->
  rec_deep (depth ql) (A ++ (x, dx) :: B) -> (forall i, pending (A ++ (x, dx) :: B) i -> loc_at (A ++ (x, dx) :: B) i = P) ->
  rep A VA -> rep B VB -> holds dx vs -> is_lzf dx = false -> is_lzf dy = false -> count dy = 0 ->
  weight (concat (VA ++ vs :: VB)) < 2 ^ 31 -> fill_ok (fill ql) ->
  yields ('(h, ql) ← __quicklistDelNode h ql y; h ← quicklistCompress h ql x; Ok (h, ql, Some x)) (fun r =>
    r.2 = Some x /\ kept ql r.1.2 /\ exists (A' : nodes) d' B', qbody P F r.1.1 r.1.2 (A' ++ (x, d') :: B') (VA ++ vs :: VB) /\ sims A A' /\ sims B B' /\ container d' = container dx).
Proof.
  intros Hl He Hz Hrd Hpe HrA HrB Hd Hzx Hzy Hc Hw Hf. destruct (pair_split A first x dx y dy B) as (A1 & B1 & E & E1). rewrite E in Hl.
  assert (length (pair_of A first x dx y dy B) = length (pair_of A first x dx0 y dy0 B)) as El by (destruct first; cbn [pair_of]; by rewrite !length_app).
  eapply yields_bind; [apply (delNode_wait Hhtab P F h ql A1 y dy B1 (VA ++ vs :: VB) Hl)|].
  - rewrite <- E. eapply ends_locs; [exact He|]. destruct first; cbn [pair_of]; by rewrite !fmap_app.
  - rewrite <- E. intros i (c & Hi & Hci). rewrite El. apply Hz. destruct (pair_lookup A first x dx dx0 y dy dy0 B i c Hi) as [Hi'|[-> | ->]]; [by exists c|cbn in Hci; congruence|cbn in Hci; congruence].
  - by rewrite E1.
  - by rewrite E1.
  - rewrite E1. apply Forall2_app; [done|]. by constructor.
  - done.
  - done.
  - intros [h1 ql1] (ns1 & S1 & Ho1 & Ht1 & Hfin). cbn [fst snd] in *. rewrite E1 in S1. set (ql1' := with_total ql1 (zlen (concat (VA ++ vs :: VB)))).
    assert (qrep P F h1 ql1' ns1 (VA ++ vs :: VB)) as Hq1 by (apply Hfin; try done; pose proof (weight_room _ Hw); apply wrapu_small; lia).
    destruct (sims_mid _ _ _ _ S1) as (A2 & d2 & B2 & -> & SA & Sd & SB). cbn [fst snd] in *.
    destruct (compress_any P F h1 ql1' A2 x d2 B2 _ Hq1) as (h2 & Ec & ns2 & S2 & Hq2). change (quicklistCompress h1 ql1' x) with (quicklistCompress h1 ql1 x) in Ec. rewrite Ec. cbn [mbind res_bind]. apply yields_ok. cbn [fst snd]. split; [done|].
    split; [split; [done|right]; by rewrite Ht1, Hc, Z.sub_0_r|].
    destruct (sims_mid _ _ _ _ S2) as (A3 & d3 & B3 & -> & SA' & Sd' & SB'). cbn [fst snd] in *. exists A3, d3, B3. split; [by eexists|].
    split; [by eapply sims_trans|]. split; [by eapply sims_trans|]. by rewrite (sim_container _ _ Sd'), (sim_container _ _ Sd).
Qed.

(** Both nodes decompressed. *)
Lemma thaw_both P F h ql (A : nodes) a da b db B vss : qbody P F h ql (A ++ (a, da) :: (b, db) :: B) vss ->
  exists h1 h2 (A' : nodes) da' db' B', quicklistDecompressNode h (Some a) = Ok h1 /\ quicklistDecompressNode h1 (Some b) = Ok h2 /\ qbody P F h2 ql (A' ++ (a, da') :: (b, db') :: B') vss /\
    sims A A' /\ sims B B' /\ sim da da' /\ sim db db' /\ is_lzf da' = false /\ is_lzf db' = false.
Proof.
  intros [t Hq]. pose proof Hq as [Hl He [Hg Hz Hrc] Hr Ht Hw Hp Hf]. set (ns := A ++ (a, da) :: (b, db) :: B) in *.
  destruct (thaw_spec h ns F (length A) a Hl Hg) as (h1 & ns1 & E1 & Hl1 & S1 & Hn1 & Hf1); [unfold loc_at, ns; by rewrite lookup_mid|].
  pose proof (sims_goods _ _ S1 Hg) as Hg1.
  destruct (thaw_spec h1 ns1 F (S (length A)) b Hl1 Hg1) as (h2 & ns2 & E2 & Hl2 & S2 & Hn2 & Hf2).
  { rewrite (sims_loc_at _ _ _ S1). unfold loc_at, ns. rewrite snoc_mid. replace (S (length A)) with (length (A ++ [(a, da)])) by (rewrite length_app; cbn; lia). by rewrite lookup_mid. }
  pose proof (sims_trans _ _ _ S1 S2) as S12. destruct (sims_mid _ _ _ _ S12) as (A' & da' & R & Ens & SA & Sa & SR). cbn [fst snd] in *. inversion SR as [|? [b' db'] ? B' [Eb Sb] SB]; subst. cbn [fst snd] in *. subst b'.
  exists h1, h2, A', da', db', B'. split; [done|]. split; [done|]. pose proof (sims_length _ _ SA) as EA. split.
  - exists t. split; [done|exact (ends_sims _ _ _ He S12)| |exact (rep_sims _ _ _ S12 Hr)|done|done|exact (pending_sims _ _ _ S12 Hp)|done]. split; [exact (sims_goods _ _ S12 Hg)| |exact (rec_sims _ _ _ S12 Hrc)]. intros i Hi. rewrite (sims_length _ _ S12). apply Hz, Hf1, Hf2, Hi.
  - split_and!; try done.
    + destruct (is_lzf da') eqn:E; [|done]. exfalso. apply Hn1, Hf2. exists (a, da'). by rewrite <- EA, lookup_mid.
    + destruct (is_lzf db') eqn:E; [|done]. exfalso. apply Hn2. exists (b, db'). split; [|done]. rewrite snoc_mid. replace (S (length A)) with (length (A' ++ [(a, da')])) by (rewrite length_app; cbn; lia). by rewrite lookup_mid.
Qed.

(** Merging the nodes after [A] leaves no node waiting but [Q], which comes before
    them and is deep enough to spare a node. *)
Definition mergeable (Q : option loc) (ql : quicklist) (A ns : nodes) : Prop :=
  forall i, pending ns i -> (i = length A \/ i = S (length A)) \/ (i < length A /\ i + depth ql + 1 < length ns)%nat /\ loc_at ns i = Q.

Lemma calm_mergeable Q ql A ns : calm ns -> mergeable Q ql A ns.
Proof. intros Hc i Hi. by destruct (Hc i). Qed.

Lemma qbody_calm F h ql ns vss : qbody None F h ql ns vss -> calm ns.
Proof. intros [t Hq] i Hi. pose proof (q_pending _ _ _ _ _ _ Hq i Hi) as E. destruct Hi as (c & Hc & _). unfold loc_at in E. by rewrite Hc in E. Qed.

(** What a merge of the adjacent nodes leaves: one of them with the values of
    both. *)
Definition merged_into Q F (ql : quicklist) (a b : loc) (A B : nodes) vss (r : heap * quicklist * option loc) : Prop :=
  exists x, r.2 = Some x /\ (x = a \/ x = b) /\ kept ql r.1.2 /\ exists (A' : nodes) d' B', qbody Q F r.1.1 r.1.2 (A' ++ (x, d') :: B') vss /\ sims A A' /\ sims B B' /\ is_plain d' = false.

Lemma listpackMerge_spec P Q F h ql (A : nodes) a da b db B VA va vb VB : qbody P F h ql (A ++ (a, da) :: (b, db) :: B) (VA ++ va :: vb :: VB) -> length A = length VA -> mergeable Q ql A (A ++ (a, da) :: (b, db) :: B) ->
  is_plain da = false -> is_plain db = false -> zlen (va ++ vb) < 2 ^ 16 -> yields (_quicklistListpackMerge h ql a b) (merged_into Q F ql a b A B (VA ++ (va ++ vb) :: VB)).
Proof.
  intros Hq HA Hmg Hpa Hpb Hn. unfold _quicklistListpackMerge. assert (rec_deep (depth ql) (A ++ (a, da) :: (b, db) :: B)) as Hrd0 by (destruct Hq as [? [_ _ [_ _ Hrd0] _ _ _ _ _]]; exact Hrd0).
  destruct (thaw_both P F h ql A a da b db B _ Hq) as (h1 & h2 & A2 & da2 & db2 & B2 & -> & E2 & Hq2 & SA & SB & Sa & Sb & Hza & Hzb). cbn [mbind res_bind]. rewrite E2. cbn [mbind res_bind]. clear E2 h1.
  assert (is_plain da2 = false /\ is_plain db2 = false) as [Hpa2 Hpb2] by (unfold is_plain in *; by rewrite (sim_container _ _ Sa), (sim_container _ _ Sb)).
  assert (sims (A ++ (a, da) :: (b, db) :: B) (A2 ++ (a, da2) :: (b, db2) :: B2)) as HSS by (apply Forall2_app; [done|]; constructor; [done|]; by constructor).
  pose proof (sims_length _ _ SA) as EA. pose proof Hq2 as [t2 [Hl2 He2 [Hg2 Hz2 _] Hr2 Ht2 Hw2 Hp2 Hf2]]. rewrite ends_total in He2. apply Forall2_app_inv in Hr2 as [HrA HrR]; [|lia]. inversion HrR as [|? ? ? ? Hda HrR']; subst. inversion HrR' as [|? ? ? ? Hdb HrB]; subst. cbn [snd] in *.
  pose proof (lay_node_at _ _ _ _ _ _ Hl2) as Hxa. pose proof Hl2 as Hl2'. rewrite snoc_mid in Hl2'. pose proof (lay_node_at _ _ _ _ _ _ Hl2') as Hxb. rewrite Hxa, Hxb. cbn [mbind res_bind].
  destruct Hda as (Hka & Hca & Hdca), Hdb as (Hkb & Hcb & Hdcb). destruct (keeps_packed da2 va Hka Hza Hpa2) as (lpa & ea & Hlpa & Hra & -> & Hna & _). destruct (keeps_packed db2 vb Hkb Hzb Hpb2) as (lpb & eb & Hlpb & Hrb & -> & Hnb & _).
  unfold as_bytes. rewrite Hlpa. cbn [mbind res_bind]. rewrite Hlpb. cbn [mbind res_bind]. pose proof (ListpackTheory.merge_spec lpa lpb ea eb Hra Hrb) as Hm.
  assert (weight (text <$> (ea ++ eb)) < 2 ^ 31) as Hwm. { rewrite concat_app, weight_app in Hw2. cbn [concat] in Hw2. rewrite !weight_app in Hw2. rewrite fmap_app, weight_app. pose proof (weight_nonneg (concat VA)). pose proof (weight_nonneg (concat VB)). lia. }
  assert (Forall LP.elem_ok (ea ++ eb)) as Hok by (apply Forall_app; split; by eapply repr_ok). pose proof (total_weight _ Hok) as Htw.
  rewrite (proj2 (Z.ltb_lt _ _)) in Hm by (unfold UINT32_MAX; lia). destruct Hm as (m & -> & Hrm). cbn [mbind res_bind]. set (first := lptotal eb <=? lptotal ea).
  rewrite <- fmap_app in *. rewrite zlen_fmap in Hn. rewrite zlen_app in Hn.
  assert (forall x dx, recompress dx = false -> forall i, pending (A2 ++ (x, dx) :: B2) i -> (i < length A2 /\ i + depth ql + 1 < length (A2 ++ (a, da2) :: (b, db2) :: B2))%nat /\ loc_at (A2 ++ (x, dx) :: B2) i = Q) as Hpend.
  { intros x dx Hrec i (c & Hi & Hci). rewrite lookup_app in Hi. destruct (A2 !! i) as [c'|] eqn:Ei.
    - injection Hi as ->. assert (pending (A ++ (a, da) :: (b, db) :: B) i) as Hpi by (apply (sims_pending _ _ _ HSS); exists c; split; [by rewrite lookup_app, Ei|done]). apply lookup_lt_Some in Ei as Hlt. destruct (Hmg i Hpi) as [Hbad|[Hm El]]; [lia|].
      rewrite EA, (sims_length _ _ HSS). split; [lia|]. rewrite <- El, <- (sims_loc_at _ _ _ HSS). unfold loc_at. rewrite !lookup_app. by rewrite Ei.
    - apply lookup_ge_None in Ei. destruct (i - length A2)%nat as [|k] eqn:Ek; [injection Hi as <-; cbn in Hci; congruence|]. cbn in Hi.
      assert (pending (A ++ (a, da) :: (b, db) :: B) (S i)) as Hpi. { apply (sims_pending _ _ _ HSS). exists c. split; [|done]. rewrite lookup_app_r by lia. replace (S i - length A2)%nat with (S (S k)) by lia. exact Hi. }
      exfalso. destruct (Hmg (S i) Hpi) as [Hbad|[Hm _]]; lia. }
  assert (concat (VA ++ (text <$> ea ++ eb) :: VB) = concat (VA ++ (text <$> ea) :: (text <$> eb) :: VB)) as Ecat by (rewrite !concat_app; cbn; rewrite fmap_app; by rewrite <- app_assoc).
  assert (forall (fst_ : bool) x y dx dy h3, lay h3 (pair_of A2 fst_ x (set_entry (Buffer m) dx) y (set_entry NULL dy) B2) F -> pair_of A2 fst_ x dx y dy B2 = A2 ++ (a, da2) :: (b, db2) :: B2 ->
    (x = a \/ x = b) -> is_lzf dx = false -> is_plain dx = false -> dont_compress dx = false -> is_lzf dy = false ->
    yields (h ← merge_steps h3 x y m; '(h, ql) ← __quicklistDelNode h ql y; h ← quicklistCompress h ql x; Ok (h, ql, Some x)) (merged_into Q F ql a b A B (VA ++ (text <$> ea ++ eb) :: VB))) as Hfin.
  { intros fst_ x y dx dy h3 Hl3 Epair Hxy Hzx Hpx Hdcx Hzy. eapply yields_bind; [by apply (merge_steps_spec h3 A2 fst_ x _ y _ B2 F m (ea ++ eb) Hl3)|]. intros h4 (lp' & Hrep' & Hl4).
    assert (zlen (ea ++ eb) = zlen ea + zlen eb) as Ez by apply zlen_app.
    eapply yields_mono; [apply (merge_finish Q F h4 ql A2 fst_ x _ y _ B2 VA (text <$> ea ++ eb) VB dx dy Hl4)|].
    - by rewrite Epair.
    - by rewrite Epair.
    - intros i Hi. destruct (Hpend x (merged lp' (ea ++ eb) (set_entry (Buffer m) dx)) eq_refl i Hi) as [Hm _]. destruct Hi as (c & Hci & Hcr). rewrite lookup_app_l in Hci by lia.
      assert (deep (depth ql) (length (A ++ (a, da) :: (b, db) :: B)) i) as (Hd0 & Hd1 & Hd2) by (apply Hrd0, (sims_pending _ _ _ HSS); exists c; by rewrite lookup_app_l by lia).
      rewrite !length_app in *. cbn [length] in *. split; [done|]. split; [done|]. lia.
    - intros i Hi. by destruct (Hpend x (merged lp' (ea ++ eb) (set_entry (Buffer m) dx)) eq_refl i Hi).
    - done.
    - done.
    - apply holds_stored; try done; [lia|]. rewrite wrapu_small; lia.
    - done.
    - done.
    - done.
    - by rewrite Ecat.
    - done.
    - intros [[h5 ql5] r] (Er & Ho & A' & d' & B' & Hq' & EA' & EB' & Hcon). cbn [fst snd] in *. exists x. split; [done|]. split; [done|]. split; [done|]. exists A', d', B'. split; [done|].
      split; [by eapply sims_trans|]. split; [by eapply sims_trans|]. unfold is_plain in *. by rewrite Hcon. }
  destruct first; cbn [mbind res_bind]; unfold set_entry_of.
  - destruct (pair_upd h2 A2 true a da2 b db2 B2 F (set_entry (Buffer m)) Hl2) as (h3 & -> & Hl3). cbn [mbind res_bind].
    rewrite pair_swap in Hl3. destruct (pair_upd _ _ _ _ _ _ _ _ _ (set_entry NULL) Hl3) as (h4 & -> & Hl4). cbn [mbind res_bind]. rewrite <- pair_swap in Hl4.
    apply (Hfin true a b da2 db2 h4 Hl4); try done. by left.
  - destruct (pair_upd h2 A2 true a da2 b db2 B2 F (set_entry NULL) Hl2) as (h3 & -> & Hl3). cbn [mbind res_bind].
    rewrite pair_swap in Hl3. destruct (pair_upd _ _ _ _ _ _ _ _ _ (set_entry (Buffer m)) Hl3) as (h4 & -> & Hl4). cbn [mbind res_bind].
    apply (Hfin false b a db2 da2 h4 Hl4); try done. by right.
Qed.

(** ** The limits *)

Lemma keeps_size d vs : keeps d vs -> is_plain d = false -> weight vs < 2 ^ 31 -> 7 + 2 * zlen vs <= sz d <= weight vs + 7.
Proof.
  intros (r & Hr & Hk) Hp Hw. unfold is_plain in Hp. destruct (container d); [done|]. destruct Hk as (es & [Hrep Hl] & -> & _). rewrite (raw_size _ _ Hr) in Hl. pose proof (repr_ok _ _ Hrep) as Hok.
  pose proof (total_weight es Hok). pose proof (ListpackTheory.zlen_body_ge es Hok). rewrite ListpackTheory.total_eq in *. rewrite zlen_fmap. lia.
Qed.

Lemma allow_merge_spec h fill a da va b db vb : node h a = Ok da -> node h b = Ok db -> holds da va -> holds db vb -> weight (va ++ vb) < 2 ^ 31 -> fill_ok fill ->
  exists ok, _quicklistNodeAllowMerge h (Some a) (Some b) fill = Ok ok /\ (ok = true -> is_plain da = false /\ is_plain db = false /\ zlen (va ++ vb) < 2 ^ 16).
Proof.
  intros Ha Hb (Hka & Hca & _) (Hkb & Hcb & _) Hw Hf. unfold _quicklistNodeAllowMerge. rewrite Ha. cbn [mbind res_bind]. rewrite Hb. cbn [mbind res_bind].
  destruct (is_plain da) eqn:Hpa; cbn [orb]; [by exists false|]. destruct (is_plain db) eqn:Hpb; cbn [orb]; [by exists false|].
  rewrite weight_app in Hw. pose proof (weight_nonneg va). pose proof (weight_nonneg vb). pose proof (zlen_nonneg va). pose proof (zlen_nonneg vb).
  pose proof (keeps_size _ _ Hka Hpa ltac:(lia)). pose proof (keeps_size _ _ Hkb Hpb ltac:(lia)). rewrite (wrapu_small 64) by lia. rewrite (wrapu_small 32) by lia.
  destruct (exceeds_spec fill (sz da + sz db - 7) (count da + count db) Hf) as (e & -> & He). cbn [mbind res_bind]. exists (negb e). split; [done|]. intros Hn%negb_true_iff. split; [done|]. split; [done|].
  rewrite zlen_app. destruct (He Hn) as [[_ Hs]|[_ Hs]]; lia.
Qed.

(** ** Merging if allowed *)

Lemma try_merge_spec P Q F h ql (A : nodes) a da b db B VA va vb VB : qbody P F h ql (A ++ (a, da) :: (b, db) :: B) (VA ++ va :: vb :: VB) -> length A = length VA -> mergeable Q ql A (A ++ (a, da) :: (b, db) :: B) ->
  yields (try_merge h ql (Some a) (Some b)) (fun '(h', ql', ok, r) => if ok : bool then merged_into Q F ql a b A B (VA ++ (va ++ vb) :: VB) (h', ql', r) /\ is_plain da = false /\ is_plain db = false else h' = h /\ ql' = ql).
Proof.
  intros Hq HA Hmg. pose proof Hq as [t [Hl He Hst Hr Ht Hw Hp Hf]]. pose proof Hr as Hr'. apply Forall2_app_inv in Hr' as [HrA HrR]; [|lia]. inversion HrR as [|? ? ? ? Hda HrR']; subst. inversion HrR' as [|? ? ? ? Hdb HrB]; subst. cbn [snd] in *.
  pose proof Hl as Hl'. rewrite snoc_mid in Hl'.
  destruct (allow_merge_spec h (fill ql) a da va b db vb (lay_node_at _ _ _ _ _ _ Hl) (lay_node_at _ _ _ _ _ _ Hl') Hda Hdb) as (ok & E & Hok); [|done|].
  { rewrite concat_app, weight_app in Hw. cbn [concat] in Hw. rewrite !weight_app in Hw. rewrite weight_app. pose proof (weight_nonneg (concat VA)). pose proof (weight_nonneg (concat VB)). lia. }
  unfold try_merge. rewrite E. cbn [mbind res_bind]. destruct ok; [|by apply yields_ok]. destruct (Hok eq_refl) as (Hpa & Hpb & Hn). cbn [the mbind res_bind].
  eapply yields_bind; [by apply (listpackMerge_spec P Q F h ql A a da b db B VA va vb VB)|]. intros [[h' ql'] r] Hm. by apply yields_ok.
Qed.

(** What a merge beside the nodes [C] leaves of the list. *)
Definition side_merged P F (ql : quicklist) (C : nodes) (before : bool) (X : nodes) (VX VC : list (list bytes)) (h' : heap) (ql' : quicklist) : Prop :=
  exists (X' C' : nodes) VX', (if before then qbody P F h' ql' (X' ++ C') (VX' ++ VC) else qbody P F h' ql' (C' ++ X') (VC ++ VX')) /\ length X' = length VX' /\ concat VX' = concat VX /\ sims C C' /\
    kept ql ql' /\ (X <> [] -> X' <> []).

Lemma side_same P F h ql (C : nodes) (before : bool) (X : nodes) VX VC : (if before then qbody P F h ql (X ++ C) (VX ++ VC) else qbody P F h ql (C ++ X) (VC ++ VX)) -> length X = length VX -> side_merged P F ql C before X VX VC h ql.
Proof. intros Hq HX. exists X, C, VX. split_and!; try done; [apply sims_refl|apply kept_refl]. Qed.

(** Only the last of [A] may wait: merged, it does not any more. *)
Lemma prefix_merge P F h ql (A C : nodes) VA VC : qbody P F h ql (A ++ C) (VA ++ VC) -> length A = length VA -> (forall i, pending (A ++ C) i -> S i = length A) ->
  yields (try_merge h ql (last_of (removelast A)) (last_of A)) (fun '(h', ql', _, _) => side_merged None F ql C true A VA VC h' ql' \/ h' = h /\ ql' = ql).
Proof.
  intros Hq HA Hpe. destruct A as [|[b db] A _] using rev_ind; [apply yields_ok; by right|]. rewrite removelast_last. destruct A as [|[a da] A _] using rev_ind; [apply yields_ok; by right|]. rewrite !last_of_snoc.
  destruct VA as [|vb VA _] using rev_ind; [rewrite !length_app in HA; cbn in HA; lia|]. destruct VA as [|va VA _] using rev_ind; [rewrite !length_app in HA; cbn in HA; lia|]. rewrite <- !app_assoc in Hq. cbn [app] in Hq. rewrite !length_app in HA. cbn [length] in HA.
  assert (forall i, pending (A ++ (a, da) :: (b, db) :: C) i -> i = S (length A)) as Hpe'. { intros i Hi. rewrite <- !app_assoc in Hpe. specialize (Hpe i Hi). rewrite !length_app in Hpe. cbn in Hpe. lia. }
  eapply yields_mono; [apply (try_merge_spec P None F h ql A a da b db C VA va vb VC Hq ltac:(lia))|].
  { intros i Hi. left. right. by apply Hpe'. }
  intros [[[h' ql'] ok] r] Hres. destruct ok; [|by right]. left.
  destruct Hres as [(x & _ & _ & Ho & A' & d' & B' & Hq' & SA & SB & _) _]. cbn [fst snd] in *. exists (A' ++ [(x, d')]), B', (VA ++ [va ++ vb]). rewrite <- !app_assoc. cbn [app]. split; [done|].
  split; [rewrite !length_app, (sims_length _ _ SA); cbn; lia|]. split; [rewrite !concat_app; cbn; by rewrite !app_nil_r, ?app_assoc|]. split; [done|]. split; [done|]. intros _. by destruct A'.
Qed.

(** A node that waits among [C] has a node to spare. *)
Definition spare (ql : quicklist) (C ns : nodes) : Prop := forall i, pending ns i -> (i < length C /\ i + depth ql + 1 < length ns)%nat.

Lemma suffix_merge P F h ql (C B : nodes) VC VB : qbody P F h ql (C ++ B) (VC ++ VB) -> length C = length VC -> spare ql C (C ++ B) ->
  yields (try_merge h ql (first_of B) (first_of (tail B))) (fun '(h', ql', _, _) => side_merged P F ql C false B VB VC h' ql').
Proof.
  intros Hq HA Hsp. assert (length B = length VB) as HB. { pose proof (Forall2_length _ _ _ (qb_rep _ _ _ _ _ _ Hq)) as El. rewrite !length_app in El. lia. }
  pose proof (side_same P F h ql C false B VB VC Hq HB) as Hsame.
  destruct B as [|[a da] [|[b db] B]]; [by apply yields_ok|by apply yields_ok|]. destruct VB as [|va [|vb VB]]; [done|done|]. cbn [tail first_of head fmap option_fmap option_map fst].
  eapply yields_mono; [apply (try_merge_spec P P F h ql C a da b db B VC va vb VB Hq HA)|].
  { intros i Hi. right. destruct (Hsp i Hi). split; [lia|]. destruct Hq as [t Hq]. exact (q_pending _ _ _ _ _ _ Hq i Hi). }
  intros [[[h' ql'] ok] r] Hres. destruct ok; [|by destruct Hres as [-> ->]].
  destruct Hres as [(x & _ & _ & Ho & A' & d' & B' & Hq' & SA & SB & _) _]. cbn [fst snd] in *. exists ((x, d') :: B'), A', ((va ++ vb) :: VB). split; [done|].
  split; [cbn; rewrite (sims_length _ _ SB); cbn in HB; lia|]. split; [cbn; by rewrite <- app_assoc|]. done.
Qed.

(** ** Merging around a node *)

Lemma get_at_node h (A : nodes) x d B F : lay h (A ++ (x, d) :: B) F -> get h x = Ok (at_node A d B).
Proof. intros Hl. unfold get. by rewrite (lay_here _ _ _ _ _ _ Hl). Qed.

Lemma prev_of_spec h (A B : nodes) F : lay h (A ++ B) F -> prev_of h (last_of A) = Ok (last_of (removelast A)).
Proof. destruct A as [|[x d] A _] using rev_ind; [done|]. intros Hl. rewrite last_of_snoc, removelast_last. rewrite <- app_assoc in Hl. cbn [prev_of]. by rewrite (get_at_node _ _ _ _ _ _ Hl). Qed.

Lemma next_of_spec h (A B : nodes) F : lay h (A ++ B) F -> next_of h (first_of B) = Ok (first_of (tail B)).
Proof. destruct B as [|[x d] B]; [done|]. intros Hl. cbn [next_of first_of head fmap option_fmap option_map fst]. by rewrite (get_at_node _ _ _ _ _ _ Hl). Qed.

Lemma sims_first (B B' : nodes) : sims B B' -> first_of B' = first_of B /\ first_of (tail B') = first_of (tail B).
Proof. intros S. inversion S as [|? ? ? ? [E _] S']; subst; [done|]. cbn. rewrite E. split; [done|]. inversion S' as [|? ? ? ? [E' _] _]; subst; [done|]. cbn. by rewrite E'. Qed.

(** The node [t] that the merges around [c] end at; a plain node is not merged. *)
Definition around F (ql : quicklist) (A : nodes) c dc VA vc VB (h' : heap) (ql' : quicklist) (t : loc) : Prop :=
  exists (A' : nodes) d' B' VA' vt VB', qbody None F h' ql' (A' ++ (t, d') :: B') (VA' ++ vt :: VB') /\ length A' = length VA' /\ concat (VA' ++ vt :: VB') = concat (VA ++ vc :: VB) /\ kept ql ql' /\
    (is_plain dc = true -> t = c /\ vt = vc /\ concat VA' = concat VA /\ concat VB' = concat VB /\ (A <> [] -> A' <> []) /\ is_plain d' = true).

Lemma merge_before F h ql (A : nodes) c dc B VA vc VB : qbody None F h ql (A ++ (c, dc) :: B) (VA ++ vc :: VB) -> length A = length VA ->
  yields (try_merge h ql (last_of A) (Some c)) (fun '(h', ql', ok, r) => exists t, (if ok : bool then r else Some c) = Some t /\ around F ql A c dc VA vc VB h' ql' t).
Proof.
  intros Hq HA. assert (around F ql A c dc VA vc VB h ql c) as Hsame by (exists A, dc, B, VA, vc, VB; split_and!; try done; apply kept_refl).
  destruct A as [|[p dp] A _] using rev_ind; [apply yields_ok; by exists c|]. rewrite last_of_snoc. destruct VA as [|vp VA _] using rev_ind; [rewrite !length_app in HA; cbn in HA; lia|].
  pose proof Hq as Hq0. rewrite <- !app_assoc in Hq. cbn [app] in Hq. rewrite !length_app in HA. cbn [length] in HA.
  eapply yields_mono; [apply (try_merge_spec None None F h ql A p dp c dc B VA vp vc VB Hq ltac:(lia)); apply calm_mergeable; by eapply qbody_calm|]. intros [[[h' ql'] ok] r] Hres. destruct ok; [|destruct Hres as [-> ->]; by exists c].
  destruct Hres as [(t & Er & _ & Ho & A' & d' & B' & Hq' & SA & SB & _) [_ Hpc]]. cbn [fst snd] in *. exists t. split; [done|]. exists A', d', B', VA, (vp ++ vc), VB. split; [done|].
  split; [rewrite (sims_length _ _ SA); lia|]. split; [rewrite !concat_app; cbn; by rewrite ?app_nil_r, <- !app_assoc|]. split; [done|]. congruence.
Qed.

Lemma merge_after F h ql (A : nodes) c dc B VA vc VB : qbody None F h ql (A ++ (c, dc) :: B) (VA ++ vc :: VB) -> length A = length VA ->
  yields (try_merge h ql (Some c) (first_of B)) (fun '(h', ql', ok, r) => exists t, (if ok : bool then r else Some c) = Some t /\ around F ql A c dc VA vc VB h' ql' t).
Proof.
  intros Hq HA. assert (around F ql A c dc VA vc VB h ql c) as Hsame by (exists A, dc, B, VA, vc, VB; split_and!; try done; apply kept_refl).
  destruct B as [|[q dq] B]; [apply yields_ok; by exists c|]. destruct VB as [|vq VB]. { pose proof (Forall2_length _ _ _ (qb_rep _ _ _ _ _ _ Hq)) as El. rewrite !length_app in El. cbn in El. lia. }
  cbn [first_of head fmap option_fmap option_map fst].
  eapply yields_mono; [apply (try_merge_spec None None F h ql A c dc q dq B VA vc vq VB Hq HA); apply calm_mergeable; by eapply qbody_calm|]. intros [[[h' ql'] ok] r] Hres. destruct ok; [|destruct Hres as [-> ->]; by exists c].
  destruct Hres as [(t & Er & _ & Ho & A' & d' & B' & Hq' & SA & SB & _) [Hpc _]]. cbn [fst snd] in *. exists t. split; [done|]. exists A', d', B', VA, (vc ++ vq), VB. split; [done|].
  split; [rewrite (sims_length _ _ SA); lia|]. split; [rewrite !concat_app; cbn; by rewrite <- !app_assoc|]. split; [done|]. congruence.
Qed.

(** The merges on the two sides of [c], where the node before it may wait. *)
Lemma sides_spec P F h ql (A : nodes) c dc B VA vc VB : qbody P F h ql (A ++ (c, dc) :: B) (VA ++ vc :: VB) -> length A = length VA ->
  (forall i, pending (A ++ (c, dc) :: B) i -> S i = length A /\ (i + depth ql + 1 < length (A ++ (c, dc) :: B))%nat) ->
  yields ('(h, ql, _, _) ← try_merge h ql (last_of (removelast A)) (last_of A); '(h, ql, _, _) ← try_merge h ql (first_of B) (first_of (tail B)); Ok (h, ql)) (fun r =>
    exists P' (A2 : nodes) dc2 B2 VA2 VB2, qbody P' F r.1 r.2 (A2 ++ (c, dc2) :: B2) (VA2 ++ vc :: VB2) /\ length A2 = length VA2 /\ concat VA2 = concat VA /\ concat VB2 = concat VB /\ container dc2 = container dc /\ kept ql r.2 /\ (A <> [] -> A2 <> []) /\
      (P' = None \/ P' = P /\ last_of A2 = last_of A)).
Proof.
  intros Hq HA Hpe.
  eapply yields_bind; [apply (prefix_merge P F h ql A ((c, dc) :: B) VA (vc :: VB) Hq HA); intros i Hi; by destruct (Hpe i Hi)|]. intros [[[h1 ql1] ok1] r1] H1.
  assert (exists P' (A1 : nodes) dc1 B1 VA1, qbody P' F h1 ql1 (A1 ++ (c, dc1) :: B1) (VA1 ++ vc :: VB) /\ length A1 = length VA1 /\ concat VA1 = concat VA /\ sim dc dc1 /\ sims B B1 /\ kept ql ql1 /\ (A <> [] -> A1 <> []) /\
    spare ql1 (A1 ++ [(c, dc1)]) (A1 ++ (c, dc1) :: B1) /\ (P' = None \/ P' = P /\ last_of A1 = last_of A)) as (P' & A1 & dc1 & B1 & VA1 & Hq1 & HA1 & EA1 & Sc1 & SB1 & Ho1 & Hne1 & Hsp & HP').
  { destruct H1 as [(A1 & C1 & VA1 & Hq1 & HA1 & EA1 & S1 & Ho1 & Hne1)|[-> ->]].
    - inversion S1 as [|? [c1 dc1] ? B1 [Ec Sc1] SB1]; subst. cbn [fst snd] in *. subst c1. exists None, A1, dc1, B1, VA1. split_and!; try done; [|by left]. intros i Hi. by destruct (qbody_calm _ _ _ _ _ Hq1 i).
    - exists P, A, dc, B, VA. split_and!; try done; [apply sims_refl|apply kept_refl| |by right]. intros i Hi. destruct (Hpe i Hi) as [Hlast Hm]. rewrite length_app. cbn [length]. split; [lia|exact Hm]. }
  destruct (sims_first _ _ SB1) as [<- <-]. rewrite (snoc_mid A1 (c, dc1) B1), (snoc_mid VA1 vc VB) in Hq1. rewrite (snoc_mid A1 (c, dc1) B1) in Hsp.
  eapply yields_bind; [apply (suffix_merge P' F h1 ql1 (A1 ++ [(c, dc1)]) B1 (VA1 ++ [vc]) VB Hq1); [rewrite !length_app; cbn; lia|done]|]. intros [[[h2 ql2] ok2] r2] (B2 & C2 & VB2 & Hq2 & HB2 & EB2 & S2 & Ho2 & _).
  destruct (sims_mid _ _ _ _ S2) as (A2 & dc2 & N2 & -> & SA2 & Sc2 & SN). inversion SN; subst. cbn [fst snd] in *. rewrite <- !app_assoc in Hq2. cbn [app] in Hq2. apply yields_ok. cbn [fst snd].
  exists P', A2, dc2, B2, VA1, VB2. split; [done|]. split; [rewrite (sims_length _ _ SA2); lia|]. split; [done|]. split; [done|]. split; [by rewrite (sim_container _ _ Sc2), (sim_container _ _ Sc1)|].
  split; [by eapply kept_trans|]. split; [intros Hne; specialize (Hne1 Hne); intros ->; destruct A1; [done|by inversion SA2]|].
  destruct HP' as [|[-> El]]; [by left|right]. split; [done|]. rewrite <- El, !last_of_at, (sims_length _ _ SA2). by apply sims_loc_at.
Qed.

(** The first steps of [_quicklistMergeNodes], up to the merges with [c]. *)
Lemma mergeNodes_sides P F h ql (A : nodes) c dc B VA vc VB Q : qbody P F h ql (A ++ (c, dc) :: B) (VA ++ vc :: VB) -> length A = length VA ->
  (forall i, pending (A ++ (c, dc) :: B) i -> S i = length A /\ (i + depth ql + 1 < length (A ++ (c, dc) :: B))%nat) ->
  (forall P' h' ql' (A2 : nodes) dc2 B2 VA2 VB2, qbody P' F h' ql' (A2 ++ (c, dc2) :: B2) (VA2 ++ vc :: VB2) -> length A2 = length VA2 -> concat VA2 = concat VA -> concat VB2 = concat VB -> container dc2 = container dc -> kept ql ql' -> (A <> [] -> A2 <> []) ->
    (P' = None \/ P' = P /\ last_of A2 = last_of A) ->
    yields ('(h, ql, merged, r) ← try_merge h' ql' (last_of A2) (Some c); let target := if merged : bool then r else Some c in t ← the target; n ← get h t;
            '(h, ql, merged, r) ← try_merge h ql target (next n); Ok (h, ql, if merged : bool then r else target)) Q) ->
  yields (_quicklistMergeNodes h ql c) Q.
Proof.
  intros Hq HA Hpe Hk. pose proof (qb_lay _ _ _ _ _ _ Hq) as Hl. unfold _quicklistMergeNodes. rewrite (get_at_node _ _ _ _ _ _ Hl). cbn [mbind res_bind at_node prev next].
  rewrite (prev_of_spec _ _ _ _ Hl). cbn [mbind res_bind]. pose proof Hl as Hl'. rewrite snoc_mid in Hl'. rewrite (next_of_spec _ _ _ _ Hl'). cbn [mbind res_bind].
  destruct (sides_spec P F h ql A c dc B VA vc VB Hq HA Hpe) as ([h2 ql2] & E & P' & A2 & dc2 & B2 & VA2 & VB2 & Hq2 & HA2 & EA & EB & Ec & Ho & Hne & HP'). cbn [fst snd] in *.
  destruct (try_merge h ql _ _) as [[[[h1 ql1] ok1] r1]|]; [|done]. cbn [mbind res_bind] in E |- *. destruct (try_merge h1 ql1 _ _) as [[[[h2' ql2'] ok2] r2]|]; [|done]. cbn [mbind res_bind] in E |- *. injection E as -> ->.
  rewrite (get_at_node _ _ _ _ _ _ (qb_lay _ _ _ _ _ _ Hq2)). cbn [mbind res_bind at_node prev next]. by eapply Hk.
Qed.

Lemma mergeNodes_spec F h ql (A : nodes) c dc B VA vc VB : qbody None F h ql (A ++ (c, dc) :: B) (VA ++ vc :: VB) -> length A = length VA ->
  yields (_quicklistMergeNodes h ql c) (fun r => exists t, r.2 = Some t /\ around F ql A c dc VA vc VB r.1.1 r.1.2 t).
Proof.
  intros Hq HA. eapply mergeNodes_sides; [exact Hq|done|intros i Hi; by destruct (qbody_calm _ _ _ _ _ Hq i)|].
  intros P' h2 ql2 A2 dc2 B2 VA1 VB2 Hq2 HA2 EA1 EB2 Ecc Ho2 Hne1 HP'. assert (P' = None) as -> by (by destruct HP' as [|[]]).
  assert (is_plain dc2 = is_plain dc) as Epl by (unfold is_plain; by rewrite Ecc).
  eapply yields_bind; [apply (merge_before F h2 ql2 A2 c dc2 B2 VA1 vc VB2 Hq2 HA2)|]. intros [[[h3 ql3] ok3] r3] (t & -> & A3 & d3 & B3 & VA3 & v3 & VB3 & Hq3 & HA3 & Ecat3 & Ho3 & Hpl3). cbn [the mbind res_bind].
  rewrite (get_at_node _ _ _ _ _ _ (qb_lay _ _ _ _ _ _ Hq3)). cbn [mbind res_bind at_node prev next].
  eapply yields_bind; [apply (merge_after F h3 ql3 A3 t d3 B3 VA3 v3 VB3 Hq3 HA3)|]. intros [[[h4 ql4] ok4] r4] (t' & Et' & A4 & d4 & B4 & VA4 & v4 & VB4 & Hq4 & HA4 & Ecat4 & Ho4 & Hpl4). apply yields_ok. cbn [fst snd].
  exists t'. split; [done|]. exists A4, d4, B4, VA4, v4, VB4. split; [done|]. split; [done|]. split; [rewrite Ecat4, Ecat3, !concat_mid; congruence|].
  split; [eapply kept_trans; [exact Ho2|]; by eapply kept_trans|]. intros Hp. destruct (Hpl3 ltac:(congruence)) as (-> & -> & E5 & E6 & Hne3 & Hp3). destruct (Hpl4 Hp3) as (-> & -> & E7 & E8 & Hne4 & Hp4).
  split; [done|]. split; [done|]. split; [congruence|]. split; [congruence|]. split; [|done]. intros Hne. by apply Hne4, Hne3, Hne1.
Qed.

(** A plain node is merged with nothing. *)
Lemma no_merge_before h ql (A : nodes) c dc B F : lay h (A ++ (c, dc) :: B) F -> is_plain dc = true -> try_merge h ql (last_of A) (Some c) = Ok (h, ql, false, None).
Proof.
  intros Hl Hp. unfold try_merge, _quicklistNodeAllowMerge. destruct A as [|[a da] A _] using rev_ind; [done|]. rewrite last_of_snoc. rewrite (lay_node_at _ _ _ _ _ _ Hl). rewrite <- app_assoc in Hl. cbn [app] in Hl. rewrite (lay_node_at _ _ _ _ _ _ Hl).
  cbn [mbind res_bind]. by rewrite Hp, orb_true_r.
Qed.

Lemma no_merge_after h ql (A : nodes) c dc B F : lay h (A ++ (c, dc) :: B) F -> is_plain dc = true -> try_merge h ql (Some c) (first_of B) = Ok (h, ql, false, None).
Proof.
  intros Hl Hp. unfold try_merge, _quicklistNodeAllowMerge. destruct B as [|[b db] B]; [done|]. cbn [first_of head fmap option_fmap option_map fst]. rewrite (lay_node_at _ _ _ _ _ _ Hl). rewrite snoc_mid in Hl. rewrite (lay_node_at _ _ _ _ _ _ Hl).
  cbn [mbind res_bind]. by rewrite Hp.
Qed.

Lemma mergeNodes_plain P F h ql (A : nodes) c dc B VA vc VB : qbody P F h ql (A ++ (c, dc) :: B) (VA ++ vc :: VB) -> length A = length VA -> is_plain dc = true ->
  (forall i, pending (A ++ (c, dc) :: B) i -> S i = length A /\ (i + depth ql + 1 < length (A ++ (c, dc) :: B))%nat) ->
  yields (_quicklistMergeNodes h ql c) (fun r => r.2 = Some c /\ exists P' (A' : nodes) d' B' VA' VB', qbody P' F r.1.1 r.1.2 (A' ++ (c, d') :: B') (VA' ++ vc :: VB') /\ length A' = length VA' /\
    concat VA' = concat VA /\ concat VB' = concat VB /\ kept ql r.1.2 /\ (A <> [] -> A' <> []) /\ (P' = None \/ P' = P /\ last_of A' = last_of A)).
Proof.
  intros Hq HA Hp Hpe. eapply mergeNodes_sides; [exact Hq|done|done|]. intros P' h2 ql2 A2 dc2 B2 VA2 VB2 Hq2 HA2 EA EB Ecc Ho Hne HP'. assert (is_plain dc2 = true) as Hp2 by (unfold is_plain in *; by rewrite Ecc). pose proof (qb_lay _ _ _ _ _ _ Hq2) as Hl2.
  rewrite (no_merge_before _ _ _ _ _ _ _ Hl2 Hp2). cbn [mbind res_bind the]. rewrite (get_at_node _ _ _ _ _ _ Hl2). cbn [mbind res_bind at_node next]. rewrite (no_merge_after _ _ _ _ _ _ _ Hl2 Hp2). cbn [mbind res_bind]. apply yields_ok. split; [done|].
  by exists P', A2, dc2, B2, VA2, VB2.
Qed.

End merge.
End QuicklistMerge.
