(* ===== verification/QuicklistInsert.v ===== *)
(** * Quicklists: splitting nodes, inserting beside an element

    [_quicklistInsert] puts a value before or after the element of an iterator:
    into its node, into a neighbour, into a new node, or into a half of its node,
    which is split and merged again. *)

From S2P Require Import Prelude Util ListpackEnc Listpack ListpackTheory ListpackSpec Lzf LzfSpec Dll Quicklist QuicklistNode QuicklistLink QuicklistValues QuicklistOps QuicklistEdit QuicklistIter QuicklistMerge.
From stdpp Require Import list gmap fin_maps.
#[local] Open Scope Z_scope.

Module QuicklistInsert.
Import Dll Quicklist QuicklistNode QuicklistLink QuicklistValues QuicklistOps QuicklistEdit QuicklistIter QuicklistMerge.

#[local] Abbreviation nodes := (list (loc * qnode)).
#[local] Abbreviation repr := ListpackTheory.repr.
#[local] Abbreviation lptotal := ListpackTheory.total.
#[local] Abbreviation text := LP.text.
#[local] Abbreviation lppos := ListpackTheory.pos.

Section insert.
Context `{Allocator} `{Environment} (Hhtab : LzfSpec.valid_htab htab).

(** ** Splitting a node *)

Lemma cut_after (l r : list LP.elem) : zlen (l ++ r) < 2 ^ 16 -> ListpackTheory.remove_range (l ++ r) (zlen l) (u64 (-1)) = l.
Proof.
  intros Hb. unfold ListpackTheory.remove_range, ListpackTheory.norm_index. cbv zeta. pose proof (zlen_nonneg l). rewrite (proj2 (Z.ltb_ge (zlen l) 0)), (proj2 (Z.leb_le 0 (zlen l))) by lia. cbn [andb].
  change (u64 (-1)) with (2 ^ 64 - 1). rewrite zlen_app in *. destruct (Z.ltb_spec (zlen l) (zlen l + zlen r)) as [Hlt|Hge].
  - rewrite to_nat_zlen, take_app_length, drop_app_length. rewrite drop_ge; [by rewrite app_nil_r|]. unfold zlen in *. lia.
  - assert (r = []) as -> by (apply zlen_nil_inv; pose proof (zlen_nonneg r); lia). by rewrite app_nil_r.
Qed.

Lemma cut_before (l r : list LP.elem) : ListpackTheory.remove_range (l ++ r) 0 (zlen l) = r.
Proof.
  unfold ListpackTheory.remove_range, ListpackTheory.norm_index. cbv zeta. cbn [Z.ltb Z.compare Z.leb andb]. pose proof (zlen_nonneg l). pose proof (zlen_nonneg r). rewrite zlen_app. destruct (Z.ltb_spec 0 (zlen l + zlen r)) as [Hlt|Hge].
  - rewrite to_nat_zlen. cbn [Z.to_nat take app]. rewrite drop_0. by rewrite drop_app_length.
  - by rewrite (zlen_nil_inv l), (zlen_nil_inv r) by lia.
Qed.

(** The elements that stay in the node, and those of the new one. *)
Definition stay {T} (after : bool) (l : list T) (e : T) (r : list T) : list T := if after then l ++ [e] else e :: r.
Definition go {T} (after : bool) (l r : list T) : list T := if after then r else l.

Lemma cut_stay (after : bool) (l : list LP.elem) e r : zlen (l ++ e :: r) < 2 ^ 16 ->
  ListpackTheory.remove_range (l ++ e :: r) (if after then zlen l + 1 else 0) (u64 (if after then -1 else zlen l)) = stay after l e r.
Proof.
  intros Hb. pose proof (zlen_nonneg l). pose proof (zlen_nonneg r). destruct after; cbn [stay].
  - rewrite snoc_mid in *. replace (zlen l + 1) with (zlen (l ++ [e])) by (by rewrite zlen_app). by apply cut_after.
  - rewrite zlen_app, zlen_cons in Hb. rewrite wrapu_small by lia. apply cut_before.
Qed.

Lemma cut_go (after : bool) (l : list LP.elem) e r : zlen (l ++ e :: r) < 2 ^ 16 ->
  ListpackTheory.remove_range (l ++ e :: r) (if after then 0 else zlen l) (u64 (if after then zlen l + 1 else -1)) = go after l r.
Proof.
  intros Hb. pose proof (zlen_nonneg l). pose proof (zlen_nonneg r). destruct after; cbn [go].
  - rewrite snoc_mid in *. replace (zlen l + 1) with (zlen (l ++ [e])) by (by rewrite zlen_app). rewrite zlen_app in Hb. pose proof (zlen_nonneg (l ++ [e])). rewrite wrapu_small by lia. apply cut_before.
  - by apply cut_after.
Qed.

Lemma fmap_stay (after : bool) (l : list LP.elem) e r : text <$> stay after l e r = stay after (text <$> l) (text e) (text <$> r).
Proof. destruct after; cbn [stay]; [by rewrite fmap_app|done]. Qed.

Lemma fmap_go (after : bool) (l r : list LP.elem) : text <$> go after l r = go after (text <$> l) (text <$> r).
Proof. by destruct after. Qed.

(** The heap after the split: the node [x] with its half, and the new node. *)
Definition split_result F h' (A : nodes) x d (B : nodes) (L : list bytes) v R (after : bool) (y : loc) : Prop :=
  exists d' dy, F !! y = None /\ lay h' (A ++ (x, d') :: B) (<[y := free_node dy]> F) /\
    keeps d' (stay after L v R) /\ count d' = zlen (stay after L v R) /\ dont_compress d' = dont_compress d /\ is_lzf d' = false /\ is_plain d' = false /\ recompress d' = recompress d /\
    holds dy (go after L R) /\ plainly dy /\ is_plain dy = false.

Lemma splitNode_spec F h (A : nodes) x d B (L : list bytes) v R o (after : bool) : lay h (A ++ (x, d) :: B) F -> keeps d (L ++ v :: R) -> count d = zlen (L ++ v :: R) ->
  is_lzf d = false -> is_plain d = false -> index_of L R o -> go after L R <> [] ->
  yields (_quicklistSplitNode h x o after) (fun r => split_result F r.1 A x d B L v R after r.2).
Proof.
  intros Hl Hk Hc Hz Hp Hi Hgo. unfold _quicklistSplitNode. rewrite (lay_node_at _ _ _ _ _ _ Hl). cbn [mbind res_bind].
  destruct (lay_new h _ F Hl) as (h1 & y & -> & Hl1 & _ & HF). fold (free_node new_qnode) in Hl1.
  destruct Hk as (r & Hraw & Hcont). pose proof Hp as Hp'. unfold is_plain in Hp'. destruct (container d) eqn:Econ; [done|]. destruct Hcont as (es & [Hrepr Hlen] & Ees & Hn).
  symmetry in Ees. apply fmap_app_inv in Ees as (le & er & -> & Ees & ->). destruct er as [|e re]; [done|]. injection Ees as -> ->.
  destruct (raw_bytes d r Hraw Hz) as [s Hs]. unfold as_bytes. rewrite Hs. cbn [mbind res_bind]. rewrite (rdn_raw r s _ (eq_sym (raw_size _ _ Hraw))). cbn [mbind res_bind].
  destruct (copy_to_new r (sz d) (eq_sym (raw_size _ _ Hraw))) as [s' ->]. cbn [mbind res_bind].
  pose proof (repr_slack r s _ Hrepr) as Hrep. pose proof (repr_slack r s' _ Hrepr) as Hrep'. assert (zlen (le ++ e :: re) < 2 ^ 16) as Hn15 by lia. pose proof (zlen_nonneg le). pose proof (zlen_nonneg re). rewrite zlen_app, zlen_cons in Hn.
  assert ((if o <? 0 then count d + o else o) = zlen le) as ->. { rewrite Hc, zlen_app, zlen_cons, !zlen_fmap. apply index_fmap in Hi. destruct Hi as [-> | ->]; case_match; lia. }
  destruct (ListpackTheory.delete_range_spec (r ++ s) _ (if after then zlen le + 1 else 0) (u64 (if after then -1 else zlen le)) Hrep) as (b1 & -> & Hb1); [unfold is_i64, INT64_MIN, INT64_MAX; destruct after; lia|pose proof (wrapu_range 64 (if after then -1 else zlen le)); unfold is_u64, UINT64_MAX; lia|].
  rewrite cut_stay in Hb1 by done. cbn [mbind res_bind]. destruct (ListpackTheory.length_spec b1 _ Hb1) as (b2 & -> & Hb2 & _). cbn [mbind res_bind].
  pose proof (put_here h1 x _ (lay_here _ _ _ _ _ _ Hl1)) as Ep. cbn [dat at_node] in Ep. rewrite Ep. rewrite set_entry_put. cbn [mbind res_bind]. rewrite qupd_put. cbn [mbind res_bind]. erewrite update_sz_put; [|reflexivity|exact Hb2]. cbn [mbind res_bind].
  destruct (ListpackTheory.delete_range_spec (r ++ s') _ (if after then 0 else zlen le) (u64 (if after then zlen le + 1 else -1)) Hrep') as (b3 & -> & Hb3); [unfold is_i64, INT64_MIN, INT64_MAX; destruct after; lia|pose proof (wrapu_range 64 (if after then zlen le + 1 else -1)); unfold is_u64, UINT64_MAX; lia|].
  rewrite cut_go in Hb3 by done. cbn [mbind res_bind]. destruct (ListpackTheory.length_spec b3 _ Hb3) as (b4 & -> & Hb4 & _). cbn [mbind res_bind]. set (d' := set_sz _ _). pose proof (lay_put _ _ _ _ _ _ d' Hl1) as Hl2. set (h2 := put h1 x _ d') in *.
  pose proof (put_here h2 y _ (lay_free_lookup _ _ _ y _ Hl2 (lookup_insert_eq _ _ _))) as Ep2. cbn [dat free_node] in Ep2. rewrite Ep2. rewrite set_entry_put. cbn [mbind res_bind]. rewrite qupd_put. cbn [mbind res_bind]. erewrite update_sz_put; [|reflexivity|exact Hb4]. cbn [mbind res_bind].
  apply yields_ok. cbn [fst snd]. set (dy := set_sz _ (set_count _ _)). exists d', dy. split; [done|].
  assert (zlen (stay after le e re) < 2 ^ 16 /\ 0 < zlen (stay after le e re)) as [Hs1 Hs2] by (destruct after; cbn [stay]; rewrite ?zlen_app, ?zlen_cons, ?zlen_nil; lia).
  assert (zlen (go after le re) < 2 ^ 16 /\ 0 < zlen (go after le re)) as [Hg1 Hg2].
  { split; [destruct after; cbn [go]; lia|]. rewrite <- fmap_go in Hgo. destruct (go after le re); [done|]. rewrite zlen_cons. pose proof (zlen_nonneg l). lia. }
  split. { pose proof (lay_put_free _ _ _ _ _ dy Hl2 (lookup_insert_eq _ _ _)) as Hl3. rewrite insert_insert_eq in Hl3. exact Hl3. }
  rewrite <- fmap_stay. split; [by apply (keeps_count _ (stored b2 (stay after le e re) d)), keeps_stored|]. split; [rewrite zlen_fmap; cbn; rewrite wrapu_small; lia|]. split; [done|]. split; [done|]. split; [done|]. split; [done|].
  split; [rewrite <- fmap_go; apply (holds_stored new_qnode b4 (go after le re)); try done; rewrite wrapu_small; lia|]. done.
Qed.

(** ** Into the node itself *)

Definition put_in {T} (after : bool) (L : list T) (v w : T) (R : list T) : list T := L ++ if after then v :: w :: R else w :: v :: R.

Definition lp_side (after : bool) : Listpack.lpwhere := if after then Listpack.LP_AFTER else Listpack.LP_BEFORE.

Lemma fmap_put_in (after : bool) (l : list LP.elem) e w r : text <$> put_in after l e (LP.elem_of w) r = put_in after (text <$> l) (text e) w (text <$> r).
Proof. unfold put_in. rewrite fmap_app. destruct after; cbn [fmap list_fmap]; by rewrite LP.text_elem_of. Qed.

Lemma zlen_put_in {T} (after : bool) (L : list T) v w R : zlen (put_in after L v w R) = zlen (L ++ v :: R) + 1.
Proof. unfold put_in. destruct after; rewrite !zlen_app, !zlen_cons; lia. Qed.

Lemma weight_put_in (after : bool) L v w R : weight (put_in after L v w R) = weight (L ++ v :: R) + 16 + zlen w.
Proof. unfold put_in. destruct after; rewrite !weight_app, !weight_cons; lia. Qed.

Lemma insert_lp lp (le : list LP.elem) e re w (after newp : bool) : repr lp (le ++ e :: re) -> wf_bytes w -> fits (put_in after le e (LP.elem_of w) re) ->
  exists lp' np, Listpack.lpInsertString lp w (zlen w) (lppos le) (lp_side after) newp = Ok (Some (lp', np)) /\ repr lp' (put_in after le e (LP.elem_of w) re).
Proof.
  intros Hr Hw Hf. unfold Listpack.lpInsertString. assert (zlen w < 2 ^ 31) as Hzw. { unfold fits in Hf. rewrite fmap_put_in, weight_put_in in Hf. pose proof (weight_nonneg ((text <$> le) ++ text e :: (text <$> re))). lia. }
  assert (Forall LP.elem_ok (put_in after le e (LP.elem_of w) re)) as Hok.
  { pose proof (repr_ok _ _ Hr) as Hok. apply Forall_app in Hok as [H1 H2]. apply Forall_cons_1 in H2 as [H2 H3]. assert (LP.elem_ok (LP.elem_of w)) by (apply LP.elem_of_ok; [done|lia]). unfold put_in. apply Forall_app. split; [done|]. destruct after; by repeat constructor. }
  pose proof (fits_total _ Hok Hf) as Ht. pose proof (ListpackTheory.pay_str w Hw ltac:(lia)) as Hpay. unfold put_in in *. destruct after; cbn [lp_side] in *.
  - rewrite (ListpackTheory.insert_after lp le e re _ _ _ _ newp Hr Hpay). rewrite snoc_mid in Hr. pose proof (ListpackTheory.insert_spec lp (le ++ [e]) [] re Listpack.LP_BEFORE _ _ _ _ newp ListpackTheory.place_before Hr Hpay) as Hs.
    rewrite <- app_assoc in Hs. cbn [app] in Hs. rewrite (proj2 (Z.ltb_lt _ _)) in Hs by lia. destruct Hs as (lp' & E & Hs). by eexists _, _.
  - pose proof (ListpackTheory.insert_spec lp le [] (e :: re) Listpack.LP_BEFORE _ _ _ _ newp ListpackTheory.place_before Hr Hpay) as Hs. rewrite (proj2 (Z.ltb_lt _ _)) in Hs by lia. destruct Hs as (lp' & E & Hs). by eexists _, _.
Qed.

(** The list after an insertion. *)
Definition inserted F (ql : quicklist) (vs : list bytes) (h' : heap) (ql' : quicklist) : Prop :=
  exists ns' vss', qrep None F h' ql' ns' vss' /\ concat vss' = vs /\ same_options ql ql'.

Lemma opened_noop P F h ql (A : nodes) x d B vss : qrep P F h ql (A ++ (x, d) :: B) vss -> is_lzf d = false -> quicklistDecompressNodeForUse h x = Ok h.
Proof. intros Hq Hz. unfold quicklistDecompressNodeForUse. rewrite (lay_node_at _ _ _ _ _ _ (q_lay _ _ _ _ _ _ Hq)). cbn [mbind res_bind]. by rewrite Hz. Qed.

Lemma insert_here_spec F h ql (A : nodes) x d B VA L v R VB w p (after : bool) : qrep (Some x) F h ql (A ++ (x, d) :: B) (VA ++ (L ++ v :: R) :: VB) -> length A = length VA -> is_lzf d = false -> is_plain d = false ->
  points d p L v R -> wf_bytes w -> zlen (L ++ v :: R) + 1 < 2 ^ 16 -> weight (concat (VA ++ put_in after L v w R :: VB)) < 2 ^ 31 ->
  yields (insert_here h x w p (lp_side after)) (fun h' => inserted F ql (concat (VA ++ put_in after L v w R :: VB)) h' (with_total ql (total ql + 1))).
Proof.
  intros Hq HA Hz Hpl Hp Hw Hn Hwt. pose proof (holds_at _ _ _ _ _ _ _ _ _ _ _ Hq HA) as (Hk & Hc & Hdc). unfold insert_here. rewrite (opened_noop _ _ _ _ _ _ _ _ _ Hq Hz). cbn [mbind res_bind].
  rewrite (lay_node_at _ _ _ _ _ _ (q_lay _ _ _ _ _ _ Hq)). cbn [mbind res_bind]. destruct Hp as [|(lp & le & e & re & Hlp & Hrep & -> & -> & -> & ->)]; [congruence|]. unfold as_bytes. rewrite Hlp. cbn [mbind res_bind].
  destruct (insert_lp lp le e re w after false Hrep Hw) as (lp' & np & -> & Hrep'); [apply (fits_within VA VB); by rewrite fmap_put_in|]. cbn [mbind res_bind option_map fst lp_entry].
  rewrite (lay_at _ _ _ _ _ _ _ _ _ Hq) at 1. rewrite set_entry_put. cbn [mbind res_bind]. rewrite add_count_put. cbn [mbind res_bind]. erewrite update_sz_put; [|reflexivity|exact Hrep']. cbn [mbind res_bind]. rewrite stored_count.
  pose proof (zlen_nonneg (le ++ e :: re)) as Hnn. assert (zlen ((text <$> le) ++ text e :: (text <$> re)) = zlen (le ++ e :: re)) as Ez by (rewrite !zlen_app, !zlen_cons, !zlen_fmap; lia).
  assert (qrep (Some x) F (put h x (at_node A d B) (set_count (count d + 1) (stored lp' (put_in after le e (LP.elem_of w) re) d))) (with_total ql (total ql + 1)) (A ++ (x, set_count (count d + 1) (stored lp' (put_in after le e (LP.elem_of w) re) d)) :: B)
    (VA ++ (text <$> put_in after le e (LP.elem_of w) re) :: VB)) as Hq2.
  { apply (qrep_change (Some x) F h ql A x d B VA _ VB _ (text <$> put_in after le e (LP.elem_of w) re) _ Hq HA).
    - apply holds_stored; try done; [rewrite zlen_put_in; lia|]. cbn [count stored set_sz set_entry]. rewrite Hc, zlen_put_in. rewrite wrapu_small; lia.
    - done.
    - done.
    - eapply total_plus; [exact Hq| |by rewrite fmap_put_in]. rewrite fmap_put_in, !concat_mid, !zlen_app, zlen_put_in, !zlen_app. lia.
    - by rewrite fmap_put_in. }
  eapply yields_mono; [apply (recompressOnly_spec Hhtab (Some x) F _ _ A x _ B _ Hq2 ltac:(by right))|]. intros h' (ns' & _ & Hq'). rewrite fmap_put_in in Hq'. by exists ns', (VA ++ put_in after (text <$> le) (text e) w (text <$> re) :: VB).
Qed.

(** ** Into a neighbour *)

(** One more value at an end of an open packed node. *)
Lemma add_steps h y n d vs w (at_head : bool) : holds d vs -> is_lzf d = false -> is_plain d = false -> wf_bytes w -> weight (w :: vs) < 2 ^ 31 -> zlen vs + 1 < 2 ^ 16 ->
  let vs' := if at_head then w :: vs else vs ++ [w] in
  exists h1 d', (if at_head then prepend_to (put h y n d) y w else append_to (put h y n d) y w) = Ok h1 /\ (h2 ← add_count h1 y 1; quicklistNodeUpdateSz h2 y) = Ok (put h y n d') /\
    holds d' vs' /\ is_lzf d' = false /\ is_plain d' = false /\ recompress d' = recompress d.
Proof.
  intros Hd Hz Hp Hw Hwt Hn. destruct (keeps_packed d vs (proj1 Hd) Hz Hp) as (lp & es & Hlp & Hrep & Evs & _). destruct at_head; cbv zeta.
  - assert (fits (LP.elem_of w :: es)) as Hfit by (unfold fits; by rewrite elems_cons, <- Evs).
    destruct (prepend_steps h y n d vs w lp es Hlp Hrep Hw Hfit Hd Evs Hz Hp Hn) as (h1 & h2 & d' & E1 & _ & _ & E2 & Hd' & Hz' & Hrec & Hcon). exists h1, d'. split_and!; try done. unfold is_plain in *. by rewrite Hcon.
  - assert (fits (es ++ [LP.elem_of w])) as Hfit by (unfold fits; rewrite elems_snoc, <- Evs, weight_app; rewrite !weight_cons in *; rewrite weight_nil; lia).
    destruct (append_steps h y n d vs w lp es Hlp Hrep Hw Hfit Hd Evs Hz Hp Hn) as (h1 & h2 & d' & E1 & _ & _ & E2 & Hd' & Hz' & Hrec & Hcon). exists h1, d'. split_and!; try done. unfold is_plain in *. by rewrite Hcon.
Qed.

Lemma insert_beside_spec F h ql (C : nodes) y dy D VC vy VD x dx i w (at_head : bool) : qrep (Some x) F h ql (C ++ (y, dy) :: D) (VC ++ vy :: VD) -> length C = length VC ->
  (C ++ (y, dy) :: D) !! i = Some (x, dx) -> i <> length C -> is_plain dy = false -> zlen vy + 1 < 2 ^ 16 -> wf_bytes w ->
  let vss' := VC ++ (if at_head then w :: vy else vy ++ [w]) :: VD in weight (concat vss') < 2 ^ 31 ->
  yields (insert_beside h x y w at_head) (fun h' => exists dy' ns', sims (C ++ (y, dy') :: D) ns' /\ qrep None F h' (with_total ql (total ql + 1)) ns' vss').
Proof.
  intros Hq HC Hx Hix Hpl Hn Hw vss' Hwt. pose proof Hq as [Hl He Hst Hr Ht Hwq Hp Hf]. pose proof (holds_at _ _ _ _ _ _ _ _ _ _ _ Hq HC) as Hd. unfold insert_beside.
  eapply yields_bind; [by apply (use_settled F h ql C y dy D Hl Hst)|]. intros h1 (dy1 & Hl1 & Hst1 & [Hz1 Hcon1 _ Hho]). specialize (Hho _ Hd). assert (is_plain dy1 = false) as Hpl1 by (unfold is_plain in *; by rewrite Hcon1).
  pose proof (put_here h1 y _ (lay_here _ _ _ _ _ _ Hl1)) as Ep. cbn [dat at_node] in Ep. rewrite Ep.
  destruct (add_steps h1 y (at_node C dy1 D) dy1 vy w at_head Hho Hz1 Hpl1 Hw) as (h2 & dy2 & -> & E2 & Hd2 & Hz2 & Hpl2 & Hrec2); [|done|].
  { unfold vss' in Hwt. rewrite concat_mid, !weight_app in Hwt. pose proof (weight_nonneg (concat VC)). pose proof (weight_nonneg (concat VD)). destruct at_head; [lia|]. rewrite weight_app, !weight_cons, weight_nil in *. lia. }
  cbn [mbind res_bind]. destruct (add_count h2 y 1) as [h3|]; [|done]. cbn [mbind res_bind] in E2 |- *. rewrite E2. cbn [mbind res_bind].
  pose proof (lay_put _ _ _ _ _ _ dy2 Hl1) as Hl2. destruct (keeps_raw _ _ (proj1 Hd2)) as [r Hrw]. pose proof (settled_change ql C y dy1 dy2 D r Hst1 Hrw ltac:(congruence) ltac:(congruence)) as Hst2.
  destruct (quicklistRecompressOnly_spec Hhtab _ _ F ql _ y dy2 Hl2 Hst2 (lookup_mid C D (y, dy2))) as (h4 & ns4 & -> & Hl4 & S4 & Hst4 & Hnp4). cbn [mbind res_bind].
  assert (forall c j, j <> length C -> (C ++ (y, c) :: D) !! j = (C ++ (y, dy) :: D) !! j) as Hother by (intros c j Hj; rewrite <- (insert_mid C D (y, dy) (y, c)); by rewrite list_lookup_insert_ne by done).
  assert (rep (C ++ (y, dy2) :: D) vss') as Hr2. { apply Forall2_app_inv in Hr as [HrC HrD]; [|done]. inversion HrD; subst. apply Forall2_app; [done|]. by constructor. }
  assert ((C ++ (y, dy2) :: D) !! i = Some (x, dx)) as Hx2 by by rewrite Hother. destruct (sims_lookup _ _ _ _ _ S4 Hx2) as (dx4 & Hx4 & Sx).
  destruct (quicklistRecompressOnly_spec Hhtab h4 ns4 F ql i x dx4 Hl4 Hst4 Hx4) as (h5 & ns5 & -> & Hl5 & S5 & Hst5 & Hnp5). apply yields_ok. pose proof (sims_trans _ _ _ S4 S5) as S45.
  exists dy2, ns5. split; [done|]. split; try done.
  - apply ends_total. eapply ends_sims; [|exact S45]. eapply ends_locs; [exact He|]. by rewrite !fmap_app.
  - by apply settled_total.
  - by eapply rep_sims.
  - eapply total_plus; [exact Hq| |done]. unfold vss'. rewrite !concat_mid, !zlen_app. destruct at_head; rewrite ?zlen_cons, ?zlen_app, ?zlen_cons, ?zlen_nil; lia.
  - intros j Hj. exfalso. pose proof (sims_pending _ _ _ S5 Hj) as Hj4. assert (j <> length C) as Hjc. { intros ->. by apply Hnp4; [apply Hd2|]. }
    pose proof (sims_pending _ _ _ S4 Hj4) as (c & Hc & Hcr). rewrite Hother in Hc by done. assert (pending (C ++ (y, dy) :: D) j) as Hj0 by by exists c. pose proof (Hp j Hj0) as El.
    assert (j = i) as ->. { eapply (loc_at_inj (C ++ (y, dy) :: D)); [exact (lay_nodup _ _ _ Hl)|exact El|]. unfold loc_at. by rewrite Hx. }
    apply Hnp5; [|done]. rewrite (sim_dont _ _ Sx). destruct (Forall2_lookup_l _ _ _ _ _ Hr Hx) as (vsx & _ & _ & _ & Hdx). exact Hdx.
Qed.

(** ** Into a new node *)

(** What is to the left and to the right of the place beside [c]. *)
Definition lefts {T} (after : bool) (A : list T) (c : T) : list T := if after then A ++ [c] else A.
Definition rights {T} (after : bool) (c : T) (B : list T) : list T := if after then B else c :: B.

Lemma lefts_rights {T} (after : bool) (A : list T) c B : lefts after A c ++ rights after c B = A ++ c :: B.
Proof. destruct after; cbn; [by rewrite <- app_assoc|done]. Qed.

Lemma beside_here (after : bool) (A : nodes) x d B : beside (lefts after A (x, d)) (rights after (x, d) B) after /\
  (if after then last_of (lefts after A (x, d)) else first_of (rights after (x, d) B)) = Some x.
Proof. destruct after; [|done]. unfold lefts. split; [by destruct A|apply last_of_snoc]. Qed.

Lemma lefts_length {T U} (after : bool) (A : list T) (V : list U) c e : length A = length V -> length (lefts after A c) = length (lefts after V e).
Proof. intros. destruct after; cbn; [|done]. rewrite !length_app. cbn. lia. Qed.

Lemma concat_beside (after : bool) (VA VB : list (list bytes)) vs ws : concat (lefts after VA vs ++ ws :: rights after vs VB) = concat VA ++ (if after then vs ++ ws else ws ++ vs) ++ concat VB.
Proof. destruct after; cbn; rewrite !concat_app; cbn; by rewrite ?app_nil_r, <- ?app_assoc. Qed.

(** Linking the free node [y] beside [x]. *)
Lemma link_beside F h ql (A : nodes) x d B VA vs VB y dy ws (after : bool) : qbody (Some x) F h ql (A ++ (x, d) :: B) (VA ++ vs :: VB) -> length A = length VA -> F !! y = Some (free_node dy) -> holds dy ws -> plainly dy ->
  weight (concat (lefts after VA vs ++ ws :: rights after vs VB)) < 2 ^ 31 ->
  exists h' ql' (A' : nodes) d' B' dy', __quicklistInsertNode h ql (Some x) y after = Ok (h', ql') /\ sims A A' /\ sim d d' /\ sims B B' /\ sim dy dy' /\ total ql' = total ql /\ same_options ql ql' /\
    qbody None (delete y F) h' ql' (lefts after A' (x, d') ++ (y, dy') :: rights after (x, d') B') (lefts after VA vs ++ ws :: rights after vs VB).
Proof.
  intros Hq HA Hy Hd Hpl Hw. destruct (beside_here after A x d B) as [Hb Eo]. rewrite <- (lefts_rights after A (x, d) B), <- (lefts_rights after VA vs VB) in Hq.
  destruct (qrep_insert_held Hhtab (Some x) F h ql _ _ _ _ y dy ws after Hq (lefts_length after A VA _ _ HA) Hy Hb ltac:(by right) Hd Hpl Hw) as (h' & ql' & A1 & dy' & B1 & E & SA & Sy & SB & Ht & Ho & Hfin). rewrite Eo in E.
  assert (exists (A' : nodes) d' B', A1 = lefts after A' (x, d') /\ B1 = rights after (x, d') B' /\ sims A A' /\ sim d d' /\ sims B B') as (A' & d' & B' & -> & -> & S1 & S2 & S3).
  { destruct after; cbn in SA, SB.
    - apply Forall2_app_inv_l in SA as (A' & N & SA & SN & ->). inversion SN as [|? [x' d'] ? N' [Ex Sd] SN']; subst. inversion SN'; subst. cbn in *. subst. by exists A', d', B1.
    - inversion SB as [|? [x' d'] ? B' [Ex Sd] SB']; subst. cbn in *. subst. by exists A1, d', B'. }
  exists h', ql', A', d', B', dy'. split_and!; try done. exists (zlen (concat (lefts after VA vs ++ ws :: rights after vs VB))). apply Hfin. pose proof (weight_room _ Hw). apply wrapu_small. lia.
Qed.

Lemma insert_new_spec F h ql (A : nodes) x d B VA vs VB w (after : bool) : qrep (Some x) F h ql (A ++ (x, d) :: B) (VA ++ vs :: VB) -> length A = length VA -> wf_bytes w ->
  let vs' := concat VA ++ (if after then vs ++ [w] else [w] ++ vs) ++ concat VB in weight vs' < 2 ^ 31 ->
  yields (insert_new h ql x w after) (fun r => same_options ql r.2 /\ exists (A' : nodes) d' B' y dy, sims A A' /\
    qrep None F r.1 (with_total r.2 (total r.2 + 1)) (lefts after A' (x, d') ++ (y, dy) :: rights after (x, d') B') (lefts after VA vs ++ [w] :: rights after vs VB)).
Proof.
  intros Hq HA Hw vs' Hwt. unfold insert_new. assert (fits [LP.elem_of w]) as Hfit. { unfold fits. cbn. rewrite LP.text_elem_of, weight_cons, weight_nil. unfold vs' in Hwt. rewrite !weight_app in Hwt. pose proof (weight_nonneg (concat VA)). pose proof (weight_nonneg (concat VB)). pose proof (weight_nonneg vs). destruct after; rewrite weight_app, weight_cons, weight_nil in Hwt; lia. }
  destruct (singleton_spec w Hw Hfit) as (lp & -> & Hrep). destruct (create_packed h _ F lp w 1 (q_lay _ _ _ _ _ _ Hq) Hrep) as (h1 & y & -> & h2 & dy & E2 & _ & E3 & HF & Hk & Hpl & Hc & Hdc & Hl).
  cbn [mbind res_bind]. rewrite E2. cbn [mbind res_bind]. destruct (add_count h2 y 1) as [h2'|]; [|done]. cbn [mbind res_bind] in E3 |- *. rewrite E3. cbn [mbind res_bind].
  pose proof (qrep_body _ _ _ _ _ _ (qrep_lay _ _ _ _ _ _ _ _ Hq (Hl (set_count 1 dy)))) as Hb.
  destruct (link_beside _ _ ql A x d B VA vs VB y (set_count 1 dy) [w] after Hb HA (lookup_insert_eq _ _ _)) as (h4 & ql4 & A' & d' & B' & dy' & -> & SA & Sd & SB & _ & Ht & Ho & Hq4).
  - split; [by apply keeps_count|]. by split.
  - done.
  - by rewrite concat_beside.
  - apply yields_ok. cbn [fst snd]. rewrite delete_insert_id in Hq4 by done. split; [done|]. exists A', d', B', y, dy'. split; [done|]. apply (qbody_recount _ _ _ _ _ _ (total ql4 + 1) Hq4).
    rewrite Ht, concat_beside. eapply (total_plus _ _ _ ql _ _ vs'); [exact Hq| |done]. unfold vs'. rewrite concat_mid, !zlen_app. destruct after; rewrite !zlen_app; change (zlen [w]) with 1; lia.
Qed.

(** ** Splitting the node *)

Lemma u64_succ a b : u64 a = u64 b -> u64 (a + 1) = u64 (b + 1).
Proof. unfold wrapu. intros E. rewrite <- (Z.add_mod_idemp_l a), <- (Z.add_mod_idemp_l b), E by done. done. Qed.

Lemma put_in_split (after : bool) (L : list bytes) v w R : put_in after L v w R = if after then stay after L v R ++ w :: go after L R else (go after L R ++ [w]) ++ stay after L v R.
Proof. unfold put_in. destruct after; cbn; by rewrite <- app_assoc. Qed.

(** The node with one half, and the other half on its own. *)
Lemma split_body F h ql (A : nodes) x d B VA L v R VB o (after : bool) : qrep (Some x) F h ql (A ++ (x, d) :: B) (VA ++ (L ++ v :: R) :: VB) -> length A = length VA -> is_lzf d = false -> is_plain d = false -> index_of L R o ->
  go after L R <> [] -> yields (_quicklistSplitNode h x o after) (fun r => exists d' dy, F !! r.2 = None /\ qbody (Some x) (<[r.2 := free_node dy]> F) r.1 ql (A ++ (x, d') :: B) (VA ++ stay after L v R :: VB) /\
    holds dy (go after L R) /\ plainly dy /\ is_plain dy = false).
Proof.
  intros Hq HA Hz Hpl Hi Hgo. pose proof (holds_at _ _ _ _ _ _ _ _ _ _ _ Hq HA) as (Hk & Hc & Hdc). eapply yields_mono; [by apply (splitNode_spec F h A x d B L v R o after (q_lay _ _ _ _ _ _ Hq))|].
  intros [h1 y] (d' & dy & HF & Hl & Hk' & Hc' & Hdc' & Hz' & Hpl' & Hrec' & Hdy & Hply & Hpy). cbn [fst snd] in *. exists d', dy. split; [done|]. split; [|done].
  eapply (qbody_set (Some x) F); [by apply qrep_body|done|done| |done|by rewrite Hrec'|]; [split; [done|by rewrite Hdc']|].
  pose proof (q_weight _ _ _ _ _ _ Hq) as Hw. rewrite concat_mid, !weight_app, weight_cons in Hw. rewrite concat_mid, !weight_app. pose proof (weight_nonneg L). pose proof (weight_nonneg R). destruct after; cbn [stay]; rewrite ?weight_app, weight_cons, ?weight_nil; lia.
Qed.

Lemma insert_split_spec F h ql (A : nodes) x d B VA L v R VB w o (after : bool) : qrep (Some x) F h ql (A ++ (x, d) :: B) (VA ++ (L ++ v :: R) :: VB) -> length A = length VA -> is_lzf d = false -> is_plain d = false -> index_of L R o ->
  go after L R <> [] -> wf_bytes w -> weight (concat (VA ++ put_in after L v w R :: VB)) < 2 ^ 31 ->
  yields (insert_split h ql x w o after) (fun r => inserted F ql (concat (VA ++ put_in after L v w R :: VB)) r.1 (with_total r.2 (total r.2 + 1))).
Proof.
  intros Hq HA Hz Hpl Hi Hgo Hw Hwt. pose proof (holds_at _ _ _ _ _ _ _ _ _ _ _ Hq HA) as (Hk & _). unfold insert_split. rewrite (opened_noop _ _ _ _ _ _ _ _ _ Hq Hz). cbn [mbind res_bind].
  eapply yields_bind; [by apply (split_body F h ql A x d B VA L v R VB o after)|]. intros [h1 y] (d' & dy & HF & Hb & Hdy & Hply & Hpy). cbn [fst snd] in *.
  pose proof (qb_lay _ _ _ _ _ _ Hb) as Hl1. pose proof (put_here h1 y _ (lay_free_lookup _ _ _ y _ Hl1 (lookup_insert_eq _ _ _))) as Ep. cbn [dat free_node] in Ep. rewrite Ep.
  pose proof (keeps_length _ _ Hk) as Hlen. rewrite zlen_app, zlen_cons in Hlen. pose proof (zlen_nonneg L). pose proof (zlen_nonneg R).
  rewrite concat_mid, put_in_split in Hwt |- *. rewrite !weight_app in Hwt. pose proof (weight_nonneg (concat VA)). pose proof (weight_nonneg (concat VB)). pose proof (weight_nonneg (stay after L v R)).
  assert (weight (w :: go after L R) < 2 ^ 31) as Hwy. { destruct after; rewrite ?weight_app, ?weight_cons, ?weight_nil in *; lia. }
  destruct (add_steps h1 y (free_node dy) dy (go after L R) w after Hdy (proj1 Hply) Hpy Hw Hwy) as (h2 & dy2 & -> & E2 & Hd2 & Hz2 & Hp2 & Hrec2); [destruct after; cbn [go]; lia|].
  cbn [mbind res_bind]. destruct (add_count h2 y 1) as [h3|]; [|done]. cbn [mbind res_bind] in E2 |- *. rewrite E2. cbn [mbind res_bind].
  pose proof (lay_put_free _ _ _ _ _ dy2 Hl1 (lookup_insert_eq _ _ _)) as Hl2. rewrite insert_insert_eq in Hl2. set (ws := if after then w :: go after L R else go after L R ++ [w]) in *.
  assert (qbody (Some x) (<[y := free_node dy2]> F) (put h1 y (free_node dy) dy2) ql (A ++ (x, d') :: B) (VA ++ stay after L v R :: VB)) as Hb2 by (destruct Hb as [t Hb]; exists t; by eapply qrep_lay).
  assert (concat (lefts after VA (stay after L v R) ++ ws :: rights after (stay after L v R) VB) = concat VA ++ (if after then stay after L v R ++ w :: go after L R else (go after L R ++ [w]) ++ stay after L v R) ++ concat VB) as Ecat by (rewrite concat_beside; unfold ws; by destruct after).
  destruct (link_beside _ _ ql A x d' B VA _ VB y dy2 ws after Hb2 HA (lookup_insert_eq _ _ _)) as (h4 & ql4 & A' & d4 & B' & dy4 & -> & SA & Sd & SB & _ & Ht4 & Ho4 & Hq4).
  - unfold ws. by destruct after.
  - split; [done|]. rewrite Hrec2. by destruct Hply.
  - rewrite Ecat, !weight_app. lia.
  - cbn [mbind res_bind]. rewrite delete_insert_id in Hq4 by done. pose proof (sims_length _ _ SA) as ElA.
    assert (exists (C D : nodes) VC VD, lefts after A' (x, d4) ++ (y, dy4) :: rights after (x, d4) B' = C ++ (x, d4) :: D /\ lefts after VA (stay after L v R) ++ ws :: rights after (stay after L v R) VB = VC ++ stay after L v R :: VD /\ length C = length VC) as (C & D & VC & VD & E1 & E2' & HC).
    { destruct after; cbn [lefts rights]; [exists A', ((y, dy4) :: B'), VA, (ws :: VB)|exists (A' ++ [(y, dy4)]), B', (VA ++ [ws]), VB]; rewrite <- ?app_assoc; split_and!; try done; rewrite ?length_app; cbn; lia. }
    rewrite E1, E2' in Hq4. eapply yields_bind; [apply (mergeNodes_spec Hhtab F h4 ql4 C x d4 D VC _ VD Hq4 HC)|].
    intros [[h5 ql5] r5] (t & _ & A5 & d5 & B5 & VA5 & v5 & VB5 & Hq5 & _ & Ecat5 & Hkept & _). cbn [fst snd] in *. pose proof (kept_count _ _ Hkept) as Ht5. destruct Hkept as [Ho5 _]. apply yields_ok. cbn [fst snd].
    rewrite <- E2', Ecat in Ecat5. eexists _, _. split; [apply (qbody_recount _ _ _ _ _ _ (total ql5 + 1) Hq5)|split; [by rewrite Ecat5|destruct Ho4 as [], Ho5 as []; split; cbn; congruence]].
    rewrite (u64_succ _ _ Ht5), Ht4, Ecat5. eapply total_plus; [exact Hq| |rewrite !weight_app; lia]. rewrite concat_mid, !zlen_app. destruct after; cbn [stay go]; rewrite ?zlen_app, ?zlen_cons, ?zlen_nil; lia.
Qed.

(** ** A large value *)

(** The list after an insertion that leaves [x] in place. *)
Definition inserted_at F (ql : quicklist) (x : loc) (vs : list bytes) (h' : heap) (ql' : quicklist) : Prop :=
  exists ns' vss', qrep None F h' ql' ns' vss' /\ concat vss' = vs /\ same_options ql ql' /\ x ∈ ns'.*1.

Lemma elem_mid (A : nodes) x d B : x ∈ (A ++ (x, d) :: B).*1.
Proof. rewrite fmap_app, elem_of_app. right. by left. Qed.

Lemma elem_locs (ns ns' : nodes) x : x ∈ ns.*1 -> sims ns ns' -> x ∈ ns'.*1.
Proof. intros Hx S. by rewrite (sims_locs _ _ S). Qed.

Lemma elem_beside (after : bool) (A : nodes) x d c B : x ∈ (lefts after A (x, d) ++ c :: rights after (x, d) B).*1.
Proof. destruct after; cbn [lefts rights]; rewrite !fmap_app, !elem_of_app; cbn; set_solver. Qed.

Lemma put_in_end (after : bool) (L : list bytes) v w R : go after L R = [] -> put_in after L v w R = if after then (L ++ v :: R) ++ [w] else [w] ++ L ++ v :: R.
Proof. unfold put_in. destruct after; cbn; intros ->; by rewrite <- ?app_assoc. Qed.

Lemma insert_plain_beside F h ql (A : nodes) x d B VA L v R VB w (after : bool) : qrep (Some x) F h ql (A ++ (x, d) :: B) (VA ++ (L ++ v :: R) :: VB) -> length A = length VA -> go after L R = [] ->
  wf_bytes w -> weight (concat (VA ++ put_in after L v w R :: VB)) < 2 ^ 31 ->
  yields (__quicklistInsertPlainNode h ql (Some x) w after) (fun r => inserted_at F ql x (concat (VA ++ put_in after L v w R :: VB)) r.1 r.2).
Proof.
  intros Hq HA Hgo Hw Hwt. rewrite concat_mid, put_in_end in Hwt |- * by done. destruct (beside_here after A x d B) as [Hb Eo]. rewrite <- (lefts_rights after A (x, d) B), <- (lefts_rights after VA _ VB) in Hq.
  assert (concat (lefts after VA (L ++ v :: R) ++ [w] :: rights after (L ++ v :: R) VB) = concat VA ++ (if after then (L ++ v :: R) ++ [w] else [w] ++ L ++ v :: R) ++ concat VB) as Ecat by apply concat_beside.
  destruct (insertPlain_spec Hhtab (Some x) F h ql _ _ _ _ w after Hq (lefts_length after A VA _ _ HA) Hb ltac:(by right) Hw) as (h' & ql' & A' & c & B' & E & Hq' & Ho & SA & SB); [by rewrite Ecat|].
  rewrite Eo in E. rewrite E. apply yields_ok. eexists _, _. split; [exact Hq'|]. split; [exact Ecat|]. split; [done|]. rewrite fmap_app. cbn [fmap list_fmap]. rewrite (sims_locs _ _ SA), (sims_locs _ _ SB).
  destruct after; cbn [lefts rights]; rewrite ?fmap_app, !elem_of_app; cbn; set_solver.
Qed.

Lemma qbody_wait F h ql ns vss x : qbody None F h ql ns vss -> qbody (Some x) F h ql ns vss.
Proof. intros [t Hq]. exists t. by apply qrep_wait. Qed.

Lemma insert_large_spec F h ql (A : nodes) x d B VA L v R VB w o (after at_end : bool) : qrep (Some x) F h ql (A ++ (x, d) :: B) (VA ++ (L ++ v :: R) :: VB) -> length A = length VA -> is_lzf d = false -> index_of L R o ->
  (at_end = true <-> go after L R = []) -> wf_bytes w -> weight (concat (VA ++ put_in after L v w R :: VB)) < 2 ^ 31 ->
  yields (insert_large h ql x w o after at_end) (fun r => inserted_at F ql x (concat (VA ++ put_in after L v w R :: VB)) r.1 r.2).
Proof.
  intros Hq HA Hz Hi Hend Hw Hwt. pose proof (holds_at _ _ _ _ _ _ _ _ _ _ _ Hq HA) as (Hk & _). unfold insert_large. rewrite (lay_node_at _ _ _ _ _ _ (q_lay _ _ _ _ _ _ Hq)). cbn [mbind res_bind].
  destruct (is_plain d) eqn:Hpl; cbn [orb].
  { apply (insert_plain_beside F h ql A x d B VA L v R VB w after Hq HA); try done. destruct (plain_alone d L v R Hk Hpl) as [-> ->]. by destruct after. }
  destruct at_end; [apply (insert_plain_beside F h ql A x d B VA L v R VB w after Hq HA); try done; by apply Hend|]. assert (go after L R <> []) as Hgo by (intros E; by apply Hend in E).
  rewrite (opened_noop _ _ _ _ _ _ _ _ _ Hq Hz). cbn [mbind res_bind]. eapply yields_bind; [by apply (split_body F h ql A x d B VA L v R VB o after)|]. intros [h1 y] (d' & dy & HF & Hb & Hdy & Hply & Hpy). cbn [fst snd] in *.
  rewrite concat_mid, put_in_split in Hwt |- *. rewrite !weight_app in Hwt. pose proof (weight_nonneg (concat VA)). pose proof (weight_nonneg (concat VB)). pose proof (weight_nonneg (stay after L v R)). pose proof (weight_nonneg (go after L R)).
  destruct (create_plain h1 _ _ w (qb_lay _ _ _ _ _ _ Hb) Hw) as (h2 & z & dz & -> & Hl2 & HF2 & Hdz & Hplz & _). { destruct after; rewrite ?weight_app, ?weight_cons in Hwt; pose proof (weight_nonneg []); lia. }
  cbn [mbind res_bind]. set (F1 := <[y := free_node dy]> F) in *.
  assert (qbody (Some x) (<[z := free_node dz]> F1) h2 ql (A ++ (x, d') :: B) (VA ++ stay after L v R :: VB)) as Hb2 by (destruct Hb as [t Hb]; exists t; by eapply qrep_lay).
  destruct (link_beside _ _ ql A x d' B VA _ VB z dz [w] after Hb2 HA (lookup_insert_eq _ _ _) Hdz Hplz) as (h3 & ql3 & A3 & d3 & B3 & dz3 & -> & SA & Sd & SB & _ & Ht3 & Ho3 & Hq3).
  { rewrite concat_beside, !weight_app. destruct after; rewrite ?weight_app, ?weight_cons, ?weight_nil in *; lia. }
  cbn [mbind res_bind]. rewrite delete_insert_id in Hq3 by done. assert (F1 !! y = Some (free_node dy)) as Hy by (unfold F1; by rewrite lookup_insert_eq).
  set (VA3 := lefts after VA (stay after L v R)) in *. set (VB3 := rights after (stay after L v R) VB) in *.
  assert (concat (lefts after VA3 [w] ++ go after L R :: rights after [w] VB3) = concat VA ++ (if after then stay after L v R ++ w :: go after L R else (go after L R ++ [w]) ++ stay after L v R) ++ concat VB) as Ecat.
  { rewrite concat_beside. unfold VA3, VB3. destruct after; cbn [lefts rights]; rewrite ?concat_app; cbn [concat]; by rewrite ?app_nil_r, <- ?app_assoc. }
  destruct (link_beside F1 h3 ql3 (lefts after A3 (x, d3)) z dz3 (rights after (x, d3) B3) VA3 [w] VB3 y dy (go after L R) after (qbody_wait _ _ _ _ _ z Hq3)) as (h4 & ql4 & A4 & d4 & B4 & dy4 & -> & SA4 & _ & SB4 & _ & Ht4 & Ho4 & Hq4).
  - apply lefts_length. rewrite (sims_length _ _ SA). done.
  - done.
  - done.
  - done.
  - rewrite Ecat, !weight_app. lia.
  - cbn [mbind res_bind]. apply yields_ok. cbn [fst snd]. unfold F1 in Hq4. rewrite delete_insert_id in Hq4 by done.
    eexists _, _. split; [apply (qbody_recount _ _ _ _ _ _ (total ql4 + 1) Hq4)|split; [exact Ecat|split; [destruct Ho3 as [], Ho4 as []; split; cbn; congruence|]]].
    + rewrite Ht4, Ht3, Ecat. eapply total_plus; [exact Hq| |rewrite !weight_app; lia]. rewrite concat_mid, !zlen_app. destruct after; cbn [stay go]; rewrite ?zlen_app, ?zlen_cons, ?zlen_nil; lia.
    + assert (x ∈ (lefts after A3 (x, d3) ++ rights after (x, d3) B3).*1) as Hin by (rewrite lefts_rights; apply elem_mid). rewrite fmap_app, elem_of_app in Hin. rewrite fmap_app, elem_of_app. cbn [fmap list_fmap].
      destruct after; cbn [lefts rights] in *; rewrite ?fmap_app, ?elem_of_app; rewrite <- (sims_locs _ _ SA4), <- (sims_locs _ _ SB4) in Hin; cbn; set_solver.
Qed.

(** ** The whole insertion *)

Lemma allow_here P F h ql (A : nodes) x d B VA vs VB (w : bytes) : qrep P F h ql (A ++ (x, d) :: B) (VA ++ vs :: VB) -> length A = length VA -> zlen w < 2 ^ 32 ->
  exists ok, _quicklistNodeAllowInsert h (Some x) (fill ql) (zlen w) = Ok ok /\ (ok = true -> is_plain d = false /\ zlen vs + 1 < 2 ^ 16).
Proof.
  intros Hq HA Hw. destruct (allow_at P F h ql _ _ (length A) w Hq Hw) as (ok & E & Hok). unfold loc_at in E. rewrite lookup_mid in E. exists ok. split; [exact E|]. intros Ht. destruct (Hok Ht) as (x' & d' & vs' & Hx & Hv & Hp & Hn).
  rewrite lookup_mid in Hx. injection Hx as <- <-. rewrite HA, lookup_app_r, Nat.sub_diag in Hv by done. injection Hv as <-. done.
Qed.

Lemma allow_next P F h ql (A B : nodes) VA VB (w : bytes) : qrep P F h ql (A ++ B) (VA ++ VB) -> length A = length VA -> zlen w < 2 ^ 32 ->
  exists ok, _quicklistNodeAllowInsert h (first_of B) (fill ql) (zlen w) = Ok ok /\ (ok = true -> exists y dy B' vy VB', B = (y, dy) :: B' /\ VB = vy :: VB' /\ is_plain dy = false /\ zlen vy + 1 < 2 ^ 16).
Proof.
  intros Hq HA Hw. destruct B as [|[y dy] B]; [by exists false|]. destruct VB as [|vy VB]. { pose proof (Forall2_length _ _ _ (q_rep _ _ _ _ _ _ Hq)) as El. rewrite !length_app in El. cbn in El. lia. }
  destruct (allow_here P F h ql A y dy B VA vy VB w Hq HA Hw) as (ok & E & Hok). exists ok. split; [exact E|]. intros Ht. destruct (Hok Ht). by exists y, dy, B, vy, VB.
Qed.

Lemma allow_prev P F h ql (A B : nodes) VA VB (w : bytes) : qrep P F h ql (A ++ B) (VA ++ VB) -> length A = length VA -> zlen w < 2 ^ 32 ->
  exists ok, _quicklistNodeAllowInsert h (last_of A) (fill ql) (zlen w) = Ok ok /\ (ok = true -> exists A' y dy VA' vy, A = A' ++ [(y, dy)] /\ VA = VA' ++ [vy] /\ is_plain dy = false /\ zlen vy + 1 < 2 ^ 16).
Proof.
  intros Hq HA Hw. destruct A as [|[y dy] A _] using rev_ind; [by exists false|]. destruct VA as [|vy VA _] using rev_ind; [rewrite length_app in HA; cbn in HA; lia|]. rewrite last_of_snoc. rewrite <- !app_assoc in Hq. cbn [app] in Hq. rewrite !length_app in HA. cbn in HA.
  destruct (allow_here P F h ql A y dy B VA vy VB w Hq ltac:(lia) Hw) as (ok & E & Hok). exists ok. split; [exact E|]. intros Ht. destruct (Hok Ht). by exists A, y, dy, VA, vy.
Qed.

(** Where the element is in its node, from its offset. *)
Lemma at_tail_spec (L : list bytes) v R o : index_of L R o -> (o =? zlen (L ++ v :: R) - 1) || (o =? -1) = bool_decide (R = []).
Proof.
  intros Hi. rewrite zlen_app, zlen_cons. pose proof (zlen_nonneg L). destruct R as [|w R].
  - rewrite bool_decide_true by done. change (zlen (@nil bytes)) with 0 in *. unfold index_of in Hi. change (zlen (@nil bytes)) with 0 in Hi. destruct Hi as [-> | ->]; lia.
  - rewrite bool_decide_false by done. pose proof (zlen_nonneg R). destruct Hi as [-> | ->]; rewrite zlen_cons; lia.
Qed.

Lemma at_head_spec (L : list bytes) v R o : index_of L R o -> (o =? 0) || (o =? - zlen (L ++ v :: R)) = bool_decide (L = []).
Proof.
  intros Hi. rewrite zlen_app, zlen_cons. pose proof (zlen_nonneg R). destruct L as [|w L].
  - rewrite bool_decide_true by done. unfold index_of in Hi. change (zlen (@nil bytes)) with 0 in *. destruct Hi as [-> | ->]; lia.
  - rewrite bool_decide_false by done. pose proof (zlen_nonneg L). destruct Hi as [-> | ->]; rewrite zlen_cons; lia.
Qed.

(** The iterator is reset, or stays at a node of the list. *)
Definition insert_result F (ql : quicklist) (x : loc) (vs : list bytes) (r : heap * quicklist * quicklistIter) : Prop :=
  let '(h', ql', iter') := r in exists ns' vss', qrep None F h' ql' ns' vss' /\ concat vss' = vs /\ same_options ql ql' /\ (current iter' = None \/ current iter' = Some x /\ x ∈ ns'.*1).

(** The value that does not fit into the node [x]. *)
Lemma insert_full_spec F h ql (A : nodes) x d B VA L v R VB w o (after avail_next avail_prev : bool) : qrep (Some x) F h ql (A ++ (x, d) :: B) (VA ++ (L ++ v :: R) :: VB) -> length A = length VA -> is_lzf d = false ->
  is_plain d = false \/ go after L R = [] -> index_of L R o -> wf_bytes w -> weight (concat (VA ++ put_in after L v w R :: VB)) < 2 ^ 31 ->
  (avail_next = true -> exists y dy B' vy VB', B = (y, dy) :: B' /\ VB = vy :: VB' /\ is_plain dy = false /\ zlen vy + 1 < 2 ^ 16) ->
  (avail_prev = true -> exists A' y dy VA' vy, A = A' ++ [(y, dy)] /\ VA = VA' ++ [vy] /\ is_plain dy = false /\ zlen vy + 1 < 2 ^ 16) ->
  let at_tail := after && bool_decide (R = []) in let at_head := negb after && bool_decide (L = []) in
  yields (if at_tail && avail_next then y ← the (first_of B); h ← insert_beside h x y w true; Ok (h, ql)
          else if at_head && avail_prev then y ← the (last_of A); h ← insert_beside h x y w false; Ok (h, ql)
          else if at_tail || at_head then insert_new h ql x w after
          else insert_split h ql x w o after) (fun r => inserted F ql (concat (VA ++ put_in after L v w R :: VB)) r.1 (with_total r.2 (total r.2 + 1))).
Proof.
  intros Hq HA Hz Hpl Hi Hw Hwt Hnx Hpv at_tail at_head. destruct (at_tail && avail_next) eqn:E1.
  { apply andb_true_iff in E1 as [[Ea ER%bool_decide_eq_true_1]%andb_true_iff En]. subst after R. destruct (Hnx En) as (y & dy & B' & vy & VB' & -> & -> & Hpy & Hny). cbn [first_of head fmap option_fmap option_map fst the mbind res_bind].
    assert (concat (VA ++ put_in true L v w [] :: vy :: VB') = concat ((VA ++ [L ++ [v]]) ++ (w :: vy) :: VB')) as Ec by (rewrite !concat_app; unfold put_in; cbn; by rewrite ?app_nil_r, <- !app_assoc). rewrite Ec in Hwt |- *.
    rewrite (snoc_mid A), (snoc_mid VA) in Hq. eapply yields_bind; [apply (insert_beside_spec F h ql (A ++ [(x, d)]) y dy B' (VA ++ [L ++ [v]]) vy VB' x d (length A) w true Hq)|]; try done.
    - rewrite !length_app. cbn. lia.
    - rewrite <- snoc_mid. apply lookup_mid.
    - rewrite length_app. cbn. lia.
    - intros h' (dy' & ns' & _ & Hq'). apply yields_ok. by eexists ns', _. }
  destruct (at_head && avail_prev) eqn:E2.
  { apply andb_true_iff in E2 as [[Ea EL%bool_decide_eq_true_1]%andb_true_iff En]. apply negb_true_iff in Ea. subst after L. destruct (Hpv En) as (A' & y & dy & VA' & vy & -> & -> & Hpy & Hny). rewrite last_of_snoc. cbn [the mbind res_bind].
    assert (concat ((VA' ++ [vy]) ++ put_in false [] v w R :: VB) = concat (VA' ++ (vy ++ [w]) :: (v :: R) :: VB)) as Ec by (rewrite !concat_app; unfold put_in; cbn; by rewrite ?app_nil_r, <- !app_assoc). rewrite Ec in Hwt |- *.
    rewrite <- !app_assoc in Hq. cbn [app] in Hq. rewrite !length_app in HA. cbn [length] in HA. eapply yields_bind; [apply (insert_beside_spec F h ql A' y dy ((x, d) :: B) VA' vy ((v :: R) :: VB) x d (S (length A')) w false Hq)|]; try done.
    - lia.
    - rewrite snoc_mid. replace (S (length A')) with (length (A' ++ [(y, dy)])) by (rewrite length_app; cbn; lia). apply lookup_mid.
    - intros h' (dy' & ns' & _ & Hq'). apply yields_ok. by eexists ns', _. }
  assert (at_tail || at_head = bool_decide (go after L R = [])) as ->. { unfold at_tail, at_head. destruct after; cbn [go andb orb negb]; by rewrite ?orb_false_r. }
  case_bool_decide as Hgo.
  - rewrite concat_mid, put_in_end in Hwt |- * by done. eapply yields_mono; [by apply (insert_new_spec F h ql A x d B VA (L ++ v :: R) VB w after Hq HA Hw)|].
    intros [h' ql'] (Ho & A' & d' & B' & y & dy & _ & Hq'). cbn [fst snd] in *. eexists _, _. split; [exact Hq'|]. split; [by rewrite concat_beside|done].
  - destruct Hpl as [Hpl|]; [|done]. by apply insert_split_spec with (A := A) (d := d) (B := B).
Qed.

Lemma qinsert_spec F h ql (A : nodes) x d B VA L v R VB iter ent w (after : bool) : qrep (Some x) F h ql (A ++ (x, d) :: B) (VA ++ (L ++ v :: R) :: VB) -> length A = length VA -> located iter ent x d L v R ->
  wf_bytes w -> weight (concat (VA ++ put_in after L v w R :: VB)) < 2 ^ 31 -> yields (_quicklistInsert h ql iter ent w after) (insert_result F ql x (concat (VA ++ put_in after L v w R :: VB))).
Proof.
  intros Hq HA Hloc Hw Hwt. pose proof (holds_at _ _ _ _ _ _ _ _ _ _ _ Hq HA) as (Hk & Hc & Hdc). pose proof Hloc as [Hz Hcur Hn (p & Hzi & Hezi & Hp) Hi Ho _]. unfold _quicklistInsert. rewrite Hn.
  rewrite (get_at_node _ _ _ _ _ _ (q_lay _ _ _ _ _ _ Hq)). cbn [mbind res_bind at_node dat next prev]. rewrite Ho, Hc, (at_tail_spec L v R _ Hi), (at_head_spec L v R _ Hi).
  assert (zlen w < 2 ^ 32) as Hw32. { rewrite concat_mid, !weight_app, weight_put_in in Hwt. pose proof (weight_nonneg (concat VA)). pose proof (weight_nonneg (concat VB)). pose proof (weight_nonneg (L ++ v :: R)). lia. }
  destruct (allow_here _ _ _ _ _ _ _ _ _ _ _ w Hq HA Hw32) as (ok & -> & Hok). cbn [mbind res_bind].
  set (at_tail := after && bool_decide (R = [])). set (at_head := negb after && bool_decide (L = [])).
  assert (exists avail_next, (if at_tail then _quicklistNodeAllowInsert h (first_of B) (fill ql) (zlen w) else Ok false) = Ok avail_next /\ (avail_next = true -> exists y dy B' vy VB', B = (y, dy) :: B' /\ VB = vy :: VB' /\ is_plain dy = false /\ zlen vy + 1 < 2 ^ 16)) as (an & -> & Han).
  { destruct at_tail; [|by exists false]. pose proof Hq as Hq'. rewrite (snoc_mid A), (snoc_mid VA) in Hq'. apply (allow_next _ _ _ _ _ _ _ _ _ Hq'); [rewrite !length_app; cbn; lia|done]. }
  assert (exists avail_prev, (if at_head then _quicklistNodeAllowInsert h (last_of A) (fill ql) (zlen w) else Ok false) = Ok avail_prev /\ (avail_prev = true -> exists A' y dy VA' vy, A = A' ++ [(y, dy)] /\ VA = VA' ++ [vy] /\ is_plain dy = false /\ zlen vy + 1 < 2 ^ 16)) as (ap & -> & Hap).
  { destruct at_head; [|by exists false]. by apply (allow_prev _ _ _ _ _ _ _ _ _ Hq). }
  cbn [mbind res_bind]. destruct (large_ok (zlen w) (fill ql) (q_fill _ _ _ _ _ _ Hq)) as [large ->]. cbn [mbind res_bind]. destruct large.
  { eapply yields_bind; [apply (insert_large_spec F h ql A x d B VA L v R VB w (offset iter) after (at_tail || at_head) Hq HA Hz Hi)|]; try done.
    - unfold at_tail, at_head. destruct after; cbn [andb orb negb go]; rewrite ?orb_false_r; apply bool_decide_eq_true.
    - intros [h' ql'] (ns' & vss' & Hq' & Ec & Hso & Hin). apply yields_ok. exists ns', vss'. split_and!; try done. by right. }
  eapply (yields_bind _ _ (fun r => inserted F ql (concat (VA ++ put_in after L v w R :: VB)) r.1 (with_total r.2 (total r.2 + 1)))).
  - destruct ok; cbn [negb].
    + destruct (Hok eq_refl) as [Hpl Hlen]. rewrite Hezi. cbn [the_zi mbind res_bind]. eapply yields_bind; [by apply (insert_here_spec F h ql A x d B VA L v R VB w p after Hq HA Hz Hpl Hp Hw Hlen)|]. intros h' Hins. by apply yields_ok.
    + apply (insert_full_spec F h ql A x d B VA L v R VB w (offset iter) after an ap Hq HA Hz); try done. destruct (is_plain d) eqn:Hpl; [|by left]. right. destruct (plain_alone d L v R Hk Hpl) as [-> ->]. by destruct after.
  - intros [h' ql'] (ns' & vss' & Hq' & Ec & Hso). cbn [fst snd] in *. apply yields_ok. exists ns', vss'. split_and!; try done. by left.
Qed.

End insert.
End QuicklistInsert.
