(* ===== verification/QuicklistReplace.v ===== *)
(** * Quicklists: replacing an element

    [quicklistReplaceEntry] in its four cases: in the listpack, in a plain node,
    a small value for a plain node, and a large value for an element of a packed
    node, which is split around it. *)

From S2P Require Import Prelude Util ListpackEnc Listpack ListpackTheory ListpackSpec Lzf LzfSpec Dll Quicklist QuicklistNode QuicklistLink QuicklistValues QuicklistOps QuicklistEdit QuicklistIter QuicklistRange QuicklistMerge QuicklistInsert.
From stdpp Require Import list gmap fin_maps.
#[local] Open Scope Z_scope.

Module QuicklistReplace.
Import Dll Quicklist QuicklistNode QuicklistLink QuicklistValues QuicklistOps QuicklistEdit QuicklistIter QuicklistRange QuicklistMerge QuicklistInsert.

#[local] Abbreviation nodes := (list (loc * qnode)).
#[local] Abbreviation repr := ListpackTheory.repr.
#[local] Abbreviation lptotal := ListpackTheory.total.
#[local] Abbreviation text := LP.text.
#[local] Abbreviation lppos := ListpackTheory.pos.

Section replace.
Context `{Allocator} `{Environment} (Hhtab : LzfSpec.valid_htab htab).

(** ** In place *)

(** Other values, as many as before, in an open node that is then closed. *)
Lemma refilled F h ql (A : nodes) x d B VA vs VB d' vs' : qrep (Some x) F h ql (A ++ (x, d) :: B) (VA ++ vs :: VB) -> length A = length VA -> holds d' vs' -> is_lzf d' = false -> recompress d' = recompress d ->
  zlen vs' = zlen vs -> weight (concat (VA ++ vs' :: VB)) < 2 ^ 31 ->
  yields (h ← quicklistCompress (put h x (at_node A d B) d') ql x; Ok (h, ql)) (fun r => inserted F ql (concat (VA ++ vs' :: VB)) r.1 r.2).
Proof.
  intros Hq HA Hd Hz Hrec Hlen Hw. assert (qrep (Some x) F (put h x (at_node A d B) d') ql (A ++ (x, d') :: B) (VA ++ vs' :: VB)) as Hq1.
  { apply qbody_counted; [eapply qbody_set; [by apply qrep_body|done|by apply lay_put, (q_lay _ _ _ _ _ _ Hq)|done|done|by rewrite Hrec|done]|].
    rewrite (q_total _ _ _ _ _ _ Hq), !concat_mid, !zlen_app. lia. }
  eapply yields_bind; [apply (close_spec Hhtab (Some x) F _ ql A x d' B _ Hq1 ltac:(by right))|]. intros h' (ns' & _ & Hq'). apply yields_ok. by exists ns', (VA ++ vs' :: VB).
Qed.

Lemma weight_replace (VA VB : list (list bytes)) L w R : weight (concat (VA ++ (L ++ w :: R) :: VB)) = weight (concat VA) + weight L + 16 + zlen w + weight R + weight (concat VB).
Proof. rewrite concat_mid, !weight_app, weight_cons. lia. Qed.

Lemma replace_packed F h ql (A : nodes) x d B VA L v R VB w p : qrep (Some x) F h ql (A ++ (x, d) :: B) (VA ++ (L ++ v :: R) :: VB) -> length A = length VA -> is_lzf d = false -> is_plain d = false -> points d p L v R ->
  wf_bytes w -> weight (concat (VA ++ (L ++ w :: R) :: VB)) < 2 ^ 31 ->
  exists b lp' np, as_bytes d = Ok b /\ Listpack.lpReplace b p w (zlen w) = Ok (Some (lp', np)) /\
  yields (h ← set_entry_of h x (Buffer lp'); h ← quicklistNodeUpdateSz h x; h ← quicklistCompress h ql x; Ok (h, ql)) (fun r => inserted F ql (concat (VA ++ (L ++ w :: R) :: VB)) r.1 r.2).
Proof.
  intros Hq HA Hz Hpl Hp Hw Hwt. pose proof (holds_at _ _ _ _ _ _ _ _ _ _ _ Hq HA) as (Hk & Hc & Hdc). destruct Hp as [|(lp & le & e & re & Hlp & Hrep & -> & -> & -> & ->)]; [congruence|]. unfold as_bytes. rewrite Hlp.
  assert (zlen w < 2 ^ 31 /\ weight (text <$> (le ++ LP.elem_of w :: re)) < 2 ^ 31) as [Hw31 Hwe].
  { rewrite weight_replace in Hwt. rewrite fmap_app. cbn [fmap list_fmap]. rewrite LP.text_elem_of, weight_app, weight_cons. pose proof (weight_nonneg (concat VA)). pose proof (weight_nonneg (concat VB)). pose proof (weight_nonneg (text <$> le)). pose proof (weight_nonneg (text <$> re)). lia. }
  pose proof (ListpackTheory.replace_spec lp le e re w Hrep Hw ltac:(lia)) as Hs. assert (Forall LP.elem_ok (le ++ LP.elem_of w :: re)) as Hok.
  { pose proof (repr_ok _ _ Hrep) as Hok. apply Forall_app in Hok as [Hok1 Hok2]. apply Forall_cons_1 in Hok2 as [_ Hok3]. apply Forall_app. split; [done|]. constructor; [apply LP.elem_of_ok; [done|lia]|done]. }
  pose proof (total_weight _ Hok) as Htw. rewrite (proj2 (Z.ltb_lt _ _)) in Hs by lia. destruct Hs as (lp' & E & Hrep'). exists lp, lp', (Some (lppos le)). split; [done|]. split; [exact E|].
  rewrite (lay_at _ _ _ _ _ _ _ _ _ Hq) at 1. rewrite set_entry_put. cbn [mbind res_bind]. erewrite update_sz_put; [|reflexivity|exact Hrep']. cbn [mbind res_bind].
  assert ((text <$> le) ++ w :: (text <$> re) = text <$> (le ++ LP.elem_of w :: re)) as Et by (rewrite fmap_app; cbn [fmap list_fmap]; by rewrite LP.text_elem_of). rewrite Et in Hwt |- *.
  pose proof (keeps_length _ _ Hk) as Hl15. assert (zlen (le ++ LP.elem_of w :: re) = zlen ((text <$> le) ++ text e :: (text <$> re))) as El by (rewrite !zlen_app, !zlen_cons, !zlen_fmap; lia).
  apply (refilled F h ql A x d B VA _ VB (stored lp' (le ++ LP.elem_of w :: re) d) _ Hq HA); try done.
  - split; [apply keeps_stored; try done; lia|]. split; [cbn; by rewrite Hc, zlen_fmap, El|done].
  - by rewrite zlen_fmap.
Qed.

Lemma replace_plain F h ql (A : nodes) x d B VA v VB w : qrep (Some x) F h ql (A ++ (x, d) :: B) (VA ++ [v] :: VB) -> length A = length VA -> is_lzf d = false -> is_plain d = true ->
  wf_bytes w -> weight (concat (VA ++ [w] :: VB)) < 2 ^ 31 ->
  yields (b ← wrn (zmalloc (zlen w)) 0 w; h ← set_entry_of h x (Buffer b); h ← upd h x (set_sz (zlen w)); h ← quicklistCompress h ql x; Ok (h, ql)) (fun r => inserted F ql (concat (VA ++ [w] :: VB)) r.1 r.2).
Proof.
  intros Hq HA Hz Hpl Hw Hwt. pose proof (holds_at _ _ _ _ _ _ _ _ _ _ _ Hq HA) as (Hk & Hc & Hdc). destruct (copy_to_new w (zlen w) eq_refl) as [s ->]. cbn [mbind res_bind].
  rewrite (lay_at _ _ _ _ _ _ _ _ _ Hq) at 1. rewrite set_entry_put. cbn [mbind res_bind]. rewrite qupd_put. cbn [mbind res_bind].
  apply (refilled F h ql A x d B VA _ VB (set_sz (zlen w) (set_entry (Buffer (w ++ s)) d)) [w] Hq HA); try done. split; [|by split; [exact Hc|exact Hdc]].
  apply keeps_plain_stored; try done. rewrite concat_mid, !weight_app, weight_cons in Hwt. pose proof (weight_nonneg (concat VA)). pose proof (weight_nonneg (concat VB)). pose proof (weight_nonneg []). lia.
Qed.

(** ** A small value for a plain node *)

Lemma allow_plain P F h ql (A : nodes) x d B VA vs VB (w : bytes) : qrep P F h ql (A ++ (x, d) :: B) (VA ++ vs :: VB) -> length A = length VA -> zlen w < 2 ^ 32 -> is_plain d = true ->
  _quicklistNodeAllowInsert h (Some x) (fill ql) (zlen w) = Ok false.
Proof. intros Hq HA Hw Hpl. destruct (allow_here _ _ _ _ _ _ _ _ _ _ _ w Hq HA Hw) as ([|] & -> & Hok); [|done]. destruct (Hok eq_refl). congruence. Qed.

Lemma insert_after_plain F h ql (A : nodes) x d B VA v VB iter ent w : qrep (Some x) F h ql (A ++ (x, d) :: B) (VA ++ [v] :: VB) -> length A = length VA -> located iter ent x d [] v [] -> is_plain d = true ->
  isLargeElement (zlen w) (fill ql) = Ok false -> wf_bytes w -> weight (concat (VA ++ [v; w] :: VB)) < 2 ^ 31 ->
  yields (quicklistInsertAfter h ql iter ent w) (fun '(h', ql', _) => same_options ql ql' /\ exists (A' : nodes) d' B' VB', qrep None F h' ql' (A' ++ (x, d') :: B') (VA ++ [v] :: VB') /\ length A' = length VA /\ concat VB' = w :: concat VB).
Proof.
  intros Hq HA Hloc Hpl Hlg Hw Hwt. pose proof (holds_at _ _ _ _ _ _ _ _ _ _ _ Hq HA) as (Hk & Hc & Hdc). pose proof Hloc as [Hz Hcur Hn _ Hi Ho _]. unfold quicklistInsertAfter, _quicklistInsert. rewrite Hn.
  rewrite (get_at_node _ _ _ _ _ _ (q_lay _ _ _ _ _ _ Hq)). cbn [mbind res_bind at_node dat next prev]. assert ((e_offset ent =? count d - 1) || (e_offset ent =? -1) = true) as Et.
  { rewrite Ho, Hc. change [v] with ([] ++ v :: []). rewrite (at_tail_spec [] v [] _ Hi). done. }
  rewrite concat_mid, !weight_app, !weight_cons in Hwt. pose proof (weight_nonneg (concat VA)). pose proof (weight_nonneg (concat VB)). pose proof (weight_nonneg []). pose proof (zlen_nonneg v).
  rewrite (allow_plain _ _ _ _ _ _ _ _ _ _ _ w Hq HA ltac:(lia) Hpl). cbn [mbind res_bind negb andb]. rewrite Et. pose proof Hq as Hq'. rewrite (snoc_mid A), (snoc_mid VA) in Hq'.
  destruct (allow_next _ _ _ _ _ _ _ _ w Hq') as (an & -> & Han); [rewrite !length_app; cbn; lia|lia|]. cbn [mbind res_bind]. rewrite Hlg. cbn [mbind res_bind andb orb]. destruct an; cbn [andb].
  - destruct (Han eq_refl) as (y & dy & B' & vy & VB' & -> & -> & Hpy & Hny). cbn [first_of head fmap option_fmap option_map fst the mbind res_bind].
    destruct (insert_beside_spec Hhtab F h ql (A ++ [(x, d)]) y dy B' (VA ++ [[v]]) vy VB' x d (length A) w true Hq') as (h1 & -> & dy1 & ns1 & S1 & Hq1); try done; [rewrite !length_app; cbn; lia|rewrite <- snoc_mid; apply lookup_mid|rewrite length_app; cbn; lia| |].
    { rewrite concat_mid, concat_app. cbn [concat] in *. rewrite ?weight_app, ?weight_cons, ?weight_nil in *. lia. }
    cbn [mbind res_bind]. apply yields_ok. split; [done|]. rewrite <- snoc_mid in S1. destruct (sims_mid _ _ _ _ S1) as (A' & d' & B1 & -> & SA & _ & SB). cbn [fst snd] in *. rewrite <- snoc_mid in Hq1. exists A', d', B1, ((w :: vy) :: VB'). split; [done|]. rewrite (sims_length _ _ SA). done.
  - eapply yields_bind; [apply (insert_new_spec Hhtab F h ql A x d B VA [v] VB w true Hq HA Hw); rewrite ?weight_app, ?weight_cons, ?weight_nil; cbn; rewrite ?weight_app, ?weight_cons, ?weight_nil in *; lia|].
    intros [h1 ql1] (Ho1 & A' & d' & B' & y & dy & SA & Hq1). cbn [fst snd lefts rights] in *. apply yields_ok. split; [done|]. rewrite <- !snoc_mid in Hq1. exists A', d', ((y, dy) :: B'), ([w] :: VB). split; [done|]. rewrite (sims_length _ _ SA). done.
Qed.

Lemma replace_plain_small F h ql (A : nodes) x d B VA v VB iter ent w : qrep (Some x) F h ql (A ++ (x, d) :: B) (VA ++ [v] :: VB) -> length A = length VA -> located iter ent x d [] v [] -> is_plain d = true ->
  isLargeElement (zlen w) (fill ql) = Ok false -> wf_bytes w -> weight (concat (VA ++ [v; w] :: VB)) < 2 ^ 31 ->
  yields ('(h, ql, _) ← quicklistInsertAfter h ql iter ent w; __quicklistDelNode h ql x) (fun r => inserted F ql (concat (VA ++ [w] :: VB)) r.1 r.2).
Proof.
  intros Hq HA Hloc Hpl Hlg Hw Hwt. eapply yields_bind; [by apply (insert_after_plain F h ql A x d B VA v VB)|]. intros [[h1 ql1] it] (Ho1 & A' & d' & B' & VB' & Hq1 & HA' & Ecat).
  eapply yields_mono; [by apply (drop_node_spec Hhtab F h1 ql1 A' x d' B' VA [v] VB' Hq1)|]. intros [h2 ql2] (A2 & B2 & VA2 & Hq2 & _ & _ & E2 & Ho2). cbn [fst snd] in *.
  exists (A2 ++ B2), (VA2 ++ VB'). split; [done|]. split; [rewrite concat_app, concat_mid; by rewrite E2, Ecat|]. destruct Ho1 as [], Ho2 as []; split; congruence.
Qed.

(** ** A large value for an element of a packed node *)

Lemma calm_app (A B : nodes) : calm (A ++ B) <-> calm A /\ calm B.
Proof.
  split.
  - intros Hc. split; intros i (c & Hi & Hr).
    + apply (Hc i). exists c. split; [by apply lookup_app_l_Some|done].
    + apply (Hc (length A + i)%nat). exists c. split; [|done]. rewrite lookup_app_r by lia. by replace (length A + i - length A)%nat with i by lia.
  - intros [HA HB] i (c & Hi & Hr). apply lookup_app_Some in Hi as [Hi|[_ Hi]]; [apply (HA i)|apply (HB (i - length A)%nat)]; by exists c.
Qed.

Lemma calm_cons c (B : nodes) : recompress c.2 = false -> calm B -> calm (c :: B).
Proof. intros Hc HB [|i] (e & Hi & Hr); [injection Hi as <-; congruence|]. apply (HB i). by exists e. Qed.

(** Only the node between may wait. *)
Lemma pending_only (A : nodes) c (B : nodes) i : calm A -> calm B -> pending (A ++ c :: B) i -> i = length A /\ recompress c.2 = true.
Proof.
  intros HA HB (e & Hi & Hr). apply lookup_app_Some in Hi as [Hi|[Hge Hi]]; [exfalso; apply (HA i); by exists e|]. destruct (i - length A)%nat as [|k] eqn:Ek; [injection Hi as <-; split; [lia|done]|]. exfalso. apply (HB k). by exists e.
Qed.

(** Linking after [x], whose contents do not matter. *)
Lemma link_after F h ql (A : nodes) x dx B y dy r : lay h (A ++ (x, dx) :: B) F -> ends ql (A ++ (x, dx) :: B) -> settled ql (A ++ (x, dx) :: B) -> zlen (A ++ (x, dx) :: B) < 2 ^ 61 -> F !! y = Some (free_node dy) -> raw_ok dy r -> plainly dy ->
  exists h' ql' (A' : nodes) dx' dy' B', __quicklistInsertNode h ql (Some x) y true = Ok (h', ql') /\ lay h' (A' ++ (x, dx') :: (y, dy') :: B') (delete y F) /\ ends ql' (A' ++ (x, dx') :: (y, dy') :: B') /\ settled ql' (A' ++ (x, dx') :: (y, dy') :: B') /\
    sims A A' /\ sim dx dx' /\ sim dy dy' /\ sims B B' /\ same_options ql ql' /\ total ql' = total ql.
Proof.
  intros Hl He Hst Hlen Hy Hr [Hz Hrec]. rewrite (snoc_mid A) in Hl, He, Hst, Hlen.
  destruct (qinsertNode_spec Hhtab h (A ++ [(x, dx)]) B F ql y dy r true Hl Hy) as (h' & ql' & ns' & E & Hl' & S & He' & Hst' & Ho & Ht & _); try done; [by destruct A|lia|]. rewrite last_of_snoc in E.
  rewrite <- snoc_mid in S. destruct (sims_mid _ _ _ _ S) as (A' & dx' & R & -> & SA & Sx & SR). inversion SR as [|? [y' dy'] ? B' [Ey Sy] SB]; subst. cbn [fst snd] in *. subst y'. by exists h', ql', A', dx', dy', B'.
Qed.

(** The node [x] up to the replaced element, the new node, the rest. *)
Record carved F h ql (A : nodes) x d (L : list bytes) v z dz w (C : nodes) VA VC : Prop := {
  c_lay : lay h (A ++ (x, d) :: (z, dz) :: C) F;
  c_ends : ends ql (A ++ (x, d) :: (z, dz) :: C);
  c_settled : settled ql (A ++ (x, d) :: (z, dz) :: C);
  c_keeps : keeps d (L ++ [v]);
  c_count : count d = zlen (L ++ [v]);
  c_raw : is_lzf d = false;
  c_packed : is_plain d = false;
  c_new : holds dz [w];
  c_plain : is_plain dz = true;
  c_before : rep A VA;
  c_after : rep C VC;
  c_calm : calm A /\ calm ((z, dz) :: C);
  c_spare : recompress d = true -> (length A + depth ql + 1 < length (A ++ (x, d) :: (z, dz) :: C))%nat
}.

Lemma sim_still d d' : sim d d' -> dont_compress d = true -> is_lzf d = false -> is_lzf d' = false.
Proof. intros S Hd Hz. destruct (is_lzf d') eqn:E; [|done]. pose proof (sim_held _ _ S Hd E). congruence. Qed.

Definition carve_split (h : heap) (x : loc) (cnt o : Z) : res (heap * option loc) :=
  if negb (o =? cnt - 1) && negb (o =? -1) then '(h, y) ← _quicklistSplitNode h x o true; Ok (h, Some y) else Ok (h, None).

(** What is split off, if anything, is on its own. *)
Definition split_off (F : heap) (R : list bytes) (sn : option loc) (F' : heap) : Prop :=
  match sn with None => R = [] /\ F' = F | Some y => R <> [] /\ F !! y = None /\ exists dy, F' = <[y := free_node dy]> F /\ holds dy R /\ plainly dy end.

Lemma carve_split_spec F h (A : nodes) x d B (L : list bytes) v R o : lay h (A ++ (x, d) :: B) F -> keeps d (L ++ v :: R) -> count d = zlen (L ++ v :: R) -> is_lzf d = false -> is_plain d = false -> index_of L R o ->
  yields (carve_split h x (count d) o) (fun r => exists d' F', lay r.1 (A ++ (x, d') :: B) F' /\ keeps d' (L ++ [v]) /\ count d' = zlen (L ++ [v]) /\ dont_compress d' = dont_compress d /\ is_lzf d' = false /\ is_plain d' = false /\ recompress d' = recompress d /\
    split_off F R r.2 F').
Proof.
  intros Hl Hk Hc Hz Hp Hi. unfold carve_split. rewrite <- negb_orb, Hc, (at_tail_spec L v R o Hi). case_bool_decide as HR; cbn [negb].
  - subst R. apply yields_ok. by exists d, F.
  - eapply yields_bind; [apply (splitNode_spec F h A x d B L v R o true Hl); [done|done|done|done|done|done]|]. intros [h1 y] (d' & dy & HF & Hl1 & Hk1 & Hc1 & Hdc1 & Hz1 & Hp1 & Hr1 & Hdy & Hply & _). cbn [fst snd stay go] in *.
    apply yields_ok. exists d', (<[y := free_node dy]> F). split_and!; try done. split; [done|]. split; [done|]. by exists dy.
Qed.

Definition carve_link (h : heap) (ql : quicklist) (x z : loc) (sn : option loc) : res (heap * quicklist) :=
  '(h, ql) ← __quicklistInsertNode h ql (Some x) z true;
  match sn with Some y => __quicklistInsertNode h ql (Some z) y true | None => Ok (h, ql) end.

Lemma carve_link_spec F F' h ql (A : nodes) x d B (L : list bytes) v R w z dz sn VA VB : lay h (A ++ (x, d) :: B) (<[z := free_node dz]> F') -> F' !! z = None -> ends ql (A ++ (x, d) :: B) -> settled ql (A ++ (x, d) :: B) -> zlen (A ++ (x, d) :: B) < 2 ^ 27 ->
  keeps d (L ++ [v]) -> count d = zlen (L ++ [v]) -> dont_compress d = true -> is_lzf d = false -> is_plain d = false -> calm (A ++ B) -> rep A VA -> rep B VB -> holds dz [w] -> plainly dz -> is_plain dz = true -> split_off F R sn F' ->
  yields (carve_link h ql x z sn) (fun r => same_options ql r.2 /\ total r.2 = total ql /\ exists (A' : nodes) d' dz' C VC, carved F r.1 r.2 A' x d' L v z dz' w C VA VC /\ concat VC = R ++ concat VB /\ length A' = length A).
Proof.
  intros Hl HFz He Hst Hlen Hk Hc Hdc Hz Hp Hcalm HrA HrB Hdz Hplz Hpz Hso. unfold carve_link. destruct (keeps_raw _ _ (proj1 Hdz)) as [r Hrz].
  assert (recompress d = true -> (length A + depth ql < length (A ++ (x, d) :: B))%nat) as Hsp. { intros Hrec. destruct (settled_rec _ _ Hst (length A)) as (_ & _ & Hd2); [exists (x, d); by rewrite lookup_mid|exact Hd2]. }
  destruct (link_after _ h ql A x d B z dz r Hl He Hst ltac:(lia) (lookup_insert_eq _ _ _) Hrz Hplz) as (h1 & ql1 & A1 & d1 & dz1 & B1 & -> & Hl1 & He1 & Hst1 & SA & Sd & Sz & SB & Ho1 & Ht1). cbn [mbind res_bind].
  rewrite delete_insert_id in Hl1 by done. apply calm_app in Hcalm as [HcA HcB].
  assert (is_lzf d1 = false /\ is_plain d1 = false /\ is_plain dz1 = true /\ recompress dz1 = false /\ dont_compress d1 = true) as (Hz1 & Hp1 & Hpz1 & Hrz1 & Hdc1).
  { split; [by eapply sim_still|]. unfold is_plain in *. rewrite (sim_container _ _ Sd), (sim_container _ _ Sz). split; [done|]. split; [done|]. split; [eapply sim_plainly; [exact Sz|apply Hplz]|by rewrite (sim_dont _ _ Sd)]. }
  assert (depth ql1 = depth ql) as Edep by (destruct Ho1 as [_ Ho1]; unfold depth; by rewrite Ho1). pose proof (sims_length _ _ SA) as LA. pose proof (sims_length _ _ SB) as LB. rewrite length_app in Hsp. cbn [length] in Hsp.
  destruct sn as [y|]; cbn [split_off] in Hso.
  - destruct Hso as (HR & HFy & dy & -> & Hdy & Hply). destruct (keeps_raw _ _ (proj1 Hdy)) as [ry Hry]. rewrite (snoc_mid A1) in Hl1, He1, Hst1.
    assert (zlen ((A1 ++ [(x, d1)]) ++ (z, dz1) :: B1) < 2 ^ 61) as Hlen1. { unfold zlen in *. rewrite !length_app in *. cbn [length] in *. lia. }
    destruct (link_after _ h1 ql1 (A1 ++ [(x, d1)]) z dz1 B1 y dy ry Hl1 He1 Hst1 Hlen1 (lookup_insert_eq _ _ _) Hry Hply) as (h2 & ql2 & A2 & dz2 & dy2 & B2 & -> & Hl2 & He2 & Hst2 & SA2 & Sz2 & Sy2 & SB2 & Ho2 & Ht2).
    rewrite delete_insert_id in Hl2 by done. apply Forall2_app_inv_l in SA2 as (A3 & N & SA3 & SN & ->). inversion SN as [|? [x3 d3] ? N' [Ex Sd3] SN']; subst. inversion SN'; subst. cbn [fst snd] in *. subst x3. rewrite <- snoc_mid in Hl2, He2, Hst2.
    apply yields_ok. cbn [fst snd]. split; [destruct Ho1 as [], Ho2 as []; split; congruence|]. split; [congruence|]. exists A3, d3, dz2, ((y, dy2) :: B2), (R :: VB). pose proof (sims_length _ _ SA3) as LA3. pose proof (sims_length _ _ SB2) as LB2.
    split; [|split; [done|lia]]. split; try done.
    + eapply sim_keeps; [exact Sd3|]. by eapply sim_keeps.
    + by rewrite (sim_count _ _ Sd3), (sim_count _ _ Sd).
    + by eapply sim_still.
    + unfold is_plain in *. by rewrite (sim_container _ _ Sd3).
    + eapply sim_holds; [exact Sz2|]. by eapply sim_holds.
    + unfold is_plain in *. by rewrite (sim_container _ _ Sz2).
    + eapply rep_sims; [exact SA3|]. by eapply rep_sims.
    + constructor; [by eapply sim_holds|]. eapply rep_sims; [exact SB2|]. by eapply rep_sims.
    + split; [eapply calm_sims; [exact SA3|]; by eapply calm_sims|]. apply calm_cons; [by eapply sim_plainly|]. apply calm_cons; [eapply sim_plainly; [exact Sy2|apply Hply]|]. eapply calm_sims; [exact SB2|]. by eapply calm_sims.
    + intros Hr3. apply (sim_recompress _ _ Sd3), (sim_recompress _ _ Sd), Hsp in Hr3. assert (depth ql2 = depth ql) as -> by (destruct Ho2 as [_ Ho2]; unfold depth in *; congruence). rewrite length_app. cbn [length]. lia.
  - destruct Hso as [-> ->]. apply yields_ok. cbn [fst snd]. split; [done|]. split; [done|]. exists A1, d1, dz1, B1, VB. split; [|split; [done|lia]]. split; try done.
    + by eapply sim_keeps.
    + by rewrite (sim_count _ _ Sd).
    + by eapply sim_holds.
    + by eapply rep_sims.
    + by eapply rep_sims.
    + split; [by eapply calm_sims|]. apply calm_cons; [done|]. by eapply calm_sims.
    + intros Hr1. apply (sim_recompress _ _ Sd), Hsp in Hr1. rewrite length_app, Edep. cbn [length]. lia.
Qed.

(** The deletion of the replaced element when it is the only one left. *)
Lemma carve_drop F h ql (A : nodes) x d v z dz w C VA VC : carved F h ql A x d [] v z dz w C VA VC -> u64 (total ql - 1) = zlen (concat (VA ++ [w] :: VC)) -> weight (concat (VA ++ [w] :: VC)) < 2 ^ 31 -> fill_ok (fill ql) ->
  yields (__quicklistDelNode h ql x) (fun r => inserted F ql (concat (VA ++ [w] :: VC)) r.1 r.2).
Proof.
  intros [Hl He Hst Hk Hc Hz Hp Hdz Hpz HrA HrC [HcA HcC] _] Ht Hw Hf. eapply yields_mono; [apply (delNode_core Hhtab F h ql A x d ((z, dz) :: C) (VA ++ [w] :: VC) Hl He)|].
  - apply Hst.
  - by apply calm_app.
  - apply Forall2_app; [done|]. by constructor.
  - done.
  - done.
  - intros [h' ql'] (ns' & _ & Ho & Ht' & Hfin). cbn [fst snd] in *. exists ns', (VA ++ [w] :: VC). split; [|done]. apply Hfin; try done. by rewrite Ht', Hc.
Qed.

(** The node without the replaced element, open to compression again. *)
Lemma carve_shrink F h ql (A : nodes) x d (L : list bytes) v z dz w C VA VC : carved F h ql A x d L v z dz w C VA VC -> L <> [] -> u64 (total ql - 1) = zlen (concat (VA ++ L :: [w] :: VC)) -> weight (concat (VA ++ L :: [w] :: VC)) < 2 ^ 31 -> fill_ok (fill ql) ->
  exists b p h1 gone np, as_bytes d = Ok b /\ Listpack.lpSeek b (-1) = Ok (Some p) /\ quicklistDelIndex h ql x p = Ok (h1, with_total ql (total ql - 1), gone, np) /\
    exists h2 d', upd h1 x (set_dont_compress false) = Ok h2 /\ qrep (Some x) F h2 (with_total ql (total ql - 1)) (A ++ (x, d') :: (z, dz) :: C) (VA ++ L :: [w] :: VC) /\ recompress d' = recompress d.
Proof.
  intros [Hl He Hst Hk Hc Hz Hp Hdz Hpz HrA HrC [HcA HcC] _] HL Ht Hw Hf. destruct (packed_at d L v [] Hk Hz Hp) as (lp & le & e & re & Hlp & Hrep & -> & -> & Ere). assert (re = []) as -> by by destruct re.
  exists lp, (lppos le). unfold as_bytes. rewrite Hlp. rewrite (seek_at lp le e [] (-1) Hrep ltac:(by right)). unfold quicklistDelIndex. rewrite (lay_node_at _ _ _ _ _ _ Hl). cbn [mbind res_bind]. rewrite Hp. unfold as_bytes. rewrite Hlp. cbn [mbind res_bind].
  destruct (ListpackTheory.delete_spec lp le e [] true Hrep) as (lp' & -> & Hrep'). rewrite app_nil_r in Hrep'. cbn [mbind res_bind option_map fst lp_entry].
  pose proof (put_here h x _ (lay_here _ _ _ _ _ _ Hl)) as Ep. cbn [dat at_node] in Ep. rewrite Ep. rewrite set_entry_put. cbn [mbind res_bind]. rewrite add_count_put. cbn [mbind res_bind]. rewrite node_put. cbn [mbind res_bind set_count count set_entry].
  assert (0 < zlen le) as Hle by (destruct le; [done|]; rewrite zlen_cons; pose proof (zlen_nonneg le); lia). pose proof (keeps_length _ _ Hk) as Hl15. rewrite zlen_app, zlen_fmap in Hl15. change (zlen [text e]) with 1 in Hl15.
  assert (u16 (count d + -1) = zlen le) as Ecnt by (rewrite Hc, zlen_app, zlen_fmap; change (zlen [text e]) with 1; rewrite wrapu_small; lia). rewrite Ecnt, (proj2 (Z.eqb_neq _ _)) by lia.
  erewrite update_sz_put; [|reflexivity|exact Hrep']. cbn [mbind res_bind]. eexists _, _, _. split; [done|]. split; [done|]. split; [done|]. rewrite qupd_put. rewrite stored_count. set (d' := set_dont_compress false _). eexists _, d'. split; [done|]. split; [|done].
  assert (holds d' (text <$> le)) as Hd'. { split; [|split; [cbn; by rewrite Ecnt, zlen_fmap|done]]. destruct (keeps_count (count d + -1) _ _ (keeps_stored lp' le d Hrep' Hz Hp ltac:(lia))) as (r & [] & Hcont). exists r. by split. }
  destruct (keeps_raw _ _ (proj1 Hd')) as [r Hraw]. split; try done.
  - by apply lay_put.
  - apply ends_total. eapply ends_locs; [exact He|]. by rewrite !fmap_app.
  - apply settled_total. by apply (settled_change ql A x d d' _ r Hst Hraw).
  - apply Forall2_app; [done|]. constructor; [done|]. by constructor.
  - intros i Hi. destruct (pending_only A (x, d') ((z, dz) :: C) i HcA HcC Hi) as [-> _]. unfold loc_at. by rewrite lookup_mid.
Qed.

(** Compressing the new node and its neighbours. *)
Definition settle_around (h : heap) (ql : quicklist) (c : loc) : res (heap * quicklist) :=
  h ← quicklistCompress h ql c;
  n ← get h c;
  p ← the (prev n);
  h ← quicklistCompress h ql p;
  n ← get h c;
  h ← match next n with Some y => quicklistCompress h ql y | None => Ok h end;
  Ok (h, ql).

Lemma settle_around_spec P F h ql (A : nodes) c d B vss : qrep P F h ql (A ++ (c, d) :: B) vss -> A <> [] -> P = None \/ P = last_of A ->
  yields (settle_around h ql c) (fun r => exists ns', qrep None F r.1 r.2 ns' vss /\ r.2 = ql).
Proof.
  intros Hq HA HP. unfold settle_around. eapply yields_bind; [by apply (compress_any Hhtab P F h ql A c d B)|]. intros h1 (ns1 & S1 & Hq1). destruct (sims_mid _ _ _ _ S1) as (A1 & d1 & B1 & -> & SA & _ & SB). cbn [fst snd] in *.
  rewrite (get_at_node _ _ _ _ _ _ (q_lay _ _ _ _ _ _ Hq1)). cbn [mbind res_bind at_node prev next]. assert (last_of A1 = last_of A) as EL by (rewrite !last_of_at, (sims_length _ _ SA); by apply sims_loc_at). rewrite EL.
  destruct A1 as [|[p dp] A1 _] using rev_ind; [by inversion SA; subst|]. rewrite last_of_snoc in EL. rewrite <- EL. cbn [the mbind res_bind]. rewrite <- app_assoc in Hq1. cbn [app] in Hq1.
  eapply yields_bind; [apply (close_spec Hhtab P F h1 ql A1 p dp _ _ Hq1); destruct HP as [->|HP]; [by left|right; congruence]|]. intros h2 (ns2 & S2 & Hq2). destruct (sims_mid _ _ _ _ S2) as (A2 & dp2 & R2 & -> & SA2 & _ & SR2). inversion SR2 as [|? [c2 d2] ? B2 [Ec _] SB2]; subst. cbn [fst snd] in *. subst c2.
  rewrite (snoc_mid A2) in Hq2. rewrite (get_at_node _ _ _ _ _ _ (q_lay _ _ _ _ _ _ Hq2)). cbn [mbind res_bind at_node prev next]. destruct B2 as [|[y dy] B2]; cbn [first_of head fmap option_fmap option_map fst mbind res_bind].
  - apply yields_ok. cbn [fst snd]. eexists. by split; [exact Hq2|].
  - rewrite snoc_mid in Hq2. eapply yields_bind; [by apply (compress_any Hhtab None F h2 ql _ y dy B2 _ Hq2)|]. intros h3 (ns3 & _ & Hq3). apply yields_ok. by exists ns3.
Qed.

Lemma replace_split_spec F h ql (A : nodes) x d B VA L v R VB w o : qrep (Some x) F h ql (A ++ (x, d) :: B) (VA ++ (L ++ v :: R) :: VB) -> length A = length VA -> is_lzf d = false -> is_plain d = false -> index_of L R o ->
  isLargeElement (zlen w) (fill ql) = Ok true -> wf_bytes w -> weight (concat (VA ++ (L ++ w :: R) :: VB)) < 2 ^ 31 ->
  yields (replace_split h ql x w o) (fun r => inserted F ql (concat (VA ++ (L ++ w :: R) :: VB)) r.1 r.2).
Proof.
  intros Hq HA Hz Hp Hi Hlg Hw Hwt. pose proof (holds_at _ _ _ _ _ _ _ _ _ _ _ Hq HA) as (Hk & Hc & _). pose proof (waits_others _ _ _ _ _ _ _ _ _ Hq ltac:(by right)) as Hcalm. pose proof (qrep_short _ _ _ _ _ _ Hq) as Hshort.
  pose proof Hq as [Hl He Hst Hr Ht _ _ Hf]. apply Forall2_app_inv in Hr as [HrA HrB]; [|done]. inversion HrB as [|? ? ? ? _ HrB']; subst. unfold replace_split.
  destruct (lay_upd_at _ _ _ _ _ _ (set_dont_compress true) Hl) as (h1 & -> & Hl1). cbn [mbind res_bind]. rewrite (lay_node_at _ _ _ _ _ _ Hl1). cbn [mbind res_bind]. set (d1 := set_dont_compress true d) in *. assert (keeps d1 (L ++ v :: R)) as Hk1 by (destruct Hk as (r & [] & Hk); exists r; by split).
  destruct (keeps_raw _ _ Hk1) as [r1 Hr1]. pose proof (settled_change ql A x d d1 B r1 Hst Hr1 ltac:(done) ltac:(done)) as Hst1. rewrite weight_replace in Hwt. pose proof (weight_nonneg (concat VA)). pose proof (weight_nonneg (concat VB)). pose proof (weight_nonneg L). pose proof (weight_nonneg R).
  fold (carve_split h1 x (count d1) o). eapply yields_bind; [by apply (carve_split_spec F h1 A x d1 B L v R o Hl1)|]. intros [h2 sn] (d2 & F' & Hl2 & Hk2 & Hc2 & Hdc2 & Hz2 & Hp2 & Hrec2 & Hso). cbn [fst snd] in *. rewrite Hlg. cbn [mbind res_bind].
  destruct (create_plain h2 _ _ w Hl2 Hw ltac:(lia)) as (h3 & z & dz & -> & Hl3 & HFz & Hdz & Hplz & Hpz). cbn [mbind res_bind].
  destruct (carve_link_spec F F' h3 ql A x d2 B L v R w z dz sn VA VB Hl3 HFz) as ([h4 ql4] & E4 & Ho4 & Ht4 & A4 & d4 & dz4 & C & VC & Hcv & EVC & LA4); try done.
  { eapply ends_locs; [exact He|]. by rewrite !fmap_app. }
  { destruct (keeps_raw _ _ Hk2) as [r2 Hr2]. apply (settled_change ql A x d d2 B r2 Hst Hr2); [congruence|]. intros E. rewrite Hrec2 in E. exact E. }
  { unfold zlen in *. rewrite !length_app in *. cbn [length] in *. lia. }
  cbn [fst snd] in *. unfold carve_link in E4. destruct (__quicklistInsertNode h3 ql (Some x) z true) as [[h3' ql3']|]; [|done]. cbn [mbind res_bind] in E4 |- *. rewrite E4. cbn [mbind res_bind].
  set (ql5 := with_total ql4 (total ql4 + 1)). assert (fill_ok (fill ql5)) as Hf5 by (destruct Ho4 as [Ho4 _]; unfold ql5; cbn; by rewrite Ho4).
  assert (same_options ql ql5) as Ho5 by (destruct Ho4; by split). assert (carved F h4 ql5 A4 x d4 L v z dz4 w C VA VC) as Hcv5 by (destruct Hcv; split; try done; by apply ends_total || by apply settled_total).
  rewrite (lay_node_at _ _ _ _ _ _ (c_lay _ _ _ _ _ _ _ _ _ _ _ _ _ _ Hcv5)). cbn [mbind res_bind]. rewrite (c_count _ _ _ _ _ _ _ _ _ _ _ _ _ _ Hcv5), zlen_app. change (zlen [v]) with 1.
  assert (concat (VA ++ (L ++ w :: R) :: VB) = concat (VA ++ L :: [w] :: VC)) as Ecat by (rewrite !concat_app; cbn; rewrite EVC; by rewrite <- !app_assoc).
  assert (weight (concat (VA ++ (L ++ w :: R) :: VB)) < 2 ^ 31) as Hwt' by (rewrite weight_replace; lia).
  assert (u64 (total ql5 - 1) = zlen (concat (VA ++ L :: [w] :: VC))) as Ht5.
  { rewrite <- Ecat. pose proof (weight_room _ Hwt') as Hroom. unfold ql5. cbn [total with_total]. rewrite Ht4, Ht, !concat_mid, !zlen_app, !zlen_cons in *. pose proof (zlen_nonneg (concat VA)). rewrite (wrapu_small 64 (_ + 1)) by lia. rewrite wrapu_small; lia. }
  rewrite Ecat in Hwt' |- *. pose proof (zlen_nonneg L) as HLn. destruct (Z.eqb_spec (zlen L + 1) 1) as [E1|Hne].
  - assert (L = []) as -> by (apply zlen_nil_inv; lia). assert (concat (VA ++ [] :: [w] :: VC) = concat (VA ++ [w] :: VC)) as Ec by by rewrite !concat_app. rewrite Ec in *.
    eapply yields_mono; [by apply (carve_drop F h4 ql5 A4 x d4 v z dz4 w C VA VC)|]. intros [h6 ql6] (ns' & vss' & Hq6 & Ec6 & Ho6). exists ns', vss'. split_and!; try done. destruct Ho5 as [], Ho6 as []; split; cbn in *; congruence.
  - assert (L <> []) as HL by (by intros ->). destruct (carve_shrink F h4 ql5 A4 x d4 L v z dz4 w C VA VC Hcv5 HL Ht5 Hwt' Hf5) as (b & p & h6 & gone & np & Eb & Es & Ed & h7 & d7 & Eu & Hq7 & Hrec7).
    rewrite Eb. cbn [mbind res_bind]. rewrite Es. cbn [mbind res_bind the_zi]. rewrite Ed. cbn [mbind res_bind]. rewrite Eu. cbn [mbind res_bind]. set (ql7 := with_total ql5 (total ql5 - 1)) in *.
    assert (depth ql7 = depth ql5) as Edep by done. destruct (c_calm _ _ _ _ _ _ _ _ _ _ _ _ _ _ Hcv5) as [HcA HcC]. pose proof (Forall2_length _ _ _ (c_before _ _ _ _ _ _ _ _ _ _ _ _ _ _ Hcv5)) as LVA.
    rewrite (snoc_mid A4), (snoc_mid VA) in Hq7. assert (length (A4 ++ [(x, d7)]) = length (VA ++ [L])) as LA7 by (rewrite !length_app; cbn; lia).
    eapply yields_bind; [apply (mergeNodes_plain Hhtab (Some x) F h7 ql7 (A4 ++ [(x, d7)]) z dz4 C (VA ++ [L]) [w] VC (qrep_body _ _ _ _ _ _ Hq7) LA7 (c_plain _ _ _ _ _ _ _ _ _ _ _ _ _ _ Hcv5))|].
    { intros i Hi'. rewrite <- snoc_mid in *. destruct (pending_only A4 (x, d7) ((z, dz4) :: C) i HcA HcC Hi') as [-> Hr7]. cbn [snd] in Hr7. rewrite Hrec7 in Hr7. pose proof (c_spare _ _ _ _ _ _ _ _ _ _ _ _ _ _ Hcv5 Hr7) as Hsp. rewrite Edep. rewrite !length_app in *. cbn [length] in *. lia. }
    intros [[h8 ql8] c8] (Ec8 & P8 & A8 & d8 & B8 & VA8 & VB8 & Hq8 & _ & EA8 & EB8 & Hkept & Hne8 & HP8). cbn [fst snd] in *. subst c8. cbn [the mbind res_bind].
    assert (concat (VA8 ++ [w] :: VB8) = concat (VA ++ L :: [w] :: VC)) as Ec8 by (rewrite (snoc_mid VA L), (concat_mid VA8), (concat_mid (VA ++ [L])); by rewrite EA8, EB8).
    assert (qrep P8 F h8 ql8 (A8 ++ (z, d8) :: B8) (VA8 ++ [w] :: VB8)) as Hq8' by (apply qbody_counted; [done|]; by rewrite Ec8, <- Ht5, (kept_total _ _ _ Hkept)).
    fold (settle_around h8 ql8 z). eapply yields_mono; [apply (settle_around_spec P8 F h8 ql8 A8 z d8 B8 _ Hq8')|].
    + apply Hne8. by destruct A4.
    + destruct HP8 as [|[-> E8]]; [by left|right]. by rewrite E8, last_of_snoc.
    + intros [h9 ql9] (ns' & Hq9 & E9). cbn [fst snd] in *. subst ql9. exists ns', (VA8 ++ [w] :: VB8). split; [done|]. split; [done|]. destruct Hkept as [[] _], Ho5. split; cbn in *; congruence.
Qed.

(** ** [quicklistReplaceEntry] and [quicklistReplaceAtIndex] *)

(** While the value is replaced the list may hold the old one and the new one. *)
Lemma replaceEntry_spec F h ql (A : nodes) x d B VA L v R VB iter ent w : qrep (Some x) F h ql (A ++ (x, d) :: B) (VA ++ (L ++ v :: R) :: VB) -> length A = length VA -> located iter ent x d L v R ->
  wf_bytes w -> weight (concat (VA ++ (L ++ v :: w :: R) :: VB)) < 2 ^ 31 ->
  yields (quicklistReplaceEntry h ql iter ent w) (fun r => inserted F ql (concat (VA ++ (L ++ w :: R) :: VB)) r.1.1 r.1.2 /\ current r.2 = None).
Proof.
  intros Hq HA Hloc Hw Hwt. pose proof Hloc as [Hz Hcur Hn (p & Hzi & Hezi & Hp) Hi Ho _]. pose proof (holds_at _ _ _ _ _ _ _ _ _ _ _ Hq HA) as (Hk & _).
  assert (weight (concat (VA ++ (L ++ w :: R) :: VB)) < 2 ^ 31) as Hwt'. { rewrite weight_replace. rewrite concat_mid, !weight_app, !weight_cons in Hwt. pose proof (zlen_nonneg v). lia. }
  unfold quicklistReplaceEntry. rewrite Hn. cbn [the mbind res_bind]. rewrite (lay_node_at _ _ _ _ _ _ (q_lay _ _ _ _ _ _ Hq)). cbn [mbind res_bind].
  destruct (large_ok (zlen w) (fill ql) (q_fill _ _ _ _ _ _ Hq)) as [large Elg]. rewrite Elg. cbn [mbind res_bind]. rewrite Hezi, Ho. cbn [the_zi mbind res_bind].
  assert (forall m, yields m (fun r => inserted F ql (concat (VA ++ (L ++ w :: R) :: VB)) r.1 r.2) ->
    yields ('(h, ql) ← m; Ok (h, ql, resetIterator iter)) (fun r => inserted F ql (concat (VA ++ (L ++ w :: R) :: VB)) r.1.1 r.1.2 /\ current r.2 = None)) as Hend.
  { intros m Hm. eapply yields_bind; [exact Hm|]. intros [h' ql'] Hr. by apply yields_ok. }
  destruct (is_plain d) eqn:Hpl; cbn [negb andb mbind res_bind].
  - destruct (plain_alone _ _ _ _ Hk Hpl) as [-> ->]. cbn [app] in *. apply Hend. destruct large; [by apply (replace_plain F h ql A x d B VA v VB)|by apply (replace_plain_small F h ql A x d B VA v VB)].
  - destruct large; cbn [negb mbind res_bind]; apply Hend || idtac.
    + by apply (replace_split_spec F h ql A x d B VA L v R VB).
    + destruct (replace_packed F h ql A x d B VA L v R VB w p Hq HA Hz Hpl Hp Hw Hwt') as (b & lp' & np & Eb & Er & Hy). rewrite Eb. cbn [mbind res_bind]. rewrite Er. cbn [mbind res_bind]. by apply Hend.
Qed.

(** The value at a position counted from either end. *)
Definition replaced_at (vs : list bytes) (j : Z) (w : bytes) : list bytes := take (Z.to_nat j) vs ++ w :: drop (S (Z.to_nat j)) vs.

Lemma replaced_mid (VA : list (list bytes)) L v R VB w : replaced_at (concat (VA ++ (L ++ v :: R) :: VB)) (zlen (concat VA ++ L)) w = concat (VA ++ (L ++ w :: R) :: VB).
Proof.
  unfold replaced_at. rewrite !concat_mid, !app_assoc, <- !(app_assoc (concat VA ++ L)). cbn [app]. assert (Z.to_nat (zlen (concat VA ++ L)) = length (concat VA ++ L)) as -> by (unfold zlen; lia).
  rewrite take_app_length, drop_app_ge by lia. by replace (S _ - _)%nat with 1%nat by lia.
Qed.

Lemma replaceAtIndex_spec F h ql ns vss idx w : qrep None F h ql ns vss -> is_i64 idx -> wf_bytes w -> weight (concat vss) + 16 + zlen w < 2 ^ 31 ->
  let j := from_front (zlen (concat vss)) idx in let ok := (0 <=? j) && (j <? zlen (concat vss)) in
  yields (quicklistReplaceAtIndex h ql idx w) (fun r => r.2 = ok /\ inserted F ql (if ok then replaced_at (concat vss) j w else concat vss) r.1.1 r.1.2).
Proof.
  intros Hq Hi Hw Hwt j ok. unfold quicklistReplaceAtIndex. eapply yields_bind; [by apply (entryAtIdx_spec F h ql ns vss idx Hq)|]. fold j. fold ok. intros [h1 r] Hr. cbn [fst snd] in Hr. destruct ok.
  - destruct Hr as (iter & ent & A & x & d & B & VA & L & v & R & VB & -> & Hq1 & -> & HA & Hloc & _ & Hj). eapply yields_bind; [apply (replaceEntry_spec F h1 ql A x d B VA L v R VB iter ent w Hq1 HA Hloc Hw)|].
    + rewrite !concat_mid, !weight_app, !weight_cons in *. lia.
    + intros [[h2 ql2] it] [Hins Hc]. cbn [fst snd] in *. unfold quicklistReleaseIterator. rewrite Hc. cbn [mbind res_bind]. apply yields_ok. cbn [fst snd]. split; [done|]. by rewrite Hj, replaced_mid.
  - injection Hr as -> ->. apply yields_ok. cbn [fst snd]. split; [done|]. by exists ns, vss.
Qed.

End replace.
End QuicklistReplace.
