(* ===== verification/QuicklistScan.v ===== *)
(** * Quicklists: comparing, iterators that count from their own end, whole listpacks

    What the list commands need beyond the single operations: [quicklistCompare],
    the sign of the offset of an iterator (which [quicklistDelEntry] relies on),
    [quicklistAppendListpack] and the way back to a listpack. *)

From S2P Require Import Prelude Util ListpackEnc Listpack ListpackTheory ListpackSpec Lzf LzfSpec Dll Quicklist QuicklistNode QuicklistLink QuicklistValues QuicklistOps QuicklistEdit QuicklistIter QuicklistRange QuicklistMerge QuicklistInsert QuicklistReplace.
From stdpp Require Import list gmap fin_maps.
#[local] Open Scope Z_scope.

Module QuicklistScan.
Import Dll Quicklist QuicklistNode QuicklistLink QuicklistValues QuicklistOps QuicklistEdit QuicklistIter QuicklistRange QuicklistMerge QuicklistInsert QuicklistReplace.

#[local] Abbreviation nodes := (list (loc * qnode)).
#[local] Abbreviation repr := ListpackTheory.repr.
#[local] Abbreviation lptotal := ListpackTheory.total.
#[local] Abbreviation text := LP.text.
#[local] Abbreviation lppos := ListpackTheory.pos.

(** ** Comparing *)

Lemma lpCompare_spec lp (le : list LP.elem) e re s : repr lp (le ++ e :: re) -> LP.lpCompare lp (lppos le) s (zlen s) = Ok (bool_decide (text e = s)).
Proof.
  intros (num & slack & -> & Hn & Hok & Ht). unfold LP.lpCompare. destruct (ListpackTheory.rd_pos num slack le (e :: re) Hok) as (b & -> & Hb). cbn [mbind res_bind]. rewrite Hb.
  assert (LP.elem_ok e) as He by (apply Forall_app in Hok as [_ Hok]; by inversion Hok).
  rewrite ListpackTheory.lpenc_cursor, <- (ListpackTheory.zlen_before (lptotal (le ++ e :: re)) num le). unfold LP.lpGet, LP.entry. rewrite <- app_assoc. destruct e as [z|t].
  - rewrite LP.get_int_spec by done. cbn [mbind res_bind fst]. rewrite LP.lpStringToInt64_string2ll. destruct (Util.string2ll_spec s []) as (o & Ho & Hs). rewrite app_nil_r in Ho. rewrite Ho. cbn [mbind res_bind].
    destruct o as [v|]; f_equal; symmetry.
    + destruct (proj1 (Hs v) eq_refl) as [Hv ->]. destruct (Z.eqb_spec z v) as [->|Hne]; [by apply bool_decide_eq_true_2|]. apply bool_decide_eq_false_2. cbn [LP.text]. intros E. apply Hne. pose proof (proj2 (Hs z)) as Hz. rewrite E in Hz. by injection (Hz (conj He eq_refl)) as ->.
    + apply bool_decide_eq_false_2. cbn [LP.text]. intros <-. discriminate (proj2 (Hs z) (conj He eq_refl)).
  - edestruct (LP.get_str_spec t) as (hh & es & Hd & -> & _); [done|]. cbn [mbind res_bind fst LP.text]. destruct (Z.eqb_spec (zlen s) (zlen t)) as [El|Hne].
    + rewrite El, Hd, <- app_assoc, (app_assoc (ListpackTheory.before _ _ _)), rdn_app. cbn [mbind res_bind]. rewrite <- El. pose proof (rdn_app [] s []) as Es. rewrite app_nil_r in Es. cbn [app] in Es. change (zlen []) with 0 in Es. rewrite Es. done.
    + f_equal. symmetry. apply bool_decide_eq_false_2. by intros ->.
Qed.

Section scan.
Context `{Allocator} `{Environment} (Hhtab : LzfSpec.valid_htab htab).

Lemma compare_spec P F h ql (A : nodes) x d B vss iter ent (L : list bytes) v R s : qrep P F h ql (A ++ (x, d) :: B) vss -> keeps d (L ++ v :: R) -> located iter ent x d L v R ->
  quicklistCompare h ent s = Ok (bool_decide (v = s)).
Proof.
  intros Hq Hk [Hz _ Hn (p & _ & Hp & Hpt) _ _ Hr]. unfold quicklistCompare. rewrite Hn. cbn [the mbind res_bind]. rewrite (lay_node_at _ _ _ _ _ _ (q_lay _ _ _ _ _ _ Hq)). cbn [mbind res_bind]. rewrite Hp. cbn [the_zi mbind res_bind].
  destruct (is_plain d) eqn:Hpl.
  - destruct (keeps_plain d _ Hk Hz Hpl) as (r & s' & _ & Hb & _). unfold as_bytes. rewrite Hb. cbn [mbind res_bind]. unfold entry_reads in Hr. destruct (e_value ent) as [q|] eqn:Ev.
    + destruct Hr as (b & Hb' & Hrd & Hsz). rewrite Hb' in Hb. injection Hb as ->. cbn [the_zi mbind res_bind]. destruct (Z.eqb_spec (e_sz ent) (zlen s)) as [E|Hne].
      * rewrite <- E, Hrd. done.
      * f_equal. symmetry. apply bool_decide_eq_false_2. intros ->. congruence.
    + destruct Hr; congruence.
  - destruct Hpt as [|(lp & le & e & re & Hlp & Hrep & -> & -> & -> & ->)]; [congruence|]. unfold as_bytes. rewrite Hlp. cbn [mbind res_bind]. by eapply lpCompare_spec.
Qed.

(** ** Whole listpacks *)

Lemma appendListpack_spec F h ql ns vss lp es : qrep None F h ql ns vss -> repr lp es -> 0 < zlen es < 2 ^ 16 -> weight (concat vss ++ (text <$> es)) < 2 ^ 31 ->
  yields (quicklistAppendListpack h ql lp) (fun r => exists ns' vss', qrep None F r.1 r.2 ns' vss' /\ concat vss' = concat vss ++ (text <$> es) /\ same_options ql r.2).
Proof.
  intros Hq Hr Hn Hwt. unfold quicklistAppendListpack. destruct (lay_new h ns F (q_lay _ _ _ _ _ _ Hq)) as (h1 & y & -> & Hl1 & _ & HF). fold (free_node new_qnode) in Hl1.
  destruct (ListpackTheory.length_spec lp es Hr) as (lp' & -> & Hr' & _). cbn [mbind res_bind]. pose proof (put_here h1 y _ (lay_free_lookup _ _ _ y _ Hl1 (lookup_insert_eq _ _ _))) as Ep. rewrite Ep, set_entry_put. cbn [mbind res_bind].
  rewrite qupd_put. cbn [mbind res_bind]. rewrite (lpBytes_spec lp' es Hr'). cbn [mbind res_bind]. rewrite qupd_put. cbn [mbind res_bind]. rewrite stored_count. set (d := set_count _ _).
  assert (holds d (text <$> es)) as Hd by (apply holds_stored; try done; apply wrapu_small; lia).
  pose proof (lay_put_free _ _ _ _ _ d Hl1 (lookup_insert_eq _ _ _)) as Hl2. rewrite insert_insert_eq in Hl2. cbn [free_node dat] in Hl2 |- *. unfold _quicklistInsertNodeAfter. rewrite (ends_last _ _ (q_ends _ _ _ _ _ _ Hq)).
  assert (qrep None F h ql (ns ++ []) (vss ++ [])) as Hq0 by by rewrite !app_nil_r. pose proof (Forall2_length _ _ _ (q_rep _ _ _ _ _ _ Hq)) as Hlen. pose proof Hl2 as Hl2'. rewrite <- (app_nil_r ns) in Hl2'.
  assert (weight (concat (vss ++ [text <$> es])) < 2 ^ 31) as Hwt' by (rewrite concat_app; cbn; by rewrite app_nil_r).
  destruct (qrep_insert_held Hhtab None _ _ ql ns [] vss [] y d (text <$> es) true (qrep_body _ _ _ _ _ _ (qrep_lay _ _ _ _ _ _ _ _ Hq0 Hl2')) Hlen (lookup_insert_eq _ _ _) ltac:(done) ltac:(by left) Hd ltac:(done) Hwt') as (h2 & ql2 & A' & d' & B' & E & SA & Sd & SB & Ht & Ho & Hfin).
  cbn [beside] in E. unfold put in *. rewrite E. cbn [mbind res_bind]. rewrite delete_insert_id in Hfin by done. inversion SB; subst.
  assert (u64 (total ql2 + count d') = zlen (concat (vss ++ [text <$> es]))) as Hu.
  { pose proof (weight_room _ Hwt') as Hroom. rewrite Ht, (q_total _ _ _ _ _ _ Hq), (sim_count _ _ Sd). cbn [count d set_count stored set_sz]. rewrite !concat_app, !zlen_app in *. cbn [concat] in *. rewrite app_nil_r, zlen_fmap in *. pose proof (zlen_nonneg (concat vss)). rewrite (wrapu_small 16) by lia. apply wrapu_small. lia. }
  specialize (Hfin _ Hu). rewrite (lay_node_at _ _ _ _ _ _ (q_lay _ _ _ _ _ _ Hfin)). cbn [mbind res_bind]. apply yields_ok. exists (A' ++ [(y, d')]), (vss ++ [text <$> es]). split; [exact Hfin|]. split; [|done]. rewrite concat_app. cbn. by rewrite app_nil_r.
Qed.

(** ** Iterators that count from their own end *)

Definition own_side (dir : qdirection) (o : Z) : Prop := match dir with AL_START_HEAD => 0 <= o | AL_START_TAIL => o < 0 end.
Definition own (iter : quicklistIter) : Prop := own_side (direction iter) (offset iter) /\ - 2 ^ 32 <= offset iter <= 2 ^ 32.

Lemma next_step_own h ql iter h' r : own iter -> next_step h ql iter = Ok (h', r) ->
  match r with inl it => own it /\ direction it = direction iter | inr (it, _, _) => own_side (direction iter) (offset it) end.
Proof.
  intros [Ho Hb] E. unfold next_step in E. destruct (current iter) as [x|]; [|by injection E as _ <-]. destruct (node h x) as [d|]; [|done]. cbn [mbind res_bind] in E.
  destruct (match zi iter with None => _ | Some _ => _ end) as [[[h1 z] o]|] eqn:E1; [|done]. cbn [mbind res_bind] in E.
  assert (own_side (direction iter) o) as Ho1.
  { destruct (zi iter) as [p|].
    - destruct (is_plain d); [by injection E1 as _ _ <-|]. destruct (as_bytes d) as [b|]; [|done]. cbn [mbind res_bind] in E1. destruct (direction iter); cbn [own_side] in *.
      + destruct (Listpack.lpNext b p); [|done]. injection E1 as _ _ <-. rewrite wraps_small; lia.
      + destruct (Listpack.lpPrev b p); [|done]. injection E1 as _ _ <-. rewrite wraps_small; lia.
    - destruct (quicklistDecompressNodeForUse h x) as [h2|]; [|done]. cbn [mbind res_bind] in E1. destruct (is_plain d); [by injection E1 as _ _ <-|]. destruct (node h2 x) as [d2|]; [|done]. cbn [mbind res_bind] in E1.
      destruct (as_bytes d2) as [b|]; [|done]. cbn [mbind res_bind] in E1. destruct (Listpack.lpSeek b (offset iter)); [|done]. by injection E1 as _ _ <-. }
  destruct z as [p|].
  - destruct (current_entry h1 x (is_plain d) p o) as [ent|]; [|done]. by injection E as _ <-.
  - destruct (quicklistCompress h1 ql x) as [h2|]; [|done]. cbn [mbind res_bind] in E. destruct (get h2 x) as [n|]; [|done]. injection E as _ <-. unfold own. destruct (direction iter); (split; [cbn; lia|done]).
Qed.

Lemma next_own h ql iter h' it ent found : own iter -> quicklistNext h ql iter = Ok (h', it, ent, found) -> own_side (direction iter) (offset it).
Proof.
  unfold quicklistNext. generalize (S (S (size h))). intros fuel. revert h iter. induction fuel as [|fuel IH]; intros h iter Ho E; [done|]. cbn [next_loop] in E. destruct (next_step h ql iter) as [[h1 r]|] eqn:E1; [|done]. cbn [mbind res_bind] in E.
  pose proof (next_step_own _ _ _ _ _ Ho E1) as Hr. destruct r as [it1|[[it1 ent1] found1]]; [|by injection E as _ <- _ _]. destruct Hr as [Ho1 <-]. by apply (IH h1).
Qed.

Lemma located_own F h ql (A : nodes) x d B VA L v R VB iter ent : qrep (Some x) F h ql (A ++ (x, d) :: B) (VA ++ (L ++ v :: R) :: VB) -> length A = length VA -> located iter ent x d L v R -> own_side (direction iter) (offset iter) -> own iter.
Proof.
  intros Hq HA Hloc Hs. split; [done|]. destruct (holds_at _ _ _ _ _ _ _ _ _ _ _ Hq HA) as (Hk & _). pose proof (keeps_length _ _ Hk) as Hl. rewrite zlen_app, zlen_cons in Hl. pose proof (zlen_nonneg L). pose proof (zlen_nonneg R).
  destruct (l_index _ _ _ _ _ _ _ Hloc) as [-> | ->]; lia.
Qed.

Lemma delEntry_own h ql iter ent h' ql' it : own iter -> quicklistDelEntry h ql iter ent = Ok (h', ql', it) -> own it.
Proof.
  intros Ho E. unfold quicklistDelEntry in E. destruct (e_node ent) as [x|]; [|done]. cbn [the mbind res_bind] in E. destruct (get h x) as [n|]; [|done]. cbn [mbind res_bind] in E.
  destruct (quicklistDelIndex h ql x _) as [[[[h1 ql1] gone] np]|]; [|done]. cbn [mbind res_bind] in E. injection E as _ _ <-. destruct gone; [|exact Ho]. unfold own. destruct (direction iter); cbn; lia.
Qed.

(** ** A new list and a list of one node *)

Lemma qrep_new F fill compress : qrep None F F (quicklistNew fill compress) [] [].
Proof.
  assert (fill_ok (Quicklist.fill (quicklistNew fill compress)) /\ 0 <= Quicklist.compress (quicklistNew fill compress)) as [Hf Hc].
  { split.
    - unfold fill_ok. cbn. change FILL_MAX with (2 ^ 15 - 1). destruct (Z.ltb_spec (2 ^ 15 - 1) fill); [lia|]. destruct (Z.ltb_spec fill (-5)); lia.
    - cbn. change COMPRESS_MAX with (2 ^ 16 - 1). destruct (Z.ltb_spec (2 ^ 16 - 1) compress); [lia|]. destruct (Z.ltb_spec compress 0); lia. }
  split; try done.
  - exists ∅. split; [|split; [apply map_disjoint_empty_l|by rewrite (left_id_L ∅ _)]]. split; [|by rewrite dom_empty_L]. split; [apply NoDup_nil_2|done].
  - split; [constructor|intros i (c & Hi & _); done|intros i (c & Hi & _); done].
  - constructor.
Qed.

Lemma single_raw F h ql x d vss : qrep None F h ql [(x, d)] vss -> is_lzf d = false.
Proof.
  intros Hq. destruct (is_lzf d) eqn:E; [|done]. destruct (settled_lzf _ _ (q_settled _ _ _ _ _ _ Hq) 0%nat) as (H1 & H2 & _); [by exists (x, d)|lia].
Qed.

(** The listpack taken out of the only node before the list is released. *)
Lemma steal_spec F h ql x d vss : qrep None F h ql [(x, d)] vss -> is_plain d = false ->
  exists lp es, entry d = Buffer lp /\ repr lp es /\ concat vss = text <$> es /\ 0 < zlen es < 2 ^ 16 /\
  exists h1, set_entry_of h x NULL = Ok h1 /\ yields (quicklistRelease h1 ql) (fun r => r.1 = F).
Proof.
  intros Hq Hp. pose proof (single_raw _ _ _ _ _ _ Hq) as Hz. pose proof (q_rep _ _ _ _ _ _ Hq) as Hr. inversion Hr as [|? vs ? ? (Hk & _) Hr']; subst. inversion Hr'; subst. cbn [snd] in *.
  destruct (keeps_packed d vs Hk Hz Hp) as (lp & es & Hlp & Hrep & -> & Hn & _). exists lp, es. split; [done|]. split; [done|]. split; [cbn; by rewrite app_nil_r|]. split; [done|].
  destruct (lay_upd_at _ [] x d [] _ (set_entry NULL) (q_lay _ _ _ _ _ _ Hq)) as (h1 & E1 & Hl1). exists h1. split; [exact E1|].
  eapply yields_mono; [apply (lay_freed Hhtab F h1 ql _ Hl1)|by intros ? []]. eapply ends_locs; [apply (q_ends _ _ _ _ _ _ Hq)|done].
Qed.

End scan.
End QuicklistScan.
