(* ===== verification/QuicklistSpec.v ===== *)
(** * Quicklists: the interface refines a sequence of byte strings

    A program over the interface of quicklist.c as a sequence of calls, the same
    program over a list of byte strings, and the theorem that they answer alike,
    for every node limit, every depth of compression and every threshold for
    plain nodes. *)

From S2P Require Import Prelude Util ListpackEnc Listpack ListpackTheory ListpackSpec Lzf LzfSpec Dll Quicklist QuicklistNode QuicklistLink QuicklistValues QuicklistOps QuicklistEdit QuicklistIter QuicklistRange QuicklistMerge QuicklistInsert QuicklistReplace QuicklistScan.
From stdpp Require Import list gmap fin_maps.
#[local] Open Scope Z_scope.

Module QuicklistSpec.
Import Dll Quicklist QuicklistNode QuicklistLink QuicklistValues QuicklistOps QuicklistEdit QuicklistIter QuicklistRange QuicklistMerge QuicklistInsert QuicklistReplace QuicklistScan.

#[local] Abbreviation nodes := (list (loc * qnode)).

(** ** Calls and answers *)

Inductive qop : Type :=
| QPush (where_ : qend) (v : bytes)
| QPop (where_ : qend)
| QIndex (i : Z)
| QReplace (i : Z) (v : bytes)
| QInsert (i : Z) (after : bool) (v : bytes)
| QDelRange (start n : Z)
| QScan (dir : qdirection)
| QCount.

Inductive answer : Type := ADone | ABool (b : bool) | AValue (v : option bytes) | AValues (vs : list bytes) | ANumber (n : Z).

Section run.
Context `{Allocator} `{Environment}.

(** All the values in the direction of an iterator. *)
Fixpoint scan_loop (fuel : nat) (h : heap) (ql : quicklist) (iter : quicklistIter) : res (heap * list bytes) :=
  match fuel with
  | O => Fault OutOfFuel
  | S fuel =>
    '(h, iter, ent, found) ← quicklistNext h ql iter;
    if found : bool then v ← entry_bytes h ent; '(h, vs) ← scan_loop fuel h ql iter; Ok (h, v :: vs)
    else h ← quicklistReleaseIterator h ql (Some iter); Ok (h, [])
  end.

(** The bytes of a popped value. *)
Definition popped_bytes (r : bytes + Z) : bytes := match r with inl v => v | inr z => Util.decimal z end.

Definition run_op (h : heap) (ql : quicklist) (o : qop) : res (heap * quicklist * answer) :=
  match o with
  | QPush where_ v => '(h, ql) ← quicklistPush h ql v where_; Ok (h, ql, ADone)
  | QPop where_ => '(h, ql, r) ← quicklistPop h ql where_; Ok (h, ql, AValue (popped_bytes <$> r))
  | QIndex i =>
    '(h, r) ← quicklistGetIteratorEntryAtIdx h ql i;
    match r with
    | None => Ok (h, ql, AValue None)
    | Some (iter, ent) => v ← entry_bytes h ent; h ← quicklistReleaseIterator h ql (Some iter); Ok (h, ql, AValue (Some v))
    end
  | QReplace i v => '(h, ql, ok) ← quicklistReplaceAtIndex h ql i v; Ok (h, ql, ABool ok)
  | QInsert i after v =>
    '(h, r) ← quicklistGetIteratorEntryAtIdx h ql i;
    match r with
    | None => Ok (h, ql, ABool false)
    | Some (iter, ent) =>
      '(h, ql, iter) ← (if after then quicklistInsertAfter h ql iter ent v else quicklistInsertBefore h ql iter ent v);
      h ← quicklistReleaseIterator h ql (Some iter);
      Ok (h, ql, ABool true)
    end
  | QDelRange start n => '(h, ql, ok) ← quicklistDelRange h ql start n; Ok (h, ql, ABool ok)
  | QScan dir => '(h, vs) ← scan_loop (S (Z.to_nat (total ql))) h ql (quicklistGetIterator ql dir); Ok (h, ql, AValues vs)
  | QCount => Ok (h, ql, ANumber (quicklistCount ql))
  end.

Fixpoint run (h : heap) (ql : quicklist) (os : list qop) : res (heap * quicklist * list answer) :=
  match os with
  | [] => Ok (h, ql, [])
  | o :: os => '(h, ql, a) ← run_op h ql o; '(h, ql, l) ← run h ql os; Ok (h, ql, a :: l)
  end.

End run.

(** ** The same on a list of byte strings *)

Definition index_in (vs : list bytes) (i : Z) : option nat :=
  let j := from_front (zlen vs) i in if (0 <=? j) && (j <? zlen vs) then Some (Z.to_nat j) else None.

Definition spec_op (vs : list bytes) (o : qop) : list bytes * answer :=
  match o with
  | QPush QUICKLIST_HEAD v => (v :: vs, ADone)
  | QPush QUICKLIST_TAIL v => (vs ++ [v], ADone)
  | QPop QUICKLIST_HEAD => (tail vs, AValue (head vs))
  | QPop QUICKLIST_TAIL => (removelast vs, AValue (last vs))
  | QIndex i => (vs, AValue (j ← index_in vs i; vs !! j))
  | QReplace i v => match index_in vs i with Some j => (<[j := v]> vs, ABool true) | None => (vs, ABool false) end
  | QInsert i after v => match index_in vs i with Some j => let j := if after then S j else j in (take j vs ++ v :: drop j vs, ABool true) | None => (vs, ABool false) end
  | QDelRange start n =>
    match index_in vs start with Some j => if 0 <? n then (take j vs ++ drop (j + Z.to_nat n) vs, ABool true) else (vs, ABool false) | None => (vs, ABool false) end
  | QScan AL_START_HEAD => (vs, AValues vs)
  | QScan AL_START_TAIL => (vs, AValues (reverse vs))
  | QCount => (vs, ANumber (zlen vs))
  end.

Fixpoint spec_run (vs : list bytes) (os : list qop) : list bytes * list answer :=
  match os with
  | [] => (vs, [])
  | o :: os => let '(vs, a) := spec_op vs o in let '(vs, l) := spec_run vs os in (vs, a :: l)
  end.

(** The values are bytes, positions are [long]s, and the values with sixteen
    bytes each for the overhead take less than 2 GB. *)
Definition room (vs : list bytes) (v : bytes) : Prop := wf_bytes v /\ weight (v :: vs) < 2 ^ 31.

Definition op_ok (vs : list bytes) (o : qop) : Prop :=
  match o with
  | QPush _ v => room vs v
  | QIndex i => is_i64 i
  | QReplace i v | QInsert i _ v => is_i64 i /\ room vs v
  | QDelRange start n => is_i64 start /\ is_i64 n
  | QPop _ | QScan _ | QCount => True
  end.

Fixpoint ops_ok (vs : list bytes) (os : list qop) : Prop :=
  match os with [] => True | o :: os => op_ok vs o /\ ops_ok (spec_op vs o).1 os end.

(** ** Simulation *)

Section spec.
Context `{Allocator} `{Environment} (Hhtab : LzfSpec.valid_htab htab).

(** The list holds the values [vs], beside the rest [F] of the heap. *)
Definition qlist (F h : heap) (ql : quicklist) (vs : list bytes) : Prop := exists ns vss, qrep None F h ql ns vss /\ concat vss = vs.

Definition ends_with (F : heap) (vs : list bytes) (a : answer) (r : heap * quicklist * answer) : Prop := qlist F r.1.1 r.1.2 vs /\ r.2 = a.

(** What is still to be visited. *)
Definition ahead (dir : qdirection) (before after : list bytes) : list bytes := match dir with AL_START_HEAD => after | AL_START_TAIL => reverse before end.

Lemma stepped_ahead dir before after VA L v R VB : stepped dir before after VA L v R VB ->
  ahead dir before after = v :: ahead dir (concat VA ++ match dir with AL_START_HEAD => L ++ [v] | AL_START_TAIL => L end) (match dir with AL_START_HEAD => R | AL_START_TAIL => v :: R end ++ concat VB).
Proof. destruct dir; intros [-> ->]; [done|]. cbn [ahead]. by rewrite reverse_snoc. Qed.

Lemma scan_spec F ql : forall fuel P h ns vss iter before after, qrep P F h ql ns vss -> cursor P ns vss iter before after -> (length (ahead (direction iter) before after) < fuel)%nat ->
  yields (scan_loop fuel h ql iter) (fun r => r.2 = ahead (direction iter) before after /\ exists ns', qrep None F r.1 ql ns' vss).
Proof.
  induction fuel as [|fuel IH]; intros P h ns vss iter before after Hq Hc Hf; [lia|]. cbn [scan_loop].
  eapply yields_bind; [by apply (qnext_spec Hhtab P F h ql ns vss iter before after)|]. intros [[[h1 iter1] ent] found] [Hdir Hr]. cbn [fst snd] in *. destruct found.
  - destruct Hr as (A & x & d & B & VA & L & v & R & VB & Hq1 & -> & HA & Hloc & Hst). rewrite (stepped_ahead _ _ _ _ _ _ _ _ Hst) in Hf |- *. rewrite <- Hdir in Hf |- *. cbn [length] in Hf.
    rewrite (entry_bytes_spec _ _ _ _ _ _ _ _ _ _ _ _ _ _ Hq1 Hloc). cbn [mbind res_bind].
    eapply yields_bind; [apply (IH _ h1 _ _ iter1 _ _ Hq1 (located_cursor _ _ _ _ _ _ _ _ _ _ _ HA Hloc)); lia|]. intros [h2 vs] [Ev Hq2]. apply yields_ok. cbn [fst snd] in *. by rewrite Ev.
  - destruct Hr as (Hcur & Hq1 & Hend). unfold quicklistReleaseIterator. rewrite Hcur. cbn [mbind res_bind]. apply yields_ok. split; [|done]. by destruct (direction iter); cbn [ahead fst snd]; rewrite Hend.
Qed.

Lemma scan_all F h ql ns vss dir : qrep None F h ql ns vss ->
  yields (scan_loop (S (Z.to_nat (total ql))) h ql (quicklistGetIterator ql dir)) (fun r => r.2 = match dir with AL_START_HEAD => concat vss | AL_START_TAIL => reverse (concat vss) end /\ exists ns', qrep None F r.1 ql ns' vss).
Proof.
  intros Hq. pose proof (q_ends _ _ _ _ _ _ Hq) as He. assert (quicklistGetIterator ql dir = at_border dir (match dir with AL_START_HEAD => [] | AL_START_TAIL => ns end) (match dir with AL_START_HEAD => ns | AL_START_TAIL => [] end)) as ->.
  { destruct dir; unfold quicklistGetIterator, at_border; cbn; [by rewrite (ends_first _ _ He)|by rewrite (ends_last _ _ He)]. }
  pose proof (Forall2_length _ _ _ (q_rep _ _ _ _ _ _ Hq)) as Hlen. rewrite (q_total _ _ _ _ _ _ Hq). destruct dir.
  - eapply yields_mono; [apply (scan_spec F ql _ None h ns vss _ [] (concat vss) Hq)|done].
    + apply (cursor_border AL_START_HEAD [] ns [] vss); [apply Hq|done].
    + cbn [direction at_border ahead]. rewrite to_nat_zlen. lia.
  - eapply yields_mono; [apply (scan_spec F ql _ None h ns vss _ (concat vss) [] Hq)|done].
    + pose proof (cursor_border AL_START_TAIL ns [] vss []) as Hc. rewrite !app_nil_r in Hc. apply Hc; [apply Hq|done].
    + cbn [direction at_border ahead]. rewrite length_reverse, to_nat_zlen. lia.
Qed.

(** ** One call *)

Lemma in_range_index vs i : index_in vs i = if (0 <=? from_front (zlen vs) i) && (from_front (zlen vs) i <? zlen vs) then Some (Z.to_nat (from_front (zlen vs) i)) else None.
Proof. done. Qed.

Lemma at_mid (VA : list (list bytes)) L v R VB j : j = zlen (concat VA ++ L) -> exists X Y, concat (VA ++ (L ++ v :: R) :: VB) = X ++ v :: Y /\ Z.to_nat j = length X /\ X = concat VA ++ L /\ Y = R ++ concat VB.
Proof. intros ->. exists (concat VA ++ L), (R ++ concat VB). rewrite concat_mid, to_nat_zlen, <- !app_assoc. done. Qed.

Lemma put_in_mid (after : bool) (VA : list (list bytes)) L v w R VB :
  concat (VA ++ put_in after L v w R :: VB) = if after then (concat VA ++ L) ++ v :: w :: R ++ concat VB else (concat VA ++ L) ++ w :: v :: R ++ concat VB.
Proof. rewrite concat_mid. unfold put_in. destruct after; rewrite <- !app_assoc; done. Qed.

Lemma weight_room_in (VA : list (list bytes)) L v R VB w after : weight (w :: concat (VA ++ (L ++ v :: R) :: VB)) < 2 ^ 31 -> weight (concat (VA ++ put_in after L v w R :: VB)) < 2 ^ 31.
Proof. intros Hw. rewrite put_in_mid. rewrite concat_mid in Hw. destruct after; rewrite ?weight_app, ?weight_cons, ?weight_app, ?weight_cons in *; rewrite ?weight_app in *; lia. Qed.

Lemma insert_op F h ql ns vss i (after : bool) w : qrep None F h ql ns vss -> is_i64 i -> room (concat vss) w ->
  yields (run_op h ql (QInsert i after w)) (ends_with F (spec_op (concat vss) (QInsert i after w)).1 (spec_op (concat vss) (QInsert i after w)).2).
Proof.
  intros Hq Hi [Hw Hwt]. cbn [run_op spec_op]. rewrite in_range_index. eapply yields_bind; [by apply (entryAtIdx_spec F h ql ns vss i Hq)|]. intros [h1 r] Hr. cbn [fst snd] in Hr. cbv zeta in Hr.
  destruct (_ && _); [|injection Hr as -> ->; apply yields_ok; split; [by exists ns, vss|done]].
  destruct Hr as (iter & ent & A & x & d & B & VA & L & v & R & VB & -> & Hq1 & -> & HA & Hloc & _ & Hj). destruct (at_mid VA L v R VB _ Hj) as (X & Y & EX & -> & -> & ->).
  assert ((if after then quicklistInsertAfter h1 ql iter ent w else quicklistInsertBefore h1 ql iter ent w) = _quicklistInsert h1 ql iter ent w after) as -> by by destruct after.
  eapply yields_bind; [apply (qinsert_spec Hhtab F h1 ql A x d B VA L v R VB iter ent w after Hq1 HA Hloc Hw); by apply weight_room_in|]. intros [[h2 ql2] iter2] (ns2 & vss2 & Hq2 & Ecat & _ & Hcur).
  assert (forall h3 ns3, qrep None F h3 ql2 ns3 vss2 -> ends_with F (take (if after then S (length (concat VA ++ L)) else length (concat VA ++ L)) (concat (VA ++ (L ++ v :: R) :: VB)) ++ w :: drop (if after then S (length (concat VA ++ L)) else length (concat VA ++ L)) (concat (VA ++ (L ++ v :: R) :: VB))) (ABool true) (h3, ql2, ABool true)) as Hfin.
  { intros h3 ns3 Hq3. split; [|done]. exists ns3, vss2. split; [done|]. rewrite Ecat, put_in_mid, EX. destruct after.
    - change (v :: R ++ concat VB) with ([v] ++ R ++ concat VB). rewrite app_assoc. replace (S _) with (length ((concat VA ++ L) ++ [v])) by (rewrite length_app; cbn; lia). rewrite take_app_length, drop_app_length. by rewrite <- !app_assoc.
    - by rewrite take_app_length, drop_app_length. }
  unfold quicklistReleaseIterator. destruct Hcur as [Hcur|[Hcur Hin]]; rewrite Hcur.
  - cbn [mbind res_bind]. apply yields_ok. by eapply Hfin.
  - apply list_elem_of_fmap in Hin as ([x' d2] & Ex & Hin). cbn [fst] in Ex. subst x'. apply list_elem_of_split in Hin as (A2 & B2 & ->).
    eapply yields_bind; [by apply (compress_any Hhtab None F h2 ql2 A2 x d2 B2)|]. intros h3 (ns3 & _ & Hq3). apply yields_ok. by eapply Hfin.
Qed.

Lemma index_op F h ql ns vss i : qrep None F h ql ns vss -> is_i64 i ->
  yields (run_op h ql (QIndex i)) (ends_with F (concat vss) (spec_op (concat vss) (QIndex i)).2).
Proof.
  intros Hq Hi. cbn [run_op spec_op]. rewrite in_range_index. eapply yields_bind; [by apply (entryAtIdx_spec F h ql ns vss i Hq)|]. intros [h1 r] Hr. cbn [fst snd] in Hr. cbv zeta in Hr.
  destruct (_ && _); [|injection Hr as -> ->; apply yields_ok; split; [by exists ns, vss|done]].
  destruct Hr as (iter & ent & A & x & d & B & VA & L & v & R & VB & -> & Hq1 & -> & HA & Hloc & _ & Hj). rewrite (entry_bytes_spec _ _ _ _ _ _ _ _ _ _ _ _ _ _ Hq1 Hloc). cbn [mbind res_bind].
  eapply yields_bind; [eapply (releaseIterator_spec Hhtab); [exact Hq1|by right|by eapply l_current]|]. intros h2 (ns2 & _ & Hq2). apply yields_ok. split; [by exists ns2, (VA ++ (L ++ v :: R) :: VB)|]. cbn [fst snd mbind option_bind].
  destruct (at_mid VA L v R VB _ Hj) as (X & Y & -> & -> & _). by rewrite lookup_app_r, Nat.sub_diag by lia.
Qed.

Lemma pop_op F h ql ns vss where_ : qrep None F h ql ns vss -> yields (run_op h ql (QPop where_)) (ends_with F (spec_op (concat vss) (QPop where_)).1 (spec_op (concat vss) (QPop where_)).2).
Proof.
  intros Hq. cbn [run_op]. eapply yields_bind; [by apply (pop_spec Hhtab F h ql ns vss where_)|]. intros [[h1 ql1] r] (ns1 & vss1 & Hq1 & _ & Hr). cbn [fst snd] in *. apply yields_ok. unfold ends_with. cbn [fst snd].
  destruct r as [r|]; cbn [fmap option_fmap option_map].
  - destruct Hr as (v & Hg & Ev). assert (popped_bytes r = v) as -> by (destruct Hg as [ -> | (z & -> & _ & ->) ]; done). destruct where_; cbn [spec_op fst snd]; rewrite Ev; cbn [tail head].
    + split; [by exists ns1, vss1|done].
    + rewrite removelast_last, last_snoc. split; [by exists ns1, vss1|done].
  - destruct Hr as [-> Ev]. destruct where_; (split; [by exists ns1, vss1|done]).
Qed.

Lemma op_simulates F h ql vs o : qlist F h ql vs -> op_ok vs o -> yields (run_op h ql o) (ends_with F (spec_op vs o).1 (spec_op vs o).2).
Proof.
  intros (ns & vss & Hq & <-) Ho. destruct o as [where_ v|where_|i|i v|i after v|start n|dir|]; cbn [op_ok] in Ho.
  - cbn [run_op]. eapply yields_bind; [apply (push_spec Hhtab F h ql ns vss v where_ Hq); apply Ho|]. intros [h1 ql1] (ns1 & vss1 & Hq1 & E & _). apply yields_ok. destruct where_; (split; [by exists ns1, vss1|done]).
  - by eapply pop_op.
  - by eapply index_op.
  - destruct Ho as (Hi & Hw & Hwt). cbn [run_op spec_op]. rewrite in_range_index. rewrite weight_cons in Hwt.
    eapply yields_bind; [apply (replaceAtIndex_spec Hhtab F h ql ns vss i v Hq Hi Hw); lia|]. intros [[h1 ql1] ok] [Eok (ns1 & vss1 & Hq1 & Ecat & _)]. cbn [fst snd] in *. apply yields_ok. subst ok. destruct (_ && _) eqn:Ein; (split; [|done]); exists ns1, vss1; (split; [done|]); [|done].
    cbn [fst]. rewrite Ecat. unfold replaced_at. apply andb_true_iff in Ein as [?%Z.leb_le ?%Z.ltb_lt]. by rewrite insert_take_drop by (unfold zlen in *; lia).
  - by apply (insert_op F h ql ns vss i after v Hq); apply Ho.
  - destruct Ho as [Hs Hn]. cbn [run_op spec_op]. rewrite in_range_index. eapply yields_bind; [by apply (delRange_spec Hhtab F h ql ns vss start n Hq)|]. intros [[h1 ql1] ok] (ns1 & vss1 & Hq1 & Ew & _). cbn [fst snd] in *. apply yields_ok. unfold without_range in Ew. cbv zeta in Ew.
    destruct (0 <? n) eqn:En; cbn [andb] in Ew.
    + destruct (_ && _) eqn:Ein; injection Ew as Ecat ->; (split; [|done]); exists ns1, vss1; (split; [done|]); [|done]. cbn [fst]. rewrite Ecat. apply andb_true_iff in Ein as [?%Z.leb_le _]. apply Z.ltb_lt in En. by rewrite Z2Nat.inj_add by lia.
    + injection Ew as Ecat ->. destruct (_ && _); (split; [|done]); by exists ns1, vss1.
  - cbn [run_op]. eapply yields_bind; [by apply (scan_all F h ql ns vss dir)|]. intros [h1 vs] [Ev (ns1 & Hq1)]. cbn [fst snd] in *. subst vs. apply yields_ok. destruct dir; (split; [by exists ns1, vss|done]).
  - cbn [run_op spec_op]. apply yields_ok. split; [by exists ns, vss|]. cbn. unfold quicklistCount. by rewrite (q_total _ _ _ _ _ _ Hq).
Qed.

Lemma qrun_simulates F os : forall h ql vs, qlist F h ql vs -> ops_ok vs os -> yields (run h ql os) (fun r => qlist F r.1.1 r.1.2 (spec_run vs os).1 /\ r.2 = (spec_run vs os).2).
Proof.
  induction os as [|o os IH]; intros h ql vs Hq Hok; [by apply yields_ok|]. destruct Hok as [Ho Hok]. cbn [run spec_run].
  eapply yields_bind; [by apply (op_simulates F h ql vs o)|]. intros [[h1 ql1] a] [Hq1 Ea]. cbn [fst snd] in *. subst a. destruct (spec_op vs o) as [vs1 a]. cbn [fst snd] in *.
  eapply yields_bind; [by apply (IH h1 ql1 vs1)|]. intros [[h2 ql2] l] [Hq2 El]. cbn [fst snd] in *. subst l. apply yields_ok. by destruct (spec_run vs1 os).
Qed.

(** C11. A quicklist created with any node limit and depth of compression answers
    every sequence of calls (pushing and popping at either end, indexing,
    replacing and inserting at a position counted from either end, deleting a
    range, iterating in either direction, counting) as the list of its values
    does, whatever was compressed, split and merged on the way; releasing it
    leaves no node allocated. *)
Theorem quicklist_refines_list (fill compress : Z) (os : list qop) : ops_ok [] os ->
  exists h ql, run ∅ (quicklistNew fill compress) os = Ok (h, ql, (spec_run [] os).2) /\ quicklistCount ql = zlen (spec_run [] os).1 /\
    exists ql', quicklistRelease h ql = Ok (∅, ql').
Proof.
  intros Hok. assert (qlist ∅ ∅ (quicklistNew fill compress) []) as Hq0 by (exists [], []; split; [apply qrep_new|done]).
  destruct (qrun_simulates ∅ os ∅ _ [] Hq0 Hok) as ([[h ql] l] & E & (ns & vss & Hq & Ecat) & El). cbn [fst snd] in *. subst l. exists h, ql. split; [exact E|].
  split; [unfold quicklistCount; by rewrite (q_total _ _ _ _ _ _ Hq), Ecat|]. destruct (release_spec Hhtab None ∅ h ql ns vss Hq) as ([h' ql'] & -> & Eh & _). cbn [fst] in Eh. subst h'. by exists ql'.
Qed.

End spec.

(** Two values to a node and the inner nodes compressed: long values that
    compress, a large one that gets a node of its own, and positions counted from
    either end. *)
#[local] Existing Instance calloc8.
#[local] Instance sample_env : Environment := {| packed_threshold := 300; htab := fun _ => 0 |}.

Definition long_value (c : Z) : bytes := replicate 70 c.

Definition sample_ops : list qop :=
  [QPush QUICKLIST_TAIL (long_value 97); QPush QUICKLIST_TAIL (long_value 98); QPush QUICKLIST_HEAD [49; 50]; QPush QUICKLIST_TAIL (long_value 99); QPush QUICKLIST_TAIL (long_value 100);
   QPush QUICKLIST_TAIL [120]; QInsert 2 true [105]; QInsert (-3) false (replicate 300 5); QReplace 1 (replicate 301 6); QReplace 5 [114]; QIndex 2; QIndex (-1); QDelRange 1 3; QPop QUICKLIST_TAIL;
   QScan AL_START_HEAD; QScan AL_START_TAIL; QCount].

Lemma quicklist_refines_list_witness : exists h ql,
  run ∅ (quicklistNew 2 1) sample_ops =
    Ok (h, ql, [ADone; ADone; ADone; ADone; ADone; ADone; ABool true; ABool true; ABool true; ABool true; AValue (Some (long_value 98)); AValue (Some [120]); ABool true; AValue (Some [120]);
      AValues [[49; 50]; replicate 300 5; [114]; long_value 100]; AValues [long_value 100; [114]; replicate 300 5; [49; 50]]; ANumber 4]) /\
  quicklistCount ql = 4 /\ exists ql', quicklistRelease h ql = Ok (∅, ql').
Proof.
  assert (LzfSpec.valid_htab htab) as Hh by (intros i; vm_compute; reflexivity). assert (ops_ok [] sample_ops) as Hok.
  { cbn [ops_ok sample_ops op_ok]. unfold room.
    repeat match goal with |- _ /\ _ => split end; first [exact I|vm_compute; congruence|vm_compute; split; congruence|apply (bool_decide_unpack _); vm_compute; exact I]. }
  destruct (quicklist_refines_list Hh 2 1 sample_ops Hok) as (h & ql & E1 & E2 & E3).
  exists h, ql. split; [rewrite E1; do 2 f_equal; vm_compute; reflexivity|]. split; [rewrite E2; vm_compute; reflexivity|exact E3].
Defined.

End QuicklistSpec.
