(* ===== verification/TList.v ===== *)
(** * Lists: the type and its commands (t_list.c)

    A list object is a listpack or a quicklist, and changes from one to the other
    as it grows and shrinks.  The nodes of quicklists live on a heap shared by all
    the lists of a server.  A command is a function of that heap and of what is
    stored at its key; it gives the new heap, what is stored afterwards, the
    effects outside the key (changes counted, clients and subscribers told) and
    the reply, in the order in which the code makes them. *)

From S2P Require Import Prelude Cstring Util ListpackEnc Listpack Lzf Dll Quicklist Rio Rdb.
From stdpp Require Import list gmap strings.
#[local] Open Scope Z_scope.

Module TList.
Import Dll Quicklist.
Export Rdb (robj, IntObj, SdsObj).

(** ** Objects *)

(** The configured limits ([server.list_max_listpack_size] and
    [server.list_compress_depth]). *)
Class ListConfig : Type := { list_max_listpack_size : Z; list_compress_depth : Z }.

Inductive lobj : Type := LISTPACK (lp : bytes) | QUICKLIST (ql : quicklist).

(** What a key holds, for the commands of this file. *)
Inductive kobj : Type := KList (o : lobj) | KOther.

Inductive lend : Type := LIST_HEAD | LIST_TAIL.
Inductive lencoding : Type := OBJ_ENCODING_LISTPACK | OBJ_ENCODING_QUICKLIST.
Inductive list_conv_type : Type := LIST_CONV_AUTO | LIST_CONV_GROWING | LIST_CONV_SHRINKING.

#[export] Instance lend_eq : EqDecision lend.
Proof. solve_decision. Defined.
#[export] Instance lencoding_eq : EqDecision lencoding.
Proof. solve_decision. Defined.

Definition lenc (o : lobj) : lencoding := match o with LISTPACK _ => OBJ_ENCODING_LISTPACK | QUICKLIST _ => OBJ_ENCODING_QUICKLIST end.

(** A listpack pointer that is used without a test for NULL. *)
Definition lp_ok (r : option bytes) : res bytes := match r with Some lp => Ok lp | None => Fault OutOfBounds end.

Record listTypeIterator : Type := { li_encoding : lencoding; li_direction : lend; li_lpi : option Z; li_iter : option quicklistIter }.
Record listTypeEntry : Type := { le_lpe : option Z; le_entry : quicklistEntry }.

Definition quicklist_end (where_ : lend) : qend := match where_ with LIST_HEAD => QUICKLIST_HEAD | LIST_TAIL => QUICKLIST_TAIL end.

(** LIST_HEAD starts at the tail and moves towards the head. *)
Definition iter_direction (d : lend) : qdirection := match d with LIST_HEAD => AL_START_TAIL | LIST_TAIL => AL_START_HEAD end.

Section list_type.
Context `{Allocator} `{Environment} `{ListConfig}.

(** ** String objects (object.c) *)

Definition sdsEncodedObject (o : robj) : bool := match o with SdsObj _ => true | IntObj _ => false end.

(** The text of an integer, as [ll2string] writes it into a buffer of 32 bytes. *)
Definition long_text (v : Z) : res bytes := '(buf, n) ← Util.ll2string (uninit 32) 0 32 v; rdn buf 0 n.

Definition getDecodedObject (o : robj) : res bytes := match o with SdsObj s => Ok s | IntObj v => long_text v end.

(** Every [long long] fits the [long] that an object with the integer encoding
    holds. *)
Definition createStringObjectFromLongLong (v : Z) : robj := IntObj v.

Definition createListListpackObject : res lobj := lp ← Listpack.lpNew 0; Ok (LISTPACK lp).

Definition freeListObject (h : heap) (o : lobj) : res heap :=
  match o with QUICKLIST ql => '(h, _) ← quicklistRelease h ql; Ok h | LISTPACK _ => Ok h end.

(** ** Conversions *)

Fixpoint add_bytes (argv : list robj) (n : Z) : Z :=
  match argv with
  | [] => n
  | SdsObj s :: argv => add_bytes argv (u64 (n + zlen s))
  | IntObj _ :: argv => add_bytes argv n
  end.

Definition listTypeTryConvertListpack (h : heap) (lp : bytes) (argv : list robj) : res (heap * lobj) :=
  let add_bytes := add_bytes argv 0 in
  let add_length := zlen argv in
  b ← Listpack.lpBytes lp;
  '(lp, n) ← Listpack.lpLength lp;
  exceeds ← quicklistNodeExceedsLimit list_max_listpack_size (u64 (b + add_bytes)) (u32 (n + add_length));
  if exceeds : bool then
    let ql := quicklistNew list_max_listpack_size list_compress_depth in
    '(lp, n) ← Listpack.lpLength lp;
    '(h, ql) ← (if negb (n =? 0) then quicklistAppendListpack h ql lp else Ok (h, ql));
    Ok (h, QUICKLIST ql)
  else Ok (h, LISTPACK lp).

Definition listTypeTryConvertQuicklist (h : heap) (ql : quicklist) (shrinking : bool) : res (heap * lobj) :=
  if negb (len ql =? 1) then Ok (h, QUICKLIST ql) else
  x ← the (head_ ql);
  d ← node h x;
  if is_plain d then Ok (h, QUICKLIST ql) else
  '(sz_limit, count_limit) ← quicklistNodeLimit list_max_listpack_size;
  let sz_limit := if shrinking then sz_limit / 2 else sz_limit in
  let count_limit := if shrinking then count_limit / 2 else count_limit in
  if (sz_limit <? sz d) || (count_limit <? total ql) then Ok (h, QUICKLIST ql) else
  lp ← as_bytes d;
  h ← set_entry_of h x NULL;
  '(h, _) ← quicklistRelease h ql;
  Ok (h, LISTPACK lp).

Definition listTypeTryConversionRaw (h : heap) (o : lobj) (lct : list_conv_type) (argv : list robj) : res (heap * lobj) :=
  match o with
  | QUICKLIST ql => match lct with LIST_CONV_GROWING => Ok (h, o) | LIST_CONV_SHRINKING => listTypeTryConvertQuicklist h ql true | LIST_CONV_AUTO => listTypeTryConvertQuicklist h ql false end
  | LISTPACK lp => match lct with LIST_CONV_SHRINKING => Ok (h, o) | _ => listTypeTryConvertListpack h lp argv end
  end.

Definition listTypeTryConversion (h : heap) (o : lobj) (lct : list_conv_type) : res (heap * lobj) := listTypeTryConversionRaw h o lct [].
Definition listTypeTryConversionAppend (h : heap) (o : lobj) (argv : list robj) : res (heap * lobj) := listTypeTryConversionRaw h o LIST_CONV_GROWING argv.

(** ** The list type *)

Definition listTypePush (h : heap) (subject : lobj) (value : robj) (where_ : lend) : res (heap * lobj) :=
  match subject with
  | QUICKLIST ql =>
    s ← getDecodedObject value;
    '(h, ql) ← quicklistPush h ql s (quicklist_end where_);
    Ok (h, QUICKLIST ql)
  | LISTPACK lp =>
    r ← match value, where_ with
        | IntObj v, LIST_HEAD => Listpack.lpPrependInteger lp v
        | IntObj v, LIST_TAIL => Listpack.lpAppendInteger lp v
        | SdsObj s, LIST_HEAD => Listpack.lpPrepend lp s (zlen s)
        | SdsObj s, LIST_TAIL => Listpack.lpAppend lp s (zlen s)
        end;
    lp ← lp_ok r;
    Ok (h, LISTPACK lp)
  end.

(** The string object that [listPopSaver] makes of the popped bytes. *)
Definition listPopSaver (data : bytes) : robj := SdsObj data.

Definition listTypePop (h : heap) (subject : lobj) (where_ : lend) : res (heap * lobj * option robj) :=
  match subject with
  | QUICKLIST ql =>
    '(h, ql, r) ← quicklistPopCustom listPopSaver h ql (quicklist_end where_);
    Ok (h, QUICKLIST ql, match r with None => None | Some (inl value) => Some value | Some (inr vlong) => Some (createStringObjectFromLongLong vlong) end)
  | LISTPACK lp =>
    p ← match where_ with LIST_HEAD => Listpack.lpFirst lp | LIST_TAIL => Listpack.lpLast lp end;
    match p with
    | None => Ok (h, subject, None)
    | Some p =>
      vstr ← LP.lpGet lp p (Some (uninit LP.LP_INTBUF_SIZE));
      s ← match vstr with LP.LpPtr q n => rdn lp q n | LP.LpIntbuf buf n => rdn buf 0 n | LP.LpNull _ => Fault OutOfBounds end;
      r ← Listpack.lpDelete lp p false;
      lp ← lp_ok (option_map fst r);
      Ok (h, LISTPACK lp, Some (SdsObj s))
    end
  end.

Definition listTypeLength (subject : lobj) : res (lobj * Z) :=
  match subject with
  | QUICKLIST ql => Ok (subject, quicklistCount ql)
  | LISTPACK lp => '(lp, n) ← Listpack.lpLength lp; Ok (LISTPACK lp, n)
  end.

Definition listTypeInitIterator (h : heap) (subject : lobj) (index : Z) (direction : lend) : res listTypeIterator :=
  match subject with
  | QUICKLIST ql =>
    it ← quicklistGetIteratorAtIdx h ql (iter_direction direction) index;
    Ok {| li_encoding := OBJ_ENCODING_QUICKLIST; li_direction := direction; li_lpi := None; li_iter := it |}
  | LISTPACK lp =>
    p ← Listpack.lpSeek lp index;
    Ok {| li_encoding := OBJ_ENCODING_LISTPACK; li_direction := direction; li_lpi := p; li_iter := None |}
  end.

Definition listTypeReleaseIterator (h : heap) (subject : lobj) (li : listTypeIterator) : res heap :=
  match subject with
  | QUICKLIST ql => quicklistReleaseIterator h ql (li_iter li)
  | LISTPACK _ => Ok h
  end.

Definition with_lpi (li : listTypeIterator) (p : option Z) : listTypeIterator :=
  {| li_encoding := li_encoding li; li_direction := li_direction li; li_lpi := p; li_iter := li_iter li |}.
Definition with_iter (li : listTypeIterator) (it : quicklistIter) : listTypeIterator :=
  {| li_encoding := li_encoding li; li_direction := li_direction li; li_lpi := li_lpi li; li_iter := Some it |}.

Definition listTypeNext (h : heap) (subject : lobj) (li : listTypeIterator) : res (heap * listTypeIterator * listTypeEntry * bool) :=
  _ ← cassert (bool_decide (lenc subject = li_encoding li));
  match subject with
  | QUICKLIST ql =>
    match li_iter li with
    | None => Ok (h, li, {| le_lpe := None; le_entry := initEntry |}, false)
    | Some it =>
      '(h, it, ent, found) ← quicklistNext h ql it;
      Ok (h, with_iter li it, {| le_lpe := None; le_entry := ent |}, found)
    end
  | LISTPACK lp =>
    match li_lpi li with
    | None => Ok (h, li, {| le_lpe := None; le_entry := initEntry |}, false)
    | Some p =>
      q ← match li_direction li with LIST_TAIL => Listpack.lpNext lp p | LIST_HEAD => Listpack.lpPrev lp p end;
      Ok (h, with_lpi li q, {| le_lpe := Some p; le_entry := initEntry |}, true)
    end
  end.

(** The string at the position of the entry, or its integer. *)
Definition listTypeGetValue (h : heap) (subject : lobj) (ent : listTypeEntry) : res (bytes + Z) :=
  match subject with
  | QUICKLIST ql =>
    match e_value (le_entry ent) with
    | Some q => x ← the (e_node (le_entry ent)); d ← node h x; b ← as_bytes d; s ← rdn b q (e_sz (le_entry ent)); Ok (inl s)
    | None => Ok (inr (e_longval (le_entry ent)))
    end
  | LISTPACK lp =>
    p ← the_zi (le_lpe ent);
    v ← LP.lpGetValue lp p;
    match v with inl (q, n) => s ← rdn lp q n; Ok (inl s) | inr lval => Ok (inr lval) end
  end.

Definition lpw (where_ : lend) : Listpack.lpwhere := match where_ with LIST_TAIL => Listpack.LP_AFTER | LIST_HEAD => Listpack.LP_BEFORE end.

Definition listTypeInsert (h : heap) (subject : lobj) (li : listTypeIterator) (ent : listTypeEntry) (value : robj) (where_ : lend) : res (heap * lobj * listTypeIterator) :=
  s ← getDecodedObject value;
  match subject with
  | QUICKLIST ql =>
    it ← match li_iter li with Some it => Ok it | None => Fault OutOfBounds end;
    '(h, ql, it) ← match where_ with LIST_TAIL => quicklistInsertAfter h ql it (le_entry ent) s | LIST_HEAD => quicklistInsertBefore h ql it (le_entry ent) s end;
    Ok (h, QUICKLIST ql, with_iter li it)
  | LISTPACK lp =>
    p ← the_zi (le_lpe ent);
    r ← Listpack.lpInsertString lp s (zlen s) p (lpw where_) true;
    lp ← lp_ok (option_map fst r);
    Ok (h, LISTPACK lp, li)
  end.

(** The index is an [int] here. *)
Definition listTypeReplaceAtIndex (h : heap) (o : lobj) (index : Z) (value : robj) : res (heap * lobj * bool) :=
  let index := i32 index in
  s ← getDecodedObject value;
  match o with
  | QUICKLIST ql => '(h, ql, replaced) ← quicklistReplaceAtIndex h ql index s; Ok (h, QUICKLIST ql, replaced)
  | LISTPACK lp =>
    p ← Listpack.lpSeek lp index;
    match p with
    | None => Ok (h, o, false)
    | Some p => r ← Listpack.lpReplace lp p s (zlen s); lp ← lp_ok (option_map fst r); Ok (h, LISTPACK lp, true)
    end
  end.

Definition listTypeEqual (h : heap) (subject : lobj) (ent : listTypeEntry) (o : robj) : res bool :=
  _ ← cassert (sdsEncodedObject o);
  match o with
  | IntObj _ => Fault AssertFailed
  | SdsObj s =>
    match subject with
    | QUICKLIST ql => quicklistCompare h (le_entry ent) s
    | LISTPACK lp => p ← the_zi (le_lpe ent); LP.lpCompare lp p s (zlen s)
    end
  end.

Definition listTypeDelete (h : heap) (subject : lobj) (li : listTypeIterator) (ent : listTypeEntry) : res (heap * lobj * listTypeIterator) :=
  match subject with
  | QUICKLIST ql =>
    it ← match li_iter li with Some it => Ok it | None => Fault OutOfBounds end;
    '(h, ql, it) ← quicklistDelEntry h ql it (le_entry ent);
    Ok (h, QUICKLIST ql, with_iter li it)
  | LISTPACK lp =>
    p ← the_zi (le_lpe ent);
    r ← Listpack.lpDelete lp p true;
    lp ← lp_ok (option_map fst r);
    let p := r ≫= snd in
    q ← match li_direction li, p with
        | LIST_TAIL, _ => Ok p
        | LIST_HEAD, Some p => Listpack.lpPrev lp p
        | LIST_HEAD, None => Listpack.lpLast lp
        end;
    Ok (h, LISTPACK lp, with_lpi li q)
  end.

Definition listTypeDelRange (h : heap) (subject : lobj) (start count : Z) : res (heap * lobj) :=
  match subject with
  | QUICKLIST ql => '(h, ql, _) ← quicklistDelRange h ql start count; Ok (h, QUICKLIST ql)
  | LISTPACK lp => lp ← Listpack.lpDeleteRange lp start (u64 count); Ok (h, LISTPACK lp)
  end.

Definition listTypeGet (h : heap) (subject : lobj) (ent : listTypeEntry) : res robj :=
  v ← listTypeGetValue h subject ent;
  Ok (match v with inl s => SdsObj s | inr lval => createStringObjectFromLongLong lval end).

Definition listTypeReplace (h : heap) (subject : lobj) (li : listTypeIterator) (ent : listTypeEntry) (value : robj) : res (heap * lobj * listTypeIterator) :=
  s ← getDecodedObject value;
  match subject with
  | QUICKLIST ql =>
    it ← match li_iter li with Some it => Ok it | None => Fault OutOfBounds end;
    '(h, ql, it) ← quicklistReplaceEntry h ql it (le_entry ent) s;
    Ok (h, QUICKLIST ql, with_iter li it)
  | LISTPACK lp =>
    p ← the_zi (le_lpe ent);
    r ← Listpack.lpReplace lp p s (zlen s);
    lp ← lp_ok (option_map fst r);
    Ok (h, LISTPACK lp, li)
  end.

Definition listTypeSetIteratorDirection (subject : lobj) (li : listTypeIterator) (ent : listTypeEntry) (direction : lend) : res listTypeIterator :=
  if bool_decide (li_direction li = direction) then Ok li else
  match subject with
  | QUICKLIST ql =>
    it ← match li_iter li with Some it => Ok it | None => Fault OutOfBounds end;
    Ok {| li_encoding := li_encoding li; li_direction := direction; li_lpi := li_lpi li; li_iter := Some (quicklistSetDirection it (iter_direction direction)) |}
  | LISTPACK lp =>
    p ← the_zi (le_lpe ent);
    q ← match direction with LIST_TAIL => Listpack.lpNext lp p | LIST_HEAD => Listpack.lpPrev lp p end;
    Ok {| li_encoding := li_encoding li; li_direction := direction; li_lpi := q; li_iter := li_iter li |}
  end.

Definition listTypeDup (h : heap) (o : lobj) : res (heap * lobj) :=
  match o with
  | LISTPACK lp => lp ← Listpack.lpDup lp; Ok (h, LISTPACK lp)
  | QUICKLIST ql => '(h, ql) ← quicklistDup h ql; Ok (h, QUICKLIST ql)
  end.

End list_type.
End TList.
