(* ===== verification/TListCmd.v ===== *)
(** * Lists: the commands (t_list.c)

    LPUSH, RPUSH, LPUSHX, RPUSHX, LINSERT, LLEN, LINDEX, LSET, LPOP, RPOP, LRANGE,
    LTRIM, LPOS and LREM, each from its arguments and what its key holds, and
    LMOVE, RPOPLPUSH and LMPOP on the keys of a database. *)

From S2P Require Import Prelude Cstring Util ListpackEnc Listpack Lzf Dll Quicklist Rio Rdb TList.
From stdpp Require Import list gmap strings.
#[local] Open Scope Z_scope.

Module TListCmd.
Import Dll Quicklist TList.

(** ** Replies and effects *)

Inductive error : Type := wrongtypeerr | syntaxerr | nokeyerr | outofrangeerr | arityerr | error_text (msg : string) | error_between (min max : Z).

Inductive reply : Type :=
| addReplyLongLong (n : Z)
| addReplyBulk (b : bytes)
| addReplyNull
| addReplyNullArray
| addReplyEmptyArray
| addReplyArrayLen (n : Z)
| addReplyOk
| addReplyError (e : error).

Inductive notify_class : Type := NOTIFY_LIST | NOTIFY_GENERIC.

Inductive effect : Type :=
| Dirty (n : Z)
| signalModifiedKey
| notifyKeyspaceEvent (class : notify_class) (event : string)
| rewriteClientCommandVector (argv : list bytes).

(** What a command leaves: the heap, what the key holds, the effects and the
    reply. *)
Record outcome : Type := { o_heap : heap; o_key : option kobj; o_effects : list effect; o_reply : list reply }.

Definition done (h : heap) (key : option kobj) (es : list effect) (rs : list reply) : res outcome :=
  Ok {| o_heap := h; o_key := key; o_effects := es; o_reply := rs |}.

(** An argument that is rejected gives the error to reply. *)
Definition arg (A : Type) : Type := error + A.

(** ** Arguments *)

Definition LONG_MAX : Z := INT64_MAX.
Definition LONG_MIN : Z := INT64_MIN.

Definition getLongLongFromObject (o : robj) : res (option Z) :=
  match o with SdsObj s => Util.string2ll s (zlen s) | IntObj v => Ok (Some v) end.

Definition getLongLongFromObjectOrReply (o : robj) (msg : option string) : res (arg Z) :=
  r ← getLongLongFromObject o;
  Ok (match r with
      | None => inl (error_text (default "value is not an integer or out of range" msg))
      | Some value => inr value
      end).

Definition getLongFromObjectOrReply (o : robj) (msg : option string) : res (arg Z) :=
  r ← getLongLongFromObjectOrReply o msg;
  Ok (match r with
      | inl e => inl e
      | inr value => if (value <? LONG_MIN) || (LONG_MAX <? value) then inl (error_text (default "value is out of range" msg)) else inr value
      end).

Definition getRangeLongFromObjectOrReply (o : robj) (min max : Z) (msg : option string) : res (arg Z) :=
  r ← getLongFromObjectOrReply o msg;
  Ok (match r with
      | inl e => inl e
      | inr target => if (target <? min) || (max <? target) then inl (match msg with Some msg => error_text msg | None => error_between min max end) else inr target
      end).

Definition getPositiveLongFromObjectOrReply (o : robj) (msg : option string) : res (arg Z) :=
  getRangeLongFromObjectOrReply o 0 LONG_MAX (Some (default "value is out of range, must be positive" msg)).

(** The bytes of a C string: up to the terminator. *)
Fixpoint cstring (b : bytes) : bytes := match b with [] => [] | c :: b => if c =? 0 then [] else c :: cstring b end.

Definition strcasecmp (a b : bytes) : bool := bool_decide (Cstring.tolower <$> cstring a = Cstring.tolower <$> cstring b).

Definition is_word (o : robj) (word : string) : bool :=
  match o with SdsObj s => strcasecmp s (bytes_of_string (word)) | IntObj _ => false end.

(** A database: what its keys hold. *)
Abbreviation db := (gmap bytes kobj).

Section commands.
Context `{Allocator} `{Environment} `{ListConfig}.

Definition bulk_of (v : bytes + Z) : res reply :=
  match v with inl s => Ok (addReplyBulk s) | inr lval => s ← long_text lval; Ok (addReplyBulk s) end.

Definition bulk_obj (o : robj) : res reply := s ← getDecodedObject o; Ok (addReplyBulk s).

(** ** LPUSH, RPUSH, LPUSHX, RPUSHX *)

Fixpoint push_loop (h : heap) (lobj : lobj) (where_ : lend) (values : list robj) : res (heap * TList.lobj) :=
  match values with
  | [] => Ok (h, lobj)
  | v :: values => '(h, lobj) ← listTypePush h lobj v where_; push_loop h lobj where_ values
  end.

Definition push_event (where_ : lend) : string := match where_ with LIST_HEAD => "lpush" | LIST_TAIL => "rpush" end.

Definition pushGenericCommand (h : heap) (key : option kobj) (where_ : lend) (xx : bool) (values : list robj) : res outcome :=
  match key with
  | Some KOther => done h key [] [addReplyError wrongtypeerr]
  | _ =>
    if match key with None => xx | Some _ => false end then done h key [] [addReplyLongLong 0] else
    lobj ← match key with Some (KList o) => Ok o | _ => createListListpackObject end;
    '(h, lobj) ← listTypeTryConversionAppend h lobj values;
    '(h, lobj) ← push_loop h lobj where_ values;
    '(lobj, n) ← listTypeLength lobj;
    done h (Some (KList lobj)) (replicate (length values) (Dirty 1) ++ [signalModifiedKey; notifyKeyspaceEvent NOTIFY_LIST (push_event where_)]) [addReplyLongLong n]
  end.

(** ** LINSERT *)

(** The loop up to the pivot: the iterator where it stopped, with the entry of
    the pivot if there is one. *)
Fixpoint pivot_loop (fuel : nat) (h : heap) (subject : lobj) (li : listTypeIterator) (pivot : robj) : res (heap * listTypeIterator * option listTypeEntry) :=
  match fuel with
  | O => Fault OutOfFuel
  | S fuel =>
    '(h, li, ent, found) ← listTypeNext h subject li;
    if found : bool then
      eq ← listTypeEqual h subject ent pivot;
      if eq : bool then Ok (h, li, Some ent) else pivot_loop fuel h subject li pivot
    else Ok (h, li, None)
  end.

(** The number of elements bounds the rounds of a loop over the list. *)
Definition rounds (o : lobj) : nat := match o with LISTPACK lp => S (length lp) | QUICKLIST ql => S (Z.to_nat (total ql)) end.

Definition linsertCommand (h : heap) (key : option kobj) (where_arg pivot value : robj) : res outcome :=
  match (if is_word where_arg "after" then Some LIST_TAIL else if is_word where_arg "before" then Some LIST_HEAD else None) with
  | None => done h key [] [addReplyError syntaxerr]
  | Some where_ =>
    match key with
    | None => done h key [] [addReplyLongLong 0]
    | Some KOther => done h key [] [addReplyError wrongtypeerr]
    | Some (KList subject) =>
      '(h, subject) ← listTypeTryConversionAppend h subject [value];
      li ← listTypeInitIterator h subject 0 LIST_TAIL;
      '(h, li, ent) ← pivot_loop (rounds subject) h subject li pivot;
      '(h, subject, li) ←
        match ent with
        | Some ent => listTypeInsert h subject li ent value where_
        | None => Ok (h, subject, li)
        end;
      h ← listTypeReleaseIterator h subject li;
      match ent with
      | Some _ =>
        '(subject, n) ← listTypeLength subject;
        done h (Some (KList subject)) [signalModifiedKey; notifyKeyspaceEvent NOTIFY_LIST "linsert"; Dirty 1] [addReplyLongLong n]
      | None => done h (Some (KList subject)) [] [addReplyLongLong (-1)]
      end
    end
  end.

(** ** LLEN and LINDEX *)

Definition llenCommand (h : heap) (key : option kobj) : res outcome :=
  match key with
  | None => done h key [] [addReplyLongLong 0]
  | Some KOther => done h key [] [addReplyError wrongtypeerr]
  | Some (KList o) => '(o, n) ← listTypeLength o; done h (Some (KList o)) [] [addReplyLongLong n]
  end.

Definition lindexCommand (h : heap) (key : option kobj) (index : robj) : res outcome :=
  match key with
  | None => done h key [] [addReplyNull]
  | Some KOther => done h key [] [addReplyError wrongtypeerr]
  | Some (KList o) =>
    r ← getLongFromObjectOrReply index None;
    match r with
    | inl e => done h key [] [addReplyError e]
    | inr index =>
      li ← listTypeInitIterator h o index LIST_TAIL;
      '(h, li, ent, found) ← listTypeNext h o li;
      r ← (if found : bool then v ← listTypeGetValue h o ent; bulk_of v else Ok addReplyNull);
      h ← listTypeReleaseIterator h o li;
      done h key [] [r]
    end
  end.

(** ** LSET *)

Definition lsetCommand (h : heap) (key : option kobj) (index value : robj) : res outcome :=
  match key with
  | None => done h key [] [addReplyError nokeyerr]
  | Some KOther => done h key [] [addReplyError wrongtypeerr]
  | Some (KList o) =>
    r ← getLongFromObjectOrReply index None;
    match r with
    | inl e => done h key [] [addReplyError e]
    | inr index =>
      '(h, o) ← listTypeTryConversionAppend h o [value];
      '(h, o, replaced) ← listTypeReplaceAtIndex h o index value;
      if replaced : bool then
        '(h, o) ← listTypeTryConversion h o LIST_CONV_SHRINKING;
        done h (Some (KList o)) [signalModifiedKey; notifyKeyspaceEvent NOTIFY_LIST "lset"; Dirty 1] [addReplyOk]
      else done h (Some (KList o)) [] [addReplyError outofrangeerr]
    end
  end.

(** ** Ranges: LRANGE, LTRIM, LPOP, RPOP *)

Fixpoint quicklist_range (rangelen : nat) (h : heap) (ql : quicklist) (iter : option quicklistIter) : res (heap * option quicklistIter * list reply) :=
  match rangelen with
  | O => Ok (h, iter, [])
  | S rangelen =>
    it ← match iter with Some it => Ok it | None => Fault AssertFailed end;
    '(h, it, qe, found) ← quicklistNext h ql it;
    _ ← cassert found;
    v ← listTypeGetValue h (QUICKLIST ql) {| le_lpe := None; le_entry := qe |};
    r ← bulk_of v;
    '(h, it, rs) ← quicklist_range rangelen h ql (Some it);
    Ok (h, it, r :: rs)
  end.

(** [rangelen] is an [int], counted down to 0: a negative one would run through its
    wrap-around, and the assertion would stop it where the list ends. *)
Definition addListQuicklistRangeReply (h : heap) (ql : quicklist) (from rangelen : Z) (reverse : bool) : res (heap * list reply) :=
  iter ← quicklistGetIteratorAtIdx h ql (if reverse then AL_START_TAIL else AL_START_HEAD) from;
  '(h, iter, rs) ← quicklist_range (Z.to_nat (u32 rangelen)) h ql iter;
  h ← quicklistReleaseIterator h ql iter;
  Ok (h, addReplyArrayLen rangelen :: rs).

Fixpoint listpack_range (rangelen : nat) (lp : bytes) (p : option Z) (reverse : bool) : res (list reply) :=
  match rangelen with
  | O => Ok []
  | S rangelen =>
    _ ← cassert (match p with Some _ => true | None => false end);
    p ← the_zi p;
    v ← listTypeGetValue ∅ (LISTPACK lp) {| le_lpe := Some p; le_entry := initEntry |};
    r ← bulk_of v;
    q ← (if reverse then Listpack.lpPrev lp p else Listpack.lpNext lp p);
    rs ← listpack_range rangelen lp q reverse;
    Ok (r :: rs)
  end.

Definition addListListpackRangeReply (lp : bytes) (from rangelen : Z) (reverse : bool) : res (list reply) :=
  p ← Listpack.lpSeek lp from;
  rs ← listpack_range (Z.to_nat (u32 rangelen)) lp p reverse;
  Ok (addReplyArrayLen rangelen :: rs).

Definition addListRangeReply (h : heap) (o : lobj) (start end_ : Z) (reverse : bool) : res (heap * lobj * list reply) :=
  '(o, llen) ← listTypeLength o;
  let start := if start <? 0 then i64 (llen + start) else start in
  let end_ := if end_ <? 0 then i64 (llen + end_) else end_ in
  let start := if start <? 0 then 0 else start in
  if (end_ <? start) || (llen <=? start) then Ok (h, o, [addReplyEmptyArray]) else
  let end_ := if llen <=? end_ then llen - 1 else end_ in
  let rangelen := end_ - start + 1 in
  let from := i32 (if reverse then end_ else start) in
  match o with
  | QUICKLIST ql => '(h, rs) ← addListQuicklistRangeReply h ql from (i32 rangelen) reverse; Ok (h, o, rs)
  | LISTPACK lp => rs ← addListListpackRangeReply lp from (i32 rangelen) reverse; Ok (h, o, rs)
  end.

Definition lrangeCommand (h : heap) (key : option kobj) (start end_ : robj) : res outcome :=
  r1 ← getLongFromObjectOrReply start None;
  match r1 with
  | inl e => done h key [] [addReplyError e]
  | inr start =>
    r2 ← getLongFromObjectOrReply end_ None;
    match r2 with
    | inl e => done h key [] [addReplyError e]
    | inr end_ =>
      match key with
      | None => done h key [] [addReplyEmptyArray]
      | Some KOther => done h key [] [addReplyError wrongtypeerr]
      | Some (KList o) => '(h, o, rs) ← addListRangeReply h o start end_ false; done h (Some (KList o)) [] rs
      end
    end
  end.

(** The object that is left when elements were removed: nothing if it is empty. *)
Definition delete_if_empty (h : heap) (o : lobj) : res (heap * option kobj * list effect) :=
  '(o, n) ← listTypeLength o;
  if n =? 0 then h ← freeListObject h o; Ok (h, None, [notifyKeyspaceEvent NOTIFY_GENERIC "del"])
  else '(h, o) ← listTypeTryConversion h o LIST_CONV_SHRINKING; Ok (h, Some (KList o), []).

Definition pop_event (where_ : lend) : string := match where_ with LIST_HEAD => "lpop" | LIST_TAIL => "rpop" end.

(** Every caller passes [signal] 1 and no address for [deleted]. *)
Definition listElementsRemoved (h : heap) (where_ : lend) (o : lobj) (count : Z) : res (heap * option kobj * list effect) :=
  '(h, key, es) ← delete_if_empty h o;
  Ok (h, key, notifyKeyspaceEvent NOTIFY_LIST (pop_event where_) :: es ++ [signalModifiedKey; Dirty count]).

Definition popGenericCommand (h : heap) (key : option kobj) (where_ : lend) (args : list robj) : res outcome :=
  match args with
  | _ :: _ :: _ => done h key [] [addReplyError arityerr]
  | _ =>
    let hascount := match args with [] => false | _ => true end in
    r ← match args with a :: _ => getPositiveLongFromObjectOrReply a None | [] => Ok (inr 0) end;
    match r with
    | inl e => done h key [] [addReplyError e]
    | inr count =>
      match key with
      | None => done h key [] [if hascount then addReplyNullArray else addReplyNull]
      | Some KOther => done h key [] [addReplyError wrongtypeerr]
      | Some (KList o) =>
        if hascount && (count =? 0) then done h key [] [addReplyEmptyArray] else
        if count =? 0 then
          '(h, o, value) ← listTypePop h o where_;
          value ← match value with Some v => Ok v | None => Fault AssertFailed end;
          r ← bulk_obj value;
          '(h, key, es) ← listElementsRemoved h where_ o 1;
          done h key es [r]
        else
          '(o, llen) ← listTypeLength o;
          let rangelen := if llen <? count then llen else count in
          let rangestart := match where_ with LIST_HEAD => 0 | LIST_TAIL => - rangelen end in
          let rangeend := match where_ with LIST_HEAD => rangelen - 1 | LIST_TAIL => -1 end in
          let reverse := match where_ with LIST_HEAD => false | LIST_TAIL => true end in
          '(h, o, rs) ← addListRangeReply h o rangestart rangeend reverse;
          '(h, o) ← listTypeDelRange h o rangestart rangelen;
          '(h, key, es) ← listElementsRemoved h where_ o rangelen;
          done h key es rs
      end
    end
  end.

Definition ltrimCommand (h : heap) (key : option kobj) (start end_ : robj) : res outcome :=
  r1 ← getLongFromObjectOrReply start None;
  match r1 with
  | inl e => done h key [] [addReplyError e]
  | inr start =>
    r2 ← getLongFromObjectOrReply end_ None;
    match r2 with
    | inl e => done h key [] [addReplyError e]
    | inr end_ =>
      match key with
      | None => done h key [] [addReplyOk]
      | Some KOther => done h key [] [addReplyError wrongtypeerr]
      | Some (KList o) =>
        '(o, llen) ← listTypeLength o;
        let start := if start <? 0 then i64 (llen + start) else start in
        let end_ := if end_ <? 0 then i64 (llen + end_) else end_ in
        let start := if start <? 0 then 0 else start in
        let '(ltrim, rtrim) :=
          if (end_ <? start) || (llen <=? start) then (llen, 0)
          else let end_ := if llen <=? end_ then llen - 1 else end_ in (start, llen - end_ - 1) in
        '(h, o) ← listTypeDelRange h o 0 ltrim;
        '(h, o) ← listTypeDelRange h o (- rtrim) rtrim;
        '(h, key, es) ← delete_if_empty h o;
        done h key (notifyKeyspaceEvent NOTIFY_LIST "ltrim" :: es ++ [signalModifiedKey; Dirty (ltrim + rtrim)]) [addReplyOk]
      end
    end
  end.

(** ** LPOS *)

Definition rank_zero : string := "RANK can't be zero: use 1 to start from the first match, 2 from the second ... or use negative to start from the end of the list".

(** The options: rank, count (-1 if not given) and maxlen. *)
Fixpoint lpos_options (opts : list robj) (rank count maxlen : Z) : res (arg (Z * Z * Z)) :=
  match opts with
  | [] => Ok (inr (rank, count, maxlen))
  | [_] => Ok (inl syntaxerr)
  | opt :: v :: opts =>
    if is_word opt "RANK" then
      r ← getRangeLongFromObjectOrReply v (- LONG_MAX) LONG_MAX None;
      match r with
      | inl e => Ok (inl e)
      | inr rank => if rank =? 0 then Ok (inl (error_text rank_zero)) else lpos_options opts rank count maxlen
      end
    else if is_word opt "COUNT" then
      r ← getPositiveLongFromObjectOrReply v (Some "COUNT can't be negative");
      match r with inl e => Ok (inl e) | inr count => lpos_options opts rank count maxlen end
    else if is_word opt "MAXLEN" then
      r ← getPositiveLongFromObjectOrReply v (Some "MAXLEN can't be negative");
      match r with inl e => Ok (inl e) | inr maxlen => lpos_options opts rank count maxlen end
    else Ok (inl syntaxerr)
  end.

(** The search: the last value of [matchindex] and the positions replied. *)
Fixpoint lpos_loop (fuel : nat) (h : heap) (o : lobj) (li : listTypeIterator) (ele : robj) (direction : lend) (llen rank count maxlen index matches : Z)
  : res (heap * listTypeIterator * Z * list reply) :=
  match fuel with
  | O => Fault OutOfFuel
  | S fuel =>
    '(h, li, ent, found) ← listTypeNext h o li;
    if (found : bool) && ((maxlen =? 0) || (index <? maxlen)) then
      eq ← listTypeEqual h o ent ele;
      let matches := if eq : bool then matches + 1 else matches in
      let matchindex := match direction with LIST_TAIL => index | LIST_HEAD => llen - index - 1 end in
      if eq && (rank <=? matches) then
        if negb (count =? -1) then
          if negb (count =? 0) && (count <=? matches - rank + 1) then Ok (h, li, matchindex, [addReplyLongLong matchindex])
          else
            '(h, li, m, rs) ← lpos_loop fuel h o li ele direction llen rank count maxlen (index + 1) matches;
            Ok (h, li, m, addReplyLongLong matchindex :: rs)
        else Ok (h, li, matchindex, [])
      else lpos_loop fuel h o li ele direction llen rank count maxlen (index + 1) matches
    else Ok (h, li, -1, [])
  end.

Definition lposCommand (h : heap) (key : option kobj) (ele : robj) (opts : list robj) : res outcome :=
  r ← lpos_options opts 1 (-1) 0;
  match r with
  | inl e => done h key [] [addReplyError e]
  | inr (rank, count, maxlen) =>
    let '(rank, direction) := if rank <? 0 then (- rank, LIST_HEAD) else (rank, LIST_TAIL) in
    match key with
    | None => done h key [] [if negb (count =? -1) then addReplyEmptyArray else addReplyNull]
    | Some KOther => done h key [] [addReplyError wrongtypeerr]
    | Some (KList o) =>
      li ← listTypeInitIterator h o (match direction with LIST_HEAD => -1 | LIST_TAIL => 0 end) direction;
      '(o, llen) ← listTypeLength o;
      '(h, li, matchindex, rs) ← lpos_loop (rounds o) h o li ele direction llen rank count maxlen 0 0;
      h ← listTypeReleaseIterator h o li;
      done h (Some (KList o)) []
        (if negb (count =? -1) then addReplyArrayLen (zlen rs) :: rs
         else if negb (matchindex =? -1) then [addReplyLongLong matchindex] else [addReplyNull])
    end
  end.

(** ** LREM *)

Fixpoint lrem_loop (fuel : nat) (h : heap) (subject : lobj) (li : listTypeIterator) (obj : robj) (toremove removed : Z) : res (heap * lobj * listTypeIterator * Z) :=
  match fuel with
  | O => Fault OutOfFuel
  | S fuel =>
    '(h, li, ent, found) ← listTypeNext h subject li;
    if found : bool then
      eq ← listTypeEqual h subject ent obj;
      if eq : bool then
        '(h, subject, li) ← listTypeDelete h subject li ent;
        let removed := removed + 1 in
        if negb (toremove =? 0) && (removed =? toremove) then Ok (h, subject, li, removed)
        else lrem_loop fuel h subject li obj toremove removed
      else lrem_loop fuel h subject li obj toremove removed
    else Ok (h, subject, li, removed)
  end.

Definition lremCommand (h : heap) (key : option kobj) (toremove obj : robj) : res outcome :=
  r ← getRangeLongFromObjectOrReply toremove (- LONG_MAX) LONG_MAX None;
  match r with
  | inl e => done h key [] [addReplyError e]
  | inr toremove =>
    match key with
    | None => done h key [] [addReplyLongLong 0]
    | Some KOther => done h key [] [addReplyError wrongtypeerr]
    | Some (KList subject) =>
      let '(toremove, index, direction) := if toremove <? 0 then (- toremove, -1, LIST_HEAD) else (toremove, 0, LIST_TAIL) in
      li ← listTypeInitIterator h subject index direction;
      '(h, subject, li, removed) ← lrem_loop (rounds subject) h subject li obj toremove 0;
      h ← listTypeReleaseIterator h subject li;
      '(h, key, es) ← (if removed =? 0 then Ok (h, Some (KList subject), [])
                       else '(h, key, es) ← delete_if_empty h subject; Ok (h, key, notifyKeyspaceEvent NOTIFY_LIST "lrem" :: es ++ [signalModifiedKey]));
      done h key (replicate (Z.to_nat removed) (Dirty 1) ++ es) [addReplyLongLong removed]
    end
  end.

(** ** Several keys: LMOVE and RPOPLPUSH *)

Record db_outcome : Type := { d_heap : heap; d_db : db; d_effects : list (bytes * effect); d_reply : list reply }.

Definition db_done (h : heap) (d : db) (es : list (bytes * effect)) (rs : list reply) : res db_outcome :=
  Ok {| d_heap := h; d_db := d; d_effects := es; d_reply := rs |}.

Definition on_key (k : bytes) (es : list effect) : list (bytes * effect) := (fun e => (k, e)) <$> es.

(** A command on one key. *)
Definition with_key (h : heap) (d : db) (k : bytes) (cmd : heap -> option kobj -> res outcome) : res db_outcome :=
  o ← cmd h (d !! k);
  db_done (o_heap o) (partial_alter (fun _ => o_key o) k d) (on_key k (o_effects o)) (o_reply o).

Definition lmoveHandlePush (h : heap) (dstobj : option lobj) (value : robj) (where_ : lend) : res (heap * lobj * list effect * list reply) :=
  dstobj ← match dstobj with Some o => Ok o | None => createListListpackObject end;
  '(h, dstobj) ← listTypeTryConversionAppend h dstobj [value];
  '(h, dstobj) ← listTypePush h dstobj value where_;
  r ← bulk_obj value;
  Ok (h, dstobj, [signalModifiedKey; notifyKeyspaceEvent NOTIFY_LIST (push_event where_)], [r]).

(** The element goes from one list to the other.  The two keys may be one: then
    the destination is the object that was popped from. *)
Definition lmove_element (h : heap) (d : db) (src dst : bytes) (sobj : lobj) (wherefrom whereto : lend) : res db_outcome :=
  '(h, sobj, value) ← listTypePop h sobj wherefrom;
  value ← match value with Some v => Ok v | None => Fault AssertFailed end;
  let d := <[src := KList sobj]> d in
  '(h, dobj, es, rs) ← lmoveHandlePush h (match d !! dst with Some (KList o) => Some o | _ => None end) value whereto;
  let d := <[dst := KList dobj]> d in
  let sobj := if bool_decide (src = dst) then dobj else sobj in
  '(h, key, es') ← listElementsRemoved h wherefrom sobj 1;
  db_done h (partial_alter (fun _ => key) src d) (on_key dst es ++ on_key src es') rs.

Definition lmoveGenericCommand (h : heap) (d : db) (src dst : bytes) (wherefrom whereto : lend) : res db_outcome :=
  match d !! src with
  | None => db_done h d [] [addReplyNull]
  | Some KOther => db_done h d [] [addReplyError wrongtypeerr]
  | Some (KList sobj) =>
    '(sobj, n) ← listTypeLength sobj;
    if n =? 0 then db_done h (<[src := KList sobj]> d) [] [addReplyNull] else
    match d !! dst with
    | Some KOther => db_done h (<[src := KList sobj]> d) [] [addReplyError wrongtypeerr]
    | _ => lmove_element h d src dst sobj wherefrom whereto
    end
  end.

Definition getListPositionFromObjectOrReply (o : robj) : arg lend :=
  if is_word o "right" then inr LIST_TAIL else if is_word o "left" then inr LIST_HEAD else inl syntaxerr.

Definition lmoveCommand (h : heap) (d : db) (src dst : bytes) (from to : robj) : res db_outcome :=
  match getListPositionFromObjectOrReply from with
  | inl e => db_done h d [] [addReplyError e]
  | inr wherefrom =>
    match getListPositionFromObjectOrReply to with
    | inl e => db_done h d [] [addReplyError e]
    | inr whereto => lmoveGenericCommand h d src dst wherefrom whereto
    end
  end.

Definition rpoplpushCommand (h : heap) (d : db) (src dst : bytes) : res db_outcome := lmoveGenericCommand h d src dst LIST_TAIL LIST_HEAD.

(** ** LMPOP *)

Definition listPopRangeAndReplyWithKey (h : heap) (o : lobj) (key : bytes) (where_ : lend) (count : Z) : res (heap * option kobj * list effect * list reply) :=
  '(o, llen) ← listTypeLength o;
  let rangelen := if llen <? count then llen else count in
  let rangestart := match where_ with LIST_HEAD => 0 | LIST_TAIL => - rangelen end in
  let rangeend := match where_ with LIST_HEAD => rangelen - 1 | LIST_TAIL => -1 end in
  let reverse := match where_ with LIST_HEAD => false | LIST_TAIL => true end in
  '(h, o, rs) ← addListRangeReply h o rangestart rangeend reverse;
  '(h, o) ← listTypeDelRange h o rangestart rangelen;
  '(h, k, es) ← listElementsRemoved h where_ o rangelen;
  Ok (h, k, es, addReplyArrayLen 2 :: addReplyBulk key :: rs).

(** The command that is replicated instead. *)
Definition pop_count_vector (where_ : lend) (key : bytes) (n : Z) : res (list bytes) :=
  s ← getDecodedObject (createStringObjectFromLongLong n);
  Ok [bytes_of_string (match where_ with LIST_HEAD => "LPOP" | LIST_TAIL => "RPOP" end); key; s].

Fixpoint mpopGenericCommand (h : heap) (d : db) (keys : list bytes) (where_ : lend) (count : Z) : res db_outcome :=
  match keys with
  | [] => db_done h d [] [addReplyNullArray]
  | key :: keys =>
    match d !! key with
    | None => mpopGenericCommand h d keys where_ count
    | Some KOther => db_done h d [] [addReplyError wrongtypeerr]
    | Some (KList o) =>
      '(o, llen) ← listTypeLength o;
      if llen =? 0 then mpopGenericCommand h (<[key := KList o]> d) keys where_ count else
      '(h, k, es, rs) ← listPopRangeAndReplyWithKey h o key where_ count;
      argv ← pop_count_vector where_ key (if llen <? count then llen else count);
      db_done h (partial_alter (fun _ => k) key d) (on_key key (es ++ [rewriteClientCommandVector argv])) rs
    end
  end.

Fixpoint lmpop_options (opts : list bytes) (count : Z) : res (arg Z) :=
  match opts with
  | [] => Ok (inr count)
  | opt :: opts =>
    match opts with
    | v :: opts =>
      if (count =? -1) && is_word (SdsObj opt) "COUNT" then
        r ← getRangeLongFromObjectOrReply (SdsObj v) 1 LONG_MAX (Some "count should be greater than 0");
        match r with inl e => Ok (inl e) | inr count => lmpop_options opts count end
      else Ok (inl syntaxerr)
    | [] => Ok (inl syntaxerr)
    end
  end.

(** The arguments after the name of the command.  The position of the direction is
    computed in a [long]; the code reads the argument there when it is less than
    the number of arguments. *)
Definition lmpopGenericCommand (h : heap) (d : db) (args : list bytes) : res db_outcome :=
  match args with
  | [] => db_done h d [] [addReplyError arityerr]
  | n :: rest =>
    r ← getRangeLongFromObjectOrReply (SdsObj n) 1 LONG_MAX (Some "numkeys should be greater than 0");
    match r with
    | inl e => db_done h d [] [addReplyError e]
    | inr numkeys =>
      let where_idx := i64 (1 + numkeys + 1) in
      if zlen args + 1 <=? where_idx then db_done h d [] [addReplyError syntaxerr] else
      _ ← (if where_idx <? 0 then Fault OutOfBounds else Ok ());
      where_arg ← match rest !! Z.to_nat (where_idx - 2) with Some s => Ok s | None => Fault OutOfBounds end;
      match getListPositionFromObjectOrReply (SdsObj where_arg) with
      | inl e => db_done h d [] [addReplyError e]
      | inr where_ =>
        r ← lmpop_options (drop (Z.to_nat (where_idx - 1)) rest) (-1);
        match r with
        | inl e => db_done h d [] [addReplyError e]
        | inr count => mpopGenericCommand h d (take (Z.to_nat numkeys) rest) where_ (if count =? -1 then 1 else count)
        end
      end
    end
  end.

End commands.
End TListCmd.
