(* ===== verification/TListTheory.v ===== *)
(** * Lists: the list type over both encodings

    [lrep F h o vs]: the object [o] holds the values [vs], with the rest [F] of
    the heap untouched; [lcursor] and [lat] give the meaning of an iterator and of
    an entry for both encodings, so that the commands are verified once. *)

From S2P Require Import Prelude Util ListpackEnc Listpack ListpackTheory ListpackSpec Lzf LzfSpec Dll Quicklist QuicklistNode QuicklistLink QuicklistValues QuicklistOps QuicklistEdit QuicklistIter QuicklistRange QuicklistMerge QuicklistInsert QuicklistReplace QuicklistScan Rio Rdb RdbSpec TList.
From stdpp Require Import list gmap fin_maps.
#[local] Open Scope Z_scope.

Module TListTheory.
Import Dll Quicklist QuicklistNode QuicklistLink QuicklistValues QuicklistOps QuicklistEdit QuicklistIter QuicklistRange QuicklistMerge QuicklistInsert QuicklistReplace QuicklistScan TList.

#[local] Abbreviation nodes := (list (loc * qnode)).
#[local] Abbreviation repr := ListpackTheory.repr.
#[local] Abbreviation lptotal := ListpackTheory.total.
#[local] Abbreviation text := LP.text.
#[local] Abbreviation lppos := ListpackTheory.pos.

(** ** Strings *)

Definition otext (o : robj) : bytes := match o with SdsObj s => s | IntObj v => Util.decimal v end.
Definition ovalid (o : robj) : Prop := match o with SdsObj s => wf_bytes s | IntObj v => is_i64 v end.

Lemma otext_wf o : ovalid o -> wf_bytes (otext o).
Proof. destruct o; [|done]. by apply RdbSpec.decimal_wf. Qed.

(** ** Listpacks *)

(** Positions in a listpack without its encoding. *)
Lemma lp_next lp le e re : repr lp (le ++ e :: re) -> Listpack.lpNext lp (lppos le) = Ok (match re with [] => None | _ => Some (lppos (le ++ [e])) end).
Proof. intros (num & slack & -> & _ & Hok & Ht). by apply ListpackTheory.next_spec. Qed.

Lemma lp_prev lp le e re : repr lp (le ++ e :: re) -> Listpack.lpPrev lp (lppos le) = Ok (ListpackTheory.lastpos le).
Proof.
  intros (num & slack & -> & _ & Hok & Ht). destruct le as [|e' le _] using rev_ind; [done|]. rewrite ListpackTheory.lastpos_snoc, <- app_assoc in *. by apply ListpackTheory.prev_spec.
Qed.

Lemma lp_last lp es : repr lp es -> Listpack.lpLast lp = Ok (ListpackTheory.lastpos es).
Proof.
  intros (num & slack & -> & _ & Hok & Ht). destruct es as [|e es _] using rev_ind; [by apply ListpackTheory.last_nil|]. rewrite ListpackTheory.lastpos_snoc. by apply ListpackTheory.last_spec.
Qed.

Lemma lp_first lp es : repr lp es -> Listpack.lpFirst lp = Ok (match es with [] => None | _ => Some (lppos []) end).
Proof. intros (num & slack & -> & _ & Hok & Ht). by apply ListpackTheory.first_spec. Qed.

(** ** Limits *)

(** The range of the option, without its least value, whose negation overflows. *)
Definition fill_int (fill : Z) : Prop := INT32_MIN < fill <= INT32_MAX.

Lemma neg_limit_any fill : INT32_MIN < fill < 0 -> exists l, quicklistNodeNegFillLimit fill = Ok l /\ 4096 <= l <= 65536.
Proof.
  intros Hf. destruct (decide (-5 <= fill)); [apply neg_limit; [split; lia|lia]|]. exists 65536. split; [|lia]. unfold quicklistNodeNegFillLimit, INT32_MIN in *. rewrite (proj2 (Z.ltb_lt fill 0)) by lia. cbn [cassert mbind res_bind].
  change (zlen optimization_level) with 5. rewrite wrapu_small by lia. by rewrite (proj2 (Z.leb_le 5 _)) by lia.
Qed.

Lemma exceeds_any fill size cnt : fill_int fill -> exists b, quicklistNodeExceedsLimit fill size cnt = Ok b /\ (b = false -> size <= 65536).
Proof.
  intros Hf. unfold fill_int, INT32_MIN, INT32_MAX in Hf. unfold quicklistNodeExceedsLimit, quicklistNodeLimit. destruct (Z.leb_spec 0 fill) as [Hp|Hn]; cbn [mbind res_bind].
  - rewrite Z.eqb_refl. cbn [negb]. rewrite (proj2 (Z.eqb_neq _ UINT_MAX)) by (change UINT_MAX with (2 ^ 32 - 1); destruct (fill =? 0); lia). cbn [negb].
    unfold sizeMeetsSafetyLimit, SIZE_SAFETY_LIMIT. destruct (Z.leb_spec size 8192); cbn [negb]; (eexists; split; [done|]); [intros _; lia|done].
  - destruct (neg_limit_any fill ltac:(unfold INT32_MIN; lia)) as (l & -> & Hl). cbn [mbind res_bind]. rewrite (proj2 (Z.eqb_neq l SIZE_MAX)) by (change SIZE_MAX with (2 ^ 64 - 1); lia). cbn [negb]. eexists. split; [done|]. intros E%Z.ltb_ge. lia.
Qed.

Lemma node_limit_any fill : fill_int fill -> exists l, quicklistNodeLimit fill = Ok l.
Proof.
  intros Hf. unfold quicklistNodeLimit. destruct (Z.leb_spec 0 fill); [by eexists|]. destruct (neg_limit_any fill) as (l & -> & _); [unfold fill_int in Hf; lia|]. by eexists.
Qed.

Section theory.
Context `{Allocator} `{Environment} `{ListConfig} (Hhtab : LzfSpec.valid_htab htab) (Hcfg : fill_int list_max_listpack_size).

Lemma long_text_spec v : is_i64 v -> long_text v = Ok (Util.decimal v).
Proof.
  intros Hv. unfold long_text. pose proof (Util.decimal_length v Hv). destruct (Util.ll2string_fits (uninit 32) 32 v Hv) as (suf & -> & _).
  { split; [lia|]. unfold uninit, zlen. rewrite length_fmap, length_seq. lia. }
  cbn [mbind res_bind]. apply (rdn_app [] (Util.decimal v) (0 :: suf)).
Qed.

Lemma decoded_spec o : ovalid o -> getDecodedObject o = Ok (otext o).
Proof. destruct o; [|done]. apply long_text_spec. Qed.

(** ** The values of an object *)

Definition lrep (F h : heap) (o : lobj) (vs : list bytes) : Prop :=
  match o with
  | LISTPACK lp => h = F /\ exists es, repr lp es /\ vs = text <$> es /\ zlen es < 2 ^ 16 /\ weight vs < 2 ^ 31
  | QUICKLIST ql => exists ns vss, qrep None F h ql ns vss /\ concat vss = vs
  end.

(** A listpack has room for [k] more elements. *)
Definition roomy (o : lobj) (vs : list bytes) (k : Z) : Prop := match o with LISTPACK _ => zlen vs + k < 2 ^ 16 | QUICKLIST _ => True end.

Lemma lrep_weight F h o vs : lrep F h o vs -> weight vs < 2 ^ 31.
Proof. destruct o; [by intros (_ & es & _ & _ & _ & Hw)|]. intros (ns & vss & Hq & <-). apply Hq. Qed.

Lemma value_wf e : LP.elem_ok e -> wf_bytes (text e).
Proof. destruct e as [z|s]; [apply RdbSpec.decimal_wf|by intros []]. Qed.

Lemma packed_wf es : Forall LP.elem_ok es -> Forall wf_bytes (text <$> es).
Proof. intros Hok. apply Forall_fmap. eapply Forall_impl; [exact Hok|]. apply value_wf. Qed.

Lemma keeps_wf d vs : keeps d vs -> Forall wf_bytes vs.
Proof.
  intros (r & Hr & Hc). destruct (container d); [subst vs; constructor; [apply Hr|constructor]|]. destruct Hc as (es & [Hrep _] & -> & _). apply packed_wf. by eapply repr_ok.
Qed.

Lemma rep_wf ns vss : rep ns vss -> Forall wf_bytes (concat vss).
Proof. induction 1 as [|c vs ns' vss' (Hk & _) _ IH]; [constructor|]. cbn. apply Forall_app. split; [by eapply keeps_wf|done]. Qed.

Lemma lrep_wf F h o vs : lrep F h o vs -> Forall wf_bytes vs.
Proof. destruct o as [lp|ql]; [intros (_ & es & Hr & -> & _); apply packed_wf; by eapply repr_ok|]. intros (ns & vss & Hq & <-). by eapply rep_wf, q_rep. Qed.

Lemma lrep_new F : yields createListListpackObject (fun o => lrep F F o []).
Proof. unfold createListListpackObject. destruct (ListpackTheory.new_spec 0) as (lp & -> & Hr). apply yields_ok. split; [done|]. by exists []. Qed.

Lemma free_spec F h o vs : lrep F h o vs -> freeListObject h o = Ok F.
Proof.
  destruct o as [lp|ql]; [by intros [-> _]|]. intros (ns & vss & Hq & _). cbn [freeListObject]. destruct (release_spec Hhtab None F h ql ns vss Hq) as ([h' ql'] & -> & Eh & _). cbn in *. by subst.
Qed.

Lemma llength_spec F h o vs : lrep F h o vs -> exists o', listTypeLength o = Ok (o', zlen vs) /\ lrep F h o' vs /\ (forall k, roomy o vs k -> roomy o' vs k).
Proof.
  destruct o as [lp|ql].
  - intros (-> & es & Hr & -> & Hn & Hw). cbn [listTypeLength]. destruct (ListpackTheory.length_spec lp es Hr) as (lp' & -> & Hr' & _). cbn [mbind res_bind]. exists (LISTPACK lp'). rewrite zlen_fmap. split; [done|]. split; [|done]. split; [done|]. by exists es.
  - intros (ns & vss & Hq & <-). exists (QUICKLIST ql). cbn [listTypeLength]. unfold quicklistCount. rewrite (q_total _ _ _ _ _ _ Hq). split; [done|]. split; [|done]. by exists ns, vss.
Qed.

(** ** Conversions *)

Lemma add_bytes_bound argv : forall n, 0 <= n -> n + weight (otext <$> argv) < 2 ^ 63 -> 0 <= add_bytes argv n < 2 ^ 63.
Proof.
  induction argv as [|o argv IH]; intros n Hn Hw; cbn [add_bytes]; [change (weight (otext <$> [])) with 0 in Hw; lia|]. cbn [fmap list_fmap] in Hw. rewrite weight_cons in Hw. pose proof (weight_nonneg (otext <$> argv)). destruct o as [v|s]; cbn [otext] in Hw.
  - apply IH; [done|]. pose proof (zlen_nonneg (Util.decimal v)). lia.
  - pose proof (zlen_nonneg s). rewrite wrapu_small by lia. apply IH; lia.
Qed.

(** A listpack that stays one is far from the limits of its count. *)
Lemma convert_listpack_spec F lp vs argv : lrep F F (LISTPACK lp) vs -> weight (otext <$> argv) < 2 ^ 31 ->
  yields (listTypeTryConvertListpack F lp argv) (fun r => lrep F r.1 r.2 vs /\ roomy r.2 vs (2 ^ 15)).
Proof.
  intros (_ & es & Hr & -> & Hn & Hw) Hargs. unfold listTypeTryConvertListpack. rewrite (lpBytes_spec lp es Hr). cbn [mbind res_bind]. destruct (ListpackTheory.length_spec lp es Hr) as (lp1 & -> & Hr1 & _). cbn [mbind res_bind].
  destruct (exceeds_any list_max_listpack_size (u64 (lptotal es + add_bytes argv 0)) (u32 (zlen es + zlen argv)) Hcfg) as (ex & -> & Hex). cbn [mbind res_bind]. destruct ex.
  - destruct (ListpackTheory.length_spec lp1 es Hr1) as (lp2 & -> & Hr2 & _). cbn [mbind res_bind]. pose proof (qrep_new F list_max_listpack_size list_compress_depth) as Hq. pose proof (zlen_nonneg es). destruct (Z.eqb_spec (zlen es) 0) as [E|Hne]; cbn [negb].
    + apply zlen_nil_inv in E as ->. cbn [mbind res_bind]. apply yields_ok. split; [|done]. by exists [], [].
    + eapply yields_bind; [apply (appendListpack_spec Hhtab F F _ [] [] lp2 es Hq Hr2 ltac:(lia) Hw)|]. intros [h' ql'] (ns & vss & Hq' & Ecat & _). apply yields_ok. split; [|done]. by exists ns, vss.
  - apply yields_ok. cbn [fst snd roomy]. split; [split; [done|]; by exists es|]. specialize (Hex eq_refl). pose proof (repr_ok _ _ Hr) as Hok. pose proof (total_weight es Hok). pose proof (ListpackTheory.zlen_body_ge es Hok).
    pose proof (add_bytes_bound argv 0 ltac:(lia) ltac:(lia)) as Hab. rewrite ListpackTheory.total_eq in *. pose proof (zlen_nonneg es). rewrite wrapu_small in Hex by lia. rewrite zlen_fmap. lia.
Qed.

Lemma convert_append_spec F h o vs argv : lrep F h o vs -> weight (otext <$> argv) < 2 ^ 31 ->
  yields (listTypeTryConversionAppend h o argv) (fun r => lrep F r.1 r.2 vs /\ roomy r.2 vs (2 ^ 15)).
Proof.
  intros Hl Hw. unfold listTypeTryConversionAppend, listTypeTryConversionRaw. destruct o as [lp|ql]; [|by apply yields_ok]. pose proof Hl as [-> _]. by apply convert_listpack_spec.
Qed.

Lemma convert_quicklist_spec F h ql vs shrinking : lrep F h (QUICKLIST ql) vs -> yields (listTypeTryConvertQuicklist h ql shrinking) (fun r => lrep F r.1 r.2 vs).
Proof.
  intros Hl. pose proof Hl as (ns & vss & Hq & <-). unfold listTypeTryConvertQuicklist. pose proof (q_ends _ _ _ _ _ _ Hq) as He. rewrite (ends_len _ _ He). destruct (Z.eqb_spec (zlen ns) 1) as [E1|]; cbn [negb]; [|by apply yields_ok].
  destruct ns as [|[x d] [|? ?]]; [done| |rewrite !zlen_cons in E1; match type of E1 with context [zlen ?l] => pose proof (zlen_nonneg l) end; lia]. rewrite (ends_first _ _ He). cbn [first_of head fmap option_fmap option_map fst the mbind res_bind].
  pose proof (lay_node_at _ [] x d [] _ (q_lay _ _ _ _ _ _ Hq)) as Hx. rewrite Hx. cbn [mbind res_bind]. destruct (is_plain d) eqn:Hp; [by apply yields_ok|].
  destruct (node_limit_any _ Hcfg) as ([szl cntl] & ->). cbn [mbind res_bind]. destruct (_ || _); [by apply yields_ok|].
  destruct (steal_spec Hhtab F h ql x d vss Hq Hp) as (lp & es & Hlp & Hr & Ecat & Hn & h1 & -> & Hrel). unfold as_bytes. rewrite Hlp. cbn [mbind res_bind].
  eapply yields_bind; [exact Hrel|]. intros [h2 ql2] Eh. cbn [fst] in Eh. subst h2. apply yields_ok. cbn [fst snd lrep]. split; [done|]. exists es. split; [done|]. split; [done|]. split; [lia|]. apply Hq.
Qed.

Lemma convert_shrink_spec F h o vs : lrep F h o vs -> yields (listTypeTryConversion h o LIST_CONV_SHRINKING) (fun r => lrep F r.1 r.2 vs).
Proof.
  intros Hl. unfold listTypeTryConversion, listTypeTryConversionRaw. destruct o as [lp|ql]; [by apply yields_ok|]. by apply convert_quicklist_spec.
Qed.

(** ** Adding and taking at the ends *)

Definition lpushed (where_ : lend) (v : bytes) (vs : list bytes) : list bytes := match where_ with LIST_HEAD => v :: vs | LIST_TAIL => vs ++ [v] end.

Lemma push_lp lp es value (where_ : lend) : repr lp es -> ovalid value -> weight (otext value :: (text <$> es)) < 2 ^ 31 ->
  exists lp' e, match value, where_ with
    | IntObj v, LIST_HEAD => Listpack.lpPrependInteger lp v
    | IntObj v, LIST_TAIL => Listpack.lpAppendInteger lp v
    | SdsObj s, LIST_HEAD => Listpack.lpPrepend lp s (zlen s)
    | SdsObj s, LIST_TAIL => Listpack.lpAppend lp s (zlen s)
    end = Ok (Some lp') /\ text e = otext value /\ repr lp' (match where_ with LIST_HEAD => e :: es | LIST_TAIL => es ++ [e] end).
Proof.
  intros Hr Hv Hw. pose proof Hw as Hw'. rewrite weight_cons in Hw'. pose proof (weight_nonneg (text <$> es)). assert (weight ((text <$> es) ++ [otext value]) < 2 ^ 31) as Hwt by (rewrite weight_app, weight_cons, weight_nil; lia).
  destruct value as [v|s]; cbn [otext ovalid] in *.
  - pose proof (repr_ok _ _ Hr) as Hok. assert (LP.elem_ok (LP.EInt v)) as He by done. destruct where_.
    + pose proof (ListpackTheory.prepend_int_spec lp es v Hr Hv) as Hp. rewrite (proj2 (Z.ltb_lt _ _)) in Hp; [|pose proof (total_weight (LP.EInt v :: es) ltac:(by constructor)) as Ht; cbn [fmap list_fmap LP.text] in Ht; lia]. destruct Hp as (lp' & -> & Hp). by exists lp', (LP.EInt v).
    + pose proof (ListpackTheory.append_int_spec lp es v Hr Hv) as Hp. rewrite (proj2 (Z.ltb_lt _ _)) in Hp; [|pose proof (total_weight (es ++ [LP.EInt v]) ltac:(apply Forall_app; split; [done|by constructor])) as Ht; rewrite fmap_app in Ht; cbn [fmap list_fmap LP.text] in Ht; lia]. destruct Hp as (lp' & -> & Hp). by exists lp', (LP.EInt v).
  - destruct where_.
    + destruct (prepend_fits lp es s Hr Hv) as (lp' & -> & Hp); [unfold fits; cbn [fmap list_fmap]; by rewrite LP.text_elem_of|]. exists lp', (LP.elem_of s). by rewrite LP.text_elem_of.
    + destruct (append_fits lp es s Hr Hv) as (lp' & -> & Hp); [unfold fits; rewrite fmap_app; cbn [fmap list_fmap]; by rewrite LP.text_elem_of|]. exists lp', (LP.elem_of s). by rewrite LP.text_elem_of.
Qed.

Lemma lpush_spec F h o vs value where_ : lrep F h o vs -> ovalid value -> weight (otext value :: vs) < 2 ^ 31 -> roomy o vs 1 ->
  yields (listTypePush h o value where_) (fun r => lrep F r.1 r.2 (lpushed where_ (otext value) vs) /\ lenc r.2 = lenc o).
Proof.
  intros Hl Hv Hw Hroom. destruct o as [lp|ql].
  - destruct Hl as (-> & es & Hr & -> & Hn & _). cbn [listTypePush]. destruct (push_lp lp es value where_ Hr Hv Hw) as (lp' & e & -> & Ee & Hr'). cbn [mbind res_bind lp_ok]. apply yields_ok. cbn [fst snd lrep]. split; [|done]. split; [done|]. eexists. split; [exact Hr'|].
    cbn [roomy] in Hroom. rewrite zlen_fmap in Hroom. rewrite weight_cons in Hw. destruct where_; cbn [lpushed]; (split; [rewrite ?fmap_app; cbn; by rewrite Ee|]); rewrite ?zlen_app, ?zlen_cons, ?weight_app, ?weight_cons, ?weight_nil, ?zlen_nil; lia.
  - destruct Hl as (ns & vss & Hq & <-). cbn [listTypePush]. rewrite (decoded_spec _ Hv). cbn [mbind res_bind]. eapply yields_bind; [by apply (push_spec Hhtab F h ql ns vss (otext value) (quicklist_end where_) Hq (otext_wf _ Hv))|].
    intros [h' ql'] (ns' & vss' & Hq' & Ecat & _). apply yields_ok. split; [|done]. exists ns', vss'. split; [done|]. rewrite Ecat. by destruct where_.
Qed.

Lemma lp_get_buf lp (le : list LP.elem) e re buf : repr lp (le ++ e :: re) -> LP.LP_INTBUF_SIZE <= zlen buf ->
  exists v, LP.lpGet lp (lppos le) (Some buf) = Ok v /\ match v with LP.LpPtr q n => rdn lp q n | LP.LpIntbuf b n => rdn b 0 n | LP.LpNull _ => Fault OutOfBounds end = Ok (text e).
Proof.
  intros (num & slack & -> & Hn & Hok & Ht) Hb. assert (LP.elem_ok e) as He by (apply Forall_app in Hok as [_ Hok]; by inversion Hok).
  rewrite ListpackTheory.lpenc_cursor, <- (ListpackTheory.zlen_before (lptotal (le ++ e :: re)) num le). unfold LP.lpGet, LP.entry. rewrite <- app_assoc. destruct e as [z|s].
  - rewrite LP.get_int_spec by done. unfold LP.LP_INTBUF_SIZE in *. pose proof (Util.decimal_length z He). destruct (Util.ll2string_fits buf 21 z He ltac:(lia)) as (suf & -> & _). cbn [mbind res_bind fst snd]. eexists. split; [done|]. apply (rdn_app [] (Util.decimal z) (0 :: suf)).
  - edestruct (LP.get_str_spec s) as (hh & es & Hd & -> & _); [done|]. cbn [mbind res_bind fst]. eexists. split; [done|]. cbn [LP.text]. rewrite Hd, <- app_assoc, (app_assoc (ListpackTheory.before _ _ _)). apply rdn_app.
Qed.

Lemma delete_lp F lp le e re newp vs : repr lp (le ++ e :: re) -> vs = text <$> (le ++ e :: re) -> zlen (le ++ e :: re) < 2 ^ 16 -> weight vs < 2 ^ 31 ->
  exists lp', Listpack.lpDelete lp (lppos le) newp = Ok (Some (lp', if newp then match re with [] => None | _ => Some (lppos le) end else None)) /\ repr lp' (le ++ re) /\ lrep F F (LISTPACK lp') (text <$> (le ++ re)).
Proof.
  intros Hr -> Hn Hw. destruct (ListpackTheory.delete_spec lp le e re newp Hr) as (lp' & -> & Hr'). exists lp'. split; [done|]. split; [done|]. split; [done|]. exists (le ++ re). split; [done|]. split; [done|].
  rewrite fmap_app in *. cbn [fmap list_fmap] in Hw. rewrite weight_app, weight_cons in Hw. rewrite zlen_app, zlen_cons in Hn. rewrite zlen_app, weight_app. pose proof (zlen_nonneg (text e)). lia.
Qed.

(** What is popped and what is left. *)
Definition lpopped (where_ : lend) (vs : list bytes) : option (bytes * list bytes) :=
  match where_ with
  | LIST_HEAD => match vs with [] => None | v :: vs => Some (v, vs) end
  | LIST_TAIL => match last vs with None => None | Some v => Some (v, removelast vs) end
  end.

Lemma pop_lp F lp le e re vs : repr lp (le ++ e :: re) -> vs = text <$> (le ++ e :: re) -> zlen (le ++ e :: re) < 2 ^ 16 -> weight vs < 2 ^ 31 ->
  yields (vstr ← LP.lpGet lp (lppos le) (Some (uninit LP.LP_INTBUF_SIZE));
      s ← match vstr with LP.LpPtr q n => rdn lp q n | LP.LpIntbuf buf n => rdn buf 0 n | LP.LpNull _ => Fault OutOfBounds end;
      r ← Listpack.lpDelete lp (lppos le) false; lp ← lp_ok (option_map fst r); Ok (F, LISTPACK lp, Some (SdsObj s))) (fun r => lrep F r.1.1 r.1.2 (text <$> (le ++ re)) /\ r.2 = Some (SdsObj (text e))).
Proof.
  intros Hr Hvs Hn Hw. destruct (lp_get_buf lp le e re (uninit LP.LP_INTBUF_SIZE) Hr) as (v & -> & Hv). { unfold uninit, zlen. rewrite length_fmap, length_seq. unfold LP.LP_INTBUF_SIZE. lia. }
  cbn [mbind res_bind]. rewrite Hv. cbn [mbind res_bind]. destruct (delete_lp F lp le e re false vs Hr Hvs Hn Hw) as (lp' & -> & _ & Hl). cbn [mbind res_bind option_map fst lp_ok]. by apply yields_ok.
Qed.

Lemma lpop_spec F h o vs where_ : lrep F h o vs ->
  yields (listTypePop h o where_) (fun r => match lpopped where_ vs with
    | None => r.2 = None /\ lrep F r.1.1 r.1.2 vs
    | Some (v, vs') => exists value, r.2 = Some value /\ ovalid value /\ otext value = v /\ lrep F r.1.1 r.1.2 vs' end).
Proof.
  destruct o as [lp|ql].
  - intros (-> & es & Hr & -> & Hn & Hw). cbn [listTypePop]. assert (forall e, LP.elem_ok e -> ovalid (SdsObj (text e))) as Hwf by apply value_wf. pose proof (repr_ok _ _ Hr) as Hok. destruct where_; cbn [lpopped].
    + rewrite (lp_first lp es Hr). cbn [mbind res_bind]. destruct es as [|e re]; [apply yields_ok; split; [done|]; split; [done|]; by exists []|]. cbn [fmap list_fmap].
      eapply yields_mono; [by apply (pop_lp F lp [] e re _ Hr eq_refl)|]. intros [[h' o'] r] [Hl ->]. eexists. split; [done|]. inversion Hok; subst. split; [by apply Hwf|]. by split.
    + rewrite (lp_last lp es Hr). cbn [mbind res_bind]. destruct es as [|e le _] using rev_ind; [apply yields_ok; split; [done|]; split; [done|]; by exists []|]. rewrite ListpackTheory.lastpos_snoc, fmap_app. cbn [fmap list_fmap]. rewrite last_snoc, removelast_last.
      eapply yields_mono; [by apply (pop_lp F lp le e [] _ Hr eq_refl)|]. rewrite app_nil_r. intros [[h' o'] r] [Hl ->]. eexists. split; [done|]. apply Forall_app in Hok as [_ Hok]. inversion Hok; subst. split; [by apply Hwf|]. by split.
  - intros (ns & vss & Hq & <-). cbn [listTypePop]. eapply yields_bind; [by apply (popCustom_spec Hhtab listPopSaver F h ql ns vss (quicklist_end where_))|]. intros [[h' ql'] r] (ns' & vss' & Hq' & _ & Hr). cbn [fst snd] in *. apply yields_ok. cbn [fst snd].
    pose proof (rep_wf _ _ (q_rep _ _ _ _ _ _ Hq)) as Hwf. destruct r as [r|].
    + destruct Hr as (v & Hg & Ev). assert (wf_bytes v) as Hv by (rewrite Ev in Hwf; destruct where_; cbn [quicklist_end] in Hwf; [by inversion Hwf|apply Forall_app in Hwf as [_ Hwf]; by inversion Hwf]).
      assert (exists value, match r with inl value => Some value | inr vlong => Some (createStringObjectFromLongLong vlong) end = Some value /\ ovalid value /\ otext value = v) as (value & E & Hval & Et).
      { destruct Hg as [ -> | (z & -> & Hz & ->) ]; [by exists (SdsObj v)|by exists (IntObj z)]. }
      assert (lpopped where_ (concat vss) = Some (v, concat vss')) as -> by (rewrite Ev; destruct where_; cbn; [done|]; by rewrite last_snoc, removelast_last). exists value. split; [done|]. split; [done|]. split; [done|]. by exists ns', vss'.
    + destruct Hr as [Ev Ev']. assert (lpopped where_ (concat vss) = None) as -> by (rewrite Ev; by destruct where_). split; [done|]. exists ns', vss'. split; [done|]. congruence.
Qed.

End theory.
End TListTheory.
