(* ===== verification/TListIter.v ===== *)
(** * Lists: iterating over both encodings

    [lcursor F h o vs li before after]: the iterator [li] of the object stands
    between the values [before] and [after]; [lat ... L v R]: its entry is the
    value [v] between [L] and [R].  The functions of the list type over an
    iterator in these terms. *)

From S2P Require Import Prelude Util ListpackEnc Listpack ListpackTheory ListpackSpec Lzf LzfSpec Dll Quicklist QuicklistNode QuicklistLink QuicklistValues QuicklistOps QuicklistEdit QuicklistIter QuicklistRange QuicklistMerge QuicklistInsert QuicklistReplace QuicklistScan Rio Rdb RdbSpec TList TListTheory.
From stdpp Require Import list gmap fin_maps.
#[local] Open Scope Z_scope.

Module TListIter.
Import Dll Quicklist QuicklistNode QuicklistLink QuicklistValues QuicklistOps QuicklistEdit QuicklistIter QuicklistRange QuicklistMerge QuicklistInsert QuicklistReplace QuicklistScan TList TListTheory.

#[local] Abbreviation nodes := (list (loc * qnode)).
#[local] Abbreviation repr := ListpackTheory.repr.
#[local] Abbreviation text := LP.text.
#[local] Abbreviation lppos := ListpackTheory.pos.
#[local] Abbreviation lastpos := ListpackTheory.lastpos.

Section iter.
Context `{Allocator} `{Environment} `{ListConfig} (Hhtab : LzfSpec.valid_htab htab) (Hcfg : fill_int list_max_listpack_size).

(** ** Iterators and entries *)

(** The position of the element that an iterator over a listpack visits next. *)
Definition lp_ahead (dir : lend) (le re : list LP.elem) : option Z := match dir with LIST_TAIL => match re with [] => None | _ => Some (lppos le) end | LIST_HEAD => lastpos le end.

Definition lcursor (F h : heap) (o : lobj) (vs : list bytes) (li : listTypeIterator) (before after : list bytes) : Prop :=
  li_encoding li = lenc o /\ vs = before ++ after /\
  match o with
  | LISTPACK lp => lrep F h o vs /\ exists le re, repr lp (le ++ re) /\ before = text <$> le /\ after = text <$> re /\ li_lpi li = lp_ahead (li_direction li) le re
  | QUICKLIST ql =>
    match li_iter li with
    | None => lrep F h o vs /\ (match li_direction li with LIST_TAIL => after | LIST_HEAD => before end) = []
    | Some it => direction it = iter_direction (li_direction li) /\ exists P ns vss, qrep P F h ql ns vss /\ concat vss = vs /\ cursor P ns vss it before after
    end
  end.

Definition lat (F h : heap) (o : lobj) (vs : list bytes) (li : listTypeIterator) (ent : listTypeEntry) (L : list bytes) (v : bytes) (R : list bytes) : Prop :=
  li_encoding li = lenc o /\ vs = L ++ v :: R /\
  match o with
  | LISTPACK lp => lrep F h o vs /\ exists le e re, repr lp (le ++ e :: re) /\ L = text <$> le /\ v = text e /\ R = text <$> re /\ le_lpe ent = Some (lppos le) /\
      li_lpi li = match li_direction li with LIST_TAIL => lp_ahead LIST_TAIL (le ++ [e]) re | LIST_HEAD => lastpos le end
  | QUICKLIST ql => exists it A x d B VA L0 R0 VB, li_iter li = Some it /\ direction it = iter_direction (li_direction li) /\ qrep (Some x) F h ql (A ++ (x, d) :: B) (VA ++ (L0 ++ v :: R0) :: VB) /\ length A = length VA /\
      located it (le_entry ent) x d L0 v R0 /\ L = concat VA ++ L0 /\ R = R0 ++ concat VB
  end.

(** The iterator counts from its own end. *)
Definition lown (li : listTypeIterator) : Prop := match li_iter li with Some it => own it | None => True end.

(** One step: the value [v] between [L] and [R] is the next one. *)
Definition lstep (dir : lend) (before after : list bytes) (L : list bytes) (v : bytes) (R : list bytes) : Prop :=
  match dir with LIST_TAIL => before = L /\ after = v :: R | LIST_HEAD => before = L ++ [v] /\ after = R end.

Definition lahead (dir : lend) (before after : list bytes) : list bytes := match dir with LIST_TAIL => after | LIST_HEAD => reverse before end.

(** After the step. *)
Lemma lat_cursor F h o vs li ent L v R : lat F h o vs li ent L v R ->
  lcursor F h o vs li (match li_direction li with LIST_TAIL => L ++ [v] | LIST_HEAD => L end) (match li_direction li with LIST_TAIL => R | LIST_HEAD => v :: R end).
Proof.
  intros (He & -> & Ho). split; [done|]. split; [destruct (li_direction li); [done|by rewrite <- app_assoc]|]. destruct o as [lp|ql].
  - destruct Ho as (Hl & le & e & re & Hr & -> & -> & -> & _ & Hlp). split; [done|]. rewrite Hlp. destruct (li_direction li); cbn [lp_ahead].
    + by exists le, (e :: re).
    + exists (le ++ [e]), re. rewrite <- app_assoc, fmap_app. done.
  - destruct Ho as (it & A & x & d & B & VA & L0 & R0 & VB & -> & Hdir & Hq & HA & Hloc & -> & ->). split; [done|]. exists (Some x), (A ++ (x, d) :: B), (VA ++ (L0 ++ v :: R0) :: VB). split; [done|]. split; [rewrite concat_mid; by rewrite <- !app_assoc|].
    pose proof (located_cursor _ _ A x d B VA L0 v R0 VB HA Hloc) as Hc. rewrite Hdir in Hc. destruct (li_direction li); cbn [iter_direction] in Hc; [exact Hc|]. by rewrite app_assoc in Hc.
Qed.

(** [listTypeReleaseIterator] *)
Lemma lrelease_spec F h o vs li before after : lcursor F h o vs li before after -> yields (listTypeReleaseIterator h o li) (fun h' => lrep F h' o vs).
Proof.
  intros (He & -> & Ho). destruct o as [lp|ql]; [apply yields_ok; by destruct Ho|]. cbn [listTypeReleaseIterator]. unfold quicklistReleaseIterator. destruct (li_iter li) as [it|]; [|apply yields_ok; by destruct Ho].
  destruct Ho as (_ & P & ns & vss & Hq & Ecat & Hc). assert ((current it = None /\ P = None) \/ exists A x d B, ns = A ++ (x, d) :: B /\ waits P x /\ current it = Some x) as Hcur.
  { destruct Hc as [Hcur HP|A x d B VA L R VB -> -> HA HP Hcur _ _|A x d B VA L v R VB p -> -> HA HP Hcur _ _ _ _]; [by left|right; by exists A, x, d, B|right; by exists A, x, d, B]. }
  destruct Hcur as [[-> ->]|(A & x & d & B & -> & HP & ->)]; [apply yields_ok; by exists ns, vss|].
  eapply yields_mono; [by apply (close_spec Hhtab P F h ql A x d B vss)|]. intros h' (ns' & _ & Hq'). by exists ns', vss.
Qed.

(** [listTypeNext] *)
Definition lnext_result F (o : lobj) (vs : list bytes) (dir : lend) (before after : list bytes) (h' : heap) (li' : listTypeIterator) (ent : listTypeEntry) (found : bool) (own0 : Prop) : Prop :=
  li_direction li' = dir /\
  if found then (own0 -> lown li') /\ exists L v R, lat F h' o vs li' ent L v R /\ lstep dir before after L v R
  else (lrep F h' o vs /\ listTypeReleaseIterator h' o li' = Ok h') /\ lahead dir before after = [].

Lemma lnext_spec F h o vs li before after : lcursor F h o vs li before after ->
  yields (listTypeNext h o li) (fun '(h', li', ent, found) => lnext_result F o vs (li_direction li) before after h' li' ent found (lown li)).
Proof.
  intros Hc. pose proof Hc as (He & -> & Ho). unfold listTypeNext. rewrite bool_decide_eq_true_2 by done. cbn [cassert mbind res_bind]. destruct o as [lp|ql].
  - destruct Ho as (Hl & le & re & Hr & -> & -> & Hlp). destruct (li_lpi li) as [p|] eqn:Ep; [|apply yields_ok; split; [done|]; split; [done|]; destruct (li_direction li); cbn [lp_ahead lahead] in *; [destruct le as [|e le _] using rev_ind; [done|by rewrite ListpackTheory.lastpos_snoc in Hlp]|by destruct re]].
    destruct (li_direction li) eqn:Edir; cbn [lp_ahead] in Hlp.
    + destruct le as [|e le _] using rev_ind; [done|]. rewrite ListpackTheory.lastpos_snoc in Hlp. injection Hlp as ->. rewrite <- app_assoc in Hr. cbn [app] in Hr. rewrite (lp_prev lp le e re Hr). cbn [mbind res_bind]. apply yields_ok. split; [done|]. split; [done|]. exists (text <$> le), (text e), (text <$> re).
      split; [|split; [by rewrite fmap_app|done]]. split; [done|]. split; [rewrite fmap_app; by rewrite <- app_assoc|]. split; [done|]. exists le, e, re. cbn [with_lpi li_direction]. rewrite Edir. by split_and!.
    + destruct re as [|e re]; [done|]. injection Hlp as ->. rewrite (lp_next lp le e re Hr). cbn [mbind res_bind]. apply yields_ok. split; [done|]. split; [done|]. exists (text <$> le), (text e), (text <$> re). split; [|done]. split; [done|]. split; [done|]. split; [done|]. exists le, e, re. cbn [with_lpi li_direction]. rewrite Edir. by split_and!.
  - destruct (li_iter li) as [it|] eqn:Eit; [|destruct Ho as [Hl Ho]; apply yields_ok; split; [done|]; split; [split; [done|]; cbn [listTypeReleaseIterator]; by rewrite Eit|]; destruct (li_direction li); cbn [lahead]; [by rewrite Ho|done]].
    destruct Ho as (Hdir & P & ns & vss & Hq & Ecat & Hcu). destruct (qnext_spec Hhtab P F h ql ns vss it before after Hq Hcu) as ([[[h1 it1] ent] found] & E & Hd1 & Hr). rewrite E. cbn [mbind res_bind fst snd] in *. apply yields_ok. split; [done|].
    destruct found.
    + destruct Hr as (A & x & d & B & VA & L0 & v & R0 & VB & Hq1 & -> & HA & Hloc & Hst). split; [unfold lown; rewrite Eit; intros Hown; cbn [with_iter li_iter]; eapply located_own; [exact Hq1|done|exact Hloc|]; rewrite Hd1; by eapply next_own|].
      exists (concat VA ++ L0), v, (R0 ++ concat VB). rewrite concat_mid in Ecat.
      split; [|rewrite Hdir in Hst; destruct (li_direction li); cbn [iter_direction stepped lstep] in *; destruct Hst as [-> ->]; done]. split; [done|]. split; [rewrite <- Ecat; by rewrite <- !app_assoc|].
      exists it1, A, x, d, B, VA, L0, R0, VB. split_and!; try done. by rewrite Hd1.
    + destruct Hr as (Hcur & (ns1 & Hq1) & Hend). rewrite Hdir in Hend. split; [split; [by exists ns1, vss|]|destruct (li_direction li); cbn [iter_direction lahead] in *; by rewrite Hend].
      cbn [listTypeReleaseIterator with_iter li_iter]. unfold quicklistReleaseIterator. by rewrite Hcur.
Qed.

(** ** [listTypeInitIterator] *)

(** An iterator that has nothing to visit. *)
Definition lempty (h : heap) (o : lobj) (li : listTypeIterator) : Prop := listTypeNext h o li = Ok (h, li, {| le_lpe := None; le_entry := initEntry |}, false) /\ listTypeReleaseIterator h o li = Ok h.

Definition lstart (F h : heap) (o : lobj) (vs : list bytes) (dir : lend) (L : list bytes) (v : bytes) (R : list bytes) (li : listTypeIterator) : Prop :=
  match dir with LIST_TAIL => lcursor F h o vs li L (v :: R) | LIST_HEAD => lcursor F h o vs li (L ++ [v]) R end.

Definition linit_result (F h : heap) (o : lobj) (vs : list bytes) (idx : Z) (dir : lend) (li : listTypeIterator) : Prop :=
  li_direction li = dir /\
  let j := from_front (zlen vs) idx in
  if (0 <=? j) && (j <? zlen vs) then exists L v R, vs = L ++ v :: R /\ zlen L = j /\ lstart F h o vs dir L v R li /\ (match dir with LIST_TAIL => 0 <= idx | LIST_HEAD => idx < 0 end -> lown li)
  else lempty h o li.

Lemma linit_lp F lp vs idx dir : lrep F F (LISTPACK lp) vs -> yields (listTypeInitIterator F (LISTPACK lp) idx dir) (linit_result F F (LISTPACK lp) vs idx dir).
Proof.
  intros Hl. pose proof Hl as (_ & es & Hr & -> & _). cbn [listTypeInitIterator]. rewrite (seek_repr _ _ _ Hr). cbn [mbind res_bind]. apply yields_ok. split; [done|]. cbv zeta. unfold ListpackTheory.norm_index. rewrite zlen_fmap. fold (from_front (zlen es) idx). set (j := from_front (zlen es) idx).
  destruct ((0 <=? j) && (j <? zlen es)) eqn:Ein; [|done]. apply andb_true_iff in Ein as [Hj0%Z.leb_le Hj1%Z.ltb_lt]. destruct (lookup_lt_is_Some_2 es (Z.to_nat j)) as [e Ee]; [unfold zlen in *; lia|].
  pose proof (take_drop_middle _ _ _ Ee) as Emid. set (le := take (Z.to_nat j) es) in *. set (re := drop (S (Z.to_nat j)) es) in *. assert (zlen (text <$> le) = j) as Elen by (rewrite zlen_fmap; unfold le, zlen in *; rewrite length_take; lia).
  exists (text <$> le), (text e), (text <$> re). rewrite <- Emid in Hl, Hr |- *. split; [by rewrite fmap_app|]. split; [done|]. split; [|done]. destruct dir; cbn [lstart].
  - split; [done|]. split; [rewrite fmap_app; by rewrite <- app_assoc|]. split; [done|]. exists (le ++ [e]), re. cbn [li_lpi li_direction lp_ahead]. rewrite <- app_assoc, fmap_app, ListpackTheory.lastpos_snoc. by split_and!.
  - split; [done|]. split; [by rewrite fmap_app|]. split; [done|]. by exists le, (e :: re).
Qed.

Lemma linit_spec F h o vs idx dir : lrep F h o vs -> is_i64 idx -> yields (listTypeInitIterator h o idx dir) (linit_result F h o vs idx dir).
Proof.
  intros Hl Hi. destruct o as [lp|ql]; [pose proof Hl as [-> _]; by apply linit_lp|]. pose proof Hl as (ns & vss & Hq & <-). cbn [listTypeInitIterator].
  pose proof (atIdx_spec None F h ql ns vss (iter_direction dir) idx Hq Hi) as Ha. cbv zeta in Ha. unfold linit_result. cbv zeta. destruct ((0 <=? _) && _) eqn:Ein.
  - destruct Ha as (A & x & d & B & VA & L & v & R & VB & o & -> & -> & HA & Hj & Hidx & Hsign & ->). cbn [mbind res_bind]. apply yields_ok. split; [done|]. exists (concat VA ++ L), v, (R ++ concat VB).
    assert (concat (VA ++ (L ++ v :: R) :: VB) = (concat VA ++ L) ++ v :: R ++ concat VB) as Ecat by (rewrite concat_mid; by rewrite <- !app_assoc). split; [done|]. split; [done|].
    assert (own_side (iter_direction dir) o -> own {| current := Some x; zi := None; offset := o; direction := iter_direction dir |}) as Hown.
    { intros Hs. split; [done|]. cbn [offset]. destruct (holds_at _ _ _ _ _ _ _ _ _ _ _ Hq HA) as (Hk & _). pose proof (keeps_length _ _ Hk) as Hlk. rewrite zlen_app, zlen_cons in Hlk. pose proof (zlen_nonneg L). pose proof (zlen_nonneg R). destruct Hidx as [-> | ->]; lia. }
    split; [|unfold lown; cbn [li_iter]; intros Hs; apply Hown; destruct dir; cbn [iter_direction own_side]; [apply Z.ltb_lt; rewrite Hsign; by apply Z.ltb_lt|apply Z.ltb_ge; rewrite Hsign; by apply Z.ltb_ge]].
    destruct dir; cbn [lstart iter_direction].
    + split; [done|]. split; [rewrite Ecat; by rewrite <- (app_assoc _ [v])|]. cbn [li_iter]. split; [done|]. eexists None, _, _. split; [exact Hq|]. split; [done|]. rewrite <- app_assoc. replace (L ++ v :: R) with ((L ++ [v]) ++ R) by (by rewrite <- app_assoc).
      apply (cur_enter None _ _ _ A x d B VA (L ++ [v]) R VB); try done; [by left|]. cbn [direction enters offset]. rewrite last_snoc. by exists L.
    + split; [done|]. split; [done|]. cbn [li_iter]. split; [done|]. eexists None, _, _. split; [exact Hq|]. split; [done|].
      apply (cur_enter None _ _ _ A x d B VA L (v :: R) VB); try done. by left.
  - rewrite Ha. cbn [mbind res_bind]. by apply yields_ok.
Qed.

(** ** The value and comparison *)

Lemma lget_spec F h o vs li ent L v R : lat F h o vs li ent L v R -> exists r, listTypeGetValue h o ent = Ok r /\ match r with inl s => s = v | inr z => is_i64 z /\ v = Util.decimal z end.
Proof.
  intros (_ & -> & Ho). destruct o as [lp|ql].
  - destruct Ho as (_ & le & e & re & Hr & -> & -> & -> & Hp & _). cbn [listTypeGetValue]. rewrite Hp. cbn [the_zi mbind res_bind]. destruct (get_at lp le e re Hr) as (w & -> & Hw). cbn [mbind res_bind]. destruct w as [[q n]|z]; [|by eexists]. destruct Hw as [-> _]. cbn [mbind res_bind]. by eexists.
  - destruct Ho as (it & A & x & d & B & VA & L0 & R0 & VB & _ & _ & Hq & HA & Hloc & _). pose proof (entry_bytes_spec _ _ _ _ _ _ _ _ _ _ _ _ _ _ Hq Hloc) as E. pose proof (l_reads _ _ _ _ _ _ _ Hloc) as Hrd. unfold entry_bytes in E. unfold entry_reads in Hrd. cbn [listTypeGetValue].
    destruct (e_value (le_entry ent)) as [q|]; [|eexists; split; [done|]; by destruct Hrd as (_ & ? & ->)]. rewrite (l_node _ _ _ _ _ _ _ Hloc) in *. cbn [the mbind res_bind] in *. destruct (node h x) as [dd|]; [|done]. cbn [mbind res_bind] in *. destruct (as_bytes dd) as [b|]; [|done]. cbn [mbind res_bind] in *. rewrite E. cbn [mbind res_bind]. by eexists.
Qed.

Lemma lequal_spec F h o vs li ent L v R s : lat F h o vs li ent L v R -> listTypeEqual h o ent (SdsObj s) = Ok (bool_decide (v = s)).
Proof.
  intros (_ & -> & Ho). unfold listTypeEqual. cbn [sdsEncodedObject cassert mbind res_bind]. destruct o as [lp|ql].
  - destruct Ho as (_ & le & e & re & Hr & -> & -> & -> & -> & _). cbn [the_zi mbind res_bind]. by eapply lpCompare_spec.
  - destruct Ho as (it & A & x & d & B & VA & L0 & R0 & VB & _ & _ & Hq & HA & Hloc & _). destruct (holds_at _ _ _ _ _ _ _ _ _ _ _ Hq HA) as (Hk & _). by eapply compare_spec.
Qed.

(** ** Inserting and deleting at an entry *)

Lemma cursor_concat P ns vss it before after : cursor P ns vss it before after -> concat vss = before ++ after.
Proof.
  intros [_ _|A x d B VA L R VB _ -> _ _ _ _ _|A x d B VA L v R VB p _ -> _ _ _ _ _ _ _].
  - destruct (direction it); [by rewrite app_nil_r|done].
  - rewrite concat_mid. by rewrite <- !app_assoc.
  - rewrite concat_mid. destruct (direction it); by rewrite <- !app_assoc.
Qed.


Definition linserted (where_ : lend) (L : list bytes) (v w : bytes) (R : list bytes) : list bytes := match where_ with LIST_TAIL => L ++ v :: w :: R | LIST_HEAD => L ++ w :: v :: R end.

Lemma linserted_put where_ L v w R : linserted where_ L v w R = put_in (match where_ with LIST_TAIL => true | LIST_HEAD => false end) L v w R.
Proof. by destruct where_. Qed.

Lemma linsert_spec F h o vs li ent L v R value where_ : lat F h o vs li ent L v R -> ovalid value -> weight (otext value :: vs) < 2 ^ 31 -> roomy o vs 1 ->
  yields ('(h, o, li) ← listTypeInsert h o li ent value where_; h ← listTypeReleaseIterator h o li; Ok (h, o)) (fun r => lrep F r.1 r.2 (linserted where_ L v (otext value) R)).
Proof.
  intros (_ & -> & Ho) Hv Hwt Hroom. unfold listTypeInsert. rewrite (decoded_spec _ Hv). cbn [mbind res_bind]. pose proof (otext_wf _ Hv) as Hw. rewrite linserted_put. set (after := match where_ with LIST_TAIL => true | LIST_HEAD => false end). destruct o as [lp|ql].
  - destruct Ho as ((-> & _) & le & e & re & Hr & -> & -> & -> & -> & _). cbn [the_zi mbind res_bind roomy] in *. assert (lpw where_ = lp_side after) as -> by (by destruct where_).
    assert (weight (put_in after (text <$> le) (text e) (otext value) (text <$> re)) < 2 ^ 31) as Hwp by (rewrite weight_put_in; rewrite weight_cons in Hwt; lia).
    destruct (insert_lp lp le e re (otext value) after true Hr Hw) as (lp' & np & -> & Hr'); [unfold fits; by rewrite fmap_put_in|]. cbn [mbind res_bind option_map fst lp_ok listTypeReleaseIterator]. apply yields_ok. split; [done|]. eexists. split; [exact Hr'|].
    rewrite fmap_put_in. split; [done|]. split; [|done]. rewrite zlen_put_in. rewrite zlen_app, zlen_cons, !zlen_fmap in Hroom. rewrite zlen_app, zlen_cons. lia.
  - destruct Ho as (it & A & x & d & B & VA & L0 & R0 & VB & -> & _ & Hq & HA & Hloc & -> & ->). cbn [mbind res_bind].
    assert (match where_ with LIST_TAIL => quicklistInsertAfter h ql it (le_entry ent) (otext value) | LIST_HEAD => quicklistInsertBefore h ql it (le_entry ent) (otext value) end = _quicklistInsert h ql it (le_entry ent) (otext value) after) as -> by (by destruct where_).
    assert (concat (VA ++ put_in after L0 v (otext value) R0 :: VB) = put_in after (concat VA ++ L0) v (otext value) (R0 ++ concat VB)) as Ecat by (rewrite concat_mid; unfold put_in; destruct after; by rewrite <- !app_assoc).
    assert (weight (concat (VA ++ put_in after L0 v (otext value) R0 :: VB)) < 2 ^ 31) as Hwp by (rewrite Ecat, weight_put_in; rewrite weight_cons in Hwt; lia).
    destruct (qinsert_spec Hhtab F h ql A x d B VA L0 v R0 VB it (le_entry ent) (otext value) after Hq HA Hloc Hw Hwp) as ([[h2 ql2] it2] & -> & ns2 & vss2 & Hq2 & Ec2 & _ & Hcur). cbn [mbind res_bind listTypeReleaseIterator with_iter li_iter]. unfold quicklistReleaseIterator. rewrite Ecat in Ec2.
    destruct Hcur as [->|[-> Hin]]; [apply yields_ok; by exists ns2, vss2|]. apply list_elem_of_fmap in Hin as ([x' d2] & Ex & Hin). cbn [fst] in Ex. subst x'. apply list_elem_of_split in Hin as (A2 & B2 & ->).
    eapply yields_bind; [by apply (compress_any Hhtab None F h2 ql2 A2 x d2 B2)|]. intros h3 (ns3 & _ & Hq3). apply yields_ok. by exists ns3, vss2.
Qed.

Lemma ldelete_spec F h o vs li ent L v R : lat F h o vs li ent L v R -> lown li ->
  yields (listTypeDelete h o li ent) (fun '(h', o', li') => li_direction li' = li_direction li /\ lown li' /\ lcursor F h' o' (L ++ R) li' L R).
Proof.
  intros (He & -> & Ho) Hown. unfold listTypeDelete. destruct o as [lp|ql].
  - destruct Ho as (Hl & le & e & re & Hr & -> & -> & -> & -> & Hlp). cbn [the_zi mbind res_bind]. destruct Hl as (-> & es & _ & Ees & Hn & Hw).
    assert (zlen (le ++ e :: re) < 2 ^ 16) as Hn' by (rewrite <- (zlen_fmap text (le ++ e :: re)), fmap_app; cbn [fmap list_fmap]; rewrite Ees, zlen_fmap; done).
    destruct (delete_lp F lp le e re true _ Hr eq_refl Hn' ltac:(rewrite fmap_app; exact Hw)) as (lp' & -> & Hr' & Hl'). cbn [mbind res_bind option_map fst lp_ok option_bind snd]. rewrite fmap_app in Hl'.
    assert (exists q, (match li_direction li with LIST_TAIL => Ok (match re with [] => None | _ => Some (lppos le) end) | LIST_HEAD => match match re with [] => None | _ => Some (lppos le) end with Some p => Listpack.lpPrev lp' p | None => Listpack.lpLast lp' end end) = Ok q /\ q = lp_ahead (li_direction li) le re) as (q & -> & ->).
    { destruct (li_direction li); cbn [lp_ahead]; [|by eexists]. destruct re as [|e1 re]; [rewrite app_nil_r in Hr'; rewrite (lp_last _ _ Hr'); by eexists|]. rewrite (lp_prev _ _ _ _ Hr'). by eexists. }
    cbn [mbind res_bind]. apply yields_ok. split; [done|]. split; [exact Hown|]. split; [done|]. split; [done|]. split; [done|]. by exists le, re.
  - destruct Ho as (it & A & x & d & B & VA & L0 & R0 & VB & Eit & Hdir & Hq & HA & Hloc & -> & ->). rewrite Eit. cbn [mbind res_bind]. unfold lown in Hown. rewrite Eit in Hown.
    destruct (delEntry_spec Hhtab F h ql A x d B VA L0 v R0 VB it (le_entry ent) Hq HA Hloc) as ([[h1 ql1] it1] & E & _ & Hd1 & P1 & ns1 & vss1 & Hq1 & Hc1).
    { destruct Hown as [Hs _]. destruct (direction it); cbn [own_side] in Hs; [by apply Z.ltb_ge|by apply Z.ltb_lt]. }
    rewrite E. cbn [mbind res_bind]. apply yields_ok. split; [done|]. split; [by eapply delEntry_own|]. split; [done|]. split; [done|]. cbn [with_iter li_iter li_direction]. split; [congruence|]. exists P1, ns1, vss1. split; [done|]. split; [|done]. by apply (cursor_concat _ _ _ _ _ _ Hc1).
Qed.

(** ** By position *)

Definition at_index (vs : list bytes) (idx : Z) : option nat := let j := from_front (zlen vs) idx in if (0 <=? j) && (j <? zlen vs) then Some (Z.to_nat j) else None.

Lemma replaced_insert (vs : list bytes) (j : nat) (w : bytes) : (j < length vs)%nat -> take j vs ++ w :: drop (S j) vs = <[j := w]> vs.
Proof. intros Hj. by rewrite insert_take_drop. Qed.

Lemma replace_lp lp le e re w : repr lp (le ++ e :: re) -> wf_bytes w -> weight (w :: (text <$> (le ++ e :: re))) < 2 ^ 31 ->
  exists lp' np, Listpack.lpReplace lp (lppos le) w (zlen w) = Ok (Some (lp', np)) /\ repr lp' (le ++ LP.elem_of w :: re) /\ weight (text <$> (le ++ LP.elem_of w :: re)) < 2 ^ 31.
Proof.
  intros Hr Hw Hwt. rewrite fmap_app in *. cbn [fmap list_fmap] in *. rewrite weight_cons, weight_app, weight_cons in Hwt. pose proof (weight_nonneg (text <$> le)). pose proof (weight_nonneg (text <$> re)). pose proof (zlen_nonneg (text e)). pose proof (zlen_nonneg w).
  assert (weight ((text <$> le) ++ text (LP.elem_of w) :: (text <$> re)) < 2 ^ 31) as Hwt' by (rewrite weight_app, weight_cons, LP.text_elem_of; lia).
  pose proof (ListpackTheory.replace_spec lp le e re w Hr Hw ltac:(lia)) as Hs. rewrite (proj2 (Z.ltb_lt _ _)) in Hs; [destruct Hs as (lp' & -> & Hr'); by eexists _, _|].
  pose proof (repr_ok _ _ Hr) as Hok. apply Forall_app in Hok as [Hok1 Hok2]. apply Forall_cons_1 in Hok2 as [_ Hok2]. pose proof (total_weight (le ++ LP.elem_of w :: re)) as Ht. rewrite fmap_app in Ht. cbn [fmap list_fmap] in Ht.
  assert (LP.elem_ok (LP.elem_of w)) as Hew by (apply LP.elem_of_ok; [done|lia]). specialize (Ht ltac:(apply Forall_app; split; [done|by constructor])). lia.
Qed.

Lemma lreplace_spec F h o vs index value : lrep F h o vs -> ovalid value -> weight (otext value :: vs) < 2 ^ 31 ->
  yields (listTypeReplaceAtIndex h o index value) (fun r => match at_index vs (i32 index) with
    | Some j => r.2 = true /\ lrep F r.1.1 r.1.2 (<[j := otext value]> vs)
    | None => r.2 = false /\ lrep F r.1.1 r.1.2 vs end).
Proof.
  intros Hl Hv Hwt. unfold listTypeReplaceAtIndex. set (idx := i32 index). assert (is_i64 idx) as Hi. { unfold is_i64, INT64_MIN, INT64_MAX, idx, wraps. pose proof (Z.mod_pos_bound (index + 2 ^ (32 - 1)) (2 ^ 32) ltac:(lia)). lia. }
  rewrite (decoded_spec _ Hv). cbn [mbind res_bind]. pose proof (otext_wf _ Hv) as Hw. unfold at_index. cbv zeta. destruct o as [lp|ql].
  - destruct Hl as (-> & es & Hr & -> & Hn & Hw'). rewrite (seek_repr _ _ _ Hr). cbn [mbind res_bind]. cbv zeta. unfold ListpackTheory.norm_index. rewrite zlen_fmap. fold (from_front (zlen es) idx). set (j := from_front (zlen es) idx).
    destruct ((0 <=? j) && (j <? zlen es)) eqn:Ein; [|apply yields_ok; split; [done|]; split; [done|]; by exists es]. apply andb_true_iff in Ein as [Hj0%Z.leb_le Hj1%Z.ltb_lt]. destruct (lookup_lt_is_Some_2 es (Z.to_nat j)) as [e Ee]; [unfold zlen in *; lia|].
    pose proof (take_drop_middle _ _ _ Ee) as Emid. rewrite <- Emid in Hr, Hwt. destruct (replace_lp lp _ e _ (otext value) Hr Hw Hwt) as (lp' & np & -> & Hr' & Hwt'). cbn [mbind res_bind option_map fst lp_ok]. apply yields_ok. split; [done|]. split; [done|].
    rewrite <- insert_take_drop in Hr', Hwt' by (unfold zlen in *; lia). eexists. split; [exact Hr'|]. split; [by rewrite list_fmap_insert, LP.text_elem_of|]. split; [unfold zlen; by rewrite length_insert|]. rewrite list_fmap_insert, LP.text_elem_of in Hwt'. exact Hwt'.
  - destruct Hl as (ns & vss & Hq & <-). rewrite weight_cons in Hwt. eapply yields_bind; [apply (replaceAtIndex_spec Hhtab F h ql ns vss idx (otext value) Hq Hi Hw); lia|]. intros [[h1 ql1] ok] [Eok (ns1 & vss1 & Hq1 & Ecat & _)]. cbn [fst snd] in *. apply yields_ok. subst ok. cbn [fst snd].
    destruct ((0 <=? _) && _) eqn:Ein; (split; [done|]); exists ns1, vss1; (split; [done|]); [|done]. rewrite Ecat. unfold replaced_at. apply andb_true_iff in Ein as [?%Z.leb_le ?%Z.ltb_lt]. apply replaced_insert. unfold zlen in *. lia.
Qed.

Lemma sublist_fmap {A B} (f : A -> B) (c a : list A) : c `sublist_of` a -> f <$> c `sublist_of` f <$> a.
Proof. induction 1; by constructor. Qed.

Lemma weight_sub (c a : list bytes) : c `sublist_of` a -> weight c <= weight a.
Proof. induction 1 as [|v c a _ IH|v c a _ IH]; [done| |]; rewrite ?weight_cons; [lia|]. pose proof (zlen_nonneg v). lia. Qed.

Lemma ldelrange_spec F h o vs start n : lrep F h o vs -> is_i64 start -> 0 <= n <= INT64_MAX -> yields (listTypeDelRange h o start n) (fun r => lrep F r.1 r.2 (without_range vs start n).1).
Proof.
  intros Hl Hs Hn. unfold INT64_MAX in Hn. destruct o as [lp|ql]; cbn [listTypeDelRange].
  - destruct Hl as (-> & es & Hr & -> & Hnn & Hw). destruct (ListpackTheory.delete_range_spec lp es start (u64 n) Hr Hs) as (lp' & -> & Hr'); [rewrite wrapu_small; unfold is_u64, UINT64_MAX; lia|]. cbn [mbind res_bind]. apply yields_ok. rewrite wrapu_small in Hr' by lia.
    assert (ListpackTheory.remove_range es start n `sublist_of` es /\ text <$> ListpackTheory.remove_range es start n = (without_range (text <$> es) start n).1) as [Hsub <-].
    { unfold ListpackTheory.remove_range, without_range, ListpackTheory.norm_index. cbv zeta. rewrite zlen_fmap. fold (from_front (zlen es) start). set (j := from_front (zlen es) start). destruct (Z.ltb_spec 0 n) as [Hpos|Hz]; cbn [andb].
      - destruct ((0 <=? j) && (j <? zlen es)) eqn:Ein; cbn [fst]; [|done]. apply andb_true_iff in Ein as [Hj0%Z.leb_le _]. split.
        + rewrite <- (take_drop (Z.to_nat j) es) at 3. apply sublist_app; [done|]. apply sublist_drop.
        + rewrite fmap_app, fmap_take, !fmap_drop, drop_drop. by rewrite Z2Nat.inj_add by lia.
      - assert (n = 0) as -> by lia. destruct (_ && _); cbn [fst]; [|done]. change (Z.to_nat 0) with 0%nat. by rewrite drop_0, take_drop. }
    split; [done|]. eexists. split; [exact Hr'|]. split; [done|]. split; [apply sublist_length in Hsub; unfold zlen in *; lia|]. pose proof (weight_sub _ _ (sublist_fmap text _ _ Hsub)). lia.
  - destruct Hl as (ns & vss & Hq & <-). eapply yields_bind; [apply (delRange_spec Hhtab F h ql ns vss start n Hq Hs); unfold is_i64, INT64_MIN, INT64_MAX; lia|]. intros [[h1 ql1] ok] (ns1 & vss1 & Hq1 & Ew & _). apply yields_ok. cbn [fst snd] in *. exists ns1, vss1. split; [done|]. by rewrite <- Ew.
Qed.

(** [listTypeLength] while an iterator is open. *)
Lemma llength_cursor F h o vs li before after : lcursor F h o vs li before after -> exists o', listTypeLength o = Ok (o', zlen vs) /\ lcursor F h o' vs li before after /\ (length vs < S (match o' with LISTPACK lp => length lp | QUICKLIST ql => Z.to_nat (total ql) end))%nat.
Proof.
  intros (He & -> & Ho). destruct o as [lp|ql].
  - destruct Ho as ((-> & es & Hr0 & Ees & Hn & Hw) & le & re & Hr & -> & -> & Hlp). cbn [listTypeLength]. destruct (ListpackTheory.length_spec lp (le ++ re) Hr) as (lp' & -> & Hr' & _). cbn [mbind res_bind]. exists (LISTPACK lp'). rewrite <- fmap_app in *. rewrite zlen_fmap.
    split; [done|]. split; [|rewrite length_fmap; destruct Hr' as (num & slack & -> & _ & Hok & _); pose proof (ListpackTheory.length_lpenc num (le ++ re) slack Hok); lia].
    split; [done|]. split; [by rewrite fmap_app|]. split; [|by exists le, re]. split; [done|]. exists (le ++ re). split; [done|]. split; [done|]. split; [|done]. apply (f_equal zlen) in Ees. rewrite !zlen_fmap in Ees. lia.
  - exists (QUICKLIST ql). cbn [listTypeLength]. unfold quicklistCount. assert (total ql = zlen (before ++ after)) as Et.
    { destruct (li_iter li) as [it|]; [|destruct Ho as ((ns & vss & Hq & <-) & _); by apply (q_total _ _ _ _ _ _ Hq)]. destruct Ho as (_ & P & ns & vss & Hq & <- & _). by apply (q_total _ _ _ _ _ _ Hq). }
    rewrite Et. split; [done|]. split; [by split_and!|]. rewrite to_nat_zlen. lia.
Qed.

End iter.
End TListIter.
