(* ===== verification/TListLoops.v ===== *)
(** * Lists: the loops of the commands

    What the loops of LINSERT, LREM, LPOS and LRANGE compute, for an iterator that
    stands anywhere in the list, over both encodings. *)

From S2P Require Import Prelude Util ListpackEnc Listpack ListpackTheory ListpackSpec Lzf LzfSpec Dll Quicklist QuicklistNode QuicklistLink QuicklistValues QuicklistOps QuicklistEdit QuicklistIter QuicklistRange QuicklistScan Rio Rdb RdbSpec TList TListCmd TListTheory TListIter.
From stdpp Require Import list gmap fin_maps.
#[local] Open Scope Z_scope.

Module TListLoops.
Import Dll Quicklist QuicklistNode QuicklistLink QuicklistValues QuicklistOps QuicklistEdit QuicklistIter QuicklistRange QuicklistScan TList TListCmd TListTheory TListIter.

#[local] Abbreviation repr := ListpackTheory.repr.
#[local] Abbreviation text := LP.text.
#[local] Abbreviation lppos := ListpackTheory.pos.

Section loops.
Context `{Allocator} `{Environment} `{ListConfig} (Hhtab : LzfSpec.valid_htab htab) (Hcfg : fill_int list_max_listpack_size).

(** Releasing the iterator closes the node it had opened. *)
Definition closes (F h : heap) (o : lobj) (vs : list bytes) (li : listTypeIterator) : Prop := yields (listTypeReleaseIterator h o li) (fun h' => lrep F h' o vs).

Lemma lcursor_closes F h o vs li before after : lcursor F h o vs li before after -> closes F h o vs li.
Proof. by eapply lrelease_spec. Qed.

Lemma lat_closes F h o vs li ent L v R : lat F h o vs li ent L v R -> closes F h o vs li.
Proof. intros Hl. eapply lcursor_closes. by apply lat_cursor in Hl. Qed.

Lemma done_closes F h o vs li : lrep F h o vs /\ listTypeReleaseIterator h o li = Ok h -> closes F h o vs li.
Proof. intros [Hl E]. unfold closes. rewrite E. by apply yields_ok. Qed.

Lemma rounds_enough F h o vs : lrep F h o vs -> (length vs < rounds o)%nat.
Proof.
  destruct o as [lp|ql]; cbn [rounds].
  - intros (_ & es & (num & slack & -> & _ & Hok & _) & -> & _). rewrite length_fmap. pose proof (ListpackTheory.length_lpenc num es slack Hok). lia.
  - intros (ns & vss & Hq & <-). rewrite (q_total _ _ _ _ _ _ Hq), to_nat_zlen. lia.
Qed.

(** The step of a loop in terms of what is ahead. *)
Definition advance (dir : lend) (L : list bytes) (v : bytes) (R : list bytes) : list bytes * list bytes := match dir with LIST_TAIL => (L ++ [v], R) | LIST_HEAD => (L, v :: R) end.

Lemma lstep_ahead dir before after L v R : lstep dir before after L v R -> lahead dir before after = v :: lahead dir (advance dir L v R).1 (advance dir L v R).2.
Proof. destruct dir; intros [-> ->]; cbn [lahead advance fst snd]; [by rewrite reverse_snoc|done]. Qed.

(** ** LINSERT *)

Lemma pivot_loop_spec F o vs s : forall fuel h li before after, lcursor F h o vs li before after -> li_direction li = LIST_TAIL -> (length after < fuel)%nat ->
  yields (pivot_loop fuel h o li (SdsObj s)) (fun '(h', li', ent) => match ent with
    | Some ent => exists M R, lat F h' o vs li' ent (before ++ M) s R /\ after = M ++ s :: R /\ s ∉ M
    | None => closes F h' o vs li' /\ s ∉ after end).
Proof.
  induction fuel as [|fuel IH]; intros h li before after Hc Hd Hf; [lia|]. cbn [pivot_loop]. eapply yields_bind; [by apply (lnext_spec Hhtab F h o vs li before after)|]. intros [[[h1 li1] ent] found] [Hd1 Hr]. rewrite Hd in *. destruct found.
  - destruct Hr as (_ & L & v & R & Hat & [-> ->]). rewrite (lequal_spec _ _ _ _ _ _ _ _ _ s Hat). cbn [mbind res_bind]. case_bool_decide as Ev.
    + subst v. apply yields_ok. exists [], R. rewrite app_nil_r. split; [done|]. split; [done|]. apply not_elem_of_nil.
    + pose proof (lat_cursor _ _ _ _ _ _ _ _ _ Hat) as Hc1. rewrite Hd1 in Hc1. cbn [length] in Hf. eapply yields_mono; [apply (IH h1 li1 _ _ Hc1 Hd1); lia|]. intros [[h2 li2] [ent2|]].
      * intros (M & R2 & Hat2 & -> & HM). exists (v :: M), R2. rewrite <- app_assoc in Hat2. split; [done|]. split; [done|]. by apply not_elem_of_cons.
      * intros [Hcl Hn]. split; [done|]. by apply not_elem_of_cons.
  - destruct Hr as [Hr Hend]. cbn [lahead] in Hend. subst after. apply yields_ok. split; [by apply done_closes|]. apply not_elem_of_nil.
Qed.

(** ** LREM *)

(** At most [lim] of the elements equal to [x] removed from the front. *)
Fixpoint remove_some (lim : option nat) (x : bytes) (l : list bytes) : list bytes :=
  match l with
  | [] => []
  | v :: l' =>
    if bool_decide (v = x) then match lim with Some O => l | Some (S n) => remove_some (Some n) x l' | None => remove_some None x l' end
    else v :: remove_some lim x l'
  end.

Lemma remove_none x l : remove_some (Some 0%nat) x l = l.
Proof. induction l as [|v l IH]; [done|]. cbn. case_bool_decide; [done|]. by rewrite IH. Qed.

Lemma remove_length lim x l : (length (remove_some lim x l) <= length l)%nat.
Proof. revert lim. induction l as [|v l IH]; intros lim; [done|]. cbn. case_bool_decide; [|cbn; specialize (IH lim); lia]. destruct lim as [[|n]|]; [done|specialize (IH (Some n)); lia|specialize (IH None); lia]. Qed.

(** The whole list when [l] is what an iterator still had to visit. *)
Definition rejoin (dir : lend) (before after l : list bytes) : list bytes := match dir with LIST_TAIL => before ++ l | LIST_HEAD => reverse l ++ after end.

Definition limit_of (toremove removed : Z) : option nat := if toremove =? 0 then None else Some (Z.to_nat (toremove - removed)).

Lemma lrem_loop_spec F s toremove : forall fuel h o vs li before after removed, lcursor F h o vs li before after -> lown li -> (length (lahead (li_direction li) before after) < fuel)%nat -> toremove = 0 \/ 0 <= removed < toremove ->
  let l := lahead (li_direction li) before after in let l' := remove_some (limit_of toremove removed) s l in
  yields (lrem_loop fuel h o li (SdsObj s) toremove removed) (fun '(h', o', li', removed') => removed' = removed + (zlen l - zlen l') /\ closes F h' o' (rejoin (li_direction li) before after l') li').
Proof.
  induction fuel as [|fuel IH]; intros h o vs li before after removed Hc Hown Hf Hrem; [lia|]. cbn [lrem_loop]. cbv zeta. pose proof (proj1 (proj2 Hc)) as Evs.
  eapply yields_bind; [by apply (lnext_spec Hhtab F h o vs li before after)|]. intros [[[h1 li1] ent] found] [Hd1 Hr]. destruct found.
  - destruct Hr as (Hown1 & L & v & R & Hat & Hst). rewrite (lstep_ahead _ _ _ _ _ _ Hst) in Hf |- *. cbn [length remove_some] in *. set (dir := li_direction li) in *. rewrite (lequal_spec _ _ _ _ _ _ _ _ _ s Hat). cbn [mbind res_bind]. case_bool_decide as Ev.
    + subst v. eapply yields_bind; [by apply (ldelete_spec Hhtab F h1 o vs li1 ent L s R Hat (Hown1 Hown))|]. intros [[h2 o2] li2] (Hd2 & Hown2 & Hc2). rewrite Hd1 in Hd2.
      assert (lahead dir L R = lahead dir (advance dir L s R).1 (advance dir L s R).2) as Ea by (by destruct dir). assert (rejoin dir L R = rejoin dir before after) as Ej by (destruct dir; destruct Hst as [-> ->]; done).
      rewrite <- Ea in *. set (l := lahead dir L R) in *. rewrite zlen_cons.
      assert (L ++ R = rejoin dir before after l) as Evs2. { rewrite <- Ej. unfold l. destruct dir; cbn [rejoin lahead]; [by rewrite reverse_involutive|done]. }
      unfold limit_of in *. destruct (Z.eqb_spec toremove 0) as [->|Hne]; cbn [negb andb].
      * eapply yields_mono; [apply (IH h2 o2 _ li2 L R (removed + 1) Hc2 Hown2); [rewrite Hd2; fold l; lia|by left]|]. intros [[[h3 o3] li3] r3]. rewrite Hd2. fold l. rewrite Ej. intros [-> Hcl]. split; [lia|done].
      * assert (0 <= removed < toremove) as Hrr by lia. replace (Z.to_nat (toremove - removed)) with (S (Z.to_nat (toremove - (removed + 1)))) by lia. destruct (Z.eqb_spec (removed + 1) toremove) as [E|Hne2].
        -- apply yields_ok. rewrite E, Z.sub_diag. change (Z.to_nat 0) with 0%nat. rewrite remove_none. split; [lia|]. rewrite <- Evs2. by eapply lcursor_closes.
        -- eapply yields_mono; [apply (IH h2 o2 _ li2 L R (removed + 1) Hc2 Hown2); [rewrite Hd2; fold l; lia|right; lia]|]. intros [[[h3 o3] li3] r3]. rewrite Hd2. fold l. rewrite Ej. intros [-> Hcl]. split; [lia|done].
    + pose proof (lat_cursor _ _ _ _ _ _ _ _ _ Hat) as Hc1. rewrite Hd1 in Hc1.
      assert (lcursor F h1 o vs li1 (advance dir L v R).1 (advance dir L v R).2) as Hc1' by (by destruct dir). set (l := lahead dir _ _) in *.
      eapply yields_mono; [apply (IH h1 o vs li1 _ _ removed Hc1' (Hown1 Hown)); [rewrite Hd1; fold l; lia|done]|]. intros [[[h3 o3] li3] r3]. rewrite Hd1. fold l. intros [-> Hcl]. rewrite !zlen_cons. split; [lia|].
      assert (forall l', rejoin dir (advance dir L v R).1 (advance dir L v R).2 l' = rejoin dir before after (v :: l')) as Ej. { intros l'. destruct dir; destruct Hst as [-> ->]; cbn [rejoin advance fst snd]; [by rewrite reverse_cons, <- app_assoc|by rewrite <- app_assoc]. }
      by rewrite Ej in Hcl.
  - destruct Hr as [Hr Hend]. rewrite Hend. cbn [remove_some]. apply yields_ok. split; [lia|]. apply done_closes. unfold rejoin. destruct (li_direction li); cbn [lahead] in Hend; [|by rewrite Hend in Evs; rewrite <- Evs].
    assert (before = []) as -> by (by apply (f_equal reverse) in Hend; rewrite reverse_involutive in Hend). by rewrite Evs in Hr.
Qed.

(** ** LPOS *)

(** The positions of the elements equal to [s], for a list whose first element is
    visited at [index]. *)
Fixpoint positions (f : Z -> Z) (s : bytes) (l : list bytes) (index : Z) : list Z :=
  match l with
  | [] => []
  | v :: l => if bool_decide (v = s) then f index :: positions f s l (index + 1) else positions f s l (index + 1)
  end.

Definition position_of (dir : lend) (llen index : Z) : Z := match dir with LIST_TAIL => index | LIST_HEAD => llen - index - 1 end.

(** The elements that may be compared. *)
Definition within (maxlen index : Z) (l : list bytes) : list bytes := if maxlen =? 0 then l else take (Z.to_nat (maxlen - index)) l.

Lemma within_stop maxlen index v l : (maxlen =? 0) || (index <? maxlen) = false -> within maxlen index (v :: l) = [].
Proof. intros [E1 E2]%orb_false_iff. unfold within. rewrite E1. apply Z.ltb_ge in E2. by replace (Z.to_nat (maxlen - index)) with 0%nat by lia. Qed.

Lemma within_step maxlen index v l : (maxlen =? 0) || (index <? maxlen) = true -> within maxlen index (v :: l) = v :: within maxlen (index + 1) l.
Proof.
  unfold within. destruct (maxlen =? 0); [done|]. cbn [orb]. intros E%Z.ltb_lt. by replace (Z.to_nat (maxlen - index)) with (S (Z.to_nat (maxlen - (index + 1)))) by lia.
Qed.

(** How many more positions are replied. *)
Definition selected (rank count matches : Z) (ps : list Z) : list Z :=
  let ps := drop (Z.to_nat (rank - 1 - matches)) ps in if count =? 0 then ps else take (Z.to_nat (count - Z.max 0 (matches - rank + 1))) ps.

Definition lpos_answer (rank count matches : Z) (ps : list Z) (m : Z) (rs : list reply) : Prop :=
  if count =? -1 then rs = [] /\ m = default (-1) (head (drop (Z.to_nat (rank - 1 - matches)) ps)) else rs = addReplyLongLong <$> selected rank count matches ps.

Definition searching (rank count matches : Z) : Prop := 0 < rank /\ 0 <= matches /\ ((count = -1 /\ matches < rank) \/ count = 0 \/ (0 < count /\ matches - rank + 1 < count)).

(** The step at an element that is equal. *)
Lemma answer_found rank count matches p ps m rs : searching rank count matches -> rank <= matches + 1 -> count <> -1 -> negb (count =? 0) && (count <=? matches + 1 - rank + 1) = false ->
  lpos_answer rank count (matches + 1) ps m rs -> lpos_answer rank count matches (p :: ps) m (addReplyLongLong p :: rs).
Proof.
  intros (Hr & Hm & Hc) Hle Hne Hgo. unfold lpos_answer, selected. rewrite (proj2 (Z.eqb_neq count (-1))) by done. replace (Z.to_nat (rank - 1 - matches)) with 0%nat by lia. replace (Z.to_nat (rank - 1 - (matches + 1))) with 0%nat by lia. rewrite !drop_0.
  destruct (Z.eqb_spec count 0) as [->|Hc0]; intros ->; [done|]. cbn [negb andb] in Hgo. apply Z.leb_gt in Hgo. by replace (Z.to_nat (count - Z.max 0 (matches - rank + 1))) with (S (Z.to_nat (count - Z.max 0 (matches + 1 - rank + 1)))) by lia.
Qed.

Lemma answer_skipped rank count matches p ps m rs : searching rank count matches -> matches + 1 < rank -> lpos_answer rank count (matches + 1) ps m rs -> lpos_answer rank count matches (p :: ps) m rs.
Proof.
  intros (Hr & Hm & Hc) Hlt. unfold lpos_answer, selected. replace (Z.to_nat (rank - 1 - matches)) with (S (Z.to_nat (rank - 1 - (matches + 1)))) by lia. cbn [drop]. by replace (Z.max 0 (matches + 1 - rank + 1)) with (Z.max 0 (matches - rank + 1)) by lia.
Qed.

Lemma answer_last rank count matches p ps : searching rank count matches -> rank <= matches + 1 -> count <> -1 -> negb (count =? 0) && (count <=? matches + 1 - rank + 1) = true -> lpos_answer rank count matches (p :: ps) p [addReplyLongLong p].
Proof.
  intros (Hr & Hm & Hc) Hle Hne [Hc0 Hgo%Z.leb_le]%andb_true_iff. unfold lpos_answer, selected. rewrite (proj2 (Z.eqb_neq count (-1))) by done. replace (Z.to_nat (rank - 1 - matches)) with 0%nat by lia. apply negb_true_iff in Hc0. rewrite Hc0. apply Z.eqb_neq in Hc0.
  by replace (Z.to_nat (count - Z.max 0 (matches - rank + 1))) with 1%nat by lia.
Qed.

Lemma answer_none rank count matches : lpos_answer rank count matches [] (-1) [].
Proof. unfold lpos_answer, selected. rewrite drop_nil. destruct (count =? -1); [done|]. destruct (count =? 0); [done|]. by rewrite take_nil. Qed.

Lemma lpos_loop_spec F o vs s dir llen rank count maxlen : forall fuel h li before after index matches, lcursor F h o vs li before after -> li_direction li = dir -> (length (lahead dir before after) < fuel)%nat -> searching rank count matches ->
  yields (lpos_loop fuel h o li (SdsObj s) dir llen rank count maxlen index matches) (fun '(h', li', m, rs) =>
    closes F h' o vs li' /\ lpos_answer rank count matches (positions (position_of dir llen) s (within maxlen index (lahead dir before after)) index) m rs).
Proof.
  induction fuel as [|fuel IH]; intros h li before after index matches Hc Hd Hf Hs; [lia|]. cbn [lpos_loop]. eapply yields_bind; [by apply (lnext_spec Hhtab F h o vs li before after)|]. intros [[[h1 li1] ent] found] [Hd1 Hr]. rewrite Hd in *. destruct found; cbn [andb].
  - destruct Hr as (_ & L & v & R & Hat & Hst). rewrite (lstep_ahead _ _ _ _ _ _ Hst) in Hf |- *. cbn [length] in Hf. set (l := lahead dir _ _) in *. destruct ((maxlen =? 0) || (index <? maxlen)) eqn:Egate; [|rewrite (within_stop _ _ _ _ Egate); apply yields_ok; split; [by eapply lat_closes|apply answer_none]].
    rewrite (within_step _ _ _ _ Egate), (lequal_spec _ _ _ _ _ _ _ _ _ s Hat). cbn [mbind res_bind positions]. fold (position_of dir llen index). set (ps := positions _ s (within _ _ l) _).
    pose proof (lat_cursor _ _ _ _ _ _ _ _ _ Hat) as Hc1. rewrite Hd1 in Hc1. assert (lcursor F h1 o vs li1 (advance dir L v R).1 (advance dir L v R).2) as Hc1' by (by destruct dir).
    assert (forall matches', searching rank count matches' -> yields (lpos_loop fuel h1 o li1 (SdsObj s) dir llen rank count maxlen (index + 1) matches') (fun '(h', li', m, rs) => closes F h' o vs li' /\ lpos_answer rank count matches' ps m rs)) as Hrest by (intros m' Hm'; apply (IH h1 li1 _ _ (index + 1) m' Hc1' Hd1); [subst l; lia|done]).
    case_bool_decide as Ev; cbn [andb]; [|by apply Hrest]. pose proof Hs as (Hr & Hm & Hcase). destruct (Z.leb_spec rank (matches + 1)) as [Hle|Hlt].
    + destruct (Z.eqb_spec count (-1)) as [Ec|Hne]; cbn [negb].
      * apply yields_ok. split; [by eapply lat_closes|]. unfold lpos_answer. rewrite (proj2 (Z.eqb_eq count (-1)) Ec). by replace (Z.to_nat (rank - 1 - matches)) with 0%nat by lia.
      * destruct (negb (count =? 0) && (count <=? matches + 1 - rank + 1)) eqn:Elast; [apply yields_ok; split; [by eapply lat_closes|by apply answer_last]|].
        assert (searching rank count (matches + 1)) as Hs'. { split; [done|]. split; [lia|]. destruct Hcase as [|[|]]; [lia|by right; left|]. rewrite (proj2 (Z.eqb_neq count 0)) in Elast by lia. cbn [negb andb] in Elast. apply Z.leb_gt in Elast. right. right. lia. }
        eapply yields_bind; [by apply Hrest|]. intros [[[h2 li2] m] rs] [Hcl Ha]. apply yields_ok. split; [done|]. by apply answer_found.
    + assert (searching rank count (matches + 1)) as Hs' by (split; [done|]; split; lia). eapply yields_mono; [by apply Hrest|]. intros [[[h2 li2] m] rs] [Hcl Ha]. split; [done|]. by apply answer_skipped.
  - destruct Hr as [Hr Hend]. rewrite Hend. apply yields_ok. split; [by apply done_closes|]. assert (within maxlen index [] = []) as -> by (unfold within; destruct (maxlen =? 0); [done|by rewrite take_nil]). apply answer_none.
Qed.

(** ** LRANGE *)

Lemma bulk_spec F h o vs li ent L v R : lat F h o vs li ent L v R -> (r ← listTypeGetValue h o ent; bulk_of r) = Ok (addReplyBulk v).
Proof. intros Hat. destruct (lget_spec _ _ _ _ _ _ _ _ _ Hat) as ([s|z] & -> & Hv); cbn [mbind res_bind bulk_of]; [by subst|]. destruct Hv as [Hz ->]. by rewrite (long_text_spec z Hz). Qed.

Lemma lat_value_listpack F h lp vs li ent L v R p : lat F h (LISTPACK lp) vs li ent L v R -> le_lpe ent = Some p -> (r ← listTypeGetValue ∅ (LISTPACK lp) {| le_lpe := Some p; le_entry := initEntry |}; bulk_of r) = Ok (addReplyBulk v).
Proof. intros Hat Hp. rewrite <- (bulk_spec _ _ _ _ _ _ _ _ _ Hat). cbn [listTypeGetValue]. by rewrite Hp. Qed.

Lemma quicklist_range_spec F ql vs dir : forall n h li it before after, lcursor F h (QUICKLIST ql) vs li before after -> li_iter li = Some it -> li_direction li = dir -> (n <= length (lahead dir before after))%nat ->
  yields (quicklist_range n h ql (Some it)) (fun '(h', iter, rs) => rs = addReplyBulk <$> take n (lahead dir before after) /\ yields (quicklistReleaseIterator h' ql iter) (fun h2 => lrep F h2 (QUICKLIST ql) vs)).
Proof.
  induction n as [|n IH]; intros h li it before after Hc Hit Hd Hn; cbn [quicklist_range].
  - apply yields_ok. split; [done|]. rewrite <- Hit. by apply (lcursor_closes _ _ _ _ _ _ _ Hc).
  - cbn [mbind res_bind]. destruct (lnext_spec Hhtab F h _ vs li before after Hc) as ([[[h1 li1] ent] found] & E & Hd1 & Hr). rewrite Hd in *. unfold listTypeNext in E. rewrite (proj1 Hc), bool_decide_eq_true_2, Hit in E by done. cbn [cassert mbind res_bind] in E.
    destruct (quicklistNext h ql it) as [[[[h1' it1] qe] found']|]; [|done]. cbn [mbind res_bind] in E. injection E as -> <- <- ->. destruct found; [|destruct Hr as [_ Hend]; rewrite Hend in Hn; cbn in Hn; lia]. cbn [cassert mbind res_bind].
    destruct Hr as (_ & L & v & R & Hat & Hst). rewrite (lstep_ahead _ _ _ _ _ _ Hst) in Hn |- *. cbn [length firstn fmap list_fmap] in *. pose proof (bulk_spec _ _ _ _ _ _ _ _ _ Hat) as Eb.
    destruct (listTypeGetValue h1 _ _) as [r|]; [|done]. cbn [mbind res_bind] in Eb |- *. rewrite Eb. cbn [mbind res_bind]. pose proof (lat_cursor _ _ _ _ _ _ _ _ _ Hat) as Hc1. rewrite Hd1 in Hc1.
    assert (lcursor F h1 (QUICKLIST ql) vs (with_iter li it1) (advance dir L v R).1 (advance dir L v R).2) as Hc1' by (by destruct dir).
    eapply yields_bind; [apply (IH h1 _ it1 _ _ Hc1' eq_refl Hd1); lia|]. intros [[h2 it2] rs] [-> Hrel]. by apply yields_ok.
Qed.

Lemma listpack_range_spec F h lp vs dir : forall n li before after, lcursor F h (LISTPACK lp) vs li before after -> li_direction li = dir -> (n <= length (lahead dir before after))%nat ->
  listpack_range n lp (li_lpi li) (match dir with LIST_HEAD => true | LIST_TAIL => false end) = Ok (addReplyBulk <$> take n (lahead dir before after)).
Proof.
  induction n as [|n IH]; intros li before after Hc Hd Hn; cbn [listpack_range]; [done|]. destruct (lnext_spec Hhtab F h _ vs li before after Hc) as ([[[h1 li1] ent] found] & E & Hd1 & Hr). rewrite Hd in *. unfold listTypeNext in E. rewrite (proj1 Hc), bool_decide_eq_true_2 in E by done. cbn [cassert mbind res_bind] in E.
  destruct (li_lpi li) as [p|] eqn:Hp; [|injection E as <- <- <- <-; destruct Hr as [_ Hend]; rewrite Hend in Hn; cbn in Hn; lia]. cbn [cassert the_zi mbind res_bind]. rewrite Hd in E.
  replace (if match dir with LIST_HEAD => true | LIST_TAIL => false end then Listpack.lpPrev lp p else Listpack.lpNext lp p) with (match dir with LIST_TAIL => Listpack.lpNext lp p | LIST_HEAD => Listpack.lpPrev lp p end) by (by destruct dir).
  destruct (match dir with LIST_TAIL => Listpack.lpNext lp p | LIST_HEAD => Listpack.lpPrev lp p end) as [q|]; [|done]. cbn [mbind res_bind] in E. injection E as <- <- <- <-.
  destruct Hr as (_ & L & v & R & Hat & Hst). rewrite (lstep_ahead _ _ _ _ _ _ Hst) in Hn |- *. cbn [length firstn fmap list_fmap] in *. pose proof (lat_value_listpack _ _ _ _ _ _ _ _ _ p Hat eq_refl) as Eb.
  destruct (listTypeGetValue ∅ _ _) as [r|]; [|done]. cbn [mbind res_bind] in Eb |- *. rewrite Eb. cbn [mbind res_bind]. pose proof (lat_cursor _ _ _ _ _ _ _ _ _ Hat) as Hc1. rewrite Hd1 in Hc1.
  assert (lcursor F h (LISTPACK lp) vs (with_lpi li q) (advance dir L v R).1 (advance dir L v R).2) as Hc1' by (by destruct dir).
  change q with (li_lpi (with_lpi li q)) at 1. rewrite (IH _ _ _ Hc1' Hd1) by lia. done.
Qed.

(** The elements from [start] to [end_], which may count from the end. *)
Definition clip_start (n start : Z) : Z := Z.max 0 (if start <? 0 then n + start else start).
Definition clip_end (n end_ : Z) : Z := Z.min (n - 1) (if end_ <? 0 then n + end_ else end_).
Definition slice (vs : list bytes) (start end_ : Z) : list bytes :=
  let s := clip_start (zlen vs) start in take (Z.to_nat (clip_end (zlen vs) end_ - s + 1)) (drop (Z.to_nat s) vs).

Definition range_reply (vs : list bytes) : list reply := match vs with [] => [addReplyEmptyArray] | _ => addReplyArrayLen (zlen vs) :: (addReplyBulk <$> vs) end.

Lemma range_reply_some vs : 0 < zlen vs -> range_reply vs = addReplyArrayLen (zlen vs) :: (addReplyBulk <$> vs).
Proof. by destruct vs. Qed.

Lemma slice_length vs start end_ : zlen (slice vs start end_) = Z.max 0 (clip_end (zlen vs) end_ - clip_start (zlen vs) start + 1).
Proof.
  unfold slice. cbv zeta. unfold zlen at 1. rewrite length_take, length_drop. assert (0 <= clip_start (zlen vs) start) by (unfold clip_start; lia). assert (clip_end (zlen vs) end_ <= zlen vs - 1) by (unfold clip_end; lia). unfold zlen in *. lia.
Qed.

Lemma range_at_spec F h o vs from n dir : lrep F h o vs -> 0 <= from < zlen vs -> 0 < n ->
  n <= (match dir with LIST_TAIL => zlen vs - from | LIST_HEAD => from + 1 end) ->
  yields (match o with
    | QUICKLIST ql => '(h, rs) ← addListQuicklistRangeReply h ql from n (match dir with LIST_HEAD => true | LIST_TAIL => false end); Ok (h, o, rs)
    | LISTPACK lp => rs ← addListListpackRangeReply lp from n (match dir with LIST_HEAD => true | LIST_TAIL => false end); Ok (h, o, rs)
    end) (fun '(h', o', rs) => o' = o /\ lrep F h' o vs /\ rs = addReplyArrayLen n :: (addReplyBulk <$> take (Z.to_nat n) (match dir with LIST_TAIL => drop (Z.to_nat from) vs | LIST_HEAD => reverse (take (Z.to_nat (from + 1)) vs) end))).
Proof.
  intros Hl Hf Hn Hroom. pose proof (weight_room _ (lrep_weight _ _ _ _ Hl)) as Hlen. assert (u32 n = n) as Hu by (apply wrapu_small; destruct dir; lia). assert (is_i64 from) as Hi by (unfold is_i64, INT64_MIN, INT64_MAX; lia).
  destruct (linit_spec F h o vs from dir Hl Hi) as (li & Eli & Hd & Hin). cbv zeta in Hin. unfold from_front in Hin. rewrite (proj2 (Z.ltb_ge from 0)) in Hin by lia. rewrite (proj2 (Z.leb_le 0 from)), (proj2 (Z.ltb_lt from _)) in Hin by lia. cbn [andb] in Hin.
  destruct Hin as (L & v & R & -> & HL & Hst & _). assert (exists before after, lcursor F h o (L ++ v :: R) li before after /\ lahead dir before after = match dir with LIST_TAIL => drop (Z.to_nat from) (L ++ v :: R) | LIST_HEAD => reverse (take (Z.to_nat (from + 1)) (L ++ v :: R)) end) as (before & after & Hc & Ha).
  { rewrite <- HL. destruct dir; cbn [lstart lahead] in *; (eexists _, _; split; [exact Hst|]); cbn [lahead]; [|by rewrite to_nat_zlen, drop_app_length]. f_equal. rewrite (app_assoc L [v] R : L ++ v :: R = _). replace (Z.to_nat (zlen L + 1)) with (length (L ++ [v])) by (rewrite length_app; cbn; unfold zlen; lia). by rewrite take_app_length. }
  rewrite <- Ha. assert (Z.to_nat n <= length (lahead dir before after))%nat as Hnn. { rewrite Ha. destruct dir; [rewrite length_reverse, length_take|rewrite length_drop]; unfold zlen in *; lia. }
  destruct o as [lp|ql]; cbn [listTypeInitIterator] in Eli.
  - unfold addListListpackRangeReply. rewrite Hu. destruct (Listpack.lpSeek lp from) as [p|]; [|done]. cbn [mbind res_bind] in Eli |- *. injection Eli as <-. rewrite (listpack_range_spec F h lp _ dir (Z.to_nat n) _ before after Hc eq_refl Hnn : _ p _ = _). cbn [mbind res_bind]. by apply yields_ok.
  - unfold addListQuicklistRangeReply. rewrite Hu. replace (if match dir with LIST_HEAD => true | LIST_TAIL => false end then AL_START_TAIL else AL_START_HEAD) with (iter_direction dir) by (by destruct dir).
    destruct (quicklistGetIteratorAtIdx h ql (iter_direction dir) from) as [it|]; [|done]. cbn [mbind res_bind] in Eli |- *. injection Eli as <-. destruct it as [it|].
    2: { exfalso. destruct Hc as (_ & _ & _ & E). cbn [li_direction] in E. assert (lahead dir before after = []) as E' by (destruct dir; cbn [lahead]; by rewrite E). rewrite E' in Hnn. cbn in Hnn. lia. }
    destruct (quicklist_range_spec F ql _ dir (Z.to_nat n) h _ it before after Hc eq_refl eq_refl Hnn) as ([[h1 it1] rs] & -> & -> & Hrel). cbn [mbind res_bind]. destruct Hrel as (h2 & -> & Hl2). cbn [mbind res_bind]. by apply yields_ok.
Qed.

Lemma clip_add n i : 0 <= n < 2 ^ 31 -> is_i64 i -> (if i <? 0 then i64 (n + i) else i) = (if i <? 0 then n + i else i).
Proof. intros Hn Hi. destruct (Z.ltb_spec i 0); [|done]. unfold is_i64, INT64_MIN, INT64_MAX in Hi. rewrite wraps_small by lia. done. Qed.

Lemma clip_start_if n i : (if (if i <? 0 then n + i else i) <? 0 then 0 else (if i <? 0 then n + i else i)) = clip_start n i.
Proof. unfold clip_start. destruct (i <? 0); destruct (Z.ltb_spec (n + i) 0); destruct (Z.ltb_spec i 0); lia. Qed.

Lemma addRange_spec F h o vs start end_ dir : lrep F h o vs -> is_i64 start -> is_i64 end_ ->
  yields (addListRangeReply h o start end_ (match dir with LIST_HEAD => true | LIST_TAIL => false end)) (fun '(h', o', rs) => lrep F h' o' vs /\ rs = range_reply (match dir with LIST_TAIL => slice vs start end_ | LIST_HEAD => reverse (slice vs start end_) end)).
Proof.
  intros Hl Hs He. unfold addListRangeReply. destruct (llength_spec _ _ _ _ Hl) as (o1 & -> & Hl1 & _). cbn [mbind res_bind]. pose proof (weight_room _ (lrep_weight _ _ _ _ Hl)) as Hlen.
  cbv zeta. rewrite !clip_add by (lia || done). rewrite clip_start_if. set (s := clip_start (zlen vs) start). set (e := if end_ <? 0 then zlen vs + end_ else end_). assert (clip_end (zlen vs) end_ = Z.min (zlen vs - 1) e) as Ee by done. assert (0 <= s) as Hs0 by (unfold s, clip_start; lia).
  pose proof (slice_length vs start end_) as Hsl. fold s in Hsl. rewrite Ee in Hsl. destruct ((e <? s) || (zlen vs <=? s)) eqn:Eout.
  - apply yields_ok. split; [done|]. assert (slice vs start end_ = []) as ->. { apply zlen_nil_inv. apply orb_true_iff in Eout as [?%Z.ltb_lt|?%Z.leb_le]; lia. } by destruct dir.
  - apply orb_false_iff in Eout as [Hes%Z.ltb_ge Hsn%Z.leb_gt]. assert ((if zlen vs <=? e then zlen vs - 1 else e) = Z.min (zlen vs - 1) e) as -> by (destruct (Z.leb_spec (zlen vs) e); lia). set (e' := Z.min (zlen vs - 1) e) in *. assert (s <= e' < zlen vs) as He' by (unfold e'; lia).
    rewrite (wraps_small 32 (e' - s + 1)) by lia. rewrite (wraps_small 32) by (destruct dir; lia). replace (if match dir with LIST_HEAD => true | LIST_TAIL => false end then e' else s) with (match dir with LIST_HEAD => e' | LIST_TAIL => s end) by (by destruct dir).
    eapply yields_mono; [apply (range_at_spec F h o1 vs _ (e' - s + 1) dir Hl1); destruct dir; lia|]. intros [[h2 o2] rs] (-> & Hl2 & ->). split; [done|].
    assert (take (Z.to_nat (e' - s + 1)) (match dir with LIST_TAIL => drop (Z.to_nat s) vs | LIST_HEAD => reverse (take (Z.to_nat (e' + 1)) vs) end) = match dir with LIST_TAIL => slice vs start end_ | LIST_HEAD => reverse (slice vs start end_) end) as Etake.
    { unfold slice. cbv zeta. fold s. rewrite Ee. destruct dir; [|done]. rewrite take_reverse, length_take. f_equal. rewrite take_drop_commute. f_equal; [|f_equal]; unfold zlen in *; lia. }
    assert (zlen (match dir with LIST_TAIL => slice vs start end_ | LIST_HEAD => reverse (slice vs start end_) end) = e' - s + 1) as Hn by (destruct dir; unfold zlen in *; rewrite ?length_reverse; lia).
    revert Etake Hn. destruct dir; intros -> Hn; (rewrite range_reply_some by lia); by rewrite Hn.
Qed.

End loops.
End TListLoops.
