(* ===== verification/TListSpec.v ===== *)
(** * Lists: the commands against a list of strings

    Every command on a key, whatever the key holds and whatever its arguments,
    leaves the contents, the effects and the reply that the same command has on a
    list of byte strings, through every change of encoding. *)

From S2P Require Import Prelude Util ListpackEnc Listpack ListpackTheory Lzf LzfSpec Dll Quicklist QuicklistValues QuicklistOps QuicklistIter QuicklistRange Rio Rdb RdbSpec NetworkingTheory TList TListCmd TListTheory TListIter TListLoops.
From stdpp Require Import list gmap fin_maps strings.
#[local] Open Scope Z_scope.

Module TListSpec.
Import Dll Quicklist QuicklistValues QuicklistOps QuicklistIter QuicklistRange TList TListCmd TListTheory TListIter TListLoops.
#[local] Abbreviation parse_ll := NetworkingTheory.parse_ll.

(** ** The commands *)

(** Arguments are the byte strings that the client sent. *)
Inductive command : Type :=
| Push (where_ : lend) (xx : bool) (values : list bytes)
| Insert (side pivot value : bytes)
| Len
| Index (index : bytes)
| Set_ (index value : bytes)
| Range (start end_ : bytes)
| Pop (where_ : lend) (args : list bytes)
| Trim (start end_ : bytes)
| Pos (ele : bytes) (opts : list bytes)
| Rem (count ele : bytes).

Section run.
Context `{Allocator} `{Environment} `{ListConfig}.

Definition call (h : heap) (key : option kobj) (c : command) : res outcome :=
  match c with
  | Push where_ xx values => pushGenericCommand h key where_ xx (SdsObj <$> values)
  | Insert side pivot value => linsertCommand h key (SdsObj side) (SdsObj pivot) (SdsObj value)
  | Len => llenCommand h key
  | Index index => lindexCommand h key (SdsObj index)
  | Set_ index value => lsetCommand h key (SdsObj index) (SdsObj value)
  | Range start end_ => lrangeCommand h key (SdsObj start) (SdsObj end_)
  | Pop where_ args => popGenericCommand h key where_ (SdsObj <$> args)
  | Trim start end_ => ltrimCommand h key (SdsObj start) (SdsObj end_)
  | Pos ele opts => lposCommand h key (SdsObj ele) (SdsObj <$> opts)
  | Rem count ele => lremCommand h key (SdsObj count) (SdsObj ele)
  end.

End run.

(** ** The same on a list of strings *)

Inductive skey : Type := SList (vs : list bytes) | SOther.

Definition answer : Type := option skey * list effect * list reply.

(** Arguments: [parse_ll] accepts the decimal text of the 64-bit integers. *)
Definition long_arg (s : bytes) (msg : option string) : arg Z :=
  match parse_ll s with None => inl (error_text (default "value is not an integer or out of range" msg)) | Some v => inr v end.

Definition range_arg (s : bytes) (min max : Z) (msg : option string) : arg Z :=
  match long_arg s msg with
  | inl e => inl e
  | inr v => if (min <=? v) && (v <=? max) then inr v else inl (match msg with Some msg => error_text msg | None => error_between min max end)
  end.

Definition positive_arg (s : bytes) (msg : option string) : arg Z := range_arg s 0 LONG_MAX (Some (default "value is out of range, must be positive" msg)).

Definition fails (key : option skey) (e : error) : answer := (key, [], [addReplyError e]).

(** A command that needs a list: what it answers without one. *)
Definition on_list (key : option skey) (absent : reply) (f : list bytes -> answer) : answer :=
  match key with None => (None, [], [absent]) | Some SOther => fails key wrongtypeerr | Some (SList vs) => f vs end.

Definition with_arg {A} (key : option skey) (a : arg A) (f : A -> answer) : answer := match a with inl e => fails key e | inr v => f v end.

(** An empty list is no key. *)
Definition stored (vs : list bytes) : option skey := match vs with [] => None | _ => Some (SList vs) end.
Definition del_effect (vs : list bytes) : list effect := match vs with [] => [notifyKeyspaceEvent NOTIFY_GENERIC "del"] | _ => [] end.

Definition all_pushed (where_ : lend) (values vs : list bytes) : list bytes := match where_ with LIST_HEAD => reverse values ++ vs | LIST_TAIL => vs ++ values end.

Definition spec_push (key : option skey) (where_ : lend) (xx : bool) (values : list bytes) : answer :=
  let go vs := let vs := all_pushed where_ values vs in (Some (SList vs), replicate (length values) (Dirty 1) ++ [signalModifiedKey; notifyKeyspaceEvent NOTIFY_LIST (push_event where_)], [addReplyLongLong (zlen vs)]) in
  match key with
  | Some SOther => fails key wrongtypeerr
  | Some (SList vs) => go vs
  | None => if xx then (None, [], [addReplyLongLong 0]) else go []
  end.

(** Beside the first element equal to the pivot. *)
Fixpoint beside (where_ : lend) (pivot value : bytes) (vs : list bytes) : option (list bytes) :=
  match vs with
  | [] => None
  | v :: vs => if bool_decide (v = pivot) then Some (match where_ with LIST_HEAD => value :: v :: vs | LIST_TAIL => v :: value :: vs end) else cons v <$> beside where_ pivot value vs
  end.

Definition side_arg (s : bytes) : arg lend := if strcasecmp s (bytes_of_string "after") then inr LIST_TAIL else if strcasecmp s (bytes_of_string "before") then inr LIST_HEAD else inl syntaxerr.

Definition spec_insert (key : option skey) (side pivot value : bytes) : answer :=
  with_arg key (side_arg side) (fun where_ => on_list key (addReplyLongLong 0) (fun vs =>
    match beside where_ pivot value vs with
    | Some vs => (Some (SList vs), [signalModifiedKey; notifyKeyspaceEvent NOTIFY_LIST "linsert"; Dirty 1], [addReplyLongLong (zlen vs)])
    | None => (key, [], [addReplyLongLong (-1)])
    end)).

Definition spec_index (key : option skey) (index : bytes) : answer :=
  on_list key addReplyNull (fun vs => with_arg key (long_arg index None) (fun i =>
    (key, [], [match at_index vs i ≫= (vs !!.) with Some v => addReplyBulk v | None => addReplyNull end]))).

Definition spec_set (key : option skey) (index value : bytes) : answer :=
  on_list key (addReplyError nokeyerr) (fun vs => with_arg key (long_arg index None) (fun i =>
    match at_index vs i with
    | Some j => (Some (SList (<[j := value]> vs)), [signalModifiedKey; notifyKeyspaceEvent NOTIFY_LIST "lset"; Dirty 1], [addReplyOk])
    | None => fails key outofrangeerr
    end)).

Definition spec_range (key : option skey) (start end_ : bytes) : answer :=
  with_arg key (long_arg start None) (fun s => with_arg key (long_arg end_ None) (fun e => on_list key addReplyEmptyArray (fun vs => (key, [], range_reply (slice vs s e))))).

(** What is left after elements were removed, with the effects between those of
    the command. *)
Definition left_over (first : effect) (vs : list bytes) (last : list effect) (rs : list reply) : answer := (stored vs, first :: del_effect vs ++ last, rs).

Definition spec_pop (key : option skey) (where_ : lend) (args : list bytes) : answer :=
  match args with
  | _ :: _ :: _ => fails key arityerr
  | [] => on_list key addReplyNull (fun vs =>
      match lpopped where_ vs with
      | Some (v, vs) => left_over (notifyKeyspaceEvent NOTIFY_LIST (pop_event where_)) vs [signalModifiedKey; Dirty 1] [addReplyBulk v]
      | None => (key, [], [])
      end)
  | [count] => with_arg key (positive_arg count None) (fun n => on_list key addReplyNullArray (fun vs =>
      if n =? 0 then (key, [], [addReplyEmptyArray]) else
      let n := Z.to_nat (Z.min n (zlen vs)) in
      let '(out, rest) := match where_ with LIST_HEAD => (take n vs, drop n vs) | LIST_TAIL => (take n (reverse vs), reverse (drop n (reverse vs))) end in
      left_over (notifyKeyspaceEvent NOTIFY_LIST (pop_event where_)) rest [signalModifiedKey; Dirty (zlen out)] (range_reply out)))
  end.

Definition spec_trim (key : option skey) (start end_ : bytes) : answer :=
  with_arg key (long_arg start None) (fun s => with_arg key (long_arg end_ None) (fun e => on_list key addReplyOk (fun vs =>
    let vs' := slice vs s e in left_over (notifyKeyspaceEvent NOTIFY_LIST "ltrim") vs' [signalModifiedKey; Dirty (zlen vs - zlen vs')] [addReplyOk]))).

Fixpoint spec_options (opts : list bytes) (rank : Z) (count : option Z) (maxlen : Z) : arg (Z * option Z * Z) :=
  match opts with
  | [] => inr (rank, count, maxlen)
  | [_] => inl syntaxerr
  | opt :: v :: opts =>
    if strcasecmp opt (bytes_of_string "RANK") then
      match range_arg v (- LONG_MAX) LONG_MAX None with inl e => inl e | inr rank => if rank =? 0 then inl (error_text rank_zero) else spec_options opts rank count maxlen end
    else if strcasecmp opt (bytes_of_string "COUNT") then
      match positive_arg v (Some "COUNT can't be negative") with inl e => inl e | inr count => spec_options opts rank (Some count) maxlen end
    else if strcasecmp opt (bytes_of_string "MAXLEN") then
      match positive_arg v (Some "MAXLEN can't be negative") with inl e => inl e | inr maxlen => spec_options opts rank count maxlen end
    else inl syntaxerr
  end.

(** The positions of the matches in the order in which they are found, from the
    [rank]-th on. *)
Definition found_positions (ele : bytes) (vs : list bytes) (rank maxlen : Z) : list Z :=
  let dir := if rank <? 0 then LIST_HEAD else LIST_TAIL in
  drop (Z.to_nat (Z.abs rank - 1)) (positions (position_of dir (zlen vs)) ele (within maxlen 0 (match dir with LIST_TAIL => vs | LIST_HEAD => reverse vs end)) 0).

Definition spec_pos (key : option skey) (ele : bytes) (opts : list bytes) : answer :=
  with_arg key (spec_options opts 1 None 0) (fun '(rank, count, maxlen) => on_list key (match count with Some _ => addReplyEmptyArray | None => addReplyNull end) (fun vs =>
    let ps := found_positions ele vs rank maxlen in
    (key, [], match count with
              | None => [match ps with p :: _ => addReplyLongLong p | [] => addReplyNull end]
              | Some n => let ps := if n =? 0 then ps else take (Z.to_nat n) ps in addReplyArrayLen (zlen ps) :: (addReplyLongLong <$> ps)
              end))).

Definition spec_rem (key : option skey) (count ele : bytes) : answer :=
  with_arg key (range_arg count (- LONG_MAX) LONG_MAX None) (fun n => on_list key (addReplyLongLong 0) (fun vs =>
    let lim := limit_of (Z.abs n) 0 in
    let vs' := if n <? 0 then reverse (remove_some lim ele (reverse vs)) else remove_some lim ele vs in
    let removed := zlen vs - zlen vs' in
    if removed =? 0 then (key, [], [addReplyLongLong 0])
    else (stored vs', replicate (Z.to_nat removed) (Dirty 1) ++ notifyKeyspaceEvent NOTIFY_LIST "lrem" :: del_effect vs' ++ [signalModifiedKey], [addReplyLongLong removed]))).

Definition spec_call (key : option skey) (c : command) : answer :=
  match c with
  | Push where_ xx values => spec_push key where_ xx values
  | Insert side pivot value => spec_insert key side pivot value
  | Len => on_list key (addReplyLongLong 0) (fun vs => (key, [], [addReplyLongLong (zlen vs)]))
  | Index index => spec_index key index
  | Set_ index value => spec_set key index value
  | Range start end_ => spec_range key start end_
  | Pop where_ args => spec_pop key where_ args
  | Trim start end_ => spec_trim key start end_
  | Pos ele opts => spec_pos key ele opts
  | Rem count ele => spec_rem key count ele
  end.

(** ** What is asked of the arguments *)

Definition contents (key : option skey) : list bytes := match key with Some (SList vs) => vs | _ => [] end.

(** New values are bytes, the values with sixteen bytes each for the overhead
    take less than 2 GB, one command adds at most 32768 of them, and the index of
    LSET is an [int]. *)
Definition call_ok (key : option skey) (c : command) : Prop :=
  match c with
  | Push _ _ values => values <> [] /\ Forall wf_bytes values /\ zlen values <= 2 ^ 15 /\ weight (values ++ contents key) < 2 ^ 31
  | Insert _ _ value => wf_bytes value /\ weight (value :: contents key) < 2 ^ 31
  | Set_ index value => wf_bytes value /\ weight (value :: contents key) < 2 ^ 31 /\ match parse_ll index with Some i => INT32_MIN <= i <= INT32_MAX | None => True end
  | _ => True
  end.

#[export] Instance call_ok_dec key c : Decision (call_ok key c).
Proof. destruct c; cbn [call_ok]; try (destruct (parse_ll _)); apply _. Defined.

(** ** Simulation *)

Section spec.
Context `{Allocator} `{Environment} `{ListConfig} (Hhtab : LzfSpec.valid_htab htab) (Hcfg : fill_int list_max_listpack_size).

(** What the key holds, beside the rest [F] of the heap. *)
Definition krep (F h : heap) (key : option kobj) (sk : option skey) : Prop :=
  match key, sk with
  | None, None | Some KOther, Some SOther => h = F
  | Some (KList o), Some (SList vs) => lrep F h o vs /\ vs <> []
  | _, _ => False
  end.

Definition meets (F : heap) (a : answer) (r : outcome) : Prop := krep F (o_heap r) (o_key r) a.1.1 /\ o_effects r = a.1.2 /\ o_reply r = a.2.

Lemma meets_done F h key sk es rs : krep F h key sk -> yields (done h key es rs) (meets F (sk, es, rs)).
Proof. intros Hk. by apply yields_ok. Qed.

Lemma meets_answer F h key sk es rs rs' : krep F h key sk -> rs = rs' -> yields (done h key es rs) (meets F (sk, es, rs')).
Proof. intros Hk ->. by apply yields_ok. Qed.

(** Arguments. *)
Lemma parse_i64 s v : parse_ll s = Some v -> is_i64 v.
Proof.
  unfold parse_ll, NetworkingTheory.parse_ll. destruct (Util.string2ll_spec s []) as (o & Ho & Hv). rewrite app_nil_r in Ho. rewrite Ho. intros ->. by apply Hv.
Qed.

Lemma long_arg_spec s msg : getLongFromObjectOrReply (SdsObj s) msg = Ok (long_arg s msg).
Proof.
  unfold getLongFromObjectOrReply, getLongLongFromObjectOrReply, getLongLongFromObject, long_arg. rewrite NetworkingTheory.string2ll_parse. cbn [mbind res_bind]. fold (parse_ll s). destruct (parse_ll s) as [v|] eqn:E; [|done]. apply parse_i64 in E as [E1 E2].
  unfold LONG_MIN, LONG_MAX. by rewrite (proj2 (Z.ltb_ge v _)), (proj2 (Z.ltb_ge _ v)) by done.
Qed.

Lemma long_arg_i64 s msg v : long_arg s msg = inr v -> is_i64 v.
Proof. unfold long_arg. destruct (parse_ll s) as [v'|] eqn:E; [|done]. intros [= <-]. by eapply parse_i64. Qed.

Lemma range_arg_spec s min max msg : getRangeLongFromObjectOrReply (SdsObj s) min max msg = Ok (range_arg s min max msg).
Proof. unfold getRangeLongFromObjectOrReply, range_arg. rewrite long_arg_spec. cbn [mbind res_bind]. destruct (long_arg s msg) as [e|v]; [done|]. rewrite !Z.ltb_antisym, <- negb_andb. by destruct (_ && _). Qed.

Lemma range_arg_in s min max msg v : range_arg s min max msg = inr v -> min <= v <= max.
Proof. unfold range_arg. destruct (long_arg s msg) as [e|v']; [done|]. destruct (_ && _) eqn:E; [|done]. intros [= <-]. apply andb_true_iff in E as [?%Z.leb_le ?%Z.leb_le]. lia. Qed.

Lemma positive_arg_spec s msg : getPositiveLongFromObjectOrReply (SdsObj s) msg = Ok (positive_arg s msg).
Proof. apply range_arg_spec. Qed.

(** Keys that hold no list. *)
Lemma key_cases F h key sk : krep F h key sk -> (key = None /\ sk = None) \/ (key = Some KOther /\ sk = Some SOther) \/ exists o vs, key = Some (KList o) /\ sk = Some (SList vs) /\ lrep F h o vs /\ vs <> [].
Proof. destruct key as [[o|]|], sk as [[vs|]|]; try done; intros Hk; [right; right; by exists o, vs|right; by left|by left]. Qed.

(** The end of the commands that remove elements. *)
Lemma delete_if_empty_spec F h o vs : lrep F h o vs -> yields (delete_if_empty h o) (fun r => krep F r.1.1 r.1.2 (stored vs) /\ r.2 = del_effect vs).
Proof.
  intros Hl. unfold delete_if_empty. destruct (llength_spec _ _ _ _ Hl) as (o1 & -> & Hl1 & _). cbn [mbind res_bind]. destruct vs as [|v vs].
  - rewrite (free_spec Hhtab F h o1 [] Hl1). cbn [mbind res_bind]. by apply yields_ok.
  - rewrite (proj2 (Z.eqb_neq (zlen (v :: vs)) 0)) by (rewrite zlen_cons; pose proof (zlen_nonneg vs); lia). eapply yields_bind; [by apply (convert_shrink_spec Hhtab Hcfg F h o1)|]. intros [h2 o2] Hl2. by apply yields_ok.
Qed.

Lemma elements_removed_spec F h where_ o vs n : lrep F h o vs ->
  yields (listElementsRemoved h where_ o n) (fun r => krep F r.1.1 r.1.2 (stored vs) /\ r.2 = notifyKeyspaceEvent NOTIFY_LIST (pop_event where_) :: del_effect vs ++ [signalModifiedKey; Dirty n]).
Proof. intros Hl. unfold listElementsRemoved. eapply yields_bind; [by apply (delete_if_empty_spec F h o vs)|]. intros [[h1 key] es] [Hk E]. cbn [fst snd] in *. subst es. by apply yields_ok. Qed.

(** ** LPUSH and RPUSH *)

Lemma all_pushed_cons where_ v values vs : all_pushed where_ (v :: values) vs = all_pushed where_ values (lpushed where_ v vs).
Proof. destruct where_; cbn [all_pushed lpushed]; [by rewrite reverse_cons, <- app_assoc|by rewrite <- app_assoc]. Qed.

Lemma weight_lpushed where_ v vs : weight (lpushed where_ v vs) = 16 + zlen v + weight vs.
Proof. destruct where_; cbn [lpushed]; rewrite ?weight_app, ?weight_cons, ?weight_nil; lia. Qed.

Lemma zlen_lpushed where_ v vs : zlen (lpushed where_ v vs) = zlen vs + 1.
Proof. destruct where_; cbn [lpushed]; rewrite ?zlen_app, ?zlen_cons, ?zlen_nil; lia. Qed.

Lemma roomy_enc o o' vs vs' k k' : lenc o' = lenc o -> zlen vs' + k' <= zlen vs + k -> roomy o vs k -> roomy o' vs' k'.
Proof. destruct o, o'; try done. cbn [roomy]. lia. Qed.

Lemma push_loop_spec F where_ values : forall h o vs, lrep F h o vs -> Forall wf_bytes values -> weight (values ++ vs) < 2 ^ 31 -> roomy o vs (zlen values) ->
  yields (push_loop h o where_ (SdsObj <$> values)) (fun r => lrep F r.1 r.2 (all_pushed where_ values vs)).
Proof.
  induction values as [|v values IH]; intros h o vs Hl Hwf Hw Hroom; cbn [fmap list_fmap push_loop].
  - apply yields_ok. destruct where_; cbn [all_pushed]; [done|by rewrite app_nil_r].
  - apply Forall_cons_1 in Hwf as [Hv Hwf]. cbn [app] in Hw. rewrite weight_cons, weight_app in Hw. rewrite zlen_cons in Hroom. pose proof (zlen_nonneg values). pose proof (weight_nonneg values).
    eapply yields_bind; [apply (lpush_spec Hhtab F h o vs (SdsObj v) where_ Hl Hv); [cbn [otext]; rewrite weight_cons; lia|eapply roomy_enc; [done| |exact Hroom]; lia]|]. intros [h1 o1] [Hl1 He]. cbn [fst snd otext] in *. rewrite all_pushed_cons.
    apply IH; [done|done|rewrite weight_app, weight_lpushed; lia|]. eapply roomy_enc; [done| |exact Hroom]. rewrite zlen_lpushed. lia.
Qed.

Lemma otext_args (values : list bytes) : otext <$> (SdsObj <$> values) = values.
Proof. induction values as [|v values IH]; [done|]. cbn [fmap list_fmap otext]. f_equal. exact IH. Qed.

Lemma roomy_less o vs k k' : k' <= k -> roomy o vs k -> roomy o vs k'.
Proof. intros Hk. apply roomy_enc; [done|lia]. Qed.

Lemma pushed_spec F h o vs where_ values : lrep F h o vs -> values <> [] -> Forall wf_bytes values -> zlen values <= 2 ^ 15 -> weight (values ++ vs) < 2 ^ 31 ->
  yields ('(h, o) ← listTypeTryConversionAppend h o (SdsObj <$> values); '(h, o) ← push_loop h o where_ (SdsObj <$> values); '(o, n) ← listTypeLength o;
    done h (Some (KList o)) (replicate (length (SdsObj <$> values)) (Dirty 1) ++ [signalModifiedKey; notifyKeyspaceEvent NOTIFY_LIST (push_event where_)]) [addReplyLongLong n])
    (meets F (spec_push (Some (SList vs)) where_ false values)).
Proof.
  intros Hl Hne Hwf Hn Hw. pose proof Hw as Hw'. rewrite weight_app in Hw'. pose proof (weight_nonneg vs). eapply yields_bind; [apply (convert_append_spec Hhtab Hcfg F h o vs); [done|rewrite otext_args; lia]|]. intros [h1 o1] [Hl1 Hroom]. cbn [fst snd] in *.
  eapply yields_bind; [by apply (push_loop_spec F where_ values h1 o1 vs); [..|eapply roomy_less]|]. intros [h2 o2] Hl2. cbn [fst snd] in *. destruct (llength_spec _ _ _ _ Hl2) as (o3 & -> & Hl3 & _). cbn [mbind res_bind]. rewrite length_fmap. apply meets_done. split; [done|].
  destruct values as [|v values]; [done|]. destruct where_; cbn [all_pushed]; [by rewrite reverse_cons; destruct (reverse values)|by destruct vs].
Qed.

Lemma push_call F h key sk where_ xx values : krep F h key sk -> call_ok sk (Push where_ xx values) -> yields (call h key (Push where_ xx values)) (meets F (spec_call sk (Push where_ xx values))).
Proof.
  intros Hk (Hne & Hwf & Hn & Hw). cbn [call spec_call]. unfold pushGenericCommand. destruct (key_cases _ _ _ _ Hk) as [[-> ->]|[[-> ->]|(o & vs & -> & -> & Hl & _)]]; cbn [spec_push contents] in *.
  - destruct xx; [by apply meets_done|]. destruct (lrep_new F) as (o & -> & Hl). cbn [mbind res_bind]. cbn [krep] in Hk. subst h. by apply (pushed_spec F F o [] where_ values).
  - by apply meets_done.
  - cbn [mbind res_bind]. by apply (pushed_spec F h o vs where_ values).
Qed.

(** ** From the first or the last element *)

Definition from_end (dir : lend) (vs : list bytes) : list bytes := match dir with LIST_TAIL => vs | LIST_HEAD => reverse vs end.

Lemma linit_end F h o vs dir : lrep F h o vs -> vs <> [] ->
  yields (listTypeInitIterator h o (match dir with LIST_HEAD => -1 | LIST_TAIL => 0 end) dir) (fun li => li_direction li = dir /\ lown li /\
    exists before after, lcursor F h o vs li before after /\ lahead dir before after = from_end dir vs /\ forall l, rejoin dir before after l = from_end dir l).
Proof.
  intros Hl Hne. eapply yields_mono; [apply (linit_spec F h o vs _ dir Hl); by destruct dir|]. intros li [Hd Hin]. cbv zeta in Hin. split; [done|]. assert (0 < zlen vs) as Hpos by (destruct vs as [|v vs]; [done|]; rewrite zlen_cons; pose proof (zlen_nonneg vs); lia).
  assert (from_front (zlen vs) (match dir with LIST_HEAD => -1 | LIST_TAIL => 0 end) = match dir with LIST_HEAD => zlen vs - 1 | LIST_TAIL => 0 end) as Ej by (unfold from_front; destruct dir; cbn; lia). rewrite Ej, (proj2 (Z.leb_le 0 _)), (proj2 (Z.ltb_lt _ (zlen vs))) in Hin by (destruct dir; lia). cbn [andb] in Hin.
  destruct Hin as (L & v & R & -> & HL & Hst & Hown). split; [apply Hown; by destruct dir|]. rewrite zlen_app, zlen_cons in HL. destruct dir; cbn [lstart] in Hst.
  - assert (R = []) as -> by (apply zlen_nil_inv; lia). exists (L ++ [v]), []. split; [done|]. split; [done|]. intros l. cbn [rejoin from_end]. by rewrite app_nil_r.
  - apply zlen_nil_inv in HL as ->. by exists [], (v :: R).
Qed.

(** ** LINSERT *)

Lemma beside_found where_ s v M R : s ∉ M -> beside where_ s v (M ++ s :: R) = Some (linserted where_ M s v R).
Proof.
  induction M as [|w M IH]; intros Hs; cbn [app beside].
  - rewrite bool_decide_eq_true_2 by done. by destruct where_.
  - apply not_elem_of_cons in Hs as [Hw Hs]. rewrite bool_decide_eq_false_2 by congruence. rewrite (IH Hs). by destruct where_.
Qed.

Lemma beside_none where_ s v vs : s ∉ vs -> beside where_ s v vs = None.
Proof. induction vs as [|w vs IH]; intros Hs; [done|]. apply not_elem_of_cons in Hs as [Hw Hs]. cbn [beside]. rewrite bool_decide_eq_false_2 by congruence. by rewrite (IH Hs). Qed.

Lemma insert_call F h key sk side pivot value : krep F h key sk -> call_ok sk (Insert side pivot value) -> yields (call h key (Insert side pivot value)) (meets F (spec_call sk (Insert side pivot value))).
Proof.
  intros Hk (Hv & Hw). cbn [call spec_call]. unfold linsertCommand, spec_insert, side_arg, is_word.
  assert (forall where_, yields (match key with
    | None => done h key [] [addReplyLongLong 0]
    | Some KOther => done h key [] [addReplyError wrongtypeerr]
    | Some (KList subject) =>
      '(h, subject) ← listTypeTryConversionAppend h subject [SdsObj value];
      li ← listTypeInitIterator h subject 0 LIST_TAIL;
      '(h, li, ent) ← pivot_loop (rounds subject) h subject li (SdsObj pivot);
      '(h, subject, li) ← match ent with Some ent => listTypeInsert h subject li ent (SdsObj value) where_ | None => Ok (h, subject, li) end;
      h ← listTypeReleaseIterator h subject li;
      match ent with
      | Some _ => '(subject, n) ← listTypeLength subject; done h (Some (KList subject)) [signalModifiedKey; notifyKeyspaceEvent NOTIFY_LIST "linsert"; Dirty 1] [addReplyLongLong n]
      | None => done h (Some (KList subject)) [] [addReplyLongLong (-1)]
      end
    end) (meets F (on_list sk (addReplyLongLong 0) (fun vs => match beside where_ pivot value vs with
    | Some vs => (Some (SList vs), [signalModifiedKey; notifyKeyspaceEvent NOTIFY_LIST "linsert"; Dirty 1], [addReplyLongLong (zlen vs)])
    | None => (sk, [], [addReplyLongLong (-1)])
    end)))) as Hgo.
  { intros where_. destruct (key_cases _ _ _ _ Hk) as [[-> ->]|[[-> ->]|(o & vs & -> & -> & Hl & Hne)]]; cbn [on_list contents] in *; [by apply meets_done|by apply meets_done|]. rewrite weight_cons in Hw. pose proof (weight_nonneg vs).
    eapply yields_bind; [apply (convert_append_spec Hhtab Hcfg F h o vs [SdsObj value] Hl); cbn [fmap list_fmap otext]; rewrite weight_cons, weight_nil; lia|]. intros [h1 o1] [Hl1 Hroom]. cbn [fst snd] in *.
    eapply yields_bind; [by apply (linit_end F h1 o1 vs LIST_TAIL)|]. intros li (Hd & _ & before & after & Hc & Ha & Hj). cbn [lahead from_end rejoin] in *. subst after. pose proof (rounds_enough _ _ _ _ Hl1).
    assert (before = []) as ->. { specialize (Hj []). rewrite app_nil_r in Hj. exact Hj. } eapply yields_bind; [by apply (pivot_loop_spec Hhtab F o1 vs pivot (rounds o1) h1 li [] vs)|]. intros [[h2 li2] [ent|]]; cbn [mbind res_bind app].
    - intros (M & R & Hat & -> & HM). rewrite (beside_found _ _ _ _ _ HM). cbn [app] in Hat. destruct (linsert_spec Hhtab F h2 o1 _ li2 ent M pivot R (SdsObj value) where_ Hat Hv) as ([h5 o5] & E & Hl3); [cbn [otext]; rewrite weight_cons; lia|eapply roomy_less; [|exact Hroom]; lia|].
      destruct (listTypeInsert h2 o1 li2 ent (SdsObj value) where_) as [[[h3 o3] li3]|]; [|done]. cbn [mbind res_bind] in E |- *. destruct (listTypeReleaseIterator h3 o3 li3) as [h4|]; [|done]. cbn [mbind res_bind] in E |- *. injection E as -> ->. cbn [fst snd otext] in Hl3.
      destruct (llength_spec _ _ _ _ Hl3) as (o4 & -> & Hl4 & _). cbn [mbind res_bind]. apply meets_done. split; [done|]. destruct where_; cbn [linserted]; by destruct M.
    - intros [Hcl Hn]. rewrite (beside_none _ _ _ _ Hn). eapply yields_bind; [exact Hcl|]. intros h3 Hl3. by apply meets_done. }
  destruct (strcasecmp side _); [exact (Hgo LIST_TAIL)|]. destruct (strcasecmp side _); [exact (Hgo LIST_HEAD)|]. by apply meets_done.
Qed.

(** ** LLEN, LINDEX, LSET and LRANGE *)

Lemma len_call F h key sk : krep F h key sk -> yields (call h key Len) (meets F (spec_call sk Len)).
Proof.
  intros Hk. cbn [call spec_call]. unfold llenCommand. destruct (key_cases _ _ _ _ Hk) as [[-> ->]|[[-> ->]|(o & vs & -> & -> & Hl & Hne)]]; cbn [on_list]; [by apply meets_done|by apply meets_done|].
  destruct (llength_spec _ _ _ _ Hl) as (o1 & -> & Hl1 & _). cbn [mbind res_bind]. by apply meets_done.
Qed.

Lemma at_index_mid L v R i : from_front (zlen (L ++ v :: R)) i = zlen L -> at_index (L ++ v :: R) i = Some (length L).
Proof.
  intros E. unfold at_index. cbv zeta. rewrite E, zlen_app, zlen_cons. pose proof (zlen_nonneg L). pose proof (zlen_nonneg R). rewrite (proj2 (Z.leb_le 0 _)), (proj2 (Z.ltb_lt (zlen L) _)) by lia. cbn [andb]. by rewrite to_nat_zlen.
Qed.

Lemma index_call F h key sk index : krep F h key sk -> yields (call h key (Index index)) (meets F (spec_call sk (Index index))).
Proof.
  intros Hk. cbn [call spec_call]. unfold lindexCommand, spec_index. destruct (key_cases _ _ _ _ Hk) as [[-> ->]|[[-> ->]|(o & vs & -> & -> & Hl & Hne)]]; cbn [on_list]; [by apply meets_done|by apply meets_done|].
  rewrite long_arg_spec. cbn [mbind res_bind]. destruct (long_arg index None) as [e|i] eqn:Ei; cbn [with_arg]; [by apply meets_done|]. apply long_arg_i64 in Ei.
  eapply yields_bind; [by apply (linit_spec F h o vs i LIST_TAIL)|]. intros li [Hd Hin]. cbv zeta in Hin. destruct ((0 <=? _) && _) eqn:Eb.
  - destruct Hin as (L & v & R & -> & HL & Hst & _). cbn [lstart] in Hst. eapply yields_bind; [by apply (lnext_spec Hhtab F h o (L ++ v :: R) li L (v :: R))|]. intros [[[h1 li1] ent] found] [_ Hr]. rewrite Hd in Hr. destruct found; [|by destruct Hr as [_ Hend]].
    destruct Hr as (_ & L' & v' & R' & Hat & [<- Ev]). injection Ev as <- <-. rewrite (bulk_spec _ _ _ _ _ _ _ _ _ Hat). cbn [mbind res_bind]. eapply yields_bind; [by eapply lat_closes|]. intros h2 Hl2. rewrite (at_index_mid _ _ _ _ (eq_sym HL)). cbn [mbind option_bind]. rewrite list_lookup_middle by done. by apply meets_done.
  - destruct Hin as [-> Erel]. cbn [mbind res_bind]. rewrite Erel. cbn [mbind res_bind]. unfold at_index. cbv zeta. rewrite Eb. cbn [mbind option_bind]. by apply meets_done.
Qed.

Lemma set_call F h key sk index value : krep F h key sk -> call_ok sk (Set_ index value) -> yields (call h key (Set_ index value)) (meets F (spec_call sk (Set_ index value))).
Proof.
  intros Hk (Hv & Hw & Hint). cbn [call spec_call]. unfold lsetCommand, spec_set. destruct (key_cases _ _ _ _ Hk) as [[-> ->]|[[-> ->]|(o & vs & -> & -> & Hl & Hne)]]; cbn [on_list contents] in *; [by apply meets_done|by apply meets_done|].
  rewrite long_arg_spec. cbn [mbind res_bind]. unfold long_arg. destruct (parse_ll index) as [i|]; cbn [with_arg]; [|by apply meets_done]. unfold INT32_MIN, INT32_MAX in Hint. pose proof Hw as Hw'. rewrite weight_cons in Hw'. pose proof (weight_nonneg vs).
  eapply yields_bind; [apply (convert_append_spec Hhtab Hcfg F h o vs [SdsObj value] Hl); cbn [fmap list_fmap otext]; rewrite weight_cons, weight_nil; lia|]. intros [h1 o1] [Hl1 _]. cbn [fst snd] in *.
  eapply yields_bind; [by apply (lreplace_spec Hhtab F h1 o1 vs i (SdsObj value))|]. intros [[h2 o2] r]. cbn [fst snd otext]. rewrite wraps_small by lia. destruct (at_index vs i) as [j|]; intros [-> Hl2]; [|by apply meets_done].
  eapply yields_bind; [by apply (convert_shrink_spec Hhtab Hcfg F h2 o2)|]. intros [h3 o3] Hl3. apply meets_done. split; [done|]. intros E. apply (f_equal length) in E. rewrite length_insert in E. by destruct vs.
Qed.

Lemma range_call F h key sk start end_ : krep F h key sk -> yields (call h key (Range start end_)) (meets F (spec_call sk (Range start end_))).
Proof.
  intros Hk. cbn [call spec_call]. unfold lrangeCommand, spec_range. rewrite !long_arg_spec. cbn [mbind res_bind]. destruct (long_arg start None) as [e|s] eqn:Es; cbn [with_arg]; [by apply meets_done|]. destruct (long_arg end_ None) as [e'|e] eqn:Ee; cbn [with_arg]; [by apply meets_done|]. apply long_arg_i64 in Es, Ee.
  destruct (key_cases _ _ _ _ Hk) as [[-> ->]|[[-> ->]|(o & vs & -> & -> & Hl & Hne)]]; cbn [on_list]; [by apply meets_done|by apply meets_done|].
  eapply yields_bind; [by apply (addRange_spec Hhtab F h o vs s e LIST_TAIL)|]. intros [[h1 o1] rs] [Hl1 ->]. by apply meets_done.
Qed.

(** ** LPOP, RPOP and LTRIM *)

Lemma lpopped_some where_ vs : vs <> [] -> exists v vs', lpopped where_ vs = Some (v, vs').
Proof. intros Hne. destruct where_; cbn [lpopped]; [destruct vs; [done|by eexists _, _]|]. destruct vs as [|v vs _] using rev_ind; [done|]. rewrite last_snoc. by eexists _, _. Qed.

(** A range of [n] elements at one end. *)
Definition taken (where_ : lend) (n : Z) (vs : list bytes) : list bytes * list bytes :=
  let n := Z.to_nat n in match where_ with LIST_HEAD => (take n vs, drop n vs) | LIST_TAIL => (take n (reverse vs), reverse (drop n (reverse vs))) end.

Definition first_of_range (where_ : lend) (n : Z) : Z := match where_ with LIST_HEAD => 0 | LIST_TAIL => - n end.
Definition last_of_range (where_ : lend) (n : Z) : Z := match where_ with LIST_HEAD => n - 1 | LIST_TAIL => -1 end.

Lemma taken_slice where_ n vs : 0 < n <= zlen vs -> (match where_ with LIST_HEAD => slice vs 0 (n - 1) | LIST_TAIL => reverse (slice vs (- n) (-1)) end) = (taken where_ n vs).1.
Proof.
  intros Hn. unfold slice, clip_start, clip_end, taken. cbv zeta. destruct where_; cbn [fst].
  - change (0 <? 0) with false. cbn iota. rewrite (proj2 (Z.ltb_ge (n - 1) 0)) by lia. change (Z.max 0 0) with 0. rewrite drop_0. f_equal. lia.
  - rewrite (proj2 (Z.ltb_lt (- n) 0)) by lia. change (-1 <? 0) with true. cbn iota. rewrite take_reverse. f_equal. rewrite take_ge by (rewrite length_drop; unfold zlen in *; lia). f_equal. unfold zlen in *. lia.
Qed.

Lemma taken_rest where_ n vs : 0 < n <= zlen vs -> (without_range vs (first_of_range where_ n) n).1 = (taken where_ n vs).2.
Proof.
  intros Hn. unfold without_range, taken, first_of_range, from_front. cbv zeta. rewrite (proj2 (Z.ltb_lt 0 n)) by lia. cbn [andb]. destruct where_; cbn [snd].
  - change (0 <? 0) with false. cbn iota. rewrite (proj2 (Z.leb_le 0 0)), (proj2 (Z.ltb_lt 0 (zlen vs))) by lia. cbn [andb fst]. by rewrite Z.add_0_l.
  - rewrite (proj2 (Z.ltb_lt (- n) 0)) by lia. rewrite (proj2 (Z.leb_le 0 _)), (proj2 (Z.ltb_lt _ (zlen vs))) by lia. cbn [andb fst]. rewrite drop_ge, app_nil_r by (unfold zlen in *; lia). rewrite drop_reverse, reverse_involutive. f_equal. unfold zlen in *. lia.
Qed.

Lemma taken_length where_ n vs : 0 <= n <= zlen vs -> zlen (taken where_ n vs).1 = n.
Proof. intros Hn. unfold taken. cbv zeta. destruct where_; cbn [fst]; unfold zlen in *; rewrite length_take, ?length_reverse; lia. Qed.

Lemma bulk_obj_spec value : ovalid value -> bulk_obj value = Ok (addReplyBulk (otext value)).
Proof. intros Hv. unfold bulk_obj. by rewrite (decoded_spec _ Hv). Qed.

Lemma pop_one F h o vs where_ : lrep F h o vs -> vs <> [] ->
  yields ('(h, o, value) ← listTypePop h o where_; value ← match value with Some v => Ok v | None => Fault AssertFailed end; r ← bulk_obj value; '(h, key, es) ← listElementsRemoved h where_ o 1; done h key es [r])
    (meets F (spec_pop (Some (SList vs)) where_ [])).
Proof.
  intros Hl Hne. cbn [spec_pop on_list]. eapply yields_bind; [by apply (lpop_spec Hhtab F h o vs where_)|]. intros [[h1 o1] value]. cbn [fst snd]. destruct (lpopped_some where_ vs Hne) as (v & vs' & ->). intros (x & -> & Hx & <- & Hl1). cbn [mbind res_bind]. rewrite (bulk_obj_spec _ Hx). cbn [mbind res_bind].
  eapply yields_bind; [by apply (elements_removed_spec F h1 where_ o1 vs' 1)|]. intros [[h2 key] es] [Hk E]. cbn [fst snd] in *. subst es. by apply meets_done.
Qed.

Lemma pop_many {A} F h o vs where_ n (k : heap -> option kobj -> list effect -> list reply -> res A) (R : A -> Prop) : lrep F h o vs -> vs <> [] -> 0 < n -> let m := Z.min n (zlen vs) in
  (forall h' key, krep F h' key (stored (taken where_ m vs).2) -> yields (k h' key (notifyKeyspaceEvent NOTIFY_LIST (pop_event where_) :: del_effect (taken where_ m vs).2 ++ [signalModifiedKey; Dirty m]) (range_reply (taken where_ m vs).1)) R) ->
  yields ('(h, o, rs) ← addListRangeReply h o (first_of_range where_ m) (last_of_range where_ m) (match where_ with LIST_HEAD => false | LIST_TAIL => true end);
      '(h, o) ← listTypeDelRange h o (first_of_range where_ m) m; '(h, key, es) ← listElementsRemoved h where_ o m; k h key es rs) R.
Proof.
  intros Hl Hne Hn m Hk. pose proof (weight_room _ (lrep_weight _ _ _ _ Hl)) as Hlen. assert (0 < zlen vs) by (destruct vs as [|v l]; [done|]; rewrite zlen_cons; pose proof (zlen_nonneg l); lia). assert (0 < m <= zlen vs) as Hm by lia. clearbody m.
  assert (is_i64 (first_of_range where_ m) /\ is_i64 (last_of_range where_ m)) as [Hf Hla] by (unfold is_i64, INT64_MIN, INT64_MAX; destruct where_; cbn [first_of_range last_of_range]; lia).
  pose proof (addRange_spec Hhtab F h o vs _ _ (match where_ with LIST_HEAD => LIST_TAIL | LIST_TAIL => LIST_HEAD end) Hl Hf Hla) as Hr. rewrite <- (taken_rest where_ m vs Hm), <- (taken_slice where_ m vs Hm) in Hk.
  eapply yields_bind; [replace (match where_ with LIST_HEAD => false | LIST_TAIL => true end) with (match (match where_ with LIST_HEAD => LIST_TAIL | LIST_TAIL => LIST_HEAD end) with LIST_HEAD => true | LIST_TAIL => false end) by (by destruct where_); exact Hr|]. intros [[h1 o1] rs] [Hl1 ->].
  eapply yields_bind; [apply (ldelrange_spec Hhtab F h1 o1 vs _ m Hl1 Hf); unfold INT64_MAX; lia|]. intros [h2 o2] Hl2. cbn [fst snd] in Hl2.
  eapply yields_bind; [exact (elements_removed_spec F h2 where_ o2 _ m Hl2)|]. intros [[h3 key] es] [Hk3 E]. cbn [fst snd] in *. subst es. specialize (Hk h3 key Hk3). by destruct where_.
Qed.

Lemma pop_call F h key sk where_ args : krep F h key sk -> yields (call h key (Pop where_ args)) (meets F (spec_call sk (Pop where_ args))).
Proof.
  intros Hk. cbn [call spec_call]. unfold popGenericCommand. destruct args as [|count [|a args]]; cbn [fmap list_fmap mbind res_bind].
  - cbn [spec_pop]. destruct (key_cases _ _ _ _ Hk) as [[-> ->]|[[-> ->]|(o & vs & -> & -> & Hl & Hne)]]; cbn [on_list]; [by apply meets_done|by apply meets_done|]. by apply pop_one.
  - cbn [spec_pop]. rewrite positive_arg_spec. cbn [mbind res_bind]. destruct (positive_arg count None) as [e|n] eqn:En; cbn [with_arg]; [by apply meets_done|]. apply range_arg_in in En.
    destruct (key_cases _ _ _ _ Hk) as [[-> ->]|[[-> ->]|(o & vs & -> & -> & Hl & Hne)]]; cbn [on_list]; [by apply meets_done|by apply meets_done|]. cbn [andb]. destruct (Z.eqb_spec n 0) as [->|Hn0]; [by apply meets_done|].
    destruct (llength_spec _ _ _ _ Hl) as (o1 & -> & Hl1 & _). cbn [mbind res_bind]. cbv zeta. assert ((if zlen vs <? n then zlen vs else n) = Z.min n (zlen vs)) as -> by (destruct (Z.ltb_spec (zlen vs) n); lia).
    fold (taken where_ (Z.min n (zlen vs)) vs). pose proof (taken_length where_ (Z.min n (zlen vs)) vs) as Ht. pose proof (zlen_nonneg vs). specialize (Ht ltac:(lia)).
    pose proof (pop_many F h o1 vs where_ n done (meets F (left_over (notifyKeyspaceEvent NOTIFY_LIST (pop_event where_)) (taken where_ (Z.min n (zlen vs)) vs).2 [signalModifiedKey; Dirty (Z.min n (zlen vs))] (range_reply (taken where_ (Z.min n (zlen vs)) vs).1))) Hl1 Hne ltac:(lia)) as Hp. cbv zeta in Hp.
    specialize (Hp ltac:(intros h' key' Hk'; by apply meets_done)). destruct (taken where_ (Z.min n (zlen vs)) vs) as [out rest]. cbn [fst snd] in *. rewrite Ht. destruct where_; exact Hp.
  - by apply meets_done.
Qed.

Lemma trim_rest vs s e : is_i64 s -> is_i64 e -> zlen vs < 2 ^ 31 ->
  let n := zlen vs in let st := clip_start n s in
  let '(l, r) := if (((if e <? 0 then n + e else e) <? st) || (n <=? st)) then (n, 0) else (st, n - clip_end n e - 1) in
  (without_range (without_range vs 0 l).1 (- r) r).1 = slice vs s e /\ 0 <= l <= n /\ 0 <= r <= n /\ l + r = n - zlen (slice vs s e).
Proof.
  intros Hs He Hn n st. pose proof (zlen_nonneg vs) as Hn0. fold n in Hn0. pose proof (slice_length vs s e) as Hsl. fold n st in Hsl. assert (0 <= st) as Hst by (unfold st, clip_start; lia). assert (clip_end n e = Z.min (n - 1) (if e <? 0 then n + e else e)) as Ee by done.
  assert (forall l (ws : list bytes), 0 <= l <= zlen ws -> (without_range ws 0 l).1 = drop (Z.to_nat l) ws) as Hdrop.
  { intros l ws Hl. unfold without_range, from_front. cbv zeta. change (0 <? 0) with false. cbn iota. destruct (Z.ltb_spec 0 l); cbn [andb]; [|replace (Z.to_nat l) with 0%nat by lia; done]. rewrite (proj2 (Z.leb_le 0 0)), (proj2 (Z.ltb_lt 0 (zlen ws))) by lia. cbn [andb fst]. by rewrite Z.add_0_l. }
  assert (forall r (ws : list bytes), 0 <= r <= zlen ws -> (without_range ws (- r) r).1 = take (length ws - Z.to_nat r) ws) as Htake.
  { intros r ws Hr. unfold without_range, from_front. cbv zeta. destruct (Z.ltb_spec 0 r); cbn [andb fst]; [|replace (Z.to_nat r) with 0%nat by lia; by rewrite Nat.sub_0_r, firstn_all]. rewrite (proj2 (Z.ltb_lt (- r) 0)) by lia. rewrite (proj2 (Z.leb_le 0 _)), (proj2 (Z.ltb_lt _ (zlen ws))) by lia. cbn [andb fst].
    rewrite drop_ge, app_nil_r by (unfold zlen in *; lia). f_equal. unfold zlen in *. lia. }
  destruct (_ || _) eqn:Eo.
  - assert (slice vs s e = []) as -> by (apply zlen_nil_inv; apply orb_true_iff in Eo as [?%Z.ltb_lt|?%Z.leb_le]; lia). rewrite (Hdrop n vs) by (fold n; lia). rewrite drop_ge by (unfold n, zlen in *; lia). rewrite (Htake 0 []) by (by vm_compute). change (zlen (@nil bytes)) with 0. split; [done|lia].
  - apply orb_false_iff in Eo as [E1%Z.ltb_ge E2%Z.leb_gt]. rewrite (Hdrop st vs) by (fold n; lia). assert (zlen (drop (Z.to_nat st) vs) = n - st) as Hd by (unfold n, zlen in *; rewrite length_drop; lia). rewrite Htake by (rewrite Hd; lia). split; [|lia].
    unfold slice. cbv zeta. fold n st. f_equal. unfold zlen in *. lia.
Qed.

Lemma trim_call F h key sk start end_ : krep F h key sk -> yields (call h key (Trim start end_)) (meets F (spec_call sk (Trim start end_))).
Proof.
  intros Hk. cbn [call spec_call]. unfold ltrimCommand, spec_trim. rewrite !long_arg_spec. cbn [mbind res_bind]. destruct (long_arg start None) as [e|s] eqn:Es; cbn [with_arg]; [by apply meets_done|]. destruct (long_arg end_ None) as [e'|e] eqn:Ee; cbn [with_arg]; [by apply meets_done|]. apply long_arg_i64 in Es, Ee.
  destruct (key_cases _ _ _ _ Hk) as [[-> ->]|[[-> ->]|(o & vs & -> & -> & Hl & Hne)]]; cbn [on_list]; [by apply meets_done|by apply meets_done|]. pose proof (weight_room _ (lrep_weight _ _ _ _ Hl)) as Hlen.
  destruct (llength_spec _ _ _ _ Hl) as (o1 & -> & Hl1 & _). cbn [mbind res_bind]. cbv zeta. rewrite !clip_add by (lia || done). rewrite clip_start_if. pose proof (trim_rest vs s e Es Ee ltac:(lia)) as Ht. cbv zeta in Ht. set (st := clip_start (zlen vs) s) in *. set (en := if e <? 0 then zlen vs + e else e) in *.
  assert ((if zlen vs <=? en then zlen vs - 1 else en) = clip_end (zlen vs) e) as -> by (unfold clip_end; fold en; destruct (Z.leb_spec (zlen vs) en); lia). destruct (if (en <? st) || (zlen vs <=? st) then (zlen vs, 0) else (st, zlen vs - clip_end (zlen vs) e - 1)) as [l r]. destruct Ht as (Ht & Hl0 & Hr0 & Esum).
  eapply yields_bind; [apply (ldelrange_spec Hhtab F h o1 vs 0 l Hl1); [done|unfold INT64_MAX; lia]|]. intros [h2 o2] Hl2. cbn [fst snd] in Hl2.
  eapply yields_bind; [apply (ldelrange_spec Hhtab F h2 o2 _ (- r) r Hl2); unfold is_i64, INT64_MIN, INT64_MAX; lia|]. intros [h3 o3] Hl3. cbn [fst snd] in Hl3. rewrite Ht in Hl3.
  eapply yields_bind; [exact (delete_if_empty_spec F h3 o3 _ Hl3)|]. intros [[h4 key] es] [Hk4 E]. cbn [fst snd] in *. subst es. rewrite Esum. by apply meets_done.
Qed.

(** ** LPOS *)

Definition count_of (count : option Z) : Z := default (-1) count.

Lemma options_spec opts : forall rank count maxlen, lpos_options (SdsObj <$> opts) rank (count_of count) maxlen = Ok (match spec_options opts rank count maxlen with inl e => inl e | inr (r, c, m) => inr (r, count_of c, m) end).
Proof.
  induction opts as [opts IH] using (induction_ltof1 _ length). unfold ltof in IH. intros rank count maxlen. destruct opts as [|opt [|v opts]]; cbn [fmap list_fmap lpos_options spec_options]; [done|done|]. unfold is_word. specialize (IH opts ltac:(cbn; lia)).
  destruct (strcasecmp opt (bytes_of_string "RANK")); [rewrite range_arg_spec; cbn [mbind res_bind]; destruct (range_arg _ _ _ _); [done|]; destruct (_ =? 0); [done|]; apply IH|].
  destruct (strcasecmp opt (bytes_of_string "COUNT")); [rewrite positive_arg_spec; cbn [mbind res_bind]; destruct (positive_arg _ _) as [|n]; [done|]; apply (IH rank (Some n) maxlen)|].
  destruct (strcasecmp opt (bytes_of_string "MAXLEN")); [|done]. rewrite positive_arg_spec; cbn [mbind res_bind]; destruct (positive_arg _ _); [done|]; apply IH.
Qed.

Definition options_ok (rank : Z) (count : option Z) : Prop := rank <> 0 /\ - LONG_MAX <= rank <= LONG_MAX /\ match count with Some n => 0 <= n | None => True end.

Lemma options_valid opts : forall rank count maxlen r, options_ok rank count -> spec_options opts rank count maxlen = inr r -> options_ok r.1.1 r.1.2.
Proof.
  induction opts as [opts IH] using (induction_ltof1 _ length). unfold ltof in IH. intros rank count maxlen r Hok. destruct opts as [|opt [|v opts]]; cbn [spec_options]; [by intros [= <-]|done|]. specialize (IH opts ltac:(cbn; lia)). pose proof Hok as (Hr0 & Hrr & Hcc).
  destruct (strcasecmp opt _); [destruct (range_arg _ _ _ _) eqn:E; [done|]; destruct (Z.eqb_spec z 0); [done|]; apply range_arg_in in E; by apply IH|].
  destruct (strcasecmp opt _); [destruct (positive_arg _ _) eqn:E; [done|]; apply range_arg_in in E; apply IH; (split; [done|]; split; [done|lia])|].
  destruct (strcasecmp opt _); [|done]. destruct (positive_arg _ _) eqn:E; [done|]. by apply IH.
Qed.

Lemma positions_nonneg dir n s l : forall i, 0 <= i -> i + zlen l <= n -> Forall (fun p => 0 <= p) (positions (position_of dir n) s l i).
Proof.
  induction l as [|v l IH]; intros i Hi Hn; cbn [positions]; [constructor|]. rewrite zlen_cons in Hn. pose proof (zlen_nonneg l). case_bool_decide; [|apply IH; lia]. constructor; [|apply IH; lia]. destruct dir; cbn [position_of]; lia.
Qed.

Lemma within_length maxlen i l : zlen (within maxlen i l) <= zlen l.
Proof. unfold within. destruct (maxlen =? 0); [done|]. unfold zlen. rewrite length_take. lia. Qed.

Lemma pos_call F h key sk ele opts : krep F h key sk -> yields (call h key (Pos ele opts)) (meets F (spec_call sk (Pos ele opts))).
Proof.
  intros Hk. cbn [call spec_call]. unfold lposCommand, spec_pos. rewrite (options_spec opts 1 None 0 : lpos_options _ 1 (-1) 0 = _). cbn [mbind res_bind]. destruct (spec_options opts 1 None 0) as [e|[[rank count] maxlen]] eqn:Eo; cbn [with_arg]; [by apply meets_done|].
  apply options_valid in Eo as (Hr0 & _ & Hcnt); [|done]. cbn [fst snd] in *. set (dir := if rank <? 0 then LIST_HEAD else LIST_TAIL).
  assert ((if rank <? 0 then (- rank, LIST_HEAD) else (rank, LIST_TAIL)) = (Z.abs rank, dir)) as -> by (unfold dir; destruct (Z.ltb_spec rank 0); f_equal; lia). assert (forall (A : Type) (a b : A), (if negb (count_of count =? -1) then a else b) = match count with Some _ => a | None => b end) as Eif.
  { intros A a b. destruct count as [n|]; cbn [count_of default]; [|done]. by rewrite (proj2 (Z.eqb_neq _ _)) by (unfold count_of; cbn; lia). } rewrite !Eif.
  destruct (key_cases _ _ _ _ Hk) as [[-> ->]|[[-> ->]|(o & vs & -> & -> & Hl & Hne)]]; cbn [on_list]; [by apply meets_done|by apply meets_done|].
  eapply yields_bind; [by apply (linit_end F h o vs dir)|]. intros li (Hd & _ & before & after & Hc & Ha & _). destruct (llength_cursor _ _ _ _ _ _ _ Hc) as (o1 & -> & Hc1 & Hfuel). cbn [mbind res_bind].
  assert (length (from_end dir vs) < rounds o1)%nat as Hf by (unfold from_end, rounds; destruct dir, o1; rewrite ?length_reverse; lia).
  eapply yields_bind; [apply (lpos_loop_spec Hhtab F o1 vs ele dir (zlen vs) (Z.abs rank) (count_of count) maxlen (rounds o1) h li before after 0 0 Hc1 Hd); [by rewrite Ha|]|].
  { split; [lia|]. split; [lia|]. destruct count as [n|]; [|by left; split; [|lia]]. change (count_of (Some n)) with n. right. destruct (decide (n = 0)); [by left|right; lia]. }
  intros [[[h1 li1] m] rs] [Hcl Hans]. rewrite Ha in Hans. eapply yields_bind; [exact Hcl|]. intros h2 Hl2. set (l := within maxlen 0 (from_end dir vs)) in *.
  assert (found_positions ele vs rank maxlen = drop (Z.to_nat (Z.abs rank - 1 - 0)) (positions (position_of dir (zlen vs)) ele l 0)) as Efp by (unfold found_positions; cbv zeta; fold dir; by rewrite Z.sub_0_r).
  assert (Forall (fun p => 0 <= p) (found_positions ele vs rank maxlen)) as Hnn. { rewrite Efp. apply Forall_drop, positions_nonneg; [done|]. unfold l. etrans; [apply Z.add_le_mono_l, within_length|]. unfold from_end, zlen. destruct dir; rewrite ?length_reverse; lia. }
  unfold lpos_answer, selected in Hans. rewrite <- Efp in Hans. apply meets_answer; [by split|]. destruct count as [n|].
  - change (count_of (Some n)) with n in *. rewrite (proj2 (Z.eqb_neq n (-1))) in Hans by lia. subst rs. rewrite zlen_fmap. replace (n - Z.max 0 (0 - Z.abs rank + 1)) with n by lia. done.
  - change (count_of None =? -1) with true in Hans. destruct Hans as [-> ->]. destruct (found_positions ele vs rank maxlen) as [|p ps]; [done|]. change (default (-1) (head (p :: ps))) with p. apply Forall_cons_1 in Hnn as [Hp _]. by rewrite (proj2 (Z.eqb_neq p (-1))) by lia.
Qed.

(** ** LREM *)

Lemma length_from_end dir vs : length (from_end dir vs) = length vs.
Proof. destruct dir; [apply length_reverse|done]. Qed.

Lemma zlen_from_end dir vs : zlen (from_end dir vs) = zlen vs.
Proof. unfold zlen. by rewrite length_from_end. Qed.

Lemma from_end_twice dir vs : from_end dir (from_end dir vs) = vs.
Proof. destruct dir; [apply reverse_involutive|done]. Qed.

Lemma remove_same lim x l : zlen l - zlen (remove_some lim x l) = 0 -> remove_some lim x l = l.
Proof.
  revert lim. induction l as [|v l IH]; intros lim Hlen; [done|]. cbn [remove_some] in *. case_bool_decide.
  - destruct lim as [[|n]|]; [done|..]; rewrite zlen_cons in Hlen; [pose proof (remove_length (Some n) x l)|pose proof (remove_length None x l)]; unfold zlen in *; lia.
  - rewrite !zlen_cons in Hlen. by rewrite IH by lia.
Qed.

Lemma rem_call F h key sk count ele : krep F h key sk -> yields (call h key (Rem count ele)) (meets F (spec_call sk (Rem count ele))).
Proof.
  intros Hk. cbn [call spec_call]. unfold lremCommand, spec_rem. rewrite range_arg_spec. cbn [mbind res_bind]. destruct (range_arg count _ _ None) as [e|n] eqn:En; cbn [with_arg]; [by apply meets_done|].
  destruct (key_cases _ _ _ _ Hk) as [[-> ->]|[[-> ->]|(o & vs & -> & -> & Hl & Hne)]]; cbn [on_list]; [by apply meets_done|by apply meets_done|].
  set (dir := if n <? 0 then LIST_HEAD else LIST_TAIL). assert ((if n <? 0 then (- n, -1, LIST_HEAD) else (n, 0, LIST_TAIL)) = (Z.abs n, match dir with LIST_HEAD => -1 | LIST_TAIL => 0 end, dir)) as -> by (unfold dir; destruct (Z.ltb_spec n 0); do 2 f_equal; lia).
  eapply yields_bind; [by apply (linit_end F h o vs dir)|]. intros li (Hd & Hown & before & after & Hc & Ha & Hj). pose proof (rounds_enough _ _ _ _ Hl) as Hf.
  pose proof (lrem_loop_spec Hhtab F ele (Z.abs n) (rounds o) h o vs li before after 0 Hc Hown) as Hloop. rewrite Hd, Ha in Hloop. cbv zeta in Hloop. rewrite Hj in Hloop. set (lim := limit_of (Z.abs n) 0) in *.
  assert (from_end dir (remove_some lim ele (from_end dir vs)) = if n <? 0 then reverse (remove_some lim ele (reverse vs)) else remove_some lim ele vs) as Evs by (unfold dir; by destruct (n <? 0)). rewrite <- Evs. clear Evs.
  set (l := from_end dir vs) in *. set (l' := remove_some lim ele l) in *. set (vs' := from_end dir l'). assert (zlen l - zlen l' = zlen vs - zlen vs') as Ed by (unfold vs', l; by rewrite !zlen_from_end).
  eapply yields_bind; [apply Hloop; [unfold l; rewrite length_from_end; lia|lia]|]. intros [[[h1 o1] li1] removed] [-> Hcl]. rewrite Z.add_0_l, Ed. eapply yields_bind; [exact Hcl|]. intros h2 Hl2. fold vs' in Hl2. assert (0 <= zlen vs - zlen vs') as Hpos by (rewrite <- Ed; pose proof (remove_length lim ele l); unfold l', zlen; lia).
  cbv zeta. destruct (Z.eqb_spec (zlen vs - zlen vs') 0) as [E0|Hn0].
  - cbn [mbind res_bind]. rewrite E0. change (Z.to_nat 0) with 0%nat. cbn [replicate app]. assert (vs' = vs) as Evs by (unfold vs', l'; rewrite remove_same by (fold l'; lia); apply from_end_twice). rewrite Evs in Hl2. by apply meets_done.
  - destruct (delete_if_empty_spec F h2 o1 vs' Hl2) as ([[h3 key] es] & -> & Hk3 & E). cbn [mbind res_bind fst snd] in *. subst es. by apply meets_done.
Qed.

(** ** Every command *)

Lemma call_simulates F h key sk c : krep F h key sk -> call_ok sk c -> yields (call h key c) (meets F (spec_call sk c)).
Proof.
  intros Hk Hok. destruct c; [by apply push_call|by apply insert_call|by apply len_call|by apply index_call|by apply set_call|by apply range_call|by apply pop_call|by apply trim_call|by apply pos_call|by apply rem_call].
Qed.

End spec.
End TListSpec.
