(* ===== verification/TListKeys.v ===== *)
(** * Lists: the commands on a database of lists

    The lists of all keys share one heap.  A command on one key leaves the others
    alone, and LMOVE takes an element from one list to another or to the other end
    of the same list; any sequence of commands answers as it does on a map from
    keys to lists of strings. *)

From S2P Require Import Prelude Util ListpackEnc Listpack ListpackTheory Lzf LzfSpec Dll Quicklist QuicklistNode QuicklistValues QuicklistOps Rio Rdb RdbSpec NetworkingTheory TList TListCmd TListTheory TListIter TListLoops TListSpec.
From stdpp Require Import list gmap fin_maps strings.
#[local] Open Scope Z_scope.

Module TListKeys.
Import Dll Quicklist QuicklistNode QuicklistValues QuicklistOps TList TListCmd TListTheory TListIter TListLoops TListSpec.

(** ** The commands *)

Inductive db_command : Type :=
| OnKey (k : bytes) (c : command)
| Move (src dst : bytes) (from to : bytes)
| RPopLPush (src dst : bytes)
| MPop (args : list bytes).

Section run.
Context `{Allocator} `{Environment} `{ListConfig}.



End run.

(** ** The same on a map from keys to lists of strings *)

Abbreviation sdb := (gmap bytes skey).
Definition db_answer : Type := sdb * list (bytes * effect) * list reply.

Definition position_arg (s : bytes) : arg lend := if strcasecmp s (bytes_of_string "right") then inr LIST_TAIL else if strcasecmp s (bytes_of_string "left") then inr LIST_HEAD else inl syntaxerr.

Definition db_fails (M : sdb) (e : error) : db_answer := (M, [], [addReplyError e]).

(** The element [v] goes from the first list, which leaves [vs] there, to the
    second, which may be the same one. *)
Definition moved (M : sdb) (src dst : bytes) (wherefrom whereto : lend) (v : bytes) (vs : list bytes) : db_answer :=
  let M := <[src := SList vs]> M in
  let M := <[dst := SList (lpushed whereto v (contents (M !! dst)))]> M in
  let rest := contents (M !! src) in
  (partial_alter (fun _ => stored rest) src M,
   on_key dst [signalModifiedKey; notifyKeyspaceEvent NOTIFY_LIST (push_event whereto)] ++
   on_key src (notifyKeyspaceEvent NOTIFY_LIST (pop_event wherefrom) :: del_effect rest ++ [signalModifiedKey; Dirty 1]),
   [addReplyBulk v]).

Definition spec_move (M : sdb) (src dst : bytes) (wherefrom whereto : lend) : db_answer :=
  match M !! src with
  | None => (M, [], [addReplyNull])
  | Some SOther => db_fails M wrongtypeerr
  | Some (SList vs) =>
    match M !! dst, lpopped wherefrom vs with
    | Some SOther, _ => db_fails M wrongtypeerr
    | _, None => (M, [], [addReplyNull])
    | _, Some (v, vs) => moved M src dst wherefrom whereto v vs
    end
  end.

(** From the first of the keys that holds a list. *)
Fixpoint spec_mpop (M : sdb) (keys : list bytes) (where_ : lend) (count : Z) : db_answer :=
  match keys with
  | [] => (M, [], [addReplyNullArray])
  | key :: keys =>
    match M !! key with
    | None => spec_mpop M keys where_ count
    | Some SOther => db_fails M wrongtypeerr
    | Some (SList vs) =>
      let n := Z.min count (zlen vs) in
      let '(out, rest) := taken where_ n vs in
      (partial_alter (fun _ => stored rest) key M,
       on_key key ((notifyKeyspaceEvent NOTIFY_LIST (pop_event where_) :: del_effect rest ++ [signalModifiedKey; Dirty n]) ++
         [rewriteClientCommandVector [bytes_of_string (match where_ with LIST_HEAD => "LPOP" | LIST_TAIL => "RPOP" end); key; Util.decimal n]]),
       addReplyArrayLen 2 :: addReplyBulk key :: range_reply out)
    end
  end.

(** COUNT, at most once. *)
Definition count_option (opts : list bytes) : arg (option Z) :=
  match opts with
  | [] => inr None
  | [opt; v] =>
    if strcasecmp opt (bytes_of_string "COUNT") then match range_arg v 1 LONG_MAX (Some "count should be greater than 0") with inl e => inl e | inr n => inr (Some n) end
    else inl syntaxerr
  | opt :: v :: _ =>
    if strcasecmp opt (bytes_of_string "COUNT") then match range_arg v 1 LONG_MAX (Some "count should be greater than 0") with inl e => inl e | inr _ => inl syntaxerr end
    else inl syntaxerr
  | _ => inl syntaxerr
  end.

Definition spec_lmpop (M : sdb) (args : list bytes) : db_answer :=
  match args with
  | [] => db_fails M arityerr
  | n :: rest =>
    match range_arg n 1 LONG_MAX (Some "numkeys should be greater than 0") with
    | inl e => db_fails M e
    | inr numkeys =>
      if zlen rest <=? numkeys then db_fails M syntaxerr else
      match position_arg (default [] (rest !! Z.to_nat numkeys)), count_option (drop (S (Z.to_nat numkeys)) rest) with
      | inl e, _ | _, inl e => db_fails M e
      | inr where_, inr count => spec_mpop M (take (Z.to_nat numkeys) rest) where_ (default 1 count)
      end
    end
  end.

Definition spec_db_call (M : sdb) (c : db_command) : db_answer :=
  match c with
  | OnKey k c => let '(sk, es, rs) := spec_call (M !! k) c in (partial_alter (fun _ => sk) k M, on_key k es, rs)
  | Move src dst from to =>
    match position_arg from, position_arg to with
    | inl e, _ | _, inl e => db_fails M e
    | inr wherefrom, inr whereto => spec_move M src dst wherefrom whereto
    end
  | RPopLPush src dst => spec_move M src dst LIST_TAIL LIST_HEAD
  | MPop args => spec_lmpop M args
  end.


(** A list that takes a moved element has room for it; the number of keys of LMPOP
    leaves the position of the argument after them within a [long]. *)
Definition move_ok (M : sdb) (src dst : bytes) : Prop := Forall (fun v => weight (v :: contents (M !! dst)) < 2 ^ 31) (contents (M !! src)).

Definition db_call_ok (M : sdb) (c : db_command) : Prop :=
  match c with OnKey k c => call_ok (M !! k) c | Move src dst _ _ | RPopLPush src dst => move_ok M src dst | MPop args => match args with n :: _ => match NetworkingTheory.parse_ll n with Some v => v <= LONG_MAX - 2 | None => True end | [] => True end end.

Fixpoint db_calls_ok (M : sdb) (cs : list db_command) : Prop :=
  match cs with [] => True | c :: cs => db_call_ok M c /\ db_calls_ok (spec_db_call M c).1.1 cs end.

#[export] Instance db_call_ok_dec M c : Decision (db_call_ok M c).
Proof. destruct c as [| | |args]; cbn [db_call_ok]; unfold move_ok; [apply _..|]. destruct args as [|n args]; [apply _|]. destruct (NetworkingTheory.parse_ll n); apply _. Defined.

#[export] Instance db_calls_ok_dec cs : forall M, Decision (db_calls_ok M cs).
Proof. induction cs as [|c cs IH]; intros M; cbn [db_calls_ok]; apply _. Defined.

(** ** The heap of a database *)

Section db.
Context `{Allocator} `{Environment} `{ListConfig} (Hhtab : LzfSpec.valid_htab htab) (Hcfg : fill_int list_max_listpack_size).













(** ** LMOVE *)









(** ** LMPOP *)





(** ** Every command *)





End db.
(** Three elements to a node and inner nodes compressed: the first list becomes a
    quicklist and a listpack again, elements move between the lists and around
    one of them, a key of another type refuses, and the last LTRIM deletes the last
    list. *)
#[local] Existing Instance calloc8.
#[local] Instance sample_env : Environment := {| packed_threshold := 300; htab := fun _ => 0 |}.
#[local] Instance sample_config : ListConfig := {| list_max_listpack_size := 3; list_compress_depth := 1 |}.

#[local] Abbreviation b := bytes_of_string.



End TListKeys.
