(* ===== verification/TListEdge.v ===== *)
(** * Lists: beyond the limits

    What happens outside the conditions of the refinement: an index of LSET that
    does not fit an [int], more elements in one RPUSH than the count of a quicklist
    node holds, and a number of keys of LMPOP that overflows. *)

From S2P Require Import Prelude Util ListpackEnc Listpack ListpackTheory Lzf LzfSpec Dll Quicklist QuicklistValues QuicklistOps QuicklistEdit QuicklistIter QuicklistRange Rio Rdb RdbSpec NetworkingTheory TList TListCmd TListTheory TListIter TListLoops TListSpec.
From stdpp Require Import list gmap fin_maps strings.
#[local] Open Scope Z_scope.

Module TListEdge.
Import Dll Quicklist QuicklistValues QuicklistOps QuicklistEdit QuicklistIter QuicklistRange TList TListCmd TListTheory TListIter TListLoops TListSpec.

#[local] Abbreviation repr := ListpackTheory.repr.
#[local] Abbreviation lptotal := ListpackTheory.total.
#[local] Abbreviation text := LP.text.
#[local] Abbreviation parse_ll := NetworkingTheory.parse_ll.

Section edge.
Context `{Allocator} `{Environment} `{ListConfig} (Hhtab : LzfSpec.valid_htab htab) (Hcfg : fill_int list_max_listpack_size).

(** ** The index of LSET *)

Lemma parse_text v : is_i64 v -> parse_ll (Util.decimal v) = Some v.
Proof.
  intros Hv. unfold NetworkingTheory.parse_ll. destruct (Util.string2ll_spec (Util.decimal v) []) as (o & Ho & Hs). rewrite app_nil_r in Ho. rewrite Ho. by apply Hs.
Qed.

Lemma slice_all vs : slice vs 0 (-1) = vs.
Proof. unfold slice, clip_start, clip_end. cbv zeta. change (0 <? 0) with false. change (-1 <? 0) with true. cbn iota. change (Z.max 0 0) with 0. rewrite drop_0. apply take_ge. unfold zlen. lia. Qed.

(** What the key holds after the commands and their replies. *)
Fixpoint replies (h : heap) (key : option kobj) (cs : list command) : res (list (list reply)) :=
  match cs with [] => Ok [] | c :: cs => o ← call h key c; l ← replies (o_heap o) (o_key o) cs; Ok (o_reply o :: l) end.

Lemma replies_step F h key sk c cs l : krep F h key sk -> call_ok sk c -> (forall h' key', krep F h' key' (spec_call sk c).1.1 -> replies h' key' cs = Ok l) -> replies h key (c :: cs) = Ok ((spec_call sk c).2 :: l).
Proof. intros Hk Hok Hrest. cbn [replies]. destruct (call_simulates Hhtab Hcfg F h key sk c Hk Hok) as (o & -> & Hk' & _ & Er). cbn [mbind res_bind]. rewrite (Hrest _ _ Hk'). cbn [mbind res_bind]. by rewrite Er. Qed.

Lemma lset_truncates F h o vs i j value : lrep F h o vs -> is_i64 i -> at_index vs (i32 i) = Some j -> wf_bytes value -> weight (value :: vs) < 2 ^ 31 ->
  yields (call h (Some (KList o)) (Set_ (Util.decimal i) value)) (fun r => krep F (o_heap r) (o_key r) (Some (SList (<[j := value]> vs))) /\ o_reply r = [addReplyOk]).
Proof.
  intros Hl Hi Hj Hv Hw. cbn [call]. unfold lsetCommand. rewrite long_arg_spec. unfold long_arg. rewrite (parse_text i Hi). cbn [mbind res_bind]. pose proof Hw as Hw'. rewrite weight_cons in Hw'. pose proof (weight_nonneg vs).
  eapply yields_bind; [apply (convert_append_spec Hhtab Hcfg F h o vs [SdsObj value] Hl); cbn [fmap list_fmap otext]; rewrite weight_cons, weight_nil; lia|]. intros [h1 o1] [Hl1 _]. cbn [fst snd] in *.
  eapply yields_bind; [by apply (lreplace_spec Hhtab F h1 o1 vs i (SdsObj value))|]. intros [[h2 o2] r]. cbn [fst snd otext]. rewrite Hj. intros [-> Hl2].
  eapply yields_bind; [by apply (convert_shrink_spec Hhtab Hcfg F h2 o2)|]. intros [h3 o3] Hl3. apply yields_ok. split; [|done]. split; [done|]. intros E. apply (f_equal length) in E. rewrite length_insert in E. destruct vs; [|done]. unfold at_index in Hj. cbv zeta in Hj. change (zlen (@nil bytes)) with 0 in Hj. destruct (_ && _) eqn:Eb; [|done]. apply andb_true_iff in Eb as [?%Z.leb_le ?%Z.ltb_lt]. lia.
Qed.

(** LSET with an index that is 2^32 more than the position of an element
    replaces that element and replies OK, where LINDEX finds no element at the
    same index: the index is converted to an [int] on the way. *)
Theorem lset_index_wraps (values : list bytes) (j : nat) (value : bytes) : Forall wf_bytes (value :: values) -> weight (value :: values) < 2 ^ 31 -> zlen values <= 2 ^ 15 -> (j < length values)%nat ->
  let index := Util.decimal (2 ^ 32 + Z.of_nat j) in
  replies ∅ None [Push LIST_TAIL false values; Index index; Set_ index value; Range (Util.decimal 0) (Util.decimal (-1))] =
    Ok [[addReplyLongLong (zlen values)]; [addReplyNull]; [addReplyOk]; range_reply (<[j := value]> values)].
Proof.
  intros Hwf Hw Hn Hj index. apply Forall_cons_1 in Hwf as [Hv Hwf]. pose proof Hw as Hw'. rewrite weight_cons in Hw'. pose proof (zlen_nonneg value). assert (is_i64 (2 ^ 32 + Z.of_nat j)) as Hi by (unfold is_i64, INT64_MIN, INT64_MAX, zlen in *; lia).
  assert (values <> []) as Hne by (by intros ->; cbn in Hj; lia).
  refine (replies_step ∅ ∅ None None (Push LIST_TAIL false values) _ _ eq_refl _ _); [split_and!; [done|done|done|cbn [contents]; rewrite app_nil_r; lia]|]. intros h1 key1 Hk1. cbn [spec_call spec_push fst snd all_pushed app] in Hk1.
  assert ([addReplyNull] = (spec_call (Some (SList values)) (Index index)).2) as ->.
  { cbn [spec_call]. unfold spec_index, on_list, long_arg. unfold index. rewrite (parse_text _ Hi). cbn [with_arg snd]. unfold at_index, from_front. cbv zeta. rewrite (proj2 (Z.ltb_ge (2 ^ 32 + _) 0)) by lia. by rewrite (proj2 (Z.ltb_ge (2 ^ 32 + _) (zlen values))), andb_false_r by (unfold zlen in *; lia). }
  refine (replies_step ∅ h1 key1 (Some (SList values)) (Index index) _ _ Hk1 I _). intros h2 key2 Hk2. cbn [spec_call] in Hk2. unfold spec_index, on_list, long_arg, index in Hk2. rewrite (parse_text _ Hi) in Hk2. cbn [with_arg fst] in Hk2.
  destruct (key_cases _ _ _ _ Hk2) as [[_ [=]]|[[_ [=]]|(o & vs & -> & [= <-] & Hl & _)]]. cbn [replies]. unfold index. destruct (lset_truncates ∅ h2 o values (2 ^ 32 + Z.of_nat j) j value Hl Hi) as (r & -> & Hk3 & Er); [|done|done|].
  { assert (i32 (2 ^ 32 + Z.of_nat j) = Z.of_nat j) as -> by (unfold wraps; replace (2 ^ 32 + Z.of_nat j + 2 ^ (32 - 1)) with (Z.of_nat j + 2 ^ (32 - 1) + 1 * 2 ^ 32) by lia; rewrite Z_mod_plus_full, Z.mod_small; unfold zlen in *; lia). unfold at_index, from_front. cbv zeta. rewrite (proj2 (Z.ltb_ge (Z.of_nat j) 0)) by lia. rewrite (proj2 (Z.leb_le 0 _)), (proj2 (Z.ltb_lt _ (zlen values))) by (unfold zlen; lia). cbn [andb]. by rewrite Nat2Z.id. }
  cbn [mbind res_bind]. rewrite Er. pose proof (replies_step ∅ (o_heap r) (o_key r) _ (Range (Util.decimal 0) (Util.decimal (-1))) [] [] Hk3 I ltac:(done)) as E. cbn [replies] in E. destruct (call (o_heap r) (o_key r) _) as [r4|]; [|done]. cbn [mbind res_bind] in E |- *. injection E as ->. do 4 f_equal. apply slice_all.
Qed.

(** ** The count of a node *)

Lemma compress_alone h ql x n : h !! x = Some n -> recompress (dat n) = false -> head_ ql = Some x -> tail_ ql = Some x -> len ql = 1 -> 0 <= compress ql -> quicklistCompress h ql x = Ok h.
Proof.
  intros Hx Hr Hh Ht Hl Hc. unfold quicklistCompress, __quicklistCompress, node, get. rewrite Hh, Ht, Hl. cbn [the mbind res_bind]. rewrite Hx. cbn [mbind res_bind]. rewrite Hr. change (1 =? 0) with false. cbn [negb andb cassert mbind res_bind].
  assert ((compress ql =? 0) || (1 <? compress ql * 2) = true) as ->; [|done]. destruct (Z.eqb_spec (compress ql) 0); [done|]. cbn [orb]. apply Z.ltb_lt. lia.
Qed.

(** A listpack of 65536 elements becomes a node that counts none. *)
Lemma append_uncounted h lp es fill depth : repr lp es -> zlen es = 2 ^ 16 -> yields (quicklistAppendListpack h (quicklistNew fill depth) lp) (fun r => total r.2 = 0).
Proof.
  intros Hr Hn. unfold quicklistAppendListpack, quicklistCreateNode, alloc. set (x := fresh (dom h)). destruct (ListpackTheory.length_spec lp es Hr) as (lp1 & -> & Hr1 & _). cbn [mbind res_bind]. pose proof (put_here (<[x := free_node new_qnode]> h) x _ (lookup_insert_eq _ _ _)) as Ep. unfold free_node in Ep. rewrite Ep, set_entry_put. cbn [mbind res_bind].
  rewrite qupd_put. cbn [mbind res_bind]. rewrite (lpBytes_spec lp1 es Hr1). cbn [mbind res_bind]. rewrite qupd_put. cbn [mbind res_bind]. rewrite Hn. set (d := set_sz _ _). 
  assert (0 <= compress (quicklistNew fill depth)) as Hc. { cbn. change COMPRESS_MAX with (2 ^ 16 - 1). destruct (Z.ltb_spec (2 ^ 16 - 1) depth); [lia|]. destruct (Z.ltb_spec depth 0); lia. }
  unfold _quicklistInsertNodeAfter, __quicklistInsertNode. change (tail_ (quicklistNew fill depth)) with (@None loc). change (len (quicklistNew fill depth)) with 0. set (ql := quicklistNew fill depth) in *. unfold set_prev, modify. rewrite get_put. cbn [mbind res_bind Z.eqb]. rewrite bool_decide_eq_true_2 by done.
  rewrite (compress_alone _ _ x (with_prev None (with_dat d {| prev := None; next := None; dat := new_qnode |}))); [|apply lookup_insert_eq|done..]. cbn [mbind res_bind]. unfold node, get. rewrite lookup_insert_eq. cbn [mbind res_bind]. by apply yields_ok.
Qed.

Lemma exceeds_neg fill size cnt : INT32_MIN < fill < 0 -> exists l, 4096 <= l <= 65536 /\ quicklistNodeExceedsLimit fill size cnt = Ok (l <? size).
Proof.
  intros Hf. destruct (neg_limit_any fill Hf) as (l & El & Hl). exists l. split; [done|]. unfold quicklistNodeExceedsLimit, quicklistNodeLimit. rewrite (proj2 (Z.leb_gt 0 fill)) by lia. rewrite El. cbn [mbind res_bind]. by rewrite (proj2 (Z.eqb_neq l SIZE_MAX)) by (change SIZE_MAX with (2 ^ 64 - 1); lia).
Qed.

Lemma push_loop_listpack F values : forall lp es, repr lp es -> Forall wf_bytes values -> weight (values ++ (text <$> es)) < 2 ^ 31 ->
  exists lp' es', push_loop F (LISTPACK lp) LIST_TAIL (SdsObj <$> values) = Ok (F, LISTPACK lp') /\ repr lp' es' /\ text <$> es' = (text <$> es) ++ values.
Proof.
  induction values as [|v values IH]; intros lp es Hr Hwf Hw; [exists lp, es; by rewrite app_nil_r|]. apply Forall_cons_1 in Hwf as [Hv Hwf]. cbn [app] in Hw. rewrite weight_cons, weight_app in Hw. pose proof (weight_nonneg values).
  cbn [fmap list_fmap push_loop listTypePush]. destruct (push_lp lp es (SdsObj v) LIST_TAIL Hr Hv) as (lp1 & e & E & Ee & Hr1); [cbn [otext]; rewrite weight_cons; lia|]. cbn [otext] in Ee. rewrite E. cbn [mbind res_bind lp_ok].
  destruct (IH lp1 (es ++ [e]) Hr1 Hwf) as (lp' & es' & -> & Hr' & Et); [rewrite fmap_app, !weight_app; cbn [fmap list_fmap]; rewrite Ee, weight_cons, weight_nil; lia|]. exists lp', es'. split; [done|]. split; [done|]. rewrite Et, fmap_app. cbn [fmap list_fmap]. by rewrite Ee, <- app_assoc.
Qed.

Lemma add_bytes_empty n m : add_bytes (SdsObj <$> replicate n []) m = add_bytes [] m \/ m < 0 \/ 2 ^ 64 <= m.
Proof. destruct (decide (0 <= m < 2 ^ 64)) as [Hm|]; [left|right; lia]. induction n as [|n IH]; [done|]. cbn [replicate fmap list_fmap add_bytes]. change (zlen (@nil Z)) with 0. rewrite Z.add_0_r, wrapu_small by lia. exact IH. Qed.

Lemma push_empties n : list_max_listpack_size < 0 -> 0 < Z.of_nat n <= 2 ^ 20 ->
  exists lp es r, call ∅ None (Push LIST_TAIL false (replicate n [])) = Ok r /\ o_heap r = ∅ /\ o_key r = Some (KList (LISTPACK lp)) /\ o_reply r = [addReplyLongLong (Z.of_nat n)] /\ repr lp es /\ zlen es = Z.of_nat n /\ weight (text <$> es) < 2 ^ 31.
Proof.
  intros Hneg Hn. cbn [call]. unfold pushGenericCommand, createListListpackObject. destruct (ListpackTheory.new_spec 0) as (lp0 & -> & Hr0). cbn [mbind res_bind]. unfold listTypeTryConversionAppend, listTypeTryConversionRaw, listTypeTryConvertListpack.
  rewrite (lpBytes_spec lp0 [] Hr0). cbn [mbind res_bind]. destruct (ListpackTheory.length_spec lp0 [] Hr0) as (lp1 & -> & Hr1 & _). cbn [mbind res_bind]. destruct (add_bytes_empty n 0) as [->|]; [|lia]. change (u64 (lptotal [] + add_bytes [] 0)) with 7.
  destruct (exceeds_neg list_max_listpack_size 7 (u32 (zlen (@nil LP.elem) + zlen (SdsObj <$> replicate n []))) (conj (proj1 Hcfg) Hneg)) as (l & Hl & ->). cbn [mbind res_bind]. rewrite (proj2 (Z.ltb_ge l 7)) by lia. cbn [mbind res_bind].
  assert (weight (replicate n []) = 16 * Z.of_nat n) as Hwn. { clear. induction n as [|n IH]; [done|]. cbn [replicate]. rewrite weight_cons, IH. change (zlen (@nil Z)) with 0. lia. }
  destruct (push_loop_listpack ∅ (replicate n []) lp1 [] Hr1) as (lp' & es & -> & Hr' & Et); [apply Forall_replicate; constructor|cbn [fmap list_fmap]; rewrite app_nil_r, Hwn; lia|]. cbn [mbind res_bind fmap list_fmap app] in *.
  assert (zlen es = Z.of_nat n) as Hes by (rewrite <- (zlen_fmap text), Et; unfold zlen; by rewrite length_replicate). cbn [listTypeLength]. destruct (ListpackTheory.length_spec lp' es Hr') as (lp2 & -> & Hr2 & _). cbn [mbind res_bind]. exists lp2, es. eexists. split; [done|]. cbn [o_heap o_key o_reply]. rewrite Hes, Et, Hwn. split_and!; try done. lia.
Qed.

(** C40. With a limit in bytes on the listpacks of a list, one RPUSH of 65536
    empty strings to a new key leaves a listpack of 65536 elements; when the next
    command converts it, the quicklist counts none of them. *)
Theorem rpush_conversion_loses_count (values : list bytes) : list_max_listpack_size < 0 -> weight values < 2 ^ 31 ->
  exists r o, call ∅ None (Push LIST_TAIL false (replicate (Z.to_nat (2 ^ 16)) [])) = Ok r /\ o_reply r = [addReplyLongLong (2 ^ 16)] /\ o_key r = Some (KList o) /\
    exists h o', listTypeTryConversionAppend (o_heap r) o (SdsObj <$> values) = Ok (h, o') /\ listTypeLength o' = Ok (o', 0).
Proof.
  intros Hneg Hw. destruct (push_empties (Z.to_nat (2 ^ 16)) Hneg) as (lp & es & r & E & Eh & Ek & Er & Hr & Hn & Hwe); [lia|]. rewrite Z2Nat.id in * by lia. exists r, (LISTPACK lp). split; [exact E|]. split; [done|]. split; [done|]. rewrite Eh. clear E Eh Ek Er.
  unfold listTypeTryConversionAppend, listTypeTryConversionRaw, listTypeTryConvertListpack. rewrite (lpBytes_spec lp es Hr). cbn [mbind res_bind]. destruct (ListpackTheory.length_spec lp es Hr) as (lp1 & -> & Hr1 & _). cbn [mbind res_bind].
  pose proof (repr_ok _ _ Hr) as Hok. pose proof (total_weight es Hok). pose proof (ListpackTheory.zlen_body_ge es Hok). pose proof (add_bytes_bound (SdsObj <$> values) 0 ltac:(lia) ltac:(rewrite otext_args; lia)) as Hab. pose proof (ListpackTheory.total_eq es) as Et. rewrite (wrapu_small 64) by lia.
  destruct (exceeds_neg list_max_listpack_size (lptotal es + add_bytes (SdsObj <$> values) 0) (u32 (zlen es + zlen (SdsObj <$> values))) (conj (proj1 Hcfg) Hneg)) as (l & Hl & ->). cbn [mbind res_bind]. rewrite (proj2 (Z.ltb_lt l _)) by lia.
  destruct (ListpackTheory.length_spec lp1 es Hr1) as (lp2 & -> & Hr2 & _). cbn [mbind res_bind]. rewrite (proj2 (Z.eqb_neq (zlen es) 0)) by lia. cbn [negb]. destruct (append_uncounted ∅ lp2 es list_max_listpack_size list_compress_depth Hr2 Hn) as ([h ql] & -> & Ht). cbn [mbind res_bind]. exists h, (QUICKLIST ql). split; [done|]. cbn [listTypeLength]. unfold quicklistCount. cbn [snd] in Ht. by rewrite Ht.
Qed.

(** ** The number of keys of LMPOP *)

(** LMPOP with the largest number of keys that it accepts computes a negative
    position for the direction, since the sum overflows, and reads an argument
    there. *)
Theorem lmpop_numkeys_overflow (h : heap) (d : db) (args : list bytes) : lmpopGenericCommand h d (Util.decimal LONG_MAX :: args) = Fault OutOfBounds.
Proof.
  unfold lmpopGenericCommand. rewrite range_arg_spec. unfold range_arg, long_arg. rewrite parse_text by (unfold is_i64, LONG_MAX, INT64_MIN, INT64_MAX; lia). change ((1 <=? LONG_MAX) && (LONG_MAX <=? LONG_MAX)) with true. cbn [mbind res_bind]. cbv zeta. change (i64 (1 + LONG_MAX + 1)) with (- 2 ^ 63 + 1).
  rewrite (proj2 (Z.leb_gt _ _)) by (rewrite zlen_cons; pose proof (zlen_nonneg args); lia). done.
Qed.

End edge.
(** The default limit, 8192 bytes to a listpack. *)
#[local] Existing Instance calloc8.
#[local] Instance sample_env : Environment := {| packed_threshold := 300; htab := fun _ => 0 |}.
#[local] Instance sample_config : ListConfig := {| list_max_listpack_size := -2; list_compress_depth := 0 |}.

#[local] Abbreviation b := bytes_of_string.

Lemma lset_index_wraps_witness :
  replies ∅ None [Push LIST_TAIL false [b "a"; b "b"; b "c"]; Index (b "4294967297"); Set_ (b "4294967297") (b "x"); Range (b "0") (b "-1")] =
    Ok [[addReplyLongLong 3]; [addReplyNull]; [addReplyOk]; addReplyArrayLen 3 :: (addReplyBulk <$> [b "a"; b "x"; b "c"])].
Proof.
  assert (LzfSpec.valid_htab htab) as Hh by (intros i; vm_compute; reflexivity). assert (fill_int list_max_listpack_size) as Hf by (vm_compute; split; congruence).
  assert (Forall wf_bytes [b "x"; b "a"; b "b"; b "c"]) as Hwf by (apply (bool_decide_unpack _); vm_compute; exact I). assert (weight [b "x"; b "a"; b "b"; b "c"] < 2 ^ 31) as Hw by (vm_compute; congruence). assert (zlen [b "a"; b "b"; b "c"] <= 2 ^ 15) as Hn by (vm_compute; congruence).
  pose proof (lset_index_wraps Hh Hf [b "a"; b "b"; b "c"] 1 (b "x") Hwf Hw Hn ltac:(cbn; lia)) as E. cbv zeta in E.
  assert (Util.decimal (2 ^ 32 + Z.of_nat 1) = b "4294967297") as D1 by (vm_compute; reflexivity). assert (Util.decimal 0 = b "0") as D2 by (vm_compute; reflexivity). assert (Util.decimal (-1) = b "-1") as D3 by (vm_compute; reflexivity).
  rewrite D1, D2, D3 in E. rewrite E. f_equal.
Defined.

Lemma rpush_conversion_loses_count_witness :
  exists r o, call ∅ None (Push LIST_TAIL false (replicate (Z.to_nat (2 ^ 16)) [])) = Ok r /\ o_reply r = [addReplyLongLong (2 ^ 16)] /\ o_key r = Some (KList o) /\
    exists h o', listTypeTryConversionAppend (o_heap r) o [SdsObj (b "x")] = Ok (h, o') /\ listTypeLength o' = Ok (o', 0).
Proof.
  assert (fill_int list_max_listpack_size) as Hf by (vm_compute; split; congruence).
  assert (list_max_listpack_size < 0) as Hneg by (vm_compute; reflexivity). assert (weight [b "x"] < 2 ^ 31) as Hw by (vm_compute; reflexivity).
  exact (rpush_conversion_loses_count Hf [b "x"] Hneg Hw).
Defined.

End TListEdge.
